(* ===== verification/_CoqProject ===== *)
-Q . S2P
Prelude.v
Float64.v
Effects.v
Exchange.v
GoStrings.v
GoNumbers.v
GoJSON.v
Calendar.v
Timeframe.v
Settings.v
Market.v
ExchangeParse.v
RestKline.v
RestKlineSpec.v
RestKlineComplete.v
ExchangeParseSpec.v
Aggregator.v
Retention.v
SymbolSnapshot.v
Collector.v
CollectorSpec.v
CollectorConnections.v
CollectorPacing.v
CollectorStream.v
SnapshotWorker.v
MinuteAudit.v
Hub.v
Store.v
StoreReplace.v
MarketService.v
ServiceSafety.v
RollupRepair.v
GoTime.v
Partitions.v
Notify.v
Alerts.v
AlertsSpec.v
Integrity.v
IntegritySpec.v
IntegritySummarySpec.v
Registry.v
RegistrySpec.v
Monitor.v
MonitorSpec.v
ServiceConfig.v
ServiceSpec.v
TimeAudit.v
GapPlan.v
GapRepair.v
GapTransport.v
GapRun.v
GapRunSpec.v
GapJournalSpec.v
Guardian.v
GuardianSpec.v
GuardianTargets.v
GuardianMinute.v
GuardianMinuteSpec.v
GuardianAudit.v
GuardianAuditSpec.v
GuardianPool.v
GuardianLocks.v
Corporate.v
CorporateSpec.v
BackfillOptions.v
Backfill.v
BackfillSpec.v
Maintain.v
MaintainSpec.v
Watchdog.v
Server.v
ServerSpec.v
