(* ===== verification/Prelude.v ===== *)
(** * A verification library for crypto-ticket

    crypto-ticket collects candles ("klines") from two exchanges, keeps them in a
    store, derives the longer timeframes from the one-minute candles, serves
    queries and live streams, and audits and repairs what it stored.  This library
    models the parts of the Go implementation under src/internal and src/cmd that hold
    that logic and proves what makes them correct.

    ** Parts, files and code

    - [Prelude]: Go's 64-bit integers ([i64] wraps), results and errors,
      [sort.Slice] as a function that keeps its promise ([sort_slice]), tactics.
    - [Float64]: Go's float64 on the executable IEEE specification of the Standard
      Library.  [GoStrings]: bytes, ToLower, ToUpper, TrimSpace, string order.
      [GoNumbers]: ParseInt and ParseFloat.  [GoJSON]: the values [any] that
      encoding/json decodes to, and what decoding into a struct accepts.
      [Calendar]: UTC dates and AddDate, from time.Time.  [Settings]:
      internal/config/config.go, from an environment to the configuration.
    - [Timeframe]: internal/timeframe.  [Frame] is the type of the names in Order;
      [grid f k] is the start of the k-th bucket, the specification of
      FloorStartMS, NextStartMS, PreviousStartMS and EndMS.
    - [Market]: the records of internal/market.  [Aggregator]:
      internal/aggregator/engine.go.  [Retention]: internal/retention/policy.go.
    - [SymbolSnapshot]: internal/market/symbol_snapshot.go and the in-memory
      repository of internal/storage/symbol_snapshots.go.
    - [MinuteAudit]: the durable minute-audit queue,
      internal/storage/minute_audit.go and minute_audit_memory.go.
    - [Hub]: internal/realtime/hub.go, with a step relation for concurrent calls.
    - [Store]: internal/storage/memory.go and minute_verification.go, the class
      [HistoricalStore] that the service uses and [HistoricalStoreLaws];
      [StoreReplace]: what is left of a series that is deleted and written again.
      [Partitions]: storage/mysql/partitions.go, the clauses and the old partitions
      of the table of candles.
    - [MarketService]: internal/app/market_service.go and minute_verification.go,
      every method in a small state, error and panic monad over any
      [HistoricalStore]; [ServiceSafety], [RollupRepair], [ServiceConfig] and
      [ServiceSpec] hold its theorems.
    - [TimeAudit]: internal/timeaudit/audit.go.  [GapPlan] and [GapRepair]:
      internal/gapfill/plan.go and repair.go; the report of the first is the input
      of the second, and the tasks of the second are the input of the third.
      [GapTransport] and [GapRun]: cmd/gapfill_klines, which runs such a plan over
      [gapE] with a journal, a gate on the official inventory and paced requests;
      [GapRunSpec] and [GapJournalSpec] hold its theorems.
    - [Effects]: programs over the calls they make ([prog]), their runs as traces
      of calls with their answers ([runs]), and predicates on traces that hold of
      every run ([each]).
    - [Exchange] and [ExchangeParse]: the kline request, the adapters of Binance and
      OKX and the messages of their streams, internal/exchange/parse.go, binance.go
      and okx.go.  [RestKline]: the REST candles and instruments of rest_kline.go,
      programs over [exchangeE] (a request, the clock, a pause).  [RestKlineSpec],
      [RestKlineComplete] and [ExchangeParseSpec] hold their theorems.
    - [Guardian] and its companions: internal/guardian, each function a program
      over [guardianE], the calls to the store, the exchange, the clock and the
      locks.  [Guardian] holds repair.go, daily_coverage.go and the construction
      and fetchers of guardian.go; [GuardianTargets] symbol_eligibility.go and the
      target lists; [GuardianMinute] durable_minute_audit.go and
      minute_day_audit.go; [GuardianAudit] the rounds of guardian.go and
      daily_audit.go; [GuardianPool] worker_pool.go and request_pacing.go.
      [GuardianSpec], [GuardianMinuteSpec], [GuardianAuditSpec] and
      [GuardianLocks] hold their theorems.
    - [Corporate]: internal/corporateaction/worker.go, in the same style over
      [corporateE]; [CorporateSpec] holds its theorems.
    - [BackfillOptions] and [Backfill]: cmd/backfill_klines, its flags and its
      replacement of stored candles, over [backfillE]; [BackfillSpec].  [Maintain]:
      cmd/maintain_klines over any [RetentionStore]; [MaintainSpec].  [Watchdog]:
      cmd/health_watchdog, over [watchdogE].
    - [Server]: internal/api, the handlers over [apiE] and a WebSocket connection as
      the step relation [ws_step] over the hub; [ServerSpec].
    - [Collector]: internal/collector/collector.go over any [Adapter] (the interface
      of exchange/adapter.go, with Binance and OKX as instances), a program over
      [collectorE], the calls to the WebSocket, the heartbeat, the store, the
      service, the observer and the clock.  [CollectorSpec] holds the theorems on
      shards and subscriptions, [CollectorConnections] on connections,
      [CollectorPacing] on reconnection and [CollectorStream] on the candles.
      [SnapshotWorker]: collector/symbol_snapshots.go.
    - [GoTime]: durations and times with their texts.  [Notify]:
      internal/notify/feishu.go.  [Registry], [Alerts], [Integrity] and [Monitor]:
      registry.go, alerts.go, integrity.go and service.go of internal/monitoring.
      The service's calls include those of the alert engine, and it reads a
      [Snapshot] that the registry takes.  [RegistrySpec], [AlertsSpec],
      [IntegritySpec], [IntegritySummarySpec] and [MonitorSpec] hold their theorems.

    ** How state and operations correspond

    A struct is a [Record] in a [Module] of its name, with the source's field
    names; a method is a [Definition] of its name that takes the state and returns
    the new one.  A Go map is a [gmap]; ranging over it visits the entries in some
    order, and the definitions that range over a map are sorted afterwards, count,
    or are shown not to depend on the order.  Times are Unix milliseconds.  An
    error is a [go_error]: a sentinel, or a format string with what it wraps; the
    operands of the format are dropped.  Clock readings are arguments or, in the
    service, a stream the model consumes; in the Guardian they are answers to a
    call, in whole milliseconds, so that durations are rounded as UnixMilli does.
    The JSON of an event is kept as the value it encodes.  A round of the Guardian
    is a plan and one program per symbol; its goroutines are the steps of the pool.

    ** What the theorems show

    - Timeframes partition time and step back and forth (Timeframe.v); a timeframe
      is built from one whose buckets tile its own (Aggregator.v).
    - A rollup is the right candle of its sources (Aggregator.v); a bucket is rolled
      up exactly when its sources cover it (ServiceSpec.v).
    - Every method of the service returns, whatever the store answers
      (ServiceSpec.v): the loops of the rollup queue, the live rollups and the
      repairs end, and no send on a closed channel happens (Hub.v).
    - A verified minute is never overwritten by an unverified one (Store.v and
      ServiceSpec.v); verification generations only grow.
    - A query answers with a sorted window of stored candles and the live one.
    - The minute-audit queue loses no work and leases a task to one worker
      (MinuteAudit.v).
    - A symbol snapshot lets a repair through only on fresh, positive evidence, and
      reconciling keeps every known symbol (SymbolSnapshot.v).
    - The timestamp audit reports exactly the missing buckets (TimeAudit.v), the
      plan made from it repairs exactly those (GapPlan.v), the repair accepts the
      plan, writes only its targets where nothing was, and reports what is still
      missing truthfully (GapRepair.v).
    - A run of the gap repair records each task once, and its journal read again
      gives its results (GapJournalSpec.v); it repairs only what the official
      inventory allowed less than a minute before, at most three times
      (GapRunSpec.v), with its requests an interval apart and after every pause the
      exchange asked for (GapTransport.v).
    - The backfill command reads everything before it deletes anything and changes no
      candle in a dry run; when no limit cuts the request, a frame it replaced holds
      exactly what the exchange lists in the replaced range, with the derived fields,
      and what it had outside of it (BackfillSpec.v).  A partition is dropped only when none
      of its candles is within the retention of its frame (Partitions.v), and the
      deletion of old candles keeps all that the rules keep (MaintainSpec.v).
    - A query over HTTP is answered with exactly the candles or the error the service
      gave, or refused without asking it, and a WebSocket connection gets only events it subscribed to, none twice
      (ServerSpec.v).  The watchdog marks the service down exactly when the latest
      two answers in a row that agree were failures (Watchdog.v).
    - A repair reports success only when the exchange answered for the whole range,
      and then every candle that differed was written; a failure leaves the state of
      its series explaining it, and nothing is written over that (GuardianSpec.v).
    - The minute cursor only moves over minutes that a durable task holds, a task
      is finished with the outcome of its repair (GuardianMinuteSpec.v); the daily
      rounds of a target run a repair on every day of the lookback, and each day is
      answered for by the exchange or kept as a range to retry; rounds are fair to all
      symbols (GuardianAuditSpec.v).
    - The pool runs every target once and ends, requests are spaced by both pacers
      (GuardianPool.v), and no worker waits for a lock or slot while it holds one
      of its kind (GuardianLocks.v).
    - Fetching candles ends, returns only final candles of the request that the
      exchange sent, with finite and nonnegative activity (RestKlineSpec.v), and leaves
      none of them out when OKX or the USD-M market of Binance answers as its
      documentation says (RestKlineComplete.v); an activity number is read exactly or refused
      (ExchangeParseSpec.v).
    - A corporate action is queued only on official evidence, an attempt of its job
      ends completed, retried or failed and says so in the store, and a timeframe
      counts as restored only when the store gives back what was written
      (CorporateSpec.v).
    - A collector hands every candle it reads to the service, once and in order,
      until the service refuses one (CollectorStream.v); it leaves no connection
      open (CollectorConnections.v), doubles the pause between connections up to a
      maximum unless the last one stayed responsive (CollectorPacing.v),
      and is subscribed to exactly the active symbols (CollectorSpec.v).
    - The counts of a monitoring snapshot are those of the whole history
      (RegistrySpec.v); the alert engine implements one small state machine per
      alert (AlertsSpec.v); an evaluation raises an incident for every market that
      no longer reaches its subscribers, and readiness is never claimed for one
      (MonitorSpec.v).  The integrity auditor reports exactly what the stored
      candles and their sources show, and its summary adds up (IntegritySpec.v and
      IntegritySummarySpec.v).  A card is posted until it is accepted, three times
      at most, with fixed pauses (Notify.v).
    - Defects the model showed are proved or computed beside the theorems: a backfill
      with a limit deletes candles it did not fetch (limited_backfill_loses_history
      in BackfillSpec.v), the paging of Binance ends early on the spot market, after a
      skipped row, and skips old candles of the COIN-M market (spot_paging_ends_early,
      skipped_row_ends_paging and coin_paging_skips_oldest in RestKlineComplete.v), the
      ten-minute count of reconnects is the five-minute one
      (ten_minutes_are_five in RegistrySpec.v), quiet traffic keeps the mark of a
      slow window (quiet_traffic_keeps_the_mark in MonitorSpec.v), the watchdog may
      count a restart twice and keeps a disk critical at 77 percent that would be a
      warning at 82 (restart_counted_twice and less_full_stays_critical in
      Watchdog.v), a refused gzip is used and a WebSocket session counts as the
      latency of a request (refused_gzip_is_used and session_is_latency in
      ServerSpec.v).

    ** Bounds and fuel

    Bucket arithmetic is proved for instants from the first bucket of the grid to
    [MaxTS], 2262-04-11, where a [time.Duration] since 1970 does not saturate.
    Fuel bounds the loops whose end is not structural, and each has a theorem that
    it does not run out: [live_fuel] (5) is the longest chain of sources,
    [repair_fuel] (6) the rounds of RepairRollups, [queue_weight] the candles that
    can pass through the rollup queue, [gather_fuel] the minutes of a bucket, 6
    the dependencies of a frame (service_returns in ServiceSpec.v); [range_fuel]
    the minutes of a range (plan_returns in GapPlan.v); the fuel of
    [span_loop] is the point at which the code breaks off itself; [catchup_fuel],
    [day_fuel] and [pieces_fuel] the days or blocks of a range, where running out
    would be a call that never answers ([Diverge]).  The paging of RestKline.v may
    take [2 ^ 64] rounds ([page_loop]), more than there are cursors
    (binance_fetch_returns and okx_fetch_returns).  The loops of the collector end
    only by an event; they too may take [2 ^ 64] rounds ([endless]), and one that
    took them all would wait [Forever].

    ** Not modelled

    The text of JSON documents and of URLs, HTTP, WebSockets, SQL text, Redis and
    flags: input and output around the parts above; a document is the value it
    decodes to, a request its address and its parameters.  ParseFloat's hexadecimal
    and underscore spellings, which no exchange sends, are errors of the model.  In the service, locks appear as the order in which
    they are taken; a method is one atomic step of the model.  In the Guardian the
    endless worker loops, the order in which a round's goroutines interleave, and
    the map order in which exchanges are visited (the model takes that of [map_to_list])
    are left out.  Of the collector and the monitoring service the goroutines and
    tickers that call the modelled steps are left out, and the sampling of the
    machine, which is a call.  Of the commands, the package flag (the values of the
    flags are given), the connections, the files behind the paths and the log are
    left out, and the workers of a gap repair are the steps of [run_step], in which
    a critical section is one step; the fuel of [Maintain]'s loops of batches is
    an argument, and more than a series has rows is enough (retention_keeps).  Of the
    server net/http and the encoding of the bodies are left out.  The Redis and MySQL
    stores, marketd and the audit command are not modelled: they carry the parts above
    to sockets, SQL and files. *)

From stdpp Require Export base list gmap strings fin_maps sorting.
From Stdlib Require Export ZArith Lia Bool Sorted.

(** ** Scope, hint databases and tactics *)

Declare Scope go_scope.
Delimit Scope go_scope with go.

Create HintDb go_arith.
Create HintDb go_order.

(** [zbool] turns boolean comparisons on [Z] into propositions. *)
Ltac zbool :=
  repeat match goal with
  | H : (_ <? _)%Z = true |- _ => apply Z.ltb_lt in H
  | H : (_ <? _)%Z = false |- _ => apply Z.ltb_ge in H
  | H : (_ <=? _)%Z = true |- _ => apply Z.leb_le in H
  | H : (_ <=? _)%Z = false |- _ => apply Z.leb_gt in H
  | H : (_ =? _)%Z = true |- _ => apply Z.eqb_eq in H
  | H : (_ =? _)%Z = false |- _ => apply Z.eqb_neq in H
  | H : (_ && _)%bool = true |- _ => apply andb_true_iff in H; destruct H
  | H : (_ || _)%bool = false |- _ => apply orb_false_iff in H; destruct H
  | H : negb _ = true |- _ => apply negb_true_iff in H
  | H : negb _ = false |- _ => apply negb_false_iff in H
  end.

(** [bprop] does the same for [bool_decide]. *)
Ltac bprop :=
  repeat (progress zbool ||
    match goal with
    | H : bool_decide _ = true |- _ => apply bool_decide_eq_true in H
    | H : bool_decide _ = false |- _ => apply bool_decide_eq_false in H
    end).

(** [lia] with the defining equations of [/], [mod], [Z.quot] and [Z.rem]. *)
Ltac zdiv := Z.to_euclidean_division_equations; lia.

(** [case_bool] splits on the first boolean test of the goal. *)
Ltac case_bool :=
  match goal with
  | |- context [if ?b then _ else _] =>
      lazymatch type of b with bool => destruct b eqn:? end
  end.

(** [case_inner] picks a test that contains no other test. *)
Ltac case_inner :=
  match goal with
  | |- context [if ?b then _ else _] =>
      lazymatch type of b with bool => idtac end;
      lazymatch b with
      | context [if _ then _ else _] => fail
      | _ => destruct b eqn:?
      end
  end.

(** [dm] destructs the innermost match of the goal, keeping its equation. *)
Ltac dm :=
  match goal with
  | |- context [match ?x with _ => _ end] =>
      lazymatch x with
      | context [match _ with _ => _ end] => fail
      | _ => destruct x eqn:?
      end
  end.

(** ** Go's 64-bit integers

    [int64] and, on the 64-bit targets of the service, [int]: the value of an
    arithmetic expression is its mathematical value wrapped to two's
    complement. *)

Definition two63 : Z := 9223372036854775808.
Definition two64 : Z := 18446744073709551616.

Definition i64 (z : Z) : Z := ((z + two63) mod two64 - two63)%Z.

Definition int64_range (z : Z) : Prop := (- two63 <= z < two63)%Z.

Lemma i64_id z : int64_range z → i64 z = z.
Proof.
  unfold int64_range, i64, two63, two64. intros H.
  rewrite Z.mod_small; lia.
Qed.

Lemma i64_range z : int64_range (i64 z).
Proof.
  unfold int64_range, i64, two63, two64.
  pose proof (Z.mod_pos_bound (z + 9223372036854775808) 18446744073709551616). lia.
Qed.

Lemma i64_idem z : i64 (i64 z) = i64 z.
Proof. apply i64_id, i64_range. Qed.

Lemma i64_add_l a b : i64 (i64 a + b) = i64 (a + b).
Proof.
  unfold i64, two63, two64. f_equal.
  replace ((a + 9223372036854775808) mod 18446744073709551616
           - 9223372036854775808 + b + 9223372036854775808)%Z
    with ((a + 9223372036854775808) mod 18446744073709551616 + b)%Z by lia.
  rewrite Zplus_mod_idemp_l. f_equal. lia.
Qed.

#[export] Hint Resolve i64_range : go_arith.

(** ** Results

    A Go function that returns [(v, error)] is modelled by [result]: no caller
    in the modelled code looks at the value when the error is not nil, except
    where the model says otherwise and returns a pair. *)

Inductive result (E A : Type) : Type :=
| Ok (a : A)
| Err (e : E).
Arguments Ok {E A} a.
Arguments Err {E A} e.

Definition rbind {E A B} (m : result E A) (f : A → result E B) : result E B :=
  match m with Ok a => f a | Err e => Err e end.

Notation "x <-? m ; k" := (rbind m (fun x => k))
  (at level 100, m at next level, right associativity) : go_scope.

Lemma rbind_Ok {E A B} (m : result E A) (f : A → result E B) b :
  rbind m f = Ok b ↔ ∃ a, m = Ok a ∧ f a = Ok b.
Proof. destruct m as [a|e]; simpl; split; [by exists a|by intros (? & [= ->] & ?)|done|by intros (? & [=] & _)]. Qed.

(** Error values: a sentinel variable the code tests with [errors.Is], a text
    made by [fmt.Errorf] (the format string; the operands are dropped), a text
    wrapping an error with [%w], or two errors put together by [errors.Join]. *)
Inductive go_error : Set :=
| Sentinel (name : string)
| Errorf (format : string)
| Wrapf (format : string) (cause : go_error)
| Joined (e1 e2 : go_error).

#[export] Instance go_error_eq_dec : EqDecision go_error.
Proof. solve_decision. Defined.

(** The text of an error, without the operands of its formats. *)
Fixpoint error_text (e : go_error) : string :=
  match e with
  | Sentinel name => name
  | Errorf format => format
  | Wrapf format cause => (format ++ error_text cause)%string
  | Joined e1 e2 => (error_text e1 ++ error_text e2)%string
  end.

Fixpoint errors_Is (e target : go_error) : bool :=
  bool_decide (e = target) ||
  match e with
  | Wrapf _ cause => errors_Is cause target
  | Joined e1 e2 => errors_Is e1 target || errors_Is e2 target
  | _ => false
  end.

(** A context as the code uses it at one point: [ctx.Err()] there. *)
Definition context := option go_error.

(** ** Lists and maps by key *)

Lemma NoDup_key_inj {A B} (key : A → B) (l : list A) a b :
  NoDup (key <$> l) → a ∈ l → b ∈ l → key a = key b → a = b.
Proof.
  intros Hnd Ha Hb Heq.
  apply list_elem_of_lookup in Ha as [i Hi]. apply list_elem_of_lookup in Hb as [j Hj].
  assert (i = j) as ->; [|congruence].
  eapply NoDup_lookup; [exact Hnd| |]; rewrite list_lookup_fmap.
  - by rewrite Hi.
  - rewrite Hj. simpl. by rewrite Heq.
Qed.

(** Writing a list of values with distinct keys: each can be read back. *)
Lemma fold_insert_lookup_ne `{Countable K} {A} (key : A → K) (l : list A) (m : gmap K A) k :
  (∀ x, x ∈ l → key x ≠ k) → foldl (fun m x => <[key x := x]> m) m l !! k = m !! k.
Proof.
  revert m. induction l as [|x l IH]; intros m Hk; simpl; [done|].
  rewrite IH by set_solver. apply lookup_insert_ne. set_solver.
Qed.

Lemma fold_insert_lookup `{Countable K} {A} (key : A → K) (l : list A) (m : gmap K A) :
  (∀ x y, x ∈ l → y ∈ l → key x = key y → x = y) →
  ∀ x, x ∈ l → foldl (fun m x => <[key x := x]> m) m l !! key x = Some x.
Proof.
  revert m. induction l as [|y l IH]; intros m Hinj x Hx; [by apply elem_of_nil in Hx|].
  simpl. destruct (decide (Exists (fun z => key z = key x) l)) as [He|He].
  - apply Exists_exists in He as (z & Hz & Hk).
    assert (z = x) as -> by (apply Hinj; [by constructor|done|done]).
    apply IH; [|done]. intros a b Ha Hb. apply Hinj; by constructor.
  - apply elem_of_cons in Hx as [->|Hx].
    + rewrite fold_insert_lookup_ne; [apply lookup_insert_eq|].
      intros z Hz Hk. apply He, Exists_exists. eauto.
    + exfalso. apply He, Exists_exists. eauto.
Qed.

(** ** Strict orders given by a boolean [less], and [sort.Slice]

    [sort.Slice] promises a permutation that is sorted by [less]; it does not
    promise stability.  [sort_slice] is one function that keeps that promise
    (insertion sort), and [sort_slice_unique] shows that on inputs whose
    elements [less] tells apart every function that keeps it returns the same
    list, so nothing proved about [sort_slice] there depends on the algorithm. *)

Class LessOrder {A} (less : A → A → bool) : Prop := {
  less_asym a b : less a b = true → less b a = false;
  less_negtrans a b c : less a b = false → less b c = false → less a c = false;
}.

Fixpoint insert_sorted {A} (less : A → A → bool) (x : A) (l : list A) : list A :=
  match l with
  | [] => [x]
  | y :: ys => if less y x then y :: insert_sorted less x ys else x :: y :: ys
  end.

Definition sort_slice {A} (less : A → A → bool) (l : list A) : list A :=
  foldr (insert_sorted less) [] l.

Definition not_after {A} (less : A → A → bool) (a b : A) : Prop := less b a = false.

Section sort.
Context {A : Type} (less : A → A → bool) `{!LessOrder less}.

Lemma less_irrefl a : less a a = false.
Proof. destruct (less a a) eqn:E; [by rewrite (less_asym _ _ E) in E | done]. Qed.

Lemma insert_sorted_perm x l : insert_sorted less x l ≡ₚ x :: l.
Proof.
  induction l as [|y l IH]; simpl; [done|].
  case_bool; [|done]. rewrite IH. constructor.
Qed.

Lemma sort_slice_perm l : sort_slice less l ≡ₚ l.
Proof. induction l as [|x l IH]; simpl; [done|]. by rewrite insert_sorted_perm, IH. Qed.

Lemma elem_of_sort_slice x l : x ∈ sort_slice less l ↔ x ∈ l.
Proof. by rewrite sort_slice_perm. Qed.

Lemma length_sort_slice l : length (sort_slice less l) = length l.
Proof. by rewrite sort_slice_perm. Qed.

Lemma insert_sorted_sorted x l :
  StronglySorted (not_after less) l → StronglySorted (not_after less) (insert_sorted less x l).
Proof.
  unfold not_after. induction 1 as [|y l Hs IH Hall]; simpl.
  { repeat constructor. }
  destruct (less y x) eqn:E.
  - constructor; [done|]. rewrite insert_sorted_perm. constructor; [|done].
    by apply less_asym.
  - constructor; [by constructor|]. constructor; [done|].
    eapply Forall_impl; [exact Hall|]. intros z Hz; simpl in *.
    by eapply less_negtrans.
Qed.

Lemma sort_slice_sorted l : StronglySorted (not_after less) (sort_slice less l).
Proof. induction l; simpl; [constructor|by apply insert_sorted_sorted]. Qed.

(** Two sorted permutations of the same elements agree when [less] tells the
    elements apart. *)
Lemma sorted_unique l1 l2 :
  (∀ a b, a ∈ l1 → b ∈ l1 → less a b = false → less b a = false → a = b) →
  StronglySorted (not_after less) l1 → StronglySorted (not_after less) l2 →
  l1 ≡ₚ l2 → l1 = l2.
Proof.
  intros Hanti Hs1. revert l2 Hanti.
  induction Hs1 as [|x l1 Hs1 IH Hx]; intros l2 Hanti Hs2 Hp.
  { symmetry in Hp. by apply Permutation_nil_r in Hp. }
  destruct l2 as [|y l2]; [by symmetry in Hp; apply Permutation_nil_cons in Hp|].
  inversion Hs2 as [|? ? Hs2' Hy]; subst.
  rewrite Forall_forall in Hx, Hy.
  assert (x = y) as ->.
  { assert (Hyl : y ∈ x :: l1) by (rewrite Hp; constructor).
    assert (Hxl : x ∈ y :: l2) by (rewrite <- Hp; constructor).
    apply Hanti; [constructor|done| |].
    - apply elem_of_cons in Hxl as [->|Hin]; [apply less_irrefl|by apply Hy].
    - apply elem_of_cons in Hyl as [->|Hin]; [apply less_irrefl|by apply Hx]. }
  f_equal. apply IH; [|done|by eapply Permutation.Permutation_cons_inv].
  intros a b Ha Hb. apply Hanti; by constructor.
Qed.

Lemma sort_slice_unique l l' :
  (∀ a b, a ∈ l → b ∈ l → less a b = false → less b a = false → a = b) →
  StronglySorted (not_after less) l' → l' ≡ₚ l → l' = sort_slice less l.
Proof.
  intros Hanti Hs Hp. apply sorted_unique; [|done|apply sort_slice_sorted|].
  - intros a b Ha Hb. apply Hanti; by rewrite <- Hp.
  - by rewrite sort_slice_perm.
Qed.

Lemma sort_slice_Permutation l1 l2 :
  (∀ a b, a ∈ l1 → b ∈ l1 → less a b = false → less b a = false → a = b) →
  l1 ≡ₚ l2 → sort_slice less l1 = sort_slice less l2.
Proof.
  intros Hanti Hp. symmetry. apply sort_slice_unique; [done|apply sort_slice_sorted|].
  by rewrite sort_slice_perm.
Qed.

Lemma sort_slice_id l : StronglySorted (not_after less) l → sort_slice less l = l.
Proof.
  induction 1 as [|x l Hs IH Hx]; simpl; [done|]. rewrite IH.
  destruct l as [|y l]; [done|]. simpl.
  rewrite Forall_forall in Hx. unfold not_after in Hx. by rewrite Hx by constructor.
Qed.
End sort.

(** Orders by an integer key, and lexicographic combinations. *)

Definition less_by {A} (key : A → Z) (a b : A) : bool := (key a <? key b)%Z.

#[export] Instance less_by_order {A} (key : A → Z) : LessOrder (less_by key).
Proof. unfold less_by. split; intros *; rewrite ?Z.ltb_lt, ?Z.ltb_ge; lia. Qed.

(** [if a.k != b.k { return a.k < b.k }; return next] with [less1] the order on
    the first key. *)
Definition less_lex {A} (less1 less2 : A → A → bool) (a b : A) : bool :=
  if less1 a b then true else if less1 b a then false else less2 a b.

#[export] Instance less_lex_order {A} (less1 less2 : A → A → bool) :
  LessOrder less1 → LessOrder less2 → LessOrder (less_lex less1 less2).
Proof.
  intros H1 H2. unfold less_lex. split.
  - intros a b. destruct (less1 a b) eqn:E1; intros H.
    + by rewrite (less_asym _ _ E1).
    + destruct (less1 b a) eqn:E2; [done|]. by apply less_asym.
  - intros a b c.
    destruct (less1 a b) eqn:Eab, (less1 b c) eqn:Ebc; try done.
    intros Hab Hbc. rewrite (less_negtrans (less:=less1) a b c) by done.
    destruct (less1 b a) eqn:Eba.
    + assert (less1 c a = true) as ->; [|done].
      destruct (less1 c a) eqn:Eca; [done|].
      pose proof (less_negtrans b c a Ebc Eca). congruence.
    + destruct (less1 c b) eqn:Ecb.
      * assert (less1 c a = true) as ->; [|done].
        destruct (less1 c a) eqn:Eca; [done|].
        pose proof (less_negtrans c a b Eca Eab). congruence.
      * rewrite (less_negtrans (less:=less1) c b a) by done.
        by eapply less_negtrans.
Qed.

Definition sort_by {A} (key : A → Z) : list A → list A := sort_slice (less_by key).

Section sort_by.
Context {A : Type} (key : A → Z).

Definition key_sorted (l : list A) : Prop := StronglySorted (λ a b, key a < key b)%Z l.

Lemma sort_by_perm l : sort_by key l ≡ₚ l.
Proof. apply sort_slice_perm. Qed.

Lemma elem_of_sort_by x l : x ∈ sort_by key l ↔ x ∈ l.
Proof. by rewrite sort_by_perm. Qed.

Lemma length_sort_by l : length (sort_by key l) = length l.
Proof. by rewrite sort_by_perm. Qed.

Lemma not_after_by a b : not_after (less_by key) a b ↔ (key a <= key b)%Z.
Proof. unfold not_after, less_by. by rewrite Z.ltb_ge. Qed.

Lemma sort_by_Permutation l1 l2 :
  NoDup (key <$> l1) → l1 ≡ₚ l2 → sort_by key l1 = sort_by key l2.
Proof.
  intros Hnd Hp. apply sort_slice_Permutation; [apply _| |done].
  intros a b Ha Hb H1 H2. unfold less_by in *. zbool.
  eapply NoDup_key_inj; [done..|lia].
Qed.

Lemma sort_by_id l : key_sorted l → sort_by key l = l.
Proof.
  intros Hs. apply sort_slice_id.
  induction Hs as [|x l Hs IH Hx]; constructor; [done|].
  eapply Forall_impl; [exact Hx|]. intros y Hy. apply not_after_by. simpl in Hy. lia.
Qed.

Lemma sort_by_sorted l : NoDup (key <$> l) → key_sorted (sort_by key l).
Proof.
  intros Hnd.
  assert (Hnd' : NoDup (key <$> sort_by key l)) by (by rewrite sort_by_perm).
  pose proof (sort_slice_sorted (less_by key) l) as Hs. fold (sort_by key) in Hs.
  revert Hs Hnd'. generalize (sort_by key l) as s. intros s Hs.
  induction Hs as [|x s Hs IH Hx]; intros Hnd'; [constructor|].
  rewrite fmap_cons, NoDup_cons in Hnd'. destruct Hnd' as [Hni Hnd'].
  constructor; [by apply IH|]. rewrite Forall_forall in Hx |- *. intros y Hy.
  specialize (Hx y Hy). apply not_after_by in Hx.
  assert (key x ≠ key y); [|lia].
  intros Heq. apply Hni. rewrite Heq. apply list_elem_of_fmap. eauto.
Qed.

Lemma key_sorted_NoDup l : key_sorted l → NoDup (key <$> l).
Proof.
  induction 1 as [|x l Hs IH Hx]; simpl; constructor; [|done].
  rewrite list_elem_of_fmap. intros (y & Heq & Hy).
  rewrite Forall_forall in Hx. specialize (Hx y Hy). simpl in Hx. lia.
Qed.
End sort_by.

#[export] Hint Resolve sort_by_perm sort_by_sorted key_sorted_NoDup : go_order.

(** A set of integers has one sorted list. *)
Lemma key_sorted_unique (l1 l2 : list Z) :
  key_sorted id l1 → key_sorted id l2 → (∀ x, x ∈ l1 ↔ x ∈ l2) → l1 = l2.
Proof.
  intros H1 H2 Hel. transitivity (sort_by id l1); [symmetry; by apply sort_by_id|].
  rewrite <- (sort_by_id id l2) by done.
  pose proof (key_sorted_NoDup id l1 H1) as N1. pose proof (key_sorted_NoDup id l2 H2) as N2.
  rewrite list_fmap_id in N1, N2. apply sort_by_Permutation; [by rewrite list_fmap_id|].
  by apply NoDup_Permutation.
Qed.

Lemma key_sorted_fmap {A B} (f : A → B) (kA : A → Z) (kB : B → Z) l :
  (∀ a, a ∈ l → kB (f a) = kA a) → key_sorted kA l → key_sorted kB (f <$> l).
Proof.
  intros Hf Hs. induction Hs as [|a l Hs IH Ha]; simpl; [constructor|].
  constructor; [apply IH; set_solver|]. rewrite Forall_forall in Ha. apply Forall_forall.
  intros b (a' & -> & Ha')%list_elem_of_fmap. rewrite !Hf by set_solver. by apply Ha.
Qed.

Lemma key_sorted_filter {A} (k : A → Z) P l : key_sorted k l → key_sorted k (List.filter P l).
Proof.
  intros Hs. induction Hs as [|a l Hs IH Ha]; simpl; [constructor|].
  case_bool; [|done]. constructor; [done|]. rewrite Forall_forall in Ha |- *.
  intros b Hb. apply Ha. by apply list_elem_of_In, List.filter_In in Hb as [Hb%list_elem_of_In _].
Qed.

Lemma key_sorted_drop {A} (k : A → Z) n l : key_sorted k l → key_sorted k (drop n l).
Proof. intros Hs. rewrite <- (take_drop n l) in Hs. by eapply StronglySorted_app_1_r. Qed.

Lemma key_sorted_keys {A} (key : A → Z) l : key_sorted key l ↔ key_sorted id (key <$> l).
Proof.
  unfold key_sorted. induction l as [|x l IH]; simpl; [split; constructor|].
  split; inversion 1; subst; constructor; try by apply IH.
  - by apply Forall_fmap.
  - by apply (Forall_fmap key) in H3.
Qed.

(** ** Ends of a list *)

Lemma head_elem {A} (l : list A) x : head l = Some x → x ∈ l.
Proof. destruct l; [done|]. intros [= ->]. constructor. Qed.

Lemma last_elem {A} (l : list A) x : last l = Some x → x ∈ l.
Proof. intros H. apply last_Some in H as [l' ->]. set_solver. Qed.
