(* ===== verification/Float64.v ===== *)
(** * Go's [float64]

    IEEE-754 binary64 as the Standard Library's executable specification
    [spec_float] with 53 bits of precision: every operation of the modelled
    code is the correctly rounded one, with the NaN, the infinities and the
    signed zeros.  A NaN has no payload here; the code never looks at one.

    The second half is the order theory of the comparisons, on which the proofs
    about highs, lows and tolerances rest. *)

From S2P Require Export Prelude.
From Stdlib Require Export SpecFloat.

Local Open Scope Z_scope.

Abbreviation float64 := spec_float.

(** ** Operations *)

Definition f64_add (a b : float64) : float64 := SFadd 53 1024 a b.
Definition f64_sub (a b : float64) : float64 := SFsub 53 1024 a b.
Definition f64_mul (a b : float64) : float64 := SFmul 53 1024 a b.
Definition f64_div (a b : float64) : float64 := SFdiv 53 1024 a b.
Definition f64_abs (a : float64) : float64 := SFabs a.

(** [float64(z)] for an integer [z]. *)
Definition f64_of_Z (z : Z) : float64 := binary_normalize 53 1024 z 0 false.

(** A decimal constant [n / d]: Go rounds the exact rational, and so does the
    division when [n] and [d] are exact. *)
Definition f64_of_Q (n d : Z) : float64 := f64_div (f64_of_Z n) (f64_of_Z d).

Definition f64_zero : float64 := S754_zero false.

(** [a < b], [a <= b], [a > b], [a >= b], [a == b]: all false on a NaN. *)
Definition f64_ltb (a b : float64) : bool := SFltb a b.
Definition f64_leb (a b : float64) : bool := SFleb a b.
Definition f64_gtb (a b : float64) : bool := SFltb b a.
Definition f64_geb (a b : float64) : bool := SFleb b a.
Definition f64_eqb (a b : float64) : bool := SFeqb a b.

(** [math.IsNaN], [math.IsInf(_, 0)]. *)
Definition f64_is_nan (a : float64) : bool :=
  match a with S754_nan => true | _ => false end.
Definition f64_is_inf (a : float64) : bool :=
  match a with S754_infinity _ => true | _ => false end.

(** [math.Max] and [math.Min] with their special cases. *)
Definition f64_max (x y : float64) : float64 :=
  match x, y with
  | S754_infinity false, _ | _, S754_infinity false => S754_infinity false
  | S754_nan, _ | _, S754_nan => S754_nan
  | S754_zero true, S754_zero _ => y
  | S754_zero false, S754_zero _ => x
  | _, _ => if f64_gtb x y then x else y
  end.

Definition f64_min (x y : float64) : float64 :=
  match x, y with
  | S754_infinity true, _ | _, S754_infinity true => S754_infinity true
  | S754_nan, _ | _, S754_nan => S754_nan
  | S754_zero true, S754_zero _ => x
  | S754_zero false, S754_zero _ => y
  | _, _ => if f64_ltb x y then x else y
  end.

(** [math.Round]: to the nearest integer, halves away from zero; the sign of a
    result that rounds to zero is kept. *)
Definition f64_round (x : float64) : float64 :=
  match x with
  | S754_finite s m e =>
      if 0 <=? e then x
      else
        let half := Z.shiftl 1 (- e - 1) in
        let n := Z.shiftr (Zpos m + half) (- e) in
        match n with
        | Zpos p => binary_round 53 1024 s p 0
        | _ => S754_zero s
        end
  | _ => x
  end.

(** ** Order theory *)

(** The position of a number that is not a NaN on the extended line, as a
    triple compared lexicographically. *)
Definition f64_key (a : float64) : Z * Z * Z :=
  match a with
  | S754_infinity true => (-2, 0, 0)
  | S754_finite true m e => (-1, - e, - Zpos m)
  | S754_zero _ => (0, 0, 0)
  | S754_nan => (0, 0, 0)
  | S754_finite false m e => (1, e, Zpos m)
  | S754_infinity false => (2, 0, 0)
  end.

Definition key_lt (k1 k2 : Z * Z * Z) : Prop :=
  let '(a1, b1, c1) := k1 in
  let '(a2, b2, c2) := k2 in
  a1 < a2 ∨ (a1 = a2 ∧ (b1 < b2 ∨ (b1 = b2 ∧ c1 < c2))).

Definition not_nan (a : float64) : Prop := f64_is_nan a = false.

Lemma f64_compare_key a b :
  not_nan a → not_nan b →
  match SFcompare a b with
  | Some Lt => key_lt (f64_key a) (f64_key b)
  | Some Eq => f64_key a = f64_key b
  | Some Gt => key_lt (f64_key b) (f64_key a)
  | None => False
  end.
Proof.
  unfold not_nan. destruct a as [[]|[]| |[] m e], b as [[]|[]| |[] m' e']; simpl;
    intros; try done; try lia.
  all: change (Pos.compare_cont Eq m m') with (Pos.compare m m').
  all: destruct (Z.compare_spec e e'); try lia.
  all: destruct (Pos.compare_spec m m'); simpl; subst; try lia; try done.
Qed.

Lemma f64_nan_compare a b :
  f64_is_nan a = true ∨ f64_is_nan b = true → SFcompare a b = None.
Proof. destruct a as [[]|[]| |[] m e], b as [[]|[]| |[] m' e']; simpl; naive_solver. Qed.

Lemma f64_ltb_spec a b :
  f64_ltb a b = true ↔ not_nan a ∧ not_nan b ∧ key_lt (f64_key a) (f64_key b).
Proof.
  unfold f64_ltb, SFltb, not_nan.
  destruct (f64_is_nan a) eqn:Ha; [rewrite f64_nan_compare by auto; naive_solver|].
  destruct (f64_is_nan b) eqn:Hb; [rewrite f64_nan_compare by auto; naive_solver|].
  pose proof (f64_compare_key a b Ha Hb) as H.
  destruct (f64_key a) as [[a1 a2] a3], (f64_key b) as [[b1 b2] b3]; simpl in *.
  destruct (SFcompare a b) as [[]|]; simplify_eq; split; intros; destruct_and?; try done; lia.
Qed.

Lemma f64_leb_spec a b :
  f64_leb a b = true ↔
  not_nan a ∧ not_nan b ∧ (key_lt (f64_key a) (f64_key b) ∨ f64_key a = f64_key b).
Proof.
  unfold f64_leb, SFleb, not_nan.
  destruct (f64_is_nan a) eqn:Ha; [rewrite f64_nan_compare by auto; naive_solver|].
  destruct (f64_is_nan b) eqn:Hb; [rewrite f64_nan_compare by auto; naive_solver|].
  pose proof (f64_compare_key a b Ha Hb) as H.
  destruct (f64_key a) as [[a1 a2] a3], (f64_key b) as [[b1 b2] b3]; simpl in *.
  destruct (SFcompare a b) as [[]|]; simplify_eq; split; intros; destruct_and?; try done; try lia.
  - split_and!; auto.
  - destruct_or!; simplify_eq; lia.
Qed.

Lemma f64_ltb_irrefl a : f64_ltb a a = false.
Proof.
  apply not_true_iff_false. rewrite f64_ltb_spec. intros (_ & _ & H).
  destruct (f64_key a) as [[]]; simpl in H; lia.
Qed.

Lemma f64_ltb_trans a b c : f64_ltb a b = true → f64_ltb b c = true → f64_ltb a c = true.
Proof.
  rewrite !f64_ltb_spec. intros (? & ? & H1) (? & ? & H2). split_and!; [done..|].
  destruct (f64_key a) as [[]], (f64_key b) as [[]], (f64_key c) as [[]]; simpl in *; lia.
Qed.

Lemma f64_leb_refl a : not_nan a → f64_leb a a = true.
Proof. intros. rewrite f64_leb_spec. auto. Qed.

Lemma f64_leb_trans a b c : f64_leb a b = true → f64_leb b c = true → f64_leb a c = true.
Proof.
  rewrite !f64_leb_spec. intros (? & ? & H1) (? & ? & H2). split_and!; [done..|].
  destruct (f64_key a) as [[a1 a2] a3], (f64_key b) as [[b1 b2] b3], (f64_key c) as [[c1 c2] c3];
    simpl in *.
  destruct H1 as [H1|H1], H2 as [H2|H2]; simplify_eq; [left; lia..|right; done].
Qed.

Lemma f64_ltb_leb a b : f64_ltb a b = true → f64_leb a b = true.
Proof. rewrite f64_ltb_spec, f64_leb_spec. naive_solver. Qed.

Lemma f64_not_ltb a b : not_nan a → not_nan b → f64_ltb a b = false ↔ f64_leb b a = true.
Proof.
  intros Ha Hb. rewrite <- not_true_iff_false, f64_ltb_spec, f64_leb_spec.
  destruct (f64_key a) as [[a1 a2] a3], (f64_key b) as [[b1 b2] b3]; simpl.
  split.
  - intros H. split_and!; [done..|].
    destruct (Z.lt_trichotomy a1 b1) as [?|[->|?]]; [exfalso; naive_solver lia| |left; lia].
    destruct (Z.lt_trichotomy a2 b2) as [?|[->|?]]; [exfalso; naive_solver lia| |left; lia].
    destruct (Z.lt_trichotomy a3 b3) as [?|[->|?]]; [exfalso; naive_solver lia|by right|left; lia].
  - intros (_ & _ & H) (_ & _ & H'). destruct H as [H|H]; simplify_eq; lia.
Qed.

Lemma f64_ltb_leb_trans a b c : f64_ltb a b = true → f64_leb b c = true → f64_ltb a c = true.
Proof.
  rewrite !f64_ltb_spec, f64_leb_spec. intros (? & ? & H1) (? & ? & H2). split_and!; [done..|].
  destruct (f64_key a) as [[a1 a2] a3], (f64_key b) as [[b1 b2] b3], (f64_key c) as [[c1 c2] c3];
    simpl in *.
  destruct H2 as [H2|H2]; simplify_eq; lia.
Qed.

Lemma f64_ltb_not_nan a b : f64_ltb a b = true → not_nan a ∧ not_nan b.
Proof. rewrite f64_ltb_spec. naive_solver. Qed.

Lemma f64_leb_not_nan a b : f64_leb a b = true → not_nan a ∧ not_nan b.
Proof. rewrite f64_leb_spec. naive_solver. Qed.

#[export] Hint Resolve f64_leb_refl f64_leb_trans f64_ltb_leb : go_order.

#[export] Instance float64_eq_dec : EqDecision float64.
Proof. solve_decision. Defined.
