(* ===== verification/Effects.v ===== *)
(** * Programs that talk to their surroundings

    The Guardian is a worker: what it does is the sequence of calls it makes to
    the store, the repairer, the exchanges, the clock and the locks, and every
    answer may depend on workers that run between two calls.  Its methods are
    therefore programs of the free monad [prog E] over the calls [E], and
    [runs p tr a] says that [p] may end with [a] after the calls and answers
    [tr], whatever the surroundings answer.  [wp] is the weakest precondition
    used to prove statements about all runs; [exec] runs a program against
    concrete surroundings, for the examples. *)

From S2P Require Export Prelude.

Local Open Scope list_scope.

(** ** Programs *)

Inductive prog (E : Type → Type) (A : Type) : Type :=
| Ret (a : A)
| Vis {X : Type} (e : E X) (k : X → prog E A).
Arguments Ret {E A} a.
Arguments Vis {E A X} e k.

Fixpoint pbind {E A B} (p : prog E A) (f : A → prog E B) : prog E B :=
  match p with
  | Ret a => f a
  | Vis e k => Vis e (λ x, pbind (k x) f)
  end.

Definition trigger {E X} (e : E X) : prog E X := Vis e Ret.

Declare Scope prog_scope.
Delimit Scope prog_scope with prog.
Notation "x <- p ;; q" := (pbind p (λ x, q))
  (at level 100, p at next level, right associativity) : prog_scope.
Notation "' x <- p ;; q" := (pbind p (λ x, q))
  (at level 100, x strict pattern, p at next level, right associativity) : prog_scope.
Notation "p ;; q" := (pbind p (λ _, q))
  (at level 100, right associativity) : prog_scope.

(** A loop that runs its body on each element, carrying a value. *)
Fixpoint pfold {E A B} (f : B → A → prog E B) (b : B) (l : list A) : prog E B :=
  match l with
  | [] => Ret b
  | a :: rest => pbind (f b a) (λ b, pfold f b rest)
  end.

(** The same for a body that may return an error, which ends the loop. *)
Fixpoint pfold_ok {E X A B} (f : B → A → prog E (result X B)) (b : B) (l : list A) : prog E (result X B) :=
  match l with
  | [] => Ret (Ok b)
  | a :: rest =>
      pbind (f b a) (λ r, match r with Ok b => pfold_ok f b rest | Err e => Ret (Err e) end)
  end.

(** A loop that maps each element. *)
Fixpoint pmap {E A B} (f : A → prog E B) (l : list A) : prog E (list B) :=
  match l with
  | [] => Ret []
  | a :: rest => pbind (f a) (λ b, pbind (pmap f rest) (λ bs, Ret (b :: bs)))
  end.

(** A loop that may run up to [2^n] times: its body gives the next value to go on
    with, or the result. *)
Fixpoint ploop {E A R} (n : nat) (body : A → prog E (A + R)) (a : A) : prog E (A + R) :=
  match n with
  | O => body a
  | S n =>
      pbind (ploop n body a) (λ r, match r with inl a => ploop n body a | inr r => Ret (inr r) end)
  end.

(** ** Runs *)

(** A call and its answer. *)
Inductive call (E : Type → Type) : Type :=
| Call {X : Type} (e : E X) (x : X).
Arguments Call {E X} e x.

Fixpoint runs {E A} (p : prog E A) (tr : list (call E)) (a : A) : Prop :=
  match p, tr with
  | Ret a', [] => a = a'
  | Vis e k, c :: tr => ∃ x, c = Call e x ∧ runs (k x) tr a
  | _, _ => False
  end.

Fixpoint wp {E A} (p : prog E A) (tr : list (call E)) (Φ : list (call E) → A → Prop) : Prop :=
  match p with
  | Ret a => Φ tr a
  | Vis e k => ∀ x, wp (k x) (tr ++ [Call e x]) Φ
  end.

Section rules.
Context {E : Type → Type} {A B : Type}.
Implicit Types (p : prog E A) (f : A → prog E B) (tr : list (call E)).

Lemma runs_bind p f tr b :
  runs (pbind p f) tr b ↔ ∃ tr1 a tr2, tr = tr1 ++ tr2 ∧ runs p tr1 a ∧ runs (f a) tr2 b.
Proof.
  revert tr. induction p as [a|X e k IH]; intros tr; simpl.
  - split; [intros H; by exists [], a, tr|]. intros (tr1 & a' & tr2 & -> & H & Hf).
    destruct tr1; [by subst|done].
  - split.
    + destruct tr as [|c tr]; [done|]. intros (x & -> & H). apply IH in H as (tr1 & a & tr2 & -> & H1 & H2).
      exists (Call e x :: tr1), a, tr2. split; [done|]. split; [by exists x|done].
    + intros (tr1 & a & tr2 & -> & H1 & H2). destruct tr1 as [|c tr1]; [done|].
      destruct H1 as (x & -> & H1). exists x. split; [done|]. apply IH. by exists tr1, a, tr2.
Qed.

(** A weakest precondition speaks of all runs. *)
Lemma wp_runs p tr (Φ : list (call E) → A → Prop) :
  wp p tr Φ ↔ ∀ tr' a, runs p tr' a → Φ (tr ++ tr') a.
Proof.
  revert tr. induction p as [a|X e k IH]; intros tr; simpl.
  - split; [|intros H; specialize (H [] a); by rewrite app_nil_r in H; apply H].
    intros H [|] a' Hr; [subst; by rewrite app_nil_r|done].
  - split.
    + intros H [|c tr'] a Hr; [done|]. destruct Hr as (x & -> & Hr).
      specialize (H x). rewrite IH in H. specialize (H _ _ Hr). by rewrite <- app_assoc in H.
    + intros H x. apply IH. intros tr' a Hr. rewrite <- app_assoc. apply H. by exists x.
Qed.

Lemma wp_bind p f tr (Φ : list (call E) → B → Prop) :
  wp p tr (λ tr a, wp (f a) tr Φ) → wp (pbind p f) tr Φ.
Proof. revert tr. induction p as [a|X e k IH]; simpl; intros tr H; [done|]. intros x. by apply IH. Qed.

Lemma wp_mono p tr (Φ Ψ : list (call E) → A → Prop) :
  wp p tr Φ → (∀ tr a, Φ tr a → Ψ tr a) → wp p tr Ψ.
Proof. intros H HΦ. revert tr H. induction p as [a|X e k IH]; simpl; intros tr H; auto. Qed.

End rules.

(** What all runs of a program satisfy may be assumed where it is called. *)
Lemma wp_use {E A B} (p : prog E A) (f : A → prog E B) tr (Q : list (call E) → A → Prop)
    (Φ : list (call E) → B → Prop) :
  (∀ tr' a, runs p tr' a → Q tr' a) →
  (∀ tr' a, Q tr' a → wp (f a) (tr ++ tr') Φ) → wp (pbind p f) tr Φ.
Proof. intros Hp HΦ. apply wp_bind, wp_runs. auto. Qed.

Lemma wp_start {E A} (p : prog E A) (Q : list (call E) → A → Prop) :
  wp p [] Q → ∀ tr a, runs p tr a → Q tr a.
Proof. intros H. by rewrite wp_runs in H. Qed.

(** ** Concrete surroundings *)

(** A handler answers a call and changes its own state; it may have no answer. *)
Definition handler (E : Type → Type) (W : Type) : Type := ∀ X, E X → W → option (X * W).

Fixpoint exec {E W A} (h : handler E W) (p : prog E A) (w : W) : option (list (call E) * A * W) :=
  match p with
  | Ret a => Some ([], a, w)
  | Vis e k =>
      match h _ e w with
      | None => None
      | Some (x, w) =>
          match exec h (k x) w with
          | None => None
          | Some (tr, a, w) => Some (Call e x :: tr, a, w)
          end
      end
  end.

Lemma exec_runs {E W A} (h : handler E W) (p : prog E A) w tr a w' :
  exec h p w = Some (tr, a, w') → runs p tr a.
Proof.
  revert w tr. induction p as [a'|X e k IH]; simpl; intros w tr H; [by simplify_eq|].
  destruct (h X e w) as [[x w1]|] eqn:Eh; [|done].
  destruct (exec h (k x) w1) as [[[tr1 a1] w2]|] eqn:Ee; [|done].
  simplify_eq. exists x. split; [done|]. by eapply IH.
Qed.

Lemma exec_bind {E W A B} (h : handler E W) (p : prog E A) (f : A → prog E B) w :
  exec h (pbind p f) w =
  match exec h p w with
  | Some (tr, a, w) => match exec h (f a) w with Some (tr', b, w) => Some (tr ++ tr', b, w) | None => None end
  | None => None
  end.
Proof.
  revert w. induction p as [a|X e k IH]; intros w; simpl.
  - by destruct (exec h (f a) w) as [[[tr b] w']|].
  - destruct (h X e w) as [[x w1]|]; [|done]. rewrite IH.
    destruct (exec h (k x) w1) as [[[tr a] w2]|]; [|done]. by destruct (exec h (f a) w2) as [[[tr' b] w3]|].
Qed.

(** ** Taking a run apart *)

Lemma runs_Ret {E A} (a a' : A) tr : runs (E:=E) (Ret a) tr a' ↔ tr = [] ∧ a' = a.
Proof. simpl. destruct tr; split; [intros ->|intros [_ ->]|done|intros [? _]]; done. Qed.

Lemma runs_trigger {E X} (e : E X) tr x : runs (trigger e) tr x ↔ tr = [Call e x].
Proof.
  unfold trigger. simpl. destruct tr as [|c tr]; [by split|]. split.
  - intros (y & -> & H). destruct tr; [by subst|done].
  - intros [= -> ->]. by exists x.
Qed.

(** The runs of the loops. *)
Lemma runs_pfold {E A B} (f : B → A → prog E B) l b tr b' (I : list A → list (call E) → B → Prop) :
  I [] [] b →
  (∀ done x rest tr1 b1 tr2 b2, l = done ++ x :: rest → I done tr1 b1 → runs (f b1 x) tr2 b2 →
     I (done ++ [x]) (tr1 ++ tr2) b2) →
  runs (pfold f b l) tr b' → I l tr b'.
Proof.
  intros H0 Hs.
  assert (∀ done rest tr1 b1 tr2, l = done ++ rest → I done tr1 b1 → runs (pfold f b1 rest) tr2 b' →
            I l (tr1 ++ tr2) b') as Hgen; [|intros Hr; by apply (Hgen [] l [] b tr)].
  intros done rest. revert done. induction rest as [|x rest IH]; intros done tr1 b1 tr2 El HI Hr; simpl in Hr.
  - apply runs_Ret in Hr as [-> ->]. rewrite app_nil_r in El. subst done. by rewrite app_nil_r.
  - apply runs_bind in Hr as (tr3 & b2 & tr4 & -> & H1 & H2). rewrite app_assoc.
    eapply (IH (done ++ [x])); [by rewrite <- app_assoc| |done]. by eapply Hs.
Qed.

Lemma runs_pfold_ok {E X A B} (f : B → A → prog E (result X B)) l b tr b'
    (I : list A → list (call E) → B → Prop) :
  I [] [] b →
  (∀ done x rest tr1 b1 tr2 b2, l = done ++ x :: rest → I done tr1 b1 → runs (f b1 x) tr2 (Ok b2) →
     I (done ++ [x]) (tr1 ++ tr2) b2) →
  runs (pfold_ok f b l) tr (Ok b') → I l tr b'.
Proof.
  intros H0 Hs.
  assert (∀ done rest tr1 b1 tr2, l = done ++ rest → I done tr1 b1 → runs (pfold_ok f b1 rest) tr2 (Ok b') →
            I l (tr1 ++ tr2) b') as Hgen; [|intros Hr; by apply (Hgen [] l [] b tr)].
  intros done rest. revert done. induction rest as [|x rest IH]; intros done tr1 b1 tr2 El HI Hr; simpl in Hr.
  - apply runs_Ret in Hr as [-> [= ->]]. rewrite app_nil_r in El. subst done. by rewrite app_nil_r.
  - apply runs_bind in Hr as (tr3 & [b2|e] & tr4 & -> & H1 & H2); [|by apply runs_Ret in H2 as [_ ?]].
    rewrite app_assoc. eapply (IH (done ++ [x])); [by rewrite <- app_assoc| |done]. by eapply Hs.
Qed.

Lemma runs_pmap {E A B} (f : A → prog E B) l tr bs (R : A → B → Prop) :
  (∀ a tr b, runs (f a) tr b → R a b) → runs (pmap f l) tr bs → Forall2 R l bs.
Proof.
  intros HR. revert tr bs. induction l as [|a l IH]; intros tr bs Hr; simpl in Hr.
  - apply runs_Ret in Hr as [_ ->]. constructor.
  - apply runs_bind in Hr as (tr1 & b & tr2 & -> & H1 & Hr).
    apply runs_bind in Hr as (tr3 & bs' & tr4 & -> & H2 & Hr). apply runs_Ret in Hr as [_ ->].
    constructor; eauto.
Qed.

(** [run_step] takes one step of a run in the hypotheses. *)
Ltac run_step :=
  match goal with
  | H : runs (Ret _) _ _ |- _ => apply runs_Ret in H as [? ?]; simplify_eq
  | H : runs (trigger _) _ _ |- _ => apply runs_trigger in H; simplify_eq
  | H : runs (pbind _ _) _ _ |- _ => apply runs_bind in H as (? & ? & ? & ? & ? & ?); simplify_eq
  end.

(** [in_trace] finds a call in a trace. *)
Ltac in_trace :=
  rewrite ?elem_of_cons, ?elem_of_app, ?list_elem_of_singleton, ?elem_of_cons; first [tauto | solve [eauto 10]].

(** ** Properties of all traces *)

(** [Q] holds of the empty trace and of a trace made of two. *)
Class TraceProp {E : Type → Type} (Q : list (call E) → Prop) : Prop := {
  trace_nil : Q [];
  trace_app tr1 tr2 : Q tr1 → Q tr2 → Q (tr1 ++ tr2);
}.

(** Every run of [p] has a trace that satisfies [Q]. *)
Definition each {E A} (Q : list (call E) → Prop) (p : prog E A) : Prop := ∀ tr a, runs p tr a → Q tr.

Section each.
Context {E : Type → Type} (Q : list (call E) → Prop) `{!TraceProp Q}.

Lemma each_Ret {A} (a : A) : each Q (Ret a).
Proof using TraceProp0. intros tr a' [-> _]%runs_Ret. apply trace_nil. Qed.

Lemma each_bind {A B} (p : prog E A) (f : A → prog E B) :
  each Q p → (∀ a, each Q (f a)) → each Q (pbind p f).
Proof using TraceProp0.
  intros Hp Hf tr b (tr1 & a & tr2 & -> & H1 & H2)%runs_bind.
  apply trace_app; [by eapply Hp|by eapply Hf].
Qed.

Lemma each_trigger {X} (e : E X) : (∀ x, Q [Call e x]) → each Q (trigger e).
Proof using. by intros He tr x ->%runs_trigger. Qed.

Lemma each_pfold {A B} (f : B → A → prog E B) b l : (∀ b a, each Q (f b a)) → each Q (pfold f b l).
Proof using TraceProp0.
  intros Hf. revert b. induction l as [|a l IH]; intros b; simpl; [apply each_Ret|].
  by apply each_bind.
Qed.

Lemma each_pfold_ok_in {X A B} (f : B → A → prog E (result X B)) b l :
  (∀ b a, a ∈ l → each Q (f b a)) → each Q (pfold_ok f b l).
Proof using TraceProp0.
  revert b. induction l as [|a l IH]; intros b Hf; simpl; [apply each_Ret|].
  apply each_bind; [apply Hf; by left|]. intros [b'|e]; [|apply each_Ret].
  apply IH. intros b2 a2 Ha. apply Hf. by right.
Qed.

Lemma each_pfold_ok {X A B} (f : B → A → prog E (result X B)) b l :
  (∀ b a, each Q (f b a)) → each Q (pfold_ok f b l).
Proof using TraceProp0. intros Hf. apply each_pfold_ok_in. auto. Qed.

Lemma each_pmap {A B} (f : A → prog E B) l : (∀ a, each Q (f a)) → each Q (pmap f l).
Proof using TraceProp0.
  intros Hf. induction l as [|a l IH]; simpl; [apply each_Ret|].
  apply each_bind; [done|]. intros b. apply each_bind; [done|]. intros bs. apply each_Ret.
Qed.
End each.

Create HintDb each.
#[export] Hint Resolve each_Ret each_pfold each_pfold_ok each_pmap : each.

(** [each_step] goes through a program; the hints say what the programs it calls
    satisfy. *)
Ltac each_step :=
  match goal with
  | |- each _ (pbind _ _) => apply each_bind; [typeclasses eauto| |intros ?]
  | |- each _ (Ret _) => apply each_Ret; typeclasses eauto
  | |- each _ (pfold _ _ _) => apply each_pfold; [typeclasses eauto|intros ? ?]
  | |- each _ (pfold_ok _ _ _) => apply each_pfold_ok; [typeclasses eauto|intros ? ?]
  | |- each _ (pmap _ _) => apply each_pmap; [typeclasses eauto|intros ?]
  | |- each _ (trigger _) => solve [eauto with each]
  | |- each _ (match ?x with _ => _ end) => destruct x
  | |- each _ (let '_ := ?x in _) => destruct x
  | |- each _ _ => solve [eauto with each]
  end.
Ltac each_auto := cbv zeta; repeat (each_step; cbv zeta).

(** The property of every single call. *)
Definition all_calls {E : Type → Type} (P : call E → Prop) (tr : list (call E)) : Prop := Forall P tr.
#[export] Instance all_calls_trace {E : Type → Type} (P : call E → Prop) : TraceProp (all_calls P).
Proof. split; [constructor|intros; by apply Forall_app]. Qed.

(** ** Loops without a bound of their own *)

(** An invariant of the rounds of [ploop] and what a last round establishes. *)
Lemma runs_ploop {E A R} (n : nat) (body : A → prog E (A + R)) (I : list (call E) → A → Prop)
    (Φ : list (call E) → R → Prop) :
  (∀ tr a tr' x, I tr a → runs (body a) tr' x →
     match x with inl a' => I (tr ++ tr') a' | inr r => Φ (tr ++ tr') r end) →
  ∀ tr0 a tr x, I tr0 a → runs (ploop n body a) tr x →
    match x with inl a' => I (tr0 ++ tr) a' | inr r => Φ (tr0 ++ tr) r end.
Proof.
  intros Hs. induction n as [|n IH]; intros tr0 a tr x HI Hr; cbn [ploop] in Hr; [by eapply Hs|].
  apply runs_bind in Hr as (tr1 & y & tr2 & -> & H1 & H2). specialize (IH _ _ _ _ HI H1) as Hy.
  rewrite app_assoc. destruct y as [a'|r].
  - by eapply IH.
  - by apply runs_Ret in H2 as [-> ->]; rewrite app_nil_r.
Qed.

(** Each round lowers a measure: after [2^n] rounds it is lower by as much.  [P] is
    what is known of the answers. *)
Lemma ploop_measure_calls {E A R} (n : nat) (body : A → prog E (A + R)) (P : call E → Prop) (I : A → Prop) (μ : A → Z) :
  (∀ a tr a', I a → Forall P tr → runs (body a) tr (inl a') → I a' ∧ (μ a' < μ a)%Z) →
  ∀ a tr a', I a → Forall P tr → runs (ploop n body a) tr (inl a') → I a' ∧ (μ a' + 2 ^ Z.of_nat n <= μ a)%Z.
Proof.
  intros Hs. induction n as [|n IH]; intros a tr a' Ha HP Hr; cbn [ploop] in Hr.
  - destruct (Hs _ _ _ Ha HP Hr). split; [done|]. simpl. lia.
  - apply runs_bind in Hr as (tr1 & y & tr2 & -> & H1 & H2). apply Forall_app in HP as [HP1 HP2].
    destruct y as [a1|r]; [|by apply runs_Ret in H2 as [_ ?]].
    destruct (IH _ _ _ Ha HP1 H1) as [Ha1 ?], (IH _ _ _ Ha1 HP2 H2) as [? ?]. split; [done|].
    rewrite Nat2Z.inj_succ, Z.pow_succ_r by lia. lia.
Qed.

Lemma ploop_measure {E A R} (n : nat) (body : A → prog E (A + R)) (I : A → Prop) (μ : A → Z) :
  (∀ a tr a', I a → runs (body a) tr (inl a') → I a' ∧ (μ a' < μ a)%Z) →
  ∀ a tr a', I a → runs (ploop n body a) tr (inl a') → I a' ∧ (μ a' + 2 ^ Z.of_nat n <= μ a)%Z.
Proof.
  intros Hs a tr a' Ha. apply (ploop_measure_calls n body (λ _, True)); [eauto|done|]. by apply Forall_true.
Qed.

(** No [bad] call is reachable: with the calls that never answer, a program that
    always comes to an end. *)
Fixpoint avoids {E A} (bad : ∀ X, E X → bool) (p : prog E A) : Prop :=
  match p with
  | Ret _ => True
  | Vis e k => bad _ e = false ∧ ∀ x, avoids bad (k x)
  end.

Lemma avoids_bind {E A B} (bad : ∀ X, E X → bool) (p : prog E A) (f : A → prog E B) :
  avoids bad p → (∀ tr a, runs p tr a → avoids bad (f a)) → avoids bad (pbind p f).
Proof.
  induction p as [a|X e k IH]; simpl; intros Hp Hf; [by apply (Hf [])|].
  destruct Hp as [He Hk]. split; [done|]. intros x. apply IH; [done|].
  intros tr a Hr. apply (Hf (Call e x :: tr)). by exists x.
Qed.

Lemma avoids_ploop {E A R} (bad : ∀ X, E X → bool) (n : nat) (body : A → prog E (A + R)) (I : A → Prop) :
  (∀ a, I a → avoids bad (body a)) → (∀ a tr a', I a → runs (body a) tr (inl a') → I a') →
  ∀ a, I a → avoids bad (ploop n body a).
Proof.
  intros Hb Hi. assert (∀ n a tr a', I a → runs (ploop n body a) tr (inl a') → I a') as Hp.
  { intros m a tr a' Ha Hr.
    by apply (runs_ploop m body (λ _ a, I a) (λ _ _, True) ltac:(intros ? ? ? [] ? ?; eauto) [] a tr (inl a')). }
  induction n as [|n IH]; intros a Ha; cbn [ploop]; [auto|]. apply avoids_bind; [auto|].
  intros tr [a'|r] Hr; [|done]. eauto.
Qed.

(** The program may make a [bad] call after the calls and answers of [tr]. *)
Fixpoint reaches {E A} (bad : ∀ X, E X → bool) (p : prog E A) (tr : list (call E)) : Prop :=
  match p, tr with
  | Vis e k, [] => bad _ e = true
  | Vis e k, c :: tr => ∃ x, c = Call e x ∧ reaches bad (k x) tr
  | Ret _, _ => False
  end.

Lemma reaches_bind {E A B} (bad : ∀ X, E X → bool) (p : prog E A) (f : A → prog E B) tr :
  reaches bad (pbind p f) tr → reaches bad p tr ∨ ∃ tr1 a tr2, tr = tr1 ++ tr2 ∧ runs p tr1 a ∧ reaches bad (f a) tr2.
Proof.
  revert tr. induction p as [a|X e k IH]; intros tr H; simpl in *; [right; by exists [], a, tr|].
  destruct tr as [|c tr]; [by left|]. destruct H as (x & -> & H).
  destruct (IH x tr H) as [?|(tr1 & a & tr2 & -> & H1 & H2)]; [left; eauto|].
  right. exists (Call e x :: tr1), a, tr2. split_and!; [done|by exists x|done].
Qed.

Lemma reaches_avoids {E A} (bad : ∀ X, E X → bool) (p : prog E A) tr : avoids bad p → ¬ reaches bad p tr.
Proof.
  revert tr. induction p as [a|X e k IH]; intros tr; simpl; [by destruct tr; intros _ ?|]. destruct tr as [|c tr].
  - intros [He _] ?. congruence.
  - intros [_ Hk] (x & -> & H). by apply (IH x tr).
Qed.

(** A loop reaches what a round of it reaches. *)
Lemma reaches_ploop {E A R} (bad : ∀ X, E X → bool) (n : nat) (body : A → prog E (A + R)) a tr :
  (∀ a, avoids bad (body a)) → ¬ reaches bad (ploop n body a) tr.
Proof. intros Hb. apply reaches_avoids. by apply (avoids_ploop bad n body (λ _, True)). Qed.

(** A handler whose answers satisfy [P] makes traces that do. *)
Lemma exec_all_calls {E W A} (h : handler E W) (P : call E → Prop) (p : prog E A) w tr a w' :
  (∀ X (e : E X) w x w', h X e w = Some (x, w') → P (Call e x)) → exec h p w = Some (tr, a, w') → all_calls P tr.
Proof.
  intros Hh. revert w tr. induction p as [a'|X e k IH]; simpl; intros w tr H; [simplify_eq; constructor|].
  destruct (h X e w) as [[x w1]|] eqn:Eh; [|done].
  destruct (exec h (k x) w1) as [[[tr1 a1] w2]|] eqn:Ee; [|done]. simplify_eq.
  constructor; [by eapply Hh|by eapply IH].
Qed.

(** ** Programs of another component *)

(** A program over the calls [E] as one over calls that contain them. *)
Fixpoint embed {E F : Type → Type} {A} (h : ∀ X, E X → F X) (p : prog E A) : prog F A :=
  match p with
  | Ret a => Ret a
  | Vis e k => Vis (h _ e) (λ x, embed h (k x))
  end.

Lemma runs_embed {E F : Type → Type} {R} (h : ∀ X, E X → F X) (p : prog E R) tr x :
  runs (embed h p) tr x → ∃ tr', runs p tr' x.
Proof.
  revert tr. induction p as [y|X e k IH]; intros tr Hr; cbn [embed] in Hr; [exists []; by apply runs_Ret in Hr as [_ ->]|].
  destruct tr as [|c tr]; [done|]. destruct Hr as (z & _ & Hr). apply IH in Hr as [tr' Hr]. exists (Call e z :: tr'). by exists z.
Qed.

Lemma each_embed {E F : Type → Type} {A} (Q : list (call F) → Prop) `{!TraceProp Q} (h : ∀ X, E X → F X) (p : prog E A) :
  (∀ X (e : E X) x, Q [Call (h X e) x]) → each Q (embed h p).
Proof.
  intros He. induction p as [a|X e k IH]; cbn [embed]; [apply each_Ret; typeclasses eauto|].
  intros tr a Hr. destruct tr as [|c tr]; [done|]. destruct Hr as (x & -> & Hr).
  apply (trace_app [_] tr); [apply He|]. by eapply IH.
Qed.

Lemma each_ploop {E A R} (Q : list (call E) → Prop) `{!TraceProp Q} n (body : A → prog E (A + R)) a :
  (∀ a, each Q (body a)) → each Q (ploop n body a).
Proof.
  intros Hb. revert a. induction n as [|n IH]; intros a; cbn [ploop]; [apply Hb|].
  apply each_bind; [done|apply IH|]. intros [a'|r]; [apply IH|apply each_Ret; typeclasses eauto].
Qed.

#[export] Hint Resolve each_ploop each_embed : each.
