(* ===== verification/Exchange.v ===== *)
(** * Exchange requests (internal/exchange/rest_kline.go)

    The request for candles that the workers send to a REST fetcher. *)

From S2P Require Export Prelude.

Local Open Scope string_scope.

Module KlineRequest.
Record KlineRequest : Type := mk {
  Symbol : string; Timeframe : string; StartMS : Z; EndMS : Z; Limit : Z; Adjustment : string;
  PageDelay : Z }.
End KlineRequest.
Notation KlineRequest := KlineRequest.KlineRequest.

(** [KlineAdjustment]. *)
Definition KlineAdjustmentRaw : string := "raw".
Definition KlineAdjustmentForward : string := "forward".
Definition KlineAdjustmentAuto : string := "auto".

Definition ErrUnsupportedKlineInterval : go_error := Sentinel "unsupported REST kline interval".
Definition ErrUnsupportedKlineAdjustment : go_error := Sentinel "unsupported REST kline adjustment".
