(* ===== verification/GoStrings.v ===== *)
(** * Go's strings

    A Go string is a byte string, here [string].  The case mappings and
    [TrimSpace] act on ASCII; other bytes are left as they are, which is what Go
    does for text without a Unicode case or space character (exchange names,
    symbols, market types and timeframes are of that kind, CJK symbols
    included).  [[]rune] conversions are modelled on UTF-8 exactly. *)

From S2P Require Export Prelude.
From stdpp Require Export pretty.
From Stdlib Require Import Ascii String.
From Stdlib Require Import List.
Import ListNotations.

Local Open Scope string_scope.
Local Open Scope Z_scope.

(** ** Bytes *)

Definition byte_of (c : ascii) : Z := Z.of_N (N_of_ascii c).
Definition of_byte (b : Z) : ascii := ascii_of_N (Z.to_N b).

Fixpoint string_map (f : ascii → ascii) (s : string) : string :=
  match s with
  | EmptyString => EmptyString
  | String c s' => String (f c) (string_map f s')
  end.

(** ** [strings.ToLower], [strings.ToUpper], [strings.TrimSpace],
    [strings.EqualFold] *)

Definition is_upper (c : ascii) : bool := (65 <=? byte_of c) && (byte_of c <=? 90).
Definition is_lower (c : ascii) : bool := (97 <=? byte_of c) && (byte_of c <=? 122).
Definition is_space (c : ascii) : bool :=
  ((9 <=? byte_of c) && (byte_of c <=? 13)) || (byte_of c =? 32).

Definition lower_char (c : ascii) : ascii := if is_upper c then of_byte (byte_of c + 32) else c.
Definition upper_char (c : ascii) : ascii := if is_lower c then of_byte (byte_of c - 32) else c.

Definition ToLower : string → string := string_map lower_char.
Definition ToUpper : string → string := string_map upper_char.

Fixpoint trim_left (s : string) : string :=
  match s with
  | EmptyString => EmptyString
  | String c s' => if is_space c then trim_left s' else s
  end.

Fixpoint trim_right (s : string) : string :=
  match s with
  | EmptyString => EmptyString
  | String c s' =>
      match trim_right s' with
      | EmptyString => if is_space c then EmptyString else String c EmptyString
      | t => String c t
      end
  end.

Definition TrimSpace (s : string) : string := trim_right (trim_left s).

Definition EqualFold (s t : string) : bool := bool_decide (ToLower s = ToLower t).

(** ** Comparison: [s < t] is bytewise *)

Fixpoint string_less (s t : string) : bool :=
  match s, t with
  | _, EmptyString => false
  | EmptyString, String _ _ => true
  | String x s', String y t' =>
      if byte_of x <? byte_of y then true
      else if byte_of y <? byte_of x then false
      else string_less s' t'
  end.

Definition less_str {A} (key : A → string) (a b : A) : bool := string_less (key a) (key b).

Definition sort_strings : list string → list string := sort_slice (less_str id).

(** ** [strings.Split] on a one-byte separator, [strings.HasPrefix] *)

Fixpoint split_on (sep : ascii) (s : string) : list string :=
  match s with
  | EmptyString => [EmptyString]
  | String c s' =>
      if ascii_dec c sep then EmptyString :: split_on sep s'
      else match split_on sep s' with
           | [] => [String c EmptyString]
           | w :: ws => String c w :: ws
           end
  end.

(** ** Searching and cutting *)

(** [strings.Contains]. *)
Definition Contains (s sub : string) : bool := if String.index 0 sub s then true else false.
Definition HasPrefix (s prefix : string) : bool := String.prefix prefix s.
Definition HasSuffix (s suffix : string) : bool :=
  (String.length suffix <=? String.length s)%nat
  && bool_decide (String.substring (String.length s - String.length suffix) (String.length suffix) s = suffix).
Definition TrimSuffix (s suffix : string) : string :=
  if HasSuffix s suffix then String.substring 0 (String.length s - String.length suffix) s else s.

(** [strings.TrimRight(s, c)] for a single character. *)
Fixpoint TrimRight (s : string) (c : ascii) : string :=
  match s with
  | EmptyString => EmptyString
  | String d s' =>
      match TrimRight s' c with
      | EmptyString => if ascii_dec d c then EmptyString else String d EmptyString
      | t => String d t
      end
  end.

(** [strings.ContainsAny(s, chars)], and what comes before the first of [chars]. *)
Definition ContainsAny (s chars : string) : bool :=
  existsb (fun c => existsb (Ascii.eqb c) (list_ascii_of_string chars)) (list_ascii_of_string s).
Fixpoint before_any (s chars : string) : string :=
  match s with
  | EmptyString => EmptyString
  | String c s' => if existsb (Ascii.eqb c) (list_ascii_of_string chars) then EmptyString else String c (before_any s' chars)
  end.

(** ** [[]rune(s)] and [string(runes)] *)

Definition cont_byte (b : Z) : bool := (128 <=? b) && (b <=? 191).

Definition rune_error : Z := 65533.

(** [utf8.DecodeRune] on a non-empty byte list: the rune and what is left. *)
Definition decode_rune (b0 : Z) (t : list Z) : Z * list Z :=
  if b0 <? 128 then (b0, t)
  else if (194 <=? b0) && (b0 <=? 223) then
    match t with
    | b1 :: t1 => if cont_byte b1 then ((b0 - 192) * 64 + (b1 - 128), t1) else (rune_error, t)
    | _ => (rune_error, t)
    end
  else if (224 <=? b0) && (b0 <=? 239) then
    match t with
    | b1 :: b2 :: t2 =>
        if ((if b0 =? 224 then 160 else 128) <=? b1) && (b1 <=? (if b0 =? 237 then 159 else 191))
           && cont_byte b2
        then ((b0 - 224) * 4096 + (b1 - 128) * 64 + (b2 - 128), t2)
        else (rune_error, t)
    | _ => (rune_error, t)
    end
  else if (240 <=? b0) && (b0 <=? 244) then
    match t with
    | b1 :: b2 :: b3 :: t3 =>
        if ((if b0 =? 240 then 144 else 128) <=? b1) && (b1 <=? (if b0 =? 244 then 143 else 191))
           && cont_byte b2 && cont_byte b3
        then ((b0 - 240) * 262144 + (b1 - 128) * 4096 + (b2 - 128) * 64 + (b3 - 128), t3)
        else (rune_error, t)
    | _ => (rune_error, t)
    end
  else (rune_error, t).

(** [utf8.AppendRune]. *)
Definition encode_rune (r : Z) : list Z :=
  if (0 <=? r) && (r <=? 127) then [r]
  else if (128 <=? r) && (r <=? 2047) then [192 + r / 64; 128 + r mod 64]
  else if (r <? 0) || (1114111 <? r) || ((55296 <=? r) && (r <=? 57343)) then [239; 191; 189]
  else if r <=? 65535 then [224 + r / 4096; 128 + (r / 64) mod 64; 128 + r mod 64]
  else [240 + r / 262144; 128 + (r / 4096) mod 64; 128 + (r / 64) mod 64; 128 + r mod 64].

Definition string_bytes (s : string) : list Z := map byte_of (list_ascii_of_string s).
Definition bytes_string (bs : list Z) : string := string_of_list_ascii (map of_byte bs).

Fixpoint runes_fuel (fuel : nat) (bs : list Z) : list Z :=
  match fuel, bs with
  | S fuel', b0 :: t => let '(r, t') := decode_rune b0 t in r :: runes_fuel fuel' t'
  | _, _ => []
  end.

(** Each step consumes at least one byte, so the length is enough fuel. *)
Definition runes (s : string) : list Z :=
  runes_fuel (length (string_bytes s)) (string_bytes s).

Definition string_of_runes (rs : list Z) : string := bytes_string (concat (map encode_rune rs)).

(** ** Facts *)

Lemma byte_of_range c : 0 <= byte_of c < 256.
Proof. unfold byte_of. pose proof (N_ascii_bounded c). lia. Qed.

Lemma byte_of_of_byte b : 0 <= b < 256 → byte_of (of_byte b) = b.
Proof.
  intros. unfold byte_of, of_byte. rewrite N_ascii_embedding; [|change 256%N with (Z.to_N 256)]; lia.
Qed.

Lemma of_byte_byte_of c : of_byte (byte_of c) = c.
Proof. unfold byte_of, of_byte. rewrite N2Z.id. apply ascii_N_embedding. Qed.

Lemma byte_of_inj c d : byte_of c = byte_of d → c = d.
Proof. intros H. by rewrite <- (of_byte_byte_of c), H, of_byte_byte_of. Qed.

Lemma is_upper_spec c : is_upper c = true ↔ 65 <= byte_of c <= 90.
Proof. unfold is_upper. rewrite andb_true_iff, !Z.leb_le. lia. Qed.
Lemma is_lower_spec c : is_lower c = true ↔ 97 <= byte_of c <= 122.
Proof. unfold is_lower. rewrite andb_true_iff, !Z.leb_le. lia. Qed.

Lemma byte_of_lower c :
  byte_of (lower_char c) = if is_upper c then byte_of c + 32 else byte_of c.
Proof.
  unfold lower_char. destruct (is_upper c) eqn:E; [|done].
  apply is_upper_spec in E. rewrite byte_of_of_byte; lia.
Qed.
Lemma byte_of_upper c :
  byte_of (upper_char c) = if is_lower c then byte_of c - 32 else byte_of c.
Proof.
  unfold upper_char. destruct (is_lower c) eqn:E; [|done].
  apply is_lower_spec in E. rewrite byte_of_of_byte; lia.
Qed.

Lemma lower_char_idem c : lower_char (lower_char c) = lower_char c.
Proof.
  apply byte_of_inj. rewrite (byte_of_lower (lower_char c)).
  destruct (is_upper (lower_char c)) eqn:E; [|done].
  apply is_upper_spec in E. rewrite byte_of_lower in E.
  destruct (is_upper c) eqn:E2; [apply is_upper_spec in E2; lia|].
  apply not_true_iff_false in E2. rewrite is_upper_spec in E2. lia.
Qed.

Lemma upper_char_idem c : upper_char (upper_char c) = upper_char c.
Proof.
  apply byte_of_inj. rewrite (byte_of_upper (upper_char c)).
  destruct (is_lower (upper_char c)) eqn:E; [|done].
  apply is_lower_spec in E. rewrite byte_of_upper in E.
  destruct (is_lower c) eqn:E2; [apply is_lower_spec in E2; lia|].
  apply not_true_iff_false in E2. rewrite is_lower_spec in E2. lia.
Qed.

Lemma is_space_spec c : is_space c = true ↔ 9 <= byte_of c <= 13 ∨ byte_of c = 32.
Proof. unfold is_space. rewrite orb_true_iff, andb_true_iff, !Z.leb_le, Z.eqb_eq. lia. Qed.

Lemma is_space_lower c : is_space (lower_char c) = is_space c.
Proof.
  apply eq_true_iff_eq. rewrite !is_space_spec, byte_of_lower.
  destruct (is_upper c) eqn:E; [apply is_upper_spec in E|]; lia.
Qed.
Lemma is_space_upper c : is_space (upper_char c) = is_space c.
Proof.
  apply eq_true_iff_eq. rewrite !is_space_spec, byte_of_upper.
  destruct (is_lower c) eqn:E; [apply is_lower_spec in E|]; lia.
Qed.

Lemma ToLower_idem s : ToLower (ToLower s) = ToLower s.
Proof. unfold ToLower. induction s; simpl; f_equal; auto using lower_char_idem. Qed.
Lemma ToUpper_idem s : ToUpper (ToUpper s) = ToUpper s.
Proof. unfold ToUpper. induction s; simpl; f_equal; auto using upper_char_idem. Qed.

(** A map on characters that keeps spaces apart commutes with trimming. *)
Section trim_map.
Context (f : ascii → ascii) (Hf : ∀ c, is_space (f c) = is_space c).

Lemma trim_left_map s : trim_left (string_map f s) = string_map f (trim_left s).
Proof. induction s as [|c s IH]; simpl; [done|]. rewrite Hf. by destruct (is_space c). Qed.

Lemma trim_right_map s : trim_right (string_map f s) = string_map f (trim_right s).
Proof.
  induction s as [|c s IH]; simpl; [done|]. rewrite IH, Hf.
  destruct (trim_right s); simpl; [by destruct (is_space c)|done].
Qed.

Lemma TrimSpace_map s : TrimSpace (string_map f s) = string_map f (TrimSpace s).
Proof. unfold TrimSpace. by rewrite trim_left_map, trim_right_map. Qed.
End trim_map.

Lemma TrimSpace_ToLower s : TrimSpace (ToLower s) = ToLower (TrimSpace s).
Proof. apply TrimSpace_map, is_space_lower. Qed.
Lemma TrimSpace_ToUpper s : TrimSpace (ToUpper s) = ToUpper (TrimSpace s).
Proof. apply TrimSpace_map, is_space_upper. Qed.

Lemma trim_right_idem s : trim_right (trim_right s) = trim_right s.
Proof.
  induction s as [|c s IH]; simpl; [done|].
  destruct (trim_right s) as [|d t] eqn:E.
  - destruct (is_space c) eqn:Ec; [done|]. simpl. by rewrite Ec.
  - change (trim_right (String c (String d t))) with
      (match trim_right (String d t) with
       | EmptyString => if is_space c then EmptyString else String c EmptyString
       | t0 => String c t0
       end). by rewrite IH.
Qed.

Lemma trim_left_trim_right s : trim_left s = s → trim_left (trim_right s) = trim_right s.
Proof.
  destruct s as [|c s]; simpl; [done|].
  destruct (is_space c) eqn:Ec.
  - intros H. exfalso. assert (String.length (trim_left s) <= String.length s)%nat as Hl.
    { clear. induction s as [|c s IH]; simpl; [lia|]. destruct (is_space c); simpl; lia. }
    rewrite H in Hl. simpl in Hl. lia.
  - intros _. destruct (trim_right s); simpl; by rewrite Ec.
Qed.

Lemma trim_left_idem s : trim_left (trim_left s) = trim_left s.
Proof.
  induction s as [|c s IH]; simpl; [done|].
  destruct (is_space c) eqn:E; [done|]. simpl. by rewrite E.
Qed.

Lemma TrimSpace_idem s : TrimSpace (TrimSpace s) = TrimSpace s.
Proof.
  unfold TrimSpace. rewrite trim_left_trim_right by apply trim_left_idem. apply trim_right_idem.
Qed.

Lemma EqualFold_spec s t : EqualFold s t = true ↔ ToLower s = ToLower t.
Proof. apply bool_decide_eq_true. Qed.

(** [strings.ToLower(strings.TrimSpace(s))] and its upper-case twin are
    idempotent: the normal forms of exchange names and symbols. *)
Lemma norm_lower_idem s : ToLower (TrimSpace (ToLower (TrimSpace s))) = ToLower (TrimSpace s).
Proof. by rewrite TrimSpace_ToLower, TrimSpace_idem, ToLower_idem. Qed.
Lemma norm_upper_idem s : ToUpper (TrimSpace (ToUpper (TrimSpace s))) = ToUpper (TrimSpace s).
Proof. by rewrite TrimSpace_ToUpper, TrimSpace_idem, ToUpper_idem. Qed.

#[export] Hint Rewrite ToLower_idem ToUpper_idem TrimSpace_idem norm_lower_idem norm_upper_idem
  : go_strings.

(** ** The byte order is a strict total order *)

Lemma string_less_irrefl s : string_less s s = false.
Proof. induction s as [|c s IH]; simpl; [done|]. by rewrite Z.ltb_irrefl. Qed.

Lemma string_less_asym s t : string_less s t = true → string_less t s = false.
Proof.
  revert t. induction s as [|c s IH]; intros [|d t]; simpl; try done.
  destruct (byte_of c <? byte_of d) eqn:E1, (byte_of d <? byte_of c) eqn:E2; try done.
  - zbool. lia.
  - apply IH.
Qed.

Lemma string_less_negtrans s t u :
  string_less s t = false → string_less t u = false → string_less s u = false.
Proof.
  revert t u. induction s as [|c s IH]; intros [|d t] [|e u]; simpl; try done.
  destruct (byte_of c <? byte_of d) eqn:E1, (byte_of d <? byte_of c) eqn:E2,
    (byte_of d <? byte_of e) eqn:E3, (byte_of e <? byte_of d) eqn:E4,
    (byte_of c <? byte_of e) eqn:E5, (byte_of e <? byte_of c) eqn:E6; try done; zbool; try lia.
  apply IH.
Qed.

#[export] Instance less_str_order {A} (key : A → string) : LessOrder (less_str key).
Proof.
  split; unfold less_str; intros *; [apply string_less_asym|apply string_less_negtrans].
Qed.

Lemma string_less_total s t : string_less s t = false → string_less t s = false → s = t.
Proof.
  revert t. induction s as [|c s IH]; intros [|d t]; simpl; try done.
  destruct (byte_of c <? byte_of d) eqn:E1, (byte_of d <? byte_of c) eqn:E2; try done.
  intros. zbool. f_equal; [apply byte_of_inj; lia|by apply IH].
Qed.

#[export] Hint Resolve string_less_total : go_order.

(** ** Keys joined with colons *)

Fixpoint contains_char (c : ascii) (s : string) : bool :=
  match s with
  | EmptyString => false
  | String d s' => bool_decide (c = d) || contains_char c s'
  end.

Lemma contains_char_app c s t : contains_char c (s ++ t) = contains_char c s || contains_char c t.
Proof. induction s as [|d s IH]; simpl; [done|]. by rewrite IH, orb_assoc. Qed.

(** The part after the last colon determines the split. *)
Lemma last_colon_inj s1 s2 t1 t2 :
  contains_char ":" t1 = false → contains_char ":" t2 = false →
  (s1 ++ ":" ++ t1 = s2 ++ ":" ++ t2)%string → s1 = s2 ∧ t1 = t2.
Proof.
  intros H1 H2. revert s2.
  induction s1 as [|c s1 IH]; intros [|d s2] Heq; unfold String.append in Heq; fold String.append in Heq.
  - by injection Heq as <-.
  - injection Heq as <- Ht. exfalso. rewrite Ht, contains_char_app in H1. simpl in H1.
    by rewrite orb_true_r in H1.
  - injection Heq as -> Ht. exfalso. rewrite <- Ht, contains_char_app in H2. simpl in H2.
    by rewrite orb_true_r in H2.
  - injection Heq as -> Ht. destruct (IH s2 Ht) as [-> ->]. done.
Qed.
