(* ===== verification/GoNumbers.v ===== *)
(** * Numbers as text (strconv)

    [ParseInt] in base 10 and [ParseFloat] as the exchange adapters use them, and
    the shortest decimal text of a float64 ([FormatFloat] with 'f' and -1), which
    is how a decoded JSON number becomes text.  A decimal is rounded once, from its
    exact value.  [ParseFloat] also reads hexadecimal numbers and digits separated
    by underscores; those spellings are not numbers of the exchanges, and the model
    refuses them. *)

From S2P Require Export GoStrings Float64.

Local Open Scope string_scope.
Local Open Scope Z_scope.
Local Open Scope list_scope.

(** ** Digits *)

Definition is_digit (b : Z) : bool := (48 <=? b) && (b <=? 57).

(** The leading digits, and what follows. *)
Fixpoint span_digits (bs : list Z) : list Z * list Z :=
  match bs with
  | b :: rest => if is_digit b then let '(ds, tail) := span_digits rest in (b - 48 :: ds, tail) else ([], bs)
  | [] => ([], [])
  end.

(** The number a list of digits spells. *)
Definition digits_value (ds : list Z) : Z := foldl (fun n d => 10 * n + d) 0 ds.

(** An optional sign: negative?, and what follows. *)
Definition take_sign (bs : list Z) : bool * list Z :=
  match bs with
  | b :: rest => if b =? 45 then (true, rest) else if b =? 43 then (false, rest) else (false, bs)
  | [] => (false, [])
  end.

(** ** [ParseInt(s, 10, 64)]: the value, and whether there was no error *)

Definition ParseInt (s : string) : Z * bool :=
  let '(neg, bs) := take_sign (string_bytes s) in
  match span_digits bs with
  | ((_ :: _) as ds, []) =>
      let n := digits_value ds in
      if neg then (if two63 <? n then (- two63, false) else (- n, true))
      else (if two63 <=? n then (two63 - 1, false) else (n, true))
  | _ => (0, false)
  end.

(** ** Decimals *)

(** The float64 nearest to [m * 10^e] for [0 <= m]: past the binary digits the
    quotient needs, one more bit says whether anything is left over. *)
Definition f64_of_decimal (m e : Z) : float64 :=
  if m =? 0 then f64_zero
  else if 0 <=? e then binary_normalize 53 1024 (m * 10 ^ e) 0 false
  else
    let d := 10 ^ (- e) in
    let s := Z.max 0 (Z.log2 d - Z.log2 m + 66) in
    let '(q, r) := Z.div_eucl (m * 2 ^ s) d in
    binary_normalize 53 1024 (2 * q + (if r =? 0 then 0 else 1)) (- (s + 1)) false.

(** [e] stops growing at five digits. *)
Definition exponent_value (ds : list Z) : Z := foldl (fun e d => if e <? 10000 then 10 * e + d else e) 0 ds.

(** The exponent of a decimal; [None] is a syntax error. *)
Definition take_exponent (bs : list Z) : option Z :=
  match bs with
  | [] => Some 0
  | b :: rest =>
      if (b =? 101) || (b =? 69) then
        let '(neg, rest) := take_sign rest in
        match span_digits rest with
        | ((_ :: _) as ds, []) => Some (if neg then - exponent_value ds else exponent_value ds)
        | _ => None
        end
      else None
  end.

(** Digits, a point, digits, an exponent: the mantissa and the power of ten. *)
Definition read_decimal (bs : list Z) : option (Z * Z) :=
  let '(whole, rest) := span_digits bs in
  let '(fraction, rest) :=
    match rest with
    | b :: rest' => if b =? 46 then span_digits rest' else ([], rest)
    | [] => ([], [])
    end in
  match whole ++ fraction with
  | [] => None
  | ds =>
      match take_exponent rest with
      | Some e => Some (digits_value ds, e - Z.of_nat (length fraction))
      | None => None
      end
  end.

Definition f64_signed (neg : bool) (f : float64) : float64 := if neg then SFopp f else f.

(** [ParseFloat(s, 64)]: the value, and whether there was no error.  A value out
    of range is an infinity with an error. *)
Definition ParseFloat (s : string) : float64 * bool :=
  let '(neg, bs) := take_sign (string_bytes s) in
  let word := ToLower (bytes_string bs) in
  if bool_decide (word = "inf") || bool_decide (word = "infinity") then (S754_infinity neg, true)
  else if bool_decide (ToLower s = "nan") then (S754_nan, true)
  else
    match read_decimal bs with
    | None => (f64_zero, false)
    | Some (m, e) => let f := f64_of_decimal m e in (f64_signed neg f, negb (f64_is_inf f))
    end.

(** ** [FormatFloat(f, 'f', -1, 64)] *)

Definition digit_char (d : Z) : Ascii.ascii := of_byte (48 + d).
Fixpoint zeros_text (n : nat) : string := match n with O => "" | S n => String (digit_char 0) (zeros_text n) end.

(** [n >= 0] in decimal; then with a point [k] digits from the right, as 'f'
    writes [n * 10^-k]. *)
Definition decimal_text (n : Z) : string := pretty n.
Definition point_text (n k : Z) : string :=
  if k <=? 0 then if n =? 0 then "0" else (decimal_text n ++ zeros_text (Z.to_nat (- k)))%string
  else
    let fraction := decimal_text (n mod 10 ^ k) in
    (decimal_text (n / 10 ^ k) ++ "." ++
     zeros_text (Z.to_nat k - String.length fraction) ++ fraction)%string.

(** [m * 2^e] rounded to the nearest multiple of [10^-k]. *)
Definition round_decimal (m e k : Z) : Z :=
  let num := m * (if 0 <=? e then 2 ^ e else 1) * (if 0 <=? k then 10 ^ k else 1) in
  let den := (if 0 <=? e then 1 else 2 ^ (- e)) * (if 0 <=? k then 1 else 10 ^ (- k)) in
  let '(q, r) := Z.div_eucl num den in
  if (den <? 2 * r) || ((2 * r =? den) && Z.odd q) then q + 1 else q.

(** The first of the candidate precisions whose rounding reads back as [f]. *)
Fixpoint shortest (fuel : nat) (m e k : Z) (f : float64) : Z * Z :=
  let n := round_decimal m e k in
  match fuel with
  | O => (n, k)
  | S fuel => if bool_decide (f64_of_decimal n (- k) = f) then (n, k) else shortest fuel m e (k + 1) f
  end.

(** One significant digit first: [k] such that [m * 2^e * 10^k] is about 1. *)
Definition first_precision (m e : Z) : Z := - ((Z.log2 m + e) * 30103 / 100000 + 1).

Definition FormatFloat (f : float64) : string :=
  match f with
  | S754_zero neg => if neg then "-0" else "0"
  | S754_infinity neg => if neg then "-Inf" else "+Inf"
  | S754_nan => "NaN"
  | S754_finite neg m e =>
      let '(n, k) := shortest 20 (Zpos m) e (first_precision (Zpos m) e) (S754_finite false m e) in
      ((if neg then "-" else "") ++ point_text n k)%string
  end.

(** Boundary values of both formats. *)
Example parse_int_limits :
  ParseInt "9223372036854775807" = (9223372036854775807, true) ∧
  ParseInt "9223372036854775808" = (9223372036854775807, false) ∧
  ParseInt "-9223372036854775808" = (-9223372036854775808, true) ∧
  ParseInt "1e3" = (0, false) ∧ ParseInt "" = (0, false) ∧ ParseInt "+12" = (12, true).
Proof. vm_compute. repeat split. Qed.

Example parse_float_limits :
  ParseFloat "0.1" = (f64_of_Q 1 10, true) ∧ ParseFloat "-2.5e-1" = (SFopp (f64_of_Q 1 4), true) ∧
  snd (ParseFloat "1e309") = false ∧ fst (ParseFloat "4.9e-324") = S754_finite false 1 (-1074) ∧
  ParseFloat "." = (f64_zero, false) ∧ fst (ParseFloat "1e-400") = f64_zero.
Proof. vm_compute. repeat split. Qed.

Example format_float_texts :
  FormatFloat (f64_of_Q 1 10) = "0.1" ∧ FormatFloat (f64_of_Z 1779262200000) = "1779262200000" ∧
  FormatFloat (f64_of_Q 12345 1000) = "12.345" ∧ FormatFloat (f64_of_Z (10 ^ 22)) = "10000000000000000000000" ∧
  FormatFloat (f64_of_Q 1 3) = "0.3333333333333333" ∧ FormatFloat (f64_of_Z (2 ^ 53 + 2)) = "9007199254740994".
Proof. vm_compute. repeat split. Qed.

(** ** Reading back what was written *)

Lemma string_bytes_cons c s : string_bytes (String c s) = byte_of c :: string_bytes s.
Proof. done. Qed.

Definition are_digits (ds : list Z) : Prop := Forall (fun d => 0 <= d <= 9) ds.
Definition bytes_of_digits (ds : list Z) : list Z := (fun d => d + 48) <$> ds.

Lemma digits_value_app ds d : digits_value (ds ++ [d]) = 10 * digits_value ds + d.
Proof. unfold digits_value. by rewrite foldl_app. Qed.

Lemma pretty_char_byte n : (n < 10)%N → byte_of (pretty_N_char n) = Z.of_N n + 48.
Proof. intros Hn. do 10 (destruct n as [|n] using N.peano_ind; [done|clear IHn]). lia. Qed.

(** The digits [pretty] writes, in front of what is already there. *)
Lemma pretty_digits x s :
  ∃ ds, string_bytes (pretty_N_go x s) = bytes_of_digits ds ++ string_bytes s ∧ are_digits ds ∧
    digits_value ds = Z.of_N x ∧ ((0 < x)%N → ds ≠ []).
Proof.
  revert s. induction (N.lt_wf_0 x) as [x _ IH]. intros s.
  destruct (decide (x = 0%N)) as [->|Hx]; [exists []; rewrite pretty_N_go_0; split_and!; [done|constructor|done|lia]|].
  rewrite pretty_N_go_step by lia.
  destruct (IH (x `div` 10)%N ltac:(apply N.div_lt; lia) (String (pretty_N_char (x `mod` 10)) s)) as (ds & Hb & Hd & Hv & _).
  pose proof (N.mod_lt x 10 ltac:(lia)) as Hm. exists (ds ++ [Z.of_N (x mod 10)]). split_and!.
  - rewrite Hb, string_bytes_cons, pretty_char_byte by done. unfold bytes_of_digits. by rewrite fmap_app, <- app_assoc.
  - apply Forall_app. split; [done|]. constructor; [|constructor]. revert Hm. generalize (x `mod` 10)%N. intros n ?. lia.
  - rewrite digits_value_app, Hv. pose proof (N.div_mod x 10 ltac:(lia)). lia.
  - intros _. by destruct ds.
Qed.

Lemma span_digits_spec ds : are_digits ds → span_digits (bytes_of_digits ds) = (ds, []).
Proof.
  induction 1 as [|d ds Hd _ IH]; [done|]. unfold bytes_of_digits in *. cbn [fmap list_fmap span_digits].
  assert (is_digit (d + 48) = true) as -> by (unfold is_digit; apply andb_true_iff; rewrite !Z.leb_le; lia).
  rewrite IH. f_equal. f_equal. lia.
Qed.

Lemma take_sign_digits ds : are_digits ds → take_sign (bytes_of_digits ds) = (false, bytes_of_digits ds).
Proof.
  intros [|d ds' Hd _]; [done|]. cbn. destruct (d + 48 =? 45) eqn:E1; zbool; [lia|].
  destruct (d + 48 =? 43) eqn:E2; zbool; [lia|done].
Qed.

Lemma pretty_N_digits x :
  ∃ ds, string_bytes (pretty x) = bytes_of_digits ds ∧ are_digits ds ∧ digits_value ds = Z.of_N x ∧ ds ≠ [].
Proof.
  unfold pretty, pretty_N. destruct (decide (x = 0%N)) as [->|Hx].
  - exists [0]. split_and!; try done. constructor; [lia|constructor].
  - destruct (pretty_digits x "") as (ds & Hb & Hd & Hv & Hne). exists ds. rewrite Hb. split_and!; try done.
    + by rewrite app_nil_r.
    + apply Hne. lia.
Qed.

(** A number of 64 bits that was written in decimal is read back unchanged. *)
Lemma ParseInt_pretty z : int64_range z → ParseInt (pretty z) = (z, true).
Proof.
  intros Hz. unfold int64_range in Hz. unfold ParseInt. destruct z as [|p|p].
  - done.
  - change (pretty (Zpos p)) with (pretty (Npos p)). destruct (pretty_N_digits (Npos p)) as (ds & -> & Hd & Hv & Hne).
    rewrite take_sign_digits by done. cbv beta iota. rewrite span_digits_spec, Hv by done. destruct ds as [|d ds]; [done|].
    destruct (two63 <=? Z.of_N (N.pos p)) eqn:E; zbool; [simpl in E; lia|done].
  - change (pretty (Zneg p)) with ("-" +:+ pretty (Npos p))%string.
    destruct (pretty_N_digits (Npos p)) as (ds & Hb & Hd & Hv & Hne).
    change (string_bytes ("-" +:+ pretty (Npos p))) with (45 :: string_bytes (pretty (Npos p))). rewrite Hb. cbn [take_sign].
    change (45 =? 45) with true. cbv beta iota. rewrite span_digits_spec, Hv by done. destruct ds as [|d ds]; [done|].
    destruct (two63 <? Z.of_N (N.pos p)) eqn:E; zbool; [simpl in E; lia|done].
Qed.
