(* ===== verification/GoJSON.v ===== *)
(** * JSON values as Go holds them

    [any] is what an [any] of the modelled code may hold: what encoding/json puts
    into it, and the [int64] and [json.Number] the code passes around.  A decoded
    document has its numbers as [AnyNumber]; unmarshalling into [any] without
    UseNumber makes float64 of them.  Parsing JSON text itself is not modelled: the
    functions take the decoded document, or the decoder's error. *)

From S2P Require Export GoNumbers.

Local Open Scope string_scope.
Local Open Scope Z_scope.
Local Open Scope list_scope.

Inductive any : Type :=
| AnyNil
| AnyBool (b : bool)
| AnyString (s : string)
| AnyFloat (f : float64)
| AnyInt (z : Z)
| AnyNumber (text : string)
| AnyList (l : list any)
| AnyMap (m : list (string * any)).

(** ** [fmt.Sprint] *)

(** The significant digits of a float64 and the power of ten of the last. *)
Definition float_digits (m e : Z) (f : float64) : Z * Z := shortest 20 m e (first_precision m e) f.

Definition two_digits (n : Z) : string := if n <? 10 then ("0" ++ decimal_text n)%string else decimal_text n.

(** [%v] of a float64: the shortest digits, with an exponent below -4 and from 21. *)
Definition Sprint_float (f : float64) : string :=
  match f with
  | S754_finite neg m e =>
      let '(n, k) := float_digits (Zpos m) e (S754_finite false m e) in
      let digits := decimal_text n in
      let exponent := Z.of_nat (String.length digits) - 1 - k in
      if (exponent <? -4) || (20 <? exponent) then
        let rest := String.substring 1 (String.length digits) digits in
        ((if neg then "-" else "") ++ String.substring 0 1 digits ++ (if bool_decide (rest = "") then "" else "." ++ rest)
         ++ "e" ++ (if (exponent <? 0)%Z then "-" else "+") ++ two_digits (Z.abs exponent))%string
      else FormatFloat f
  | _ => FormatFloat f
  end.

Definition entry_less (a b : string * string) : bool := string_less (fst a) (fst b).

Fixpoint Sprint (v : any) : string :=
  match v with
  | AnyNil => "<nil>"
  | AnyBool b => if b then "true" else "false"
  | AnyString s => s
  | AnyFloat f => Sprint_float f
  | AnyInt z => pretty z
  | AnyNumber text => text
  | AnyList l => ("[" ++ String.concat " " (map Sprint l) ++ "]")%string
  | AnyMap m =>
      ("map[" ++ String.concat " "
         (map (fun e => (fst e ++ ":" ++ snd e)%string)
            (sort_slice entry_less (map (fun e => (fst e, Sprint (snd e))) m))) ++ "]")%string
  end.

(** ** Reading a document *)

(** [data["key"]] of a map: nil without the key; a key given twice has its last value. *)
Definition map_entry (m : list (string * any)) (key : string) : any :=
  from_option snd AnyNil (last (List.filter (fun e => bool_decide (fst e = key)) m)).

(** The value for a struct field: keys are compared without case, and null leaves
    the field as it was. *)
Definition is_null (v : any) : bool := match v with AnyNil => true | _ => false end.
Definition struct_field (m : list (string * any)) (name : string) : any :=
  from_option snd AnyNil (last (List.filter (fun e => EqualFold (fst e) name && negb (is_null (snd e))) m)).

(** Unmarshalling into [any]: every number must be a float64. *)
Fixpoint numbers_fit (v : any) : bool :=
  match v with
  | AnyNumber text => snd (ParseFloat text)
  | AnyList l => forallb numbers_fit l
  | AnyMap m => forallb (fun e => numbers_fit (snd e)) m
  | _ => true
  end.
Fixpoint with_floats (v : any) : any :=
  match v with
  | AnyNumber text => AnyFloat (fst (ParseFloat text))
  | AnyList l => AnyList (map with_floats l)
  | AnyMap m => AnyMap (map (fun e => (fst e, with_floats (snd e))) m)
  | v => v
  end.

Definition UnmarshalTypeError : go_error := Errorf "json: cannot unmarshal %s into Go value of type %s".

(** A [map[string]any]; null is the nil map. *)
Definition as_map (doc : any) : result go_error (list (string * any)) :=
  match doc with
  | AnyNil => Ok []
  | AnyMap _ =>
      if numbers_fit doc then match with_floats doc with AnyMap m => Ok m | _ => Ok [] end
      else Err UnmarshalTypeError
  | _ => Err UnmarshalTypeError
  end.

(** The fields of a struct, before their types are looked at. *)
Definition as_struct (doc : any) : result go_error (list (string * any)) :=
  match doc with
  | AnyNil => Ok []
  | AnyMap m => Ok m
  | _ => Err UnmarshalTypeError
  end.

Definition as_string (v : any) : result go_error string :=
  match v with
  | AnyNil => Ok ""
  | AnyString s => Ok s
  | _ => Err UnmarshalTypeError
  end.

Definition as_int64 (v : any) : result go_error Z :=
  match v with
  | AnyNil => Ok 0
  | AnyNumber text => let '(z, ok) := ParseInt text in if ok then Ok z else Err UnmarshalTypeError
  | _ => Err UnmarshalTypeError
  end.

(** A slice: each element decoded by [f]. *)
Fixpoint all_ok {A B} (f : A → result go_error B) (l : list A) : result go_error (list B) :=
  match l with
  | [] => Ok []
  | a :: rest =>
      match f a, all_ok f rest with
      | Ok b, Ok bs => Ok (b :: bs)
      | Err e, _ => Err e
      | _, Err e => Err e
      end
  end.
Definition as_slice {B} (f : any → result go_error B) (v : any) : result go_error (list B) :=
  match v with
  | AnyNil => Ok []
  | AnyList l => all_ok f l
  | _ => Err UnmarshalTypeError
  end.
