(* ===== verification/Calendar.v ===== *)
(** * UTC calendar time

    The part of Go's package [time] that the program uses: an instant is its
    number of milliseconds since the Unix epoch ([time.UnixMilli(ms).UTC()]),
    and [Date], [AddDate], [Weekday] act on the proleptic Gregorian calendar.
    Every instant the program does arithmetic on is built from milliseconds, so
    nothing below a millisecond is kept; the division of [UnixMilli] is the
    floor, as for Go's instants before 1970. *)

From S2P Require Export Prelude.

Local Open Scope Z_scope.

Definition DayMs : Z := 86400000.

(** ** Years and months as day numbers (day 0 is 1970-01-01) *)

Definition is_leap (y : Z) : bool :=
  (y mod 4 =? 0) && (negb (y mod 100 =? 0) || (y mod 400 =? 0)).

(** Day number of January 1st of year [y]. *)
Definition year_start (y : Z) : Z :=
  let y1 := y - 1 in 365 * y1 + y1 / 4 - y1 / 100 + y1 / 400 - 719162.

(** Days of the year before month [m] (0 for January). *)
Definition days_before (leap : bool) (m : Z) : Z :=
  let l := if leap then 1 else 0 in
  match m with
  | 0 => 0 | 1 => 31 | 2 => 59 + l | 3 => 90 + l | 4 => 120 + l | 5 => 151 + l
  | 6 => 181 + l | 7 => 212 + l | 8 => 243 + l | 9 => 273 + l | 10 => 304 + l
  | 11 => 334 + l | _ => 365 + l
  end.

(** First day of the month with index [mi = 12 * year + (month - 1)]. *)
Definition month_start (mi : Z) : Z :=
  year_start (mi / 12) + days_before (is_leap (mi / 12)) (mi mod 12).

(** The year of a day number, by 400-, 100-, 4- and 1-year cycles as the
    standard library computes it. *)
Definition year_of_day (n : Z) : Z :=
  let d := n + 719162 in
  let n400 := d / 146097 in
  let d := d - 146097 * n400 in
  let n100 := Z.min 3 (d / 36524) in
  let d := d - 36524 * n100 in
  let n4 := d / 1461 in
  let d := d - 1461 * n4 in
  let n1 := Z.min 3 (d / 365) in
  400 * n400 + 100 * n100 + 4 * n4 + n1 + 1.

(** The month (0 for January) of the day with number [yday] of its year. *)
Definition month_of_yday (leap : bool) (yday : Z) : Z :=
  if yday <? days_before leap 1 then 0 else if yday <? days_before leap 2 then 1
  else if yday <? days_before leap 3 then 2 else if yday <? days_before leap 4 then 3
  else if yday <? days_before leap 5 then 4 else if yday <? days_before leap 6 then 5
  else if yday <? days_before leap 7 then 6 else if yday <? days_before leap 8 then 7
  else if yday <? days_before leap 9 then 8 else if yday <? days_before leap 10 then 9
  else if yday <? days_before leap 11 then 10 else 11.

(** ** [time.Time] accessors on an instant in milliseconds *)

Definition day_of (ms : Z) : Z := ms / DayMs.
Definition clock_of (ms : Z) : Z := ms mod DayMs.

Definition Year (ms : Z) : Z := year_of_day (day_of ms).
Definition Month (ms : Z) : Z :=
  let n := day_of ms in let y := year_of_day n in
  month_of_yday (is_leap y) (n - year_start y) + 1.
Definition Day (ms : Z) : Z :=
  let n := day_of ms in let y := year_of_day n in
  n - year_start y - days_before (is_leap y) (month_of_yday (is_leap y) (n - year_start y)) + 1.

(** 0 is Sunday. *)
Definition Weekday (ms : Z) : Z := (day_of ms + 4) mod 7.

(** [time.Date(y, m, d, 0, 0, 0, 0, time.UTC)] plus a time of day [clock]:
    months and days out of range are normalised. *)
Definition Date (y m d clock : Z) : Z :=
  (month_start (12 * y + (m - 1)) + (d - 1)) * DayMs + clock.

(** [t.AddDate(years, months, days)]. *)
Definition AddDate (t years months days : Z) : Z :=
  Date (Year t + years) (Month t + months) (Day t + days) (clock_of t).

(** [t.UnixMilli()]. *)
Definition UnixMilli (t : Z) : Z := i64 t.

(** [t.Sub(u)] in nanoseconds: saturates at the ends of [time.Duration]. *)
Definition Sub_ns (t u : Z) : Z :=
  Z.max (- two63) (Z.min (two63 - 1) ((t - u) * 1000000)).

(** ** The calendar is consistent *)

Lemma is_leap_spec y :
  is_leap y = true ↔ y mod 4 = 0 ∧ (y mod 100 ≠ 0 ∨ y mod 400 = 0).
Proof.
  unfold is_leap. rewrite andb_true_iff, orb_true_iff, negb_true_iff, !Z.eqb_eq, Z.eqb_neq. done.
Qed.

Lemma pred_div y k : 0 < k → (y - 1) / k = y / k - (if y mod k =? 0 then 1 else 0).
Proof.
  intros Hk. pose proof (Z.div_mod y k) as E. pose proof (Z.mod_pos_bound y k Hk).
  destruct (y mod k =? 0) eqn:Em; zbool.
  - symmetry. apply (Z.div_unique _ _ _ (k - 1)); [left|]; lia.
  - symmetry. apply (Z.div_unique _ _ _ (y mod k - 1)); [left|]; lia.
Qed.

Lemma mod_mul_0 y a b : 0 < a → 0 < b → y mod (a * b) = 0 → y mod a = 0.
Proof.
  intros Ha Hb H. apply Z.mod_divide in H as [c ->]; [|lia].
  rewrite (Z.mul_comm a b), Z.mul_assoc. apply Z.mod_mul. lia.
Qed.

Lemma year_start_succ y : year_start (y + 1) = year_start y + (if is_leap y then 366 else 365).
Proof.
  unfold year_start, is_leap. replace (y + 1 - 1) with y by lia.
  rewrite !(pred_div y) by lia.
  pose proof (mod_mul_0 y 100 4 ltac:(done) ltac:(done)).
  pose proof (mod_mul_0 y 4 25 ltac:(done) ltac:(done)).
  change (100 * 4) with 400 in *. change (4 * 25) with 100 in *.
  destruct (y mod 4 =? 0) eqn:E4, (y mod 100 =? 0) eqn:E100, (y mod 400 =? 0) eqn:E400;
    simpl; zbool; lia.
Qed.

Lemma div_bounds a k : 0 < k → k * (a / k) <= a < k * (a / k) + k.
Proof. intros. pose proof (Z.div_mod a k). pose proof (Z.mod_pos_bound a k). lia. Qed.

(** The four cycles of [year_of_day], as one decomposition of the day count. *)
Lemma year_cycles n :
  ∃ a b c e r,
    year_of_day n = 400 * a + 100 * b + 4 * c + e + 1 ∧
    n + 719162 = 146097 * a + 36524 * b + 1461 * c + 365 * e + r ∧
    0 <= b <= 3 ∧ 0 <= c <= 24 ∧ 0 <= e <= 3 ∧ 0 <= r <= 365 ∧
    (r = 365 → e = 3 ∧ (c = 24 → b = 3)).
Proof.
  unfold year_of_day.
  set (d := n + 719162). set (a := d / 146097). set (r1 := d - 146097 * a).
  set (b := Z.min 3 (r1 / 36524)). set (r2 := r1 - 36524 * b).
  set (c := r2 / 1461). set (r3 := r2 - 1461 * c). set (e := Z.min 3 (r3 / 365)).
  exists a, b, c, e, (r3 - 365 * e).
  pose proof (div_bounds d 146097 eq_refl). fold a in H.
  pose proof (div_bounds r1 36524 eq_refl). pose proof (div_bounds r2 1461 eq_refl).
  fold c in H1. pose proof (div_bounds r3 365 eq_refl).
  assert (0 <= r1 < 146097) by lia.
  assert (0 <= b <= 3 ∧ (b < 3 → r2 < 36524) ∧ 0 <= r2 ∧ (b = 3 → r2 <= 36524)) by lia.
  assert (0 <= r3 < 1461) by lia.
  assert (0 <= c <= 24) by lia.
  assert (0 <= e <= 3 ∧ 0 <= r3 - 365 * e <= 365 ∧ (r3 - 365 * e = 365 → e = 3)) by lia.
  split_and!; try lia.
Qed.

Lemma cycle_divs a b c e :
  0 <= b <= 3 → 0 <= c <= 24 → 0 <= e <= 3 →
  (400 * a + 100 * b + 4 * c + e) / 4 = 100 * a + 25 * b + c ∧
  (400 * a + 100 * b + 4 * c + e) / 100 = 4 * a + b ∧
  (400 * a + 100 * b + 4 * c + e) / 400 = a.
Proof.
  intros. split_and!; symmetry.
  - apply (Z.div_unique _ _ _ e); [left|]; lia.
  - apply (Z.div_unique _ _ _ (4 * c + e)); [left|]; lia.
  - apply (Z.div_unique _ _ _ (100 * b + 4 * c + e)); [left|]; lia.
Qed.

(** Every day lies in the year the computation returns. *)
Lemma year_of_day_spec n : year_start (year_of_day n) <= n < year_start (year_of_day n + 1).
Proof.
  destruct (year_cycles n) as (a & b & c & e & r & Hyd & Hn & Hb & Hc & He & Hr & Hr').
  set (y := year_of_day n) in *. rewrite year_start_succ.
  assert (Hy : year_start y = n - r).
  { unfold year_start. replace (y - 1) with (400 * a + 100 * b + 4 * c + e) by lia.
    destruct (cycle_divs a b c e) as (-> & -> & ->); [lia..|]. lia. }
  rewrite Hy. split; [lia|].
  destruct (decide (r = 365)) as [->|]; [|destruct (is_leap y); lia].
  assert (is_leap y = true) as ->; [|lia].
  destruct (Hr' eq_refl) as [-> Hc24]. apply is_leap_spec. rewrite Hyd.
  replace (400 * a + 100 * b + 4 * c + 3 + 1) with (4 * (100 * a + 25 * b + c + 1)) by lia.
  split; [rewrite Z.mul_comm; by apply Z.mod_mul|].
  destruct (decide (c = 24)) as [->|].
  - rewrite Hc24 by done. right.
    replace (4 * _) with ((a + 1) * 400) by lia. by apply Z.mod_mul.
  - left. replace (4 * _) with (4 * c + 4 + (4 * a + b) * 100) by lia.
    rewrite Z.mod_add by lia. rewrite Z.mod_small; lia.
Qed.

(** Years do not overlap, so the year is determined by its interval. *)
Lemma year_start_mono y1 y2 : y1 < y2 → year_start y1 + 365 <= year_start y2.
Proof.
  intros H. replace y2 with (y1 + Z.of_nat (Z.to_nat (y2 - y1 - 1)) + 1) by lia.
  generalize (Z.to_nat (y2 - y1 - 1)) as k. clear H. intros k. induction k as [|k IH].
  - replace (y1 + Z.of_nat 0) with y1 by lia. rewrite year_start_succ. destruct (is_leap y1); lia.
  - rewrite year_start_succ. rewrite Nat2Z.inj_succ.
    replace (y1 + Z.succ (Z.of_nat k)) with (y1 + Z.of_nat k + 1) by lia.
    destruct (is_leap _); lia.
Qed.

Lemma year_of_day_unique n y : year_start y <= n < year_start (y + 1) → year_of_day n = y.
Proof.
  intros H. pose proof (year_of_day_spec n) as H'.
  destruct (Z.lt_trichotomy (year_of_day n) y) as [Hlt|[?|Hlt]]; [exfalso|done|exfalso].
  - destruct (decide (year_of_day n + 1 = y)) as [Heq|]; [rewrite Heq in *; lia|].
    pose proof (year_start_mono (year_of_day n + 1) y). lia.
  - destruct (decide (y + 1 = year_of_day n)) as [Heq|]; [rewrite Heq in *; lia|].
    pose proof (year_start_mono (y + 1) (year_of_day n)). lia.
Qed.

(** *** Months *)

Ltac month_cases m := 
  assert (m = 0 ∨ m = 1 ∨ m = 2 ∨ m = 3 ∨ m = 4 ∨ m = 5 ∨ m = 6 ∨ m = 7 ∨ m = 8 ∨ m = 9 ∨
          m = 10 ∨ m = 11) as Hm by lia;
  destruct Hm as [->|[->|[->|[->|[->|[->|[->|[->|[->|[->|[->| ->]]]]]]]]]]].

Lemma days_before_step l m : 0 <= m <= 11 → 28 <= days_before l (m + 1) - days_before l m <= 31.
Proof. intros. month_cases m; destruct l; simpl; lia. Qed.

Lemma month_of_yday_spec l d :
  0 <= d < days_before l 12 →
  0 <= month_of_yday l d <= 11 ∧
  days_before l (month_of_yday l d) <= d < days_before l (month_of_yday l d + 1).
Proof.
  intros H. unfold month_of_yday.
  repeat (case_bool; [zbool; cbn [days_before Z.add] in *; simpl; lia|]).
  zbool. simpl in *. lia.
Qed.

Lemma month_start_succ mi :
  month_start (mi + 1) =
  month_start mi + (days_before (is_leap (mi / 12)) (mi mod 12 + 1)
                    - days_before (is_leap (mi / 12)) (mi mod 12)).
Proof.
  unfold month_start. pose proof (Z.mod_pos_bound mi 12 eq_refl).
  destruct (decide (mi mod 12 = 11)) as [E|E].
  - assert ((mi + 1) / 12 = mi / 12 + 1 ∧ (mi + 1) mod 12 = 0) as [-> ->] by zdiv.
    rewrite year_start_succ, E. destruct (is_leap (mi / 12)), (is_leap _); simpl; lia.
  - assert ((mi + 1) / 12 = mi / 12 ∧ (mi + 1) mod 12 = mi mod 12 + 1) as [-> ->] by zdiv. lia.
Qed.

Lemma month_length mi : 28 <= month_start (mi + 1) - month_start mi <= 31.
Proof.
  rewrite month_start_succ. pose proof (Z.mod_pos_bound mi 12 eq_refl).
  pose proof (days_before_step (is_leap (mi / 12)) (mi mod 12)). lia.
Qed.

Lemma month_start_mono m1 m2 : m1 <= m2 → month_start m1 + 28 * (m2 - m1) <= month_start m2.
Proof.
  intros H. replace m2 with (m1 + Z.of_nat (Z.to_nat (m2 - m1))) by lia.
  generalize (Z.to_nat (m2 - m1)) as k. clear H. intros k. induction k as [|k IH].
  - replace (m1 + Z.of_nat 0) with m1 by lia. lia.
  - rewrite Nat2Z.inj_succ. replace (m1 + Z.succ (Z.of_nat k)) with (m1 + Z.of_nat k + 1) by lia.
    pose proof (month_length (m1 + Z.of_nat k)). lia.
Qed.

(** The month index of an instant, and its date. *)
Definition month_index (ms : Z) : Z := Year ms * 12 + (Month ms - 1).

Lemma month_index_spec ms :
  month_start (month_index ms) + (Day ms - 1) = day_of ms ∧
  month_start (month_index ms) <= day_of ms < month_start (month_index ms + 1).
Proof.
  unfold month_index, Year, Month, Day. set (n := day_of ms).
  set (y := year_of_day n). pose proof (year_of_day_spec n) as Hy. fold y in Hy.
  rewrite year_start_succ in Hy.
  assert (Hd : 0 <= n - year_start y < days_before (is_leap y) 12)
    by (destruct (is_leap y); simpl; lia).
  destruct (month_of_yday_spec _ _ Hd) as [Hm1 Hm2].
  set (m := month_of_yday (is_leap y) (n - year_start y)) in *.
  rewrite month_start_succ. unfold month_start.
  assert ((y * 12 + (m + 1 - 1)) / 12 = y ∧ (y * 12 + (m + 1 - 1)) mod 12 = m) as [-> ->] by zdiv.
  lia.
Qed.

Lemma month_start_unique mi1 mi2 n :
  month_start mi1 <= n < month_start (mi1 + 1) →
  month_start mi2 <= n < month_start (mi2 + 1) → mi1 = mi2.
Proof.
  intros H1 H2. destruct (Z.lt_trichotomy mi1 mi2) as [Hlt|[?|Hlt]]; [exfalso|done|exfalso].
  - pose proof (month_start_mono (mi1 + 1) mi2). lia.
  - pose proof (month_start_mono (mi2 + 1) mi1). lia.
Qed.

Lemma clock_of_range t : 0 <= clock_of t < DayMs.
Proof. unfold clock_of, DayMs. apply Z.mod_pos_bound. done. Qed.

Lemma day_clock t : day_of t * DayMs + clock_of t = t.
Proof. unfold day_of, clock_of. pose proof (Z.div_mod t DayMs). unfold DayMs in *. lia. Qed.

(** Adding days is adding 24-hour spans (UTC has no other days). *)
Lemma AddDate_days t d : AddDate t 0 0 d = t + d * DayMs.
Proof.
  unfold AddDate, Date.
  replace (12 * (Year t + 0) + (Month t + 0 - 1)) with (month_index t) by (unfold month_index; lia).
  destruct (month_index_spec t) as [H _].
  pose proof (day_clock t). lia.
Qed.

(** Adding months to the first day of a month. *)
Lemma AddDate_months mi k :
  AddDate (month_start mi * DayMs) 0 k 0 = month_start (mi + k) * DayMs.
Proof.
  set (t := month_start mi * DayMs).
  assert (Hd : day_of t = month_start mi) by (unfold day_of, t, DayMs; apply Z.div_mul; lia).
  assert (Hc : clock_of t = 0) by (unfold clock_of, t, DayMs; apply Z.mod_mul; lia).
  destruct (month_index_spec t) as [H1 H2]. rewrite Hd in *.
  assert (month_index t = mi) as Hmi.
  { eapply month_start_unique; [exact H2|]. pose proof (month_length mi). lia. }
  unfold AddDate, Date. rewrite Hc.
  replace (12 * (Year t + 0) + (Month t + k - 1)) with (mi + k)
    by (rewrite <- Hmi; unfold month_index; lia).
  rewrite Hmi in H1. lia.
Qed.

Lemma Date_first y m : Date y m 1 0 = month_start (12 * y + (m - 1)) * DayMs.
Proof. unfold Date. lia. Qed.

(** [time.Date(t.Year(), t.Month(), t.Day(), ...)] truncates to the UTC day. *)
Lemma Date_of_day t : Date (Year t) (Month t) (Day t) 0 = day_of t * DayMs.
Proof.
  unfold Date.
  replace (12 * Year t + (Month t - 1)) with (month_index t) by (unfold month_index; lia).
  destruct (month_index_spec t) as [H _]. lia.
Qed.
