(* ===== verification/Timeframe.v ===== *)
(** * Timeframes and their buckets (internal/timeframe)

    [Frame] lists the names of [Order]; [Normalize] is the only way from a
    string to a [Frame], so a function whose Go version starts with
    [tf = MustNormalize(tf)] takes a [Frame]: the panic of [MustNormalize] is
    [Normalize] returning an error at the caller, never a value.

    [grid f k] is the specification: the start of the [k]-th bucket of
    timeframe [f].  The lemmas show that [FloorStartMS], [NextStartMS],
    [PreviousStartMS] and [EndMS] navigate this grid. *)

From S2P Require Export GoStrings Calendar.

Local Open Scope string_scope.
Local Open Scope Z_scope.

Definition MinuteMS : Z := 60000.
Definition HourMS : Z := 3600000.
Definition DayMS : Z := 86400000.

Inductive Frame : Set :=
| F1m | F5m | F15m | F30m
| F1H | F2H | F4H | F6H | F12H
| F1D | F2D | F3D | F5D
| F1W | F2W | F1M | F3M.

#[export] Instance Frame_eq_dec : EqDecision Frame.
Proof. solve_decision. Defined.

Definition Order : list Frame :=
  [F1m; F5m; F15m; F30m;
   F1H; F2H; F4H; F6H; F12H;
   F1D; F2D; F3D; F5D;
   F1W; F2W; F1M; F3M].

Definition frame_name (f : Frame) : string :=
  match f with
  | F1m => "1m" | F5m => "5m" | F15m => "15m" | F30m => "30m"
  | F1H => "1H" | F2H => "2H" | F4H => "4H" | F6H => "6H" | F12H => "12H"
  | F1D => "1D" | F2D => "2D" | F3D => "3D" | F5D => "5D"
  | F1W => "1W" | F2W => "2W" | F1M => "1M" | F3M => "3M"
  end.

Definition fixedMinuteFrames (f : Frame) : option Z :=
  match f with
  | F1m => Some 1 | F5m => Some 5 | F15m => Some 15 | F30m => Some 30
  | F1H => Some 60 | F2H => Some 120 | F4H => Some 240 | F6H => Some 360 | F12H => Some 720
  | _ => None
  end.

Definition dayFrames (f : Frame) : option Z :=
  match f with F1D => Some 1 | F2D => Some 2 | F3D => Some 3 | F5D => Some 5 | _ => None end.

Definition weekFrames (f : Frame) : option Z :=
  match f with F1W => Some 1 | F2W => Some 2 | _ => None end.

Definition monthFrames (f : Frame) : option Z :=
  match f with F1M => Some 1 | F3M => Some 3 | _ => None end.

(** The position of a timeframe in [Order]. *)
Fixpoint index_in (f : Frame) (l : list Frame) (i : Z) : Z :=
  match l with
  | [] => 0
  | g :: l' => if decide (f = g) then i else index_in f l' (i + 1)
  end.
Definition Index (f : Frame) : Z := index_in f Order 0.

(** Errors of the package: an unknown name, and the [ErrDisabledTimeframe]
    sentinel. *)
Inductive tf_error : Set :=
| UnsupportedTimeframe (tf : string)
| DisabledTimeframe (exchange tf : string).

(** The same as error values. *)
Definition ErrDisabledTimeframe : go_error := Sentinel "disabled timeframe".
Definition tf_go_error (e : tf_error) : go_error :=
  match e with
  | UnsupportedTimeframe _ => Errorf "unsupported timeframe: %s"
  | DisabledTimeframe _ _ => Wrapf "%w: %s %s" ErrDisabledTimeframe
  end.

Definition Normalize (tf : string) : result tf_error Frame :=
  match List.find (fun f => String.eqb (frame_name f) tf) Order with
  | Some f => Ok f
  | None => Err (UnsupportedTimeframe tf)
  end.

(** [ValidateForExchange]: Go returns nil where the model returns the
    normalised timeframe. *)
Definition ValidateForExchange (exchange tf : string) : result tf_error Frame :=
  match Normalize tf with
  | Err e => Err e
  | Ok f => if String.eqb tf "3D" then Err (DisabledTimeframe exchange tf) else Ok f
  end.

Definition is_ok {E A} (r : result E A) : bool := match r with Ok _ => true | Err _ => false end.

Definition SupportedForExchange (exchange : string) : list Frame :=
  List.filter (fun f => is_ok (ValidateForExchange exchange (frame_name f))) Order.

(** [weekdayOffset]: days since Monday. *)
Definition weekdayOffset (dt : Z) : Z :=
  let weekday := Weekday dt in
  if weekday =? 0 then 6 else weekday - 1.

Definition epochMonday : Z := Date 1970 1 5 0.

(** [int64(monday.Sub(epochMonday).Hours() / 24)]: the duration saturates at
    the ends of [time.Duration]; below that it is a whole number of days, on
    which the floating-point division is exact, and at the ends it truncates to
    the same quotient. *)
Definition duration_days (ns : Z) : Z := Z.quot ns (DayMS * 1000000).

Definition FloorStartMS (tsMS : Z) (tf : Frame) : Z :=
  match fixedMinuteFrames tf with
  | Some minutes =>
      let duration := i64 (minutes * MinuteMS) in
      i64 (Z.quot tsMS duration * duration)
  | None =>
      let dt := tsMS in
      match dayFrames tf with
      | Some days =>
          let dayStart := UnixMilli (Date (Year dt) (Month dt) (Day dt) 0) in
          let duration := i64 (days * DayMS) in
          i64 (Z.quot dayStart duration * duration)
      | None =>
          match weekFrames tf with
          | Some weeks =>
              let monday := AddDate (Date (Year dt) (Month dt) (Day dt) 0) 0 0 (- weekdayOffset dt) in
              let baseDays := duration_days (Sub_ns monday epochMonday) in
              let periodDays := i64 (weeks * 7) in
              let bucketDays := i64 (Z.quot baseDays periodDays * periodDays) in
              UnixMilli (AddDate epochMonday 0 0 bucketDays)
          | None =>
              let months := default 1 (monthFrames tf) in
              let monthIndex := i64 (Year dt * 12 + Month dt - 1) in
              let bucketIndex := i64 (Z.quot monthIndex months * months) in
              let year := Z.quot bucketIndex 12 in
              let month := Z.rem bucketIndex 12 + 1 in
              UnixMilli (Date year month 1 0)
          end
      end
  end.

Definition NextStartMS (startMS : Z) (tf : Frame) : Z :=
  match fixedMinuteFrames tf with
  | Some minutes => i64 (startMS + i64 (minutes * MinuteMS))
  | None =>
      let dt := startMS in
      match dayFrames tf with
      | Some days => UnixMilli (AddDate dt 0 0 days)
      | None =>
          match weekFrames tf with
          | Some weeks => UnixMilli (AddDate dt 0 0 (weeks * 7))
          | None => UnixMilli (AddDate dt 0 (default 1 (monthFrames tf)) 0)
          end
      end
  end.

Definition PreviousStartMS (startMS : Z) (tf : Frame) : Z :=
  match fixedMinuteFrames tf with
  | Some minutes => i64 (startMS - i64 (minutes * MinuteMS))
  | None =>
      let dt := startMS in
      match dayFrames tf with
      | Some days => UnixMilli (AddDate dt 0 0 (- days))
      | None =>
          match weekFrames tf with
          | Some weeks => UnixMilli (AddDate dt 0 0 (- (weeks * 7)))
          | None => UnixMilli (AddDate dt 0 (- default 1 (monthFrames tf)) 0)
          end
      end
  end.

Definition EndMS (startMS : Z) (tf : Frame) : Z := i64 (NextStartMS startMS tf - 1).

(** [DurationMS] reads the clock for the frames without a fixed length. *)
Definition DurationMS (now : Z) (tf : Frame) : Z :=
  match fixedMinuteFrames tf with
  | Some minutes => i64 (minutes * MinuteMS)
  | None => let start := FloorStartMS now tf in i64 (NextStartMS start tf - start)
  end.

(** ** The grid *)

(** Instants from 1970 to 2262-04-11, where a [time.Duration] since the epoch
    does not saturate. *)
Definition MaxTS : Z := 9223372036854.

Definition grid (f : Frame) (k : Z) : Z :=
  match fixedMinuteFrames f with
  | Some minutes => k * (minutes * MinuteMS)
  | None =>
      match dayFrames f with
      | Some days => k * (days * DayMS)
      | None =>
          match weekFrames f with
          | Some weeks => 4 * DayMS + k * (weeks * 7 * DayMS)
          | None => month_start (1970 * 12 + k * default 1 (monthFrames f)) * DayMS
          end
      end
  end.

(** The instants on which the bucket arithmetic of [f] is meant to work: from
    the first bucket of the grid on. *)
Definition in_domain (f : Frame) (ts : Z) : Prop := grid f 0 <= ts <= MaxTS.

(** [s] is the start of a bucket of [f]. *)
Definition aligned (f : Frame) (s : Z) : Prop := ∃ k, 0 <= k ∧ s = grid f k.

Lemma epochMonday_eq : epochMonday = 4 * DayMS.
Proof. reflexivity. Qed.

Lemma grid_0 f : grid f 0 = 0 ∨ grid f 0 = 4 * DayMS.
Proof. destruct f; vm_compute; auto. Qed.

Lemma grid_step f k : grid f k + MinuteMS <= grid f (k + 1) <= grid f k + 93 * DayMS.
Proof.
  destruct f; cbn [grid fixedMinuteFrames dayFrames weekFrames monthFrames from_option id];
    unfold MinuteMS, DayMS; try lia.
  - pose proof (month_length (1970 * 12 + k * 1)).
    replace (1970 * 12 + (k + 1) * 1) with (1970 * 12 + k * 1 + 1) by lia. lia.
  - set (m := 1970 * 12 + k * 3).
    replace (1970 * 12 + (k + 1) * 3) with (m + 1 + 1 + 1) by lia.
    pose proof (month_length m). pose proof (month_length (m + 1)).
    pose proof (month_length (m + 1 + 1)). lia.
Qed.

Lemma grid_mono f k1 k2 : k1 <= k2 → grid f k1 + MinuteMS * (k2 - k1) <= grid f k2.
Proof.
  intros H. replace k2 with (k1 + Z.of_nat (Z.to_nat (k2 - k1))) by lia.
  generalize (Z.to_nat (k2 - k1)) as n. clear H. intros n. induction n as [|n IH].
  - replace (k1 + Z.of_nat 0) with k1 by lia. lia.
  - rewrite Nat2Z.inj_succ. replace (k1 + Z.succ (Z.of_nat n)) with (k1 + Z.of_nat n + 1) by lia.
    pose proof (grid_step f (k1 + Z.of_nat n)). unfold MinuteMS in *. lia.
Qed.

Lemma grid_lt f k1 k2 : grid f k1 < grid f k2 ↔ k1 < k2.
Proof.
  split; intros H.
  - destruct (Z.lt_ge_cases k1 k2) as [|Hge]; [done|].
    pose proof (grid_mono f k2 k1 Hge). unfold MinuteMS in *. lia.
  - pose proof (grid_mono f k1 k2). unfold MinuteMS in *. lia.
Qed.

Lemma grid_le f k1 k2 : grid f k1 <= grid f k2 ↔ k1 <= k2.
Proof. pose proof (grid_lt f k2 k1). lia. Qed.

Lemma grid_inj f k1 k2 : grid f k1 = grid f k2 → k1 = k2.
Proof. intros H. pose proof (grid_lt f k1 k2). pose proof (grid_lt f k2 k1). lia. Qed.

Lemma grid_nonneg f k : 0 <= k → 0 <= grid f k.
Proof.
  intros. pose proof (grid_mono f 0 k). destruct (grid_0 f); unfold MinuteMS, DayMS in *; lia.
Qed.

(** A timestamp lies in one bucket only. *)
Lemma bucket_unique f k1 k2 ts :
  grid f k1 <= ts < grid f (k1 + 1) → grid f k2 <= ts < grid f (k2 + 1) → k1 = k2.
Proof.
  intros H1 H2. pose proof (grid_lt f k1 (k2 + 1)). pose proof (grid_lt f k2 (k1 + 1)). lia.
Qed.

(** *** The code walks the grid *)

Ltac tf_cases f :=
  destruct f;
  cbn [grid fixedMinuteFrames dayFrames weekFrames monthFrames from_option id] in *.

Ltac in_range :=
  match goal with
  | |- int64_range _ => unfold int64_range, two63, MinuteMS, DayMS, DayMs, MaxTS in *; lia
  end.

Lemma quot_floor a d : 0 <= a → 0 < d → Z.quot a d * d = a / d * d ∧ a / d * d <= a < a / d * d + d.
Proof. intros. rewrite Z.quot_div_nonneg by lia. zdiv. Qed.

(** The shape of a multiple-of-[d] frame, minutes and days. *)
Lemma floor_multiple a d :
  0 <= a <= MaxTS → 0 < d → i64 (Z.quot a (i64 d) * i64 d) = a / d * d ∨ two63 <= d.
Proof.
  intros Ha Hd. destruct (Z.lt_ge_cases d two63); [left|by right].
  rewrite (i64_id d) by (unfold int64_range, two63 in *; lia).
  destruct (quot_floor a d) as [-> ?]; [lia..|]. apply i64_id.
  assert (0 <= a / d) by (apply Z.div_pos; lia). assert (0 <= a / d * d) by lia. in_range.
Qed.

Lemma floor_minutes f m ts :
  fixedMinuteFrames f = Some m → 0 <= ts <= MaxTS → FloorStartMS ts f = grid f (ts / (m * MinuteMS)).
Proof.
  intros Hm Hts. unfold FloorStartMS, grid. rewrite Hm.
  destruct (floor_multiple ts (m * MinuteMS)) as [->|]; [done| |done|];
    destruct f; simplify_eq/=; unfold MinuteMS, two63 in *; lia.
Qed.

Lemma floor_days f d ts :
  fixedMinuteFrames f = None → dayFrames f = Some d → 0 <= ts <= MaxTS →
  FloorStartMS ts f = grid f (day_of ts / d).
Proof.
  intros Hm Hd Hts. unfold FloorStartMS, grid. rewrite Hm, Hd.
  assert (0 < d ∧ d <= 5) by (destruct f; simplify_eq/=; lia).
  rewrite Date_of_day. unfold UnixMilli. pose proof (day_clock ts). pose proof (clock_of_range ts).
  assert (0 <= day_of ts) by (unfold day_of; apply Z.div_pos; unfold DayMs; lia).
  rewrite (i64_id (day_of ts * DayMs)) by in_range.
  destruct (floor_multiple (day_of ts * DayMs) (d * DayMS)) as [->|]; [| | |].
  - unfold DayMs, DayMS, MaxTS in *. lia.
  - unfold DayMS. lia.
  - change DayMS with DayMs. rewrite Z.div_mul_cancel_r by (unfold DayMs; lia). done.
  - unfold two63, DayMS in *. lia.
Qed.

Lemma weekdayOffset_mod t : weekdayOffset t = (day_of t + 3) mod 7.
Proof.
  unfold weekdayOffset, Weekday. destruct (_ =? 0) eqn:E; zbool; zdiv.
Qed.

Lemma floor_weeks f w ts :
  fixedMinuteFrames f = None → dayFrames f = None → weekFrames f = Some w →
  4 * DayMS <= ts <= MaxTS →
  FloorStartMS ts f = grid f ((day_of ts - 4) / (w * 7)).
Proof.
  intros Hm Hd Hw Hts. unfold FloorStartMS, grid. rewrite Hm, Hd, Hw.
  assert (w = 1 ∨ w = 2) as Hw' by (destruct f; simplify_eq/=; auto).
  rewrite Date_of_day, !AddDate_days, weekdayOffset_mod, epochMonday_eq.
  set (n := day_of ts). pose proof (day_clock ts) as Hdc. pose proof (clock_of_range ts) as Hc.
  fold n in Hdc. set (off := (n + 3) mod 7).
  assert (Hoff : n - 4 - off = 7 * ((n - 4) / 7) ∧ 0 <= off < 7).
  { subst off. replace (n + 3) with (n - 4 + 1 * 7) by lia. rewrite Z.mod_add by lia. zdiv. }
  assert (4 <= n) by (unfold DayMs, DayMS in *; lia).
  assert (0 <= (n - 4) / 7) by (apply Z.div_pos; lia).
  unfold duration_days, Sub_ns, two63.
  rewrite Z.min_r, Z.max_r by (unfold DayMs, DayMS, MaxTS in *; lia).
  replace ((n * DayMs + - off * DayMs - 4 * DayMS) * 1000000)
    with (7 * ((n - 4) / 7) * (DayMS * 1000000)) by (unfold DayMs, DayMS in *; lia).
  rewrite Z.quot_mul by done.
  rewrite !(i64_id (w * 7)) by (unfold int64_range, two63; lia).
  rewrite Z.quot_div_nonneg by lia.
  rewrite (Z.mul_comm w 7), Z.div_mul_cancel_l by lia.
  rewrite <- (Z.div_div (n - 4) 7 w) by lia.
  set (q := (n - 4) / 7) in *.
  assert (0 <= q / w * (7 * w) <= n).
  { pose proof (Z.mul_div_le q w ltac:(lia)). assert (0 <= q / w) by (apply Z.div_pos; lia). lia. }
  rewrite (i64_id (q / w * (7 * w))) by (unfold int64_range, two63, DayMs, MaxTS in *; lia).
  unfold UnixMilli. change DayMS with DayMs. rewrite i64_id by in_range. unfold DayMs. lia.
Qed.

Lemma floor_months f n ts :
  fixedMinuteFrames f = None → dayFrames f = None → weekFrames f = None →
  monthFrames f = Some n → 0 <= ts <= MaxTS →
  FloorStartMS ts f = grid f ((month_index ts - 1970 * 12) / n) ∧ 1970 * 12 <= month_index ts.
Proof.
  intros Hm Hd Hw Hn Hts. unfold FloorStartMS, grid. rewrite Hm, Hd, Hw, Hn. cbn [from_option id].
  assert (n = 1 ∨ n = 3) as Hn' by (destruct f; simplify_eq/=; auto).
  destruct (month_index_spec ts) as [_ Hmi]. pose proof (day_clock ts). pose proof (clock_of_range ts).
  set (mi := month_index ts) in *.
  assert (Hlo : 23640 <= mi).
  { destruct (Z.lt_ge_cases mi 23640); [|done]. exfalso.
    pose proof (month_start_mono (mi + 1) 23640 ltac:(lia)).
    change (month_start 23640) with 0 in *. unfold DayMs in *. lia. }
  assert (Hhi : mi <= 23640 + 3907).
  { pose proof (month_start_mono 23640 mi Hlo). change (month_start 23640) with 0 in *.
    unfold DayMs, MaxTS in *. lia. }
  split; [|lia].
  replace (Year ts * 12 + Month ts - 1) with mi by (unfold mi, month_index; lia).
  rewrite (i64_id mi) by (unfold int64_range, two63; lia).
  rewrite (Z.quot_div_nonneg mi n) by lia.
  assert (Hq : mi / n * n = 1970 * 12 + (mi - 1970 * 12) / n * n).
  { destruct Hn' as [-> | ->]; [rewrite !Z.div_1_r; lia|].
    replace mi with (mi - 1970 * 12 + 7880 * 3) at 1 by lia. rewrite Z.div_add by lia. lia. }
  assert (23640 <= mi / n * n <= mi).
  { pose proof (div_bounds (mi - 1970 * 12) n). destruct Hn' as [-> | ->];
      [rewrite Z.div_1_r in *; lia|]. assert (0 <= (mi - 1970 * 12) / 3) by (apply Z.div_pos; lia).
    lia. }
  rewrite (i64_id (mi / n * n)) by (unfold int64_range, two63; lia).
  rewrite Z.quot_div_nonneg, Z.rem_mod_nonneg by lia.
  rewrite Date_first. unfold UnixMilli.
  assert (12 * (mi / n * n / 12) + ((mi / n * n) mod 12 + 1 - 1) = mi / n * n) as -> by zdiv.
  rewrite <- Hq. apply i64_id.
  pose proof (month_start_mono 23640 (mi / n * n) ltac:(lia)).
  pose proof (month_start_mono (mi / n * n) mi ltac:(lia)).
  change (month_start 23640) with 0 in *. in_range.
Qed.

(** Instants on which stepping to a neighbouring bucket does not wrap. *)
Definition steppable (s : Z) : Prop := - 2 ^ 60 <= s <= 2 ^ 60.

Lemma steppable_dom s : - 100 * DayMS <= s <= MaxTS + 100 * DayMS → steppable s.
Proof. unfold steppable, MaxTS, DayMS. lia. Qed.

Lemma next_grid f k : steppable (grid f k) → NextStartMS (grid f k) f = grid f (k + 1).
Proof.
  intros Hs. pose proof (grid_step f k) as Hstep.
  assert (int64_range (grid f (k + 1))) as Hi
    by (unfold int64_range, two63, steppable, MinuteMS, DayMS in *; lia).
  assert (i64 (grid f (k + 1)) = grid f (k + 1)) as Heq by by apply i64_id.
  rewrite <- Heq. clear Hs Hstep Hi Heq.
  unfold NextStartMS, UnixMilli. destruct f;
    cbn [grid fixedMinuteFrames dayFrames weekFrames monthFrames from_option id];
    rewrite ?AddDate_days;
    try (rewrite (i64_id (_ * MinuteMS)) by (unfold int64_range, two63, MinuteMS; lia));
    try (f_equal; unfold MinuteMS, DayMS, DayMs; lia).
  all: change DayMS with DayMs; rewrite AddDate_months; do 3 f_equal; lia.
Qed.

Lemma prev_grid f k : steppable (grid f k) → PreviousStartMS (grid f k) f = grid f (k - 1).
Proof.
  intros Hs. pose proof (grid_step f (k - 1)) as Hstep. replace (k - 1 + 1) with k in Hstep by lia.
  assert (int64_range (grid f (k - 1))) as Hi
    by (unfold int64_range, two63, steppable, MinuteMS, DayMS in *; lia).
  assert (i64 (grid f (k - 1)) = grid f (k - 1)) as Heq by by apply i64_id.
  rewrite <- Heq. clear Hs Hstep Hi Heq.
  unfold PreviousStartMS, UnixMilli. destruct f;
    cbn [grid fixedMinuteFrames dayFrames weekFrames monthFrames from_option id];
    rewrite ?AddDate_days;
    try (rewrite (i64_id (_ * MinuteMS)) by (unfold int64_range, two63, MinuteMS; lia));
    try (f_equal; unfold MinuteMS, DayMS, DayMs; lia).
  all: change DayMS with DayMs; rewrite AddDate_months; do 3 f_equal; lia.
Qed.

Lemma end_grid f k : steppable (grid f k) → EndMS (grid f k) f = grid f (k + 1) - 1.
Proof.
  intros Hs. unfold EndMS. rewrite next_grid by done. apply i64_id.
  pose proof (grid_step f k). unfold int64_range, two63, steppable, MinuteMS, DayMS in *. lia.
Qed.

(** [FloorStartMS] picks the bucket of the grid that holds the timestamp. *)
Lemma floor_spec f ts :
  in_domain f ts →
  ∃ k, 0 <= k ∧ FloorStartMS ts f = grid f k ∧ grid f k <= ts < grid f (k + 1).
Proof.
  intros [Hlo Hhi]. pose proof (day_clock ts) as Hday. pose proof (clock_of_range ts) as Hclk.
  assert (0 <= ts) by (pose proof (grid_0 f); unfold DayMS in *; lia).
  destruct (fixedMinuteFrames f) as [m|] eqn:Em.
  { exists (ts / (m * MinuteMS)).
    assert (0 < m * MinuteMS) by (destruct f; simplify_eq/=; unfold MinuteMS; lia).
    split_and!; [by apply Z.div_pos|by apply floor_minutes| |]; unfold grid; rewrite Em;
      pose proof (div_bounds ts (m * MinuteMS)); lia. }
  destruct (dayFrames f) as [d|] eqn:Ed.
  { exists (day_of ts / d). assert (0 < d) by (destruct f; simplify_eq/=; lia).
    assert (0 <= day_of ts) by (apply Z.div_pos; unfold DayMs; lia).
    split_and!; [by apply Z.div_pos|by apply floor_days| |]; unfold grid; rewrite Em, Ed;
      pose proof (div_bounds (day_of ts) d); unfold DayMs, DayMS in *; nia. }
  destruct (weekFrames f) as [w|] eqn:Ew.
  { exists ((day_of ts - 4) / (w * 7)). assert (0 < w * 7) by (destruct f; simplify_eq/=; lia).
    assert (4 * DayMS <= ts) by (destruct f; simplify_eq/=; exact Hlo).
    assert (0 <= day_of ts - 4) by (unfold DayMs, DayMS in *; lia).
    split_and!; [by apply Z.div_pos|by apply floor_weeks| |]; unfold grid; rewrite Em, Ed, Ew;
      pose proof (div_bounds (day_of ts - 4) (w * 7)); unfold DayMs, DayMS in *; nia. }
  destruct (monthFrames f) as [n|] eqn:En; [|by destruct f].
  destruct (floor_months f n ts) as [Hf Hmi]; [done..|lia|].
  exists ((month_index ts - 1970 * 12) / n). assert (0 < n) by (clear - En; destruct f; simplify_eq/=; lia).
  rewrite Hf. unfold grid. rewrite Em, Ed, Ew, En. cbn [from_option id].
  destruct (month_index_spec ts) as [_ Hm].
  pose proof (div_bounds (month_index ts - 1970 * 12) n ltac:(done)) as Hd.
  set (q := (month_index ts - 1970 * 12) / n) in *.
  pose proof (month_start_mono (1970 * 12 + q * n) (month_index ts) ltac:(lia)).
  pose proof (month_start_mono (month_index ts + 1) (1970 * 12 + (q + 1) * n) ltac:(lia)).
  split_and!; [apply Z.div_pos; lia|done| |]; unfold DayMs, DayMS in *; lia.
Qed.

(** The bucket of the timestamp, by its index. *)
Lemma floor_grid f k ts :
  0 <= k → grid f k <= ts < grid f (k + 1) → ts <= MaxTS → FloorStartMS ts f = grid f k.
Proof.
  intros Hk Hb Hm. destruct (floor_spec f ts) as (k' & Hk' & -> & Hb').
  - split; [|done]. pose proof (grid_le f 0 k). lia.
  - f_equal. by eapply bucket_unique.
Qed.

Lemma floor_grid_id f k : 0 <= k → grid f k <= MaxTS → FloorStartMS (grid f k) f = grid f k.
Proof. intros. apply floor_grid; [done| |done]. pose proof (grid_lt f k (k + 1)). lia. Qed.

Lemma aligned_floor f s : aligned f s → s <= MaxTS → FloorStartMS s f = s.
Proof. intros (k & Hk & ->). by apply floor_grid_id. Qed.

Lemma floor_aligned f ts : in_domain f ts → aligned f (FloorStartMS ts f).
Proof. intros H. destruct (floor_spec f ts H) as (k & Hk & -> & _). by exists k. Qed.

Lemma floor_le f ts : in_domain f ts → FloorStartMS ts f <= ts.
Proof. intros H. destruct (floor_spec f ts H) as (k & Hk & -> & ?). lia. Qed.

Lemma in_domain_floor f ts : in_domain f ts → in_domain f (FloorStartMS ts f).
Proof.
  intros H. destruct (floor_spec f ts H) as (k & Hk & -> & ?). unfold in_domain in *.
  pose proof (grid_le f 0 k). lia.
Qed.

(** A start is accepted by the code's alignment test exactly when it is a grid
    point. *)
Lemma floor_eq_aligned f s : in_domain f s → FloorStartMS s f = s ↔ aligned f s.
Proof.
  intros H. split; [|intros; apply aligned_floor; [done|unfold in_domain in H; lia]].
  intros E. rewrite <- E. by apply floor_aligned.
Qed.

Lemma aligned_steppable f s : aligned f s → s <= MaxTS → steppable s.
Proof.
  intros (k & Hk & ->) H. apply steppable_dom. pose proof (grid_nonneg f k Hk).
  unfold DayMS. lia.
Qed.

Lemma aligned_next f s : aligned f s → s <= MaxTS → aligned f (NextStartMS s f) ∧ s < NextStartMS s f.
Proof.
  intros Ha H. pose proof (aligned_steppable f s Ha H). destruct Ha as (k & Hk & ->).
  rewrite next_grid by done. split; [exists (k + 1); lia|]. apply grid_lt. lia.
Qed.

Lemma next_step f s :
  aligned f s → s <= MaxTS → s + MinuteMS <= NextStartMS s f <= s + 93 * DayMS.
Proof.
  intros Ha H. pose proof (aligned_steppable f s Ha H). destruct Ha as (k & Hk & ->).
  rewrite next_grid by done. apply grid_step.
Qed.

Lemma prev_next f s : aligned f s → s <= MaxTS → PreviousStartMS (NextStartMS s f) f = s.
Proof.
  intros Ha H. pose proof (aligned_steppable f s Ha H). destruct Ha as (k & Hk & ->).
  rewrite next_grid by done. rewrite prev_grid; [f_equal; lia|].
  pose proof (grid_step f k). pose proof (grid_nonneg f k Hk).
  apply steppable_dom. unfold MaxTS, DayMS, MinuteMS in *. lia.
Qed.

Lemma next_prev f s : aligned f s → s <= MaxTS → NextStartMS (PreviousStartMS s f) f = s.
Proof.
  intros Ha H. pose proof (aligned_steppable f s Ha H). destruct Ha as (k & Hk & ->).
  rewrite prev_grid by done. pose proof (grid_step f (k - 1)) as Hg.
  replace (k - 1 + 1) with k in Hg by lia. rewrite next_grid; [f_equal; lia|].
  pose proof (grid_nonneg f k Hk).
  apply steppable_dom. unfold MaxTS, DayMS, MinuteMS in *. lia.
Qed.

Lemma floor_mono f t1 t2 :
  in_domain f t1 → in_domain f t2 → t1 <= t2 → FloorStartMS t1 f <= FloorStartMS t2 f.
Proof.
  intros H1 H2 Hle. destruct (floor_spec f t1 H1) as (k1 & _ & -> & ?).
  destruct (floor_spec f t2 H2) as (k2 & _ & -> & ?). apply grid_le.
  pose proof (grid_lt f k1 (k2 + 1)). lia.
Qed.

#[export] Hint Resolve floor_aligned in_domain_floor floor_le : go_arith.

(** ** Names *)

Lemma Normalize_name f : Normalize (frame_name f) = Ok f.
Proof. by destruct f. Qed.

#[export] Instance Frame_countable : Countable Frame.
Proof.
  apply (inj_countable frame_name (fun s => match Normalize s with Ok f => Some f | Err _ => None end)).
  intros f. by rewrite Normalize_name.
Defined.

Lemma Normalize_Ok tf f : Normalize tf = Ok f → tf = frame_name f.
Proof.
  unfold Normalize. destruct (List.find _ _) as [g|] eqn:E; [|done]. intros [= ->].
  apply List.find_some in E as [_ E]. by apply String.eqb_eq in E.
Qed.

Lemma frame_name_inj f g : frame_name f = frame_name g → f = g.
Proof. intros H. pose proof (Normalize_name f) as Hf. rewrite H, Normalize_name in Hf. congruence. Qed.

Lemma elem_of_Order f : f ∈ Order.
Proof. destruct f; unfold Order; set_solver. Qed.

(** ** Walks: [for start := first; start <= last; start = NextStartMS(start)] *)

(** The starts from [c] to [last], one bucket after the other. *)
Inductive steps (tf : Frame) (last : Z) : Z → Z → Prop :=
| steps_here c : c <= last → steps tf last c c
| steps_next c x : c <= last → steps tf last (NextStartMS c tf) x → steps tf last c x.

(** A step is at least a minute, which bounds the number of rounds. *)
Definition range_fuel (first last : Z) : nat := Z.to_nat ((last - first) / MinuteMS + 2).

(** The starts such a loop visits; [None] means the fuel ran out. *)
Fixpoint walk (fuel : nat) (tf : Frame) (first last : Z) : option (list Z) :=
  if last <? first then Some []
  else
    match fuel with
    | O => None
    | S fuel' =>
        match walk fuel' tf (NextStartMS first tf) last with
        | Some rest => Some (first :: rest)
        | None => None
        end
    end.
Definition starts_between (tf : Frame) (first last : Z) : option (list Z) :=
  walk (range_fuel first last) tf first last.

Lemma steps_inv tf last c x : steps tf last c x ↔ c <= last ∧ (x = c ∨ steps tf last (NextStartMS c tf) x).
Proof.
  split.
  - intros H. destruct H; auto.
  - intros [Hc [->|H]]; by constructor.
Qed.

Lemma steps_grid f i j x :
  0 <= i → grid f j <= MaxTS → steps f (grid f j) (grid f i) x ↔ ∃ k, i <= k <= j ∧ x = grid f k.
Proof.
  intros Hi Hj. remember (Z.to_nat (j + 1 - i)) as n eqn:Hn. revert i Hi Hn.
  induction n as [|n IH]; intros i Hi Hn; rewrite steps_inv, grid_le.
  - split; [lia|]. intros (k & ? & _). lia.
  - assert (i <= j) as Hij by lia. pose proof (grid_nonneg f i Hi).
    assert (grid f i <= grid f j) by (by apply grid_le).
    rewrite next_grid by (apply steppable_dom; unfold DayMS; lia).
    rewrite IH by lia. split.
    + intros (_ & [->|(k & ? & ->)]); [exists i|exists k]; (split; [lia|done]).
    + intros (k & Hk & ->). split; [done|]. destruct (decide (k = i)) as [->|]; [by left|].
      right. exists k. split; [lia|done].
Qed.

Lemma steps_aligned f first last x :
  aligned f first → aligned f last → last <= MaxTS →
  steps f last first x ↔ aligned f x ∧ first <= x <= last.
Proof.
  intros (i & Hi & ->) (j & Hj & ->) Hm. rewrite steps_grid by done. split.
  - intros (k & Hk & ->). split; [exists k; split; [lia|done]|]. rewrite !grid_le. lia.
  - intros ((k & Hk & ->) & Hx). rewrite !grid_le in Hx. by exists k.
Qed.

Lemma next_step_any c f : steppable c → c + MinuteMS <= NextStartMS c f.
Proof.
  intros Hs. unfold steppable in Hs. unfold NextStartMS, UnixMilli.
  destruct (fixedMinuteFrames f) as [m|] eqn:Em.
  { assert (1 <= m <= 720) by (destruct f; simplify_eq/=; lia).
    rewrite (i64_id (m * MinuteMS)), i64_id; unfold int64_range, two63, MinuteMS; lia. }
  assert (Hmonths : ∀ k, 1 <= k <= 3 → c + MinuteMS <= i64 (AddDate c 0 k 0)).
  { intros k Hk. unfold AddDate, Date. destruct (month_index_spec c) as [H1 _].
    replace (12 * (Year c + 0) + (Month c + k - 1)) with (month_index c + k) by (unfold month_index; lia).
    pose proof (month_start_mono (month_index c) (month_index c + k) ltac:(lia)).
    pose proof (month_length (month_index c)). pose proof (month_length (month_index c + 1)).
    pose proof (month_length (month_index c + 1 + 1)).
    assert (month_start (month_index c + k) <= month_start (month_index c) + 93).
    { destruct (decide (k = 1)) as [->|]; [lia|]. destruct (decide (k = 2)) as [->|];
        [replace (month_index c + 2) with (month_index c + 1 + 1) by lia; lia|].
      replace (month_index c + k) with (month_index c + 1 + 1 + 1) by lia. lia. }
    pose proof (day_clock c). unfold DayMs, MinuteMS in *. rewrite i64_id; [lia|].
    unfold int64_range, two63. lia. }
  destruct (dayFrames f) as [d|] eqn:Ed; [|destruct (weekFrames f) as [w|] eqn:Ew].
  - assert (1 <= d <= 5) by (destruct f; simplify_eq/=; lia).
    rewrite AddDate_days, i64_id; unfold int64_range, two63, MinuteMS, DayMs; lia.
  - assert (1 <= w <= 2) by (destruct f; simplify_eq/=; lia).
    rewrite AddDate_days, i64_id; unfold int64_range, two63, MinuteMS, DayMs; lia.
  - apply Hmonths. destruct f; simplify_eq/=; lia.
Qed.

Lemma range_fuel_enough first last : last - first < MinuteMS * Z.of_nat (range_fuel first last).
Proof. unfold range_fuel, MinuteMS. zdiv. Qed.

Lemma walk_spec fuel tf first last l x :
  walk fuel tf first last = Some l → x ∈ l ↔ steps tf last first x.
Proof.
  revert first l. induction fuel as [|fuel IH]; intros first l H; simpl in H.
  - destruct (last <? first) eqn:E; zbool; simplify_eq. rewrite steps_inv, elem_of_nil. lia.
  - destruct (last <? first) eqn:E; zbool; simplify_eq.
    + rewrite steps_inv, elem_of_nil. lia.
    + destruct (walk fuel _ _ _) as [rest|] eqn:Ew; simplify_eq.
      rewrite elem_of_cons, (IH _ _ Ew), (steps_inv tf last first). naive_solver.
Qed.

(** The loops of the code end, whatever start of the last 36 million years they
    are given, when they go no further than 2262. *)
Lemma starts_between_total tf first last :
  - 2 ^ 60 <= first → last <= MaxTS → is_Some (starts_between tf first last).
Proof.
  intros Hf Hl. unfold starts_between. pose proof (range_fuel_enough first last) as Hn. revert Hn.
  generalize (range_fuel first last) as fuel. intros fuel. revert first Hf.
  induction fuel as [|fuel IH]; intros first Hf Hn; simpl.
  - destruct (last <? first) eqn:E; zbool; [by eexists|lia].
  - destruct (last <? first) eqn:E; zbool; [by eexists|].
    pose proof (next_step_any first tf ltac:(unfold steppable, MaxTS in *; lia)). unfold MinuteMS in *.
    destruct (IH (NextStartMS first tf)) as [l ->]; [lia..|by eexists].
Qed.

(** ** Properties *)

(** [FloorStartMS] partitions time into buckets.  A timestamp lies between
    its bucket's start and [EndMS]; the start is a fixed point; the next start
    is one past the end and is itself a bucket start; and another timestamp has
    the same start exactly when it lies between them. *)
Theorem timeframe_buckets f ts :
  in_domain f ts →
  let s := FloorStartMS ts f in
  s <= ts <= EndMS s f ∧
  FloorStartMS s f = s ∧
  NextStartMS s f = EndMS s f + 1 ∧
  (NextStartMS s f <= MaxTS → FloorStartMS (NextStartMS s f) f = NextStartMS s f) ∧
  (∀ ts', in_domain f ts' → FloorStartMS ts' f = s ↔ s <= ts' <= EndMS s f).
Proof.
  intros H s. subst s. pose proof (aligned_steppable f _ (floor_aligned f ts H)) as Hst.
  destruct (floor_spec f ts H) as (k & Hk & E & Hb). rewrite E in *.
  assert (Hhi : grid f k <= MaxTS) by (unfold in_domain in H; lia). specialize (Hst Hhi).
  rewrite next_grid, end_grid by done. split_and!; try lia.
  - by apply floor_grid_id.
  - intros. apply floor_grid_id; lia.
  - intros ts' H'. destruct (floor_spec f ts' H') as (k' & Hk' & E' & Hb'). rewrite E'. split.
    + intros Heq%grid_inj. subst k'. lia.
    + intros Hin. f_equal. apply (bucket_unique f k' k ts'); lia.
Qed.

Example timeframe_buckets_witness :
  in_domain F2W 1779262261234 ∧ FloorStartMS 1779262261234 F2W = 1778457600000 ∧
  1779262261234 <= EndMS (FloorStartMS 1779262261234 F2W) F2W.
Proof.
  assert (in_domain F2W 1779262261234) as H by (unfold in_domain; vm_compute; done).
  split; [done|]. split; [reflexivity|].
  destruct (timeframe_buckets F2W 1779262261234 H) as [[_ He] _]. exact He.
Defined.

(** C36: from an aligned start [NextStartMS] and [PreviousStartMS] undo each
    other, and no aligned start lies strictly between an aligned start and
    [NextStartMS] of it: the code that walks a series bucket by bucket visits
    every bucket once. *)
Theorem timeframe_navigation f s :
  in_domain f s → FloorStartMS s f = s →
  PreviousStartMS (NextStartMS s f) f = s ∧
  NextStartMS (PreviousStartMS s f) f = s ∧
  s < NextStartMS s f ∧
  (∀ s', in_domain f s' → FloorStartMS s' f = s' → s < s' → NextStartMS s f <= s').
Proof.
  intros H E. assert (Hm : s <= MaxTS) by apply H.
  apply floor_eq_aligned in E as Ha; [|done].
  split_and!; [by apply prev_next|by apply next_prev|by apply aligned_next|].
  intros s' H' E' Hlt. apply floor_eq_aligned in E' as (k' & Hk' & ->); [|done].
  pose proof (aligned_steppable f s Ha Hm) as Hst. destruct Ha as (k & Hk & ->).
  rewrite next_grid by done. apply grid_le. apply grid_lt in Hlt. lia.
Qed.

Example timeframe_navigation_witness :
  FloorStartMS 1777593600000 F1M = 1777593600000 ∧
  PreviousStartMS (NextStartMS 1777593600000 F1M) F1M = 1777593600000.
Proof.
  split; [reflexivity|].
  apply (timeframe_navigation F1M 1777593600000); [unfold in_domain; vm_compute; done|].
  reflexivity.
Defined.
