(* ===== verification/Settings.v ===== *)
(** * The configuration (internal/config/config.go)

    [Load] as a function of the environment.  A timeframe that is not one of the
    known names makes it panic ([None]); the disabled one is left out.  The
    timeframes that remain are normalised names, so they are [Frame]s. *)

From Stdlib Require Import Ascii.
From S2P Require Export GoNumbers Timeframe.

Local Open Scope string_scope.
Local Open Scope Z_scope.
Local Open Scope list_scope.

Module ExchangeConfig.
Record ExchangeConfig : Type := mk {
  Name : string; MarketType : string; RestURL : string; WSURL : string; Enabled : bool; SubscriptionChunkSize : Z }.
End ExchangeConfig.
Notation ExchangeConfig := ExchangeConfig.ExchangeConfig.

Module Config.
Record Config : Type := mk {
  HTTPAddr : string; RedisURL : string; MySQLDSN : string; UseMemory : bool; RecentCacheLimit : Z;
  Timeframes : list Frame; DashboardDir : string; EnableMockSymbols : bool; EnableCollector : bool;
  EnableKlineGuardian : bool; KlineGuardianObserveFinalBars : bool; KlineGuardianAuditIntervalSeconds :
  Z; KlineGuardianWindowMinutes : Z; KlineGuardianDelaySeconds : Z; KlineGuardianSymbolsPerRun : Z;
  KlineGuardianMaxInflightPerExchange : Z; KlineGuardianRequestDelayMS : Z; KlineGuardianBinanceRPS : Z;
  KlineGuardianOKXRPS : Z; KlineGuardianSymbolMaxAgeSeconds : Z; KlineGuardianDailyAuditEnabled : bool;
  KlineGuardianDailyAuditSeconds : Z; KlineGuardianDailyAuditDays : Z; KlineGuardianDailyLookbackDays :
  Z; KlineGuardianMinuteDayAuditEnabled : bool; KlineGuardianMinuteDayOffsetMinutes : Z;
  KlineGuardianMinuteDayRequestRPS : Z; KlineGuardianMinuteRetrySeconds : Z; EnableCorporateAction :
  bool; CorporateActionPollSeconds : Z; CorporateActionMaxAttempts : Z; CorporateActionRetryBaseSeconds
  : Z; CorporateActionJobsPerRun : Z; CorporateActionRequestDelayMS : Z; CorporateActionAnchorSeconds :
  Z; CorporateActionAnchorSymbolsPerRun : Z; FeishuWebhookURL : string; EnableHealthMonitor : bool;
  MonitorP1AlertsEnabled : bool; MonitorEvaluationSeconds : Z; MonitorDailyReportHour : Z;
  MonitorMarketReportIntervalMinutes : Z; MonitorRedisEnabled : bool; MonitorIntegrityIntervalSeconds :
  Z; MonitorIntegritySymbolsPerRun : Z; MonitorIntegrityTimeframes : list Frame; MonitorDiskPath :
  string; SymbolRefreshIntervalSeconds : Z; EnableSymbolSnapshots : bool; SymbolSnapshotIntervalSeconds
  : Z; ReconnectBaseDelaySeconds : Z; ReconnectMaxDelaySeconds : Z; CollectorWSPingIntervalSeconds : Z;
  CollectorWSPongWaitSeconds : Z; Exchanges : list ExchangeConfig }.
End Config.
Notation Config := Config.Config.

(** [strconv.Atoi]. *)
Definition Atoi (s : string) : option Z :=
  let '(n, ok) := ParseInt s in if ok then Some n else None.

(** [errors.Is(err, ErrDisabledTimeframe)]. *)
Definition disabled (frame : string) : bool :=
  match ValidateForExchange "" frame with Err (DisabledTimeframe _ _) => true | _ => false end.

(** [MustNormalize]; [None] is its panic. *)
Definition must_normalize (frame : string) : option Frame :=
  match Normalize frame with Ok f => Some f | Err _ => None end.

(** The frames of a list that [Load] keeps: no blank, no disabled one. *)
Definition kept_frames (raw : string) : list string :=
  List.filter (fun frame => negb (bool_decide (frame = "")) && negb (disabled frame))
    (TrimSpace <$> split_on ","%char raw).

Definition add_once (out : list Frame) (f : Frame) : list Frame := if bool_decide (f ∈ out) then out else out ++ [f].

Definition normalizedTimeframes (raw : string) : option (list Frame) :=
  frames ← mapM must_normalize (kept_frames raw); Some (foldl add_once [] frames).

Section environment.
(** [os.Getenv]: the empty string when a variable is not set. *)
Context (Getenv : string → string).

Definition env (name fallback : string) : string :=
  let value := Getenv name in if bool_decide (TrimSpace value = "") then fallback else value.

Definition envInt (name : string) (fallback : Z) : Z :=
  let value := TrimSpace (Getenv name) in
  if bool_decide (value = "") then fallback else default fallback (Atoi value).

Definition envBool (name : string) (fallback : bool) : bool :=
  let value := TrimSpace (ToLower (Getenv name)) in
  if bool_decide (value = "") then fallback else bool_decide (value ∈ ["1"; "true"; "yes"; "on"]).

Definition mysqlDSNFromEnv : string :=
  let user := env "MYSQL_USER" "root" in
  let password := Getenv "MYSQL_PASSWORD" in
  let host := env "MYSQL_HOST" "127.0.0.1" in
  let port := env "MYSQL_PORT" "3306" in
  let database := env "MYSQL_DATABASE" "crypto_ticket" in
  (user ++ ":" ++ password ++ "@tcp(" ++ host ++ ":" ++ port ++ ")/" ++ database ++ "?parseTime=true")%string.

Definition enabledExchangeSet : gset string :=
  list_to_set (List.filter (fun name => negb (bool_decide (name = "")))
    ((fun item => ToLower (TrimSpace item)) <$> split_on ","%char (env "ENABLED_EXCHANGES" "binance,okx"))).

Definition loadExchangeConfigs : list ExchangeConfig :=
  let enabled name := bool_decide (name ∈ enabledExchangeSet) in
  [ {| ExchangeConfig.Name := "binance";
       ExchangeConfig.MarketType := env "BINANCE_KIND" "um_futures";
       ExchangeConfig.RestURL := env "BINANCE_REST_URL" "https://fapi.binance.com";
       ExchangeConfig.WSURL := env "BINANCE_WS_URL" "wss://fstream.binance.com/market";
       ExchangeConfig.Enabled := enabled "binance" && envBool "BINANCE_ENABLED" true && envBool "BINANCE_UM_ENABLED" true;
       ExchangeConfig.SubscriptionChunkSize := envInt "BINANCE_SUBSCRIPTION_CHUNK_SIZE" 50 |};
    {| ExchangeConfig.Name := "binance";
       ExchangeConfig.MarketType := env "BINANCE_COIN_KIND" "coin_futures";
       ExchangeConfig.RestURL := env "BINANCE_COIN_REST_URL" "https://dapi.binance.com";
       ExchangeConfig.WSURL := env "BINANCE_COIN_WS_URL" "wss://dstream.binance.com/ws";
       ExchangeConfig.Enabled := enabled "binance" && envBool "BINANCE_ENABLED" true && envBool "BINANCE_COIN_ENABLED" false;
       ExchangeConfig.SubscriptionChunkSize := envInt "BINANCE_COIN_SUBSCRIPTION_CHUNK_SIZE" 50 |};
    {| ExchangeConfig.Name := "okx";
       ExchangeConfig.MarketType := ToUpper (env "OKX_KIND" "swap");
       ExchangeConfig.RestURL := env "OKX_REST_URL" "https://www.okx.com";
       ExchangeConfig.WSURL := env "OKX_WS_URL" "wss://ws.okx.com:8443/ws/v5/public";
       ExchangeConfig.Enabled := enabled "okx" && envBool "OKX_ENABLED" true;
       ExchangeConfig.SubscriptionChunkSize := envInt "OKX_SUBSCRIPTION_CHUNK_SIZE" 120 |} ].

Definition Load : option Config :=
  outFrames ← mapM must_normalize (kept_frames (env "MARKET_TIMEFRAMES" (String.concat "," (frame_name <$> Order))));
  integrityFrames ← normalizedTimeframes (env "MONITOR_INTEGRITY_TIMEFRAMES" "15m,30m,1H,4H,1D,2D,1W");
  let enableCollector := envBool "ENABLE_COLLECTOR" false in
  Some
    {|Config.HTTPAddr := env "HTTP_ADDR" "127.0.0.1:8088";
         Config.RedisURL := env "REDIS_URL" "redis://127.0.0.1:6379/0";
         Config.MySQLDSN := env "MYSQL_DSN" mysqlDSNFromEnv;
         Config.UseMemory := envBool "USE_MEMORY_STORE" true;
         Config.RecentCacheLimit := envInt "RECENT_CACHE_LIMIT" 300;
         Config.Timeframes := outFrames;
         Config.DashboardDir := env "DASHBOARD_DIR" "./web/dist";
         Config.EnableMockSymbols := envBool "ENABLE_MOCK_SYMBOLS" (negb enableCollector);
         Config.EnableCollector := enableCollector;
         Config.EnableKlineGuardian := envBool "ENABLE_KLINE_GUARDIAN" false;
         Config.KlineGuardianObserveFinalBars := envBool "KLINE_GUARDIAN_OBSERVE_FINAL_BARS" false;
         Config.KlineGuardianAuditIntervalSeconds := envInt "KLINE_GUARDIAN_AUDIT_INTERVAL_SECONDS" 120;
         Config.KlineGuardianWindowMinutes := envInt "KLINE_GUARDIAN_WINDOW_MINUTES" 30;
         Config.KlineGuardianDelaySeconds := envInt "KLINE_GUARDIAN_DELAY_SECONDS" 120;
         Config.KlineGuardianSymbolsPerRun := envInt "KLINE_GUARDIAN_SYMBOLS_PER_RUN" 0;
         Config.KlineGuardianMaxInflightPerExchange := envInt "KLINE_GUARDIAN_MAX_INFLIGHT_PER_EXCHANGE" 8;
         Config.KlineGuardianRequestDelayMS := envInt "KLINE_GUARDIAN_REQUEST_DELAY_MS" 100;
         Config.KlineGuardianBinanceRPS := envInt "KLINE_GUARDIAN_BINANCE_RPS" 8;
         Config.KlineGuardianOKXRPS := envInt "KLINE_GUARDIAN_OKX_RPS" 5;
         Config.KlineGuardianSymbolMaxAgeSeconds := envInt "KLINE_GUARDIAN_SYMBOL_MAX_AGE_SECONDS" 600;
         Config.KlineGuardianDailyAuditEnabled := envBool "KLINE_GUARDIAN_DAILY_AUDIT_ENABLED" true;
         Config.KlineGuardianDailyAuditSeconds := envInt "KLINE_GUARDIAN_DAILY_AUDIT_SECONDS" 3600;
         Config.KlineGuardianDailyAuditDays := envInt "KLINE_GUARDIAN_DAILY_AUDIT_DAYS" 7;
         Config.KlineGuardianDailyLookbackDays := envInt "KLINE_GUARDIAN_DAILY_LOOKBACK_DAYS" 300;
         Config.KlineGuardianMinuteDayAuditEnabled := envBool "KLINE_GUARDIAN_MINUTE_DAY_AUDIT_ENABLED" true;
         Config.KlineGuardianMinuteDayOffsetMinutes := envInt "KLINE_GUARDIAN_MINUTE_DAY_OFFSET_MINUTES" 30;
         Config.KlineGuardianMinuteDayRequestRPS := envInt "KLINE_GUARDIAN_MINUTE_DAY_RPS" 1;
         Config.KlineGuardianMinuteRetrySeconds := envInt "KLINE_GUARDIAN_MINUTE_RETRY_SECONDS" 15;
         Config.EnableCorporateAction := envBool "ENABLE_CORPORATE_ACTION" false;
         Config.CorporateActionPollSeconds := envInt "CORPORATE_ACTION_POLL_SECONDS" 15;
         Config.CorporateActionMaxAttempts := envInt "CORPORATE_ACTION_MAX_ATTEMPTS" 5;
         Config.CorporateActionRetryBaseSeconds := envInt "CORPORATE_ACTION_RETRY_BASE_SECONDS" 60;
         Config.CorporateActionJobsPerRun := envInt "CORPORATE_ACTION_JOBS_PER_RUN" 1;
         Config.CorporateActionRequestDelayMS := envInt "CORPORATE_ACTION_REQUEST_DELAY_MS" 100;
         Config.CorporateActionAnchorSeconds := envInt "CORPORATE_ACTION_ANCHOR_SECONDS" 60;
         Config.CorporateActionAnchorSymbolsPerRun := envInt "CORPORATE_ACTION_ANCHOR_SYMBOLS_PER_RUN" 1;
         Config.FeishuWebhookURL := env "FEISHU_WEBHOOK_URL" "";
         Config.EnableHealthMonitor := envBool "ENABLE_HEALTH_MONITOR" enableCollector;
         Config.MonitorP1AlertsEnabled := envBool "MONITOR_P1_ALERTS_ENABLED" false;
         Config.MonitorEvaluationSeconds := envInt "MONITOR_EVALUATION_SECONDS" 15;
         Config.MonitorDailyReportHour := envInt "MONITOR_DAILY_REPORT_HOUR" 9;
         Config.MonitorMarketReportIntervalMinutes := envInt "MONITOR_MARKET_REPORT_INTERVAL_MINUTES" 30;
         Config.MonitorRedisEnabled := envBool "MONITOR_REDIS_ENABLED" true;
         Config.MonitorIntegrityIntervalSeconds := envInt "MONITOR_INTEGRITY_INTERVAL_SECONDS" 600;
         Config.MonitorIntegritySymbolsPerRun := envInt "MONITOR_INTEGRITY_SYMBOLS_PER_RUN" 50;
         Config.MonitorIntegrityTimeframes := integrityFrames;
         Config.MonitorDiskPath := env "WATCHDOG_DISK_PATH" ".";
         Config.SymbolRefreshIntervalSeconds := envInt "SYMBOL_REFRESH_INTERVAL_SECONDS" 120;
         Config.EnableSymbolSnapshots := envBool "ENABLE_SYMBOL_SNAPSHOTS" enableCollector;
         Config.SymbolSnapshotIntervalSeconds := envInt "SYMBOL_SNAPSHOT_INTERVAL_SECONDS" 120;
         Config.ReconnectBaseDelaySeconds := envInt "RECONNECT_BASE_DELAY_SECONDS" 1;
         Config.ReconnectMaxDelaySeconds := envInt "RECONNECT_MAX_DELAY_SECONDS" 60;
         Config.CollectorWSPingIntervalSeconds := envInt "COLLECTOR_WS_PING_INTERVAL_SECONDS" 20;
         Config.CollectorWSPongWaitSeconds := envInt "COLLECTOR_WS_PONG_WAIT_SECONDS" 60;
         Config.Exchanges := loadExchangeConfigs |}.
End environment.

(** ** What is loaded *)

(** A variable is read the same whatever blanks surround it, and one that does not
    parse counts as not set. *)
Lemma envInt_invalid Getenv name fallback : Atoi (TrimSpace (Getenv name)) = None → envInt Getenv name fallback = fallback.
Proof. intros H. unfold envInt. cbv zeta. rewrite H. by case_bool_decide. Qed.

Lemma kept_enabled raw frame : frame ∈ kept_frames raw → disabled frame = false.
Proof.
  intros H. apply list_elem_of_In, List.filter_In in H as [_ H]. zbool. done.
Qed.

Lemma normalized_enabled frame f : disabled frame = false → must_normalize frame = Some f → f ≠ F3D.
Proof.
  unfold disabled, must_normalize, ValidateForExchange. destruct (Normalize frame) as [g|] eqn:E; [|done].
  intros H [= ->] ->. unfold Normalize in E. destruct (List.find _ _) as [g|] eqn:Ef; [|done].
  injection E as ->. apply List.find_some in Ef as [_ Ef]. apply String.eqb_eq in Ef. subst frame. done.
Qed.

Lemma mapM_enabled raw out : mapM must_normalize (kept_frames raw) = Some out → F3D ∉ out.
Proof.
  intros H Hin. apply mapM_Some in H. apply list_elem_of_lookup in Hin as [i Hi].
  destruct (Forall2_lookup_r _ _ _ _ _ H Hi) as (frame & Hf & Hn).
  apply list_elem_of_lookup_2 in Hf. eapply normalized_enabled; [by eapply kept_enabled|done|done].
Qed.

Lemma elem_of_add_once f frames out : f ∈ foldl add_once out frames ↔ f ∈ out ∨ f ∈ frames.
Proof.
  revert out. induction frames as [|g frames IH]; intros out; simpl; [set_solver|]. rewrite IH. unfold add_once.
  case_bool_decide; set_solver.
Qed.

Lemma add_once_NoDup frames out : NoDup out → NoDup (foldl add_once out frames).
Proof.
  revert out. induction frames as [|g frames IH]; intros out H; simpl; [done|]. apply IH. unfold add_once.
  case_bool_decide; [done|]. apply NoDup_app. split; [done|]. split; [set_solver|]. apply NoDup_singleton.
Qed.

(** No configuration holds the disabled timeframe, the integrity timeframes are
    distinct, and an exchange is enabled only if it is listed. *)
Lemma load_enabled Getenv cfg :
  Load Getenv = Some cfg →
  F3D ∉ cfg.(Config.Timeframes) ∧ F3D ∉ cfg.(Config.MonitorIntegrityTimeframes) ∧
  NoDup cfg.(Config.MonitorIntegrityTimeframes) ∧
  (∀ e, e ∈ cfg.(Config.Exchanges) → e.(ExchangeConfig.Enabled) = true → e.(ExchangeConfig.Name) ∈ enabledExchangeSet Getenv).
Proof.
  unfold Load, normalizedTimeframes. intros H.
  destruct (mapM _ (kept_frames (env Getenv "MARKET_TIMEFRAMES" _))) as [frames|] eqn:E1; [|done]. simpl in H.
  destruct (mapM _ (kept_frames (env Getenv "MONITOR_INTEGRITY_TIMEFRAMES" _))) as [checked|] eqn:E2; [|done]. simpl in H.
  injection H as <-. cbn [Config.Timeframes Config.MonitorIntegrityTimeframes Config.Exchanges].
  apply mapM_enabled in E1, E2. split_and!; [done| |by apply add_once_NoDup, NoDup_nil_2|].
  - rewrite elem_of_add_once. set_solver.
  - intros e He Hen. unfold loadExchangeConfigs in He. apply list_elem_of_In in He as [<-|[<-|[<-|[]]]];
      cbn [ExchangeConfig.Enabled ExchangeConfig.Name] in *; zbool; by bprop.
Qed.

(** Nothing set: the collector is off, the mock symbols on, every enabled timeframe
    is served. *)
Example load_defaults :
  option_map (fun cfg => (cfg.(Config.Timeframes), cfg.(Config.EnableMockSymbols), cfg.(Config.RecentCacheLimit),
                          ExchangeConfig.Enabled <$> cfg.(Config.Exchanges))) (Load (fun _ => ""))
  = Some (SupportedForExchange "", true, 300, [true; false; true]).
Proof. vm_compute. reflexivity. Qed.
