(* ===== verification/Market.v ===== *)
(** * The market data model (internal/market)

    One record per Go struct, each in a module of its own so that a projection
    reads like the field selection ([b.(Bar.StartMS)] for [b.StartMS]).  [zero]
    is the Go zero value; [set_X v b] is the assignment [b.X = v] on the copy
    the code holds.  [json.RawMessage] is kept as the byte string it is. *)

From S2P Require Export Float64 Timeframe.

Local Open Scope string_scope.
Local Open Scope Z_scope.

Module Tick.
Record Tick : Set := mk {
  Exchange : string; Symbol : string;
  TsMS : Z;
  Price : float64; Size : float64;
  Side : string; TradeID : string; EventType : string; Source : string;
  RecvMS : Z;
  Raw : string;
}.
Definition zero : Tick := mk "" "" 0 f64_zero f64_zero "" "" "" "" 0 "".
End Tick.
Notation Tick := Tick.Tick.
#[export] Instance Tick_eq_dec : EqDecision Tick.
Proof. solve_decision. Defined.

Module Bar.
Record Bar : Set := mk {
  Exchange : string; Symbol : string; MarginType : string; Timeframe : string;
  StartMS : Z; EndMS : Z; StartTS : Z; EndTS : Z;
  OpenPrice : float64; HighPrice : float64; LowPrice : float64; ClosePrice : float64;
  Open : float64; High : float64; Low : float64; Close : float64;
  PrevClose : float64; Chg : float64; Amp : float64;
  Volume : float64;
  VolumeUnit : string;
  QuoteVolume : float64; Quote : float64;
  QuoteUnit : string;
  ContractVolume : float64;
  TradeCount : Z; LastTickMS : Z;
  IsFinal : bool;
  Source : string; Reason : string;
  UpdatedAtMS : Z;
}.
Definition set_Exchange (v : string) (b : Bar) : Bar := let 'mk _ xSymbol xMarginType xTimeframe
  xStartMS xEndMS xStartTS xEndTS xOpenPrice xHighPrice xLowPrice xClosePrice xOpen xHigh xLow
  xClose xPrevClose xChg xAmp xVolume xVolumeUnit xQuoteVolume xQuote xQuoteUnit xContractVolume
  xTradeCount xLastTickMS xIsFinal xSource xReason xUpdatedAtMS := b in mk v xSymbol xMarginType
  xTimeframe xStartMS xEndMS xStartTS xEndTS xOpenPrice xHighPrice xLowPrice xClosePrice xOpen
  xHigh xLow xClose xPrevClose xChg xAmp xVolume xVolumeUnit xQuoteVolume xQuote xQuoteUnit
  xContractVolume xTradeCount xLastTickMS xIsFinal xSource xReason xUpdatedAtMS.
Definition set_Symbol (v : string) (b : Bar) : Bar := let 'mk xExchange _ xMarginType xTimeframe
  xStartMS xEndMS xStartTS xEndTS xOpenPrice xHighPrice xLowPrice xClosePrice xOpen xHigh xLow
  xClose xPrevClose xChg xAmp xVolume xVolumeUnit xQuoteVolume xQuote xQuoteUnit xContractVolume
  xTradeCount xLastTickMS xIsFinal xSource xReason xUpdatedAtMS := b in mk xExchange v
  xMarginType xTimeframe xStartMS xEndMS xStartTS xEndTS xOpenPrice xHighPrice xLowPrice
  xClosePrice xOpen xHigh xLow xClose xPrevClose xChg xAmp xVolume xVolumeUnit xQuoteVolume
  xQuote xQuoteUnit xContractVolume xTradeCount xLastTickMS xIsFinal xSource xReason
  xUpdatedAtMS.
Definition set_MarginType (v : string) (b : Bar) : Bar := let 'mk xExchange xSymbol _ xTimeframe
  xStartMS xEndMS xStartTS xEndTS xOpenPrice xHighPrice xLowPrice xClosePrice xOpen xHigh xLow
  xClose xPrevClose xChg xAmp xVolume xVolumeUnit xQuoteVolume xQuote xQuoteUnit xContractVolume
  xTradeCount xLastTickMS xIsFinal xSource xReason xUpdatedAtMS := b in mk xExchange xSymbol v
  xTimeframe xStartMS xEndMS xStartTS xEndTS xOpenPrice xHighPrice xLowPrice xClosePrice xOpen
  xHigh xLow xClose xPrevClose xChg xAmp xVolume xVolumeUnit xQuoteVolume xQuote xQuoteUnit
  xContractVolume xTradeCount xLastTickMS xIsFinal xSource xReason xUpdatedAtMS.
Definition set_Timeframe (v : string) (b : Bar) : Bar := let 'mk xExchange xSymbol xMarginType _
  xStartMS xEndMS xStartTS xEndTS xOpenPrice xHighPrice xLowPrice xClosePrice xOpen xHigh xLow
  xClose xPrevClose xChg xAmp xVolume xVolumeUnit xQuoteVolume xQuote xQuoteUnit xContractVolume
  xTradeCount xLastTickMS xIsFinal xSource xReason xUpdatedAtMS := b in mk xExchange xSymbol
  xMarginType v xStartMS xEndMS xStartTS xEndTS xOpenPrice xHighPrice xLowPrice xClosePrice
  xOpen xHigh xLow xClose xPrevClose xChg xAmp xVolume xVolumeUnit xQuoteVolume xQuote
  xQuoteUnit xContractVolume xTradeCount xLastTickMS xIsFinal xSource xReason xUpdatedAtMS.
Definition set_EndMS (v : Z) (b : Bar) : Bar := let 'mk xExchange xSymbol xMarginType xTimeframe
  xStartMS _ xStartTS xEndTS xOpenPrice xHighPrice xLowPrice xClosePrice xOpen xHigh xLow xClose
  xPrevClose xChg xAmp xVolume xVolumeUnit xQuoteVolume xQuote xQuoteUnit xContractVolume
  xTradeCount xLastTickMS xIsFinal xSource xReason xUpdatedAtMS := b in mk xExchange xSymbol
  xMarginType xTimeframe xStartMS v xStartTS xEndTS xOpenPrice xHighPrice xLowPrice xClosePrice
  xOpen xHigh xLow xClose xPrevClose xChg xAmp xVolume xVolumeUnit xQuoteVolume xQuote
  xQuoteUnit xContractVolume xTradeCount xLastTickMS xIsFinal xSource xReason xUpdatedAtMS.
Definition set_StartTS (v : Z) (b : Bar) : Bar := let 'mk xExchange xSymbol xMarginType
  xTimeframe xStartMS xEndMS _ xEndTS xOpenPrice xHighPrice xLowPrice xClosePrice xOpen xHigh
  xLow xClose xPrevClose xChg xAmp xVolume xVolumeUnit xQuoteVolume xQuote xQuoteUnit
  xContractVolume xTradeCount xLastTickMS xIsFinal xSource xReason xUpdatedAtMS := b in mk
  xExchange xSymbol xMarginType xTimeframe xStartMS xEndMS v xEndTS xOpenPrice xHighPrice
  xLowPrice xClosePrice xOpen xHigh xLow xClose xPrevClose xChg xAmp xVolume xVolumeUnit
  xQuoteVolume xQuote xQuoteUnit xContractVolume xTradeCount xLastTickMS xIsFinal xSource
  xReason xUpdatedAtMS.
Definition set_EndTS (v : Z) (b : Bar) : Bar := let 'mk xExchange xSymbol xMarginType xTimeframe
  xStartMS xEndMS xStartTS _ xOpenPrice xHighPrice xLowPrice xClosePrice xOpen xHigh xLow xClose
  xPrevClose xChg xAmp xVolume xVolumeUnit xQuoteVolume xQuote xQuoteUnit xContractVolume
  xTradeCount xLastTickMS xIsFinal xSource xReason xUpdatedAtMS := b in mk xExchange xSymbol
  xMarginType xTimeframe xStartMS xEndMS xStartTS v xOpenPrice xHighPrice xLowPrice xClosePrice
  xOpen xHigh xLow xClose xPrevClose xChg xAmp xVolume xVolumeUnit xQuoteVolume xQuote
  xQuoteUnit xContractVolume xTradeCount xLastTickMS xIsFinal xSource xReason xUpdatedAtMS.
Definition set_HighPrice (v : float64) (b : Bar) : Bar := let 'mk xExchange xSymbol xMarginType
  xTimeframe xStartMS xEndMS xStartTS xEndTS xOpenPrice _ xLowPrice xClosePrice xOpen xHigh xLow
  xClose xPrevClose xChg xAmp xVolume xVolumeUnit xQuoteVolume xQuote xQuoteUnit xContractVolume
  xTradeCount xLastTickMS xIsFinal xSource xReason xUpdatedAtMS := b in mk xExchange xSymbol
  xMarginType xTimeframe xStartMS xEndMS xStartTS xEndTS xOpenPrice v xLowPrice xClosePrice
  xOpen xHigh xLow xClose xPrevClose xChg xAmp xVolume xVolumeUnit xQuoteVolume xQuote
  xQuoteUnit xContractVolume xTradeCount xLastTickMS xIsFinal xSource xReason xUpdatedAtMS.
Definition set_LowPrice (v : float64) (b : Bar) : Bar := let 'mk xExchange xSymbol xMarginType
  xTimeframe xStartMS xEndMS xStartTS xEndTS xOpenPrice xHighPrice _ xClosePrice xOpen xHigh
  xLow xClose xPrevClose xChg xAmp xVolume xVolumeUnit xQuoteVolume xQuote xQuoteUnit
  xContractVolume xTradeCount xLastTickMS xIsFinal xSource xReason xUpdatedAtMS := b in mk
  xExchange xSymbol xMarginType xTimeframe xStartMS xEndMS xStartTS xEndTS xOpenPrice xHighPrice
  v xClosePrice xOpen xHigh xLow xClose xPrevClose xChg xAmp xVolume xVolumeUnit xQuoteVolume
  xQuote xQuoteUnit xContractVolume xTradeCount xLastTickMS xIsFinal xSource xReason
  xUpdatedAtMS.
Definition set_Open (v : float64) (b : Bar) : Bar := let 'mk xExchange xSymbol xMarginType
  xTimeframe xStartMS xEndMS xStartTS xEndTS xOpenPrice xHighPrice xLowPrice xClosePrice _ xHigh
  xLow xClose xPrevClose xChg xAmp xVolume xVolumeUnit xQuoteVolume xQuote xQuoteUnit
  xContractVolume xTradeCount xLastTickMS xIsFinal xSource xReason xUpdatedAtMS := b in mk
  xExchange xSymbol xMarginType xTimeframe xStartMS xEndMS xStartTS xEndTS xOpenPrice xHighPrice
  xLowPrice xClosePrice v xHigh xLow xClose xPrevClose xChg xAmp xVolume xVolumeUnit
  xQuoteVolume xQuote xQuoteUnit xContractVolume xTradeCount xLastTickMS xIsFinal xSource
  xReason xUpdatedAtMS.
Definition set_High (v : float64) (b : Bar) : Bar := let 'mk xExchange xSymbol xMarginType
  xTimeframe xStartMS xEndMS xStartTS xEndTS xOpenPrice xHighPrice xLowPrice xClosePrice xOpen _
  xLow xClose xPrevClose xChg xAmp xVolume xVolumeUnit xQuoteVolume xQuote xQuoteUnit
  xContractVolume xTradeCount xLastTickMS xIsFinal xSource xReason xUpdatedAtMS := b in mk
  xExchange xSymbol xMarginType xTimeframe xStartMS xEndMS xStartTS xEndTS xOpenPrice xHighPrice
  xLowPrice xClosePrice xOpen v xLow xClose xPrevClose xChg xAmp xVolume xVolumeUnit
  xQuoteVolume xQuote xQuoteUnit xContractVolume xTradeCount xLastTickMS xIsFinal xSource
  xReason xUpdatedAtMS.
Definition set_Low (v : float64) (b : Bar) : Bar := let 'mk xExchange xSymbol xMarginType
  xTimeframe xStartMS xEndMS xStartTS xEndTS xOpenPrice xHighPrice xLowPrice xClosePrice xOpen
  xHigh _ xClose xPrevClose xChg xAmp xVolume xVolumeUnit xQuoteVolume xQuote xQuoteUnit
  xContractVolume xTradeCount xLastTickMS xIsFinal xSource xReason xUpdatedAtMS := b in mk
  xExchange xSymbol xMarginType xTimeframe xStartMS xEndMS xStartTS xEndTS xOpenPrice xHighPrice
  xLowPrice xClosePrice xOpen xHigh v xClose xPrevClose xChg xAmp xVolume xVolumeUnit
  xQuoteVolume xQuote xQuoteUnit xContractVolume xTradeCount xLastTickMS xIsFinal xSource
  xReason xUpdatedAtMS.
Definition set_Close (v : float64) (b : Bar) : Bar := let 'mk xExchange xSymbol xMarginType
  xTimeframe xStartMS xEndMS xStartTS xEndTS xOpenPrice xHighPrice xLowPrice xClosePrice xOpen
  xHigh xLow _ xPrevClose xChg xAmp xVolume xVolumeUnit xQuoteVolume xQuote xQuoteUnit
  xContractVolume xTradeCount xLastTickMS xIsFinal xSource xReason xUpdatedAtMS := b in mk
  xExchange xSymbol xMarginType xTimeframe xStartMS xEndMS xStartTS xEndTS xOpenPrice xHighPrice
  xLowPrice xClosePrice xOpen xHigh xLow v xPrevClose xChg xAmp xVolume xVolumeUnit xQuoteVolume
  xQuote xQuoteUnit xContractVolume xTradeCount xLastTickMS xIsFinal xSource xReason
  xUpdatedAtMS.
Definition set_PrevClose (v : float64) (b : Bar) : Bar := let 'mk xExchange xSymbol xMarginType
  xTimeframe xStartMS xEndMS xStartTS xEndTS xOpenPrice xHighPrice xLowPrice xClosePrice xOpen
  xHigh xLow xClose _ xChg xAmp xVolume xVolumeUnit xQuoteVolume xQuote xQuoteUnit
  xContractVolume xTradeCount xLastTickMS xIsFinal xSource xReason xUpdatedAtMS := b in mk
  xExchange xSymbol xMarginType xTimeframe xStartMS xEndMS xStartTS xEndTS xOpenPrice xHighPrice
  xLowPrice xClosePrice xOpen xHigh xLow xClose v xChg xAmp xVolume xVolumeUnit xQuoteVolume
  xQuote xQuoteUnit xContractVolume xTradeCount xLastTickMS xIsFinal xSource xReason
  xUpdatedAtMS.
Definition set_Chg (v : float64) (b : Bar) : Bar := let 'mk xExchange xSymbol xMarginType
  xTimeframe xStartMS xEndMS xStartTS xEndTS xOpenPrice xHighPrice xLowPrice xClosePrice xOpen
  xHigh xLow xClose xPrevClose _ xAmp xVolume xVolumeUnit xQuoteVolume xQuote xQuoteUnit
  xContractVolume xTradeCount xLastTickMS xIsFinal xSource xReason xUpdatedAtMS := b in mk
  xExchange xSymbol xMarginType xTimeframe xStartMS xEndMS xStartTS xEndTS xOpenPrice xHighPrice
  xLowPrice xClosePrice xOpen xHigh xLow xClose xPrevClose v xAmp xVolume xVolumeUnit
  xQuoteVolume xQuote xQuoteUnit xContractVolume xTradeCount xLastTickMS xIsFinal xSource
  xReason xUpdatedAtMS.
Definition set_Amp (v : float64) (b : Bar) : Bar := let 'mk xExchange xSymbol xMarginType
  xTimeframe xStartMS xEndMS xStartTS xEndTS xOpenPrice xHighPrice xLowPrice xClosePrice xOpen
  xHigh xLow xClose xPrevClose xChg _ xVolume xVolumeUnit xQuoteVolume xQuote xQuoteUnit
  xContractVolume xTradeCount xLastTickMS xIsFinal xSource xReason xUpdatedAtMS := b in mk
  xExchange xSymbol xMarginType xTimeframe xStartMS xEndMS xStartTS xEndTS xOpenPrice xHighPrice
  xLowPrice xClosePrice xOpen xHigh xLow xClose xPrevClose xChg v xVolume xVolumeUnit
  xQuoteVolume xQuote xQuoteUnit xContractVolume xTradeCount xLastTickMS xIsFinal xSource
  xReason xUpdatedAtMS.
Definition set_Volume (v : float64) (b : Bar) : Bar := let 'mk xExchange xSymbol xMarginType
  xTimeframe xStartMS xEndMS xStartTS xEndTS xOpenPrice xHighPrice xLowPrice xClosePrice xOpen
  xHigh xLow xClose xPrevClose xChg xAmp _ xVolumeUnit xQuoteVolume xQuote xQuoteUnit
  xContractVolume xTradeCount xLastTickMS xIsFinal xSource xReason xUpdatedAtMS := b in mk
  xExchange xSymbol xMarginType xTimeframe xStartMS xEndMS xStartTS xEndTS xOpenPrice xHighPrice
  xLowPrice xClosePrice xOpen xHigh xLow xClose xPrevClose xChg xAmp v xVolumeUnit xQuoteVolume
  xQuote xQuoteUnit xContractVolume xTradeCount xLastTickMS xIsFinal xSource xReason
  xUpdatedAtMS.
Definition set_QuoteVolume (v : float64) (b : Bar) : Bar := let 'mk xExchange xSymbol
  xMarginType xTimeframe xStartMS xEndMS xStartTS xEndTS xOpenPrice xHighPrice xLowPrice
  xClosePrice xOpen xHigh xLow xClose xPrevClose xChg xAmp xVolume xVolumeUnit _ xQuote
  xQuoteUnit xContractVolume xTradeCount xLastTickMS xIsFinal xSource xReason xUpdatedAtMS := b
  in mk xExchange xSymbol xMarginType xTimeframe xStartMS xEndMS xStartTS xEndTS xOpenPrice
  xHighPrice xLowPrice xClosePrice xOpen xHigh xLow xClose xPrevClose xChg xAmp xVolume
  xVolumeUnit v xQuote xQuoteUnit xContractVolume xTradeCount xLastTickMS xIsFinal xSource
  xReason xUpdatedAtMS.
Definition set_Quote (v : float64) (b : Bar) : Bar := let 'mk xExchange xSymbol xMarginType
  xTimeframe xStartMS xEndMS xStartTS xEndTS xOpenPrice xHighPrice xLowPrice xClosePrice xOpen
  xHigh xLow xClose xPrevClose xChg xAmp xVolume xVolumeUnit xQuoteVolume _ xQuoteUnit
  xContractVolume xTradeCount xLastTickMS xIsFinal xSource xReason xUpdatedAtMS := b in mk
  xExchange xSymbol xMarginType xTimeframe xStartMS xEndMS xStartTS xEndTS xOpenPrice xHighPrice
  xLowPrice xClosePrice xOpen xHigh xLow xClose xPrevClose xChg xAmp xVolume xVolumeUnit
  xQuoteVolume v xQuoteUnit xContractVolume xTradeCount xLastTickMS xIsFinal xSource xReason
  xUpdatedAtMS.
Definition set_ContractVolume (v : float64) (b : Bar) : Bar := let 'mk xExchange xSymbol
  xMarginType xTimeframe xStartMS xEndMS xStartTS xEndTS xOpenPrice xHighPrice xLowPrice
  xClosePrice xOpen xHigh xLow xClose xPrevClose xChg xAmp xVolume xVolumeUnit xQuoteVolume
  xQuote xQuoteUnit _ xTradeCount xLastTickMS xIsFinal xSource xReason xUpdatedAtMS := b in mk
  xExchange xSymbol xMarginType xTimeframe xStartMS xEndMS xStartTS xEndTS xOpenPrice xHighPrice
  xLowPrice xClosePrice xOpen xHigh xLow xClose xPrevClose xChg xAmp xVolume xVolumeUnit
  xQuoteVolume xQuote xQuoteUnit v xTradeCount xLastTickMS xIsFinal xSource xReason
  xUpdatedAtMS.
Definition set_TradeCount (v : Z) (b : Bar) : Bar := let 'mk xExchange xSymbol xMarginType
  xTimeframe xStartMS xEndMS xStartTS xEndTS xOpenPrice xHighPrice xLowPrice xClosePrice xOpen
  xHigh xLow xClose xPrevClose xChg xAmp xVolume xVolumeUnit xQuoteVolume xQuote xQuoteUnit
  xContractVolume _ xLastTickMS xIsFinal xSource xReason xUpdatedAtMS := b in mk xExchange
  xSymbol xMarginType xTimeframe xStartMS xEndMS xStartTS xEndTS xOpenPrice xHighPrice xLowPrice
  xClosePrice xOpen xHigh xLow xClose xPrevClose xChg xAmp xVolume xVolumeUnit xQuoteVolume
  xQuote xQuoteUnit xContractVolume v xLastTickMS xIsFinal xSource xReason xUpdatedAtMS.
Definition set_LastTickMS (v : Z) (b : Bar) : Bar := let 'mk xExchange xSymbol xMarginType
  xTimeframe xStartMS xEndMS xStartTS xEndTS xOpenPrice xHighPrice xLowPrice xClosePrice xOpen
  xHigh xLow xClose xPrevClose xChg xAmp xVolume xVolumeUnit xQuoteVolume xQuote xQuoteUnit
  xContractVolume xTradeCount _ xIsFinal xSource xReason xUpdatedAtMS := b in mk xExchange
  xSymbol xMarginType xTimeframe xStartMS xEndMS xStartTS xEndTS xOpenPrice xHighPrice xLowPrice
  xClosePrice xOpen xHigh xLow xClose xPrevClose xChg xAmp xVolume xVolumeUnit xQuoteVolume
  xQuote xQuoteUnit xContractVolume xTradeCount v xIsFinal xSource xReason xUpdatedAtMS.
Definition set_IsFinal (v : bool) (b : Bar) : Bar := let 'mk xExchange xSymbol xMarginType
  xTimeframe xStartMS xEndMS xStartTS xEndTS xOpenPrice xHighPrice xLowPrice xClosePrice xOpen
  xHigh xLow xClose xPrevClose xChg xAmp xVolume xVolumeUnit xQuoteVolume xQuote xQuoteUnit
  xContractVolume xTradeCount xLastTickMS _ xSource xReason xUpdatedAtMS := b in mk xExchange
  xSymbol xMarginType xTimeframe xStartMS xEndMS xStartTS xEndTS xOpenPrice xHighPrice xLowPrice
  xClosePrice xOpen xHigh xLow xClose xPrevClose xChg xAmp xVolume xVolumeUnit xQuoteVolume
  xQuote xQuoteUnit xContractVolume xTradeCount xLastTickMS v xSource xReason xUpdatedAtMS.
Definition set_Source (v : string) (b : Bar) : Bar := let 'mk xExchange xSymbol xMarginType
  xTimeframe xStartMS xEndMS xStartTS xEndTS xOpenPrice xHighPrice xLowPrice xClosePrice xOpen
  xHigh xLow xClose xPrevClose xChg xAmp xVolume xVolumeUnit xQuoteVolume xQuote xQuoteUnit
  xContractVolume xTradeCount xLastTickMS xIsFinal _ xReason xUpdatedAtMS := b in mk xExchange
  xSymbol xMarginType xTimeframe xStartMS xEndMS xStartTS xEndTS xOpenPrice xHighPrice xLowPrice
  xClosePrice xOpen xHigh xLow xClose xPrevClose xChg xAmp xVolume xVolumeUnit xQuoteVolume
  xQuote xQuoteUnit xContractVolume xTradeCount xLastTickMS xIsFinal v xReason xUpdatedAtMS.
Definition set_Reason (v : string) (b : Bar) : Bar := let 'mk xExchange xSymbol xMarginType
  xTimeframe xStartMS xEndMS xStartTS xEndTS xOpenPrice xHighPrice xLowPrice xClosePrice xOpen
  xHigh xLow xClose xPrevClose xChg xAmp xVolume xVolumeUnit xQuoteVolume xQuote xQuoteUnit
  xContractVolume xTradeCount xLastTickMS xIsFinal xSource _ xUpdatedAtMS := b in mk xExchange
  xSymbol xMarginType xTimeframe xStartMS xEndMS xStartTS xEndTS xOpenPrice xHighPrice xLowPrice
  xClosePrice xOpen xHigh xLow xClose xPrevClose xChg xAmp xVolume xVolumeUnit xQuoteVolume
  xQuote xQuoteUnit xContractVolume xTradeCount xLastTickMS xIsFinal xSource v xUpdatedAtMS.
Definition set_UpdatedAtMS (v : Z) (b : Bar) : Bar := let 'mk xExchange xSymbol xMarginType
  xTimeframe xStartMS xEndMS xStartTS xEndTS xOpenPrice xHighPrice xLowPrice xClosePrice xOpen
  xHigh xLow xClose xPrevClose xChg xAmp xVolume xVolumeUnit xQuoteVolume xQuote xQuoteUnit
  xContractVolume xTradeCount xLastTickMS xIsFinal xSource xReason _ := b in mk xExchange
  xSymbol xMarginType xTimeframe xStartMS xEndMS xStartTS xEndTS xOpenPrice xHighPrice xLowPrice
  xClosePrice xOpen xHigh xLow xClose xPrevClose xChg xAmp xVolume xVolumeUnit xQuoteVolume
  xQuote xQuoteUnit xContractVolume xTradeCount xLastTickMS xIsFinal xSource xReason v.
Definition zero : Bar := mk "" "" "" "" 0 0 0 0 f64_zero f64_zero f64_zero f64_zero f64_zero
  f64_zero f64_zero f64_zero f64_zero f64_zero f64_zero f64_zero "" f64_zero f64_zero ""
  f64_zero 0 0 false "" "" 0.
End Bar.
Notation Bar := Bar.Bar.
#[export] Instance Bar_eq_dec : EqDecision Bar.
Proof. solve_decision. Defined.

Module SymbolInfo.
Record SymbolInfo : Set := mk {
  Exchange : string; Symbol : string; MarketType : string; Status : string;
  IsActive : bool;
  FirstSeenAtMS : Z; LastSeenAtMS : Z; UpdatedAtMS : Z;
  OfficialActive : bool;
  ContractType : string; BaseCurrency : string; QuoteCurrency : string; SettleCurrency : string;
  ListedAtMS : Z; DelistAtMS : Z; ExpiryAtMS : Z;
  OfficialRaw : string;
}.
Definition zero : SymbolInfo := mk "" "" "" "" false 0 0 0 false "" "" "" "" 0 0 0 "".
End SymbolInfo.
Notation SymbolInfo := SymbolInfo.SymbolInfo.
#[export] Instance SymbolInfo_eq_dec : EqDecision SymbolInfo.
Proof. solve_decision. Defined.

Module MarketSeries.
Record MarketSeries : Set := mk {
  Exchange : string; Symbol : string; MarketType : string;
}.
Definition zero : MarketSeries := mk "" "" "".
End MarketSeries.
Notation MarketSeries := MarketSeries.MarketSeries.
#[export] Instance MarketSeries_eq_dec : EqDecision MarketSeries.
Proof. solve_decision. Defined.

Module KlineQuery.
Record KlineQuery : Set := mk {
  Exchange : string; Symbol : string; Timeframe : string;
  Limit : Z;
  IncludeLive : bool;
}.
Definition set_Exchange (v : string) (b : KlineQuery) : KlineQuery := let 'mk _ xSymbol
  xTimeframe xLimit xIncludeLive := b in mk v xSymbol xTimeframe xLimit xIncludeLive.
Definition set_Symbol (v : string) (b : KlineQuery) : KlineQuery := let 'mk xExchange _
  xTimeframe xLimit xIncludeLive := b in mk xExchange v xTimeframe xLimit xIncludeLive.
Definition set_Timeframe (v : string) (b : KlineQuery) : KlineQuery := let 'mk xExchange xSymbol
  _ xLimit xIncludeLive := b in mk xExchange xSymbol v xLimit xIncludeLive.
Definition set_Limit (v : Z) (b : KlineQuery) : KlineQuery := let 'mk xExchange xSymbol
  xTimeframe _ xIncludeLive := b in mk xExchange xSymbol xTimeframe v xIncludeLive.
Definition zero : KlineQuery := mk "" "" "" 0 false.
End KlineQuery.
Notation KlineQuery := KlineQuery.KlineQuery.
#[export] Instance KlineQuery_eq_dec : EqDecision KlineQuery.
Proof. solve_decision. Defined.

(** [Tick] and [Bar] point to values nobody changes after the event is made. *)
Module Event.
Record Event : Set := mk {
  Type_ : string;
  Seq : Z;
  Exchange : string; Symbol : string; Timeframe : string;
  tick : option Tick;
  bar : option Bar;
}.
Definition set_Seq (v : Z) (b : Event) : Event := let 'mk xType_ _ xExchange xSymbol xTimeframe
  xtick xbar := b in mk xType_ v xExchange xSymbol xTimeframe xtick xbar.
Definition zero : Event := mk "" 0 "" "" "" None None.
End Event.
Notation Event := Event.Event.
#[export] Instance Event_eq_dec : EqDecision Event.
Proof. solve_decision. Defined.

Module KlineGuardianState.
Record KlineGuardianState : Set := mk {
  Exchange : string; Symbol : string; Timeframe : string;
  LastFinalStartMS : Z; LastFinalRecvMS : Z; LastCheckedStartMS : Z; LastCheckedEndMS : Z; LastCheckedAtMS : Z;
  LastGapStartMS : Z; LastGapEndMS : Z;
  Status : string;
  UpdatedAtMS : Z;
}.
Definition set_Exchange (v : string) (b : KlineGuardianState) : KlineGuardianState := let 'mk _
  xSymbol xTimeframe xLastFinalStartMS xLastFinalRecvMS xLastCheckedStartMS xLastCheckedEndMS
  xLastCheckedAtMS xLastGapStartMS xLastGapEndMS xStatus xUpdatedAtMS := b in mk v xSymbol
  xTimeframe xLastFinalStartMS xLastFinalRecvMS xLastCheckedStartMS xLastCheckedEndMS
  xLastCheckedAtMS xLastGapStartMS xLastGapEndMS xStatus xUpdatedAtMS.
Definition set_Symbol (v : string) (b : KlineGuardianState) : KlineGuardianState := let 'mk
  xExchange _ xTimeframe xLastFinalStartMS xLastFinalRecvMS xLastCheckedStartMS
  xLastCheckedEndMS xLastCheckedAtMS xLastGapStartMS xLastGapEndMS xStatus xUpdatedAtMS := b in
  mk xExchange v xTimeframe xLastFinalStartMS xLastFinalRecvMS xLastCheckedStartMS
  xLastCheckedEndMS xLastCheckedAtMS xLastGapStartMS xLastGapEndMS xStatus xUpdatedAtMS.
Definition zero : KlineGuardianState := mk "" "" "" 0 0 0 0 0 0 0 "" 0.
End KlineGuardianState.
Notation KlineGuardianState := KlineGuardianState.KlineGuardianState.
#[export] Instance KlineGuardianState_eq_dec : EqDecision KlineGuardianState.
Proof. solve_decision. Defined.

Module KlineGuardianEvent.
Record KlineGuardianEvent : Set := mk {
  ID : Z;
  Exchange : string; Symbol : string; Timeframe : string;
  StartMS : Z; EndMS : Z;
  EventType : string; OldValueJSON : string; NewValueJSON : string;
  CreatedAtMS : Z;
}.
Definition set_ID (v : Z) (b : KlineGuardianEvent) : KlineGuardianEvent := let 'mk _ xExchange
  xSymbol xTimeframe xStartMS xEndMS xEventType xOldValueJSON xNewValueJSON xCreatedAtMS := b in
  mk v xExchange xSymbol xTimeframe xStartMS xEndMS xEventType xOldValueJSON xNewValueJSON
  xCreatedAtMS.
Definition set_Exchange (v : string) (b : KlineGuardianEvent) : KlineGuardianEvent := let 'mk
  xID _ xSymbol xTimeframe xStartMS xEndMS xEventType xOldValueJSON xNewValueJSON xCreatedAtMS
  := b in mk xID v xSymbol xTimeframe xStartMS xEndMS xEventType xOldValueJSON xNewValueJSON
  xCreatedAtMS.
Definition set_Symbol (v : string) (b : KlineGuardianEvent) : KlineGuardianEvent := let 'mk xID
  xExchange _ xTimeframe xStartMS xEndMS xEventType xOldValueJSON xNewValueJSON xCreatedAtMS :=
  b in mk xID xExchange v xTimeframe xStartMS xEndMS xEventType xOldValueJSON xNewValueJSON
  xCreatedAtMS.
Definition zero : KlineGuardianEvent := mk 0 "" "" "" 0 0 "" "" "" 0.
End KlineGuardianEvent.
Notation KlineGuardianEvent := KlineGuardianEvent.KlineGuardianEvent.
#[export] Instance KlineGuardianEvent_eq_dec : EqDecision KlineGuardianEvent.
Proof. solve_decision. Defined.

Module CorporateActionJob.
Record CorporateActionJob : Set := mk {
  ID : Z;
  Exchange : string; Symbol : string; MarketType : string;
  EffectiveMS : Z;
  ObservedRatio : float64; Factor : float64;
  Detector : string; Status : string;
  Attempts : Z; NextRetryMS : Z;
  LastError : string;
  RowsWritten : Z;
  VerificationStatus : string; VerificationJSON : string;
  CreatedAtMS : Z; UpdatedAtMS : Z; CompletedAtMS : Z;
}.
Definition set_ID (v : Z) (b : CorporateActionJob) : CorporateActionJob := let 'mk _ xExchange
  xSymbol xMarketType xEffectiveMS xObservedRatio xFactor xDetector xStatus xAttempts
  xNextRetryMS xLastError xRowsWritten xVerificationStatus xVerificationJSON xCreatedAtMS
  xUpdatedAtMS xCompletedAtMS := b in mk v xExchange xSymbol xMarketType xEffectiveMS
  xObservedRatio xFactor xDetector xStatus xAttempts xNextRetryMS xLastError xRowsWritten
  xVerificationStatus xVerificationJSON xCreatedAtMS xUpdatedAtMS xCompletedAtMS.
Definition set_Status (v : string) (b : CorporateActionJob) : CorporateActionJob := let 'mk xID
  xExchange xSymbol xMarketType xEffectiveMS xObservedRatio xFactor xDetector _ xAttempts
  xNextRetryMS xLastError xRowsWritten xVerificationStatus xVerificationJSON xCreatedAtMS
  xUpdatedAtMS xCompletedAtMS := b in mk xID xExchange xSymbol xMarketType xEffectiveMS
  xObservedRatio xFactor xDetector v xAttempts xNextRetryMS xLastError xRowsWritten
  xVerificationStatus xVerificationJSON xCreatedAtMS xUpdatedAtMS xCompletedAtMS.
Definition zero : CorporateActionJob := mk 0 "" "" "" 0 f64_zero f64_zero "" "" 0 0 "" 0 "" "" 0
  0 0.
End CorporateActionJob.
Notation CorporateActionJob := CorporateActionJob.CorporateActionJob.
#[export] Instance CorporateActionJob_eq_dec : EqDecision CorporateActionJob.
Proof. solve_decision. Defined.

Module MinuteAuditTask.
Record MinuteAuditTask : Set := mk {
  ID : Z;
  Exchange : string; Symbol : string; MarketType : string; Kind : string;
  StartMS : Z; EndMS : Z; ExpectedStartMS : Z;
  ExpectData : bool;
  Status : string;
  Attempts : Z; NextAttemptMS : Z; LeaseUntilMS : Z;
  LeaseToken : string;
  ForceReplay : bool;
  LastError : string;
  CreatedAtMS : Z; UpdatedAtMS : Z;
}.
Definition set_ID (v : Z) (b : MinuteAuditTask) : MinuteAuditTask := let 'mk _ xExchange xSymbol
  xMarketType xKind xStartMS xEndMS xExpectedStartMS xExpectData xStatus xAttempts
  xNextAttemptMS xLeaseUntilMS xLeaseToken xForceReplay xLastError xCreatedAtMS xUpdatedAtMS :=
  b in mk v xExchange xSymbol xMarketType xKind xStartMS xEndMS xExpectedStartMS xExpectData
  xStatus xAttempts xNextAttemptMS xLeaseUntilMS xLeaseToken xForceReplay xLastError
  xCreatedAtMS xUpdatedAtMS.
Definition set_Exchange (v : string) (b : MinuteAuditTask) : MinuteAuditTask := let 'mk xID _
  xSymbol xMarketType xKind xStartMS xEndMS xExpectedStartMS xExpectData xStatus xAttempts
  xNextAttemptMS xLeaseUntilMS xLeaseToken xForceReplay xLastError xCreatedAtMS xUpdatedAtMS :=
  b in mk xID v xSymbol xMarketType xKind xStartMS xEndMS xExpectedStartMS xExpectData xStatus
  xAttempts xNextAttemptMS xLeaseUntilMS xLeaseToken xForceReplay xLastError xCreatedAtMS
  xUpdatedAtMS.
Definition set_Symbol (v : string) (b : MinuteAuditTask) : MinuteAuditTask := let 'mk xID
  xExchange _ xMarketType xKind xStartMS xEndMS xExpectedStartMS xExpectData xStatus xAttempts
  xNextAttemptMS xLeaseUntilMS xLeaseToken xForceReplay xLastError xCreatedAtMS xUpdatedAtMS :=
  b in mk xID xExchange v xMarketType xKind xStartMS xEndMS xExpectedStartMS xExpectData xStatus
  xAttempts xNextAttemptMS xLeaseUntilMS xLeaseToken xForceReplay xLastError xCreatedAtMS
  xUpdatedAtMS.
Definition set_MarketType (v : string) (b : MinuteAuditTask) : MinuteAuditTask := let 'mk xID
  xExchange xSymbol _ xKind xStartMS xEndMS xExpectedStartMS xExpectData xStatus xAttempts
  xNextAttemptMS xLeaseUntilMS xLeaseToken xForceReplay xLastError xCreatedAtMS xUpdatedAtMS :=
  b in mk xID xExchange xSymbol v xKind xStartMS xEndMS xExpectedStartMS xExpectData xStatus
  xAttempts xNextAttemptMS xLeaseUntilMS xLeaseToken xForceReplay xLastError xCreatedAtMS
  xUpdatedAtMS.
Definition set_Kind (v : string) (b : MinuteAuditTask) : MinuteAuditTask := let 'mk xID
  xExchange xSymbol xMarketType _ xStartMS xEndMS xExpectedStartMS xExpectData xStatus xAttempts
  xNextAttemptMS xLeaseUntilMS xLeaseToken xForceReplay xLastError xCreatedAtMS xUpdatedAtMS :=
  b in mk xID xExchange xSymbol xMarketType v xStartMS xEndMS xExpectedStartMS xExpectData
  xStatus xAttempts xNextAttemptMS xLeaseUntilMS xLeaseToken xForceReplay xLastError
  xCreatedAtMS xUpdatedAtMS.
Definition set_Status (v : string) (b : MinuteAuditTask) : MinuteAuditTask := let 'mk xID
  xExchange xSymbol xMarketType xKind xStartMS xEndMS xExpectedStartMS xExpectData _ xAttempts
  xNextAttemptMS xLeaseUntilMS xLeaseToken xForceReplay xLastError xCreatedAtMS xUpdatedAtMS :=
  b in mk xID xExchange xSymbol xMarketType xKind xStartMS xEndMS xExpectedStartMS xExpectData v
  xAttempts xNextAttemptMS xLeaseUntilMS xLeaseToken xForceReplay xLastError xCreatedAtMS
  xUpdatedAtMS.
Definition set_Attempts (v : Z) (b : MinuteAuditTask) : MinuteAuditTask := let 'mk xID xExchange
  xSymbol xMarketType xKind xStartMS xEndMS xExpectedStartMS xExpectData xStatus _
  xNextAttemptMS xLeaseUntilMS xLeaseToken xForceReplay xLastError xCreatedAtMS xUpdatedAtMS :=
  b in mk xID xExchange xSymbol xMarketType xKind xStartMS xEndMS xExpectedStartMS xExpectData
  xStatus v xNextAttemptMS xLeaseUntilMS xLeaseToken xForceReplay xLastError xCreatedAtMS
  xUpdatedAtMS.
Definition set_NextAttemptMS (v : Z) (b : MinuteAuditTask) : MinuteAuditTask := let 'mk xID
  xExchange xSymbol xMarketType xKind xStartMS xEndMS xExpectedStartMS xExpectData xStatus
  xAttempts _ xLeaseUntilMS xLeaseToken xForceReplay xLastError xCreatedAtMS xUpdatedAtMS := b
  in mk xID xExchange xSymbol xMarketType xKind xStartMS xEndMS xExpectedStartMS xExpectData
  xStatus xAttempts v xLeaseUntilMS xLeaseToken xForceReplay xLastError xCreatedAtMS
  xUpdatedAtMS.
Definition set_LeaseUntilMS (v : Z) (b : MinuteAuditTask) : MinuteAuditTask := let 'mk xID
  xExchange xSymbol xMarketType xKind xStartMS xEndMS xExpectedStartMS xExpectData xStatus
  xAttempts xNextAttemptMS _ xLeaseToken xForceReplay xLastError xCreatedAtMS xUpdatedAtMS := b
  in mk xID xExchange xSymbol xMarketType xKind xStartMS xEndMS xExpectedStartMS xExpectData
  xStatus xAttempts xNextAttemptMS v xLeaseToken xForceReplay xLastError xCreatedAtMS
  xUpdatedAtMS.
Definition set_LeaseToken (v : string) (b : MinuteAuditTask) : MinuteAuditTask := let 'mk xID
  xExchange xSymbol xMarketType xKind xStartMS xEndMS xExpectedStartMS xExpectData xStatus
  xAttempts xNextAttemptMS xLeaseUntilMS _ xForceReplay xLastError xCreatedAtMS xUpdatedAtMS :=
  b in mk xID xExchange xSymbol xMarketType xKind xStartMS xEndMS xExpectedStartMS xExpectData
  xStatus xAttempts xNextAttemptMS xLeaseUntilMS v xForceReplay xLastError xCreatedAtMS
  xUpdatedAtMS.
Definition set_ForceReplay (v : bool) (b : MinuteAuditTask) : MinuteAuditTask := let 'mk xID
  xExchange xSymbol xMarketType xKind xStartMS xEndMS xExpectedStartMS xExpectData xStatus
  xAttempts xNextAttemptMS xLeaseUntilMS xLeaseToken _ xLastError xCreatedAtMS xUpdatedAtMS := b
  in mk xID xExchange xSymbol xMarketType xKind xStartMS xEndMS xExpectedStartMS xExpectData
  xStatus xAttempts xNextAttemptMS xLeaseUntilMS xLeaseToken v xLastError xCreatedAtMS
  xUpdatedAtMS.
Definition set_LastError (v : string) (b : MinuteAuditTask) : MinuteAuditTask := let 'mk xID
  xExchange xSymbol xMarketType xKind xStartMS xEndMS xExpectedStartMS xExpectData xStatus
  xAttempts xNextAttemptMS xLeaseUntilMS xLeaseToken xForceReplay _ xCreatedAtMS xUpdatedAtMS :=
  b in mk xID xExchange xSymbol xMarketType xKind xStartMS xEndMS xExpectedStartMS xExpectData
  xStatus xAttempts xNextAttemptMS xLeaseUntilMS xLeaseToken xForceReplay v xCreatedAtMS
  xUpdatedAtMS.
Definition set_CreatedAtMS (v : Z) (b : MinuteAuditTask) : MinuteAuditTask := let 'mk xID
  xExchange xSymbol xMarketType xKind xStartMS xEndMS xExpectedStartMS xExpectData xStatus
  xAttempts xNextAttemptMS xLeaseUntilMS xLeaseToken xForceReplay xLastError _ xUpdatedAtMS := b
  in mk xID xExchange xSymbol xMarketType xKind xStartMS xEndMS xExpectedStartMS xExpectData
  xStatus xAttempts xNextAttemptMS xLeaseUntilMS xLeaseToken xForceReplay xLastError v
  xUpdatedAtMS.
Definition set_UpdatedAtMS (v : Z) (b : MinuteAuditTask) : MinuteAuditTask := let 'mk xID
  xExchange xSymbol xMarketType xKind xStartMS xEndMS xExpectedStartMS xExpectData xStatus
  xAttempts xNextAttemptMS xLeaseUntilMS xLeaseToken xForceReplay xLastError xCreatedAtMS _ := b
  in mk xID xExchange xSymbol xMarketType xKind xStartMS xEndMS xExpectedStartMS xExpectData
  xStatus xAttempts xNextAttemptMS xLeaseUntilMS xLeaseToken xForceReplay xLastError
  xCreatedAtMS v.
Definition zero : MinuteAuditTask := mk 0 "" "" "" "" 0 0 0 false "" 0 0 0 "" false "" 0 0.
End MinuteAuditTask.
Notation MinuteAuditTask := MinuteAuditTask.MinuteAuditTask.
#[export] Instance MinuteAuditTask_eq_dec : EqDecision MinuteAuditTask.
Proof. solve_decision. Defined.

Module MinuteAuditCursor.
Record MinuteAuditCursor : Set := mk {
  Exchange : string; Symbol : string; Kind : string;
  ThroughMS : Z; UpdatedAtMS : Z;
}.
Definition set_Exchange (v : string) (b : MinuteAuditCursor) : MinuteAuditCursor := let 'mk _
  xSymbol xKind xThroughMS xUpdatedAtMS := b in mk v xSymbol xKind xThroughMS xUpdatedAtMS.
Definition set_Symbol (v : string) (b : MinuteAuditCursor) : MinuteAuditCursor := let 'mk
  xExchange _ xKind xThroughMS xUpdatedAtMS := b in mk xExchange v xKind xThroughMS
  xUpdatedAtMS.
Definition set_Kind (v : string) (b : MinuteAuditCursor) : MinuteAuditCursor := let 'mk
  xExchange xSymbol _ xThroughMS xUpdatedAtMS := b in mk xExchange xSymbol v xThroughMS
  xUpdatedAtMS.
Definition set_ThroughMS (v : Z) (b : MinuteAuditCursor) : MinuteAuditCursor := let 'mk
  xExchange xSymbol xKind _ xUpdatedAtMS := b in mk xExchange xSymbol xKind v xUpdatedAtMS.
Definition set_UpdatedAtMS (v : Z) (b : MinuteAuditCursor) : MinuteAuditCursor := let 'mk
  xExchange xSymbol xKind xThroughMS _ := b in mk xExchange xSymbol xKind xThroughMS v.
Definition zero : MinuteAuditCursor := mk "" "" "" 0 0.
End MinuteAuditCursor.
Notation MinuteAuditCursor := MinuteAuditCursor.MinuteAuditCursor.
#[export] Instance MinuteAuditCursor_eq_dec : EqDecision MinuteAuditCursor.
Proof. solve_decision. Defined.

Module MinuteAuditSummary.
Record MinuteAuditSummary : Set := mk {
  Pending : Z; Running : Z; Blocked : Z; Expired : Z; Excluded : Z;
  OldestStartMS : Z; DailyCompleted : Z; DailyTotal : Z; DailyDayStartMS : Z; UpdatedAtMS : Z;
}.
Definition set_Pending (v : Z) (b : MinuteAuditSummary) : MinuteAuditSummary := let 'mk _
  xRunning xBlocked xExpired xExcluded xOldestStartMS xDailyCompleted xDailyTotal
  xDailyDayStartMS xUpdatedAtMS := b in mk v xRunning xBlocked xExpired xExcluded xOldestStartMS
  xDailyCompleted xDailyTotal xDailyDayStartMS xUpdatedAtMS.
Definition set_Running (v : Z) (b : MinuteAuditSummary) : MinuteAuditSummary := let 'mk xPending
  _ xBlocked xExpired xExcluded xOldestStartMS xDailyCompleted xDailyTotal xDailyDayStartMS
  xUpdatedAtMS := b in mk xPending v xBlocked xExpired xExcluded xOldestStartMS xDailyCompleted
  xDailyTotal xDailyDayStartMS xUpdatedAtMS.
Definition set_Blocked (v : Z) (b : MinuteAuditSummary) : MinuteAuditSummary := let 'mk xPending
  xRunning _ xExpired xExcluded xOldestStartMS xDailyCompleted xDailyTotal xDailyDayStartMS
  xUpdatedAtMS := b in mk xPending xRunning v xExpired xExcluded xOldestStartMS xDailyCompleted
  xDailyTotal xDailyDayStartMS xUpdatedAtMS.
Definition set_Expired (v : Z) (b : MinuteAuditSummary) : MinuteAuditSummary := let 'mk xPending
  xRunning xBlocked _ xExcluded xOldestStartMS xDailyCompleted xDailyTotal xDailyDayStartMS
  xUpdatedAtMS := b in mk xPending xRunning xBlocked v xExcluded xOldestStartMS xDailyCompleted
  xDailyTotal xDailyDayStartMS xUpdatedAtMS.
Definition set_Excluded (v : Z) (b : MinuteAuditSummary) : MinuteAuditSummary := let 'mk
  xPending xRunning xBlocked xExpired _ xOldestStartMS xDailyCompleted xDailyTotal
  xDailyDayStartMS xUpdatedAtMS := b in mk xPending xRunning xBlocked xExpired v xOldestStartMS
  xDailyCompleted xDailyTotal xDailyDayStartMS xUpdatedAtMS.
Definition set_OldestStartMS (v : Z) (b : MinuteAuditSummary) : MinuteAuditSummary := let 'mk
  xPending xRunning xBlocked xExpired xExcluded _ xDailyCompleted xDailyTotal xDailyDayStartMS
  xUpdatedAtMS := b in mk xPending xRunning xBlocked xExpired xExcluded v xDailyCompleted
  xDailyTotal xDailyDayStartMS xUpdatedAtMS.
Definition set_DailyCompleted (v : Z) (b : MinuteAuditSummary) : MinuteAuditSummary := let 'mk
  xPending xRunning xBlocked xExpired xExcluded xOldestStartMS _ xDailyTotal xDailyDayStartMS
  xUpdatedAtMS := b in mk xPending xRunning xBlocked xExpired xExcluded xOldestStartMS v
  xDailyTotal xDailyDayStartMS xUpdatedAtMS.
Definition set_DailyTotal (v : Z) (b : MinuteAuditSummary) : MinuteAuditSummary := let 'mk
  xPending xRunning xBlocked xExpired xExcluded xOldestStartMS xDailyCompleted _
  xDailyDayStartMS xUpdatedAtMS := b in mk xPending xRunning xBlocked xExpired xExcluded
  xOldestStartMS xDailyCompleted v xDailyDayStartMS xUpdatedAtMS.
Definition set_DailyDayStartMS (v : Z) (b : MinuteAuditSummary) : MinuteAuditSummary := let 'mk
  xPending xRunning xBlocked xExpired xExcluded xOldestStartMS xDailyCompleted xDailyTotal _
  xUpdatedAtMS := b in mk xPending xRunning xBlocked xExpired xExcluded xOldestStartMS
  xDailyCompleted xDailyTotal v xUpdatedAtMS.
Definition set_UpdatedAtMS (v : Z) (b : MinuteAuditSummary) : MinuteAuditSummary := let 'mk
  xPending xRunning xBlocked xExpired xExcluded xOldestStartMS xDailyCompleted xDailyTotal
  xDailyDayStartMS _ := b in mk xPending xRunning xBlocked xExpired xExcluded xOldestStartMS
  xDailyCompleted xDailyTotal xDailyDayStartMS v.
Definition zero : MinuteAuditSummary := mk 0 0 0 0 0 0 0 0 0 0.
End MinuteAuditSummary.
Notation MinuteAuditSummary := MinuteAuditSummary.MinuteAuditSummary.
#[export] Instance MinuteAuditSummary_eq_dec : EqDecision MinuteAuditSummary.
Proof. solve_decision. Defined.

(** ** [DecorateBar]: the JSON aliases of the price and time fields *)

Definition DecorateBar (bar : Bar) : Bar :=
    {| Bar.Exchange := bar.(Bar.Exchange); Bar.Symbol := bar.(Bar.Symbol); Bar.MarginType :=
     bar.(Bar.MarginType); Bar.Timeframe := bar.(Bar.Timeframe); Bar.StartMS :=
     bar.(Bar.StartMS); Bar.EndMS := bar.(Bar.EndMS); Bar.StartTS := bar.(Bar.StartMS);
     Bar.EndTS := bar.(Bar.EndMS); Bar.OpenPrice := bar.(Bar.OpenPrice); Bar.HighPrice :=
     bar.(Bar.HighPrice); Bar.LowPrice := bar.(Bar.LowPrice); Bar.ClosePrice :=
     bar.(Bar.ClosePrice); Bar.Open := bar.(Bar.OpenPrice); Bar.High := bar.(Bar.HighPrice);
     Bar.Low := bar.(Bar.LowPrice); Bar.Close := bar.(Bar.ClosePrice); Bar.PrevClose :=
     bar.(Bar.PrevClose); Bar.Chg := bar.(Bar.Chg); Bar.Amp := bar.(Bar.Amp); Bar.Volume :=
     bar.(Bar.Volume); Bar.VolumeUnit := bar.(Bar.VolumeUnit); Bar.QuoteVolume :=
     bar.(Bar.QuoteVolume); Bar.Quote := bar.(Bar.QuoteVolume); Bar.QuoteUnit :=
     bar.(Bar.QuoteUnit); Bar.ContractVolume := bar.(Bar.ContractVolume); Bar.TradeCount :=
     bar.(Bar.TradeCount); Bar.LastTickMS := bar.(Bar.LastTickMS); Bar.IsFinal :=
     bar.(Bar.IsFinal); Bar.Source := bar.(Bar.Source); Bar.Reason := bar.(Bar.Reason);
     Bar.UpdatedAtMS := bar.(Bar.UpdatedAtMS) |}.

Definition OfficialTradeCountAvailable (bar : Bar) : bool :=
  (0 <? bar.(Bar.TradeCount)) || EqualFold (TrimSpace bar.(Bar.Exchange)) "binance".

(** A candle with other prices and volumes, as the corporate action factors
    make it. *)
Definition set_prices (o h l c v cv : float64) (source reason : string) (b : Bar) : Bar :=
  let 'Bar.mk ex symbol margin tf startMS endMS startTS endTS _ _ _ _ aO aH aL aC prev chg amp _ unit quote
         aQ qunit _ count tick final _ _ updated := b in
  Bar.mk ex symbol margin tf startMS endMS startTS endTS o h l c aO aH aL aC prev chg amp v unit quote
         aQ qunit cv count tick final source reason updated.

(** [1e-8]. *)
Definition minute_tolerance : float64 := Eval vm_compute in f64_of_Q 1 100000000.

(** The test of one pair: [math.Abs(a-b) > math.Max(1e-8, math.Abs(b)*1e-8)]. *)
Definition minute_value_differs (local official : float64) : bool :=
  f64_gtb (f64_abs (f64_sub local official))
          (f64_max minute_tolerance (f64_mul (f64_abs official) minute_tolerance)).

Definition SameOfficialMinuteValues (local official : Bar) : bool :=
  if negb local.(Bar.IsFinal) || negb official.(Bar.IsFinal)
     || negb (local.(Bar.EndMS) =? official.(Bar.EndMS)) then false
  else if existsb (fun '(a, b) => minute_value_differs a b)
            [(local.(Bar.OpenPrice), official.(Bar.OpenPrice));
             (local.(Bar.HighPrice), official.(Bar.HighPrice));
             (local.(Bar.LowPrice), official.(Bar.LowPrice));
             (local.(Bar.ClosePrice), official.(Bar.ClosePrice));
             (local.(Bar.Volume), official.(Bar.Volume));
             (local.(Bar.QuoteVolume), official.(Bar.QuoteVolume));
             (local.(Bar.ContractVolume), official.(Bar.ContractVolume))] then false
  else negb (OfficialTradeCountAvailable official)
       || (local.(Bar.TradeCount) =? official.(Bar.TradeCount)).

(** ** Facts *)

Lemma DecorateBar_idem b : DecorateBar (DecorateBar b) = DecorateBar b.
Proof. reflexivity. Qed.

(** The fields [DecorateBar] leaves alone. *)
Lemma DecorateBar_StartMS b : (DecorateBar b).(Bar.StartMS) = b.(Bar.StartMS).
Proof. reflexivity. Qed.
Lemma DecorateBar_EndMS b : (DecorateBar b).(Bar.EndMS) = b.(Bar.EndMS).
Proof. reflexivity. Qed.
Lemma DecorateBar_IsFinal b : (DecorateBar b).(Bar.IsFinal) = b.(Bar.IsFinal).
Proof. reflexivity. Qed.
Lemma DecorateBar_Timeframe b : (DecorateBar b).(Bar.Timeframe) = b.(Bar.Timeframe).
Proof. reflexivity. Qed.
Lemma DecorateBar_Exchange b : (DecorateBar b).(Bar.Exchange) = b.(Bar.Exchange).
Proof. reflexivity. Qed.
Lemma DecorateBar_Symbol b : (DecorateBar b).(Bar.Symbol) = b.(Bar.Symbol).
Proof. reflexivity. Qed.

#[export] Hint Rewrite DecorateBar_idem DecorateBar_StartMS DecorateBar_EndMS DecorateBar_IsFinal
  DecorateBar_Timeframe DecorateBar_Exchange DecorateBar_Symbol : go_bars.

(** The comparison of minutes looks at the bars only through fields that
    [DecorateBar] keeps. *)
Lemma SameOfficialMinuteValues_decorate a b :
  SameOfficialMinuteValues (DecorateBar a) b = SameOfficialMinuteValues a b ∧
  SameOfficialMinuteValues a (DecorateBar b) = SameOfficialMinuteValues a b.
Proof. split; reflexivity. Qed.
