(* ===== verification/ExchangeParse.v ===== *)
(** * Exchange adapters: values, symbols and messages (internal/exchange)

    parse.go, and from binance.go and okx.go the adapters, the currencies and
    margin types of a symbol, the subscription requests and the messages of the
    WebSocket streams.  A message is its payload and the document decoded from it;
    the clock reading is an argument. *)

From S2P Require Export GoJSON Exchange Market.
From Stdlib Require Import Ascii.

Local Open Scope string_scope.
Local Open Scope Z_scope.
Local Open Scope list_scope.

(** ** Values (parse.go) *)

Definition stringValue (value : any) : string :=
  match value with
  | AnyNil => ""
  | AnyString s => s
  | AnyFloat f => FormatFloat f
  | AnyInt z => pretty z
  | AnyNumber text => text
  | _ => Sprint value
  end.

Definition parseFloat (value : string) : float64 := fst (ParseFloat (TrimSpace value)).
Definition parseInt (value : string) : Z := fst (ParseInt (TrimSpace value)).
Definition floatValue (value : any) : float64 := parseFloat (stringValue value).
Definition intValue (value : any) : Z := parseInt (stringValue value).

Definition firstNonEmpty (values : list any) : any :=
  default AnyNil (List.find (fun value => negb (bool_decide (TrimSpace (stringValue value) = ""))) values).

(** ** The Binance adapter *)

Module BinanceFuturesAdapter.
Record BinanceFuturesAdapter : Type := mk { marketType : string; restURL : string; wsURL : string }.
End BinanceFuturesAdapter.
Notation BinanceFuturesAdapter := BinanceFuturesAdapter.BinanceFuturesAdapter.

Definition NewBinanceFuturesAdapter (marketType restURL wsURL : string) : BinanceFuturesAdapter :=
  BinanceFuturesAdapter.mk (TrimSpace marketType) (TrimRight (TrimSpace restURL) "/"%char) (TrimSpace wsURL).

Definition binance_name : string := "binance".

Definition marginType (a : BinanceFuturesAdapter) : string :=
  let value := ToLower (TrimSpace a.(BinanceFuturesAdapter.marketType)) in
  if bool_decide (value ∈ ["coin_futures"; "coin_margined"; "coinmargin"; "coin-m"; "cm_futures"])
  then "coinmargin" else "umargin".

Definition quotes : list string := ["USDT"; "USDC"; "BUSD"; "FDUSD"; "USD"].

(** [HasSuffix(symbol, quote) && len(symbol) > len(quote)]. *)
Definition quoted_in (symbol quote : string) : bool :=
  HasSuffix symbol quote && (String.length quote <? String.length symbol)%nat.

(** Base and quote currency of a symbol. *)
Definition binanceSymbolCurrencies (symbol marginType : string) : string * string :=
  let symbol := ToUpper (TrimSpace symbol) in
  if bool_decide (marginType = "coinmargin") then
    match String.index 0 "USD" symbol with
    | Some (S _ as index) => (String.substring 0 index symbol, "USD")
    | _ => (symbol, "USD")
    end
  else
    match List.find (quoted_in symbol) quotes with
    | Some quote => (TrimSuffix symbol quote, quote)
    | None => (symbol, "")
    end.

(** Streams of a static connection, or of a subscription. *)
Definition stream_names (symbols : list string) : list string :=
  (fun symbol => (symbol ++ "@kline_1m")%string)
    <$> List.filter (fun symbol => negb (bool_decide (symbol = ""))) ((fun s => ToLower (TrimSpace s)) <$> symbols).

Definition staticKlineStreamBaseURL (a : BinanceFuturesAdapter) : string :=
  let base := TrimRight (TrimSpace a.(BinanceFuturesAdapter.wsURL)) "/"%char in
  let base :=
    if bool_decide (base = "") then
      if bool_decide (marginType a = "coinmargin") then "wss://dstream.binance.com/ws"
      else "wss://fstream.binance.com/market"
    else base in
  if bool_decide (marginType a = "umargin") then
    let base := foldl TrimSuffix base ["/ws"; "/stream"; "/public"; "/public/ws"; "/public/stream"] in
    let base := if HasSuffix base "/market" then base else (base ++ "/market")%string in
    (base ++ "/stream")%string
  else if HasSuffix base "/ws" then (TrimSuffix base "/ws" ++ "/stream")%string
  else if HasSuffix base "/stream" then base
  else (base ++ "/stream")%string.

Definition StaticStreamURL (a : BinanceFuturesAdapter) (symbols : list string) : string :=
  (staticKlineStreamBaseURL a ++ "?streams=" ++ String.concat "/" (stream_names symbols))%string.

(** The subscription request, before json.Marshal. *)
Definition binance_subscription (method : string) (symbols : list string) (requestID : Z) : any :=
  AnyMap [("method", AnyString method); ("params", AnyList (AnyString <$> stream_names symbols));
          ("id", AnyInt requestID)].

(** Volumes in the units of the margin type: contracts for coin margin, where the
    quote volume is in the base currency. *)
Definition binance_units (marginType symbol : string) (volume : float64) : string * string * float64 :=
  let '(base, quote) := binanceSymbolCurrencies symbol marginType in
  if bool_decide (marginType = "coinmargin") then ("contract", base, volume) else (base, quote, f64_zero).

(** [m["key"].(bool)]: the value if it is a bool. *)
Definition bool_of (v : any) : bool := match v with AnyBool b => b | _ => false end.
Definition map_of (v : any) : option (list (string * any)) := match v with AnyMap m => Some m | _ => None end.

Definition binance_tick (payload : string) (data : list (string * any)) (now : Z) : list Tick :=
  let eventType := ToLower (stringValue (map_entry data "e")) in
  if negb (bool_decide (eventType = "trade")) && negb (bool_decide (eventType = "aggtrade")) then []
  else
    let symbol := ToUpper (stringValue (map_entry data "s")) in
    let price := floatValue (map_entry data "p") in
    let size := floatValue (map_entry data "q") in
    let tsMS := intValue (map_entry data "T") in
    let tsMS := if tsMS =? 0 then intValue (map_entry data "E") else tsMS in
    if bool_decide (symbol = "") || f64_leb price f64_zero || (tsMS <=? 0) then []
    else
      let side := if bool_of (map_entry data "m") then "sell" else "buy" in
      [Tick.mk binance_name symbol tsMS price size side
         (stringValue (firstNonEmpty [map_entry data "a"; map_entry data "t"])) eventType "ws" now payload].

Definition binance_ParseMessage (payload : string) (doc : result go_error any) (now : Z) : result go_error (list Tick) :=
  match doc with
  | Err e => Err e
  | Ok doc =>
      match as_map doc with
      | Err e => Err e
      | Ok data => Ok (binance_tick payload data now)
      end
  end.

(** The candle of a kline event. *)
Definition binance_kline (a : BinanceFuturesAdapter) (data kline : list (string * any)) (now : Z) : list Bar :=
  let symbol := ToUpper (stringValue (firstNonEmpty [map_entry kline "s"; map_entry data "s"])) in
  let startMS := intValue (map_entry kline "t") in
  let endMS := intValue (map_entry kline "T") in
  let open := floatValue (map_entry kline "o") in
  let high := floatValue (map_entry kline "h") in
  let low := floatValue (map_entry kline "l") in
  let closePrice := floatValue (map_entry kline "c") in
  if bool_decide (symbol = "") || (startMS <=? 0) || (endMS <=? 0) || f64_leb open f64_zero || f64_leb high f64_zero
     || f64_leb low f64_zero || f64_leb closePrice f64_zero then []
  else
    let volume := floatValue (map_entry kline "v") in
    let quoteVolume := floatValue (map_entry kline "q") in
    let '(volumeUnit, quoteUnit, contractVolume) := binance_units (marginType a) symbol volume in
    let isFinal := bool_of (map_entry kline "x") in
    [DecorateBar
       (Bar.mk binance_name symbol (marginType a) "1m" startMS endMS 0 0 open high low closePrice
          f64_zero f64_zero f64_zero f64_zero f64_zero f64_zero f64_zero volume volumeUnit quoteVolume f64_zero
          quoteUnit contractVolume (intValue (map_entry kline "n"))
          (intValue (firstNonEmpty [map_entry data "E"; AnyInt endMS])) isFinal "exchange_kline"
          (if isFinal then "final" else "update") now)].

Definition binance_ParseKlineMessage (a : BinanceFuturesAdapter) (doc : result go_error any) (now : Z)
    : result go_error (list Bar) :=
  match doc with
  | Err e => Err e
  | Ok doc =>
      match as_map doc with
      | Err e => Err e
      | Ok root =>
          if negb (bool_decide (stringValue (map_entry root "code") = ""))
          then Err (Errorf "binance websocket error code=%s msg=%s")
          else
            let data := default root (map_of (map_entry root "data")) in
            if negb (bool_decide (ToLower (stringValue (map_entry data "e")) = "kline")) then Ok []
            else
              match map_of (map_entry data "k") with
              | None => Ok []
              | Some kline => Ok (binance_kline a data kline now)
              end
      end
  end.

(** ** The OKX adapter *)

Module okxInstrumentSpec.
Record okxInstrumentSpec : Type := mk {
  baseCcy : string; quoteCcy : string; settleCcy : string; ctVal : float64; ctValCcy : string }.
Definition zero : okxInstrumentSpec := mk "" "" "" f64_zero "".
End okxInstrumentSpec.
Notation okxInstrumentSpec := okxInstrumentSpec.okxInstrumentSpec.

Module OKXAdapter.
Record OKXAdapter : Type := mk {
  instType : string; restURL : string; wsURL : string; specs : gmap string okxInstrumentSpec }.
End OKXAdapter.
Notation OKXAdapter := OKXAdapter.OKXAdapter.

Definition NewOKXAdapter (instType restURL wsURL : string) : OKXAdapter :=
  OKXAdapter.mk (ToUpper (TrimSpace instType)) (TrimRight (TrimSpace restURL) "/"%char) (TrimSpace wsURL) ∅.

Definition okx_name : string := "okx".

Definition replaceInstrumentSpecs (specs : gmap string okxInstrumentSpec) (a : OKXAdapter) : OKXAdapter :=
  OKXAdapter.mk a.(OKXAdapter.instType) a.(OKXAdapter.restURL) a.(OKXAdapter.wsURL) specs.

Definition instrumentSpec (a : OKXAdapter) (symbol : string) : option okxInstrumentSpec :=
  a.(OKXAdapter.specs) !! ToUpper (TrimSpace symbol).

Definition inferOKXSymbolCurrencies (symbol : string) : string * string :=
  match split_on "-"%char (ToUpper (TrimSpace symbol)) with
  | base :: quote :: _ => (base, quote)
  | _ => ("", "")
  end.

Definition or_text (s fallback : string) : string := if bool_decide (s = "") then fallback else s.

(** Base and quote of a symbol, those of its specification first. *)
Definition okx_currencies (symbol : string) (spec : option okxInstrumentSpec) : string * string :=
  let '(base, quote) := inferOKXSymbolCurrencies symbol in
  match spec with
  | Some spec => (or_text spec.(okxInstrumentSpec.baseCcy) base, or_text spec.(okxInstrumentSpec.quoteCcy) quote)
  | None => (base, quote)
  end.

Definition okxMarginType (symbol : string) (spec : okxInstrumentSpec) : string :=
  let '(base, quote) := okx_currencies symbol (Some spec) in
  let settle := or_text spec.(okxInstrumentSpec.settleCcy)
                  (match split_on "-"%char (ToUpper (TrimSpace symbol)) with _ :: second :: _ => second | _ => "" end) in
  if bool_decide (quote ∈ ["USDT"; "USDC"]) || bool_decide (settle ∈ ["USDT"; "USDC"]) then "umargin"
  else if bool_decide (quote = "USD") || bool_decide (settle = base) then "coinmargin"
  else "umargin".

(** The size of a trade in the base currency, from its number of contracts. *)
Definition normalizeTradeSize (a : OKXAdapter) (symbol : string) (price size : float64) : float64 :=
  if f64_leb size f64_zero then size
  else
    match instrumentSpec a symbol with
    | None => size
    | Some spec =>
        if f64_leb spec.(okxInstrumentSpec.ctVal) f64_zero || bool_decide (spec.(okxInstrumentSpec.ctValCcy) = "")
        then size
        else
          let '(baseCcy, quoteCcy) :=
            if bool_decide (spec.(okxInstrumentSpec.baseCcy) = "") || bool_decide (spec.(okxInstrumentSpec.quoteCcy) = "")
            then inferOKXSymbolCurrencies symbol
            else (spec.(okxInstrumentSpec.baseCcy), spec.(okxInstrumentSpec.quoteCcy)) in
          let contractValue := f64_mul size spec.(okxInstrumentSpec.ctVal) in
          if bool_decide (spec.(okxInstrumentSpec.ctValCcy) = baseCcy) then contractValue
          else if f64_gtb price f64_zero
                  && (bool_decide (spec.(okxInstrumentSpec.ctValCcy) = quoteCcy)
                      || bool_decide (spec.(okxInstrumentSpec.ctValCcy) = spec.(okxInstrumentSpec.settleCcy)))
          then f64_div contractValue price
          else size
    end.

(** The subscription request, before json.Marshal. *)
Definition okx_subscription (op : string) (symbols : list string) (requestID : Z) : any :=
  AnyMap [("op", AnyString op);
          ("args", AnyList ((fun symbol => AnyMap [("channel", AnyString "candle1m"); ("instId", AnyString symbol)])
             <$> List.filter (fun symbol => negb (bool_decide (symbol = ""))) ((fun s => ToUpper (TrimSpace s)) <$> symbols)));
          ("id", AnyInt requestID)].

(** The fields of a message; [InstID] and [Data] before their types are looked at. *)
Module OKXMessage.
Record OKXMessage : Type := mk { Event : string; Channel : string; InstID : any; Data : any }.
End OKXMessage.
Notation OKXMessage := OKXMessage.OKXMessage.

Definition okx_message (doc : any) : result go_error OKXMessage :=
  match as_struct doc with
  | Err e => Err e
  | Ok root =>
      match as_string (struct_field root "event"), as_struct (struct_field root "arg") with
      | Ok event, Ok arg =>
          match as_string (struct_field arg "channel") with
          | Ok channel => Ok (OKXMessage.mk event channel (struct_field arg "instId") (struct_field root "data"))
          | Err e => Err e
          end
      | Err e, _ | _, Err e => Err e
      end
  end.

(** A trade: instId, px, sz, side, tradeId, ts. *)
Definition okx_trade (v : any) : result go_error (list string) :=
  match as_struct v with
  | Err e => Err e
  | Ok item => all_ok (fun name => as_string (struct_field item name)) ["instId"; "px"; "sz"; "side"; "tradeId"; "ts"]
  end.

Definition okx_tick (a : OKXAdapter) (payload : string) (now : Z) (item : list string) : option Tick :=
  match item with
  | [instID; px; sz; side; tradeID; ts] =>
      let symbol := ToUpper (TrimSpace instID) in
      let price := parseFloat px in
      let size := normalizeTradeSize a symbol price (parseFloat sz) in
      let tsMS := parseInt ts in
      if bool_decide (symbol = "") || f64_leb price f64_zero || (tsMS <=? 0) then None
      else Some (Tick.mk okx_name symbol tsMS price size side tradeID "trades" "ws" now payload)
  | _ => None
  end.

Definition okx_ParseMessage (a : OKXAdapter) (payload : string) (doc : result go_error any) (now : Z)
    : result go_error (list Tick) :=
  match doc with
  | Err e => Err e
  | Ok doc =>
      match okx_message doc with
      | Err e => Err e
      | Ok message =>
          match as_slice okx_trade message.(OKXMessage.Data) with
          | Err e => Err e
          | Ok items =>
              if negb (bool_decide (message.(OKXMessage.Event) = ""))
                 || negb (bool_decide (ToLower message.(OKXMessage.Channel) = "trades")) then Ok []
              else Ok (omap (okx_tick a payload now) items)
          end
      end
  end.

(** Volumes of an OKX row in the units of the margin type: volume, its unit, quote
    volume, its unit. *)
Definition okx_units (marginType base quote : string) (contractVolume volumeBase quoteVolume : float64)
    : float64 * string * float64 * string :=
  if bool_decide (marginType = "coinmargin") then (contractVolume, "contract", volumeBase, base)
  else (volumeBase, base, quoteVolume, quote).

Definition okx_kline (a : OKXAdapter) (symbol : string) (now : Z) (row : list string) : option Bar :=
  match row with
  | ts :: o :: h :: l :: c :: vol :: volCcy :: volQuote :: confirm :: _ =>
      let startMS := parseInt ts in
      let open := parseFloat o in
      let high := parseFloat h in
      let low := parseFloat l in
      let closePrice := parseFloat c in
      if (startMS <=? 0) || f64_leb open f64_zero || f64_leb high f64_zero || f64_leb low f64_zero
         || f64_leb closePrice f64_zero then None
      else
        let spec := instrumentSpec a symbol in
        let '(base, quote) := okx_currencies symbol spec in
        let marginType := okxMarginType symbol (default okxInstrumentSpec.zero spec) in
        let contractVolume := parseFloat vol in
        let '(volume, volumeUnit, quoteVolume, quoteUnit) :=
          okx_units marginType base quote contractVolume (parseFloat volCcy) (parseFloat volQuote) in
        let isFinal := bool_decide (TrimSpace confirm = "1") in
        let endMS := i64 (startMS + 60000 - 1) in
        Some (DecorateBar
          (Bar.mk okx_name symbol marginType "1m" startMS endMS 0 0 open high low closePrice
             f64_zero f64_zero f64_zero f64_zero f64_zero f64_zero f64_zero volume volumeUnit quoteVolume f64_zero
             quoteUnit contractVolume 0 endMS isFinal "exchange_kline" (if isFinal then "final" else "update") now))
  | _ => None
  end.

Definition okx_ParseKlineMessage (a : OKXAdapter) (doc : result go_error any) (now : Z) : result go_error (list Bar) :=
  match doc with
  | Err e => Err e
  | Ok doc =>
      match okx_message doc with
      | Err e => Err e
      | Ok message =>
          match as_slice (as_slice as_string) message.(OKXMessage.Data), as_string message.(OKXMessage.InstID) with
          | Err e, _ | _, Err e => Err e
          | Ok rows, Ok instID =>
              let channel := ToLower (TrimSpace message.(OKXMessage.Channel)) in
              let symbol := ToUpper (TrimSpace instID) in
              if negb (bool_decide (message.(OKXMessage.Event) = "")) || negb (HasPrefix channel "candle")
                 || bool_decide (symbol = "") then Ok []
              else Ok (omap (okx_kline a symbol now) rows)
          end
      end
  end.
