(* ===== verification/RestKline.v ===== *)
(** * REST candles and symbols of the exchanges (internal/exchange)

    rest_kline.go, and the FetchSymbols of binance.go and okx.go, as programs over
    [exchangeE]: HTTP requests, the clock and the pauses.  A request is its URL with
    the parameters of its query; the answer is the status and the document decoded
    from the body (or the decoder's error).  That url.Parse and NewRequest accept
    the URL is part of the request succeeding. *)

From S2P Require Export ExchangeParse Effects Timeframe.

Local Open Scope string_scope.
Local Open Scope Z_scope.
Local Open Scope list_scope.

(** ** Calls *)

Module Response.
Record Response : Type := mk { StatusCode : Z; Body : result go_error any }.
End Response.
Notation Response := Response.Response.

Inductive exchangeE : Type → Type :=
| Now : exchangeE Z
| Do (url : string) (query : list (string * string)) : exchangeE (result go_error Response)
| Sleep (delay : Z) : exchangeE (option go_error)
| Diverge : exchangeE Empty_set.

Notation eprog := (prog exchangeE).

Local Open Scope prog_scope.

Definition binanceMaxKlineLimit : Z := 1500.
Definition okxRecentKlineLimit : Z := 300.
Definition okxHistoryKlineLimit : Z := 100.
Definition defaultKlineLimit : Z := 300.

Definition ParseKlineAdjustment (value : string) : result go_error string :=
  let v := ToLower (TrimSpace value) in
  if bool_decide (v = "") || bool_decide (v = KlineAdjustmentRaw) then Ok KlineAdjustmentRaw
  else if bool_decide (v = KlineAdjustmentForward) then Ok KlineAdjustmentForward
  else if bool_decide (v = KlineAdjustmentAuto) then Ok KlineAdjustmentAuto
  else Err (Errorf "unsupported kline adjustment %q").

(** ** Requests *)

(** In nanoseconds; the error is that of the context. *)
Definition waitKlinePage (delay : Z) : eprog (option go_error) :=
  if delay <=? 0 then Ret None else trigger (Sleep delay).

Definition attempts : nat := 4.
Definition StatusTooManyRequests : Z := 429.
Definition StatusInternalServerError : Z := 500.
Definition transient (status : Z) : bool := (status =? StatusTooManyRequests) || (StatusInternalServerError <=? status).

(** The loop from attempt number [attempt], with [more] left after it. *)
Fixpoint get_loop (attempt : Z) (more : nat) (url : string) (query : list (string * string))
    : eprog (result go_error Response) :=
  resp <- trigger (Do url query) ;;
  match resp with
  | Err e => Ret (Err e)
  | Ok resp =>
      match more with
      | O => Ret (Ok resp)
      | S more =>
          if negb (transient resp.(Response.StatusCode)) then Ret (Ok resp)
          else
            err <- waitKlinePage (i64 (Z.shiftl 1 attempt * 250000000)) ;;
            match err with
            | Some e => Ret (Err e)
            | None => get_loop (attempt + 1) more url query
            end
      end
  end.

Definition doKlineGET (url : string) (query : list (string * string)) : eprog (result go_error Response) :=
  get_loop 0 (pred attempts) url query.

Definition success (status : Z) : bool := negb ((status <? 200) || (300 <=? status)).

(** ** Activity fields *)

Definition klineActivityNumber (raw : any) : string * bool :=
  match raw with
  | AnyString value => (TrimSpace value, true)
  | AnyNumber text => (text, true)
  | _ => ("", false)
  end.

(** A digit or one of [.eE+-]. *)
Definition decimal_char (c : Ascii.ascii) : bool :=
  is_digit (byte_of c) || existsb (Ascii.eqb c) (String.list_ascii_of_string ".eE+-").

Definition parseKlineActivityFloat (raw : any) : result go_error float64 :=
  let '(value, ok) := klineActivityNumber raw in
  let '(parsed, fits) := ParseFloat value in
  let ok := ok && forallb decimal_char (String.list_ascii_of_string value) in
  let mantissa := before_any value "eE" in
  let ok := if f64_eqb parsed f64_zero && ContainsAny mantissa "123456789" then false else ok in
  if negb ok || negb fits || f64_is_nan parsed || f64_is_inf parsed || f64_ltb parsed f64_zero
  then Err (Errorf "invalid %s REST candle activity %s for %s %s: expected a finite nonnegative number")
  else Ok parsed.

Definition parseKlineTradeCount (raw : any) : result go_error Z :=
  let '(value, ok) := klineActivityNumber raw in
  let '(parsed, fits) := ParseInt value in
  if negb ok || negb fits || (parsed <? 0)
  then Err (Errorf "invalid %s REST candle activity trade_count for %s %s: expected a nonnegative int64")
  else Ok parsed.

(** ** Intervals *)

Definition unsupported_interval (e : tf_error) : go_error :=
  Joined ErrUnsupportedKlineInterval (tf_go_error e).

Definition binance_intervals : list (string * string) :=
  [("1m", "1m"); ("5m", "5m"); ("15m", "15m"); ("30m", "30m"); ("1H", "1h"); ("2H", "2h"); ("4H", "4h"); ("6H", "6h");
   ("12H", "12h"); ("1D", "1d"); ("1W", "1w"); ("1M", "1M")].
Definition okx_intervals : list (string * string) :=
  [("1m", "1m"); ("5m", "5m"); ("15m", "15m"); ("30m", "30m"); ("1H", "1H"); ("2H", "2H"); ("4H", "4H"); ("6H", "6Hutc");
   ("12H", "12Hutc"); ("1D", "1Dutc"); ("2D", "2Dutc"); ("1W", "1Wutc"); ("1M", "1Mutc"); ("3M", "3Mutc")].

(** The interval of an exchange for a timeframe, and the timeframe itself. *)
Definition interval_of (exchange : string) (table : list (string * string)) (tf unknown : string)
    : result go_error (Frame * string) :=
  match ValidateForExchange exchange tf with
  | Err e => Err (unsupported_interval e)
  | Ok f =>
      match List.find (fun e => bool_decide (fst e = frame_name f)) table with
      | Some (_, interval) => Ok (f, interval)
      | None => Err (Wrapf unknown ErrUnsupportedKlineInterval)
      end
  end.
Definition binanceKlineInterval (tf : string) : result go_error (Frame * string) :=
  interval_of "binance" binance_intervals tf "%w: binance timeframe %s".
Definition okxKlineBar (tf : string) : result go_error (Frame * string) :=
  interval_of "okx" okx_intervals tf "%w: okx timeframe %s".

(** ** Candles *)

Definition bar_key (bar : Bar) : string := (bar.(Bar.Exchange) ++ bar.(Bar.Symbol) ++ bar.(Bar.Timeframe))%string.
Definition bar_less (l r : Bar) : bool :=
  if l.(Bar.StartMS) =? r.(Bar.StartMS) then string_less (bar_key l) (bar_key r)
  else l.(Bar.StartMS) <? r.(Bar.StartMS).
Definition sortBars (bars : list Bar) : list Bar := sort_slice bar_less bars.

Definition trimBars (bars : list Bar) (limit : Z) : list Bar :=
  if (limit <=? 0) || (Z.of_nat (length bars) <=? limit) then bars
  else drop (Z.to_nat (Z.of_nat (length bars) - limit)) bars.

Definition validOHLC (bar : Bar) : bool :=
  f64_gtb bar.(Bar.OpenPrice) f64_zero && f64_gtb bar.(Bar.HighPrice) f64_zero
  && f64_gtb bar.(Bar.LowPrice) f64_zero && f64_gtb bar.(Bar.ClosePrice) f64_zero.

(** The rows of a page: a row gives a candle, is skipped, or fails the page. *)
Fixpoint page_bars {A} (row_bar : A → result go_error (option Bar)) (rows : list A) : result go_error (list Bar) :=
  match rows with
  | [] => Ok []
  | row :: rest =>
      match row_bar row with
      | Err e => Err e
      | Ok bar =>
          match page_bars row_bar rest with
          | Err e => Err e
          | Ok bars => Ok (option_list bar ++ bars)
          end
      end
  end.

(** A REST candle; only a candle with positive prices is kept. *)
Definition rest_candle (exchange symbol marginType : string) (tf : Frame) (startMS endMS : Z)
    (open high low close volume : float64) (volumeUnit : string) (quoteVolume : float64) (quoteUnit : string)
    (contractVolume : float64) (tradeCount now : Z) : option Bar :=
  let bar := Bar.mk exchange symbol marginType (frame_name tf) startMS endMS 0 0 open high low close
               f64_zero f64_zero f64_zero f64_zero f64_zero f64_zero f64_zero volume volumeUnit quoteVolume f64_zero
               quoteUnit contractVolume tradeCount endMS true "rest" "exchange_kline_backfill" now in
  if validOHLC bar then Some (DecorateBar bar) else None.

Definition in_request (request : KlineRequest) (bar : Bar) : bool :=
  negb ((0 <? request.(KlineRequest.StartMS)) && (bar.(Bar.StartMS) <? request.(KlineRequest.StartMS)))
  && negb ((0 <? request.(KlineRequest.EndMS)) && (request.(KlineRequest.EndMS) <? bar.(Bar.StartMS))).

(** [request] with its symbol normalised. *)
Definition with_symbol (request : KlineRequest) : KlineRequest :=
  KlineRequest.mk (ToUpper (TrimSpace request.(KlineRequest.Symbol))) request.(KlineRequest.Timeframe)
    request.(KlineRequest.StartMS) request.(KlineRequest.EndMS) request.(KlineRequest.Limit)
    request.(KlineRequest.Adjustment) request.(KlineRequest.PageDelay).

(** The candles still wanted: no limit and no start means the default number. *)
Definition wanted (request : KlineRequest) : Z :=
  if (request.(KlineRequest.Limit) <=? 0) && (request.(KlineRequest.StartMS) =? 0) then defaultKlineLimit
  else request.(KlineRequest.Limit).

(** [if remaining > 0 && remaining < pageLimit { pageLimit = remaining }]. *)
Definition page_limit (remaining maximum : Z) : Z :=
  if (0 <? remaining) && (remaining <? maximum) then remaining else maximum.

(** A loop that need not end: 2^64 rounds are more than any run of the code makes. *)
Definition page_loop {A R} (body : A → eprog (A + R)) (a : A) : eprog R :=
  r <- ploop 64 body a ;;
  match r with
  | inr x => Ret x
  | inl _ => x <- trigger Diverge ;; match x : Empty_set with end
  end.

(** ** Binance *)

Definition column (row : list any) (i : nat) : any := default AnyNil (row !! i).

Definition binance_row (a : BinanceFuturesAdapter) (symbol : string) (tf : Frame) (now : Z) (row : list any)
    : result go_error (option Bar) :=
  if (length row <? 9)%nat then Ok None
  else
    let startMS := intValue (column row 0) in
    let closeMS := intValue (column row 6) in
    if (startMS <=? 0) || (closeMS <=? 0) || (now <=? closeMS) then Ok None
    else
      match parseKlineActivityFloat (column row 5) with
      | Err e => Err e
      | Ok volume =>
          match parseKlineActivityFloat (column row 7) with
          | Err e => Err e
          | Ok quoteVolume =>
              match parseKlineTradeCount (column row 8) with
              | Err e => Err e
              | Ok tradeCount =>
                  let '(volumeUnit, quoteUnit, contractVolume) := binance_units (marginType a) symbol volume in
                  Ok (rest_candle binance_name symbol (marginType a) tf startMS closeMS
                        (floatValue (column row 1)) (floatValue (column row 2)) (floatValue (column row 3))
                        (floatValue (column row 4)) volume volumeUnit quoteVolume quoteUnit contractVolume tradeCount now)
              end
          end
      end.

Definition fetchBinanceKlinePage (a : BinanceFuturesAdapter) (url : string) (query : list (string * string))
    (symbol : string) (tf : Frame) : eprog (result go_error (list Bar)) :=
  resp <- doKlineGET url query ;;
  match resp with
  | Err e => Ret (Err e)
  | Ok resp =>
      if negb (success resp.(Response.StatusCode)) then Ret (Err (Errorf "binance klines status %s"))
      else
        match resp.(Response.Body) with
        | Err e => Ret (Err e)
        | Ok body =>
            match as_slice (as_slice Ok) body with
            | Err e => Ret (Err e)
            | Ok rows => now <- trigger Now ;; Ret (page_bars (binance_row a symbol tf now) rows)
            end
        end
  end.

(** What the loop over the pages carries. *)
Module BinancePaging.
Record BinancePaging : Type := mk { all : list Bar; remaining : Z; cursorStart : Z }.
End BinancePaging.
Notation BinancePaging := BinancePaging.BinancePaging.

Definition continuousKlines : string := "/fapi/v1/continuousKlines".

Definition binance_query (path symbolParam symbol interval : string) (pageLimit cursorStart cursorEnd : Z)
    : list (string * string) :=
  [(symbolParam, symbol); ("interval", interval)]
  ++ (if bool_decide (path = continuousKlines) then [("contractType", "TRADIFI_PERPETUAL")] else [])
  ++ [("limit", pretty pageLimit)]
  ++ (if 0 <? cursorStart then [("startTime", pretty cursorStart)] else [])
  ++ (if 0 <? cursorEnd then [("endTime", pretty cursorEnd)] else []).

(** What is done with a page: it was the last one, or the loop goes on. *)
Definition binance_after_page (request : KlineRequest) (tf : Frame) (cursorEnd pageLimit : Z) (st : BinancePaging)
    (page : list Bar) : BinancePaging + list Bar :=
  let all := st.(BinancePaging.all) ++ List.filter (in_request request) page in
  let n := Z.of_nat (length page) in
  match last page with
  | None => inr all
  | Some newest =>
      if request.(KlineRequest.StartMS) =? 0 then inr all
      else
        let counted := 0 <? st.(BinancePaging.remaining) in
        let remaining := if counted then st.(BinancePaging.remaining) - n else st.(BinancePaging.remaining) in
        if counted && (remaining <=? 0) then inr all
        else
          let nextStart := NextStartMS newest.(Bar.StartMS) tf in
          if (cursorEnd <? nextStart) || (nextStart <=? st.(BinancePaging.cursorStart)) then inr all
          else if n <? pageLimit then inr all
          else inl (BinancePaging.mk all remaining nextStart)
  end.

Definition binance_step (a : BinanceFuturesAdapter) (request : KlineRequest) (tf : Frame)
    (path symbolParam interval : string) (cursorEnd : Z) (st : BinancePaging)
    : eprog (BinancePaging + result go_error (list Bar)) :=
  let pageLimit := page_limit st.(BinancePaging.remaining) binanceMaxKlineLimit in
  page <- fetchBinanceKlinePage a (a.(BinanceFuturesAdapter.restURL) ++ path)%string
            (binance_query path symbolParam request.(KlineRequest.Symbol) interval pageLimit
               st.(BinancePaging.cursorStart) cursorEnd)
            request.(KlineRequest.Symbol) tf ;;
  match page with
  | Err e => Ret (inr (Err e))
  | Ok page =>
      match binance_after_page request tf cursorEnd pageLimit st page with
      | inr all => Ret (inr (Ok all))
      | inl st =>
          err <- waitKlinePage request.(KlineRequest.PageDelay) ;;
          Ret (match err with Some e => inr (Err e) | None => inl st end)
      end
  end.

Definition fetchBinanceKlines (a : BinanceFuturesAdapter) (request : KlineRequest) (tf : Frame)
    (path symbolParam interval : string) : eprog (result go_error (list Bar)) :=
  if bool_decide (request.(KlineRequest.Symbol) = "") then Ret (Ok [])
  else
    cursorEnd <- (if request.(KlineRequest.EndMS) <=? 0
                  then now <- trigger Now ;; Ret (i64 (FloorStartMS now tf - 1))
                  else Ret request.(KlineRequest.EndMS)) ;;
    all <- page_loop (binance_step a request tf path symbolParam interval cursorEnd)
             (BinancePaging.mk [] (wanted request) request.(KlineRequest.StartMS)) ;;
    Ret (match all with
         | Err e => Err e
         | Ok all => Ok (trimBars (sortBars all) request.(KlineRequest.Limit))
         end).

Definition binance_path (a : BinanceFuturesAdapter) (resource : string) : string :=
  if bool_decide (a.(BinanceFuturesAdapter.marketType) = "") || EqualFold a.(BinanceFuturesAdapter.marketType) "um_futures"
  then ("/fapi/v1/" ++ resource)%string
  else if bool_decide (marginType a = "coinmargin") then ("/dapi/v1/" ++ resource)%string
  else ("/api/v3/" ++ resource)%string.

Definition binance_FetchKlines (a : BinanceFuturesAdapter) (request : KlineRequest)
    : eprog (result go_error (list Bar)) :=
  match binanceKlineInterval request.(KlineRequest.Timeframe) with
  | Err e => Ret (Err e)
  | Ok (tf, interval) => fetchBinanceKlines a (with_symbol request) tf (binance_path a "klines") "symbol" interval
  end.

Definition FetchContinuousKlines (a : BinanceFuturesAdapter) (request : KlineRequest)
    : eprog (result go_error (list Bar)) :=
  match binanceKlineInterval request.(KlineRequest.Timeframe) with
  | Err e => Ret (Err e)
  | Ok (tf, interval) =>
      if negb (EqualFold a.(BinanceFuturesAdapter.marketType) "um_futures")
         && negb (bool_decide (a.(BinanceFuturesAdapter.marketType) = ""))
      then Ret (Err (Wrapf "%w: Binance continuous TRADIFI_PERPETUAL requires um_futures" ErrUnsupportedKlineInterval))
      else fetchBinanceKlines a (with_symbol request) tf continuousKlines "pair" interval
  end.

(** ** OKX *)

Definition okx_forward (adjustment : string) : bool :=
  bool_decide (adjustment ∈ [KlineAdjustmentForward; KlineAdjustmentAuto]).

Definition okx_row (a : OKXAdapter) (symbol : string) (tf : Frame) (now : Z) (row : list string)
    : result go_error (option Bar) :=
  match row with
  | ts :: o :: h :: l :: c :: vol :: volCcy :: volQuote :: confirm :: _ =>
      if negb (bool_decide (confirm = "1")) then Ok None
      else
        let startMS := parseInt ts in
        let endMS := EndMS startMS tf in
        if (startMS <=? 0) || (now <=? endMS) then Ok None
        else
          match parseKlineActivityFloat (AnyString vol) with
          | Err e => Err e
          | Ok contractVolume =>
              match parseKlineActivityFloat (AnyString volCcy) with
              | Err e => Err e
              | Ok volumeBase =>
                  match parseKlineActivityFloat (AnyString volQuote) with
                  | Err e => Err e
                  | Ok quoteVolume =>
                      let spec := instrumentSpec a symbol in
                      let '(base, quote) := okx_currencies symbol spec in
                      let marginType := okxMarginType symbol (default okxInstrumentSpec.zero spec) in
                      let '(volume, volumeUnit, quoteVolume, quoteUnit) :=
                        okx_units marginType base quote contractVolume volumeBase quoteVolume in
                      Ok (rest_candle okx_name symbol marginType tf startMS endMS (parseFloat o) (parseFloat h)
                            (parseFloat l) (parseFloat c) volume volumeUnit quoteVolume quoteUnit contractVolume 0 now)
                  end
              end
          end
  | _ => Ok None
  end.

(** Code, Msg and Data of the answer. *)
Definition okx_payload (doc : any) : result go_error (string * string * list (list string)) :=
  match as_struct doc with
  | Err e => Err e
  | Ok root =>
      match as_string (struct_field root "code"), as_string (struct_field root "msg"),
            as_slice (as_slice as_string) (struct_field root "data") with
      | Ok code, Ok msg, Ok data => Ok (code, msg, data)
      | Err e, _, _ | _, Err e, _ | _, _, Err e => Err e
      end
  end.

Definition okx_decoded (body : result go_error any) : result go_error (string * string * list (list string)) :=
  match body with
  | Ok doc => match okx_payload doc with
              | Ok payload => Ok payload
              | Err e => Err (Wrapf "okx candles payload for %s %s (activity fields contract_volume, volume, quote_volume): %w" e)
              end
  | Err e => Err (Wrapf "okx candles payload for %s %s (activity fields contract_volume, volume, quote_volume): %w" e)
  end.

Definition okx_query (symbol bar adjustment : string) (after limit : Z) : list (string * string) :=
  [("instId", symbol); ("bar", bar); ("limit", pretty limit)]
  ++ (if okx_forward adjustment then [("adjust", "forward")] else [])
  ++ (if 0 <? after then [("after", pretty after)] else []).

(** An error code: of the adjustment, or any other. *)
Definition okx_code_error (adjustment msg : string) : go_error :=
  if okx_forward adjustment && Contains (ToLower msg) "adjust"
  then Wrapf "%w: okx code=%s msg=%s path=%s" ErrUnsupportedKlineAdjustment
  else Errorf "okx candles code=%s msg=%s path=%s".

Definition fetchOKXKlinePage (a : OKXAdapter) (endpointPath symbol : string) (tf : Frame) (bar : string)
    (after limit : Z) (adjustment : string) : eprog (result go_error (list Bar)) :=
  resp <- doKlineGET (a.(OKXAdapter.restURL) ++ endpointPath)%string (okx_query symbol bar adjustment after limit) ;;
  match resp with
  | Err e => Ret (Err e)
  | Ok resp =>
      if negb (success resp.(Response.StatusCode)) then Ret (Err (Errorf "okx candles status %s path=%s"))
      else
        match okx_decoded resp.(Response.Body) with
        | Err e => Ret (Err e)
        | Ok (code, msg, data) =>
            if negb (bool_decide (code = "")) && negb (bool_decide (code = "0"))
            then Ret (Err (okx_code_error adjustment msg))
            else
              now <- trigger Now ;;
              Ret (match page_bars (okx_row a symbol tf now) data with
                   | Err e => Err e
                   | Ok bars => Ok (sortBars bars)
                   end)
        end
  end.

Module OKXPaging.
Record OKXPaging : Type := mk {
  all : list Bar; seen : gset Z; remaining : Z; after : Z; useRecentEndpoint : bool; adjustment : string }.
End OKXPaging.
Notation OKXPaging := OKXPaging.OKXPaging.

Definition history_candles : string := "/api/v5/market/history-candles".
Definition recent_candles : string := "/api/v5/market/candles".

(** The candles of a page that are in the request and new. *)
Definition okx_accept (request : KlineRequest) (acc : list Bar * gset Z) (item : Bar) : list Bar * gset Z :=
  let '(all, seen) := acc in
  if in_request request item && negb (bool_decide (item.(Bar.StartMS) ∈ seen))
  then (all ++ [item], {[item.(Bar.StartMS)]} ∪ seen) else acc.

Definition oldest_start (first : Bar) (page : list Bar) : Z :=
  foldl (fun oldest item => if item.(Bar.StartMS) <? oldest then item.(Bar.StartMS) else oldest) first.(Bar.StartMS) page.

Definition okx_after_page (request : KlineRequest) (recent : bool) (adjustment : string) (st : OKXPaging)
    (page : list Bar) : OKXPaging + list Bar :=
  match page with
  | [] =>
      if recent
      then inl (OKXPaging.mk st.(OKXPaging.all) st.(OKXPaging.seen) st.(OKXPaging.remaining) st.(OKXPaging.after) false adjustment)
      else inr st.(OKXPaging.all)
  | first :: _ =>
      let oldest := oldest_start first page in
      let '(all, seen) := foldl (okx_accept request) (st.(OKXPaging.all), st.(OKXPaging.seen)) page in
      let accepted := Z.of_nat (length all) - Z.of_nat (length st.(OKXPaging.all)) in
      let counted := 0 <? st.(OKXPaging.remaining) in
      let remaining := if counted then st.(OKXPaging.remaining) - accepted else st.(OKXPaging.remaining) in
      if counted && (remaining <=? 0) then inr all
      else if (0 <? request.(KlineRequest.StartMS)) && (oldest <=? request.(KlineRequest.StartMS)) then inr all
      else if st.(OKXPaging.after) =? oldest then inr all
      else inl (OKXPaging.mk all seen remaining oldest false adjustment)
  end.

Definition okx_step (a : OKXAdapter) (request : KlineRequest) (tf : Frame) (bar : string) (st : OKXPaging)
    : eprog (OKXPaging + result go_error (list Bar)) :=
  let recent := st.(OKXPaging.useRecentEndpoint) && (st.(OKXPaging.after) =? 0) in
  let endpointPath := if recent then recent_candles else history_candles in
  let pageLimit := page_limit st.(OKXPaging.remaining) (if recent then okxRecentKlineLimit else okxHistoryKlineLimit) in
  let fetch := fetchOKXKlinePage a endpointPath request.(KlineRequest.Symbol) tf bar st.(OKXPaging.after) pageLimit in
  page <- fetch st.(OKXPaging.adjustment) ;;
  '(page, adjustment) <-
    (match page with
     | Err e =>
         if errors_Is e ErrUnsupportedKlineAdjustment
            && bool_decide (st.(OKXPaging.adjustment) = KlineAdjustmentAuto)
         then again <- fetch KlineAdjustmentRaw ;; Ret (again, KlineAdjustmentRaw)
         else Ret (page, st.(OKXPaging.adjustment))
     | Ok _ => Ret (page, st.(OKXPaging.adjustment))
     end) ;;
  match page with
  | Err e => Ret (inr (Err e))
  | Ok page =>
      match okx_after_page request recent adjustment st page with
      | inr all => Ret (inr (Ok all))
      | inl next =>
          if bool_decide (page = []) then Ret (inl next)
          else
            err <- waitKlinePage request.(KlineRequest.PageDelay) ;;
            Ret (match err with Some e => inr (Err e) | None => inl next end)
      end
  end.

(** Two buckets past the one of the end, so that its candle is older than [after]. *)
Definition okx_after (request : KlineRequest) (tf : Frame) : Z :=
  if 0 <? request.(KlineRequest.EndMS)
  then NextStartMS (NextStartMS (FloorStartMS request.(KlineRequest.EndMS) tf) tf) tf else 0.

Definition okx_start (request : KlineRequest) (tf : Frame) (adjustment : string) : OKXPaging :=
  OKXPaging.mk [] ∅ (wanted request) (okx_after request tf)
    ((request.(KlineRequest.StartMS) =? 0) && (request.(KlineRequest.EndMS) =? 0)) adjustment.

Definition okx_FetchKlines (a : OKXAdapter) (request : KlineRequest) : eprog (result go_error (list Bar)) :=
  match okxKlineBar request.(KlineRequest.Timeframe) with
  | Err e => Ret (Err e)
  | Ok (tf, bar) =>
      match ParseKlineAdjustment request.(KlineRequest.Adjustment) with
      | Err e => Ret (Err e)
      | Ok adjustment =>
          let request := with_symbol request in
          if bool_decide (request.(KlineRequest.Symbol) = "") then Ret (Ok [])
          else
            all <- page_loop (okx_step a request tf bar) (okx_start request tf adjustment) ;;
            Ret (match all with
                 | Err e => Err e
                 | Ok all => Ok (trimBars (sortBars all) request.(KlineRequest.Limit))
                 end)
      end
  end.

(** ** Symbols *)

Module binanceExchangeInfoSymbol.
Record binanceExchangeInfoSymbol : Type := mk {
  Symbol : string; Status : string; ContractStatus : string; ContractType : string; BaseAsset : string;
  QuoteAsset : string; MarginAsset : string; OnboardDate : Z; DeliveryDate : Z; Raw : string }.
End binanceExchangeInfoSymbol.
Notation binanceExchangeInfoSymbol := binanceExchangeInfoSymbol.binanceExchangeInfoSymbol.

Section symbols.
(** The bytes of a JSON value in the document it was decoded from. *)
Context (raw_text : any → string).

(** One instrument: its fields, and that its symbol and status are there. *)
Definition binance_instrument (raw : any) : result go_error binanceExchangeInfoSymbol :=
  match as_struct raw with
  | Err e => Err e
  | Ok item =>
      match all_ok (fun name => as_string (struct_field item name))
              ["symbol"; "status"; "contractStatus"; "contractType"; "baseAsset"; "quoteAsset"; "marginAsset"],
            as_int64 (struct_field item "onboardDate"), as_int64 (struct_field item "deliveryDate") with
      | Ok [symbol; status; contractStatus; contractType; baseAsset; quoteAsset; marginAsset], Ok onboard, Ok delivery =>
          if bool_decide (TrimSpace symbol = "")
             || bool_decide (TrimSpace (stringValue (firstNonEmpty [AnyString status; AnyString contractStatus])) = "")
          then Err (Errorf "binance exchangeInfo has incomplete instrument")
          else Ok (binanceExchangeInfoSymbol.mk symbol status contractStatus contractType baseAsset quoteAsset
                     marginAsset onboard delivery (raw_text raw))
      | Err e, _, _ | _, Err e, _ | _, _, Err e => Err e
      | _, _, _ => Err UnmarshalTypeError
      end
  end.

Definition fetchExchangeInfo (a : BinanceFuturesAdapter) : eprog (result go_error (list binanceExchangeInfoSymbol)) :=
  resp <- trigger (Do (a.(BinanceFuturesAdapter.restURL) ++ binance_path a "exchangeInfo")%string []) ;;
  Ret (match resp with
       | Err e => Err e
       | Ok resp =>
           if negb (success resp.(Response.StatusCode)) then Err (Errorf "binance exchangeInfo status %s")
           else
             match resp.(Response.Body) with
             | Err e => Err e
             | Ok doc =>
                 match as_struct doc with
                 | Err e => Err e
                 | Ok root =>
                     match as_slice Ok (struct_field root "symbols") with
                     | Err e => Err e
                     | Ok [] => Err (Errorf "binance exchangeInfo returned no instruments")
                     | Ok items => all_ok binance_instrument items
                     end
                 end
             end
       end).

(** 2100-01-01: later delivery dates of perpetuals mean none. *)
Definition no_delivery_ms : Z := 4102444800000.

Definition binance_symbol (a : BinanceFuturesAdapter) (now : Z) (item : binanceExchangeInfoSymbol) : option SymbolInfo :=
  let symbol := ToUpper (TrimSpace item.(binanceExchangeInfoSymbol.Symbol)) in
  if bool_decide (symbol = "") then None
  else
    let status := ToUpper (stringValue (firstNonEmpty
                    [AnyString item.(binanceExchangeInfoSymbol.Status);
                     AnyString item.(binanceExchangeInfoSymbol.ContractStatus)])) in
    let contractType := ToUpper (TrimSpace item.(binanceExchangeInfoSymbol.ContractType)) in
    let isPerpetual := bool_decide (contractType = "PERPETUAL") || bool_decide (contractType = "TRADIFI_PERPETUAL") in
    let expiryMS := item.(binanceExchangeInfoSymbol.DeliveryDate) in
    let expiryMS := if isPerpetual && (no_delivery_ms <=? expiryMS) then 0 else expiryMS in
    Some (SymbolInfo.mk binance_name symbol a.(BinanceFuturesAdapter.marketType) status
            (bool_decide (status = "TRADING") && isPerpetual) now now now (bool_decide (status = "TRADING"))
            contractType item.(binanceExchangeInfoSymbol.BaseAsset) item.(binanceExchangeInfoSymbol.QuoteAsset)
            item.(binanceExchangeInfoSymbol.MarginAsset) item.(binanceExchangeInfoSymbol.OnboardDate) 0 expiryMS
            item.(binanceExchangeInfoSymbol.Raw)).

Definition binance_FetchSymbols (a : BinanceFuturesAdapter) : eprog (result go_error (list SymbolInfo)) :=
  payload <- fetchExchangeInfo a ;;
  match payload with
  | Err e => Ret (Err e)
  | Ok items => now <- trigger Now ;; Ret (Ok (omap (binance_symbol a now) items))
  end.

(** The symbols that Binance can adjust forward; none outside the USD futures. *)
Definition ForwardAdjustmentSymbols (a : BinanceFuturesAdapter) : eprog (result go_error (gset string)) :=
  if negb (EqualFold a.(BinanceFuturesAdapter.marketType) "um_futures") then Ret (Ok ∅)
  else
    payload <- fetchExchangeInfo a ;;
    Ret (match payload with
         | Err e => Err e
         | Ok items =>
             Ok (list_to_set ((fun item => ToUpper (TrimSpace item.(binanceExchangeInfoSymbol.Symbol)))
                   <$> List.filter (fun item => EqualFold (TrimSpace item.(binanceExchangeInfoSymbol.ContractType))
                                                  "TRADIFI_PERPETUAL") items))
         end).

(** One instrument of OKX: the symbol and its specification. *)
Definition okx_instrument (a : OKXAdapter) (now : Z) (raw : any)
    : result go_error (SymbolInfo * okxInstrumentSpec) :=
  match as_struct raw with
  | Err e => Err e
  | Ok item =>
      match all_ok (fun name => as_string (struct_field item name))
              ["instId"; "state"; "ctType"; "baseCcy"; "quoteCcy"; "settleCcy"; "ctVal"; "ctValCcy"; "listTime"; "expTime"] with
      | Ok [instID; state; ctType; base; quote; settle; ctVal; ctValCcy; listTime; expTime] =>
          let symbol := ToUpper (TrimSpace instID) in
          if bool_decide (symbol = "") then Err (Errorf "okx instruments has empty instrument id")
          else if bool_decide (TrimSpace state = "") then Err (Errorf "okx instruments has empty state for %s")
          else
            let baseCcy := ToUpper (TrimSpace base) in
            let quoteCcy := ToUpper (TrimSpace quote) in
            let '(baseCcy, quoteCcy) :=
              if bool_decide (baseCcy = "") || bool_decide (quoteCcy = "") then inferOKXSymbolCurrencies symbol
              else (baseCcy, quoteCcy) in
            let status := ToLower state in
            let contractType := ToLower (TrimSpace ctType) in
            Ok (SymbolInfo.mk okx_name symbol a.(OKXAdapter.instType) status
                  (bool_decide (status = "live") && negb (bool_decide (contractType = "inverse"))) now now now
                  (bool_decide (status = "live")) contractType baseCcy quoteCcy (ToUpper settle)
                  (parseInt listTime) 0 (parseInt expTime) (raw_text raw),
                okxInstrumentSpec.mk baseCcy quoteCcy (ToUpper (TrimSpace settle)) (parseFloat ctVal)
                  (ToUpper (TrimSpace ctValCcy)))
      | Ok _ => Err UnmarshalTypeError
      | Err e => Err e
      end
  end.

Definition okx_instruments (doc : any) : result go_error (list any) :=
  match as_struct doc with
  | Err e => Err e
  | Ok root =>
      match as_string (struct_field root "code"), as_string (struct_field root "msg"),
            as_slice Ok (struct_field root "data") with
      | Ok code, Ok _, Ok data =>
          if negb (bool_decide (code = "0")) then Err (Errorf "okx instruments code %s: %s")
          else match data with [] => Err (Errorf "okx instruments returned no instruments") | _ => Ok data end
      | Err e, _, _ | _, Err e, _ | _, _, Err e => Err e
      end
  end.

(** The symbols and the adapter with their specifications; an error leaves it as it was. *)
Definition okx_FetchSymbols (a : OKXAdapter) : eprog (result go_error (list SymbolInfo) * OKXAdapter) :=
  resp <- trigger (Do (a.(OKXAdapter.restURL) ++ "/api/v5/public/instruments")%string
                     [("instType", a.(OKXAdapter.instType))]) ;;
  match resp with
  | Err e => Ret (Err e, a)
  | Ok resp =>
      if negb (success resp.(Response.StatusCode)) then Ret (Err (Errorf "okx instruments status %s"), a)
      else
        match resp.(Response.Body) with
        | Err e => Ret (Err e, a)
        | Ok doc =>
            match okx_instruments doc with
            | Err e => Ret (Err e, a)
            | Ok data =>
                now <- trigger Now ;;
                Ret (match all_ok (okx_instrument a now) data with
                     | Err e => (Err e, a)
                     | Ok items =>
                         (Ok (fst <$> items),
                          replaceInstrumentSpecs
                            (foldl (fun specs item => <[(fst item).(SymbolInfo.Symbol) := snd item]> specs) ∅ items) a)
                     end)
            end
        end
  end.
End symbols.
