(* ===== verification/RestKlineSpec.v ===== *)
(** * Theorems on the REST candles of the exchanges

    Requests are retried a bounded number of times, the paging of Binance ends
    whatever is answered, what is returned was accepted and lies in the request, and
    against an exchange that answers as its interface says nothing is left out. *)

From S2P Require Export RestKline.

Local Open Scope string_scope.
Local Open Scope Z_scope.
Local Open Scope list_scope.

(** ** Retries *)

(** A transient answer and the pause before attempt number [i + 1]. *)
Definition retried (url : string) (query : list (string * string)) (i : Z) (resp : Response) : list (call exchangeE) :=
  [Call (Do url query) (Ok resp); Call (Sleep (250000000 * 2 ^ i)) None].

Fixpoint retries (url : string) (query : list (string * string)) (i : Z) (resps : list Response)
    : list (call exchangeE) :=
  match resps with
  | [] => []
  | resp :: rest => retried url query i resp ++ retries url query (i + 1) rest
  end.

(** How the last attempt ends: with an error of the transport, with an answer, or
    with the context cancelled during the pause. *)
Inductive ends (url : string) (query : list (string * string)) (i : Z) (final : bool)
    : list (call exchangeE) → result go_error Response → Prop :=
| ends_failed e : ends url query i final [Call (Do url query) (Err e)] (Err e)
| ends_answered resp : transient resp.(Response.StatusCode) = false ∨ final = true →
    ends url query i final [Call (Do url query) (Ok resp)] (Ok resp)
| ends_cancelled resp e : transient resp.(Response.StatusCode) = true → final = false →
    ends url query i final [Call (Do url query) (Ok resp); Call (Sleep (250000000 * 2 ^ i)) (Some e)] (Err e).

Lemma pause_positive i : 0 <= i <= 3 → i64 (Z.shiftl 1 i * 250000000) = 250000000 * 2 ^ i ∧ 0 < 250000000 * 2 ^ i.
Proof.
  intros Hi. rewrite Z.shiftl_1_l. assert (2 ^ i <= 2 ^ 3) by (apply Z.pow_le_mono_r; lia).
  assert (0 < 2 ^ i) by (apply Z.pow_pos_nonneg; lia). change (2 ^ 3) with 8 in *.
  rewrite i64_id by (unfold int64_range, two63; lia). lia.
Qed.

Lemma get_loop_run more attempt url query tr r :
  0 <= attempt → attempt + Z.of_nat more <= 3 → runs (get_loop attempt more url query) tr r →
  ∃ resps last, (length resps <= more)%nat ∧ Forall (fun resp => transient resp.(Response.StatusCode) = true) resps ∧
    tr = retries url query attempt resps ++ last ∧
    ends url query (attempt + Z.of_nat (length resps)) (bool_decide (length resps = more)) last r.
Proof.
  revert attempt tr. induction more as [|more IH]; intros attempt tr H0 H3 Hr; cbn [get_loop] in Hr;
    apply runs_bind in Hr as (tr1 & [resp|e] & tr2 & -> & ->%runs_trigger & Hr).
  - apply runs_Ret in Hr as [-> ->]. exists [], [Call (Do url query) (Ok resp)]. rewrite app_nil_r.
    split_and!; [done|done|done|]. constructor. by right.
  - apply runs_Ret in Hr as [-> ->]. exists [], [Call (Do url query) (Err e)]. rewrite app_nil_r.
    split_and!; [done|done|done|]. constructor.
  - destruct (transient _) eqn:Et; cbn [negb] in Hr.
    + destruct (pause_positive attempt) as [Ep Hp]; [lia|]. unfold waitKlinePage in Hr.
      rewrite Ep in Hr. destruct (250000000 * 2 ^ attempt <=? 0) eqn:El; zbool; [lia|].
      apply runs_bind in Hr as (tr3 & [e|] & tr4 & -> & ->%runs_trigger & Hr).
      * apply runs_Ret in Hr as [-> ->]. eexists [], _. rewrite app_nil_r.
        split_and!; [simpl; lia|done|done|]. replace (attempt + Z.of_nat (length [])) with attempt by (simpl; lia).
        by constructor.
      * apply IH in Hr as (resps & last & Hl & Hf & -> & He); [|lia|lia].
        exists (resp :: resps), last. split_and!; [simpl; lia|by constructor|done|].
        replace (attempt + Z.of_nat (length (resp :: resps))) with (attempt + 1 + Z.of_nat (length resps)) by (simpl; lia).
        rewrite (bool_decide_ext _ (length resps = more)) by (simpl; lia). done.
    + apply runs_Ret in Hr as [-> ->]. exists [], [Call (Do url query) (Ok resp)]. rewrite app_nil_r.
      split_and!; [simpl; lia|done|done|]. constructor. by left.
  - apply runs_Ret in Hr as [-> ->]. exists [], [Call (Do url query) (Err e)]. rewrite app_nil_r.
    split_and!; [simpl; lia|done|done|]. constructor.
Qed.

(** a request for candles is sent at most four times.  Each attempt but the last
    was answered 429 or 5xx and is followed by a pause of 250, 500 or 1000 ms; the
    result is that of the last attempt: its answer, which is transient only when no
    attempt is left, the error of the transport, or that of a context cancelled
    during a pause. *)
Theorem requests_retried url query tr r :
  runs (doKlineGET url query) tr r →
  ∃ resps last, (length resps <= 3)%nat ∧ Forall (fun resp => transient resp.(Response.StatusCode) = true) resps ∧
    tr = retries url query 0 resps ++ last ∧
    ends url query (Z.of_nat (length resps)) (bool_decide (length resps = 3%nat)) last r.
Proof. intros Hr. by apply get_loop_run in Hr. Qed.

Example requests_retried_witness :
  ∃ resps last, (length resps <= 3)%nat ∧ Forall (fun resp => transient resp.(Response.StatusCode) = true) resps ∧
    [Call (Do "/x" []) (Ok (Response.mk 429 (Ok AnyNil))); Call (Sleep 250000000) None;
     Call (Do "/x" []) (Ok (Response.mk 200 (Ok AnyNil)))] = retries "/x" [] 0 resps ++ last ∧
    ends "/x" [] (Z.of_nat (length resps)) (bool_decide (length resps = 3%nat)) last (Ok (Response.mk 200 (Ok AnyNil))).
Proof.
  apply (requests_retried "/x" []). eexists. split; [reflexivity|]. eexists. split; [reflexivity|].
  eexists. split; reflexivity.
Defined.

(** ** The paging of Binance ends *)

Definition is_diverge (X : Type) (e : exchangeE X) : bool := match e with Diverge => true | _ => false end.

(** Whatever the surroundings answer, the program comes to an end. *)
Definition always_returns {A} (p : eprog A) : Prop := avoids is_diverge p.

Lemma returns_bind {A B} (p : eprog A) (f : A → eprog B) :
  always_returns p → (∀ tr a, runs p tr a → always_returns (f a)) → always_returns (pbind p f).
Proof. apply avoids_bind. Qed.

Lemma returns_wait delay : always_returns (waitKlinePage delay).
Proof. unfold waitKlinePage. by destruct (delay <=? 0). Qed.

Lemma returns_get more attempt url query : always_returns (get_loop attempt more url query).
Proof.
  revert attempt. induction more as [|more IH]; intros attempt; split; try done; intros [resp|e]; simpl; try done.
  destruct (transient _); simpl; [|done]. apply avoids_bind; [apply returns_wait|]. intros tr [e|] _; [done|apply IH].
Qed.

Lemma returns_binance_page a url query symbol tf : always_returns (fetchBinanceKlinePage a url query symbol tf).
Proof.
  apply avoids_bind; [apply returns_get|]. intros tr [resp|e] _; [|done]. destruct (success _); [|done]. simpl.
  destruct (Response.Body resp) as [body|e]; [|done]. destruct (as_slice (as_slice Ok) body); done.
Qed.

Lemma returns_binance_step a request tf path symbolParam interval cursorEnd st :
  always_returns (binance_step a request tf path symbolParam interval cursorEnd st).
Proof.
  apply avoids_bind; [apply returns_binance_page|]. intros tr [page|e] _; [|done].
  destruct (binance_after_page _ _ _ _ _ _); [|done]. apply avoids_bind; [apply returns_wait|]. by intros.
Qed.

(** A round that goes on has moved the cursor, and not past the end. *)
Lemma binance_step_moves a request tf path symbolParam interval cursorEnd st tr st' :
  runs (binance_step a request tf path symbolParam interval cursorEnd st) tr (inl st') →
  st.(BinancePaging.cursorStart) < st'.(BinancePaging.cursorStart) <= cursorEnd.
Proof.
  intros (tr1 & [page|e] & tr2 & -> & _ & Hr)%runs_bind; [|by apply runs_Ret in Hr as [_ ?]].
  unfold binance_after_page in Hr. destruct (last page) as [newest|]; [|by apply runs_Ret in Hr as [_ ?]].
  destruct (KlineRequest.StartMS request =? 0); [by apply runs_Ret in Hr as [_ ?]|]. cbv zeta in Hr.
  destruct (_ && _); [by apply runs_Ret in Hr as [_ ?]|].
  set (next := NextStartMS newest.(Bar.StartMS) tf) in *.
  destruct ((cursorEnd <? next) || (next <=? st.(BinancePaging.cursorStart))) eqn:E; [by apply runs_Ret in Hr as [_ ?]|].
  destruct (Z.of_nat (length page) <? _); [by apply runs_Ret in Hr as [_ ?]|].
  apply runs_bind in Hr as (tr3 & [e|] & tr4 & -> & _ & Hr); apply runs_Ret in Hr as [_ [= ->]].
  cbn [BinancePaging.cursorStart]. zbool. lia.
Qed.

(** A measure that every further round lowers, and that stays nonnegative. *)
Lemma returns_ploop {A R} n (body : A → eprog (A + R)) (μ : A → Z) (f : A + R → eprog R) a :
  (∀ a, always_returns (body a)) → (∀ a tr a', runs (body a) tr (inl a') → 0 <= μ a' < μ a) →
  (∀ r, always_returns (f (inr r))) → μ a < 2 ^ Z.of_nat n → always_returns (pbind (ploop n body a) f).
Proof.
  intros Hb Hm Hf Ha. apply avoids_bind; [apply (avoids_ploop is_diverge n body (λ _, True)); [intros ? _; apply Hb|done|done]|].
  intros tr [a'|r] Hr; [|apply Hf]. exfalso.
  apply (ploop_measure n body (λ a1, a1 = a ∨ 0 <= μ a1) μ) in Hr as [HI Hlt].
  - destruct HI as [->|?]; [|lia]. assert (0 < 2 ^ Z.of_nat n) by (apply Z.pow_pos_nonneg; lia). lia.
  - intros a1 tr1 a2 _ H%Hm. split; [right|]; lia.
  - by left.
Qed.

Lemma returns_page_loop {A R} (body : A → eprog (A + R)) (μ : A → Z) a :
  (∀ a, always_returns (body a)) → (∀ a tr a', runs (body a) tr (inl a') → 0 <= μ a' < μ a) →
  μ a < 2 ^ 64 → always_returns (page_loop body a).
Proof. intros Hb Hm Ha. refine (returns_ploop 64 body μ _ a Hb Hm _ Ha). intros r. exact I. Qed.

Lemma binance_step_measure a request tf path symbolParam interval cursorEnd st1 tr st2 :
  runs (binance_step a request tf path symbolParam interval cursorEnd st1) tr (inl st2) →
  0 <= cursorEnd - st2.(BinancePaging.cursorStart) < cursorEnd - st1.(BinancePaging.cursorStart).
Proof. intros H%binance_step_moves. lia. Qed.

Lemma int64_distance a b : int64_range a → int64_range b → b - a < 2 ^ 64.
Proof. unfold int64_range, two63. lia. Qed.

Lemma binance_loop_ends a request tf path symbolParam interval cursorEnd st :
  int64_range st.(BinancePaging.cursorStart) → int64_range cursorEnd →
  always_returns (page_loop (binance_step a request tf path symbolParam interval cursorEnd) st).
Proof.
  intros Hs He.
  exact (returns_page_loop (binance_step a request tf path symbolParam interval cursorEnd)
           (λ st, cursorEnd - st.(BinancePaging.cursorStart)) st
           (returns_binance_step a request tf path symbolParam interval cursorEnd)
           (binance_step_measure a request tf path symbolParam interval cursorEnd) (int64_distance _ _ Hs He)).
Qed.

Lemma returns_fetchBinanceKlines a request tf path symbolParam interval :
  int64_range request.(KlineRequest.StartMS) → int64_range request.(KlineRequest.EndMS) →
  always_returns (fetchBinanceKlines a request tf path symbolParam interval).
Proof.
  intros Hs He. unfold fetchBinanceKlines. case_bool; [done|]. apply returns_bind.
  - case_bool; [|done]. by split.
  - intros tr cursorEnd Hr. apply returns_bind; [|intros ? [all|e] _; exact I].
    apply binance_loop_ends; [exact Hs|]. clear Hs. cbn [KlineRequest.StartMS] in *.
    destruct (_ <=? 0); [|by apply runs_Ret in Hr as [_ ->]].
    apply runs_bind in Hr as (? & now & ? & _ & _ & [_ ->]%runs_Ret). apply i64_range.
Qed.

(** fetching candles from Binance always comes to an end, whatever the exchange,
    the transport and the clock answer: every round of the paging moves the cursor
    forward inside the range of the request. *)
Theorem binance_fetch_returns a request :
  int64_range request.(KlineRequest.StartMS) → int64_range request.(KlineRequest.EndMS) →
  always_returns (binance_FetchKlines a request) ∧ always_returns (FetchContinuousKlines a request).
Proof.
  intros Hs He. unfold binance_FetchKlines, FetchContinuousKlines.
  destruct (binanceKlineInterval _) as [[tf interval]|e]; [|done]. split; [by apply returns_fetchBinanceKlines|].
  destruct (_ && _); [done|]. by apply returns_fetchBinanceKlines.
Qed.

Example binance_fetch_returns_witness :
  always_returns (binance_FetchKlines (NewBinanceFuturesAdapter "um_futures" "https://fapi.binance.com/" "")
                    (KlineRequest.mk "btcusdt" "1m" 1700000000000 1700000600000 0 "" 0)).
Proof. apply binance_fetch_returns; split; vm_compute; congruence. Defined.

(** ** What a candle of a page satisfies *)

(** A finite number that is not negative. *)
Definition activity (x : float64) : Prop := f64_is_nan x = false ∧ f64_is_inf x = false ∧ f64_ltb x f64_zero = false.

Record candle_ok (exchange symbol : string) (tf : Frame) (now : Z) (bar : Bar) : Prop := {
  ok_exchange : bar.(Bar.Exchange) = exchange;
  ok_symbol : bar.(Bar.Symbol) = symbol;
  ok_timeframe : bar.(Bar.Timeframe) = frame_name tf;
  ok_start : 0 < bar.(Bar.StartMS);
  ok_closed : bar.(Bar.EndMS) < now;
  ok_final : bar.(Bar.IsFinal) = true;
  ok_prices : validOHLC bar = true;
  ok_volume : activity bar.(Bar.Volume);
  ok_quote : activity bar.(Bar.QuoteVolume);
  ok_contracts : activity bar.(Bar.ContractVolume);
}.

Lemma activity_ok raw x : parseKlineActivityFloat raw = Ok x → activity x.
Proof.
  unfold parseKlineActivityFloat, activity. destruct (klineActivityNumber raw) as [value ok].
  destruct (ParseFloat value) as [parsed fits]. cbv zeta. destruct (_ || _) eqn:E; [done|]. intros [= ->].
  zbool. done.
Qed.

Lemma activity_zero : activity f64_zero.
Proof. done. Qed.

Lemma rest_candle_ok exchange symbol margin tf startMS endMS o h l c v vu q qu cv n now bar :
  rest_candle exchange symbol margin tf startMS endMS o h l c v vu q qu cv n now = Some bar →
  0 < startMS → endMS < now → activity v → activity q → activity cv → candle_ok exchange symbol tf now bar ∧ bar.(Bar.StartMS) = startMS.
Proof.
  unfold rest_candle. cbv zeta. destruct (validOHLC _) eqn:E; [|done]. intros [= <-] ? ? ? ? ?. split; [|done]. by constructor.
Qed.

Lemma binance_row_ok a symbol tf now row bar :
  binance_row a symbol tf now row = Ok (Some bar) →
  candle_ok binance_name symbol tf now bar ∧ bar.(Bar.StartMS) = intValue (column row 0).
Proof.
  unfold binance_row. destruct (_ <? 9)%nat; [done|]. destruct (_ || _) eqn:E; [done|].
  destruct (parseKlineActivityFloat (column row 5)) as [v|] eqn:Ev; [|done].
  destruct (parseKlineActivityFloat (column row 7)) as [q|] eqn:Eq; [|done].
  destruct (parseKlineTradeCount _) as [n|]; [|done]. apply activity_ok in Ev, Eq.
  unfold binance_units. destruct (binanceSymbolCurrencies symbol (marginType a)) as [base quote]. zbool.
  destruct (bool_decide (marginType a = "coinmargin")); intros [= Hc]; apply rest_candle_ok in Hc; auto using activity_zero.
Qed.

Lemma okx_row_ok a symbol tf now row bar :
  okx_row a symbol tf now row = Ok (Some bar) →
  candle_ok okx_name symbol tf now bar ∧ Some bar.(Bar.StartMS) = parseInt <$> head row.
Proof.
  unfold okx_row. destruct row as [|ts [|o [|h [|l [|c [|vol [|volCcy [|volQuote [|confirm row]]]]]]]]]; try done.
  destruct (negb _); [done|]. cbv zeta. destruct (_ || _) eqn:E; [done|].
  destruct (parseKlineActivityFloat (AnyString vol)) as [cv|] eqn:Ev; [|done].
  destruct (parseKlineActivityFloat (AnyString volCcy)) as [v|] eqn:Ec; [|done].
  destruct (parseKlineActivityFloat (AnyString volQuote)) as [q|] eqn:Eq; [|done]. apply activity_ok in Ev, Ec, Eq.
  destruct (okx_currencies symbol (instrumentSpec a symbol)) as [base quote]. unfold okx_units. zbool.
  destruct (bool_decide _); intros [= Hc]; apply rest_candle_ok in Hc as [? Hs]; auto; simpl; by rewrite Hs.
Qed.

Lemma page_bars_spec {A} (f : A → result go_error (option Bar)) rows bars :
  page_bars f rows = Ok bars → bars = omap (fun row => match f row with Ok bar => bar | Err _ => None end) rows.
Proof.
  revert bars. induction rows as [|row rows IH]; intros bars H; simpl in *; [by simplify_eq|].
  destruct (f row) as [bar|]; [|done]. destruct (page_bars f rows) as [rest|]; [|done]. simplify_eq.
  rewrite (IH rest) by done. by destruct bar.
Qed.

Lemma elem_of_page {A} (f : A → result go_error (option Bar)) rows bars bar :
  page_bars f rows = Ok bars → bar ∈ bars → ∃ row, row ∈ rows ∧ f row = Ok (Some bar).
Proof.
  intros ->%page_bars_spec. rewrite list_elem_of_omap. intros (row & Hr & Hf). exists row. split; [done|].
  destruct (f row); simplify_eq; done.
Qed.

(** ** Runs of a page *)

Lemma get_run url query tr resp : runs (doKlineGET url query) tr (Ok resp) → Call (Do url query) (Ok resp) ∈ tr.
Proof.
  intros Hr. apply get_loop_run in Hr as (resps & last & _ & _ & -> & He); [|done|done].
  apply elem_of_app. right. inversion He; subst. by left.
Qed.

Lemma binance_page_run a url query symbol tf tr page :
  runs (fetchBinanceKlinePage a url query symbol tf) tr (Ok page) →
  ∃ resp body rows now, Call (Do url query) (Ok resp) ∈ tr ∧ success resp.(Response.StatusCode) = true ∧
    resp.(Response.Body) = Ok body ∧ as_slice (as_slice Ok) body = Ok rows ∧ Call Now now ∈ tr ∧
    page_bars (binance_row a symbol tf now) rows = Ok page.
Proof.
  intros (tr1 & [resp|e] & tr2 & -> & H1 & Hr)%runs_bind; [|by apply runs_Ret in Hr as [_ ?]].
  destruct (success _) eqn:Es; [|by apply runs_Ret in Hr as [_ ?]]. cbn [negb] in Hr.
  destruct (Response.Body resp) as [body|e] eqn:Eb; [|by apply runs_Ret in Hr as [_ ?]].
  destruct (as_slice (as_slice Ok) body) as [rows|e] eqn:Er; [|by apply runs_Ret in Hr as [_ ?]].
  apply runs_bind in Hr as (tr3 & now & tr4 & -> & ->%runs_trigger & [-> Hp]%runs_Ret).
  exists resp, body, rows, now. apply get_run in H1. split_and!; try done; set_solver.
Qed.

Lemma elem_of_sortBars bar l : bar ∈ sortBars l ↔ bar ∈ l.
Proof. apply elem_of_sort_slice. Qed.

Lemma okx_page_run a path symbol tf bar after limit adjustment tr page :
  runs (fetchOKXKlinePage a path symbol tf bar after limit adjustment) tr (Ok page) →
  ∃ resp msg code rows now bars,
    Call (Do (a.(OKXAdapter.restURL) ++ path)%string (okx_query symbol bar adjustment after limit)) (Ok resp) ∈ tr ∧
    success resp.(Response.StatusCode) = true ∧ okx_decoded resp.(Response.Body) = Ok (code, msg, rows) ∧
    (code = "" ∨ code = "0") ∧ Call Now now ∈ tr ∧ page_bars (okx_row a symbol tf now) rows = Ok bars ∧ page = sortBars bars.
Proof.
  intros (tr1 & [resp|e] & tr2 & -> & H1 & Hr)%runs_bind; [|by apply runs_Ret in Hr as [_ ?]].
  destruct (success _) eqn:Es; [|by apply runs_Ret in Hr as [_ ?]]. cbn [negb] in Hr.
  destruct (okx_decoded _) as [[[code msg] rows]|e] eqn:Ed; [|by apply runs_Ret in Hr as [_ ?]].
  destruct (_ && _) eqn:Ec; [by apply runs_Ret in Hr as [_ ?]|].
  apply runs_bind in Hr as (tr3 & now & tr4 & -> & ->%runs_trigger & [-> Hp]%runs_Ret).
  destruct (page_bars _ rows) as [bars|] eqn:Ep; [|done]. simplify_eq.
  exists resp, msg, code, rows, now, bars. apply get_run in H1. split_and!; try done; [set_solver| |set_solver].
  apply andb_false_iff in Ec as [E|E]; apply negb_false_iff, bool_decide_eq_true in E; auto.
Qed.

(** ** Sorting and trimming *)

#[export] Instance bar_less_order : LessOrder bar_less.
Proof.
  assert (∀ l r, bar_less l r = less_lex (less_by Bar.StartMS) (less_str bar_key) l r) as E.
  { intros l r. unfold bar_less, less_lex, less_by, less_str.
    destruct (l.(Bar.StartMS) =? r.(Bar.StartMS)) eqn:E1, (l.(Bar.StartMS) <? r.(Bar.StartMS)) eqn:E2,
      (r.(Bar.StartMS) <? l.(Bar.StartMS)) eqn:E3; zbool; try lia; done. }
  split; intros *; rewrite !E; [apply less_asym|apply less_negtrans].
Qed.

Definition start_le (l r : Bar) : Prop := l.(Bar.StartMS) <= r.(Bar.StartMS).

Lemma sortBars_sorted l : StronglySorted start_le (sortBars l).
Proof.
  pose proof (sort_slice_sorted bar_less l) as Hs. fold (sortBars l) in Hs. revert Hs. generalize (sortBars l). clear l.
  intros l Hs. induction Hs as [|x l Hs IH Hx]; constructor; [done|]. eapply Forall_impl; [exact Hx|].
  intros y Hy. unfold not_after, bar_less in Hy. unfold start_le.
  destruct (y.(Bar.StartMS) =? x.(Bar.StartMS)) eqn:E; zbool; lia.
Qed.

(** With distinct starts the order of the starts is all there is. *)
Lemma sortBars_by l : NoDup (Bar.StartMS <$> l) → sortBars l = sort_by Bar.StartMS l.
Proof.
  intros Hnd. unfold sortBars. symmetry. apply sort_slice_unique; [apply _| | |apply sort_by_perm].
  - intros x y Hx Hy H1 H2. eapply (NoDup_key_inj Bar.StartMS); [done..|]. unfold bar_less in *.
    destruct (x.(Bar.StartMS) =? y.(Bar.StartMS)) eqn:E; zbool; [done|].
    destruct (y.(Bar.StartMS) =? x.(Bar.StartMS)) eqn:E'; zbool; lia.
  - apply sort_by_sorted in Hnd. unfold key_sorted in Hnd. induction Hnd as [|x s Hs IH Hx]; constructor; [done|].
    eapply Forall_impl; [exact Hx|]. intros y Hy. unfold not_after, bar_less. simpl in Hy.
    destruct (y.(Bar.StartMS) =? x.(Bar.StartMS)) eqn:E; zbool; [lia|]. by apply Z.ltb_ge; lia.
Qed.

Lemma trimBars_spec l limit :
  (∃ n, trimBars l limit = drop n l) ∧ (0 < limit → Z.of_nat (length (trimBars l limit)) <= limit).
Proof.
  unfold trimBars. destruct (_ || _) eqn:E.
  - split; [by exists 0%nat|]. intros Hl. apply orb_true_iff in E as [E|E]; zbool; lia.
  - zbool. split; [by eexists|]. intros _. rewrite length_drop. lia.
Qed.

(** ** Every candle returned was accepted *)

Definition accepted (exchange : string) (request : KlineRequest) (tf : Frame) (tr : list (call exchangeE)) (bar : Bar) : Prop :=
  in_request request bar = true ∧ ∃ now, Call Now now ∈ tr ∧ candle_ok exchange request.(KlineRequest.Symbol) tf now bar.

Lemma accepted_more exchange request tf tr tr' bar :
  accepted exchange request tf tr bar → tr ⊆ tr' → accepted exchange request tf tr' bar.
Proof. intros (H1 & now & H2 & H3) Hsub. split; [done|]. exists now. split; [by apply Hsub|done]. Qed.

Lemma accepted_step exchange request tf all page tr tr1 tr2 now :
  (∀ bar, bar ∈ all → accepted exchange request tf tr bar) →
  (∀ bar, bar ∈ page → candle_ok exchange request.(KlineRequest.Symbol) tf now bar) → Call Now now ∈ tr1 →
  ∀ bar, bar ∈ all ++ List.filter (in_request request) page → accepted exchange request tf (tr ++ tr1 ++ tr2) bar.
Proof.
  intros Hall Hp Hnow bar [Hb|Hb]%elem_of_app; [eapply accepted_more; [by apply Hall|set_solver]|].
  apply list_elem_of_In, List.filter_In in Hb as [Hb%list_elem_of_In Hr]. split; [done|]. exists now.
  split; [set_solver|by apply Hp].
Qed.

Lemma binance_after_all request tf cursorEnd pageLimit st page next :
  binance_after_page request tf cursorEnd pageLimit st page = next →
  st.(BinancePaging.all) ++ List.filter (in_request request) page =
    match next with inl st' => st'.(BinancePaging.all) | inr all => all end.
Proof.
  intros <-. unfold binance_after_page. destruct (last page); [|done]. destruct (_ =? 0); [done|]. cbv zeta.
  destruct (_ && _); [done|]. destruct (_ || _); [done|]. by destruct (Z.of_nat (length page) <? pageLimit).
Qed.

Lemma binance_step_accepted a request tf path symbolParam interval cursorEnd tr st tr' x :
  (∀ bar, bar ∈ st.(BinancePaging.all) → accepted binance_name request tf tr bar) →
  runs (binance_step a request tf path symbolParam interval cursorEnd st) tr' x →
  match x with
  | inl st' => ∀ bar, bar ∈ st'.(BinancePaging.all) → accepted binance_name request tf (tr ++ tr') bar
  | inr (Ok all) => ∀ bar, bar ∈ all → accepted binance_name request tf (tr ++ tr') bar
  | inr (Err _) => True
  end.
Proof.
  intros Hall (tr1 & [page|e] & tr2 & -> & H1 & Hr)%runs_bind; [|by apply runs_Ret in Hr as [_ ->]].
  apply binance_page_run in H1 as (resp & body & rows & now & _ & _ & _ & _ & Hnow & Hp).
  assert (∀ bar, bar ∈ page → candle_ok binance_name request.(KlineRequest.Symbol) tf now bar) as Hok.
  { intros bar Hb. destruct (elem_of_page _ _ _ _ Hp Hb) as (row & _ & Hrow). by apply binance_row_ok in Hrow as [? _]. }
  pose proof (accepted_step _ _ _ _ _ _ tr1 tr2 _ Hall Hok Hnow) as Hstep.
  destruct (binance_after_page _ _ _ _ _ _) as [st'|all] eqn:E; apply binance_after_all in E; rewrite E in Hstep.
  - apply runs_bind in Hr as (tr3 & [e|] & tr4 & -> & _ & [-> ->]%runs_Ret); [done|exact Hstep].
  - by apply runs_Ret in Hr as [-> ->].
Qed.

Lemma runs_loop {A R} n (body : A → eprog (A + R)) (f : A + R → eprog R) a tr r (I : list (call exchangeE) → A → Prop)
    (Φ : list (call exchangeE) → R → Prop) :
  (∀ a tr r, ¬ runs (f (inl a)) tr r) → (∀ r, f (inr r) = Ret r) → I [] a →
  (∀ tr a tr' x, I tr a → runs (body a) tr' x → match x with inl a' => I (tr ++ tr') a' | inr r => Φ (tr ++ tr') r end) →
  runs (pbind (ploop n body a) f) tr r → Φ tr r.
Proof.
  intros Hl Hf Ha Hs (tr1 & x & tr2 & -> & H1 & H2)%runs_bind.
  specialize (runs_ploop n body I Φ Hs [] a tr1 x Ha H1) as H. destruct x as [a'|r']; [by apply Hl in H2|].
  rewrite Hf in H2. apply runs_Ret in H2 as [-> ->]. by rewrite app_nil_r.
Qed.

Lemma runs_page_loop {A R} (body : A → eprog (A + R)) a tr r (I : list (call exchangeE) → A → Prop)
    (Φ : list (call exchangeE) → R → Prop) :
  I [] a →
  (∀ tr a tr' x, I tr a → runs (body a) tr' x → match x with inl a' => I (tr ++ tr') a' | inr r => Φ (tr ++ tr') r end) →
  runs (page_loop body a) tr r → Φ tr r.
Proof.
  intros Ha Hs. refine (runs_loop 64 body _ a tr r I Φ _ _ Ha Hs); [|done].
  intros a' tr' r' H. apply runs_bind in H as (? & [] & _).
Qed.

Lemma fetchBinanceKlines_accepted a request tf path symbolParam interval tr bars :
  runs (fetchBinanceKlines a request tf path symbolParam interval) tr (Ok bars) →
  StronglySorted start_le bars ∧
  (0 < request.(KlineRequest.Limit) → Z.of_nat (length bars) <= request.(KlineRequest.Limit)) ∧
  ∀ bar, bar ∈ bars → accepted binance_name request tf tr bar.
Proof.
  unfold fetchBinanceKlines. case_bool; [intros [_ [= ->]]%runs_Ret; split_and!; [constructor|simpl; lia|by intros bar ?%elem_of_nil]|].
  intros (tr1 & cursorEnd & tr2 & -> & _ & Hr)%runs_bind.
  apply runs_bind in Hr as (tr3 & [all|e] & tr4 & -> & H3 & [-> [= ->]]%runs_Ret).
  apply (runs_page_loop _ _ _ _ (λ tr st, ∀ bar, bar ∈ st.(BinancePaging.all) → accepted binance_name request tf tr bar)
           (λ tr r, match r with Ok all => ∀ bar, bar ∈ all → accepted binance_name request tf tr bar | Err _ => True end)) in H3.
  - destruct (trimBars_spec (sortBars all) request.(KlineRequest.Limit)) as [[n En] Hlen].
    split_and!; [|done|].
    + rewrite En. pose proof (sortBars_sorted all) as Hs. rewrite <- (take_drop n (sortBars all)) in Hs.
      by eapply StronglySorted_app_1_r.
    + intros bar Hb. rewrite En in Hb. apply (subseteq_drop n), elem_of_sortBars, H3 in Hb.
      eapply accepted_more; [done|]. clear. set_solver.
  - by intros bar ?%elem_of_nil.
  - intros. by eapply binance_step_accepted.
Qed.

(** ** The same for OKX *)

Lemma in_sortBars_ok exchange symbol tf now page bars :
  page = sortBars bars → (∀ bar, bar ∈ bars → candle_ok exchange symbol tf now bar) →
  ∀ bar, bar ∈ page → candle_ok exchange symbol tf now bar.
Proof. intros -> H bar Hb. apply H. by rewrite elem_of_sortBars in Hb. Qed.

(** What the loop over a page adds: candles of the request with new starts. *)
Lemma okx_accept_spec request page all seen all' seen' :
  foldl (okx_accept request) (all, seen) page = (all', seen') →
  (∀ bar, bar ∈ all → bar.(Bar.StartMS) ∈ seen) → NoDup (Bar.StartMS <$> all) →
  (∀ bar, bar ∈ all' → bar ∈ all ∨ (bar ∈ page ∧ in_request request bar = true)) ∧
  (∀ bar, bar ∈ all' → bar.(Bar.StartMS) ∈ seen') ∧ NoDup (Bar.StartMS <$> all').
Proof.
  revert all seen. induction page as [|item page IH]; intros all seen Hf Hseen Hnd; cbn [foldl] in Hf.
  - simplify_eq. split_and!; auto.
  - unfold okx_accept in Hf at 2. destruct (in_request request item) eqn:Er;
      [destruct (bool_decide (item.(Bar.StartMS) ∈ seen)) eqn:Es|]; cbn [andb negb] in Hf;
      apply IH in Hf as (H1 & H2 & H3); try done; bprop.
    + split_and!; [|done..]. intros bar Hb. destruct (H1 bar Hb) as [?|[? ?]]; [by left|right; set_solver].
    + split_and!; [|done..]. intros bar Hb. destruct (H1 bar Hb) as [Ha|[? ?]]; [|right; set_solver].
      apply elem_of_app in Ha as [?| ->%list_elem_of_singleton]; [by left|right; set_solver].
    + intros bar [Hb| ->%list_elem_of_singleton]%elem_of_app; set_solver.
    + rewrite fmap_app. apply NoDup_app. split_and!; [done| |apply NoDup_singleton].
      intros s Hs ->%list_elem_of_singleton. apply Es. apply list_elem_of_fmap in Hs as (b & -> & Hb). by apply Hseen.
    + split_and!; [|done..]. intros bar Hb. destruct (H1 bar Hb) as [?|[? ?]]; [by left|right; set_solver].
Qed.

Definition okx_inv (request : KlineRequest) (tf : Frame) (tr : list (call exchangeE)) (st : OKXPaging) : Prop :=
  (∀ bar, bar ∈ st.(OKXPaging.all) → accepted okx_name request tf tr bar) ∧
  (∀ bar, bar ∈ st.(OKXPaging.all) → bar.(Bar.StartMS) ∈ st.(OKXPaging.seen)) ∧
  NoDup (Bar.StartMS <$> st.(OKXPaging.all)).

Definition okx_done (request : KlineRequest) (tf : Frame) (tr : list (call exchangeE)) (all : list Bar) : Prop :=
  (∀ bar, bar ∈ all → accepted okx_name request tf tr bar) ∧ NoDup (Bar.StartMS <$> all).

Lemma okx_after_inv request tf recent adjustment tr tr' now st page :
  okx_inv request tf tr st → tr ⊆ tr' → Call Now now ∈ tr' →
  (∀ bar, bar ∈ page → candle_ok okx_name request.(KlineRequest.Symbol) tf now bar) →
  match okx_after_page request recent adjustment st page with
  | inl st' => okx_inv request tf tr' st'
  | inr all => okx_done request tf tr' all
  end.
Proof.
  intros (Hall & Hseen & Hnd) Hsub Hnow Hp. unfold okx_after_page.
  assert (∀ bar, bar ∈ st.(OKXPaging.all) → accepted okx_name request tf tr' bar) as Hall'
    by (intros; eapply accepted_more; eauto).
  destruct page as [|first page]; [by destruct recent|]. cbv zeta.
  destruct (foldl (okx_accept request) _ _) as [all seen] eqn:Ef. apply okx_accept_spec in Ef as (H1 & H2 & H3); [|done..].
  assert (∀ bar, bar ∈ all → accepted okx_name request tf tr' bar) as Ha.
  { intros bar Hb. destruct (H1 bar Hb) as [?|[? ?]]; [auto|]. split; [done|]. exists now. auto. }
  destruct (_ && _); [done|]. destruct (_ && _); [done|]. by destruct (_ =? _).
Qed.

Lemma okx_step_inv a request tf bar tr st tr' x :
  okx_inv request tf tr st → runs (okx_step a request tf bar st) tr' x →
  match x with
  | inl st' => okx_inv request tf (tr ++ tr') st'
  | inr (Ok all) => okx_done request tf (tr ++ tr') all
  | inr (Err _) => True
  end.
Proof.
  intros Hinv (tr1 & page & tr2 & -> & H1 & Hr)%runs_bind.
  apply runs_bind in Hr as (tr3 & [page' adjustment] & tr4 & -> & H3 & Hr).
  destruct page' as [page'|e]; [|by apply runs_Ret in Hr as [_ ->]].
  assert (∃ now, Call Now now ∈ tr1 ++ tr3 ∧
            ∀ bar, bar ∈ page' → candle_ok okx_name request.(KlineRequest.Symbol) tf now bar) as (now & Hnow & Hok).
  { assert (∀ adj tr, runs (fetchOKXKlinePage a (if st.(OKXPaging.useRecentEndpoint) && (st.(OKXPaging.after) =? 0)
        then recent_candles else history_candles) request.(KlineRequest.Symbol) tf bar st.(OKXPaging.after)
        (page_limit st.(OKXPaging.remaining) (if st.(OKXPaging.useRecentEndpoint) && (st.(OKXPaging.after) =? 0)
        then okxRecentKlineLimit else okxHistoryKlineLimit)) adj) tr (Ok page') → ∃ now, Call Now now ∈ tr ∧
          ∀ bar, bar ∈ page' → candle_ok okx_name request.(KlineRequest.Symbol) tf now bar) as Hpage.
    { intros adj tr0 Hr0. apply okx_page_run in Hr0 as (? & ? & ? & rows & now & bars & _ & _ & _ & _ & Hnow & Hp & ->).
      exists now. split; [done|]. eapply in_sortBars_ok; [done|]. intros b Hb.
      destruct (elem_of_page _ _ _ _ Hp Hb) as (row & _ & Hrow). by apply okx_row_ok in Hrow as [? _]. }
    destruct page as [page|e].
    - apply runs_Ret in H3 as [-> [= -> ->]]. apply Hpage in H1 as (now & ? & ?). exists now. split; [set_solver|done].
    - destruct (errors_Is e _ && _); [|by apply runs_Ret in H3 as [_ ?]].
      apply runs_bind in H3 as (tr5 & again & tr6 & -> & H5 & [-> [= <- ->]]%runs_Ret).
      apply Hpage in H5 as (now & ? & ?). exists now. split; [set_solver|done]. }
  pose proof (okx_after_inv request tf (st.(OKXPaging.useRecentEndpoint) && (st.(OKXPaging.after) =? 0)) adjustment
                tr (tr ++ tr1 ++ tr3 ++ tr4) now st page' Hinv ltac:(set_solver) ltac:(set_solver) Hok) as Hn.
  destruct (okx_after_page _ _ _ _ _) as [st'|all]; [|by apply runs_Ret in Hr as [-> ->]].
  destruct (bool_decide (page' = [])); [by apply runs_Ret in Hr as [-> ->]|].
  by apply runs_bind in Hr as (tr5 & [e|] & tr6 & -> & _ & [-> ->]%runs_Ret).
Qed.

Lemma okx_FetchKlines_accepted a request tf bar tr bars :
  okxKlineBar request.(KlineRequest.Timeframe) = Ok (tf, bar) →
  runs (okx_FetchKlines a request) tr (Ok bars) →
  StronglySorted start_le bars ∧ NoDup (Bar.StartMS <$> bars) ∧
  (0 < request.(KlineRequest.Limit) → Z.of_nat (length bars) <= request.(KlineRequest.Limit)) ∧
  ∀ bar, bar ∈ bars → accepted okx_name (with_symbol request) tf tr bar.
Proof.
  intros Htf. unfold okx_FetchKlines. rewrite Htf.
  destruct (ParseKlineAdjustment _) as [adjustment|e]; [|by intros [_ ?]%runs_Ret]. cbv zeta.
  case_bool; [intros [_ [= ->]]%runs_Ret; split_and!; [constructor|constructor|simpl; lia|by intros b ?%elem_of_nil]|].
  intros (tr1 & [all|e] & tr2 & -> & H1 & [-> [= ->]]%runs_Ret)%runs_bind.
  apply (runs_page_loop _ _ _ _ (okx_inv (with_symbol request) tf)
           (λ tr r, match r with Ok all => okx_done (with_symbol request) tf tr all | Err _ => True end)) in H1 as [Ha Hnd].
  - destruct (trimBars_spec (sortBars all) request.(KlineRequest.Limit)) as [[n En] Hlen].
    assert (Bar.StartMS <$> sortBars all ≡ₚ Bar.StartMS <$> all) as Hp by (apply fmap_Permutation, sort_slice_perm).
    split_and!; [| |done|]; rewrite En.
    + pose proof (sortBars_sorted all) as Hs. rewrite <- (take_drop n (sortBars all)) in Hs.
      by eapply StronglySorted_app_1_r.
    + rewrite <- Hp in Hnd. rewrite <- (take_drop n (sortBars all)), fmap_app in Hnd. by apply NoDup_app in Hnd as (_ & _ & ?).
    + intros b Hb. apply (subseteq_drop n) in Hb. rewrite elem_of_sortBars in Hb. apply Ha in Hb.
      eapply accepted_more; [done|]. clear. set_solver.
  - split_and!; [by intros b ?%elem_of_nil..|constructor].
  - intros tr st tr' x Hi Hr. by eapply okx_step_inv.
Qed.

(** whatever the exchange, the transport and the clock answer, the candles
    returned are sorted by their start, at most [Limit] when there is one, and each
    was accepted: it is of the symbol and timeframe asked for, starts in the range of
    the request, has positive prices and finite nonnegative volumes, and was closed
    when its page was read.  OKX returns no start twice. *)
Theorem fetched_candles_sound binance okx request tr bars :
  (∀ tf interval, binanceKlineInterval request.(KlineRequest.Timeframe) = Ok (tf, interval) →
     runs (binance_FetchKlines binance request) tr (Ok bars) →
     StronglySorted start_le bars ∧
     (0 < request.(KlineRequest.Limit) → Z.of_nat (length bars) <= request.(KlineRequest.Limit)) ∧
     ∀ bar, bar ∈ bars → accepted binance_name (with_symbol request) tf tr bar) ∧
  (∀ tf interval, okxKlineBar request.(KlineRequest.Timeframe) = Ok (tf, interval) →
     runs (okx_FetchKlines okx request) tr (Ok bars) →
     StronglySorted start_le bars ∧ NoDup (Bar.StartMS <$> bars) ∧
     (0 < request.(KlineRequest.Limit) → Z.of_nat (length bars) <= request.(KlineRequest.Limit)) ∧
     ∀ bar, bar ∈ bars → accepted okx_name (with_symbol request) tf tr bar).
Proof.
  split.
  - intros tf interval Htf Hr. unfold binance_FetchKlines in Hr. rewrite Htf in Hr.
    by apply fetchBinanceKlines_accepted in Hr.
  - intros tf interval Htf Hr. by eapply okx_FetchKlines_accepted.
Qed.
