(* ===== verification/RestKlineComplete.v ===== *)
(** * Fetching candles leaves nothing out

    The exchanges are described by the candles they hold and by what their interface
    documentation says they answer; against OKX, and against the USD-M market of
    Binance, FetchKlines returns exactly the candles asked for (okx_fetch_exact,
    binance_fetch_exact).  The spot and the COIN-M market of Binance answer
    otherwise, and there the paging loses candles (spot_paging_ends_early,
    coin_paging_skips_oldest). *)

From S2P Require Export RestKlineSpec.

Local Open Scope string_scope.
Local Open Scope Z_scope.
Local Open Scope list_scope.

(** ** Requests as the exchanges read them *)

Definition param (query : list (string * string)) (key : string) : option string :=
  snd <$> List.find (fun e => String.eqb (fst e) key) query.
Definition int_param (query : list (string * string)) (key : string) : option Z :=
  (fun text => fst (ParseInt text)) <$> param query key.

(** The last [n] elements. *)
Definition newest_of {A} (n : Z) (l : list A) : list A := drop (Z.to_nat (Z.of_nat (length l) - n)) l.

(** Candles of a timeframe in the order of their starts. *)
Definition listing {A} (tf : Frame) (start : A → Z) (rows : list A) : Prop :=
  key_sorted start rows ∧ ∀ row, row ∈ rows → aligned tf (start row) ∧ 0 < start row <= MaxTS.

(** What the USD-M interfaces of Binance (/fapi/v1/klines and continuousKlines) answer
    as documented: the first [limit] candles from [startTime] on, or the last [limit]
    without it, up to [endTime]; 500 when no limit is given, 1500 at most. *)
Definition usdm_max : Z := 1500.
Definition from_time (start_time : option Z) (s : Z) : bool := match start_time with Some t => t <=? s | None => true end.
Definition until_time (end_time : option Z) (s : Z) : bool := match end_time with Some t => s <=? t | None => true end.
Definition binance_start (row : list any) : Z := intValue (column row 0).
Definition binance_answer (rows : list (list any)) (query : list (string * string)) : list (list any) :=
  let window := List.filter (fun row => from_time (int_param query "startTime") (binance_start row)
                                        && until_time (int_param query "endTime") (binance_start row)) rows in
  let limit := Z.min usdm_max (default 500 (int_param query "limit")) in
  match int_param query "startTime" with
  | Some _ => take (Z.to_nat limit) window
  | None => newest_of limit window
  end.

(** The addresses of these interfaces.  Those of the spot and COIN-M markets, which
    answer otherwise, are not among them. *)
Definition usdm_path (path : string) : Prop := path = "/fapi/v1/klines" ∨ path = continuousKlines.

(** A call is honest when a request to them that succeeds is answered so; it may also fail. *)
Definition binance_honest (a : BinanceFuturesAdapter) (rows : list (list any)) (c : call exchangeE) : Prop :=
  match c with
  | Call e x =>
      match e in exchangeE X return X → Prop with
      | Do url query => fun answer =>
          ∀ path resp, usdm_path path → url = (a.(BinanceFuturesAdapter.restURL) ++ path)%string → answer = Ok resp → success resp.(Response.StatusCode) = true →
            resp.(Response.Body) = Ok (AnyList (AnyList <$> binance_answer rows query))
      | _ => fun _ => True
      end x
  end.

(** The row becomes a candle when the page is read at [now]. *)
Definition binance_good (a : BinanceFuturesAdapter) (symbol : string) (tf : Frame) (c : call exchangeE) (row : list any) : Prop :=
  ∀ now, c = Call Now now → ∃ bar, binance_row a symbol tf now row = Ok (Some bar).

Definition binance_candle (a : BinanceFuturesAdapter) (symbol : string) (tf : Frame) (row : list any) (bar : Bar) : Prop :=
  ∃ now, binance_row a symbol tf now row = Ok (Some bar).

(** The candles a request asks Binance for: from the start on, the first [Limit]; without
    a start, the newest of one page. *)
Definition binance_requested (rows : list (list any)) (request : KlineRequest) : list (list any) :=
  let window := List.filter (fun row => (request.(KlineRequest.StartMS) <=? binance_start row)
                                        && (binance_start row <=? request.(KlineRequest.EndMS))) rows in
  if request.(KlineRequest.StartMS) =? 0
  then newest_of (page_limit (wanted request) binanceMaxKlineLimit) window
  else if 0 <? request.(KlineRequest.Limit) then take (Z.to_nat request.(KlineRequest.Limit)) window else window.

(** ** Parameters of a query *)

Lemma int_param_limit path symbolParam symbol interval pageLimit s e :
  symbolParam = "symbol" ∨ symbolParam = "pair" → int64_range pageLimit → int64_range s → int64_range e → 0 < e →
  let query := binance_query path symbolParam symbol interval pageLimit s e in
  int_param query "limit" = Some pageLimit ∧
  int_param query "startTime" = (if 0 <? s then Some s else None) ∧ int_param query "endTime" = Some e.
Proof.
  intros Hp Hl Hs He H0. unfold binance_query. rewrite (proj2 (Z.ltb_lt 0 e)) by done.
  destruct Hp as [->| ->], (bool_decide (path = continuousKlines)), (0 <? s) eqn:E;
    unfold int_param, param; cbn; rewrite ?ParseInt_pretty by done; done.
Qed.

Lemma as_rows rows : as_slice (as_slice Ok) (AnyList (AnyList <$> rows)) = Ok rows.
Proof.
  cbn. assert (∀ row : list any, all_ok Ok row = Ok row) as Hrow.
  { induction row as [|v row IH]; [done|]. cbn. by rewrite IH. }
  induction rows as [|row rows IH]; [done|]. cbn. by rewrite Hrow, IH.
Qed.

Lemma page_bars_good a symbol tf now rows :
  (∀ row, row ∈ rows → ∃ bar, binance_row a symbol tf now row = Ok (Some bar)) →
  ∃ page, page_bars (binance_row a symbol tf now) rows = Ok page ∧ Forall2 (binance_candle a symbol tf) rows page.
Proof.
  induction rows as [|row rows IH]; intros Hg; [by exists []|]. destruct (Hg row) as [bar Hb]; [by left|].
  destruct IH as (page & Hp & Hf); [intros; apply Hg; by right|]. exists (bar :: page). cbn. rewrite Hb, Hp.
  split; [done|]. constructor; [by exists now|done].
Qed.

Lemma binance_candle_start a symbol tf row bar : binance_candle a symbol tf row bar → bar.(Bar.StartMS) = binance_start row.
Proof. intros [now H]. by apply binance_row_ok in H as [_ ?]. Qed.

Lemma binance_candles_starts a symbol tf rows page :
  Forall2 (binance_candle a symbol tf) rows page → Bar.StartMS <$> page = binance_start <$> rows.
Proof. induction 1 as [|row bar rows page H _ IH]; [done|]. rewrite !fmap_cons, IH. f_equal. by eapply binance_candle_start. Qed.

(** ** Lists *)

Lemma filter_and {A} (p q : A → bool) l : List.filter (fun x => p x && q x) l = List.filter q (List.filter p l).
Proof. induction l as [|x l IH]; [done|]. cbn. destruct (p x); cbn; [destruct (q x); by rewrite IH|done]. Qed.

Lemma filter_all {A} (p : A → bool) l : (∀ x, x ∈ l → p x = true) → List.filter p l = l.
Proof.
  induction l as [|x l IH]; intros H; [done|]. cbn. rewrite (H x) by by left. f_equal. apply IH. intros. apply H. by right.
Qed.
Lemma filter_none {A} (p : A → bool) l : (∀ x, x ∈ l → p x = false) → List.filter p l = [].
Proof. induction l as [|x l IH]; intros H; [done|]. cbn. rewrite (H x) by by left. apply IH. intros. apply H. by right. Qed.

Lemma elem_of_filter_bool {A} (p : A → bool) l x : x ∈ List.filter p l ↔ p x = true ∧ x ∈ l.
Proof. rewrite !list_elem_of_In, List.filter_In. tauto. Qed.

Lemma key_sorted_app_lt {A} (k : A → Z) l1 l2 x y : key_sorted k (l1 ++ l2) → x ∈ l1 → y ∈ l2 → k x < k y.
Proof.
  intros Hs Hx Hy. unfold key_sorted in Hs. apply StronglySorted_app in Hs as (H & _ & _). by apply H.
Qed.

Lemma last_Forall2 {A B} (P : A → B → Prop) l k y :
  Forall2 P l k → last k = Some y → ∃ x l', l = l' ++ [x] ∧ P x y.
Proof.
  intros Hf Hl. apply last_Some in Hl as [k' ->]. apply Forall2_app_inv_r in Hf as (l1 & l2 & _ & H2 & ->).
  apply Forall2_cons_inv_r in H2 as (x & l3 & Hx & ->%Forall2_nil_inv_r & ->). by exists x, l1.
Qed.

(** ** Binance *)

Section binance.
Context (rows : list (list any)) (a : BinanceFuturesAdapter) (request : KlineRequest) (tf : Frame).
Context (path symbolParam interval : string).
Context (Hlist : listing tf binance_start rows).
Context (Hpath : usdm_path path).
Context (Hparam : symbolParam = "symbol" ∨ symbolParam = "pair").
Context (Hstart : int64_range request.(KlineRequest.StartMS)) (Hend : int64_range request.(KlineRequest.EndMS)).
Context (Hlimit : int64_range request.(KlineRequest.Limit)).
Context (Hend0 : 0 < request.(KlineRequest.EndMS)).

(** The calls the exchange answers as documented, its candles closed and well formed. *)
Definition binance_serves (c : call exchangeE) : Prop :=
  binance_honest a rows c ∧
  ∀ row, row ∈ rows → binance_start row <= request.(KlineRequest.EndMS) →
    binance_good a request.(KlineRequest.Symbol) tf c row.

Notation symbol := (request.(KlineRequest.Symbol)).
Notation endMS := (request.(KlineRequest.EndMS)).
Notation candle := (binance_candle a symbol tf).

Definition binance_window : list (list any) :=
  List.filter (fun row => (request.(KlineRequest.StartMS) <=? binance_start row) && (binance_start row <=? endMS)) rows.

Lemma binance_page_exact pageLimit cursorStart tr page :
  int64_range pageLimit → int64_range cursorStart →
  runs (fetchBinanceKlinePage a (a.(BinanceFuturesAdapter.restURL) ++ path)%string (binance_query path symbolParam symbol interval pageLimit cursorStart endMS) symbol tf) tr (Ok page) →
  all_calls binance_serves tr →
  Forall2 candle (binance_answer rows (binance_query path symbolParam symbol interval pageLimit cursorStart endMS)) page.
Proof.
  intros Hp Hc Hr Hs. set (query := binance_query _ _ _ _ _ _ _) in *.
  apply binance_page_run in Hr as (resp & body & rows' & now & Hdo & Hok & Hb & Hrows & Hnow & Hbars).
  unfold all_calls in Hs. rewrite Forall_forall in Hs. destruct (Hs _ Hdo) as [Hdo' _]. destruct (Hs _ Hnow) as [_ Hnow'].
  unfold binance_honest in Hdo'. cbv beta iota in Hdo'. rewrite (Hdo' path resp) in Hb by done. injection Hb as <-. rewrite as_rows in Hrows. injection Hrows as <-.
  destruct (page_bars_good a symbol tf now (binance_answer rows query)) as (page' & Hp' & Hf).
  - intros row Hin. apply (Hnow' row); [| |done].
    + unfold binance_answer in Hin. destruct (int_param query "startTime");
        [apply (subseteq_take _ _) in Hin|apply (subseteq_drop _ _) in Hin]; by apply elem_of_filter_bool in Hin as [_ ?].
    + destruct (int_param_limit path symbolParam symbol interval pageLimit cursorStart endMS) as (_ & _ & E); try done.
      fold query in E. unfold binance_answer in Hin. rewrite E in Hin.
      destruct (int_param query "startTime"); [apply (subseteq_take _ _) in Hin|apply (subseteq_drop _ _) in Hin];
        apply elem_of_filter_bool in Hin as [Hin _]; cbn in Hin; zbool; lia.
  - rewrite Hp' in Hbars. by injection Hbars as <-.
Qed.

(** What the loop carries: the rows read so far, the rows to come, and the count. *)
Record binance_inv (st : BinancePaging) (got rest : list (list any)) : Prop := {
  bi_window : binance_window = got ++ rest;
  bi_all : Forall2 candle got st.(BinancePaging.all);
  bi_before row : row ∈ got → binance_start row < st.(BinancePaging.cursorStart);
  bi_after row : row ∈ rest → st.(BinancePaging.cursorStart) <= binance_start row;
  bi_cursor : request.(KlineRequest.StartMS) <= st.(BinancePaging.cursorStart) <= Z.max request.(KlineRequest.StartMS) endMS;
  bi_remaining : st.(BinancePaging.remaining) =
    if 0 <? request.(KlineRequest.Limit) then request.(KlineRequest.Limit) - Z.of_nat (length got) else request.(KlineRequest.Limit);
  bi_wanted : 0 < request.(KlineRequest.Limit) → 0 < st.(BinancePaging.remaining);
}.

Lemma window_listing : listing tf binance_start binance_window.
Proof.
  destruct Hlist as [Hs Hr]. split; [by apply key_sorted_filter|]. intros row Hin. apply Hr.
  by apply elem_of_filter_bool in Hin as [_ ?].
Qed.

Lemma binance_answer_rest st got rest pageLimit :
  binance_inv st got rest → 0 < request.(KlineRequest.StartMS) → int64_range pageLimit → pageLimit <= usdm_max →
  binance_answer rows (binance_query path symbolParam symbol interval pageLimit st.(BinancePaging.cursorStart) endMS)
  = take (Z.to_nat pageLimit) rest.
Proof.
  intros Hi H0 Hp Hmax. pose proof (bi_cursor _ _ _ Hi) as Hc.
  destruct (int_param_limit path symbolParam symbol interval pageLimit st.(BinancePaging.cursorStart) endMS) as (E1 & E2 & E3);
    try done; [unfold int64_range in *; lia|].
  unfold binance_answer. rewrite E1, E2, E3. rewrite (proj2 (Z.ltb_lt 0 _)) by lia. cbn [default from_option id].
  rewrite Z.min_r by done. f_equal. cbn [from_time until_time].
  rewrite <- (filter_all (fun row => st.(BinancePaging.cursorStart) <=? binance_start row) rest)
    by (intros row Hin; apply Z.leb_le; by eapply bi_after).
  assert (rest = [] ++ rest) as Er by done.
  rewrite <- (filter_none (fun row => st.(BinancePaging.cursorStart) <=? binance_start row) got) in Er
    by (intros row Hin; apply Z.leb_gt; by eapply bi_before).
  transitivity (List.filter (fun row => st.(BinancePaging.cursorStart) <=? binance_start row) (got ++ rest)).
  - rewrite <- (bi_window _ _ _ Hi). unfold binance_window. rewrite <- filter_and. apply List.filter_ext. intros row.
    destruct (st.(BinancePaging.cursorStart) <=? binance_start row) eqn:E, (KlineRequest.StartMS request <=? binance_start row) eqn:E',
      (binance_start row <=? endMS) eqn:E''; zbool; try done; lia.
  - rewrite List.filter_app. rewrite (filter_none _ got); [done|]. intros row Hin. apply Z.leb_gt. by eapply bi_before.
Qed.

(** A row after the last one of a page starts where the next page does, or later. *)
Lemma next_after tf' (s s' : Z) : aligned tf' s → aligned tf' s' → s < s' → s <= MaxTS → NextStartMS s tf' <= s'.
Proof.
  intros Ha (k' & Hk' & ->) Hlt Hm. destruct Ha as (k & Hk & ->). rewrite grid_lt in Hlt.
  pose proof (grid_nonneg tf' k Hk). rewrite next_grid by (apply steppable_dom; unfold DayMS; lia).
  apply grid_le. lia.
Qed.

Lemma page_limit_range r maximum : 0 < maximum → 1 <= page_limit r maximum <= maximum ∧ (0 < r → page_limit r maximum <= r).
Proof. intros Hm. unfold page_limit. destruct (_ && _) eqn:E; zbool; [lia|]. apply andb_false_iff in E as [E|E]; zbool; lia. Qed.

(** Stopping with the whole window, or with as many candles as were asked for. *)
Lemma requested_prefix got rest :
  0 < request.(KlineRequest.StartMS) → binance_window = got ++ rest →
  (0 < request.(KlineRequest.Limit) → Z.of_nat (length got) <= request.(KlineRequest.Limit)) →
  rest = [] ∨ (0 < request.(KlineRequest.Limit) ∧ Z.of_nat (length got) = request.(KlineRequest.Limit)) →
  binance_requested rows request = got.
Proof.
  intros H0 Hw Hl Hr. unfold binance_requested. destruct (_ =? 0) eqn:E; zbool; [lia|]. fold binance_window. rewrite Hw.
  destruct (0 <? request.(KlineRequest.Limit)) eqn:El; zbool.
  - destruct Hr as [->|[_ Hn]].
    + rewrite app_nil_r. apply take_ge. specialize (Hl El). lia.
    + rewrite take_app_le by lia. apply take_ge. lia.
  - destruct Hr as [->|[? _]]; [by rewrite app_nil_r|lia].
Qed.

Lemma page_in_request st got rest P page :
  binance_inv st got rest → 0 < request.(KlineRequest.StartMS) → Forall2 candle (take P rest) page →
  List.filter (in_request request) page = page.
Proof.
  intros Hi H0 Hp. apply filter_all. intros bar Hb. apply list_elem_of_lookup_1 in Hb as [i Hb].
  destruct (Forall2_lookup_r _ _ _ _ _ Hp Hb) as (row & Hrow & Hc). apply binance_candle_start in Hc.
  apply list_elem_of_lookup_2, (subseteq_take _ _) in Hrow.
  assert (row ∈ binance_window) as Hw by (rewrite (bi_window _ _ _ Hi); set_solver).
  apply elem_of_filter_bool in Hw as [Hw _]. zbool. unfold in_request. rewrite Hc.
  destruct (0 <? request.(KlineRequest.StartMS)) eqn:E1, (binance_start row <? request.(KlineRequest.StartMS)) eqn:E2,
    (0 <? endMS) eqn:E3, (endMS <? binance_start row) eqn:E4; zbool; try done; lia.
Qed.

Lemma binance_after_exact P st got rest page :
  1 <= P → (0 < st.(BinancePaging.remaining) → P <= st.(BinancePaging.remaining)) →
  binance_inv st got rest → 0 < request.(KlineRequest.StartMS) → Forall2 candle (take (Z.to_nat P) rest) page →
  match binance_after_page request tf endMS P st page with
  | inl st' => ∃ got' rest', binance_inv st' got' rest'
  | inr all => Forall2 candle (binance_requested rows request) all
  end.
Proof.
  intros HP HPr Hi H0 Hp. pose proof (page_in_request _ _ _ _ _ Hi H0 Hp) as Hfilter.
  assert (Z.of_nat (length (take (Z.to_nat P) rest)) <= P) as HnP by (rewrite length_take; lia).
  assert (Hshort : Z.of_nat (length (take (Z.to_nat P) rest)) < P → drop (Z.to_nat P) rest = []).
  { rewrite length_take. intros. apply drop_ge. lia. }
  remember (take (Z.to_nat P) rest) as rows' eqn:Et.
  assert (Forall2 candle (got ++ rows') (st.(BinancePaging.all) ++ page)) as Hall
    by (apply Forall2_app; [by eapply bi_all|done]).
  assert (binance_window = (got ++ rows') ++ drop (Z.to_nat P) rest) as Hw
    by (rewrite (bi_window _ _ _ Hi), <- app_assoc, Et; by rewrite take_drop).
  assert (length page = length rows') as Hn by (by apply Forall2_length in Hp).
  pose proof (bi_remaining _ _ _ Hi) as Hrem. pose proof (bi_wanted _ _ _ Hi) as Hwant.
  assert (0 < request.(KlineRequest.Limit) → Z.of_nat (length (got ++ rows')) <= request.(KlineRequest.Limit)) as Hlen.
  { intros Hl. rewrite length_app. specialize (Hwant Hl). specialize (HPr Hwant).
    rewrite (proj2 (Z.ltb_lt 0 _)) in Hrem by done. lia. }
  (* stopping early means that nothing is left *)
  assert (Hstop : drop (Z.to_nat P) rest = [] → Forall2 candle (binance_requested rows request) (st.(BinancePaging.all) ++ page)).
  { intros Hd. rewrite (requested_prefix _ _ H0 Hw Hlen); [done|by left]. }
  unfold binance_after_page. rewrite Hfilter.
  destruct (last page) as [newest|] eqn:El.
  2:{ apply last_None in El. subst page. apply Hstop, Hshort. rewrite <- Hn. simpl. lia. }
  destruct (_ =? 0) eqn:E0; zbool; [lia|]. cbv zeta. rewrite Hn.
  destruct (_ && _) eqn:Er.
  { destruct (0 <? st.(BinancePaging.remaining)) eqn:Ec; [|done]. cbn [andb] in Er. zbool.
    rewrite (requested_prefix _ _ H0 Hw Hlen); [done|]. right.
    destruct (0 <? request.(KlineRequest.Limit)) eqn:E; zbool; [|lia]. specialize (Hlen E). rewrite length_app in *.
    split; [done|]. lia. }
  destruct (last_Forall2 _ _ _ _ Hp El) as (row & l' & El' & Hrow). apply binance_candle_start in Hrow. rewrite Hrow.
  destruct window_listing as [Hsorted Hgrid].
  assert (row ∈ rest) as Hin by (apply (subseteq_take (Z.to_nat P)); rewrite <- Et, El'; set_solver).
  assert (∀ row', row' ∈ drop (Z.to_nat P) rest → NextStartMS (binance_start row) tf <= binance_start row' <= endMS) as Hafter.
  { intros row' Hin'. assert (row' ∈ binance_window) as Hw' by (rewrite Hw; set_solver).
    assert (row ∈ binance_window) as Hw'' by (rewrite Hw, El'; set_solver).
    destruct (Hgrid _ Hw') as [Ha' _], (Hgrid _ Hw'') as [Ha ?]. split.
    - apply next_after; try done; [|lia]. rewrite Hw in Hsorted. eapply key_sorted_app_lt; [done| |done].
      rewrite El'. set_solver.
    - apply elem_of_filter_bool in Hw' as [Hw' _]. zbool. lia. }
  destruct (_ || _) eqn:Ee.
  { apply Hstop. destruct (drop (Z.to_nat P) rest) as [|row' l]; [done|]. destruct (Hafter row') as [H1 H2]; [by left|].
    apply orb_true_iff in Ee as [Ee|Ee]; zbool; [lia|].
    pose proof (bi_after _ _ _ Hi _ Hin). assert (row ∈ binance_window) as Hw'' by (rewrite (bi_window _ _ _ Hi); set_solver).
    destruct (Hgrid _ Hw'') as [Ha ?]. destruct (aligned_next tf (binance_start row)) as [_ ?]; [done|lia|]. lia. }
  destruct (_ <? P) eqn:Es; zbool; [by apply Hstop, Hshort|].
  exists (got ++ rows'), (drop (Z.to_nat P) rest). constructor; cbn.
  - done.
  - done.
  - intros row' Hr'. assert (row' = row ∨ binance_start row' < binance_start row) as Hle.
    { rewrite Hw, El', app_assoc in Hsorted. rewrite El', app_assoc in Hr'.
      apply elem_of_app in Hr' as [Hr'| ->%list_elem_of_singleton]; [|by left]. right.
      rewrite <- app_assoc in Hsorted. eapply key_sorted_app_lt; [done..|set_solver]. }
    assert (row ∈ binance_window) as Hw'' by (rewrite (bi_window _ _ _ Hi); set_solver).
    destruct (Hgrid _ Hw'') as [Ha ?]. destruct (aligned_next tf (binance_start row)) as [_ ?]; [done|lia|].
    destruct Hle as [->|?]; lia.
  - intros row' Hr'. apply Hafter in Hr'. lia.
  - pose proof (bi_cursor _ _ _ Hi). lia.
  - destruct (0 <? request.(KlineRequest.Limit)) eqn:E; zbool.
    + rewrite (proj2 (Z.ltb_lt 0 _)) by auto. rewrite length_app. lia.
    + destruct (0 <? st.(BinancePaging.remaining)) eqn:E'; zbool; [lia|done].
  - intros Hl. specialize (Hwant Hl). rewrite (proj2 (Z.ltb_lt 0 _)) in Er by done. cbn [andb] in Er. zbool.
    by rewrite (proj2 (Z.ltb_lt 0 _)) by done.
Qed.

Lemma binance_step_exact st got rest tr x :
  binance_inv st got rest → 0 < request.(KlineRequest.StartMS) →
  runs (binance_step a request tf path symbolParam interval endMS st) tr x → all_calls binance_serves tr →
  match x with
  | inl st' => ∃ got' rest', binance_inv st' got' rest'
  | inr (Ok all) => Forall2 candle (binance_requested rows request) all
  | inr (Err _) => True
  end.
Proof.
  intros Hi H0 (tr1 & [page|e] & tr2 & -> & H1 & Hr)%runs_bind Hs; [|by apply runs_Ret in Hr as [_ ->]].
  apply Forall_app in Hs as [Hs _].
  destruct (page_limit_range st.(BinancePaging.remaining) binanceMaxKlineLimit) as [HP HPr]; [done|].
  unfold binanceMaxKlineLimit in HP. apply binance_page_exact in H1; [|unfold int64_range, two63; unfold binanceMaxKlineLimit; lia| |done].
  2:{ pose proof (bi_cursor _ _ _ Hi). unfold int64_range in *. lia. }
  rewrite (binance_answer_rest _ _ _ _ Hi) in H1; [|done|unfold int64_range, two63; unfold binanceMaxKlineLimit; lia|apply HP].
  pose proof (binance_after_exact _ _ _ _ _ (proj1 HP) HPr Hi H0 H1) as Hn.
  destruct (binance_after_page _ _ _ _ _ _) as [st'|all].
  - apply runs_bind in Hr as (tr3 & [e|] & tr4 & -> & _ & [-> ->]%runs_Ret); [done|exact Hn].
  - by apply runs_Ret in Hr as [-> ->].
Qed.

(** What is returned is the list that was collected: it is sorted and not too long. *)
Lemma sorted_trimmed got all :
  listing tf binance_start got → Forall2 candle got all →
  (0 < request.(KlineRequest.Limit) → Z.of_nat (length got) <= request.(KlineRequest.Limit)) →
  trimBars (sortBars all) request.(KlineRequest.Limit) = all.
Proof.
  intros [Hs _] Hf Hl. pose proof (binance_candles_starts _ _ _ _ _ Hf) as Hst.
  assert (key_sorted Bar.StartMS all) as Hso by (apply key_sorted_keys; rewrite Hst; by apply (proj1 (key_sorted_keys _ _))).
  rewrite sortBars_by, sort_by_id by auto using key_sorted_NoDup. unfold trimBars.
  rewrite <- (Forall2_length _ _ _ Hf). destruct (_ || _) eqn:E; [done|]. zbool. lia.
Qed.

Lemma requested_listing :
  listing tf binance_start (binance_requested rows request) ∧
  (0 < request.(KlineRequest.Limit) →
   Z.of_nat (length (binance_requested rows request)) <= request.(KlineRequest.Limit)).
Proof.
  destruct window_listing as [Hs Hg]. unfold binance_requested. fold binance_window.
  destruct (_ =? 0) eqn:E; [|destruct (0 <? _) eqn:El]; (split; [split|]).
  - by apply key_sorted_drop.
  - intros row Hin. by apply Hg, (subseteq_drop _ _ _ Hin).
  - intros Hl. unfold newest_of. rewrite length_drop.
    destruct (page_limit_range (wanted request) binanceMaxKlineLimit) as [H1 H2]; [done|].
    unfold wanted in *. rewrite (proj2 (Z.leb_gt _ 0)) in * by lia. cbn [andb] in *. lia.
  - rewrite <- (take_drop (Z.to_nat request.(KlineRequest.Limit)) binance_window) in Hs.
    by eapply StronglySorted_app_1_l.
  - intros row Hin. by apply Hg, (subseteq_take _ _ _ Hin).
  - intros _. rewrite length_take. zbool. lia.
  - done.
  - done.
  - zbool. lia.
Qed.

(** Without a start there is one page. *)
Lemma binance_newest_step st tr x :
  request.(KlineRequest.StartMS) = 0 → st = BinancePaging.mk [] (wanted request) 0 →
  runs (binance_step a request tf path symbolParam interval endMS st) tr x → all_calls binance_serves tr →
  match x with
  | inl _ => False
  | inr (Ok all) => Forall2 candle (binance_requested rows request) all
  | inr (Err _) => True
  end.
Proof.
  intros H0 -> (tr1 & [page|e] & tr2 & -> & H1 & Hr)%runs_bind Hs; [|by apply runs_Ret in Hr as [_ ->]].
  apply Forall_app in Hs as [Hs _]. cbn [BinancePaging.remaining BinancePaging.cursorStart] in *.
  destruct (page_limit_range (wanted request) binanceMaxKlineLimit) as [HP _]; [done|]. unfold binanceMaxKlineLimit in HP.
  assert (int64_range (page_limit (wanted request) binanceMaxKlineLimit)) as HPr
    by (unfold int64_range, two63; unfold binanceMaxKlineLimit; lia).
  apply binance_page_exact in H1; [|done|by unfold int64_range, two63|done].
  destruct (int_param_limit path symbolParam symbol interval (page_limit (wanted request) binanceMaxKlineLimit) 0 endMS)
    as (E1 & E2 & E3); try done.
  unfold binance_answer in H1. rewrite E1, E2, E3 in H1. cbn [Z.ltb Z.compare from_time until_time default from_option id] in H1.
  rewrite Z.min_r in H1 by apply HP.
  assert (Forall2 candle (binance_requested rows request) page) as Hp.
  { unfold binance_requested. rewrite H0. cbn [Z.eqb]. erewrite List.filter_ext_in; [exact H1|].
    intros row Hin%list_elem_of_In. destruct Hlist as [_ Hg]. destruct (Hg row Hin) as [_ ?].
    destruct (0 <=? binance_start row) eqn:E; zbool; [done|lia]. }
  assert (List.filter (in_request request) page = page) as Hf.
  { apply filter_all. intros bar Hb. apply list_elem_of_lookup_1 in Hb as [i Hb].
    destruct (Forall2_lookup_r _ _ _ _ _ Hp Hb) as (row & Hrow & Hc). apply binance_candle_start in Hc.
    apply list_elem_of_lookup_2 in Hrow. unfold binance_requested in Hrow. rewrite H0 in Hrow. cbn [Z.eqb] in Hrow.
    apply (subseteq_drop _ _) in Hrow. apply elem_of_filter_bool in Hrow as [Hw _]. zbool.
    unfold in_request. rewrite Hc, H0. cbn [Z.ltb Z.compare andb negb].
    destruct (endMS <? binance_start row) eqn:E; zbool; [lia|by rewrite andb_false_r]. }
  unfold binance_after_page in Hr. rewrite Hf, H0 in Hr. cbn [Z.eqb BinancePaging.all app] in Hr.
  destruct (last page); apply runs_Ret in Hr as [-> ->]; done.
Qed.

Lemma binance_start_inv :
  0 < request.(KlineRequest.StartMS) →
  binance_inv (BinancePaging.mk [] (wanted request) request.(KlineRequest.StartMS)) [] binance_window.
Proof.
  intros H0. assert (wanted request = request.(KlineRequest.Limit)) as Ew.
  { unfold wanted. destruct (request.(KlineRequest.StartMS) =? 0) eqn:E; zbool; [lia|]. by rewrite andb_false_r. }
  constructor; cbn; rewrite ?Ew; try done.
  - by intros row ?%elem_of_nil.
  - intros row Hin. apply elem_of_filter_bool in Hin as [Hin _]. zbool. lia.
  - lia.
  - destruct (0 <? _); lia.
Qed.

Lemma fetchBinanceKlines_exact tr bars :
  0 <= request.(KlineRequest.StartMS) → symbol ≠ "" →
  runs (fetchBinanceKlines a request tf path symbolParam interval) tr (Ok bars) → all_calls binance_serves tr →
  Forall2 candle (binance_requested rows request) bars.
Proof.
  intros H0 Hsym Hr Hs. unfold fetchBinanceKlines in Hr. rewrite bool_decide_eq_false_2 in Hr by done.
  rewrite (proj2 (Z.leb_gt endMS 0)) in Hr by done.
  apply runs_bind in Hr as (tr0 & cursorEnd & tr' & -> & [-> ->]%runs_Ret & Hr). rewrite app_nil_l in Hs.
  apply runs_bind in Hr as (tr1 & [all|e] & tr2 & -> & H1 & [-> [= ->]]%runs_Ret).
  apply Forall_app in Hs as [Hs _].
  assert (Forall2 candle (binance_requested rows request) all) as Hall.
  { destruct (decide (request.(KlineRequest.StartMS) = 0)) as [E|Hne].
    - refine (runs_page_loop _ _ tr1 (Ok all) (λ tr st, all_calls binance_serves tr → st = BinancePaging.mk [] (wanted request) 0)
               (λ tr r, all_calls binance_serves tr →
                  match r with Ok all => Forall2 candle (binance_requested rows request) all | Err _ => True end) _ _ H1 Hs).
      + intros _. by rewrite E.
      + intros tr st tr' x Hst Hx. destruct x as [st'|[all'|e]]; [..|done]; intros [Htr Htr']%Forall_app;
          by apply (binance_newest_step _ _ _ E (Hst Htr) Hx) in Htr'.
    - refine (runs_page_loop _ _ tr1 (Ok all) (λ tr st, all_calls binance_serves tr → ∃ got rest, binance_inv st got rest)
               (λ tr r, all_calls binance_serves tr →
                  match r with Ok all => Forall2 candle (binance_requested rows request) all | Err _ => True end) _ _ H1 Hs).
      + intros _. eexists _, _. apply binance_start_inv. lia.
      + intros tr st tr' x Hst Hx. destruct x as [st'|[all'|e]]; [..|done]; intros [Htr Htr']%Forall_app;
          destruct (Hst Htr) as (got & rest & Hi); by apply (binance_step_exact _ _ _ _ _ Hi ltac:(lia) Hx) in Htr'. }
  destruct requested_listing as [Hg Hl]. rewrite (sorted_trimmed _ _ Hg Hall Hl). done.
Qed.
End binance.

(** The adapter is one of the USD-M market. *)
Definition usd_margined (a : BinanceFuturesAdapter) : bool :=
  bool_decide (a.(BinanceFuturesAdapter.marketType) = "") || EqualFold a.(BinanceFuturesAdapter.marketType) "um_futures".

Lemma usd_margined_path a : usd_margined a = true → binance_path a "klines" = "/fapi/v1/klines".
Proof. unfold usd_margined, binance_path. by intros ->. Qed.

(** C15: paging the candles of the USD-M market of Binance leaves nothing out and
    nothing twice.  If the exchange holds the rows of the timeframe in order, each a
    closed candle with a positive price, and every request to /fapi/v1/klines or
    /fapi/v1/continuousKlines that succeeds is answered as documented (at most 1500
    rows, the first from startTime on), then a successful FetchKlines, or
    FetchContinuousKlines, returns, in order, one candle for each of the rows from
    StartMS to EndMS (the first [Limit] of them when there is a limit); without a
    start, for the newest of one page.  The adapters of the spot and COIN-M markets
    are not meant: their interfaces answer otherwise. *)
Theorem binance_fetch_exact rows a request tf interval tr bars :
  usd_margined a = true →
  binanceKlineInterval request.(KlineRequest.Timeframe) = Ok (tf, interval) →
  listing tf binance_start rows →
  0 <= request.(KlineRequest.StartMS) < two63 → 0 < request.(KlineRequest.EndMS) < two63 →
  int64_range request.(KlineRequest.Limit) →
  ToUpper (TrimSpace request.(KlineRequest.Symbol)) ≠ "" →
  runs (binance_FetchKlines a request) tr (Ok bars) ∨ runs (FetchContinuousKlines a request) tr (Ok bars) →
  all_calls (binance_serves rows a (with_symbol request) tf) tr →
  Forall2 (binance_candle a (ToUpper (TrimSpace request.(KlineRequest.Symbol))) tf) (binance_requested rows request) bars.
Proof.
  intros Husd Htf Hlist Hs He Hlim Hsym Hr Hserve. unfold binance_FetchKlines, FetchContinuousKlines in Hr. rewrite Htf in Hr.
  assert (int64_range request.(KlineRequest.StartMS) ∧ int64_range request.(KlineRequest.EndMS)) as [Hs' He']
    by (unfold int64_range; lia).
  assert (negb (EqualFold a.(BinanceFuturesAdapter.marketType) "um_futures")
          && negb (bool_decide (a.(BinanceFuturesAdapter.marketType) = "")) = false) as Hu.
  { rewrite <- negb_orb, orb_comm. unfold usd_margined in Husd. by rewrite Husd. }
  rewrite Hu in Hr. destruct Hr as [Hr|Hr].
  - rewrite (usd_margined_path _ Husd) in Hr.
    apply (fetchBinanceKlines_exact rows a (with_symbol request) tf _ _ _ Hlist (or_introl eq_refl) (or_introl eq_refl) Hs' He' Hlim) in Hr;
      [done|apply He|apply Hs|done|done].
  - apply (fetchBinanceKlines_exact rows a (with_symbol request) tf _ _ _ Hlist (or_intror eq_refl) (or_intror eq_refl) Hs' He' Hlim) in Hr;
      [done|apply He|apply Hs|done|done].
Qed.

(** ** OKX *)

Definition okx_start_of (row : list string) : Z := parseInt (default "" (head row)).

(** What OKX answers: the newest [limit] candles older than [after], newest first. *)
Definition okx_answer (rows : list (list string)) (query : list (string * string)) : list (list string) :=
  reverse (newest_of (default 100 (int_param query "limit"))
             (List.filter (fun row => match int_param query "after" with Some t => okx_start_of row <? t | None => true end) rows)).

(** A call is honest when an answer without an error code holds these rows. *)
Definition okx_honest (rows : list (list string)) (c : call exchangeE) : Prop :=
  match c with
  | Call e x =>
      match e in exchangeE X return X → Prop with
      | Do _ query => fun answer =>
          ∀ resp code msg data, answer = Ok resp → success resp.(Response.StatusCode) = true →
            okx_decoded resp.(Response.Body) = Ok (code, msg, data) → code = "" ∨ code = "0" → data = okx_answer rows query
      | _ => fun _ => True
      end x
  end.

Definition okx_candle (a : OKXAdapter) (symbol : string) (tf : Frame) (row : list string) (bar : Bar) : Prop :=
  ∃ now, okx_row a symbol tf now row = Ok (Some bar).

(** An honest call, at which every row becomes a candle. *)
Definition okx_serves (rows : list (list string)) (a : OKXAdapter) (symbol : string) (tf : Frame) (c : call exchangeE) : Prop :=
  okx_honest rows c ∧
  ∀ row, row ∈ rows → ∀ now, c = Call Now now → ∃ bar, okx_row a symbol tf now row = Ok (Some bar).

(** The candles a request asks OKX for: those of its range, the newest [Limit] of them. *)
Definition in_range_of (request : KlineRequest) (s : Z) : bool :=
  negb ((0 <? request.(KlineRequest.StartMS)) && (s <? request.(KlineRequest.StartMS)))
  && negb ((0 <? request.(KlineRequest.EndMS)) && (request.(KlineRequest.EndMS) <? s)).
Definition okx_requested (rows : list (list string)) (request : KlineRequest) : list (list string) :=
  let window := List.filter (fun row => in_range_of request (okx_start_of row)) rows in
  if 0 <? wanted request then newest_of (wanted request) window else window.

Lemma okx_int_params symbol bar adjustment after limit :
  int64_range after → int64_range limit →
  int_param (okx_query symbol bar adjustment after limit) "limit" = Some limit ∧
  int_param (okx_query symbol bar adjustment after limit) "after" = (if 0 <? after then Some after else None).
Proof.
  intros Ha Hl. unfold okx_query. destruct (okx_forward adjustment), (0 <? after);
    unfold int_param, param; cbn; rewrite ?ParseInt_pretty by done; done.
Qed.

Lemma okx_candle_start a symbol tf row bar : okx_candle a symbol tf row bar → bar.(Bar.StartMS) = okx_start_of row.
Proof. intros [now H]. apply okx_row_ok in H as [_ H]. unfold okx_start_of. destruct row; [done|]. cbn in *. congruence. Qed.

Lemma okx_candles_starts a symbol tf rows page :
  Forall2 (okx_candle a symbol tf) rows page → Bar.StartMS <$> page = okx_start_of <$> rows.
Proof. induction 1 as [|row bar rows page H _ IH]; [done|]. rewrite !fmap_cons, IH. f_equal. by eapply okx_candle_start. Qed.

Lemma okx_bars_good a symbol tf now rows :
  (∀ row, row ∈ rows → ∃ bar, okx_row a symbol tf now row = Ok (Some bar)) →
  ∃ page, page_bars (okx_row a symbol tf now) rows = Ok page ∧ Forall2 (okx_candle a symbol tf) rows page.
Proof.
  induction rows as [|row rows IH]; intros Hg; [by exists []|]. destruct (Hg row) as [bar Hb]; [by left|].
  destruct IH as (page & Hp & Hf); [intros; apply Hg; by right|]. exists (bar :: page). cbn. rewrite Hb, Hp.
  split; [done|]. constructor; [by exists now|done].
Qed.

(** A permutation of candles with sorted starts has one sorted form. *)
Lemma sortBars_unique all sorted : key_sorted Bar.StartMS sorted → all ≡ₚ sorted → sortBars all = sorted.
Proof.
  intros Hs Hp. assert (NoDup (Bar.StartMS <$> all)) as Hnd.
  { rewrite (fmap_Permutation Bar.StartMS _ _ Hp). by apply key_sorted_NoDup. }
  rewrite sortBars_by by done. rewrite (sort_by_Permutation _ all sorted) by done. by apply sort_by_id.
Qed.

Lemma filter_app_head {A} (k : A → Z) (t : Z) older taken :
  key_sorted k (older ++ taken) → (∀ x, head taken = Some x → t = k x) → taken ≠ [] →
  List.filter (fun x => t <=? k x) (older ++ taken) = taken ∧
  List.filter (fun x => k x <? t) (older ++ taken) = older.
Proof.
  intros Hs Ht Hne. destruct taken as [|x taken]; [done|]. rewrite (Ht x eq_refl).
  assert (∀ y, y ∈ older → k y < k x) as Hold by (intros y Hy; eapply key_sorted_app_lt; [done|done|by left]).
  assert (∀ y, y ∈ x :: taken → k x <= k y) as Hnew.
  { apply StronglySorted_app_1_r in Hs. apply StronglySorted_inv in Hs as [_ Hf]. rewrite Forall_forall in Hf.
    intros y [->|Hy]%elem_of_cons; [lia|]. specialize (Hf y Hy). cbn in Hf. lia. }
  rewrite !List.filter_app. split.
  - rewrite filter_none, filter_all; [done| |]; intros y Hy; [apply Z.leb_le; auto|apply Z.leb_gt; auto].
  - rewrite filter_all, (filter_none _ (x :: taken)), app_nil_r; [done| |]; intros y Hy; [apply Z.ltb_ge; auto|apply Z.ltb_lt; auto].
Qed.

Lemma newest_of_split {A} n (l : list A) : 0 <= n → ∃ older, l = older ++ newest_of n l ∧
  Z.of_nat (length (newest_of n l)) = Z.min n (Z.of_nat (length l)).
Proof.
  intros Hn. exists (take (Z.to_nat (Z.of_nat (length l) - n)) l). unfold newest_of. rewrite take_drop, length_drop. split; [done|lia].
Qed.

Lemma newest_of_suffix {A} n (l1 l2 : list A) : Z.of_nat (length l2) = n → newest_of n (l1 ++ l2) = l2.
Proof.
  intros Hn. unfold newest_of. rewrite length_app, drop_app_ge by lia.
  by match goal with |- drop ?k _ = _ => replace k with 0%nat by lia end.
Qed.

Lemma newest_of_all {A} n (l : list A) : Z.of_nat (length l) <= n → newest_of n l = l.
Proof. intros Hn. unfold newest_of. by replace (Z.to_nat (Z.of_nat (length l) - n)) with 0%nat by lia. Qed.

Lemma sorted_filter_split {A} (k : A → Z) (p : A → bool) l :
  key_sorted k l → (∀ x y, p y = true → k x < k y → p x = true) →
  l = List.filter p l ++ List.filter (fun x => negb (p x)) l.
Proof.
  intros Hs Hp. induction Hs as [|x l Hs IH Hx]; [done|]. cbn. destruct (p x) eqn:E; cbn; [by f_equal|].
  rewrite Forall_forall in Hx.
  assert (∀ y, y ∈ l → p y = false) as Hl.
  { intros y Hy. destruct (p y) eqn:E'; [|done]. rewrite (Hp x y E' (Hx y Hy)) in E. done. }
  rewrite (filter_none p l Hl). cbn. f_equal. symmetry. apply filter_all. intros y Hy. by rewrite (Hl y Hy).
Qed.

Lemma filter_Forall2 {A B} (P : A → B → Prop) (p : A → bool) (q : B → bool) l k :
  (∀ x y, P x y → p x = q y) → Forall2 P l k → Forall2 P (List.filter p l) (List.filter q k).
Proof.
  intros Hpq. induction 1 as [|x y l k Hxy _ IH]; [constructor|]. cbn. rewrite <- (Hpq x y Hxy).
  destruct (p x); [by constructor|done].
Qed.

Lemma okx_accept_new request page all seen :
  NoDup (Bar.StartMS <$> page) → (∀ b, b ∈ page → b.(Bar.StartMS) ∉ seen) →
  ∃ seen', foldl (okx_accept request) (all, seen) page = (all ++ List.filter (in_request request) page, seen') ∧
    ∀ z, z ∈ seen' → z ∈ seen ∨ z ∈ Bar.StartMS <$> page.
Proof.
  revert all seen. induction page as [|b page IH]; intros all seen Hnd Hs; cbn [foldl].
  - exists seen. rewrite app_nil_r. auto.
  - rewrite fmap_cons in Hnd. apply NoDup_cons in Hnd as [Hb Hnd]. cbn [List.filter]. unfold okx_accept at 2.
    rewrite (bool_decide_eq_false_2 (b.(Bar.StartMS) ∈ seen)) by (apply Hs; by left). rewrite andb_true_r.
    destruct (in_request request b) eqn:E.
    + destruct (IH (all ++ [b]) ({[b.(Bar.StartMS)]} ∪ seen) Hnd) as (seen' & -> & Hz).
      * intros b' Hb'. rewrite not_elem_of_union, not_elem_of_singleton. split; [|apply Hs; by right].
        intros Heq. apply Hb. rewrite <- Heq. apply list_elem_of_fmap. eauto.
      * exists seen'. rewrite <- app_assoc. split; [done|]. intros z Hin. rewrite fmap_cons. specialize (Hz z Hin). set_solver.
    + destruct (IH all seen Hnd) as (seen' & -> & Hz); [intros; apply Hs; by right|].
      exists seen'. split; [done|]. intros z Hin. rewrite fmap_cons. specialize (Hz z Hin). set_solver.
Qed.

Lemma oldest_start_spec first page :
  (∀ b, b ∈ page → first.(Bar.StartMS) <= b.(Bar.StartMS)) → oldest_start first page = first.(Bar.StartMS).
Proof.
  unfold oldest_start. generalize first.(Bar.StartMS) as s. intros s. induction page as [|b page IH]; intros H; [done|].
  cbn [foldl]. assert (s <= b.(Bar.StartMS)) by (apply H; by left).
  destruct (b.(Bar.StartMS) <? s) eqn:E; zbool; [lia|]. apply IH. intros. apply H. by right.
Qed.

Section okx.
Context (rows : list (list string)) (a : OKXAdapter) (request : KlineRequest) (tf : Frame) (bar : string).
Context (Hlist : listing tf okx_start_of rows).
Context (Hstart : 0 <= request.(KlineRequest.StartMS)) (Hend : 0 <= request.(KlineRequest.EndMS)).
Context (Hdomain : request.(KlineRequest.EndMS) = 0 ∨ in_domain tf request.(KlineRequest.EndMS)).

Notation symbol := (request.(KlineRequest.Symbol)).
Notation candle := (okx_candle a symbol tf).
Notation serves := (okx_serves rows a symbol tf).

Definition okx_window : list (list string) := List.filter (fun row => in_range_of request (okx_start_of row)) rows.

(** The rows not yet asked for, and those already read, when the cursor is [after]. *)
Definition ahead (after s : Z) : bool := (after =? 0) || (s <? after).
Definition okx_older (after : Z) : list (list string) := List.filter (fun row => ahead after (okx_start_of row)) rows.
Definition okx_got (after : Z) : list (list string) :=
  List.filter (fun row => in_range_of request (okx_start_of row)) (List.filter (fun row => negb (ahead after (okx_start_of row))) rows).

Record okx_cursor (st : OKXPaging) : Prop := {
  oc_range : 0 <= st.(OKXPaging.after) <= MaxTS + 200 * DayMS;
  oc_all : ∃ l, l ≡ₚ okx_got st.(OKXPaging.after) ∧ Forall2 candle l st.(OKXPaging.all);
  oc_seen z : z ∈ st.(OKXPaging.seen) → ahead st.(OKXPaging.after) z = false;
  oc_remaining : st.(OKXPaging.remaining) =
    if 0 <? wanted request then wanted request - Z.of_nat (length st.(OKXPaging.all)) else wanted request;
  oc_wanted : 0 < wanted request → 0 < st.(OKXPaging.remaining);
}.

Lemma older_listing after : listing tf okx_start_of (okx_older after).
Proof.
  destruct Hlist as [Hs Hg]. split; [by apply key_sorted_filter|]. intros row Hin. apply Hg.
  by apply elem_of_filter_bool in Hin as [_ ?].
Qed.

Lemma answer_older after adjustment limit :
  0 <= after <= MaxTS + 200 * DayMS → 1 <= limit <= 300 →
  okx_answer rows (okx_query symbol bar adjustment after limit) = reverse (newest_of limit (okx_older after)).
Proof.
  intros Ha Hl. destruct (okx_int_params symbol bar adjustment after limit) as [E1 E2];
    [unfold int64_range, two63, MaxTS, DayMS in *; lia..|].
  unfold okx_answer. rewrite E1, E2. cbn [default from_option id]. do 2 f_equal. apply List.filter_ext. intros row.
  unfold ahead. destruct (0 <? after) eqn:E, (after =? 0) eqn:E'; zbool; try done; lia.
Qed.

(** A page holds the candles of the newest rows before the cursor, in order. *)
Lemma okx_page_exact path after limit adjustment tr page :
  0 <= after <= MaxTS + 200 * DayMS → 1 <= limit <= 300 → all_calls serves tr →
  runs (fetchOKXKlinePage a path symbol tf bar after limit adjustment) tr (Ok page) →
  Forall2 candle (newest_of limit (okx_older after)) page.
Proof.
  intros Ha Hl Hs Hr. apply okx_page_run in Hr as (resp & msg & code & data & now & bars & Hdo & Hok & Hd & Hcode & Hnow & Hbars & ->).
  unfold all_calls in Hs. rewrite Forall_forall in Hs. destruct (Hs _ Hdo) as [Hdo' _]. destruct (Hs _ Hnow) as [_ Hnow'].
  unfold okx_honest in Hdo'. cbv beta iota in Hdo'. specialize (Hdo' resp code msg data eq_refl Hok Hd Hcode). subst data.
  rewrite answer_older in Hbars by done. set (taken := newest_of limit (okx_older after)) in *.
  assert (listing tf okx_start_of taken) as [Hts Htg].
  { destruct (older_listing after) as [H1 H2]. split; [by apply key_sorted_drop|]. intros row Hin. by apply H2, (subseteq_drop _ _ _ Hin). }
  destruct (okx_bars_good a symbol tf now (reverse taken)) as (page & Hp & Hf).
  - intros row Hin. rewrite elem_of_reverse in Hin. apply (Hnow' row); [|done]. apply (subseteq_drop _ _) in Hin.
    by apply elem_of_filter_bool in Hin as [_ ?].
  - rewrite Hp in Hbars. injection Hbars as ->. apply Forall2_reverse in Hf. rewrite reverse_involutive in Hf.
    rewrite (sortBars_unique bars (reverse bars)); [done| |by rewrite reverse_Permutation].
    apply key_sorted_keys. rewrite (okx_candles_starts _ _ _ _ _ Hf). by apply (proj1 (key_sorted_keys _ _)).
Qed.

Lemma okx_rows_split after : rows = okx_older after ++ List.filter (fun row => negb (ahead after (okx_start_of row))) rows.
Proof.
  destruct Hlist as [Hs _]. apply (sorted_filter_split okx_start_of); [done|]. intros x y Hy Hxy.
  unfold ahead in *. destruct (after =? 0); [done|]. cbn in *. zbool. apply Z.ltb_lt. lia.
Qed.

Lemma window_split after :
  okx_window = List.filter (fun row => in_range_of request (okx_start_of row)) (okx_older after) ++ okx_got after.
Proof. unfold okx_window, okx_got. rewrite <- List.filter_app. f_equal. apply okx_rows_split. Qed.

Lemma cursor_moves after P first taken :
  1 <= P → newest_of P (okx_older after) = first :: taken →
  0 < okx_start_of first <= MaxTS ∧ (after = 0 ∨ okx_start_of first < after) ∧
  okx_got (okx_start_of first) =
    List.filter (fun row => in_range_of request (okx_start_of row)) (first :: taken) ++ okx_got after.
Proof.
  intros HP Hn. destruct (newest_of_split P (okx_older after)) as (front & Hf & _); [lia|]. rewrite Hn in Hf.
  assert (first ∈ okx_older after) as Hin by (rewrite Hf; set_solver).
  apply elem_of_filter_bool in Hin as [Ha Hin]. destruct Hlist as [Hs Hg]. destruct (Hg _ Hin) as [_ Hr].
  split_and!; [lia|lia| |].
  - unfold ahead in Ha. destruct (after =? 0) eqn:E; zbool; [by left|right]. cbn in Ha. by zbool.
  - pose proof (okx_rows_split after) as Hrows. rewrite Hf, <- app_assoc in Hrows.
    unfold okx_got. rewrite <- List.filter_app. f_equal.
    rewrite Hrows in Hs. destruct (filter_app_head okx_start_of (okx_start_of first) front _ Hs) as [H1 _]; [by intros x [= ->]|done|].
    rewrite <- Hrows in H1. etransitivity; [|exact H1]. apply List.filter_ext. intros row. unfold ahead.
    destruct (okx_start_of first =? 0) eqn:E0; zbool; [lia|]. cbn [orb].
    destruct (okx_start_of row <? okx_start_of first) eqn:E1, (okx_start_of first <=? okx_start_of row) eqn:E2; zbool; try done; lia.
Qed.

Definition okx_result (all : list Bar) : Prop := ∃ l, l ≡ₚ okx_requested rows request ∧ Forall2 candle l all.

(** What was read is what was asked for when nothing of the range is ahead, or when
    it is as many candles as wanted. *)
Lemma okx_got_requested after all :
  (∃ l, l ≡ₚ okx_got after ∧ Forall2 candle l all) →
  (0 < wanted request → Z.of_nat (length all) <= wanted request) →
  ((∀ row, row ∈ okx_older after → in_range_of request (okx_start_of row) = false) ∨
   (0 < wanted request ∧ Z.of_nat (length all) = wanted request)) → okx_result all.
Proof.
  intros (l & Hl & Hf) Hlen Hdone. exists l. split; [|done]. rewrite Hl. unfold okx_requested. fold okx_window.
  rewrite (window_split after). apply Forall2_length in Hf.
  assert (length l = length (okx_got after)) as Hll by (by rewrite Hl).
  destruct Hdone as [Hdone|[Hw Hn]].
  - rewrite filter_none by done. cbn. destruct (0 <? wanted request) eqn:E; zbool; [|done].
    rewrite newest_of_all; [done|]. specialize (Hlen E). lia.
  - rewrite (proj2 (Z.ltb_lt 0 _)) by done. rewrite newest_of_suffix; [done|lia].
Qed.

Lemma in_range_candle row b : candle row b → in_range_of request (okx_start_of row) = in_request request b.
Proof. intros Hc%okx_candle_start. unfold in_request. by rewrite Hc. Qed.

(** How the loop goes on: the recent endpoint was empty, or the cursor moved back. *)
Definition okx_moves (st st' : OKXPaging) : Prop :=
  st'.(OKXPaging.useRecentEndpoint) = false ∧
  ((st.(OKXPaging.useRecentEndpoint) = true ∧ st'.(OKXPaging.after) = st.(OKXPaging.after)) ∨
   (0 < st'.(OKXPaging.after) ∧ (st.(OKXPaging.after) = 0 ∨ st'.(OKXPaging.after) < st.(OKXPaging.after)))).

(** What a page that is not empty adds to what was read. *)
Record okx_added (st : OKXPaging) (P o : Z) (first : Bar) (page : list Bar) (all' : list Bar) (seen' : gset Z) : Prop := {
  ad_fold : foldl (okx_accept request) (st.(OKXPaging.all), st.(OKXPaging.seen)) (first :: page) = (all', seen');
  ad_oldest : oldest_start first (first :: page) = o;
  ad_start : 0 < o <= MaxTS;
  ad_moves : st.(OKXPaging.after) = 0 ∨ o < st.(OKXPaging.after);
  ad_all : ∃ l, l ≡ₚ okx_got o ∧ Forall2 candle l all';
  ad_seen z : z ∈ seen' → ahead o z = false;
  ad_count : Z.of_nat (length st.(OKXPaging.all)) <= Z.of_nat (length all') <= Z.of_nat (length st.(OKXPaging.all)) + P;
}.

Lemma older_candles after P page b :
  Forall2 candle (newest_of P (okx_older after)) page → b ∈ page → ahead after b.(Bar.StartMS) = true.
Proof.
  intros Hp [i Hb]%list_elem_of_lookup_1. destruct (Forall2_lookup_r _ _ _ _ _ Hp Hb) as (r & Hr & ->%okx_candle_start).
  by apply list_elem_of_lookup_2, (subseteq_drop _ _), elem_of_filter_bool in Hr as [Hr _].
Qed.

Lemma page_sorted after P page : Forall2 candle (newest_of P (okx_older after)) page → key_sorted Bar.StartMS page.
Proof.
  intros Hp. apply key_sorted_keys. rewrite (okx_candles_starts _ _ _ _ _ Hp). apply (proj1 (key_sorted_keys _ _)).
  apply key_sorted_drop, older_listing.
Qed.

Lemma key_sorted_head {A} (k : A → Z) x l y : key_sorted k (x :: l) → y ∈ x :: l → k x <= k y.
Proof.
  intros [_ Hs]%StronglySorted_inv Hy. rewrite Forall_forall in Hs. apply elem_of_cons in Hy as [->|Hy]; [lia|].
  specialize (Hs y Hy). cbn in Hs. lia.
Qed.

Lemma okx_page_adds st P first page :
  okx_cursor st → 1 <= P → Forall2 candle (newest_of P (okx_older st.(OKXPaging.after))) (first :: page) →
  ∃ all' seen', okx_added st P first.(Bar.StartMS) first page all' seen'.
Proof.
  intros Hc HP Hp. destruct Hc as [_ Hall Hseen _ _]. pose proof (page_sorted _ _ _ Hp) as Hsorted.
  destruct (newest_of P (okx_older st.(OKXPaging.after))) as [|row taken] eqn:En; [by apply Forall2_nil_inv_l in Hp|].
  destruct (cursor_moves _ _ _ _ HP En) as (Ho & Hmove & Hgot).
  assert (first.(Bar.StartMS) = okx_start_of row) as Hfirst by (apply Forall2_cons_1 in Hp as [? _]; by eapply okx_candle_start).
  rewrite <- Hfirst in Ho, Hmove, Hgot.
  destruct (okx_accept_new request (first :: page) st.(OKXPaging.all) st.(OKXPaging.seen)) as (seen' & Hacc & Hseen').
  { by apply key_sorted_NoDup. }
  { intros b Hb Hin%Hseen. rewrite <- En in Hp. rewrite (older_candles _ _ _ _ Hp Hb) in Hin. done. }
  eexists _, seen'. split; [exact Hacc| |done|done| | |].
  - apply oldest_start_spec. intros b Hb. by eapply key_sorted_head.
  - destruct Hall as (l & Hl & Hf). eexists. split; [|exact (Forall2_app Hf (filter_Forall2 _ _ _ _ _ in_range_candle Hp))].
    rewrite Hgot, Hl. apply Permutation_app_comm.
  - intros z Hz. unfold ahead. destruct (first.(Bar.StartMS) =? 0) eqn:E0; zbool; [lia|]. apply Z.ltb_ge.
    destruct (Hseen' z Hz) as [Hz'%Hseen|Hz'].
    + unfold ahead in Hz'. destruct Hmove as [Hm|Hm]; [by rewrite Hm in Hz'|].
      destruct (st.(OKXPaging.after) =? 0); [done|]. cbn in Hz'. zbool. lia.
    + apply list_elem_of_fmap in Hz' as (b & -> & Hb). by eapply key_sorted_head.
  - rewrite length_app. pose proof (List.filter_length_le (in_request request) (first :: page)).
    destruct (newest_of_split P (okx_older st.(OKXPaging.after))) as (_ & _ & HnP); [lia|]. rewrite En in HnP.
    apply Forall2_length in Hp. rewrite Hp in HnP. lia.
Qed.

Lemma okx_after_exact st recent adjustment P page :
  okx_cursor st → 1 <= P → (0 < st.(OKXPaging.remaining) → P <= st.(OKXPaging.remaining)) →
  (recent = true → st.(OKXPaging.useRecentEndpoint) = true) →
  Forall2 candle (newest_of P (okx_older st.(OKXPaging.after))) page →
  match okx_after_page request recent adjustment st page with
  | inl st' => okx_cursor st' ∧ okx_moves st st'
  | inr all => okx_result all
  end.
Proof.
  intros Hc HP HPr Hrecent Hp. pose proof Hc as [Hrange Hall Hseen Hrem Hwant].
  assert (0 < wanted request → st.(OKXPaging.remaining) = wanted request - Z.of_nat (length st.(OKXPaging.all))) as Hrem'.
  { intros Hw. by rewrite (proj2 (Z.ltb_lt 0 _)) in Hrem by done. }
  destruct page as [|first page]; unfold okx_after_page.
  - apply Forall2_nil_inv_r in Hp. destruct recent.
    + split; [by constructor|]. split; [done|]. left. auto.
    + apply (okx_got_requested st.(OKXPaging.after)); [done|intros Hw; specialize (Hwant Hw); specialize (Hrem' Hw); lia|].
      left. intros row Hin. destruct (newest_of_split P (okx_older st.(OKXPaging.after))) as (_ & _ & HnP); [lia|].
      rewrite Hp in HnP. destruct (okx_older st.(OKXPaging.after)); [by apply elem_of_nil in Hin|]. simpl in HnP. lia.
  - destruct (okx_page_adds _ _ _ _ Hc HP Hp) as (all' & seen' & [Hfold Hold Ho Hmove Hall' Hseen' Hcount]).
    rewrite Hfold, Hold. cbv zeta. set (o := first.(Bar.StartMS)) in *.
    assert (0 < wanted request → Z.of_nat (length all') <= wanted request) as Hlen.
    { intros Hw. specialize (Hwant Hw). specialize (HPr Hwant). specialize (Hrem' Hw). lia. }
    assert (0 < st.(OKXPaging.remaining) → 0 < wanted request) as Hrw.
    { destruct (0 <? wanted request) eqn:Ew; zbool; [done|lia]. }
    destruct (0 <? st.(OKXPaging.remaining)) eqn:Ec; cbn [andb]; zbool.
    all: try (destruct (_ <=? 0) eqn:E1; zbool;
      [apply (okx_got_requested o); [done|done|right; specialize (Hrw Ec); specialize (Hrem' Hrw); specialize (Hlen Hrw); split; [done|lia]]|]).
    all: destruct (_ && _) eqn:E2; zbool;
      [apply (okx_got_requested o); [done|done|left; intros r [Hr _]%elem_of_filter_bool]|].
    1,3: unfold ahead in Hr; rewrite (proj2 (Z.eqb_neq o 0)) in Hr by lia; cbn in Hr; zbool; unfold in_range_of;
      by rewrite (proj2 (Z.ltb_lt 0 request.(KlineRequest.StartMS))), (proj2 (Z.ltb_lt (okx_start_of r) _)) by lia.
    all: rewrite (proj2 (Z.eqb_neq st.(OKXPaging.after) o)) by lia;
      (split; [constructor; cbn; try done; [unfold MaxTS, DayMS in *; lia|..]|split; [done|right; split; [exact (proj1 Ho)|exact Hmove]]]).
    + destruct (0 <? wanted request) eqn:Ew; zbool; [specialize (Hrem' Ew)|specialize (Hrw Ec)]; lia.
    + destruct (0 <? wanted request) eqn:Ew; zbool; [specialize (Hwant Ew); lia|done].
Qed.

Definition recent_of (st : OKXPaging) : bool := st.(OKXPaging.useRecentEndpoint) && (st.(OKXPaging.after) =? 0).
Definition okx_page_size (st : OKXPaging) : Z :=
  page_limit st.(OKXPaging.remaining) (if recent_of st then okxRecentKlineLimit else okxHistoryKlineLimit).

Lemma okx_page_size_range st : 1 <= okx_page_size st <= 300 ∧ (0 < st.(OKXPaging.remaining) → okx_page_size st <= st.(OKXPaging.remaining)).
Proof.
  unfold okx_page_size. destruct (recent_of st).
  - destruct (page_limit_range st.(OKXPaging.remaining) okxRecentKlineLimit) as [H1 H2]; [done|].
    unfold okxRecentKlineLimit in *. split; [lia|done].
  - destruct (page_limit_range st.(OKXPaging.remaining) okxHistoryKlineLimit) as [H1 H2]; [done|].
    unfold okxHistoryKlineLimit in *. split; [lia|done].
Qed.

(** The page of a round, whichever of the two attempts it came from. *)
Lemma okx_step_page st tr x :
  runs (okx_step a request tf bar st) tr x →
  (∃ e, x = inr (Err e)) ∨
  ∃ path adjustment adjustment' tr1 tr2 tr3 page, tr = tr1 ++ tr2 ++ tr3 ∧
    runs (fetchOKXKlinePage a path symbol tf bar st.(OKXPaging.after) (okx_page_size st) adjustment) tr2 (Ok page) ∧
    ((∃ e, x = inr (Err e)) ∨
     x = match okx_after_page request (recent_of st) adjustment' st page with inl st' => inl st' | inr all => inr (Ok all) end).
Proof.
  intros (tr1 & page & tr2 & -> & H1 & Hr)%runs_bind.
  apply runs_bind in Hr as (tr3 & [page' adjustment'] & tr4 & -> & H3 & Hr).
  destruct page' as [page'|e]; [|apply runs_Ret in Hr as [_ ->]; left; by exists e].
  assert (Hx : (∃ e, x = inr (Err e)) ∨
     x = match okx_after_page request (recent_of st) adjustment' st page' with inl st' => inl st' | inr all => inr (Ok all) end).
  { fold (recent_of st) in Hr. destruct (okx_after_page _ _ _ _ _) as [st'|all]; [|apply runs_Ret in Hr as [_ ->]; by right].
    destruct (bool_decide (page' = [])); [apply runs_Ret in Hr as [_ ->]; by right|].
    apply runs_bind in Hr as (tr5 & [e|] & tr6 & -> & _ & [_ ->]%runs_Ret); [left; by exists e|by right]. }
  right. destruct page as [page|e].
  - apply runs_Ret in H3 as [-> [= -> ->]]. eexists _, _, _, [], tr1, ([] ++ tr4), page. split; [done|]. by split; [exact H1|].
  - destruct (errors_Is e _ && _); [|by apply runs_Ret in H3 as [_ ?]].
    apply runs_bind in H3 as (tr5 & again & tr6 & -> & H5 & [-> [= <- ->]]%runs_Ret).
    eexists _, _, _, tr1, tr5, tr4, page'. rewrite app_nil_r. split; [done|]. by split; [exact H5|].
Qed.

Lemma okx_step_exact st tr x :
  okx_cursor st → runs (okx_step a request tf bar st) tr x → all_calls serves tr →
  match x with
  | inl st' => okx_cursor st' ∧ okx_moves st st'
  | inr (Ok all) => okx_result all
  | inr (Err _) => True
  end.
Proof.
  intros Hc Hr Hs. destruct (okx_step_page _ _ _ Hr) as [[e ->]|(path & adj & adj' & tr1 & tr2 & tr3 & page & -> & Hp & [[e ->]| ->])];
    try done.
  apply Forall_app in Hs as [_ [Hs _]%Forall_app]. destruct (okx_page_size_range st) as [Hl Hlr].
  apply okx_page_exact in Hp; [|by eapply oc_range|done|done].
  assert (recent_of st = true → st.(OKXPaging.useRecentEndpoint) = true) as Hrec by (unfold recent_of; intros; by zbool).
  pose proof (okx_after_exact st (recent_of st) adj' _ page Hc (proj1 Hl) Hlr Hrec Hp) as Hn.
  by destruct (okx_after_page _ _ _ _ _).
Qed.

(** The cursor starts past every candle of the range. *)
Lemma okx_start_cursor adjustment : okx_cursor (okx_start request tf adjustment).
Proof.
  assert (0 <= okx_after request tf <= MaxTS + 200 * DayMS ∧
          ∀ row, row ∈ rows → ahead (okx_after request tf) (okx_start_of row) = false →
            in_range_of request (okx_start_of row) = false) as [Hr Hout].
  { unfold okx_after. destruct (0 <? request.(KlineRequest.EndMS)) eqn:E; zbool.
    - destruct Hdomain as [?|Hd]; [lia|]. destruct (floor_spec tf _ Hd) as (k & Hk & -> & Hb).
      destruct Hd as [_ Hm]. pose proof (grid_nonneg tf k Hk). pose proof (grid_step tf k). pose proof (grid_step tf (k + 1)).
      unfold MinuteMS, DayMS, MaxTS in *.
      rewrite !next_grid by (try rewrite next_grid; apply steppable_dom; unfold MaxTS, DayMS; lia).
      split; [lia|]. intros row Hin Ha. unfold ahead in Ha. destruct (_ =? 0) eqn:E0; [done|]. cbn in Ha. zbool.
      unfold in_range_of. rewrite (proj2 (Z.ltb_lt 0 request.(KlineRequest.EndMS))) by done.
      rewrite (proj2 (Z.ltb_lt request.(KlineRequest.EndMS) _)) by lia. by rewrite andb_false_r.
    - split; [unfold MaxTS, DayMS; lia|]. by intros row _ ?. }
  assert (okx_got (okx_after request tf) = []) as Hgot.
  { apply filter_none. intros row [Ha Hin]%elem_of_filter_bool. apply Hout; [done|]. by apply negb_true_iff in Ha. }
  constructor; cbn.
  - done.
  - exists []. by rewrite Hgot.
  - by intros z ?%elem_of_empty.
  - destruct (0 <? wanted request); lia.
  - done.
Qed.

Lemma okx_result_sorted all : okx_result all → Forall2 candle (okx_requested rows request) (trimBars (sortBars all) request.(KlineRequest.Limit)).
Proof.
  intros (l & Hl & Hf). destruct (Permutation_Forall2 Hl Hf) as (sorted & Hp & Hf').
  destruct Hlist as [Hs _]. assert (key_sorted okx_start_of okx_window) as Hw by by apply key_sorted_filter.
  assert (key_sorted okx_start_of (okx_requested rows request)) as Hreq.
  { unfold okx_requested. fold okx_window. destruct (0 <? _); [by apply key_sorted_drop|done]. }
  rewrite (sortBars_unique all sorted); [|apply key_sorted_keys; rewrite (okx_candles_starts _ _ _ _ _ Hf'); by apply (proj1 (key_sorted_keys _ _))|done].
  unfold trimBars. destruct (_ || _) eqn:E; [done|]. exfalso. apply orb_false_iff in E as [E1 E2]. zbool.
  apply Forall2_length in Hf'. unfold okx_requested, wanted in Hf'. fold okx_window in Hf'.
  rewrite (proj2 (Z.leb_gt request.(KlineRequest.Limit) 0)) in Hf' by done. cbn [andb] in Hf'.
  rewrite (proj2 (Z.ltb_lt 0 request.(KlineRequest.Limit))) in Hf' by done.
  destruct (newest_of_split request.(KlineRequest.Limit) okx_window) as (_ & _ & Hn); [lia|]. lia.
Qed.

Lemma okx_loop_exact st tr r :
  okx_cursor st → runs (page_loop (okx_step a request tf bar) st) tr r → all_calls serves tr →
  match r with Ok all => okx_result all | Err _ => True end.
Proof.
  intros Hc Hr Hs.
  refine (runs_page_loop _ st tr r (λ tr st, all_calls serves tr → okx_cursor st)
            (λ tr r, all_calls serves tr → match r with Ok all => okx_result all | Err _ => True end) _ _ Hr Hs); [done|].
  intros tr1 st1 tr2 x Hst Hx. destruct x as [st'|[all|e]]; [..|done]; intros [H1 H2]%Forall_app;
    apply (okx_step_exact _ _ _ (Hst H1) Hx) in H2; [by destruct H2|done].
Qed.

(** Rounds lower the cursor, or leave the recent endpoint for good. *)
Definition okx_measure (st : OKXPaging) : Z :=
  2 * (if st.(OKXPaging.after) =? 0 then 2 ^ 60 else st.(OKXPaging.after)) + (if st.(OKXPaging.useRecentEndpoint) then 1 else 0).

Lemma okx_measure_moves st st' : okx_cursor st → okx_cursor st' → okx_moves st st' → okx_measure st' < okx_measure st.
Proof.
  intros Hc Hc' [Hu Hm]. unfold okx_measure. rewrite Hu. pose proof (oc_range _ Hc). pose proof (oc_range _ Hc').
  unfold MaxTS, DayMS in *. destruct Hm as [[-> ->]|[Hpos Hm]]; [lia|].
  rewrite (proj2 (Z.eqb_neq st'.(OKXPaging.after) 0)) by lia.
  destruct (st.(OKXPaging.after) =? 0) eqn:E; zbool; destruct (st.(OKXPaging.useRecentEndpoint)); lia.
Qed.

Lemma okx_step_measure st tr st' :
  okx_cursor st → Forall serves tr → runs (okx_step a request tf bar st) tr (inl st') →
  okx_cursor st' ∧ okx_measure st' < okx_measure st.
Proof.
  intros Hc Hs Hr. destruct (okx_step_exact _ _ _ Hc Hr Hs) as [Hc' Hm]. split; [done|]. by apply okx_measure_moves.
Qed.

Lemma okx_measure_range st : okx_cursor st → 0 <= okx_measure st < 2 ^ 64.
Proof.
  intros Hc. pose proof (oc_range _ Hc). unfold okx_measure, MaxTS, DayMS in *.
  destruct (st.(OKXPaging.after) =? 0), (st.(OKXPaging.useRecentEndpoint)); lia.
Qed.

Lemma okx_rounds_end n st tr st' :
  2 ^ 64 <= 2 ^ Z.of_nat n → okx_cursor st → Forall serves tr → ¬ runs (ploop n (okx_step a request tf bar) st) tr (inl st').
Proof.
  intros Hn Hc Hs Hr. destruct (ploop_measure_calls n _ serves okx_cursor okx_measure okx_step_measure st tr st' Hc Hs Hr) as [Hc' Hm].
  apply okx_measure_range in Hc, Hc'. lia.
Qed.
End okx.

Lemma returns_okx_page a path symbol tf bar after limit adjustment :
  always_returns (fetchOKXKlinePage a path symbol tf bar after limit adjustment).
Proof.
  apply returns_bind; [apply returns_get|]. intros tr [resp|e] _; [|done]. destruct (success _); [|done]. simpl.
  destruct (okx_decoded _) as [[[code msg] data]|e]; [|done]. by destruct (_ && _).
Qed.

Lemma returns_okx_step a request tf bar st : always_returns (okx_step a request tf bar st).
Proof.
  apply returns_bind; [apply returns_okx_page|]. intros tr page _. apply returns_bind.
  - destruct page as [page|e]; [done|]. destruct (_ && _); [|done]. apply returns_bind; [apply returns_okx_page|done].
  - intros tr' [page' adjustment] _. destruct page' as [page'|e]; [|done]. destruct (okx_after_page _ _ _ _ _); [|done].
    destruct (bool_decide _); [done|]. apply returns_bind; [apply returns_wait|]. by intros.
Qed.

(** C16: paging the candles of OKX leaves nothing out and nothing twice.  If the
    exchange holds the rows of the timeframe in order, each a closed candle with a
    positive price, and every answer without an error code is the documented one, then
    a successful FetchKlines returns, in order, one candle for each of the rows in
    the range of the request: the newest [Limit] of them, or the newest 300 when
    neither a start nor a limit is given. *)
Theorem okx_fetch_exact rows a request tf bar tr bars :
  okxKlineBar request.(KlineRequest.Timeframe) = Ok (tf, bar) →
  listing tf okx_start_of rows →
  0 <= request.(KlineRequest.StartMS) →
  request.(KlineRequest.EndMS) = 0 ∨ in_domain tf request.(KlineRequest.EndMS) →
  ToUpper (TrimSpace request.(KlineRequest.Symbol)) ≠ "" →
  runs (okx_FetchKlines a request) tr (Ok bars) →
  all_calls (okx_serves rows a (ToUpper (TrimSpace request.(KlineRequest.Symbol))) tf) tr →
  Forall2 (okx_candle a (ToUpper (TrimSpace request.(KlineRequest.Symbol))) tf) (okx_requested rows request) bars.
Proof.
  intros Htf Hlist Hs He Hsym Hr Hserve. unfold okx_FetchKlines in Hr. rewrite Htf in Hr.
  destruct (ParseKlineAdjustment _) as [adjustment|e]; [|by apply runs_Ret in Hr as [_ ?]]. cbv zeta in Hr.
  rewrite bool_decide_eq_false_2 in Hr by done.
  apply runs_bind in Hr as (tr1 & [all|e] & tr2 & -> & H1 & [-> [= ->]]%runs_Ret). apply Forall_app in Hserve as [Hserve _].
  assert (0 <= request.(KlineRequest.EndMS)) as He0 by (destruct He as [->|[Hd _]]; [lia|]; pose proof (grid_nonneg tf 0); lia).
  refine (okx_result_sorted rows a (with_symbol request) tf Hlist all _).
  exact (okx_loop_exact rows a (with_symbol request) tf bar Hlist Hs He0 He _ tr1 (Ok all)
           (okx_start_cursor rows a (with_symbol request) tf He adjustment) H1 Hserve).
Qed.

(** A loop does not get stuck when its rounds end. *)
Lemma loop_not_stuck {A R} n (body : A → eprog (A + R)) (f : A + R → eprog R) (P : call exchangeE → Prop) a tr :
  (∀ a, always_returns (body a)) → (∀ tr a', Forall P tr → ¬ runs (ploop n body a) tr (inl a')) →
  (∀ r tr, ¬ reaches is_diverge (f (inr r)) tr) → Forall P tr → ¬ reaches is_diverge (pbind (ploop n body a) f) tr.
Proof.
  intros Hb Hn Hf HP [Hr|(tr1 & x & tr2 & -> & H1 & H2)]%reaches_bind; [by apply reaches_ploop in Hr|].
  apply Forall_app in HP as [HP _]. destruct x as [a'|r]; [by apply Hn in H1|by apply Hf in H2].
Qed.

(** against such an exchange FetchKlines of OKX comes to an end: no sequence of
    its answers leads to a state in which the paging goes on for ever. *)
Theorem okx_fetch_returns rows a request tf bar tr :
  okxKlineBar request.(KlineRequest.Timeframe) = Ok (tf, bar) →
  listing tf okx_start_of rows →
  0 <= request.(KlineRequest.StartMS) →
  request.(KlineRequest.EndMS) = 0 ∨ in_domain tf request.(KlineRequest.EndMS) →
  all_calls (okx_serves rows a (ToUpper (TrimSpace request.(KlineRequest.Symbol))) tf) tr →
  ¬ reaches is_diverge (okx_FetchKlines a request) tr.
Proof.
  intros Htf Hlist Hs He Hserve. unfold okx_FetchKlines. rewrite Htf.
  destruct (ParseKlineAdjustment _) as [adjustment|e]; [|by destruct tr; intros ?]. cbv zeta.
  destruct (bool_decide _); [by destruct tr; intros ?|].
  assert (0 <= request.(KlineRequest.EndMS)) as He0 by (destruct He as [->|[Hd _]]; [lia|]; pose proof (grid_nonneg tf 0); lia).
  intros [Hr|(tr1 & [all|e] & tr2 & _ & _ & Hr)]%reaches_bind; [|by destruct tr2..].
  revert Hr. unfold page_loop.
  refine (loop_not_stuck 64 (okx_step a (with_symbol request) tf bar) _ _ _ tr _ _ _ Hserve).
  - intros st. apply returns_okx_step.
  - intros tr1 st' HP.
    exact (okx_rounds_end rows a (with_symbol request) tf bar Hlist Hs He0 He 64 _ tr1 st' ltac:(done)
             (okx_start_cursor rows a (with_symbol request) tf He adjustment) HP).
  - intros r tr1 H. by destruct tr1.
Qed.

(** ** The theorems at work *)

Definition sample_request (limit : Z) : KlineRequest :=
  KlineRequest.mk " btc-usdt " "1m" 1700000040000 1700000159999 limit "" 250000000.
Definition sample_now : Z := 1700000400000.
Definition sample_starts : list Z := [1700000040000; 1700000100000; 1700000160000].

(** An exchange that answers every request with a document made from the query. *)
Definition sample_exchange (document : list (string * string) → any) : handler exchangeE unit := fun X e w =>
  match e in exchangeE X return option (X * unit) with
  | Now => Some (sample_now, w)
  | Do _ query => Some (Ok (Response.mk 200 (Ok (document query))), w)
  | Sleep _ => Some (None, w)
  | Diverge => None
  end.

Definition sample_binance_rows : list (list any) :=
  (fun s => [AnyNumber (pretty s); AnyString "1.0"; AnyString "2.0"; AnyString "0.5"; AnyString "1.5"; AnyString "10";
             AnyNumber (pretty (s + 59999)); AnyString "15"; AnyNumber "3"]) <$> sample_starts.
Definition sample_binance : BinanceFuturesAdapter := NewBinanceFuturesAdapter "um_futures" "https://fapi.binance.com/" "".
Definition sample_okx_rows : list (list string) :=
  (fun s => [pretty s; "1.0"; "2.0"; "0.5"; "1.5"; "10"; "10"; "15"; "1"]) <$> sample_starts.
Definition sample_okx : OKXAdapter := NewOKXAdapter "SWAP" "https://www.okx.com/" "".
Definition sample_okx_document (query : list (string * string)) : any :=
  AnyMap [("code", AnyString "0"); ("msg", AnyString "");
          ("data", AnyList ((fun row => AnyList (AnyString <$> row)) <$> okx_answer sample_okx_rows query))].

Lemma sample_aligned s : s ∈ sample_starts → aligned F1m s ∧ 0 < s <= MaxTS.
Proof.
  unfold sample_starts. rewrite !elem_of_cons, elem_of_nil. unfold MaxTS.
  intros [->|[->|[->|[]]]]; (split; [|lia]); [exists 28333334|exists 28333335|exists 28333336]; by split.
Qed.

Lemma sample_binance_listing : listing F1m binance_start sample_binance_rows.
Proof.
  split.
  - apply key_sorted_keys. vm_compute. repeat constructor.
  - intros row (s & -> & Hs)%list_elem_of_fmap. apply sample_aligned. unfold sample_starts in *.
    rewrite !elem_of_cons, elem_of_nil in Hs. destruct Hs as [->|[->|[->|[]]]]; vm_compute; set_solver.
Qed.

Lemma sample_okx_listing : listing F1m okx_start_of sample_okx_rows.
Proof.
  split.
  - apply key_sorted_keys. vm_compute. repeat constructor.
  - intros row (s & -> & Hs)%list_elem_of_fmap. apply sample_aligned. unfold sample_starts in *.
    rewrite !elem_of_cons, elem_of_nil in Hs. destruct Hs as [->|[->|[->|[]]]]; vm_compute; set_solver.
Qed.

(** The clock reading of a call. *)
Definition reading (c : call exchangeE) : option Z :=
  match c with
  | Call e x => match e in exchangeE X return X → option Z with Now => fun n => Some n | _ => fun _ => None end x
  end.

Lemma sample_now_is {X} (e : exchangeE X) x w document now y :
  sample_exchange document X e w = Some (x, y) → Call e x = Call Now now → now = sample_now.
Proof. destruct e; try done; cbn; intros [= <- _] Hc%(f_equal reading); cbn in Hc; congruence. Qed.

Lemma sample_binance_serves tr x w :
  exec (sample_exchange (fun query => AnyList (AnyList <$> binance_answer sample_binance_rows query)))
    (binance_FetchKlines sample_binance (sample_request 0)) tt = Some (tr, x, w) →
  all_calls (binance_serves sample_binance_rows sample_binance (with_symbol (sample_request 0)) F1m) tr.
Proof.
  apply exec_all_calls. intros X e w0 y w1 He. split.
  - destruct e; try done. cbn in He. injection He as <- _. intros path resp _ _ [= <-] _. done.
  - intros row (s & -> & Hs)%list_elem_of_fmap _ now ->%(sample_now_is _ _ _ _ _ _ He). unfold sample_starts in *.
    rewrite !elem_of_cons, elem_of_nil in Hs. destruct Hs as [->|[->|[->|[]]]]; eexists; vm_compute; reflexivity.
Qed.

Lemma as_text_rows rows : as_slice (as_slice as_string) (AnyList ((fun row => AnyList (AnyString <$> row)) <$> rows)) = Ok rows.
Proof.
  cbn. assert (∀ row, all_ok as_string (AnyString <$> row) = Ok row) as Hrow.
  { induction row as [|v row IH]; [done|]. cbn. by rewrite IH. }
  induction rows as [|row rows IH]; [done|]. cbn. by rewrite Hrow, IH.
Qed.

Lemma sample_okx_decoded query : okx_decoded (Ok (sample_okx_document query)) = Ok ("0", "", okx_answer sample_okx_rows query).
Proof.
  unfold sample_okx_document. generalize (okx_answer sample_okx_rows query). intros answer.
  unfold okx_decoded, okx_payload, as_struct. change (struct_field _ "code") with (AnyString "0").
  change (struct_field _ "msg") with (AnyString "").
  change (struct_field _ "data") with (AnyList ((fun row => AnyList (AnyString <$> row)) <$> answer)).
  by rewrite as_text_rows.
Qed.

Lemma sample_okx_serves tr x w :
  exec (sample_exchange sample_okx_document) (okx_FetchKlines sample_okx (sample_request 1)) tt = Some (tr, x, w) →
  all_calls (okx_serves sample_okx_rows sample_okx "BTC-USDT" F1m) tr.
Proof.
  apply exec_all_calls. intros X e w0 y w1 He. split.
  - destruct e as [|url query| |]; try done. unfold sample_exchange in He. injection He as <- _.
    intros resp code msg data [= <-] _ Hd _. cbn [Response.Body] in Hd. rewrite sample_okx_decoded in Hd. congruence.
  - intros row (s & -> & Hs)%list_elem_of_fmap now ->%(sample_now_is _ _ _ _ _ _ He). unfold sample_starts in *.
    rewrite !elem_of_cons, elem_of_nil in Hs. destruct Hs as [->|[->|[->|[]]]]; eexists; vm_compute; reflexivity.
Qed.

Example binance_fetch_exact_witness :
  ∃ tr bars, runs (binance_FetchKlines sample_binance (sample_request 0)) tr (Ok bars) ∧
    Forall2 (binance_candle sample_binance "BTC-USDT" F1m) (binance_requested sample_binance_rows (sample_request 0)) bars ∧
    length bars = 2%nat.
Proof.
  destruct (exec (sample_exchange (fun query => AnyList (AnyList <$> binance_answer sample_binance_rows query)))
              (binance_FetchKlines sample_binance (sample_request 0)) tt) as [[[tr [bars|e]] w]|] eqn:E;
    [|vm_compute in E; discriminate..].
  exists tr, bars. assert (Hr := exec_runs _ _ _ _ _ _ E). split; [exact Hr|].
  assert (Hf := binance_fetch_exact sample_binance_rows sample_binance (sample_request 0) F1m "1m" tr bars eq_refl eq_refl
                  sample_binance_listing ltac:(unfold two63; cbn; lia) ltac:(unfold two63; cbn; lia)
                  ltac:(unfold int64_range, two63; cbn; lia) ltac:(vm_compute; discriminate) (or_introl Hr) (sample_binance_serves _ _ _ E)).
  split; [exact Hf|]. apply Forall2_length in Hf. rewrite <- Hf. vm_compute. reflexivity.
Defined.

Example okx_fetch_exact_witness :
  ∃ tr bars, runs (okx_FetchKlines sample_okx (sample_request 1)) tr (Ok bars) ∧
    Forall2 (okx_candle sample_okx "BTC-USDT" F1m) (okx_requested sample_okx_rows (sample_request 1)) bars ∧
    length bars = 1%nat.
Proof.
  destruct (exec (sample_exchange sample_okx_document) (okx_FetchKlines sample_okx (sample_request 1)) tt)
    as [[[tr [bars|e]] w]|] eqn:E; [|vm_compute in E; discriminate..].
  exists tr, bars. assert (Hr := exec_runs _ _ _ _ _ _ E). split; [exact Hr|].
  assert (Hf := okx_fetch_exact sample_okx_rows sample_okx (sample_request 1) F1m "1m" tr bars eq_refl
                  sample_okx_listing ltac:(cbn; lia) ltac:(right; split; vm_compute; congruence)
                  ltac:(vm_compute; discriminate) Hr (sample_okx_serves _ _ _ E)).
  split; [exact Hf|]. apply Forall2_length in Hf. rewrite <- Hf. vm_compute. reflexivity.
Defined.

Example okx_fetch_returns_witness :
  ∃ tr, (0 < length tr)%nat ∧ all_calls (okx_serves sample_okx_rows sample_okx "BTC-USDT" F1m) tr ∧
    ¬ reaches is_diverge (okx_FetchKlines sample_okx (sample_request 1)) tr.
Proof.
  destruct (exec (sample_exchange sample_okx_document) (okx_FetchKlines sample_okx (sample_request 1)) tt)
    as [[[tr x] w]|] eqn:E; [|vm_compute in E; discriminate].
  exists tr. assert (Hs := sample_okx_serves _ _ _ E).
  split; [vm_compute in E; injection E as <- _ _; simpl; lia|]. split; [exact Hs|].
  exact (okx_fetch_returns sample_okx_rows sample_okx (sample_request 1) F1m "1m" tr eq_refl
           sample_okx_listing ltac:(cbn; lia) ltac:(right; split; vm_compute; congruence) Hs).
Defined.

Example fetched_candles_sound_witness :
  ∃ tr bars, length bars = 2%nat ∧ runs (binance_FetchKlines sample_binance (sample_request 0)) tr (Ok bars) ∧
    StronglySorted start_le bars ∧
    ∀ bar, bar ∈ bars → accepted binance_name (with_symbol (sample_request 0)) F1m tr bar.
Proof.
  destruct (exec (sample_exchange (fun query => AnyList (AnyList <$> binance_answer sample_binance_rows query)))
              (binance_FetchKlines sample_binance (sample_request 0)) tt) as [[[tr [bars|e]] w]|] eqn:E;
    [|vm_compute in E; discriminate..].
  exists tr, bars. assert (Hr := exec_runs _ _ _ _ _ _ E).
  destruct (fetched_candles_sound sample_binance sample_okx (sample_request 0) tr bars) as [Hb _].
  destruct (Hb F1m "1m" eq_refl Hr) as (Hs & _ & Ha).
  split; [vm_compute in E; injection E as _ <- _; reflexivity|]. auto.
Defined.

(** A row without prices, which is skipped, makes its full page look like the last
    one: of the two candles asked for only one is returned. *)
Definition gap_rows : list (list any) :=
  match sample_binance_rows with
  | row :: rest => (take 1 row ++ [AnyString "0"] ++ drop 2 row) :: rest
  | [] => []
  end.
Definition gap_request : KlineRequest := KlineRequest.mk "BTC-USDT" "1m" 1700000040000 1700000219999 2 "" 250000000.
Example skipped_row_ends_paging :
  ∃ tr bars, runs (binance_FetchKlines sample_binance gap_request) tr (Ok bars) ∧
    (Bar.StartMS <$> bars) = [1700000100000] ∧
    (binance_start <$> List.filter (λ row, bool_decide (is_Some (match binance_row sample_binance "BTC-USDT" F1m sample_now row with
                                                                 | Ok bar => bar | Err _ => None end))) gap_rows)
      = [1700000100000; 1700000160000].
Proof.
  destruct (exec (sample_exchange (fun query => AnyList (AnyList <$> binance_answer gap_rows query)))
              (binance_FetchKlines sample_binance gap_request) tt) as [[[tr [bars|e]] w]|] eqn:E;
    [|vm_compute in E; discriminate..].
  exists tr, bars. split; [exact (exec_runs _ _ _ _ _ _ E)|]. split; [vm_compute in E; injection E as _ <- _|]; vm_compute; reflexivity.
Qed.

(** *** The markets that answer otherwise *)

(** What /api/v3/klines answers as documented: 1000 candles at most. *)
Definition spot_answer (rows : list (list any)) (query : list (string * string)) : list (list any) :=
  take 1000 (binance_answer rows query).
(** What /dapi/v1/klines answers as documented: also with a startTime, the newest
    [limit] candles up to [endTime]. *)
Definition coin_answer (rows : list (list any)) (query : list (string * string)) : list (list any) :=
  newest_of (Z.min 1500 (default 500 (int_param query "limit")))
    (List.filter (fun row => from_time (int_param query "startTime") (binance_start row)
                             && until_time (int_param query "endTime") (binance_start row)) rows).

Definition long_row (i : nat) : list any :=
  let s := 1700000040000 + 60000 * Z.of_nat i in
  [AnyNumber (pretty s); AnyString "1"; AnyString "1"; AnyString "1"; AnyString "1"; AnyString "1";
   AnyNumber (pretty (s + 59999)); AnyString "1"; AnyNumber "1"].
Definition long_request (n : nat) : KlineRequest :=
  KlineRequest.mk "BTCUSDT" "1m" 1700000040000 (1700000040000 + 60000 * Z.of_nat n - 1) 0 "" 250000000.

(** The same exchange years later. *)
Definition late_exchange (document : list (string * string) → any) : handler exchangeE unit := fun X e w =>
  match e in exchangeE X return option (X * unit) with
  | Now => Some (1800000000000, w)
  | Do _ query => Some (Ok (Response.mk 200 (Ok (document query))), w)
  | Sleep _ => Some (None, w)
  | Diverge => None
  end.

(** How many candles a market that holds [n] minutes and answers with [answer] yields
    for the request of all of them, and the first one. *)
Definition fetched_of (a : BinanceFuturesAdapter) (n : nat)
    (answer : list (list any) → list (string * string) → list (list any)) : option (nat * option Z) :=
  let rows := long_row <$> seq 0 n in
  match exec (late_exchange (fun query => AnyList (AnyList <$> answer rows query))) (binance_FetchKlines a (long_request n)) tt with
  | Some (_, Ok bars, _) => Some (length bars, Bar.StartMS <$> head bars)
  | _ => None
  end.

(** A spot adapter asks for 1500 candles, gets 1000, and takes the page for the last
    one: the rest of the range is left out without an error. *)
Example spot_paging_ends_early :
  fetched_of (NewBinanceFuturesAdapter "spot" "https://api.binance.com" "") 1002 spot_answer
    = Some (1000%nat, Some 1700000040000).
Proof. vm_compute. reflexivity. Qed.

(** A COIN-M adapter gets the newest 1500 candles of the range first, and has then
    passed its end: the oldest ones are left out without an error. *)
Example coin_paging_skips_oldest :
  fetched_of (NewBinanceFuturesAdapter "coin_futures" "https://dapi.binance.com" "") 1502 coin_answer
    = Some (1500%nat, Some (1700000040000 + 2 * 60000)).
Proof. vm_compute. reflexivity. Qed.
