(* ===== verification/ExchangeParseSpec.v ===== *)
(** * Theorems on the numbers and messages of the exchanges

    The activity fields of a REST candle are read exactly or refused; what the
    stream parsers return is a usable candle or trade. *)

From S2P Require Export RestKline.
From Stdlib Require Import Ascii.

Local Open Scope string_scope.
Local Open Scope Z_scope.
Local Open Scope list_scope.

(** ** Bytes of a number *)

Definition is_e (b : Z) : bool := (b =? 101) || (b =? 69).
Definition nonzero_digit (b : Z) : bool := (49 <=? b) && (b <=? 57).

(** The bytes before the exponent. *)
Fixpoint mantissa_bytes (bs : list Z) : list Z :=
  match bs with
  | b :: rest => if is_e b then [] else b :: mantissa_bytes rest
  | [] => []
  end.

Lemma is_e_char c : existsb (Ascii.eqb c) (String.list_ascii_of_string "eE") = is_e (byte_of c).
Proof. destruct c as [[] [] [] [] [] [] [] []]; reflexivity. Qed.
Lemma nonzero_char c : existsb (Ascii.eqb c) (String.list_ascii_of_string "123456789") = nonzero_digit (byte_of c).
Proof. destruct c as [[] [] [] [] [] [] [] []]; reflexivity. Qed.

Lemma ContainsAny_cons c s chars :
  ContainsAny (String c s) chars = existsb (Ascii.eqb c) (String.list_ascii_of_string chars) || ContainsAny s chars.
Proof. done. Qed.

Lemma mantissa_nonzero s :
  ContainsAny (before_any s "eE") "123456789" = existsb nonzero_digit (mantissa_bytes (string_bytes s)).
Proof.
  induction s as [|c s IH]; [done|]. rewrite string_bytes_cons. cbn [before_any mantissa_bytes].
  rewrite is_e_char. destruct (is_e (byte_of c)); [done|]. rewrite ContainsAny_cons, nonzero_char. cbn [existsb].
  f_equal. exact IH.
Qed.

(** ** Decimals *)

Lemma span_digits_inv bs ds rest : span_digits bs = (ds, rest) → bs = bytes_of_digits ds ++ rest ∧ are_digits ds.
Proof.
  revert ds rest. induction bs as [|b bs IH]; intros ds rest H; cbn in H; [simplify_eq; by split; [|constructor]|].
  destruct (is_digit b) eqn:E; [|simplify_eq; by split; [|constructor]].
  destruct (span_digits bs) as [ds' tail]. destruct (IH _ _ eq_refl) as [-> Hd]. simplify_eq. unfold is_digit in E. zbool.
  split; [unfold bytes_of_digits; cbn; f_equal; lia|]. constructor; [lia|done].
Qed.

Lemma digits_zero ds : are_digits ds → existsb nonzero_digit (bytes_of_digits ds) = false → digits_value ds = 0.
Proof.
  intros Hd. induction ds as [|d ds IH] using rev_ind; [done|]. apply Forall_app in Hd as [Hd Hl].
  unfold bytes_of_digits. rewrite fmap_app, existsb_app, digits_value_app. intros [H1 H2]%orb_false_iff.
  rewrite IH by done. apply Forall_cons in Hl as [Hl _]. cbn in H2. rewrite orb_false_r in H2. unfold nonzero_digit in H2.
  apply andb_false_iff in H2 as [H2|H2]; zbool; lia.
Qed.

Lemma mantissa_digits ds rest : are_digits ds → mantissa_bytes (bytes_of_digits ds ++ rest) = bytes_of_digits ds ++ mantissa_bytes rest.
Proof.
  unfold bytes_of_digits. induction 1 as [|d ds Hd _ IH]; [done|]. cbn. unfold is_e.
  destruct ((d + 48 =? 101) || (d + 48 =? 69)) eqn:E; [apply orb_true_iff in E as [E|E]; zbool; lia|]. by rewrite IH.
Qed.

(** A mantissa without a digit other than 0 is zero. *)
Lemma read_decimal_zero bs m e : read_decimal bs = Some (m, e) → existsb nonzero_digit (mantissa_bytes bs) = false → m = 0.
Proof.
  unfold read_decimal. destruct (span_digits bs) as [whole rest] eqn:E1. apply span_digits_inv in E1 as [-> Hw].
  rewrite mantissa_digits, existsb_app by done. intros H [Hz1 Hz2]%orb_false_iff. apply (digits_zero _ Hw) in Hz1 as Hw0.
  destruct rest as [|b rest].
  - rewrite app_nil_r in H. destruct whole as [|d ds]; [done|]. cbn [take_exponent] in H. by simplify_eq.
  - destruct (b =? 46) eqn:Eb.
    + destruct (span_digits rest) as [fraction rest'] eqn:E2. apply span_digits_inv in E2 as [-> Hf]. zbool. subst b.
      cbn [mantissa_bytes existsb] in Hz2. change (is_e 46) with false in Hz2. cbn [existsb] in Hz2.
      rewrite mantissa_digits, existsb_app in Hz2 by done. apply orb_false_iff in Hz2 as [_ Hz2]. apply orb_false_iff in Hz2 as [Hz2 _].
      assert (digits_value (whole ++ fraction) = 0) as Hv.
      { apply digits_zero; [by apply Forall_app|]. unfold bytes_of_digits. rewrite fmap_app, existsb_app.
        apply orb_false_iff. by split. }
      destruct (whole ++ fraction) as [|d ds]; [done|]. destruct (take_exponent rest'); [|done]. by simplify_eq.
    + rewrite app_nil_r in H. destruct whole as [|d ds]; [done|]. destruct (take_exponent (b :: rest)); [|done]. by simplify_eq.
Qed.

(** ** Activity fields *)

Lemma take_sign_inv bs neg rest : take_sign bs = (neg, rest) →
  bs = rest ∧ neg = false ∨ ∃ b, bs = b :: rest ∧ is_e b = false ∧ nonzero_digit b = false.
Proof.
  unfold take_sign. destruct bs as [|b bs]; [intros; simplify_eq; by left|].
  destruct (b =? 45) eqn:E1; [|destruct (b =? 43) eqn:E2]; intros; simplify_eq; zbool; subst; [right; by eexists..|by left].
Qed.

Lemma decimal_char_lower c : decimal_char c = true → lower_char c ≠ "i"%char ∧ lower_char c ≠ "n"%char.
Proof. destruct c as [[] [] [] [] [] [] [] []]; vm_compute; intros; split; congruence. Qed.

Definition decimal_text (s : string) : Prop := forallb decimal_char (String.list_ascii_of_string s) = true.

Lemma decimal_not_nan s : decimal_text s → ToLower s ≠ "nan".
Proof.
  unfold decimal_text. destruct s as [|c s]; [done|]. cbn. intros [Hc _]%andb_true_iff.
  destruct (decimal_char_lower c Hc) as [_ Hn]. congruence.
Qed.

Lemma decimal_not_inf s neg bs : decimal_text s → take_sign (string_bytes s) = (neg, bs) →
  ToLower (bytes_string bs) ≠ "inf" ∧ ToLower (bytes_string bs) ≠ "infinity".
Proof.
  intros Hd Hs. assert (∃ s', bs = string_bytes s' ∧ decimal_text s') as (s' & -> & Hd').
  { apply take_sign_inv in Hs as [[<- _]|(b & Hb & _)]; [by exists s|]. destruct s as [|c s]; [done|].
    rewrite string_bytes_cons in Hb. simplify_eq. exists s. split; [done|]. unfold decimal_text in *. cbn in Hd.
    by apply andb_true_iff in Hd as [_ ?]. }
  destruct s' as [|c s']; [done|]. rewrite string_bytes_cons. unfold bytes_string. cbn. rewrite of_byte_byte_of.
  unfold decimal_text in Hd'. cbn in Hd'. apply andb_true_iff in Hd' as [Hc _].
  destruct (decimal_char_lower c Hc) as [Hi _]. split; congruence.
Qed.

(** [ParseFloat] of a text of decimal characters is a decimal. *)
Lemma ParseFloat_decimal s f :
  decimal_text s → ParseFloat s = (f, true) →
  ∃ neg bs m e, take_sign (string_bytes s) = (neg, bs) ∧ read_decimal bs = Some (m, e) ∧
    f = f64_signed neg (f64_of_decimal m e).
Proof.
  intros Hc. unfold ParseFloat. destruct (take_sign (string_bytes s)) as [neg bs] eqn:Es. cbv zeta.
  destruct (decimal_not_inf _ _ _ Hc Es) as [H1 H2]. pose proof (decimal_not_nan _ Hc) as H3.
  rewrite !bool_decide_eq_false_2 by done. cbn [orb].
  destruct (read_decimal bs) as [[m e]|] eqn:Er; [|done]. intros [= <- _]. by exists neg, bs, m, e.
Qed.

(** An activity field of a REST candle is read exactly or refused.  What is
    accepted is a decimal number written in the field, rounded once to a float64;
    it is finite and not negative, and it is zero only when the decimal is zero: a
    trade too small to be represented is refused, not dropped. *)
Theorem activity_read_exactly raw x :
  parseKlineActivityFloat raw = Ok x →
  ∃ text neg bs m e, klineActivityNumber raw = (text, true) ∧ take_sign (string_bytes text) = (neg, bs) ∧
    read_decimal bs = Some (m, e) ∧ x = f64_signed neg (f64_of_decimal m e) ∧
    f64_is_nan x = false ∧ f64_is_inf x = false ∧ f64_ltb x f64_zero = false ∧ (f64_eqb x f64_zero = true ↔ m = 0).
Proof.
  unfold parseKlineActivityFloat. destruct (klineActivityNumber raw) as [text ok].
  destruct (ParseFloat text) as [f fits] eqn:Ep. cbv zeta. rewrite mantissa_nonzero.
  destruct (f64_eqb f f64_zero && existsb nonzero_digit (mantissa_bytes (string_bytes text))) eqn:Ez; [done|].
  destruct (_ || _) eqn:E; [done|]. intros [= ->]. apply orb_false_iff in E as [E Hneg].
  apply orb_false_iff in E as [E Hinf]. apply orb_false_iff in E as [E Hnan]. apply orb_false_iff in E as [E Hfits].
  apply negb_false_iff, andb_true_iff in E as [-> Hd]. apply negb_false_iff in Hfits as ->.
  destruct (ParseFloat_decimal _ _ Hd Ep) as (neg & bs & m & e & Hs & Hr & ->).
  exists text, neg, bs, m, e. split_and!; try done. split.
  - intros Hz. rewrite Hz in Ez. cbn [andb] in Ez. eapply read_decimal_zero; [done|].
    apply take_sign_inv in Hs as [[<- _]|(b & Hs & He & Hb)]; [done|].
    rewrite Hs in Ez. cbn [mantissa_bytes] in Ez. rewrite He in Ez. cbn [existsb] in Ez. by rewrite Hb in Ez.
  - intros ->. unfold f64_of_decimal. cbn. by destruct neg.
Qed.

Example activity_read_exactly_witness :
  ∃ x text neg bs m e, parseKlineActivityFloat (AnyString " 12.50 ") = Ok x ∧
    klineActivityNumber (AnyString " 12.50 ") = (text, true) ∧ take_sign (string_bytes text) = (neg, bs) ∧
    read_decimal bs = Some (m, e) ∧ x = f64_signed neg (f64_of_decimal m e) ∧ m = 1250.
Proof.
  destruct (parseKlineActivityFloat (AnyString " 12.50 ")) as [x|] eqn:E; [|vm_compute in E; discriminate].
  destruct (activity_read_exactly _ _ E) as (text & neg & bs & m & e & H1 & H2 & H3 & H4 & _).
  exists x, text, neg, bs, m, e. split_and!; try done. vm_compute in H1. injection H1 as <-.
  vm_compute in H2. injection H2 as <- <-. vm_compute in H3. congruence.
Defined.

(** Refused: an underflow, another notation, a negative number, a bool. *)
Example activity_refused :
  (λ raw, is_ok (parseKlineActivityFloat raw)) <$>
    [AnyString "1e-400"; AnyString "0x1p2"; AnyString "1_0"; AnyString "-1"; AnyString "1e400"; AnyString "NaN";
     AnyBool true; AnyNil; AnyString ""] = replicate 9 false.
Proof. vm_compute. reflexivity. Qed.
