(* ===== verification/Aggregator.v ===== *)
(** * Rollups (internal/aggregator/engine.go)

    [RollupBars] folds the candles of a bucket into one candle of a longer
    timeframe; [RollupSourceTimeframe] says from which timeframe a longer one is
    built; [ApplyDerived] adds change and amplitude.

    The loops of the code are folds over the sorted copy: [price_scan] is the
    body of the first loop, [rollup_step] the body of the second. *)

From S2P Require Export Market.

Local Open Scope string_scope.
Local Open Scope Z_scope.
Local Open Scope list_scope.

Definition OneMinute : Frame := F1m.

(** [None] is the empty string. *)
Definition RollupSourceTimeframe (target : Frame) : option Frame :=
  match target with
  | F5m | F15m => Some F1m
  | F30m => Some F15m
  | F1H => Some F30m
  | F2H | F4H | F6H | F12H | F1D => Some F1H
  | F2D | F3D | F5D | F1W | F2W | F1M | F3M => Some F1D
  | F1m => None
  end.

Definition hasTradeActivity (bar : Bar) : bool :=
  (0 <? bar.(Bar.TradeCount)) || f64_gtb bar.(Bar.Volume) f64_zero
  || f64_gtb bar.(Bar.QuoteVolume) f64_zero || f64_gtb bar.(Bar.ContractVolume) f64_zero.

(** The loop that finds the first and the last traded candle: the variables
    [firstPrice], [lastPrice], [hasTrades] after the candles from index [i]. *)
Fixpoint price_scan (bars : list Bar) (i : nat) (st : nat * nat * bool) : nat * nat * bool :=
  match bars with
  | [] => st
  | bar :: bars' =>
      let '(firstPrice, lastPrice, hasTrades) := st in
      price_scan bars' (S i)
        (if negb (hasTradeActivity bar) then st
         else (if hasTrades then firstPrice else i, i, true))
  end.

(** The body of the loop that accumulates a candle into [rollup], statement by
    statement. *)
Definition raise_high (rollup bar : Bar) : Bar :=
  if f64_gtb bar.(Bar.HighPrice) rollup.(Bar.HighPrice)
  then Bar.set_HighPrice bar.(Bar.HighPrice) rollup else rollup.

Definition lower_low (rollup bar : Bar) : Bar :=
  if f64_ltb bar.(Bar.LowPrice) rollup.(Bar.LowPrice)
  then Bar.set_LowPrice bar.(Bar.LowPrice) rollup else rollup.

Definition add_amounts (rollup bar : Bar) : Bar :=
  let rollup := Bar.set_Volume (f64_add rollup.(Bar.Volume) bar.(Bar.Volume)) rollup in
  let rollup :=
    Bar.set_QuoteVolume (f64_add rollup.(Bar.QuoteVolume) bar.(Bar.QuoteVolume)) rollup in
  let rollup :=
    Bar.set_ContractVolume (f64_add rollup.(Bar.ContractVolume) bar.(Bar.ContractVolume)) rollup in
  Bar.set_TradeCount (i64 (rollup.(Bar.TradeCount) + bar.(Bar.TradeCount))) rollup.

Definition raise_tick (rollup bar : Bar) : Bar :=
  if rollup.(Bar.LastTickMS) <? bar.(Bar.LastTickMS)
  then Bar.set_LastTickMS bar.(Bar.LastTickMS) rollup else rollup.

Definition rollup_step (hasTrades : bool) (rollup bar : Bar) : Bar :=
  let rollup :=
    if negb hasTrades || hasTradeActivity bar then lower_low (raise_high rollup bar) bar
    else rollup in
  raise_tick (add_amounts rollup bar) bar.

(** [ordered[i]]; the indices the code uses are in range ([price_scan_spec]). *)
Definition bar_at (ordered : list Bar) (i : nat) : Bar := nth i ordered Bar.zero.

(** The composite literal [market.Bar{...}] the accumulation starts from. *)
Definition rollup_init (tf : Frame) (ordered : list Bar) (firstPrice lastPrice : nat)
    (isFinal : bool) (reason : string) (updatedAtMS : Z) : Bar :=
  let startMS := FloorStartMS (bar_at ordered 0).(Bar.StartMS) tf in
  {| Bar.Exchange := (bar_at ordered 0).(Bar.Exchange);
     Bar.Symbol := (bar_at ordered 0).(Bar.Symbol);
     Bar.MarginType := (bar_at ordered 0).(Bar.MarginType);
     Bar.Timeframe := frame_name tf;
     Bar.StartMS := startMS; Bar.EndMS := EndMS startMS tf;
     Bar.StartTS := 0; Bar.EndTS := 0;
     Bar.OpenPrice := (bar_at ordered firstPrice).(Bar.OpenPrice);
     Bar.HighPrice := (bar_at ordered firstPrice).(Bar.HighPrice);
     Bar.LowPrice := (bar_at ordered firstPrice).(Bar.LowPrice);
     Bar.ClosePrice := (bar_at ordered lastPrice).(Bar.ClosePrice);
     Bar.Open := f64_zero; Bar.High := f64_zero; Bar.Low := f64_zero; Bar.Close := f64_zero;
     Bar.PrevClose := f64_zero; Bar.Chg := f64_zero; Bar.Amp := f64_zero;
     Bar.Volume := f64_zero; Bar.VolumeUnit := (bar_at ordered 0).(Bar.VolumeUnit);
     Bar.QuoteVolume := f64_zero; Bar.Quote := f64_zero;
     Bar.QuoteUnit := (bar_at ordered 0).(Bar.QuoteUnit);
     Bar.ContractVolume := f64_zero; Bar.TradeCount := 0;
     Bar.LastTickMS := (bar_at ordered (length ordered - 1)).(Bar.LastTickMS);
     Bar.IsFinal := isFinal; Bar.Source := "rollup"; Bar.Reason := reason;
     Bar.UpdatedAtMS := updatedAtMS |}.

Definition RollupBars (tf : Frame) (bars : list Bar) (isFinal : bool) (reason : string)
    (updatedAtMS : Z) : option Bar :=
  match bars with
  | [] => None
  | _ =>
      let ordered := sort_by Bar.StartMS bars in
      let '(firstPrice, lastPrice, hasTrades) :=
        price_scan ordered 0 (0%nat, (length ordered - 1)%nat, false) in
      Some (fold_left (rollup_step hasTrades) ordered
              (rollup_init tf ordered firstPrice lastPrice isFinal reason updatedAtMS))
  end.

Definition roundPercent (value : float64) : float64 :=
  if f64_is_nan value || f64_is_inf value then f64_zero
  else f64_div (f64_round (f64_mul value (f64_of_Z 1000000))) (f64_of_Z 1000000).

Definition ApplyDerived (bar : Bar) (previousClose : float64) : Bar :=
  let bar := Bar.set_PrevClose previousClose bar in
  let bar :=
    if f64_gtb previousClose f64_zero then
      Bar.set_Chg (roundPercent (f64_mul (f64_div (f64_sub bar.(Bar.ClosePrice) previousClose)
                                                  previousClose) (f64_of_Z 100))) bar
    else bar in
  let bar :=
    if f64_gtb bar.(Bar.LowPrice) f64_zero then
      Bar.set_Amp (roundPercent (f64_mul (f64_div (f64_sub bar.(Bar.HighPrice) bar.(Bar.LowPrice))
                                                  bar.(Bar.LowPrice)) (f64_of_Z 100))) bar
    else bar in
  DecorateBar bar.

(** ** What the loops compute *)

Definition has_trades (bars : list Bar) : bool := existsb hasTradeActivity bars.

(** The candles whose prices count: the traded ones, or all when none is. *)
Definition priced (bars : list Bar) : list Bar :=
  List.filter (fun b => negb (has_trades bars) || hasTradeActivity b) bars.

Lemma priced_traded bars :
  has_trades bars = true → priced bars = List.filter hasTradeActivity bars.
Proof. intros H. unfold priced. by rewrite H. Qed.

Lemma priced_untraded bars : has_trades bars = false → priced bars = bars.
Proof. intros H. unfold priced. rewrite H. simpl. induction bars; simpl; f_equal; auto.
  apply IHbars. unfold has_trades in *. simpl in H. by apply orb_false_iff in H as [_ ?]. Qed.

Lemma priced_incl b bars : b ∈ priced bars → b ∈ bars.
Proof. unfold priced. rewrite !list_elem_of_In, List.filter_In. tauto. Qed.

Lemma bar_at_app l0 b l : bar_at (l0 ++ b :: l) (length l0) = b.
Proof. unfold bar_at. rewrite app_nth2 by lia. by replace (_ - _)%nat with 0%nat by lia. Qed.

(** Once a traded candle was found only the last one moves. *)
Lemma price_scan_after l l0 f la :
  ∃ la', price_scan l (length l0) (f, la, true) = (f, la', true) ∧
         (if has_trades l then last (List.filter hasTradeActivity l) = Some (bar_at (l0 ++ l) la')
          else la' = la).
Proof.
  revert l0 la. induction l as [|b l IH]; intros l0 la; simpl; [by exists la|].
  replace (S (length l0)) with (length (l0 ++ [b])) by (rewrite length_app; simpl; lia).
  destruct (hasTradeActivity b) eqn:Eb; simpl.
  - destruct (IH (l0 ++ [b]) (length l0)) as (la' & -> & H). exists la'. split; [done|].
    rewrite <- app_assoc in H. simpl in H. destruct (has_trades l) eqn:El.
    + destruct (List.filter hasTradeActivity l) eqn:Ef; done.
    + subst la'. rewrite bar_at_app.
      enough (List.filter hasTradeActivity l = []) as -> by done.
      destruct (List.filter hasTradeActivity l) as [|c t] eqn:Ef; [done|]. exfalso.
      assert (Hc : In c (List.filter hasTradeActivity l)) by (rewrite Ef; by left).
      apply List.filter_In in Hc. apply not_true_iff_false in El. apply El.
      apply existsb_exists. by exists c.
  - destruct (IH (l0 ++ [b]) la) as (la' & -> & H). exists la'. split; [done|].
    rewrite <- app_assoc in H. simpl in H. by destruct (has_trades l).
Qed.

Lemma price_scan_spec l l0 f la :
  ∃ f' la', price_scan l (length l0) (f, la, false) = (f', la', has_trades l) ∧
    (if has_trades l then
       head (List.filter hasTradeActivity l) = Some (bar_at (l0 ++ l) f') ∧
       last (List.filter hasTradeActivity l) = Some (bar_at (l0 ++ l) la')
     else f' = f ∧ la' = la).
Proof.
  revert l0 f la. induction l as [|b l IH]; intros l0 f la; simpl; [by exists f, la|].
  destruct (hasTradeActivity b) eqn:Eb; simpl.
  - pose proof (price_scan_after (b :: l) l0 (length l0) la) as (la' & H & H'). simpl in H.
    rewrite Eb in H. simpl in H. exists (length l0), la'. split; [exact H|].
    simpl in H'. rewrite Eb in H'. simpl in H'. split; [by rewrite bar_at_app|done].
  - replace (S (length l0)) with (length (l0 ++ [b])) by (rewrite length_app; simpl; lia).
    destruct (IH (l0 ++ [b]) f la) as (f' & la' & -> & H). exists f', la'. split; [done|].
    by rewrite <- app_assoc in H.
Qed.

Lemma bar_at_last b l : last (b :: l) = Some (bar_at (b :: l) (length (b :: l) - 1)).
Proof.
  rewrite last_lookup. replace (pred (length (b :: l))) with (length (b :: l) - 1)%nat by (simpl; lia).
  destruct (lookup_lt_is_Some_2 (b :: l) (length (b :: l) - 1)) as [x Hx]; [simpl; lia|].
  rewrite Hx. unfold bar_at. by erewrite nth_lookup_Some.
Qed.

(** The first loop finds the first and the last of the candles that count. *)
Lemma price_scan_priced ordered :
  ordered ≠ [] →
  ∃ f la, price_scan ordered 0 (0%nat, (length ordered - 1)%nat, false) = (f, la, has_trades ordered) ∧
    head (priced ordered) = Some (bar_at ordered f) ∧
    last (priced ordered) = Some (bar_at ordered la).
Proof.
  intros Hne. destruct (price_scan_spec ordered [] 0 (length ordered - 1)) as (f & la & E & H).
  exists f, la. simpl in E. split; [exact E|]. simpl in H.
  destruct (has_trades ordered) eqn:Eh.
  - rewrite priced_traded by done. exact H.
  - rewrite priced_untraded by done. destruct H as [-> ->].
    destruct ordered as [|b l]; [done|]. split; [done|apply bar_at_last].
Qed.

(** *** The fields of the accumulation, one fold each *)

Definition pick_high (acc : float64) (b : Bar) : float64 :=
  if f64_gtb b.(Bar.HighPrice) acc then b.(Bar.HighPrice) else acc.
Definition pick_low (acc : float64) (b : Bar) : float64 :=
  if f64_ltb b.(Bar.LowPrice) acc then b.(Bar.LowPrice) else acc.
Definition pick_tick (acc : Z) (b : Bar) : Z :=
  if acc <? b.(Bar.LastTickMS) then b.(Bar.LastTickMS) else acc.

Lemma raise_high_eq r b : raise_high r b = Bar.set_HighPrice (pick_high r.(Bar.HighPrice) b) r.
Proof. unfold raise_high, pick_high. destruct r. by case_bool. Qed.
Lemma lower_low_eq r b : lower_low r b = Bar.set_LowPrice (pick_low r.(Bar.LowPrice) b) r.
Proof. unfold lower_low, pick_low. destruct r. by case_bool. Qed.
Lemma raise_tick_eq r b : raise_tick r b = Bar.set_LastTickMS (pick_tick r.(Bar.LastTickMS) b) r.
Proof. unfold raise_tick, pick_tick. destruct r. by case_bool. Qed.

(** The fields no statement of the loop touches. *)
Definition same_id (r r' : Bar) : Prop :=
  r'.(Bar.OpenPrice) = r.(Bar.OpenPrice) ∧ r'.(Bar.ClosePrice) = r.(Bar.ClosePrice) ∧
  r'.(Bar.StartMS) = r.(Bar.StartMS) ∧ r'.(Bar.EndMS) = r.(Bar.EndMS) ∧
  r'.(Bar.Exchange) = r.(Bar.Exchange) ∧ r'.(Bar.Symbol) = r.(Bar.Symbol) ∧
  r'.(Bar.Timeframe) = r.(Bar.Timeframe) ∧ r'.(Bar.IsFinal) = r.(Bar.IsFinal).

(** All the fields of one pass through the loop. *)
Lemma step_fields h r b :
  let r' := rollup_step h r b in
  r'.(Bar.HighPrice) =
    (if negb h || hasTradeActivity b then pick_high r.(Bar.HighPrice) b else r.(Bar.HighPrice)) ∧
  r'.(Bar.LowPrice) =
    (if negb h || hasTradeActivity b then pick_low r.(Bar.LowPrice) b else r.(Bar.LowPrice)) ∧
  r'.(Bar.LastTickMS) = pick_tick r.(Bar.LastTickMS) b ∧
  r'.(Bar.Volume) = f64_add r.(Bar.Volume) b.(Bar.Volume) ∧
  r'.(Bar.TradeCount) = i64 (r.(Bar.TradeCount) + b.(Bar.TradeCount)) ∧ same_id r r'.
Proof.
  unfold rollup_step. cbv zeta. rewrite raise_tick_eq, lower_low_eq, raise_high_eq.
  unfold same_id. destruct r. case_bool; split_and!; reflexivity.
Qed.

Lemma step_amounts h r b :
  (rollup_step h r b).(Bar.QuoteVolume) = f64_add r.(Bar.QuoteVolume) b.(Bar.QuoteVolume) ∧
  (rollup_step h r b).(Bar.ContractVolume) = f64_add r.(Bar.ContractVolume) b.(Bar.ContractVolume).
Proof.
  unfold rollup_step. cbv zeta. rewrite raise_tick_eq, lower_low_eq, raise_high_eq. destruct r. by case_bool.
Qed.

Section fold_fields.
Context (h : bool).

Lemma fold_high l r :
  (fold_left (rollup_step h) l r).(Bar.HighPrice) =
  fold_left pick_high (List.filter (fun b => negb h || hasTradeActivity b) l) r.(Bar.HighPrice).
Proof.
  revert r. induction l as [|b l IH]; intros r; simpl; [done|]. rewrite IH.
  destruct (step_fields h r b) as (-> & _). by destruct (negb h || hasTradeActivity b).
Qed.
Lemma fold_low l r :
  (fold_left (rollup_step h) l r).(Bar.LowPrice) =
  fold_left pick_low (List.filter (fun b => negb h || hasTradeActivity b) l) r.(Bar.LowPrice).
Proof.
  revert r. induction l as [|b l IH]; intros r; simpl; [done|]. rewrite IH.
  destruct (step_fields h r b) as (_ & -> & _). by destruct (negb h || hasTradeActivity b).
Qed.
Lemma fold_volume l r :
  (fold_left (rollup_step h) l r).(Bar.Volume) =
  fold_left f64_add (Bar.Volume <$> l) r.(Bar.Volume).
Proof. revert r. induction l as [|b l IH]; intros r; simpl; [done|]. rewrite IH. f_equal. apply step_fields. Qed.
Lemma fold_quote l r :
  (fold_left (rollup_step h) l r).(Bar.QuoteVolume) =
  fold_left f64_add (Bar.QuoteVolume <$> l) r.(Bar.QuoteVolume).
Proof. revert r. induction l as [|b l IH]; intros r; simpl; [done|]. rewrite IH. f_equal. apply step_amounts. Qed.
Lemma fold_contract l r :
  (fold_left (rollup_step h) l r).(Bar.ContractVolume) =
  fold_left f64_add (Bar.ContractVolume <$> l) r.(Bar.ContractVolume).
Proof. revert r. induction l as [|b l IH]; intros r; simpl; [done|]. rewrite IH. f_equal. apply step_amounts. Qed.
Lemma fold_count l r :
  i64 (fold_left (rollup_step h) l r).(Bar.TradeCount) =
  i64 (r.(Bar.TradeCount) + foldr Z.add 0 (Bar.TradeCount <$> l)).
Proof.
  revert r. induction l as [|b l IH]; intros r; simpl; [f_equal; lia|].
  rewrite IH. destruct (step_fields h r b) as (_ & _ & _ & _ & -> & _).
  rewrite i64_add_l. f_equal. symmetry. apply Z.add_assoc.
Qed.
Lemma fold_tick l r :
  (fold_left (rollup_step h) l r).(Bar.LastTickMS) = fold_left pick_tick l r.(Bar.LastTickMS).
Proof. revert r. induction l as [|b l IH]; intros r; simpl; [done|]. rewrite IH. f_equal. apply step_fields. Qed.
Lemma fold_id l r : same_id r (fold_left (rollup_step h) l r).
Proof.
  revert r. induction l as [|b l IH]; intros r; simpl; [done|].
  specialize (IH (rollup_step h r b)). destruct (step_fields h r b) as (_ & _ & _ & _ & _ & Hid).
  unfold same_id in *. intuition congruence.
Qed.
End fold_fields.

(** The latest tick: attained, and not before any other. *)
Lemma pick_tick_spec l acc :
  fold_left pick_tick l acc ∈ acc :: (Bar.LastTickMS <$> l) ∧ acc <= fold_left pick_tick l acc ∧
  ∀ b, b ∈ l → b.(Bar.LastTickMS) <= fold_left pick_tick l acc.
Proof.
  revert acc. induction l as [|b l IH]; intros acc; simpl; [split_and!; [constructor|lia|set_solver]|].
  destruct (IH (pick_tick acc b)) as (H1 & H2 & H3).
  assert ((pick_tick acc b = acc ∨ pick_tick acc b = b.(Bar.LastTickMS)) ∧ acc <= pick_tick acc b ∧ b.(Bar.LastTickMS) <= pick_tick acc b)
    as (He & Ha & Hb) by (unfold pick_tick; case_bool; zbool; lia).
  split_and!; [destruct He as [He|He]; rewrite He in *; set_solver|lia|].
  intros b' [->|Hb']%elem_of_cons; [lia|by apply H3].
Qed.

(** The running extremes: attained, and bounds of everything seen. *)
Lemma pick_high_spec l acc :
  not_nan acc → Forall (fun b => not_nan b.(Bar.HighPrice)) l →
  let m := fold_left pick_high l acc in
  m ∈ acc :: (Bar.HighPrice <$> l) ∧ f64_leb acc m = true ∧
  Forall (fun b => f64_leb b.(Bar.HighPrice) m = true) l.
Proof.
  revert acc. induction l as [|b l IH]; intros acc Ha Hl; simpl.
  { split_and!; [constructor|by apply f64_leb_refl|constructor]. }
  apply Forall_cons in Hl as [Hb Hl]. 
  assert (pick_high acc b = if f64_ltb acc b.(Bar.HighPrice) then b.(Bar.HighPrice) else acc) as ->
    by reflexivity.
  destruct (f64_ltb acc b.(Bar.HighPrice)) eqn:E.
  - destruct (IH _ Hb Hl) as (H1 & H2 & H3). split_and!; [set_solver| |by constructor].
    eapply f64_leb_trans; [by apply f64_ltb_leb|done].
  - destruct (IH _ Ha Hl) as (H1 & H2 & H3). split_and!; [set_solver|done|].
    constructor; [|done]. eapply f64_leb_trans; [|exact H2]. by apply f64_not_ltb.
Qed.

Lemma pick_low_spec l acc :
  not_nan acc → Forall (fun b => not_nan b.(Bar.LowPrice)) l →
  let m := fold_left pick_low l acc in
  m ∈ acc :: (Bar.LowPrice <$> l) ∧ f64_leb m acc = true ∧
  Forall (fun b => f64_leb m b.(Bar.LowPrice) = true) l.
Proof.
  revert acc. induction l as [|b l IH]; intros acc Ha Hl; simpl.
  { split_and!; [constructor|by apply f64_leb_refl|constructor]. }
  apply Forall_cons in Hl as [Hb Hl]. 
  assert (pick_low acc b = if f64_ltb b.(Bar.LowPrice) acc then b.(Bar.LowPrice) else acc) as ->
    by reflexivity.
  destruct (f64_ltb b.(Bar.LowPrice) acc) eqn:E.
  - destruct (IH _ Hb Hl) as (H1 & H2 & H3). split_and!; [set_solver| |by constructor].
    eapply f64_leb_trans; [done|by apply f64_ltb_leb].
  - destruct (IH _ Ha Hl) as (H1 & H2 & H3). split_and!; [set_solver|done|].
    constructor; [|done]. eapply f64_leb_trans; [exact H2|]. by apply f64_not_ltb.
Qed.

Lemma fold_count_range h l r :
  int64_range r.(Bar.TradeCount) → int64_range (fold_left (rollup_step h) l r).(Bar.TradeCount).
Proof.
  revert r. induction l as [|b l IH]; intros r Hr; simpl; [done|]. apply IH.
  destruct (step_fields h r b) as (_ & _ & _ & _ & -> & _). apply i64_range.
Qed.

(** Everything [RollupBars] computes, in terms of the sorted candles. *)
Lemma RollupBars_spec tf bars isFinal reason at_ms :
  bars ≠ [] →
  let ordered := sort_by Bar.StartMS bars in
  ∃ r first last_ b0,
    RollupBars tf bars isFinal reason at_ms = Some r ∧
    head ordered = Some b0 ∧ head (priced ordered) = Some first ∧
    last (priced ordered) = Some last_ ∧
    r.(Bar.OpenPrice) = first.(Bar.OpenPrice) ∧ r.(Bar.ClosePrice) = last_.(Bar.ClosePrice) ∧
    r.(Bar.HighPrice) = fold_left pick_high (priced ordered) first.(Bar.HighPrice) ∧
    r.(Bar.LowPrice) = fold_left pick_low (priced ordered) first.(Bar.LowPrice) ∧
    r.(Bar.Volume) = fold_left f64_add (Bar.Volume <$> ordered) f64_zero ∧
    r.(Bar.TradeCount) = i64 (foldr Z.add 0 (Bar.TradeCount <$> ordered)) ∧
    r.(Bar.StartMS) = FloorStartMS b0.(Bar.StartMS) tf ∧
    r.(Bar.EndMS) = EndMS r.(Bar.StartMS) tf ∧
    r.(Bar.Exchange) = b0.(Bar.Exchange) ∧ r.(Bar.Symbol) = b0.(Bar.Symbol) ∧
    r.(Bar.Timeframe) = frame_name tf ∧ r.(Bar.IsFinal) = isFinal ∧
    r.(Bar.QuoteVolume) = fold_left f64_add (Bar.QuoteVolume <$> ordered) f64_zero ∧
    r.(Bar.ContractVolume) = fold_left f64_add (Bar.ContractVolume <$> ordered) f64_zero ∧
    r.(Bar.LastTickMS) ∈ Bar.LastTickMS <$> ordered ∧
    (∀ b, b ∈ ordered → b.(Bar.LastTickMS) <= r.(Bar.LastTickMS)).
Proof.
  intros Hne ordered.
  assert (Ho : ordered ≠ []).
  { intros E. apply Hne. apply Permutation_nil_r. rewrite <- E. symmetry. apply sort_by_perm. }
  destruct (price_scan_priced ordered Ho) as (f & la & E & Hf & Hl).
  destruct ordered as [|b0 rest] eqn:Eo; [done|]. rewrite <- Eo in *. subst ordered.
  set (ordered := sort_by Bar.StartMS bars) in *.
  set (init := rollup_init tf ordered f la isFinal reason at_ms).
  exists (fold_left (rollup_step (has_trades ordered)) ordered init),
    (bar_at ordered f), (bar_at ordered la), b0.
  destruct (fold_id (has_trades ordered) ordered init) as (Hop & Hcl & Hst & Hen & Hex & Hsy & Htf & Hfi).
  split_and!; try done.
  - unfold RollupBars. fold ordered. destruct bars; [done|]. rewrite E. done.
  - by rewrite Eo.
  - by rewrite fold_high.
  - by rewrite fold_low.
  - by rewrite fold_volume.
  - rewrite <- (i64_id (fold_left _ _ _).(Bar.TradeCount)).
    + rewrite fold_count. f_equal.
    + apply fold_count_range. done.
  - rewrite Hst. subst init. simpl. unfold bar_at. by rewrite Eo.
  - rewrite Hen, Hst. done.
  - rewrite Hex. subst init. simpl. unfold bar_at. by rewrite Eo.
  - rewrite Hsy. subst init. simpl. unfold bar_at. by rewrite Eo.
  - by rewrite fold_quote.
  - by rewrite fold_contract.
  - rewrite fold_tick. destruct (pick_tick_spec ordered init.(Bar.LastTickMS)) as ([->|?]%elem_of_cons & _ & _); [|done].
    apply list_elem_of_fmap. exists (bar_at ordered (length ordered - 1)). split; [done|].
    apply list_elem_of_In, nth_In. rewrite Eo. simpl. lia.
  - rewrite fold_tick. intros b Hb. by apply pick_tick_spec.
Qed.

Lemma RollupBars_None tf bars isFinal reason at_ms :
  RollupBars tf bars isFinal reason at_ms = None ↔ bars = [].
Proof.
  split; [|by intros ->]. intros E. destruct (decide (bars = [])) as [|Hne]; [done|].
  destruct (RollupBars_spec tf bars isFinal reason at_ms Hne) as (r & ? & ? & ? & Hr & _). congruence.
Qed.

(** A candle whose prices make sense. *)
Definition candle (b : Bar) : Prop :=
  f64_ltb f64_zero b.(Bar.LowPrice) = true ∧
  f64_leb b.(Bar.LowPrice) b.(Bar.OpenPrice) = true ∧
  f64_leb b.(Bar.LowPrice) b.(Bar.ClosePrice) = true ∧
  f64_leb b.(Bar.OpenPrice) b.(Bar.HighPrice) = true ∧
  f64_leb b.(Bar.ClosePrice) b.(Bar.HighPrice) = true.

Definition prices_ok (b : Bar) : Prop := not_nan b.(Bar.HighPrice) ∧ not_nan b.(Bar.LowPrice).

#[export] Instance prices_ok_dec b : Decision (prices_ok b).
Proof. unfold prices_ok, not_nan. apply _. Defined.
#[export] Instance candle_dec b : Decision (candle b).
Proof. unfold candle. apply _. Defined.

Lemma candle_prices_ok b : candle b → prices_ok b.
Proof.
  intros (H1 & H2 & _ & H4 & _). split.
  - by apply f64_leb_not_nan in H4 as [].
  - by apply f64_ltb_not_nan in H1 as [].
Qed.

(** The extremes of a rollup, as bounds. *)
Lemma rollup_extremes l first :
  head l = Some first → Forall prices_ok l →
  let hi := fold_left pick_high l first.(Bar.HighPrice) in
  let lo := fold_left pick_low l first.(Bar.LowPrice) in
  hi ∈ Bar.HighPrice <$> l ∧ lo ∈ Bar.LowPrice <$> l ∧
  ∀ b, b ∈ l → f64_leb b.(Bar.HighPrice) hi = true ∧ f64_leb lo b.(Bar.LowPrice) = true.
Proof.
  intros Hh Hok hi lo. destruct l as [|b0 l]; [done|]. injection Hh as <-.
  assert (Forall (fun b => not_nan b.(Bar.HighPrice)) (b0 :: l)) as Hhi
    by (eapply Forall_impl; [exact Hok|by intros ? []]).
  assert (Forall (fun b => not_nan b.(Bar.LowPrice)) (b0 :: l)) as Hlo
    by (eapply Forall_impl; [exact Hok|by intros ? []]).
  destruct (pick_high_spec (b0 :: l) b0.(Bar.HighPrice)) as (H1 & _ & H2);
    [by inversion Hhi|done|].
  destruct (pick_low_spec (b0 :: l) b0.(Bar.LowPrice)) as (L1 & _ & L2);
    [by inversion Hlo|done|].
  fold hi in H1, H2. fold lo in L1, L2. rewrite Forall_forall in H2, L2.
  split_and!; [set_solver|set_solver|]. intros b Hb. split; [by apply H2|by apply L2].
Qed.

Lemma Forall_priced (P : Bar → Prop) bars :
  Forall P bars → Forall P (priced (sort_by Bar.StartMS bars)).
Proof.
  rewrite !Forall_forall. intros H b Hb%priced_incl. apply H. by rewrite sort_by_perm in Hb.
Qed.

(** ** Rollup sources nest *)

(** Every bucket boundary of a timeframe is one of its source. *)
Lemma source_aligned f g s : RollupSourceTimeframe f = Some g → aligned f s → aligned g s.
Proof.
  intros Hs (k & Hk & ->).
  assert (∃ k', grid f k = grid g k' ∧ 0 <= k') as (k' & -> & Hk'); [|by exists k'].
  destruct f; simplify_eq/=;
    cbn [grid fixedMinuteFrames dayFrames weekFrames monthFrames from_option id];
    unfold MinuteMS, DayMS.
  - exists (k * 5); lia. - exists (k * 15); lia. - exists (k * 2); lia. - exists (k * 2); lia.
  - exists (k * 2); lia. - exists (k * 4); lia. - exists (k * 6); lia. - exists (k * 12); lia.
  - exists (k * 24); lia. - exists (k * 2); lia. - exists (k * 3); lia. - exists (k * 5); lia.
  - exists (k * 7 + 4); lia. - exists (k * 14 + 4); lia.
  - exists (month_start (1970 * 12 + k * 1)). split; [lia|].
    pose proof (month_start_mono (1970 * 12) (1970 * 12 + k * 1) ltac:(lia)).
    change (month_start (1970 * 12)) with 0 in *. lia.
  - exists (month_start (1970 * 12 + k * 3)). split; [lia|].
    pose proof (month_start_mono (1970 * 12) (1970 * 12 + k * 3) ltac:(lia)).
    change (month_start (1970 * 12)) with 0 in *. lia.
Qed.

Lemma source_domain f g ts : RollupSourceTimeframe f = Some g → in_domain f ts → in_domain g ts.
Proof.
  intros Hs [H1 H2]. split; [|done].
  assert (grid g 0 <= grid f 0); [|lia].
  destruct (source_aligned f g (grid f 0) Hs) as (k & Hk & ->); [by exists 0|].
  by apply grid_le.
Qed.

Lemma source_floor f g ts :
  RollupSourceTimeframe f = Some g → in_domain f ts →
  FloorStartMS ts f <= FloorStartMS ts g ∧ FloorStartMS (FloorStartMS ts g) f = FloorStartMS ts f.
Proof.
  intros Hs H. pose proof (source_domain f g ts Hs H) as Hg.
  assert (Hle : FloorStartMS ts f <= FloorStartMS ts g).
  { rewrite <- (aligned_floor g (FloorStartMS ts f)).
    - apply floor_mono; [|done|by apply floor_le].
      apply (source_domain f); [done|by apply in_domain_floor].
    - eapply source_aligned; [done|by apply floor_aligned].
    - pose proof (floor_le f ts H). unfold in_domain in H. lia. }
  split; [done|]. destruct (floor_spec f ts H) as (k & Hk & E & Hb). rewrite E in *.
  pose proof (floor_le g ts Hg). apply floor_grid; [done|lia|unfold in_domain in H; lia].
Qed.

(** ** Properties *)

(** C37: the rollup of a bucket's candles, whose highs and lows are numbers, takes open,
    high, low and close from the traded candles only (from all when none traded): first
    open and last close in time order, a high and a low that are attained and bound every
    candle that counts; volume, quote volume and contract volume are the float64 sums, and
    the trade count the 64-bit sum, over all candles in time order; the last tick is the
    latest of all; and the candle, of the first one's market and of the timeframe, starts
    and ends where its bucket does. *)
Theorem RollupBars_functional tf bars isFinal reason at_ms :
  bars ≠ [] → Forall prices_ok bars →
  let ordered := sort_by Bar.StartMS bars in
  ∃ r, RollupBars tf bars isFinal reason at_ms = Some r ∧
    Bar.OpenPrice <$> head (priced ordered) = Some r.(Bar.OpenPrice) ∧
    Bar.ClosePrice <$> last (priced ordered) = Some r.(Bar.ClosePrice) ∧
    r.(Bar.HighPrice) ∈ Bar.HighPrice <$> priced ordered ∧
    r.(Bar.LowPrice) ∈ Bar.LowPrice <$> priced ordered ∧
    (∀ b, b ∈ priced ordered → f64_leb b.(Bar.HighPrice) r.(Bar.HighPrice) = true ∧
                               f64_leb r.(Bar.LowPrice) b.(Bar.LowPrice) = true) ∧
    r.(Bar.Volume) = fold_left f64_add (Bar.Volume <$> ordered) f64_zero ∧
    r.(Bar.QuoteVolume) = fold_left f64_add (Bar.QuoteVolume <$> ordered) f64_zero ∧
    r.(Bar.ContractVolume) = fold_left f64_add (Bar.ContractVolume <$> ordered) f64_zero ∧
    r.(Bar.TradeCount) = i64 (foldr Z.add 0 (Bar.TradeCount <$> ordered)) ∧
    r.(Bar.LastTickMS) ∈ Bar.LastTickMS <$> ordered ∧
    (∀ b, b ∈ ordered → b.(Bar.LastTickMS) <= r.(Bar.LastTickMS)) ∧
    (∃ b0, head ordered = Some b0 ∧ r.(Bar.StartMS) = FloorStartMS b0.(Bar.StartMS) tf ∧
       r.(Bar.Exchange) = b0.(Bar.Exchange) ∧ r.(Bar.Symbol) = b0.(Bar.Symbol)) ∧
    r.(Bar.EndMS) = EndMS r.(Bar.StartMS) tf ∧
    r.(Bar.Timeframe) = frame_name tf ∧ r.(Bar.IsFinal) = isFinal.
Proof.
  intros Hne Hok ordered.
  destruct (RollupBars_spec tf bars isFinal reason at_ms Hne)
    as (r & first & last_ & b0 & Hr & H0 & Hf & Hl & Hop & Hcl & Hhi & Hlo & Hvol & Hcnt & Hst & Hen & Hex & Hsy & Htf & Hfi & Hq & Hc & Ht & Hm).
  fold ordered in H0, Hf, Hl, Hhi, Hlo, Hvol, Hcnt, Hq, Hc, Ht, Hm. exists r.
  destruct (rollup_extremes (priced ordered) first Hf) as (E1 & E2 & E3).
  { by apply Forall_priced. }
  rewrite <- Hhi in *. rewrite <- Hlo in *.
  split_and!; try done; [by rewrite Hf, Hop|by rewrite Hl, Hcl|by exists b0].
Qed.

(** Candles the examples use: one minute each, [k] minutes after [base]. *)
Definition sample_base : Z := 1779262200000.
Definition sample_bar (k o h l c v : Z) : Bar :=
  Bar.set_Volume (f64_of_Z v)
    {| Bar.Exchange := "okx"; Bar.Symbol := "BTC-USDT"; Bar.MarginType := "umargin";
       Bar.Timeframe := "1m"; Bar.StartMS := sample_base + k * 60000;
       Bar.EndMS := sample_base + k * 60000 + 59999; Bar.StartTS := 0; Bar.EndTS := 0;
       Bar.OpenPrice := f64_of_Z o; Bar.HighPrice := f64_of_Z h; Bar.LowPrice := f64_of_Z l;
       Bar.ClosePrice := f64_of_Z c; Bar.Open := f64_zero; Bar.High := f64_zero;
       Bar.Low := f64_zero; Bar.Close := f64_zero; Bar.PrevClose := f64_zero;
       Bar.Chg := f64_zero; Bar.Amp := f64_zero; Bar.Volume := f64_zero; Bar.VolumeUnit := "";
       Bar.QuoteVolume := f64_zero; Bar.Quote := f64_zero; Bar.QuoteUnit := "";
       Bar.ContractVolume := f64_zero; Bar.TradeCount := 0; Bar.LastTickMS := 0;
       Bar.IsFinal := true; Bar.Source := "rest"; Bar.Reason := "final"; Bar.UpdatedAtMS := 1 |}.

(** Out of order, and the middle candle carries prices without a trade. *)
Definition sample_bars : list Bar :=
  [sample_bar 2 10 12 9 11 5; sample_bar 1 50 50 50 50 0; sample_bar 0 8 10 7 10 3].

Example RollupBars_functional_witness :
  Forall prices_ok sample_bars ∧
  ∃ r, RollupBars F5m sample_bars true "rollup" 0 = Some r ∧
       f64_leb (f64_of_Z 12) r.(Bar.HighPrice) = true.
Proof.
  assert (Hok : Forall prices_ok sample_bars) by (repeat constructor).
  split; [exact Hok|].
  destruct (RollupBars_functional F5m sample_bars true "rollup" 0 ltac:(discriminate) Hok)
    as (r & Hr & _ & _ & _ & _ & Hb & _).
  exists r. split; [exact Hr|].
  apply (Hb (sample_bar 2 10 12 9 11 5)). apply list_elem_of_In. vm_compute. auto.
Defined.

(** the order in which the candles of a bucket are read does not matter:
    when their starts differ, the rollup of a permutation is the same candle. *)
Theorem RollupBars_permutation tf bars bars' isFinal reason at_ms :
  NoDup (Bar.StartMS <$> bars) → bars ≡ₚ bars' →
  RollupBars tf bars isFinal reason at_ms = RollupBars tf bars' isFinal reason at_ms.
Proof.
  intros Hnd Hp. unfold RollupBars.
  rewrite <- (sort_by_Permutation Bar.StartMS bars bars' Hnd Hp).
  destruct bars as [|b bars]; [by apply Permutation_nil in Hp as ->|].
  destruct bars' as [|b' bars']; [by symmetry in Hp; apply Permutation_nil in Hp|done].
Qed.

Example RollupBars_permutation_witness :
  NoDup (Bar.StartMS <$> sample_bars) ∧
  RollupBars F5m sample_bars true "rollup" 0 = RollupBars F5m (rev sample_bars) true "rollup" 0.
Proof.
  assert (Hnd : NoDup (Bar.StartMS <$> sample_bars)).
  { apply (bool_decide_unpack _). vm_compute. exact I. }
  split; [exact Hnd|].
  apply RollupBars_permutation; [exact Hnd|]. apply Permutation.Permutation_rev.
Defined.

(** Rolling up valid candles (positive low, open and close between low and
    high) gives a valid candle, whatever the mix of traded and empty minutes. *)
Theorem RollupBars_candle tf bars isFinal reason at_ms r :
  Forall candle bars → RollupBars tf bars isFinal reason at_ms = Some r → candle r.
Proof.
  intros Hc E. assert (Hne : bars ≠ []) by (intros ->; done).
  destruct (RollupBars_spec tf bars isFinal reason at_ms Hne)
    as (r' & first & last_ & b0 & Hr & H0 & Hf & Hl & Hop & Hcl & Hhi & Hlo & _).
  rewrite E in Hr. injection Hr as <-.
  set (pr := priced (sort_by Bar.StartMS bars)) in *.
  assert (Hcp : Forall candle pr) by by apply Forall_priced.
  destruct (rollup_extremes pr first Hf) as (E1 & E2 & E3).
  { eapply Forall_impl; [exact Hcp|]. apply candle_prices_ok. }
  rewrite <- Hhi in *. rewrite <- Hlo in *. rewrite Forall_forall in Hcp.
  apply list_elem_of_fmap in E2 as (bl & El & Hbl).
  destruct (Hcp bl Hbl) as (Hpos & _).
  pose proof (head_elem _ _ Hf) as Hfin. pose proof (last_elem _ _ Hl) as Hlin.
  destruct (Hcp first Hfin) as (_ & F2 & _ & F4 & _).
  destruct (Hcp last_ Hlin) as (_ & _ & L3 & _ & L5).
  destruct (E3 first Hfin), (E3 last_ Hlin).
  unfold candle. rewrite Hop, Hcl. split_and!; eauto using f64_leb_trans.
  by rewrite El.
Qed.

Example RollupBars_candle_witness :
  ∃ r, RollupBars F5m sample_bars true "rollup" 0 = Some r ∧ candle r.
Proof.
  eexists. split; [reflexivity|].
  apply (RollupBars_candle F5m sample_bars true "rollup" 0); [|reflexivity].
  repeat constructor; reflexivity.
Defined.

(** C40: the timeframe a rollup is built from is finer than the rollup's, and its buckets
    tile the rollup's: the start of a target bucket and the start of the next one are
    starts of source buckets, and the source bucket of a timestamp lies, from its start,
    in the target bucket of that timestamp. *)
Theorem rollup_source_nested f g ts :
  RollupSourceTimeframe f = Some g → in_domain f ts →
  NextStartMS (FloorStartMS ts f) f <= MaxTS →
  Index g < Index f ∧
  FloorStartMS (FloorStartMS ts f) g = FloorStartMS ts f ∧
  FloorStartMS (NextStartMS (FloorStartMS ts f) f) g = NextStartMS (FloorStartMS ts f) f ∧
  FloorStartMS ts f <= FloorStartMS ts g ∧
  FloorStartMS (FloorStartMS ts g) f = FloorStartMS ts f.
Proof.
  intros Hs H Hn. destruct (source_floor f g ts Hs H) as [H1 H2].
  pose proof (floor_aligned f ts H) as Ha. pose proof (floor_le f ts H) as Hle.
  assert (FloorStartMS ts f <= MaxTS) by (unfold in_domain in H; lia).
  split_and!; [|apply aligned_floor|apply aligned_floor|done|done]; try done.
  - clear - Hs. destruct f; simplify_eq/=; reflexivity.
  - by eapply source_aligned.
  - eapply source_aligned; [done|]. by apply aligned_next.
Qed.

Example rollup_source_nested_witness :
  RollupSourceTimeframe F3M = Some F1D ∧
  FloorStartMS (FloorStartMS 1779262261234 F1D) F3M = FloorStartMS 1779262261234 F3M.
Proof.
  split; [reflexivity|].
  apply (rollup_source_nested F3M F1D 1779262261234); [reflexivity| |].
  - unfold in_domain. vm_compute. by split.
  - vm_compute. done.
Defined.
