(* ===== verification/Retention.v ===== *)
(** * Retention rules (internal/retention/policy.go)

    How long candles of a timeframe are kept: the short ones by age, the long
    ones by number of completed buckets. *)

From S2P Require Export Timeframe.

Local Open Scope Z_scope.

Module Rule.
Record Rule : Set := mk { Timeframe : Frame; KeepDays : Z; KeepBars : Z; KeepForever : bool }.
End Rule.
Notation Rule := Rule.Rule.

Definition RuleFor (tf : Frame) : Rule :=
  match tf with
  | F1m => Rule.mk tf 7 0 false
  | F5m | F15m | F30m => Rule.mk tf 30 0 false
  | F1H | F2H | F4H | F6H | F12H => Rule.mk tf 180 0 false
  | _ => Rule.mk tf 0 300 false
  end.

Definition DefaultRules : list Rule := map RuleFor Order.

(** [None] is [(0, false)]: no age limit applies. *)
Definition CutoffMS (rule : Rule) (now : Z) : option Z :=
  if rule.(Rule.KeepForever) || (0 <? rule.(Rule.KeepBars)) || (rule.(Rule.KeepDays) <=? 0) then None
  else Some (UnixMilli (AddDate now 0 0 (- rule.(Rule.KeepDays)))).

(** The loop [for i := 1; i < keepBars; i++] runs [keepBars - 1] times. *)
Definition BarWindowStartMS (tf : Frame) (endMS keepBars : Z) : Z :=
  if keepBars <=? 0 then 0
  else
    let start := FloorStartMS endMS tf in
    let start := if endMS <? EndMS start tf then PreviousStartMS start tf else start in
    Nat.iter (Z.to_nat (keepBars - 1)) (fun start => PreviousStartMS start tf) start.

(** ** Walking the grid several buckets at a time *)

Lemma grid_shift f k n : grid f k - 93 * DayMS * Z.of_nat n <= grid f (k - Z.of_nat n) <= grid f k.
Proof.
  induction n as [|n IH]; [replace (k - Z.of_nat 0) with k by lia; lia|].
  pose proof (grid_step f (k - Z.of_nat (S n))) as H.
  replace (k - Z.of_nat (S n) + 1) with (k - Z.of_nat n) in H by lia.
  unfold MinuteMS, DayMS in *. lia.
Qed.

Lemma iter_prev f k n :
  - 2 ^ 60 <= grid f (k - Z.of_nat n) → grid f k <= 2 ^ 60 →
  Nat.iter n (fun start => PreviousStartMS start f) (grid f k) = grid f (k - Z.of_nat n).
Proof.
  intros Hlo Hhi. induction n as [|n IH]; simpl; [f_equal; lia|].
  assert (grid f (k - Z.of_nat (S n)) <= grid f (k - Z.of_nat n)) by (apply grid_le; lia).
  assert (grid f (k - Z.of_nat n) <= grid f k) by (apply grid_le; lia).
  rewrite IH by lia. rewrite prev_grid by (unfold steppable; lia). f_equal. lia.
Qed.

Lemma iter_next f k n :
  - 2 ^ 60 <= grid f k → grid f (k + Z.of_nat n) <= 2 ^ 60 →
  Nat.iter n (fun start => NextStartMS start f) (grid f k) = grid f (k + Z.of_nat n).
Proof.
  intros Hlo Hhi. induction n as [|n IH]; simpl; [f_equal; lia|].
  assert (grid f (k + Z.of_nat n) <= grid f (k + Z.of_nat (S n))) by (apply grid_le; lia).
  assert (grid f k <= grid f (k + Z.of_nat n)) by (apply grid_le; lia).
  rewrite IH by lia. rewrite next_grid by (unfold steppable; lia). f_equal. lia.
Qed.

(** ** Properties *)

(** [BarWindowStartMS] returns the start of a window of exactly [keepBars]
    completed buckets: after [keepBars] steps of [NextStartMS] from it comes the
    bucket in progress, which starts at most one millisecond after [endMS] and
    ends after it. *)
Theorem BarWindowStartMS_window f endMS keepBars :
  in_domain f endMS → 0 < keepBars <= 1000000 →
  let start := BarWindowStartMS f endMS keepBars in
  let current := Nat.iter (Z.to_nat keepBars) (fun s => NextStartMS s f) start in
  current - 1 <= endMS < EndMS current f.
Proof.
  intros H [Hn Hmax]. unfold BarWindowStartMS. destruct (keepBars <=? 0) eqn:E; zbool; [lia|].
  clear E. destruct (floor_spec f endMS H) as (k & Hk & Ef & Hb). rewrite Ef.
  pose proof (grid_nonneg f k Hk). pose proof (grid_step f k) as Hst.
  assert (grid f k <= MaxTS) by (unfold in_domain in H; lia).
  rewrite end_grid by (apply steppable_dom; unfold DayMS; lia).
  set (n := Z.to_nat (keepBars - 1)). replace (Z.to_nat keepBars) with (S n) by lia.
  pose proof (grid_shift f k (S n)). pose proof (grid_shift f k n).
  unfold MaxTS, DayMS, MinuteMS in *.
  destruct (endMS <? grid f (k + 1) - 1) eqn:E; zbool; cbv zeta.
  - rewrite prev_grid by (unfold steppable; lia).
    assert (Hs : k - 1 - Z.of_nat n = k - Z.of_nat (S n)) by lia.
    rewrite iter_prev by (rewrite ?Hs; try lia; pose proof (grid_le f (k - 1) k); lia).
    rewrite iter_next; replace (k - 1 - Z.of_nat n + Z.of_nat (S n)) with k by lia; try lia.
    + rewrite end_grid by (unfold steppable; lia). lia.
    + rewrite Hs. lia.
  - rewrite iter_prev by lia.
    pose proof (grid_step f (k + 1)). unfold MinuteMS, DayMS in *.
    rewrite iter_next; replace (k - Z.of_nat n + Z.of_nat (S n)) with (k + 1) by lia; try lia.
    rewrite end_grid by (unfold steppable; lia). lia.
Qed.

Example BarWindowStartMS_window_witness :
  in_domain F1M 1779262261234 ∧
  BarWindowStartMS F1M 1779262261234 3 = 1769904000000 ∧
  Nat.iter 3 (fun s => NextStartMS s F1M) (BarWindowStartMS F1M 1779262261234 3) - 1 <= 1779262261234.
Proof.
  assert (in_domain F1M 1779262261234) as H by (unfold in_domain; vm_compute; by split).
  split; [exact H|]. split; [reflexivity|].
  destruct (BarWindowStartMS_window F1M 1779262261234 3 H ltac:(lia)) as [Hw _]. exact Hw.
Defined.
