(* ===== verification/SymbolSnapshot.v ===== *)
(** * Symbol inventories (internal/market/symbol_snapshot.go,
    internal/storage/symbol_snapshots.go)

    A snapshot is the last successful official inventory of a market.  The file
    holds the fail-closed repair test ([RepairSkipReason]), the pure inventory
    transition ([ReconcileSymbolSnapshot]) and the in-memory repository of
    snapshots and refresh states ([SnapshotStore]).

    A repository operation takes the state and returns it with the result; the
    mutex makes each one step.  The range over the [prior] map is taken in the
    order of [map_to_list]; the sort that follows removes the difference. *)

From S2P Require Export Market.

Local Open Scope string_scope.
Local Open Scope Z_scope.
Local Open Scope list_scope.

Module SymbolSnapshot.
Record SymbolSnapshot : Set := mk {
  Exchange : string; Symbol : string; MarketType : string;
  Subscribed : bool;
  SubscriptionReason : string; OfficialStatus : string;
  OfficialActive : bool; Delisted : bool;
  Presence : string; ContractType : string; BaseCurrency : string; QuoteCurrency : string; SettleCurrency : string;
  ListedAtMS : Z; DelistAtMS : Z; ExpiryAtMS : Z; CapturedAtMS : Z; LastPresentAtMS : Z; FirstAbsentAtMS : Z; ConsecutiveAbsences : Z;
  OfficialRaw : string;
}.
Definition set_Subscribed (v : bool) (b : SymbolSnapshot) : SymbolSnapshot := let 'mk xExchange
  xSymbol xMarketType _ xSubscriptionReason xOfficialStatus xOfficialActive xDelisted xPresence
  xContractType xBaseCurrency xQuoteCurrency xSettleCurrency xListedAtMS xDelistAtMS xExpiryAtMS
  xCapturedAtMS xLastPresentAtMS xFirstAbsentAtMS xConsecutiveAbsences xOfficialRaw := b in mk
  xExchange xSymbol xMarketType v xSubscriptionReason xOfficialStatus xOfficialActive xDelisted
  xPresence xContractType xBaseCurrency xQuoteCurrency xSettleCurrency xListedAtMS xDelistAtMS
  xExpiryAtMS xCapturedAtMS xLastPresentAtMS xFirstAbsentAtMS xConsecutiveAbsences xOfficialRaw.
Definition set_SubscriptionReason (v : string) (b : SymbolSnapshot) : SymbolSnapshot := let 'mk
  xExchange xSymbol xMarketType xSubscribed _ xOfficialStatus xOfficialActive xDelisted
  xPresence xContractType xBaseCurrency xQuoteCurrency xSettleCurrency xListedAtMS xDelistAtMS
  xExpiryAtMS xCapturedAtMS xLastPresentAtMS xFirstAbsentAtMS xConsecutiveAbsences xOfficialRaw
  := b in mk xExchange xSymbol xMarketType xSubscribed v xOfficialStatus xOfficialActive
  xDelisted xPresence xContractType xBaseCurrency xQuoteCurrency xSettleCurrency xListedAtMS
  xDelistAtMS xExpiryAtMS xCapturedAtMS xLastPresentAtMS xFirstAbsentAtMS xConsecutiveAbsences
  xOfficialRaw.
Definition set_Delisted (v : bool) (b : SymbolSnapshot) : SymbolSnapshot := let 'mk xExchange
  xSymbol xMarketType xSubscribed xSubscriptionReason xOfficialStatus xOfficialActive _
  xPresence xContractType xBaseCurrency xQuoteCurrency xSettleCurrency xListedAtMS xDelistAtMS
  xExpiryAtMS xCapturedAtMS xLastPresentAtMS xFirstAbsentAtMS xConsecutiveAbsences xOfficialRaw
  := b in mk xExchange xSymbol xMarketType xSubscribed xSubscriptionReason xOfficialStatus
  xOfficialActive v xPresence xContractType xBaseCurrency xQuoteCurrency xSettleCurrency
  xListedAtMS xDelistAtMS xExpiryAtMS xCapturedAtMS xLastPresentAtMS xFirstAbsentAtMS
  xConsecutiveAbsences xOfficialRaw.
Definition set_Presence (v : string) (b : SymbolSnapshot) : SymbolSnapshot := let 'mk xExchange
  xSymbol xMarketType xSubscribed xSubscriptionReason xOfficialStatus xOfficialActive xDelisted
  _ xContractType xBaseCurrency xQuoteCurrency xSettleCurrency xListedAtMS xDelistAtMS
  xExpiryAtMS xCapturedAtMS xLastPresentAtMS xFirstAbsentAtMS xConsecutiveAbsences xOfficialRaw
  := b in mk xExchange xSymbol xMarketType xSubscribed xSubscriptionReason xOfficialStatus
  xOfficialActive xDelisted v xContractType xBaseCurrency xQuoteCurrency xSettleCurrency
  xListedAtMS xDelistAtMS xExpiryAtMS xCapturedAtMS xLastPresentAtMS xFirstAbsentAtMS
  xConsecutiveAbsences xOfficialRaw.
Definition set_ListedAtMS (v : Z) (b : SymbolSnapshot) : SymbolSnapshot := let 'mk xExchange
  xSymbol xMarketType xSubscribed xSubscriptionReason xOfficialStatus xOfficialActive xDelisted
  xPresence xContractType xBaseCurrency xQuoteCurrency xSettleCurrency _ xDelistAtMS xExpiryAtMS
  xCapturedAtMS xLastPresentAtMS xFirstAbsentAtMS xConsecutiveAbsences xOfficialRaw := b in mk
  xExchange xSymbol xMarketType xSubscribed xSubscriptionReason xOfficialStatus xOfficialActive
  xDelisted xPresence xContractType xBaseCurrency xQuoteCurrency xSettleCurrency v xDelistAtMS
  xExpiryAtMS xCapturedAtMS xLastPresentAtMS xFirstAbsentAtMS xConsecutiveAbsences xOfficialRaw.
Definition set_DelistAtMS (v : Z) (b : SymbolSnapshot) : SymbolSnapshot := let 'mk xExchange
  xSymbol xMarketType xSubscribed xSubscriptionReason xOfficialStatus xOfficialActive xDelisted
  xPresence xContractType xBaseCurrency xQuoteCurrency xSettleCurrency xListedAtMS _ xExpiryAtMS
  xCapturedAtMS xLastPresentAtMS xFirstAbsentAtMS xConsecutiveAbsences xOfficialRaw := b in mk
  xExchange xSymbol xMarketType xSubscribed xSubscriptionReason xOfficialStatus xOfficialActive
  xDelisted xPresence xContractType xBaseCurrency xQuoteCurrency xSettleCurrency xListedAtMS v
  xExpiryAtMS xCapturedAtMS xLastPresentAtMS xFirstAbsentAtMS xConsecutiveAbsences xOfficialRaw.
Definition set_CapturedAtMS (v : Z) (b : SymbolSnapshot) : SymbolSnapshot := let 'mk xExchange
  xSymbol xMarketType xSubscribed xSubscriptionReason xOfficialStatus xOfficialActive xDelisted
  xPresence xContractType xBaseCurrency xQuoteCurrency xSettleCurrency xListedAtMS xDelistAtMS
  xExpiryAtMS _ xLastPresentAtMS xFirstAbsentAtMS xConsecutiveAbsences xOfficialRaw := b in mk
  xExchange xSymbol xMarketType xSubscribed xSubscriptionReason xOfficialStatus xOfficialActive
  xDelisted xPresence xContractType xBaseCurrency xQuoteCurrency xSettleCurrency xListedAtMS
  xDelistAtMS xExpiryAtMS v xLastPresentAtMS xFirstAbsentAtMS xConsecutiveAbsences xOfficialRaw.
Definition set_FirstAbsentAtMS (v : Z) (b : SymbolSnapshot) : SymbolSnapshot := let 'mk
  xExchange xSymbol xMarketType xSubscribed xSubscriptionReason xOfficialStatus xOfficialActive
  xDelisted xPresence xContractType xBaseCurrency xQuoteCurrency xSettleCurrency xListedAtMS
  xDelistAtMS xExpiryAtMS xCapturedAtMS xLastPresentAtMS _ xConsecutiveAbsences xOfficialRaw :=
  b in mk xExchange xSymbol xMarketType xSubscribed xSubscriptionReason xOfficialStatus
  xOfficialActive xDelisted xPresence xContractType xBaseCurrency xQuoteCurrency xSettleCurrency
  xListedAtMS xDelistAtMS xExpiryAtMS xCapturedAtMS xLastPresentAtMS v xConsecutiveAbsences
  xOfficialRaw.
Definition set_ConsecutiveAbsences (v : Z) (b : SymbolSnapshot) : SymbolSnapshot := let 'mk
  xExchange xSymbol xMarketType xSubscribed xSubscriptionReason xOfficialStatus xOfficialActive
  xDelisted xPresence xContractType xBaseCurrency xQuoteCurrency xSettleCurrency xListedAtMS
  xDelistAtMS xExpiryAtMS xCapturedAtMS xLastPresentAtMS xFirstAbsentAtMS _ xOfficialRaw := b in
  mk xExchange xSymbol xMarketType xSubscribed xSubscriptionReason xOfficialStatus
  xOfficialActive xDelisted xPresence xContractType xBaseCurrency xQuoteCurrency xSettleCurrency
  xListedAtMS xDelistAtMS xExpiryAtMS xCapturedAtMS xLastPresentAtMS xFirstAbsentAtMS v
  xOfficialRaw.
Definition zero : SymbolSnapshot := mk "" "" "" false "" "" false false "" "" "" "" "" 0 0 0 0 0
  0 0 "".
End SymbolSnapshot.
Notation SymbolSnapshot := SymbolSnapshot.SymbolSnapshot.
#[export] Instance SymbolSnapshot_eq_dec : EqDecision SymbolSnapshot.
Proof. solve_decision. Defined.

Module SymbolSnapshotSync.
Record SymbolSnapshotSync : Set := mk {
  Exchange : string; MarketType : string; Status : string;
  LastAttemptMS : Z; LastSuccessMS : Z; SymbolCount : Z;
  LastError : string;
}.
Definition set_Status (v : string) (b : SymbolSnapshotSync) : SymbolSnapshotSync := let 'mk
  xExchange xMarketType _ xLastAttemptMS xLastSuccessMS xSymbolCount xLastError := b in mk
  xExchange xMarketType v xLastAttemptMS xLastSuccessMS xSymbolCount xLastError.
Definition set_LastSuccessMS (v : Z) (b : SymbolSnapshotSync) : SymbolSnapshotSync := let 'mk
  xExchange xMarketType xStatus xLastAttemptMS _ xSymbolCount xLastError := b in mk xExchange
  xMarketType xStatus xLastAttemptMS v xSymbolCount xLastError.
Definition set_SymbolCount (v : Z) (b : SymbolSnapshotSync) : SymbolSnapshotSync := let 'mk
  xExchange xMarketType xStatus xLastAttemptMS xLastSuccessMS _ xLastError := b in mk xExchange
  xMarketType xStatus xLastAttemptMS xLastSuccessMS v xLastError.
Definition zero : SymbolSnapshotSync := mk "" "" "" 0 0 0 "".
End SymbolSnapshotSync.
Notation SymbolSnapshotSync := SymbolSnapshotSync.SymbolSnapshotSync.
#[export] Instance SymbolSnapshotSync_eq_dec : EqDecision SymbolSnapshotSync.
Proof. solve_decision. Defined.

Module SymbolSnapshotBatch.
Record SymbolSnapshotBatch : Set := mk {
  Exchange : string; MarketType : string;
  CapturedAtMS : Z;
  Symbols : list SymbolSnapshot;
}.
Definition zero : SymbolSnapshotBatch := mk "" "" 0 [].
End SymbolSnapshotBatch.
Notation SymbolSnapshotBatch := SymbolSnapshotBatch.SymbolSnapshotBatch.
#[export] Instance SymbolSnapshotBatch_eq_dec : EqDecision SymbolSnapshotBatch.
Proof. solve_decision. Defined.

(** ** The repair test *)

(** [now] in milliseconds, [maxAge] a [time.Duration] in nanoseconds. *)
Definition RepairSkipReason (item : SymbolSnapshot) (now maxAge : Z) : string :=
  let nowMS := now in
  let maxAgeMS := Z.quot maxAge 1000000 in
  if bool_decide (item.(SymbolSnapshot.Exchange) = "") || bool_decide (item.(SymbolSnapshot.Symbol) = "")
     || (item.(SymbolSnapshot.CapturedAtMS) <=? 0) then "snapshot_missing"
  else if negb (bool_decide (item.(SymbolSnapshot.Presence) = "present")) then "official_absent"
  else if item.(SymbolSnapshot.Delisted) then "official_delisted"
  else if negb item.(SymbolSnapshot.Subscribed) then
    let reason := TrimSpace item.(SymbolSnapshot.SubscriptionReason) in
    if negb (bool_decide (reason = "")) then reason else "not_subscribed"
  else if negb item.(SymbolSnapshot.OfficialActive) then "official_inactive"
  else if nowMS <? item.(SymbolSnapshot.ListedAtMS) then "official_not_listed"
  else if (maxAgeMS <=? 0) || (nowMS <? item.(SymbolSnapshot.CapturedAtMS))
          || (maxAgeMS <? i64 (nowMS - item.(SymbolSnapshot.CapturedAtMS))) then "snapshot_stale"
  else "".

(** [time.Duration(maxAgeMS)*time.Millisecond] wraps. *)
Definition SymbolSnapshotRepairSkipReason (item : SymbolSnapshot) (sync : SymbolSnapshotSync)
    (nowMS maxAgeMS : Z) : string :=
  let reason := RepairSkipReason item nowMS (i64 (maxAgeMS * 1000000)) in
  if negb (bool_decide (reason = "")) then reason
  else if negb (EqualFold sync.(SymbolSnapshotSync.Exchange) item.(SymbolSnapshot.Exchange))
          || negb (EqualFold sync.(SymbolSnapshotSync.MarketType) item.(SymbolSnapshot.MarketType))
          || negb (bool_decide (sync.(SymbolSnapshotSync.Status) = "ok"))
          || negb (sync.(SymbolSnapshotSync.LastSuccessMS) =? item.(SymbolSnapshot.CapturedAtMS))
  then "snapshot_unavailable"
  else "".

(** ** The inventory transition *)

Definition in_market (exchange marketType : string) (item : SymbolSnapshot) : bool :=
  EqualFold item.(SymbolSnapshot.Exchange) exchange
  && EqualFold item.(SymbolSnapshot.MarketType) marketType.

(** The loop over [previous]: the map [prior] and the count [previousPresent]. *)
Fixpoint index_previous (exchange marketType : string) (previous : list SymbolSnapshot)
    (prior : gmap string SymbolSnapshot) (previousPresent : Z) : gmap string SymbolSnapshot * Z :=
  match previous with
  | [] => (prior, previousPresent)
  | item :: rest =>
      if in_market exchange marketType item then
        index_previous exchange marketType rest
          (<[ToUpper item.(SymbolSnapshot.Symbol) := item]> prior)
          (if bool_decide (item.(SymbolSnapshot.Presence) = "present")
           then previousPresent + 1 else previousPresent)
      else index_previous exchange marketType rest prior previousPresent
  end.

Definition delisted_status (status : string) : bool :=
  bool_decide (ToLower (TrimSpace status) ∈ ["delisted"; "expired"; "delivered"; "close"; "closed"]).

Definition subscription_reason (enabled : bool) (info : SymbolInfo) : string :=
  if negb enabled then "market_disabled"
  else if negb info.(SymbolInfo.OfficialActive) then "official_inactive"
  else if negb info.(SymbolInfo.IsActive) then "contract_filtered"
  else "enabled".

(** The body of the loop over [official], for the symbol of [info]. *)
Definition present_item (exchange marketType : string) (enabled : bool) (capturedAtMS : Z)
    (prior : gmap string SymbolSnapshot) (symbol : string) (info : SymbolInfo) : SymbolSnapshot :=
  let old := default SymbolSnapshot.zero (prior !! symbol) in
  {| SymbolSnapshot.Exchange := exchange; SymbolSnapshot.Symbol := symbol;
     SymbolSnapshot.MarketType := marketType;
     SymbolSnapshot.Subscribed := enabled && info.(SymbolInfo.IsActive);
     SymbolSnapshot.SubscriptionReason := subscription_reason enabled info;
     SymbolSnapshot.OfficialStatus := info.(SymbolInfo.Status);
     SymbolSnapshot.OfficialActive := info.(SymbolInfo.OfficialActive);
     SymbolSnapshot.Delisted := delisted_status info.(SymbolInfo.Status);
     SymbolSnapshot.Presence := "present";
     SymbolSnapshot.ContractType := info.(SymbolInfo.ContractType);
     SymbolSnapshot.BaseCurrency := info.(SymbolInfo.BaseCurrency);
     SymbolSnapshot.QuoteCurrency := info.(SymbolInfo.QuoteCurrency);
     SymbolSnapshot.SettleCurrency := info.(SymbolInfo.SettleCurrency);
     SymbolSnapshot.ListedAtMS :=
       if info.(SymbolInfo.ListedAtMS) =? 0 then old.(SymbolSnapshot.ListedAtMS)
       else info.(SymbolInfo.ListedAtMS);
     SymbolSnapshot.DelistAtMS :=
       if info.(SymbolInfo.DelistAtMS) =? 0 then old.(SymbolSnapshot.DelistAtMS)
       else info.(SymbolInfo.DelistAtMS);
     SymbolSnapshot.ExpiryAtMS := info.(SymbolInfo.ExpiryAtMS);
     SymbolSnapshot.CapturedAtMS := capturedAtMS;
     SymbolSnapshot.LastPresentAtMS := capturedAtMS;
     SymbolSnapshot.FirstAbsentAtMS := 0;
     SymbolSnapshot.ConsecutiveAbsences := 0;
     SymbolSnapshot.OfficialRaw := info.(SymbolInfo.OfficialRaw) |}.

Definition invalid_official (exchange marketType symbol : string) (seen : gset string)
    (info : SymbolInfo) : bool :=
  negb (EqualFold info.(SymbolInfo.Exchange) exchange)
  || negb (EqualFold info.(SymbolInfo.MarketType) marketType)
  || bool_decide (symbol = "") || bool_decide (TrimSpace info.(SymbolInfo.Status) = "")
  || bool_decide (symbol ∈ seen).

(** The loop over [official]: the set [seen] and the snapshots appended. *)
Fixpoint reconcile_official (exchange marketType : string) (enabled : bool) (capturedAtMS : Z)
    (prior : gmap string SymbolSnapshot) (official : list SymbolInfo) (seen : gset string)
    (symbols : list SymbolSnapshot) : result go_error (gset string * list SymbolSnapshot) :=
  match official with
  | [] => Ok (seen, symbols)
  | info :: rest =>
      let symbol := ToUpper (TrimSpace info.(SymbolInfo.Symbol)) in
      if invalid_official exchange marketType symbol seen info
      then Err (Errorf "invalid or duplicate official symbol in %s/%s")
      else reconcile_official exchange marketType enabled capturedAtMS prior rest ({[symbol]} ∪ seen)
             (symbols ++ [present_item exchange marketType enabled capturedAtMS prior symbol info])
  end.

(** The body of the loop over [prior], for a symbol that was not seen. *)
Definition absent_item (capturedAtMS : Z) (item : SymbolSnapshot) : SymbolSnapshot :=
  let item := SymbolSnapshot.set_Presence "absent" item in
  let item := SymbolSnapshot.set_Subscribed false item in
  let item := SymbolSnapshot.set_SubscriptionReason "official_absent" item in
  let item := SymbolSnapshot.set_CapturedAtMS capturedAtMS item in
  let item := SymbolSnapshot.set_ConsecutiveAbsences
                (i64 (item.(SymbolSnapshot.ConsecutiveAbsences) + 1)) item in
  if item.(SymbolSnapshot.FirstAbsentAtMS) =? 0
  then SymbolSnapshot.set_FirstAbsentAtMS capturedAtMS item else item.

Definition absent_items (capturedAtMS : Z) (seen : gset string)
    (prior : gmap string SymbolSnapshot) : list SymbolSnapshot :=
  absent_item capturedAtMS <$>
    (snd <$> List.filter (fun '(symbol, _) => negb (bool_decide (symbol ∈ seen))) (map_to_list prior)).

Definition ReconcileSymbolSnapshot (exchange marketType : string) (enabled : bool)
    (capturedAtMS : Z) (official : list SymbolInfo) (previous : list SymbolSnapshot)
    : result go_error SymbolSnapshotBatch :=
  let exchange := ToLower (TrimSpace exchange) in
  let marketType := TrimSpace marketType in
  if bool_decide (exchange = "") || bool_decide (marketType = "") || (capturedAtMS <=? 0)
     || (Z.of_nat (length official) =? 0)
  then Err (Errorf "invalid or empty official symbol snapshot")
  else
    let '(prior, previousPresent) := index_previous exchange marketType previous ∅ 0 in
    if (20 <=? previousPresent) && (Z.of_nat (length official) * 2 <? previousPresent)
    then Err (Errorf "official inventory shrank unexpectedly: previous_present=%d received=%d")
    else
      match reconcile_official exchange marketType enabled capturedAtMS prior official ∅ [] with
      | Err e => Err e
      | Ok (seen, symbols) =>
          Ok (SymbolSnapshotBatch.mk exchange marketType capturedAtMS
                (sort_slice (less_str SymbolSnapshot.Symbol)
                   (symbols ++ absent_items capturedAtMS seen prior)))
      end.

(** ** The in-memory repository *)

Module SnapshotStore.
Record SnapshotStore : Type := mk {
  symbolSnapshots : gmap string SymbolSnapshot;
  symbolSnapshotSyncs : gmap string SymbolSnapshotSync;
}.
Definition empty : SnapshotStore := mk ∅ ∅.
End SnapshotStore.
Notation SnapshotStore := SnapshotStore.SnapshotStore.

Definition snapshot_key (item : SymbolSnapshot) : string :=
  (ToLower item.(SymbolSnapshot.Exchange) ++ ":" ++ ToUpper item.(SymbolSnapshot.Symbol))%string.
Definition sync_key (exchange marketType : string) : string :=
  ToLower (exchange ++ ":" ++ marketType)%string.

Definition sync_at (st : SnapshotStore) (key : string) : SymbolSnapshotSync :=
  default SymbolSnapshotSync.zero (st.(SnapshotStore.symbolSnapshotSyncs) !! key).

Definition in_batch (batch : SymbolSnapshotBatch) (item : SymbolSnapshot) : bool :=
  bool_decide (item.(SymbolSnapshot.Exchange) = batch.(SymbolSnapshotBatch.Exchange))
  && bool_decide (item.(SymbolSnapshot.MarketType) = batch.(SymbolSnapshotBatch.MarketType))
  && (item.(SymbolSnapshot.CapturedAtMS) =? batch.(SymbolSnapshotBatch.CapturedAtMS))
  && negb (bool_decide (item.(SymbolSnapshot.Symbol) = "")).

Definition SaveSymbolSnapshot (ctx : context) (batch : SymbolSnapshotBatch) (st : SnapshotStore)
    : result go_error unit * SnapshotStore :=
  match ctx with
  | Some err => (Err err, st)
  | None =>
      let exchange := batch.(SymbolSnapshotBatch.Exchange) in
      let marketType := batch.(SymbolSnapshotBatch.MarketType) in
      let captured := batch.(SymbolSnapshotBatch.CapturedAtMS) in
      let symbols := batch.(SymbolSnapshotBatch.Symbols) in
      if bool_decide (exchange = "") || bool_decide (marketType = "") || (captured <=? 0)
         || (Z.of_nat (length symbols) =? 0)
      then (Err (Errorf "invalid symbol snapshot batch"), st)
      else if negb (forallb (in_batch batch) symbols)
      then (Err (Errorf "symbol snapshot outside batch scope"), st)
      else
        let key := sync_key exchange marketType in
        if captured <? (sync_at st key).(SymbolSnapshotSync.LastAttemptMS)
        then (Err (Errorf "older symbol snapshot rejected"), st)
        else
          (Ok tt, SnapshotStore.mk
             (foldl (fun m item => <[snapshot_key item := item]> m)
                st.(SnapshotStore.symbolSnapshots) symbols)
             (<[key := SymbolSnapshotSync.mk exchange marketType "ok" captured captured
                         (Z.of_nat (length symbols)) ""]> st.(SnapshotStore.symbolSnapshotSyncs)))
  end.

Definition RecordSymbolSnapshotFailure (ctx : context) (state : SymbolSnapshotSync)
    (st : SnapshotStore) : result go_error unit * SnapshotStore :=
  match ctx with
  | Some err => (Err err, st)
  | None =>
      let key := sync_key state.(SymbolSnapshotSync.Exchange) state.(SymbolSnapshotSync.MarketType) in
      let previous := sync_at st key in
      if state.(SymbolSnapshotSync.LastAttemptMS) <? previous.(SymbolSnapshotSync.LastAttemptMS)
      then (Ok tt, st)
      else
        let state := SymbolSnapshotSync.set_Status "unavailable" state in
        let state := SymbolSnapshotSync.set_LastSuccessMS previous.(SymbolSnapshotSync.LastSuccessMS) state in
        let state := SymbolSnapshotSync.set_SymbolCount previous.(SymbolSnapshotSync.SymbolCount) state in
        (Ok tt, SnapshotStore.mk st.(SnapshotStore.symbolSnapshots)
                  (<[key := state]> st.(SnapshotStore.symbolSnapshotSyncs)))
  end.

Definition ListSymbolSnapshots (ctx : context) (exchange : string) (st : SnapshotStore)
    : result go_error (list SymbolSnapshot) :=
  match ctx with
  | Some err => Err err
  | None =>
      Ok (sort_slice (less_str (fun i => i.(SymbolSnapshot.Exchange) ++ ":" ++ i.(SymbolSnapshot.Symbol))%string)
            (List.filter (fun item => bool_decide (exchange = "")
                                      || EqualFold item.(SymbolSnapshot.Exchange) exchange)
               (snd <$> map_to_list st.(SnapshotStore.symbolSnapshots))))
  end.

Definition ListSymbolSnapshotSyncs (ctx : context) (st : SnapshotStore)
    : result go_error (list SymbolSnapshotSync) :=
  match ctx with
  | Some err => Err err
  | None =>
      Ok (sort_slice (less_str (fun i => i.(SymbolSnapshotSync.Exchange) ++ ":" ++ i.(SymbolSnapshotSync.MarketType))%string)
            (snd <$> map_to_list st.(SnapshotStore.symbolSnapshotSyncs)))
  end.
(** ** Facts about the transition *)

Definition official_symbol (info : SymbolInfo) : string :=
  ToUpper (TrimSpace info.(SymbolInfo.Symbol)).

Definition item_name (item : SymbolSnapshot) : string := ToUpper item.(SymbolSnapshot.Symbol).

Lemma index_previous_spec exchange marketType previous prior n k item :
  fst (index_previous exchange marketType previous prior n) !! k = Some item →
  prior !! k = Some item ∨
  (item ∈ previous ∧ in_market exchange marketType item = true ∧ item_name item = k).
Proof.
  revert prior n. induction previous as [|p rest IH]; intros prior n; simpl; [by left|].
  destruct (in_market exchange marketType p) eqn:E.
  - intros [H|(H1 & H2 & H3)]%IH; [|right; split_and!; [by constructor|done..]].
    apply lookup_insert_Some in H as [[<- <-]|[_ H]]; [|by left].
    right. split_and!; [by constructor|done..].
  - intros [H|(H1 & H2 & H3)]%IH; [by left|]. right. split_and!; [by constructor|done..].
Qed.

Lemma index_previous_mono exchange marketType previous prior n k :
  is_Some (prior !! k) → is_Some (fst (index_previous exchange marketType previous prior n) !! k).
Proof.
  revert prior n. induction previous as [|p rest IH]; intros prior n H; simpl; [done|].
  case_bool; apply IH; [|done]. apply lookup_insert_is_Some. destruct (decide (ToUpper p.(SymbolSnapshot.Symbol) = k)); auto.
Qed.

Lemma index_previous_covers exchange marketType previous prior n item :
  item ∈ previous → in_market exchange marketType item = true →
  is_Some (fst (index_previous exchange marketType previous prior n) !! item_name item).
Proof.
  intros Hin Hm. revert prior n. induction previous as [|p rest IH]; intros prior n; [by apply elem_of_nil in Hin|].
  simpl. apply elem_of_cons in Hin as [->|Hin]; [|case_bool; by apply IH].
  rewrite Hm. apply index_previous_mono. unfold item_name. rewrite lookup_insert_eq. done.
Qed.

(** The loop over [official] accepts distinct valid symbols and appends one
    present snapshot for each. *)
Lemma reconcile_official_spec exchange marketType enabled captured prior official seen symbols seen' symbols' :
  reconcile_official exchange marketType enabled captured prior official seen symbols = Ok (seen', symbols') →
  symbols' = symbols ++
    ((fun info => present_item exchange marketType enabled captured prior (official_symbol info) info) <$> official) ∧
  (∀ k, k ∈ seen' ↔ k ∈ seen ∨ k ∈ official_symbol <$> official) ∧
  NoDup (official_symbol <$> official) ∧
  (∀ k, k ∈ seen → k ∉ official_symbol <$> official) ∧
  (∀ k, k ∈ official_symbol <$> official → k ≠ "").
Proof.
  revert seen symbols. induction official as [|info rest IH]; intros seen symbols; simpl.
  { intros [= <- <-]. rewrite app_nil_r. split_and!; try done; try constructor; set_solver. }
  fold (official_symbol info).
  destruct (invalid_official _ _ _ _ _) eqn:Ei; [done|].
  unfold invalid_official in Ei. zbool.
  repeat match goal with H : bool_decide _ = false |- _ => apply bool_decide_eq_false in H end.
  intros (-> & Hs2 & Hs3 & Hs4 & Hs5)%IH.
  split_and!.
  - rewrite <- app_assoc. done.
  - intros k. rewrite Hs2. set_solver.
  - constructor; [|done]. apply Hs4. set_solver.
  - set_solver.
  - set_solver.
Qed.

Lemma present_item_name ex mt en cap prior info :
  item_name (present_item ex mt en cap prior (official_symbol info) info) = official_symbol info.
Proof. unfold item_name, official_symbol. simpl. by rewrite ToUpper_idem. Qed.

Lemma absent_item_fields cap item :
  let item' := absent_item cap item in
  item'.(SymbolSnapshot.Exchange) = item.(SymbolSnapshot.Exchange) ∧
  item'.(SymbolSnapshot.MarketType) = item.(SymbolSnapshot.MarketType) ∧
  item'.(SymbolSnapshot.Symbol) = item.(SymbolSnapshot.Symbol) ∧
  item'.(SymbolSnapshot.Delisted) = item.(SymbolSnapshot.Delisted) ∧
  item'.(SymbolSnapshot.OfficialStatus) = item.(SymbolSnapshot.OfficialStatus) ∧
  item'.(SymbolSnapshot.ListedAtMS) = item.(SymbolSnapshot.ListedAtMS) ∧
  item'.(SymbolSnapshot.DelistAtMS) = item.(SymbolSnapshot.DelistAtMS) ∧
  item'.(SymbolSnapshot.Presence) = "absent" ∧
  item'.(SymbolSnapshot.Subscribed) = false ∧
  item'.(SymbolSnapshot.CapturedAtMS) = cap.
Proof. unfold absent_item. destruct item. simpl. case_bool; split_and!; reflexivity. Qed.

Lemma elem_of_absent_items cap seen prior item' :
  item' ∈ absent_items cap seen prior ↔
  ∃ k item, prior !! k = Some item ∧ k ∉ seen ∧ item' = absent_item cap item.
Proof.
  unfold absent_items. rewrite list_elem_of_fmap. split.
  - intros (item & -> & Hin). apply list_elem_of_fmap in Hin as ([k i] & -> & Hin).
    apply list_elem_of_In, List.filter_In in Hin as [Hin Hs]. zbool.
    apply bool_decide_eq_false in Hs. apply list_elem_of_In, elem_of_map_to_list in Hin.
    simpl. eauto.
  - intros (k & item & Hp & Hs & ->). exists item. split; [done|].
    apply list_elem_of_fmap. exists (k, item). split; [done|].
    apply list_elem_of_In, List.filter_In. split; [|by rewrite bool_decide_eq_false_2].
    by apply list_elem_of_In, elem_of_map_to_list.
Qed.

(** Absent names are the prior names that were not seen, each once. *)
Lemma absent_items_names cap seen (prior : gmap string SymbolSnapshot) :
  (∀ k item, prior !! k = Some item → item_name item = k) →
  NoDup (item_name <$> absent_items cap seen prior) ∧
  (∀ k, k ∈ item_name <$> absent_items cap seen prior → k ∉ seen).
Proof.
  intros Hk. split.
  - unfold absent_items.
    assert (Hnames : ∀ l : list (string * SymbolSnapshot),
      (∀ p, p ∈ l → item_name p.2 = p.1) →
      item_name <$> (absent_item cap <$> (snd <$> l)) = fst <$> l).
    { intros l Hl. induction l as [|[k i] l IH]; [done|]. simpl. f_equal.
      - unfold item_name at 1. destruct (absent_item_fields cap i) as (_ & _ & -> & _).
        apply (Hl (k, i)). constructor.
      - apply IH. intros p Hp. apply Hl. by constructor. }
    rewrite Hnames.
    + pose proof (NoDup_fst_map_to_list prior) as Hnd. revert Hnd. generalize (map_to_list prior) as l.
      intros l. induction l as [|[k i] l IH]; simpl; [done|]. intros [Hni Hnd]%NoDup_cons.
      case_bool; simpl; [constructor; [|by apply IH]|by apply IH].
      intros Hin. apply Hni. apply list_elem_of_fmap in Hin as (p & -> & Hp).
      apply list_elem_of_fmap. exists p. split; [done|].
      apply list_elem_of_In, List.filter_In in Hp as [Hp _]. by apply list_elem_of_In.
    + intros [k i] Hp. apply list_elem_of_In, List.filter_In in Hp as [Hp _].
      apply list_elem_of_In, elem_of_map_to_list in Hp. by apply Hk.
  - intros k Hin. apply list_elem_of_fmap in Hin as (item' & -> & Hin).
    apply elem_of_absent_items in Hin as (k & item & Hp & Hs & ->).
    unfold item_name. destruct (absent_item_fields cap item) as (_ & _ & -> & _).
    fold (item_name item). by rewrite (Hk k item Hp).
Qed.

(** What a successful transition returns, before sorting. *)
Lemma Reconcile_Ok exchange marketType enabled cap official previous batch :
  ReconcileSymbolSnapshot exchange marketType enabled cap official previous = Ok batch →
  let ex := ToLower (TrimSpace exchange) in
  let mt := TrimSpace marketType in
  let prior := fst (index_previous ex mt previous ∅ 0) in
  let pres := (fun info => present_item ex mt enabled cap prior (official_symbol info) info) <$> official in
  ∃ seen,
    (∀ k, k ∈ seen ↔ k ∈ official_symbol <$> official) ∧
    NoDup (official_symbol <$> official) ∧
    (∀ k, k ∈ official_symbol <$> official → k ≠ "") ∧
    official ≠ [] ∧ ex ≠ "" ∧ mt ≠ "" ∧ 0 < cap ∧
    batch = SymbolSnapshotBatch.mk ex mt cap
              (sort_slice (less_str SymbolSnapshot.Symbol) (pres ++ absent_items cap seen prior)).
Proof.
  unfold ReconcileSymbolSnapshot. intros H.
  set (ex := ToLower (TrimSpace exchange)) in *. set (mt := TrimSpace marketType) in *.
  destruct (bool_decide (ex = "") || _ || _ || _) eqn:E0; [done|]. zbool.
  repeat match goal with H : bool_decide _ = false |- _ => apply bool_decide_eq_false in H end.
  destruct (index_previous ex mt previous ∅ 0) as [prior n] eqn:Ep.
  destruct (_ && _); [done|].
  destruct (reconcile_official _ _ _ _ _ _ _ _) as [[seen symbols]|] eqn:Er; [|done].
  apply reconcile_official_spec in Er as (-> & Hs2 & Hs3 & _ & Hs5).
  injection H as <-. exists seen. split_and!; try done.
  - intros k. rewrite Hs2. set_solver.
  - intros ->. simpl in *. lia.
Qed.

Lemma prior_key ex mt previous k item :
  fst (index_previous ex mt previous ∅ 0) !! k = Some item →
  item ∈ previous ∧ in_market ex mt item = true ∧ item_name item = k.
Proof. intros [H|H]%index_previous_spec; [by rewrite lookup_empty in H|done]. Qed.

(** Names are unique in a batch. *)
Lemma Reconcile_names exchange marketType enabled cap official previous batch :
  ReconcileSymbolSnapshot exchange marketType enabled cap official previous = Ok batch →
  NoDup (item_name <$> batch.(SymbolSnapshotBatch.Symbols)).
Proof.
  intros H. apply Reconcile_Ok in H as (seen & Hseen & Hnd & _ & _ & _ & _ & _ & ->). simpl.
  rewrite sort_slice_perm, fmap_app, <- list_fmap_compose.
  set (prior := fst _).
  destruct (absent_items_names cap seen prior) as [Ha1 Ha2].
  { intros k item Hk. by apply prior_key in Hk as (_ & _ & ?). }
  assert (∀ l : list SymbolInfo, (item_name ∘ (fun info => present_item (ToLower (TrimSpace exchange))
            (TrimSpace marketType) enabled cap prior (official_symbol info) info)) <$> l
          = official_symbol <$> l) as Hn.
  { intros l. apply list_fmap_ext. intros i info _. apply present_item_name. }
  rewrite Hn. apply NoDup_app. split_and!; [done| |done].
  intros k Hk Hk'. by apply (Ha2 k Hk'), Hseen.
Qed.

(** *** The refresh states *)

(** A refresh state never claims a success after its last attempt, and "ok"
    means the last attempt succeeded. *)
Definition sync_wf (s : SymbolSnapshotSync) : Prop :=
  s.(SymbolSnapshotSync.LastSuccessMS) <= s.(SymbolSnapshotSync.LastAttemptMS) ∧
  (s.(SymbolSnapshotSync.Status) = "ok" →
   s.(SymbolSnapshotSync.LastSuccessMS) = s.(SymbolSnapshotSync.LastAttemptMS)).

Definition store_wf (st : SnapshotStore) : Prop :=
  map_Forall (fun _ => sync_wf) st.(SnapshotStore.symbolSnapshotSyncs).

(** The writes of the repository. *)
Inductive snapshot_op : Set :=
| OpSave (batch : SymbolSnapshotBatch)
| OpFailure (state : SymbolSnapshotSync).

Definition apply_snapshot_op (op : snapshot_op) (st : SnapshotStore) : SnapshotStore :=
  match op with
  | OpSave batch => snd (SaveSymbolSnapshot None batch st)
  | OpFailure state => snd (RecordSymbolSnapshotFailure None state st)
  end.

(** Attempts on a market, non-negative as the zero state is. *)
Definition op_attempt (op : snapshot_op) : Z :=
  match op with
  | OpSave batch => batch.(SymbolSnapshotBatch.CapturedAtMS)
  | OpFailure state => state.(SymbolSnapshotSync.LastAttemptMS)
  end.

Definition attempt_of (st : SnapshotStore) (key : string) : Z :=
  (sync_at st key).(SymbolSnapshotSync.LastAttemptMS).

Lemma sync_at_wf st key : store_wf st → sync_wf (sync_at st key).
Proof.
  intros H. unfold sync_at. destruct (_ !! key) eqn:E; simpl; [by eapply H|]. by split.
Qed.

Lemma apply_op_wf op st : store_wf st → store_wf (apply_snapshot_op op st).
Proof.
  intros H. destruct op as [batch|state]; simpl; unfold SaveSymbolSnapshot, RecordSymbolSnapshotFailure.
  - repeat case_bool; try done. simpl. apply map_Forall_insert_2; [|done]. by split.
  - case_bool; [done|]. simpl. apply map_Forall_insert_2; [|done]. zbool.
    pose proof (sync_at_wf st (sync_key state.(SymbolSnapshotSync.Exchange)
      state.(SymbolSnapshotSync.MarketType)) H) as [H1 _].
    destruct state; simpl in *. split; simpl; [lia|done].
Qed.

Lemma attempt_insert snaps syncs key key' sync :
  attempt_of (SnapshotStore.mk snaps (<[key' := sync]> syncs)) key =
  if decide (key' = key) then sync.(SymbolSnapshotSync.LastAttemptMS)
  else attempt_of (SnapshotStore.mk snaps syncs) key.
Proof. unfold attempt_of, sync_at. simpl. rewrite lookup_insert. by case_decide. Qed.

Lemma apply_op_attempt op st key : attempt_of st key <= attempt_of (apply_snapshot_op op st) key.
Proof.
  destruct op as [batch|state]; simpl; unfold SaveSymbolSnapshot, RecordSymbolSnapshotFailure.
  - repeat case_bool; simpl; zbool; try lia. rewrite attempt_insert.
    destruct (decide (sync_key _ _ = key)) as [<-|]; simpl; unfold attempt_of, sync_at in *; simpl in *; lia.
  - case_bool; simpl; zbool; [lia|]. rewrite attempt_insert.
    destruct (decide (sync_key _ _ = key)) as [<-|]; destruct state; simpl in *; unfold attempt_of, sync_at in *;
      simpl in *; lia.
Qed.

(** ** Properties *)

Definition repair_permitted (item : SymbolSnapshot) (sync : SymbolSnapshotSync) (nowMS maxAgeMS : Z) : Prop :=
  item.(SymbolSnapshot.Exchange) ≠ "" ∧ item.(SymbolSnapshot.Symbol) ≠ "" ∧
  item.(SymbolSnapshot.Presence) = "present" ∧ item.(SymbolSnapshot.Delisted) = false ∧
  item.(SymbolSnapshot.Subscribed) = true ∧ item.(SymbolSnapshot.OfficialActive) = true ∧
  item.(SymbolSnapshot.ListedAtMS) <= nowMS ∧
  0 < item.(SymbolSnapshot.CapturedAtMS) <= nowMS ∧ 0 < maxAgeMS ∧
  nowMS - item.(SymbolSnapshot.CapturedAtMS) <= maxAgeMS ∧
  ToLower sync.(SymbolSnapshotSync.Exchange) = ToLower item.(SymbolSnapshot.Exchange) ∧
  ToLower sync.(SymbolSnapshotSync.MarketType) = ToLower item.(SymbolSnapshot.MarketType) ∧
  sync.(SymbolSnapshotSync.Status) = "ok" ∧
  sync.(SymbolSnapshotSync.LastSuccessMS) = item.(SymbolSnapshot.CapturedAtMS).

(** A guard that returns a reason, in a chain that is empty when all let through. *)
Lemma guard_empty (b : bool) (reason rest : string) :
  reason ≠ "" → (if b then reason else rest) = "" ↔ b = false ∧ rest = "".
Proof. intros. destruct b; split; [done|by intros [? _]|done|by intros [_ ?]]. Qed.

Lemma guard_reason (r rest : string) :
  (if negb (bool_decide (r = "")) then r else rest) = "" ↔ r = "" ∧ rest = "".
Proof. case_bool_decide; simpl; naive_solver. Qed.

Lemma reason_text (s : string) :
  (let reason := TrimSpace s in
   if negb (bool_decide (reason = "")) then reason else "not_subscribed") ≠ "".
Proof. simpl. case_bool_decide; simpl; done. Qed.

(** the repair test fails closed: it lets a repair through exactly when the
    symbol is present, active, subscribed, listed and not delisted, its snapshot
    is fresh, and the market's last refresh succeeded and is the one the
    snapshot came from; every other combination gives a reason. *)
Theorem repair_fails_closed item sync nowMS maxAgeMS :
  Z.abs maxAgeMS <= MaxTS → 0 <= nowMS < two63 →
  SymbolSnapshotRepairSkipReason item sync nowMS maxAgeMS = "" ↔
  repair_permitted item sync nowMS maxAgeMS.
Proof.
  intros Hage Hnow. unfold SymbolSnapshotRepairSkipReason, RepairSkipReason, repair_permitted.
  assert (i64 (maxAgeMS * 1000000) = maxAgeMS * 1000000) as ->
    by (apply i64_id; unfold int64_range, two63, MaxTS in *; lia).
  rewrite Z.quot_mul by done. rewrite guard_reason, !guard_empty by (done || apply reason_text).
  unfold EqualFold.
  rewrite !orb_false_iff, !negb_false_iff, !bool_decide_eq_true, !bool_decide_eq_false,
    !Z.leb_gt, !Z.ltb_ge, Z.eqb_eq.
  assert (Hi : 0 < item.(SymbolSnapshot.CapturedAtMS) <= nowMS →
    i64 (nowMS - item.(SymbolSnapshot.CapturedAtMS)) = nowMS - item.(SymbolSnapshot.CapturedAtMS))
    by (intros; apply i64_id; unfold int64_range, two63 in *; lia).
  split; intros H; destruct_and!; rewrite Hi in * by lia; split_and!; (done || lia).
Qed.

Definition sample_item : SymbolSnapshot :=
  SymbolSnapshot.mk "okx" "BTC-USDT-SWAP" "swap" true "enabled" "live" true false "present"
    "linear" "BTC" "USDT" "USDT" 1500000000000 0 0 1779262261234 1779262261234 0 0 "".
Definition sample_sync : SymbolSnapshotSync :=
  SymbolSnapshotSync.mk "okx" "swap" "ok" 1779262261234 1779262261234 1 "".

Example repair_fails_closed_witness :
  repair_permitted sample_item sample_sync 1779262300000 900000.
Proof.
  apply (repair_fails_closed sample_item sample_sync 1779262300000 900000).
  - unfold MaxTS. lia.
  - unfold two63. lia.
  - reflexivity.
Defined.

(** a successful inventory transition loses nothing and claims nothing.
    Names are unique; every official symbol is present with the new capture
    time; every earlier symbol of the market is still there; and an item that
    is not present is the earlier one with its official facts (delisted flag,
    status, listing and delisting times) unchanged, unsubscribed, and not in the
    official list: absence is never turned into a delisting. *)
Theorem Reconcile_inventory exchange marketType enabled cap official previous batch :
  ReconcileSymbolSnapshot exchange marketType enabled cap official previous = Ok batch →
  let symbols := batch.(SymbolSnapshotBatch.Symbols) in
  NoDup (item_name <$> symbols) ∧
  (∀ info, info ∈ official → ∃ item, item ∈ symbols ∧
     item.(SymbolSnapshot.Symbol) = official_symbol info ∧
     item.(SymbolSnapshot.Presence) = "present" ∧ item.(SymbolSnapshot.CapturedAtMS) = cap) ∧
  (∀ old, old ∈ previous →
     in_market (ToLower (TrimSpace exchange)) (TrimSpace marketType) old = true →
     ∃ item, item ∈ symbols ∧ item_name item = item_name old) ∧
  (∀ item, item ∈ symbols → item.(SymbolSnapshot.Presence) ≠ "present" →
     item_name item ∉ official_symbol <$> official ∧
     item.(SymbolSnapshot.Subscribed) = false ∧
     ∃ old, old ∈ previous ∧ item_name old = item_name item ∧
       item.(SymbolSnapshot.Delisted) = old.(SymbolSnapshot.Delisted) ∧
       item.(SymbolSnapshot.OfficialStatus) = old.(SymbolSnapshot.OfficialStatus) ∧
       item.(SymbolSnapshot.ListedAtMS) = old.(SymbolSnapshot.ListedAtMS) ∧
       item.(SymbolSnapshot.DelistAtMS) = old.(SymbolSnapshot.DelistAtMS)).
Proof.
  intros H symbols. split; [by eapply Reconcile_names|]. subst symbols.
  apply Reconcile_Ok in H as (seen & Hseen & Hnd & Hne & _ & _ & _ & _ & ->). simpl.
  set (ex := ToLower (TrimSpace exchange)). set (mt := TrimSpace marketType).
  set (prior := fst (index_previous ex mt previous ∅ 0)).
  setoid_rewrite sort_slice_perm. setoid_rewrite elem_of_app. split_and!.
  - intros info Hin. eexists. split; [left; apply list_elem_of_fmap; by eauto|done].
  - intros old Hold Hm.
    destruct (index_previous_covers ex mt previous ∅ 0 old Hold Hm) as [item Hp].
    destruct (decide (item_name old ∈ seen)) as [Hs|Hs].
    + apply Hseen, list_elem_of_fmap in Hs as (info & Ho & Hin).
      eexists. split; [left; apply list_elem_of_fmap; by eauto|]. by rewrite present_item_name.
    + exists (absent_item cap item). split.
      * right. apply elem_of_absent_items. eauto.
      * apply prior_key in Hp as (_ & _ & Hk). unfold item_name at 1.
        by destruct (absent_item_fields cap item) as (_ & _ & -> & _).
  - intros item [Hin|Hin] Hpres.
    { apply list_elem_of_fmap in Hin as (info & -> & _). done. }
    apply elem_of_absent_items in Hin as (k & old & Hp & Hs & ->).
    apply prior_key in Hp as (Hold & _ & Hk).
    destruct (absent_item_fields cap old) as (_ & _ & Hsym & Hdel & Hst & Hli & Hde & _ & Hsub & _).
    assert (Hname : item_name (absent_item cap old) = k) by (unfold item_name; by rewrite Hsym).
    rewrite Hname. split_and!; [by rewrite <- Hseen|done|]. exists old. split_and!; done.
Qed.

Definition sample_info : SymbolInfo :=
  SymbolInfo.mk "okx" "ETH-USDT-SWAP" "swap" "live" true 1 1 1 true "linear" "ETH" "USDT" "USDT" 0 0 0 "".

Example Reconcile_inventory_witness :
  ∃ batch, ReconcileSymbolSnapshot "okx" "swap" true 1779262300000 [sample_info] [sample_item] = Ok batch ∧
    ∃ item, item ∈ batch.(SymbolSnapshotBatch.Symbols) ∧ item_name item = "BTC-USDT-SWAP".
Proof.
  eexists. split; [reflexivity|].
  destruct (Reconcile_inventory "okx" "swap" true 1779262300000 [sample_info] [sample_item] _ eq_refl)
    as (_ & _ & H & _).
  apply (H sample_item); [constructor|reflexivity].
Defined.

(** What the transition returns the repository stores: when the earlier
    items carry the market's own names and no newer refresh was recorded, saving
    the batch succeeds, every item of it can be looked up afterwards, the
    market's refresh state is "ok" at the capture time, and no other market's
    refresh state changes. *)
Theorem Reconcile_then_save exchange marketType enabled cap official previous batch st :
  ReconcileSymbolSnapshot exchange marketType enabled cap official previous = Ok batch →
  let ex := ToLower (TrimSpace exchange) in
  let mt := TrimSpace marketType in
  (∀ old, old ∈ previous → old.(SymbolSnapshot.Exchange) = ex ∧
     old.(SymbolSnapshot.MarketType) = mt ∧ old.(SymbolSnapshot.Symbol) ≠ "") →
  attempt_of st (sync_key ex mt) <= cap →
  ∃ st', SaveSymbolSnapshot None batch st = (Ok tt, st') ∧
    (∀ item, item ∈ batch.(SymbolSnapshotBatch.Symbols) →
       st'.(SnapshotStore.symbolSnapshots) !! snapshot_key item = Some item) ∧
    (sync_at st' (sync_key ex mt)).(SymbolSnapshotSync.Status) = "ok" ∧
    (sync_at st' (sync_key ex mt)).(SymbolSnapshotSync.LastSuccessMS) = cap ∧
    (∀ key, key ≠ sync_key ex mt → sync_at st' key = sync_at st key).
Proof.
  intros H ex mt Hprev Hatt. pose proof (Reconcile_names _ _ _ _ _ _ _ H) as Hnd.
  apply Reconcile_Ok in H as (seen & Hseen & _ & Hne & Hoff & Hex & Hmt & Hcap & ->).
  fold ex mt in Hnd |- *. fold ex in Hex. fold mt in Hmt.
  set (prior := fst (index_previous ex mt previous ∅ 0)) in *.
  simpl in Hnd |- *. set (symbols := sort_slice _ _) in *.
  assert (Hitems : ∀ item, item ∈ symbols → item.(SymbolSnapshot.Exchange) = ex ∧
    item.(SymbolSnapshot.MarketType) = mt ∧ item.(SymbolSnapshot.CapturedAtMS) = cap ∧
    item.(SymbolSnapshot.Symbol) ≠ "").
  { intros item Hin. unfold symbols in Hin. rewrite sort_slice_perm, elem_of_app in Hin.
    destruct Hin as [Hin|Hin].
    - apply list_elem_of_fmap in Hin as (info & -> & Hinfo). simpl. split_and!; try done.
      apply Hne. apply list_elem_of_fmap. eauto.
    - apply elem_of_absent_items in Hin as (k & old & Hp & Hs & ->).
      apply prior_key in Hp as (Hold & _ & _). destruct (Hprev old Hold) as (? & ? & ?).
      destruct (absent_item_fields cap old) as (-> & -> & -> & _ & _ & _ & _ & _ & _ & ->).
      done. }
  assert (Hlen : symbols ≠ []).
  { intros E. assert (length symbols = 0%nat) as Hl by by rewrite E.
    unfold symbols in Hl. rewrite length_sort_slice, length_app, length_fmap in Hl.
    destruct official; [done|simpl in Hl; lia]. }
  unfold SaveSymbolSnapshot. simpl.
  rewrite !bool_decide_eq_false_2 by done.
  assert (cap <=? 0 = false) as -> by (apply Z.leb_gt; lia).
  assert (Z.of_nat (length symbols) =? 0 = false) as ->
    by (apply Z.eqb_neq; destruct symbols; [done|simpl; lia]).
  assert (forallb (in_batch (SymbolSnapshotBatch.mk ex mt cap symbols)) symbols = true) as ->.
  { apply forallb_forall. intros item Hin%list_elem_of_In. destruct (Hitems item Hin) as (H1 & H2 & H3 & H4).
    unfold in_batch. simpl. rewrite H1, H2, H3, !bool_decide_eq_true_2, bool_decide_eq_false_2 by done.
    by rewrite Z.eqb_refl. }
  fold (attempt_of st (sync_key ex mt)).
  assert (cap <? attempt_of st (sync_key ex mt) = false) as -> by (apply Z.ltb_ge; lia).
  eexists. split; [reflexivity|]. unfold sync_at. simpl. rewrite lookup_insert_eq. simpl.
  split_and!; [|done|done|intros key Hk; by rewrite lookup_insert_ne].
  apply fold_insert_lookup.
  - intros i1 i2 H1 H2. destruct (Hitems i1 H1) as (E1 & _), (Hitems i2 H2) as (E2 & _).
    unfold snapshot_key. rewrite E1, E2. intros Heq%(inj _)%(inj _).
    eapply NoDup_key_inj; eassumption.
Qed.

Example Reconcile_then_save_witness :
  ∃ batch st', ReconcileSymbolSnapshot "OKX" "swap" true 1779262300000 [sample_info] [sample_item] = Ok batch ∧
    SaveSymbolSnapshot None batch SnapshotStore.empty = (Ok tt, st') ∧
    (sync_at st' "okx:swap").(SymbolSnapshotSync.LastSuccessMS) = 1779262300000.
Proof.
  eexists.
  destruct (Reconcile_then_save "OKX" "swap" true 1779262300000 [sample_info] [sample_item] _
              SnapshotStore.empty eq_refl) as (st' & Hsave & _ & _ & Hs & _).
  - intros old Hold. apply list_elem_of_singleton in Hold. subst old. repeat split; discriminate.
  - vm_compute. discriminate.
  - exists st'. split; [reflexivity|]. split; [exact Hsave|exact Hs].
Defined.

(** Over any run of the repository's writes from the empty store, a
    market's last attempt never goes back, a recorded success is never later
    than the last attempt, "ok" means the last attempt is the success, and a
    failed refresh leaves the inventory itself alone. *)
Theorem snapshot_runs ops1 ops2 key :
  let st1 := foldl (fun st op => apply_snapshot_op op st) SnapshotStore.empty ops1 in
  let st2 := foldl (fun st op => apply_snapshot_op op st) st1 ops2 in
  attempt_of st1 key <= attempt_of st2 key ∧
  sync_wf (sync_at st2 key) ∧
  (∀ state, (apply_snapshot_op (OpFailure state) st2).(SnapshotStore.symbolSnapshots)
            = st2.(SnapshotStore.symbolSnapshots)).
Proof.
  assert (Hwf : ∀ ops st, store_wf st → store_wf (foldl (fun st op => apply_snapshot_op op st) st ops)).
  { induction ops as [|op ops IH]; intros st H; simpl; [done|]. by apply IH, apply_op_wf. }
  assert (Hmono : ∀ ops st, attempt_of st key <= attempt_of (foldl (fun st op => apply_snapshot_op op st) st ops) key).
  { induction ops as [|op ops IH]; intros st; simpl; [lia|].
    etrans; [apply (apply_op_attempt op)|apply IH]. }
  intros st1 st2. split_and!; [apply Hmono| |].
  - apply sync_at_wf, Hwf, Hwf. apply map_Forall_empty.
  - intros state. simpl. unfold RecordSymbolSnapshotFailure. by case_bool.
Qed.
