(* ===== verification/Collector.v ===== *)
(** * The collectors (internal/collector)

    A collector keeps the streams of one market connected and hands every candle
    to the service.  Its functions are programs over [collectorE], the calls to the
    WebSocket, the store, the service, the observer and the clock.  An adapter is
    anything with the operations of [Adapter]; Binance and OKX are instances. *)

From S2P Require Export RestKline.

Local Open Scope string_scope.
Local Open Scope Z_scope.
Local Open Scope list_scope.
Local Open Scope prog_scope.

(** ** Adapters (internal/exchange/adapter.go) *)

(** A payload is the value that json.Marshal gets.  [StaticStreamURL] is there for
    the adapters that implement StaticStreamAdapter; fetching the symbols may change
    what the adapter knows of them. *)
Class Adapter (A : Type) : Type := {
  Name : A → string;
  MarketType : A → string;
  WSURL : A → string;
  FetchSymbols : A → prog exchangeE (result go_error (list SymbolInfo) * A);
  BuildSubscribePayload : A → list string → Z → result go_error any;
  BuildUnsubscribePayload : A → list string → Z → result go_error any;
  ParseKlineMessage : A → result go_error any → Z → result go_error (list Bar);
  StaticStreamURL_ : A → option (list string → string);
}.

Section adapters.
Context (raw_text : any → string).

#[export] Instance binance_adapter : Adapter BinanceFuturesAdapter := {|
  Name _ := binance_name;
  MarketType := BinanceFuturesAdapter.marketType;
  WSURL := BinanceFuturesAdapter.wsURL;
  FetchSymbols a := symbols <- binance_FetchSymbols raw_text a ;; Ret (symbols, a);
  BuildSubscribePayload a symbols id := Ok (binance_subscription "SUBSCRIBE" symbols id);
  BuildUnsubscribePayload a symbols id := Ok (binance_subscription "UNSUBSCRIBE" symbols id);
  ParseKlineMessage := binance_ParseKlineMessage;
  StaticStreamURL_ a := Some (StaticStreamURL a);
|}.

#[export] Instance okx_adapter : Adapter OKXAdapter := {|
  Name _ := okx_name;
  MarketType := OKXAdapter.instType;
  WSURL := OKXAdapter.wsURL;
  FetchSymbols := okx_FetchSymbols raw_text;
  BuildSubscribePayload a symbols id := Ok (okx_subscription "subscribe" symbols id);
  BuildUnsubscribePayload a symbols id := Ok (okx_subscription "unsubscribe" symbols id);
  ParseKlineMessage := okx_ParseKlineMessage;
  StaticStreamURL_ a := None;
|}.
End adapters.

(** ** Calls *)

(** What the observer is told, of the adapter's exchange and market type. *)
Inductive observation : Type :=
| RegisterCollectorRuntime
| CollectorSubscriptions (symbols : list string)
| CollectorConnection (delta : Z)
| CollectorConnectAttempt (success : bool)
| CollectorMessage
| CollectorBarReceived (bar : Bar)
| CollectorIngested (bar : Bar)
| CollectorReconnect
| CollectorParseError
| CollectorIngestError.

(** What a WebSocket delivers: a message, as the document it decodes to, or a
    control frame.  ReadMessage hands a control frame to its handler and goes on. *)
Inductive frame : Type :=
| Message (doc : result go_error any)
| Ping (data : string)
| Pong.

(** What the heartbeat waits for. *)
Inductive heartbeat : Type := HeartbeatCancelled | HeartbeatDone | HeartbeatTick.

(** Times are in nanoseconds; [Time] is time.Now. *)
Inductive collectorE : Type → Type :=
| Request {X} (e : exchangeE X) : collectorE X
| Time : collectorE Z
| Cancelled : collectorE (option go_error)
| Wait (delay : Z) : collectorE (option go_error)
| Pause (delay : Z) : collectorE unit
| UpsertSymbols_ (symbols : list SymbolInfo) : collectorE (option go_error)
| IngestKline_ (bar : Bar) : collectorE (option go_error)
| Observe (exchange marketType : string) (o : observation) : collectorE unit
| Dial (url : string) : collectorE (option go_error)
| SetReadDeadline (deadline : Z) : collectorE (option go_error)
| WriteMessage (payload : any) : collectorE (option go_error)
| ReadFrame : collectorE (result go_error frame)
| WritePing (deadline : Z) : collectorE (option go_error)
| WritePong (data : string) : collectorE (option go_error)
| CloseConn : collectorE unit
| StartHeartbeat (interval : Z) : collectorE unit
| StopHeartbeat : collectorE unit
| HeartbeatEvent : collectorE heartbeat
| PostHeartbeatError (e : go_error) : collectorE unit
| HeartbeatError : collectorE (option go_error)
| StartShard (index : Z) (symbols : list string) : collectorE unit
| RefreshTick : collectorE (option go_error)
| Done : collectorE go_error
| CancelShards : collectorE unit
| WaitShards : collectorE unit
| Forever : collectorE Empty_set.

Notation cprog := (prog collectorE).


(** A loop that only an event ends; 2^64 rounds are more than any process makes. *)
Definition endless {S R} (body : S → cprog (S + R)) (s : S) : cprog R :=
  r <- ploop 64 body s ;;
  match r with
  | inr x => Ret x
  | inl _ => x <- trigger Forever ;; match x : Empty_set with end
  end.

Definition Second_ns : Z := 1000000000.
Definition Millisecond_ns : Z := 1000000.
Definition MaxInt32 : Z := 2147483647.

(** ** Configuration *)

Module Config.
Record Config : Type := mk {
  SymbolRefreshInterval : Z; ReconnectBaseDelay : Z; ReconnectMaxDelay : Z; ReconnectResetAfter : Z;
  SubscriptionChunkSize : Z; WSPingInterval : Z; WSPongWait : Z }.
End Config.
Notation Config := Config.Config.

(** Whether the runner has a store and an observer. *)
Module Runner.
Record Runner : Type := mk { store : bool; observer : bool }.
End Runner.
Notation Runner := Runner.Runner.

Definition minDuration (a b : Z) : Z := if a <? b then a else b.

Definition baseDelay (cfg : Config) : Z :=
  if cfg.(Config.ReconnectBaseDelay) <=? 0 then Second_ns else cfg.(Config.ReconnectBaseDelay).
Definition maxDelay (cfg : Config) : Z :=
  if cfg.(Config.ReconnectMaxDelay) <=? 0 then 60 * Second_ns else cfg.(Config.ReconnectMaxDelay).
Definition next_backoff (cfg : Config) (backoff : Z) : Z := minDuration (i64 (backoff * 2)) (maxDelay cfg).

(** Ping interval and pong wait. *)
Definition websocketHeartbeatDurations (cfg : Config) : Z * Z :=
  let pingInterval := if cfg.(Config.WSPingInterval) <=? 0 then 20 * Second_ns else cfg.(Config.WSPingInterval) in
  let pongWait := if cfg.(Config.WSPongWait) <=? 0 then 60 * Second_ns else cfg.(Config.WSPongWait) in
  let pingInterval := if pongWait <=? pingInterval then Z.quot pongWait 2 else pingInterval in
  let pingInterval := if pingInterval <=? 0 then Second_ns else pingInterval in
  (pingInterval, pongWait).

(** ** Symbol lists *)

Definition symbol_set (symbols : list string) : gset string :=
  list_to_set (List.filter (fun s => negb (bool_decide (s = ""))) ((fun s => ToUpper (TrimSpace s)) <$> symbols)).

(** The symbols to subscribe and to unsubscribe, sorted. *)
Definition diffSymbols (current next : list string) : list string * list string :=
  let currentSet := symbol_set current in
  let nextSet := symbol_set next in
  (sort_slice string_less (elements (nextSet ∖ currentSet)), sort_slice string_less (elements (currentSet ∖ nextSet))).

Definition sameSymbols (current next : list string) : bool :=
  let '(subscribe, unsubscribe) := diffSymbols current next in
  (length subscribe =? 0)%nat && (length unsubscribe =? 0)%nat.

(** The slices [symbols[start:end]] of the loop. *)
Fixpoint chunks_from (fuel : nat) (size : nat) (symbols : list string) : list (list string) :=
  match fuel, symbols with
  | S fuel, _ :: _ => take size symbols :: chunks_from fuel size (drop size symbols)
  | _, _ => []
  end.
Definition chunk_size (chunkSize : Z) : nat := if chunkSize <=? 0 then 100 else Z.to_nat chunkSize.
Definition chunkSymbols (symbols : list string) (chunkSize : Z) : list (list string) :=
  chunks_from (length symbols) (chunk_size chunkSize) symbols.

(** The symbols are dealt out to the shards in turn. *)
Definition deal (shardCount : nat) (shards : list (list string)) (entry : nat * string) : list (list string) :=
  let '(index, symbol) := entry in
  alter (fun shard => shard ++ [symbol]) (index mod shardCount)%nat shards.
Definition shardSymbols (symbols : list string) (maxShardSize : Z) : list (list string) :=
  match symbols with
  | [] => []
  | _ =>
      let size := chunk_size maxShardSize in
      let shardCount := ((length symbols + size - 1) / size)%nat in
      foldl (deal shardCount) (replicate shardCount []) (imap pair symbols)
  end.

(** ** Health of a connection *)

Module reconnectHealth.
Record reconnectHealth : Type := mk { connectedAt : Z; resetAfter : Z; stable : bool }.
End reconnectHealth.
Notation reconnectHealth := reconnectHealth.reconnectHealth.

Definition newReconnectHealth (cfg : Config) : cprog reconnectHealth :=
  let resetAfter := if cfg.(Config.ReconnectResetAfter) <=? 0 then 30 * Second_ns else cfg.(Config.ReconnectResetAfter) in
  now <- trigger Time ;; Ret (reconnectHealth.mk now resetAfter false).

Definition recordActivity (h : reconnectHealth) : cprog reconnectHealth :=
  now <- trigger Time ;;
  Ret (reconnectHealth.mk h.(reconnectHealth.connectedAt) h.(reconnectHealth.resetAfter)
         (h.(reconnectHealth.stable) || (h.(reconnectHealth.resetAfter) <=? now - h.(reconnectHealth.connectedAt)))).

(** ** The heartbeat of a static stream *)

Definition keepWebsocketAlive (interval : Z) : cprog unit :=
  endless (fun _ : unit =>
    event <- trigger HeartbeatEvent ;;
    match event with
    | HeartbeatCancelled => _ <- trigger CloseConn ;; Ret (inr tt)
    | HeartbeatDone => Ret (inr tt)
    | HeartbeatTick =>
        now <- trigger Time ;;
        err <- trigger (WritePing (now + minDuration interval (10 * Second_ns))) ;;
        match err with
        | None => Ret (inl tt)
        | Some e => _ <- trigger (PostHeartbeatError e) ;; _ <- trigger CloseConn ;; Ret (inr tt)
        end
    end) tt.

(** ** The collector of one market *)

Section collector.
Context {A : Type} `{Adapter A} (r : Runner).

Definition observe (a : A) (o : observation) : cprog unit :=
  if r.(Runner.observer) then trigger (Observe (Name a) (MarketType a) o) else Ret tt.

(** The calls of the adapter are calls of the collector. *)
Definition fetch_symbols (a : A) : cprog (result go_error (list SymbolInfo) * A) := embed (@Request) (FetchSymbols a).

Definition refreshSymbols (a : A) : cprog (result go_error (list string) * A) :=
  '(symbols, a) <- fetch_symbols a ;;
  match symbols with
  | Err e => Ret (Err e, a)
  | Ok symbols =>
      err <- (if r.(Runner.store) then trigger (UpsertSymbols_ symbols) else Ret None) ;;
      match err with
      | Some e => Ret (Err e, a)
      | None =>
          let active := SymbolInfo.Symbol <$> List.filter SymbolInfo.IsActive symbols in
          _ <- observe a (CollectorSubscriptions active) ;;
          Ret (Ok active, a)
      end
  end.

(** Payloads for the chunks, with consecutive request ids; [between] runs after each
    but the last. *)
Fixpoint send_chunks (build : list string → Z → result go_error any) (between : cprog unit)
    (chunks : list (list string)) (requestID : Z) : cprog (Z * option go_error) :=
  match chunks with
  | [] => Ret (requestID, None)
  | chunk :: rest =>
      match build chunk requestID with
      | Err e => Ret (requestID, Some e)
      | Ok payload =>
          err <- trigger (WriteMessage payload) ;;
          match err with
          | Some e => Ret (requestID, Some e)
          | None =>
              _ <- (match rest with [] => Ret tt | _ => between end) ;;
              send_chunks build between rest (i64 (requestID + 1))
          end
      end
  end.

Definition sendSubscriptions (a : A) (symbols : list string) (requestID chunkSize : Z) : cprog (Z * option go_error) :=
  send_chunks (BuildSubscribePayload a) (trigger (Pause (250 * Millisecond_ns))) (chunkSymbols symbols chunkSize) requestID.

Definition syncSubscriptions (a : A) (current next : list string) (requestID chunkSize : Z)
    : cprog (Z * Z * Z * option go_error) :=
  let '(subscribe, unsubscribe) := diffSymbols current next in
  let counted (answer : Z * option go_error) :=
    (fst answer, Z.of_nat (length subscribe), Z.of_nat (length unsubscribe), snd answer) in
  '(requestID, err) <- send_chunks (BuildUnsubscribePayload a) (Ret tt) (chunkSymbols unsubscribe chunkSize) requestID ;;
  match err with
  | Some e => Ret (counted (requestID, Some e))
  | None =>
      answer <- send_chunks (BuildSubscribePayload a) (Ret tt) (chunkSymbols subscribe chunkSize) requestID ;;
      Ret (counted answer)
  end.

Definition no_active_symbols : go_error := Errorf "no active symbols".

Definition refreshConnectionSubscriptions (a : A) (current : list string) (requestID : Z) (cfg : Config)
    : cprog (list string * Z * option go_error * A) :=
  '(next, a) <- refreshSymbols a ;;
  match next with
  | Err e => Ret (current, requestID, Some e, a)
  | Ok [] => Ret (current, requestID, Some no_active_symbols, a)
  | Ok next =>
      '(id, _, _, err) <- syncSubscriptions a current next requestID cfg.(Config.SubscriptionChunkSize) ;;
      match err with
      | Some e => Ret (current, id, Some e, a)
      | None => Ret (next, id, None, a)
      end
  end.

(** The candles of a message, handed to the service one by one. *)
Fixpoint ingest_bars (a : A) (bars : list Bar) : cprog (option go_error) :=
  match bars with
  | [] => Ret None
  | bar :: rest =>
      _ <- observe a (CollectorBarReceived bar) ;;
      err <- trigger (IngestKline_ bar) ;;
      match err with
      | Some e => _ <- observe a CollectorIngestError ;; Ret (Some e)
      | None => _ <- observe a (CollectorIngested bar) ;; ingest_bars a rest
      end
  end.

Definition handle_message (a : A) (health : reconnectHealth) (doc : result go_error any)
    : cprog (reconnectHealth * option go_error) :=
  _ <- observe a CollectorMessage ;;
  now <- trigger (Request Now) ;;
  match ParseKlineMessage a doc now with
  | Err _ => _ <- observe a CollectorParseError ;; Ret (health, None)
  | Ok bars =>
      health <- recordActivity health ;;
      err <- ingest_bars a bars ;;
      Ret (health, err)
  end.

(** *** One connection with subscriptions *)

(** ReadMessage without handlers of its own: a ping is answered, a pong ignored. *)
Definition default_ReadMessage : cprog (result go_error (result go_error any)) :=
  endless (fun _ : unit =>
    f <- trigger ReadFrame ;;
    match f with
    | Err e => Ret (inr (Err e))
    | Ok (Message doc) => Ret (inr (Ok doc))
    | Ok (Ping data) => err <- trigger (WritePong data) ;; Ret (match err with Some e => inr (Err e) | None => inl tt end)
    | Ok Pong => Ret (inl tt)
    end) tt.

(** What the loop over the messages carries. *)
Record Stream : Type := mkStream {
  adapter : A; symbols : list string; requestID : Z; refreshAt : Z; health : reconnectHealth }.

Definition stop (s : Stream) (e : go_error) : Stream + (reconnectHealth * go_error * A) :=
  inr (s.(health), e, s.(adapter)).

(** The subscriptions are brought up to date when it is time for it. *)
Definition refresh_due (cfg : Config) (s : Stream) : cprog (Stream * option go_error) :=
  if 0 <? cfg.(Config.SymbolRefreshInterval) then
    now <- trigger Time ;;
    if now <? s.(refreshAt) then Ret (s, None)
    else
      '(symbols, id, err, a) <- refreshConnectionSubscriptions s.(adapter) s.(symbols) s.(requestID) cfg ;;
      match err with
      | Some e => Ret (mkStream a symbols id s.(refreshAt) s.(health), Some e)
      | None =>
          now <- trigger Time ;;
          Ret (mkStream a symbols id (now + cfg.(Config.SymbolRefreshInterval)) s.(health), None)
      end
  else Ret (s, None).

Definition stream_step (cfg : Config) (s : Stream) : cprog (Stream + (reconnectHealth * go_error * A)) :=
  cancelled <- trigger Cancelled ;;
  match cancelled with
  | Some e => Ret (stop s e)
  | None =>
      '(s, err) <- refresh_due cfg s ;;
      match err with
      | Some e => Ret (stop s e)
      | None =>
          now <- trigger Time ;;
          _ <- trigger (SetReadDeadline (now + 30 * Second_ns)) ;;
          message <- default_ReadMessage ;;
          match message with
          | Err e => Ret (stop s e)
          | Ok doc =>
              '(health, err) <- handle_message s.(adapter) s.(health) doc ;;
              let s := mkStream s.(adapter) s.(symbols) s.(requestID) s.(refreshAt) health in
              Ret (match err with Some e => stop s e | None => inl s end)
          end
      end
  end.

(** What is done with a connection, and whether it was stable. *)
Definition run_stream (a : A) (symbols : list string) (cfg : Config) : cprog (bool * option go_error * A) :=
  health <- newReconnectHealth cfg ;;
  now <- trigger Time ;;
  '(id, err) <- sendSubscriptions a symbols (Z.rem now MaxInt32) cfg.(Config.SubscriptionChunkSize) ;;
  match err with
  | Some e => Ret (health.(reconnectHealth.stable), Some e, a)
  | None =>
      _ <- observe a (CollectorConnection 1) ;;
      now <- trigger Time ;;
      '(health, e, a) <- endless (stream_step cfg) (mkStream a symbols id (now + cfg.(Config.SymbolRefreshInterval)) health) ;;
      _ <- observe a (CollectorConnection (-1)) ;;
      Ret (health.(reconnectHealth.stable), Some e, a)
  end.

(** *** Static streams *)

Fixpoint start_shards (index : Z) (shards : list (list string)) : cprog unit :=
  match shards with
  | [] => Ret tt
  | shard :: rest => _ <- trigger (StartShard index shard) ;; start_shards (index + 1) rest
  end.

(** One tick of the refresh: the shards go on, or they are stopped for a new list. *)
Definition static_refresh (symbols : list string) (a : A) : cprog (A + (option go_error * A)) :=
  tick <- trigger RefreshTick ;;
  match tick with
  | Some e => Ret (inr (Some e, a))
  | None =>
      '(next, a) <- refreshSymbols a ;;
      match next with
      | Err _ | Ok [] => Ret (inl a)
      | Ok next =>
          if sameSymbols symbols next then Ret (inl a)
          else _ <- trigger CancelShards ;; Ret (inr (None, a))
      end
  end.

Definition connectStaticStreams (a : A) (symbols : list string) (cfg : Config) : cprog (option go_error * A) :=
  _ <- start_shards 0 (shardSymbols symbols cfg.(Config.SubscriptionChunkSize)) ;;
  answer <- (if cfg.(Config.SymbolRefreshInterval) <=? 0 then e <- trigger Done ;; Ret (Some e, a)
             else endless (static_refresh symbols) a) ;;
  _ <- trigger CancelShards ;;
  _ <- trigger WaitShards ;;
  Ret answer.

(** ReadMessage with the handlers of readStaticStream, which note the activity and
    move the deadline; a handler that fails fails the read. *)
Definition alive (pongWait : Z) (health : reconnectHealth) (after : cprog (option go_error))
    : cprog (reconnectHealth + (reconnectHealth * result go_error (result go_error any))) :=
  health <- recordActivity health ;;
  now <- trigger Time ;;
  err <- trigger (SetReadDeadline (now + pongWait)) ;;
  err <- (match err with Some e => Ret (Some e) | None => after end) ;;
  Ret (match err with Some e => inr (health, Err e) | None => inl health end).

Definition static_frame (pongWait : Z) (health : reconnectHealth)
    : cprog (reconnectHealth + (reconnectHealth * result go_error (result go_error any))) :=
  f <- trigger ReadFrame ;;
  match f with
  | Err e => Ret (inr (health, Err e))
  | Ok (Message doc) => Ret (inr (health, Ok doc))
  | Ok (Ping data) => alive pongWait health (trigger (WritePong data))
  | Ok Pong => alive pongWait health (Ret None)
  end.

Definition static_ReadMessage (pongWait : Z) (health : reconnectHealth)
    : cprog (reconnectHealth * result go_error (result go_error any)) := endless (static_frame pongWait) health.

Definition read_error (e : go_error) : cprog go_error :=
  cancelled <- trigger Cancelled ;;
  match cancelled with
  | Some c => Ret c
  | None =>
      heartbeat <- trigger HeartbeatError ;;
      Ret (match heartbeat with Some h => Wrapf "websocket heartbeat failed: %w" h | None => e end)
  end.

Definition static_step (a : A) (pongWait : Z) (health : reconnectHealth)
    : cprog (reconnectHealth + (reconnectHealth * go_error)) :=
  cancelled <- trigger Cancelled ;;
  match cancelled with
  | Some e => Ret (inr (health, e))
  | None =>
      '(health, message) <- static_ReadMessage pongWait health ;;
      match message with
      | Err e => e <- read_error e ;; Ret (inr (health, e))
      | Ok doc =>
          '(health, err) <- handle_message a health doc ;;
          Ret (match err with Some e => inr (health, e) | None => inl health end)
      end
  end.

Definition run_static (a : A) (cfg : Config) : cprog (bool * option go_error) :=
  health <- newReconnectHealth cfg ;;
  let '(pingInterval, pongWait) := websocketHeartbeatDurations cfg in
  now <- trigger Time ;;
  err <- trigger (SetReadDeadline (now + pongWait)) ;;
  match err with
  | Some e => Ret (health.(reconnectHealth.stable), Some e)
  | None =>
      _ <- trigger (StartHeartbeat pingInterval) ;;
      _ <- observe a (CollectorConnection 1) ;;
      '(health, e) <- endless (static_step a pongWait) health ;;
      _ <- observe a (CollectorConnection (-1)) ;;
      _ <- trigger StopHeartbeat ;;
      Ret (health.(reconnectHealth.stable), Some e)
  end.

(** Dial, use the connection, close it. *)
Definition connected {R} (a : A) (url : string) (refused : go_error → R) (body : cprog R) : cprog R :=
  err <- trigger (Dial url) ;;
  _ <- observe a (CollectorConnectAttempt (bool_decide (err = None))) ;;
  match err with
  | Some e => Ret (refused e)
  | None => x <- body ;; _ <- trigger CloseConn ;; Ret x
  end.

Definition readStaticStream (a : A) (wsURL : string) (cfg : Config) : cprog (bool * option go_error) :=
  connected a wsURL (fun e => (false, Some e)) (run_static a cfg).

(** A shard, until it is cancelled. *)
Definition shard_step (a : A) (url : string) (cfg : Config) (backoff : Z) : cprog (Z + unit) :=
  cancelled <- trigger Cancelled ;;
  match cancelled with
  | Some _ => Ret (inr tt)
  | None =>
      '(stable, err) <- readStaticStream a url cfg ;;
      cancelled <- trigger Cancelled ;;
      match cancelled, err with
      | Some _, _ => Ret (inr tt)
      | None, None => Ret (inl backoff)
      | None, Some _ =>
          _ <- observe a CollectorReconnect ;;
          let backoff := if stable then baseDelay cfg else backoff in
          cancelled <- trigger (Wait backoff) ;;
          Ret (match cancelled with Some _ => inr tt | None => inl (next_backoff cfg backoff) end)
      end
  end.

Definition runStaticShard (a : A) (url : string) (cfg : Config) : cprog unit :=
  endless (shard_step a url cfg) (baseDelay cfg).

(** *** The market *)

Definition connectOnce (a : A) (cfg : Config) : cprog (bool * option go_error * A) :=
  '(symbols, a) <- refreshSymbols a ;;
  match symbols with
  | Err e => Ret (false, Some e, a)
  | Ok [] => Ret (false, Some no_active_symbols, a)
  | Ok symbols =>
      match StaticStreamURL_ a with
      | Some _ => '(err, a) <- connectStaticStreams a symbols cfg ;; Ret (false, err, a)
      | None => connected a (WSURL a) (fun e => (false, Some e, a)) (run_stream a symbols cfg)
      end
  end.

Definition exchange_step (cfg : Config) (st : A * Z) : cprog (A * Z + go_error) :=
  let '(a, backoff) := st in
  cancelled <- trigger Cancelled ;;
  match cancelled with
  | Some e => Ret (inr e)
  | None =>
      '(stable, err, a) <- connectOnce a cfg ;;
      let backoff := if stable then baseDelay cfg else backoff in
      match err with
      | None => Ret (inl (a, baseDelay cfg))
      | Some _ =>
          cancelled <- trigger Cancelled ;;
          match cancelled with
          | Some e => Ret (inr e)
          | None =>
              _ <- observe a CollectorReconnect ;;
              cancelled <- trigger (Wait backoff) ;;
              Ret (match cancelled with Some e => inr e | None => inl (a, next_backoff cfg backoff) end)
          end
      end
  end.

Definition runExchange (a : A) (cfg : Config) : cprog go_error := endless (exchange_step cfg) (a, baseDelay cfg).
End collector.
