(* ===== verification/CollectorSpec.v ===== *)
(** * Theorems on the collectors

    A stream hands every candle of every message to the service, in order, until
    the service refuses one; subscriptions follow the active symbols; shards deal
    the symbols out evenly; reconnections are spaced; connections are closed. *)

From S2P Require Export Collector.

Local Open Scope string_scope.
Local Open Scope Z_scope.
Local Open Scope list_scope.

(** ** Runs of the loops *)

Lemma each_endless {S R} (Q : list (call collectorE) → Prop) `{!TraceProp Q} (body : S → cprog (S + R)) s :
  (∀ s, each Q (body s)) → each Q (endless body s).
Proof.
  intros Hb. unfold endless. apply each_bind; [done|by apply each_ploop|]. intros [s'|x]; [|apply each_Ret; typeclasses eauto].
  apply each_bind; [done| |intros []]. apply each_trigger. intros [].
Qed.

(** What holds from round to round of an endless loop. *)
Lemma runs_endless {S R} (body : S → cprog (S + R)) (I : list (call collectorE) → S → Prop) (Φ : list (call collectorE) → R → Prop) s tr x :
  I [] s →
  (∀ tr s tr' x, I tr s → runs (body s) tr' x → match x with inl s' => I (tr ++ tr') s' | inr r => Φ (tr ++ tr') r end) →
  runs (endless body s) tr x → Φ tr x.
Proof.
  intros H0 Hs. unfold endless. intros (tr1 & y & tr2 & -> & H1 & H2)%runs_bind.
  pose proof (runs_ploop 64 body I Φ Hs [] s tr1 y H0 H1) as Hy. destruct y as [s'|r].
  - apply runs_bind in H2 as (? & [] & _).
  - by apply runs_Ret in H2 as [-> ->]; rewrite app_nil_r.
Qed.

#[export] Hint Resolve each_endless : each.

(** ** The calls of the parts of a collector *)

(** Calls that any part may make: not the connection, its messages, the candles or
    the pauses of a reconnection. *)
Definition basic (c : call collectorE) : Prop :=
  match c with
  | Call e _ =>
      match e with
      | Request _ | Time | Cancelled | Pause _ | UpsertSymbols_ _ | SetReadDeadline _ | WritePong _ | StartShard _ _
      | RefreshTick | Done | CancelShards | WaitShards | HeartbeatError => True
      | Observe _ _ (CollectorConnection _) => False
      | Observe _ _ _ => True
      | _ => False
      end
  end.

Section calls.
Context {A : Type} `{Adapter A} (r : Runner) (P : call collectorE → Prop) (Hbasic : ∀ c, basic c → P c).
Notation only := (each (all_calls P)).

Lemma only_trigger {X} (e : collectorE X) : (∀ x, P (Call e x)) → only (trigger e).
Proof. intros He tr x ->%runs_trigger. by repeat constructor. Qed.
#[local] Hint Extern 1 (each _ (trigger _)) => (apply only_trigger; intros ?; apply Hbasic; exact I) : each.
#[local] Hint Extern 2 (each _ (trigger _)) => (apply only_trigger; assumption) : each.

Lemma only_observe a o : match o with CollectorConnection _ => False | _ => True end → only (observe r a o).
Proof.
  intros Ho. unfold observe. destruct (Runner.observer r); [apply only_trigger; intros x; apply Hbasic; by destruct o|each_auto].
Qed.
#[local] Hint Extern 1 (each _ (observe _ _ _)) => (apply only_observe; exact I) : each.

Lemma only_refreshSymbols a : only (refreshSymbols r a).
Proof.
  unfold refreshSymbols. each_auto. unfold fetch_symbols. apply each_embed; [typeclasses eauto|].
  intros. repeat constructor. by apply Hbasic.
Qed.
Lemma only_health cfg : only (newReconnectHealth cfg).
Proof. unfold newReconnectHealth. each_auto. Qed.
Lemma only_start_shards index shards : only (start_shards index shards).
Proof. revert index. induction shards as [|shard rest IH]; intros index; cbn [start_shards]; each_auto. Qed.
#[local] Hint Resolve only_refreshSymbols only_start_shards : each.
Lemma only_static a symbols cfg : only (connectStaticStreams r a symbols cfg).
Proof.
  unfold connectStaticStreams. each_auto. apply each_endless; [typeclasses eauto|]. intros a'. unfold static_refresh. each_auto.
Qed.
Lemma only_nothing : only (Ret tt).
Proof. each_auto. Qed.
#[local] Hint Resolve only_nothing : each.

Section writes.
Context (Hwrite : ∀ payload x, P (Call (WriteMessage payload) x)).

Lemma only_send build between chunks id : only between → only (send_chunks build between chunks id).
Proof.
  intros Hb. revert id. induction chunks as [|chunk rest IH]; intros id; cbn [send_chunks]; [each_auto|].
  destruct (build chunk id) as [payload|e]; [|each_auto].
  apply each_bind; [typeclasses eauto|apply only_trigger; auto|]. intros [e|]; each_auto.
Qed.
#[local] Hint Resolve only_send : each.
Lemma only_refresh_due cfg s : only (refresh_due r cfg s).
Proof. unfold refresh_due, refreshConnectionSubscriptions, syncSubscriptions. each_auto. Qed.
Lemma only_sendSubscriptions (a : A) symbols id n : only (sendSubscriptions a symbols id n).
Proof. unfold sendSubscriptions. each_auto. Qed.
End writes.

Section reads.
Context (Hread : ∀ x, P (Call ReadFrame x)).

Lemma only_ReadMessage : only default_ReadMessage.
Proof. unfold default_ReadMessage. apply each_endless; [typeclasses eauto|]. intros []. each_auto. Qed.
Lemma only_static_ReadMessage pongWait h : only (static_ReadMessage pongWait h).
Proof. unfold static_ReadMessage. apply each_endless; [typeclasses eauto|]. intros h'. unfold static_frame, alive, recordActivity. each_auto. Qed.
End reads.

Section ingests.
Context (Hingest : ∀ bar x, P (Call (IngestKline_ bar) x)).

Lemma only_ingest a bars : only (ingest_bars r a bars).
Proof.
  induction bars as [|bar bars IH]; cbn [ingest_bars]; [each_auto|]. apply each_bind; [typeclasses eauto|each_auto|intros _].
  apply each_bind; [typeclasses eauto|apply only_trigger; auto|]. intros [e|]; each_auto.
Qed.
#[local] Hint Resolve only_ingest : each.
Lemma only_handle a h doc : only (handle_message r a h doc).
Proof. unfold handle_message, recordActivity. each_auto. Qed.
End ingests.
End calls.

Lemma only_omap {X} (f : call collectorE → option X) tr : all_calls (λ c, f c = None) tr → omap f tr = [].
Proof. induction 1 as [|c tr Hc _ IH]; [done|]. cbn. by rewrite Hc. Qed.

(** ** Symbol lists *)

Lemma chunks_concat fuel size symbols : (0 < size)%nat → (length symbols <= fuel)%nat → concat (chunks_from fuel size symbols) = symbols.
Proof.
  revert symbols. induction fuel as [|fuel IH]; intros symbols Hs Hl; destruct symbols as [|s symbols]; try done; simpl in *; [lia|].
  rewrite IH; [apply (take_drop size (s :: symbols))|done|]. rewrite length_drop. simpl. lia.
Qed.

Lemma chunks_sizes fuel size symbols chunk : (0 < size)%nat → chunk ∈ chunks_from fuel size symbols → (0 < length chunk <= size)%nat.
Proof.
  revert symbols. induction fuel as [|fuel IH]; intros symbols Hs Hc; destruct symbols as [|s symbols]; cbn [chunks_from] in Hc; try by apply elem_of_nil in Hc.
  apply elem_of_cons in Hc as [->|Hc]; [rewrite length_take; simpl; lia|eauto].
Qed.

Lemma chunk_size_pos n : (0 < chunk_size n)%nat.
Proof. unfold chunk_size. destruct (n <=? 0) eqn:E; zbool; lia. Qed.

Lemma chunkSymbols_concat symbols n : concat (chunkSymbols symbols n) = symbols.
Proof. apply chunks_concat; [apply chunk_size_pos|done]. Qed.

(** *** Dealing *)

(** The symbols at the positions [k], [k + c], [k + 2c], ... *)
Fixpoint every (c k : nat) (index : nat) (symbols : list string) : list string :=
  match symbols with
  | [] => []
  | s :: rest => (if ((index mod c) =? k)%nat then [s] else []) ++ every c k (S index) rest
  end.

Lemma deal_lookup c index s shards k : (0 < c)%nat → length shards = c → (k < c)%nat →
  deal c shards (index, s) !! k = (λ l, l ++ (if ((index mod c) =? k)%nat then [s] else [])) <$> (shards !! k).
Proof.
  intros Hc Hl Hk. unfold deal. destruct (decide (index mod c = k)%nat) as [<-|Hn].
  - rewrite list_lookup_alter, Nat.eqb_refl, decide_True by done. done.
  - rewrite list_lookup_alter_ne by done. apply Nat.eqb_neq in Hn as ->.
    destruct (shards !! k); simpl; [by rewrite app_nil_r|done].
Qed.

Lemma deal_length c shards entry : length (deal c shards entry) = length shards.
Proof. destruct entry. apply length_alter. Qed.

Lemma deal_all c symbols : (0 < c)%nat → ∀ index shards k, length shards = c → (k < c)%nat →
  foldl (deal c) shards (imap (λ i s, (index + i, s)%nat) symbols) !! k = (λ l, l ++ every c k index symbols) <$> (shards !! k).
Proof.
  intros Hc. induction symbols as [|s symbols IH]; intros index shards k Hl Hk.
  - simpl. destruct (shards !! k); simpl; [by rewrite app_nil_r|done].
  - cbn [imap foldl]. rewrite Nat.add_0_r.
    rewrite (imap_ext _ (λ i s, (S index + i, s)%nat)) by (intros; simpl; f_equal; lia).
    rewrite IH; [|by rewrite deal_length|done]. rewrite deal_lookup by done.
    destruct (shards !! k) as [l|]; [|done]. simpl. by rewrite <- app_assoc.
Qed.

Definition shard_count (n : nat) (maxShardSize : Z) : nat :=
  ((n + chunk_size maxShardSize - 1) / chunk_size maxShardSize)%nat.

Lemma shards_are symbols m : symbols ≠ [] →
  let c := shard_count (length symbols) m in
  (0 < c)%nat ∧ length (shardSymbols symbols m) = c ∧
  ∀ k, (k < c)%nat → shardSymbols symbols m !! k = Some (every c k 0 symbols).
Proof.
  intros Hne c. pose proof (chunk_size_pos m) as Hm.
  assert (0 < c)%nat as Hc.
  { unfold c, shard_count. apply Nat.div_str_pos. destruct symbols; [done|]. simpl. lia. }
  destruct symbols as [|s symbols']; [done|]. set (symbols := s :: symbols') in *.
  assert (shardSymbols symbols m = foldl (deal c) (replicate c []) (imap (λ i s, (0 + i, s)%nat) symbols)) as ->.
  { unfold symbols at 1. cbn [shardSymbols]. fold symbols. unfold c, shard_count. f_equal. }
  split_and!; [done| |].
  - clear. remember (imap _ _) as entries. clear. revert entries.
    assert (∀ entries shards, length (foldl (deal c) shards entries) = length shards) as Hg.
    { induction entries as [|e entries IH]; intros shards; simpl; [done|]. by rewrite IH, deal_length. }
    intros entries. by rewrite Hg, length_replicate.
  - intros k Hk. rewrite deal_all; [|done|apply length_replicate|done].
    rewrite lookup_replicate_2 by done. done.
Qed.

Lemma every_app c k l l' index : every c k index (l ++ l') = every c k index l ++ every c k (index + length l) l'.
Proof.
  revert index. induction l as [|x l IH]; intros index; simpl; [by rewrite Nat.add_0_r|].
  rewrite IH, app_assoc. do 2 f_equal. lia.
Qed.

Lemma div_succ m c : (0 < c)%nat → (S m / c = m / c + (if m mod c =? c - 1 then 1 else 0))%nat.
Proof.
  intros Hc. pose proof (Nat.div_mod_eq m c) as Hm. pose proof (Nat.mod_upper_bound m c ltac:(lia)) as Hb.
  set (a := (m / c)%nat) in *. set (b := (m mod c)%nat) in *. symmetry.
  destruct (b =? c - 1)%nat eqn:E; [apply Nat.eqb_eq in E|apply Nat.eqb_neq in E].
  - apply (Nat.div_unique _ _ _ 0); nia.
  - apply (Nat.div_unique _ _ _ (S b)); nia.
Qed.

Lemma last_of_cycle c k n : (k < c)%nat → ((n + (c - 1 - k)) mod c =? c - 1)%nat = (n mod c =? k)%nat.
Proof.
  intros Hk. apply eq_bool_prop_intro. rewrite !Is_true_true, !Nat.eqb_eq. set (m := (n + (c - 1 - k))%nat).
  pose proof (Nat.div_mod_eq m c) as Hm. pose proof (Nat.div_mod_eq n c) as Hn. split; intros E.
  - symmetry. apply (Nat.mod_unique _ _ (m / c)%nat); [done|]. rewrite E in Hm. unfold m in *. nia.
  - symmetry. apply (Nat.mod_unique _ _ (n / c)%nat); [lia|]. rewrite E in Hn. unfold m. nia.
Qed.

(** How many positions are [k] modulo [c]. *)
Lemma every_length c k symbols : (k < c)%nat → length (every c k 0 symbols) = ((length symbols + (c - 1 - k)) / c)%nat.
Proof.
  intros Hk. induction symbols as [|s symbols IH] using rev_ind.
  - simpl. symmetry. apply Nat.div_small. lia.
  - rewrite every_app, !length_app, IH. simpl. rewrite app_nil_r. set (n := length symbols).
    replace (n + 1 + (c - 1 - k))%nat with (S (n + (c - 1 - k))) by lia.
    rewrite div_succ, last_of_cycle by lia. by destruct (n mod c =? k)%nat.
Qed.

Lemma every_concat c symbols : (0 < c)%nat → concat ((λ k, every c k 0 symbols) <$> seq 0 c) ≡ₚ symbols.
Proof.
  intros Hc. induction symbols as [|s symbols IH] using rev_ind.
  - simpl. clear. induction (seq 0 c); [done|by simpl].
  - set (i := (length symbols mod c)%nat). assert (i < c)%nat as Hi by (apply Nat.mod_upper_bound; lia).
    assert (∀ ks, concat ((λ k, every c k 0 (symbols ++ [s])) <$> ks) ≡ₚ
              concat ((λ k, every c k 0 symbols) <$> ks) ++ concat ((λ k, if (i =? k)%nat then [s] else []) <$> ks)) as Hks.
    { induction ks as [|k ks IHks]; [done|]. csimpl. rewrite every_app, IHks. simpl. rewrite app_nil_r. fold i. solve_Permutation. }
    rewrite Hks, IH. f_equiv. clear -Hi.
    replace c with (i + S (c - i - 1))%nat by lia. rewrite seq_app, fmap_app, concat_app. simpl. rewrite Nat.eqb_refl.
    assert (∀ ks, i ∉ ks → concat ((λ k, if (i =? k)%nat then [s] else []) <$> ks) = []) as Hno.
    { induction ks as [|k ks IHks]; [done|]. intros Hn. csimpl. rewrite not_elem_of_cons in Hn. destruct Hn as [Hk Hn].
      apply Nat.eqb_neq in Hk as ->. by apply IHks. }
    rewrite !Hno; [done| |]; rewrite elem_of_seq; lia.
Qed.

(** The shards of a static stream hold each symbol exactly once.  There are as few
    as the size allows, none is larger than it, and their sizes differ by at most one:
    shard [k] gets the symbols at the positions [k] modulo the number of shards. *)
Theorem shards_partition symbols maxShardSize :
  let shards := shardSymbols symbols maxShardSize in
  concat shards ≡ₚ symbols ∧
  length shards = shard_count (length symbols) maxShardSize ∧
  (∀ n : nat, (length symbols <= n * chunk_size maxShardSize)%nat → (length shards <= n)%nat) ∧
  ∀ k shard, shards !! k = Some shard → shard = every (length shards) k 0 symbols ∧
    (length symbols / length shards <= length shard <= chunk_size maxShardSize)%nat ∧
    (length shard <= length symbols / length shards + 1)%nat.
Proof.
  intros shards. pose proof (chunk_size_pos maxShardSize) as Hm. set (m := chunk_size maxShardSize) in *.
  destruct (decide (symbols = [])) as [->|Hne].
  { subst shards. simpl. split_and!; [done| |lia|done]. unfold shard_count. fold m. symmetry. apply Nat.div_small. simpl. lia. }
  destruct (shards_are symbols maxShardSize Hne) as (Hc & Hl & Hk). fold shards in Hl, Hk.
  set (c := shard_count (length symbols) maxShardSize) in *. set (n := length symbols) in *.
  assert (∀ q : nat, (n <= q * m)%nat → (c <= q)%nat) as Hmin.
  { intros q Hq. unfold c, shard_count. fold m. apply Nat.lt_succ_r, Nat.div_lt_upper_bound; nia. }
  assert (n <= c * m)%nat as Hcap.
  { unfold c, shard_count. fold m. pose proof (Nat.div_mod_eq (n + m - 1) m).
    pose proof (Nat.mod_upper_bound (n + m - 1) m ltac:(lia)). nia. }
  assert (shards = (λ k, every c k 0 symbols) <$> seq 0 c) as Hs.
  { apply list_eq. intros k. rewrite list_lookup_fmap. destruct (decide (k < c)%nat) as [Hkc|Hkc].
    - rewrite Hk by done. by rewrite lookup_seq_lt by done.
    - rewrite lookup_ge_None_2 by lia. rewrite lookup_seq_ge by lia. done. }
  split_and!; [rewrite Hs; by apply every_concat|done|rewrite Hl; apply Hmin|].
  intros k shard Hsh. assert (k < c)%nat as Hkc by (rewrite <- Hl; by eapply lookup_lt_Some).
  rewrite Hk in Hsh by done. injection Hsh as <-. rewrite Hl, every_length by done. fold n. split; [done|].
  split; [split|].
  - apply Nat.Div0.div_le_mono; lia.
  - apply Nat.lt_succ_r, Nat.div_lt_upper_bound; nia.
  - rewrite <- Nat.div_add by lia. apply Nat.Div0.div_le_mono; lia.
Qed.

Definition sample_symbols : list string := ["BTCUSDT"; "ETHUSDT"; "SOLUSDT"; "XRPUSDT"; "ADAUSDT"].

Example shards_partition_witness :
  shardSymbols sample_symbols 2 = [["BTCUSDT"; "XRPUSDT"]; ["ETHUSDT"; "ADAUSDT"]; ["SOLUSDT"]] ∧
  concat (shardSymbols sample_symbols 2) ≡ₚ sample_symbols.
Proof. split; [vm_compute; reflexivity|]. exact (proj1 (shards_partition sample_symbols 2)). Defined.

(** ** Subscriptions *)

Lemma diffSymbols_spec current next subscribe unsubscribe : diffSymbols current next = (subscribe, unsubscribe) →
  list_to_set subscribe = symbol_set next ∖ symbol_set current ∧ NoDup subscribe ∧
  list_to_set unsubscribe = symbol_set current ∖ symbol_set next ∧ NoDup unsubscribe.
Proof.
  unfold diffSymbols. intros [= <- <-].
  assert (∀ X : gset string, list_to_set (sort_slice string_less (elements X)) = X ∧ NoDup (sort_slice string_less (elements X))) as Hs.
  { intros X. split; [|rewrite sort_slice_perm; apply NoDup_elements]. apply set_eq. intros s.
    by rewrite elem_of_list_to_set, sort_slice_perm, elem_of_elements. }
  pose proof (Hs (symbol_set next ∖ symbol_set current)). pose proof (Hs (symbol_set current ∖ symbol_set next)). tauto.
Qed.

Lemma sameSymbols_spec current next : sameSymbols current next = true ↔ symbol_set current = symbol_set next.
Proof.
  unfold sameSymbols. destruct (diffSymbols current next) as [subscribe unsubscribe] eqn:E.
  destruct (diffSymbols_spec _ _ _ _ E) as (Hs & _ & Hu & _). rewrite andb_true_iff, !Nat.eqb_eq, !length_zero_iff_nil. split.
  - intros [-> ->]. simpl in Hs, Hu. generalize dependent (symbol_set current). generalize dependent (symbol_set next). clear.
    intros n c Hs Hu. apply set_eq. intros s. destruct (decide (s ∈ c)), (decide (s ∈ n)); set_solver.
  - intros Heq. rewrite Heq, difference_diag_L in Hs, Hu.
    split; [destruct subscribe as [|x l]|destruct unsubscribe as [|x l]]; set_solver.
Qed.

(** A request to the stream server: the symbols to add or to remove, and its id. *)
Record request_ : Type := mkRequest { adds : bool; names : list string; id : Z }.

(** What the server sends candles of after a request. *)
Definition served (S : gset string) (q : request_) : gset string :=
  if q.(adds) then S ∪ list_to_set q.(names) else S ∖ list_to_set q.(names).

Section sync.
Context {A : Type} `{Adapter A} (r : Runner).

Definition payload_of (a : A) (q : request_) : result go_error any :=
  if q.(adds) then BuildSubscribePayload a q.(names) q.(id) else BuildUnsubscribePayload a q.(names) q.(id).

(** The payloads written, in order. *)
Definition written (c : call collectorE) : option any :=
  match c with
  | Call e _ => match e with WriteMessage payload => Some payload | _ => None end
  end.

(** The requests of a loop over chunks. *)
Fixpoint requests (add : bool) (chunks : list (list string)) (id : Z) : list request_ :=
  match chunks with
  | [] => []
  | chunk :: rest => mkRequest add chunk id :: requests add rest (i64 (id + 1))
  end.

Definition silent (p : cprog unit) : Prop := ∀ tr x, runs p tr x → omap written tr = [].

Lemma send_chunks_run (a : A) (add : bool) between chunks id tr id' :
  silent between →
  runs (send_chunks (if add then BuildSubscribePayload a else BuildUnsubscribePayload a) between chunks id) tr (id', None) →
  Forall2 (λ q payload, payload_of a q = Ok payload) (requests add chunks id) (omap written tr).
Proof.
  intros Hb. revert id tr. induction chunks as [|chunk rest IH]; intros id tr Hr; cbn [send_chunks requests] in *.
  - apply runs_Ret in Hr as [-> _]. constructor.
  - destruct ((if add then BuildSubscribePayload a else BuildUnsubscribePayload a) chunk id) as [payload|e] eqn:Ep; [|by apply runs_Ret in Hr as [_ ?]].
    apply runs_bind in Hr as (tr1 & err & tr2 & -> & Hw & Hr). apply runs_trigger in Hw as ->.
    destruct err as [e|]; [by apply runs_Ret in Hr as [_ ?]|].
    apply runs_bind in Hr as (tr1 & u & tr3 & -> & Hu & Hr). rewrite !omap_app. cbn. constructor.
    + unfold payload_of. cbn. by destruct add.
    + assert (omap written tr1 = []) as -> by (destruct rest; [by apply runs_Ret in Hu as [-> _]|by eapply Hb]).
      by apply IH.
Qed.

Lemma served_chunks (add : bool) chunks id S :
  foldl served S (requests add chunks id) =
  if add then S ∪ list_to_set (concat chunks) else S ∖ list_to_set (concat chunks).
Proof.
  revert id S. induction chunks as [|chunk rest IH]; intros id S; cbn [requests foldl concat].
  - destruct add; set_solver.
  - rewrite IH. unfold served. cbn. rewrite list_to_set_app_L. destruct add; set_solver.
Qed.

Lemma requests_sizes add chunks id n : (∀ chunk, chunk ∈ chunks → (0 < length chunk <= n)%nat) →
  Forall (λ q, (0 < length q.(names) <= n)%nat) (requests add chunks id).
Proof.
  revert id. induction chunks as [|chunk rest IH]; intros id Hc; cbn [requests]; constructor; [apply Hc; by left|].
  apply IH. intros c ?. apply Hc. by right.
Qed.

(** What writes nothing to the server. *)
Lemma mute_basic c : basic c → written c = None.
Proof. destruct c as [X e x]. by destruct e. Qed.
Lemma mute_refreshSymbols a tr x : runs (refreshSymbols r a) tr x → omap written tr = [].
Proof. intros Hr. by eapply only_omap, only_refreshSymbols; [apply mute_basic|]. Qed.
Lemma mute_ReadMessage tr x : runs default_ReadMessage tr x → omap written tr = [].
Proof. intros Hr. by eapply only_omap, only_ReadMessage; [apply mute_basic| |]. Qed.
Lemma mute_handle a h doc tr x : runs (handle_message r a h doc) tr x → omap written tr = [].
Proof. intros Hr. by eapply only_omap, only_handle; [apply mute_basic| |]. Qed.

(** The requests that were written, and what the server serves after them. *)
Definition requested (a : A) (n : Z) (tr : list (call collectorE)) (S S' : gset string) : Prop :=
  ∃ qs, Forall2 (λ q payload, payload_of a q = Ok payload) qs (omap written tr) ∧ foldl served S qs = S' ∧
    Forall (λ q, (0 < length q.(names) <= chunk_size n)%nat) qs.

Lemma requested_app a n tr1 tr2 S1 S2 S3 : requested a n tr1 S1 S2 → requested a n tr2 S2 S3 → requested a n (tr1 ++ tr2) S1 S3.
Proof.
  intros (qs1 & H1 & <- & Hs1) (qs2 & H2 & <- & Hs2). exists (qs1 ++ qs2). split_and!.
  - rewrite omap_app. by apply Forall2_app.
  - by rewrite foldl_app.
  - by apply Forall_app.
Qed.

Lemma requested_mute a n tr S : omap written tr = [] → requested a n tr S S.
Proof. intros Hm. exists []. rewrite Hm. by repeat constructor. Qed.

Lemma send_requested (a : A) (add : bool) between symbols id n tr id' S :
  silent between →
  runs (send_chunks (if add then BuildSubscribePayload a else BuildUnsubscribePayload a) between (chunkSymbols symbols n) id)
    tr (id', None) →
  requested a n tr S (if add then S ∪ list_to_set symbols else S ∖ list_to_set symbols).
Proof.
  intros Hb Hr. exists (requests add (chunkSymbols symbols n) id). split_and!.
  - by eapply send_chunks_run.
  - by rewrite served_chunks, chunkSymbols_concat.
  - apply requests_sizes. intros chunk. apply chunks_sizes, chunk_size_pos.
Qed.

Lemma silent_pause d : silent (trigger (Pause d)).
Proof. by intros tr x ->%runs_trigger. Qed.
Lemma silent_nothing : silent (Ret tt).
Proof. by intros tr x [-> _]%runs_Ret. Qed.

Lemma sync_requested a current next id n tr id' ns nu :
  runs (syncSubscriptions a current next id n) tr (id', ns, nu, None) →
  requested a n tr (symbol_set current) (symbol_set next).
Proof.
  unfold syncSubscriptions. destruct (diffSymbols current next) as [subscribe unsubscribe] eqn:E.
  destruct (diffSymbols_spec _ _ _ _ E) as (Hs & _ & Hu & _).
  intros (tr1 & [id1 err] & tr2 & -> & H1 & Hr)%runs_bind. destruct err as [e|]; [by apply runs_Ret in Hr as [_ ?]|].
  apply runs_bind in Hr as (tr3 & [id2 err] & tr4 & -> & H2 & [-> Heq]%runs_Ret). rewrite app_nil_r.
  cbn in Heq. injection Heq as _ _ _ <-.
  eapply requested_app; [exact (send_requested a false _ _ _ _ _ _ _ silent_nothing H1)|].
  apply (send_requested a true _ _ _ _ _ _ (symbol_set current ∖ list_to_set unsubscribe) silent_nothing) in H2.
  rewrite Hu in H2 |- *. rewrite Hs in H2.
  assert (symbol_set current ∖ (symbol_set current ∖ symbol_set next) ∪ symbol_set next ∖ symbol_set current = symbol_set next) as Heq2; [|by rewrite Heq2 in H2].
  apply set_eq. intros s. destruct (decide (s ∈ symbol_set current)), (decide (s ∈ symbol_set next)); set_solver.
Qed.

Lemma refresh_due_requested cfg s tr s' :
  runs (refresh_due r cfg s) tr (s', None) →
  requested s'.(adapter) cfg.(Config.SubscriptionChunkSize) tr (symbol_set s.(symbols)) (symbol_set s'.(symbols)).
Proof.
  unfold refresh_due. destruct (0 <? _); [|intros [-> [= ->]]%runs_Ret; by apply requested_mute].
  intros (tr1 & now & tr2 & -> & ->%runs_trigger & Hr)%runs_bind.
  apply (requested_app _ _ _ _ _ (symbol_set s.(symbols))); [by apply requested_mute|].
  destruct (now <? _); [apply runs_Ret in Hr as [-> [= ->]]; by apply requested_mute|].
  unfold refreshConnectionSubscriptions in Hr.
  apply runs_bind in Hr as (tr1 & [[[next id'] err] a] & tr3 & -> & Hc & Hr).
  destruct err as [e|]; [by apply runs_Ret in Hr as [_ ?]|].
  apply runs_bind in Hr as (tr4 & now' & tr5 & -> & ->%runs_trigger & [-> [= ->]]%runs_Ret). cbn [adapter symbols].
  apply (requested_app _ _ _ _ _ (symbol_set next)); [|by apply requested_mute].
  apply runs_bind in Hc as (tr6 & [fetched a'] & tr7 & -> & Hf & Hc). apply mute_refreshSymbols in Hf.
  destruct fetched as [[|s0 l]|e]; [by apply runs_Ret in Hc as [_ ?]| |by apply runs_Ret in Hc as [_ ?]].
  apply runs_bind in Hc as (tr8 & [[[id1 ns] nu] err] & tr9 & -> & Hsync & Hc).
  destruct err as [e|]; apply runs_Ret in Hc as [-> Hc]; [done|]. injection Hc as -> -> ->. rewrite app_nil_r.
  apply (requested_app _ _ _ _ _ (symbol_set s.(symbols))); [by apply requested_mute|]. by eapply sync_requested.
Qed.

(** C31: the stream server serves exactly the active symbols.  After the first
    subscription it serves the symbols of the collector; after each round of the loop
    it serves the symbols the collector then has, whatever was refreshed in between;
    every request names at least one symbol and no more than the chunk size. *)
Theorem subscriptions_follow (a : A) cfg :
  (∀ symbols_ id tr id', runs (sendSubscriptions a symbols_ id cfg.(Config.SubscriptionChunkSize)) tr (id', None) →
     requested a cfg.(Config.SubscriptionChunkSize) tr ∅ (list_to_set symbols_)) ∧
  (∀ s tr s', runs (stream_step r cfg s) tr (inl s') →
     requested s'.(adapter) cfg.(Config.SubscriptionChunkSize) tr (symbol_set s.(symbols)) (symbol_set s'.(symbols))).
Proof.
  split.
  { intros symbols_ id tr id' Hsend. apply (send_requested a true _ _ _ _ _ _ ∅ (silent_pause _)) in Hsend.
    by rewrite union_empty_l_L in Hsend. }
  intros s tr s' Hstep.
  unfold stream_step in Hstep. apply runs_bind in Hstep as (tr1 & c & tr2 & -> & ->%runs_trigger & Hstep).
  apply (requested_app _ _ _ _ _ (symbol_set s.(symbols))); [by apply requested_mute|].
  destruct c as [e|]; [by apply runs_Ret in Hstep as [_ ?]|].
  apply runs_bind in Hstep as (tr1 & [s1 err] & tr3 & -> & Hdue & Hstep).
  destruct err as [e|]; [by apply runs_Ret in Hstep as [_ ?]|]. apply refresh_due_requested in Hdue.
  assert (omap written tr3 = [] ∧ s'.(adapter) = s1.(adapter) ∧ s'.(symbols) = s1.(symbols)) as (Hm & -> & ->).
  { apply runs_bind in Hstep as (tr4 & now & tr5 & -> & ->%runs_trigger & Hstep).
    apply runs_bind in Hstep as (tr6 & x & tr7 & -> & ->%runs_trigger & Hstep).
    apply runs_bind in Hstep as (tr8 & message & tr9 & -> & Hread%mute_ReadMessage & Hstep).
    destruct message as [doc|e]; [|by apply runs_Ret in Hstep as [_ ?]].
    apply runs_bind in Hstep as (tr10 & [h err] & tr11 & -> & Hh%mute_handle & [-> Heq]%runs_Ret).
    destruct err as [e|]; [done|]. injection Heq as ->. rewrite app_nil_r, !omap_app, Hread, Hh. done. }
  eapply requested_app; [exact Hdue|]. by apply requested_mute.
Qed.
End sync.
