(* ===== verification/CollectorConnections.v ===== *)
(** * Connections are closed

    The connections, the heartbeats and the observer's gauge of a collector go up and
    down together: never more than one, and none in the end. *)

From S2P Require Export CollectorSpec.

Local Open Scope string_scope.
Local Open Scope Z_scope.
Local Open Scope list_scope.

(** ** Connections *)

(** The sum of what the calls of a trace add. *)
Fixpoint level (f : call collectorE → Z) (tr : list (call collectorE)) : Z :=
  match tr with [] => 0 | c :: tr => f c + level f tr end.

(** At every moment at most one is open, and in the end none. *)
Definition steady (f : call collectorE → Z) (tr : list (call collectorE)) : Prop :=
  level f tr = 0 ∧ ∀ tr1 tr2, tr = tr1 ++ tr2 → 0 <= level f tr1 <= 1.

(** Open connections, the gauge of the observer, running heartbeats. *)
Definition connection (c : call collectorE) : Z :=
  match c with
  | Call e x =>
      match e in collectorE X return X → Z with
      | Dial _ => fun err => match err with None => 1 | Some _ => 0 end
      | CloseConn => fun _ => -1
      | _ => fun _ => 0
      end x
  end.
Definition gauge (c : call collectorE) : Z :=
  match c with Call e _ => match e with Observe _ _ (CollectorConnection delta) => delta | _ => 0 end end.
Definition heartbeats (c : call collectorE) : Z :=
  match c with Call e _ => match e with StartHeartbeat _ => 1 | StopHeartbeat => -1 | _ => 0 end end.

Lemma level_app f tr1 tr2 : level f (tr1 ++ tr2) = level f tr1 + level f tr2.
Proof. induction tr1 as [|c tr1 IH]; simpl; [done|]. rewrite IH. lia. Qed.

#[export] Instance steady_trace f : TraceProp (steady f).
Proof.
  split.
  - split; [done|]. intros [|c tr1] tr2 ?; [simpl; lia|done].
  - intros t1 t2 [H1 P1] [H2 P2]. split; [rewrite level_app; lia|]. intros tr1 tr2 E.
    apply app_eq_app in E as [l [[-> ->]|[-> ->]]].
    + by eapply P1.
    + rewrite level_app, H1. specialize (P2 l tr2 eq_refl). lia.
Qed.

(** The calls inside a connection or between two: they are not counted. *)
Definition inner (c : call collectorE) : Prop :=
  match c with
  | Call e _ =>
      match e with
      | Dial _ | CloseConn | Wait _ | StartHeartbeat _ | StopHeartbeat | Observe _ _ (CollectorConnection _) => False
      | _ => True
      end
  end.

Definition still (f : call collectorE → Z) (tr : list (call collectorE)) : Prop := all_calls (λ c, f c = 0) tr.
#[export] Instance still_trace f : TraceProp (still f) := all_calls_trace _.

Lemma still_level f tr : still f tr → level f tr = 0.
Proof. induction 1 as [|c tr Hc _ IH]; simpl; lia. Qed.

Lemma still_steady f tr : still f tr → steady f tr.
Proof.
  intros Hs. split; [by apply still_level|]. intros tr1 tr2 ->. apply Forall_app in Hs as [Hs _].
  rewrite still_level by done. lia.
Qed.

Lemma steady_bracket f c1 tr c2 : f c1 = 1 → f c2 = -1 → still f tr → steady f (c1 :: tr ++ [c2]).
Proof.
  intros H1 H2 Hs. split; [simpl; rewrite level_app, still_level by done; simpl; lia|].
  intros [|c tr1] tr2 E; [simpl; lia|]. injection E as <- E. simpl. rewrite H1.
  apply app_eq_app in E as [l [[-> _]|[-> E]]].
  - apply Forall_app in Hs as [Hs _]. rewrite still_level by done. lia.
  - rewrite level_app, (still_level f tr) by done. symmetry in E. apply app_eq_unit in E as [[-> _]|[-> _]]; simpl; lia.
Qed.

Definition counter (f : call collectorE → Z) : Prop := ∀ c, inner c → f c = 0.
Lemma counter_connection : counter connection. Proof. intros [X e x]. by destruct e as [| | | | | | |? ? []| | | | | | | | | | | | | | | | | |]. Qed.
Lemma counter_gauge : counter gauge. Proof. intros [X e x]. by destruct e as [| | | | | | |? ? []| | | | | | | | | | | | | | | | | |]. Qed.
Lemma counter_heartbeats : counter heartbeats. Proof. intros [X e x]. by destruct e as [| | | | | | |? ? []| | | | | | | | | | | | | | | | | |]. Qed.

Section connections.
Context {A : Type} `{Adapter A} (r : Runner).
Notation plain := (each (all_calls inner)).

Lemma inner_basic c : basic c → inner c.
Proof. destruct c as [X e x]. by destruct e. Qed.

Lemma plain_trigger {X} (e : collectorE X) : (∀ x, inner (Call e x)) → plain (trigger e).
Proof. apply only_trigger. Qed.
Lemma plain_health cfg : plain (newReconnectHealth cfg).
Proof. apply only_health, inner_basic. Qed.
Lemma plain_sendSubscriptions (a : A) symbols id n : plain (sendSubscriptions a symbols id n).
Proof. apply only_sendSubscriptions; [apply inner_basic|done]. Qed.
Lemma plain_refreshSymbols a : plain (refreshSymbols r a).
Proof. apply only_refreshSymbols, inner_basic. Qed.
Lemma plain_static a symbols cfg : plain (connectStaticStreams r a symbols cfg).
Proof. apply only_static, inner_basic. Qed.
Lemma plain_observe a o : match o with CollectorConnection _ => False | _ => True end → plain (observe r a o).
Proof. apply only_observe, inner_basic. Qed.
#[local] Hint Extern 1 (each _ (trigger _)) => (apply plain_trigger; intros ?; exact I) : each.
#[local] Hint Extern 1 (each _ (observe _ _ _)) => (apply plain_observe; exact I) : each.
Lemma plain_stream_loop cfg s : plain (endless (stream_step r cfg) s).
Proof.
  pose proof (only_refresh_due r inner inner_basic (λ _ _, I) cfg). pose proof (only_ReadMessage inner inner_basic (λ _, I)).
  pose proof (only_handle r inner inner_basic (λ _ _, I)).
  apply each_endless; [typeclasses eauto|]. intros s'. unfold stream_step.
  each_auto.
Qed.
Lemma plain_static_loop a pongWait h : plain (endless (static_step r a pongWait) h).
Proof.
  pose proof (only_static_ReadMessage inner inner_basic (λ _, I) pongWait). pose proof (only_handle r inner inner_basic (λ _ _, I)).
  apply each_endless; [typeclasses eauto|]. intros h'. unfold static_step, read_error. each_auto.
Qed.

Lemma plain_still {R} f (p : cprog R) : counter f → plain p → each (still f) p.
Proof. intros Hf Hp tr x Hr. apply Hp in Hr. eapply Forall_impl; [exact Hr|]. apply Hf. Qed.
Lemma plain_steady {R} f (p : cprog R) : counter f → plain p → each (steady f) p.
Proof. intros Hf Hp tr x Hr. apply still_steady. by eapply plain_still. Qed.

(** What is not counted of the observations. *)
Lemma still_observe f a o : (∀ e m x, f (Call (Observe e m o) x) = 0) → each (still f) (observe r a o).
Proof.
  intros Hf. unfold observe. destruct (Runner.observer r); [|each_auto]. intros tr x ->%runs_trigger. by repeat constructor.
Qed.

(** A gauge that goes up, something not counted, and a gauge that goes down. *)
Lemma gauge_bracket a a' tr1 tr tr2 :
  runs (observe r a (CollectorConnection 1)) tr1 tt → still gauge tr → runs (observe r a' (CollectorConnection (-1))) tr2 tt →
  steady gauge (tr1 ++ tr ++ tr2).
Proof.
  unfold observe. destruct (Runner.observer r).
  - intros ->%runs_trigger Hs ->%runs_trigger. by apply steady_bracket.
  - intros [-> _]%runs_Ret Hs [-> _]%runs_Ret. rewrite app_nil_r. by apply still_steady.
Qed.

(** Calls that only the gauge counts. *)
Definition silent_counter (f : call collectorE → Z) : Prop :=
  counter f ∧ ∀ d e m x, f (Call (Observe e m (CollectorConnection d)) x) = 0.

Lemma run_stream_still f a symbols cfg : silent_counter f → each (still f) (run_stream r a symbols cfg).
Proof.
  intros [Hf Hg]. unfold run_stream.
  pose proof (plain_still f _ Hf (plain_health cfg)) as Hh. pose proof (plain_still f _ Hf (plain_trigger Time (λ _, I))) as Ht.
  apply each_bind; [typeclasses eauto|exact Hh|intros h]. apply each_bind; [typeclasses eauto|exact Ht|intros now].
  apply each_bind; [typeclasses eauto|by apply plain_still, plain_sendSubscriptions|intros [id [e|]]]; [apply each_Ret; typeclasses eauto|].
  apply each_bind; [typeclasses eauto|by apply still_observe|intros _]. apply each_bind; [typeclasses eauto|exact Ht|intros now'].
  apply each_bind; [typeclasses eauto|by apply plain_still, plain_stream_loop|intros [[h' e] a']].
  apply each_bind; [typeclasses eauto|by apply still_observe|intros _]. apply each_Ret; typeclasses eauto.
Qed.

Lemma run_stream_gauge a symbols cfg : each (steady gauge) (run_stream r a symbols cfg).
Proof.
  unfold run_stream. pose proof counter_gauge as Hf.
  apply each_bind; [typeclasses eauto|by apply plain_steady, plain_health|intros h].
  apply each_bind; [typeclasses eauto|by apply plain_steady, plain_trigger|intros now].
  apply each_bind; [typeclasses eauto|by apply plain_steady, plain_sendSubscriptions|intros [id [e|]]]; [apply each_Ret; typeclasses eauto|].
  intros tr x (t1 & [] & t2 & -> & H1 & Hr)%runs_bind. apply runs_bind in Hr as (t3 & now' & t4 & -> & ->%runs_trigger & Hr).
  apply runs_bind in Hr as (t5 & [[h' e] a'] & t6 & -> & Hl & Hr). apply runs_bind in Hr as (t7 & [] & t8 & -> & H2 & [-> _]%runs_Ret).
  rewrite app_nil_r, (app_assoc [_] t5). eapply gauge_bracket; [exact H1| |exact H2].
  apply Forall_app. split; [by repeat constructor|]. exact (plain_still _ _ Hf (plain_stream_loop _ _) _ _ Hl).
Qed.

Lemma run_static_still f a cfg : silent_counter f → (∀ i x, f (Call (StartHeartbeat i) x) = 0) → (∀ x, f (Call StopHeartbeat x) = 0) →
  each (still f) (run_static r a cfg).
Proof.
  intros [Hf Hg] Hs He. unfold run_static. destruct (websocketHeartbeatDurations cfg) as [ping pong].
  apply each_bind; [typeclasses eauto|by apply plain_still, plain_health|intros h].
  apply each_bind; [typeclasses eauto|by apply plain_still, plain_trigger|intros now].
  apply each_bind; [typeclasses eauto|by apply plain_still, plain_trigger|intros [e|]]; [apply each_Ret; typeclasses eauto|].
  apply each_bind; [typeclasses eauto|apply each_trigger; by repeat constructor|intros _].
  apply each_bind; [typeclasses eauto|by apply still_observe|intros _].
  apply each_bind; [typeclasses eauto|by apply plain_still, plain_static_loop|intros [h' e]].
  apply each_bind; [typeclasses eauto|by apply still_observe|intros _].
  apply each_bind; [typeclasses eauto|apply each_trigger; by repeat constructor|intros _]. apply each_Ret; typeclasses eauto.
Qed.

(** The part of [run_static] after the deadline was set. *)
Lemma run_static_session f a cfg (Q : list (call collectorE) → Prop) :
  counter f → (∀ tr, still f tr → Q tr) →
  (∀ t i x t1 t2 t3 y, all_calls inner t → runs (observe r a (CollectorConnection 1)) t1 tt → all_calls inner t2 →
     runs (observe r a (CollectorConnection (-1))) t3 tt →
     Q (t ++ [Call (StartHeartbeat i) x] ++ t1 ++ t2 ++ t3 ++ [Call StopHeartbeat y])) →
  each Q (run_static r a cfg).
Proof.
  intros Hf Hq Hs tr x Hr. unfold run_static in Hr. destruct (websocketHeartbeatDurations cfg) as [ping pong].
  apply runs_bind in Hr as (t1 & h & t2 & -> & Hh%plain_health & Hr).
  apply runs_bind in Hr as (t3 & now & t4 & -> & Hn%(plain_trigger Time (λ _, I)) & Hr).
  apply runs_bind in Hr as (t5 & err & t6 & -> & Hd%(plain_trigger (SetReadDeadline _) (λ _, I)) & Hr).
  assert (all_calls inner (t1 ++ t3 ++ t5)) as Hp by (apply Forall_app; split; [done|by apply Forall_app]).
  destruct err as [e|].
  - apply runs_Ret in Hr as [-> _]. apply Hq. rewrite app_nil_r. eapply Forall_impl; [exact Hp|apply Hf].
  - apply runs_bind in Hr as (t7 & u & t8 & -> & ->%runs_trigger & Hr).
    apply runs_bind in Hr as (t9 & [] & t10 & -> & Ho & Hr). apply runs_bind in Hr as (t11 & [h' e] & t12 & -> & Hl%plain_static_loop & Hr).
    apply runs_bind in Hr as (t13 & [] & t14 & -> & Hc & Hr). apply runs_bind in Hr as (t15 & v & t16 & -> & ->%runs_trigger & [-> _]%runs_Ret).
    rewrite app_nil_r. rewrite (app_assoc t3), (app_assoc t1). by apply Hs.
Qed.

Lemma still_inner f tr : counter f → all_calls inner tr → still f tr.
Proof. intros Hf Hi. eapply Forall_impl; [exact Hi|apply Hf]. Qed.

Lemma run_static_gauge a cfg : each (steady gauge) (run_static r a cfg).
Proof.
  apply (run_static_session gauge); [apply counter_gauge|apply still_steady|].
  intros t i x t1 t2 t3 y Ht H1 H2 H3. pose proof counter_gauge as Hf.
  apply trace_app; [by apply still_steady, still_inner|]. apply trace_app; [by apply still_steady; repeat constructor|].
  rewrite !(app_assoc t1), (app_assoc (t1 ++ t2)). apply trace_app; [|by apply still_steady; repeat constructor].
  rewrite <- app_assoc. eapply gauge_bracket; [exact H1|by apply still_inner|exact H3].
Qed.

Lemma run_static_heartbeats a cfg : each (steady heartbeats) (run_static r a cfg).
Proof.
  apply (run_static_session heartbeats); [apply counter_heartbeats|apply still_steady|].
  intros t i x t1 t2 t3 y Ht H1 H2 H3. pose proof counter_heartbeats as Hf.
  apply trace_app; [by apply still_steady, still_inner|]. rewrite (app_assoc t2), (app_assoc t1).
  apply steady_bracket; [done|done|].
  apply Forall_app; split; [|apply Forall_app; split; [by apply still_inner|]].
  - by apply (still_observe heartbeats a (CollectorConnection 1) ltac:(done) _ _ H1).
  - by apply (still_observe heartbeats a (CollectorConnection (-1)) ltac:(done) _ _ H3).
Qed.

Lemma silent_heartbeats : silent_counter heartbeats.
Proof. split; [apply counter_heartbeats|done]. Qed.
Lemma silent_connection : silent_counter connection.
Proof. split; [apply counter_connection|done]. Qed.

(** A connection is closed after its use. *)
Lemma connected_connection {R} a url (refused : go_error → R) (body : cprog R) :
  each (still connection) body → each (steady connection) (connected r a url refused body).
Proof.
  intros Hb tr x Hr. unfold connected in Hr. apply runs_bind in Hr as (t1 & err & t2 & -> & ->%runs_trigger & Hr).
  apply runs_bind in Hr as (t3 & u & t4 & -> & Ho & Hr).
  assert (still connection t3) as Hs by by apply (still_observe connection a (CollectorConnectAttempt (bool_decide (err = None))) ltac:(done) _ _ Ho).
  destruct err as [e|].
  - apply runs_Ret in Hr as [-> _]. apply still_steady. apply Forall_app. split; [by repeat constructor|]. by rewrite app_nil_r.
  - apply runs_bind in Hr as (t5 & y & t6 & -> & Hbody & Hr). apply runs_bind in Hr as (t7 & v & t8 & -> & ->%runs_trigger & [-> _]%runs_Ret).
    rewrite app_nil_r, (app_assoc t3). apply steady_bracket; [done|done|]. apply Forall_app. split; [done|by eapply Hb].
Qed.

Lemma connected_other {R} f a url (refused : go_error → R) (body : cprog R) :
  (∀ x, f (Call (Dial url) x) = 0) → (∀ x, f (Call CloseConn x) = 0) →
  (∀ b e m x, f (Call (Observe e m (CollectorConnectAttempt b)) x) = 0) →
  each (steady f) body → each (steady f) (connected r a url refused body).
Proof.
  intros Hd Hc Ho Hb. unfold connected.
  apply each_bind; [typeclasses eauto|apply each_trigger; intros y; apply still_steady; by repeat constructor|intros err].
  apply each_bind; [typeclasses eauto|intros tr x Hr; apply still_steady; by eapply still_observe|intros u].
  destruct err as [e|]; [apply each_Ret; typeclasses eauto|]. apply each_bind; [typeclasses eauto|done|intros y].
  apply each_bind; [typeclasses eauto|apply each_trigger; intros z; apply still_steady; by repeat constructor|intros v]. apply each_Ret; typeclasses eauto.
Qed.

(** The three counters of a collector. *)
Definition balanced (tr : list (call collectorE)) : Prop := steady connection tr ∧ steady gauge tr ∧ steady heartbeats tr.
#[export] Instance balanced_trace : TraceProp balanced.
Proof.
  split; [split_and!; apply trace_nil|]. intros t1 t2 (? & ? & ?) (? & ? & ?). split_and!; by apply trace_app.
Qed.

Lemma balanced_static a url cfg : each balanced (readStaticStream r a url cfg).
Proof.
  intros tr x Hr. unfold readStaticStream in Hr. split_and!.
  - eapply connected_connection; [|exact Hr]. apply run_static_still; [apply silent_connection|done|done].
  - eapply connected_other; [| | | |exact Hr]; [done..|apply run_static_gauge].
  - eapply connected_other; [| | | |exact Hr]; [done..|apply run_static_heartbeats].
Qed.

Lemma balanced_stream a symbols cfg refused : each balanced (connected r a (WSURL a) refused (run_stream r a symbols cfg)).
Proof.
  intros tr x Hr. split_and!.
  - eapply connected_connection; [|exact Hr]. apply run_stream_still, silent_connection.
  - eapply connected_other; [| | | |exact Hr]; [done..|apply run_stream_gauge].
  - eapply connected_other; [| | | |exact Hr]; [done..|].
    intros t y Ht. by eapply still_steady, run_stream_still; [apply silent_heartbeats|].
Qed.

Lemma plain_balanced {R} (p : cprog R) : plain p → each balanced p.
Proof.
  intros Hp tr x Hr. split_and!; (eapply plain_steady; [|done|done]);
    [apply counter_connection|apply counter_gauge|apply counter_heartbeats].
Qed.
#[local] Hint Extern 1 (each balanced (trigger _)) => (apply plain_balanced, plain_trigger; intros ?; exact I) : each.
#[local] Hint Extern 1 (each balanced (observe _ _ _)) => (apply plain_balanced, plain_observe; exact I) : each.
#[local] Hint Resolve balanced_static : each.

Lemma balanced_connectOnce a cfg : each balanced (connectOnce r a cfg).
Proof.
  unfold connectOnce. apply each_bind; [typeclasses eauto|apply plain_balanced, plain_refreshSymbols|].
  intros [[[|s0 l]|e] a']; [apply each_Ret; typeclasses eauto| |apply each_Ret; typeclasses eauto].
  destruct (StaticStreamURL_ a'); [|apply balanced_stream].
  apply each_bind; [typeclasses eauto|apply plain_balanced, plain_static|intros [err a2]]. apply each_Ret; typeclasses eauto.
Qed.
Lemma balanced_wait d : each balanced (trigger (Wait d)).
Proof. intros tr x ->%runs_trigger. split_and!; apply still_steady; by repeat constructor. Qed.
#[local] Hint Resolve balanced_connectOnce balanced_wait : each.

(** C11: no connection is left open.  At every moment a collector or a shard has at most
    one WebSocket connection and one heartbeat, the observer's gauge is at most one,
    and when it is cancelled each connection it opened was closed, each heartbeat
    stopped and the gauge brought back. *)
Theorem connections_balanced (a : A) cfg :
  (∀ tr e, runs (runExchange r a cfg) tr e → balanced tr) ∧
  (∀ url tr x, runs (runStaticShard r a url cfg) tr x → balanced tr).
Proof.
  split.
  - apply each_endless; [typeclasses eauto|]. intros [a' backoff]. unfold exchange_step. each_auto.
  - intros url. apply each_endless; [typeclasses eauto|]. intros backoff. unfold shard_step. each_auto.
Qed.
End connections.
