(* ===== verification/CollectorPacing.v ===== *)
(** * Reconnections are spaced

    A run of a collector or of a shard is a sequence of rounds ([reconnecting]): an
    attempt to connect and, when it failed, a pause, which is twice the one before up
    to the maximum, or the base delay when the connection that just ended had stayed
    responsive ([responsive]). *)

From S2P Require Export CollectorConnections.

Local Open Scope string_scope.
Local Open Scope Z_scope.
Local Open Scope list_scope.

(** ** What the traces tell *)

Definition waited (c : call collectorE) : option Z :=
  match c with Call e _ => match e with Wait delay => Some delay | _ => None end end.
Definition dialled (c : call collectorE) : option string :=
  match c with Call e _ => match e with Dial url => Some url | _ => None end end.

Lemma baseDelay_pos cfg : 0 < baseDelay cfg.
Proof. unfold baseDelay, Second_ns. destruct (_ <=? 0) eqn:E; zbool; lia. Qed.

Lemma next_backoff_bounds cfg d :
  0 < d <= Z.max (baseDelay cfg) (maxDelay cfg) → baseDelay cfg < 2 ^ 62 → maxDelay cfg < 2 ^ 62 →
  next_backoff cfg d = Z.min (2 * d) (maxDelay cfg) ∧ 0 < next_backoff cfg d <= maxDelay cfg.
Proof.
  intros Hd Hb Hm. assert (0 < maxDelay cfg) by (unfold maxDelay, Second_ns; destruct (_ <=? 0) eqn:E; zbool; lia).
  unfold next_backoff, minDuration. pose proof (baseDelay_pos cfg). rewrite i64_id by (unfold int64_range, two63; lia).
  destruct (d * 2 <? maxDelay cfg) eqn:E; zbool; lia.
Qed.

(** ** Stability *)

Definition resetAfter_ (cfg : Config) : Z :=
  if cfg.(Config.ReconnectResetAfter) <=? 0 then 30 * Second_ns else cfg.(Config.ReconnectResetAfter).

(** Reading the clock. *)
Definition clock (c : call collectorE) : Z := match c with Call e _ => match e with Time => 1 | _ => 0 end end.

(** The connection answered long enough after it was made: [t0] is the first reading of
    the clock on it, and [now] the first one after a message or a control frame that was
    read from it. *)
Definition answered (cfg : Config) (tr : list (call collectorE)) : Prop :=
  ∃ t0 before f after now rest,
    tr = Call Time t0 :: before ++ Call ReadFrame (Ok f) :: after ++ Call Time now :: rest ∧
    still clock after ∧ resetAfter_ cfg <= now - t0.

Definition responsive (cfg : Config) (tr : list (call collectorE)) : Prop :=
  ∃ t1 url t2 tr', tr = t1 ++ Call (Dial url) None :: t2 ++ tr' ∧ still clock t2 ∧ answered cfg tr'.

(** The last frame that was read is the last thing before the clock is looked at. *)
Definition heard (tr : list (call collectorE)) : Prop :=
  ∃ before f after, tr = before ++ Call ReadFrame (Ok f) :: after ∧ still clock after.

Definition healthy (cfg : Config) (tr : list (call collectorE)) (h : reconnectHealth) : Prop :=
  (∃ rest, tr = Call Time h.(reconnectHealth.connectedAt) :: rest) ∧ h.(reconnectHealth.resetAfter) = resetAfter_ cfg ∧
  (h.(reconnectHealth.stable) = true → answered cfg tr).

Lemma answered_app cfg tr tr' : answered cfg tr → answered cfg (tr ++ tr').
Proof.
  intros (t0 & t1 & f & t2 & now & rest & -> & Hc & Hr). exists t0, t1, f, t2, now, (rest ++ tr'). split; [|done].
  by rewrite <- app_comm_cons, <- app_assoc, <- app_comm_cons, <- app_assoc, <- app_comm_cons.
Qed.
Lemma healthy_app cfg tr tr' h : healthy cfg tr h → healthy cfg (tr ++ tr') h.
Proof. intros ([rest ->] & H2 & H3). split_and!; [by eexists|done|]. intros ?. apply answered_app. auto. Qed.
Lemma responsive_around cfg t1 tr t2 : responsive cfg tr → responsive cfg (t1 ++ tr ++ t2).
Proof.
  intros (u1 & url & u2 & tr' & -> & Hc & Ha). exists (t1 ++ u1), url, u2, (tr' ++ t2). split; [|split; [done|by apply answered_app]].
  by rewrite <- !app_assoc, <- app_comm_cons, <- app_assoc.
Qed.

Lemma heard_app tr tr' : heard tr → still clock tr' → heard (tr ++ tr').
Proof.
  intros (t1 & f & t2 & -> & Hc) Hs. exists t1, f, (t2 ++ tr'). rewrite <- app_assoc, <- app_comm_cons. split; [done|by apply Forall_app].
Qed.
Lemma heard_now tr f : heard (tr ++ [Call ReadFrame (Ok f)]).
Proof. exists tr, f, []. split; [done|constructor]. Qed.

Lemma record_healthy cfg tr h tr' h' : healthy cfg tr h → heard tr → runs (recordActivity h) tr' h' → healthy cfg (tr ++ tr') h'.
Proof.
  intros ([rest Ht] & H2 & H3) (t1 & f & t2 & He & Hc). unfold recordActivity. intros (u1 & now & u2 & -> & ->%runs_trigger & [-> ->]%runs_Ret)%runs_bind.
  rewrite app_nil_r. split_and!; cbn [reconnectHealth.connectedAt reconnectHealth.resetAfter reconnectHealth.stable].
  - rewrite Ht. by eexists.
  - done.
  - intros [Hs|Hn]%orb_true_iff; [apply answered_app; auto|]. zbool. rewrite He in Ht. destruct t1 as [|c t1]; [done|]. injection Ht as -> _.
    rewrite H2 in Hn. exists h.(reconnectHealth.connectedAt), t1, f, t2, now, []. split; [|split; [done|lia]].
    by rewrite He, <- app_assoc.
Qed.

Lemma new_healthy cfg tr h : runs (newReconnectHealth cfg) tr h → healthy cfg tr h.
Proof.
  unfold newReconnectHealth. intros (t1 & now & t2 & -> & ->%runs_trigger & [-> ->]%runs_Ret)%runs_bind. split_and!; [by eexists|done|done].
Qed.

Section stability.
Context {A : Type} `{Adapter A} (r : Runner).

Lemma clock_observe a o tr x : runs (observe r a o) tr x → still clock tr.
Proof. apply (still_observe r clock a o). done. Qed.

Lemma handle_healthy cfg a tr h doc tr' h' err :
  healthy cfg tr h → heard tr → runs (handle_message r a h doc) tr' (h', err) → healthy cfg (tr ++ tr') h'.
Proof.
  intros Hh Hd. unfold handle_message. intros (t1 & u & t2 & -> & H1%clock_observe & Hr)%runs_bind.
  apply runs_bind in Hr as (t3 & now & t4 & -> & ->%runs_trigger & Hr). rewrite (app_assoc t1), app_assoc.
  apply (healthy_app _ _ (t1 ++ [Call (Request Now) now])) in Hh.
  apply (heard_app _ (t1 ++ [Call (Request Now) now])) in Hd; [|apply Forall_app; split; [done|by repeat constructor]].
  destruct (ParseKlineMessage a doc now) as [bars|e].
  - apply runs_bind in Hr as (t5 & h1 & t6 & -> & Hh1 & Hr). apply runs_bind in Hr as (t7 & e & t8 & -> & _ & [-> [= -> _]]%runs_Ret).
    rewrite app_assoc. apply healthy_app. by eapply record_healthy.
  - apply runs_bind in Hr as (t5 & v & t6 & -> & _ & [-> [= -> _]]%runs_Ret). by apply healthy_app.
Qed.

Lemma alive_healthy cfg pongWait after tr h tr' x :
  healthy cfg tr h → heard tr → runs (alive pongWait h after) tr' x →
  healthy cfg (tr ++ tr') (match x with inl h => h | inr y => fst y end) ∧ (∀ h d, x ≠ inr (h, Ok d)).
Proof.
  intros Hh Hd Hx. apply runs_bind in Hx as (t3 & h1 & t4 & -> & H1 & Hx). pose proof (record_healthy _ _ _ _ _ Hh Hd H1) as Hh1.
  apply runs_bind in Hx as (t5 & now & t6 & -> & _ & Hx). apply runs_bind in Hx as (t7 & e1 & t8 & -> & _ & Hx).
  apply runs_bind in Hx as (t9 & e2 & t10 & -> & _ & [-> ->]%runs_Ret). rewrite app_assoc. destruct e2; (split; [by apply healthy_app|done]).
Qed.

(** A message that was read leaves the trace where its frame is the last thing. *)
Definition read_ends (cfg : Config) (tr : list (call collectorE)) (y : reconnectHealth * result go_error (result go_error any)) : Prop :=
  healthy cfg tr (fst y) ∧ match snd y with Ok _ => heard tr | Err _ => True end.

Lemma frame_healthy cfg pongWait tr h tr' x :
  healthy cfg tr h → runs (static_frame pongWait h) tr' x →
  match x with inl h => healthy cfg (tr ++ tr') h | inr y => read_ends cfg (tr ++ tr') y end.
Proof.
  intros Hh. unfold static_frame. intros (t1 & f & t2 & -> & ->%runs_trigger & Hr)%runs_bind. rewrite app_assoc.
  apply (healthy_app _ _ [Call ReadFrame f]) in Hh. destruct f as [[doc|data|]|e].
  - apply runs_Ret in Hr as [-> ->]. rewrite app_nil_r. split; [done|apply heard_now].
  - apply alive_healthy with (1 := Hh) in Hr as [Hr Hn]; [|apply heard_now]. destruct x as [|[h' [d|e]]]; [done|by destruct (Hn h' d)|by split].
  - apply alive_healthy with (1 := Hh) in Hr as [Hr Hn]; [|apply heard_now]. destruct x as [|[h' [d|e]]]; [done|by destruct (Hn h' d)|by split].
  - apply runs_Ret in Hr as [-> ->]. rewrite app_nil_r. by split.
Qed.

Lemma static_read_healthy cfg pongWait tr h tr' y :
  healthy cfg tr h → runs (static_ReadMessage pongWait h) tr' y → read_ends cfg (tr ++ tr') y.
Proof.
  intros Hh. unfold static_ReadMessage.
  apply (runs_endless (static_frame pongWait) (λ tr1 h, healthy cfg (tr ++ tr1) h) (λ tr1 y, read_ends cfg (tr ++ tr1) y)).
  - by rewrite app_nil_r.
  - intros tr0 h1 tr1 x H1 Hx. rewrite app_assoc. exact (frame_healthy _ _ _ _ _ _ H1 Hx).
Qed.

Lemma default_read_heard tr tr' y :
  runs default_ReadMessage tr' y → match y with Ok _ => heard (tr ++ tr') | Err _ => True end.
Proof.
  unfold default_ReadMessage.
  apply (runs_endless _ (λ _ _, True) (λ tr1 y, match y with Ok _ => heard (tr ++ tr1) | Err _ => True end)); [done|].
  intros tr0 [] tr1 x _ (t1 & f & t2 & -> & ->%runs_trigger & Hr)%runs_bind. destruct f as [[d|data|]|e].
  - apply runs_Ret in Hr as [-> ->]. rewrite app_nil_r, app_assoc. apply heard_now.
  - apply runs_bind in Hr as (t3 & e & t4 & -> & _ & [_ ->]%runs_Ret). by destruct e.
  - by apply runs_Ret in Hr as [_ ->].
  - by apply runs_Ret in Hr as [_ ->].
Qed.

Lemma static_round_healthy cfg a pongWait tr h tr' x :
  healthy cfg tr h → runs (static_step r a pongWait h) tr' x →
  healthy cfg (tr ++ tr') (match x with inl h => h | inr y => fst y end).
Proof.
  intros Hh. unfold static_step. intros (t1 & c & t2 & -> & _ & Hr)%runs_bind.
  rewrite !app_assoc. apply (healthy_app _ _ t1) in Hh. destruct c as [e|]; [apply runs_Ret in Hr as [-> ->]; by apply healthy_app|].
  apply runs_bind in Hr as (t3 & [h1 m] & t4 & -> & H1 & Hr). apply (static_read_healthy _ _ _ _ _ _ Hh) in H1 as [H1 Hd]. rewrite app_assoc.
  destruct m as [doc|e].
  - apply runs_bind in Hr as (t5 & [h2 err] & t6 & -> & H2 & [-> ->]%runs_Ret). apply (handle_healthy _ _ _ _ _ _ _ _ H1 Hd) in H2.
    rewrite app_nil_r. by destruct err.
  - apply runs_bind in Hr as (t5 & e2 & t6 & -> & _ & [-> ->]%runs_Ret). by apply healthy_app.
Qed.

Lemma static_loop_healthy cfg a pongWait tr h tr' y :
  healthy cfg tr h → runs (endless (static_step r a pongWait) h) tr' y → healthy cfg (tr ++ tr') (fst y).
Proof.
  intros Hh. apply (runs_endless (static_step r a pongWait) (λ tr1 h, healthy cfg (tr ++ tr1) h) (λ tr1 y, healthy cfg (tr ++ tr1) (fst y))).
  - by rewrite app_nil_r.
  - intros tr0 h1 tr1 x H1 Hx. rewrite app_assoc. apply (static_round_healthy _ _ _ _ _ _ _ H1) in Hx. by destruct x.
Qed.

Lemma refresh_due_health cfg s tr s1 err : runs (refresh_due r cfg s) tr (s1, err) → s1.(health) = s.(health).
Proof.
  unfold refresh_due. destruct (0 <? _); [|by intros [_ [= -> _]]%runs_Ret]. intros (? & now & ? & _ & _ & Hx)%runs_bind.
  destruct (now <? _); [by apply runs_Ret in Hx as [_ [= -> _]]|]. apply runs_bind in Hx as (? & [[[next id] [e|]] a] & ? & _ & _ & Hx);
    [by apply runs_Ret in Hx as [_ [= -> _]]|]. by apply runs_bind in Hx as (? & ? & ? & _ & _ & [_ [= -> _]]%runs_Ret).
Qed.

Lemma stream_round_healthy cfg tr s tr' x :
  healthy cfg tr s.(health) → runs (stream_step r cfg s) tr' x →
  healthy cfg (tr ++ tr') (match x with inl s => s.(health) | inr y => fst (fst y) end).
Proof.
  intros Hh. unfold stream_step. intros (t1 & c & t2 & -> & _ & Hr)%runs_bind.
  rewrite !app_assoc. apply (healthy_app _ _ t1) in Hh. destruct c as [e|]; [apply runs_Ret in Hr as [-> ->]; by apply healthy_app|].
  apply runs_bind in Hr as (t3 & [s1 err] & t4 & -> & H1 & Hr). apply refresh_due_health in H1.
  rewrite app_assoc. apply (healthy_app _ _ t3) in Hh. rewrite <- H1 in Hh.
  destruct err as [e|]; [apply runs_Ret in Hr as [-> ->]; by rewrite app_nil_r|].
  apply runs_bind in Hr as (t5 & now & t6 & -> & _ & Hr). apply runs_bind in Hr as (t7 & z & t8 & -> & _ & Hr).
  apply runs_bind in Hr as (t9 & m & t10 & -> & Hd & Hr). rewrite !app_assoc.
  apply (healthy_app _ _ t5), (healthy_app _ _ t7), (healthy_app _ _ t9) in Hh.
  destruct m as [doc|e]; [|apply runs_Ret in Hr as [-> ->]; by rewrite app_nil_r].
  apply (default_read_heard (((tr ++ t1) ++ t3) ++ t5 ++ t7)) in Hd. rewrite !app_assoc in Hd.
  apply runs_bind in Hr as (t11 & [h2 err] & t12 & -> & H2 & [-> ->]%runs_Ret). rewrite app_nil_r.
  apply (handle_healthy _ _ _ _ _ _ _ _ Hh Hd) in H2. by destruct err.
Qed.

Lemma stream_loop_healthy cfg tr s tr' y :
  healthy cfg tr s.(health) → runs (endless (stream_step r cfg) s) tr' y → healthy cfg (tr ++ tr') (fst (fst y)).
Proof.
  intros Hh. apply (runs_endless (stream_step r cfg) (λ tr1 s, healthy cfg (tr ++ tr1) s.(health)) (λ tr1 y, healthy cfg (tr ++ tr1) (fst (fst y)))).
  - by rewrite app_nil_r.
  - intros tr0 s1 tr1 x H1 Hx. rewrite app_assoc. apply (stream_round_healthy _ _ _ _ _ H1) in Hx. by destruct x.
Qed.

Lemma run_static_answered a cfg tr err : runs (run_static r a cfg) tr (true, err) → answered cfg tr.
Proof.
  unfold run_static. destruct (websocketHeartbeatDurations cfg). intros (t1 & h & t2 & -> & Hh%new_healthy & Hx)%runs_bind.
  apply runs_bind in Hx as (t3 & now & t4 & -> & _ & Hx). apply runs_bind in Hx as (t5 & e & t6 & -> & _ & Hx).
  apply (healthy_app _ _ t3), (healthy_app _ _ t5) in Hh. rewrite !app_assoc. destruct e as [e|].
  { apply runs_Ret in Hx as [-> [= Hs _]]. destruct Hh as (_ & _ & Hh). rewrite app_nil_r. by apply Hh. }
  apply runs_bind in Hx as (t7 & ? & t8 & -> & _ & Hx). apply runs_bind in Hx as (t9 & ? & t10 & -> & _ & Hx).
  apply runs_bind in Hx as (t11 & [h' e] & t12 & -> & Hl & Hx). apply (healthy_app _ _ t7), (healthy_app _ _ t9) in Hh.
  apply (static_loop_healthy _ _ _ _ _ _ _ Hh) in Hl as (_ & _ & Hl).
  apply runs_bind in Hx as (t13 & ? & t14 & -> & _ & Hx). apply runs_bind in Hx as (t15 & ? & t16 & -> & _ & [-> [= Hs _]]%runs_Ret).
  specialize (Hl (eq_sym Hs)). rewrite !app_assoc. do 3 apply answered_app. exact Hl.
Qed.

Lemma run_stream_answered a symbols cfg tr err a' : runs (run_stream r a symbols cfg) tr (true, err, a') → answered cfg tr.
Proof.
  unfold run_stream. intros (t1 & h & t2 & -> & Hh%new_healthy & Hx)%runs_bind. apply runs_bind in Hx as (t3 & now & t4 & -> & _ & Hx).
  apply runs_bind in Hx as (t5 & [id e] & t6 & -> & _ & Hx). apply (healthy_app _ _ t3), (healthy_app _ _ t5) in Hh.
  rewrite !app_assoc. destruct e as [e|].
  { apply runs_Ret in Hx as [-> [= Hs _ _]]. destruct Hh as (_ & _ & Hh). rewrite app_nil_r. by apply Hh. }
  apply runs_bind in Hx as (t7 & ? & t8 & -> & _ & Hx). apply runs_bind in Hx as (t9 & ? & t10 & -> & _ & Hx).
  apply runs_bind in Hx as (t11 & [[h' e] a2] & t12 & -> & Hl & Hx). apply (healthy_app _ _ t7), (healthy_app _ _ t9) in Hh.
  apply (stream_loop_healthy _ _ (mkStream _ _ _ _ h) _ _ Hh) in Hl as (_ & _ & Hl).
  apply runs_bind in Hx as (t13 & ? & t14 & -> & _ & [-> [= Hs _ _]]%runs_Ret).
  specialize (Hl (eq_sym Hs)). rewrite !app_assoc. do 2 apply answered_app. exact Hl.
Qed.
End stability.

(** ** Calls that neither wait nor dial *)

Definition busy (c : call collectorE) : Z := match c with Call e _ => match e with Dial _ | Wait _ => 1 | _ => 0 end end.

Lemma silent_busy : silent_counter busy.
Proof. split; [|done]. intros [X e x]. by destruct e. Qed.

Lemma idle_waits tr : still busy tr → omap waited tr = [] ∧ omap dialled tr = [].
Proof.
  induction 1 as [|[X e x] tr Hc _ [IH1 IH2]]; [done|]. cbn.
  destruct e; try done; cbn in *; by rewrite IH1, IH2.
Qed.

(** A program dials at most once and does not wait. *)
Definition one_dial (tr : list (call collectorE)) : Prop := omap waited tr = [] ∧ (length (omap dialled tr) <= 1)%nat.

Lemma idle_one_dial tr : still busy tr → one_dial tr.
Proof. intros [H1 H2]%idle_waits. split; [done|]. rewrite H2. simpl. lia. Qed.

(** ** The rounds *)

(** The rounds of a reconnecting loop that would wait [next] after its next failure.
    [Begun] ends before an attempt, [Ended] after one; [Replaced] is an attempt that
    ended without an error; [Paused] is a failure and its pause, [Interrupted] one whose
    pause is cut short. *)
Inductive reconnecting (cfg : Config) (attempt : list (call collectorE) → bool → option go_error → Prop)
    : Z → list (call collectorE) → Prop :=
| Begun next e : reconnecting cfg attempt next [Call Cancelled (Some e)]
| Ended next t stable err e :
    attempt t stable err → reconnecting cfg attempt next (Call Cancelled None :: t ++ [Call Cancelled (Some e)])
| Replaced next t stable rest :
    attempt t stable None → reconnecting cfg attempt (baseDelay cfg) rest →
    reconnecting cfg attempt next (Call Cancelled None :: t ++ rest)
| Interrupted next t stable e u x :
    attempt t stable (Some e) → still busy u →
    reconnecting cfg attempt next (Call Cancelled None :: t ++ Call Cancelled None :: u ++
      [Call (Wait (if stable then baseDelay cfg else next)) (Some x)])
| Paused next t stable e u rest :
    attempt t stable (Some e) → still busy u →
    reconnecting cfg attempt (Z.min (2 * (if stable then baseDelay cfg else next)) (maxDelay cfg)) rest →
    reconnecting cfg attempt next (Call Cancelled None :: t ++ Call Cancelled None :: u ++
      Call (Wait (if stable then baseDelay cfg else next)) None :: rest).

(** What is asked of the attempts. *)
Definition attempts (cfg : Config) (attempt : list (call collectorE) → bool → option go_error → Prop) : Prop :=
  ∀ t stable err, attempt t stable err →
    one_dial t ∧ (err = None → omap dialled t = []) ∧ (stable = true → responsive cfg t).

Lemma reconnecting_bounds cfg attempt next tr :
  attempts cfg attempt → 0 < next <= Z.max (baseDelay cfg) (maxDelay cfg) → reconnecting cfg attempt next tr →
  Forall (λ d, 0 < d <= Z.max (baseDelay cfg) (maxDelay cfg)) (omap waited tr) ∧
  (length (omap dialled tr) <= length (omap waited tr) + 1)%nat.
Proof.
  intros Ha Hn Hr. pose proof (baseDelay_pos cfg) as Hb.
  assert (0 < maxDelay cfg) as Hm by (unfold maxDelay, Second_ns; destruct (_ <=? 0) eqn:E; zbool; lia).
  induction Hr as [next x|next t stable err x Ht|next t stable rest Ht Hr IH|next t stable x u y Ht Hu|next t stable x u rest Ht Hu Hr IH].
  - by split; [constructor|simpl; lia].
  - destruct (Ha _ _ _ Ht) as ([Hw Hd] & _). cbn. rewrite !omap_app, Hw, length_app. cbn. split; [constructor|lia].
  - destruct (Ha _ _ _ Ht) as ([Hw _] & Hd & _), (IH ltac:(lia)) as [H1 H2]. cbn. rewrite !omap_app, Hw, Hd by done. done.
  - destruct (Ha _ _ _ Ht) as ([Hw Hd] & _). apply idle_waits in Hu as [H1 H2].
    cbn. rewrite !omap_app, Hw, length_app. cbn. rewrite !omap_app, H1, H2. cbn. split; [|lia]. constructor; [destruct stable; lia|constructor].
  - destruct (Ha _ _ _ Ht) as ([Hw Hd] & _). apply idle_waits in Hu as [H1 H2]. destruct (IH ltac:(destruct stable; lia)) as [H3 H4].
    cbn. rewrite !omap_app, Hw, length_app. cbn. rewrite !omap_app, H1, H2. cbn. split; [|lia]. constructor; [destruct stable; lia|done].
Qed.

Section pacing.
Context {A : Type} `{Adapter A} (r : Runner).

Lemma connected_one_dial {R} a url (refused : go_error → R) (body : cprog R) tr x :
  each (still busy) body → runs (connected r a url refused body) tr x → one_dial tr.
Proof.
  intros Hb Hr. unfold connected in Hr. apply runs_bind in Hr as (t1 & err & t2 & -> & ->%runs_trigger & Hr).
  apply runs_bind in Hr as (t3 & u & t4 & -> & Ho & Hr).
  assert (still busy (t3 ++ t4)) as Hs; [|apply idle_waits in Hs as [H1 H2]; split; cbn; rewrite ?H1, ?H2; simpl; [done|lia]].
  apply Forall_app. split.
  - by apply (still_observe r busy a (CollectorConnectAttempt (bool_decide (err = None))) ltac:(done) _ _ Ho).
  - destruct err as [e|]; [apply runs_Ret in Hr as [-> _]; constructor|].
    apply runs_bind in Hr as (t5 & y & t6 & -> & Hy & Hr). apply runs_bind in Hr as (t7 & v & t8 & -> & ->%runs_trigger & [-> _]%runs_Ret).
    apply Forall_app. split; [by eapply Hb|by repeat constructor].
Qed.

Lemma static_one_dial a url cfg tr x : runs (readStaticStream r a url cfg) tr x → one_dial tr.
Proof. apply connected_one_dial, run_static_still; [apply silent_busy|done|done]. Qed.

Lemma connectOnce_one_dial a cfg tr x : runs (connectOnce r a cfg) tr x → one_dial tr.
Proof.
  unfold connectOnce. intros (t1 & [symbols a'] & t2 & -> & Hs%plain_refreshSymbols & Hr)%runs_bind.
  apply (still_inner busy _ (proj1 silent_busy)), idle_waits in Hs as [H1 H2].
  assert (one_dial t2 → one_dial (t1 ++ t2)) as Hg.
  { intros [H3 H4]. split; rewrite omap_app, ?H1, ?H2, ?H3; done. }
  apply Hg. destruct symbols as [[|s0 l]|e]; [by apply runs_Ret in Hr as [-> _]; apply idle_one_dial; constructor| |by apply runs_Ret in Hr as [-> _]; apply idle_one_dial; constructor].
  destruct (StaticStreamURL_ a').
  - apply runs_bind in Hr as (t3 & [err a2] & t4 & -> & Hp%plain_static & [-> _]%runs_Ret). rewrite app_nil_r.
    apply idle_one_dial, still_inner; [apply silent_busy|done].
  - eapply connected_one_dial; [|exact Hr]. apply run_stream_still, silent_busy.
Qed.

(** A connection that was dialled ends with an error. *)
Lemma connected_error {R} (P : R → Prop) a url (refused : go_error → R) (body : cprog R) tr x :
  (∀ e, P (refused e)) → (∀ tr y, runs body tr y → P y) → runs (connected r a url refused body) tr x → P x.
Proof.
  intros Hr Hb. unfold connected. intros (t1 & err & t2 & -> & _ & Hx)%runs_bind. apply runs_bind in Hx as (t3 & u & t4 & -> & _ & Hx).
  destruct err as [e|]; [by apply runs_Ret in Hx as [_ ->]|].
  apply runs_bind in Hx as (t5 & y & t6 & -> & Hy & Hx). apply runs_bind in Hx as (t7 & v & t8 & -> & _ & [_ ->]%runs_Ret). by eapply Hb.
Qed.

Lemma run_static_error a cfg tr x : runs (run_static r a cfg) tr x → snd x ≠ None.
Proof.
  unfold run_static. destruct (websocketHeartbeatDurations cfg). intros (t1 & h & t2 & -> & _ & Hx)%runs_bind.
  apply runs_bind in Hx as (t3 & now & t4 & -> & _ & Hx). apply runs_bind in Hx as (t5 & [e|] & t6 & -> & _ & Hx); [by apply runs_Ret in Hx as [_ ->]|].
  apply runs_bind in Hx as (t7 & ? & t8 & -> & _ & Hx). apply runs_bind in Hx as (t9 & ? & t10 & -> & _ & Hx).
  apply runs_bind in Hx as (t11 & [h' e] & t12 & -> & _ & Hx). apply runs_bind in Hx as (t13 & ? & t14 & -> & _ & Hx).
  by apply runs_bind in Hx as (t15 & ? & t16 & -> & _ & [_ ->]%runs_Ret).
Qed.

Lemma run_stream_error a symbols cfg tr x : runs (run_stream r a symbols cfg) tr x → snd (fst x) ≠ None.
Proof.
  unfold run_stream. intros (t1 & h & t2 & -> & _ & Hx)%runs_bind. apply runs_bind in Hx as (t3 & now & t4 & -> & _ & Hx).
  apply runs_bind in Hx as (t5 & [id [e|]] & t6 & -> & _ & Hx); [by apply runs_Ret in Hx as [_ ->]|].
  apply runs_bind in Hx as (t7 & ? & t8 & -> & _ & Hx). apply runs_bind in Hx as (t9 & ? & t10 & -> & _ & Hx).
  apply runs_bind in Hx as (t11 & [[h' e] a'] & t12 & -> & _ & Hx). by apply runs_bind in Hx as (t13 & ? & t14 & -> & _ & [_ ->]%runs_Ret).
Qed.

Lemma static_error a url cfg tr stable err : runs (readStaticStream r a url cfg) tr (stable, err) → err ≠ None.
Proof.
  intros Hr. apply (connected_error (λ x : bool * option go_error, snd x ≠ None)) in Hr; [done|done|apply run_static_error].
Qed.

Lemma connectOnce_error a cfg tr stable a' : runs (connectOnce r a cfg) tr (stable, None, a') → omap dialled tr = [].
Proof.
  unfold connectOnce. intros (t1 & [symbols a1] & t2 & -> & Hs%plain_refreshSymbols & Hr)%runs_bind.
  apply (still_inner busy _ (proj1 silent_busy)), idle_waits in Hs as [_ Hd]. rewrite omap_app, Hd, app_nil_l.
  destruct symbols as [[|s0 l]|e]; [by apply runs_Ret in Hr as [_ ?]| |by apply runs_Ret in Hr as [_ ?]].
  destruct (StaticStreamURL_ a1).
  - apply runs_bind in Hr as (t3 & [err a2] & t4 & -> & Hp%plain_static & [-> _]%runs_Ret). rewrite app_nil_r.
    by apply (still_inner busy _ (proj1 silent_busy)), idle_waits in Hp as [_ ?].
  - apply (connected_error (λ x : bool * option go_error * A, snd (fst x) ≠ None)) in Hr; [done|done|apply run_stream_error].
Qed.

Lemma still_call (c : call collectorE) : busy c = 0 → still busy [c].
Proof. by repeat constructor. Qed.

Lemma still_reconnect a tr u : runs (observe r a CollectorReconnect) tr u → still busy tr.
Proof. intros Hr. by apply (still_observe r busy a CollectorReconnect ltac:(done) _ _ Hr). Qed.

Lemma connected_responsive {R} cfg (stable : R → bool) a url (refused : go_error → R) (body : cprog R) tr x :
  (∀ e, stable (refused e) = false) → (∀ tr y, runs body tr y → stable y = true → answered cfg tr) →
  runs (connected r a url refused body) tr x → stable x = true → responsive cfg tr.
Proof.
  intros Hf Hb. unfold connected. intros (t1 & err & t2 & -> & ->%runs_trigger & Hr)%runs_bind Hs.
  apply runs_bind in Hr as (t3 & u & t4 & -> & Ho%(clock_observe r) & Hr).
  destruct err as [e|]; [apply runs_Ret in Hr as [-> ->]; by rewrite Hf in Hs|].
  apply runs_bind in Hr as (t5 & y & t6 & -> & Hy & Hr). apply runs_bind in Hr as (t7 & v & t8 & -> & _ & [-> ->]%runs_Ret).
  exists [], url, t3, (t5 ++ t7 ++ []). split; [done|split; [done|apply answered_app; by eapply Hb]].
Qed.

(** *** Attempts *)

(** What an attempt of the collector and of a shard to connect leaves: its calls, whether
    the connection was stable, and the error. *)
Definition exchange_attempt (cfg : Config) (tr : list (call collectorE)) (stable : bool) (err : option go_error) : Prop :=
  ∃ a a' : A, runs (connectOnce r a cfg) tr (stable, err, a').
Definition shard_attempt (a : A) (url : string) (cfg : Config) (tr : list (call collectorE)) (stable : bool) (err : option go_error) : Prop :=
  runs (readStaticStream r a url cfg) tr (stable, err).

Lemma exchange_attempt_ok cfg : attempts cfg (exchange_attempt cfg).
Proof.
  intros tr stable err (a & a' & Hr). split_and!; [by eapply connectOnce_one_dial| |].
  - intros ->. by eapply connectOnce_error.
  - intros ->. unfold connectOnce in Hr. apply runs_bind in Hr as (t1 & [symbols a1] & t2 & -> & _ & Hr).
    enough (responsive cfg t2) as H1 by (by apply (responsive_around _ t1 _ []) in H1; rewrite app_nil_r in H1).
    destruct symbols as [[|s0 l]|e]; [by apply runs_Ret in Hr as [_ ?]| |by apply runs_Ret in Hr as [_ ?]].
    destruct (StaticStreamURL_ a1); [by apply runs_bind in Hr as (? & [? ?] & ? & _ & _ & [_ ?]%runs_Ret)|].
    apply (connected_responsive cfg (λ x : bool * option go_error * A, fst (fst x))) in Hr; [done|done| |done].
    intros tr1 [[s e] a2] Hy Hs. cbn in Hs. subst s. by eapply run_stream_answered.
Qed.

Lemma shard_attempt_ok a url cfg : attempts cfg (shard_attempt a url cfg).
Proof.
  intros tr stable err Hr. split_and!; [by eapply static_one_dial| |].
  - intros ->. by apply static_error in Hr.
  - intros ->. apply (connected_responsive cfg fst) in Hr; [done|done| |done].
    intros tr1 [s e] Hy Hs. cbn in Hs. subst s. by eapply run_static_answered.
Qed.

(** *** Rounds *)

(** The rounds so far have brought the loop from the base delay to [next]. *)
Definition so_far (cfg : Config) (attempt : list (call collectorE) → bool → option go_error → Prop)
    (tr : list (call collectorE)) (next : Z) : Prop :=
  0 < next <= Z.max (baseDelay cfg) (maxDelay cfg) ∧
  ∀ rest, reconnecting cfg attempt next rest → reconnecting cfg attempt (baseDelay cfg) (tr ++ rest).

Lemma so_far_nil cfg attempt : so_far cfg attempt [] (baseDelay cfg).
Proof. pose proof (baseDelay_pos cfg). split; [lia|done]. Qed.

(** The end of a round that failed: the pause. *)
Lemma round_pause cfg attempt tr next t stable e u c :
  baseDelay cfg < 2 ^ 62 → maxDelay cfg < 2 ^ 62 →
  so_far cfg attempt tr next → attempt t stable (Some e) → still busy u →
  let d := if stable then baseDelay cfg else next in
  let tr' := tr ++ Call Cancelled None :: t ++ Call Cancelled None :: u ++ [Call (Wait d) c] in
  match c with
  | Some _ => reconnecting cfg attempt (baseDelay cfg) tr'
  | None => so_far cfg attempt tr' (next_backoff cfg d)
  end.
Proof.
  intros Hb Hm [Hn Hs] Ht Hu d tr'. assert (0 < d <= Z.max (baseDelay cfg) (maxDelay cfg)) as Hd.
  { pose proof (baseDelay_pos cfg). subst d. destruct stable; lia. }
  destruct (next_backoff_bounds cfg d Hd Hb Hm) as [He Hk]. subst tr'. destruct c as [x|].
  - apply Hs. by eapply Interrupted.
  - split; [lia|]. intros rest Hr. rewrite <- app_assoc. apply Hs. rewrite <- app_comm_cons, <- app_assoc, <- app_comm_cons, <- app_assoc.
    eapply Paused; [done|done|]. fold d. by rewrite <- He.
Qed.

Lemma shard_round a url cfg backoff tr0 tr x :
  baseDelay cfg < 2 ^ 62 → maxDelay cfg < 2 ^ 62 →
  so_far cfg (shard_attempt a url cfg) tr0 backoff → runs (shard_step r a url cfg backoff) tr x →
  match x with
  | inl b => so_far cfg (shard_attempt a url cfg) (tr0 ++ tr) b
  | inr _ => reconnecting cfg (shard_attempt a url cfg) (baseDelay cfg) (tr0 ++ tr)
  end.
Proof.
  intros Hb Hm Hs. unfold shard_step. intros (t1 & c & t2 & -> & ->%runs_trigger & Hr)%runs_bind.
  destruct c as [e|]; [apply runs_Ret in Hr as [-> ->]; apply Hs; constructor|].
  apply runs_bind in Hr as (t3 & [stable err] & t4 & -> & Hx & Hr). pose proof (static_error _ _ _ _ _ _ Hx) as He.
  apply runs_bind in Hr as (t5 & c & t6 & -> & ->%runs_trigger & Hr). destruct c as [e|], err as [e'|]; try done.
  { apply runs_Ret in Hr as [-> ->]. apply Hs. by eapply Ended. }
  apply runs_bind in Hr as (t7 & u & t8 & -> & Ho%still_reconnect & Hr).
  apply runs_bind in Hr as (t9 & c & t10 & -> & ->%runs_trigger & [-> ->]%runs_Ret).
  pose proof (round_pause _ _ _ _ _ _ _ _ c Hb Hm Hs Hx Ho) as Hw. by destruct c.
Qed.

Lemma exchange_round cfg a backoff tr0 tr x :
  baseDelay cfg < 2 ^ 62 → maxDelay cfg < 2 ^ 62 →
  so_far cfg (exchange_attempt cfg) tr0 backoff → runs (exchange_step r cfg (a, backoff)) tr x →
  match x with
  | inl st => so_far cfg (exchange_attempt cfg) (tr0 ++ tr) (snd st)
  | inr _ => reconnecting cfg (exchange_attempt cfg) (baseDelay cfg) (tr0 ++ tr)
  end.
Proof.
  intros Hb Hm Hs. unfold exchange_step. intros (t1 & c & t2 & -> & ->%runs_trigger & Hr)%runs_bind.
  destruct c as [e|]; [apply runs_Ret in Hr as [-> ->]; apply Hs; constructor|].
  apply runs_bind in Hr as (t3 & [[stable err] a'] & t4 & -> & Hx & Hr).
  assert (exchange_attempt cfg t3 stable err) as Ha by (by exists a, a'). destruct err as [e'|].
  2:{ apply runs_Ret in Hr as [-> ->]. pose proof (baseDelay_pos cfg). split; [simpl; lia|]. intros rest Hr.
      rewrite app_nil_r, <- app_assoc. apply Hs. by eapply Replaced. }
  apply runs_bind in Hr as (t5 & c & t6 & -> & ->%runs_trigger & Hr). destruct c as [e|].
  { apply runs_Ret in Hr as [-> ->]. apply Hs. by eapply Ended. }
  apply runs_bind in Hr as (t7 & u & t8 & -> & Ho%still_reconnect & Hr).
  apply runs_bind in Hr as (t9 & c & t10 & -> & ->%runs_trigger & [-> ->]%runs_Ret).
  pose proof (round_pause _ _ _ _ _ _ _ _ c Hb Hm Hs Ha Ho) as Hw. by destruct c.
Qed.

(** C30: reconnections are spaced.  A run of a collector or of a shard is a sequence of
    rounds, each an attempt to connect that makes at most one connection and no pause,
    followed, when it failed, by one pause.  The first pause is the base delay; each later
    one is twice the one before, up to the maximum, except after a connection that was
    stable, where it is the base delay again.  Stable means that on the very connection
    that just ended a message or a control frame was read at least the configured time
    after the connection was made.  Only replacing the streams for a new list of symbols,
    where the collector itself makes no connection, goes on without a pause, from the
    base delay.  Every pause is positive and at most the larger of base and maximum, and
    there are at most as many connections as pauses and one more. *)
Theorem reconnects_paced (a : A) cfg tr attempt :
  baseDelay cfg < 2 ^ 62 → maxDelay cfg < 2 ^ 62 →
  (attempt = exchange_attempt cfg ∧ ∃ e, runs (runExchange r a cfg) tr e) ∨
  (∃ url, attempt = shard_attempt a url cfg ∧ runs (runStaticShard r a url cfg) tr tt) →
  reconnecting cfg attempt (baseDelay cfg) tr ∧
  (∀ t stable err, attempt t stable err →
     omap waited t = [] ∧ (length (omap dialled t) <= 1)%nat ∧
     (err = None → omap dialled t = []) ∧ (stable = true → responsive cfg t)) ∧
  Forall (λ d, 0 < d <= Z.max (baseDelay cfg) (maxDelay cfg)) (omap waited tr) ∧
  (length (omap dialled tr) <= length (omap waited tr) + 1)%nat.
Proof.
  intros Hb Hm Hr. assert (reconnecting cfg attempt (baseDelay cfg) tr ∧ attempts cfg attempt) as [Hp Ha].
  { destruct Hr as [[-> [e Hr]]|(url & -> & Hr)]; revert Hr.
    - intros Hr. split; [|apply exchange_attempt_ok]. revert Hr. unfold runExchange.
      apply (runs_endless (exchange_step r cfg) (λ tr st, so_far cfg (exchange_attempt cfg) tr (snd st))
        (λ tr _, reconnecting cfg (exchange_attempt cfg) (baseDelay cfg) tr)); [apply so_far_nil|].
      intros tr0 [a' backoff] tr' x Hs Hx. exact (exchange_round _ _ _ _ _ _ Hb Hm Hs Hx).
    - intros Hr. split; [|apply shard_attempt_ok]. revert Hr. unfold runStaticShard.
      apply (runs_endless (shard_step r a url cfg) (so_far cfg (shard_attempt a url cfg))
        (λ tr _, reconnecting cfg (shard_attempt a url cfg) (baseDelay cfg) tr)); [apply so_far_nil|].
      intros tr0 backoff tr' x Hs Hx. exact (shard_round _ _ _ _ _ _ _ Hb Hm Hs Hx). }
  pose proof (baseDelay_pos cfg). destruct (reconnecting_bounds cfg attempt (baseDelay cfg) tr Ha ltac:(lia) Hp) as [H1 H2].
  split_and!; [done| |done|done]. intros t stable err Ht. destruct (Ha t stable err Ht) as ([? ?] & ? & ?). done.
Qed.
End pacing.
