(* ===== verification/CollectorStream.v ===== *)
(** * A stream loses no candle

    What a collector hands to the service are the candles of the messages it read, in
    their order, all of them unless the service refused one. *)

From S2P Require Export CollectorPacing RestKlineComplete.

Local Open Scope string_scope.
Local Open Scope Z_scope.
Local Open Scope list_scope.

(** ** What the traces tell *)

Definition message_of (c : call collectorE) : option (result go_error any) :=
  match c with
  | Call e x =>
      match e in collectorE X return X → option (result go_error any) with
      | ReadFrame => fun f => match f with Ok (Message doc) => Some doc | _ => None end
      | _ => fun _ => None
      end x
  end.
Definition ingested (c : call collectorE) : option Bar :=
  match c with Call e _ => match e with IngestKline_ bar => Some bar | _ => None end end.
Definition refusal (c : call collectorE) : option go_error :=
  match c with
  | Call e x => match e in collectorE X return X → option go_error with IngestKline_ _ => fun err => err | _ => fun _ => None end x
  end.

(** Neither a message nor a candle. *)
Definition aside (c : call collectorE) : Prop := message_of c = None ∧ ingested c = None ∧ refusal c = None.

Lemma aside_basic c : basic c → aside c.
Proof. destruct c as [X e x]. by destruct e. Qed.
Lemma aside_write payload x : aside (Call (WriteMessage payload) x).
Proof. done. Qed.

Lemma aside_none tr : all_calls aside tr → omap message_of tr = [] ∧ omap ingested tr = [] ∧ omap refusal tr = [].
Proof.
  induction 1 as [|c tr (H1 & H2 & H3) _ (IH1 & IH2 & IH3)]; [done|]. cbn. by rewrite H1, H2, H3, IH1, IH2, IH3.
Qed.

Section lossless.
Context {A : Type} `{Adapter A} (r : Runner).
(** The adapters with which the messages may have been read. *)
Context (K : A → Prop).

(** The candles of a message; none when it could not be read. *)
Definition parsed (doc : result go_error any) (batch : list Bar) : Prop :=
  ∃ a now, K a ∧ batch = match ParseKlineMessage a doc now with Ok bars => bars | Err _ => [] end.

(** Every candle of every message was handed over, and accepted. *)
Definition delivered (tr : list (call collectorE)) : Prop :=
  ∃ batches, Forall2 parsed (omap message_of tr) batches ∧ omap ingested tr = concat batches ∧ omap refusal tr = [].

(** The same up to a candle that was refused, after which none was handed over. *)
Definition refused_with (tr : list (call collectorE)) (e : go_error) : Prop :=
  ∃ tr1 bar tr2 batches rest, tr = tr1 ++ Call (IngestKline_ bar) (Some e) :: tr2 ∧ omap refusal tr1 = [] ∧ all_calls aside tr2 ∧
    Forall2 parsed (omap message_of tr) batches ∧ concat batches = omap ingested tr ++ rest.

Definition finished (tr : list (call collectorE)) (err : option go_error) : Prop :=
  delivered tr ∨ ∃ e, err = Some e ∧ refused_with tr e.

Lemma delivered_aside tr : all_calls aside tr → delivered tr.
Proof. intros (H1 & H2 & H3)%aside_none. exists []. rewrite H1, H2, H3. by repeat constructor. Qed.

Lemma delivered_app tr1 tr2 : delivered tr1 → delivered tr2 → delivered (tr1 ++ tr2).
Proof.
  intros (b1 & H1 & E1 & R1) (b2 & H2 & E2 & R2). exists (b1 ++ b2). rewrite !omap_app, R1, R2, E1, E2, concat_app.
  split_and!; [by apply Forall2_app|done|done].
Qed.

Lemma refused_app tr1 tr2 e : delivered tr1 → refused_with tr2 e → refused_with (tr1 ++ tr2) e.
Proof.
  intros (b1 & H1 & E1 & R1) (t1 & bar & t2 & b2 & rest & -> & R2 & Ha & H2 & E2).
  exists (tr1 ++ t1), bar, t2, (b1 ++ b2), rest. split_and!; [by rewrite app_assoc|by rewrite omap_app, R1, R2|done| |].
  - rewrite omap_app. by apply Forall2_app.
  - by rewrite omap_app, concat_app, E1, E2, app_assoc.
Qed.

Lemma refused_aside tr1 tr2 e : refused_with tr1 e → all_calls aside tr2 → refused_with (tr1 ++ tr2) e.
Proof.
  intros (t1 & bar & t2 & b & rest & -> & R & Ha & H2 & E2) Hs. pose proof (aside_none _ Hs) as (M & I & _).
  exists t1, bar, (t2 ++ tr2), b, rest. split_and!; [by rewrite <- app_assoc|done|by apply Forall_app| |].
  - by rewrite omap_app, M, app_nil_r.
  - by rewrite (omap_app ingested _ tr2), I, app_nil_r.
Qed.

Lemma finished_app tr1 tr2 err : delivered tr1 → finished tr2 err → finished (tr1 ++ tr2) err.
Proof. intros H1 [H2|(e & -> & H2)]; [left; by apply delivered_app|right; eauto using refused_app]. Qed.
Lemma finished_aside tr1 tr2 err : finished tr1 err → all_calls aside tr2 → finished (tr1 ++ tr2) err.
Proof.
  intros [H1|(e & -> & H1)] Ha; [left; apply delivered_app; [done|by apply delivered_aside]|right; eauto using refused_aside].
Qed.

(** ** The parts *)

Notation aside_runs := (each (all_calls aside)).

Lemma aside_trigger {X} (e : collectorE X) : (∀ x, aside (Call e x)) → aside_runs (trigger e).
Proof. apply only_trigger. Qed.
Lemma aside_observe a o : match o with CollectorConnection _ => False | _ => True end → aside_runs (observe r a o).
Proof. apply only_observe, aside_basic. Qed.

(** A trace that holds candles of a batch and no message. *)
Definition hands_over (tr : list (call collectorE)) (batch : list Bar) (err : option go_error) : Prop :=
  omap message_of tr = [] ∧
  match err with
  | None => omap ingested tr = batch ∧ omap refusal tr = []
  | Some e => ∃ tr1 bar tr2 rest, tr = tr1 ++ Call (IngestKline_ bar) (Some e) :: tr2 ∧ omap refusal tr1 = [] ∧
                all_calls aside tr2 ∧ batch = omap ingested tr ++ rest
  end.

Lemma hands_over_app tr1 tr2 b1 b2 err : hands_over tr1 b1 None → hands_over tr2 b2 err → hands_over (tr1 ++ tr2) (b1 ++ b2) err.
Proof.
  intros [M1 [I1 R1]] [M2 H2]. split; [by rewrite omap_app, M1, M2|]. destruct err as [e|].
  - destruct H2 as (t1 & bar & t2 & rest & -> & R2 & Ha & ->). exists (tr1 ++ t1), bar, t2, rest.
    split_and!; [by rewrite app_assoc|by rewrite omap_app, R1, R2|done|]. by rewrite (omap_app ingested tr1), I1, app_assoc.
  - destruct H2 as [I2 R2]. by rewrite !omap_app, I1, I2, R1, R2.
Qed.

Lemma hands_over_aside tr : all_calls aside tr → hands_over tr [] None.
Proof. by intros (M & I & R)%aside_none. Qed.

Lemma ingest_hands_over a bars tr err : runs (ingest_bars r a bars) tr err → hands_over tr bars err.
Proof.
  revert tr. induction bars as [|bar bars IH]; intros tr Hr; cbn [ingest_bars] in Hr.
  - apply runs_Ret in Hr as [-> ->]. done.
  - apply runs_bind in Hr as (t1 & u & t2 & -> & Ho%(aside_observe a (CollectorBarReceived bar) I) & Hr).
    apply (hands_over_app _ _ [] (bar :: bars)); [by apply hands_over_aside|].
    apply runs_bind in Hr as (t3 & e & t4 & -> & ->%runs_trigger & Hr). destruct e as [e|].
    + apply runs_bind in Hr as (t5 & v & t6 & -> & Ho2%(aside_observe a CollectorIngestError I) & [-> ->]%runs_Ret). rewrite app_nil_r.
      pose proof (aside_none _ Ho2) as (M & In & _). split; [done|].
      exists [], bar, t5, bars. split_and!; [done|done|done|]. cbn. by rewrite In.
    + apply runs_bind in Hr as (t5 & v & t6 & -> & Ho2%(aside_observe a (CollectorIngested bar) I) & Hr).
      apply (hands_over_app _ _ [bar] bars); [done|]. apply (hands_over_app _ _ [] bars); [by apply hands_over_aside|by apply IH].
Qed.

Lemma handle_hands_over a h doc tr h' err :
  K a → runs (handle_message r a h doc) tr (h', err) → ∃ batch, parsed doc batch ∧ hands_over tr batch err.
Proof.
  intros Ha. unfold handle_message. intros (t1 & u & t2 & -> & Ho%(aside_observe a CollectorMessage I) & Hr)%runs_bind.
  apply runs_bind in Hr as (t3 & now & t4 & -> & ->%runs_trigger & Hr).
  assert (hands_over (t1 ++ [Call (Request Now) now]) [] None) as Hb.
  { apply hands_over_aside, Forall_app. split; [done|by repeat constructor]. }
  rewrite app_assoc. exists (match ParseKlineMessage a doc now with Ok bars => bars | Err _ => [] end). split; [by exists a, now|].
  destruct (ParseKlineMessage a doc now) as [bars|e].
  - apply runs_bind in Hr as (t5 & h2 & t6 & -> & Hh & Hr).
    apply runs_bind in Hr as (t7 & err' & t8 & -> & Hi%ingest_hands_over & [-> [= -> ->]]%runs_Ret). rewrite app_nil_r.
    apply (hands_over_app _ _ [] bars); [done|]. apply (hands_over_app _ _ [] bars); [|done].
    unfold recordActivity in Hh. apply runs_bind in Hh as (? & ? & ? & -> & ->%runs_trigger & [-> _]%runs_Ret). done.
  - apply runs_bind in Hr as (t5 & v & t6 & -> & Ho2%(aside_observe a CollectorParseError I) & [-> [= -> ->]]%runs_Ret). rewrite app_nil_r.
    apply (hands_over_app _ _ [] []); [done|by apply hands_over_aside].
Qed.

(** A read that delivers one message, or none. *)
Definition reads (tr : list (call collectorE)) (x : result go_error (result go_error any)) : Prop :=
  omap message_of tr = (match x with Ok doc => [doc] | Err _ => [] end) ∧ omap ingested tr = [] ∧ omap refusal tr = [].

Lemma reads_aside tr1 tr2 x : all_calls aside tr1 → reads tr2 x → reads (tr1 ++ tr2) x.
Proof. intros (M & I & R)%aside_none (M2 & I2 & R2). unfold reads. by rewrite !omap_app, M, I, R, M2, I2, R2. Qed.

Lemma reads_error tr e : all_calls aside tr → reads tr (Err e).
Proof. by intros (M & I & R)%aside_none. Qed.

Lemma default_reads tr x : runs default_ReadMessage tr x → reads tr x.
Proof.
  unfold default_ReadMessage. apply (runs_endless _ (λ tr _, all_calls aside tr) reads); [constructor|].
  intros tr0 u tr' y Ha (t1 & f & t2 & -> & ->%runs_trigger & Hr)%runs_bind. destruct f as [[doc|data|]|e].
  - apply runs_Ret in Hr as [-> ->]. by apply reads_aside.
  - apply runs_bind in Hr as (t3 & err & t4 & -> & ->%runs_trigger & [-> ->]%runs_Ret).
    destruct err; [apply reads_error|]; (apply Forall_app; split; [done|]; by repeat constructor).
  - apply runs_Ret in Hr as [-> ->]. apply Forall_app. split; [done|]; by repeat constructor.
  - apply runs_Ret in Hr as [-> ->]. apply reads_error. apply Forall_app. split; [done|]; by repeat constructor.
Qed.

(** A message is read and its candles are handed over. *)
Lemma round_finished tr1 tr2 doc batch err : reads tr1 (Ok doc) → parsed doc batch → hands_over tr2 batch err →
  match err with None => delivered (tr1 ++ tr2) | Some e => refused_with (tr1 ++ tr2) e end.
Proof.
  intros (M1 & I1 & R1) Hp [M2 H2]. destruct err as [e|].
  - destruct H2 as (t1 & bar & t2 & rest & -> & R2 & Ha & ->).
    exists (tr1 ++ t1), bar, t2, [omap ingested (t1 ++ Call (IngestKline_ bar) (Some e) :: t2) ++ rest], rest.
    rewrite !(omap_app _ tr1), M1, M2, I1, R1. simpl. rewrite !app_nil_r. split_and!; [by rewrite app_assoc|done|done|by repeat constructor|done].
  - destruct H2 as [I2 R2]. exists [batch]. rewrite !omap_app, M1, M2, I1, I2, R1, R2. simpl. rewrite app_nil_r.
    split_and!; [by repeat constructor|done|done].
Qed.

(** ** Static streams *)

Lemma alive_aside pongWait h after : each (all_calls aside) after → each (all_calls aside) (alive pongWait h after).
Proof.
  intros Ha. unfold alive, recordActivity. each_auto; by apply aside_trigger.
Qed.

Lemma static_reads pongWait h tr y : runs (static_ReadMessage pongWait h) tr y → reads tr (snd y).
Proof.
  unfold static_ReadMessage. apply (runs_endless (static_frame pongWait) (λ tr _, all_calls aside tr) (λ tr y, reads tr (snd y))); [constructor|].
  intros tr0 h1 tr1 x Ha. unfold static_frame. intros (t1 & f & t2 & -> & ->%runs_trigger & Hr)%runs_bind.
  assert (∀ after f, each (all_calls aside) after → aside (Call ReadFrame f) → runs (alive pongWait h1 after) t2 x →
    match x with inl _ => all_calls aside (tr0 ++ [Call ReadFrame f] ++ t2) | inr y => reads (tr0 ++ [Call ReadFrame f] ++ t2) (snd y) end) as Halive.
  { clear Hr f. intros after f Hafter Hf Hr. assert (all_calls aside (tr0 ++ [Call ReadFrame f] ++ t2)) as Hall.
    { apply Forall_app; split; [done|]. constructor; [done|]. by eapply alive_aside. }
    destruct x as [h2|[h2 [doc|e]]]; [done| |by apply reads_error]. exfalso. revert Hr. unfold alive.
    intros (? & ? & ? & _ & _ & Hr)%runs_bind. do 3 (apply runs_bind in Hr as (? & ? & ? & _ & _ & Hr)).
    apply runs_Ret in Hr as [_ Hr]. by case_match. }
  destruct f as [[doc|data|]|e].
  - apply runs_Ret in Hr as [-> ->]. by apply reads_aside.
  - apply (Halive (trigger (WritePong data))); [by apply aside_trigger|done|done].
  - apply (Halive (Ret None)); [by intros ? ? [-> _]%runs_Ret; constructor|done|done].
  - apply runs_Ret in Hr as [-> ->]. apply reads_error. apply Forall_app. split; [done|]; by repeat constructor.
Qed.

Lemma static_loop_finished a pongWait h tr h' e : K a → runs (endless (static_step r a pongWait) h) tr (h', e) → finished tr (Some e).
Proof.
  intros Ha Hr. apply (runs_endless _ (λ tr _, delivered tr) (λ tr y, finished tr (Some (snd y)))) in Hr; [done|by apply delivered_aside; constructor|].
  clear h h' e tr Hr. intros tr0 h tr y Hd. unfold static_step. intros (t1 & c & t2 & -> & ->%runs_trigger & Hr)%runs_bind.
  assert (delivered (tr0 ++ [Call Cancelled c])) as Hd1 by (apply delivered_app; [done|apply delivered_aside; by repeat constructor]).
  rewrite app_assoc. destruct c as [e|]; [apply runs_Ret in Hr as [-> ->]; rewrite app_nil_r; by left|].
  apply runs_bind in Hr as (t3 & [h1 x] & t4 & -> & Hx%static_reads & Hr). destruct x as [doc|e].
  - apply runs_bind in Hr as (t5 & [h2 err] & t6 & -> & Hh & [-> ->]%runs_Ret). rewrite app_nil_r.
    apply (handle_hands_over _ _ _ _ _ _ Ha) in Hh as (batch & Hp & Hh).
    pose proof (round_finished _ _ _ _ _ Hx Hp Hh) as Hf. destruct err as [e|]; [right; eauto using refused_app|by apply delivered_app].
  - apply runs_bind in Hr as (t5 & e2 & t6 & -> & He & [-> ->]%runs_Ret). rewrite app_nil_r. left. apply delivered_app; [done|].
    destruct Hx as (M & I & R). apply delivered_app; [exists []; rewrite M, I, R; by repeat constructor|apply delivered_aside].
    unfold read_error in He. apply runs_bind in He as (t7 & c & t8 & -> & ->%runs_trigger & He).
    apply Forall_app. split; [by repeat constructor|]. destruct c as [c|]; [apply runs_Ret in He as [-> _]; constructor|].
    apply runs_bind in He as (t9 & hb & t10 & -> & ->%runs_trigger & [-> _]%runs_Ret). by repeat constructor.
Qed.

Lemma aside_connection a d : aside_runs (observe r a (CollectorConnection d)).
Proof. unfold observe. destruct (Runner.observer r); [by apply aside_trigger|]. by intros tr x [-> _]%runs_Ret; constructor. Qed.
Lemma aside_health cfg : aside_runs (newReconnectHealth cfg).
Proof. apply only_health, aside_basic. Qed.

(** Something aside, and then the rest. *)
Lemma finished_after tr1 tr2 err : all_calls aside tr1 → finished tr2 err → finished (tr1 ++ tr2) err.
Proof. intros Ha. apply finished_app. by apply delivered_aside. Qed.

Lemma finished_nil err : finished [] err.
Proof. left. by apply delivered_aside; constructor. Qed.

Lemma connected_finished {R} (error : R → option go_error) a url (refused : go_error → R) (body : cprog R) tr x :
  (∀ tr y, runs body tr y → finished tr (error y)) → runs (connected r a url refused body) tr x → finished tr (error x).
Proof.
  intros Hb. unfold connected. intros (t1 & err & t2 & -> & Hd%aside_trigger & Hr)%runs_bind; [|done].
  apply runs_bind in Hr as (t3 & u & t4 & -> & Ho%(aside_observe a (CollectorConnectAttempt _) I) & Hr).
  apply finished_after; [done|]. apply finished_after; [done|]. destruct err as [e|].
  - apply runs_Ret in Hr as [-> ->]. apply finished_nil.
  - apply runs_bind in Hr as (t5 & y & t6 & -> & Hy & Hr). apply runs_bind in Hr as (t7 & v & t8 & -> & Hc%aside_trigger & [-> ->]%runs_Ret); [|done].
    rewrite app_nil_r. apply finished_aside; [by apply Hb|done].
Qed.

Lemma run_static_finished a cfg tr x : K a → runs (run_static r a cfg) tr x → finished tr (snd x).
Proof.
  intros Ha. unfold run_static. destruct (websocketHeartbeatDurations cfg) as [ping pong].
  intros (t1 & h & t2 & -> & Hh%aside_health & Hr)%runs_bind.
  apply runs_bind in Hr as (t3 & now & t4 & -> & Hn%aside_trigger & Hr); [|done].
  apply runs_bind in Hr as (t5 & err & t6 & -> & Hd%aside_trigger & Hr); [|done].
  do 3 (apply finished_after; [done|]). destruct err as [e|]; [apply runs_Ret in Hr as [-> ->]; apply finished_nil|].
  apply runs_bind in Hr as (t7 & u & t8 & -> & Hs%aside_trigger & Hr); [|done].
  apply runs_bind in Hr as (t9 & v & t10 & -> & Ho%aside_connection & Hr). apply runs_bind in Hr as (t11 & [h' e] & t12 & -> & Hl & Hr).
  apply runs_bind in Hr as (t13 & w & t14 & -> & Hc%aside_connection & Hr).
  apply runs_bind in Hr as (t15 & z & t16 & -> & Hz%aside_trigger & [-> ->]%runs_Ret); [|done].
  do 2 (apply finished_after; [done|]). rewrite app_nil_r. apply finished_aside; [by eapply static_loop_finished|by apply Forall_app].
Qed.

(** ** Streams with subscriptions *)

Context (HK : ∀ a tr symbols a', K a → runs (FetchSymbols a) tr (symbols, a') → K a').

Lemma refresh_keeps a tr symbols a' : K a → runs (refreshSymbols r a) tr (symbols, a') → K a'.
Proof using HK.
  intros Ha. unfold refreshSymbols. intros (t1 & [fetched a1] & t2 & -> & Hf & Hr)%runs_bind.
  apply runs_embed in Hf as [tr' Hf]. apply HK in Hf; [|done]. destruct fetched as [l|e]; [|by apply runs_Ret in Hr as [_ [= _ ->]]].
  apply runs_bind in Hr as (t3 & [e|] & t4 & -> & _ & Hr); [by apply runs_Ret in Hr as [_ [= _ ->]]|].
  by apply runs_bind in Hr as (t5 & u & t6 & -> & _ & [_ [= _ ->]]%runs_Ret).
Qed.

Lemma refresh_due_keeps cfg s tr s' err : K s.(adapter) → runs (refresh_due r cfg s) tr (s', err) → K s'.(adapter) ∧ all_calls aside tr.
Proof using HK.
  intros Ha Hr. split; [|by eapply only_refresh_due; [apply aside_basic|apply aside_write|]]. revert Hr. unfold refresh_due.
  destruct (0 <? _); [|by intros [_ [= -> _]]%runs_Ret]. intros (t1 & now & t2 & -> & _ & Hr)%runs_bind.
  destruct (now <? _); [by apply runs_Ret in Hr as [_ [= -> _]]|]. unfold refreshConnectionSubscriptions in Hr.
  apply runs_bind in Hr as (t3 & [[[next id'] err'] a] & t4 & -> & Hc & Hr).
  assert (s'.(adapter) = a) as ->.
  { destruct err' as [e|]; [by apply runs_Ret in Hr as [_ [= -> _]]|]. by apply runs_bind in Hr as (? & ? & ? & -> & _ & [_ [= -> _]]%runs_Ret). }
  apply runs_bind in Hc as (t5 & [fetched a'] & t6 & -> & Hf & Hc). apply refresh_keeps in Hf; [|done].
  destruct fetched as [[|s0 l]|e]; [by apply runs_Ret in Hc as [_ [= _ _ _ ->]]| |by apply runs_Ret in Hc as [_ [= _ _ _ ->]]].
  apply runs_bind in Hc as (t7 & [[[i1 ns] nu] err2] & t8 & -> & _ & Hc). by destruct err2; apply runs_Ret in Hc as [_ [= _ _ _ ->]].
Qed.

Lemma stream_loop_finished cfg s tr h e a : K s.(adapter) → runs (endless (stream_step r cfg) s) tr (h, e, a) → finished tr (Some e).
Proof using HK.
  intros Ha Hr.
  apply (runs_endless _ (λ tr s, delivered tr ∧ K s.(adapter)) (λ tr y, finished tr (Some (snd (fst y))))) in Hr;
    [done|split; [by apply delivered_aside; constructor|done]|].
  clear - HK. intros tr0 s tr y [Hd Ha]. unfold stream_step. intros (t1 & c & t2 & -> & ->%runs_trigger & Hr)%runs_bind.
  assert (delivered (tr0 ++ [Call Cancelled c])) as Hd1 by (apply delivered_app; [done|apply delivered_aside; by repeat constructor]).
  rewrite app_assoc. destruct c as [e|]; [apply runs_Ret in Hr as [-> ->]; rewrite app_nil_r; by left|].
  apply runs_bind in Hr as (t3 & [s1 err] & t4 & -> & Hdue & Hr). apply refresh_due_keeps in Hdue as [Ha1 Hdue]; [|done].
  rewrite app_assoc. assert (delivered ((tr0 ++ [Call Cancelled None]) ++ t3)) as Hd2 by (apply delivered_app; [done|by apply delivered_aside]).
  destruct err as [e|]; [apply runs_Ret in Hr as [-> ->]; rewrite app_nil_r; by left|].
  apply runs_bind in Hr as (t5 & now & t6 & -> & Hn%aside_trigger & Hr); [|done].
  apply runs_bind in Hr as (t7 & z & t8 & -> & Hz%aside_trigger & Hr); [|done].
  rewrite (app_assoc t5), app_assoc. remember (((tr0 ++ [Call Cancelled None]) ++ t3) ++ t5 ++ t7) as tr1 eqn:Etr.
  assert (delivered tr1) as Hd3 by (subst tr1; apply delivered_app; [done|apply delivered_aside, Forall_app; done]).
  clear Etr Hd Hd1 Hd2 Hdue Hn Hz Ha.
  apply runs_bind in Hr as (t9 & x & t10 & -> & Hx%default_reads & Hr). destruct x as [doc|e].
  - apply runs_bind in Hr as (t11 & [h2 err] & t12 & -> & Hh & [-> ->]%runs_Ret). rewrite app_nil_r.
    apply (handle_hands_over _ _ _ _ _ _ Ha1) in Hh as (batch & Hp & Hh).
    pose proof (round_finished _ _ _ _ _ Hx Hp Hh) as Hf.
    destruct err as [e|]; [right; eauto using refused_app|split; [by apply delivered_app|done]].
  - apply runs_Ret in Hr as [-> ->]. rewrite app_nil_r. left. apply delivered_app; [done|].
    destruct Hx as (M & I & R). exists []. rewrite M, I, R. by repeat constructor.
Qed.

Lemma run_stream_finished a symbols cfg tr x : K a → runs (run_stream r a symbols cfg) tr x → finished tr (snd (fst x)).
Proof using HK.
  intros Ha. unfold run_stream. intros (t1 & h & t2 & -> & Hh%aside_health & Hr)%runs_bind.
  apply runs_bind in Hr as (t3 & now & t4 & -> & Hn%aside_trigger & Hr); [|done].
  apply runs_bind in Hr as (t5 & [id err] & t6 & -> & Hs & Hr). apply only_sendSubscriptions with (P := aside) in Hs; [|apply aside_basic|apply aside_write].
  do 3 (apply finished_after; [done|]). destruct err as [e|]; [apply runs_Ret in Hr as [-> ->]; apply finished_nil|].
  apply runs_bind in Hr as (t7 & u & t8 & -> & Ho%aside_connection & Hr). apply runs_bind in Hr as (t9 & now2 & t10 & -> & Hn2%aside_trigger & Hr); [|done].
  apply runs_bind in Hr as (t11 & [[h' e] a'] & t12 & -> & Hl & Hr). apply runs_bind in Hr as (t13 & w & t14 & -> & Hc%aside_connection & [-> ->]%runs_Ret).
  do 2 (apply finished_after; [done|]). rewrite app_nil_r. apply finished_aside; [exact (stream_loop_finished cfg (mkStream a symbols id _ h) _ _ _ _ Ha Hl)|done].
Qed.
End lossless.

(** An adapter after it fetched its symbols some number of times. *)
Definition fetches {A} `{Adapter A} (a a' : A) : Prop := ∃ tr symbols, runs (FetchSymbols a) tr (symbols, a').

(** C10: a stream loses no candle and adds none.  The candles handed to the service are
    those of the messages that were read, message by message in their order; every one
    is handed over, except that after a candle the service refused the connection ends
    with the service's error and hands over no more. *)
Theorem stream_lossless {A} `{Adapter A} (r : Runner) (a : A) cfg :
  (∀ tr stable err a', runs (connectOnce r a cfg) tr (stable, err, a') → finished (rtc fetches a) tr err) ∧
  (∀ url tr stable err, runs (readStaticStream r a url cfg) tr (stable, err) → finished (eq a) tr err).
Proof.
  split.
  - intros tr stable err a' Hr. set (K := rtc fetches a).
    assert (∀ a1 tr symbols a2, K a1 → runs (FetchSymbols a1) tr (symbols, a2) → K a2) as HK.
    { intros a1 tr1 symbols a2 Ha Hf. eapply rtc_r; [exact Ha|]. by exists tr1, symbols. }
    unfold connectOnce in Hr. apply runs_bind in Hr as (t1 & [symbols a1] & t2 & -> & Hs & Hr).
    assert (K a1) as Ha1 by (by eapply (refresh_keeps r K HK); [apply rtc_refl|]).
    apply only_refreshSymbols with (P := aside) in Hs; [|apply aside_basic]. apply finished_after; [done|].
    destruct symbols as [[|s0 l]|e]; [apply runs_Ret in Hr as [-> _]; apply finished_nil| |apply runs_Ret in Hr as [-> _]; apply finished_nil].
    destruct (StaticStreamURL_ a1).
    + apply runs_bind in Hr as (t3 & [err' a2] & t4 & -> & Hp & [-> _]%runs_Ret). rewrite app_nil_r.
      apply only_static with (P := aside) in Hp; [|apply aside_basic]. left. by apply delivered_aside.
    + apply (connected_finished r K (λ x : bool * option go_error * A, snd (fst x))) in Hr; [done|].
      intros tr y. by apply run_stream_finished.
  - intros url tr stable err Hr. apply (connected_finished r (eq a) (λ x : bool * option go_error, snd x)) in Hr; [done|].
    intros tr' y. by apply run_static_finished.
Qed.

(** ** The theorems at work *)

#[local] Instance sample_adapter : Adapter OKXAdapter := okx_adapter (λ _, "").

(** An exchange with two instruments that sends one message and closes. *)
Definition sample_instruments : any :=
  AnyMap [("code", AnyString "0"); ("msg", AnyString "");
          ("data", AnyList ((fun name => AnyMap [("instId", AnyString name); ("state", AnyString "live"); ("ctType", AnyString "linear")])
             <$> ["BTC-USDT-SWAP"; "ETH-USDT-SWAP"]))].
Definition sample_message : any :=
  AnyMap [("arg", AnyMap [("channel", AnyString "candle1m"); ("instId", AnyString "BTC-USDT-SWAP")]);
          ("data", AnyList [AnyList (AnyString <$> ["1700000040000"; "1.0"; "2.0"; "0.5"; "1.5"; "10"; "10"; "15"; "1"])])].
Definition sample_collector : Config := Config.mk (60 * Second_ns) Second_ns (8 * Second_ns) 0 1 0 0.
Definition sample_runner : Runner := Runner.mk true true.
Definition closed : go_error := Errorf "websocket: close 1006 (abnormal closure): unexpected EOF".

(** Messages read and pauses made so far; after [pauses] pauses it is cancelled. *)
Definition sample_world (pauses : nat) : handler collectorE (nat * nat) := fun X e w =>
  let '(read, waits) := w in
  match e in collectorE X return option (X * (nat * nat)) with
  | Request e =>
      match e in exchangeE X return option (X * (nat * nat)) with
      | Now => Some (1700000041000, w)
      | Do _ _ => Some (Ok (Response.mk 200 (Ok sample_instruments)), w)
      | Sleep _ => Some (None, w)
      | Diverge => None
      end
  | Time => Some (1700000041000000000 + Z.of_nat read * 120 * Second_ns, w)
  | Cancelled => Some (if (waits <? pauses)%nat then None else Some (Sentinel "context canceled"), w)
  | Wait _ => Some (None, (read, S waits))
  | ReadFrame => Some (if (read =? 0)%nat then Ok (Message (Ok sample_message)) else Err closed, (S read, waits))
  | UpsertSymbols_ _ | IngestKline_ _ | Dial _ | SetReadDeadline _ | WriteMessage _ | WritePing _ | WritePong _ => Some (None, w)
  | HeartbeatError => Some (None, w)
  | RefreshTick => Some (None, w)
  | HeartbeatEvent => Some (HeartbeatCancelled, w)
  | Done => Some (closed, w)
  | Forever => None
  | Pause _ | Observe _ _ _ | CloseConn | StartHeartbeat _ | StopHeartbeat | PostHeartbeatError _ | StartShard _ _ | CancelShards | WaitShards =>
      Some (tt, w)
  end.

Example connections_balanced_witness :
  ∃ tr e, runs (runExchange sample_runner sample_okx sample_collector) tr e ∧ balanced tr ∧
    omap dialled tr = [""; ""].
Proof.
  destruct (exec (sample_world 2) (runExchange sample_runner sample_okx sample_collector) (O, O)) as [[[tr e] w]|] eqn:E;
    [|vm_compute in E; discriminate].
  exists tr, e. assert (Hr := exec_runs _ _ _ _ _ _ E). split; [exact Hr|].
  split; [exact (proj1 (connections_balanced sample_runner sample_okx sample_collector) tr e Hr)|].
  vm_compute in E. injection E as <- _ _. vm_compute. reflexivity.
Defined.

Example reconnects_paced_witness :
  ∃ tr e, runs (runExchange sample_runner sample_okx sample_collector) tr e ∧
    reconnecting sample_collector (exchange_attempt (A:=OKXAdapter) sample_runner sample_collector) (baseDelay sample_collector) tr ∧
    omap waited tr = [Second_ns; 2 * Second_ns; 4 * Second_ns; 8 * Second_ns; 8 * Second_ns].
Proof.
  destruct (exec (sample_world 5) (runExchange sample_runner sample_okx sample_collector) (1%nat, O)) as [[[tr e] w]|] eqn:E;
    [|vm_compute in E; discriminate].
  exists tr, e. assert (Hr := exec_runs _ _ _ _ _ _ E). split; [exact Hr|].
  split; [refine (proj1 (reconnects_paced sample_runner sample_okx sample_collector tr _ ltac:(vm_compute; reflexivity) ltac:(vm_compute; reflexivity) (or_introl (conj eq_refl (ex_intro _ e Hr)))))|].
  vm_compute in E. injection E as <- _ _. vm_compute. reflexivity.
Defined.

(** A connection on which a message came two minutes after it was made was stable. *)
Example stable_connection :
  match exec (sample_world 1) (connectOnce sample_runner sample_okx sample_collector) (O, O) with
  | Some (_, (stable, _, _), _) => stable = true
  | None => False
  end.
Proof. vm_compute. reflexivity. Qed.

Example stream_lossless_witness :
  ∃ tr stable err a', runs (connectOnce sample_runner sample_okx sample_collector) tr (stable, err, a') ∧
    finished (rtc fetches sample_okx) tr err ∧ (Bar.StartMS <$> omap ingested tr) = [1700000040000].
Proof.
  destruct (exec (sample_world 1) (connectOnce sample_runner sample_okx sample_collector) (O, O)) as [[[tr [[stable err] a']] w]|] eqn:E;
    [|vm_compute in E; discriminate].
  exists tr, stable, err, a'. assert (Hr := exec_runs _ _ _ _ _ _ E). split; [exact Hr|].
  split; [exact (proj1 (stream_lossless sample_runner sample_okx sample_collector) tr stable err a' Hr)|].
  vm_compute in E. injection E as <- _ _ _ _. vm_compute. reflexivity.
Defined.

Example subscriptions_follow_witness :
  ∃ tr id, runs (sendSubscriptions sample_okx sample_symbols 7 sample_collector.(Config.SubscriptionChunkSize)) tr (id, None) ∧
    requested sample_okx sample_collector.(Config.SubscriptionChunkSize) tr ∅ (list_to_set sample_symbols) ∧
    length (omap written tr) = 5%nat.
Proof.
  destruct (exec (sample_world 1) (sendSubscriptions sample_okx sample_symbols 7 sample_collector.(Config.SubscriptionChunkSize)) (O, O))
    as [[[tr [id err]] w]|] eqn:E; [|vm_compute in E; discriminate]. destruct err as [e|]; [vm_compute in E; discriminate|].
  exists tr, id. assert (Hr := exec_runs _ _ _ _ _ _ E). split; [exact Hr|].
  split; [exact (proj1 (subscriptions_follow sample_runner sample_okx sample_collector) sample_symbols 7 tr id Hr)|].
  vm_compute in E. injection E as <- _ _. vm_compute. reflexivity.
Defined.
