(* ===== verification/SnapshotWorker.v ===== *)
(** * The symbol snapshot worker (internal/collector/symbol_snapshots.go)

    One refresh of the instruments of a market: what the exchange lists is reconciled
    with what was known, and saved; a failure is recorded. *)

From S2P Require Export Collector SymbolSnapshot.

Local Open Scope string_scope.
Local Open Scope Z_scope.
Local Open Scope list_scope.
Local Open Scope prog_scope.

(** [UnixMilli] is time.Now().UnixMilli(). *)
Inductive snapshotE : Type → Type :=
| Official {X} (e : exchangeE X) : snapshotE X
| UnixMilli : snapshotE Z
| ContextErr : snapshotE (option go_error)
| ListSnapshots (exchange : string) : snapshotE (result go_error (list SymbolSnapshot))
| ListRegistered (exchange : string) : snapshotE (result go_error (list SymbolInfo))
| RecordFailure (state : SymbolSnapshotSync) : snapshotE (option go_error)
| SaveSnapshot (batch : SymbolSnapshotBatch) : snapshotE (option go_error).

Notation sprog := (prog snapshotE).

Section worker.
Context {A : Type} `{Adapter A}.

(** The failure is recorded unless the worker is being stopped. *)
Definition fail_refresh (exchange marketType : string) (cause : go_error) : sprog go_error :=
  stopped <- trigger ContextErr ;;
  match stopped with
  | Some _ => Ret cause
  | None =>
      now <- trigger UnixMilli ;;
      err <- trigger (RecordFailure (SymbolSnapshotSync.mk exchange marketType "unavailable" now 0 0 (error_text cause))) ;;
      Ret (match err with Some e => Wrapf "refresh: %v; persist failure: %w" e | None => cause end)
  end.

(** The registered symbols of the market that no snapshot knows. *)
Definition unknown_symbol (exchange marketType : string) (info : SymbolInfo) : SymbolSnapshot :=
  let s := SymbolSnapshot.zero in
  SymbolSnapshot.mk exchange (ToUpper info.(SymbolInfo.Symbol)) marketType false "" info.(SymbolInfo.Status) false false
    "unknown" "" "" "" "" 0 0 0 0 0 0 0 "".

Definition with_registered (exchange marketType : string) (previous : list SymbolSnapshot) (registry : list SymbolInfo)
    : list SymbolSnapshot :=
  let known : gset string := list_to_set ((fun item => ToUpper item.(SymbolSnapshot.Symbol)) <$> previous) in
  previous ++
    (unknown_symbol exchange marketType <$>
       List.filter (fun info => negb (bool_decide (ToUpper info.(SymbolInfo.Symbol) ∈ known))
                                && EqualFold info.(SymbolInfo.MarketType) marketType) registry).

Definition RefreshOnce (a : A) (enabled : bool) : sprog (option go_error * A) :=
  let exchange := Name a in
  let marketType := MarketType a in
  '(items, a) <- embed (@Official) (FetchSymbols a) ;;
  match items with
  | Err e => e <- fail_refresh exchange marketType e ;; Ret (Some e, a)
  | Ok items =>
      previous <- trigger (ListSnapshots exchange) ;;
      match previous with
      | Err e => e <- fail_refresh exchange marketType e ;; Ret (Some e, a)
      | Ok previous =>
          registry <- trigger (ListRegistered exchange) ;;
          match registry with
          | Err e => e <- fail_refresh exchange marketType e ;; Ret (Some e, a)
          | Ok registry =>
              now <- trigger UnixMilli ;;
              match ReconcileSymbolSnapshot exchange marketType enabled now items
                      (with_registered exchange marketType previous registry) with
              | Err e => e <- fail_refresh exchange marketType e ;; Ret (Some e, a)
              | Ok batch =>
                  err <- trigger (SaveSnapshot batch) ;;
                  match err with
                  | Some e => e <- fail_refresh exchange marketType e ;; Ret (Some e, a)
                  | None => Ret (None, a)
                  end
              end
          end
      end
  end.
End worker.

(** ** What a refresh does *)

Section refresh.
Context {A : Type} `{Adapter A}.

Lemma in_market_self ex mt s : TrimSpace ex = ex → TrimSpace mt = mt →
  in_market (ToLower (TrimSpace ex)) (TrimSpace mt) (unknown_symbol ex mt s) = true.
Proof.
  intros He Hm. unfold in_market. cbn. rewrite He, Hm. apply andb_true_iff. split; apply EqualFold_spec; [|done].
  by rewrite ToLower_idem.
Qed.

(** Every earlier item is reconciled, and every registered symbol of the market that
    no earlier item names. *)
Lemma with_registered_covers ex mt previous registry info :
  info ∈ registry → EqualFold info.(SymbolInfo.MarketType) mt = true →
  (∃ old, old ∈ previous ∧ ToUpper old.(SymbolSnapshot.Symbol) = ToUpper info.(SymbolInfo.Symbol)) ∨
  unknown_symbol ex mt info ∈ with_registered ex mt previous registry.
Proof.
  intros Hi Hm. unfold with_registered. set (known := list_to_set _ : gset string).
  destruct (decide (ToUpper info.(SymbolInfo.Symbol) ∈ known)) as [Hk|Hk].
  - left. subst known. apply elem_of_list_to_set, list_elem_of_fmap in Hk as (old & ? & ?). by exists old.
  - right. apply elem_of_app. right. apply list_elem_of_fmap_2. apply list_elem_of_In, filter_In. split; [by apply list_elem_of_In|].
    by rewrite bool_decide_eq_false_2, Hm.
Qed.

Definition failed_refresh (ex mt : string) (tr : list (call snapshotE)) (e : go_error) : Prop :=
  (∀ batch, Call (SaveSnapshot batch) None ∉ tr) ∧
  ((∃ c, Call ContextErr (Some c) ∈ tr) ∨
   ∃ now cause err, Call (RecordFailure (SymbolSnapshotSync.mk ex mt "unavailable" now 0 0 (error_text cause))) err ∈ tr ∧
     e = match err with Some e => Wrapf "refresh: %v; persist failure: %w" e | None => cause end).

(** What was saved is the reconciliation of the official list with all that was known,
    and loses none of it. *)
Definition saved_refresh (a : A) (enabled : bool) (tr : list (call snapshotE)) : Prop :=
  let ex := Name a in
  let mt := MarketType a in
  ∃ fetch items a' previous registry now batch,
    runs (FetchSymbols a) fetch (Ok items, a') ∧
    Call (ListSnapshots ex) (Ok previous) ∈ tr ∧ Call (ListRegistered ex) (Ok registry) ∈ tr ∧ Call UnixMilli now ∈ tr ∧
    ReconcileSymbolSnapshot ex mt enabled now items (with_registered ex mt previous registry) = Ok batch ∧
    Call (SaveSnapshot batch) None ∈ tr ∧ (∀ state err, Call (RecordFailure state) err ∉ tr) ∧
    (∀ old, old ∈ previous → in_market (ToLower ex) mt old = true →
       ∃ item, item ∈ batch.(SymbolSnapshotBatch.Symbols) ∧ item_name item = item_name old) ∧
    (∀ info, info ∈ registry → EqualFold info.(SymbolInfo.MarketType) mt = true →
       (∃ old, old ∈ previous ∧ item_name old = ToUpper info.(SymbolInfo.Symbol)) ∨
       ∃ item, item ∈ batch.(SymbolSnapshotBatch.Symbols) ∧ item_name item = ToUpper info.(SymbolInfo.Symbol)).

(** Calls that neither save nor record. *)
Definition looks (c : call snapshotE) : Prop :=
  match c with Call e _ => match e with SaveSnapshot _ | RecordFailure _ => False | _ => True end end.

Definition save_answer (c : call snapshotE) : option (option go_error) :=
  match c with
  | Call e x => match e in snapshotE X return X → option (option go_error) with SaveSnapshot _ => Some | _ => fun _ => None end x
  end.

Lemma looks_not_saved tr : all_calls looks tr → (∀ batch x, Call (SaveSnapshot batch) x ∉ tr) ∧ (∀ state x, Call (RecordFailure state) x ∉ tr).
Proof. intros Hl. pose proof (proj1 (Forall_forall looks tr) Hl) as Hf. split; intros ? ? Hin; exact (Hf _ Hin). Qed.

Lemma fail_refresh_run ex mt cause tr0 tr e :
  (∀ batch, Call (SaveSnapshot batch) None ∉ tr0) → runs (fail_refresh ex mt cause) tr e → failed_refresh ex mt (tr0 ++ tr) e.
Proof.
  intros H0. unfold fail_refresh. intros (t1 & stopped & t2 & -> & ->%runs_trigger & Hr)%runs_bind.
  destruct stopped as [c|].
  - apply runs_Ret in Hr as [-> ->]. split; [|left; exists c; in_trace]. intros batch Hin.
    rewrite !elem_of_app, elem_of_cons, !elem_of_nil in Hin. destruct Hin as [Hin|[[Hin|[]]|[]]]; [by eapply H0|done].
  - apply runs_bind in Hr as (t3 & now & t4 & -> & ->%runs_trigger & Hr).
    apply runs_bind in Hr as (t5 & err & t6 & -> & ->%runs_trigger & [-> ->]%runs_Ret). split.
    + intros batch Hin. rewrite !elem_of_app, !elem_of_cons, !elem_of_nil in Hin. naive_solver.
    + right. exists now, cause, err. split; [in_trace|done].
Qed.

Lemma embed_looks {R} (p : prog exchangeE R) : each (all_calls looks) (embed (@Official) p).
Proof.
  induction p as [a|X e k IH]; cbn [embed]; [intros tr x [-> _]%runs_Ret; constructor|].
  intros tr x Hr. destruct tr as [|c tr]; [done|]. destruct Hr as (y & -> & Hr). constructor; [done|]. by eapply IH.
Qed.

(** a refresh of a market's instruments ends in one of two ways.  It fails: no
    inventory was saved, and the failure is recorded with its cause, unless the worker
    is being stopped.  Or it succeeds: what was saved is the reconciliation of the
    official list with everything known, no earlier item and no registered symbol of
    the market is lost, and nothing is recorded as a failure. *)
Theorem refresh_outcome (a : A) enabled tr err a' :
  TrimSpace (Name a) = Name a → TrimSpace (MarketType a) = MarketType a →
  runs (RefreshOnce a enabled) tr (err, a') →
  match err with
  | Some e => failed_refresh (Name a) (MarketType a) tr e
  | None => saved_refresh a enabled tr
  end.
Proof.
  intros Hex Hmt. unfold RefreshOnce. set (ex := Name a) in *. set (mt := MarketType a) in *.
  intros (t1 & [items a1] & t2 & -> & Hl & Hr)%runs_bind. destruct (runs_embed _ _ _ _ Hl) as [fetch Hfetch]. apply embed_looks in Hl.
  assert (∀ t0 cause t, all_calls looks t0 → runs (e <- fail_refresh ex mt cause ;; Ret (Some e, a1))%prog t (err, a') →
            ∃ e, err = Some e ∧ failed_refresh ex mt (t0 ++ t) e) as Hfail.
  { intros t0 cause t Ht0 (t3 & e & t4 & -> & Hf & [-> [= -> ->]]%runs_Ret)%runs_bind. exists e. split; [done|].
    rewrite app_nil_r. eapply fail_refresh_run; [|exact Hf]. intros batch. by apply looks_not_saved. }
  destruct items as [items|e]; [|by destruct (Hfail _ _ _ Hl Hr) as (e' & -> & ?)].
  apply runs_bind in Hr as (t3 & previous & t4 & -> & ->%runs_trigger & Hr).
  assert (all_calls looks (t1 ++ [Call (ListSnapshots ex) previous])) as Hl2 by (apply Forall_app; split; [done|by repeat constructor]).
  rewrite app_assoc. destruct previous as [previous|e]; [|by destruct (Hfail _ _ _ Hl2 Hr) as (e' & -> & ?)].
  apply runs_bind in Hr as (t5 & registry & t6 & -> & ->%runs_trigger & Hr).
  assert (all_calls looks ((t1 ++ [Call (ListSnapshots ex) (Ok previous)]) ++ [Call (ListRegistered ex) registry])) as Hl3
    by (apply Forall_app; split; [done|by repeat constructor]).
  rewrite app_assoc. destruct registry as [registry|e]; [|by destruct (Hfail _ _ _ Hl3 Hr) as (e' & -> & ?)].
  apply runs_bind in Hr as (t7 & now & t8 & -> & ->%runs_trigger & Hr). rewrite app_assoc.
  remember (((t1 ++ [Call (ListSnapshots ex) (Ok previous)]) ++ [Call (ListRegistered ex) (Ok registry)]) ++ [Call UnixMilli now]) as t0 eqn:Et.
  assert (all_calls looks t0) as Hl4 by (subst t0; apply Forall_app; split; [done|by repeat constructor]).
  destruct (looks_not_saved _ Hl4) as [Hns Hnr].
  destruct (ReconcileSymbolSnapshot ex mt enabled now items _) as [batch|e] eqn:Eb; [|by destruct (Hfail _ _ _ Hl4 Hr) as (e' & -> & ?)].
  apply runs_bind in Hr as (t9 & err' & t10 & -> & ->%runs_trigger & Hr). destruct err' as [e|].
  - apply runs_bind in Hr as (t11 & e2 & t12 & -> & Hf & [-> [= -> ->]]%runs_Ret). rewrite app_nil_r, app_assoc.
    eapply fail_refresh_run; [|exact Hf]. intros b Hin. apply elem_of_app in Hin as [Hin|Hin]; [by apply Hns in Hin|].
    by apply list_elem_of_singleton, (f_equal save_answer) in Hin.
  - apply runs_Ret in Hr as [-> [= -> ->]]. exists fetch, items, a1, previous, registry, now, batch.
    destruct (Reconcile_inventory _ _ _ _ _ _ _ Eb) as (_ & _ & Hold & _). rewrite Hex, Hmt in Hold.
    fold ex mt. split_and!; [done|subst t0; in_trace..|done|in_trace| | |].
    + intros state x Hin. apply elem_of_app in Hin as [Hin|Hin]; [by apply Hnr in Hin|]. by apply list_elem_of_singleton, (f_equal save_answer) in Hin.
    + intros old Ho Hm. apply Hold; [|done]. apply elem_of_app. by left.
    + intros info Hi Hm. destruct (with_registered_covers ex mt previous registry info Hi Hm) as [?|Hu]; [by left|right].
      destruct (Hold _ Hu) as (item & ? & Hn).
      { pose proof (in_market_self ex mt info Hex Hmt) as Hin. by rewrite Hex, Hmt in Hin. }
      exists item. split; [done|]. rewrite Hn. unfold item_name. cbn. apply ToUpper_idem.
Qed.
End refresh.

(** ** The theorem at work *)

Definition sample_snapshot_exchange : handler snapshotE bool := fun X e w =>
  match e in snapshotE X return option (X * bool) with
  | Official e =>
      match e in exchangeE X return option (X * bool) with
      | Now => Some (1779262300000, w)
      | Do _ _ => Some (Ok (Response.mk 200 (Ok (AnyMap [("code", AnyString "0"); ("msg", AnyString "");
                    ("data", AnyList [AnyMap [("instId", AnyString "ETH-USDT-SWAP"); ("state", AnyString "live")]])]))), w)
      | Sleep _ => Some (None, w)
      | Diverge => None
      end
  | UnixMilli => Some (1779262300000, w)
  | ContextErr => Some (None, w)
  | ListSnapshots _ => Some (Ok [], w)
  | ListRegistered _ => Some (Ok [SymbolInfo.mk "okx" "BTC-USDT-SWAP" "SWAP" "live" true 1 1 1 true "linear" "BTC" "USDT" "USDT" 0 0 0 ""], w)
  | RecordFailure _ => Some (None, w)
  | SaveSnapshot _ => Some (if w then None else Some (Errorf "database is closed"), w)
  end.

#[local] Instance sample_snapshot_adapter : Adapter OKXAdapter := okx_adapter (λ _, "").
Definition sample_market : OKXAdapter := NewOKXAdapter "SWAP" "https://www.okx.com" "".

Example refresh_outcome_witness :
  (∃ tr a', runs (RefreshOnce sample_market true) tr (None, a') ∧ saved_refresh sample_market true tr) ∧
  (∃ tr e a', runs (RefreshOnce sample_market true) tr (Some e, a') ∧ failed_refresh "okx" "SWAP" tr e).
Proof.
  split.
  - destruct (exec sample_snapshot_exchange (RefreshOnce sample_market true) true) as [[[tr [err a']] w]|] eqn:E; [|vm_compute in E; discriminate].
    destruct err as [e|]; [vm_compute in E; discriminate|]. exists tr, a'. assert (Hr := exec_runs _ _ _ _ _ _ E).
    split; [exact Hr|]. exact (refresh_outcome sample_market true tr None a' eq_refl eq_refl Hr).
  - destruct (exec sample_snapshot_exchange (RefreshOnce sample_market true) false) as [[[tr [err a']] w]|] eqn:E; [|vm_compute in E; discriminate].
    destruct err as [e|]; [|vm_compute in E; discriminate]. exists tr, e, a'. assert (Hr := exec_runs _ _ _ _ _ _ E).
    split; [exact Hr|]. exact (refresh_outcome sample_market true tr (Some e) a' eq_refl eq_refl Hr).
Defined.
