(* ===== verification/MinuteAudit.v ===== *)
(** * The durable minute-audit queue (internal/storage/minute_audit.go,
    minute_audit_memory.go)

    Ranges of minutes wait in the queue until a worker leases one, works on it
    and finishes it with the token of its lease.  [AuditQueue] is the part of
    [MemoryHistoricalStore] the queue owns; each operation holds the mutex, so a
    run of the system is a sequence of operations.  The clock readings the
    callers pass ([nowMS]) are arguments; [now] of [NormalizeMinuteAuditTask] is
    [time.Now]. *)

From S2P Require Export Market.

Local Open Scope string_scope.
Local Open Scope Z_scope.
Local Open Scope list_scope.

Module AuditQueue.
Record AuditQueue : Type := mk {
  minuteAuditTasks : gmap Z MinuteAuditTask;
  minuteAuditCursors : gmap string MinuteAuditCursor;
  minuteAuditNextID : Z;
}.
Definition empty : AuditQueue := mk ∅ ∅ 0.
Definition set_tasks (v : gmap Z MinuteAuditTask) (q : AuditQueue) : AuditQueue :=
  mk v q.(minuteAuditCursors) q.(minuteAuditNextID).
End AuditQueue.
Notation AuditQueue := AuditQueue.AuditQueue.

Definition ErrMinuteAuditLeaseLost : go_error := Sentinel "minute audit lease lost".

Definition len (s : string) : Z := Z.of_nat (String.length s).

Definition TruncateMinuteAuditError (value : string) : string :=
  let chars := runes value in
  if 1024 <? Z.of_nat (length chars) then string_of_runes (take 1024 chars) else value.

Definition audit_kind (kind : string) : bool :=
  bool_decide (kind ∈ ["window"; "daily"; "conflict"; "catchup"]).

(** The default times of a task, in the order of the code. *)
Definition default_times (now : Z) (task : MinuteAuditTask) : MinuteAuditTask :=
  let task := if task.(MinuteAuditTask.CreatedAtMS) <=? 0
    then MinuteAuditTask.set_CreatedAtMS task.(MinuteAuditTask.UpdatedAtMS) task else task in
  let task := if task.(MinuteAuditTask.CreatedAtMS) <=? 0
    then MinuteAuditTask.set_CreatedAtMS now task else task in
  let task := if task.(MinuteAuditTask.UpdatedAtMS) <=? 0
    then MinuteAuditTask.set_UpdatedAtMS task.(MinuteAuditTask.CreatedAtMS) task else task in
  if task.(MinuteAuditTask.NextAttemptMS) <=? 0
  then MinuteAuditTask.set_NextAttemptMS task.(MinuteAuditTask.CreatedAtMS) task else task.

Definition NormalizeMinuteAuditTask (now : Z) (task : MinuteAuditTask) : result go_error MinuteAuditTask :=
  let task := MinuteAuditTask.set_Exchange (ToLower (TrimSpace task.(MinuteAuditTask.Exchange))) task in
  let task := MinuteAuditTask.set_Symbol (ToUpper (TrimSpace task.(MinuteAuditTask.Symbol))) task in
  let task := MinuteAuditTask.set_MarketType (TrimSpace task.(MinuteAuditTask.MarketType)) task in
  let task := MinuteAuditTask.set_Kind (ToLower (TrimSpace task.(MinuteAuditTask.Kind))) task in
  if bool_decide (task.(MinuteAuditTask.Exchange) = "") || bool_decide (task.(MinuteAuditTask.Symbol) = "")
     || (16 <? len task.(MinuteAuditTask.Exchange)) || (64 <? len task.(MinuteAuditTask.Symbol))
     || (32 <? len task.(MinuteAuditTask.MarketType))
  then Err (Errorf "invalid minute audit market identity")
  else if negb (audit_kind task.(MinuteAuditTask.Kind)) then Err (Errorf "invalid minute audit kind %q")
  else if (task.(MinuteAuditTask.StartMS) <=? 0)
          || (task.(MinuteAuditTask.EndMS) <? task.(MinuteAuditTask.StartMS))
          || negb (Z.rem task.(MinuteAuditTask.StartMS) 60000 =? 0)
          || negb (Z.rem task.(MinuteAuditTask.EndMS) 60000 =? 0)
  then Err (Errorf "invalid minute audit candle range")
  else
    let task := default_times now task in
    let task := MinuteAuditTask.set_ID 0 task in
    let task := MinuteAuditTask.set_Attempts 0 task in
    let task := MinuteAuditTask.set_LeaseUntilMS 0 task in
    let task := MinuteAuditTask.set_LeaseToken "" task in
    let task := MinuteAuditTask.set_Status "pending" task in
    Ok (MinuteAuditTask.set_LastError (TruncateMinuteAuditError task.(MinuteAuditTask.LastError)) task).

Definition NormalizeMinuteAuditCursor (cursor : MinuteAuditCursor) : result go_error MinuteAuditCursor :=
  let cursor := MinuteAuditCursor.set_Exchange (ToLower (TrimSpace cursor.(MinuteAuditCursor.Exchange))) cursor in
  let cursor := MinuteAuditCursor.set_Symbol (ToUpper (TrimSpace cursor.(MinuteAuditCursor.Symbol))) cursor in
  let cursor := MinuteAuditCursor.set_Kind (ToLower (TrimSpace cursor.(MinuteAuditCursor.Kind))) cursor in
  if bool_decide (cursor.(MinuteAuditCursor.Exchange) = "") || bool_decide (cursor.(MinuteAuditCursor.Symbol) = "")
     || (16 <? len cursor.(MinuteAuditCursor.Exchange)) || (64 <? len cursor.(MinuteAuditCursor.Symbol))
     || (len cursor.(MinuteAuditCursor.Kind) =? 0) || (16 <? len cursor.(MinuteAuditCursor.Kind))
     || (cursor.(MinuteAuditCursor.ThroughMS) <? 0)
  then Err (Errorf "invalid minute audit cursor")
  else Ok cursor.

Definition NormalizeMinuteAuditOutcome (outcome : string) : result go_error string :=
  let outcome := if bool_decide (outcome = "done") then "completed" else outcome in
  if bool_decide (outcome ∈ ["completed"; "retry"; "blocked"; "excluded"; "expired"]) then Ok outcome
  else Err (Errorf "invalid minute audit outcome %q").

(** ** Operations *)

Definition same_work (task existing : MinuteAuditTask) : bool :=
  bool_decide (existing.(MinuteAuditTask.Exchange) = task.(MinuteAuditTask.Exchange))
  && bool_decide (existing.(MinuteAuditTask.Symbol) = task.(MinuteAuditTask.Symbol))
  && bool_decide (existing.(MinuteAuditTask.Kind) = task.(MinuteAuditTask.Kind))
  && (existing.(MinuteAuditTask.StartMS) =? task.(MinuteAuditTask.StartMS))
  && (existing.(MinuteAuditTask.EndMS) =? task.(MinuteAuditTask.EndMS)).

Definition EnqueueMinuteAuditTask (ctx : context) (now : Z) (task : MinuteAuditTask) (q : AuditQueue)
    : result go_error Z * AuditQueue :=
  match ctx with
  | Some err => (Err err, q)
  | None =>
      match NormalizeMinuteAuditTask now task with
      | Err err => (Err err, q)
      | Ok task =>
          match List.find (same_work task) (snd <$> map_to_list q.(AuditQueue.minuteAuditTasks)) with
          | Some existing => (Ok existing.(MinuteAuditTask.ID), q)
          | None =>
              let nextID := i64 (q.(AuditQueue.minuteAuditNextID) + 1) in
              let task := MinuteAuditTask.set_ID nextID task in
              (Ok nextID,
               AuditQueue.mk (<[nextID := task]> q.(AuditQueue.minuteAuditTasks))
                 q.(AuditQueue.minuteAuditCursors) nextID)
          end
      end
  end.

Definition minuteAuditTaskDue (task : MinuteAuditTask) (nowMS : Z) : bool :=
  if bool_decide (task.(MinuteAuditTask.Status) ∈ ["pending"; "retry"; "blocked"])
  then task.(MinuteAuditTask.NextAttemptMS) <=? nowMS
  else if bool_decide (task.(MinuteAuditTask.Status) = "running")
  then task.(MinuteAuditTask.LeaseUntilMS) <=? nowMS
  else false.

(** The task after a successful lease. *)
Definition leased (token : string) (nowMS leaseUntilMS : Z) (task : MinuteAuditTask) : MinuteAuditTask :=
  let task := MinuteAuditTask.set_Status "running" task in
  let task := MinuteAuditTask.set_LeaseToken token task in
  let task := MinuteAuditTask.set_LeaseUntilMS leaseUntilMS task in
  let task := MinuteAuditTask.set_Attempts (i64 (task.(MinuteAuditTask.Attempts) + 1)) task in
  MinuteAuditTask.set_UpdatedAtMS nowMS task.

Definition LeaseMinuteAuditTask (ctx : context) (id : Z) (token : string) (nowMS leaseUntilMS : Z)
    (q : AuditQueue) : result go_error bool * AuditQueue :=
  match ctx with
  | Some err => (Err err, q)
  | None =>
      if bool_decide (token = "") || (64 <? len token) || (leaseUntilMS <=? nowMS)
      then (Err (Errorf "invalid minute audit lease"), q)
      else
        match q.(AuditQueue.minuteAuditTasks) !! id with
        | None => (Ok false, q)
        | Some task =>
            if negb (minuteAuditTaskDue task nowMS) then (Ok false, q)
            else (Ok true, AuditQueue.set_tasks
                    (<[id := leased token nowMS leaseUntilMS task]> q.(AuditQueue.minuteAuditTasks)) q)
        end
  end.

Definition LoadMinuteAuditTask (ctx : context) (id : Z) (q : AuditQueue)
    : result go_error (option MinuteAuditTask) :=
  match ctx with
  | Some err => Err err
  | None => Ok (q.(AuditQueue.minuteAuditTasks) !! id)
  end.

(** The order of the due list: next attempt, then ID. *)
Definition due_less : MinuteAuditTask → MinuteAuditTask → bool :=
  less_lex (less_by MinuteAuditTask.NextAttemptMS) (less_by MinuteAuditTask.ID).

Definition in_work_group (kind exchange : string) (nowMS : Z) (task : MinuteAuditTask) : bool :=
  if (bool_decide (kind = "daily") && negb (bool_decide (task.(MinuteAuditTask.Kind) = "daily")))
     || (bool_decide (kind = "non_daily") && bool_decide (task.(MinuteAuditTask.Kind) = "daily"))
  then false
  else (bool_decide (exchange = "") || EqualFold task.(MinuteAuditTask.Exchange) exchange)
       && minuteAuditTaskDue task nowMS.

Definition listDueMinuteAuditTasks (ctx : context) (exchange kind : string) (nowMS limit : Z)
    (q : AuditQueue) : result go_error (list MinuteAuditTask) :=
  match ctx with
  | Some err => Err err
  | None =>
      let limit := if limit <=? 0 then 100 else limit in
      let tasks := sort_slice due_less
        (List.filter (in_work_group kind exchange nowMS)
           (snd <$> map_to_list q.(AuditQueue.minuteAuditTasks))) in
      Ok (if limit <? Z.of_nat (length tasks) then take (Z.to_nat limit) tasks else tasks)
  end.

Definition ListDueMinuteAuditTasks (ctx : context) (exchange : string) (nowMS limit : Z) (q : AuditQueue)
    : result go_error (list MinuteAuditTask) :=
  listDueMinuteAuditTasks ctx exchange "" nowMS limit q.

Definition ListDueMinuteAuditTasksByKind (ctx : context) (exchange kind : string) (nowMS limit : Z)
    (q : AuditQueue) : result go_error (list MinuteAuditTask) :=
  if negb (bool_decide (kind = "daily")) && negb (bool_decide (kind = "non_daily"))
  then Err (Errorf "invalid minute audit work group %q")
  else listDueMinuteAuditTasks ctx exchange kind nowMS limit q.

Definition terminal (status : string) : bool :=
  bool_decide (status ∈ ["completed"; "excluded"; "expired"]).

Definition minute_week_ms : Z := 604800000.

(** The task after [FinishMinuteAuditTask] keeps it. *)
Definition finished (outcome : string) (nextAttemptMS : Z) (forceReplay : bool) (lastError : string)
    (nowMS : Z) (task : MinuteAuditTask) : MinuteAuditTask :=
  let task := MinuteAuditTask.set_Status outcome task in
  let task := MinuteAuditTask.set_LeaseToken "" task in
  let task := MinuteAuditTask.set_LeaseUntilMS 0 task in
  let task := MinuteAuditTask.set_NextAttemptMS nextAttemptMS task in
  let task := MinuteAuditTask.set_ForceReplay forceReplay task in
  let task := MinuteAuditTask.set_LastError (TruncateMinuteAuditError lastError) task in
  MinuteAuditTask.set_UpdatedAtMS nowMS task.

(** Deleting the terminal tasks last updated before [cutoff]. *)
Definition prune (cutoff : Z) (tasks : gmap Z MinuteAuditTask) : gmap Z MinuteAuditTask :=
  filter (fun '(_, old) => negb (terminal old.(MinuteAuditTask.Status)
                                 && (old.(MinuteAuditTask.UpdatedAtMS) <? cutoff)) = true) tasks.

Definition FinishMinuteAuditTask (ctx : context) (id : Z) (token outcome : string) (nextAttemptMS : Z)
    (forceReplay : bool) (lastError : string) (nowMS : Z) (q : AuditQueue)
    : result go_error unit * AuditQueue :=
  match ctx with
  | Some err => (Err err, q)
  | None =>
      match NormalizeMinuteAuditOutcome outcome with
      | Err err => (Err err, q)
      | Ok outcome =>
          match q.(AuditQueue.minuteAuditTasks) !! id with
          | None => (Ok tt, q)
          | Some task =>
              if terminal task.(MinuteAuditTask.Status) then (Ok tt, q)
              else if negb (bool_decide (task.(MinuteAuditTask.Status) = "running"))
                      || negb (bool_decide (task.(MinuteAuditTask.LeaseToken) = token))
                      || (task.(MinuteAuditTask.LeaseUntilMS) <=? nowMS)
              then (Err ErrMinuteAuditLeaseLost, q)
              else if bool_decide (outcome = "completed")
                      && negb (bool_decide (task.(MinuteAuditTask.Kind) = "daily"))
              then (Ok tt, AuditQueue.set_tasks (delete id q.(AuditQueue.minuteAuditTasks)) q)
              else
                let task := finished outcome nextAttemptMS forceReplay lastError nowMS task in
                let tasks := <[id := task]> q.(AuditQueue.minuteAuditTasks) in
                let tasks :=
                  if bool_decide (task.(MinuteAuditTask.Kind) = "daily")
                     || bool_decide (outcome = "excluded") || bool_decide (outcome = "expired")
                  then prune (i64 (nowMS - minute_week_ms)) tasks else tasks in
                (Ok tt, AuditQueue.set_tasks tasks q)
          end
      end
  end.

Definition minuteAuditCursorKey (exchange symbol kind : string) : string :=
  (ToLower exchange ++ ":" ++ ToUpper symbol ++ ":" ++ ToLower kind)%string.

Definition LoadMinuteAuditCursor (ctx : context) (exchange symbol kind : string) (q : AuditQueue)
    : result go_error (option MinuteAuditCursor) :=
  match ctx with
  | Some err => Err err
  | None => Ok (q.(AuditQueue.minuteAuditCursors) !! minuteAuditCursorKey exchange symbol kind)
  end.

Definition SaveMinuteAuditCursor (ctx : context) (cursor : MinuteAuditCursor) (q : AuditQueue)
    : result go_error unit * AuditQueue :=
  match ctx with
  | Some err => (Err err, q)
  | None =>
      match NormalizeMinuteAuditCursor cursor with
      | Err err => (Err err, q)
      | Ok cursor =>
          let key := minuteAuditCursorKey cursor.(MinuteAuditCursor.Exchange)
                       cursor.(MinuteAuditCursor.Symbol) cursor.(MinuteAuditCursor.Kind) in
          let previous := default MinuteAuditCursor.zero (q.(AuditQueue.minuteAuditCursors) !! key) in
          let cursor :=
            if cursor.(MinuteAuditCursor.ThroughMS) <? previous.(MinuteAuditCursor.ThroughMS)
            then MinuteAuditCursor.set_ThroughMS previous.(MinuteAuditCursor.ThroughMS) cursor else cursor in
          let cursor :=
            if cursor.(MinuteAuditCursor.UpdatedAtMS) <? previous.(MinuteAuditCursor.UpdatedAtMS)
            then MinuteAuditCursor.set_UpdatedAtMS previous.(MinuteAuditCursor.UpdatedAtMS) cursor else cursor in
          (Ok tt, AuditQueue.mk q.(AuditQueue.minuteAuditTasks)
                    (<[key := cursor]> q.(AuditQueue.minuteAuditCursors)) q.(AuditQueue.minuteAuditNextID))
      end
  end.

(** ** The summary *)

Definition minuteAuditDayStart (startMS : Z) : Z := i64 (Z.quot startMS DayMS * DayMS).

Section add_summary.
Import MinuteAuditSummary.

(** The switch of [addMinuteAuditSummary]: the counters and [unverified].
    The counters count map entries, so they do not wrap. *)
Definition count_status (summary : MinuteAuditSummary) (task : MinuteAuditTask) (nowMS : Z)
    : MinuteAuditSummary * bool :=
  let status := task.(MinuteAuditTask.Status) in
  if bool_decide (status = "pending") || bool_decide (status = "retry")
  then (set_Pending (summary.(Pending) + 1) summary, true)
  else if bool_decide (status = "running") then
    (if task.(MinuteAuditTask.LeaseUntilMS) <=? nowMS
     then set_Pending (summary.(Pending) + 1) summary
     else set_Running (summary.(Running) + 1) summary, true)
  else if bool_decide (status = "blocked") then (set_Blocked (summary.(Blocked) + 1) summary, true)
  else if bool_decide (status = "expired") then (set_Expired (summary.(Expired) + 1) summary, false)
  else if bool_decide (status = "excluded") then (set_Excluded (summary.(Excluded) + 1) summary, false)
  else (summary, false).

Definition addMinuteAuditSummary (nowMS : Z) (summary : MinuteAuditSummary) (task : MinuteAuditTask)
    : MinuteAuditSummary :=
  let '(summary, unverified) := count_status summary task nowMS in
  let summary :=
    if unverified && ((summary.(OldestStartMS) =? 0)
                      || (task.(MinuteAuditTask.StartMS) <? summary.(OldestStartMS)))
    then set_OldestStartMS task.(MinuteAuditTask.StartMS) summary else summary in
  if bool_decide (task.(MinuteAuditTask.Kind) = "daily")
     && (summary.(DailyDayStartMS) <? minuteAuditDayStart task.(MinuteAuditTask.StartMS))
  then set_DailyDayStartMS (minuteAuditDayStart task.(MinuteAuditTask.StartMS)) summary else summary.

(** The second loop. *)
Definition count_daily (summary : MinuteAuditSummary) (task : MinuteAuditTask) : MinuteAuditSummary :=
  if bool_decide (task.(MinuteAuditTask.Kind) = "daily")
     && (minuteAuditDayStart task.(MinuteAuditTask.StartMS) =? summary.(DailyDayStartMS))
  then
    let summary := set_DailyTotal (summary.(DailyTotal) + 1) summary in
    if bool_decide (task.(MinuteAuditTask.Status) = "completed")
    then set_DailyCompleted (summary.(DailyCompleted) + 1) summary else summary
  else summary.
End add_summary.

Definition MinuteAuditSummary_ (ctx : context) (nowMS : Z) (q : AuditQueue)
    : result go_error MinuteAuditSummary :=
  match ctx with
  | Some err => Err err
  | None =>
      let tasks := snd <$> map_to_list q.(AuditQueue.minuteAuditTasks) in
      let summary := MinuteAuditSummary.set_UpdatedAtMS nowMS MinuteAuditSummary.zero in
      let summary := foldl (addMinuteAuditSummary nowMS) summary tasks in
      Ok (foldl count_daily summary tasks)
  end.

#[global] Arguments EnqueueMinuteAuditTask : simpl never.
#[global] Arguments LeaseMinuteAuditTask : simpl never.
#[global] Arguments FinishMinuteAuditTask : simpl never.
#[global] Arguments SaveMinuteAuditCursor : simpl never.
#[global] Arguments listDueMinuteAuditTasks : simpl never.
#[global] Arguments NormalizeMinuteAuditTask : simpl never.

(** ** The invariant of the queue *)

Definition audit_status (status : string) : bool :=
  bool_decide (status ∈ ["pending"; "running"; "retry"; "blocked"; "completed"; "excluded"; "expired"]).

(** A task of the queue: a valid identity and minute range, and a lease token
    exactly while it runs. *)
Record task_wf (t : MinuteAuditTask) : Prop := {
  wf_exchange : t.(MinuteAuditTask.Exchange) ≠ "";
  wf_symbol : t.(MinuteAuditTask.Symbol) ≠ "";
  wf_kind : audit_kind t.(MinuteAuditTask.Kind) = true;
  wf_range : 0 < t.(MinuteAuditTask.StartMS) <= t.(MinuteAuditTask.EndMS);
  wf_start : Z.rem t.(MinuteAuditTask.StartMS) 60000 = 0;
  wf_end : Z.rem t.(MinuteAuditTask.EndMS) 60000 = 0;
  wf_status : audit_status t.(MinuteAuditTask.Status) = true;
  wf_lease : if bool_decide (t.(MinuteAuditTask.Status) = "running")
             then t.(MinuteAuditTask.LeaseToken) ≠ ""
             else t.(MinuteAuditTask.LeaseToken) = "" ∧ t.(MinuteAuditTask.LeaseUntilMS) = 0;
}.

Record queue_wf (q : AuditQueue) : Prop := {
  wf_next : 0 <= q.(AuditQueue.minuteAuditNextID);
  wf_ids : ∀ id t, q.(AuditQueue.minuteAuditTasks) !! id = Some t →
    t.(MinuteAuditTask.ID) = id ∧ 1 <= id <= q.(AuditQueue.minuteAuditNextID);
  wf_tasks : ∀ id t, q.(AuditQueue.minuteAuditTasks) !! id = Some t → task_wf t;
  wf_unique : ∀ id1 id2 t1 t2,
    q.(AuditQueue.minuteAuditTasks) !! id1 = Some t1 →
    q.(AuditQueue.minuteAuditTasks) !! id2 = Some t2 →
    same_work t1 t2 = true → id1 = id2;
}.

Lemma same_work_spec t1 t2 :
  same_work t1 t2 = true ↔
  t2.(MinuteAuditTask.Exchange) = t1.(MinuteAuditTask.Exchange) ∧
  t2.(MinuteAuditTask.Symbol) = t1.(MinuteAuditTask.Symbol) ∧
  t2.(MinuteAuditTask.Kind) = t1.(MinuteAuditTask.Kind) ∧
  t2.(MinuteAuditTask.StartMS) = t1.(MinuteAuditTask.StartMS) ∧
  t2.(MinuteAuditTask.EndMS) = t1.(MinuteAuditTask.EndMS).
Proof. unfold same_work. rewrite !andb_true_iff, !bool_decide_eq_true, !Z.eqb_eq. tauto. Qed.

(** Operations on a stored task keep its identity. *)
Definition same_identity (t t' : MinuteAuditTask) : Prop :=
  t'.(MinuteAuditTask.ID) = t.(MinuteAuditTask.ID) ∧ same_work t t' = true.

Lemma default_times_fields now t :
  let t' := default_times now t in
  t'.(MinuteAuditTask.Exchange) = t.(MinuteAuditTask.Exchange) ∧
  t'.(MinuteAuditTask.Symbol) = t.(MinuteAuditTask.Symbol) ∧
  t'.(MinuteAuditTask.Kind) = t.(MinuteAuditTask.Kind) ∧
  t'.(MinuteAuditTask.StartMS) = t.(MinuteAuditTask.StartMS) ∧
  t'.(MinuteAuditTask.EndMS) = t.(MinuteAuditTask.EndMS).
Proof. unfold default_times. destruct t. cbn. repeat case_inner; split_and!; reflexivity. Qed.

(** What normalisation accepts, and what it returns. *)
Lemma Normalize_task_wf now t t' :
  NormalizeMinuteAuditTask now t = Ok t' →
  task_wf t' ∧ t'.(MinuteAuditTask.Status) = "pending" ∧
  t'.(MinuteAuditTask.Exchange) = ToLower (TrimSpace t.(MinuteAuditTask.Exchange)) ∧
  t'.(MinuteAuditTask.Symbol) = ToUpper (TrimSpace t.(MinuteAuditTask.Symbol)) ∧
  t'.(MinuteAuditTask.Kind) = ToLower (TrimSpace t.(MinuteAuditTask.Kind)) ∧
  t'.(MinuteAuditTask.StartMS) = t.(MinuteAuditTask.StartMS) ∧
  t'.(MinuteAuditTask.EndMS) = t.(MinuteAuditTask.EndMS).
Proof.
  unfold NormalizeMinuteAuditTask.
  set (t1 := MinuteAuditTask.set_Kind _ _).
  assert (Hf : t1.(MinuteAuditTask.Exchange) = ToLower (TrimSpace t.(MinuteAuditTask.Exchange)) ∧
    t1.(MinuteAuditTask.Symbol) = ToUpper (TrimSpace t.(MinuteAuditTask.Symbol)) ∧
    t1.(MinuteAuditTask.Kind) = ToLower (TrimSpace t.(MinuteAuditTask.Kind)) ∧
    t1.(MinuteAuditTask.StartMS) = t.(MinuteAuditTask.StartMS) ∧
    t1.(MinuteAuditTask.EndMS) = t.(MinuteAuditTask.EndMS)) by (by destruct t).
  destruct Hf as (<- & <- & <- & <- & <-). clearbody t1.
  destruct (_ || _ || _ || _ || _) eqn:E1; [done|].
  destruct (negb _) eqn:E2; [done|].
  destruct ((_ <=? _) || _ || _ || _) eqn:E3; [done|]. zbool.
  repeat match goal with H : bool_decide _ = false |- _ => apply bool_decide_eq_false in H end.
  destruct (default_times_fields now t1) as (Hd1 & Hd2 & Hd3 & Hd4 & Hd5).
  rewrite <- Hd1, <- Hd2, <- Hd3, <- Hd4, <- Hd5 in *.
  destruct (default_times now t1). simpl in *. intros [= <-]. simpl.
  split; [|done]. split; simpl; try done; lia.
Qed.

Lemma leased_fields token nowMS untilMS t :
  let t' := leased token nowMS untilMS t in
  same_identity t t' ∧ t'.(MinuteAuditTask.Status) = "running" ∧
  t'.(MinuteAuditTask.LeaseToken) = token ∧ t'.(MinuteAuditTask.LeaseUntilMS) = untilMS ∧
  (token ≠ "" → task_wf t → task_wf t').
Proof.
  unfold same_identity. rewrite same_work_spec. destruct t. split_and!; try reflexivity.
  intros Htok []. by split.
Qed.

Lemma NormalizeOutcome_Ok o o' :
  NormalizeMinuteAuditOutcome o = Ok o' →
  o' = (if bool_decide (o = "done") then "completed" else o) ∧
  audit_status o' = true ∧ o' ≠ "running" ∧ o' ≠ "pending".
Proof.
  unfold NormalizeMinuteAuditOutcome. case_bool_decide as Hd; [|done].
  intros [= <-]. split; [done|]. revert Hd. generalize (if bool_decide (o = "done") then "completed" else o).
  intros s Hs. unfold audit_status. rewrite bool_decide_eq_true. set_solver.
Qed.

Lemma finished_fields o next force err nowMS t :
  let t' := finished o next force err nowMS t in
  same_identity t t' ∧ t'.(MinuteAuditTask.Status) = o ∧
  t'.(MinuteAuditTask.UpdatedAtMS) = nowMS ∧
  (audit_status o = true → o ≠ "running" → task_wf t → task_wf t').
Proof.
  unfold same_identity. rewrite same_work_spec. destruct t. split_and!; try reflexivity.
  intros Ho Hr []. split; simpl in *; try done. by rewrite bool_decide_eq_false_2.
Qed.

(** Replacing a task by one of the same identity. *)
Lemma queue_wf_update q id t t' :
  queue_wf q → q.(AuditQueue.minuteAuditTasks) !! id = Some t → same_identity t t' → task_wf t' →
  queue_wf (AuditQueue.set_tasks (<[id := t']> q.(AuditQueue.minuteAuditTasks)) q).
Proof.
  intros Hq Ht [Hid Hw] Ht'. destruct Hq as [H1 H2 H3 H4].
  assert (Hlook : ∀ i x, (<[id := t']> q.(AuditQueue.minuteAuditTasks)) !! i = Some x →
    ∃ y, q.(AuditQueue.minuteAuditTasks) !! i = Some y ∧ same_identity y x ∧ task_wf x).
  { intros i x [[<- <-]|[_ Hx]]%lookup_insert_Some; [by exists t|].
    exists x. split_and!; [done|split; [done|]; by apply same_work_spec|by eapply H3]. }
  split; simpl; [done| | |].
  - intros i x (y & Hy & [Hyx _] & _)%Hlook. rewrite Hyx. by apply H2.
  - by intros i x (y & Hy & _ & Hx)%Hlook.
  - intros i1 i2 x1 x2 (y1 & Hy1 & [_ Hw1] & _)%Hlook (y2 & Hy2 & [_ Hw2] & _)%Hlook Hx.
    apply (H4 i1 i2 y1 y2 Hy1 Hy2). apply same_work_spec in Hw1, Hw2, Hx. apply same_work_spec.
    intuition congruence.
Qed.

Lemma queue_wf_subset q m :
  queue_wf q → m ⊆ q.(AuditQueue.minuteAuditTasks) → queue_wf (AuditQueue.set_tasks m q).
Proof.
  intros [H1 H2 H3 H4] Hm. split; simpl; [done| | |].
  - intros id t Ht. apply H2. by eapply lookup_weaken.
  - intros id t Ht. apply (H3 id). by eapply lookup_weaken.
  - intros id1 id2 t1 t2 Ht1 Ht2. apply H4; by eapply lookup_weaken.
Qed.

Lemma prune_subset cutoff m : prune cutoff m ⊆ m.
Proof. apply map_filter_subseteq. Qed.

Lemma enqueue_wf ctx now task q :
  queue_wf q → q.(AuditQueue.minuteAuditNextID) < two63 - 1 →
  queue_wf (snd (EnqueueMinuteAuditTask ctx now task q)).
Proof.
  intros Hq Hn. unfold EnqueueMinuteAuditTask. destruct ctx; [done|].
  destruct (NormalizeMinuteAuditTask now task) as [t|] eqn:En; [|done].
  apply Normalize_task_wf in En as (Ht & _).
  destruct (List.find _ _) as [ex|] eqn:Ef; [done|]. simpl.
  destruct Hq as [H1 H2 H3 H4].
  rewrite i64_id by (unfold int64_range, two63 in *; lia).
  set (nid := q.(AuditQueue.minuteAuditNextID) + 1).
  set (t' := MinuteAuditTask.set_ID nid t).
  assert (Hnew : ∀ i x, q.(AuditQueue.minuteAuditTasks) !! i = Some x → same_work t' x = false).
  { intros i x Hx. assert (same_work t' x = same_work t x) as -> by (by destruct t).
    eapply List.find_none; [exact Ef|]. apply list_elem_of_In, list_elem_of_fmap.
    exists (i, x). split; [done|]. by apply elem_of_map_to_list. }
  assert (Hsym : ∀ a b, same_work a b = same_work b a).
  { intros a b. apply eq_true_iff_eq. rewrite !same_work_spec. intuition congruence. }
  split; simpl; [lia| | |].
  - intros i x [[<- <-]|[_ Hx]]%lookup_insert_Some; [by destruct t; simpl in *; lia|].
    destruct (H2 i x Hx). lia.
  - intros i x [[<- <-]|[_ Hx]]%lookup_insert_Some; [|by eapply H3].
    subst t'. destruct t, Ht. by split.
  - intros i1 i2 x1 x2 [[<- <-]|[_ Hx1]]%lookup_insert_Some [[<- <-]|[_ Hx2]]%lookup_insert_Some Hw;
      [done| | |by eapply H4].
    + by rewrite (Hnew i2 x2) in Hw.
    + by rewrite Hsym, (Hnew i1 x1) in Hw.
Qed.

Lemma lease_wf ctx id token nowMS untilMS q :
  queue_wf q → queue_wf (snd (LeaseMinuteAuditTask ctx id token nowMS untilMS q)).
Proof.
  intros Hq. unfold LeaseMinuteAuditTask. destruct ctx; [done|].
  destruct (_ || _ || _) eqn:Et; [done|]. zbool.
  destruct (_ !! id) as [t|] eqn:El; [|done]. case_bool; [done|]. simpl.
  destruct (leased_fields token nowMS untilMS t) as (Hi & _ & _ & _ & Hw).
  eapply queue_wf_update; [done|exact El|exact Hi|].
  apply Hw; [by apply bool_decide_eq_false in H|by eapply wf_tasks].
Qed.

Lemma finish_wf ctx id token o next force err nowMS q :
  queue_wf q → queue_wf (snd (FinishMinuteAuditTask ctx id token o next force err nowMS q)).
Proof.
  intros Hq. unfold FinishMinuteAuditTask. destruct ctx; [done|].
  destruct (NormalizeMinuteAuditOutcome o) as [o'|] eqn:Eo; [|done].
  apply NormalizeOutcome_Ok in Eo as (_ & Ho1 & Ho2 & _).
  destruct (_ !! id) as [t|] eqn:El; [|done]. case_bool; [done|]. case_bool; [done|].
  case_bool; simpl; [apply queue_wf_subset; [done|apply delete_subseteq]|].
  destruct (finished_fields o' next force err nowMS t) as (Hi & _ & _ & Hw).
  assert (Hu : queue_wf (AuditQueue.set_tasks
    (<[id := finished o' next force err nowMS t]> q.(AuditQueue.minuteAuditTasks)) q)).
  { eapply queue_wf_update; [done|exact El|exact Hi|]. apply Hw; [done..|]. by eapply wf_tasks. }
  case_bool; [|exact Hu]. exact (queue_wf_subset _ _ Hu (prune_subset _ _)).
Qed.

Lemma cursor_wf ctx cursor q : queue_wf q → queue_wf (snd (SaveMinuteAuditCursor ctx cursor q)).
Proof.
  intros Hq. unfold SaveMinuteAuditCursor. destruct ctx; [done|].
  destruct (NormalizeMinuteAuditCursor cursor); [|done]. simpl. destruct Hq. by split.
Qed.

(** ** Runs of the queue *)

Inductive audit_op : Set :=
| OpEnqueue (now : Z) (task : MinuteAuditTask)
| OpLease (id : Z) (token : string) (nowMS leaseUntilMS : Z)
| OpFinish (id : Z) (token outcome : string) (nextAttemptMS : Z) (forceReplay : bool)
    (lastError : string) (nowMS : Z)
| OpCursor (cursor : MinuteAuditCursor).

Definition apply_audit_op (q : AuditQueue) (op : audit_op) : AuditQueue :=
  match op with
  | OpEnqueue now task => snd (EnqueueMinuteAuditTask None now task q)
  | OpLease id token nowMS untilMS => snd (LeaseMinuteAuditTask None id token nowMS untilMS q)
  | OpFinish id token o next force err nowMS =>
      snd (FinishMinuteAuditTask None id token o next force err nowMS q)
  | OpCursor cursor => snd (SaveMinuteAuditCursor None cursor q)
  end.

Definition audit_run (q : AuditQueue) (ops : list audit_op) : AuditQueue := foldl apply_audit_op q ops.

(** One step of the queue, for rule induction. *)
Inductive audit_step : AuditQueue → AuditQueue → Prop :=
| audit_step_op q op : q.(AuditQueue.minuteAuditNextID) < two63 - 1 → audit_step q (apply_audit_op q op).

Lemma apply_audit_op_wf q op :
  queue_wf q → q.(AuditQueue.minuteAuditNextID) < two63 - 1 → queue_wf (apply_audit_op q op).
Proof.
  intros Hq Hn. destruct op; simpl;
    [by apply enqueue_wf|by apply lease_wf|by apply finish_wf|by apply cursor_wf].
Qed.

Lemma empty_wf : queue_wf AuditQueue.empty.
Proof. split; simpl; try done; intros *; by rewrite ?lookup_empty. Qed.

Lemma audit_next_step q op :
  queue_wf q → q.(AuditQueue.minuteAuditNextID) < two63 - 1 →
  (apply_audit_op q op).(AuditQueue.minuteAuditNextID) <= q.(AuditQueue.minuteAuditNextID) + 1.
Proof.
  intros [Hq _ _ _] Hn. destruct op; simpl.
  - unfold EnqueueMinuteAuditTask. repeat dm; simpl; try lia.
    rewrite i64_id by (unfold int64_range, two63 in *; lia). lia.
  - unfold LeaseMinuteAuditTask. repeat dm; simpl; lia.
  - unfold FinishMinuteAuditTask. repeat dm; simpl; lia.
  - unfold SaveMinuteAuditCursor. repeat dm; simpl; lia.
Qed.

Lemma audit_run_wf ops q :
  queue_wf q → q.(AuditQueue.minuteAuditNextID) + Z.of_nat (length ops) < two63 - 1 →
  queue_wf (audit_run q ops) ∧
  (audit_run q ops).(AuditQueue.minuteAuditNextID)
    <= q.(AuditQueue.minuteAuditNextID) + Z.of_nat (length ops).
Proof.
  revert q. induction ops as [|op ops IH]; intros q Hq Hn; simpl in *; [split; [done|lia]|].
  pose proof (audit_next_step q op Hq ltac:(lia)).
  destruct (IH (apply_audit_op q op)) as [H1 H2]; [apply apply_audit_op_wf; [done|lia]|lia|].
  split; [done|]. simpl in H2. unfold audit_run in *. lia.
Qed.

(** *** A held lease *)

Definition held (q : AuditQueue) (id : Z) (token : string) (untilMS : Z) : Prop :=
  ∃ t, q.(AuditQueue.minuteAuditTasks) !! id = Some t ∧
    t.(MinuteAuditTask.Status) = "running" ∧ t.(MinuteAuditTask.LeaseToken) = token ∧
    t.(MinuteAuditTask.LeaseUntilMS) = untilMS.

(** Operations other than the holder's own finish, leases attempted before the
    lease runs out. *)
Definition leaves_lease (id : Z) (token : string) (untilMS : Z) (op : audit_op) : Prop :=
  match op with
  | OpLease id' _ nowMS _ => id' = id → nowMS < untilMS
  | OpFinish id' token' _ _ _ _ _ => id' = id → token' ≠ token
  | _ => True
  end.

Lemma lease_success id token nowMS untilMS q q' :
  LeaseMinuteAuditTask None id token nowMS untilMS q = (Ok true, q') →
  held q' id token untilMS ∧ nowMS < untilMS ∧ token ≠ "" ∧
  ∃ t, q.(AuditQueue.minuteAuditTasks) !! id = Some t ∧ minuteAuditTaskDue t nowMS = true.
Proof.
  unfold LeaseMinuteAuditTask. destruct (_ || _ || _) eqn:Et; [done|].
  destruct (_ !! id) as [t|] eqn:El; [|done]. destruct (minuteAuditTaskDue t nowMS) eqn:Ed; [|done].
  intros [= <-]. destruct (leased_fields token nowMS untilMS t) as (_ & Hs & Hk & Hu & _). zbool.
  split_and!; [|done|by apply bool_decide_eq_false in H|by eauto].
  eexists. split; [apply lookup_insert_eq|done].
Qed.

Lemma held_not_due q id token untilMS t nowMS :
  q.(AuditQueue.minuteAuditTasks) !! id = Some t → held q id token untilMS → nowMS < untilMS →
  minuteAuditTaskDue t nowMS = false.
Proof.
  intros Ht (t' & Ht' & Hs & Hk & Hu) Hnow. rewrite Ht in Ht'. injection Ht' as <-.
  unfold minuteAuditTaskDue. rewrite Hs. simpl. apply Z.leb_gt. lia.
Qed.

Lemma prune_running cutoff m id t :
  m !! id = Some t → terminal t.(MinuteAuditTask.Status) = false → prune cutoff m !! id = Some t.
Proof. intros Hm Ht. apply map_lookup_filter_Some. by rewrite Ht. Qed.

Lemma held_step q id token untilMS op :
  queue_wf q → q.(AuditQueue.minuteAuditNextID) < two63 - 1 →
  held q id token untilMS → leaves_lease id token untilMS op →
  held (apply_audit_op q op) id token untilMS.
Proof.
  intros Hq Hn Hheld Hop. destruct Hheld as (t & Ht & Hs & Hk & Hu) eqn:Eh.
  destruct op as [now task|id' token' nowMS until'|id' token' o next force err nowMS|cursor]; simpl.
  - unfold EnqueueMinuteAuditTask. repeat dm; try done. simpl.
    exists t. simpl. rewrite lookup_insert_ne; [done|].
    destruct (wf_ids q Hq id t Ht). destruct Hq.
    rewrite i64_id by (unfold int64_range, two63 in *; lia). lia.
  - unfold LeaseMinuteAuditTask. destruct (_ || _ || _); [done|].
    destruct (_ !! id') as [t'|] eqn:El; [|done].
    destruct (decide (id' = id)) as [->|Hne].
    + by rewrite (held_not_due q id token untilMS t' nowMS El Hheld (Hop eq_refl)).
    + case_bool; [done|]. exists t. simpl. by rewrite lookup_insert_ne.
  - unfold FinishMinuteAuditTask. destruct (NormalizeMinuteAuditOutcome o) as [o'|]; [|done].
    destruct (_ !! id') as [t'|] eqn:El; [|done]. case_bool; [done|].
    destruct (decide (id' = id)) as [->|Hne].
    + rewrite Ht in El. injection El as <-. rewrite Hk.
      rewrite (bool_decide_eq_false_2 (token = token')) by (intros ->; by apply Hop).
      by rewrite orb_true_r.
    + case_bool; [done|]. case_bool; simpl; exists t; simpl.
      * by rewrite lookup_delete_ne.
      * split; [|done]. case_bool; [apply prune_running|]; rewrite ?lookup_insert_ne by done; try done.
        by rewrite Hs.
  - unfold SaveMinuteAuditCursor. by repeat dm.
Qed.

Lemma held_run ops q id token untilMS :
  queue_wf q → q.(AuditQueue.minuteAuditNextID) + Z.of_nat (length ops) < two63 - 1 →
  held q id token untilMS → Forall (leaves_lease id token untilMS) ops →
  held (audit_run q ops) id token untilMS.
Proof.
  revert q. induction ops as [|op ops IH]; intros q Hq Hn Hh Hops; simpl in *; [done|].
  apply Forall_cons in Hops as [Hop Hops].
  pose proof (audit_next_step q op Hq ltac:(lia)).
  apply IH; [apply apply_audit_op_wf; [done|lia]|lia|apply held_step; [done|lia|done|done]|done].
Qed.

(** *** The summary as counts *)

Definition count {A} (P : A → bool) (l : list A) : Z := Z.of_nat (length (List.filter P l)).

Lemma count_app {A} (P : A → bool) l1 l2 : count P (l1 ++ l2) = count P l1 + count P l2.
Proof. unfold count. rewrite List.filter_app, length_app. lia. Qed.

Lemma count_one {A} (P : A → bool) x : count P [x] = if P x then 1 else 0.
Proof. unfold count. simpl. by destruct (P x). Qed.

Definition has_status (s : string) (t : MinuteAuditTask) : bool :=
  bool_decide (t.(MinuteAuditTask.Status) = s).

(** Waiting work: not started, to be retried, or running on a lease that ran out. *)
Definition waiting (nowMS : Z) (t : MinuteAuditTask) : bool :=
  has_status "pending" t || has_status "retry" t
  || (has_status "running" t && (t.(MinuteAuditTask.LeaseUntilMS) <=? nowMS)).
Definition at_work (nowMS : Z) (t : MinuteAuditTask) : bool :=
  has_status "running" t && negb (t.(MinuteAuditTask.LeaseUntilMS) <=? nowMS).
Definition unverified (nowMS : Z) (t : MinuteAuditTask) : bool :=
  waiting nowMS t || at_work nowMS t || has_status "blocked" t.
Definition daily_of (day : Z) (t : MinuteAuditTask) : bool :=
  bool_decide (t.(MinuteAuditTask.Kind) = "daily")
  && (minuteAuditDayStart t.(MinuteAuditTask.StartMS) =? day).

(** [o] is the earliest start of unverified work, 0 when there is none. *)
Definition oldest_ok (nowMS : Z) (l : list MinuteAuditTask) (o : Z) : Prop :=
  (o = 0 ∧ ∀ t, t ∈ l → unverified nowMS t = false) ∨
  (0 < o ∧
   (∃ t, t ∈ l ∧ unverified nowMS t = true ∧ t.(MinuteAuditTask.StartMS) = o) ∧
   ∀ t, t ∈ l → unverified nowMS t = true → o <= t.(MinuteAuditTask.StartMS)).

(** [d] is at least every daily task's day. *)
Definition day_ok (l : list MinuteAuditTask) (d : Z) : Prop :=
  ∀ t, t ∈ l → t.(MinuteAuditTask.Kind) = "daily" →
    minuteAuditDayStart t.(MinuteAuditTask.StartMS) <= d.

Lemma oldest_snoc nowMS l o t :
  oldest_ok nowMS l o → 0 < t.(MinuteAuditTask.StartMS) →
  oldest_ok nowMS (l ++ [t])
    (if unverified nowMS t && ((o =? 0) || (t.(MinuteAuditTask.StartMS) <? o))
     then t.(MinuteAuditTask.StartMS) else o).
Proof.
  intros Ho Hpos. unfold oldest_ok in *. setoid_rewrite elem_of_app.
  setoid_rewrite list_elem_of_singleton.
  destruct (unverified nowMS t) eqn:Eu; simpl.
  - destruct (o =? 0) eqn:E0; simpl; zbool.
    + destruct Ho as [[_ Hn]|[? _]]; [|lia]. right. split_and!; [done|eauto|].
      intros t' [Ht'| ->] Hu; [rewrite Hn in Hu by done; done|lia].
    + destruct Ho as [[? _]|(Hp & (t0 & Ht0 & Hu0 & Hs0) & Hmin)]; [lia|].
      destruct (t.(MinuteAuditTask.StartMS) <? o) eqn:El; zbool; right; split_and!; try done; eauto.
      * intros t' [Ht'| ->] Hu; [specialize (Hmin t' Ht' Hu)|]; lia.
      * intros t' [Ht'| ->] Hu; [by apply Hmin|done].
  - destruct Ho as [[-> Hn]|(Hp & (t0 & Ht0 & Hu0 & Hs0) & Hmin)].
    + left. split; [done|]. intros t' [Ht'| ->]; [by apply Hn|done].
    + right. split_and!; [done|eauto|]. intros t' [Ht'| ->] Hu; [by apply Hmin|congruence].
Qed.

Lemma day_snoc l d t :
  day_ok l d →
  day_ok (l ++ [t])
    (if bool_decide (t.(MinuteAuditTask.Kind) = "daily")
        && (d <? minuteAuditDayStart t.(MinuteAuditTask.StartMS))
     then minuteAuditDayStart t.(MinuteAuditTask.StartMS) else d).
Proof.
  intros Hd t' Hin Hk. apply elem_of_app in Hin as [Hin|Hin%list_elem_of_singleton].
  - specialize (Hd t' Hin Hk). case_bool; zbool; lia.
  - subst t'. rewrite bool_decide_eq_true_2 by done. simpl. case_bool; zbool; lia.
Qed.

(** The summary after the first loop has seen [l]. *)
Record summary_of (nowMS : Z) (l : list MinuteAuditTask) (s : MinuteAuditSummary) : Prop := {
  so_pending : s.(MinuteAuditSummary.Pending) = count (waiting nowMS) l;
  so_running : s.(MinuteAuditSummary.Running) = count (at_work nowMS) l;
  so_blocked : s.(MinuteAuditSummary.Blocked) = count (has_status "blocked") l;
  so_expired : s.(MinuteAuditSummary.Expired) = count (has_status "expired") l;
  so_excluded : s.(MinuteAuditSummary.Excluded) = count (has_status "excluded") l;
  so_oldest : oldest_ok nowMS l s.(MinuteAuditSummary.OldestStartMS);
  so_day : day_ok l s.(MinuteAuditSummary.DailyDayStartMS);
  so_daily : s.(MinuteAuditSummary.DailyTotal) = 0 ∧ s.(MinuteAuditSummary.DailyCompleted) = 0;
}.

(** One task of the first loop: the counters, then the minimum, then the day. *)
Lemma count_status_spec s t nowMS :
  let '(s', u) := count_status s t nowMS in
  s'.(MinuteAuditSummary.Pending) = s.(MinuteAuditSummary.Pending) + count (waiting nowMS) [t] ∧
  s'.(MinuteAuditSummary.Running) = s.(MinuteAuditSummary.Running) + count (at_work nowMS) [t] ∧
  s'.(MinuteAuditSummary.Blocked) = s.(MinuteAuditSummary.Blocked) + count (has_status "blocked") [t] ∧
  s'.(MinuteAuditSummary.Expired) = s.(MinuteAuditSummary.Expired) + count (has_status "expired") [t] ∧
  s'.(MinuteAuditSummary.Excluded) = s.(MinuteAuditSummary.Excluded) + count (has_status "excluded") [t] ∧
  s'.(MinuteAuditSummary.OldestStartMS) = s.(MinuteAuditSummary.OldestStartMS) ∧
  s'.(MinuteAuditSummary.DailyDayStartMS) = s.(MinuteAuditSummary.DailyDayStartMS) ∧
  s'.(MinuteAuditSummary.DailyTotal) = s.(MinuteAuditSummary.DailyTotal) ∧
  s'.(MinuteAuditSummary.DailyCompleted) = s.(MinuteAuditSummary.DailyCompleted) ∧
  u = unverified nowMS t.
Proof.
  rewrite !count_one. unfold count_status, unverified, waiting, at_work, has_status.
  destruct s, (bool_decide (t.(MinuteAuditTask.Status) = "pending")) eqn:E1,
    (bool_decide (t.(MinuteAuditTask.Status) = "retry")) eqn:E2,
    (bool_decide (t.(MinuteAuditTask.Status) = "running")) eqn:E3,
    (bool_decide (t.(MinuteAuditTask.Status) = "blocked")) eqn:E4,
    (bool_decide (t.(MinuteAuditTask.Status) = "expired")) eqn:E5,
    (bool_decide (t.(MinuteAuditTask.Status) = "excluded")) eqn:E6; bprop; try congruence; simpl;
    try case_bool; simpl; split_and!; lia || reflexivity.
Qed.

Lemma summary_snoc nowMS l s t :
  summary_of nowMS l s → 0 < t.(MinuteAuditTask.StartMS) →
  summary_of nowMS (l ++ [t]) (addMinuteAuditSummary nowMS s t).
Proof.
  intros [H1 H2 H3 H4 H5 Hold Hday [Hd1 Hd2]] Hpos. unfold addMinuteAuditSummary.
  pose proof (count_status_spec s t nowMS) as Hc.
  destruct (count_status s t nowMS) as [s1 u].
  destruct Hc as (C1 & C2 & C3 & C4 & C5 & Co & Cday & Ct & Cc & ->).
  pose proof (oldest_snoc nowMS l _ t Hold Hpos) as Ho'. pose proof (day_snoc l _ t Hday) as Hday'.
  rewrite <- Co in Ho'. rewrite <- Cday in Hday'.
  destruct s1; simpl in *; subst. revert Ho' Hday'.
  case_bool; simpl; case_bool; intros Ho' Hday';
    split; simpl; rewrite ?count_app; try done; lia.
Qed.

Lemma summary_fold nowMS l :
  (∀ t, t ∈ l → 0 < t.(MinuteAuditTask.StartMS)) →
  summary_of nowMS l (foldl (addMinuteAuditSummary nowMS)
                        (MinuteAuditSummary.set_UpdatedAtMS nowMS MinuteAuditSummary.zero) l).
Proof.
  induction l as [|t l IH] using rev_ind; intros Hpos; simpl.
  - split; try done; [by left; split; [|intros t Ht%elem_of_nil]|intros t Ht%elem_of_nil; done].
  - rewrite foldl_snoc. apply summary_snoc; [apply IH; set_solver|set_solver].
Qed.

(** The second loop changes the daily counters only. *)
Lemma count_daily_fold l s :
  let s' := foldl count_daily s l in
  s'.(MinuteAuditSummary.DailyTotal) = s.(MinuteAuditSummary.DailyTotal)
    + count (daily_of s.(MinuteAuditSummary.DailyDayStartMS)) l ∧
  s'.(MinuteAuditSummary.DailyCompleted) = s.(MinuteAuditSummary.DailyCompleted)
    + count (fun t => daily_of s.(MinuteAuditSummary.DailyDayStartMS) t && has_status "completed" t) l ∧
  s' = MinuteAuditSummary.set_DailyTotal s'.(MinuteAuditSummary.DailyTotal)
         (MinuteAuditSummary.set_DailyCompleted s'.(MinuteAuditSummary.DailyCompleted) s).
Proof.
  revert s. induction l as [|t l IH]; intros s.
  { destruct s. unfold count. simpl. split_and!; lia || done. }
  change (t :: l) with ([t] ++ l) at 2 3. rewrite !count_app, !count_one.
  simpl. destruct (IH (count_daily s t)) as (-> & -> & ->).
  unfold count_daily. fold (daily_of s.(MinuteAuditSummary.DailyDayStartMS) t).
  fold (has_status "completed" t).
  destruct s; simpl. destruct (daily_of _ t); simpl; [destruct (has_status "completed" t); simpl|];
    split_and!; lia || reflexivity.
Qed.

(** A task has one status. *)
Lemma count_statuses nowMS l :
  (∀ t, t ∈ l → audit_status t.(MinuteAuditTask.Status) = true) →
  count (waiting nowMS) l + count (at_work nowMS) l + count (has_status "blocked") l
  + count (has_status "expired") l + count (has_status "excluded") l + count (has_status "completed") l
  = Z.of_nat (length l).
Proof.
  induction l as [|t l IH]; intros Hs; [done|].
  change (t :: l) with ([t] ++ l) at 1 2 3 4 5 6. rewrite !count_app, !count_one.
  specialize (IH ltac:(set_solver)). specialize (Hs t ltac:(set_solver)).
  unfold audit_status in Hs. bprop.
  assert (1 = (if waiting nowMS t then 1 else 0) + (if at_work nowMS t then 1 else 0)
    + (if has_status "blocked" t then 1 else 0) + (if has_status "expired" t then 1 else 0)
    + (if has_status "excluded" t then 1 else 0) + (if has_status "completed" t then 1 else 0));
    [|simpl length; lia].
  clear IH. unfold waiting, at_work, has_status. set_unfold.
  destruct_or!; try done; rewrite Hs; simpl; first [reflexivity | by case_bool].
Qed.

Lemma cursor_key_norm exchange symbol kind :
  minuteAuditCursorKey (ToLower exchange) (ToUpper symbol) (ToLower kind)
  = minuteAuditCursorKey exchange symbol kind.
Proof. unfold minuteAuditCursorKey. by rewrite !ToLower_idem, ToUpper_idem. Qed.

(** The pruning after a finish spares a task that is not terminal, and the task
    just finished (its clock reading is not older than a week before itself). *)
Lemma finish_keeps (b : bool) id nowMS (m : gmap Z MinuteAuditTask) t :
  (∃ t', m !! id = Some t' ∧ t'.(MinuteAuditTask.UpdatedAtMS) = nowMS) ∨
  (m !! id = Some t ∧ terminal t.(MinuteAuditTask.Status) = false) →
  0 <= nowMS < two63 →
  (if b then prune (i64 (nowMS - minute_week_ms)) m else m) !! id ≠ None.
Proof.
  intros Hm Hnow. destruct b; [|by destruct Hm as [(? & -> & _)|[-> _]]].
  destruct Hm as [(t' & Hm & Hu)|[Hm Ht]]; [|by rewrite (prune_running _ _ _ t)].
  enough (prune (i64 (nowMS - minute_week_ms)) m !! id = Some t') as -> by done.
  apply map_lookup_filter_Some. split; [done|]. simpl. rewrite Hu.
  rewrite i64_id by (unfold int64_range, two63, minute_week_ms in *; lia).
  assert (nowMS <? nowMS - minute_week_ms = false) as -> by (apply Z.ltb_ge; unfold minute_week_ms; lia).
  by rewrite andb_false_r.
Qed.

(** ** Properties *)

(** every queue the operations reach from the empty one is well formed: IDs
    are the keys and were handed out, identities are valid and pairwise
    different, statuses are among the seven, and a task has a lease token exactly
    while it runs. *)
Theorem audit_queue_invariant ops :
  Z.of_nat (length ops) < two63 - 1 → queue_wf (audit_run AuditQueue.empty ops).
Proof. intros Hn. apply audit_run_wf; [apply empty_wf|simpl; lia]. Qed.

Definition sample_task : MinuteAuditTask :=
  MinuteAuditTask.set_Exchange " OKX " (MinuteAuditTask.set_Symbol "btc-usdt" (MinuteAuditTask.set_Kind "window"
    (MinuteAuditTask.mk 0 "" "" "" "" 1779262200000 1779262260000 0 true "" 0 0 0 "" false "" 5 5))).

Definition sample_ops : list audit_op :=
  [OpEnqueue 1 sample_task; OpEnqueue 2 sample_task; OpLease 1 "a" 10 20; OpLease 1 "b" 12 30].

Example audit_queue_invariant_witness :
  queue_wf (audit_run AuditQueue.empty sample_ops) ∧
  (MinuteAuditTask.LeaseToken <$>
     (audit_run AuditQueue.empty sample_ops).(AuditQueue.minuteAuditTasks) !! 1) = Some "a".
Proof. split; [apply audit_queue_invariant; unfold two63; simpl; lia|reflexivity]. Defined.

(** C38: a lease excludes everybody else until it runs out.  After a successful
    lease, whatever operations follow (other than the holder's own finish), and
    as long as the lease has not run out: nobody can lease the task, a finish
    with any other token fails with [ErrMinuteAuditLeaseLost] and changes
    nothing, and the holder's finish with a valid outcome succeeds. *)
Theorem lease_exclusive q id token nowMS untilMS q1 ops :
  queue_wf q → q.(AuditQueue.minuteAuditNextID) + Z.of_nat (length ops) < two63 - 1 →
  LeaseMinuteAuditTask None id token nowMS untilMS q = (Ok true, q1) →
  Forall (leaves_lease id token untilMS) ops →
  let q2 := audit_run q1 ops in
  (∀ token' now' until', now' < untilMS →
     LeaseMinuteAuditTask None id token' now' until' q2
     = (if bool_decide (token' = "") || (64 <? len token') || (until' <=? now')
        then Err (Errorf "invalid minute audit lease") else Ok false, q2)) ∧
  (∀ token' o o' next force err now', token' ≠ token → NormalizeMinuteAuditOutcome o = Ok o' →
     FinishMinuteAuditTask None id token' o next force err now' q2 = (Err ErrMinuteAuditLeaseLost, q2)) ∧
  (∀ o o' next force err now', NormalizeMinuteAuditOutcome o = Ok o' → now' < untilMS →
     fst (FinishMinuteAuditTask None id token o next force err now' q2) = Ok tt).
Proof.
  intros Hq Hn Hl Hops q2.
  destruct (lease_success _ _ _ _ _ _ Hl) as (Hh & _ & _ & _).
  assert (Hq1 : queue_wf q1) by (pose proof (lease_wf None id token nowMS untilMS q Hq) as H; by rewrite Hl in H).
  assert (Hn1 : q1.(AuditQueue.minuteAuditNextID) = q.(AuditQueue.minuteAuditNextID)).
  { revert Hl. unfold LeaseMinuteAuditTask. repeat dm; congruence || (intros [= <-]; done). }
  assert (Hh2 : held q2 id token untilMS) by (apply held_run; [done|lia|done|done]).
  pose proof Hh2 as (t & Ht & Hs & Hk & Hu). split_and!.
  - intros token' now' until' Hlt. unfold LeaseMinuteAuditTask. case_bool; [done|].
    rewrite Ht, (held_not_due q2 id token untilMS t now' Ht Hh2 Hlt). done.
  - intros token' o o' next force err now' Hne Ho. unfold FinishMinuteAuditTask.
    rewrite Ho, Ht, Hs, Hk. simpl. rewrite (bool_decide_eq_false_2 (token = token')) by congruence. done.
  - intros o o' next force err now' Ho Hlt. unfold FinishMinuteAuditTask.
    rewrite Ho, Ht, Hs, Hk, Hu. simpl. rewrite bool_decide_eq_true_2 by done.
    assert (untilMS <=? now' = false) as -> by (apply Z.leb_gt; lia). simpl. by case_bool.
Qed.

Example lease_exclusive_witness :
  let q := audit_run AuditQueue.empty [OpEnqueue 1 sample_task] in
  ∃ q1, LeaseMinuteAuditTask None 1 "a" 10 20 q = (Ok true, q1) ∧
    fst (FinishMinuteAuditTask None 1 "b" "completed" 0 false "" 15
           (audit_run q1 [OpLease 1 "b" 12 30])) = Err ErrMinuteAuditLeaseLost.
Proof.
  intros q. eexists. split; [reflexivity|].
  assert (Hq : queue_wf q) by (apply (audit_run_wf [OpEnqueue 1 sample_task] AuditQueue.empty empty_wf); done).
  destruct (lease_exclusive q 1 "a" 10 20 _ [OpLease 1 "b" 12 30] Hq ltac:(unfold two63; vm_compute; done) eq_refl)
    as (_ & H & _).
  - constructor; [|constructor]. simpl. lia.
  - by rewrite (H "b" "completed" "completed" 0 false "" 15 ltac:(discriminate) eq_refl).
Defined.

(** work is durable.  A task whose status is not terminal leaves the queue
    only by its own completion: a finish with outcome "completed" (or "done") by
    the holder of its lease, in time, of a task that is not daily. *)
Theorem audit_task_durable q op id t :
  queue_wf q → q.(AuditQueue.minuteAuditNextID) < two63 - 1 →
  q.(AuditQueue.minuteAuditTasks) !! id = Some t →
  terminal t.(MinuteAuditTask.Status) = false →
  (∀ i tk o n f e now, op = OpFinish i tk o n f e now → 0 <= now < two63) →
  (apply_audit_op q op).(AuditQueue.minuteAuditTasks) !! id = None →
  ∃ o next force err nowMS,
    op = OpFinish id t.(MinuteAuditTask.LeaseToken) o next force err nowMS ∧
    (o = "completed" ∨ o = "done") ∧ t.(MinuteAuditTask.Kind) ≠ "daily" ∧
    t.(MinuteAuditTask.Status) = "running" ∧ nowMS < t.(MinuteAuditTask.LeaseUntilMS).
Proof.
  intros Hq Hn Ht Hterm Hclock Hgone.
  destruct op as [now task|id' token' nowMS until'|id' token' o next force err nowMS|cursor]; simpl in Hgone.
  - exfalso. revert Hgone. unfold EnqueueMinuteAuditTask. repeat dm; simpl; try congruence.
    intros H%lookup_insert_None. destruct H. congruence.
  - exfalso. revert Hgone. unfold LeaseMinuteAuditTask. repeat dm; simpl; try congruence.
    intros H%lookup_insert_None. destruct H. congruence.
  - revert Hgone. unfold FinishMinuteAuditTask.
    destruct (NormalizeMinuteAuditOutcome o) as [o'|] eqn:Eo; [|simpl; congruence].
    destruct (_ !! id') as [t'|] eqn:El; [|simpl; congruence].
    case_bool; [simpl; congruence|]. destruct (_ || _ || _) eqn:Eg; [simpl; congruence|].
    destruct (bool_decide (o' = "completed") && _) eqn:Ec; simpl.
    + intros [<-|]%lookup_delete_None; [|congruence]. rewrite Ht in El. injection El as <-.
      apply NormalizeOutcome_Ok in Eo as (Eo & _). bprop. subst token'.
      exists o, next, force, err, nowMS. split_and!; try done.
      subst o'. case_bool_decide; auto.
    + intros Hgone. exfalso. revert Hgone. specialize (Hclock _ _ _ _ _ _ _ eq_refl).
      apply (finish_keeps _ _ _ _ t); [|done].
      destruct (decide (id' = id)) as [->|Hne]; [left|right; by rewrite lookup_insert_ne].
      eexists. split; [apply lookup_insert_eq|]. by apply finished_fields.
  - exfalso. revert Hgone. unfold SaveMinuteAuditCursor. repeat dm; simpl; congruence.
Qed.

Example audit_task_durable_witness :
  let q := audit_run AuditQueue.empty [OpEnqueue 1 sample_task; OpLease 1 "a" 10 20] in
  (apply_audit_op q (OpFinish 1 "a" "done" 0 false "" 15)).(AuditQueue.minuteAuditTasks) !! 1 = None ∧
  ∃ t, q.(AuditQueue.minuteAuditTasks) !! 1 = Some t ∧ t.(MinuteAuditTask.Kind) ≠ "daily".
Proof.
  intros q. split; [reflexivity|].
  assert (∃ t, q.(AuditQueue.minuteAuditTasks) !! 1 = Some t ∧
    terminal t.(MinuteAuditTask.Status) = false) as (t & Ht & Hterm) by (eexists; split; reflexivity).
  exists t. split; [exact Ht|].
  assert (Hq : queue_wf q)
    by (apply (audit_run_wf [OpEnqueue 1 sample_task; OpLease 1 "a" 10 20] AuditQueue.empty empty_wf); done).
  destruct (audit_task_durable q (OpFinish 1 "a" "done" 0 false "" 15) 1 t Hq
              ltac:(unfold two63; vm_compute; done) Ht Hterm)
    as (o & n & f & e & now & _ & _ & Hk & _); [|reflexivity|exact Hk].
  intros * [= <- <- <- <- <- <- <-]. unfold two63. lia.
Defined.

(** The due list is what a worker may lease: every task listed is due and
    of the requested group and exchange, the list is ordered by next attempt and
    then ID and holds each task once, and a due task is left out only when the
    list is full, and then no listed task comes after it. *)
Theorem due_list_complete q exchange kind nowMS limit out :
  queue_wf q → listDueMinuteAuditTasks None exchange kind nowMS limit q = Ok out →
  let cap := if limit <=? 0 then 100 else limit in
  (∀ t, t ∈ out → q.(AuditQueue.minuteAuditTasks) !! t.(MinuteAuditTask.ID) = Some t ∧
                  in_work_group kind exchange nowMS t = true) ∧
  StronglySorted (not_after due_less) out ∧ NoDup out ∧ Z.of_nat (length out) <= cap ∧
  (∀ id t, q.(AuditQueue.minuteAuditTasks) !! id = Some t → in_work_group kind exchange nowMS t = true →
     t ∈ out ∨ (Z.of_nat (length out) = cap ∧ ∀ o, o ∈ out → due_less t o = false)).
Proof.
  intros Hq. unfold listDueMinuteAuditTasks. cbv zeta. set (cap := if limit <=? 0 then 100 else limit).
  set (due := List.filter _ _). set (s := sort_slice due_less due).
  assert (Hcap : 0 < cap) by (subst cap; case_bool; zbool; lia).
  assert (Hdue : ∀ t, t ∈ due ↔ (∃ id, q.(AuditQueue.minuteAuditTasks) !! id = Some t) ∧
    in_work_group kind exchange nowMS t = true).
  { intros t. unfold due. rewrite !list_elem_of_In, List.filter_In, <- !list_elem_of_In.
    setoid_rewrite list_elem_of_fmap. split; intros [H1 H2]; (split; [|done]).
    - destruct H1 as ([i x] & -> & Hx). exists i. by apply elem_of_map_to_list in Hx.
    - destruct H1 as [i Hx]. exists (i, t). split; [done|]. by apply elem_of_map_to_list. }
  assert (Hnd : NoDup s).
  { unfold s. rewrite sort_slice_perm. apply NoDup_ListNoDup, List.NoDup_filter, NoDup_ListNoDup.
    apply (NoDup_fmap_1 MinuteAuditTask.ID). rewrite <- list_fmap_compose.
    erewrite list_fmap_ext; [apply (NoDup_fst_map_to_list q.(AuditQueue.minuteAuditTasks))|].
    intros i [id t] Hi. apply list_elem_of_lookup_2, elem_of_map_to_list in Hi.
    by destruct (wf_ids q Hq id t Hi). }
  assert (Hs : StronglySorted (not_after due_less) s) by (apply sort_slice_sorted; apply _).
  assert (Hel : ∀ t, t ∈ s ↔ t ∈ due) by (intros t; unfold s; by rewrite sort_slice_perm).
  clearbody s due. intros E.
  assert (Hout : out = take (Z.to_nat cap) s).
  { destruct (cap <? Z.of_nat (length s)) eqn:El; injection E as <-; [done|]. zbool.
    by rewrite take_ge by lia. }
  pose proof (take_drop (Z.to_nat cap) s) as Htd. rewrite <- Hout in Htd.
  assert (Hin : ∀ t, t ∈ out → t ∈ due) by (intros t Ht; apply Hel; rewrite <- Htd; set_solver).
  split_and!.
  - intros t Ht. apply Hin, Hdue in Ht as [[id Hid] Hg]. split; [|done].
    by destruct (wf_ids q Hq id t Hid) as [-> _].
  - rewrite <- Htd in Hs. by eapply StronglySorted_app_1_l.
  - rewrite <- Htd in Hnd. by apply NoDup_app in Hnd as [? _].
  - rewrite Hout, length_take. lia.
  - intros id t Ht Hg. assert (Hts : t ∈ s) by (apply Hel, Hdue; eauto).
    rewrite <- Htd in Hts. apply elem_of_app in Hts as [?|Hts]; [by left|right]. split.
    + assert (drop (Z.to_nat cap) s ≠ []) as Hne by (intros Hn; rewrite Hn in Hts; by apply elem_of_nil in Hts).
      assert (length (drop (Z.to_nat cap) s) ≠ 0%nat) as Hl by by destruct (drop _ s).
      rewrite length_drop in Hl. rewrite Hout, length_take. lia.
    + intros o Ho. rewrite <- Htd in Hs. by eapply (StronglySorted_app_1_elem_of _ _ _ _ _ Hs).
Qed.

Example due_list_complete_witness :
  let q := audit_run AuditQueue.empty [OpEnqueue 1 sample_task] in
  ∃ out t, ListDueMinuteAuditTasks None "okx" 10 5 q = Ok out ∧
    q.(AuditQueue.minuteAuditTasks) !! 1 = Some t ∧ t ∈ out.
Proof.
  intros q. assert (∃ t, q.(AuditQueue.minuteAuditTasks) !! 1 = Some t ∧
    in_work_group "" "okx" 10 t = true) as (t & Ht & Hg) by (eexists; split; reflexivity).
  eexists _, t. split; [reflexivity|]. split; [exact Ht|].
  assert (Hq : queue_wf q) by (apply (audit_run_wf [OpEnqueue 1 sample_task] AuditQueue.empty empty_wf); done).
  destruct (due_list_complete q "okx" "" 10 5 _ Hq eq_refl) as (_ & _ & _ & _ & H).
  destruct (H 1 t Ht Hg) as [Hin|[Hl _]]; [exact Hin|]. exfalso. revert Hl. vm_compute. discriminate.
Defined.

(** The summary accounts for every task once: waiting (due leases that ran
    out included), running, blocked, expired and excluded tasks and the completed
    ones add up to the queue; the oldest start is the least start of unverified
    work (0 when there is none); and the daily counters cover the latest day of
    any daily task. *)
Theorem minute_audit_summary q nowMS s :
  queue_wf q → MinuteAuditSummary_ None nowMS q = Ok s →
  let tasks := snd <$> map_to_list q.(AuditQueue.minuteAuditTasks) in
  s.(MinuteAuditSummary.Pending) = count (waiting nowMS) tasks ∧
  s.(MinuteAuditSummary.Running) = count (at_work nowMS) tasks ∧
  s.(MinuteAuditSummary.Pending) + s.(MinuteAuditSummary.Running) + s.(MinuteAuditSummary.Blocked)
    + s.(MinuteAuditSummary.Expired) + s.(MinuteAuditSummary.Excluded)
    + count (has_status "completed") tasks = Z.of_nat (size q.(AuditQueue.minuteAuditTasks)) ∧
  oldest_ok nowMS tasks s.(MinuteAuditSummary.OldestStartMS) ∧
  day_ok tasks s.(MinuteAuditSummary.DailyDayStartMS) ∧
  s.(MinuteAuditSummary.DailyTotal) = count (daily_of s.(MinuteAuditSummary.DailyDayStartMS)) tasks ∧
  s.(MinuteAuditSummary.DailyCompleted)
    = count (fun t => daily_of s.(MinuteAuditSummary.DailyDayStartMS) t && has_status "completed" t) tasks.
Proof.
  intros Hq E tasks. unfold MinuteAuditSummary_ in E. cbv zeta in E. fold tasks in E.
  assert (Hwf : ∀ t, t ∈ tasks → task_wf t).
  { intros t Ht. apply list_elem_of_fmap in Ht as ([id x] & -> & Hx).
    apply elem_of_map_to_list in Hx. by eapply wf_tasks. }
  assert (Hlen : length tasks = size q.(AuditQueue.minuteAuditTasks))
    by (unfold tasks; rewrite length_fmap; apply length_map_to_list).
  pose proof (summary_fold nowMS tasks) as Hsum.
  specialize (Hsum ltac:(intros t Ht; by destruct (wf_range t (Hwf t Ht)))).
  pose proof (count_statuses nowMS tasks ltac:(intros t Ht; by apply wf_status, Hwf)) as Hst.
  set (s1 := foldl (addMinuteAuditSummary nowMS) _ tasks) in *. clearbody s1.
  destruct (count_daily_fold tasks s1) as (Ht & Hc & Hrest).
  destruct Hsum as [H1 H2 H3 H4 H5 H6 H7 [H8 H9]].
  injection E as <-. rewrite Ht, Hc in *. rewrite Hrest. rewrite <- Hlen.
  destruct s1; simpl in *. subst. split_and!; try done; lia.
Qed.

Example minute_audit_summary_witness :
  let q := audit_run AuditQueue.empty sample_ops in
  ∃ s, MinuteAuditSummary_ None 15 q = Ok s ∧ s.(MinuteAuditSummary.Running) = 1 ∧
    s.(MinuteAuditSummary.Pending) + s.(MinuteAuditSummary.Running) + s.(MinuteAuditSummary.Blocked)
    + s.(MinuteAuditSummary.Expired) + s.(MinuteAuditSummary.Excluded)
    + count (has_status "completed") (snd <$> map_to_list q.(AuditQueue.minuteAuditTasks)) = 1.
Proof.
  intros q. eexists. split; [reflexivity|]. split; [reflexivity|].
  assert (Hq : queue_wf q) by (apply (audit_run_wf sample_ops AuditQueue.empty empty_wf); done).
  apply (minute_audit_summary q 15 _ Hq eq_refl).
Defined.

(** The registration cursor of a series never moves back: saving a cursor
    keeps the later of the two positions and touches no other cursor. *)
Theorem cursor_monotone q cursor q' exchange symbol kind :
  SaveMinuteAuditCursor None cursor q = (Ok tt, q') →
  let before := default MinuteAuditCursor.zero
    (q.(AuditQueue.minuteAuditCursors) !! minuteAuditCursorKey exchange symbol kind) in
  let after := default MinuteAuditCursor.zero
    (q'.(AuditQueue.minuteAuditCursors) !! minuteAuditCursorKey exchange symbol kind) in
  let own := minuteAuditCursorKey (TrimSpace cursor.(MinuteAuditCursor.Exchange))
               (TrimSpace cursor.(MinuteAuditCursor.Symbol)) (TrimSpace cursor.(MinuteAuditCursor.Kind)) in
  before.(MinuteAuditCursor.ThroughMS) <= after.(MinuteAuditCursor.ThroughMS) ∧
  (minuteAuditCursorKey exchange symbol kind = own →
   after.(MinuteAuditCursor.ThroughMS)
   = Z.max before.(MinuteAuditCursor.ThroughMS) cursor.(MinuteAuditCursor.ThroughMS)) ∧
  (minuteAuditCursorKey exchange symbol kind ≠ own → after = before).
Proof.
  unfold SaveMinuteAuditCursor, NormalizeMinuteAuditCursor. destruct cursor as [ex sy ki th up].
  cbn [MinuteAuditCursor.set_Exchange MinuteAuditCursor.set_Symbol MinuteAuditCursor.set_Kind
    MinuteAuditCursor.Exchange MinuteAuditCursor.Symbol MinuteAuditCursor.Kind
    MinuteAuditCursor.ThroughMS MinuteAuditCursor.UpdatedAtMS].
  case_bool; [done|]. intros [= <-].
  rewrite !cursor_key_norm.
  set (own := minuteAuditCursorKey (TrimSpace ex) (TrimSpace sy) (TrimSpace ki)).
  set (key := minuteAuditCursorKey exchange symbol kind). cbv zeta. simpl.
  rewrite lookup_insert. destruct (decide (own = key)) as [<-|Hne]; simpl.
  - set (prev := default MinuteAuditCursor.zero (q.(AuditQueue.minuteAuditCursors) !! own)).
    destruct (th <? prev.(MinuteAuditCursor.ThroughMS)) eqn:E; zbool; simpl;
      case_bool; simpl; split_and!; (done || lia).
  - split_and!; [lia|congruence|done].
Qed.

Example cursor_monotone_witness :
  ∃ q', SaveMinuteAuditCursor None (MinuteAuditCursor.mk "OKX" "btc" "daily" 500 1) AuditQueue.empty = (Ok tt, q') ∧
    (default MinuteAuditCursor.zero (q'.(AuditQueue.minuteAuditCursors) !! "okx:BTC:daily")).(MinuteAuditCursor.ThroughMS)
    = Z.max 0 500.
Proof.
  eexists. split; [reflexivity|].
  destruct (cursor_monotone AuditQueue.empty (MinuteAuditCursor.mk "OKX" "btc" "daily" 500 1) _ "okx" "BTC" "daily"
              eq_refl) as (_ & H & _).
  exact (H eq_refl).
Defined.
