(* ===== verification/Hub.v ===== *)
(** * The event hub (internal/realtime/hub.go)

    Subscribers have a bounded queue of 256 events; a publisher never waits: an
    event that finds a full queue is dropped and counted.

    [Hub] holds the subscribers ever made ([subs], the heap the [*Subscriber]
    pointers point to), the registered ones ([subscribers]), the sequence counter
    and what the observer has been told.  The operations are functions on this
    state.  The step relation [hub_step] splits them where the code releases its
    lock: [Publish] takes its number before it takes the read lock, and [Close]
    unregisters under the lock and closes the channel after it, so any number of
    publishers and closers interleave there.  A send on a closed channel and a
    second close of one panic in Go; here they give [None]. *)

From S2P Require Export Market.

Local Open Scope string_scope.
Local Open Scope Z_scope.
Local Open Scope list_scope.

Module Subscriber.
Record Subscriber : Type := mk {
  channels : gset string;
  events : list Event;
  closed : bool;
}.
End Subscriber.
Notation Subscriber := Subscriber.Subscriber.

Module Hub.
Record Hub : Type := mk {
  subs : gmap Z Subscriber;
  subscribers : gset Z;
  seq : Z;
  nextSub : Z;
  connections : Z;
  dropped : Z;
}.
End Hub.
Notation Hub := Hub.Hub.

Definition queue_cap : Z := 256.

Definition NewHub : Hub := Hub.mk ∅ ∅ 0 0 0 0.

Definition TickerChannel (exchange symbol : string) : string :=
  ("ticker:" ++ exchange ++ ":" ++ symbol)%string.
Definition KlineChannel (exchange symbol tf : string) : string :=
  ("kline:" ++ exchange ++ ":" ++ symbol ++ ":" ++ tf)%string.

Definition eventChannels (event : Event) : list string :=
  if bool_decide (event.(Event.Type_) = "ticker")
  then [TickerChannel event.(Event.Exchange) event.(Event.Symbol)]
  else if bool_decide (event.(Event.Type_) = "kline")
  then [KlineChannel event.(Event.Exchange) event.(Event.Symbol) event.(Event.Timeframe)]
  else [].

Definition hasChannel (channel : string) (s : Subscriber) : bool :=
  bool_decide (channel ∈ s.(Subscriber.channels)).
Definition matches (channels : list string) (s : Subscriber) : bool :=
  existsb (fun channel => hasChannel channel s) channels.

Definition Subscribe (h : Hub) : Z * Hub :=
  let id := h.(Hub.nextSub) in
  (id, Hub.mk (<[id := Subscriber.mk ∅ [] false]> h.(Hub.subs)) ({[id]} ∪ h.(Hub.subscribers))
         h.(Hub.seq) (id + 1) (h.(Hub.connections) + 1) h.(Hub.dropped)).

Definition add_channel (channel : string) (s : Subscriber) : Subscriber :=
  Subscriber.mk ({[channel]} ∪ s.(Subscriber.channels)) s.(Subscriber.events) s.(Subscriber.closed).
Definition Add (id : Z) (channel : string) (h : Hub) : Hub :=
  Hub.mk (alter (add_channel channel) id h.(Hub.subs))
    h.(Hub.subscribers) h.(Hub.seq) h.(Hub.nextSub) h.(Hub.connections) h.(Hub.dropped).

(** [event.Seq = h.seq.Add(1)]. *)
Definition number_event (event : Event) (h : Hub) : Event * Hub :=
  let seq := i64 (h.(Hub.seq) + 1) in
  (Event.set_Seq seq event,
   Hub.mk h.(Hub.subs) h.(Hub.subscribers) seq h.(Hub.nextSub) h.(Hub.connections) h.(Hub.dropped)).

(** The registered subscribers the event goes to. *)
Definition recipient (event : Event) (h : Hub) (id : Z) (s : Subscriber) : bool :=
  bool_decide (id ∈ h.(Hub.subscribers)) && matches (eventChannels event) s.

Definition full (s : Subscriber) : bool := queue_cap <=? Z.of_nat (length s.(Subscriber.events)).

(** The [select] on one subscriber. *)
Definition offer (event : Event) (s : Subscriber) : Subscriber :=
  if full s then s
  else Subscriber.mk s.(Subscriber.channels) (s.(Subscriber.events) ++ [event]) s.(Subscriber.closed).

(** The loop over [h.subscribers]; the subscribers are independent, so its order
    does not show.  [None]: a send on a closed channel. *)
Definition deliver (event : Event) (h : Hub) : option Hub :=
  if existsb (fun '(id, s) => recipient event h id s && s.(Subscriber.closed)) (map_to_list h.(Hub.subs))
  then None
  else Some (Hub.mk
    (map_imap (fun id s => Some (if recipient event h id s then offer event s else s)) h.(Hub.subs))
    h.(Hub.subscribers) h.(Hub.seq) h.(Hub.nextSub) h.(Hub.connections)
    (h.(Hub.dropped) + Z.of_nat (length (List.filter
       (fun '(id, s) => recipient event h id s && full s) (map_to_list h.(Hub.subs)))))).

Definition Publish (event : Event) (h : Hub) : option Hub :=
  let '(event, h) := number_event event h in deliver event h.

Definition HasSubscribers (channel : string) (h : Hub) : bool :=
  existsb (fun '(id, s) => bool_decide (id ∈ h.(Hub.subscribers)) && hasChannel channel s)
    (map_to_list h.(Hub.subs)).

(** A receive from [Events()]. *)
Definition Receive (id : Z) (h : Hub) : option Event * Hub :=
  match h.(Hub.subs) !! id with
  | Some s =>
      match s.(Subscriber.events) with
      | e :: es => (Some e, Hub.mk (<[id := Subscriber.mk s.(Subscriber.channels) es s.(Subscriber.closed)]> h.(Hub.subs))
                              h.(Hub.subscribers) h.(Hub.seq) h.(Hub.nextSub) h.(Hub.connections) h.(Hub.dropped))
      | [] => (None, h)
      end
  | None => (None, h)
  end.

(** [Close] up to the unlock: whether the subscriber [existed]. *)
Definition unregister (id : Z) (h : Hub) : bool * Hub :=
  (bool_decide (id ∈ h.(Hub.subscribers)),
   Hub.mk h.(Hub.subs) (h.(Hub.subscribers) ∖ {[id]}) h.(Hub.seq) h.(Hub.nextSub)
     h.(Hub.connections) h.(Hub.dropped)).

(** The rest of [Close], for a subscriber that existed. *)
Definition close_channel (id : Z) (h : Hub) : option Hub :=
  match h.(Hub.subs) !! id with
  | Some s =>
      if s.(Subscriber.closed) then None
      else Some (Hub.mk (<[id := Subscriber.mk s.(Subscriber.channels) s.(Subscriber.events) true]> h.(Hub.subs))
                   h.(Hub.subscribers) h.(Hub.seq) h.(Hub.nextSub) (h.(Hub.connections) - 1) h.(Hub.dropped))
  | None => None
  end.

Definition Close (id : Z) (h : Hub) : option Hub :=
  let '(existed, h) := unregister id h in
  if existed then close_channel id h else Some h.

(** ** Interleavings *)

(** The hub with its publishers between the two halves of [Publish] and its
    closers between the two halves of [Close]. *)
Module HubSys.
Record HubSys : Type := mk {
  hub : Hub;
  in_flight : list Event;
  closing : list Z;
}.
End HubSys.
Notation HubSys := HubSys.HubSys.

Definition hub_init : HubSys := HubSys.mk NewHub [] [].

(** One atomic step; the target [None] is a panic. *)
Inductive hub_step : HubSys → option HubSys → Prop :=
| step_subscribe h fl cl :
    hub_step (HubSys.mk h fl cl) (Some (HubSys.mk (snd (Subscribe h)) fl cl))
| step_add h fl cl id channel :
    hub_step (HubSys.mk h fl cl) (Some (HubSys.mk (Add id channel h) fl cl))
| step_number h fl cl event :
    h.(Hub.seq) < two63 - 1 →
    hub_step (HubSys.mk h fl cl)
      (Some (HubSys.mk (snd (number_event event h)) (fst (number_event event h) :: fl) cl))
| step_deliver h fl1 event fl2 cl :
    hub_step (HubSys.mk h (fl1 ++ event :: fl2) cl)
      ((fun h' => HubSys.mk h' (fl1 ++ fl2) cl) <$> deliver event h)
| step_receive h fl cl id :
    hub_step (HubSys.mk h fl cl) (Some (HubSys.mk (snd (Receive id h)) fl cl))
| step_unregister h fl cl id :
    hub_step (HubSys.mk h fl cl)
      (Some (HubSys.mk (snd (unregister id h)) fl (if fst (unregister id h) then id :: cl else cl)))
| step_close h fl cl1 id cl2 :
    hub_step (HubSys.mk h fl (cl1 ++ id :: cl2))
      ((fun h' => HubSys.mk h' fl (cl1 ++ cl2)) <$> close_channel id h).

Inductive hub_reachable : HubSys → Prop :=
| reach_init : hub_reachable hub_init
| reach_step s s' : hub_reachable s → hub_step s (Some s') → hub_reachable s'.

(** ** The invariant *)

Definition seqs (l : list Event) : list Z := Event.Seq <$> l.

Record hub_inv (s : HubSys) : Prop := {
  hi_registered : ∀ id, id ∈ s.(HubSys.hub).(Hub.subscribers) →
    ∃ sub, s.(HubSys.hub).(Hub.subs) !! id = Some sub ∧ sub.(Subscriber.closed) = false;
  hi_closing : ∀ id, id ∈ s.(HubSys.closing) →
    id ∉ s.(HubSys.hub).(Hub.subscribers) ∧
    ∃ sub, s.(HubSys.hub).(Hub.subs) !! id = Some sub ∧ sub.(Subscriber.closed) = false;
  hi_closing_nodup : NoDup s.(HubSys.closing);
  hi_fresh : ∀ id, is_Some (s.(HubSys.hub).(Hub.subs) !! id) → id < s.(HubSys.hub).(Hub.nextSub);
  hi_queue : ∀ id sub, s.(HubSys.hub).(Hub.subs) !! id = Some sub →
    Z.of_nat (length sub.(Subscriber.events)) <= queue_cap;
  hi_flight : NoDup (seqs s.(HubSys.in_flight)) ∧
    (∀ n, n ∈ seqs s.(HubSys.in_flight) → n <= s.(HubSys.hub).(Hub.seq));
  hi_seqs : ∀ id sub, s.(HubSys.hub).(Hub.subs) !! id = Some sub →
    NoDup (seqs sub.(Subscriber.events)) ∧
    (∀ n, n ∈ seqs sub.(Subscriber.events) → n <= s.(HubSys.hub).(Hub.seq) ∧
                                             n ∉ seqs s.(HubSys.in_flight));
  hi_seq : 0 <= s.(HubSys.hub).(Hub.seq) < two63;
}.

Lemma deliver_spec event h h' :
  deliver event h = Some h' →
  h'.(Hub.subscribers) = h.(Hub.subscribers) ∧ h'.(Hub.seq) = h.(Hub.seq) ∧
  h'.(Hub.nextSub) = h.(Hub.nextSub) ∧
  (∀ id, h'.(Hub.subs) !! id =
     (fun s => if recipient event h id s then offer event s else s) <$> h.(Hub.subs) !! id).
Proof.
  unfold deliver. case_bool; [done|]. intros [= <-]. simpl. split_and!; try done.
  intros id. rewrite map_lookup_imap. by destruct (h.(Hub.subs) !! id).
Qed.

(** No recipient of an event has a closed channel. *)
Lemma deliver_no_panic s event : hub_inv s → is_Some (deliver event s.(HubSys.hub)).
Proof.
  intros Hi. unfold deliver. destruct (existsb _ _) eqn:E; [|by eexists]. exfalso.
  apply existsb_exists in E as ([id sub] & Hin & Hb).
  apply list_elem_of_In, elem_of_map_to_list in Hin. unfold recipient in Hb. bprop.
  destruct (hi_registered s Hi id) as (sub' & Hsub & Hcl); [done|]. congruence.
Qed.

Lemma offer_closed event s : (offer event s).(Subscriber.closed) = s.(Subscriber.closed).
Proof. unfold offer. by case_bool. Qed.

Lemma offer_events event s :
  (offer event s).(Subscriber.events) = if full s then s.(Subscriber.events)
                                        else s.(Subscriber.events) ++ [event].
Proof. unfold offer. by case_bool. Qed.

Lemma inv_number s event :
  hub_inv s → s.(HubSys.hub).(Hub.seq) < two63 - 1 →
  hub_inv (HubSys.mk (snd (number_event event s.(HubSys.hub)))
             (fst (number_event event s.(HubSys.hub)) :: s.(HubSys.in_flight)) s.(HubSys.closing)).
Proof.
  intros [H1 H2 H3 H4 H5 [H6 H6'] H7 H8] Hn.
  assert (Hseq : i64 (s.(HubSys.hub).(Hub.seq) + 1) = s.(HubSys.hub).(Hub.seq) + 1)
    by (apply i64_id; unfold int64_range, two63 in *; lia).
  split; simpl; try done; rewrite ?Hseq.
  - assert (Event.Seq (Event.set_Seq (s.(HubSys.hub).(Hub.seq) + 1) event) = s.(HubSys.hub).(Hub.seq) + 1)
      as -> by (by destruct event).
    split.
    + constructor; [|done]. intros Hin%H6'. lia.
    + intros n [->|Hin%H6']%elem_of_cons; lia.
  - intros id sub Hsub. destruct (H7 id sub Hsub) as [Hnd Hle]. split; [done|].
    intros n Hn'. destruct (Hle n Hn'). split; [lia|].
    assert (Event.Seq (Event.set_Seq (s.(HubSys.hub).(Hub.seq) + 1) event) = s.(HubSys.hub).(Hub.seq) + 1)
      as -> by (by destruct event).
    rewrite not_elem_of_cons. split; [lia|done].
  - lia.
Qed.

Lemma inv_deliver h fl1 event fl2 cl h' :
  hub_inv (HubSys.mk h (fl1 ++ event :: fl2) cl) → deliver event h = Some h' →
  hub_inv (HubSys.mk h' (fl1 ++ fl2) cl).
Proof.
  intros [H1 H2 H3 H4 H5 [H6 H6'] H7 H8] Hd. simpl in *.
  apply deliver_spec in Hd as (Er & Es & En & El).
  unfold seqs in *. rewrite fmap_app in H6, H6'. rewrite fmap_cons in H6, H6'.
  assert (Hperm : (Event.Seq <$> fl1) ++ event.(Event.Seq) :: (Event.Seq <$> fl2)
                  ≡ₚ event.(Event.Seq) :: (Event.Seq <$> fl1 ++ fl2))
    by (rewrite fmap_app; symmetry; apply Permutation_middle).
  rewrite Hperm in H6. apply NoDup_cons in H6 as [Hni Hnd].
  setoid_rewrite Hperm in H6'. setoid_rewrite elem_of_cons in H6'.
  split; simpl; rewrite ?Er, ?Es, ?En; try done.
  - intros id Hid. destruct (H1 id Hid) as (sub & Hsub & Hcl). rewrite El, Hsub. eexists. split; [done|].
    case_bool; [by rewrite offer_closed|done].
  - intros id Hid. destruct (H2 id Hid) as (Hnr & sub & Hsub & Hcl). split; [done|].
    rewrite El, Hsub. eexists. split; [done|]. case_bool; [by rewrite offer_closed|done].
  - intros id. rewrite El, fmap_is_Some. apply H4.
  - intros id sub Hsub. rewrite El in Hsub. apply fmap_Some in Hsub as (s0 & Hs0 & ->).
    specialize (H5 id s0 Hs0). case_bool; [|done]. rewrite offer_events.
    destruct (full s0) eqn:Ef; [done|]. unfold full in Ef. zbool. rewrite length_app. simpl. lia.
  - split; [done|]. intros n Hn. apply H6'. by right.
  - intros id sub Hsub. rewrite El in Hsub. apply fmap_Some in Hsub as (s0 & Hs0 & ->).
    destruct (H7 id s0 Hs0) as [Hnd0 Hle0].
    assert (Hold : ∀ n, n ∈ seqs s0.(Subscriber.events) → n <= h.(Hub.seq) ∧
      n ∉ Event.Seq <$> fl1 ++ fl2 ∧ n ≠ event.(Event.Seq)).
    { intros n Hn. destruct (Hle0 n Hn) as [? Hn']. rewrite fmap_app, fmap_cons, Hperm in Hn'.
      by apply not_elem_of_cons in Hn' as [? ?]. }
    case_bool; [rewrite offer_events; destruct (full s0)|];
      try (split; [done|intros n Hn; by destruct (Hold n Hn) as (? & ? & _)]).
    unfold seqs. rewrite fmap_app. split.
    + apply NoDup_app. split_and!; [done| |apply NoDup_singleton].
      intros n Hn Hn'. apply list_elem_of_singleton in Hn'. by destruct (Hold n Hn) as (_ & _ & ?).
    + intros n [Hn|Hn%list_elem_of_singleton]%elem_of_app;
        [by destruct (Hold n Hn) as (? & ? & _)|]. subst n. split; [apply H6'; by left|done].
Qed.

Lemma inv_receive s id :
  hub_inv s → hub_inv (HubSys.mk (snd (Receive id s.(HubSys.hub))) s.(HubSys.in_flight) s.(HubSys.closing)).
Proof.
  destruct s as [h fl cl]. simpl. intros Hi. unfold Receive.
  destruct (h.(Hub.subs) !! id) as [s0|] eqn:Es; [|done].
  destruct s0.(Subscriber.events) as [|e es] eqn:Ee; [done|].
  pose proof Hi as [H1 H2 H3 H4 H5 [H6 H6'] H7 H8]. simpl in *.
  set (s1 := Subscriber.mk s0.(Subscriber.channels) es s0.(Subscriber.closed)).
  assert (Hlook : ∀ i x, <[id := s1]> h.(Hub.subs) !! i = Some x →
    ∃ y, h.(Hub.subs) !! i = Some y ∧ x.(Subscriber.closed) = y.(Subscriber.closed) ∧
      (x.(Subscriber.events) = y.(Subscriber.events) ∨ ∃ e, e :: x.(Subscriber.events) = y.(Subscriber.events))).
  { intros i x [[<- <-]|[_ Hx]]%lookup_insert_Some; [|eauto].
    exists s0. split_and!; [done..|right; by exists e]. }
  assert (Hlook' : ∀ i y, h.(Hub.subs) !! i = Some y → y.(Subscriber.closed) = false →
    ∃ x, <[id := s1]> h.(Hub.subs) !! i = Some x ∧ x.(Subscriber.closed) = false).
  { intros i y Hy Hc. rewrite lookup_insert. case_decide; [|eauto]. subst i. exists s1.
    split; [done|]. simpl. congruence. }
  split; simpl; try done.
  - intros i Hr. destruct (H1 i Hr) as (y & Hy & Hc). eauto.
  - intros i Hr. destruct (H2 i Hr) as (? & y & Hy & Hc). eauto.
  - intros i [x Hx]. destruct (Hlook i x Hx) as (y & Hy & _). apply H4. eauto.
  - intros i x Hx. destruct (Hlook i x Hx) as (y & Hy & _ & [->|(e' & He)]); [by eapply H5|].
    specialize (H5 i y Hy). rewrite <- He in H5. simpl in H5. lia.
  - intros i x Hx. destruct (Hlook i x Hx) as (y & Hy & _ & [->|(e' & He)]); [by eapply H7|].
    destruct (H7 i y Hy) as [Hnd Hle]. rewrite <- He in Hnd, Hle. simpl in Hnd.
    apply NoDup_cons in Hnd as [_ Hnd]. split; [done|]. intros n Hn. apply Hle. by right.
Qed.

Lemma hub_step_inv s s' : hub_inv s → hub_step s s' → ∃ t, s' = Some t ∧ hub_inv t.
Proof.
  intros Hi Hstep. destruct Hstep as [h fl cl|h fl cl id channel|h fl cl event Hn|h fl1 event fl2 cl
    |h fl cl id|h fl cl id|h fl cl1 id cl2].
  - eexists. split; [done|]. destruct Hi as [H1 H2 H3 H4 H5 [H6 H6'] H7 H8]. simpl in *.
    assert (Hfresh : h.(Hub.subs) !! h.(Hub.nextSub) = None).
    { destruct (h.(Hub.subs) !! h.(Hub.nextSub)) eqn:E; [|done].
      specialize (H4 h.(Hub.nextSub)). rewrite E in H4. specialize (H4 ltac:(eauto)). lia. }
    split; simpl; try done.
    + intros id Hid. rewrite lookup_insert. case_decide; [by eexists|].
      apply H1. set_solver.
    + intros id Hid. destruct (H2 id Hid) as (Hnr & sub & Hsub & Hcl).
      rewrite lookup_insert_ne by congruence. split; [|eauto].
      rewrite not_elem_of_union, not_elem_of_singleton. split; [congruence|done].
    + intros id. rewrite lookup_insert_is_Some'. intros [<-|Hid]; [lia|]. specialize (H4 id Hid). lia.
    + intros id sub [[<- <-]|[_ Hs]]%lookup_insert_Some; [done|by eapply H5].
    + intros id sub [[<- <-]|[_ Hs]]%lookup_insert_Some; [|by eapply H7].
      split; [constructor|intros n Hn; by apply elem_of_nil in Hn].
  - eexists. split; [done|]. destruct Hi as [H1 H2 H3 H4 H5 H6 H7 H8]. simpl in *.
    set (f := add_channel channel).
    assert (Hlook : ∀ i x, alter f id h.(Hub.subs) !! i = Some x →
      ∃ y, h.(Hub.subs) !! i = Some y ∧ x.(Subscriber.closed) = y.(Subscriber.closed) ∧
           x.(Subscriber.events) = y.(Subscriber.events)).
    { intros i x. rewrite lookup_alter. case_decide as Hd; [subst i|eauto].
      intros (y & Hy & ->)%fmap_Some. exists y. by split_and!. }
    assert (Hlook' : ∀ i y, h.(Hub.subs) !! i = Some y → y.(Subscriber.closed) = false →
      ∃ x, alter f id h.(Hub.subs) !! i = Some x ∧ x.(Subscriber.closed) = false).
    { intros i y Hy Hc. rewrite lookup_alter. case_decide as Hd; [subst i|eauto]. rewrite Hy. by eexists. }
    split; simpl; try done.
    + intros i Hr. destruct (H1 i Hr) as (y & Hy & Hc). eauto.
    + intros i Hr. destruct (H2 i Hr) as (? & y & Hy & Hc). eauto.
    + intros i [x Hx]. destruct (Hlook i x Hx) as (y & Hy & _). apply H4. eauto.
    + intros i x Hx. destruct (Hlook i x Hx) as (y & Hy & _ & ->). by eapply H5.
    + intros i x Hx. destruct (Hlook i x Hx) as (y & Hy & _ & ->). by eapply H7.
  - eexists. split; [done|]. by apply (inv_number (HubSys.mk h fl cl)).
  - destruct (deliver_no_panic _ event Hi) as [h' Hd]. simpl in Hd. rewrite Hd. eexists. split; [done|].
    by eapply inv_deliver.
  - eexists. split; [done|]. by apply (inv_receive (HubSys.mk h fl cl)).
  - eexists. split; [done|]. destruct Hi as [H1 H2 H3 H4 H5 H6 H7 H8]. simpl in *.
    split; simpl; try done.
    + intros i Hi. apply H1. set_solver.
    + intros i Hi. case_bool_decide as Hd.
      * apply elem_of_cons in Hi as [->|Hi]; [split; [set_solver|by apply H1]|].
        destruct (H2 i Hi). split; [set_solver|done].
      * destruct (H2 i Hi). split; [set_solver|done].
    + case_bool_decide; [|done]. constructor; [|done]. intros Hin. by destruct (H2 id Hin).
  - destruct Hi as [H1 H2 H3 H4 H5 H6 H7 H8]. simpl in *.
    destruct (H2 id) as (Hnr & sub & Hsub & Hcl); [set_solver|].
    unfold close_channel. rewrite Hsub, Hcl. eexists. split; [done|].
    assert (Hperm : cl1 ++ id :: cl2 ≡ₚ id :: cl1 ++ cl2) by (symmetry; apply Permutation_middle).
    rewrite Hperm in H3. apply NoDup_cons in H3 as [Hni Hnd].
    split; simpl; try done.
    + intros i Hi. rewrite lookup_insert_ne by congruence. by apply H1.
    + intros i Hi. destruct (H2 i) as (? & ? & ? & ?); [set_solver|].
      rewrite lookup_insert_ne by congruence. eauto.
    + intros i. rewrite lookup_insert_is_Some'. intros [<-|?]; [|by apply H4]. apply H4. eauto.
    + intros i x [[<- <-]|[_ Hs]]%lookup_insert_Some; [by apply (H5 id sub)|by eapply H5].
    + intros i x [[<- <-]|[_ Hs]]%lookup_insert_Some; [by apply (H7 id sub)|by eapply H7].
Qed.

Lemma hub_init_inv : hub_inv hub_init.
Proof.
  split; simpl.
  - intros id Hid. by apply elem_of_empty in Hid.
  - intros id Hid. by apply elem_of_nil in Hid.
  - constructor.
  - intros id. rewrite lookup_empty. by intros [].
  - intros id sub. by rewrite lookup_empty.
  - split; [constructor|]. intros n Hn. by apply elem_of_nil in Hn.
  - intros id sub. by rewrite lookup_empty.
  - unfold two63. lia.
Qed.

Lemma hub_reachable_inv s : hub_reachable s → hub_inv s.
Proof.
  induction 1 as [|s s' Hr IH Hstep]; [apply hub_init_inv|].
  destruct (hub_step_inv s _ IH Hstep) as (t & [= <-] & Ht). done.
Qed.

(** ** Properties *)

(** C39: under every interleaving of publishers, readers and closers: no send on
    a closed channel and no double close can happen (no step panics); no queue
    grows past 256 events; and no subscriber holds the same sequence number
    twice. *)
Theorem hub_safe s :
  hub_reachable s →
  (¬ hub_step s None) ∧
  (∀ id sub, s.(HubSys.hub).(Hub.subs) !! id = Some sub →
     Z.of_nat (length sub.(Subscriber.events)) <= 256 ∧ NoDup (seqs sub.(Subscriber.events))).
Proof.
  intros Hr. pose proof (hub_reachable_inv s Hr) as Hi. split.
  - intros Hstep. by destruct (hub_step_inv s None Hi Hstep) as (t & ? & _).
  - intros id sub Hsub. split; [by apply (hi_queue s Hi id)|by apply (hi_seqs s Hi id sub Hsub)].
Qed.

Definition sample_event : Event := Event.mk "ticker" 0 "okx" "BTC" "" None None.

Definition sample_hub : Hub := Add 0 "ticker:okx:BTC" (snd (Subscribe NewHub)).

Lemma sample_hub_reachable : hub_reachable (HubSys.mk sample_hub [] []).
Proof.
  eapply reach_step; [|apply (step_add (snd (Subscribe NewHub)) [] [] 0 "ticker:okx:BTC")].
  eapply reach_step; [apply reach_init|]. apply step_subscribe.
Qed.

Example hub_safe_witness :
  hub_reachable (HubSys.mk sample_hub [] []) ∧ ¬ hub_step (HubSys.mk sample_hub [] []) None.
Proof. split; [exact sample_hub_reachable|]. apply (hub_safe _ sample_hub_reachable). Defined.

(** [Publish] hands the event, under the next number, to exactly the
    registered subscribers of one of its channels whose queue has room, each
    once and at the end of the queue; every other subscriber is untouched and
    the full ones among the recipients are counted as drops. *)
Theorem Publish_delivers s event :
  hub_reachable s → s.(HubSys.hub).(Hub.seq) < two63 - 1 →
  let h := s.(HubSys.hub) in
  ∃ h', Publish event h = Some h' ∧
    h'.(Hub.seq) = h.(Hub.seq) + 1 ∧
    (∀ id sub, h.(Hub.subs) !! id = Some sub →
       ∃ sub', h'.(Hub.subs) !! id = Some sub' ∧
         sub'.(Subscriber.events) =
           if bool_decide (id ∈ h.(Hub.subscribers)) && matches (eventChannels event) sub && negb (full sub)
           then sub.(Subscriber.events) ++ [Event.set_Seq (h.(Hub.seq) + 1) event]
           else sub.(Subscriber.events)) ∧
    h'.(Hub.dropped) = h.(Hub.dropped) + Z.of_nat (length (List.filter
       (fun '(id, sub) => bool_decide (id ∈ h.(Hub.subscribers)) && matches (eventChannels event) sub && full sub)
       (map_to_list h.(Hub.subs)))).
Proof.
  destruct s as [h fl cl]. simpl. intros Hr Hn. pose proof (hub_reachable_inv _ Hr) as Hi.
  assert (Hseq : i64 (h.(Hub.seq) + 1) = h.(Hub.seq) + 1)
    by (apply hi_seq in Hi; apply i64_id; unfold int64_range, two63 in *; simpl in Hi; lia).
  pose proof (inv_number _ event Hi Hn) as Hi'.
  destruct (deliver_no_panic _ (fst (number_event event h)) Hi') as [h' Hd]. simpl in Hd.
  exists h'. unfold Publish, number_event. simpl. rewrite Hseq in *. split; [exact Hd|].
  assert (Hch : eventChannels (Event.set_Seq (h.(Hub.seq) + 1) event) = eventChannels event)
    by (by destruct event).
  pose proof Hd as Hd'. apply deliver_spec in Hd' as (_ & Hs & _ & Hl). simpl in Hs, Hl. split_and!.
  - done.
  - intros id sub Hsub. rewrite Hl, Hsub. simpl. eexists. split; [done|].
    unfold recipient. simpl. rewrite Hch.
    destruct (bool_decide (id ∈ h.(Hub.subscribers)) && matches (eventChannels event) sub); simpl; [|done].
    rewrite offer_events. by destruct (full sub).
  - revert Hd. unfold deliver, recipient. simpl. rewrite Hch. case_bool; [done|]. by intros [= <-].
Qed.

Example Publish_delivers_witness :
  ∃ h', Publish sample_event sample_hub = Some h' ∧ h'.(Hub.seq) = 1.
Proof.
  destruct (Publish_delivers _ sample_event sample_hub_reachable ltac:(unfold two63; simpl; lia))
    as (h' & Hp & Hs & _).
  exists h'. split; [exact Hp|exact Hs].
Defined.

(** Closing is final and idempotent: in a reachable state with no close
    half done, [Close] of a registered subscriber succeeds, a second [Close]
    changes nothing, and no event published afterwards reaches the subscriber. *)
Theorem Close_final h event id :
  hub_reachable (HubSys.mk h [] []) → id ∈ h.(Hub.subscribers) → h.(Hub.seq) < two63 - 1 →
  ∃ h1 h2, Close id h = Some h1 ∧ Close id h1 = Some h1 ∧
    h1.(Hub.connections) = h.(Hub.connections) - 1 ∧
    Publish event h1 = Some h2 ∧ h2.(Hub.subs) !! id = h1.(Hub.subs) !! id.
Proof.
  intros Hr Hid Hn. pose proof (hub_reachable_inv _ Hr) as Hi.
  destruct (hi_registered _ Hi id Hid) as (sub & Hsub & Hcl). simpl in Hsub.
  assert (Hr1 : hub_reachable (HubSys.mk (snd (unregister id h)) [] [id])).
  { eapply reach_step; [exact Hr|]. pose proof (step_unregister h [] [] id) as Hu.
    simpl in Hu. by rewrite bool_decide_eq_true_2 in Hu. }
  set (h0 := snd (unregister id h)) in *.
  assert (Hc : ∃ h1, close_channel id h0 = Some h1 ∧ h1.(Hub.subscribers) = h0.(Hub.subscribers) ∧
    h1.(Hub.connections) = h.(Hub.connections) - 1 ∧ h1.(Hub.seq) = h.(Hub.seq)).
  { unfold close_channel. simpl. rewrite Hsub, Hcl. eexists. split_and!; reflexivity. }
  destruct Hc as (h1 & Hc & Hsubs & Hconn & Hseq).
  assert (Hr2 : hub_reachable (HubSys.mk h1 [] [])).
  { eapply reach_step; [exact Hr1|]. pose proof (step_close h0 [] [] id []) as Hs. simpl in Hs.
    rewrite Hc in Hs. exact Hs. }
  assert (Hnot : id ∉ h1.(Hub.subscribers)) by (rewrite Hsubs; simpl; set_solver).
  pose proof (hub_reachable_inv _ Hr2) as Hi2.
  destruct (deliver_no_panic _ (fst (number_event event h1))
    (inv_number _ event Hi2 ltac:(simpl; lia))) as [h2 Hd]. simpl in Hd.
  exists h1, h2. split_and!; [| |done|done|].
  - unfold Close. simpl. rewrite bool_decide_eq_true_2 by done. exact Hc.
  - unfold Close. simpl. rewrite bool_decide_eq_false_2 by done. f_equal.
    assert (h1.(Hub.subscribers) ∖ {[id]} = h1.(Hub.subscribers)) as -> by set_solver. by destruct h1.
  - apply deliver_spec in Hd as (_ & _ & _ & ->). unfold recipient. simpl.
    destruct (h1.(Hub.subs) !! id); [|done]. simpl. by rewrite bool_decide_eq_false_2.
Qed.

Example Close_final_witness :
  ∃ h1, Close 0 sample_hub = Some h1 ∧ Close 0 h1 = Some h1.
Proof.
  destruct (Close_final sample_hub sample_event 0 sample_hub_reachable ltac:(set_solver)
              ltac:(unfold two63; simpl; lia)) as (h1 & h2 & H1 & H2 & _).
  exists h1. split; [exact H1|exact H2].
Defined.
