(* ===== verification/Store.v ===== *)
(** * The in-memory historical store (internal/storage/memory.go,
    minute_verification.go, store.go)

    [BarStore] is the part of [MemoryHistoricalStore] with the candles and the
    verification generations; the other tables follow, and
    [MemoryHistoricalStore] puts them together with the audit queue and the
    symbol inventory.  Every method holds the mutex for its whole body, so a
    method is one function on the state.  A missing inner map is the empty map,
    as reading a nil map is in Go. *)

From S2P Require Export MinuteAudit SymbolSnapshot Aggregator.

Local Open Scope string_scope.
Local Open Scope Z_scope.
Local Open Scope list_scope.

(** ** Candles and verifications *)

Module BarStore.
Record BarStore : Type := mk {
  bars : gmap string (gmap Z Bar);
  minuteVerifiedAt : gmap string (gmap Z Z);
}.
Definition empty : BarStore := mk ∅ ∅.
End BarStore.
Notation BarStore := BarStore.BarStore.

Module VerifiedMinuteBar.
Record VerifiedMinuteBar : Set := mk { bar : Bar; VerifiedAtMS : Z }.
End VerifiedMinuteBar.
Notation VerifiedMinuteBar := VerifiedMinuteBar.VerifiedMinuteBar.

(** [m[k]] on a map of maps, and [m[k][i]] of the verification table. *)
Definition rows {A} (m : gmap string (gmap Z A)) (key : string) : gmap Z A := default ∅ (m !! key).
Definition put {A} (m : gmap string (gmap Z A)) (key : string) (i : Z) (x : A) : gmap string (gmap Z A) :=
  <[key := <[i := x]> (rows m key)]> m.
Definition verified_at (st : BarStore) (key : string) (start : Z) : Z :=
  default 0 (rows st.(BarStore.minuteVerifiedAt) key !! start).

Definition series_key (exchange symbol tf : string) : string :=
  ((ToLower exchange ++ ":" ++ ToUpper symbol) ++ ":" ++ tf)%string.
Definition bar_series (bar : Bar) : string :=
  series_key bar.(Bar.Exchange) bar.(Bar.Symbol) bar.(Bar.Timeframe).
Definition minuteVerificationKey (exchange symbol : string) : string := series_key exchange symbol "1m".

(** The body of the loop of [UpsertBars]. *)
Definition upsert_bar (st : BarStore) (bar : Bar) : BarStore :=
  let key := bar_series bar in
  if bool_decide (bar.(Bar.Timeframe) = "1m") && (0 <? verified_at st key bar.(Bar.StartMS)) then st
  else BarStore.mk (put st.(BarStore.bars) key bar.(Bar.StartMS) bar) st.(BarStore.minuteVerifiedAt).

Definition UpsertBars (bars : list Bar) (st : BarStore) : result go_error unit * BarStore :=
  (Ok tt, foldl upsert_bar st bars).

(** The starts of a map, in order. *)
Definition sorted_starts {A} (keep : Z → bool) (m : gmap Z A) : list Z :=
  sort_by id (List.filter keep (fst <$> map_to_list m)).

(** [rows[start]] for a start that came from the map. *)
Definition row_at (m : gmap Z Bar) (start : Z) : Bar := default Bar.zero (m !! start).

Definition RecentBars (query : KlineQuery) (st : BarStore) : result go_error (list Bar) :=
  let m := rows st.(BarStore.bars)
             (series_key query.(KlineQuery.Exchange) query.(KlineQuery.Symbol) query.(KlineQuery.Timeframe)) in
  let starts := sorted_starts (fun _ => true) m in
  let n := Z.of_nat (length starts) in
  let limit := if (query.(KlineQuery.Limit) <=? 0) || (n <? query.(KlineQuery.Limit))
               then n else query.(KlineQuery.Limit) in
  Ok ((fun start => DecorateBar (row_at m start)) <$> drop (Z.to_nat (n - limit)) starts).

Definition BarsInRange (exchange symbol tf : string) (startMS endMS : Z) (st : BarStore)
    : result go_error (list Bar) :=
  let m := rows st.(BarStore.bars) (series_key exchange symbol tf) in
  let starts := sorted_starts (fun start => (startMS <=? start) && (start <=? endMS)) m in
  Ok (DecorateBar <$> List.filter Bar.IsFinal (row_at m <$> starts)).

(** The starts the loop of [DeleteBarsInRange] deletes. *)
Definition in_range (startMS endMS start : Z) : bool := (startMS <=? start) && (start <=? endMS).

Definition DeleteBarsInRange (exchange symbol tf : string) (startMS endMS : Z) (st : BarStore)
    : result go_error Z * BarStore :=
  let key := series_key exchange symbol tf in
  let m := rows st.(BarStore.bars) key in
  let gone := List.filter (in_range startMS endMS) (fst <$> map_to_list m) in
  let del {A} (m : gmap Z A) : gmap Z A := foldr delete m gone in
  (Ok (Z.of_nat (length gone)),
   BarStore.mk (alter del key st.(BarStore.bars)) (alter del key st.(BarStore.minuteVerifiedAt))).

Definition LoadMinuteVerifications (exchange symbol : string) (startMS endMS : Z) (st : BarStore)
    : result go_error (list VerifiedMinuteBar) :=
  let key := minuteVerificationKey exchange symbol in
  Ok ((fun '(start, bar) => VerifiedMinuteBar.mk (DecorateBar bar) (verified_at st key start)) <$>
      List.filter (fun '(start, bar) => (startMS <=? start) && (start <=? endMS) && bar.(Bar.IsFinal))
        (map_to_list (rows st.(BarStore.bars) key))).

Definition ErrGeneration : go_error := Errorf "minute verification generation must be positive".

(** The loop of [UpsertMinuteRevisions]: an error returns nil for the accepted
    bars, but what was written before it stays written. *)
Fixpoint upsert_revisions (bars : list Bar) (generationMS : Z) (accepted : list Bar) (st : BarStore)
    : result go_error (list Bar) * BarStore :=
  match bars with
  | [] => (Ok accepted, st)
  | bar :: rest =>
      if negb (bool_decide (bar.(Bar.Timeframe) = "1m")) || negb bar.(Bar.IsFinal)
      then (Err (Errorf "minute revision requires a final 1m bar"), st)
      else
        let key := minuteVerificationKey bar.(Bar.Exchange) bar.(Bar.Symbol) in
        if generationMS <? verified_at st key bar.(Bar.StartMS)
        then upsert_revisions rest generationMS accepted st
        else upsert_revisions rest generationMS (accepted ++ [bar])
               (BarStore.mk (put st.(BarStore.bars) key bar.(Bar.StartMS) bar) st.(BarStore.minuteVerifiedAt))
  end.

Definition UpsertMinuteRevisions (bars : list Bar) (generationMS : Z) (st : BarStore)
    : result go_error (list Bar) * BarStore :=
  if generationMS <=? 0 then (Err ErrGeneration, st) else upsert_revisions bars generationMS [] st.

(** The loop of [MarkMinutesVerified]. *)
Fixpoint mark_minutes (bars : list Bar) (generationMS : Z) (st : BarStore)
    : result go_error unit * BarStore :=
  match bars with
  | [] => (Ok tt, st)
  | bar :: rest =>
      let key := minuteVerificationKey bar.(Bar.Exchange) bar.(Bar.Symbol) in
      match rows st.(BarStore.bars) key !! bar.(Bar.StartMS) with
      | None => (Err (Errorf "minute values changed before verification: %s:%d"), st)
      | Some existing =>
          if negb (SameOfficialMinuteValues existing bar)
          then (Err (Errorf "minute values changed before verification: %s:%d"), st)
          else
            mark_minutes rest generationMS
              (if verified_at st key bar.(Bar.StartMS) <? generationMS
               then BarStore.mk st.(BarStore.bars)
                      (put st.(BarStore.minuteVerifiedAt) key bar.(Bar.StartMS) generationMS)
               else st)
      end
  end.

Definition MarkMinutesVerified (bars : list Bar) (generationMS : Z) (st : BarStore)
    : result go_error unit * BarStore :=
  if generationMS <=? 0 then (Err ErrGeneration, st) else mark_minutes bars generationMS st.

(** [ContinuousOneMinuteSeries]: the hours of a series with a final minute in
    the window, for the keys with three parts and timeframe "1m". *)
Definition final_hours (startMS endMS : Z) (m : gmap Z Bar) : gset Z :=
  list_to_set ((fun b => Z.quot b.(Bar.StartMS) 3600000) <$>
    List.filter (fun b => b.(Bar.IsFinal) && (startMS <=? b.(Bar.StartMS)) && (b.(Bar.StartMS) <=? endMS))
      (snd <$> map_to_list m)).

Definition minute_series_of (key : string) : option (string * string) :=
  match split_on (Ascii.ascii_of_nat 58) key with
  | [exchange; symbol; tf] => if bool_decide (tf = "1m") then Some (exchange, symbol) else None
  | _ => None
  end.

Definition ContinuousOneMinuteSeries (symbols : gmap string SymbolInfo) (startMS endMS minimumHours : Z)
    (st : BarStore) : result go_error (list MarketSeries) :=
  Ok (omap (fun '(key, m) =>
        '(exchange, symbol) ← minute_series_of key;
        let hours := final_hours startMS endMS m in
        if (Z.of_nat (size hours) =? 0) || (Z.of_nat (size hours) <? minimumHours) then None
        else
          let info := default SymbolInfo.zero (symbols !! (exchange ++ ":" ++ symbol)%string) in
          Some (MarketSeries.mk exchange symbol info.(SymbolInfo.MarketType)))
      (map_to_list st.(BarStore.bars))).

(** ** Symbols, guardian states and events, corporate actions *)

Definition symbol_key (exchange symbol : string) : string := (ToLower exchange ++ ":" ++ ToUpper symbol)%string.

Definition UpsertSymbols (symbols : list SymbolInfo) (m : gmap string SymbolInfo) : gmap string SymbolInfo :=
  foldl (fun m s => <[symbol_key s.(SymbolInfo.Exchange) s.(SymbolInfo.Symbol) := s]> m) m symbols.

(** [activeOnly] is a [*bool]. *)
Definition ListSymbols (exchange : string) (activeOnly : option bool) (m : gmap string SymbolInfo)
    : result go_error (list SymbolInfo) :=
  Ok (sort_slice (less_str SymbolInfo.Symbol)
        (List.filter (fun s =>
           bool_decide (ToLower s.(SymbolInfo.Exchange) = ToLower exchange)
           && match activeOnly with Some b => Bool.eqb s.(SymbolInfo.IsActive) b | None => true end)
           (snd <$> map_to_list m))).

Definition guardianStateKey (exchange symbol tf : string) : string := series_key exchange symbol tf.

Definition LoadKlineGuardianState (exchange symbol tf : string) (m : gmap string KlineGuardianState)
    : result go_error (option KlineGuardianState) := Ok (m !! guardianStateKey exchange symbol tf).

Definition UpsertKlineGuardianState (state : KlineGuardianState) (m : gmap string KlineGuardianState)
    : gmap string KlineGuardianState :=
  let state := KlineGuardianState.set_Exchange (ToLower state.(KlineGuardianState.Exchange)) state in
  let state := KlineGuardianState.set_Symbol (ToUpper state.(KlineGuardianState.Symbol)) state in
  <[guardianStateKey state.(KlineGuardianState.Exchange) state.(KlineGuardianState.Symbol)
      state.(KlineGuardianState.Timeframe) := state]> m.

Definition insert_event (events : list KlineGuardianEvent) (event : KlineGuardianEvent)
    : list KlineGuardianEvent :=
  let event := KlineGuardianEvent.set_ID (i64 (Z.of_nat (length events) + 1)) event in
  let event := KlineGuardianEvent.set_Exchange (ToLower event.(KlineGuardianEvent.Exchange)) event in
  let event := KlineGuardianEvent.set_Symbol (ToUpper event.(KlineGuardianEvent.Symbol)) event in
  events ++ [event].

Definition InsertKlineGuardianEvents (new events : list KlineGuardianEvent) : list KlineGuardianEvent :=
  foldl insert_event events new.

(** [fmt.Sprint] of an int64 is its decimal text. *)
Definition corporateActionJobKey (exchange symbol : string) (effectiveMS : Z) : string :=
  series_key exchange symbol (pretty effectiveMS).

Definition LoadCorporateActionJob (exchange symbol : string) (effectiveMS : Z)
    (m : gmap string CorporateActionJob) : result go_error (option CorporateActionJob) :=
  Ok (m !! corporateActionJobKey exchange symbol effectiveMS).

Definition job_key (job : CorporateActionJob) : string :=
  corporateActionJobKey job.(CorporateActionJob.Exchange) job.(CorporateActionJob.Symbol)
    job.(CorporateActionJob.EffectiveMS).

Definition InsertCorporateActionJob (job : CorporateActionJob) (m : gmap string CorporateActionJob)
    : gmap string CorporateActionJob :=
  let key := job_key job in
  let job :=
    match m !! key with
    | Some existing =>
        let job := CorporateActionJob.set_ID existing.(CorporateActionJob.ID) job in
        if bool_decide (job.(CorporateActionJob.Status) = "")
        then CorporateActionJob.set_Status existing.(CorporateActionJob.Status) job else job
    | None => job
    end in
  let job := if job.(CorporateActionJob.ID) =? 0
             then CorporateActionJob.set_ID (i64 (Z.of_nat (size m) + 1)) job else job in
  <[key := job]> m.

(** A job that has been running for ten minutes without an update. *)
Definition stale_running (nowMS : Z) (job : CorporateActionJob) : bool :=
  bool_decide (job.(CorporateActionJob.Status) = "running")
  && (0 <? job.(CorporateActionJob.UpdatedAtMS))
  && (600000 <=? i64 (nowMS - job.(CorporateActionJob.UpdatedAtMS))).

(** The body of the loop: skip, or the job listed (a stale one as "retry"). *)
Definition due_job (nowMS : Z) (job : CorporateActionJob) : option CorporateActionJob :=
  let status := job.(CorporateActionJob.Status) in
  let stale := stale_running nowMS job in
  if (negb (bool_decide (status = "pending")) && negb (bool_decide (status = "retry")) && negb stale)
     || (negb (bool_decide (status = "running")) && (0 <? job.(CorporateActionJob.NextRetryMS))
         && (nowMS <? job.(CorporateActionJob.NextRetryMS)))
  then None
  else Some (if stale then CorporateActionJob.set_Status "retry" job else job).

Definition ListDueCorporateActionJobs (nowMS limit : Z) (m : gmap string CorporateActionJob)
    : result go_error (list CorporateActionJob) :=
  let limit := if limit <=? 0 then 10 else limit in
  let out := sort_by CorporateActionJob.ID (omap (due_job nowMS) (snd <$> map_to_list m)) in
  Ok (if limit <? Z.of_nat (length out) then take (Z.to_nat limit) out else out).

Definition UpdateCorporateActionJob (job : CorporateActionJob) (m : gmap string CorporateActionJob)
    : gmap string CorporateActionJob := <[job_key job := job]> m.

Definition ListCorporateActionFactors (exchange symbol : string) (m : gmap string CorporateActionJob)
    : result go_error (list CorporateActionJob) :=
  Ok (sort_by CorporateActionJob.EffectiveMS
        (List.filter (fun job =>
           EqualFold job.(CorporateActionJob.Exchange) exchange
           && EqualFold job.(CorporateActionJob.Symbol) symbol
           && bool_decide (job.(CorporateActionJob.Status) ∈ ["confirmed"; "running"; "retry"; "completed"])
           && f64_gtb job.(CorporateActionJob.Factor) f64_zero)
           (snd <$> map_to_list m))).

(** ** The whole store *)

Module MemoryHistoricalStore.
Record MemoryHistoricalStore : Type := mk {
  candles : BarStore;
  symbols : gmap string SymbolInfo;
  guardianStates : gmap string KlineGuardianState;
  guardianEvents : list KlineGuardianEvent;
  audit : AuditQueue;
  corporateJobs : gmap string CorporateActionJob;
  snapshots : SnapshotStore;
}.
Definition set_candles (v : BarStore) (m : MemoryHistoricalStore) : MemoryHistoricalStore :=
  mk v m.(symbols) m.(guardianStates) m.(guardianEvents) m.(audit) m.(corporateJobs) m.(snapshots).
Definition set_audit (v : AuditQueue) (m : MemoryHistoricalStore) : MemoryHistoricalStore :=
  mk m.(candles) m.(symbols) m.(guardianStates) m.(guardianEvents) v m.(corporateJobs) m.(snapshots).
End MemoryHistoricalStore.
Notation MemoryHistoricalStore := MemoryHistoricalStore.MemoryHistoricalStore.

Definition NewMemoryHistoricalStore : MemoryHistoricalStore :=
  MemoryHistoricalStore.mk BarStore.empty ∅ ∅ [] AuditQueue.empty ∅ SnapshotStore.empty.

(** ** The invariant of the candles

    The inner key of a candle is its start, a verified minute is stored and
    final, and generations are positive. *)

Record bars_wf (st : BarStore) : Prop := {
  bw_starts : ∀ key start bar, rows st.(BarStore.bars) key !! start = Some bar → bar.(Bar.StartMS) = start;
  bw_verified : ∀ key start g, rows st.(BarStore.minuteVerifiedAt) key !! start = Some g → 0 < g;
  bw_final : ∀ exchange symbol start,
    0 < verified_at st (minuteVerificationKey exchange symbol) start →
    ∃ bar, rows st.(BarStore.bars) (minuteVerificationKey exchange symbol) !! start = Some bar ∧
           bar.(Bar.IsFinal) = true;
}.

Lemma rows_put {A} (m : gmap string (gmap Z A)) key key' i x :
  rows (put m key i x) key' = if decide (key = key') then <[i := x]> (rows m key') else rows m key'.
Proof. unfold rows, put. rewrite lookup_insert. case_decide; [subst; done|done]. Qed.

Lemma rows_put_lookup {A} (m : gmap string (gmap Z A)) key key' i i' x :
  rows (put m key i x) key' !! i' =
  if decide (key = key' ∧ i = i') then Some x else rows m key' !! i'.
Proof.
  rewrite rows_put. destruct (decide (key = key')) as [->|]; [|by rewrite decide_False by naive_solver].
  rewrite lookup_insert. destruct (decide (i = i')); [by rewrite decide_True|by rewrite decide_False by naive_solver].
Qed.

(** The timeframe is the last part of a series key. *)
Lemma series_key_tf ex1 sy1 tf1 ex2 sy2 tf2 :
  contains_char (Ascii.ascii_of_nat 58) tf1 = false → contains_char (Ascii.ascii_of_nat 58) tf2 = false →
  series_key ex1 sy1 tf1 = series_key ex2 sy2 tf2 → tf1 = tf2.
Proof. intros H1 H2 Heq. by apply (last_colon_inj _ _ _ _ H1 H2) in Heq as [_ ?]. Qed.

(** A candle whose timeframe has a colon-free name, as every name of [Order]. *)
Definition named_tf (bar : Bar) : Prop := contains_char (Ascii.ascii_of_nat 58) bar.(Bar.Timeframe) = false.

Lemma frame_name_tf f : contains_char (Ascii.ascii_of_nat 58) (frame_name f) = false.
Proof. by destruct f. Qed.

(** [UpsertBars] leaves a verified minute alone. *)
Lemma upsert_bar_protects st bar exchange symbol start :
  named_tf bar → 0 < verified_at st (minuteVerificationKey exchange symbol) start →
  rows (upsert_bar st bar).(BarStore.bars) (minuteVerificationKey exchange symbol) !! start
  = rows st.(BarStore.bars) (minuteVerificationKey exchange symbol) !! start.
Proof.
  intros Hn Hv. unfold upsert_bar. case_bool; [done|]. simpl. rewrite rows_put_lookup.
  destruct (decide (_ ∧ _)) as [Hd|]; [|done]. destruct Hd as [Hk <-]. exfalso.
  assert (bar.(Bar.Timeframe) = "1m") as Htf by (by eapply series_key_tf; [| |exact Hk]).
  rewrite bool_decide_eq_true_2 in Heqb by done. simpl in Heqb. rewrite Hk in Heqb. zbool. lia.
Qed.

Lemma upsert_bar_verified st bar : (upsert_bar st bar).(BarStore.minuteVerifiedAt) = st.(BarStore.minuteVerifiedAt).
Proof. unfold upsert_bar. by case_bool. Qed.

Lemma upsert_bar_wf st bar : named_tf bar → bars_wf st → bars_wf (upsert_bar st bar).
Proof.
  intros Hn [H1 H2 H3]. split.
  - intros key start b. unfold upsert_bar. case_bool; [apply H1|]. simpl. rewrite rows_put_lookup.
    destruct (decide (_ ∧ _)) as [Hd|]; [|apply H1]. intros [= <-]. by destruct Hd.
  - rewrite upsert_bar_verified. exact H2.
  - intros exchange symbol start Hv. unfold verified_at in Hv. rewrite upsert_bar_verified in Hv.
    rewrite upsert_bar_protects by done. by apply H3.
Qed.

Lemma UpsertBars_wf bars st : Forall named_tf bars → bars_wf st → bars_wf (snd (UpsertBars bars st)).
Proof.
  simpl. revert st. induction bars as [|b bars IH]; intros st Hn Hst; simpl; [done|].
  apply Forall_cons in Hn as [Hb Hn]. apply IH; [done|by apply upsert_bar_wf].
Qed.

(** Storing a minute and its generation. *)
Lemma revision_wf st exchange symbol bar :
  bars_wf st → bar.(Bar.IsFinal) = true →
  bars_wf (BarStore.mk (put st.(BarStore.bars) (minuteVerificationKey exchange symbol) bar.(Bar.StartMS) bar)
             st.(BarStore.minuteVerifiedAt)).
Proof.
  intros [H1 H2 H3] Hf. split; simpl; [|exact H2|].
  - intros key start b. rewrite rows_put_lookup. destruct (decide (_ ∧ _)) as [Hd|]; [|apply H1].
    intros [= <-]. by destruct Hd.
  - intros ex sy start Hv. rewrite rows_put_lookup. destruct (decide (_ ∧ _)) as [Hd|]; [by eexists|by apply H3].
Qed.

Lemma upsert_revisions_wf bars g accepted st :
  bars_wf st → bars_wf (snd (upsert_revisions bars g accepted st)).
Proof.
  revert accepted st. induction bars as [|b bars IH]; intros accepted st Hst; simpl; [done|].
  destruct (_ || _) eqn:E; [done|]. case_bool; [by apply IH|]. apply IH. apply revision_wf; [done|].
  apply orb_false_iff in E as [_ E]. by apply negb_false_iff in E.
Qed.

Lemma mark_minutes_wf bars g st : 0 < g → bars_wf st → bars_wf (snd (mark_minutes bars g st)).
Proof.
  intros Hg. revert st. induction bars as [|b bars IH]; intros st Hst; simpl; [done|].
  destruct (_ !! _) as [existing|] eqn:El; [|done].
  destruct (SameOfficialMinuteValues existing b) eqn:Es; simpl; [|done]. apply IH.
  case_bool; [|done]. destruct Hst as [H1 H2 H3]. split; simpl; [exact H1| |].
  - intros key start g'. rewrite rows_put_lookup. destruct (decide (_ ∧ _)) as [Hd|]; [intros [= <-]; done|apply H2].
  - intros ex sy start. unfold verified_at. simpl. rewrite rows_put_lookup.
    destruct (decide (_ ∧ _)) as [Hd|]; [|apply H3]. destruct Hd as [Hk <-]. intros _. rewrite <- Hk, El.
    eexists. split; [done|]. unfold SameOfficialMinuteValues in Es.
    destruct existing.(Bar.IsFinal); [done|discriminate].
Qed.

Lemma DeleteBarsInRange_rows exchange symbol tf startMS endMS st key start :
  let st' := snd (DeleteBarsInRange exchange symbol tf startMS endMS st) in
  let hit := bool_decide (key = series_key exchange symbol tf) && in_range startMS endMS start
             && bool_decide (is_Some (rows st.(BarStore.bars) key !! start)) in
  rows st'.(BarStore.bars) key !! start
    = (if hit then None else rows st.(BarStore.bars) key !! start) ∧
  rows st'.(BarStore.minuteVerifiedAt) key !! start
    = (if hit then None else rows st.(BarStore.minuteVerifiedAt) key !! start).
Proof.
  simpl. set (k := series_key exchange symbol tf).
  set (gone := List.filter (in_range startMS endMS) (fst <$> map_to_list (rows st.(BarStore.bars) k))).
  assert (Hgone : ∀ s, s ∈ gone ↔ in_range startMS endMS s = true ∧ is_Some (rows st.(BarStore.bars) k !! s)).
  { intros s. unfold gone. rewrite list_elem_of_In, List.filter_In, <- list_elem_of_In, list_elem_of_fmap.
    split; intros [H1 H2]; split; try done.
    - destruct H1 as ([s' b] & -> & Hb). apply elem_of_map_to_list in Hb. by eexists.
    - destruct H2 as [b Hb]. exists (s, b). split; [done|]. by apply elem_of_map_to_list. }
  assert (Hdel : ∀ {A} (m : gmap Z A) l s, foldr delete m l !! s = if bool_decide (s ∈ l) then None else m !! s).
  { intros A m l s. induction l as [|x l IH]; simpl; [done|]. rewrite lookup_delete, IH.
    destruct (decide (x = s)) as [->|Hne].
    - by rewrite bool_decide_eq_true_2 by constructor.
    - apply (f_equal (fun b : bool => if b then None else m !! s)).
      apply bool_decide_ext. rewrite elem_of_cons. naive_solver. }
  assert (Hrow : ∀ {A} (m : gmap string (gmap Z A)) (f : gmap Z A → gmap Z A), f ∅ = ∅ →
    rows (alter f k m) key = if decide (k = key) then f (rows m key) else rows m key).
  { intros A m f Hf. unfold rows. rewrite lookup_alter. destruct (decide (k = key)) as [->|]; [|done].
    by destruct (m !! key); simpl. }
  rewrite !Hrow by (clear; induction gone as [|x l IH]; simpl; [done|]; rewrite IH; apply delete_empty).
  destruct (decide (k = key)) as [<-|Hne].
  - rewrite !Hdel, (bool_decide_eq_true_2 (k = k)) by done. simpl.
    assert (bool_decide (start ∈ gone) = in_range startMS endMS start
      && bool_decide (is_Some (rows st.(BarStore.bars) k !! start))) as ->; [|done].
    apply eq_true_iff_eq. rewrite andb_true_iff, !bool_decide_eq_true. apply Hgone.
  - by rewrite bool_decide_eq_false_2 by done.
Qed.

Lemma DeleteBarsInRange_wf exchange symbol tf startMS endMS st :
  bars_wf st → bars_wf (snd (DeleteBarsInRange exchange symbol tf startMS endMS st)).
Proof.
  intros [H1 H2 H3]. split.
  - intros key start b. destruct (DeleteBarsInRange_rows exchange symbol tf startMS endMS st key start) as [-> _].
    case_bool; [done|apply H1].
  - intros key start g. destruct (DeleteBarsInRange_rows exchange symbol tf startMS endMS st key start) as [_ ->].
    case_bool; [done|apply H2].
  - intros ex sy start. unfold verified_at.
    destruct (DeleteBarsInRange_rows exchange symbol tf startMS endMS st (minuteVerificationKey ex sy) start)
      as [-> ->]. case_bool; [simpl; lia|apply H3].
Qed.

(** *** Reading *)

Lemma elem_of_sorted_starts {A} keep (m : gmap Z A) s :
  s ∈ sorted_starts keep m ↔ keep s = true ∧ is_Some (m !! s).
Proof.
  unfold sorted_starts. rewrite elem_of_sort_by, list_elem_of_In, List.filter_In, <- list_elem_of_In,
    list_elem_of_fmap. split.
  - intros [([s' a] & -> & Ha) Hk]. apply elem_of_map_to_list in Ha. split; [done|by eexists].
  - intros [Hk [a Ha]]. split; [|done]. exists (s, a). split; [done|]. by apply elem_of_map_to_list.
Qed.

Lemma sorted_starts_sorted {A} keep (m : gmap Z A) : key_sorted id (sorted_starts keep m).
Proof.
  apply sort_by_sorted. rewrite list_fmap_id. apply NoDup_ListNoDup, List.NoDup_filter, NoDup_ListNoDup.
  apply NoDup_fst_map_to_list.
Qed.

Lemma row_start st key start :
  bars_wf st → is_Some (rows st.(BarStore.bars) key !! start) →
  (row_at (rows st.(BarStore.bars) key) start).(Bar.StartMS) = start.
Proof. intros Hst [b Hb]. unfold row_at. rewrite Hb. by eapply bw_starts. Qed.

Lemma BarsInRange_spec st exchange symbol tf startMS endMS :
  bars_wf st →
  ∃ out, BarsInRange exchange symbol tf startMS endMS st = Ok out ∧
    key_sorted Bar.StartMS out ∧
    ∀ b, b ∈ out ↔ ∃ b0, rows st.(BarStore.bars) (series_key exchange symbol tf) !! b0.(Bar.StartMS) = Some b0 ∧
      b0.(Bar.IsFinal) = true ∧ startMS <= b0.(Bar.StartMS) <= endMS ∧ b = DecorateBar b0.
Proof.
  intros Hst. unfold BarsInRange. set (m := rows _ _). set (keep := fun s => _).
  eexists. split; [reflexivity|]. split.
  - apply (key_sorted_fmap _ Bar.StartMS); [intros b _; apply DecorateBar_StartMS|].
    apply key_sorted_filter. apply (key_sorted_fmap _ id); [|apply sorted_starts_sorted].
    intros s Hs%elem_of_sorted_starts. apply row_start; [done|apply Hs].
  - intros b. rewrite list_elem_of_fmap. split.
    + intros (b0 & -> & Hb0). apply list_elem_of_In, List.filter_In in Hb0 as [Hb0 Hf].
      apply list_elem_of_In, list_elem_of_fmap in Hb0 as (s & -> & Hs).
      apply elem_of_sorted_starts in Hs as [Hk Hs]. exists (row_at m s).
      assert (Hst' : (row_at m s).(Bar.StartMS) = s) by (by apply row_start).
      rewrite Hst'. unfold keep in Hk. zbool. split_and!; try done.
      destruct Hs as [x Hx]. unfold row_at. by rewrite Hx.
    + intros (b0 & Hb0 & Hf & Hr & ->). exists b0. split; [done|].
      apply list_elem_of_In, List.filter_In. split; [|done]. apply list_elem_of_In, list_elem_of_fmap.
      exists b0.(Bar.StartMS). split; [unfold row_at; by rewrite Hb0|].
      apply elem_of_sorted_starts. split; [|by exists b0]. unfold keep.
      by rewrite !(proj2 (Z.leb_le _ _)) by lia.
Qed.

(** What the newest [limit] candles are. *)
Lemma RecentBars_spec st query :
  bars_wf st →
  ∃ out, RecentBars query st = Ok out ∧ key_sorted Bar.StartMS out ∧
    (0 < query.(KlineQuery.Limit) → Z.of_nat (length out) <= query.(KlineQuery.Limit)) ∧
    (∀ b, b ∈ out → ∃ b0, b = DecorateBar b0 ∧
       rows st.(BarStore.bars) (series_key query.(KlineQuery.Exchange) query.(KlineQuery.Symbol) query.(KlineQuery.Timeframe))
         !! b0.(Bar.StartMS) = Some b0) ∧
    (∀ b0, rows st.(BarStore.bars) (series_key query.(KlineQuery.Exchange) query.(KlineQuery.Symbol) query.(KlineQuery.Timeframe))
         !! b0.(Bar.StartMS) = Some b0 →
       DecorateBar b0 ∈ out ∨ (Z.of_nat (length out) = query.(KlineQuery.Limit) ∧
                               ∀ b, b ∈ out → b0.(Bar.StartMS) < b.(Bar.StartMS))).
Proof.
  intros Hst. unfold RecentBars. set (m := rows _ _).
  set (starts := sorted_starts (fun _ => true) m). set (n := Z.of_nat (length starts)).
  set (limit := if _ || _ then n else _).
  assert (Hlim : 0 <= limit <= n ∧ (0 < query.(KlineQuery.Limit) → limit <= query.(KlineQuery.Limit)) ∧
    (limit = n ∨ limit = query.(KlineQuery.Limit))).
  { subst limit. destruct (_ <=? 0) eqn:E1; simpl; zbool; [lia|].
    destruct (n <? _) eqn:E2; zbool; lia. }
  eexists. split; [reflexivity|].
  assert (Hlen : length ((fun s => DecorateBar (row_at m s)) <$> drop (Z.to_nat (n - limit)) starts) = Z.to_nat limit)
    by (rewrite length_fmap, length_drop; lia).
  assert (Hin : ∀ s, s ∈ drop (Z.to_nat (n - limit)) starts → is_Some (m !! s)).
  { intros s Hs. assert (s ∈ starts) as Hs'
      by (rewrite <- (take_drop (Z.to_nat (n - limit)) starts); apply elem_of_app; by right).
    by apply elem_of_sorted_starts in Hs' as [_ ?]. }
  pose proof (sorted_starts_sorted (fun _ => true) m) as Hsort. fold starts in Hsort.
  split_and!.
  - apply (key_sorted_fmap _ id); [|by apply key_sorted_drop].
    intros s Hs. rewrite DecorateBar_StartMS. apply row_start; [done|by apply Hin].
  - intros Hp. rewrite Hlen. lia.
  - intros b (s & -> & Hs)%list_elem_of_fmap. exists (row_at m s). split; [done|].
    specialize (Hin s Hs). assert (Hrs : (row_at m s).(Bar.StartMS) = s) by by apply row_start.
    fold m. rewrite Hrs. unfold row_at. destruct Hin as [x Hx]. by rewrite Hx.
  - intros b0 Hb0. fold m in Hb0.
    assert (Hs : b0.(Bar.StartMS) ∈ starts) by (apply elem_of_sorted_starts; split; [done|by exists b0]).
    rewrite <- (take_drop (Z.to_nat (n - limit)) starts) in Hs, Hsort.
    apply elem_of_app in Hs as [Hs|Hs].
    + right. split.
      * rewrite Hlen. destruct Hlim as (Hl1 & _ & [Hl|Hl]); [|lia].
        rewrite Hl, Z.sub_diag in Hs. by apply elem_of_nil in Hs.
      * intros b (s & -> & Hd)%list_elem_of_fmap. rewrite DecorateBar_StartMS.
        assert (Hrs : (row_at m s).(Bar.StartMS) = s) by (apply row_start; [done|by apply Hin]).
        rewrite Hrs. by apply (StronglySorted_app_1_elem_of _ _ _ _ _ Hsort Hs Hd).
    + left. apply list_elem_of_fmap. exists b0.(Bar.StartMS). split; [|done].
      unfold row_at. by rewrite Hb0.
Qed.

(** *** Verification generations *)

Lemma upsert_bars_verified bars st :
  (snd (UpsertBars bars st)).(BarStore.minuteVerifiedAt) = st.(BarStore.minuteVerifiedAt).
Proof.
  simpl. revert st. induction bars as [|b bars IH]; intros st; simpl; [done|].
  by rewrite IH, upsert_bar_verified.
Qed.

Lemma upsert_revisions_spec bars g accepted st :
  let '(r, st') := upsert_revisions bars g accepted st in
  st'.(BarStore.minuteVerifiedAt) = st.(BarStore.minuteVerifiedAt) ∧
  ∀ out, r = Ok out →
    out = accepted ++ List.filter (fun b =>
      verified_at st (minuteVerificationKey b.(Bar.Exchange) b.(Bar.Symbol)) b.(Bar.StartMS) <=? g) bars ∧
    Forall (fun b => b.(Bar.Timeframe) = "1m" ∧ b.(Bar.IsFinal) = true) bars.
Proof.
  revert accepted st. induction bars as [|b bars IH]; intros accepted st; simpl.
  { split; [done|]. intros out [= <-]. by rewrite app_nil_r. }
  destruct (negb _ || negb _) eqn:E; [by split|]. apply orb_false_iff in E as [E1 E2]. bprop.
  rewrite Z.leb_antisym. destruct (g <? _) eqn:Eg; simpl.
  - specialize (IH accepted st). destruct (upsert_revisions _ _ _ _) as [r st'].
    destruct IH as [H1 H2]. split; [done|]. intros out Hr. destruct (H2 out Hr) as [-> Hf].
    split; [done|by constructor].
  - specialize (IH (accepted ++ [b]) (BarStore.mk (put st.(BarStore.bars)
      (minuteVerificationKey b.(Bar.Exchange) b.(Bar.Symbol)) b.(Bar.StartMS) b) st.(BarStore.minuteVerifiedAt))).
    destruct (upsert_revisions _ _ _ _) as [r st']. destruct IH as [H1 H2]. split; [done|].
    intros out Hr. destruct (H2 out Hr) as [-> Hf]. rewrite <- app_assoc. split; [done|by constructor].
Qed.

Lemma verified_put m bs key i g key' i' :
  verified_at (BarStore.mk bs (put m key i g)) key' i' =
  if decide (key = key' ∧ i = i') then g else verified_at (BarStore.mk bs m) key' i'.
Proof. unfold verified_at. simpl. rewrite rows_put_lookup. by destruct (decide (_ ∧ _)). Qed.

Lemma mark_minutes_spec bars g st :
  let '(r, st') := mark_minutes bars g st in
  st'.(BarStore.bars) = st.(BarStore.bars) ∧
  (∀ key start, verified_at st key start <= verified_at st' key start) ∧
  (∀ key start, verified_at st' key start <= verified_at st key start ∨ verified_at st' key start = g) ∧
  (r = Ok tt → ∀ b, b ∈ bars →
     g <= verified_at st' (minuteVerificationKey b.(Bar.Exchange) b.(Bar.Symbol)) b.(Bar.StartMS) ∧
     ∃ stored, rows st.(BarStore.bars) (minuteVerificationKey b.(Bar.Exchange) b.(Bar.Symbol)) !! b.(Bar.StartMS)
                 = Some stored ∧ SameOfficialMinuteValues stored b = true).
Proof.
  revert st. induction bars as [|b bars IH]; intros st; simpl.
  { split_and!; try done; [by left|]. intros _ b Hb. by apply elem_of_nil in Hb. }
  set (key := minuteVerificationKey b.(Bar.Exchange) b.(Bar.Symbol)).
  destruct (rows st.(BarStore.bars) key !! b.(Bar.StartMS)) as [stored|] eqn:El;
    [|split_and!; try done; by left].
  destruct (SameOfficialMinuteValues stored b) eqn:Es; simpl; [|split_and!; try done; by left].
  set (st1 := if _ <? g then _ else st).
  assert (Hb1 : st1.(BarStore.bars) = st.(BarStore.bars)) by (subst st1; by case_bool).
  assert (Hv1 : ∀ k s, verified_at st k s <= verified_at st1 k s ∧
    (verified_at st1 k s = verified_at st k s ∨ verified_at st1 k s = g)).
  { intros k s. subst st1. case_bool; [|by split; [|left]]. rewrite verified_put.
    zbool. destruct st as [bs vs]. simpl in *.
    destruct (decide (key = k ∧ b.(Bar.StartMS) = s)) as [[<- <-]|]; split; auto; lia. }
  assert (Hg1 : g <= verified_at st1 key b.(Bar.StartMS)).
  { subst st1. case_bool; zbool; [|done]. rewrite verified_put, decide_True by done. done. }
  specialize (IH st1). destruct (mark_minutes bars g st1) as [r st'].
  destruct IH as (I1 & I2 & I3 & I4). split_and!.
  - by rewrite I1.
  - intros k s. destruct (Hv1 k s). specialize (I2 k s). lia.
  - intros k s. specialize (I2 k s). destruct (Hv1 k s) as [_ H], (I3 k s); lia.
  - intros Hr b' [->|Hb']%elem_of_cons.
    + fold key. split; [specialize (I2 key b.(Bar.StartMS)); lia|eauto].
    + destruct (I4 Hr b' Hb') as (? & stored' & Hs & Hsame). rewrite Hb1 in Hs. eauto.
Qed.

(** ** The interfaces (internal/storage/store.go)

    What the service asks of a store, as classes over the type of its state.
    The optional interfaces, which the Go code finds by type assertion, are
    optional records.  The laws are what the service's theorems assume of any
    store; the instances below discharge them for the in-memory one. *)

Module MinuteVerificationStore.
Record MinuteVerificationStore (St : Type) : Type := mk {
  LoadMinuteVerifications : string → string → Z → Z → St → result go_error (list VerifiedMinuteBar);
  UpsertMinuteRevisions : list Bar → Z → St → result go_error (list Bar) * St;
  MarkMinutesVerified : list Bar → Z → St → result go_error unit * St;
}.
Arguments LoadMinuteVerifications {St}.
Arguments UpsertMinuteRevisions {St}.
Arguments MarkMinutesVerified {St}.
Arguments mk {St}.
End MinuteVerificationStore.
Notation MinuteVerificationStore := MinuteVerificationStore.MinuteVerificationStore.

Module MinuteAuditTaskStore.
Record MinuteAuditTaskStore (St : Type) : Type := mk {
  EnqueueMinuteAuditTask : context → Z → MinuteAuditTask → St → result go_error Z * St;
  LoadMinuteAuditTask : context → Z → St → result go_error (option MinuteAuditTask);
  LeaseMinuteAuditTask : context → Z → string → Z → Z → St → result go_error bool * St;
  ListDueMinuteAuditTasks : context → string → Z → Z → St → result go_error (list MinuteAuditTask);
  ListDueMinuteAuditTasksByKind : context → string → string → Z → Z → St → result go_error (list MinuteAuditTask);
  FinishMinuteAuditTask : context → Z → string → string → Z → bool → string → Z → St → result go_error unit * St;
  LoadMinuteAuditCursor : context → string → string → string → St → result go_error (option MinuteAuditCursor);
  SaveMinuteAuditCursor : context → MinuteAuditCursor → St → result go_error unit * St;
  MinuteAuditSummary : context → Z → St → result go_error MinuteAuditSummary;
}.
Arguments EnqueueMinuteAuditTask {St}.
Arguments mk {St}.
End MinuteAuditTaskStore.
Notation MinuteAuditTaskStore := MinuteAuditTaskStore.MinuteAuditTaskStore.

Class HistoricalStore (St : Type) := {
  hs_UpsertBars : list Bar → St → result go_error unit * St;
  hs_RecentBars : KlineQuery → St → result go_error (list Bar);
  hs_BarsInRange : string → string → string → Z → Z → St → result go_error (list Bar);
  hs_UpsertSymbols : list SymbolInfo → St → result go_error unit * St;
  hs_ListSymbols : string → option bool → St → result go_error (list SymbolInfo);
  hs_verifications : option (MinuteVerificationStore St);
  hs_tasks : option (MinuteAuditTaskStore St);
}.

Class HistoricalStoreLaws (St : Type) `{!HistoricalStore St} := {
  hs_ok : St → Prop;
  hs_UpsertBars_ok bars st : Forall named_tf bars → hs_ok st → hs_ok (snd (hs_UpsertBars bars st));
  hs_BarsInRange_law exchange symbol tf startMS endMS st out :
    hs_ok st → hs_BarsInRange exchange symbol tf startMS endMS st = Ok out →
    key_sorted Bar.StartMS out ∧
    Forall (fun b => startMS <= b.(Bar.StartMS) <= endMS ∧ b.(Bar.IsFinal) = true) out;
  hs_RecentBars_law query st out :
    hs_ok st → hs_RecentBars query st = Ok out → 0 < query.(KlineQuery.Limit) →
    key_sorted Bar.StartMS out ∧ Z.of_nat (length out) <= query.(KlineQuery.Limit);
}.

(** A method on one part of the store, as a method of the store. *)
Definition on_candles {A} (f : BarStore → A * BarStore) (m : MemoryHistoricalStore) : A * MemoryHistoricalStore :=
  let '(a, st) := f m.(MemoryHistoricalStore.candles) in (a, MemoryHistoricalStore.set_candles st m).
Definition on_audit {A} (f : AuditQueue → A * AuditQueue) (m : MemoryHistoricalStore) : A * MemoryHistoricalStore :=
  let '(a, q) := f m.(MemoryHistoricalStore.audit) in (a, MemoryHistoricalStore.set_audit q m).

#[export] Instance memory_store : HistoricalStore MemoryHistoricalStore := {
  hs_UpsertBars bars := on_candles (UpsertBars bars);
  hs_RecentBars query m := RecentBars query m.(MemoryHistoricalStore.candles);
  hs_BarsInRange exchange symbol tf startMS endMS m :=
    BarsInRange exchange symbol tf startMS endMS m.(MemoryHistoricalStore.candles);
  hs_UpsertSymbols symbols m :=
    (Ok tt, MemoryHistoricalStore.mk m.(MemoryHistoricalStore.candles)
       (UpsertSymbols symbols m.(MemoryHistoricalStore.symbols)) m.(MemoryHistoricalStore.guardianStates)
       m.(MemoryHistoricalStore.guardianEvents) m.(MemoryHistoricalStore.audit)
       m.(MemoryHistoricalStore.corporateJobs) m.(MemoryHistoricalStore.snapshots));
  hs_ListSymbols exchange activeOnly m := ListSymbols exchange activeOnly m.(MemoryHistoricalStore.symbols);
  hs_verifications := Some (MinuteVerificationStore.mk
    (fun exchange symbol startMS endMS m =>
       LoadMinuteVerifications exchange symbol startMS endMS m.(MemoryHistoricalStore.candles))
    (fun bars g => on_candles (UpsertMinuteRevisions bars g))
    (fun bars g => on_candles (MarkMinutesVerified bars g)));
  hs_tasks := Some (MinuteAuditTaskStore.mk
    (fun ctx now task => on_audit (EnqueueMinuteAuditTask ctx now task))
    (fun ctx id m => LoadMinuteAuditTask ctx id m.(MemoryHistoricalStore.audit))
    (fun ctx id token now until => on_audit (LeaseMinuteAuditTask ctx id token now until))
    (fun ctx ex now limit m => ListDueMinuteAuditTasks ctx ex now limit m.(MemoryHistoricalStore.audit))
    (fun ctx ex kind now limit m => ListDueMinuteAuditTasksByKind ctx ex kind now limit m.(MemoryHistoricalStore.audit))
    (fun ctx id token o next force err now => on_audit (FinishMinuteAuditTask ctx id token o next force err now))
    (fun ctx ex sy kind m => LoadMinuteAuditCursor ctx ex sy kind m.(MemoryHistoricalStore.audit))
    (fun ctx cursor => on_audit (SaveMinuteAuditCursor ctx cursor))
    (fun ctx now m => MinuteAuditSummary_ ctx now m.(MemoryHistoricalStore.audit)));
}.

#[export] Instance memory_store_laws : HistoricalStoreLaws MemoryHistoricalStore.
Proof.
  refine {| hs_ok m := bars_wf m.(MemoryHistoricalStore.candles) |}.
  - intros bars m Hn Hm. simpl. by apply UpsertBars_wf.
  - intros ex sy tf a b m out Hm E. simpl in E.
    destruct (BarsInRange_spec m.(MemoryHistoricalStore.candles) ex sy tf a b Hm) as (out' & E' & Hs & Hin).
    rewrite E in E'. injection E' as <-. split; [done|]. apply Forall_forall.
    intros x Hx. apply Hin in Hx as (b0 & _ & Hf & Hr & ->).
    by rewrite DecorateBar_StartMS, DecorateBar_IsFinal.
  - intros query m out Hm E Hl. simpl in E.
    destruct (RecentBars_spec m.(MemoryHistoricalStore.candles) query Hm) as (out' & E' & Hs & Hle & _).
    rewrite E in E'. injection E' as <-. auto.
Defined.

(** ** Properties *)

(** What a batch leaves in one row: the last candle of the batch for it, unless
    the row is a verified minute. *)
Lemma UpsertBars_row bars st exchange symbol tf start :
  contains_char (Ascii.ascii_of_nat 58) tf = false → Forall named_tf bars →
  let key := series_key exchange symbol tf in
  rows (snd (UpsertBars bars st)).(BarStore.bars) key !! start =
  match last (List.filter (fun b => bool_decide (bar_series b = key) && (b.(Bar.StartMS) =? start)) bars) with
  | Some b => if bool_decide (tf = "1m") && (0 <? verified_at st key start)
              then rows st.(BarStore.bars) key !! start else Some b
  | None => rows st.(BarStore.bars) key !! start
  end.
Proof.
  intros Htf Hn key. simpl. revert Hn. induction bars as [|b bars IH] using rev_ind; intros Hn; [done|].
  apply Forall_app in Hn as [Hn Hb]. apply Forall_inv in Hb. rewrite foldl_snoc, List.filter_app. simpl.
  set (st1 := foldl upsert_bar st bars) in *.
  assert (Hv : verified_at st1 = verified_at st).
  { unfold verified_at. pose proof (upsert_bars_verified bars st) as H. simpl in H. fold st1 in H. by rewrite H. }
  destruct (bool_decide (bar_series b = key) && (b.(Bar.StartMS) =? start)) eqn:E; simpl.
  - rewrite last_snoc. bprop. subst start.
    assert (b.(Bar.Timeframe) = tf) as Htf' by (eapply series_key_tf; [exact Hb|exact Htf|exact H]).
    unfold upsert_bar. rewrite Htf', Hv, H. destruct (bool_decide (tf = "1m") && _) eqn:Ep.
    + rewrite IH by done. by destruct (last _).
    + simpl. by rewrite rows_put_lookup, decide_True.
  - rewrite app_nil_r, <- IH by done. unfold upsert_bar. case_bool; [done|]. simpl.
    rewrite rows_put_lookup, decide_False; [done|]. intros [Hk Hs].
    rewrite Hk, Hs, bool_decide_eq_true_2, Z.eqb_refl in E by done. done.
Qed.

(** An unverified write cannot touch a verified minute: after [UpsertBars]
    the row of a REST-verified minute and every generation are as before, and
    any other row holds the last candle of the batch for it (or is as before
    when the batch has none). *)
Theorem UpsertBars_protects_verified bars st exchange symbol tf start :
  contains_char (Ascii.ascii_of_nat 58) tf = false → Forall named_tf bars →
  let key := series_key exchange symbol tf in
  let st' := snd (UpsertBars bars st) in
  let written := last (List.filter (fun b => bool_decide (bar_series b = key) && (b.(Bar.StartMS) =? start)) bars) in
  st'.(BarStore.minuteVerifiedAt) = st.(BarStore.minuteVerifiedAt) ∧
  (tf = "1m" → 0 < verified_at st key start →
     rows st'.(BarStore.bars) key !! start = rows st.(BarStore.bars) key !! start) ∧
  (tf ≠ "1m" ∨ verified_at st key start <= 0 →
     rows st'.(BarStore.bars) key !! start
     = match written with Some b => Some b | None => rows st.(BarStore.bars) key !! start end).
Proof.
  intros Htf Hn key st' written. split; [apply upsert_bars_verified|].
  pose proof (UpsertBars_row bars st exchange symbol tf start Htf Hn) as Hrow.
  cbv zeta in Hrow. fold key st' in Hrow. fold written in Hrow. rewrite Hrow.
  split.
  - intros Hm Hv. rewrite bool_decide_eq_true_2 by done.
    rewrite (proj2 (Z.ltb_lt _ _)) by done. by destruct written.
  - intros Hor. destruct written; [|done].
    destruct (bool_decide (tf = "1m") && _) eqn:E; [|done]. bprop. destruct Hor; [done|lia].
Qed.

Definition sample_verified : BarStore :=
  snd (MarkMinutesVerified [sample_bar 0 8 10 7 10 3] 100 (snd (UpsertBars [sample_bar 0 8 10 7 10 3] BarStore.empty))).

Example UpsertBars_protects_verified_witness :
  let key := series_key "okx" "BTC-USDT" "1m" in
  0 < verified_at sample_verified key sample_base ∧
  rows (snd (UpsertBars [sample_bar 0 1 2 1 1 1] sample_verified)).(BarStore.bars) key !! sample_base
  = rows sample_verified.(BarStore.bars) key !! sample_base.
Proof.
  intros key. assert (Hv : 0 < verified_at sample_verified key sample_base) by (vm_compute; reflexivity).
  split; [exact Hv|].
  apply (UpsertBars_protects_verified [sample_bar 0 1 2 1 1 1] sample_verified "okx" "BTC-USDT" "1m" sample_base);
    [reflexivity|repeat constructor|reflexivity|exact Hv].
Defined.

(** What a range read returns: the stored final candles of the series that
    start in the range, decorated, each once, in strictly increasing order of
    start. *)
Theorem BarsInRange_functional st exchange symbol tf startMS endMS :
  bars_wf st →
  ∃ out, BarsInRange exchange symbol tf startMS endMS st = Ok out ∧
    StronglySorted (fun a b => a.(Bar.StartMS) < b.(Bar.StartMS)) out ∧
    ∀ b, b ∈ out ↔ ∃ b0, rows st.(BarStore.bars) (series_key exchange symbol tf) !! b0.(Bar.StartMS) = Some b0 ∧
      b0.(Bar.IsFinal) = true ∧ startMS <= b0.(Bar.StartMS) <= endMS ∧ b = DecorateBar b0.
Proof. apply BarsInRange_spec. Qed.

Lemma sample_verified_wf : bars_wf sample_verified.
Proof.
  unfold sample_verified, MarkMinutesVerified.
  apply mark_minutes_wf; [done|]. apply UpsertBars_wf; [repeat constructor|].
  split; unfold rows, verified_at; simpl; intros *; rewrite ?lookup_empty; simpl; rewrite ?lookup_empty; simpl; try done.
Qed.

Example BarsInRange_functional_witness :
  ∃ out, BarsInRange "OKX" "btc-usdt" "1m" 0 sample_base sample_verified = Ok out ∧
    DecorateBar (sample_bar 0 8 10 7 10 3) ∈ out.
Proof.
  destruct (BarsInRange_functional sample_verified "OKX" "btc-usdt" "1m" 0 sample_base sample_verified_wf)
    as (out & E & _ & Hin).
  exists out. split; [exact E|]. apply Hin. exists (sample_bar 0 8 10 7 10 3).
  split; [reflexivity|]. split; [reflexivity|]. split; [vm_compute; split; discriminate|reflexivity].
Defined.

(** verification generations only grow.  Marking never lowers a generation,
    sets none but the requested one, and reports success only when every minute
    given is stored with the same official values and carries at least the
    requested generation; a revision is accepted exactly when no newer
    generation verified the minute, and moves no generation. *)
Theorem verification_generations bars g st accepted st1 r2 st2 :
  UpsertMinuteRevisions bars g st = (Ok accepted, st1) →
  MarkMinutesVerified accepted g st1 = (r2, st2) →
  accepted = List.filter (fun b =>
    verified_at st (minuteVerificationKey b.(Bar.Exchange) b.(Bar.Symbol)) b.(Bar.StartMS) <=? g) bars ∧
  (∀ key start, verified_at st1 key start = verified_at st key start ∧
     verified_at st key start <= verified_at st2 key start ∧
     (verified_at st2 key start = verified_at st key start ∨ verified_at st2 key start = g)) ∧
  st2.(BarStore.bars) = st1.(BarStore.bars) ∧
  (r2 = Ok tt → ∀ b, b ∈ accepted →
     g <= verified_at st2 (minuteVerificationKey b.(Bar.Exchange) b.(Bar.Symbol)) b.(Bar.StartMS) ∧
     ∃ stored, rows st2.(BarStore.bars) (minuteVerificationKey b.(Bar.Exchange) b.(Bar.Symbol)) !! b.(Bar.StartMS)
                 = Some stored ∧ SameOfficialMinuteValues stored b = true).
Proof.
  unfold UpsertMinuteRevisions, MarkMinutesVerified. destruct (g <=? 0); [done|]. intros E1 E2.
  pose proof (upsert_revisions_spec bars g [] st) as H1. rewrite E1 in H1. destruct H1 as [Hv1 Hacc].
  destruct (Hacc _ eq_refl) as [-> _]. simpl in *.
  pose proof (mark_minutes_spec (List.filter (fun b =>
    verified_at st (minuteVerificationKey b.(Bar.Exchange) b.(Bar.Symbol)) b.(Bar.StartMS) <=? g) bars) g st1) as H2.
  rewrite E2 in H2. destruct H2 as (M1 & M2 & M3 & M4).
  assert (Hveq : ∀ key start, verified_at st1 key start = verified_at st key start)
    by (intros; unfold verified_at; by rewrite Hv1).
  split_and!; [done| |done|].
  - intros key start. specialize (M2 key start). specialize (M3 key start). rewrite Hveq in *.
    split_and!; [done|done|]. destruct M3; [left; lia|by right].
  - rewrite M1. exact M4.
Qed.

Example verification_generations_witness :
  ∃ st1 st2,
    UpsertMinuteRevisions [sample_bar 0 8 11 7 10 3] 200 sample_verified = (Ok [sample_bar 0 8 11 7 10 3], st1) ∧
    MarkMinutesVerified [sample_bar 0 8 11 7 10 3] 200 st1 = (Ok tt, st2) ∧
    200 <= verified_at st2 (minuteVerificationKey "okx" "BTC-USDT") sample_base.
Proof.
  set (b := sample_bar 0 8 11 7 10 3).
  set (st1 := snd (UpsertMinuteRevisions [b] 200 sample_verified)).
  assert (E1 : UpsertMinuteRevisions [b] 200 sample_verified = (Ok [b], st1)) by reflexivity.
  set (st2 := snd (MarkMinutesVerified [b] 200 st1)).
  assert (E2 : MarkMinutesVerified [b] 200 st1 = (Ok tt, st2)) by (vm_compute; reflexivity).
  exists st1, st2. split; [exact E1|]. split; [exact E2|].
  destruct (verification_generations [b] 200 sample_verified [b] st1 (Ok tt) st2 E1 E2) as (_ & _ & _ & H).
  apply (H eq_refl b). constructor.
Defined.

(** The writes of the candle tables. *)
Inductive bars_op : Set :=
| OpUpsert (bars : list Bar)
| OpRevise (bars : list Bar) (generationMS : Z)
| OpMark (bars : list Bar) (generationMS : Z)
| OpDelete (exchange symbol tf : string) (startMS endMS : Z).

Definition apply_bars_op (st : BarStore) (op : bars_op) : BarStore :=
  match op with
  | OpUpsert bars => snd (UpsertBars bars st)
  | OpRevise bars g => snd (UpsertMinuteRevisions bars g st)
  | OpMark bars g => snd (MarkMinutesVerified bars g st)
  | OpDelete exchange symbol tf startMS endMS => snd (DeleteBarsInRange exchange symbol tf startMS endMS st)
  end.

Definition op_named (op : bars_op) : Prop :=
  match op with OpUpsert bars => Forall named_tf bars | _ => True end.

(** in every state the writes reach from the empty store, a candle is filed
    under its own start, generations are positive, and a verified minute is
    there and final: no run of writes, failed ones included, leaves a
    verification without its candle. *)
Theorem candle_store_invariant ops :
  Forall op_named ops → bars_wf (foldl apply_bars_op BarStore.empty ops).
Proof.
  intros Hops.
  assert (H0 : bars_wf BarStore.empty).
  { split; unfold rows, verified_at; simpl; intros *; rewrite ?lookup_empty; simpl;
      rewrite ?lookup_empty; simpl; try done. }
  revert H0. generalize BarStore.empty as st. induction Hops as [|op ops Hop Hops IH]; intros st Hst; simpl; [done|].
  apply IH. destruct op as [bars|bars g|bars g|ex sy tf a b]; simpl in *.
  - by apply UpsertBars_wf.
  - unfold UpsertMinuteRevisions. case_bool; [done|]. by apply upsert_revisions_wf.
  - unfold MarkMinutesVerified. case_bool; [done|]. zbool. by apply mark_minutes_wf.
  - by apply DeleteBarsInRange_wf.
Qed.

Example candle_store_invariant_witness :
  bars_wf (foldl apply_bars_op BarStore.empty
    [OpUpsert [sample_bar 0 8 10 7 10 3]; OpMark [sample_bar 0 8 10 7 10 3] 100;
     OpDelete "okx" "BTC-USDT" "1m" 0 sample_base]).
Proof. apply candle_store_invariant. repeat constructor. Defined.
