(* ===== verification/StoreReplace.v ===== *)
(** * Replacing stored candles

    Deleting a range of one series of the in-memory store and writing new candles
    of that range: afterwards the range holds exactly the new candles and every
    other row is as before.  The workers that replace history share these lemmas. *)

From S2P Require Export Store.

Local Open Scope string_scope.
Local Open Scope Z_scope.
Local Open Scope list_scope.

(** Candles of one series, in order and final. *)
Record series_of (ex symbol : string) (tf : Frame) (bars : list Bar) : Prop := {
  so_sorted : key_sorted Bar.StartMS bars;
  so_each : ∀ b, b ∈ bars → bar_series b = series_key ex symbol (frame_name tf) ∧
              b.(Bar.Timeframe) = frame_name tf ∧ b.(Bar.IsFinal) = true;
}.

(** The candle of [bars] that starts at [start]. *)
Definition bar_of (bars : list Bar) (start : Z) : option Bar := List.find (fun b => b.(Bar.StartMS) =? start) bars.

Lemma bar_of_in bars b : key_sorted Bar.StartMS bars → b ∈ bars → bar_of bars b.(Bar.StartMS) = Some b.
Proof.
  intros Hs Hin. destruct (bar_of bars b.(Bar.StartMS)) as [b'|] eqn:E.
  - apply find_some in E as [Hin' Heq]. zbool. f_equal. apply (NoDup_key_inj Bar.StartMS bars); try done.
    + by apply key_sorted_NoDup.
    + by apply list_elem_of_In.
  - exfalso. apply list_elem_of_In in Hin. pose proof (find_none _ _ E b Hin) as H. simpl in H. by rewrite Z.eqb_refl in H.
Qed.

Lemma bar_of_filter bars start :
  key_sorted Bar.StartMS bars → last (List.filter (fun b => b.(Bar.StartMS) =? start) bars) = bar_of bars start.
Proof.
  intros Hs. destruct (last _) as [b|] eqn:E.
  - apply last_elem in E. apply list_elem_of_In, List.filter_In in E as [Hin Heq]. zbool. subst start.
    symmetry. apply bar_of_in; [done|by apply list_elem_of_In].
  - apply last_None in E. destruct (bar_of bars start) as [b|] eqn:Eb; [|done]. apply find_some in Eb as [Hin Heq].
    exfalso. assert (b ∈ List.filter (fun b => b.(Bar.StartMS) =? start) bars) as H
      by (apply list_elem_of_In, List.filter_In; done). rewrite E in H. by apply not_elem_of_nil in H.
Qed.

Lemma sorted_bounds bars b :
  key_sorted Bar.StartMS bars → b ∈ bars → in_range (from_option Bar.StartMS 0 (head bars)) (from_option Bar.StartMS 0 (last bars)) b.(Bar.StartMS) = true.
Proof.
  intros Hs Hin. unfold in_range. apply andb_true_iff. rewrite !Z.leb_le. split.
  - destruct bars as [|x bars]; [by apply not_elem_of_nil in Hin|]. simpl. apply StronglySorted_inv in Hs as [_ Hs].
    apply elem_of_cons in Hin as [->|Hin]; [lia|]. rewrite Forall_forall in Hs. specialize (Hs b Hin). lia.
  - destruct (last bars) as [x|] eqn:E; simpl.
    + apply last_Some in E as (l & ->). apply elem_of_app in Hin as [Hin| ->%list_elem_of_singleton]; [|lia].
      apply StronglySorted_app in Hs as (Hx & _ & _). specialize (Hx b x Hin ltac:(by left)). lia.
    + apply last_None in E as ->. by apply not_elem_of_nil in Hin.
Qed.

Lemma upsert_bars_other key bars st :
  (∀ b, b ∈ bars → bar_series b ≠ key) →
  rows (snd (Store.UpsertBars bars st)).(BarStore.bars) key = rows st.(BarStore.bars) key.
Proof.
  simpl. revert st. induction bars as [|b bars IH]; intros st Hne; simpl; [done|].
  rewrite IH by (intros; apply Hne; by right). unfold upsert_bar. case_bool; [done|]. simpl.
  rewrite rows_put, decide_False; [done|]. apply Hne. by left.
Qed.

Section restores.
Context (ex symbol : string) (tf : Frame) (lo hi : Z) (bars : list Bar) (st : BarStore).
Context (Hseries : series_of ex symbol tf bars) (Hst : bars_wf st).
Context (Hrange : ∀ b, b ∈ bars → in_range lo hi b.(Bar.StartMS) = true).

Notation key := (series_key ex symbol (frame_name tf)).
Notation hit := (in_range lo hi).

(** The store without the old candles, and with the new ones. *)
Definition cleared : BarStore :=
  snd (Store.DeleteBarsInRange ex symbol (frame_name tf) lo hi st).
Definition restored : BarStore := snd (Store.UpsertBars bars cleared).

Lemma cleared_row start : hit start = true → rows cleared.(BarStore.bars) key !! start = None.
Proof using.
  intros Hh. destruct (DeleteBarsInRange_rows ex symbol (frame_name tf) lo hi st key start)
    as [H _]. unfold cleared. rewrite H, Hh, (bool_decide_eq_true_2 (key = key)) by done. simpl.
  case_bool; bprop; [done|]. by apply eq_None_not_Some.
Qed.

Lemma cleared_unverified start : tf = F1m → hit start = true → verified_at cleared key start <= 0.
Proof using Hst.
  intros Htf Hh. apply Z.nlt_ge. intros Hv. pose proof (cleared_row start Hh) as Hr.
  pose proof (DeleteBarsInRange_wf ex symbol (frame_name tf) lo hi st Hst) as Hwf.
  fold cleared in Hwf. rewrite Htf in Hv. destruct (bw_final _ Hwf ex symbol start Hv) as (b & Hb & _).
  rewrite Htf in Hr. unfold minuteVerificationKey in Hb. change (frame_name F1m) with "1m" in Hr. congruence.
Qed.

Lemma series_named : Forall named_tf bars.
Proof using Hseries.
  apply Forall_forall. intros b Hb. destruct (so_each _ _ _ _ Hseries b Hb) as (_ & Htf & _).
  unfold named_tf. rewrite Htf. apply frame_name_tf.
Qed.

Lemma restored_row start : rows restored.(BarStore.bars) key !! start =
  if hit start then bar_of bars start else rows st.(BarStore.bars) key !! start.
Proof using Hseries Hst Hrange.
  unfold restored.
  pose proof (UpsertBars_row bars cleared ex symbol (frame_name tf) start (frame_name_tf tf) series_named) as H.
  cbv zeta in H. rewrite H. clear H.
  assert (List.filter (fun b => bool_decide (bar_series b = key) && (b.(Bar.StartMS) =? start)) bars
          = List.filter (fun b => b.(Bar.StartMS) =? start) bars) as ->.
  { apply filter_ext_in. intros b Hb%list_elem_of_In. destruct (so_each _ _ _ _ Hseries b Hb) as (-> & _).
    by rewrite bool_decide_eq_true_2. }
  rewrite bar_of_filter by apply (so_sorted _ _ _ _ Hseries).
  destruct (bar_of bars start) as [b|] eqn:Eb.
  - assert (Hh : hit start = true).
    { apply find_some in Eb as [Hin Heq]. zbool. subst start. by apply Hrange, list_elem_of_In. }
    rewrite Hh. destruct (bool_decide (frame_name tf = "1m")) eqn:Etf; simpl; [|done]. bprop.
    rewrite (proj2 (Z.ltb_ge _ _)); [done|]. apply cleared_unverified; [by apply frame_name_inj|done].
  - destruct (hit start) eqn:Hh; [by apply cleared_row|].
    destruct (DeleteBarsInRange_rows ex symbol (frame_name tf) lo hi st key start)
      as [H _]. unfold cleared. by rewrite H, Hh, andb_false_r.
Qed.

Lemma restored_other k : k ≠ key → rows restored.(BarStore.bars) k = rows st.(BarStore.bars) k.
Proof using Hseries.
  intros Hk. unfold restored. rewrite upsert_bars_other.
  - apply map_eq. intros start.
    destruct (DeleteBarsInRange_rows ex symbol (frame_name tf) lo hi st k start) as [H _].
    unfold cleared. by rewrite H, bool_decide_eq_false_2.
  - intros b Hb. destruct (so_each _ _ _ _ Hseries b Hb) as (-> & _). done.
Qed.

Lemma restored_wf : bars_wf restored.
Proof using Hseries Hst. apply UpsertBars_wf; [apply series_named|]. by apply DeleteBarsInRange_wf. Qed.

(** What is read back are the new candles, decorated. *)
Lemma restored_read :
  Store.BarsInRange ex symbol (frame_name tf) lo hi restored = Ok (DecorateBar <$> bars).
Proof using Hseries Hst Hrange.
  pose proof (so_sorted _ _ _ _ Hseries) as Hs.
  assert (Hs' : key_sorted Bar.StartMS (DecorateBar <$> bars))
    by (apply (key_sorted_fmap _ Bar.StartMS); [intros b _; apply DecorateBar_StartMS|done]).
  destruct (BarsInRange_spec restored ex symbol (frame_name tf) lo hi restored_wf)
    as (out & -> & Ho & Hin). f_equal.
  rewrite <- (sort_by_id Bar.StartMS out), <- (sort_by_id Bar.StartMS (DecorateBar <$> bars)) by done.
  apply sort_by_Permutation; [by apply key_sorted_NoDup|].
  apply NoDup_Permutation; [by eapply NoDup_fmap_1, key_sorted_NoDup..|]. intros b. rewrite Hin, list_elem_of_fmap. split.
  - intros (b0 & Hb & Hf & Hr & ->). exists b0. split; [done|].
    rewrite restored_row in Hb. unfold in_range in Hb. rewrite !(proj2 (Z.leb_le _ _)) in Hb by lia. simpl in Hb.
    apply find_some in Hb as [Hb _]. by apply list_elem_of_In.
  - intros (b0 & -> & Hb). exists b0. pose proof (Hrange b0 Hb) as Hh.
    split; [by rewrite restored_row, Hh, bar_of_in|]. destruct (so_each _ _ _ _ Hseries b0 Hb) as (_ & _ & Hf).
    unfold in_range in Hh. zbool. auto.
Qed.

End restores.
