(* ===== verification/MarketService.v ===== *)
(** * The market service (internal/app/market_service.go, minute_verification.go)

    The service takes candles from the collectors, keeps the live ones, stores
    the final ones, rolls them up and publishes everything to the hub.

    A method is a computation of the monad [svcM]: it reads and writes the
    service's state [Svc] (the store, the hub, the live candles, the latest
    verification of a symbol, the readings of the clock, and a log of what the
    telemetry and the observers are told) and ends in a value, an error, or a
    panic ([MustNormalize] of an unknown timeframe, or a panic of the hub).  An
    outcome [OutOfFuel] stands for a loop that would go on; ServiceSafety.v,
    RollupRepair.v and ServiceSpec.v show that the loops and recursions of the
    service never give it.

    The symbol locks make the methods on one symbol mutually exclusive, so each
    is run from start to end here; [lock_shards] is the set of locks a method
    takes, in the order it takes them.

    The type of the store is a parameter, through the class [HistoricalStore]. *)

From S2P Require Export Store Hub.

Local Open Scope string_scope.
Local Open Scope Z_scope.
Local Open Scope list_scope.

Definition defaultRecentLimit : Z := 300.
Definition officialOneMinuteSource : string := "exchange_kline".

(** ** State and monad *)

(** Calls to the telemetry and the observers; durations are left out. *)
Inductive notice : Set :=
| BarPersisted (bar : Bar)
| BarPublished (bar : Bar)
| StorageOperation (operation : string) (err : option go_error)
| ObserveFinalBar (observer : nat) (bar : Bar).

Module Svc.
Record Svc (St : Type) : Type := mk {
store : St;
hub : Hub;
liveBars : gmap string Bar;
latestVerification : gmap string Z;
finalObservers : nat;
clock : nat → Z;
log : list notice;
}.
Arguments mk {St}.
Arguments store {St}.
Arguments hub {St}.
Arguments liveBars {St}.
Arguments latestVerification {St}.
Arguments finalObservers {St}.
Arguments clock {St}.
Arguments log {St}.

Section setters.
Context {St : Type}.
Definition set_store (v : St) (s : Svc St) : Svc St :=
  mk v s.(hub) s.(liveBars) s.(latestVerification) s.(finalObservers) s.(clock) s.(log).
Definition set_hub (v : Hub) (s : Svc St) : Svc St :=
  mk s.(store) v s.(liveBars) s.(latestVerification) s.(finalObservers) s.(clock) s.(log).
Definition set_liveBars (v : gmap string Bar) (s : Svc St) : Svc St :=
  mk s.(store) s.(hub) v s.(latestVerification) s.(finalObservers) s.(clock) s.(log).
Definition set_latestVerification (v : gmap string Z) (s : Svc St) : Svc St :=
  mk s.(store) s.(hub) s.(liveBars) v s.(finalObservers) s.(clock) s.(log).
Definition set_finalObservers (v : nat) (s : Svc St) : Svc St :=
  mk s.(store) s.(hub) s.(liveBars) s.(latestVerification) v s.(clock) s.(log).
Definition set_clock (v : nat → Z) (s : Svc St) : Svc St :=
  mk s.(store) s.(hub) s.(liveBars) s.(latestVerification) s.(finalObservers) v s.(log).
Definition set_log (v : list notice) (s : Svc St) : Svc St :=
  mk s.(store) s.(hub) s.(liveBars) s.(latestVerification) s.(finalObservers) s.(clock) v.
End setters.
End Svc.
Notation Svc := Svc.Svc.

(** What [NewMarketService] fixes. *)
Module Config.
Record Config : Set := mk { frames : list Frame; recentMax : Z; telemetry : bool }.
End Config.
Notation Config := Config.Config.

Inductive outcome (A : Type) : Type :=
| Ret (a : A)
| Fail (e : go_error)
| Panic
| OutOfFuel.
Arguments Ret {A} a.
Arguments Fail {A} e.
Arguments Panic {A}.
Arguments OutOfFuel {A}.

Definition svcM (St A : Type) : Type := Svc St → outcome A * Svc St.

#[export] Instance svc_ret {St} : MRet (svcM St) := fun A a s => (Ret a, s).
#[export] Instance svc_bind {St} : MBind (svcM St) := fun A B f m s =>
  match m s with
  | (Ret a, s') => f a s'
  | (Fail e, s') => (Fail e, s')
  | (Panic, s') => (Panic, s')
  | (OutOfFuel, s') => (OutOfFuel, s')
  end.

Section monad.
Context {St : Type}.
Notation M := (svcM St).

Definition skip : M unit := mret tt.
Definition fail {A} (e : go_error) : M A := fun s => (Fail e, s).
Definition panic {A} : M A := fun s => (Panic, s).
Definition get {A} (f : Svc St → A) : M A := fun s => (Ret (f s), s).
Definition modify (f : Svc St → Svc St) : M unit := fun s => (Ret tt, f s).
Definition lift {A} (r : result go_error A) : M A := match r with Ok a => mret a | Err e => fail e end.

(** [time.Now().UnixMilli()]: the next reading of the clock. *)
Definition NowMS : M Z := fun s =>
  (Ret (s.(Svc.clock) 0%nat), Svc.set_clock (fun n => s.(Svc.clock) (S n)) s).

(** [MustNormalize]. *)
Definition MustNormalize (tf : string) : M Frame :=
  match Normalize tf with Ok f => mret f | Err _ => panic end.

Fixpoint forM_ {A} (l : list A) (f : A → M unit) : M unit :=
  match l with [] => skip | a :: l' => f a ;; forM_ l' f end.
End monad.

Definition check_tf {St} (exchange tf : string) : svcM St Frame :=
  match ValidateForExchange exchange tf with Ok f => mret f | Err e => fail (tf_go_error e) end.

(** ** Pure helpers *)

Definition normalizeMarginType (value : string) : string :=
  let value := ToLower (TrimSpace value) in
  if bool_decide (value ∈ ["coinmargin"; "coin_margin"; "coin-m"; "coin_futures"]) then "coinmargin"
  else if bool_decide (value ∈ ["umargin"; "u_margin"; "usdsmargin"; "um_futures"; "linear"]) then "umargin"
  else value.

Definition validBar (bar : Bar) : bool :=
  negb (bool_decide (bar.(Bar.Exchange) = "")) && negb (bool_decide (bar.(Bar.Symbol) = ""))
  && negb (bool_decide (bar.(Bar.Timeframe) = "")) && (0 <? bar.(Bar.StartMS))
  && (bar.(Bar.StartMS) <=? bar.(Bar.EndMS))
  && f64_gtb bar.(Bar.OpenPrice) f64_zero && f64_gtb bar.(Bar.HighPrice) f64_zero
  && f64_gtb bar.(Bar.LowPrice) f64_zero && f64_gtb bar.(Bar.ClosePrice) f64_zero.

(** [normalizeBar] for a timeframe that is known, with the reading [now] of the
    clock, which the code takes only when [UpdatedAtMS] is 0. *)
Definition normalize_bar (f : Frame) (now : Z) (bar : Bar) : Bar :=
  let bar := Bar.set_Exchange (ToLower (TrimSpace bar.(Bar.Exchange))) bar in
  let bar := Bar.set_Symbol (ToUpper (TrimSpace bar.(Bar.Symbol))) bar in
  let bar := Bar.set_Timeframe (frame_name f) bar in
  let bar := Bar.set_MarginType (normalizeMarginType bar.(Bar.MarginType)) bar in
  let bar := if (bar.(Bar.EndMS) =? 0) && (0 <? bar.(Bar.StartMS))
             then Bar.set_EndMS (EndMS bar.(Bar.StartMS) f) bar else bar in
  let bar := if bar.(Bar.LastTickMS) =? 0 then Bar.set_LastTickMS bar.(Bar.EndMS) bar else bar in
  let bar := if bar.(Bar.UpdatedAtMS) =? 0 then Bar.set_UpdatedAtMS now bar else bar in
  let bar := if bool_decide (bar.(Bar.Source) = "") then Bar.set_Source officialOneMinuteSource bar else bar in
  let bar := if bool_decide (bar.(Bar.Reason) = "")
             then Bar.set_Reason (if bar.(Bar.IsFinal) then "final" else "update") bar else bar in
  DecorateBar bar.

Definition sameRollup (left right : Bar) : bool :=
  left.(Bar.IsFinal)
  && bool_decide (left.(Bar.Exchange) = right.(Bar.Exchange))
  && bool_decide (left.(Bar.Symbol) = right.(Bar.Symbol))
  && bool_decide (left.(Bar.Timeframe) = right.(Bar.Timeframe))
  && (left.(Bar.StartMS) =? right.(Bar.StartMS)) && (left.(Bar.EndMS) =? right.(Bar.EndMS))
  && bool_decide (left.(Bar.MarginType) = right.(Bar.MarginType))
  && f64_eqb left.(Bar.OpenPrice) right.(Bar.OpenPrice)
  && f64_eqb left.(Bar.HighPrice) right.(Bar.HighPrice)
  && f64_eqb left.(Bar.LowPrice) right.(Bar.LowPrice)
  && f64_eqb left.(Bar.ClosePrice) right.(Bar.ClosePrice)
  && f64_eqb left.(Bar.Volume) right.(Bar.Volume)
  && f64_eqb left.(Bar.QuoteVolume) right.(Bar.QuoteVolume)
  && f64_eqb left.(Bar.ContractVolume) right.(Bar.ContractVolume)
  && (left.(Bar.TradeCount) =? right.(Bar.TradeCount))
  && bool_decide (left.(Bar.VolumeUnit) = right.(Bar.VolumeUnit))
  && bool_decide (left.(Bar.QuoteUnit) = right.(Bar.QuoteUnit))
  && (left.(Bar.LastTickMS) =? right.(Bar.LastTickMS))
  && f64_eqb left.(Bar.PrevClose) right.(Bar.PrevClose)
  && f64_eqb left.(Bar.Chg) right.(Bar.Chg) && f64_eqb left.(Bar.Amp) right.(Bar.Amp).

(** The loop of [sourceBarsComplete]: the start expected next. *)
Fixpoint expect_starts (sourceTF : Frame) (expectedStart : Z) (bars : list Bar) {struct bars} : option Z :=
  match bars with
  | [] => Some expectedStart
  | bar :: rest =>
      if negb bar.(Bar.IsFinal) || negb (bar.(Bar.StartMS) =? expectedStart) then None
      else expect_starts sourceTF (NextStartMS bar.(Bar.StartMS) sourceTF) rest
  end.

Definition sourceBarsComplete (bars : list Bar) (sourceTF : Frame) (targetStart targetEnd : Z) : bool :=
  match last bars with
  | None => false
  | Some last_bar =>
      match expect_starts sourceTF targetStart bars with
      | None => false
      | Some expectedStart => (targetEnd <? expectedStart) && (targetEnd <=? last_bar.(Bar.EndMS))
      end
  end.

Definition tickFromBar (bar : Bar) : Tick :=
  {| Tick.Exchange := bar.(Bar.Exchange); Tick.Symbol := bar.(Bar.Symbol);
     Tick.TsMS := bar.(Bar.LastTickMS); Tick.Price := bar.(Bar.ClosePrice);
     Tick.Size := bar.(Bar.Volume); Tick.Side := ""; Tick.TradeID := "";
     Tick.EventType := "kline"; Tick.Source := bar.(Bar.Source);
     Tick.RecvMS := bar.(Bar.UpdatedAtMS); Tick.Raw := "" |}.

(** The loop of [mergeLiveBar]: replace the first candle with the same start. *)
Fixpoint replace_start (bars : list Bar) (live : Bar) : option (list Bar) :=
  match bars with
  | [] => None
  | b :: rest =>
      if b.(Bar.StartMS) =? live.(Bar.StartMS) then Some (live :: rest)
      else (b ::.) <$> replace_start rest live
  end.

Definition mergeLiveBar (bars : list Bar) (live : option Bar) : list Bar :=
  match live with
  | None => bars
  | Some live =>
      match replace_start bars live with
      | Some bars' => bars'
      | None =>
          match last bars with
          | None => bars ++ [live]
          | Some b => if b.(Bar.StartMS) <? live.(Bar.StartMS) then bars ++ [live] else bars
          end
      end
  end.

Definition trimBars (bars : list Bar) (limit : Z) : list Bar :=
  if (limit <=? 0) || (Z.of_nat (length bars) <=? limit) then bars
  else drop (length bars - Z.to_nat limit) bars.

(** [addRollupDependencies]: the recursion follows the sources; [fuel] bounds
    its depth, and six steps reach "1m" from everywhere. *)
Fixpoint addRollupDependencies (fuel : nat) (tf : Frame) (out : list Frame) : list Frame :=
  match fuel with
  | O => out
  | S fuel' =>
      match RollupSourceTimeframe tf with
      | None => out
      | Some source =>
          if bool_decide (source = OneMinute) then out
          else if bool_decide (source ∈ out) then out
          else addRollupDependencies fuel' source (source :: out)
      end
  end.

(** [None] is the panic of [MustNormalize]; the [requested] map is the list of
    its keys. *)
Fixpoint request_frames (frames : list string) (requested : list Frame) : option (list Frame) :=
  match frames with
  | [] => Some requested
  | tf :: rest =>
      match Normalize tf with
      | Err _ => None
      | Ok f =>
          if is_ok (ValidateForExchange "" (frame_name f))
          then request_frames rest (addRollupDependencies 6 f (f :: requested))
          else request_frames rest requested
      end
  end.

Definition normalizeFrames (frames : list string) : option (list Frame) :=
  let frames := match frames with [] => map frame_name Order | _ => frames end in
  requested ← request_frames frames [];
  Some (List.filter (fun tf => bool_decide (tf ∈ requested)) Order).

Definition NewMarketService (frames : list string) (recentLimit : Z) (telemetry : bool) : option Config :=
  let recentLimit := if recentLimit <=? 0 then defaultRecentLimit else recentLimit in
  normalized ← normalizeFrames frames;
  Some (Config.mk normalized recentLimit telemetry).

(** ** The symbol locks *)

(** FNV-1a, 32 bits. *)
Definition fnv32a (s : string) : Z :=
  foldl (fun h b => (Z.lxor h b * 16777619) mod 4294967296) 2166136261 (string_bytes s).

Definition symbol_shard (bar : Bar) : Z :=
  fnv32a (ToLower bar.(Bar.Exchange) ++ ":" ++ ToUpper bar.(Bar.Symbol))%string mod 1024.

(** The locks [lockBarSymbols] takes, in order; [unlock] releases them backwards. *)
Definition lock_shards (bars : list Bar) : list Z :=
  sort_by id (remove_dups (symbol_shard <$> bars)).

(** ** The methods *)

Module Bucket.
Record rollupBucket : Set := mk {
  exchange : string; symbol : string; sourceTimeframe : Frame; timeframe : Frame;
  startMS : Z; endMS : Z }.
End Bucket.
Notation rollupBucket := Bucket.rollupBucket.

(** A map whose keys are structs is keyed by their fields. *)
Definition bucketKey : Set := (string * string * string * Z).

(** [rollupSeriesKey], [rollupSourceKey] and [rollupSourceRange]. *)
Definition rollupSeriesKey : Set := (string * string * Frame * Frame).
Definition rollupSourceKey : Set := (string * string * Frame).
Definition rollupSourceRange : Set := (Z * Z).

Definition source_of (key : rollupSeriesKey) : rollupSourceKey :=
  let '(exchange, symbol, source, _) := key in (exchange, symbol, source).

(** The inner loop of the first part of [repairRollupsLocked]: the buckets the
    candle belongs to. *)
Definition collect_bar (frames : list Frame) (f : Frame) (bar : Bar)
    (m : gmap rollupSeriesKey (gmap Z rollupBucket)) : gmap rollupSeriesKey (gmap Z rollupBucket) :=
  foldl (fun m target =>
    if negb (is_ok (ValidateForExchange bar.(Bar.Exchange) (frame_name target))) then m
    else if bool_decide (target = OneMinute) || negb (bool_decide (RollupSourceTimeframe target = Some f)) then m
    else
      let startMS := FloorStartMS bar.(Bar.StartMS) target in
      let key := (bar.(Bar.Exchange), bar.(Bar.Symbol), f, target) in
      <[key := <[startMS := Bucket.mk bar.(Bar.Exchange) bar.(Bar.Symbol) f target startMS (EndMS startMS target)]>
                 (default ∅ (m !! key))]> m) m frames.

(** The ranges of source candles the buckets need. *)
Definition widen (range : option rollupSourceRange) (bucket : rollupBucket) : rollupSourceRange :=
  match range with
  | None => (bucket.(Bucket.startMS), bucket.(Bucket.endMS))
  | Some (startMS, endMS) =>
      (if bucket.(Bucket.startMS) <? startMS then bucket.(Bucket.startMS) else startMS,
       if endMS <? bucket.(Bucket.endMS) then bucket.(Bucket.endMS) else endMS)
  end.

Definition source_ranges (m : gmap rollupSeriesKey (gmap Z rollupBucket))
    : gmap rollupSourceKey rollupSourceRange :=
  foldl (fun ranges '(key, buckets) =>
    foldl (fun ranges '(_, bucket) => <[source_of key := widen (ranges !! source_of key) bucket]> ranges)
      ranges (map_to_list (buckets : gmap Z rollupBucket)))
    ∅ (map_to_list m).

Definition series_less : rollupSeriesKey → rollupSeriesKey → bool :=
  less_lex (less_by (fun '(_, _, _, tf) => Index tf))
    (less_lex (less_str (fun '(ex, _, _, _) => ex)) (less_str (fun '(_, sy, _, _) => sy))).
Definition source_less : rollupSourceKey → rollupSourceKey → bool :=
  less_lex (less_str (fun '(ex, _, _) => ex))
    (less_lex (less_str (fun '(_, sy, _) => sy)) (less_by (fun '(_, _, tf) => Index tf))).

Definition by_start (bars : list Bar) : gmap Z Bar :=
  foldl (fun m b => <[b.(Bar.StartMS) := b]> m) ∅ bars.

(** The loop over the cursor: the source candles of a bucket, or nil when one is
    missing.  A step is at least a minute, so the minutes of the bucket bound
    the steps; [None] means more were needed. *)
Fixpoint gather (fuel : nat) (source : Frame) (m : gmap Z Bar) (cursor endMS : Z) (acc : list Bar)
    {struct fuel} : option (list Bar) :=
  if endMS <? cursor then Some acc
  else
    match fuel with
    | O => None
    | S fuel' =>
        match m !! cursor with
        | None => Some []
        | Some bar => gather fuel' source m (NextStartMS cursor source) endMS (acc ++ [bar])
        end
    end.
Definition gather_fuel (bucket : rollupBucket) : nat :=
  Z.to_nat ((bucket.(Bucket.endMS) - bucket.(Bucket.startMS)) / MinuteMS + 2).

(** How often a candle of timeframe [tf] can go round the rollup queue: itself
    and the candles its rollup leads to. *)
Definition frame_weight (f : Frame) : nat :=
  match f with
  | F1m => 17 | F15m => 15 | F30m => 14 | F1H => 13 | F1D => 8 | _ => 1
  end.
Definition bar_weight (bar : Bar) : nat :=
  match Normalize bar.(Bar.Timeframe) with Ok f => frame_weight f | Err _ => 1 end.
Definition queue_weight (queue : list Bar) : nat := foldr (fun b n => bar_weight b + n)%nat 0%nat queue.

Section service.
Context {St : Type} `{!HistoricalStore St} (cfg : Config).
Notation M := (svcM St).

(** A call of a store method that changes the store, and one that reads. *)
Definition store_call {A} (f : St → result go_error A * St) : M (result go_error A) := fun s =>
  let '(r, st) := f s.(Svc.store) in (Ret r, Svc.set_store st s).
Definition store_read {A} (f : St → result go_error A) : M (result go_error A) :=
  fun s => (Ret (f s.(Svc.store)), s).

Definition notify (n : notice) : M unit := modify (fun s => Svc.set_log (s.(Svc.log) ++ [n]) s).
Definition telemetry (n : notice) : M unit :=
  if cfg.(Config.telemetry) then notify n else skip.

Definition err_of {A} (r : result go_error A) : option go_error :=
  match r with Ok _ => None | Err e => Some e end.
Definition observeStorage {A} (operation : string) (r : result go_error A) : M unit :=
  telemetry (StorageOperation operation (err_of r)).

(** A read with its observation, the shape of most uses of the store. *)
Definition read_bars (operation exchange symbol tf : string) (startMS endMS : Z) : M (list Bar) :=
  r ← store_read (hs_BarsInRange exchange symbol tf startMS endMS);
  observeStorage operation r;;
  lift r.

Definition AddFinalBarObserver : M unit :=
  modify (fun s => Svc.set_finalObservers (S s.(Svc.finalObservers)) s).

Definition notifyFinalBarObservers (bar : Bar) : M unit :=
  n ← get Svc.finalObservers;
  forM_ (seq 0 n) (fun i => notify (ObserveFinalBar i bar)).

Definition barKey (exchange symbol tf : string) : M string :=
  f ← MustNormalize tf; mret (series_key exchange symbol (frame_name f)).

Definition normalizeBar (bar : Bar) : M Bar :=
  f ← MustNormalize bar.(Bar.Timeframe);
  if bar.(Bar.UpdatedAtMS) =? 0
  then now ← NowMS; mret (normalize_bar f now bar)
  else mret (normalize_bar f 0 bar).

(** [s.hub.Publish]. *)
Definition hub_publish (event : Event) : M unit := fun s =>
  match Publish event s.(Svc.hub) with
  | Some h => (Ret tt, Svc.set_hub h s)
  | None => (Panic, s)
  end.

Definition publishBar (bar : Bar) : M unit :=
  let barCopy := DecorateBar bar in
  hub_publish (Event.mk "kline" 0 barCopy.(Bar.Exchange) barCopy.(Bar.Symbol) barCopy.(Bar.Timeframe)
                 None (Some barCopy));;
  telemetry (BarPublished barCopy);;
  if negb (bool_decide (barCopy.(Bar.Timeframe) = frame_name OneMinute)) then skip
  else hub_publish (Event.mk "ticker" 0 barCopy.(Bar.Exchange) barCopy.(Bar.Symbol) ""
                      (Some (tickFromBar barCopy)) None).

Definition previousClose (bar : Bar) : M float64 :=
  f ← MustNormalize bar.(Bar.Timeframe);
  duration ← match fixedMinuteFrames f with
             | Some _ => mret (DurationMS 0 f)
             | None => now ← NowMS; mret (DurationMS now f)
             end;
  let previousStart := i64 (bar.(Bar.StartMS) - duration) in
  if previousStart <? 0 then mret f64_zero
  else
    bars ← read_bars "previous_close" bar.(Bar.Exchange) bar.(Bar.Symbol) bar.(Bar.Timeframe)
             previousStart previousStart;
    match last bars with
    | Some b => mret b.(Bar.ClosePrice)
    | None =>
        if bool_decide (bar.(Bar.Timeframe) = frame_name OneMinute) then mret f64_zero
        else
          key ← barKey bar.(Bar.Exchange) bar.(Bar.Symbol) bar.(Bar.Timeframe);
          live ← get (fun s => s.(Svc.liveBars) !! key);
          mret (match live with
                | Some live => if (live.(Bar.StartMS) =? previousStart) && live.(Bar.IsFinal)
                               then live.(Bar.ClosePrice) else f64_zero
                | None => f64_zero
                end)
    end.

Definition enrichBar (bar : Bar) : M Bar :=
  close ← previousClose bar; mret (ApplyDerived bar close).

Definition prepareFinalBar (bar : Bar) : M Bar :=
  bar ← normalizeBar bar;
  if negb (validBar bar) then mret bar else enrichBar bar.

(** *** Rollups of final candles *)

Definition rebuildRollupBucket (bucket : rollupBucket) (reason : string) (nowMS : Z) : M (option Bar) :=
  check_tf bucket.(Bucket.exchange) (frame_name bucket.(Bucket.timeframe));;
  sourceBars ← read_bars "rollup_source" bucket.(Bucket.exchange) bucket.(Bucket.symbol)
                 (frame_name bucket.(Bucket.sourceTimeframe)) bucket.(Bucket.startMS) bucket.(Bucket.endMS);
  if negb (sourceBarsComplete sourceBars bucket.(Bucket.sourceTimeframe)
             bucket.(Bucket.startMS) bucket.(Bucket.endMS)) then mret None
  else
    match RollupBars bucket.(Bucket.timeframe) sourceBars true reason nowMS with
    | None => mret None
    | Some rollup =>
        enriched ← enrichBar rollup;
        r ← store_call (hs_UpsertBars [enriched]);
        observeStorage "rollup_upsert" r;;
        lift r;;
        telemetry (BarPersisted enriched);;
        publishBar enriched;;
        mret (Some enriched)
    end.

(** The loop over [s.frames] for one candle of the queue: what it appends to
    the queue, and [processed]. *)
Fixpoint rollup_targets (bar : Bar) (repairRollups : bool) (nowMS : Z) (frames : list Frame)
    (queue : list Bar) (processed : gset bucketKey) : M (list Bar * gset bucketKey) :=
  match frames with
  | [] => mret (queue, processed)
  | tf :: rest =>
      let continue := rollup_targets bar repairRollups nowMS rest in
      if negb (is_ok (ValidateForExchange bar.(Bar.Exchange) (frame_name tf))) then continue queue processed
      else if bool_decide (tf = OneMinute) then continue queue processed
      else
        match RollupSourceTimeframe tf with
        | None => continue queue processed
        | Some source =>
            if negb (bool_decide (frame_name source = bar.(Bar.Timeframe))) then continue queue processed
            else
              let targetStart := FloorStartMS bar.(Bar.StartMS) tf in
              let targetEnd := EndMS targetStart tf in
              if negb repairRollups && (bar.(Bar.EndMS) <? targetEnd) then continue queue processed
              else
                let key := (bar.(Bar.Exchange), bar.(Bar.Symbol), frame_name tf, targetStart) in
                if bool_decide (key ∈ processed) then continue queue processed
                else
                  rollup ← rebuildRollupBucket
                    (Bucket.mk bar.(Bar.Exchange) bar.(Bar.Symbol) source tf targetStart targetEnd)
                    "rollup" nowMS;
                  match rollup with
                  | None => continue queue processed
                  | Some rollup => continue (queue ++ [rollup]) ({[key]} ∪ processed)
                  end
        end
  end.

(** The loop over the queue. *)
Fixpoint rollup_queue (fuel : nat) (repairRollups : bool) (nowMS : Z) (queue : list Bar)
    (processed : gset bucketKey) : M unit :=
  match queue with
  | [] => skip
  | bar :: rest =>
      match fuel with
      | O => fun s => (OutOfFuel, s)
      | S fuel' =>
          if negb bar.(Bar.IsFinal) then rollup_queue fuel' repairRollups nowMS rest processed
          else
            '(queue, processed) ← rollup_targets bar repairRollups nowMS cfg.(Config.frames) rest processed;
            rollup_queue fuel' repairRollups nowMS queue processed
      end
  end.

Definition rollupFinalBars (bars : list Bar) (repairRollups : bool) : M unit :=
  nowMS ← NowMS;
  rollup_queue (queue_weight bars) repairRollups nowMS bars ∅.

(** [persistFinalBars]: a slice that ends in an error leaves nothing stored. *)
Fixpoint check_and_decorate (bars : list Bar) : M (list Bar) :=
  match bars with
  | [] => mret []
  | bar :: rest =>
      check_tf bar.(Bar.Exchange) bar.(Bar.Timeframe);;
      rest' ← check_and_decorate rest;
      mret (DecorateBar bar :: rest')
  end.

Definition persistFinalBars (bars : list Bar) (repairRollups : bool) : M unit :=
  match bars with
  | [] => skip
  | _ =>
      bars ← check_and_decorate bars;
      r ← store_call (hs_UpsertBars bars);
      observeStorage "upsert_bars" r;;
      lift r;;
      forM_ bars (fun bar => telemetry (BarPersisted bar));;
      forM_ bars publishBar;;
      rollupFinalBars bars repairRollups
  end.

(** *** Ingestion *)

(** [acceptUnverifiedFinal]: the loop over the verification rows. *)
Fixpoint check_verified (ctx : context) (bar : Bar) (rows : list VerifiedMinuteBar) : M bool :=
  match rows with
  | [] => mret true
  | row :: rest =>
      if row.(VerifiedMinuteBar.VerifiedAtMS) <=? 0 then check_verified ctx bar rest
      else if SameOfficialMinuteValues bar row.(VerifiedMinuteBar.bar) then mret false
      else
        match hs_tasks with
        | None => fail (Errorf "verified minute conflict requires durable audit task storage")
        | Some tasks =>
            nowMS ← NowMS;
            enqueueNow ← get (fun s => s.(Svc.clock) 0%nat);
            r ← store_call (MinuteAuditTaskStore.EnqueueMinuteAuditTask tasks ctx enqueueNow
                  (MinuteAuditTask.mk 0 bar.(Bar.Exchange) bar.(Bar.Symbol) "" "conflict"
                     bar.(Bar.StartMS) bar.(Bar.StartMS) bar.(Bar.StartMS) true "" 0 nowMS 0 "" true ""
                     nowMS nowMS));
            lift r;;
            mret false
        end
  end.

Definition acceptUnverifiedFinal (ctx : context) (bar : Bar) : M bool :=
  if negb (bool_decide (bar.(Bar.Timeframe) = "1m")) || negb bar.(Bar.IsFinal) then mret true
  else
    match hs_verifications with
    | None => mret true
    | Some verifications =>
        r ← store_read (MinuteVerificationStore.LoadMinuteVerifications verifications
              bar.(Bar.Exchange) bar.(Bar.Symbol) bar.(Bar.StartMS) bar.(Bar.StartMS));
        rows ← lift r;
        check_verified ctx bar rows
    end.

(** The update of the live candles in [IngestKline]. *)
Definition update_live (bar : Bar) : M unit :=
  liveKey ← barKey bar.(Bar.Exchange) bar.(Bar.Symbol) bar.(Bar.Timeframe);
  modify (fun s => Svc.set_liveBars
    (if bar.(Bar.IsFinal) then delete liveKey s.(Svc.liveBars)
     else <[liveKey := bar]> s.(Svc.liveBars)) s).

(** [buildLiveRollup]: the recursion goes to the source timeframe. *)
Fixpoint buildLiveRollup (fuel : nat) (target : string) (liveOneMinute : Bar) (nowMS : Z) : M (option Bar) :=
  tf ← check_tf liveOneMinute.(Bar.Exchange) target;
  if bool_decide (tf = OneMinute) then mret (Some (DecorateBar liveOneMinute))
  else
    match RollupSourceTimeframe tf with
    | None => mret None
    | Some source =>
        liveSource ← (if bool_decide (source = OneMinute) then mret (Some liveOneMinute)
                      else match fuel with
                           | O => fun s => (OutOfFuel, s)
                           | S fuel' => buildLiveRollup fuel' (frame_name source) liveOneMinute nowMS
                           end);
        match liveSource with
        | None => mret None
        | Some liveSource =>
            let targetStart := FloorStartMS liveOneMinute.(Bar.StartMS) tf in
            partialInputs ← read_bars "live_rollup_source" liveOneMinute.(Bar.Exchange)
              liveOneMinute.(Bar.Symbol) (frame_name source) targetStart (i64 (liveSource.(Bar.StartMS) - 1));
            match RollupBars tf (partialInputs ++ [liveSource]) false "live" nowMS with
            | None => mret None
            | Some rollup => enriched ← enrichBar rollup; mret (Some enriched)
            end
        end
    end.

(** The chain of sources has at most five links. *)
Definition live_fuel : nat := 5.

Definition publishLiveRollups (oneMinute : Bar) : M unit :=
  nowMS ← NowMS;
  forM_ (SupportedForExchange oneMinute.(Bar.Exchange)) (fun tf =>
    if bool_decide (tf = OneMinute) then skip
    else
      subscribed ← get (fun s => HasSubscribers
        (KlineChannel oneMinute.(Bar.Exchange) oneMinute.(Bar.Symbol) (frame_name tf)) s.(Svc.hub));
      if negb (subscribed : bool) then skip
      else
        enriched ← buildLiveRollup live_fuel (frame_name tf) oneMinute nowMS;
        match enriched with Some b => publishBar b | None => skip end).

Definition IngestKline (ctx : context) (bar : Bar) : M unit :=
  check_tf bar.(Bar.Exchange) bar.(Bar.Timeframe);;
  bar ← normalizeBar bar;
  if negb (validBar bar) then skip
  else
    accepted ← acceptUnverifiedFinal ctx bar;
    if negb accepted then skip
    else
      enriched ← enrichBar bar;
      update_live enriched;;
      if enriched.(Bar.IsFinal) then
        persistFinalBars [enriched] false;;
        notifyFinalBarObservers enriched
      else
        publishBar enriched;;
        if bool_decide (enriched.(Bar.Timeframe) = frame_name OneMinute)
        then publishLiveRollups enriched else skip.

(** *** Official repairs *)

Definition repair_less : Bar → Bar → bool :=
  less_lex (less_str Bar.Exchange) (less_lex (less_str Bar.Symbol)
    (less_lex (less_str Bar.Timeframe) (less_by Bar.StartMS))).

(** The assignments of [RepairFinalBars] before it normalises the candle. *)
Definition as_repair (bar : Bar) : Bar :=
  let bar := Bar.set_IsFinal true bar in
  let bar := if bool_decide (bar.(Bar.Source) = "") then Bar.set_Source "rest" bar else bar in
  if bool_decide (bar.(Bar.Reason) = "") then Bar.set_Reason "guardian_repair" bar else bar.

(** A live candle of the repaired bucket is dropped. *)
Definition drop_live (bar : Bar) : M unit :=
  key ← barKey bar.(Bar.Exchange) bar.(Bar.Symbol) bar.(Bar.Timeframe);
  modify (fun s =>
    match s.(Svc.liveBars) !! key with
    | Some live => if live.(Bar.StartMS) =? bar.(Bar.StartMS)
                   then Svc.set_liveBars (delete key s.(Svc.liveBars)) s else s
    | None => s
    end).

Definition repair_one (ctx : context) (bar : Bar) : M unit :=
  check_tf bar.(Bar.Exchange) bar.(Bar.Timeframe);;
  bar ← normalizeBar (as_repair bar);
  accepted ← acceptUnverifiedFinal ctx bar;
  if negb accepted then skip
  else
    enriched ← prepareFinalBar bar;
    if negb (validBar enriched) then skip
    else
      drop_live enriched;;
      persistFinalBars [enriched] true.

Definition RepairFinalBars (ctx : context) (bars : list Bar) : M unit :=
  forM_ (sort_slice repair_less bars) (repair_one ctx).

(** [repairRollupsLocked], part by part. *)
Fixpoint collect_buckets (sourceBars : list Bar) (m : gmap rollupSeriesKey (gmap Z rollupBucket))
    : M (gmap rollupSeriesKey (gmap Z rollupBucket)) :=
  match sourceBars with
  | [] => mret m
  | raw :: rest =>
      f ← check_tf raw.(Bar.Exchange) raw.(Bar.Timeframe);
      bar ← normalizeBar raw;
      if negb bar.(Bar.IsFinal) || negb (validBar bar) then collect_buckets rest m
      else collect_buckets rest (collect_bar cfg.(Config.frames) f bar m)
  end.

Fixpoint read_sources (keys : list rollupSourceKey) (ranges : gmap rollupSourceKey rollupSourceRange)
    (acc : gmap rollupSourceKey (gmap Z Bar)) : M (gmap rollupSourceKey (gmap Z Bar)) :=
  match keys with
  | [] => mret acc
  | key :: rest =>
      let '(exchange, symbol, tf) := key in
      let '(startMS, endMS) := default (0, 0) (ranges !! key) in
      localSources ← read_bars "rollup_source" exchange symbol (frame_name tf) startMS endMS;
      read_sources rest ranges (<[key := by_start localSources]> acc)
  end.

(** The loop over the starts of one series. *)
Fixpoint repair_starts (starts : list Z) (buckets : gmap Z rollupBucket) (sourceByStart : gmap Z Bar)
    (rollupByStart : gmap Z Bar) (repairs dependentSources : list Bar) : M (list Bar * list Bar) :=
  match starts with
  | [] => mret (repairs, dependentSources)
  | startMS :: rest =>
      match buckets !! startMS with
      | None => repair_starts rest buckets sourceByStart rollupByStart repairs dependentSources
      | Some bucket =>
          match gather (gather_fuel bucket) bucket.(Bucket.sourceTimeframe) sourceByStart
                  bucket.(Bucket.startMS) bucket.(Bucket.endMS) [] with
          | None => fun s => (OutOfFuel, s)
          | Some sourceBars =>
              if negb (sourceBarsComplete sourceBars bucket.(Bucket.sourceTimeframe)
                         bucket.(Bucket.startMS) bucket.(Bucket.endMS))
              then repair_starts rest buckets sourceByStart rollupByStart repairs dependentSources
              else
                nowMS ← NowMS;
                match RollupBars bucket.(Bucket.timeframe) sourceBars true "rollup_repair" nowMS with
                | None => repair_starts rest buckets sourceByStart rollupByStart repairs dependentSources
                | Some rollup =>
                    let previousClose :=
                      match rollupByStart !! PreviousStartMS bucket.(Bucket.startMS) bucket.(Bucket.timeframe) with
                      | Some previous => previous.(Bar.ClosePrice)
                      | None => f64_zero
                      end in
                    let enriched := ApplyDerived rollup previousClose in
                    let same := match rollupByStart !! bucket.(Bucket.startMS) with
                                | Some existing => sameRollup existing enriched
                                | None => false
                                end in
                    repair_starts rest buckets sourceByStart
                      (<[bucket.(Bucket.startMS) := enriched]> rollupByStart)
                      (if same then repairs else repairs ++ [enriched])
                      (dependentSources ++ [enriched])
                end
          end
      end
  end.

Fixpoint repair_series (keys : list rollupSeriesKey) (m : gmap rollupSeriesKey (gmap Z rollupBucket))
    (sources : gmap rollupSourceKey (gmap Z Bar)) (repairs dependentSources : list Bar)
    : M (list Bar * list Bar) :=
  match keys with
  | [] => mret (repairs, dependentSources)
  | key :: rest =>
      let buckets := default ∅ (m !! key) in
      let starts := sorted_starts (fun _ => true) buckets in
      match starts with
      | [] => repair_series rest m sources repairs dependentSources
      | start0 :: _ =>
          let '(exchange, symbol, _, tf) := key in
          let sourceByStart := default ∅ (sources !! source_of key) in
          let previousStart := PreviousStartMS start0 tf in
          localRollups ← read_bars "rollup_existing" exchange symbol (frame_name tf) previousStart
                           (List.last starts 0);
          '(repairs, dependentSources) ←
            repair_starts starts buckets sourceByStart (by_start localRollups) repairs dependentSources;
          repair_series rest m sources repairs dependentSources
      end
  end.

(** Storing and publishing what was repaired. *)
Definition store_repairs (repairs : list Bar) : M unit :=
  match repairs with
  | [] => skip
  | _ =>
      r ← store_call (hs_UpsertBars repairs);
      observeStorage "rollup_upsert" r;;
      lift r;;
      forM_ repairs (fun bar => telemetry (BarPersisted bar);; publishBar bar)
  end.

Fixpoint repairRollupsLocked (fuel : nat) (sourceBars : list Bar) : M unit :=
  m ← collect_buckets sourceBars ∅;
  let seriesKeys := sort_slice series_less (fst <$> map_to_list m) in
  let ranges := source_ranges m in
  let sourceKeys := sort_slice source_less (fst <$> map_to_list ranges) in
  sources ← read_sources sourceKeys ranges ∅;
  '(repairs, dependentSources) ← repair_series seriesKeys m sources [] [];
  store_repairs repairs;;
  match dependentSources with
  | [] => skip
  | _ =>
      match fuel with
      | O => fun s => (OutOfFuel, s)
      | S fuel' => repairRollupsLocked fuel' dependentSources
      end
  end.

(** A rollup of a rollup of ... "1m" is reached in at most five steps. *)
Definition repair_fuel : nat := 6.

Definition RepairRollups (sourceBars : list Bar) : M unit :=
  match sourceBars with
  | [] => skip
  | _ => repairRollupsLocked repair_fuel sourceBars
  end.

(** *** Verification *)

Definition verify_less : Bar → Bar → bool :=
  less_lex (less_str Bar.Exchange) (less_lex (less_str Bar.Symbol) (less_by Bar.StartMS)).

Fixpoint normalize_verified (bars : list Bar) : M (list Bar) :=
  match bars with
  | [] => mret []
  | raw :: rest =>
      bar ← normalizeBar raw;
      if negb (bool_decide (bar.(Bar.Timeframe) = "1m")) || negb bar.(Bar.IsFinal) || negb (validBar bar)
      then fail (Errorf "verification requires valid final 1m bars")
      else bars' ← normalize_verified rest; mret (bar :: bars')
  end.

(** The loop of [verifySymbolMinutes]: the candles to mark. *)
Fixpoint verify_minutes (store : MinuteVerificationStore St) (existing : gmap Z VerifiedMinuteBar)
    (bars : list Bar) (generationMS : Z) (toMark : list Bar) : M (list Bar) :=
  match bars with
  | [] => mret toMark
  | bar :: rest =>
      let old := existing !! bar.(Bar.StartMS) in
      let verifiedAt := match old with Some o => o.(VerifiedMinuteBar.VerifiedAtMS) | None => 0 end in
      if generationMS <? verifiedAt then fail (Errorf "stale minute verification for %s at %d: request=%d verified=%d")
      else if match old with Some o => SameOfficialMinuteValues o.(VerifiedMinuteBar.bar) bar | None => false end
      then verify_minutes store existing rest generationMS
             (if verifiedAt =? 0 then toMark ++ [bar] else toMark)
      else
        enriched ← prepareFinalBar (Bar.set_Source "rest" bar);
        r ← store_call (MinuteVerificationStore.UpsertMinuteRevisions store [enriched] generationMS);
        observeStorage "verified_minute_upsert" r;;
        accepted ← lift r;
        match accepted with
        | [] => fail (Errorf "stale minute revision rejected for %s at %d")
        | _ =>
            forM_ accepted (fun revised => telemetry (BarPersisted revised);; publishBar revised);;
            rollupFinalBars accepted true;;
            verify_minutes store existing rest generationMS (toMark ++ accepted)
        end
  end.

Definition verifySymbolMinutes (store : MinuteVerificationStore St) (bars : list Bar) (generationMS : Z) : M unit :=
  match bars with
  | [] => panic
  | bar0 :: _ =>
      let key := (bar0.(Bar.Exchange) ++ ":" ++ bar0.(Bar.Symbol))%string in
      latest ← get (fun s => s.(Svc.latestVerification) !! key);
      if match latest with Some l => generationMS <? l | None => false end
      then fail (Errorf "stale minute verification for %s: request=%d latest=%d")
      else
        modify (fun s => Svc.set_latestVerification (<[key := generationMS]> s.(Svc.latestVerification)) s);;
        r ← store_read (MinuteVerificationStore.LoadMinuteVerifications store bar0.(Bar.Exchange)
              bar0.(Bar.Symbol) bar0.(Bar.StartMS) (List.last bars bar0).(Bar.StartMS));
        rows ← lift r;
        let existing := foldl (fun m row => <[row.(VerifiedMinuteBar.bar).(Bar.StartMS) := row]> m) ∅ rows in
        toMark ← verify_minutes store existing bars generationMS [];
        match toMark with
        | [] => skip
        | _ => r ← store_call (MinuteVerificationStore.MarkMinutesVerified store toMark generationMS); lift r
        end
  end.

(** The maximal runs of one symbol in the sorted candles. *)
Fixpoint symbol_runs (bars : list Bar) : list (list Bar) :=
  match bars with
  | [] => []
  | bar :: rest =>
      match symbol_runs rest with
      | (b :: run) :: runs =>
          if bool_decide (b.(Bar.Exchange) = bar.(Bar.Exchange)) && bool_decide (b.(Bar.Symbol) = bar.(Bar.Symbol))
          then (bar :: b :: run) :: runs else [bar] :: (b :: run) :: runs
      | runs => [bar] :: runs
      end
  end.

Definition VerifyFinalBars (bars : list Bar) (generationMS : Z) : M unit :=
  match bars with
  | [] => skip
  | _ =>
      if generationMS <=? 0 then fail (Errorf "minute verification generation must be positive")
      else
        match hs_verifications with
        | None => fail (Errorf "minute verification storage is unavailable")
        | Some store =>
            normalized ← normalize_verified bars;
            forM_ (symbol_runs (sort_slice verify_less normalized))
              (fun run => verifySymbolMinutes store run generationMS)
        end
  end.

(** *** Queries *)

Definition LatestTick (exchange symbol : string) : M (option Tick) :=
  let exchange := ToLower (TrimSpace exchange) in
  let symbol := ToUpper (TrimSpace symbol) in
  key ← barKey exchange symbol (frame_name OneMinute);
  live ← get (fun s => s.(Svc.liveBars) !! key);
  match live with
  | Some live => mret (Some (tickFromBar live))
  | None =>
      r ← store_read (hs_RecentBars (KlineQuery.mk exchange symbol (frame_name OneMinute) 1 false));
      observeStorage "latest_tick" r;;
      bars ← lift r;
      mret (tickFromBar <$> last bars)
  end.

Definition liveOneMinute (exchange symbol : string) : M (option Bar) :=
  key ← barKey exchange symbol (frame_name OneMinute);
  live ← get (fun s => s.(Svc.liveBars) !! key);
  mret (DecorateBar <$> live).

Definition Klines (query : KlineQuery) : M (list Bar) :=
  let query := KlineQuery.set_Exchange (ToLower query.(KlineQuery.Exchange)) query in
  let query := KlineQuery.set_Symbol (ToUpper query.(KlineQuery.Symbol)) query in
  tf ← check_tf query.(KlineQuery.Exchange) query.(KlineQuery.Timeframe);
  let query := KlineQuery.set_Timeframe (frame_name tf) query in
  let query := if query.(KlineQuery.Limit) <=? 0 then KlineQuery.set_Limit defaultRecentLimit query else query in
  let query := if 1000 <? query.(KlineQuery.Limit) then KlineQuery.set_Limit 1000 query else query in
  let limit := query.(KlineQuery.Limit) in
  r ← store_read (hs_RecentBars query);
  observeStorage "recent_bars" r;;
  bars ← lift r;
  let bars := DecorateBar <$> bars in
  if negb query.(KlineQuery.IncludeLive) then mret (trimBars bars limit)
  else
    live ← liveOneMinute query.(KlineQuery.Exchange) query.(KlineQuery.Symbol);
    match live with
    | None => mret (trimBars bars limit)
    | Some live_bar =>
        if bool_decide (tf = OneMinute) then mret (trimBars (mergeLiveBar bars (Some live_bar)) (limit + 1))
        else
          nowMS ← NowMS;
          partial ← buildLiveRollup live_fuel (frame_name tf) live_bar nowMS;
          match partial with
          | None => mret (trimBars bars limit)
          | Some partial => mret (trimBars (mergeLiveBar bars (Some partial)) (limit + 1))
          end
    end.

Definition ListSymbols_ (exchange : string) (activeOnly : option bool) : M (list SymbolInfo) :=
  r ← store_read (hs_ListSymbols (ToLower exchange) activeOnly); lift r.
End service.
