(* ===== verification/ServiceSafety.v ===== *)
(** * The market service returns: no panic, no endless loop

    The methods of [MarketService] on any store, any configuration that
    [NewMarketService] builds and any hub in which no registered subscriber has a
    closed channel: they end in a value or an error, never in a panic, and the
    fuel of the model's loops is enough.  [safe] is the judgement behind it, one
    lemma per construct of the monad and one per method. *)

From S2P Require Export MarketService.

Local Open Scope string_scope.
Local Open Scope Z_scope.
Local Open Scope list_scope.

(** ** The hub between two calls *)

Definition hub_open (h : Hub) : Prop :=
  ∀ id sub, id ∈ h.(Hub.subscribers) → h.(Hub.subs) !! id = Some sub → sub.(Subscriber.closed) = false.

Lemma hub_inv_open s : hub_inv s → hub_open s.(HubSys.hub).
Proof.
  intros Hi id sub Hid Hsub. destruct (hi_registered s Hi id Hid) as (sub' & Hsub' & Hcl). congruence.
Qed.

Lemma NewHub_open : hub_open NewHub.
Proof. intros id sub Hid. by apply elem_of_empty in Hid. Qed.

Lemma deliver_open event h :
  hub_open h → ∃ h', deliver event h = Some h' ∧ hub_open h'.
Proof.
  intros Ho. destruct (deliver event h) as [h'|] eqn:E.
  - exists h'. split; [done|]. apply deliver_spec in E as (Er & _ & _ & El).
    intros id sub Hid Hsub. rewrite Er in Hid. rewrite El in Hsub.
    apply fmap_Some in Hsub as (s0 & Hs0 & ->). specialize (Ho id s0 Hid Hs0).
    case_bool; [by rewrite offer_closed|done].
  - exfalso. unfold deliver in E. destruct (existsb _ _) eqn:Ex; [|done].
    apply existsb_exists in Ex as ([id sub] & Hin & Hb).
    apply list_elem_of_In, elem_of_map_to_list in Hin. unfold recipient in Hb. bprop.
    specialize (Ho id sub ltac:(done) Hin). congruence.
Qed.

Lemma Publish_open event h : hub_open h → ∃ h', Publish event h = Some h' ∧ hub_open h'.
Proof. intros Ho. unfold Publish. simpl. apply deliver_open. exact Ho. Qed.

(** ** The judgement *)

Section safe.
Context {St : Type}.

(** From a state with an open hub, [m] ends in a value with [Q] or an error,
    and the hub is open again. *)
Definition safe {A} (m : svcM St A) (Q : A → Prop) : Prop :=
  ∀ s, hub_open s.(Svc.hub) →
    let '(r, s') := m s in
    hub_open s'.(Svc.hub) ∧
    match r with Ret a => Q a | Fail _ => True | Panic | OutOfFuel => False end.

Lemma safe_ret {A} (a : A) (Q : A → Prop) : Q a → safe (mret a) Q.
Proof. intros HQ s Hs. by split. Qed.

Lemma safe_skip (Q : unit → Prop) : Q tt → safe skip Q.
Proof. apply safe_ret. Qed.

Lemma safe_fail {A} e (Q : A → Prop) : safe (fail e) Q.
Proof. intros s Hs. by split. Qed.

Lemma safe_lift {A} r (Q : A → Prop) : (∀ a, r = Ok a → Q a) → safe (lift r) Q.
Proof. intros HQ. destruct r; [by apply safe_ret, HQ|apply safe_fail]. Qed.

Lemma safe_get {A} (f : Svc St → A) (Q : A → Prop) : (∀ s, Q (f s)) → safe (get f) Q.
Proof. intros HQ s Hs. split; [done|apply HQ]. Qed.

Lemma safe_modify f (Q : unit → Prop) :
  (∀ s, hub_open s.(Svc.hub) → hub_open (f s).(Svc.hub)) → Q tt → safe (modify f) Q.
Proof. intros Hf HQ s Hs. split; [by apply Hf|done]. Qed.

Lemma safe_bind {A B} (m : svcM St A) (f : A → svcM St B) (P : A → Prop) (Q : B → Prop) :
  safe m P → (∀ a, P a → safe (f a) Q) → safe (m ≫= f) Q.
Proof.
  intros Hm Hf s Hs. specialize (Hm s Hs). unfold mbind, svc_bind.
  destruct (m s) as [[a|e| |] s'], Hm as [Hs' HP]; try done. by apply Hf.
Qed.

Lemma safe_weaken {A} (m : svcM St A) (P Q : A → Prop) :
  safe m P → (∀ a, P a → Q a) → safe m Q.
Proof.
  intros Hm HPQ s Hs. specialize (Hm s Hs). destruct (m s) as [[a|e| |] s'], Hm; try done.
  split; [done|by apply HPQ].
Qed.

Lemma safe_forM_ {A} (l : list A) (f : A → svcM St unit) :
  (∀ a, a ∈ l → safe (f a) (λ _, True)) → safe (forM_ l f) (λ _, True).
Proof.
  induction l as [|a l IH]; intros Hf; simpl; [by apply safe_skip|].
  eapply safe_bind; [apply Hf; by left|]. intros _ _. apply IH. intros b Hb. apply Hf. by right.
Qed.

Lemma safe_NowMS : safe NowMS (λ _, True).
Proof. intros s Hs. by split. Qed.

Lemma safe_MustNormalize tf f : Normalize tf = Ok f → safe (MustNormalize tf) (λ g, g = f).
Proof. intros E. unfold MustNormalize. rewrite E. by apply safe_ret. Qed.

Lemma safe_check_tf ex tf : safe (check_tf ex tf) (λ f, tf = frame_name f).
Proof.
  unfold check_tf, ValidateForExchange. destruct (Normalize tf) as [f|] eqn:E; [|apply safe_fail].
  case_bool; [apply safe_fail|]. apply safe_ret. by apply Normalize_Ok.
Qed.
End safe.

(** The calls whose result nothing is needed of. *)
Create HintDb safe.
#[export] Hint Resolve safe_skip safe_fail safe_NowMS : safe.
#[export] Hint Extern 1 (safe (mret _) _) => apply safe_ret; done : safe.
#[export] Hint Extern 1 (safe (get _) _) => apply (safe_get _ (λ _, True)); done : safe.
#[export] Hint Extern 1 (safe (lift _) _) => apply (safe_lift _ (λ _, True)); done : safe.
#[export] Hint Extern 2 (safe (forM_ _ _) _) => apply safe_forM_; intros ? _ : safe.

(** Runs over the calls at the front of a computation, by [safe]. *)
Ltac safe_call :=
  lazymatch goal with
  | |- safe (mbind _ _) _ => eapply (safe_bind _ _ (λ _, True)); [solve [eauto with safe]|intros ? _]
  end.
#[export] Hint Extern 3 (safe (mbind _ _) _) => safe_call : safe.
Ltac safe_run := repeat first [safe_call | solve [eauto with safe]].

Section service.
Context {St : Type} `{!HistoricalStore St} (cfg : Config).

Lemma safe_store_call {A} (f : St → result go_error A * St) : safe (store_call f) (λ _, True).
Proof. intros s Hs. unfold store_call. by destruct (f _). Qed.
#[local] Hint Resolve safe_store_call : safe.
Lemma safe_store_read {A} (f : St → result go_error A) : safe (store_read f) (λ _, True).
Proof. intros s Hs. by split. Qed.
#[local] Hint Resolve safe_store_read : safe.
Lemma safe_notify n : safe (St:=St) (notify n) (λ _, True).
Proof. by apply safe_modify. Qed.
#[local] Hint Resolve safe_notify : safe.
Lemma safe_telemetry n : safe (St:=St) (telemetry cfg n) (λ _, True).
Proof. unfold telemetry. case_bool; [apply safe_notify|by apply safe_skip]. Qed.
#[local] Hint Resolve safe_telemetry : safe.
Lemma safe_observe {A} op (r : result go_error A) : safe (St:=St) (observeStorage cfg op r) (λ _, True).
Proof. apply safe_telemetry. Qed.
#[local] Hint Resolve safe_observe : safe.

Lemma safe_read_bars op ex sy tf a b : safe (read_bars cfg op ex sy tf a b) (λ _, True).
Proof.
  unfold read_bars. safe_run.
Qed.
#[local] Hint Resolve safe_read_bars : safe.

Lemma safe_hub_publish event : safe (St:=St) (hub_publish event) (λ _, True).
Proof.
  intros s Hs. unfold hub_publish. destruct (Publish_open event _ Hs) as (h' & -> & Ho). by split.
Qed.
#[local] Hint Resolve safe_hub_publish : safe.

Lemma safe_publishBar bar : safe (St:=St) (publishBar cfg bar) (λ _, True).
Proof.
  unfold publishBar. safe_run. case_bool; safe_run.
Qed.
#[local] Hint Resolve safe_publishBar : safe.

Lemma safe_observers bar : safe (St:=St) (notifyFinalBarObservers bar) (λ _, True).
Proof.
  unfold notifyFinalBarObservers. safe_run.
Qed.
#[local] Hint Resolve safe_observers : safe.

Lemma safe_barKey ex sy f : safe (St:=St) (barKey ex sy (frame_name f)) (λ _, True).
Proof.
  unfold barKey. eapply safe_bind; [apply (safe_MustNormalize _ f), Normalize_name|intros ? ->].
  by apply safe_ret.
Qed.
#[local] Hint Resolve safe_barKey : safe.

(** What a normalised candle has. *)
Definition named (bar : Bar) : Prop := ∃ f, bar.(Bar.Timeframe) = frame_name f.

Lemma normalize_bar_Timeframe f now bar : (normalize_bar f now bar).(Bar.Timeframe) = frame_name f.
Proof.
  unfold normalize_bar. rewrite DecorateBar_Timeframe. destruct bar; simpl. by repeat (case_inner; simpl).
Qed.

Lemma safe_normalizeBar bar f :
  bar.(Bar.Timeframe) = frame_name f →
  safe (St:=St) (normalizeBar bar) (λ b, ∃ now, b = normalize_bar f now bar).
Proof.
  intros E. unfold normalizeBar.
  eapply safe_bind; [apply (safe_MustNormalize _ f); rewrite E; apply Normalize_name|intros ? ->].
  case_bool; [eapply safe_bind; [apply safe_NowMS|intros now _]|]; apply safe_ret; eauto.
Qed.

Lemma ApplyDerived_Timeframe bar close : (ApplyDerived bar close).(Bar.Timeframe) = bar.(Bar.Timeframe).
Proof.
  unfold ApplyDerived. rewrite DecorateBar_Timeframe. destruct bar; simpl.
  by repeat (case_inner; simpl).
Qed.

Lemma safe_previousClose bar : named bar → safe (previousClose cfg bar) (λ _, True).
Proof.
  intros [f Hf]. unfold previousClose.
  eapply safe_bind; [apply (safe_MustNormalize _ f); rewrite Hf; apply Normalize_name|intros ? ->].
  eapply (safe_bind _ _ (λ _, True)).
  { destruct (fixedMinuteFrames f); [by apply safe_ret|].
    safe_run. }
  intros d _. case_bool; [by apply safe_ret|].
  rewrite Hf. safe_call. destruct (last _); safe_run. case_bool; safe_run.
Qed.

Lemma safe_enrichBar bar :
  named bar → safe (enrichBar cfg bar) (λ b, ∃ close, b = ApplyDerived bar close).
Proof.
  intros Hn. unfold enrichBar. eapply safe_bind; [by apply safe_previousClose|].
  intros close _. apply safe_ret. eauto.
Qed.

Lemma named_normalize f now bar : named (normalize_bar f now bar).
Proof. exists f. apply normalize_bar_Timeframe. Qed.

Lemma named_ApplyDerived bar close : named bar → named (ApplyDerived bar close).
Proof. intros [f Hf]. exists f. by rewrite ApplyDerived_Timeframe. Qed.

Lemma safe_prepareFinalBar bar : named bar → safe (prepareFinalBar cfg bar) named.
Proof.
  intros [f Hf]. unfold prepareFinalBar.
  eapply safe_bind; [by apply (safe_normalizeBar _ f)|]. intros ? [now ->].
  case_bool; [apply safe_ret, named_normalize|].
  eapply safe_weaken; [apply safe_enrichBar, named_normalize|].
  intros ? [close ->]. apply named_ApplyDerived, named_normalize.
Qed.

(** *** Rollups of final candles *)

Lemma RollupBars_Timeframe tf bars isFinal reason at_ms r :
  RollupBars tf bars isFinal reason at_ms = Some r → r.(Bar.Timeframe) = frame_name tf.
Proof.
  intros E. destruct (decide (bars = [])) as [->|Hne]; [done|].
  destruct (RollupBars_spec tf bars isFinal reason at_ms Hne) as (r' & ? & ? & ? & Hr & H).
  assert (r' = r) as -> by congruence. by destruct_and! H.
Qed.

Lemma safe_rebuild bucket reason now :
  safe (rebuildRollupBucket cfg bucket reason now)
    (λ r, ∀ b, r = Some b → b.(Bar.Timeframe) = frame_name bucket.(Bucket.timeframe)).
Proof.
  unfold rebuildRollupBucket. eapply safe_bind; [apply safe_check_tf|intros _ _].
  safe_call. case_bool; [by apply safe_ret|]. destruct (RollupBars _ _ _ _ _) as [r|] eqn:Er; [|by apply safe_ret].
  apply RollupBars_Timeframe in Er.
  eapply safe_bind; [apply safe_enrichBar; by eexists|]. intros ? [close ->].
  safe_run. apply safe_ret. intros b [= <-]. by rewrite ApplyDerived_Timeframe.
Qed.

(** The candles a candle's rollups may append to the queue. *)
Definition targets_weight (bar : Bar) (frames : list Frame) : nat :=
  foldr (λ tf n, match RollupSourceTimeframe tf with
                 | Some source => if bool_decide (frame_name source = bar.(Bar.Timeframe))
                                  then frame_weight tf + n else n
                 | None => n end)%nat 0%nat frames.

Lemma targets_weight_Order bar : (targets_weight bar Order < bar_weight bar)%nat.
Proof.
  unfold bar_weight. destruct (Normalize bar.(Bar.Timeframe)) as [f|] eqn:E.
  - apply Normalize_Ok in E. unfold targets_weight. rewrite E. destruct f; vm_compute; lia.
  - assert (∀ l, targets_weight bar l = 0%nat) as ->; [|lia].
    induction l as [|tf l IH]; simpl; [done|]. destruct (RollupSourceTimeframe tf) as [g|]; [|done].
    destruct (bool_decide _) eqn:Eb; [|done]. apply bool_decide_eq_true in Eb.
    rewrite <- Eb, Normalize_name in E. done.
Qed.

Lemma targets_weight_filter bar p frames :
  (targets_weight bar (List.filter p frames) <= targets_weight bar frames)%nat.
Proof.
  induction frames as [|tf l IH]; simpl; [done|]. destruct (p tf); simpl;
    destruct (RollupSourceTimeframe tf); try case_bool; lia.
Qed.

Lemma queue_weight_app q1 q2 : queue_weight (q1 ++ q2) = (queue_weight q1 + queue_weight q2)%nat.
Proof. unfold queue_weight. induction q1; simpl; lia. Qed.

Lemma safe_rollup_targets bar repair now frames queue processed :
  safe (rollup_targets cfg bar repair now frames queue processed)
    (λ r, queue_weight r.1 ≤ queue_weight queue + targets_weight bar frames)%nat.
Proof.
  revert queue processed. induction frames as [|tf rest IH]; intros queue processed; simpl.
  { apply safe_ret. simpl. lia. }
  assert (Hc : ∀ q p, (queue_weight q <= queue_weight queue + targets_weight bar (tf :: rest)
                        - targets_weight bar rest)%nat →
    safe (rollup_targets cfg bar repair now rest q p)
      (λ r, queue_weight r.1 ≤ queue_weight queue + targets_weight bar (tf :: rest))%nat).
  { intros q p Hq. eapply safe_weaken; [apply IH|]. intros r Hr. simpl in *.
    destruct (RollupSourceTimeframe tf); try case_bool; lia. }
  simpl in Hc.
  repeat match goal with
  | |- safe (if ?b then _ else _) _ =>
      destruct b eqn:?; [apply Hc; destruct (RollupSourceTimeframe tf); try case_bool; lia|]
  end.
  destruct (RollupSourceTimeframe tf) as [src|] eqn:Es; [|apply Hc; lia].
  repeat match goal with
  | |- safe (if ?b then _ else _) _ => destruct b eqn:?; [apply Hc; try case_bool; lia|]
  end.
  eapply safe_bind; [apply safe_rebuild|]. intros [r|] Hr; [|apply Hc; try case_bool; lia].
  apply Hc. rewrite queue_weight_app.
  assert (queue_weight [r] = frame_weight tf) as ->
    by (simpl; unfold bar_weight; rewrite (Hr r eq_refl); simpl; rewrite Normalize_name; lia).
  destruct (bool_decide (frame_name src = bar.(Bar.Timeframe))); [lia|done].
Qed.

(** [NewMarketService] gives a selection of [Order]. *)
Definition config_ok : Prop := ∃ p, cfg.(Config.frames) = List.filter p Order.

Lemma safe_rollup_queue fuel repair now queue processed :
  config_ok → (queue_weight queue <= fuel)%nat →
  safe (rollup_queue cfg fuel repair now queue processed) (λ _, True).
Proof.
  intros [p Hp]. revert queue processed. induction fuel as [|fuel IH]; intros [|bar rest] processed Hq;
    try by apply safe_skip.
  - simpl in Hq. pose proof (targets_weight_Order bar). lia.
  - simpl in Hq |- *. pose proof (targets_weight_Order bar).
    case_bool; [apply IH; lia|].
    eapply safe_bind; [apply safe_rollup_targets|]. intros [q' p'] Hq'. simpl in Hq'.
    apply IH. pose proof (targets_weight_filter bar p Order). rewrite Hp in Hq'. lia.
Qed.

Lemma safe_rollupFinalBars bars repair :
  config_ok → safe (rollupFinalBars cfg bars repair) (λ _, True).
Proof.
  intros Hc. unfold rollupFinalBars. eapply safe_bind; [apply safe_NowMS|intros now _].
  by apply safe_rollup_queue.
Qed.

Lemma safe_check_and_decorate bars : safe (St:=St) (check_and_decorate bars) (λ _, True).
Proof.
  induction bars as [|bar rest IH]; simpl; [by apply safe_ret|].
  eapply safe_bind; [apply safe_check_tf|intros _ _]. safe_run.
Qed.

Lemma safe_persistFinalBars bars repair :
  config_ok → safe (persistFinalBars cfg bars repair) (λ _, True).
Proof.
  intros Hc. unfold persistFinalBars. destruct bars as [|b bars]; [by apply safe_skip|].
  eapply safe_bind; [apply safe_check_and_decorate|intros l _].
  safe_run. by apply safe_rollupFinalBars.
Qed.

(** *** Live rollups *)

(** The number of sources between a timeframe and "1m". *)
Definition frame_depth (f : Frame) : nat :=
  match f with
  | F1m => 0 | F5m | F15m => 1 | F30m => 2 | F1H => 3 | F2H | F4H | F6H | F12H | F1D => 4
  | _ => 5
  end.

Lemma frame_depth_source f g : RollupSourceTimeframe f = Some g → frame_depth f = S (frame_depth g).
Proof. destruct f; simpl; intros; by simplify_eq. Qed.

Lemma frame_depth_0 f : frame_depth f = 0%nat → f = OneMinute.
Proof. by destruct f. Qed.

Lemma safe_buildLiveRollup fuel f live now :
  (frame_depth f <= S fuel)%nat →
  safe (buildLiveRollup cfg fuel (frame_name f) live now) (λ _, True).
Proof.
  revert f. induction fuel as [|fuel IH]; intros f Hd.
  all: cbn [buildLiveRollup]; eapply safe_bind; [apply safe_check_tf|intros g Hg].
  all: apply frame_name_inj in Hg as <-; case_bool; safe_run.
  all: destruct (RollupSourceTimeframe f) as [src|] eqn:Es; safe_run.
  all: apply frame_depth_source in Es.
  all: eapply (safe_bind _ _ (λ _, True)).
  1: { case_bool; safe_run. apply bool_decide_eq_false in Heqb0. destruct Heqb0. apply frame_depth_0. lia. }
  2: { case_bool; safe_run. apply IH. lia. }
  all: intros [l|] _; safe_run; destruct (RollupBars _ _ _ _ _) as [r|] eqn:Er; safe_run.
  all: apply RollupBars_Timeframe in Er.
  all: eapply safe_bind; [apply safe_enrichBar; by eexists|intros ? _]; safe_run.
Qed.

Lemma safe_publishLiveRollups bar : safe (publishLiveRollups cfg bar) (λ _, True).
Proof.
  unfold publishLiveRollups. safe_run. apply safe_forM_. intros tf _.
  case_bool; safe_run. case_bool; safe_run.
  eapply (safe_bind _ _ (λ _, True)); [apply safe_buildLiveRollup; destruct tf; simpl; unfold live_fuel; lia|].
  intros [b|] _; safe_run.
Qed.

(** *** Ingestion and repair *)

Lemma safe_accept ctx bar : safe (acceptUnverifiedFinal ctx bar) (λ _, True).
Proof.
  unfold acceptUnverifiedFinal. case_bool; safe_run. destruct hs_verifications; safe_run.
  match goal with |- safe (check_verified _ _ ?l) _ => induction l as [|row rest IH] end; simpl; safe_run.
  repeat (case_bool; safe_run). destruct hs_tasks; safe_run.
Qed.

Lemma safe_update_live bar : named bar → safe (St:=St) (update_live bar) (λ _, True).
Proof. intros [f Hf]. unfold update_live. rewrite Hf. safe_run. by apply safe_modify. Qed.

Lemma safe_drop_live bar : named bar → safe (St:=St) (drop_live bar) (λ _, True).
Proof.
  intros [f Hf]. unfold drop_live. rewrite Hf. safe_run. apply safe_modify; [|done].
  intros s Hs. destruct (_ !! _); [case_bool|]; done.
Qed.

Lemma safe_IngestKline ctx bar : config_ok → safe (IngestKline cfg ctx bar) (λ _, True).
Proof.
  intros Hc. unfold IngestKline. eapply safe_bind; [apply safe_check_tf|intros f Hf].
  eapply safe_bind; [by apply (safe_normalizeBar _ f)|]. intros ? [now ->].
  case_bool; safe_run. eapply safe_bind; [apply safe_accept|intros acc _].
  case_bool; safe_run.
  eapply safe_bind; [apply safe_enrichBar, named_normalize|]. intros ? [close ->].
  eapply safe_bind; [apply safe_update_live, named_ApplyDerived, named_normalize|intros _ _].
  case_bool.
  - eapply safe_bind; [by apply safe_persistFinalBars|intros _ _]. safe_run.
  - safe_run. case_bool; [apply safe_publishLiveRollups|safe_run].
Qed.

Lemma as_repair_Timeframe bar : (as_repair bar).(Bar.Timeframe) = bar.(Bar.Timeframe).
Proof. unfold as_repair. destruct bar; simpl. by repeat (case_inner; simpl). Qed.

Lemma safe_RepairFinalBars ctx bars : config_ok → safe (RepairFinalBars cfg ctx bars) (λ _, True).
Proof.
  intros Hc. apply safe_forM_. intros bar _. unfold repair_one.
  eapply safe_bind; [apply safe_check_tf|intros f Hf].
  eapply safe_bind; [apply (safe_normalizeBar _ f); by rewrite as_repair_Timeframe|]. intros ? [now ->].
  eapply safe_bind; [apply safe_accept|intros acc _]. case_bool; safe_run.
  eapply safe_bind; [apply safe_prepareFinalBar, named_normalize|intros b Hb].
  case_bool; safe_run. eapply safe_bind; [by apply safe_drop_live|intros _ _].
  by apply safe_persistFinalBars.
Qed.

(** *** Verification *)

Lemma safe_verify_minutes store existing bars g toMark :
  config_ok → Forall named bars →
  safe (verify_minutes cfg store existing bars g toMark) (λ _, True).
Proof.
  intros Hc Hn. revert toMark. induction Hn as [|bar rest Hb Hn IH]; intros toMark; simpl; safe_run.
  case_bool; safe_run. destruct (match _ !! _ with Some _ => _ | None => false end); [apply IH|].
  eapply safe_bind; [apply safe_prepareFinalBar|intros b _].
  { destruct Hb as [f Hf]. exists f. by destruct bar. }
  safe_run. destruct a1 as [|b' l]; safe_run.
  eapply safe_bind; [by apply safe_rollupFinalBars|intros _ _]. apply IH.
Qed.

Lemma safe_verifySymbolMinutes store bars g :
  config_ok → Forall named bars → bars ≠ [] →
  safe (verifySymbolMinutes cfg store bars g) (λ _, True).
Proof.
  intros Hc Hn Hne. unfold verifySymbolMinutes. destruct bars as [|b0 bars]; [done|]. safe_run.
  case_bool; safe_run. eapply (safe_bind _ _ (λ _, True)); [by apply safe_modify|intros _ _]. safe_run.
  eapply safe_bind; [by apply safe_verify_minutes|intros l _]. destruct l; safe_run.
Qed.

Lemma symbol_runs_spec bars :
  (∀ run, run ∈ symbol_runs bars → run ≠ []) ∧ concat (symbol_runs bars) = bars.
Proof.
  induction bars as [|bar rest [IH1 IH2]]; simpl; [split; [by intros ? ?%elem_of_nil|done]|].
  destruct (symbol_runs rest) as [|[|b run] runs] eqn:E; simpl in *.
  - subst rest. split; [|done]. by intros run ->%list_elem_of_singleton.
  - by destruct (IH1 []); [left|].
  - case_bool; simpl; (split; [|by rewrite IH2]).
    + intros r [->|Hr]%elem_of_cons; [done|]. apply IH1. by right.
    + intros r [->|Hr]%elem_of_cons; [done|]. by apply IH1.
Qed.

Lemma safe_normalize_verified bars :
  Forall named bars → safe (St:=St) (normalize_verified bars) (Forall named).
Proof.
  induction 1 as [|bar rest [f Hf] Hn IH]; simpl; [by apply safe_ret|].
  eapply safe_bind; [by apply (safe_normalizeBar _ f)|]. intros ? [now ->]. case_bool; safe_run.
  eapply safe_bind; [apply IH|intros l Hl]. apply safe_ret. constructor; [apply named_normalize|done].
Qed.

Lemma safe_VerifyFinalBars bars g :
  config_ok → Forall named bars → safe (VerifyFinalBars cfg bars g) (λ _, True).
Proof.
  intros Hc Hn. unfold VerifyFinalBars. destruct bars as [|b0 bars]; safe_run. case_bool; safe_run.
  destruct hs_verifications as [store|]; safe_run.
  eapply safe_bind; [by apply safe_normalize_verified|intros l Hl].
  destruct (symbol_runs_spec (sort_slice verify_less l)) as [Hne Hcat].
  apply safe_forM_. intros run Hrun. apply safe_verifySymbolMinutes; [done| |by apply Hne].
  rewrite Forall_forall in Hl |- *. intros b Hb. apply Hl. rewrite <- (sort_slice_perm verify_less), <- Hcat.
  apply list_elem_of_In, in_concat. exists run. split; by apply list_elem_of_In.
Qed.

(** *** Queries *)

Lemma safe_LatestTick exchange symbol : safe (LatestTick cfg exchange symbol) (λ _, True).
Proof. unfold LatestTick. safe_run. case_match; safe_run. Qed.

Lemma safe_Klines query : safe (Klines cfg query) (λ _, True).
Proof.
  unfold Klines. eapply safe_bind; [apply safe_check_tf|intros f _]. safe_run. case_bool; safe_run.
  unfold liveOneMinute. eapply (safe_bind _ _ (λ _, True)); [safe_run|]. intros [l|] _; safe_run.
  case_bool; safe_run.
  eapply (safe_bind _ _ (λ _, True)); [apply safe_buildLiveRollup; destruct f; simpl; unfold live_fuel; lia|].
  intros [b|] _; safe_run.
Qed.

Lemma safe_ListSymbols exchange active : safe (ListSymbols_ exchange active) (λ _, True).
Proof. unfold ListSymbols_. safe_run. Qed.
End service.
