(* ===== verification/RollupRepair.v ===== *)
(** * Complete buckets and the repair of rollups

    [sourceBarsComplete] decides whether a bucket may be rolled up; it holds
    exactly when the source candles are the final candles of all the source
    buckets of the range.  On it rests the termination of [RepairRollups]: the
    walk over a bucket's source starts, and the recursion from repaired candles
    to the candles that are built from them. *)

From S2P Require Export ServiceSafety.

Local Open Scope string_scope.
Local Open Scope Z_scope.
Local Open Scope list_scope.

(** ** Source starts *)

(** The [n] starts of [g] from the [k]-th on. *)
Definition grid_run (g : Frame) (k : Z) (n : nat) : list Z := (λ i, grid g (k + Z.of_nat i)) <$> seq 0 n.

Lemma grid_run_S g k n : grid_run g k (S n) = grid g k :: grid_run g (k + 1) n.
Proof.
  unfold grid_run. cbn [seq]. rewrite fmap_cons. f_equal; [f_equal; lia|].
  rewrite <- (fmap_S_seq 0 n), <- list_fmap_compose. apply list_fmap_ext. intros i j _. simpl. f_equal. lia.
Qed.

Lemma elem_of_grid_run g k n x : x ∈ grid_run g k n ↔ ∃ j, k <= j < k + Z.of_nat n ∧ x = grid g j.
Proof.
  unfold grid_run. rewrite list_elem_of_fmap. split.
  - intros (i & -> & Hi%elem_of_seq). exists (k + Z.of_nat i). split; [lia|done].
  - intros (j & Hj & ->). exists (Z.to_nat (j - k)). split; [f_equal; lia|apply elem_of_seq; lia].
Qed.

Lemma grid_run_sorted g k n : key_sorted id (grid_run g k n).
Proof.
  revert k. induction n as [|n IH]; intros k; [constructor|]. rewrite grid_run_S. constructor; [apply IH|].
  apply Forall_forall. intros x (j & Hj & ->)%elem_of_grid_run. simpl. apply grid_lt. lia.
Qed.

(** The loop of [sourceBarsComplete], while its cursor stays in range. *)
Lemma expect_starts_spec g k bars e :
  0 <= k → Forall (λ b, b.(Bar.StartMS) <= MaxTS + 93 * DayMS) bars →
  expect_starts g (grid g k) bars = Some e ↔
  Forall (λ b, b.(Bar.IsFinal) = true) bars ∧ Bar.StartMS <$> bars = grid_run g k (length bars) ∧
  e = grid g (k + Z.of_nat (length bars)).
Proof.
  intros Hk Hs. revert k Hk. induction Hs as [|b bars Hb Hs IH]; intros k Hk.
  { simpl. split.
    - intros [= <-]. split_and!; [constructor|done|f_equal; lia].
    - intros (_ & _ & ->). f_equal. f_equal. lia. }
  cbn [expect_starts length]. rewrite grid_run_S, fmap_cons, Forall_cons.
  destruct (b.(Bar.IsFinal)) eqn:Ef; [|by split; [|intros ((? & _) & _)]].
  destruct (Z.eqb_spec b.(Bar.StartMS) (grid g k)) as [E|E]; cbn [negb orb];
    [|by split; [|intros (_ & [= ?] & _)]].
  assert (steppable (grid g k)) as Hst.
  { apply steppable_dom. pose proof (grid_nonneg g k Hk). unfold DayMS in *. lia. }
  rewrite E, next_grid, IH by (done || lia).
  replace (k + 1 + Z.of_nat (length bars)) with (k + Z.of_nat (S (length bars))) by lia.
  split; [intros (? & -> & ?)|intros ((_ & ?) & [= ?] & ?)]; done.
Qed.

(** ** What [sourceBarsComplete] decides *)

(** The bucket of [f] at [ts] in terms of the starts of its source [g]. *)
Lemma bucket_sources f g ts :
  RollupSourceTimeframe f = Some g → aligned f ts → ts <= MaxTS →
  ∃ k n, ts = grid g k ∧ 0 <= k ∧ EndMS ts f = grid g (k + Z.of_nat n) - 1 ∧ (0 < n)%nat ∧
         EndMS ts f <= MaxTS + 93 * DayMS.
Proof.
  intros Hs Ha Hts. pose proof (aligned_steppable f ts Ha Hts) as Hst.
  pose proof (aligned_next f ts Ha Hts) as [Hna Hnl]. pose proof (next_step f ts Ha Hts) as Hn.
  destruct (source_aligned f g ts Hs Ha) as (k & Hk & Ek).
  destruct (source_aligned f g _ Hs Hna) as (k' & Hk' & Ek').
  assert (EndMS ts f = NextStartMS ts f - 1) as Een.
  { destruct Ha as (j & Hj & ->). by rewrite end_grid, next_grid. }
  assert (k < k') by (apply (grid_lt g); lia).
  exists k, (Z.to_nat (k' - k)). split_and!; [done|done| |lia|lia].
  rewrite Een, Ek'. do 2 f_equal. lia.
Qed.

Definition covers (g : Frame) (ts te : Z) (bars : list Bar) : Prop :=
  Forall (λ b, b.(Bar.IsFinal) = true) bars ∧ key_sorted Bar.StartMS bars ∧
  (∀ x, x ∈ Bar.StartMS <$> bars ↔ aligned g x ∧ ts <= x <= te) ∧
  (∃ l, last bars = Some l ∧ te <= l.(Bar.EndMS)).

Lemma sourceBarsComplete_covers f g ts bars :
  RollupSourceTimeframe f = Some g → aligned f ts → ts <= MaxTS →
  (∀ b, b ∈ bars → b.(Bar.StartMS) <= EndMS ts f) →
  sourceBarsComplete bars g ts (EndMS ts f) = true ↔ covers g ts (EndMS ts f) bars.
Proof.
  intros Hs Ha Hts Hle. destruct (bucket_sources f g ts Hs Ha Hts) as (k & n & Ek & Hk & Een & Hn & Hmax).
  assert (Hb : Forall (λ b, b.(Bar.StartMS) <= MaxTS + 93 * DayMS) bars).
  { apply Forall_forall. intros b Hb. specialize (Hle b Hb). lia. }
  assert (Hel : ∀ x, x ∈ grid_run g k n ↔ aligned g x ∧ ts <= x <= EndMS ts f).
  { intros x. rewrite elem_of_grid_run. split.
    - intros (j & Hj & ->). pose proof (grid_le g k j). pose proof (grid_lt g j (k + Z.of_nat n)).
      split; [exists j; split; [lia|done]|lia].
    - intros ((j & Hj & ->) & Hr). exists j. split; [|done].
      pose proof (grid_le g k j). pose proof (grid_lt g j (k + Z.of_nat n)). lia. }
  unfold sourceBarsComplete, covers. destruct (last bars) as [l|] eqn:El; last first.
  { split; [done|]. by intros (_ & _ & _ & l & ? & _). }
  destruct (expect_starts g ts bars) as [e|] eqn:Ee; rewrite Ek in Ee.
  - apply expect_starts_spec in Ee as (Hf & Hst & ->); [|done..]. rewrite andb_true_iff, Z.ltb_lt, Z.leb_le.
    rewrite Hst. split.
    + intros [Hend Hl]. split_and!; [done| | |by exists l].
      * apply key_sorted_keys. rewrite Hst. apply grid_run_sorted.
      * intros x. rewrite <- Hel, !elem_of_grid_run. split; intros (j & Hj & ->); exists j; (split; [|done]).
        -- assert (grid g j ∈ Bar.StartMS <$> bars) as Hin
             by (rewrite Hst, elem_of_grid_run; eauto).
           apply list_elem_of_fmap in Hin as (b & Eb & Hin). specialize (Hle b Hin).
           pose proof (grid_lt g j (k + Z.of_nat n)). lia.
        -- pose proof (grid_lt g j (k + Z.of_nat (length bars))).
           pose proof (grid_le g (k + Z.of_nat n) (k + Z.of_nat (length bars))). lia.
    + intros (_ & _ & Hin & l' & [= <-] & Hl). split; [|done]. rewrite Een.
      assert (grid_run g k (length bars) = grid_run g k n) as Eq.
      { apply key_sorted_unique; [apply grid_run_sorted..|]. intros x. by rewrite Hin, Hel. }
      apply (f_equal length) in Eq. unfold grid_run in Eq. rewrite !length_fmap, !length_seq in Eq.
      rewrite Eq. lia.
  - split; [done|]. intros (Hf & Hso & Hin & _).
    assert (Bar.StartMS <$> bars = grid_run g k n) as Eq.
    { apply key_sorted_unique; [by apply (proj1 (key_sorted_keys _ _))|apply grid_run_sorted|].
      intros x. by rewrite Hin, Hel. }
    assert (length bars = n) as <-.
    { apply (f_equal length) in Eq. unfold grid_run in Eq. by rewrite !length_fmap, length_seq in Eq. }
    assert (expect_starts g (grid g k) bars = Some (grid g (k + Z.of_nat (length bars)))) as Ee'
      by (apply expect_starts_spec; [done|done|by split_and!]).
    congruence.
Qed.

(** ** The walk over a bucket *)

(** With a minute of fuel per minute left [gather] never runs out, and what it
    returns starts inside the bucket. *)
Lemma gather_spec fuel g m k endMS acc :
  0 <= k → endMS <= MaxTS + 93 * DayMS → (endMS - grid g k) < Z.of_nat fuel * MinuteMS →
  (∀ x b, m !! x = Some b → b.(Bar.StartMS) = x) →
  (∀ b, b ∈ acc → b.(Bar.StartMS) <= endMS) →
  ∃ bars, gather fuel g m (grid g k) endMS acc = Some bars ∧ ∀ b, b ∈ bars → b.(Bar.StartMS) <= endMS.
Proof.
  intros Hk He Hf Hm. revert k acc Hk Hf. induction fuel as [|fuel IH]; intros k acc Hk Hf Hacc; cbn [gather].
  all: destruct (Z.ltb_spec endMS (grid g k)); [by eexists|].
  { unfold MinuteMS in *. lia. }
  destruct (m !! grid g k) as [b|] eqn:Eb; [|eexists; split; [done|by intros ? ?%elem_of_nil]].
  rewrite next_grid; [|apply steppable_dom; pose proof (grid_nonneg g k Hk); unfold DayMS in *; lia].
  pose proof (grid_step g k). apply IH; [lia|unfold MinuteMS in *; lia|].
  intros b' [Hb'| ->%list_elem_of_singleton]%elem_of_app; [by apply Hacc|].
  rewrite (Hm _ _ Eb). lia.
Qed.

(** ** The buckets that [repairRollupsLocked] collects *)

Definition bucket_ok (key : rollupSeriesKey) (start : Z) (bucket : rollupBucket) : Prop :=
  let '(_, _, source, target) := key in
  RollupSourceTimeframe target = Some source ∧ bucket.(Bucket.sourceTimeframe) = source ∧
  bucket.(Bucket.timeframe) = target ∧ bucket.(Bucket.startMS) = start ∧
  aligned target start ∧ start <= MaxTS ∧ bucket.(Bucket.endMS) = EndMS start target ∧
  (∀ next, RollupSourceTimeframe next = Some target → 4 * DayMS <= start).

(** [d] sources lie below the source candles. *)
Definition buckets_ok (d : nat) (m : gmap rollupSeriesKey (gmap Z rollupBucket)) : Prop :=
  ∀ key buckets start bucket, m !! key = Some buckets → buckets !! start = Some bucket →
    bucket_ok key start bucket ∧ (d <= frame_depth bucket.(Bucket.sourceTimeframe))%nat.

(** The candles it may start from: those a timeframe is built from lie in the
    range the grid covers. *)
Definition repairable (d : nat) (bar : Bar) : Prop :=
  ∀ f, bar.(Bar.Timeframe) = frame_name f →
    (d <= frame_depth f)%nat ∧
    ∀ target, RollupSourceTimeframe target = Some f → 4 * DayMS <= bar.(Bar.StartMS) <= MaxTS.

Definition repaired (d : nat) (bar : Bar) : Prop := repairable d bar ∧ named bar.

Lemma four_days_domain f ts : 4 * DayMS <= ts <= MaxTS → in_domain f ts.
Proof. intros. split; [|lia]. pose proof (grid_0 f). unfold DayMS in *. lia. Qed.

(** The first Monday starts a bucket of every source. *)
Lemma four_days_floor next f ts :
  RollupSourceTimeframe next = Some f → 4 * DayMS <= ts <= MaxTS → 4 * DayMS <= FloorStartMS ts f.
Proof.
  intros Hs Hts. rewrite <- (aligned_floor f (4 * DayMS)).
  - apply floor_mono; [apply four_days_domain|by apply four_days_domain|]; unfold MaxTS, DayMS in *; lia.
  - destruct next; simplify_eq/=; [exists 5760|exists 5760|exists 384|exists 192|exists 96..|exists 4|exists 4|
      exists 4|exists 4|exists 4|exists 4|exists 4]; done.
  - unfold MaxTS, DayMS; lia.
Qed.

Lemma collect_bar_ok d frames f bar m :
  (d <= frame_depth f)%nat →
  (∀ target, RollupSourceTimeframe target = Some f → 4 * DayMS <= bar.(Bar.StartMS) <= MaxTS) →
  buckets_ok d m → buckets_ok d (collect_bar frames f bar m).
Proof.
  intros Hd Hin. unfold collect_bar. revert m. induction frames as [|target rest IH]; intros m Hm; simpl; [done|].
  apply IH. case_bool; [done|]. case_bool; [done|].
  match goal with H : _ || negb (bool_decide _) = false |- _ =>
    apply orb_false_iff in H as [_ H]; apply negb_false_iff, bool_decide_eq_true in H as Hsrc end.
  specialize (Hin target Hsrc). pose proof (four_days_domain target _ Hin) as Hdom. intros key buckets start bucket Hb Hs.
  apply lookup_insert_Some in Hb as [[<- <-]|[_ Hb]]; [|by eapply Hm].
  apply lookup_insert_Some in Hs as [[<- <-]|[_ Hs]].
  - simpl. split; [|done]. split_and!; try done; [by apply floor_aligned| |].
    + pose proof (floor_le target _ Hdom). lia.
    + intros next Hn. by apply (four_days_floor next).
  - destruct (m !! _) as [old|] eqn:Eo; [by eapply Hm|]. done.
Qed.

Lemma normalize_bar_StartMS f now bar : (normalize_bar f now bar).(Bar.StartMS) = bar.(Bar.StartMS).
Proof.
  unfold normalize_bar. rewrite DecorateBar_StartMS. destruct bar; simpl. by repeat (case_inner; simpl).
Qed.

Lemma ApplyDerived_StartMS bar close : (ApplyDerived bar close).(Bar.StartMS) = bar.(Bar.StartMS).
Proof.
  unfold ApplyDerived. rewrite DecorateBar_StartMS. destruct bar; simpl. by repeat (case_inner; simpl).
Qed.

(** The rollup of a covered bucket is that bucket's candle. *)
Lemma RollupBars_window f g ts bars isFinal reason now r :
  RollupSourceTimeframe f = Some g → aligned f ts → ts <= MaxTS → covers g ts (EndMS ts f) bars →
  RollupBars f bars isFinal reason now = Some r →
  r.(Bar.StartMS) = ts ∧ r.(Bar.EndMS) = EndMS ts f ∧ r.(Bar.Timeframe) = frame_name f ∧
  r.(Bar.IsFinal) = isFinal.
Proof.
  intros Hs Ha Hts (_ & Hso & Hin & _) Hr.
  assert (bars ≠ []) as Hne by (intros ->; done).
  destruct (RollupBars_spec f bars isFinal reason now Hne) as (r' & ? & ? & b0 & Hr' & Hb0 & H).
  assert (r' = r) as -> by congruence. destruct_and! H.
  assert (r.(Bar.StartMS) = ts) as Est; [|split_and!; congruence].
  match goal with H : r.(Bar.StartMS) = _ |- _ => rewrite H end.
  rewrite sort_by_id in Hb0 by done. destruct bars as [|b bars]; [done|]. injection Hb0 as ->.
  assert (ts ∈ Bar.StartMS <$> b0 :: bars) as Hts'.
  { apply Hin. split; [by eapply source_aligned|]. pose proof (aligned_next f ts Ha Hts) as [_ ?].
    pose proof (aligned_steppable f ts Ha Hts). split; [lia|].
    destruct Ha as (j & Hj & ->). rewrite next_grid in * by done. rewrite end_grid by done. lia. }
  assert (b0.(Bar.StartMS) ∈ Bar.StartMS <$> b0 :: bars) as Hb1 by (by left).
  apply Hin in Hb1 as (_ & Hb1 & _). inversion Hso as [|? ? _ Hall]; subst.
  assert (b0.(Bar.StartMS) = ts) as ->; [|by apply aligned_floor].
  apply elem_of_cons in Hts' as [->|Hts']; [done|]. apply list_elem_of_fmap in Hts' as (b & -> & Hb).
  rewrite Forall_forall in Hall. specialize (Hall b Hb). simpl in Hall. lia.
Qed.

(** A candle rolled up in a bucket of [f] can be repaired from in turn. *)
Lemma rolled_repairable d f g bars ts reason now r close :
  RollupSourceTimeframe f = Some g → (d <= frame_depth g)%nat → aligned f ts → ts <= MaxTS →
  (∀ next, RollupSourceTimeframe next = Some f → 4 * DayMS <= ts) → covers g ts (EndMS ts f) bars →
  RollupBars f bars true reason now = Some r → repaired (S d) (ApplyDerived r close).
Proof.
  intros Hs Hd Ha Hts Hnext Hc Hr.
  destruct (RollupBars_window f g ts bars true reason now r) as (Est & _ & Htf & _); [done..|].
  split; [|exists f; by rewrite ApplyDerived_Timeframe].
  intros f' Hf'. rewrite ApplyDerived_Timeframe in Hf'. rewrite ApplyDerived_StartMS, Est.
  assert (f' = f) as -> by (apply frame_name_inj; congruence).
  rewrite (frame_depth_source f g Hs). split; [lia|]. intros target Ht.
  split; [by apply (Hnext target)|done].
Qed.

(** ** [RepairRollups] returns *)

(** A candle under the key of its start. *)
Definition starts_ok (m : gmap Z Bar) : Prop := ∀ x b, m !! x = Some b → b.(Bar.StartMS) = x.

Lemma by_start_ok bars : starts_ok (by_start bars).
Proof.
  unfold by_start. assert (starts_ok ∅) as H by done. revert H. generalize (∅ : gmap Z Bar).
  induction bars as [|b bars IH]; intros m Hm; simpl; [done|]. apply IH.
  intros x c [[<- <-]|[_ Hc]]%lookup_insert_Some; [done|by apply Hm].
Qed.

Section service.
Context {St : Type} `{!HistoricalStore St} (cfg : Config).

Lemma safe_collect_buckets d bars m :
  Forall (repairable d) bars → buckets_ok d m →
  safe (St:=St) (collect_buckets cfg bars m) (buckets_ok d).
Proof.
  intros Hb. revert m. induction Hb as [|raw rest Hraw Hb IH]; intros m Hm; simpl; [by apply safe_ret|].
  eapply safe_bind; [apply safe_check_tf|intros f Hf].
  eapply safe_bind; [by apply (safe_normalizeBar _ f)|]. intros ? [now ->].
  destruct (Hraw f Hf) as [Hd Hin].
  case_bool; apply IH; [done|]. apply collect_bar_ok; [done| |done]. by rewrite normalize_bar_StartMS.
Qed.

Lemma safe_read_sources keys ranges acc :
  (∀ key m, acc !! key = Some m → starts_ok m) →
  safe (read_sources cfg keys ranges acc) (λ r, ∀ key m, r !! key = Some m → starts_ok m).
Proof.
  revert acc. induction keys as [|[[ex sy] tf] rest IH]; intros acc Ha; cbn [read_sources]; [by apply safe_ret|].
  destruct (default (0, 0) _) as [a b].
  eapply safe_bind; [apply safe_read_bars|intros bars _]. apply IH.
  intros key m [[<- <-]|[_ Hm]]%lookup_insert_Some; [apply by_start_ok|by eapply Ha].
Qed.

Lemma safe_repair_starts d key starts buckets sources rollups repairs dependents :
  (∀ start bucket, buckets !! start = Some bucket →
     bucket_ok key start bucket ∧ (d <= frame_depth bucket.(Bucket.sourceTimeframe))%nat) →
  starts_ok sources → Forall (repaired (S d)) dependents →
  safe (St:=St) (repair_starts starts buckets sources rollups repairs dependents)
    (λ r, Forall (repaired (S d)) r.2).
Proof.
  intros Hb Hs. revert rollups repairs dependents.
  induction starts as [|start rest IH]; intros rollups repairs dependents Hdep; cbn [repair_starts];
    [by apply safe_ret|].
  destruct (buckets !! start) as [bucket|] eqn:Eb; [|by apply IH].
  destruct (Hb start bucket Eb) as [Hok Hd]. destruct key as [[[ex sy] source] target].
  destruct Hok as (Hsrc & Hsf & Htf & Hst & Ha & Hmax & Hend & Hnext).
  destruct (bucket_sources target source start Hsrc Ha Hmax) as (k & n & Ek & Hk & Een & Hn & Hm).
  destruct (gather_spec (gather_fuel bucket) source sources k bucket.(Bucket.endMS) []) as (bars & Eg & Hle);
    [done|by rewrite Hend| |done|by intros ? ?%elem_of_nil|].
  { unfold gather_fuel. rewrite Hst, <- Ek.
    pose proof (grid_mono source k (k + Z.of_nat n) ltac:(lia)).
    pose proof (div_bounds (bucket.(Bucket.endMS) - start) MinuteMS ltac:(done)).
    assert (0 <= (bucket.(Bucket.endMS) - start) / MinuteMS).
    { apply Z.div_pos; [|done]. rewrite Hend, Een, Ek. unfold MinuteMS in *. lia. }
    rewrite Z2Nat.id by lia. unfold MinuteMS in *. lia. }
  rewrite Hsf, Hst, Ek, Eg. rewrite <- Ek.
  destruct (sourceBarsComplete _ _ _ _) eqn:Ec; cbn [negb]; [|by apply IH].
  rewrite Hend in Ec, Hle. apply (sourceBarsComplete_covers target) in Ec; [|done..].
  eapply safe_bind; [apply safe_NowMS|intros now _].
  destruct (RollupBars _ _ _ _ _) as [r|] eqn:Er; [|by apply IH].
  cbv zeta. apply IH. apply Forall_app. split; [done|]. constructor; [|done]. rewrite Htf in Er.
  eapply (rolled_repairable d target source); [done|by rewrite <- Hsf|done..].
Qed.

Lemma safe_repair_series d keys m sources repairs dependents :
  buckets_ok d m → (∀ key bars, sources !! key = Some bars → starts_ok bars) →
  Forall (repaired (S d)) dependents →
  safe (repair_series cfg keys m sources repairs dependents) (λ r, Forall (repaired (S d)) r.2).
Proof.
  intros Hm Hs. revert repairs dependents.
  induction keys as [|key rest IH]; intros repairs dependents Hdep; cbn [repair_series]; [by apply safe_ret|].
  destruct (sorted_starts _ _) as [|start0 starts] eqn:Est; [by apply IH|].
  destruct key as [[[ex sy] source] target] eqn:Ekey. rewrite <- Ekey in *.
  eapply safe_bind; [apply safe_read_bars|intros local _].
  eapply safe_bind; [apply (safe_repair_starts d key); [| |done]|].
  - destruct (m !! key) as [buckets|] eqn:Eb; [|done]. intros start bucket Hbk.
    exact (Hm key buckets start bucket Eb Hbk).
  - destruct (sources !! _) as [bars|] eqn:Eb; [by eapply Hs|done].
  - intros [repairs' dependents'] Hdep'. by apply IH.
Qed.

Lemma safe_store_repairs repairs : safe (store_repairs cfg repairs) (λ _, True).
Proof.
  unfold store_repairs. destruct repairs as [|b l]; [by apply safe_skip|].
  eapply safe_bind; [apply safe_store_call|intros r _].
  eapply safe_bind; [apply safe_observe|intros _ _].
  eapply safe_bind; [by apply (safe_lift _ (λ _, True))|intros _ _].
  apply safe_forM_. intros bar _. eapply safe_bind; [apply safe_telemetry|intros _ _].
  apply safe_publishBar.
Qed.

Lemma frame_depth_max f : (frame_depth f <= 5)%nat.
Proof. destruct f; simpl; lia. Qed.

(** The depth of the candles grows with every level of the recursion. *)
Lemma safe_repairRollupsLocked fuel d bars :
  (5 <= fuel + d)%nat → Forall (repairable d) bars →
  safe (repairRollupsLocked cfg fuel bars) (λ _, True).
Proof.
  revert d bars. induction fuel as [|fuel IH]; intros d bars Hf Hb; cbn [repairRollupsLocked].
  all: eapply safe_bind; [by apply (safe_collect_buckets d)|intros m Hm].
  all: eapply safe_bind; [by apply safe_read_sources|intros sources Hs].
  all: eapply safe_bind; [by apply (safe_repair_series d)|intros [repairs dependents] Hdep].
  all: eapply safe_bind; [apply safe_store_repairs|intros _ _].
  all: destruct dependents as [|b l] eqn:El; [by apply safe_skip|].
  - exfalso. apply Forall_cons in Hdep as [[Hr [f Ef]] _]. destruct (Hr f Ef) as [Hd _].
    pose proof (frame_depth_max f). lia.
  - apply (IH (S d)); [lia|]. eapply Forall_impl; [exact Hdep|]. by intros ? [? _].
Qed.

Lemma safe_RepairRollups bars :
  Forall (λ b, 4 * DayMS <= b.(Bar.StartMS) <= MaxTS) bars → safe (RepairRollups cfg bars) (λ _, True).
Proof.
  intros Hb. unfold RepairRollups. destruct bars as [|b bars]; [by apply safe_skip|].
  apply (safe_repairRollupsLocked _ 0); [unfold repair_fuel; lia|].
  eapply Forall_impl; [exact Hb|]. intros b' Hb' f _. split; [lia|done].
Qed.
End service.
