(* ===== verification/GoTime.v ===== *)
(** * Durations and instants as text (package time)

    A [time.Duration] is a number of nanoseconds.  A [time.Time] is the number of
    nanoseconds since 1970: the model's clock has one reading, which never steps,
    where Go compares instants of one process by a second, monotonic reading.
    The offset from UTC in force at an instant comes from the time zone data of
    the machine, so a location is a function from instants to seconds.  Here are
    the parts of the package that the reports and alerts use: rounding,
    [Duration.String] and the RFC 3339 layout, and the [%.2f] of package fmt. *)

From S2P Require Export GoNumbers Calendar.

Local Open Scope string_scope.
Local Open Scope Z_scope.
Local Open Scope list_scope.

(** ** Durations *)

Definition Microsecond : Z := 1000.
Definition Millisecond : Z := 1000000.
Definition Second : Z := 1000000000.
Definition Minute : Z := 60000000000.
Definition Hour : Z := 3600000000000.
Definition minDuration : Z := - two63.
Definition maxDuration : Z := two63 - 1.

(** [t.Sub(u)]: saturates. *)
Definition Sub (t u : Z) : Z := Z.max minDuration (Z.min maxDuration (t - u)).

(** [d.Round(m)]: to the nearest multiple, halves away from zero; past the ends it
    saturates. *)
Definition Round (d m : Z) : Z :=
  if m <=? 0 then d
  else
    let r := Z.rem d m in
    if d <? 0 then
      let r := - r in
      if r + r <? m then d + r
      else let d1 := i64 (d - m + r) in if d1 <? d then d1 else minDuration
    else
      if r + r <? m then d - r
      else let d1 := i64 (d + m - r) in if d <? d1 then d1 else maxDuration.

(** The fraction [v / 10^prec] without its trailing zeros, empty when it is zero. *)
Fixpoint fraction_digits (prec : nat) (v : Z) : string :=
  match prec with
  | O => ""
  | S prec =>
      let rest := fraction_digits prec (v mod 10 ^ Z.of_nat prec) in
      let d := v / 10 ^ Z.of_nat prec in
      if (d =? 0) && (rest =? "")%string then "" else String (digit_char d) rest
  end.
Definition fraction_text (prec : nat) (v : Z) : string :=
  let digits := fraction_digits prec (v mod 10 ^ Z.of_nat prec) in
  if (digits =? "")%string then "" else ("." ++ digits)%string.
(** [fmtFrac] and [fmtInt]. *)
Definition scaled_text (prec : nat) (v : Z) : string :=
  (decimal_text (v / 10 ^ Z.of_nat prec) ++ fraction_text prec v)%string.

(** [d.String()]; the micro sign is two bytes. *)
Definition Duration_String (d : Z) : string :=
  let u := Z.abs d in
  let text :=
    if u =? 0 then "0s"
    else if u <? Microsecond then (decimal_text u ++ "ns")%string
    else if u <? Millisecond then (scaled_text 3 u ++ "µs")%string
    else if u <? Second then (scaled_text 6 u ++ "ms")%string
    else
      let s := u / Second in
      let seconds := (decimal_text (s mod 60) ++ fraction_text 9 u ++ "s")%string in
      let m := s / 60 in
      if m =? 0 then seconds
      else
        let h := m / 60 in
        ((if (h =? 0)%Z then "" else decimal_text h ++ "h") ++ decimal_text (m mod 60) ++ "m" ++ seconds)%string in
  if d <? 0 then ("-" ++ text)%string else text.

Example duration_texts :
  Duration_String 0 = "0s" ∧ Duration_String 1 = "1ns" ∧ Duration_String 1100 = "1.1µs" ∧
  Duration_String 2200000 = "2.2ms" ∧ Duration_String 3300000000 = "3.3s" ∧
  Duration_String (4 * Minute + 5 * Second) = "4m5s" ∧ Duration_String (4 * Minute + 5001000000) = "4m5.001s" ∧
  Duration_String (5 * Hour + 6 * Minute + 7001000000) = "5h6m7.001s" ∧
  Duration_String (8 * Minute + 1) = "8m0.000000001s" ∧
  Duration_String maxDuration = "2562047h47m16.854775807s" ∧ Duration_String minDuration = "-2562047h47m16.854775808s".
Proof. vm_compute. repeat split. Qed.

Example duration_rounding :
  Round 1499999999 Second = Second ∧ Round 1500000000 Second = 2 * Second ∧ Round (- 1500000000) Second = - (2 * Second) ∧
  Round maxDuration Second = maxDuration ∧ Round (- 499999999) Second = 0.
Proof. vm_compute. repeat split. Qed.

(** ** Instants *)

Definition time_zone : Type := Z → Z.

(** [n] in at least [width] digits. *)
Definition padded (width : nat) (n : Z) : string :=
  let text := decimal_text n in (zeros_text (width - String.length text) ++ text)%string.

(** [t.In(loc).Format(time.RFC3339)] for a year of four digits. *)
Definition RFC3339 (loc : time_zone) (t : Z) : string :=
  let offset := loc t in
  let wall := t / Millisecond + offset * 1000 in
  let clock := clock_of wall / 1000 in
  (padded 4 (Year wall) ++ "-" ++ padded 2 (Month wall) ++ "-" ++ padded 2 (Day wall) ++ "T" ++
   padded 2 (clock / 3600) ++ ":" ++ padded 2 (clock / 60 mod 60) ++ ":" ++ padded 2 (clock mod 60) ++
   let zone := Z.quot offset 60 in
   if (offset =? 0)%Z then "Z"
   else (if (zone <? 0)%Z then "-" else "+") ++ padded 2 (Z.abs zone / 60) ++ ":" ++ padded 2 (Z.abs zone mod 60))%string.

Example rfc3339_texts :
  RFC3339 (λ _, 0) 1779262200000000000 = "2026-05-20T07:30:00Z" ∧
  RFC3339 (λ _, 28800) 1779262201999999999 = "2026-05-20T15:30:01+08:00" ∧
  RFC3339 (λ _, - 34200) 0 = "1969-12-31T14:30:00-09:30".
Proof. vm_compute. repeat split. Qed.

Definition unix_milli (t : Z) : Z := t / Millisecond.
Definition unix_seconds (t : Z) : Z := t / Second.

(** ** [%.2f] *)

Definition fixed2 (f : float64) : string :=
  match f with
  | S754_zero neg => if neg then "-0.00" else "0.00"
  | S754_infinity neg => if neg then "-Inf" else "+Inf"
  | S754_nan => "NaN"
  | S754_finite neg m e => ((if neg then "-" else "") ++ point_text (round_decimal (Zpos m) e 2) 2)%string
  end.

Example fixed2_texts :
  fixed2 (f64_of_Q 12345 1000) = "12.35" ∧ fixed2 (f64_of_Q 1 1000) = "0.00" ∧ fixed2 (f64_of_Q 5 8) = "0.62" ∧
  fixed2 (f64_of_Z 100) = "100.00" ∧ fixed2 (SFopp (f64_of_Q 1 3)) = "-0.33".
Proof. vm_compute. repeat split. Qed.
