(* ===== verification/Partitions.v ===== *)
(** * Partitions of the candle table (internal/storage/mysql/partitions.go)

    The table of candles is partitioned by timeframe and month: the statements that
    create, add and drop partitions, and the choice of the partitions that hold
    nothing but expired candles. *)

From S2P Require Export Retention GoTime.

Local Open Scope string_scope.
Local Open Scope Z_scope.
Local Open Scope list_scope.

(** ** Options *)

(** [None] is the zero time. *)
Module TimeframePartitionOptions.
Record TimeframePartitionOptions : Type := mk { TableName : string; StartMonth : option Z; Months : Z }.
End TimeframePartitionOptions.
Notation TimeframePartitionOptions := TimeframePartitionOptions.TimeframePartitionOptions.

Definition partitionTableName (value : string) : string :=
  let value := TrimSpace value in if bool_decide (value = "") then "bar_history" else value.

(** The first days of the months, from the start month on. *)
Definition normalizedPartitionMonths (now : Z) (start : option Z) (months : Z) : list Z :=
  let months := if months <=? 0 then 36 else months in
  let start := default (Date (Year now) (Month now) 1 0) start in
  let start := Date (Year start) (Month start) 1 0 in
  (λ i, AddDate start 0 (Z.of_nat i) 0) <$> seq 0 (Z.to_nat months).

(** ** Names *)

Definition lexicographicTimeframes : list Frame := sort_slice (less_str frame_name) Order.
Definition hasMonthlyPartitions (tf : Frame) : bool := 0 <? (RuleFor tf).(Rule.KeepDays).

Definition partitionFrameName (tf : string) : string :=
  if HasSuffix tf "m" then (TrimSuffix tf "m" ++ "min")%string
  else if HasSuffix tf "M" then (TrimSuffix tf "M" ++ "mon")%string
  else ToLower tf.

Definition frame_prefix (tf : Frame) : string := ("p_tf_" ++ partitionFrameName (frame_name tf) ++ "_")%string.
Definition partitionName (tf : Frame) (monthStart : Z) : string :=
  (frame_prefix tf ++ padded 4 (Year monthStart) ++ "_" ++ padded 2 (Month monthStart))%string.
Definition futurePartitionName (tf : Frame) : string := (frame_prefix tf ++ "future")%string.

(** [time.Parse("2006_01", s)]: four digits, an underscore and the two digits of a
    month. *)
Definition parse_month (s : string) : option Z :=
  match string_bytes s with
  | [a; b; c; d; sep; e; f] =>
      let month := digits_value [e - 48; f - 48] in
      if forallb is_digit [a; b; c; d; e; f] && (sep =? 95) && (1 <=? month) && (month <=? 12)
      then Some (Date (digits_value [a - 48; b - 48; c - 48; d - 48]) month 1 0) else None
  | _ => None
  end.
Definition TrimPrefix (s prefix : string) : string :=
  if HasPrefix s prefix then String.substring (String.length prefix) (String.length s - String.length prefix) s else s.

(** ** Statements *)

Definition newline : string := String (of_byte 10) "".
(** [monthStart.AddDate(0, 1, 0).UnixMilli()]. *)
Definition month_end (monthStart : Z) : Z := UnixMilli (AddDate monthStart 0 1 0).
Definition quoted_month (tf : Frame) (monthStart : Z) : string :=
  ("  PARTITION " ++ partitionName tf monthStart ++ " VALUES LESS THAN ('" ++ frame_name tf ++ "', " ++
   pretty (month_end monthStart) ++ ")," ++ newline)%string.

Definition futurePartitionDDL (tf : Frame) (frameIndex : nat) (frames : list Frame) (trailingComma : bool) : string :=
  let suffix := if trailingComma then "," else "" in
  match frames !! S frameIndex with
  | None => ("PARTITION " ++ futurePartitionName tf ++ " VALUES LESS THAN (MAXVALUE, MAXVALUE)" ++ suffix)%string
  | Some nextFrame =>
      ("PARTITION " ++ futurePartitionName tf ++ " VALUES LESS THAN ('" ++ frame_name nextFrame ++ "', 0)" ++ suffix)%string
  end.

Definition concat_text (l : list string) : string := String.concat "" l.

(** The lines of one timeframe. *)
Definition frame_clause (months : list Z) (frames : list Frame) (frameIndex : nat) (tf : Frame) : string :=
  ((if hasMonthlyPartitions tf then concat_text (quoted_month tf <$> months) else "") ++
   "  " ++ futurePartitionDDL tf frameIndex frames (negb (frameIndex =? length frames - 1)%nat) ++ newline)%string.

Definition BuildTimeframePartitionClause (now : Z) (options : TimeframePartitionOptions) : string :=
  let months := normalizedPartitionMonths now options.(TimeframePartitionOptions.StartMonth) options.(TimeframePartitionOptions.Months) in
  let frames := lexicographicTimeframes in
  ("PARTITION BY RANGE COLUMNS(timeframe, start_ms) (" ++ newline ++
   concat_text (imap (frame_clause months frames) frames) ++ ")")%string.

Definition BuildAddTimeframePartitionsSQL (now : Z) (options : TimeframePartitionOptions) : string :=
  let months := normalizedPartitionMonths now options.(TimeframePartitionOptions.StartMonth) options.(TimeframePartitionOptions.Months) in
  let tableName := partitionTableName options.(TimeframePartitionOptions.TableName) in
  let frames := lexicographicTimeframes in
  concat_text (imap (λ frameIndex tf,
    if negb (hasMonthlyPartitions tf) then ""
    else ("ALTER TABLE `" ++ tableName ++ "` REORGANIZE PARTITION " ++ futurePartitionName tf ++ " INTO (" ++ newline ++
          concat_text (quoted_month tf <$> months) ++
          "  " ++ futurePartitionDDL tf frameIndex frames false ++ newline ++ ");" ++ newline)%string) frames).

Definition barHistoryColumnsDDL : string :=
"  exchange VARCHAR(16) NOT NULL,
  symbol VARCHAR(64) NOT NULL,
  margin_type VARCHAR(16) NOT NULL DEFAULT '',
  timeframe VARCHAR(8) CHARACTER SET ascii COLLATE ascii_bin NOT NULL,
  start_ms BIGINT NOT NULL,
  end_ms BIGINT NOT NULL,
  open_price DECIMAL(28, 12) NOT NULL,
  high_price DECIMAL(28, 12) NOT NULL,
  low_price DECIMAL(28, 12) NOT NULL,
  close_price DECIMAL(28, 12) NOT NULL,
  volume DECIMAL(30, 12) NOT NULL DEFAULT 0,
  volume_unit VARCHAR(16) NOT NULL DEFAULT '',
  quote_volume DECIMAL(30, 12) NOT NULL DEFAULT 0,
  quote_unit VARCHAR(16) NOT NULL DEFAULT '',
  contract_volume DECIMAL(30, 12) NOT NULL DEFAULT 0,
  trade_count BIGINT NOT NULL DEFAULT 0,
  prev_close DECIMAL(28, 12) NOT NULL DEFAULT 0,
  chg DECIMAL(18, 8) NOT NULL DEFAULT 0,
  amp DECIMAL(18, 8) NOT NULL DEFAULT 0,
  last_tick_ms BIGINT NOT NULL,
  is_final TINYINT(1) NOT NULL DEFAULT 0,
  created_at TIMESTAMP NOT NULL DEFAULT CURRENT_TIMESTAMP,
  updated_at TIMESTAMP NOT NULL DEFAULT CURRENT_TIMESTAMP ON UPDATE CURRENT_TIMESTAMP,
  verified_at_ms BIGINT NOT NULL DEFAULT 0,
  PRIMARY KEY (exchange, symbol, timeframe, start_ms)".

Definition BuildTimeframePartitionMigrationSQL (now : Z) (options : TimeframePartitionOptions) : string :=
  let tableName := partitionTableName options.(TimeframePartitionOptions.TableName) in
  let nextTable := (tableName ++ "_timeframe")%string in
  ("DROP TABLE IF EXISTS `" ++ nextTable ++ "`;" ++ newline ++
   "CREATE TABLE `" ++ nextTable ++ "` (" ++ newline ++
   barHistoryColumnsDDL ++ newline ++ ")" ++ newline ++
   BuildTimeframePartitionClause now options ++ ";" ++ newline ++ newline ++
   "INSERT INTO `" ++ nextTable ++ "` SELECT * FROM `" ++ tableName ++ "`;" ++ newline ++
   "RENAME TABLE `" ++ tableName ++ "` TO `" ++ tableName ++ "_exchange_partition_backup`, `" ++ nextTable ++ "` TO `" ++
   tableName ++ "`;" ++ newline)%string.

(** ** Expired partitions *)

(** Names for the months of the options, whether or not there is such a partition. *)
Definition expired_names (now : Z) (months : list Z) (tf : Frame) : list string :=
  match CutoffMS (RuleFor tf) now with
  | None => []
  | Some cutoffMS => partitionName tf <$> List.filter (λ monthStart, month_end monthStart <=? cutoffMS) months
  end.

Definition BuildDropExpiredTimeframePartitionsSQL (clock : Z) (options : TimeframePartitionOptions) (now : Z) : string :=
  let months := normalizedPartitionMonths clock options.(TimeframePartitionOptions.StartMonth) options.(TimeframePartitionOptions.Months) in
  let tableName := partitionTableName options.(TimeframePartitionOptions.TableName) in
  match concat (expired_names now months <$> Order) with
  | [] => ("-- no fully expired timeframe partitions" ++ newline)%string
  | names => ("ALTER TABLE `" ++ tableName ++ "` DROP PARTITION " ++ String.concat ", " (sort_strings names) ++ ";" ++ newline)%string
  end.

(** The month of a partition of [tf]. *)
Definition partition_month (name : string) (tf : Frame) : option Z :=
  if HasPrefix name (frame_prefix tf) then parse_month (TrimPrefix name (frame_prefix tf)) else None.

(** The loop over the timeframes: the first whose month can be read decides. *)
Fixpoint is_expired (frames : list Frame) (now : Z) (name : string) : bool :=
  match frames with
  | [] => false
  | tf :: rest =>
      match CutoffMS (RuleFor tf) now, partition_month name tf with
      | Some cutoffMS, Some monthStart => month_end monthStart <=? cutoffMS
      | _, _ => is_expired rest now name
      end
  end.

Definition ExpiredTimeframePartitionNames (existing : list string) (now : Z) : list string :=
  sort_strings (List.filter (is_expired Order now) existing).

Definition validTimeframePartitionName (name : string) : bool :=
  match List.find (λ tf, HasPrefix name (frame_prefix tf)) Order with
  | Some tf => bool_decide (is_Some (parse_month (TrimPrefix name (frame_prefix tf))))
  | None => false
  end.

#[local] Opaque month_end CutoffMS.

(** ** The layout a clause declares

    A partition is a name with a bound that its rows stay below; [None] is
    (MAXVALUE, MAXVALUE).  MySQL puts a row into the first partition whose bound is
    above the row's timeframe and start, compared in that order; the column's
    collation compares timeframes bytewise. *)

Notation partition := (string * option (string * Z))%type.

Definition month_partition (tf : Frame) (m : Z) : partition := (partitionName tf m, Some (frame_name tf, month_end m)).
Definition monthly (tf : Frame) (months : list Z) : list partition :=
  if hasMonthlyPartitions tf then month_partition tf <$> months else [].
Fixpoint layout_of (months : list Z) (frames : list Frame) : list partition :=
  match frames with
  | [] => []
  | tf :: rest =>
      monthly tf months ++
      (futurePartitionName tf, match rest with [] => None | next :: _ => Some (frame_name next, 0) end) ::
      layout_of months rest
  end.
Definition layout (now : Z) (options : TimeframePartitionOptions) : list partition :=
  layout_of (normalizedPartitionMonths now options.(TimeframePartitionOptions.StartMonth) options.(TimeframePartitionOptions.Months))
    lexicographicTimeframes.

Definition key_less (k l : string * Z) : bool :=
  string_less k.1 l.1 || (bool_decide (k.1 = l.1) && (k.2 <? l.2)).
Definition below (k : string * Z) (bound : option (string * Z)) : bool :=
  match bound with None => true | Some b => key_less k b end.
Definition place (l : list partition) (tf : Frame) (start : Z) : option string :=
  fst <$> List.find (λ p, below (frame_name tf, start) p.2) l.

(** The clause that declares a layout. *)
Definition partition_text (p : partition) : string :=
  ("  PARTITION " ++ p.1 ++ " VALUES LESS THAN (" ++
   match p.2 with None => "MAXVALUE, MAXVALUE" | Some (tf, start) => "'" ++ tf ++ "', " ++ pretty start end ++ ")")%string.
Fixpoint lines_text (l : list partition) : string :=
  match l with
  | [] => ""
  | p :: rest => (partition_text p ++ match rest with [] => "" | _ => "," end ++ newline ++ lines_text rest)%string
  end.
Definition clause_text (l : list partition) : string :=
  ("PARTITION BY RANGE COLUMNS(timeframe, start_ms) (" ++ newline ++ lines_text l ++ ")")%string.

(** ** The clause is the text of the layout *)

Lemma string_app_assoc (a b c : string) : ((a ++ b) ++ c = a ++ b ++ c)%string.
Proof.
  induction a as [|x a IH]; [done|].
  change (String x ((a ++ b) ++ c) = String x (a ++ b ++ c))%string. by rewrite IH.
Qed.

Lemma string_app_nil a : (a ++ "" = a)%string.
Proof. induction a as [|x a IH]; [done|]. change (String x (a ++ "") = String x a)%string. by rewrite IH. Qed.

Lemma concat_text_cons x l : concat_text (x :: l) = (x ++ concat_text l)%string.
Proof. unfold concat_text. destruct l; [|done]. symmetry. apply string_app_nil. Qed.

Lemma quoted_month_text tf m :
  quoted_month tf m = (partition_text (month_partition tf m) ++ "," ++ newline)%string.
Proof.
  unfold quoted_month, partition_text, month_partition. cbn [fst snd]. generalize (partitionName tf m), (frame_name tf), newline.
  generalize (pretty (month_end m)). intros a b c d. by rewrite !string_app_assoc.
Qed.

Lemma lines_months tf ms q l : lines_text ((month_partition tf <$> ms) ++ q :: l) =
  (concat_text (quoted_month tf <$> ms) ++ lines_text (q :: l))%string.
Proof.
  induction ms as [|m ms IH]; [done|]. cbn [fmap list_fmap app]. rewrite concat_text_cons, string_app_assoc, <- IH.
  cbn [lines_text]. destruct (_ ++ q :: l) as [|x y] eqn:E; [by destruct ms|].
  by rewrite quoted_month_text, !string_app_assoc.
Qed.

Lemma frame_clause_text months pre tf rest :
  (frame_clause months (pre ++ tf :: rest) (length pre) tf ++ lines_text (layout_of months rest))%string =
  lines_text (layout_of months (tf :: rest)).
Proof.
  cbn [layout_of]. set (future := (futurePartitionName tf, _) : partition).
  assert (lines_text (monthly tf months ++ future :: layout_of months rest) =
    ((if hasMonthlyPartitions tf then concat_text (quoted_month tf <$> months) else "") ++
     lines_text (future :: layout_of months rest))%string) as ->.
  { unfold monthly. destruct (hasMonthlyPartitions tf); [apply lines_months|done]. }
  unfold frame_clause. rewrite string_app_assoc. f_equal. unfold futurePartitionDDL.
  rewrite lookup_app_r by lia. replace (S (length pre) - length pre)%nat with 1%nat by lia. rewrite length_app.
  assert ((length pre =? length pre + length (tf :: rest) - 1)%nat = match rest with [] => true | _ => false end) as ->.
  { destruct rest; cbn [length]; [apply Nat.eqb_eq|apply Nat.eqb_neq]; lia. }
  subst future. generalize (futurePartitionName tf) as name. intros name.
  destruct rest as [|next rest]; cbn [lookup list_lookup head negb layout_of lines_text]; unfold partition_text; cbn [fst snd].
  - by rewrite !string_app_assoc.
  - generalize (frame_name next) as text. intros text. destruct (monthly next months ++ _) as [|x l] eqn:E; [by destruct (monthly next months)|].
    generalize (lines_text (x :: l)) as following. intros following. by rewrite !string_app_assoc.
Qed.

Lemma layout_text months pre suffix :
  concat_text (imap (λ i, frame_clause months (pre ++ suffix) (length pre + i)) suffix) = lines_text (layout_of months suffix).
Proof.
  revert pre. induction suffix as [|tf rest IH]; intros pre; [done|].
  rewrite imap_cons, concat_text_cons, Nat.add_0_r, <- (frame_clause_text months pre). f_equal. rewrite <- (IH (pre ++ [tf])), <- app_assoc.
  f_equal. apply imap_ext. intros i x _. cbn [compose]. rewrite length_app. cbn [length app].
  by replace (length pre + S i)%nat with (length pre + 1 + i)%nat by lia.
Qed.

Lemma clause_is_layout now options : BuildTimeframePartitionClause now options = clause_text (layout now options).
Proof.
  unfold BuildTimeframePartitionClause, clause_text, layout. do 2 f_equal. f_equal.
  exact (layout_text _ [] lexicographicTimeframes).
Qed.

(** ** Where a row goes *)

Lemma find_app {A} (f : A → bool) l k :
  List.find f (l ++ k) = match List.find f l with Some x => Some x | None => List.find f k end.
Proof. induction l as [|x l IH]; [done|]. cbn. by destruct (f x). Qed.

Lemma find_none {A} (f : A → bool) l : Forall (λ x, f x = false) l → List.find f l = None.
Proof. induction 1 as [|x l Hx _ IH]; [done|]. cbn. by rewrite Hx. Qed.

(** The partition of a row among those of its timeframe: the first month that ends after
    its start, which holds the older rows too, or the open one. *)
Definition own_partition (months : list Z) (tf : Frame) (start : Z) : string :=
  if hasMonthlyPartitions tf
  then match List.find (λ m, start <? month_end m) months with Some m => partitionName tf m | None => futurePartitionName tf end
  else futurePartitionName tf.

Definition frame_lt (f g : Frame) : Prop := string_less (frame_name f) (frame_name g) = true.

Lemma key_less_same n a b : key_less (n, a) (n, b) = (a <? b).
Proof. unfold key_less. cbn [fst snd]. by rewrite string_less_irrefl, bool_decide_eq_true_2. Qed.

Lemma key_less_after f g a b : frame_lt g f → key_less (frame_name f, a) (frame_name g, b) = false.
Proof.
  intros H. unfold key_less. cbn [fst snd]. rewrite (string_less_asym _ _ H), bool_decide_eq_false_2; [done|].
  intros E. unfold frame_lt in H. by rewrite E, string_less_irrefl in H.
Qed.

Lemma key_less_before f g a b : frame_lt f g → key_less (frame_name f, a) (frame_name g, b) = true.
Proof. unfold frame_lt, key_less. cbn [fst snd]. by intros ->. Qed.

Lemma find_month tf start months :
  List.find (λ p : partition, below (frame_name tf, start) p.2) (month_partition tf <$> months) =
  month_partition tf <$> List.find (λ m, start <? month_end m) months.
Proof.
  induction months as [|m ms IH]; [done|]. cbn [fmap list_fmap List.find]. unfold month_partition at 1. cbn [snd below].
  rewrite key_less_same. by destruct (start <? month_end m).
Qed.

Lemma place_layout months frames tf start :
  StronglySorted frame_lt frames → tf ∈ frames → 0 <= start →
  place (layout_of months frames) tf start = Some (own_partition months tf start).
Proof.
  intros Hs Hin H0. unfold place. induction Hs as [|f rest Hs IH Hf]; [by apply elem_of_nil in Hin|].
  cbn [layout_of]. rewrite find_app. rewrite Forall_forall in Hf.
  apply elem_of_cons in Hin as [->|Hin].
  - clear IH. unfold own_partition, monthly. destruct (hasMonthlyPartitions f).
    + rewrite find_month.
      destruct (List.find _ months) as [m|]; [done|]. cbn [fmap option_fmap option_map List.find snd].
      destruct rest as [|g rest]; cbn [below]; [done|]. rewrite key_less_before; [done|]. apply Hf. by left.
    + cbn [List.find snd]. destruct rest as [|g rest]; cbn [below]; [done|]. rewrite key_less_before; [done|]. apply Hf. by left.
  - rewrite find_none.
    + cbn [List.find snd]. destruct rest as [|g rest]; [by apply elem_of_nil in Hin|]. cbn [below].
      assert (key_less (frame_name tf, start) (frame_name g, 0) = false) as ->; [|by apply IH].
      apply elem_of_cons in Hin as [->|Hin]; [rewrite key_less_same; apply Z.ltb_ge; lia|].
      apply key_less_after. apply StronglySorted_inv in Hs as [_ Hg]. rewrite Forall_forall in Hg. by apply Hg.
    + unfold monthly. destruct (hasMonthlyPartitions f); [|constructor]. apply Forall_fmap, Forall_forall. intros m _.
      cbn [compose snd below]. apply key_less_after. by apply Hf.
Qed.

Lemma frames_sorted : StronglySorted frame_lt lexicographicTimeframes.
Proof.
  assert (lexicographicTimeframes = [F12H; F15m; F1D; F1H; F1M; F1W; F1m; F2D; F2H; F2W; F30m; F3D; F3M; F4H; F5D; F5m; F6H]) as -> by (vm_compute; reflexivity).
  repeat constructor.
Qed.

Lemma frames_all tf : tf ∈ lexicographicTimeframes.
Proof. unfold lexicographicTimeframes. rewrite elem_of_sort_slice. apply elem_of_Order. Qed.

(** ** Names are read back *)

Lemma prefix_app p r : String.prefix p (p ++ r) = true.
Proof. induction p as [|c p IH]; [by destruct r|]. change (String c p ++ r)%string with (String c (p ++ r)). cbn. by destruct (Ascii.ascii_dec c c). Qed.

Lemma length_app_string p r : String.length (p ++ r) = (String.length p + String.length r)%nat.
Proof. induction p as [|c p IH]; [done|]. change (String c p ++ r)%string with (String c (p ++ r)). cbn. by rewrite IH. Qed.

Lemma substring_all r : String.substring 0 (String.length r) r = r.
Proof. induction r as [|c r IH]; [done|]. cbn. by rewrite IH. Qed.

Lemma TrimPrefix_app p r : TrimPrefix (p ++ r) p = r.
Proof.
  unfold TrimPrefix, HasPrefix. rewrite prefix_app, length_app_string.
  replace (String.length p + String.length r - String.length p)%nat with (String.length r) by lia.
  induction p as [|c p IH]; [apply substring_all|]. change (String c p ++ r)%string with (String c (p ++ r)). cbn. exact IH.
Qed.

Lemma other_prefix tf tf' r : tf ≠ tf' → HasPrefix (frame_prefix tf ++ r) (frame_prefix tf') = false.
Proof. intros H. destruct tf, tf'; try done; reflexivity. Qed.

Lemma partition_month_app tf tf' r :
  partition_month (frame_prefix tf ++ r) tf' = if decide (tf = tf') then parse_month r else None.
Proof.
  unfold partition_month. destruct (decide (tf = tf')) as [<-|Hne].
  - unfold HasPrefix at 1. by rewrite prefix_app, TrimPrefix_app.
  - by rewrite other_prefix.
Qed.

Lemma string_bytes_app s t : string_bytes (s ++ t) = string_bytes s ++ string_bytes t.
Proof. induction s as [|c s IH]; [done|]. change (String c s ++ t)%string with (String c (s ++ t)). rewrite !string_bytes_cons, IH. done. Qed.

Definition reads_back (width : nat) (n : Z) : bool :=
  let bs := string_bytes (padded width n) in
  (length bs =? width)%nat && forallb is_digit bs && (digits_value ((λ b, b - 48) <$> bs) =? n).

Lemma four_digits y : 0 <= y < 10000 → reads_back 4 y = true.
Proof.
  intros Hy. refine (proj1 (forallb_forall (reads_back 4) (seqZ 0 10000)) _ _ _); [vm_compute; reflexivity|].
  apply list_elem_of_In, elem_of_seqZ. lia.
Qed.

Lemma two_digits m : 1 <= m <= 12 → reads_back 2 m = true.
Proof.
  intros Hm. refine (proj1 (forallb_forall (reads_back 2) (seqZ 1 12)) _ _ _); [vm_compute; reflexivity|].
  apply list_elem_of_In, elem_of_seqZ. lia.
Qed.

Lemma parse_month_text y m : 0 <= y < 10000 → 1 <= m <= 12 → parse_month (padded 4 y ++ "_" ++ padded 2 m) = Some (Date y m 1 0).
Proof.
  intros Hy Hm. pose proof (four_digits y Hy) as H4. pose proof (two_digits m Hm) as H2. unfold parse_month. rewrite !string_bytes_app.
  unfold reads_back in H4, H2. change (string_bytes "_") with [95].
  set (ys := string_bytes (padded 4 y)) in *. set (ms := string_bytes (padded 2 m)) in *. clearbody ys ms.
  destruct ys as [|a [|b [|c [|d [|? ?]]]]]; try discriminate. destruct ms as [|e [|f [|? ?]]]; try discriminate.
  cbn [length Nat.eqb andb] in H4, H2. apply andb_true_iff in H4 as [Hy4 Hv4%Z.eqb_eq], H2 as [Hm2 Hv2%Z.eqb_eq].
  cbn [app fmap list_fmap forallb] in *. rewrite Hv4, Hv2. zbool.
  repeat match goal with H : is_digit _ = true |- _ => rewrite H; clear H end.
  rewrite (proj2 (Z.leb_le 1 m)), (proj2 (Z.leb_le m 12)) by lia. done.
Qed.

(** ** Which partitions are expired *)

Lemma Month_range t : 1 <= Month t <= 12.
Proof.
  unfold Month. generalize (day_of t) as n. intros n. pose proof (year_of_day_spec n) as Hy. rewrite year_start_succ in Hy.
  destruct (month_of_yday_spec (is_leap (year_of_day n)) (n - year_start (year_of_day n))) as [Hm _]; [|lia].
  destruct (is_leap _); cbn; lia.
Qed.

Lemma month_first mi t : t = month_start mi * DayMs → Date (Year t) (Month t) 1 0 = t.
Proof.
  intros Ht. destruct (month_index_spec t) as [_ H]. assert (day_of t = month_start mi) as Hd by (unfold day_of; rewrite Ht; apply Z.div_mul; done).
  rewrite Hd in H. assert (month_index t = mi) as Hmi.
  { eapply month_start_unique; [exact H|]. pose proof (month_length mi). lia. }
  rewrite Date_first. unfold month_index in Hmi. replace (12 * Year t + (Month t - 1)) with mi by lia. done.
Qed.

(** The first of a month in a year of four digits. *)
Definition named_month (m : Z) : Prop := ∃ mi, m = month_start mi * DayMs ∧ 1970 <= Year m <= 9998.

Lemma partition_month_name tf tf' m :
  named_month m → partition_month (partitionName tf m) tf' = if decide (tf = tf') then Some m else None.
Proof.
  intros (mi & Hm & Hy). unfold partitionName. rewrite partition_month_app. destruct (decide _); [|done].
  rewrite parse_month_text by (try apply Month_range; lia). f_equal. by eapply month_first.
Qed.

Lemma partition_month_future tf tf' : partition_month (futurePartitionName tf) tf' = None.
Proof. unfold futurePartitionName. rewrite partition_month_app. by destruct (decide _). Qed.

Lemma is_expired_future frames now tf : is_expired frames now (futurePartitionName tf) = false.
Proof.
  induction frames as [|f frames IH]; [done|]. cbn [is_expired]. rewrite partition_month_future.
  destruct (CutoffMS (RuleFor f) now); exact IH.
Qed.

Definition expired (now : Z) (tf : Frame) (m : Z) : bool :=
  match CutoffMS (RuleFor tf) now with Some cutoff => month_end m <=? cutoff | None => false end.

Lemma is_expired_month frames now tf m : named_month m →
  is_expired frames now (partitionName tf m) = bool_decide (tf ∈ frames) && expired now tf m.
Proof.
  intros Hm. induction frames as [|f frames IH]; [done|]. cbn [is_expired]. rewrite partition_month_name by done.
  destruct (decide (tf = f)) as [<-|Hne].
  - rewrite (bool_decide_eq_true_2 (tf ∈ tf :: frames)) by left. unfold expired at 1.
    destruct (CutoffMS (RuleFor tf) now) eqn:E; [done|]. rewrite IH. unfold expired. rewrite E. apply andb_false_r.
  - assert (bool_decide (tf ∈ f :: frames) = bool_decide (tf ∈ frames)) as ->
      by (apply bool_decide_ext; rewrite elem_of_cons; naive_solver).
    destruct (CutoffMS (RuleFor f) now); exact IH.
Qed.

Definition months_of (clock : Z) (options : TimeframePartitionOptions) : list Z :=
  normalizedPartitionMonths clock options.(TimeframePartitionOptions.StartMonth) options.(TimeframePartitionOptions.Months).

(** The months of the options are consecutive. *)
Lemma months_consecutive clock start months :
  ∃ mi, normalizedPartitionMonths clock start months =
    (λ i, month_start (mi + Z.of_nat i) * DayMs) <$> seq 0 (Z.to_nat (if months <=? 0 then 36 else months)).
Proof.
  unfold normalizedPartitionMonths. set (s := default _ start). exists (12 * Year s + (Month s - 1)).
  rewrite Date_first. apply list_fmap_ext. intros _ i _. by rewrite AddDate_months.
Qed.

Lemma prefix_split p s : HasPrefix s p = true → ∃ r, s = (p ++ r)%string.
Proof.
  unfold HasPrefix. revert s. induction p as [|c p IH]; intros s H; [by exists s|]. destruct s as [|d s]; [done|]. cbn in H.
  destruct (Ascii.ascii_dec c d) as [<-|]; [|done]. apply IH in H as (r & ->). by exists r.
Qed.

Lemma frame_prefix_unique n tf tf' : HasPrefix n (frame_prefix tf) = true → HasPrefix n (frame_prefix tf') = true → tf = tf'.
Proof.
  intros (r & ->)%prefix_split H. destruct (decide (tf = tf')) as [|Hne]; [done|]. by rewrite other_prefix in H.
Qed.

Lemma elem_of_expired n existing now :
  n ∈ ExpiredTimeframePartitionNames existing now ↔ n ∈ existing ∧ is_expired Order now n = true.
Proof. unfold ExpiredTimeframePartitionNames, sort_strings. by rewrite elem_of_sort_slice, list_elem_of_In, filter_In, <- list_elem_of_In. Qed.

Lemma is_expired_valid frames now n :
  is_expired frames now n = true → ∃ tf m, partition_month n tf = Some m.
Proof.
  induction frames as [|f frames IH]; [done|]. cbn [is_expired]. destruct (CutoffMS (RuleFor f) now); [|exact IH].
  destruct (partition_month n f) as [m|] eqn:E; [|exact IH]. intros _. by exists f, m.
Qed.

Lemma expired_valid now n : is_expired Order now n = true → validTimeframePartitionName n = true.
Proof.
  intros (tf & m & Hm)%is_expired_valid. unfold partition_month in Hm.
  destruct (HasPrefix n (frame_prefix tf)) eqn:Hp; [|done]. unfold validTimeframePartitionName.
  destruct (List.find _ Order) as [tf'|] eqn:Ef.
  - apply List.find_some in Ef as [_ Hp']. rewrite (frame_prefix_unique n tf' tf) by done. rewrite Hm. done.
  - exfalso. apply (List.find_none _ _) with (x := tf) in Ef; [congruence|]. apply list_elem_of_In, elem_of_Order.
Qed.

Lemma own_partition_expired existing now months tf start :
  (∀ m, m ∈ months → named_month m) → own_partition months tf start ∈ ExpiredTimeframePartitionNames existing now →
  ∃ cutoff, CutoffMS (RuleFor tf) now = Some cutoff ∧ start < cutoff.
Proof.
  intros Hn [_ He]%elem_of_expired. unfold own_partition in He.
  assert (is_expired Order now (futurePartitionName tf) = true → False) as Hf by (rewrite is_expired_future; done).
  destruct (hasMonthlyPartitions tf); [|by apply Hf in He]. destruct (List.find _ months) as [m|] eqn:Ef; [|by apply Hf in He].
  apply List.find_some in Ef as [Hin Hs]. apply list_elem_of_In in Hin. rewrite is_expired_month in He by (by apply Hn).
  apply andb_true_iff in He as [_ He]. unfold expired in He. destruct (CutoffMS (RuleFor tf) now) as [cutoff|]; [|done].
  exists cutoff. zbool. split; [done|lia].
Qed.

(** ** The bounds increase *)

Definition bound_less (a b : option (string * Z)) : Prop :=
  match a, b with Some a, Some b => key_less a b = true | Some _, None => True | None, _ => False end.

#[local] Transparent month_end.
Lemma month_end_value mi : let m := month_start mi * DayMs in
  1970 <= Year m <= 9998 → month_end m = month_start (mi + 1) * DayMs ∧ 0 < month_end m.
Proof.
  intros m Hy. unfold month_end, m, UnixMilli. rewrite AddDate_months.
  pose proof (year_of_day_spec (day_of m)) as Hd. change (year_of_day (day_of m)) with (Year m) in Hd.
  assert (day_of m = month_start mi) as Hm by (unfold day_of, m, DayMs; apply Z.div_mul; lia). rewrite Hm in Hd.
  pose proof (month_length mi) as Hl.
  assert (0 <= year_start (Year m)) as Hlo.
  { change 0 with (year_start 1970). destruct (decide (Year m = 1970)) as [->|]; [done|]. pose proof (year_start_mono 1970 (Year m)). lia. }
  assert (year_start (Year m + 1) <= year_start 9999) as Hhi.
  { destruct (decide (Year m = 9998)) as [->|]; [done|]. pose proof (year_start_mono (Year m + 1) 9999). lia. }
  change (year_start 9999) with 2932532 in Hhi. rewrite i64_id by (unfold int64_range, two63, DayMs; lia). unfold DayMs. lia.
Qed.
#[local] Opaque month_end.

Lemma string_less_trans s t u : string_less s t = true → string_less t u = true → string_less s u = true.
Proof.
  intros H1 H2. destruct (string_less s u) eqn:E; [done|]. pose proof (string_less_negtrans _ _ _ E (string_less_asym _ _ H2)). congruence.
Qed.

Lemma StronglySorted_append {A} (R : A → A → Prop) l k :
  StronglySorted R l → StronglySorted R k → (∀ x y, x ∈ l → y ∈ k → R x y) → StronglySorted R (l ++ k).
Proof.
  intros Hl Hk Hlk. induction Hl as [|x l Hl IH Hx]; [done|]. constructor.
  - apply IH. intros. apply Hlk; [by right|done].
  - apply Forall_app. split; [done|]. apply Forall_forall. intros y Hy. apply Hlk; [by left|done].
Qed.

Lemma months_increasing mi n f :
  (∀ i, (i < n)%nat → 1970 <= Year (month_start (mi + Z.of_nat i) * DayMs) <= 9998) →
  StronglySorted bound_less (snd <$> (month_partition f <$> ((λ i, month_start (mi + Z.of_nat i) * DayMs) <$> seq 0 n))).
Proof.
  intros H. rewrite <- !list_fmap_compose.
  assert (∀ s k, (s + k <= n)%nat → StronglySorted bound_less ((snd ∘ (month_partition f ∘ (λ i, month_start (mi + Z.of_nat i) * DayMs))) <$> seq s k)) as Hs;
    [|by apply Hs].
  intros s k. revert s. induction k as [|k IH]; intros s Hk; [constructor|]. cbn [seq fmap list_fmap].
  constructor; [apply IH; lia|]. apply Forall_fmap, Forall_forall. intros j Hj%elem_of_seq. cbn [compose month_partition snd bound_less].
  rewrite key_less_same. apply Z.ltb_lt. rewrite (proj1 (month_end_value _ (H s ltac:(lia)))), (proj1 (month_end_value _ (H j ltac:(lia)))).
  pose proof (month_start_mono (mi + Z.of_nat s + 1) (mi + Z.of_nat j + 1)). unfold DayMs. lia.
Qed.

(** The bounds of the partitions of [g] and of what follows it. *)
Lemma layout_bounds months g rest b :
  (∀ m, m ∈ months → 0 < month_end m) → StronglySorted frame_lt (g :: rest) → b ∈ snd <$> layout_of months (g :: rest) →
  match b with None => True | Some (n, e) => (n = frame_name g ∧ 0 < e) ∨ string_less (frame_name g) n = true end.
Proof.
  intros Hm. revert g. induction rest as [|h rest IH]; intros g Hs Hb; cbn [layout_of] in Hb;
    rewrite fmap_app, elem_of_app in Hb; apply StronglySorted_inv in Hs as [Hs Hg].
  all: assert (∀ b, b ∈ snd <$> monthly g months → match b with None => True | Some (n, e) => (n = frame_name g ∧ 0 < e) ∨ string_less (frame_name g) n = true end) as Hmonthly.
  1, 3: intros b' Hb'; unfold monthly in Hb'; destruct (hasMonthlyPartitions g); [|by apply elem_of_nil in Hb'];
    apply list_elem_of_fmap in Hb' as (p & -> & Hp); apply list_elem_of_fmap in Hp as (m & -> & Hin); left; split; [done|by apply Hm].
  - destruct Hb as [Hb|Hb]; [by apply Hmonthly|]. apply list_elem_of_singleton in Hb as ->. done.
  - apply Forall_cons in Hg as [Hgh _]. destruct Hb as [Hb|Hb]; [by apply Hmonthly|]. cbn [fmap list_fmap snd] in Hb.
    apply elem_of_cons in Hb as [->|Hb]; [by right|]. apply (IH h Hs) in Hb. destruct b as [[n e]|]; [|done].
    right. destruct Hb as [[-> _]|Hb]; [done|]. by eapply string_less_trans.
Qed.

Lemma layout_increasing mi n frames :
  let months := (λ i, month_start (mi + Z.of_nat i) * DayMs) <$> seq 0 n in
  (∀ m, m ∈ months → 1970 <= Year m <= 9998) → StronglySorted frame_lt frames →
  StronglySorted bound_less (snd <$> layout_of months frames).
Proof.
  intros months Hy Hs.
  assert (∀ i, (i < n)%nat → 1970 <= Year (month_start (mi + Z.of_nat i) * DayMs) <= 9998) as Hi.
  { intros i Hi. apply Hy. unfold months. apply list_elem_of_fmap. exists i. split; [done|]. apply elem_of_seq. lia. }
  assert (∀ m, m ∈ months → 0 < month_end m) as Hpos.
  { intros m (i & -> & Hin%elem_of_seq)%list_elem_of_fmap. apply month_end_value, Hi. lia. }
  induction frames as [|g rest IH]; [constructor|]. apply StronglySorted_inv in Hs as [Hs Hg]. cbn [layout_of]. rewrite fmap_app.
  apply StronglySorted_append.
  - unfold monthly. destruct (hasMonthlyPartitions g); [by apply months_increasing|constructor].
  - cbn [fmap list_fmap snd]. constructor; [by apply IH|]. apply Forall_forall. intros b Hb.
    destruct rest as [|h rest]; [by apply elem_of_nil in Hb|]. apply layout_bounds in Hb; [|done..]. cbn [bound_less].
    destruct b as [[k e]|]; [|done]. destruct Hb as [[-> ?]|Hb]; [rewrite key_less_same; by apply Z.ltb_lt|]. unfold key_less. cbn [fst]. by rewrite Hb.
  - intros x y Hx Hy'. unfold monthly in Hx. destruct (hasMonthlyPartitions g); [|by apply elem_of_nil in Hx].
    apply list_elem_of_fmap in Hx as (p & -> & Hp). apply list_elem_of_fmap in Hp as (m & -> & Hin). cbn [month_partition snd].
    cbn [fmap list_fmap snd] in Hy'. destruct rest as [|h rest].
    { apply list_elem_of_singleton in Hy' as ->. done. }
    apply Forall_cons in Hg as [Hgh _].
    apply elem_of_cons in Hy' as [->|Hy']; [by apply key_less_before|]. apply layout_bounds in Hy'; [|done..].
    destruct y as [[k e]|]; [|done]. cbn [bound_less]. destruct Hy' as [[-> _]|Hk]; [by apply key_less_before|].
    unfold key_less. cbn [fst]. by rewrite (string_less_trans _ _ _ Hgh Hk).
Qed.

(** ** Dropping partitions *)

Definition recent_years (clock : Z) (options : TimeframePartitionOptions) : Prop :=
  ∀ m, m ∈ months_of clock options → 1970 <= Year m <= 9998.

Lemma recent_named clock options m : recent_years clock options → m ∈ months_of clock options → named_month m.
Proof.
  intros H Hm. pose proof (H m Hm) as Hy. unfold months_of in Hm.
  destruct (months_consecutive clock options.(TimeframePartitionOptions.StartMonth) options.(TimeframePartitionOptions.Months)) as (mi & E).
  rewrite E in Hm. apply list_elem_of_fmap in Hm as (i & -> & _). by exists (mi + Z.of_nat i).
Qed.

(** C19: dropping the expired partitions loses no candle that the retention rules keep.
    The clause declares partitions with increasing bounds, as MySQL demands, and every
    candle has one of its own timeframe: that of the first declared month that ends after
    its start (its own month, or the first one for a candle that is older than all), or
    the open one of its timeframe.  When a candle's partition is among those to be dropped, its timeframe
    is kept by age and the candle began before the cutoff.  Every partition to be
    dropped exists and has a name the statement accepts; and every existing partition
    of a month that ended by the cutoff is among them. *)
Theorem expired_partitions_safe clock options existing now :
  recent_years clock options →
  BuildTimeframePartitionClause clock options = clause_text (layout clock options) ∧
  StronglySorted bound_less (snd <$> layout clock options) ∧
  (∀ tf start, 0 <= start →
     ∃ name, place (layout clock options) tf start = Some name ∧ name = own_partition (months_of clock options) tf start ∧
       (name ∈ ExpiredTimeframePartitionNames existing now →
        ∃ cutoff, CutoffMS (RuleFor tf) now = Some cutoff ∧ start < cutoff)) ∧
  Forall (λ name, name ∈ existing ∧ validTimeframePartitionName name = true) (ExpiredTimeframePartitionNames existing now) ∧
  (∀ tf m cutoff, named_month m → partitionName tf m ∈ existing → CutoffMS (RuleFor tf) now = Some cutoff → month_end m <= cutoff →
     partitionName tf m ∈ ExpiredTimeframePartitionNames existing now).
Proof.
  intros Hy. split; [apply clause_is_layout|]. split; [|split; [|split]].
  - unfold recent_years, months_of in Hy. unfold layout.
    destruct (months_consecutive clock options.(TimeframePartitionOptions.StartMonth) options.(TimeframePartitionOptions.Months)) as (mi & E).
    rewrite E in *. apply layout_increasing; [exact Hy|apply frames_sorted].
  - intros tf start H0. eexists. split; [apply place_layout; [apply frames_sorted|apply frames_all|done]|]. split; [done|].
    apply own_partition_expired. intros m Hm. exact (recent_named clock options m Hy Hm).
  - apply Forall_forall. intros n [Hin He]%elem_of_expired. split; [done|]. by eapply expired_valid.
  - intros tf m cutoff Hm Hin Hc He. apply elem_of_expired. split; [done|]. rewrite is_expired_month by done.
    rewrite bool_decide_eq_true_2 by apply elem_of_Order. unfold expired. rewrite Hc. by apply Z.leb_le.
Qed.

(** Twelve months from January 2026, looked at in May 2026. *)
Definition sample_options : TimeframePartitionOptions := TimeframePartitionOptions.mk "" (Some 1767225600000) 12.

Example expired_partitions_safe_witness :
  let existing := ["p_tf_1min_2026_01"; "p_tf_1min_2026_05"; "p_tf_1h_2026_01"; "p_tf_1min_future"; "p_tf_1mon_2026_01"] in
  ExpiredTimeframePartitionNames existing 1779262261234 = ["p_tf_1min_2026_01"] ∧
  place (layout 0 sample_options) F1m 1767225600000 = Some "p_tf_1min_2026_01" ∧
  ∃ cutoff, CutoffMS (RuleFor F1m) 1779262261234 = Some cutoff ∧ 1767225600000 < cutoff.
Proof.
  cbv zeta. split; [vm_compute; reflexivity|]. split; [vm_compute; reflexivity|].
  assert (recent_years 0 sample_options) as Hy.
  { intros m Hm. assert (forallb (λ m, (1970 <=? Year m) && (Year m <=? 9998)) (months_of 0 sample_options) = true) as H by (vm_compute; reflexivity).
    apply (proj1 (forallb_forall _ _)) with (x := m) in H; [|by apply list_elem_of_In]. zbool. lia. }
  destruct (expired_partitions_safe 0 sample_options ["p_tf_1min_2026_01"] 1779262261234 Hy) as (_ & _ & H & _).
  destruct (H F1m 1767225600000 ltac:(lia)) as (name & _ & -> & He). apply He. vm_compute. by left.
Defined.
