(* ===== verification/Notify.v ===== *)
(** * Notifications (internal/notify/feishu.go)

    A card is posted to a webhook, three times at most with growing pauses
    ([delivering]); it is delivered when the webhook answers with a success status and does not reject
    it in the body. *)

From S2P Require Export GoJSON Effects.

Local Open Scope string_scope.
Local Open Scope Z_scope.
Local Open Scope list_scope.
Local Open Scope prog_scope.

Module Card.
Record Card : Set := mk { Title : string; Template : string; Body : string }.
End Card.
Notation Card := Card.Card.

Module FeishuClient.
Record FeishuClient : Set := mk { webhookURL : string; maxAttempts : Z; baseDelay : Z }.
End FeishuClient.
Notation FeishuClient := FeishuClient.FeishuClient.

Definition NewFeishuClient (webhookURL : string) : FeishuClient := FeishuClient.mk (TrimSpace webhookURL) 3 500000000.

(** The body as read, up to its limit: its text and what the JSON decoder makes of it. *)
Module HookBody.
Record HookBody : Type := mk { Text : string; Document : result go_error any }.
End HookBody.
Notation HookBody := HookBody.HookBody.
Module HookResponse.
Record HookResponse : Type := mk { StatusCode : Z; Body : result go_error HookBody }.
End HookResponse.
Notation HookResponse := HookResponse.HookResponse.

(** [Wait] pauses; its error is that of the context. *)
Inductive notifyE : Type → Type :=
| NewRequest (url : string) : notifyE (option go_error)
| Post (url : string) (payload : any) : notifyE (result go_error HookResponse)
| Wait (delay : Z) : notifyE (option go_error).

Notation nprog := (prog notifyE).

(** The decoder reads both fields as 64-bit integers. *)
Definition feishuResponseOK (body : HookBody) : bool :=
  if bool_decide (TrimSpace body.(HookBody.Text) = "") then true
  else
    match body.(HookBody.Document) with
    | Err _ => false
    | Ok doc =>
        match as_struct doc with
        | Err _ => false
        | Ok fields =>
            match as_int64 (struct_field fields "code"), as_int64 (struct_field fields "StatusCode") with
            | Ok code, Ok status => (code =? 0) && (status =? 0)
            | _, _ => false
            end
        end
    end.

Definition card_payload (card : Card) : any :=
  let template := TrimSpace card.(Card.Template) in
  let template := if bool_decide (template = "") then "blue" else template in
  AnyMap [("msg_type", AnyString "interactive");
          ("card", AnyMap
             [("config", AnyMap [("wide_screen_mode", AnyBool true)]);
              ("header", AnyMap [("template", AnyString template);
                                 ("title", AnyMap [("tag", AnyString "plain_text"); ("content", AnyString card.(Card.Title))])]);
              ("elements", AnyList [AnyMap [("tag", AnyString "div");
                  ("text", AnyMap [("tag", AnyString "lark_md"); ("content", AnyString card.(Card.Body))])]])])].

(** How one answer ends an attempt: delivered, or with the error kept. *)
Definition attempt_error (resp : result go_error HookResponse) : option go_error :=
  match resp with
  | Err e => Some e
  | Ok resp =>
      match resp.(HookResponse.Body) with
      | Err e => Some e
      | Ok body =>
          if (200 <=? resp.(HookResponse.StatusCode)) && (resp.(HookResponse.StatusCode) <? 300)
          then if feishuResponseOK body then None else Some (Errorf "feishu webhook rejected request: %s")
          else Some (Errorf "feishu webhook status %s")
      end
  end.

(** The loop from attempt number [attempt], with [more] attempts left. *)
Fixpoint send_loop (c : FeishuClient) (payload : any) (attempt : Z) (more : nat) (lastErr : option go_error)
    : nprog (option go_error) :=
  match more with
  | O => Ret lastErr
  | S more =>
      err <- trigger (NewRequest c.(FeishuClient.webhookURL)) ;;
      match err with
      | Some e => Ret (Some e)
      | None =>
          resp <- trigger (Post c.(FeishuClient.webhookURL) payload) ;;
          match attempt_error resp with
          | None => Ret None
          | Some e =>
              if attempt + 1 <? c.(FeishuClient.maxAttempts) then
                err <- trigger (Wait (i64 (c.(FeishuClient.baseDelay) * i64 (Z.shiftl 1 attempt)))) ;;
                match err with
                | Some e => Ret (Some e)
                | None => send_loop c payload (attempt + 1) more (Some e)
                end
              else send_loop c payload (attempt + 1) more (Some e)
          end
      end
  end.

(** [c] is nil where there is no client. *)
Definition SendCard (c : option FeishuClient) (card : Card) : nprog (option go_error) :=
  match c with
  | None => Ret None
  | Some c =>
      if bool_decide (c.(FeishuClient.webhookURL) = "") then Ret None
      else send_loop c (card_payload card) 0 (Z.to_nat c.(FeishuClient.maxAttempts)) None
  end.

(** ** Delivery *)

Definition post_of (c : call notifyE) : option (result go_error HookResponse) :=
  match c with
  | Call e x =>
      match e in notifyE X return X → option (result go_error HookResponse) with
      | Post _ _ => λ r, Some r | _ => λ _, None
      end x
  end.

(** The pauses between the three attempts, in nanoseconds. *)
Definition pauses : list Z := [500000000; 1000000000].

(** The value at a path of field names; a number in the path picks from a list. *)
Inductive step : Set := Field (name : string) | Item (index : nat).
Fixpoint value_at (path : list step) (v : any) : option any :=
  match path, v with
  | [], _ => Some v
  | Field name :: path, AnyMap fields =>
      match list_find (λ f, f.1 = name) fields with Some (_, (_, v)) => value_at path v | None => None end
  | Item i :: path, AnyList vs => match vs !! i with Some v => value_at path v | None => None end
  | _, _ => None
  end.

(** The card a payload shows: an interactive message with the title, the colour, which
    is blue where the card has none, and the body. *)
Definition shows (payload : any) (card : Card) : Prop :=
  value_at [Field "msg_type"] payload = Some (AnyString "interactive") ∧
  value_at [Field "card"; Field "header"; Field "title"; Field "content"] payload = Some (AnyString card.(Card.Title)) ∧
  value_at [Field "card"; Field "elements"; Item 0; Field "text"; Field "content"] payload = Some (AnyString card.(Card.Body)) ∧
  (∃ colour, value_at [Field "card"; Field "header"; Field "template"] payload = Some (AnyString colour) ∧
     (TrimSpace card.(Card.Template) = "" → colour = "blue") ∧
     (TrimSpace card.(Card.Template) ≠ "" → colour = TrimSpace card.(Card.Template))).

Lemma card_payload_shows card : shows (card_payload card) card.
Proof.
  unfold shows, card_payload. split_and!; [done..|]. eexists. split; [reflexivity|]. by case_bool_decide.
Qed.

(** What the webhook has to answer: a success status, with a body that is blank or a
    document whose two codes, where it has them, are zero. *)
Definition accepted (r : result go_error HookResponse) : Prop :=
  ∃ status body, r = Ok (HookResponse.mk status (Ok body)) ∧ 200 <= status < 300 ∧
    (TrimSpace body.(HookBody.Text) = "" ∨
     ∃ doc fields, body.(HookBody.Document) = Ok doc ∧ as_struct doc = Ok fields ∧
       as_int64 (struct_field fields "code") = Ok 0 ∧ as_int64 (struct_field fields "StatusCode") = Ok 0).

Lemma feishuResponseOK_spec body :
  feishuResponseOK body = true ↔
  TrimSpace body.(HookBody.Text) = "" ∨
  ∃ doc fields, body.(HookBody.Document) = Ok doc ∧ as_struct doc = Ok fields ∧
    as_int64 (struct_field fields "code") = Ok 0 ∧ as_int64 (struct_field fields "StatusCode") = Ok 0.
Proof.
  unfold feishuResponseOK. case_bool_decide as Hb; [by split; [left|]|]. split.
  - intros H. right. destruct body.(HookBody.Document) as [doc|]; [|done]. destruct (as_struct doc) as [fields|] eqn:E1; [|done].
    destruct (as_int64 (struct_field fields "code")) as [code|] eqn:E2; [|done].
    destruct (as_int64 (struct_field fields "StatusCode")) as [status|] eqn:E3; [|done]. zbool. subst. by exists doc, fields.
  - intros [?|(doc & fields & -> & -> & -> & ->)]; done.
Qed.

Lemma accepted_spec r : attempt_error r = None ↔ accepted r.
Proof.
  unfold attempt_error, accepted. destruct r as [[status [body|e]]|e]; cbn; [|naive_solver..]. split.
  - intros H. destruct ((200 <=? status) && (status <? 300)) eqn:Es; [|done]. zbool. destruct (feishuResponseOK body) eqn:Eb; [|done].
    exists status, body. split; [done|]. split; [lia|]. by apply feishuResponseOK_spec.
  - intros (? & ? & [= -> ->] & Hs & Hb). apply feishuResponseOK_spec in Hb as ->.
    rewrite (proj2 (Z.leb_le _ _)), (proj2 (Z.ltb_lt _ _)) by lia. done.
Qed.

(** The calls of a delivery, with the pauses that may still be made, and what it
    reports.  [Unsent]: the request cannot be built.  [Taken]: the webhook accepts the
    card.  [Spent]: it does not, and no attempt is left.  [Abandoned]: the pause before
    the next attempt is cut short.  [Again]: the pause, and the next attempt. *)
Inductive delivering (url : string) (payload : any) : list Z → list (call notifyE) → option go_error → Prop :=
| Unsent left e : delivering url payload left [Call (NewRequest url) (Some e)] (Some e)
| Taken left r :
    accepted r → delivering url payload left [Call (NewRequest url) None; Call (Post url payload) r] None
| Spent r e :
    ¬ accepted r → attempt_error r = Some e →
    delivering url payload [] [Call (NewRequest url) None; Call (Post url payload) r] (Some e)
| Abandoned d left r e :
    ¬ accepted r →
    delivering url payload (d :: left)
      [Call (NewRequest url) None; Call (Post url payload) r; Call (Wait d) (Some e)] (Some e)
| Again d left r tr err :
    ¬ accepted r → delivering url payload left tr err →
    delivering url payload (d :: left)
      (Call (NewRequest url) None :: Call (Post url payload) r :: Call (Wait d) None :: tr) err.

Lemma send_loop_delivering url payload attempt more lastErr tr err :
  0 <= attempt → attempt + Z.of_nat (S more) = 3 →
  runs (send_loop (FeishuClient.mk url 3 500000000) payload attempt (S more) lastErr) tr err →
  delivering url payload (drop (Z.to_nat attempt) pauses) tr err.
Proof.
  revert attempt lastErr tr. induction more as [|more IH]; intros attempt lastErr tr H0 Hm Hr; cbn [send_loop] in Hr;
    apply runs_bind in Hr as (t1 & e1 & t2 & -> & ->%runs_trigger & Hr);
    (destruct e1 as [e|]; [apply runs_Ret in Hr as [-> ->]; constructor|]);
    apply runs_bind in Hr as (t3 & resp & t4 & -> & ->%runs_trigger & Hr);
    (destruct (attempt_error resp) as [e|] eqn:Ee;
      [|apply runs_Ret in Hr as [-> ->]; constructor; by apply accepted_spec]);
    cbn [FeishuClient.maxAttempts FeishuClient.baseDelay] in Hr;
    assert (¬ accepted resp) as Hne by (rewrite <- accepted_spec; congruence).
  - assert (attempt = 2) as -> by lia. apply runs_Ret in Hr as [-> ->]. by constructor.
  - destruct (Z.ltb_spec (attempt + 1) 3) as [Hlt|]; [|lia].
    apply runs_bind in Hr as (t5 & e5 & t6 & -> & ->%runs_trigger & Hr). simpl.
    assert (i64 (500000000 * i64 (Z.shiftl 1 attempt)) :: drop (Z.to_nat (attempt + 1)) pauses = drop (Z.to_nat attempt) pauses) as <-.
    { assert (attempt = 0 ∨ attempt = 1) as [-> | ->] by lia; reflexivity. }
    destruct e5 as [e5|]; [apply runs_Ret in Hr as [-> ->]; by constructor|].
    constructor; [done|]. apply (IH _ (Some e)) in Hr; [done|lia|lia].
Qed.

(** Three attempts at most; success is the acceptance of the last answer. *)
Lemma delivering_outcome url payload left tr err :
  delivering url payload left tr err →
  (length (omap post_of tr) <= S (length left))%nat ∧
  (err = None ↔ ∃ failed r, omap post_of tr = failed ++ [r] ∧ Forall (λ r, ¬ accepted r) failed ∧ accepted r).
Proof.
  assert (∀ (failed : list (result go_error HookResponse)) q x, [x] = failed ++ [q] → q = x) as Hone.
  { intros [|y [|z failed]] q x E; simpl in E; congruence. }
  induction 1 as [left e|left r Hr|r e Hr He|d left r e Hr|d left r tr err Hr Hd [IH1 IH2]]; cbn [omap list_omap post_of length].
  - split; [lia|]. split; [done|]. intros ([|] & ? & [=] & _).
  - split; [lia|]. split; [|done]. intros _. by exists [], r.
  - split; [lia|]. split; [done|]. by intros (failed & q & ->%Hone & _ & ?).
  - split; [lia|]. split; [done|]. by intros (failed & q & ->%Hone & _ & ?).
  - split; [lia|]. rewrite IH2. split.
    + intros (failed & r' & -> & Hf & Ha). exists (r :: failed), r'. by repeat constructor.
    + intros ([|y failed] & r' & [= -> He] & Hf & Ha); [done|]. apply Forall_cons in Hf as [_ Hf]. by exists failed, r'.
Qed.

(** C35: how a card is delivered.  The client posts it, as an interactive message with the
    card's title, colour and body, to its trimmed address.  It stops at the first answer
    that accepts the card and reports success; after the first failure it pauses half a
    second, after the second a second, and posts again; it gives up, with the error, only
    after the third failure, when the pause is cut short, or when the request cannot be
    built.  It reports success exactly when the last answer accepted the card and all
    before it were failures: a request that failed, a body that could not be read, a
    status that is not a success, or a body that says the card was rejected. *)
Theorem card_delivered url card tr err :
  TrimSpace url ≠ "" → runs (SendCard (Some (NewFeishuClient url)) card) tr err →
  ∃ payload,
    shows payload card ∧ delivering (TrimSpace url) payload pauses tr err ∧
    (length (omap post_of tr) <= 3)%nat ∧
    (err = None ↔ ∃ failed r, omap post_of tr = failed ++ [r] ∧ Forall (λ r, ¬ accepted r) failed ∧ accepted r).
Proof.
  intros Hu Hr. unfold SendCard, NewFeishuClient in Hr. cbn [FeishuClient.webhookURL FeishuClient.maxAttempts] in Hr.
  rewrite bool_decide_eq_false_2 in Hr by done. apply (send_loop_delivering _ _ 0 2) in Hr; [|lia..].
  exists (card_payload card). destruct (delivering_outcome _ _ _ _ _ Hr). split_and!; [apply card_payload_shows|done..].
Qed.

(** ** The theorem at work *)

(** A webhook that fails once, then rejects the card, then takes it. *)
Definition sample_hook : handler notifyE nat := fun X e w =>
  match e in notifyE X return option (X * nat) with
  | NewRequest _ => Some (None, w)
  | Post _ _ =>
      Some (match w with
            | O => Err (Errorf "connection refused")
            | 1%nat => Ok (HookResponse.mk 200 (Ok (HookBody.mk "{code}" (Ok (AnyMap [("code", AnyNumber "19001")])))))
            | _ => Ok (HookResponse.mk 200 (Ok (HookBody.mk "{code}" (Ok (AnyMap [("code", AnyNumber "0")])))))
            end, S w)
  | Wait _ => Some (None, w)
  end.

Example card_delivered_witness :
  ∃ tr payload, runs (SendCard (Some (NewFeishuClient "https://open.feishu.cn/hook")) (Card.mk "t" "red" "b")) tr None ∧
    length (omap post_of tr) = 3%nat ∧ delivering "https://open.feishu.cn/hook" payload pauses tr None.
Proof.
  destruct (exec sample_hook (SendCard (Some (NewFeishuClient "https://open.feishu.cn/hook")) (Card.mk "t" "red" "b")) O)
    as [[[tr err] w]|] eqn:E; [|vm_compute in E; discriminate].
  destruct err as [e|]; [vm_compute in E; discriminate|]. assert (Hr := exec_runs _ _ _ _ _ _ E).
  destruct (card_delivered "https://open.feishu.cn/hook" (Card.mk "t" "red" "b") tr None ltac:(vm_compute; discriminate) Hr)
    as (payload & _ & Hd & _).
  exists tr, payload. split; [exact Hr|]. split; [vm_compute in E; by injection E as <- <-|exact Hd].
Defined.
