(* ===== verification/Alerts.v ===== *)
(** * Alerts (internal/monitoring/alerts.go)

    [Evaluate] compares the conditions of a check with the alerts that are open:
    it opens, repeats, escalates and closes them, and sends a card for each.  The
    engine's mutex makes an evaluation one step of the alert engine; within it the
    cards are sent one after the other, and a card that could not be sent is only
    logged. *)

From S2P Require Export GoTime Notify.

Local Open Scope string_scope.
Local Open Scope Z_scope.
Local Open Scope list_scope.
Local Open Scope prog_scope.

(** ** Data *)

Definition SeverityWarning : string := "warning".
Definition SeverityCritical : string := "critical".

Module Condition.
Record Condition : Type := mk { Key : string; Title : string; Severity : string; Message : string; Active : bool; P1 : bool }.
End Condition.
Notation Condition := Condition.Condition.

(** The zero [time.Time], the first instant of year 1. *)
Definition zero_time : Z := -62135596800 * Second.

Module alertState.
Record alertState : Set := mk {
  Active : bool; Severity : string; Title : string; Message : string; OpenedAt : Z; LastSentAt : Z; HealthyChecks : Z;
  ShadowRecorded : bool }.
Definition zero : alertState := mk false "" "" "" zero_time zero_time 0 false.
End alertState.
Notation alertState := alertState.alertState.

Module AlertEngine.
Record AlertEngine : Type := mk {
  p1Enabled : bool; reminder : Z; states : gmap string alertState; wouldFire : gmap string Z }.
End AlertEngine.
Notation AlertEngine := AlertEngine.AlertEngine.

Definition NewAlertEngine (p1Enabled : bool) : AlertEngine := AlertEngine.mk p1Enabled (30 * Minute) ∅ ∅.

(** [RangeStates] is the order in which a loop visits the keys of a map: any order. *)
Inductive alertE : Type → Type :=
| Now : alertE Z
| Send (card : Card) : alertE (option go_error)
| RangeStates (keys : gset string) : alertE (list string)
| SetActiveAlerts (warning critical : Z) : alertE unit.

Notation aprog := (prog alertE).

Section zone.
(** The zone of the machine. *)
Context (Local_ : time_zone).

(** ** One alert *)

Definition newline : string := String (of_byte 10) "".

Definition sendLocked (title severity message status : string) (now : Z) : aprog unit :=
  let template := if bool_decide (severity = SeverityCritical) then "red" else "orange" in
  let template := if bool_decide (status = "recovered") then "green" else template in
  let body := ("**级别**: `" ++ severity ++ "`" ++ newline ++ "**时间**: `" ++ RFC3339 Local_ now ++ "`" ++ newline ++ message)%string in
  _ <- trigger (Send (Card.mk title template body)) ;; Ret tt.

Definition severityRank (severity : string) : Z := if bool_decide (severity = SeverityCritical) then 2 else 1.

Definition recoverLocked (state : alertState) (now : Z) : aprog alertState :=
  let '(alertState.mk active severity title message openedAt lastSentAt healthyChecks _) := state in
  if negb active then Ret (alertState.mk active severity title message openedAt lastSentAt 0 false)
  else
    let healthyChecks := i64 (healthyChecks + 1) in
    if healthyChecks <? 2 then Ret (alertState.mk active severity title message openedAt lastSentAt healthyChecks false)
    else
      let duration := Round (Sub now openedAt) Second in
      let body := ("**状态**: 已恢复" ++ newline ++ "**持续时间**: `" ++ Duration_String duration ++ "`" ++ newline ++
                   "**原告警**: " ++ message)%string in
      sendLocked (title ++ " 已恢复")%string severity body "recovered" now ;;
      Ret (alertState.mk false severity title message openedAt now 0 false).

Definition should_send (reminder : Z) (state : alertState) (severity : string) (now : Z) : bool :=
  negb state.(alertState.Active)
  || (severityRank state.(alertState.Severity) <? severityRank severity)
  || (reminder <=? Sub now state.(alertState.LastSentAt)).

(** A condition that holds, whose alerts are not in shadow. *)
Definition raise (reminder : Z) (state : alertState) (c : Condition) (now : Z) : aprog alertState :=
  let openedAt := if negb state.(alertState.Active) then now else state.(alertState.OpenedAt) in
  let raised sent := alertState.mk true c.(Condition.Severity) c.(Condition.Title) c.(Condition.Message) openedAt sent 0 false in
  if should_send reminder state c.(Condition.Severity) now
  then sendLocked c.(Condition.Title) c.(Condition.Severity) c.(Condition.Message) "active" now ;; Ret (raised now)
  else Ret (raised state.(alertState.LastSentAt)).

Definition shadow (state : alertState) (c : Condition) : alertState :=
  let '(alertState.mk active severity _ _ openedAt lastSentAt healthyChecks _) := state in
  alertState.mk active severity c.(Condition.Title) c.(Condition.Message) openedAt lastSentAt healthyChecks true.

(** ** The evaluation *)

Definition in_shadow (e : AlertEngine) (c : Condition) : bool := c.(Condition.P1) && negb e.(AlertEngine.p1Enabled).

Definition put_state (key : string) (state : alertState) (e : AlertEngine) : AlertEngine :=
  AlertEngine.mk e.(AlertEngine.p1Enabled) e.(AlertEngine.reminder) (<[key := state]> e.(AlertEngine.states))
    e.(AlertEngine.wouldFire).
Definition fire_shadow (key : string) (e : AlertEngine) : AlertEngine :=
  AlertEngine.mk e.(AlertEngine.p1Enabled) e.(AlertEngine.reminder) e.(AlertEngine.states)
    (<[key := (default 0 (e.(AlertEngine.wouldFire) !! key) + 1) mod two64]> e.(AlertEngine.wouldFire)).

Definition evaluate_condition (now : Z) (e : AlertEngine) (c : Condition) : aprog AlertEngine :=
  let key := c.(Condition.Key) in
  if bool_decide (key = "") then Ret e
  else
    let state := default alertState.zero (e.(AlertEngine.states) !! key) in
    if negb c.(Condition.Active) then
      state <- recoverLocked state now ;; Ret (put_state key state e)
    else if in_shadow e c then
      let e := if negb state.(alertState.ShadowRecorded) then fire_shadow key e else e in
      Ret (put_state key (shadow state c) e)
    else
      state <- raise e.(AlertEngine.reminder) state c now ;; Ret (put_state key state e).

Definition recover_unseen (now : Z) (seen : gset string) (e : AlertEngine) (key : string) : aprog AlertEngine :=
  if bool_decide (key ∈ seen) then Ret e
  else
    match e.(AlertEngine.states) !! key with
    | None => Ret e
    | Some state => state <- recoverLocked state now ;; Ret (put_state key state e)
    end.

Definition is_active (severe : bool) (s : alertState) : bool :=
  s.(alertState.Active) && Bool.eqb severe (bool_decide (s.(alertState.Severity) = SeverityCritical)).
Definition active_count (severe : bool) (e : AlertEngine) : Z :=
  Z.of_nat (length (List.filter (is_active severe) (snd <$> map_to_list e.(AlertEngine.states)))).
Definition updateMetricsLocked (e : AlertEngine) : aprog unit :=
  trigger (SetActiveAlerts (active_count false e) (active_count true e)).

Definition seen_keys (conditions : list Condition) : gset string :=
  list_to_set (filter (λ key, key ≠ "") (Condition.Key <$> conditions)).

Definition Evaluate (conditions : list Condition) (e : AlertEngine) : aprog AlertEngine :=
  now <- trigger Now ;;
  e <- pfold (evaluate_condition now) e conditions ;;
  order <- trigger (RangeStates (dom e.(AlertEngine.states))) ;;
  e <- pfold (recover_unseen now (seen_keys conditions)) e order ;;
  _ <- updateMetricsLocked e ;; Ret e.
End zone.

(** ** Reports *)

Definition Active (e : AlertEngine) : Z * Z * list string :=
  let open := List.filter (fun p => (snd p).(alertState.Active)) (map_to_list e.(AlertEngine.states)) in
  (active_count false e, active_count true e,
   sort_strings ((λ '(key, state), ("- `" ++ key ++ "` " ++ state.(alertState.Message))%string) <$> open)).
Definition WouldFire (e : AlertEngine) : gmap string Z := e.(AlertEngine.wouldFire).
Definition SendDaily (body : string) : aprog (option go_error) :=
  trigger (Send (Card.mk "行情系统每日健康摘要" "blue" (TrimSpace body))).
Definition SendMarketQuality (body : string) : aprog (option go_error) :=
  trigger (Send (Card.mk "行情接入与质量报告" "blue" (TrimSpace body))).
