(* ===== verification/AlertsSpec.v ===== *)
(** * What an evaluation does to every alert

    The specification follows one key: whether an incident is open, when it was
    last told, whether the last check was healthy.  The evaluation of a list of
    conditions takes each key through its own steps, whatever the other keys and
    whatever the order in which Go visits its map. *)

From S2P Require Export Alerts.

Local Open Scope string_scope.
Local Open Scope Z_scope.
Local Open Scope list_scope.
Local Open Scope prog_scope.

(** ** The specification of one key *)

Module incident.
Record incident : Type := mk {
  severity : string; title : string; message : string; since : Z; told : Z;
  calm : bool (* the last check was healthy *) }.
End incident.
Notation incident := incident.incident.

(** [fired] counts the episodes in shadow. *)
Module phase.
Record phase : Type := mk { open : option incident; shadowed : bool; fired : Z }.
End phase.
Notation phase := phase.phase.

Inductive signal : Type :=
| Healthy
| Shadowed (title message : string)
| Firing (severity title message : string).

Inductive notice : Type :=
| Told (severity title message : string) (* opened, escalated or repeated *)
| Recovered (i : incident).

Definition worse (old new : string) : bool := bool_decide (old ≠ SeverityCritical) && bool_decide (new = SeverityCritical).

Definition phase_step (reminder now : Z) (p : phase) (s : signal) : phase * list notice :=
  match s, p.(phase.open) with
  | Healthy, None => (phase.mk None false p.(phase.fired), [])
  | Healthy, Some i =>
      if i.(incident.calm) then (phase.mk None false p.(phase.fired), [Recovered i])
      else (phase.mk (Some (incident.mk i.(incident.severity) i.(incident.title) i.(incident.message) i.(incident.since)
                              i.(incident.told) true)) false p.(phase.fired), [])
  | Shadowed title message, open =>
      let fired := if p.(phase.shadowed) then p.(phase.fired) else p.(phase.fired) + 1 in
      (phase.mk ((λ i, incident.mk i.(incident.severity) title message i.(incident.since) i.(incident.told) i.(incident.calm)) <$> open)
         true fired, [])
  | Firing severity title message, None =>
      (phase.mk (Some (incident.mk severity title message now now false)) false p.(phase.fired), [Told severity title message])
  | Firing severity title message, Some i =>
      if worse i.(incident.severity) severity || (reminder <=? Sub now i.(incident.told))
      then (phase.mk (Some (incident.mk severity title message i.(incident.since) now false)) false p.(phase.fired),
            [Told severity title message])
      else (phase.mk (Some (incident.mk severity title message i.(incident.since) i.(incident.told) false)) false p.(phase.fired), [])
  end.

Fixpoint phase_steps (reminder now : Z) (p : phase) (l : list signal) : phase * list notice :=
  match l with
  | [] => (p, [])
  | s :: rest =>
      let '(p, n) := phase_step reminder now p s in
      let '(p, n') := phase_steps reminder now p rest in (p, n ++ n')
  end.

Lemma phase_steps_snoc reminder now p l s :
  phase_steps reminder now p (l ++ [s]) =
  let '(p1, n1) := phase_steps reminder now p l in
  let '(p2, n2) := phase_step reminder now p1 s in (p2, n1 ++ n2).
Proof.
  revert p. induction l as [|x l IH]; intros p; simpl.
  - destruct (phase_step reminder now p s). by rewrite app_nil_r.
  - destruct (phase_step reminder now p x) as [p1 n1]. rewrite IH. destruct (phase_steps reminder now p1 l) as [p2 n2].
    destruct (phase_step reminder now p2 s). by rewrite app_assoc.
Qed.

(** The signals a check gives a key: a key that no condition names is healthy. *)
Definition signal_of (e : AlertEngine) (c : Condition) : signal :=
  if negb c.(Condition.Active) then Healthy
  else if in_shadow e c then Shadowed c.(Condition.Title) c.(Condition.Message)
  else Firing c.(Condition.Severity) c.(Condition.Title) c.(Condition.Message).
Definition named (key : string) (conditions : list Condition) : list Condition :=
  filter (λ c, c.(Condition.Key) = key ∧ key ≠ "") conditions.
Definition signals (e : AlertEngine) (conditions : list Condition) (key : string) : list signal :=
  match named key conditions with [] => [Healthy] | l => signal_of e <$> l end.

(** ** The states that implement a phase *)

Definition state_is (s : alertState) (p : phase) : Prop :=
  s.(alertState.ShadowRecorded) = p.(phase.shadowed) ∧
  match p.(phase.open) with
  | None => s.(alertState.Active) = false ∧ s.(alertState.HealthyChecks) = 0
  | Some i =>
      s.(alertState.Active) = true ∧ s.(alertState.Severity) = i.(incident.severity) ∧ s.(alertState.Title) = i.(incident.title) ∧
      s.(alertState.Message) = i.(incident.message) ∧ s.(alertState.OpenedAt) = i.(incident.since) ∧
      s.(alertState.LastSentAt) = i.(incident.told) ∧ s.(alertState.HealthyChecks) = if i.(incident.calm) then 1 else 0
  end.
Definition implements (e : AlertEngine) (key : string) (p : phase) : Prop :=
  state_is (default alertState.zero (e.(AlertEngine.states) !! key)) p ∧
  default 0 (e.(AlertEngine.wouldFire) !! key) = p.(phase.fired) mod two64.

(** The card of a notice. *)
Definition card_text (zone : time_zone) (severity : string) (now : Z) (message : string) : string :=
  ("**级别**: `" ++ severity ++ "`" ++ newline ++ "**时间**: `" ++ RFC3339 zone now ++ "`" ++ newline ++ message)%string.
Definition notice_card (zone : time_zone) (now : Z) (n : notice) : Card :=
  match n with
  | Told severity title message =>
      Card.mk title (if bool_decide (severity = SeverityCritical) then "red" else "orange") (card_text zone severity now message)
  | Recovered i =>
      Card.mk (i.(incident.title) ++ " 已恢复")%string "green"
        (card_text zone i.(incident.severity) now
           ("**状态**: 已恢复" ++ newline ++ "**持续时间**: `" ++ Duration_String (Round (Sub now i.(incident.since)) Second) ++ "`" ++
            newline ++ "**原告警**: " ++ i.(incident.message))%string)
  end.

Definition card_of (c : call alertE) : option Card := match c with Call e _ => match e with Send card => Some card | _ => None end end.

Lemma sendLocked_run zone title severity message status now tr u :
  runs (sendLocked zone title severity message status now) tr u →
  omap card_of tr = [Card.mk title (if bool_decide (status = "recovered") then "green"
                                   else if bool_decide (severity = SeverityCritical) then "red" else "orange")
                       (card_text zone severity now message)].
Proof. intros Hr. unfold sendLocked in Hr. by apply runs_bind in Hr as (t1 & x & t2 & -> & ->%runs_trigger & [-> _]%runs_Ret). Qed.

Lemma recover_sim zone s p reminder now tr s' :
  state_is s p → runs (recoverLocked zone s now) tr s' →
  state_is s' (phase_step reminder now p Healthy).1 ∧
  omap card_of tr = notice_card zone now <$> (phase_step reminder now p Healthy).2.
Proof.
  intros [Hsh Hs] Hr. destruct s as [active severity title message openedAt lastSentAt healthy sh], p as [[i|] shadowed fired];
    cbn in Hs, Hsh |- *; unfold recoverLocked in Hr.
  - destruct Hs as (-> & -> & -> & -> & -> & -> & ->). destruct (incident.calm i); cbn [negb] in Hr.
    + change (i64 (1 + 1) <? 2) with false in Hr. cbn [negb] in Hr.
      apply runs_bind in Hr as (t1 & u & t2 & -> & Hs%sendLocked_run & [-> ->]%runs_Ret).
      rewrite app_nil_r, Hs. done.
    + change (i64 (0 + 1) <? 2) with true in Hr. apply runs_Ret in Hr as [-> ->]. done.
  - destruct Hs as [-> ->]. apply runs_Ret in Hr as [-> ->]. done.
Qed.

Lemma raise_sim zone s p reminder c now tr s' :
  state_is s p → runs (raise zone reminder s c now) tr s' →
  let sig := Firing c.(Condition.Severity) c.(Condition.Title) c.(Condition.Message) in
  state_is s' (phase_step reminder now p sig).1 ∧
  omap card_of tr = notice_card zone now <$> (phase_step reminder now p sig).2.
Proof.
  intros [Hsh Hs] Hr sig. unfold raise, should_send in Hr.
  assert (severityRank s.(alertState.Severity) <? severityRank c.(Condition.Severity) = worse s.(alertState.Severity) c.(Condition.Severity)) as Ew.
  { unfold severityRank, worse. repeat case_bool_decide; done. }
  rewrite Ew in Hr. clear Ew. destruct s as [active severity title message openedAt lastSentAt healthy sh], p as [[i|] shadowed fired];
    cbn [alertState.Active alertState.Severity alertState.LastSentAt alertState.OpenedAt alertState.ShadowRecorded
         alertState.Title alertState.Message alertState.HealthyChecks phase.open phase.shadowed] in Hs, Hsh, Hr; cbn [phase_step sig phase.open].
  - destruct Hs as (-> & -> & -> & -> & -> & -> & ->). cbn [negb orb] in Hr. destruct (worse _ _ || _) eqn:Es.
    + apply runs_bind in Hr as (t1 & u & t2 & -> & Hs%sendLocked_run & [-> ->]%runs_Ret). rewrite app_nil_r, Hs. done.
    + apply runs_Ret in Hr as [-> ->]. done.
  - destruct Hs as [-> ->]. cbn [negb orb] in Hr.
    apply runs_bind in Hr as (t1 & u & t2 & -> & Hs%sendLocked_run & [-> ->]%runs_Ret). rewrite app_nil_r, Hs. done.
Qed.

(** ** The two loops *)

Definition same_config (e e' : AlertEngine) : Prop :=
  e'.(AlertEngine.p1Enabled) = e.(AlertEngine.p1Enabled) ∧ e'.(AlertEngine.reminder) = e.(AlertEngine.reminder).

(** The cards of [tr], each with its key, are for every key those of the notices [n key]. *)
Definition told_by_key (zone : time_zone) (now : Z) (tr : list (call alertE)) (n : string → list notice) : Prop :=
  ∃ tagged : list (string * Card), snd <$> tagged = omap card_of tr ∧
    ∀ key, snd <$> filter (λ t, t.1 = key) tagged = notice_card zone now <$> n key.

(** Between [e] and [e'] the keys went from [p] through the signals [l]. *)
Definition keys_step (zone : time_zone) (now : Z) (e : AlertEngine) (p : string → phase) (l : string → list signal)
    (tr : list (call alertE)) (e' : AlertEngine) : Prop :=
  same_config e e' ∧
  (∀ key, implements e' key (phase_steps e.(AlertEngine.reminder) now (p key) (l key)).1) ∧
  told_by_key zone now tr (λ key, (phase_steps e.(AlertEngine.reminder) now (p key) (l key)).2).

Lemma implements_put_ne key key' s e p : key ≠ key' → implements (put_state key s e) key' p ↔ implements e key' p.
Proof. intros Hne. unfold implements. cbn. by rewrite lookup_insert_ne. Qed.
Lemma implements_put key s e p :
  state_is s p → default 0 (e.(AlertEngine.wouldFire) !! key) = p.(phase.fired) mod two64 → implements (put_state key s e) key p.
Proof. intros Hs Hw. unfold implements. cbn. by rewrite lookup_insert_eq. Qed.

Lemma tagged_own (key : string) (l : list Card) : snd <$> filter (λ t : string * Card, t.1 = key) ((λ c, (key, c)) <$> l) = l.
Proof. induction l as [|c l IH]; [done|]. rewrite fmap_cons, filter_cons, decide_True by done. rewrite fmap_cons. by f_equal. Qed.
Lemma tagged_other (key k : string) (l : list Card) :
  k ≠ key → filter (λ t : string * Card, t.1 = k) ((λ c, (key, c)) <$> l) = [].
Proof. intros Hk. induction l as [|c l IH]; [done|]. rewrite fmap_cons, filter_cons, decide_False by (simpl; congruence). exact IH. Qed.

(** One signal of one key. *)
Lemma keys_step_one zone now e p l tr e1 key sig tr2 e2 :
  keys_step zone now e p l tr e1 → same_config e1 e2 →
  (∀ key', key' ≠ key → ∀ q, implements e1 key' q → implements e2 key' q) →
  (let q := phase_step e.(AlertEngine.reminder) now (phase_steps e.(AlertEngine.reminder) now (p key) (l key)).1 sig in
   implements e2 key q.1 ∧ omap card_of tr2 = notice_card zone now <$> q.2) →
  keys_step zone now e p (λ k, if decide (k = key) then l k ++ [sig] else l k) (tr ++ tr2) e2.
Proof.
  intros ([Hc1 Hc2] & Hi & tagged & Ht & Hk) [Hc3 Hc4] Ho [Hq Hn]. split; [by split; congruence|]. split.
  - intros k. case_decide as Ek.
    + subst k. rewrite phase_steps_snoc. specialize (Hi key). destruct (phase_steps _ _ _ _) as [p1 n1]. cbn in Hq.
      by destruct (phase_step _ _ _ _).
    + by apply Ho.
  - exists (tagged ++ ((λ c, (key, c)) <$> omap card_of tr2)). split.
    + rewrite fmap_app, omap_app, Ht, <- list_fmap_compose. f_equal. by apply list_fmap_id.
    + intros k. rewrite filter_app, fmap_app, Hk. case_decide as Ek.
      * subst k. rewrite phase_steps_snoc. destruct (phase_steps _ _ _ _) as [p1 n1]. cbn in Hn.
        destruct (phase_step _ _ _ _) as [p2 n2]. cbn. rewrite fmap_app. f_equal. by rewrite tagged_own.
      * by rewrite tagged_other, app_nil_r.
Qed.

Lemma keys_step_skip zone now e p l tr e1 l' tr2 :
  keys_step zone now e p l tr e1 → (∀ k, l' k = l k) → omap card_of tr2 = [] → keys_step zone now e p l' (tr ++ tr2) e1.
Proof.
  intros (Hc & Hi & tagged & Ht & Hk) El Hn. split; [done|]. split; [intros k; by rewrite El|].
  exists tagged. split; [by rewrite omap_app, Hn, app_nil_r|]. intros k. by rewrite El.
Qed.

Lemma keys_step_ext zone now e p l l' tr e1 : (∀ k, l' k = l k) → keys_step zone now e p l tr e1 → keys_step zone now e p l' tr e1.
Proof. intros El H. rewrite <- (app_nil_r tr). by eapply keys_step_skip. Qed.

Lemma same_signal e e' c : same_config e e' → signal_of e' c = signal_of e c.
Proof. intros [H _]. unfold signal_of, in_shadow. by rewrite H. Qed.

Lemma condition_sim zone now e p l tr e1 c tr2 e2 :
  c.(Condition.Key) ≠ "" → keys_step zone now e p l tr e1 → runs (evaluate_condition zone now e1 c) tr2 e2 →
  keys_step zone now e p (λ k, if decide (k = c.(Condition.Key)) then l k ++ [signal_of e c] else l k) (tr ++ tr2) e2.
Proof.
  intros Hne Hks Hr. destruct Hks as (Hcfg & Hi & Ht). pose proof (Hi c.(Condition.Key)) as [Hs Hw].
  unfold evaluate_condition in Hr. rewrite bool_decide_eq_false_2 in Hr by done. rewrite <- (same_signal e e1 c Hcfg).
  destruct Hcfg as [Hc1 Hc2]. unfold signal_of.
  destruct (negb c.(Condition.Active)).
  - apply runs_bind in Hr as (t1 & s & t2 & -> & Hrec & [-> ->]%runs_Ret). rewrite app_nil_r.
    destruct (recover_sim _ _ _ e.(AlertEngine.reminder) _ _ _ Hs Hrec) as [Hs' Hn].
    eapply keys_step_one; [by split_and!|done|intros k Hk q; by apply implements_put_ne|].
    split; [|done]. apply implements_put; [done|]. rewrite Hw.
    destruct (phase_steps _ _ _ _) as [[[[? ? ? ? ? []]|] ? ?] ?]; done.
  - destruct (in_shadow e1 c).
    + apply runs_Ret in Hr as [-> ->]. set (q := (phase_steps _ _ _ _).1) in *.
      eapply keys_step_one; [by split_and!| | |].
      * by destruct (negb _).
      * intros k Hk q' H'. apply implements_put_ne; [done|]. destruct (negb _); [|done].
        unfold implements, fire_shadow in *. cbn. by rewrite lookup_insert_ne.
      * fold q. split; [|done]. cbn [fst phase_step].
        destruct Hs as [Hsh Hs], (default alertState.zero _) as [active severity title message openedAt lastSentAt healthy sh], q as [open shadowed fired].
        cbn in Hsh, Hs, Hw |- *. subst sh. destruct shadowed; cbn [negb]; apply implements_put; cbn; try done.
        -- split; [done|]. destruct open as [i|]; cbn; naive_solver.
        -- split; [done|]. destruct open as [i|]; cbn; naive_solver.
        -- rewrite lookup_insert_eq. cbn. rewrite Hw. by rewrite Zplus_mod_idemp_l.
    + apply runs_bind in Hr as (t1 & s & t2 & -> & Hrs & [-> ->]%runs_Ret). rewrite app_nil_r, Hc2 in *.
      destruct (raise_sim _ _ _ _ _ _ _ _ Hs Hrs) as [Hs' Hn].
      eapply keys_step_one; [by split_and!|done|intros k Hk q; by apply implements_put_ne|].
      split; [|done]. apply implements_put; [done|]. rewrite Hw. cbn [phase_step].
      destruct (phase.open _); [destruct (_ || _)|]; done.
Qed.

(** The first loop. *)
Lemma conditions_sim zone now e p conditions tr e1 :
  (∀ key, implements e key (p key)) → runs (pfold (evaluate_condition zone now) e conditions) tr e1 →
  keys_step zone now e p (λ key, signal_of e <$> named key conditions) tr e1.
Proof.
  intros Hi Hr. apply (runs_pfold _ _ _ _ _ (λ done tr e1, keys_step zone now e p (λ key, signal_of e <$> named key done) tr e1)) in Hr;
    [done| |].
  - split; [done|]. split; [intros key; apply Hi|]. by exists [].
  - intros done c rest tr1 e2 tr2 e3 _ Hks Hc. destruct (decide (c.(Condition.Key) = "")) as [Ek|Ek].
    + unfold evaluate_condition in Hc. rewrite bool_decide_eq_true_2 in Hc by done. apply runs_Ret in Hc as [-> ->].
      eapply keys_step_skip; [exact Hks| |done]. intros k. unfold named. rewrite filter_app, filter_cons, decide_False by naive_solver.
      by rewrite filter_nil, app_nil_r.
    + eapply keys_step_ext; [|by eapply condition_sim]. intros k. cbn beta. unfold named. rewrite filter_app, filter_cons, filter_nil.
      destruct (decide (k = c.(Condition.Key))) as [->|Hk].
      * rewrite decide_True by done. by rewrite fmap_app.
      * rewrite decide_False by (intros [? _]; congruence). by rewrite app_nil_r.
Qed.

(** The second loop; the keys it visits are those of the map. *)
Lemma unseen_sim zone now e p l seen order tr1 e1 tr e2 :
  keys_step zone now e p l tr1 e1 → NoDup order → (∀ key, key ∈ order → key ∈ dom e1.(AlertEngine.states)) →
  runs (pfold (recover_unseen zone now seen) e1 order) tr e2 →
  keys_step zone now e p (λ key, if decide (key ∈ order ∧ key ∉ seen) then l key ++ [Healthy] else l key) (tr1 ++ tr) e2.
Proof.
  intros Hks Hnd Hdom Hr.
  apply (runs_pfold _ _ _ _ _ (λ done tr e2, dom e2.(AlertEngine.states) = dom e1.(AlertEngine.states) ∧
    keys_step zone now e p (λ key, if decide (key ∈ done ∧ key ∉ seen) then l key ++ [Healthy] else l key) (tr1 ++ tr) e2)) in Hr as [_ Hr];
    [done| |].
  - split; [done|]. eapply keys_step_skip; [exact Hks| |done]. intros k. cbn beta. rewrite decide_False; [done|]. set_solver.
  - intros done key rest tr2 e3 tr3 e4 El [Hd Hk] Hc. subst order. apply NoDup_app in Hnd as (_ & Hnd & _).
    assert (key ∉ done) as Hnin by (intros Hin; by apply (Hnd key Hin); left).
    unfold recover_unseen in Hc. case_bool_decide as Es.
    + apply runs_Ret in Hc as [-> ->]. split; [done|]. rewrite app_nil_r.
      eapply keys_step_ext; [|exact Hk]. intros k. cbn beta. repeat case_decide; set_solver.
    + assert (key ∈ dom e3.(AlertEngine.states)) as Hin by (rewrite Hd; apply Hdom; set_solver).
      apply elem_of_dom in Hin as [s Hs]. rewrite Hs in Hc.
      apply runs_bind in Hc as (t1 & s' & t2 & -> & Hrec & [-> ->]%runs_Ret). rewrite app_nil_r.
      split; [cbn; rewrite dom_insert_L; rewrite <- Hd; apply elem_of_dom_2 in Hs; set_solver|].
      rewrite (app_assoc tr1). pose proof Hk as (Hcfg & Hi & _). specialize (Hi key).
      rewrite decide_False in Hi by naive_solver. destruct Hi as [Hst Hw]. rewrite Hs in Hst. cbn in Hst.
      destruct (recover_sim _ _ _ e.(AlertEngine.reminder) _ _ _ Hst Hrec) as [Hs' Hn].
      eapply keys_step_ext; [|eapply (keys_step_one _ _ _ _ _ _ _ key Healthy); [exact Hk|done|intros k Hkk q; by apply implements_put_ne|]].
      * intros k. cbn beta. repeat case_decide; set_solver.
      * cbv zeta beta. rewrite decide_False by naive_solver. split; [|done]. apply implements_put; [done|]. rewrite Hw.
        destruct (phase_steps _ _ _ _) as [[[[? ? ? ? ? []]|] ? ?] ?]; done.
Qed.

(** ** The evaluation *)

(** A round of the map visits its keys, each once. *)
Definition visits (c : call alertE) : Prop :=
  match c with
  | Call e x => match e in alertE X return X → Prop with RangeStates keys => λ order, order ≡ₚ elements keys | _ => λ _, True end x
  end.
Definition gauges_of (c : call alertE) : option (Z * Z) :=
  match c with Call e _ => match e with SetActiveAlerts w c => Some (w, c) | _ => None end end.

Definition open_with (severe : bool) (p : phase) : Prop :=
  ∃ i, p.(phase.open) = Some i ∧ (i.(incident.severity) = SeverityCritical ↔ severe = true).

Lemma is_active_open severe s p : state_is s p → is_active severe s = true ↔ open_with severe p.
Proof.
  intros [_ Hs]. unfold is_active, open_with. destruct (phase.open p) as [i|].
  - destruct Hs as (-> & -> & _). cbn. case_bool_decide; destruct severe; cbn; split; try done; naive_solver.
  - destruct Hs as [-> _]. naive_solver.
Qed.

Lemma NoDup_filtered {A B} (f : A * B → bool) l : NoDup (fst <$> l) → NoDup (fst <$> List.filter f l).
Proof.
  induction l as [|[k v] l IH]; [done|]. intros [Hn Hnd]%NoDup_cons. cbn. destruct (f (k, v)); [|by apply IH].
  cbn. apply NoDup_cons. split; [|by apply IH]. intros (x & E & Hx)%list_elem_of_fmap. apply Hn, list_elem_of_fmap.
  exists x. split; [done|]. apply list_elem_of_In. apply list_elem_of_In, List.filter_In in Hx. tauto.
Qed.

Lemma active_count_keys severe e p :
  (∀ key, implements e key (p key)) →
  ∃ keys, NoDup keys ∧ active_count severe e = Z.of_nat (length keys) ∧ ∀ key, key ∈ keys ↔ open_with severe (p key).
Proof.
  intros Hi. set (l := map_to_list e.(AlertEngine.states)).
  exists (fst <$> List.filter (λ kv, is_active severe kv.2) l). split_and!.
  - apply NoDup_filtered, NoDup_fst_map_to_list.
  - unfold active_count. fold l. clear. induction l as [|[k s] l IH]; [done|]. cbn. destruct (is_active severe s); cbn in *; lia.
  - intros key. rewrite list_elem_of_fmap. destruct (Hi key) as [Hs _]. rewrite <- (is_active_open _ _ _ Hs). split.
    + intros ([k s] & -> & Hin%list_elem_of_In). apply List.filter_In in Hin as [Hin%list_elem_of_In%elem_of_map_to_list Ha].
      cbn in *. by rewrite Hin.
    + destruct (e.(AlertEngine.states) !! key) as [s|] eqn:E; [|done]. cbn. intros Ha. exists (key, s). split; [done|].
      apply list_elem_of_In, List.filter_In. split; [|done]. by apply list_elem_of_In, elem_of_map_to_list.
Qed.

(** The loops set no gauge. *)
Definition no_gauges (tr : list (call alertE)) : Prop := omap gauges_of tr = [].
#[local] Instance no_gauges_trace : TraceProp no_gauges.
Proof. split; [done|]. unfold no_gauges. intros tr1 tr2 H1 H2. by rewrite omap_app, H1, H2. Qed.
Lemma send_no_gauges card : each no_gauges (trigger (Send card)).
Proof. by apply each_trigger. Qed.
#[local] Hint Resolve send_no_gauges : each.
Lemma recover_no_gauges zone s now : each no_gauges (recoverLocked zone s now).
Proof. unfold recoverLocked, sendLocked. destruct s. each_auto. Qed.
#[local] Hint Resolve recover_no_gauges : each.
Lemma conditions_no_gauges zone now e l : each no_gauges (pfold (evaluate_condition zone now) e l).
Proof. unfold evaluate_condition, raise, sendLocked. each_auto. Qed.
Lemma unseen_no_gauges zone now seen e l : each no_gauges (pfold (recover_unseen zone now seen) e l).
Proof. unfold recover_unseen. each_auto. Qed.

Lemma elem_of_seen_keys key conditions : key ∈ seen_keys conditions ↔ named key conditions ≠ [].
Proof.
  unfold seen_keys, named. rewrite elem_of_list_to_set, list_elem_of_filter, list_elem_of_fmap. split.
  - intros (Hne & c & -> & Hc) E. assert (c ∈ filter (λ c', c'.(Condition.Key) = c.(Condition.Key) ∧ c.(Condition.Key) ≠ "") conditions) as Hin
      by (by apply list_elem_of_filter). rewrite E in Hin. by apply elem_of_nil in Hin.
  - intros Hne. destruct (filter _ conditions) as [|c l] eqn:E; [done|].
    assert (c ∈ c :: l) as Hc by (by left). rewrite <- E in Hc. apply list_elem_of_filter in Hc as [[Hk ?] Hc].
    split; [done|]. by exists c.
Qed.

(** A healthy check of a key without a state changes nothing. *)
Lemma healthy_without_state reminder now e key p :
  implements e key p → e.(AlertEngine.states) !! key = None → phase_steps reminder now p [Healthy] = (p, []).
Proof.
  intros [[Hsh Hs] _] E. rewrite E in Hsh, Hs. destruct p as [[i|] shadowed fired]; cbn in *; [by destruct Hs|]. by subst.
Qed.

Lemma told_by_key_ext zone now tr tr' n n' :
  omap card_of tr' = omap card_of tr → (∀ key, n' key = n key) → told_by_key zone now tr n → told_by_key zone now tr' n'.
Proof. intros Et En (tagged & Ht & Hk). exists tagged. split; [congruence|]. intros key. by rewrite En. Qed.

(** An evaluation as one step of every key. *)
Lemma Evaluate_steps zone conditions e p tr e' :
  (∀ key, implements e key (p key)) → Forall visits tr → runs (Evaluate zone conditions e) tr e' →
  ∃ now t1 range t2, tr = Call Now now :: t1 ++ range :: t2 ++ [Call (SetActiveAlerts (active_count false e') (active_count true e')) tt] ∧
    keys_step zone now e p (signals e conditions) (t1 ++ t2) e' ∧ card_of range = None ∧ gauges_of range = None ∧
    no_gauges t1 ∧ no_gauges t2.
Proof.
  intros Hi Hv Hr. unfold Evaluate in Hr.
  apply runs_bind in Hr as (t1 & now & t2 & -> & ->%runs_trigger & Hr).
  apply runs_bind in Hr as (t3 & e1 & t4 & -> & H1 & Hr). apply (conditions_sim _ _ _ _ _ _ _ Hi) in H1 as Hk1.
  apply runs_bind in Hr as (t5 & order & t6 & -> & ->%runs_trigger & Hr).
  apply runs_bind in Hr as (t7 & e2 & t8 & -> & H2 & Hr).
  apply runs_bind in Hr as (t9 & u & t10 & -> & Hm & [-> ->]%runs_Ret). unfold updateMetricsLocked in Hm. apply runs_trigger in Hm as ->.
  assert (order ≡ₚ elements (dom e1.(AlertEngine.states))) as Ho.
  { do 2 apply Forall_app in Hv as [_ Hv]. by apply Forall_app in Hv as [[Hv _]%Forall_cons _]. }
  assert (NoDup order ∧ ∀ key, key ∈ order ↔ key ∈ dom e1.(AlertEngine.states)) as [Hnd Hin].
  { rewrite Ho. split; [apply NoDup_elements|]. intros key. by rewrite Ho, elem_of_elements. }
  apply (unseen_sim _ _ _ _ _ (seen_keys conditions) order _ _ _ _ Hk1 Hnd ltac:(intros; by apply Hin)) in H2 as Hk2.
  assert (∀ key, phase_steps e.(AlertEngine.reminder) now (p key)
     (if decide (key ∈ order ∧ key ∉ seen_keys conditions) then (signal_of e <$> named key conditions) ++ [Healthy]
      else signal_of e <$> named key conditions) =
     phase_steps e.(AlertEngine.reminder) now (p key) (signals e conditions key)) as Hsig.
  { intros key. unfold signals. pose proof (elem_of_seen_keys key conditions) as Hseen.
    destruct (named key conditions) as [|c l] eqn:En; [|rewrite decide_False by naive_solver; done].
    case_decide as Ho'; [done|]. destruct Hk1 as (_ & Hk1 & _). specialize (Hk1 key). rewrite En in Hk1. cbn in Hk1.
    rewrite (healthy_without_state _ _ e1 key); [done|done|]. apply not_elem_of_dom. rewrite <- Hin. naive_solver. }
  exists now, t3, (Call (RangeStates (dom e1.(AlertEngine.states))) order), t7. destruct u. split_and!; [done| |done|done| |].
  - destruct Hk2 as (Hcfg & Himp & Htold). split; [done|]. split; [intros key; rewrite <- Hsig; apply Himp|].
    eapply told_by_key_ext; [done| |exact Htold]. intros key. cbn beta. by rewrite Hsig.
  - by eapply conditions_no_gauges.
  - by eapply unseen_no_gauges.
Qed.

(** C13: an evaluation takes every alert through its own steps.  Let the engine
    implement, for every key, a phase of the specification: no incident, or an
    open one with when it began, when it was last told and whether the last check
    was healthy.  After an evaluation at the clock's [now] it implements the phase
    that the key's own conditions lead to, in their order; a key that no condition
    names was healthy.  The cards sent are those of the notices of the keys, each
    key's in order: a first or worse or half-hour-old incident is told, and an
    incident ends, with its length, at the second healthy check in a row.  No key
    affects another, and the order in which Go visits the map does not matter.
    At the end the two gauges hold the numbers of keys with an open warning and
    with an open critical incident. *)
Theorem evaluation_refines zone conditions e p tr e' :
  (∀ key, implements e key (p key)) → Forall visits tr → runs (Evaluate zone conditions e) tr e' →
  ∃ now, Call Now now ∈ tr ∧
    let after key := phase_steps e.(AlertEngine.reminder) now (p key) (signals e conditions key) in
    same_config e e' ∧ (∀ key, implements e' key (after key).1) ∧
    told_by_key zone now tr (λ key, (after key).2) ∧
    ∃ warning critical, omap gauges_of tr = [(Z.of_nat (length warning), Z.of_nat (length critical))] ∧
      NoDup warning ∧ NoDup critical ∧ (∀ key, key ∈ warning ↔ open_with false (after key).1) ∧
      (∀ key, key ∈ critical ↔ open_with true (after key).1).
Proof.
  intros Hi Hv Hr. destruct (Evaluate_steps _ _ _ _ _ _ Hi Hv Hr) as (now & t1 & range & t2 & -> & (Hc & Himp & Htold) & Hr1 & Hr2 & Hg1 & Hg2).
  exists now. split; [by left|]. split; [done|]. split; [done|]. split.
  { eapply told_by_key_ext; [|done|exact Htold]. cbn [omap list_omap card_of]. rewrite !omap_app. cbn [omap list_omap]. rewrite Hr1, omap_app.
    by rewrite app_nil_r. }
  destruct (active_count_keys false e' _ Himp) as (warning & Hw1 & Hw2 & Hw3).
  destruct (active_count_keys true e' _ Himp) as (critical & Hc1 & Hc2 & Hc3).
  exists warning, critical. split_and!; [|done..]. rewrite <- Hw2, <- Hc2. cbn [omap list_omap gauges_of].
  rewrite !omap_app, Hg1. cbn [omap list_omap]. by rewrite Hr2, omap_app, Hg2.
Qed.

(** ** The theorem at work *)

Definition sample_engine : AlertEngine :=
  AlertEngine.mk true (30 * Minute)
    {["collector" := alertState.mk true "warning" "Collector" "stale" 0 0 1 false;
      "mysql" := alertState.mk true "critical" "MySQL" "down" 0 0 0 false]} ∅.
Definition sample_phase (key : string) : phase :=
  if decide (key = "collector") then phase.mk (Some (incident.mk "warning" "Collector" "stale" 0 0 true)) false 0
  else if decide (key = "mysql") then phase.mk (Some (incident.mk "critical" "MySQL" "down" 0 0 false)) false 0
  else phase.mk None false 0.
Definition sample_conditions : list Condition :=
  [Condition.mk "mysql" "MySQL" "critical" "down" true false; Condition.mk "http" "HTTP" "warning" "slow" true true].

(** Half an hour after both alerts were told; the webhook is down. *)
Definition sample_clock : handler alertE unit := fun X e w =>
  match e in alertE X return option (X * unit) with
  | Now => Some (30 * Minute, w)
  | Send _ => Some (Some (Errorf "feishu webhook status %s"), w)
  | RangeStates keys => Some (elements keys, w)
  | SetActiveAlerts _ _ => Some (tt, w)
  end.

Lemma sample_implements key : implements sample_engine key (sample_phase key).
Proof.
  unfold sample_phase. case_decide as E1; [subst; repeat split; reflexivity|].
  case_decide as E2; [subst; repeat split; reflexivity|].
  unfold implements, sample_engine. cbn [AlertEngine.states AlertEngine.wouldFire].
  rewrite lookup_insert_ne, lookup_singleton_ne, lookup_empty by congruence. done.
Qed.

Definition in_order (c : call alertE) : bool :=
  match c with
  | Call e x => match e in alertE X return X → bool with RangeStates keys => λ order, bool_decide (order = elements keys) | _ => λ _, true end x
  end.
Lemma in_order_visits tr : forallb in_order tr = true → Forall visits tr.
Proof.
  intros H. apply Forall_forall. intros [X e x] Hc. rewrite forallb_forall in H. specialize (H _ (proj1 (list_elem_of_In _ _) Hc)).
  destruct e; cbn in *; [done..| |done]. by apply bool_decide_eq_true in H as ->.
Qed.

(** MySQL is told again, HTTP for the first time, the collector has recovered. *)
Example evaluation_refines_witness :
  ∃ tr e', runs (Evaluate (λ _, 28800) sample_conditions sample_engine) tr e' ∧
    Card.Title <$> omap card_of tr = ["MySQL"; "HTTP"; "Collector 已恢复"] ∧ omap gauges_of tr = [(1, 1)] ∧
    (∃ now, Call Now now ∈ tr ∧ ∀ key, implements e' key
       (phase_steps (30 * Minute) now (sample_phase key) (signals sample_engine sample_conditions key)).1).
Proof.
  assert (match exec sample_clock (Evaluate (λ _, 28800) sample_conditions sample_engine) tt with
          | Some (tr, _, _) => Card.Title <$> omap card_of tr = ["MySQL"; "HTTP"; "Collector 已恢复"] ∧ omap gauges_of tr = [(1, 1)] ∧
                               forallb in_order tr = true
          | None => False end) as H by (vm_compute; repeat split; reflexivity).
  destruct (exec sample_clock (Evaluate (λ _, 28800) sample_conditions sample_engine) tt) as [[[tr e'] w]|] eqn:E; [|destruct H].
  assert (Hr := exec_runs _ _ _ _ _ _ E). exists tr, e'. split; [exact Hr|]. destruct H as (H1 & H2 & Hv%in_order_visits).
  split; [exact H1|]. split; [exact H2|].
  destruct (evaluation_refines (λ _, 28800) sample_conditions sample_engine sample_phase tr e' sample_implements Hv Hr) as (now & Hn & _ & Hi & _).
  exists now. split; [exact Hn|exact Hi].
Defined.
