(* ===== verification/Integrity.v ===== *)
(** * The integrity auditor (internal/monitoring/integrity.go)

    Every round checks some series: the last closed candles of the rolled-up
    timeframes are computed again from their sources and compared with what is
    stored.  The auditor only reads; its findings go to the registry. *)

From S2P Require Export GoNumbers RollupRepair SymbolSnapshot Effects.

Local Open Scope string_scope.
Local Open Scope Z_scope.
Local Open Scope list_scope.
Local Open Scope prog_scope.

(** ** Data *)

(** Durations are in nanoseconds; the timeframes are names of Order. *)
Module IntegrityConfig.
Record IntegrityConfig : Type := mk {
  Enabled : bool; Exchanges : list string; Timeframes : list Frame; Interval : Z; SymbolsPerRun : Z; Buckets : Z;
  Grace : Z; Tolerance : float64 }.
End IntegrityConfig.
Notation IntegrityConfig := IntegrityConfig.IntegrityConfig.

Module IntegrityIssue.
Record IntegrityIssue : Type := mk {
  Exchange : string; Symbol : string; Timeframe : string; StartMS : Z; Type_ : string; SourceTimeframe : string;
  ExpectedSourceBars : Z; ActualSourceBars : Z }.
End IntegrityIssue.
Notation IntegrityIssue := IntegrityIssue.IntegrityIssue.

(** [ByTimeframe] counts missing, mismatch and invalid_ohlc. *)
Module IntegritySummary.
Record IntegritySummary : Type := mk {
  CheckedAt : Z; CheckedSymbols : Z; Missing : Z; Mismatch : Z; InvalidOHLC : Z; SourceIncomplete : Z;
  Affected : list string; ByTimeframe : gmap string (Z * Z * Z); SourceIncompleteByTimeframe : gmap string Z;
  Issues : list IntegrityIssue }.
Definition zero : IntegritySummary := mk 0 0 0 0 0 0 [] ∅ ∅ [].
End IntegritySummary.
Notation IntegritySummary := IntegritySummary.IntegritySummary.

Module IntegrityAuditor.
Record IntegrityAuditor : Type := mk { cfg : IntegrityConfig; cursor : Z }.
End IntegrityAuditor.
Notation IntegrityAuditor := IntegrityAuditor.IntegrityAuditor.

Definition Minute_ns : Z := 60000000000.
Definition default_tolerance_integrity : float64 := f64_of_decimal 1 (-8).
Definition positive_or (value fallback : Z) : Z := if value <=? 0 then fallback else value.

Definition NewIntegrityAuditor (cfg : IntegrityConfig) : IntegrityAuditor :=
  IntegrityAuditor.mk
    (IntegrityConfig.mk cfg.(IntegrityConfig.Enabled) cfg.(IntegrityConfig.Exchanges)
       (match cfg.(IntegrityConfig.Timeframes) with [] => [F15m; F30m; F1H; F4H; F1D; F2D; F1W] | tfs => tfs end)
       (positive_or cfg.(IntegrityConfig.Interval) (10 * Minute_ns)) (positive_or cfg.(IntegrityConfig.SymbolsPerRun) 50)
       (positive_or cfg.(IntegrityConfig.Buckets) 3) (positive_or cfg.(IntegrityConfig.Grace) (2 * Minute_ns))
       (if f64_leb cfg.(IntegrityConfig.Tolerance) f64_zero then default_tolerance_integrity else cfg.(IntegrityConfig.Tolerance)))
    0.

(** ** Calls *)

(** [Now] is in nanoseconds. *)
Inductive integrityE : Type → Type :=
| Now : integrityE Z
| ListActiveSymbols (exchange : string) : integrityE (result go_error (list SymbolInfo))
| BarsInRange (exchange symbol tf : string) (startMS endMS : Z) : integrityE (result go_error (list Bar))
| ListSnapshots (exchange : string) : integrityE (result go_error (list SymbolSnapshot))
| ListSyncs : integrityE (result go_error (list SymbolSnapshotSync))
| SetIntegrity (summary : IntegritySummary) : integrityE unit.

Notation iprog := (prog integrityE).

Definition unix_milli (ns : Z) : Z := ns / 1000000.

(** ** Candles *)

Definition relativeDifference (left right : float64) : float64 :=
  let scale := f64_max (f64_abs left) (f64_abs right) in
  if f64_eqb scale f64_zero then f64_zero else f64_div (f64_abs (f64_sub left right)) scale.

Definition barsDifferForIntegrity (actual expected : Bar) (tolerance : float64) : bool :=
  f64_gtb (relativeDifference actual.(Bar.OpenPrice) expected.(Bar.OpenPrice)) tolerance
  || f64_gtb (relativeDifference actual.(Bar.HighPrice) expected.(Bar.HighPrice)) tolerance
  || f64_gtb (relativeDifference actual.(Bar.LowPrice) expected.(Bar.LowPrice)) tolerance
  || f64_gtb (relativeDifference actual.(Bar.ClosePrice) expected.(Bar.ClosePrice)) tolerance
  || f64_gtb (relativeDifference actual.(Bar.Volume) expected.(Bar.Volume)) tolerance
  || f64_gtb (relativeDifference actual.(Bar.QuoteVolume) expected.(Bar.QuoteVolume)) tolerance
  || f64_gtb (relativeDifference actual.(Bar.ContractVolume) expected.(Bar.ContractVolume)) tolerance
  || negb (actual.(Bar.TradeCount) =? expected.(Bar.TradeCount)).

Definition validOHLC (bar : Bar) : bool :=
  f64_gtb bar.(Bar.OpenPrice) f64_zero && f64_gtb bar.(Bar.HighPrice) f64_zero
  && f64_gtb bar.(Bar.LowPrice) f64_zero && f64_gtb bar.(Bar.ClosePrice) f64_zero
  && f64_leb (f64_max bar.(Bar.OpenPrice) bar.(Bar.ClosePrice)) bar.(Bar.HighPrice)
  && f64_leb bar.(Bar.LowPrice) (f64_min bar.(Bar.OpenPrice) bar.(Bar.ClosePrice))
  && f64_leb bar.(Bar.LowPrice) bar.(Bar.HighPrice).

(** The loop over the sorted sources is that of [expect_starts]. *)
Definition completeSource (bars : list Bar) (sourceTF : Frame) (targetStart targetEnd : Z) : bool :=
  let sorted := sort_by Bar.StartMS bars in
  match last sorted with
  | None => false
  | Some last_bar =>
      match expect_starts sourceTF targetStart sorted with
      | None => false
      | Some expected => (targetEnd <? expected) && (targetEnd <=? last_bar.(Bar.EndMS))
      end
  end.

(** The steps of the loop; it ends for every bucket up to 2262. *)
Definition expectedSourceBarCount (sourceTF : Frame) (targetStart targetEnd : Z) : Z :=
  match starts_between sourceTF targetStart targetEnd with Some starts => Z.of_nat (length starts) | None => 0 end.

Definition newIntegrityIssue (target : SymbolInfo) (tf : Frame) (startMS : Z) (issueType : string) : IntegrityIssue :=
  IntegrityIssue.mk target.(SymbolInfo.Exchange) target.(SymbolInfo.Symbol) (frame_name tf) startMS issueType "" 0 0.
Definition incomplete_issue (target : SymbolInfo) (tf source : Frame) (startMS endMS actual : Z) : IntegrityIssue :=
  IntegrityIssue.mk target.(SymbolInfo.Exchange) target.(SymbolInfo.Symbol) (frame_name tf) startMS "source_incomplete"
    (frame_name source) (expectedSourceBarCount source startMS endMS) actual.

(** ** One series *)

(** The start of the last bucket that ended at [eligible]. *)
Definition latest_closed (eligible : Z) (tf : Frame) : Z :=
  let start := FloorStartMS eligible tf in
  if eligible <? EndMS start tf then PreviousStartMS start tf else start.
Definition back (tf : Frame) (steps : nat) (start : Z) : Z := Nat.iter steps (fun s => PreviousStartMS s tf) start.

(** What the stored candle alone shows. *)
Definition stored_issues (target : SymbolInfo) (tf : Frame) (start : Z) (stored : option Bar) : list IntegrityIssue :=
  match stored with
  | Some bar => if validOHLC bar then [] else [newIntegrityIssue target tf start "invalid_ohlc"]
  | None => []
  end.

(** What the comparison with the complete sources shows. *)
Definition rollup_issues (cfg : IntegrityConfig) (target : SymbolInfo) (tf : Frame) (start : Z) (stored : option Bar)
    (sources : list Bar) (now : Z) : list IntegrityIssue :=
  match RollupBars tf sources true "monitoring_integrity" (unix_milli now) with
  | None => []
  | Some expected =>
      match stored with
      | None => [newIntegrityIssue target tf start "missing"]
      | Some bar =>
          if barsDifferForIntegrity bar expected cfg.(IntegrityConfig.Tolerance)
          then [newIntegrityIssue target tf start "mismatch"] else []
      end
  end.

Definition audit_bucket (cfg : IntegrityConfig) (target : SymbolInfo) (tf : Frame) (bucketStart : Z)
    : iprog (result go_error (list IntegrityIssue)) :=
  if (0 <? target.(SymbolInfo.ListedAtMS)) && (bucketStart <? target.(SymbolInfo.ListedAtMS)) then Ret (Ok [])
  else
    let bucketEnd := EndMS bucketStart tf in
    targetBars <- trigger (BarsInRange target.(SymbolInfo.Exchange) target.(SymbolInfo.Symbol) (frame_name tf)
                             bucketStart bucketStart) ;;
    match targetBars with
    | Err e => Ret (Err e)
    | Ok targetBars =>
        let stored := last targetBars in
        let issues := stored_issues target tf bucketStart stored in
        match RollupSourceTimeframe tf with
        | None => Ret (Ok issues)
        | Some sourceTF =>
            sourceBars <- trigger (BarsInRange target.(SymbolInfo.Exchange) target.(SymbolInfo.Symbol)
                                     (frame_name sourceTF) bucketStart bucketEnd) ;;
            match sourceBars with
            | Err e => Ret (Err e)
            | Ok sourceBars =>
                if negb (completeSource sourceBars sourceTF bucketStart bucketEnd)
                then Ret (Ok (issues ++ [incomplete_issue target tf sourceTF bucketStart bucketEnd
                                           (Z.of_nat (length sourceBars))]))
                else
                  now <- trigger Now ;;
                  Ret (Ok (issues ++ rollup_issues cfg target tf bucketStart stored sourceBars now))
            end
        end
    end.

Definition auditSeries (cfg : IntegrityConfig) (target : SymbolInfo) (tf : Frame)
    : iprog (result go_error (list IntegrityIssue)) :=
  now <- trigger Now ;;
  let start := latest_closed (unix_milli (now - cfg.(IntegrityConfig.Grace))) tf in
  pfold_ok (fun issues i =>
      found <- audit_bucket cfg target tf (back tf i start) ;;
      Ret (match found with Ok found => Ok (issues ++ found) | Err e => Err e end))
    [] (seq 0 (Z.to_nat cfg.(IntegrityConfig.Buckets))).

(** ** Targets *)

Definition integritySnapshotScope (exchange marketType : string) : string :=
  (ToLower (TrimSpace exchange) ++ String Ascii.zero (ToLower (TrimSpace marketType)))%string.
Definition integritySnapshotKey (exchange marketType symbol : string) : string :=
  (integritySnapshotScope exchange marketType ++ String Ascii.zero (ToUpper (TrimSpace symbol)))%string.
Definition integritySymbolSnapshotMaxAge : Z := 10 * Minute_ns.

(** The exchanges once each, normalised, in their order. *)
Fixpoint distinct_exchanges (exchanges : list string) (seen : gset string) : list string :=
  match exchanges with
  | [] => []
  | name :: rest =>
      let name := ToLower (TrimSpace name) in
      if bool_decide (name = "") || bool_decide (name ∈ seen) then distinct_exchanges rest seen
      else name :: distinct_exchanges rest ({[name]} ∪ seen)
  end.

Definition sync_scopes (syncs : list SymbolSnapshotSync) : gmap string SymbolSnapshotSync :=
  foldl (fun m state => <[integritySnapshotScope (ToLower (TrimSpace state.(SymbolSnapshotSync.Exchange)))
                            state.(SymbolSnapshotSync.MarketType) := state]> m) ∅ syncs.
Definition snapshot_index (snapshots : list SymbolSnapshot) : gmap string SymbolSnapshot :=
  foldl (fun m item => <[integritySnapshotKey item.(SymbolSnapshot.Exchange) item.(SymbolSnapshot.MarketType)
                           item.(SymbolSnapshot.Symbol) := item]> m) ∅ snapshots.

Definition listed_at (b : SymbolInfo) (at_ : Z) : SymbolInfo :=
  SymbolInfo.mk b.(SymbolInfo.Exchange) b.(SymbolInfo.Symbol) b.(SymbolInfo.MarketType) b.(SymbolInfo.Status)
    b.(SymbolInfo.IsActive) b.(SymbolInfo.FirstSeenAtMS) b.(SymbolInfo.LastSeenAtMS) b.(SymbolInfo.UpdatedAtMS)
    b.(SymbolInfo.OfficialActive) b.(SymbolInfo.ContractType) b.(SymbolInfo.BaseCurrency) b.(SymbolInfo.QuoteCurrency)
    b.(SymbolInfo.SettleCurrency) at_ b.(SymbolInfo.DelistAtMS) b.(SymbolInfo.ExpiryAtMS) b.(SymbolInfo.OfficialRaw).

(** A symbol with a fresh snapshot that lets it be repaired, listed as the snapshot says. *)
Definition eligible_target (syncs : gmap string SymbolSnapshotSync) (snapshots : gmap string SymbolSnapshot) (now : Z)
    (symbol : SymbolInfo) : option SymbolInfo :=
  match snapshots !! integritySnapshotKey symbol.(SymbolInfo.Exchange) symbol.(SymbolInfo.MarketType) symbol.(SymbolInfo.Symbol),
        syncs !! integritySnapshotScope symbol.(SymbolInfo.Exchange) symbol.(SymbolInfo.MarketType) with
  | Some snapshot, Some state =>
      if negb (state.(SymbolSnapshotSync.LastSuccessMS) =? snapshot.(SymbolSnapshot.CapturedAtMS))
         || negb (bool_decide (RepairSkipReason snapshot (unix_milli now) integritySymbolSnapshotMaxAge = ""))
      then None
      else Some (listed_at symbol snapshot.(SymbolSnapshot.ListedAtMS))
  | _, _ => None
  end.

(** The targets of one exchange. *)
Definition exchange_targets (syncs : option (list SymbolSnapshotSync)) (out : list SymbolInfo) (name : string)
    : iprog (result go_error (list SymbolInfo)) :=
  symbols <- trigger (ListActiveSymbols name) ;;
  match symbols with
  | Err e => Ret (Err e)
  | Ok symbols =>
      match syncs with
      | None => Ret (Ok (out ++ symbols))
      | Some syncs =>
          if negb (existsb (fun state => bool_decide (ToLower (TrimSpace state.(SymbolSnapshotSync.Exchange)) = name)) syncs)
          then Ret (Ok (out ++ symbols))
          else
            snapshots <- trigger (ListSnapshots name) ;;
            match snapshots with
            | Err e => Ret (Err e)
            | Ok snapshots =>
                now <- trigger Now ;;
                Ret (Ok (out ++ omap (eligible_target (sync_scopes syncs) (snapshot_index snapshots) now) symbols))
            end
      end
  end.

Definition target_less (l r : SymbolInfo) : bool :=
  if negb (bool_decide (l.(SymbolInfo.Exchange) = r.(SymbolInfo.Exchange)))
  then string_less l.(SymbolInfo.Exchange) r.(SymbolInfo.Exchange)
  else string_less l.(SymbolInfo.Symbol) r.(SymbolInfo.Symbol).

Definition targets (cfg : IntegrityConfig) (hasSnapshots : bool) : iprog (result go_error (list SymbolInfo)) :=
  syncs <- (if hasSnapshots
            then syncs <- trigger ListSyncs ;; Ret (match syncs with Ok syncs => Ok (Some syncs) | Err e => Err e end)
            else Ret (Ok None)) ;;
  match syncs with
  | Err e => Ret (Err e)
  | Ok syncs =>
      out <- pfold_ok (exchange_targets syncs) [] (distinct_exchanges cfg.(IntegrityConfig.Exchanges) ∅) ;;
      Ret (match out with Ok out => Ok (sort_slice target_less out) | Err e => Err e end)
  end.

(** ** One round *)

Definition count_issue (counts : Z * Z * Z) (issue : IntegrityIssue) : Z * Z * Z :=
  let '(missing, mismatch, invalid) := counts in
  if bool_decide (issue.(IntegrityIssue.Type_) = "missing") then (missing + 1, mismatch, invalid)
  else if bool_decide (issue.(IntegrityIssue.Type_) = "mismatch") then (missing, mismatch + 1, invalid)
  else if bool_decide (issue.(IntegrityIssue.Type_) = "invalid_ohlc") then (missing, mismatch, invalid + 1)
  else counts.
Definition count_incomplete (n : Z) (issue : IntegrityIssue) : Z :=
  if bool_decide (issue.(IntegrityIssue.Type_) = "source_incomplete") then n + 1 else n.

(** The issues of one series added to the summary. *)
Definition add_issues (summary : IntegritySummary) (tf : Frame) (issues : list IntegrityIssue) : IntegritySummary :=
  let name := frame_name tf in
  let byTimeframe := foldl count_issue (default (0, 0, 0) (summary.(IntegritySummary.ByTimeframe) !! name)) issues in
  let sourceIncomplete := foldl count_incomplete 0 issues in
  let '(missing, mismatch, invalid) :=
    foldl count_issue (summary.(IntegritySummary.Missing), summary.(IntegritySummary.Mismatch), summary.(IntegritySummary.InvalidOHLC)) issues in
  IntegritySummary.mk summary.(IntegritySummary.CheckedAt) summary.(IntegritySummary.CheckedSymbols) missing mismatch invalid
    (summary.(IntegritySummary.SourceIncomplete) + sourceIncomplete) summary.(IntegritySummary.Affected)
    (<[name := byTimeframe]> summary.(IntegritySummary.ByTimeframe))
    (<[name := default 0 (summary.(IntegritySummary.SourceIncompleteByTimeframe) !! name) + sourceIncomplete]>
       summary.(IntegritySummary.SourceIncompleteByTimeframe))
    (summary.(IntegritySummary.Issues) ++ issues).

Definition series_name (target : SymbolInfo) : string :=
  (target.(SymbolInfo.Exchange) ++ ":" ++ target.(SymbolInfo.Symbol))%string.

Definition set_checked (n : Z) (s : IntegritySummary) : IntegritySummary :=
  IntegritySummary.mk s.(IntegritySummary.CheckedAt) n s.(IntegritySummary.Missing) s.(IntegritySummary.Mismatch)
    s.(IntegritySummary.InvalidOHLC) s.(IntegritySummary.SourceIncomplete) s.(IntegritySummary.Affected)
    s.(IntegritySummary.ByTimeframe) s.(IntegritySummary.SourceIncompleteByTimeframe) s.(IntegritySummary.Issues).
Definition set_affected (names : list string) (s : IntegritySummary) : IntegritySummary :=
  IntegritySummary.mk s.(IntegritySummary.CheckedAt) s.(IntegritySummary.CheckedSymbols) s.(IntegritySummary.Missing)
    s.(IntegritySummary.Mismatch) s.(IntegritySummary.InvalidOHLC) s.(IntegritySummary.SourceIncomplete) names
    s.(IntegritySummary.ByTimeframe) s.(IntegritySummary.SourceIncompleteByTimeframe) s.(IntegritySummary.Issues).

(** The loops carry the summary and the affected series; an error ends them with the
    summary so far. *)
Notation audit_acc := (IntegritySummary * gset string)%type.

Definition audit_frame (cfg : IntegrityConfig) (target : SymbolInfo) (acc : audit_acc) (tf : Frame)
    : iprog (result (IntegritySummary * go_error) audit_acc) :=
  let '(summary, affected) := acc in
  issues <- auditSeries cfg target tf ;;
  Ret (match issues with
       | Err e => Err (summary, e)
       | Ok issues =>
           Ok (add_issues summary tf issues,
               if (length issues =? 0)%nat then affected else {[series_name target]} ∪ affected)
       end).

Definition audit_target (cfg : IntegrityConfig) (acc : audit_acc) (target : SymbolInfo)
    : iprog (result (IntegritySummary * go_error) audit_acc) :=
  let '(summary, affected) := acc in
  pfold_ok (audit_frame cfg target) (set_checked (summary.(IntegritySummary.CheckedSymbols) + 1) summary, affected)
    cfg.(IntegrityConfig.Timeframes).

(** The [count] targets from the cursor on, round the end of the list. *)
Definition rotated (targets : list SymbolInfo) (cursor count : nat) : list SymbolInfo :=
  omap (fun i => targets !! ((cursor + i) mod length targets)%nat) (seq 0 count).

Definition AuditOnce (a : IntegrityAuditor) (hasSnapshots : bool)
    : iprog (IntegritySummary * option go_error * IntegrityAuditor) :=
  let cfg := a.(IntegrityAuditor.cfg) in
  all <- targets cfg hasSnapshots ;;
  match all with
  | Err e => Ret (IntegritySummary.zero, Some e, a)
  | Ok [] =>
      now <- trigger Now ;;
      let summary := IntegritySummary.mk now 0 0 0 0 0 [] ∅ ∅ [] in
      _ <- trigger (SetIntegrity summary) ;; Ret (summary, None, a)
  | Ok all =>
      now <- trigger Now ;;
      let n := Z.of_nat (length all) in
      let count := Z.min cfg.(IntegrityConfig.SymbolsPerRun) n in
      acc <- pfold_ok (audit_target cfg) (IntegritySummary.mk now 0 0 0 0 0 [] ∅ ∅ [], ∅)
               (rotated all (Z.to_nat a.(IntegrityAuditor.cursor)) (Z.to_nat count)) ;;
      match acc with
      | Err (summary, e) => Ret (summary, Some e, a)
      | Ok (summary, affected) =>
          let summary := set_affected (sort_slice string_less (elements affected)) summary in
          _ <- trigger (SetIntegrity summary) ;;
          Ret (summary, None, IntegrityAuditor.mk cfg ((a.(IntegrityAuditor.cursor) + count) mod n))
      end
  end.
