(* ===== verification/IntegritySpec.v ===== *)
(** * What the integrity auditor reports

    A bucket is compared with the candle computed from its sources only when
    they are all there; the issues of a series are those of its last closed
    buckets, and the summary counts them. *)

From S2P Require Export Integrity.

Local Open Scope string_scope.
Local Open Scope Z_scope.
Local Open Scope list_scope.
Local Open Scope prog_scope.

(** ** What the store answers *)

Definition bars_answer (c : call integrityE) : option (Z * Z * result go_error (list Bar)) :=
  match c with
  | Call e x =>
      match e in integrityE X return X → option (Z * Z * result go_error (list Bar)) with
      | BarsInRange _ _ _ s e => λ r, Some (s, e, r)
      | _ => λ _, None
      end x
  end.

(** The candles of an answer start in the range asked for. *)
Definition in_range_answer (c : call integrityE) : Prop :=
  match bars_answer c with Some (s, e, Ok bars) => Forall (λ b, s <= b.(Bar.StartMS) <= e) bars | _ => True end.

(** ** The sources of a bucket *)

Lemma walk_grid fuel f k n :
  0 <= k → grid f (k + Z.of_nat n) <= MaxTS + 1 →
  grid f (k + Z.of_nat n) - 1 - grid f k < MinuteMS * Z.of_nat fuel →
  walk fuel f (grid f k) (grid f (k + Z.of_nat n) - 1) = Some (grid_run f k n).
Proof.
  revert fuel k. induction n as [|n IH]; intros fuel k Hk Hm Hf.
  - replace (k + Z.of_nat 0) with k by lia. destruct fuel; simpl; rewrite (proj2 (Z.ltb_lt _ _)) by lia; done.
  - assert (grid f k < grid f (k + Z.of_nat (S n))) by (apply grid_lt; lia). pose proof (grid_nonneg f k Hk).
    pose proof (grid_step f k) as [Hs _]. destruct fuel as [|fuel]; [lia|]. cbn [walk]. rewrite (proj2 (Z.ltb_ge _ _)) by lia.
    rewrite next_grid by (apply steppable_dom; unfold DayMS; lia).
    replace (k + Z.of_nat (S n)) with (k + 1 + Z.of_nat n) in * by lia.
    rewrite IH by lia. by rewrite grid_run_S.
Qed.

(** The number of source candles a bucket needs. *)
Lemma expectedSourceBarCount_grid f g ts :
  RollupSourceTimeframe f = Some g → aligned f ts → EndMS ts f <= MaxTS → ts <= MaxTS →
  ∃ starts, NoDup starts ∧ (∀ x, x ∈ starts ↔ aligned g x ∧ ts <= x <= EndMS ts f) ∧
    expectedSourceBarCount g ts (EndMS ts f) = Z.of_nat (length starts).
Proof.
  intros Hs Ha He Hts. destruct (bucket_sources f g ts Hs Ha Hts) as (k & n & Ek & Hk & Een & Hn & _).
  exists (grid_run g k n). split_and!.
  - pose proof (key_sorted_NoDup id _ (grid_run_sorted g k n)) as H. by rewrite list_fmap_id in H.
  - intros x. rewrite elem_of_grid_run, Een, Ek. split.
    + intros (j & Hj & ->). pose proof (grid_le g k j). pose proof (grid_lt g j (k + Z.of_nat n)).
      split; [exists j; split; [lia|done]|lia].
    + intros ((j & Hj & ->) & Hr). exists j. split; [|done].
      pose proof (grid_le g k j). pose proof (grid_lt g j (k + Z.of_nat n)). lia.
  - unfold expectedSourceBarCount, starts_between. rewrite Een, Ek in *.
    pose proof (range_fuel_enough (grid g k) (grid g (k + Z.of_nat n) - 1)).
    rewrite walk_grid by lia. done.
Qed.

Lemma completeSource_covers f g ts bars :
  RollupSourceTimeframe f = Some g → aligned f ts → ts <= MaxTS →
  Forall (λ b, ts <= b.(Bar.StartMS) <= EndMS ts f) bars →
  completeSource bars g ts (EndMS ts f) = true ↔ covers g ts (EndMS ts f) (sort_by Bar.StartMS bars).
Proof.
  intros Hs Ha Hts Hb. change (completeSource bars g ts (EndMS ts f)) with
    (sourceBarsComplete (sort_by Bar.StartMS bars) g ts (EndMS ts f)).
  apply sourceBarsComplete_covers; [done..|]. intros b Hin%elem_of_sort_by. rewrite Forall_forall in Hb.
  specialize (Hb b Hin). lia.
Qed.

(** ** One bucket *)

(** What is reported of a bucket of [f] built from [g]: [stored] is its stored candle,
    [sources] what the store has of [g] in its range. *)
Definition bucket_verdict (cfg : IntegrityConfig) (target : SymbolInfo) (f g : Frame) (ts : Z) (stored : option Bar)
    (sources : list Bar) (issues : list IntegrityIssue) : Prop :=
  (¬ covers g ts (EndMS ts f) (sort_by Bar.StartMS sources) ∧ ∃ starts, NoDup starts ∧
     (∀ x, x ∈ starts ↔ aligned g x ∧ ts <= x <= EndMS ts f) ∧
     issues = stored_issues target f ts stored ++
       [IntegrityIssue.mk target.(SymbolInfo.Exchange) target.(SymbolInfo.Symbol) (frame_name f) ts "source_incomplete"
          (frame_name g) (Z.of_nat (length starts)) (Z.of_nat (length sources))]) ∨
  (covers g ts (EndMS ts f) (sort_by Bar.StartMS sources) ∧ ∃ now expected,
     RollupBars f sources true "monitoring_integrity" now = Some expected ∧
     issues = stored_issues target f ts stored ++
       match stored with
       | None => [newIntegrityIssue target f ts "missing"]
       | Some bar =>
           if barsDifferForIntegrity bar expected cfg.(IntegrityConfig.Tolerance)
           then [newIntegrityIssue target f ts "mismatch"] else []
       end).

(** The calls made for a bucket and its issues: a bucket before the listing is passed over. *)
Definition bucket_run (cfg : IntegrityConfig) (target : SymbolInfo) (f g : Frame) (ts : Z) (tr : list (call integrityE))
    (issues : list IntegrityIssue) : Prop :=
  let ex := target.(SymbolInfo.Exchange) in let sym := target.(SymbolInfo.Symbol) in
  if (0 <? target.(SymbolInfo.ListedAtMS)) && (ts <? target.(SymbolInfo.ListedAtMS)) then tr = [] ∧ issues = []
  else ∃ bars sources rest,
    tr = Call (BarsInRange ex sym (frame_name f) ts ts) (Ok bars)
         :: Call (BarsInRange ex sym (frame_name g) ts (EndMS ts f)) (Ok sources) :: rest ∧
    (rest = [] ∨ ∃ now, rest = [Call Now now]) ∧
    bucket_verdict cfg target f g ts (last bars) sources issues.

Lemma audit_bucket_run cfg target f g ts tr issues :
  RollupSourceTimeframe f = Some g → aligned f ts → EndMS ts f <= MaxTS → ts <= MaxTS → all_calls in_range_answer tr →
  runs (audit_bucket cfg target f ts) tr (Ok issues) → bucket_run cfg target f g ts tr issues.
Proof.
  intros Hs Ha He Hts Hall Hr. unfold audit_bucket, bucket_run in *.
  destruct ((0 <? _) && _); [by apply runs_Ret in Hr as [-> [= ->]]|]. rewrite Hs in Hr.
  apply runs_bind in Hr as (t1 & [bars|e] & t2 & -> & ->%runs_trigger & Hr); [|by apply runs_Ret in Hr as [_ ?]].
  apply runs_bind in Hr as (t3 & [sources|e] & t4 & -> & ->%runs_trigger & Hr); [|by apply runs_Ret in Hr as [_ ?]].
  assert (Forall (λ b, ts <= b.(Bar.StartMS) <= EndMS ts f) sources) as Hb.
  { apply Forall_app in Hall as [_ Hall]. by apply Forall_cons in Hall as [Hall _]. }
  pose proof (completeSource_covers f g ts sources Hs Ha Hts Hb) as Hc.
  exists bars, sources, t4. split; [done|]. destruct (completeSource sources g ts (EndMS ts f)) eqn:Ec; cbn [negb] in Hr.
  - apply runs_bind in Hr as (t5 & now & t6 & -> & ->%runs_trigger & [-> [= ->]]%runs_Ret).
    split; [right; by exists now|]. right. split; [by apply Hc|]. unfold rollup_issues.
    destruct (RollupBars f sources true _ _) as [expected|] eqn:Er; [by exists (unix_milli now), expected|].
    apply RollupBars_None in Er as ->. by vm_compute in Ec.
  - apply runs_Ret in Hr as [-> [= ->]]. split; [by left|]. left. split; [by intros Hcov%Hc|].
    destruct (expectedSourceBarCount_grid f g ts Hs Ha He Hts) as (starts & Hnd & Hel & Hn).
    exists starts. split_and!; [done|done|]. unfold incomplete_issue. by rewrite Hn.
Qed.

(** ** One series *)

Lemma steppable_near f k : 0 <= k + 1 → grid f k <= MaxTS + 1 → steppable (grid f k).
Proof.
  intros Hk Hm. apply steppable_dom. pose proof (grid_step f k) as G. pose proof (grid_nonneg f (k + 1) Hk). unfold DayMS in *. lia.
Qed.

Lemma latest_closed_grid eligible f :
  grid f 1 <= eligible <= MaxTS →
  ∃ k, 0 <= k ∧ latest_closed eligible f = grid f k ∧ grid f (k + 1) - 1 <= eligible < grid f (k + 1 + 1) - 1.
Proof.
  intros [H1 Hm]. destruct (floor_spec f eligible) as (k & Hk & E & Hb).
  { split; [|done]. pose proof (grid_lt f 0 1). lia. }
  unfold latest_closed. rewrite E, end_grid by (apply steppable_near; lia).
  destruct (Z.ltb_spec eligible (grid f (k + 1) - 1)) as [Hlt|Hge].
  - assert (1 <= k). { destruct (Z.lt_ge_cases k 1); [|done]. pose proof (grid_le f (k + 1) 1). lia. }
    exists (k - 1). rewrite prev_grid by (apply steppable_near; lia). replace (k - 1 + 1) with k by lia.
    split_and!; [lia|done|lia|lia].
  - exists k. pose proof (grid_lt f (k + 1) (k + 1 + 1)). split_and!; [lia|done|lia|lia].
Qed.

Lemma back_grid f k i : grid f k <= MaxTS → 0 <= k - Z.of_nat i → back f i (grid f k) = grid f (k - Z.of_nat i).
Proof.
  intros Hk. induction i as [|i IH]; intros Hi; [unfold back; simpl; f_equal; lia|].
  change (back f (S i) (grid f k)) with (PreviousStartMS (back f i (grid f k)) f).
  rewrite IH by lia. pose proof (grid_nonneg f (k - Z.of_nat i) ltac:(lia)). pose proof (grid_le f (k - Z.of_nat i) k).
  rewrite prev_grid by (apply steppable_dom; unfold DayMS; lia). f_equal. lia.
Qed.

(** A loop whose rounds append. *)
Lemma runs_collect {E X A B} (body : A → prog E (result X (list B))) l tr out :
  runs (pfold_ok (λ acc a, found <- body a ;; Ret (match found with Ok found => Ok (acc ++ found) | Err e => Err e end)) [] l)
    tr (Ok out) →
  ∃ trs outs, tr = concat trs ∧ out = concat outs ∧ length trs = length l ∧
    Forall2 (λ a '(t, o), runs (body a) t (Ok o)) l (zip trs outs) ∧ length outs = length l.
Proof.
  assert (∀ rest acc tr, runs (pfold_ok (λ acc a, found <- body a ;;
            Ret (match found with Ok found => Ok (acc ++ found) | Err e => Err e end)) acc rest) tr (Ok out) →
    ∃ trs outs, tr = concat trs ∧ out = acc ++ concat outs ∧ length trs = length rest ∧
      Forall2 (λ a '(t, o), runs (body a) t (Ok o)) rest (zip trs outs) ∧ length outs = length rest) as Hgen;
    [|intros Hr; exact (Hgen l [] tr Hr)].
  induction rest as [|a rest IH]; intros acc tr' Hr; simpl in Hr.
  { apply runs_Ret in Hr as [-> [= ->]]. exists [], []. rewrite app_nil_r. by split_and!. }
  apply runs_bind in Hr as (t1 & r & t2 & -> & H1 & H2).
  apply runs_bind in H1 as (t3 & [found|e] & t4 & -> & H3 & [-> ->]%runs_Ret); [|by apply runs_Ret in H2 as [_ ?]].
  destruct (IH _ _ H2) as (trs & outs & -> & -> & ? & ? & ?). exists (t3 :: trs), (found :: outs). cbn.
  rewrite app_nil_r, <- app_assoc. split_and!; [done|done|lia|by constructor|lia].
Qed.

(** the integrity check of a series reads the last closed buckets of its
    timeframe and no others: with the clock at [now], the newest is the last
    that ended [Grace] ago, and each of the [Buckets] rounds takes the one
    before.  A bucket before the symbol's listing is passed over without a
    query.  Of every other bucket the stored candle and the source candles are
    read once, and its issues are exactly those of [bucket_verdict]: a stored
    candle whose prices cannot be right is reported; where a source candle is
    missing or not final, that is reported with the number there should be and
    nothing is compared; where all are there, the candle computed from them is
    missing from the store, differs from the stored one, or agrees. *)
Theorem series_verdict cfg target f g tr issues :
  RollupSourceTimeframe f = Some g → 0 <= cfg.(IntegrityConfig.Buckets) →
  all_calls in_range_answer tr → runs (auditSeries cfg target f) tr (Ok issues) →
  ∃ now rest, tr = Call Now now :: rest ∧
    let eligible := unix_milli (now - cfg.(IntegrityConfig.Grace)) in
    (grid f (1 + cfg.(IntegrityConfig.Buckets)) <= eligible <= MaxTS →
     ∃ k trs outs, rest = concat trs ∧ issues = concat outs ∧
       grid f (k + 1) - 1 <= eligible < grid f (k + 1 + 1) - 1 ∧
       Z.of_nat (length trs) = cfg.(IntegrityConfig.Buckets) ∧ length outs = length trs ∧
       ∀ i t o, trs !! i = Some t → outs !! i = Some o →
         bucket_run cfg target f g (grid f (k - Z.of_nat i)) t o).
Proof.
  intros Hs Hb Hall Hr. unfold auditSeries in Hr.
  apply runs_bind in Hr as (t1 & now & rest & -> & ->%runs_trigger & Hr). exists now, rest. split; [done|].
  intros eligible [H1 Hm]. apply Forall_app in Hall as [_ Hall].
  pose proof (grid_le f 1 (1 + cfg.(IntegrityConfig.Buckets))).
  destruct (latest_closed_grid eligible f ltac:(lia)) as (k & Hk & E & He).
  fold eligible in Hr. rewrite E in Hr. apply runs_collect in Hr as (trs & outs & -> & -> & Hl & Hf & Hlo).
  rewrite length_seq in Hl, Hlo. exists k, trs, outs. split_and!; [done|done|lia|lia|lia|lia|].
  intros i t o Ht Ho.
  assert (zip trs outs !! i = Some (t, o)) as Hz by (apply lookup_zip_Some; by split).
  destruct (Forall2_lookup_r _ _ _ _ _ Hf Hz) as (a & Ha & Hrun). apply lookup_seq in Ha as [-> Hi].
  assert (Forall in_range_answer t) as Ht'.
  { apply Forall_forall. intros c Hc. rewrite Forall_forall in Hall. apply Hall, list_elem_of_In, in_concat.
    exists t. rewrite <- !list_elem_of_In. split; [by eapply list_elem_of_lookup_2|done]. }
  pose proof (grid_lt f (1 + cfg.(IntegrityConfig.Buckets)) (k + 1 + 1)). set (j := k - Z.of_nat i).
  assert (0 <= j) as Hj by lia. pose proof (grid_le f (j + 1) (k + 1)). pose proof (grid_step f j). pose proof (grid_step f k).
  simpl in Hrun. unfold MinuteMS in *. rewrite back_grid in Hrun by lia. fold j in Hrun.
  apply audit_bucket_run; [done|by exists j| |lia|done|done]. rewrite end_grid by (apply steppable_near; lia). lia.
Qed.

(** ** The theorem at work *)

Definition sample_stored (start : Z) : Bar := sample_bar ((start - sample_base) / 60000) 1000 1010 990 1005 7.

(** Every minute is there except the first of the older bucket; the newer bucket has
    not been built. *)
Definition sample_series : handler integrityE unit := fun X e w =>
  match e in integrityE X return option (X * unit) with
  | Now => Some ((sample_base + 10 * 60000 + 5) * 1000000, w)
  | BarsInRange _ _ "1m" s e =>
      Some (Ok (filter (λ b, b.(Bar.StartMS) ≠ sample_base)
                  ((λ i, sample_stored (s + Z.of_nat i * 60000)) <$> seq 0 (Z.to_nat ((e - s) / 60000 + 1)))), w)
  | BarsInRange _ _ _ _ _ => Some (Ok [], w)
  | _ => None
  end.
Definition sample_auditor : IntegrityConfig :=
  (NewIntegrityAuditor (IntegrityConfig.mk true ["okx"] [F5m] 0 1 2 1000000 f64_zero)).(IntegrityAuditor.cfg).
Definition sample_symbol : SymbolInfo :=
  SymbolInfo.mk "okx" "BTC-USDT-SWAP" "SWAP" "live" true 1 1 1 true "linear" "BTC" "USDT" "USDT" 0 0 0 "".

Example series_verdict_witness :
  ∃ tr issues, runs (auditSeries sample_auditor sample_symbol F5m) tr (Ok issues) ∧
    IntegrityIssue.Type_ <$> issues = ["missing"; "source_incomplete"] ∧
    ∃ now rest, tr = Call Now now :: rest.
Proof.
  destruct (exec sample_series (auditSeries sample_auditor sample_symbol F5m) tt) as [[[tr [issues|e]] w]|] eqn:E;
    [|vm_compute in E; discriminate..].
  assert (Hr := exec_runs _ _ _ _ _ _ E). exists tr, issues. split; [exact Hr|].
  assert (IntegrityIssue.Type_ <$> issues = ["missing"; "source_incomplete"] ∧ all_calls in_range_answer tr) as [Hi Ha].
  { vm_compute in E. injection E as <- <- _. split; [reflexivity|]. repeat constructor; vm_compute; congruence. }
  split; [exact Hi|].
  destruct (series_verdict sample_auditor sample_symbol F5m F1m tr issues eq_refl ltac:(vm_compute; congruence) Ha Hr)
    as (now & rest & Et & _). by exists now, rest.
Defined.
