(* ===== verification/IntegritySummarySpec.v ===== *)
(** * The summary of an integrity round

    The counters of the published summary are the numbers of issues it lists, per
    kind and timeframe; a round that fails publishes nothing and does not move the
    cursor. *)

From S2P Require Export IntegritySpec.

Local Open Scope string_scope.
Local Open Scope Z_scope.
Local Open Scope list_scope.
Local Open Scope prog_scope.

(** ** Counting issues *)

Definition number_of (kind : string) (issues : list IntegrityIssue) : Z :=
  Z.of_nat (length (filter (λ i, i.(IntegrityIssue.Type_) = kind) issues)).
Definition number_in (kind : string) (f : Frame) (issues : list IntegrityIssue) : Z :=
  number_of kind (filter (λ i, i.(IntegrityIssue.Timeframe) = frame_name f) issues).
Definition issue_series (i : IntegrityIssue) : string :=
  (i.(IntegrityIssue.Exchange) ++ ":" ++ i.(IntegrityIssue.Symbol))%string.

Lemma number_of_app kind l1 l2 : number_of kind (l1 ++ l2) = number_of kind l1 + number_of kind l2.
Proof. unfold number_of. rewrite filter_app, length_app. lia. Qed.
Lemma number_in_app kind f l1 l2 : number_in kind f (l1 ++ l2) = number_in kind f l1 + number_in kind f l2.
Proof. unfold number_in. by rewrite filter_app, number_of_app. Qed.
Lemma number_of_cons kind i l :
  number_of kind (i :: l) = (if bool_decide (i.(IntegrityIssue.Type_) = kind) then 1 else 0) + number_of kind l.
Proof. unfold number_of. rewrite filter_cons. case_bool_decide; case_decide; simpl; try done; lia. Qed.

Lemma count_issue_one a b c i :
  count_issue (a, b, c) i =
  (a + number_of "missing" [i], b + number_of "mismatch" [i], c + number_of "invalid_ohlc" [i]).
Proof.
  rewrite !number_of_cons. unfold count_issue. change (number_of _ []) with 0.
  repeat case_bool_decide; try congruence; (rewrite !pair_equal_spec; lia).
Qed.

Lemma count_issue_total issues a b c :
  foldl count_issue (a, b, c) issues =
  (a + number_of "missing" issues, b + number_of "mismatch" issues, c + number_of "invalid_ohlc" issues).
Proof.
  revert a b c. induction issues as [|i l IH]; intros a b c; [by rewrite !Z.add_0_r|]. cbn [foldl].
  rewrite count_issue_one, IH. change (i :: l) with ([i] ++ l). rewrite !number_of_app, !pair_equal_spec. lia.
Qed.

Lemma count_incomplete_total issues n :
  foldl count_incomplete n issues = n + number_of "source_incomplete" issues.
Proof.
  revert n. induction issues as [|i l IH]; intros n; [by rewrite Z.add_0_r|].
  rewrite number_of_cons. cbn [foldl]. unfold count_incomplete at 2. case_bool_decide; rewrite IH; lia.
Qed.

(** ** The issues of one series *)

Definition issue_of (target : SymbolInfo) (f : Frame) (i : IntegrityIssue) : Prop :=
  i.(IntegrityIssue.Exchange) = target.(SymbolInfo.Exchange) ∧ i.(IntegrityIssue.Symbol) = target.(SymbolInfo.Symbol) ∧
  i.(IntegrityIssue.Timeframe) = frame_name f.

Lemma stored_issues_of target f ts stored : Forall (issue_of target f) (stored_issues target f ts stored).
Proof. unfold stored_issues. destruct stored; [|constructor]. case_bool; repeat constructor. Qed.

Lemma audit_bucket_of cfg target f ts tr issues :
  runs (audit_bucket cfg target f ts) tr (Ok issues) → Forall (issue_of target f) issues.
Proof.
  intros Hr. unfold audit_bucket in Hr. destruct ((0 <? _) && _); [apply runs_Ret in Hr as [_ [= ->]]; constructor|].
  apply runs_bind in Hr as (? & [bars|e] & ? & -> & _ & Hr); [|by apply runs_Ret in Hr as [_ ?]].
  pose proof (stored_issues_of target f ts (last bars)) as Hs.
  destruct (RollupSourceTimeframe f); [|by apply runs_Ret in Hr as [_ [= ->]]].
  apply runs_bind in Hr as (? & [sources|e] & ? & -> & _ & Hr); [|by apply runs_Ret in Hr as [_ ?]].
  destruct (negb _).
  - apply runs_Ret in Hr as [_ [= ->]]. apply Forall_app. split; [done|]. by repeat constructor.
  - apply runs_bind in Hr as (? & now & ? & -> & _ & [_ [= ->]]%runs_Ret). apply Forall_app. split; [done|].
    unfold rollup_issues. destruct (RollupBars _ _ _ _ _); [|constructor]. destruct (last bars); [|by repeat constructor].
    destruct (barsDifferForIntegrity _ _ _); by repeat constructor.
Qed.

Lemma auditSeries_of cfg target f tr issues :
  runs (auditSeries cfg target f) tr (Ok issues) → Forall (issue_of target f) issues.
Proof.
  intros Hr. unfold auditSeries in Hr. apply runs_bind in Hr as (t1 & now & t2 & -> & _ & Hr).
  eapply (runs_pfold_ok _ _ _ _ _ (λ _ _ issues, Forall (issue_of target f) issues)); [constructor| |exact Hr].
  intros done x rest tr1 acc tr2 out _ Hacc Hx.
  apply runs_bind in Hx as (t3 & [found|e] & t4 & -> & Hb & [_ [= ->]]%runs_Ret). apply Forall_app. split; [done|].
  by eapply audit_bucket_of.
Qed.

(** ** The summary *)

Record counted (s : IntegritySummary) (affected : string → Prop) : Prop := {
  counted_missing : s.(IntegritySummary.Missing) = number_of "missing" s.(IntegritySummary.Issues);
  counted_mismatch : s.(IntegritySummary.Mismatch) = number_of "mismatch" s.(IntegritySummary.Issues);
  counted_invalid : s.(IntegritySummary.InvalidOHLC) = number_of "invalid_ohlc" s.(IntegritySummary.Issues);
  counted_incomplete : s.(IntegritySummary.SourceIncomplete) = number_of "source_incomplete" s.(IntegritySummary.Issues);
  counted_frames f : default (0, 0, 0) (s.(IntegritySummary.ByTimeframe) !! frame_name f) =
    (number_in "missing" f s.(IntegritySummary.Issues), number_in "mismatch" f s.(IntegritySummary.Issues),
     number_in "invalid_ohlc" f s.(IntegritySummary.Issues));
  counted_sources f : default 0 (s.(IntegritySummary.SourceIncompleteByTimeframe) !! frame_name f) =
    number_in "source_incomplete" f s.(IntegritySummary.Issues);
  counted_affected x : affected x ↔ ∃ i, i ∈ s.(IntegritySummary.Issues) ∧ x = issue_series i;
}.

Lemma number_in_other kind target f g issues :
  Forall (issue_of target f) issues → number_in kind g issues = if decide (f = g) then number_of kind issues else 0.
Proof.
  intros H. unfold number_in. case_decide as Efg.
  - subst g. f_equal. induction H as [|i l (_ & _ & Hi) H IH]; [done|]. rewrite filter_cons, decide_True by done. by f_equal.
  - assert (filter (λ i, i.(IntegrityIssue.Timeframe) = frame_name g) issues = []) as ->; [|done].
    induction H as [|i l (_ & _ & Hi) H IH]; [done|]. rewrite filter_cons, decide_False; [done|].
    rewrite Hi. by intros ?%frame_name_inj.
Qed.

Lemma add_issues_counted s (affected : gset string) target f issues :
  counted s (.∈ affected) → Forall (issue_of target f) issues →
  counted (add_issues s f issues)
    (.∈ if (length issues =? 0)%nat then affected else {[series_name target]} ∪ affected) ∧
  (add_issues s f issues).(IntegritySummary.CheckedSymbols) = s.(IntegritySummary.CheckedSymbols).
Proof.
  intros [H1 H2 H3 H4 H5 H6 H7] Hof. unfold add_issues. rewrite count_issue_total, (count_incomplete_total issues 0).
  split; [|done]. split; cbn; rewrite ?number_of_app; try lia.
  - intros g. rewrite !number_in_app, !(number_in_other _ target f g issues) by done. destruct (decide (f = g)) as [<-|Hne].
    + rewrite lookup_insert_eq. cbn. by rewrite H5, count_issue_total.
    + rewrite lookup_insert_ne by (by intros ?%frame_name_inj). by rewrite H5, !Z.add_0_r.
  - intros g. rewrite !number_in_app, !(number_in_other _ target f g issues) by done. destruct (decide (f = g)) as [<-|Hne].
    + rewrite lookup_insert_eq. cbn. by rewrite H6.
    + rewrite lookup_insert_ne by (by intros ?%frame_name_inj). by rewrite H6, !Z.add_0_r.
  - intros x. assert (x ∈ affected ∨ (issues ≠ [] ∧ x = series_name target) ↔
       ∃ i, i ∈ s.(IntegritySummary.Issues) ++ issues ∧ x = issue_series i) as <-.
    { rewrite H7. split.
      - intros [(i & Hi & ->)|[Hne ->]]; [exists i; split; [set_solver|done]|]. destruct issues as [|i l]; [done|].
        exists i. split; [set_solver|]. apply Forall_cons in Hof as [(E1 & E2 & _) _]. unfold issue_series. by rewrite E1, E2.
      - intros (i & [Hi|Hi]%elem_of_app & ->); [left; by exists i|right]. split; [by intros ->; apply elem_of_nil in Hi|].
        rewrite Forall_forall in Hof. destruct (Hof i Hi) as (E1 & E2 & _). unfold issue_series. by rewrite E1, E2. }
    destruct issues; cbn; set_solver.
Qed.

(** ** The round *)

Definition not_published (c : call integrityE) : Prop :=
  match c with Call e _ => match e with SetIntegrity _ => False | _ => True end end.

Lemma each_query {X} (e : integrityE X) :
  (match e with SetIntegrity _ => False | _ => True end) → each (all_calls not_published) (trigger e).
Proof. intros He. apply each_trigger. intros x. constructor; [|constructor]. exact He. Qed.
#[local] Hint Extern 1 (each (all_calls not_published) (trigger _)) => (apply each_query; exact I) : each.

Lemma targets_not_published cfg has : each (all_calls not_published) (targets cfg has).
Proof. unfold targets, exchange_targets. each_auto. Qed.
Lemma auditSeries_not_published cfg target f : each (all_calls not_published) (auditSeries cfg target f).
Proof. unfold auditSeries, audit_bucket. each_auto. Qed.
#[local] Hint Resolve targets_not_published auditSeries_not_published : each.
Lemma audit_loop_not_published cfg acc l : each (all_calls not_published) (pfold_ok (audit_target cfg) acc l).
Proof. unfold audit_target, audit_frame. each_auto. Qed.

Lemma audit_target_counted cfg target s affected tr s' affected' :
  counted s (.∈ affected) → runs (audit_target cfg (s, affected) target) tr (Ok (s', affected')) →
  counted s' (.∈ affected') ∧
  s'.(IntegritySummary.CheckedSymbols) = s.(IntegritySummary.CheckedSymbols) + 1.
Proof.
  intros Hs Hr.
  eapply (runs_pfold_ok _ _ _ _ (s', affected') (λ _ _ '(s1, a1), counted s1 (.∈ a1) ∧
            s1.(IntegritySummary.CheckedSymbols) = s.(IntegritySummary.CheckedSymbols) + 1)); [| |exact Hr].
  - split; [|done]. by destruct Hs; split.
  - intros done f rest tr1 [s1 a1] tr2 [s2 a2] _ [H1 Hc] Hx. unfold audit_frame in Hx.
    apply runs_bind in Hx as (t3 & [issues|e] & t4 & -> & Hi & [_ Hx]%runs_Ret); [|done].
    injection Hx as -> ->. destruct (add_issues_counted s1 a1 target f issues H1) as [H2 ->]; [|by split].
    by eapply auditSeries_of.
Qed.

Lemma length_rotated all cursor count : all ≠ [] → length (rotated all cursor count) = count.
Proof.
  intros Hne. unfold rotated. assert (∀ l : list nat, length (omap (λ i, all !! ((cursor + i) mod length all)%nat) l) = length l) as ->;
    [|apply length_seq].
  induction l as [|i l IH]; [done|]. simpl.
  destruct (lookup_lt_is_Some_2 all ((cursor + i) mod length all)%nat) as [x ->]; [|simpl; by f_equal].
  apply Nat.mod_upper_bound. by destruct all.
Qed.

Lemma elements_sorted (X : gset string) :
  StronglySorted (λ a b, string_less a b = true) (sort_slice string_less (elements X)) ∧
  ∀ x, x ∈ sort_slice string_less (elements X) ↔ x ∈ X.
Proof.
  split; [|intros x; by rewrite (elem_of_sort_slice (less_str id)), elem_of_elements].
  pose proof (sort_slice_sorted (less_str id) (elements X)) as Hs. change (less_str id) with string_less in Hs.
  assert (NoDup (sort_slice string_less (elements X))) as Hnd by (rewrite sort_slice_perm; apply NoDup_elements).
  revert Hs Hnd. generalize (sort_slice string_less (elements X)) as l. intros l.
  induction 1 as [|x l Hs IH Hx]; [constructor|]. intros [Hnin Hnd]%NoDup_cons. constructor; [by apply IH|].
  rewrite Forall_forall in Hx |- *. intros y Hy. specialize (Hx y Hy). unfold not_after in Hx.
  destruct (string_less x y) eqn:E; [done|]. exfalso. apply Hnin. by rewrite (string_less_total x y E Hx).
Qed.


(** what a round of the integrity auditor publishes and keeps.  A round that
    fails publishes nothing and leaves the cursor where it was.  A round that
    succeeds publishes its summary once, as its last call, and the summary adds
    up: each of the four counters is the number of issues of that kind the
    summary lists, the counters of each timeframe are those of the issues of
    that timeframe, and the affected series are exactly the series with an
    issue, each once and in order.  It checked as many symbols as the
    configuration allows or all there are, and the cursor moved by as many. *)
Theorem integrity_summary_counts a has tr summary err a' :
  0 <= a.(IntegrityAuditor.cfg).(IntegrityConfig.SymbolsPerRun) →
  runs (AuditOnce a has) tr (summary, err, a') →
  match err with
  | Some _ => a' = a ∧ all_calls not_published tr
  | None =>
      (∃ before, tr = before ++ [Call (SetIntegrity summary) tt] ∧ all_calls not_published before) ∧
      counted summary (.∈ summary.(IntegritySummary.Affected)) ∧
      StronglySorted (λ a b, string_less a b = true) summary.(IntegritySummary.Affected) ∧
      ∃ all tr1 tr2, tr = tr1 ++ tr2 ∧ runs (targets a.(IntegrityAuditor.cfg) has) tr1 (Ok all) ∧
        let n := Z.of_nat (length all) in
        summary.(IntegritySummary.CheckedSymbols) = Z.min a.(IntegrityAuditor.cfg).(IntegrityConfig.SymbolsPerRun) n ∧
        a' = if n =? 0 then a
             else IntegrityAuditor.mk a.(IntegrityAuditor.cfg)
                    ((a.(IntegrityAuditor.cursor) + summary.(IntegritySummary.CheckedSymbols)) mod n)
  end.
Proof.
  intros Hn Hr. unfold AuditOnce in Hr. set (cfg := a.(IntegrityAuditor.cfg)) in *.
  apply runs_bind in Hr as (t1 & [all|e] & t2 & -> & Ht & Hr); pose proof (targets_not_published cfg has _ _ Ht) as Hp1.
  2: { apply runs_Ret in Hr as [-> [= -> -> ->]]. by rewrite app_nil_r. }
  destruct (decide (all = [])) as [->|Hne].
  - apply runs_bind in Hr as (t3 & now & t4 & -> & ->%runs_trigger & Hr).
    apply runs_bind in Hr as (t5 & [] & t6 & -> & ->%runs_trigger & [-> [= -> -> ->]]%runs_Ret). rewrite app_nil_r, (assoc_L (++)).
    split_and!.
    + exists (t1 ++ [Call Now now]). split; [done|]. apply Forall_app. split; [done|]. by repeat constructor.
    + split; cbn; try done. all: try (intros f; by rewrite lookup_empty).
      intros x. split; [by intros ?%elem_of_nil|]. by intros (i & ?%elem_of_nil & _).
    + constructor.
    + exists [], t1, ([Call Now now] ++ [Call (SetIntegrity (IntegritySummary.mk now 0 0 0 0 0 [] ∅ ∅ [])) ()]).
      split; [by rewrite (assoc_L (++))|]. split; [done|]. cbn. split; [lia|done].
  - destruct all as [|target rest]; [done|]. set (all := target :: rest) in *.
    apply runs_bind in Hr as (t3 & now & t4 & -> & ->%runs_trigger & Hr).
    apply runs_bind in Hr as (t5 & acc & t6 & -> & Hl & Hr).
    set (n := Z.of_nat (length all)) in *. assert (0 < n) by (unfold n, all; simpl; lia).
    set (count := Z.min cfg.(IntegrityConfig.SymbolsPerRun) n) in *.
    set (chosen := rotated all _ _) in Hl.
    pose proof (audit_loop_not_published _ _ _ _ _ Hl) as Hp2.
    destruct acc as [[s affected]|[s e]].
    2: { apply runs_Ret in Hr as [-> [= -> -> ->]]. split; [done|]. rewrite app_nil_r.
         apply Forall_app. split; [done|]. apply Forall_app. split; [by repeat constructor|done]. }
    apply runs_bind in Hr as (t7 & [] & t8 & -> & ->%runs_trigger & [-> [= -> -> ->]]%runs_Ret). rewrite app_nil_r.
    assert (counted s (.∈ affected) ∧ s.(IntegritySummary.CheckedSymbols) = Z.of_nat (length chosen)) as [Hc Hk].
    { eapply (runs_pfold_ok _ _ _ _ (s, affected) (λ done _ '(s1, a1), counted s1 (.∈ a1) ∧
                s1.(IntegritySummary.CheckedSymbols) = Z.of_nat (length done))); [| |exact Hl].
      - split; [|done]. split; cbn; try done. all: try (intros f; by rewrite lookup_empty).
        intros x. split; [by intros ?%elem_of_empty|]. by intros (i & ?%elem_of_nil & _).
      - intros done x more tr1 [s1 a1] tr2 [s2 a2] _ [H1 Hk] Hx.
        destruct (audit_target_counted _ _ _ _ _ _ _ H1 Hx) as [? ->]. split; [done|]. rewrite length_app. simpl. lia. }
    unfold chosen in Hk. rewrite length_rotated, Z2Nat.id in Hk by (done || lia).
    destruct (elements_sorted affected) as [Hso Hel]. split_and!.
    + exists (t1 ++ [Call Now now] ++ t5). split; [by rewrite <- !(assoc_L (++))|].
      apply Forall_app. split; [done|]. apply Forall_app. split; [by repeat constructor|done].
    + destruct Hc. split; try done. intros x. cbn. by rewrite Hel.
    + done.
    + eexists all, t1, _. split; [done|]. split; [done|]. fold n. cbn [set_affected IntegritySummary.CheckedSymbols]. split; [by rewrite Hk|]. rewrite (proj2 (Z.eqb_neq n 0)) by lia. by rewrite Hk.
Qed.

(** ** The theorem at work *)

(** One symbol is listed; its candles are those of [sample_series]. *)
Definition sample_round (listed : result go_error (list SymbolInfo)) : handler integrityE (list IntegritySummary) := fun X e w =>
  match e in integrityE X return option (X * list IntegritySummary) with
  | ListActiveSymbols _ => Some (listed, w)
  | ListSyncs => Some (Ok [], w)
  | ListSnapshots _ => Some (Ok [], w)
  | SetIntegrity summary => Some (tt, w ++ [summary])
  | Now => match sample_series _ Now tt with Some (now, _) => Some (now, w) | None => None end
  | BarsInRange ex sym tf s e =>
      match sample_series _ (BarsInRange ex sym tf s e) tt with Some (bars, _) => Some (bars, w) | None => None end
  end.
Definition sample_integrity : IntegrityAuditor := IntegrityAuditor.mk sample_auditor 0.

Example integrity_summary_counts_witness :
  (∃ tr summary a', runs (AuditOnce sample_integrity true) tr (summary, None, a') ∧
     summary.(IntegritySummary.Missing) = 1 ∧ summary.(IntegritySummary.SourceIncomplete) = 1 ∧
     counted summary (.∈ summary.(IntegritySummary.Affected))) ∧
  (∃ tr summary e a', runs (AuditOnce sample_integrity true) tr (summary, Some e, a') ∧ a' = sample_integrity).
Proof.
  split.
  - destruct (exec (sample_round (Ok [sample_symbol])) (AuditOnce sample_integrity true) []) as [[[tr [[summary err] a']] w]|] eqn:E;
      [|vm_compute in E; discriminate].
    destruct err as [e|]; [vm_compute in E; discriminate|]. exists tr, summary, a'. assert (Hr := exec_runs _ _ _ _ _ _ E).
    split; [exact Hr|].
    assert (summary.(IntegritySummary.Missing) = 1 ∧ summary.(IntegritySummary.SourceIncomplete) = 1) as [H1 H2]
      by (vm_compute in E; injection E as <- <- <-; split; reflexivity).
    split; [exact H1|]. split; [exact H2|].
    exact (proj1 (proj2 (integrity_summary_counts sample_integrity true tr summary None a' ltac:(vm_compute; congruence) Hr))).
  - destruct (exec (sample_round (Err (Errorf "connection refused"))) (AuditOnce sample_integrity true) []) as [[[tr [[summary err] a']] w]|] eqn:E;
      [|vm_compute in E; discriminate].
    destruct err as [e|]; [|vm_compute in E; discriminate]. exists tr, summary, e, a'. assert (Hr := exec_runs _ _ _ _ _ _ E).
    split; [exact Hr|].
    exact (proj1 (integrity_summary_counts sample_integrity true tr summary (Some e) a' ltac:(vm_compute; congruence) Hr)).
Defined.
