(* ===== verification/Registry.v ===== *)
(** * The monitoring registry (internal/monitoring/registry.go)

    The registry keeps what the workers report: per market the connections, the
    last message, candle and writes; per symbol the last final candle; and lists
    of timed observations, from which [Snapshot] counts the last minutes and
    which it cuts to what it still needs.  A method is one step: the readings of
    the clock are its arguments.  The zero [time.Time] is [None].  The metrics
    are kept by the prometheus library; the model records the calls on them. *)

From S2P Require Export GoTime Integrity.

Local Open Scope string_scope.
Local Open Scope Z_scope.
Local Open Scope list_scope.

Definition u64 (z : Z) : Z := z mod two64.
Definition observationRetention : Z := 5 * Minute.
Definition guardianEventRetention : Z := 30 * Minute.

(** ** Data *)

Module runtimeKey.
Record runtimeKey : Set := mk { Exchange : string; MarketType : string }.
End runtimeKey.
Notation runtimeKey := runtimeKey.runtimeKey.
#[export] Instance runtimeKey_eq_dec : EqDecision runtimeKey.
Proof. solve_decision. Defined.
#[export] Program Instance runtimeKey_countable : Countable runtimeKey :=
  inj_countable' (λ k, (k.(runtimeKey.Exchange), k.(runtimeKey.MarketType))) (λ p, runtimeKey.mk p.1 p.2) _.
Next Obligation. by intros []. Qed.

Module runtimeState.
Record runtimeState : Type := mk {
  Connected : Z; SubscribedSymbols : Z;
  LastMessageAt : option Z; LastBarAt : option Z; LastFinalAt : option Z;
  LastFinalStartMS : Z;
  LastPersistedAt : option Z; LastPublishedAt : option Z;
  Reconnects : list Z; ConnectAttempts : list Z; ConnectSuccesses : list Z; ParseErrors : list Z; IngestErrors : list Z;
  ReceivedTotal : Z; FinalIngestedTotal : Z
}.
Definition set_Connected (v : Z) (b : runtimeState) : runtimeState := let 'mk _ xSubscribedSymbols
  xLastMessageAt xLastBarAt xLastFinalAt xLastFinalStartMS xLastPersistedAt xLastPublishedAt xReconnects
  xConnectAttempts xConnectSuccesses xParseErrors xIngestErrors xReceivedTotal xFinalIngestedTotal := b in mk
  v xSubscribedSymbols xLastMessageAt xLastBarAt xLastFinalAt xLastFinalStartMS xLastPersistedAt
  xLastPublishedAt xReconnects xConnectAttempts xConnectSuccesses xParseErrors xIngestErrors xReceivedTotal
  xFinalIngestedTotal.
Definition set_SubscribedSymbols (v : Z) (b : runtimeState) : runtimeState := let 'mk xConnected _
  xLastMessageAt xLastBarAt xLastFinalAt xLastFinalStartMS xLastPersistedAt xLastPublishedAt xReconnects
  xConnectAttempts xConnectSuccesses xParseErrors xIngestErrors xReceivedTotal xFinalIngestedTotal := b in mk
  xConnected v xLastMessageAt xLastBarAt xLastFinalAt xLastFinalStartMS xLastPersistedAt xLastPublishedAt
  xReconnects xConnectAttempts xConnectSuccesses xParseErrors xIngestErrors xReceivedTotal
  xFinalIngestedTotal.
Definition set_LastMessageAt (v : option Z) (b : runtimeState) : runtimeState := let 'mk xConnected
  xSubscribedSymbols _ xLastBarAt xLastFinalAt xLastFinalStartMS xLastPersistedAt xLastPublishedAt xReconnects
  xConnectAttempts xConnectSuccesses xParseErrors xIngestErrors xReceivedTotal xFinalIngestedTotal := b in mk
  xConnected xSubscribedSymbols v xLastBarAt xLastFinalAt xLastFinalStartMS xLastPersistedAt xLastPublishedAt
  xReconnects xConnectAttempts xConnectSuccesses xParseErrors xIngestErrors xReceivedTotal
  xFinalIngestedTotal.
Definition set_LastBarAt (v : option Z) (b : runtimeState) : runtimeState := let 'mk xConnected
  xSubscribedSymbols xLastMessageAt _ xLastFinalAt xLastFinalStartMS xLastPersistedAt xLastPublishedAt
  xReconnects xConnectAttempts xConnectSuccesses xParseErrors xIngestErrors xReceivedTotal xFinalIngestedTotal
  := b in mk xConnected xSubscribedSymbols xLastMessageAt v xLastFinalAt xLastFinalStartMS xLastPersistedAt
  xLastPublishedAt xReconnects xConnectAttempts xConnectSuccesses xParseErrors xIngestErrors xReceivedTotal
  xFinalIngestedTotal.
Definition set_LastFinalAt (v : option Z) (b : runtimeState) : runtimeState := let 'mk xConnected
  xSubscribedSymbols xLastMessageAt xLastBarAt _ xLastFinalStartMS xLastPersistedAt xLastPublishedAt
  xReconnects xConnectAttempts xConnectSuccesses xParseErrors xIngestErrors xReceivedTotal xFinalIngestedTotal
  := b in mk xConnected xSubscribedSymbols xLastMessageAt xLastBarAt v xLastFinalStartMS xLastPersistedAt
  xLastPublishedAt xReconnects xConnectAttempts xConnectSuccesses xParseErrors xIngestErrors xReceivedTotal
  xFinalIngestedTotal.
Definition set_LastFinalStartMS (v : Z) (b : runtimeState) : runtimeState := let 'mk xConnected
  xSubscribedSymbols xLastMessageAt xLastBarAt xLastFinalAt _ xLastPersistedAt xLastPublishedAt xReconnects
  xConnectAttempts xConnectSuccesses xParseErrors xIngestErrors xReceivedTotal xFinalIngestedTotal := b in mk
  xConnected xSubscribedSymbols xLastMessageAt xLastBarAt xLastFinalAt v xLastPersistedAt xLastPublishedAt
  xReconnects xConnectAttempts xConnectSuccesses xParseErrors xIngestErrors xReceivedTotal
  xFinalIngestedTotal.
Definition set_LastPersistedAt (v : option Z) (b : runtimeState) : runtimeState := let 'mk xConnected
  xSubscribedSymbols xLastMessageAt xLastBarAt xLastFinalAt xLastFinalStartMS _ xLastPublishedAt xReconnects
  xConnectAttempts xConnectSuccesses xParseErrors xIngestErrors xReceivedTotal xFinalIngestedTotal := b in mk
  xConnected xSubscribedSymbols xLastMessageAt xLastBarAt xLastFinalAt xLastFinalStartMS v xLastPublishedAt
  xReconnects xConnectAttempts xConnectSuccesses xParseErrors xIngestErrors xReceivedTotal
  xFinalIngestedTotal.
Definition set_LastPublishedAt (v : option Z) (b : runtimeState) : runtimeState := let 'mk xConnected
  xSubscribedSymbols xLastMessageAt xLastBarAt xLastFinalAt xLastFinalStartMS xLastPersistedAt _ xReconnects
  xConnectAttempts xConnectSuccesses xParseErrors xIngestErrors xReceivedTotal xFinalIngestedTotal := b in mk
  xConnected xSubscribedSymbols xLastMessageAt xLastBarAt xLastFinalAt xLastFinalStartMS xLastPersistedAt v
  xReconnects xConnectAttempts xConnectSuccesses xParseErrors xIngestErrors xReceivedTotal
  xFinalIngestedTotal.
Definition set_Reconnects (v : list Z) (b : runtimeState) : runtimeState := let 'mk xConnected
  xSubscribedSymbols xLastMessageAt xLastBarAt xLastFinalAt xLastFinalStartMS xLastPersistedAt
  xLastPublishedAt _ xConnectAttempts xConnectSuccesses xParseErrors xIngestErrors xReceivedTotal
  xFinalIngestedTotal := b in mk xConnected xSubscribedSymbols xLastMessageAt xLastBarAt xLastFinalAt
  xLastFinalStartMS xLastPersistedAt xLastPublishedAt v xConnectAttempts xConnectSuccesses xParseErrors
  xIngestErrors xReceivedTotal xFinalIngestedTotal.
Definition set_ConnectAttempts (v : list Z) (b : runtimeState) : runtimeState := let 'mk xConnected
  xSubscribedSymbols xLastMessageAt xLastBarAt xLastFinalAt xLastFinalStartMS xLastPersistedAt
  xLastPublishedAt xReconnects _ xConnectSuccesses xParseErrors xIngestErrors xReceivedTotal
  xFinalIngestedTotal := b in mk xConnected xSubscribedSymbols xLastMessageAt xLastBarAt xLastFinalAt
  xLastFinalStartMS xLastPersistedAt xLastPublishedAt xReconnects v xConnectSuccesses xParseErrors
  xIngestErrors xReceivedTotal xFinalIngestedTotal.
Definition set_ConnectSuccesses (v : list Z) (b : runtimeState) : runtimeState := let 'mk xConnected
  xSubscribedSymbols xLastMessageAt xLastBarAt xLastFinalAt xLastFinalStartMS xLastPersistedAt
  xLastPublishedAt xReconnects xConnectAttempts _ xParseErrors xIngestErrors xReceivedTotal
  xFinalIngestedTotal := b in mk xConnected xSubscribedSymbols xLastMessageAt xLastBarAt xLastFinalAt
  xLastFinalStartMS xLastPersistedAt xLastPublishedAt xReconnects xConnectAttempts v xParseErrors
  xIngestErrors xReceivedTotal xFinalIngestedTotal.
Definition set_ParseErrors (v : list Z) (b : runtimeState) : runtimeState := let 'mk xConnected
  xSubscribedSymbols xLastMessageAt xLastBarAt xLastFinalAt xLastFinalStartMS xLastPersistedAt
  xLastPublishedAt xReconnects xConnectAttempts xConnectSuccesses _ xIngestErrors xReceivedTotal
  xFinalIngestedTotal := b in mk xConnected xSubscribedSymbols xLastMessageAt xLastBarAt xLastFinalAt
  xLastFinalStartMS xLastPersistedAt xLastPublishedAt xReconnects xConnectAttempts xConnectSuccesses v
  xIngestErrors xReceivedTotal xFinalIngestedTotal.
Definition set_IngestErrors (v : list Z) (b : runtimeState) : runtimeState := let 'mk xConnected
  xSubscribedSymbols xLastMessageAt xLastBarAt xLastFinalAt xLastFinalStartMS xLastPersistedAt
  xLastPublishedAt xReconnects xConnectAttempts xConnectSuccesses xParseErrors _ xReceivedTotal
  xFinalIngestedTotal := b in mk xConnected xSubscribedSymbols xLastMessageAt xLastBarAt xLastFinalAt
  xLastFinalStartMS xLastPersistedAt xLastPublishedAt xReconnects xConnectAttempts xConnectSuccesses
  xParseErrors v xReceivedTotal xFinalIngestedTotal.
Definition set_ReceivedTotal (v : Z) (b : runtimeState) : runtimeState := let 'mk xConnected
  xSubscribedSymbols xLastMessageAt xLastBarAt xLastFinalAt xLastFinalStartMS xLastPersistedAt
  xLastPublishedAt xReconnects xConnectAttempts xConnectSuccesses xParseErrors xIngestErrors _
  xFinalIngestedTotal := b in mk xConnected xSubscribedSymbols xLastMessageAt xLastBarAt xLastFinalAt
  xLastFinalStartMS xLastPersistedAt xLastPublishedAt xReconnects xConnectAttempts xConnectSuccesses
  xParseErrors xIngestErrors v xFinalIngestedTotal.
Definition set_FinalIngestedTotal (v : Z) (b : runtimeState) : runtimeState := let 'mk xConnected
  xSubscribedSymbols xLastMessageAt xLastBarAt xLastFinalAt xLastFinalStartMS xLastPersistedAt
  xLastPublishedAt xReconnects xConnectAttempts xConnectSuccesses xParseErrors xIngestErrors xReceivedTotal _
  := b in mk xConnected xSubscribedSymbols xLastMessageAt xLastBarAt xLastFinalAt xLastFinalStartMS
  xLastPersistedAt xLastPublishedAt xReconnects xConnectAttempts xConnectSuccesses xParseErrors xIngestErrors
  xReceivedTotal v.
Definition zero : runtimeState := mk 0 0 None None None 0 None None [] [] [] [] [] 0 0.
End runtimeState.
Notation runtimeState := runtimeState.runtimeState.

Module symbolState.
Record symbolState : Type := mk {
  Runtime : runtimeKey;
  Subscribed : bool;
  LastFinalAt : option Z;
  LastFinalStartMS : Z;
  Continuous : bool
}.
Definition set_Runtime (v : runtimeKey) (b : symbolState) : symbolState := let 'mk _ xSubscribed xLastFinalAt
  xLastFinalStartMS xContinuous := b in mk v xSubscribed xLastFinalAt xLastFinalStartMS xContinuous.
Definition set_Subscribed (v : bool) (b : symbolState) : symbolState := let 'mk xRuntime _ xLastFinalAt
  xLastFinalStartMS xContinuous := b in mk xRuntime v xLastFinalAt xLastFinalStartMS xContinuous.
Definition set_LastFinalAt (v : option Z) (b : symbolState) : symbolState := let 'mk xRuntime xSubscribed _
  xLastFinalStartMS xContinuous := b in mk xRuntime xSubscribed v xLastFinalStartMS xContinuous.
Definition set_LastFinalStartMS (v : Z) (b : symbolState) : symbolState := let 'mk xRuntime xSubscribed
  xLastFinalAt _ xContinuous := b in mk xRuntime xSubscribed xLastFinalAt v xContinuous.
Definition set_Continuous (v : bool) (b : symbolState) : symbolState := let 'mk xRuntime xSubscribed
  xLastFinalAt xLastFinalStartMS _ := b in mk xRuntime xSubscribed xLastFinalAt xLastFinalStartMS v.
Definition zero : symbolState := mk (runtimeKey.mk "" "") false None 0 false.
End symbolState.
Notation symbolState := symbolState.symbolState.

Module timedGuardianEvent.
Record timedGuardianEvent : Type := mk {
  At : Z;
  Event : KlineGuardianEvent
}.
End timedGuardianEvent.
Notation timedGuardianEvent := timedGuardianEvent.timedGuardianEvent.

Module httpObservation.
Record httpObservation : Type := mk {
  At : Z; StatusCode : Z; Duration : Z
}.
End httpObservation.
Notation httpObservation := httpObservation.httpObservation.

Module storageObservation.
Record storageObservation : Type := mk {
  At : Z;
  Operation : string;
  Duration : Z;
  Failed : bool
}.
End storageObservation.
Notation storageObservation := storageObservation.storageObservation.

Module wsHandshakeObservation.
Record wsHandshakeObservation : Type := mk {
  At : Z;
  Success : bool
}.
End wsHandshakeObservation.
Notation wsHandshakeObservation := wsHandshakeObservation.wsHandshakeObservation.

Module wsWriteObservation.
Record wsWriteObservation : Type := mk {
  At : Z;
  Success : bool
}.
End wsWriteObservation.
Notation wsWriteObservation := wsWriteObservation.wsWriteObservation.

Module GuardianAuditSnapshot.
Record GuardianAuditSnapshot : Type := mk {
  Success : bool;
  CheckedSymbols : Z; CheckedBars : Z; FailedSymbols : Z; Duration : Z; CompletedAtMS : Z
}.
Definition zero : GuardianAuditSnapshot := mk false 0 0 0 0 0.
End GuardianAuditSnapshot.
Notation GuardianAuditSnapshot := GuardianAuditSnapshot.GuardianAuditSnapshot.

Module ResourceSnapshot.
Record ResourceSnapshot : Type := mk {
  SampledAtMS : Z;
  CPURatio : float64; HostCPURatio : float64;
  RSSBytes : Z;
  MemoryRatio : float64;
  HostMemoryUsedBytes : Z; HostMemoryTotalBytes : Z;
  HostMemoryRatio : float64;
  OpenFDs : Z; FDLimit : Z;
  FDRatio : float64;
  Goroutines : Z; DiskUsedBytes : Z; DiskTotalBytes : Z;
  DiskRatio : float64
}.
Definition zero : ResourceSnapshot := mk 0 f64_zero f64_zero 0 f64_zero 0 0 f64_zero 0 0 f64_zero 0 0 0 f64_zero.
End ResourceSnapshot.
Notation ResourceSnapshot := ResourceSnapshot.ResourceSnapshot.

Module MySQLSnapshot.
Record MySQLSnapshot : Type := mk {
  Available : bool;
  LastError : string;
  PingLatency : Z; MaxOpenConnections : Z; OpenConnections : Z; InUse : Z; Idle : Z; WaitCount : Z; WaitDuration : Z; ThreadsConnected : Z; ThreadsRunning : Z; MaxUsedConnections : Z;
  QPS : float64;
  SlowQueries : Z
}.
Definition set_LastError (v : string) (b : MySQLSnapshot) : MySQLSnapshot := let 'mk xAvailable _ xPingLatency
  xMaxOpenConnections xOpenConnections xInUse xIdle xWaitCount xWaitDuration xThreadsConnected xThreadsRunning
  xMaxUsedConnections xQPS xSlowQueries := b in mk xAvailable v xPingLatency xMaxOpenConnections
  xOpenConnections xInUse xIdle xWaitCount xWaitDuration xThreadsConnected xThreadsRunning xMaxUsedConnections
  xQPS xSlowQueries.
Definition zero : MySQLSnapshot := mk false "" 0 0 0 0 0 0 0 0 0 0 f64_zero 0.
End MySQLSnapshot.
Notation MySQLSnapshot := MySQLSnapshot.MySQLSnapshot.

Module RedisServerStatus.
Record RedisServerStatus : Type := mk {
  ConnectedClients : Z; BlockedClients : Z; MaxClients : Z; UsedMemoryBytes : Z; OpsPerSecond : Z; RejectedConnections : Z; TotalConnections : Z; TotalCommandsProcessed : Z; UptimeSeconds : Z
}.
Definition zero : RedisServerStatus := mk 0 0 0 0 0 0 0 0 0.
End RedisServerStatus.
Notation RedisServerStatus := RedisServerStatus.RedisServerStatus.

Module RedisPoolStatus.
Record RedisPoolStatus : Type := mk {
  Hits : Z; Misses : Z; Timeouts : Z; TotalConns : Z; IdleConns : Z; StaleConns : Z
}.
Definition zero : RedisPoolStatus := mk 0 0 0 0 0 0.
End RedisPoolStatus.
Notation RedisPoolStatus := RedisPoolStatus.RedisPoolStatus.

Module RedisSnapshot.
Record RedisSnapshot : Type := mk {
  Enabled : bool; Available : bool;
  LastError : string;
  PingLatency : Z;
  Server : RedisServerStatus;
  Pool : RedisPoolStatus
}.
Definition zero : RedisSnapshot := mk false false "" 0 RedisServerStatus.zero RedisPoolStatus.zero.
End RedisSnapshot.
Notation RedisSnapshot := RedisSnapshot.RedisSnapshot.

Module RuntimeSnapshot.
Record RuntimeSnapshot : Type := mk {
  Exchange : string; MarketType : string;
  Connected : Z; SubscribedSymbols : Z; LastMessageMS : Z; LastBarMS : Z; LastFinalMS : Z; LastFinalStartMS : Z; LastPersistedMS : Z; LastPublishedMS : Z;
  Reconnects5m : Z; Reconnects10m : Z; ConnectAttempts5m : Z; ConnectSuccesses5m : Z; ConnectFailures5m : Z; ParseErrors5m : Z; IngestErrors5m : Z;
  ReceivedTotal : Z; FinalIngestedTotal : Z
}.
End RuntimeSnapshot.
Notation RuntimeSnapshot := RuntimeSnapshot.RuntimeSnapshot.

(** [monitoring.SymbolSnapshot]. *)
Module SymbolQuality.
Record SymbolQuality : Type := mk {
  Exchange : string; MarketType : string; Symbol : string;
  LastFinalMS : Z; LastFinalStartMS : Z;
  Continuous : bool; Subscribed : bool
}.
End SymbolQuality.
Notation SymbolQuality := SymbolQuality.SymbolQuality.

Module WindowSnapshot.
Record WindowSnapshot : Type := mk {
  HTTPRequests5m : Z; HTTP5xx5m : Z; HTTPP95 : Z; HTTPConnections : Z; WSDrops5m : Z; WSConnections : Z;
  WSHandshakeAttempts5m : Z; WSHandshakeSuccesses5m : Z; WSHandshakeFailures5m : Z;
  WSWriteAttempts5m : Z; WSWriteSuccesses5m : Z; WSWriteFailures5m : Z;
  GuardianEvents5m : gmap string Z; GuardianSymbols5m : gmap string Z;
  StorageP95 : Z; StorageFailures5m : Z;
  GuardianTotals : gmap string Z;
  GuardianEvents30m : list KlineGuardianEvent;
  GuardianAudit : GuardianAuditSnapshot;
  HTTPRequestsTotal : Z; HTTP5xxTotal : Z; WSDropsTotal : Z; WSWritesTotal : Z; WSWriteFailuresTotal : Z;
  Integrity : IntegritySummary
}.
End WindowSnapshot.
Notation WindowSnapshot := WindowSnapshot.WindowSnapshot.

Module Snapshot.
Record Snapshot : Type := mk {
  StartedAt : Z;
  Runtimes : list RuntimeSnapshot;
  Symbols : list SymbolQuality;
  Window : WindowSnapshot;
  Resources : ResourceSnapshot;
  MySQL : MySQLSnapshot;
  Redis : RedisSnapshot
}.
End Snapshot.
Notation Snapshot := Snapshot.Snapshot.

(** The calls on the metrics, by the field of the registry that holds them. *)
Inductive metric : Type :=
| Set_ (name : string) (labels : list string) (value : float64)
| Inc (name : string) (labels : list string)
| Add (name : string) (labels : list string) (value : float64)
| Subtract (name : string) (labels : list string) (value : float64)
| Observe (name : string) (labels : list string) (value : float64).

Module Registry.
Record Registry : Type := mk {
  startedAt : Z;
  runtimes : gmap runtimeKey runtimeState;
  symbols : gmap string symbolState;
  guardianEvents : list timedGuardianEvent;
  httpRequests : list httpObservation;
  storageOps : list storageObservation;
  wsDrops : list Z;
  wsHandshakes : list wsHandshakeObservation;
  wsWrites : list wsWriteObservation;
  guardianTotals : gmap string Z;
  httpTotal : Z; http5xxTotal : Z; wsDropsTotal : Z; wsWritesTotal : Z; wsWriteFailuresTotal : Z; httpConnections : Z; wsConnectionsCurrent : Z;
  integrity : IntegritySummary;
  resources : ResourceSnapshot;
  mysql : MySQLSnapshot;
  redis : RedisSnapshot;
  guardianAudit : GuardianAuditSnapshot;
  metrics : list metric
}.
Definition set_runtimes (v : gmap runtimeKey runtimeState) (b : Registry) : Registry := let 'mk xstartedAt _
  xsymbols xguardianEvents xhttpRequests xstorageOps xwsDrops xwsHandshakes xwsWrites xguardianTotals
  xhttpTotal xhttp5xxTotal xwsDropsTotal xwsWritesTotal xwsWriteFailuresTotal xhttpConnections
  xwsConnectionsCurrent xintegrity xresources xmysql xredis xguardianAudit xmetrics := b in mk xstartedAt v
  xsymbols xguardianEvents xhttpRequests xstorageOps xwsDrops xwsHandshakes xwsWrites xguardianTotals
  xhttpTotal xhttp5xxTotal xwsDropsTotal xwsWritesTotal xwsWriteFailuresTotal xhttpConnections
  xwsConnectionsCurrent xintegrity xresources xmysql xredis xguardianAudit xmetrics.
Definition set_symbols (v : gmap string symbolState) (b : Registry) : Registry := let 'mk xstartedAt xruntimes
  _ xguardianEvents xhttpRequests xstorageOps xwsDrops xwsHandshakes xwsWrites xguardianTotals xhttpTotal
  xhttp5xxTotal xwsDropsTotal xwsWritesTotal xwsWriteFailuresTotal xhttpConnections xwsConnectionsCurrent
  xintegrity xresources xmysql xredis xguardianAudit xmetrics := b in mk xstartedAt xruntimes v
  xguardianEvents xhttpRequests xstorageOps xwsDrops xwsHandshakes xwsWrites xguardianTotals xhttpTotal
  xhttp5xxTotal xwsDropsTotal xwsWritesTotal xwsWriteFailuresTotal xhttpConnections xwsConnectionsCurrent
  xintegrity xresources xmysql xredis xguardianAudit xmetrics.
Definition set_guardianEvents (v : list timedGuardianEvent) (b : Registry) : Registry := let 'mk xstartedAt
  xruntimes xsymbols _ xhttpRequests xstorageOps xwsDrops xwsHandshakes xwsWrites xguardianTotals xhttpTotal
  xhttp5xxTotal xwsDropsTotal xwsWritesTotal xwsWriteFailuresTotal xhttpConnections xwsConnectionsCurrent
  xintegrity xresources xmysql xredis xguardianAudit xmetrics := b in mk xstartedAt xruntimes xsymbols v
  xhttpRequests xstorageOps xwsDrops xwsHandshakes xwsWrites xguardianTotals xhttpTotal xhttp5xxTotal
  xwsDropsTotal xwsWritesTotal xwsWriteFailuresTotal xhttpConnections xwsConnectionsCurrent xintegrity
  xresources xmysql xredis xguardianAudit xmetrics.
Definition set_httpRequests (v : list httpObservation) (b : Registry) : Registry := let 'mk xstartedAt
  xruntimes xsymbols xguardianEvents _ xstorageOps xwsDrops xwsHandshakes xwsWrites xguardianTotals xhttpTotal
  xhttp5xxTotal xwsDropsTotal xwsWritesTotal xwsWriteFailuresTotal xhttpConnections xwsConnectionsCurrent
  xintegrity xresources xmysql xredis xguardianAudit xmetrics := b in mk xstartedAt xruntimes xsymbols
  xguardianEvents v xstorageOps xwsDrops xwsHandshakes xwsWrites xguardianTotals xhttpTotal xhttp5xxTotal
  xwsDropsTotal xwsWritesTotal xwsWriteFailuresTotal xhttpConnections xwsConnectionsCurrent xintegrity
  xresources xmysql xredis xguardianAudit xmetrics.
Definition set_storageOps (v : list storageObservation) (b : Registry) : Registry := let 'mk xstartedAt
  xruntimes xsymbols xguardianEvents xhttpRequests _ xwsDrops xwsHandshakes xwsWrites xguardianTotals
  xhttpTotal xhttp5xxTotal xwsDropsTotal xwsWritesTotal xwsWriteFailuresTotal xhttpConnections
  xwsConnectionsCurrent xintegrity xresources xmysql xredis xguardianAudit xmetrics := b in mk xstartedAt
  xruntimes xsymbols xguardianEvents xhttpRequests v xwsDrops xwsHandshakes xwsWrites xguardianTotals
  xhttpTotal xhttp5xxTotal xwsDropsTotal xwsWritesTotal xwsWriteFailuresTotal xhttpConnections
  xwsConnectionsCurrent xintegrity xresources xmysql xredis xguardianAudit xmetrics.
Definition set_wsDrops (v : list Z) (b : Registry) : Registry := let 'mk xstartedAt xruntimes xsymbols
  xguardianEvents xhttpRequests xstorageOps _ xwsHandshakes xwsWrites xguardianTotals xhttpTotal xhttp5xxTotal
  xwsDropsTotal xwsWritesTotal xwsWriteFailuresTotal xhttpConnections xwsConnectionsCurrent xintegrity
  xresources xmysql xredis xguardianAudit xmetrics := b in mk xstartedAt xruntimes xsymbols xguardianEvents
  xhttpRequests xstorageOps v xwsHandshakes xwsWrites xguardianTotals xhttpTotal xhttp5xxTotal xwsDropsTotal
  xwsWritesTotal xwsWriteFailuresTotal xhttpConnections xwsConnectionsCurrent xintegrity xresources xmysql
  xredis xguardianAudit xmetrics.
Definition set_wsHandshakes (v : list wsHandshakeObservation) (b : Registry) : Registry := let 'mk xstartedAt
  xruntimes xsymbols xguardianEvents xhttpRequests xstorageOps xwsDrops _ xwsWrites xguardianTotals xhttpTotal
  xhttp5xxTotal xwsDropsTotal xwsWritesTotal xwsWriteFailuresTotal xhttpConnections xwsConnectionsCurrent
  xintegrity xresources xmysql xredis xguardianAudit xmetrics := b in mk xstartedAt xruntimes xsymbols
  xguardianEvents xhttpRequests xstorageOps xwsDrops v xwsWrites xguardianTotals xhttpTotal xhttp5xxTotal
  xwsDropsTotal xwsWritesTotal xwsWriteFailuresTotal xhttpConnections xwsConnectionsCurrent xintegrity
  xresources xmysql xredis xguardianAudit xmetrics.
Definition set_wsWrites (v : list wsWriteObservation) (b : Registry) : Registry := let 'mk xstartedAt
  xruntimes xsymbols xguardianEvents xhttpRequests xstorageOps xwsDrops xwsHandshakes _ xguardianTotals
  xhttpTotal xhttp5xxTotal xwsDropsTotal xwsWritesTotal xwsWriteFailuresTotal xhttpConnections
  xwsConnectionsCurrent xintegrity xresources xmysql xredis xguardianAudit xmetrics := b in mk xstartedAt
  xruntimes xsymbols xguardianEvents xhttpRequests xstorageOps xwsDrops xwsHandshakes v xguardianTotals
  xhttpTotal xhttp5xxTotal xwsDropsTotal xwsWritesTotal xwsWriteFailuresTotal xhttpConnections
  xwsConnectionsCurrent xintegrity xresources xmysql xredis xguardianAudit xmetrics.
Definition set_guardianTotals (v : gmap string Z) (b : Registry) : Registry := let 'mk xstartedAt xruntimes
  xsymbols xguardianEvents xhttpRequests xstorageOps xwsDrops xwsHandshakes xwsWrites _ xhttpTotal
  xhttp5xxTotal xwsDropsTotal xwsWritesTotal xwsWriteFailuresTotal xhttpConnections xwsConnectionsCurrent
  xintegrity xresources xmysql xredis xguardianAudit xmetrics := b in mk xstartedAt xruntimes xsymbols
  xguardianEvents xhttpRequests xstorageOps xwsDrops xwsHandshakes xwsWrites v xhttpTotal xhttp5xxTotal
  xwsDropsTotal xwsWritesTotal xwsWriteFailuresTotal xhttpConnections xwsConnectionsCurrent xintegrity
  xresources xmysql xredis xguardianAudit xmetrics.
Definition set_httpTotal (v : Z) (b : Registry) : Registry := let 'mk xstartedAt xruntimes xsymbols
  xguardianEvents xhttpRequests xstorageOps xwsDrops xwsHandshakes xwsWrites xguardianTotals _ xhttp5xxTotal
  xwsDropsTotal xwsWritesTotal xwsWriteFailuresTotal xhttpConnections xwsConnectionsCurrent xintegrity
  xresources xmysql xredis xguardianAudit xmetrics := b in mk xstartedAt xruntimes xsymbols xguardianEvents
  xhttpRequests xstorageOps xwsDrops xwsHandshakes xwsWrites xguardianTotals v xhttp5xxTotal xwsDropsTotal
  xwsWritesTotal xwsWriteFailuresTotal xhttpConnections xwsConnectionsCurrent xintegrity xresources xmysql
  xredis xguardianAudit xmetrics.
Definition set_http5xxTotal (v : Z) (b : Registry) : Registry := let 'mk xstartedAt xruntimes xsymbols
  xguardianEvents xhttpRequests xstorageOps xwsDrops xwsHandshakes xwsWrites xguardianTotals xhttpTotal _
  xwsDropsTotal xwsWritesTotal xwsWriteFailuresTotal xhttpConnections xwsConnectionsCurrent xintegrity
  xresources xmysql xredis xguardianAudit xmetrics := b in mk xstartedAt xruntimes xsymbols xguardianEvents
  xhttpRequests xstorageOps xwsDrops xwsHandshakes xwsWrites xguardianTotals xhttpTotal v xwsDropsTotal
  xwsWritesTotal xwsWriteFailuresTotal xhttpConnections xwsConnectionsCurrent xintegrity xresources xmysql
  xredis xguardianAudit xmetrics.
Definition set_wsDropsTotal (v : Z) (b : Registry) : Registry := let 'mk xstartedAt xruntimes xsymbols
  xguardianEvents xhttpRequests xstorageOps xwsDrops xwsHandshakes xwsWrites xguardianTotals xhttpTotal
  xhttp5xxTotal _ xwsWritesTotal xwsWriteFailuresTotal xhttpConnections xwsConnectionsCurrent xintegrity
  xresources xmysql xredis xguardianAudit xmetrics := b in mk xstartedAt xruntimes xsymbols xguardianEvents
  xhttpRequests xstorageOps xwsDrops xwsHandshakes xwsWrites xguardianTotals xhttpTotal xhttp5xxTotal v
  xwsWritesTotal xwsWriteFailuresTotal xhttpConnections xwsConnectionsCurrent xintegrity xresources xmysql
  xredis xguardianAudit xmetrics.
Definition set_wsWritesTotal (v : Z) (b : Registry) : Registry := let 'mk xstartedAt xruntimes xsymbols
  xguardianEvents xhttpRequests xstorageOps xwsDrops xwsHandshakes xwsWrites xguardianTotals xhttpTotal
  xhttp5xxTotal xwsDropsTotal _ xwsWriteFailuresTotal xhttpConnections xwsConnectionsCurrent xintegrity
  xresources xmysql xredis xguardianAudit xmetrics := b in mk xstartedAt xruntimes xsymbols xguardianEvents
  xhttpRequests xstorageOps xwsDrops xwsHandshakes xwsWrites xguardianTotals xhttpTotal xhttp5xxTotal
  xwsDropsTotal v xwsWriteFailuresTotal xhttpConnections xwsConnectionsCurrent xintegrity xresources xmysql
  xredis xguardianAudit xmetrics.
Definition set_wsWriteFailuresTotal (v : Z) (b : Registry) : Registry := let 'mk xstartedAt xruntimes xsymbols
  xguardianEvents xhttpRequests xstorageOps xwsDrops xwsHandshakes xwsWrites xguardianTotals xhttpTotal
  xhttp5xxTotal xwsDropsTotal xwsWritesTotal _ xhttpConnections xwsConnectionsCurrent xintegrity xresources
  xmysql xredis xguardianAudit xmetrics := b in mk xstartedAt xruntimes xsymbols xguardianEvents xhttpRequests
  xstorageOps xwsDrops xwsHandshakes xwsWrites xguardianTotals xhttpTotal xhttp5xxTotal xwsDropsTotal
  xwsWritesTotal v xhttpConnections xwsConnectionsCurrent xintegrity xresources xmysql xredis xguardianAudit
  xmetrics.
Definition set_httpConnections (v : Z) (b : Registry) : Registry := let 'mk xstartedAt xruntimes xsymbols
  xguardianEvents xhttpRequests xstorageOps xwsDrops xwsHandshakes xwsWrites xguardianTotals xhttpTotal
  xhttp5xxTotal xwsDropsTotal xwsWritesTotal xwsWriteFailuresTotal _ xwsConnectionsCurrent xintegrity
  xresources xmysql xredis xguardianAudit xmetrics := b in mk xstartedAt xruntimes xsymbols xguardianEvents
  xhttpRequests xstorageOps xwsDrops xwsHandshakes xwsWrites xguardianTotals xhttpTotal xhttp5xxTotal
  xwsDropsTotal xwsWritesTotal xwsWriteFailuresTotal v xwsConnectionsCurrent xintegrity xresources xmysql
  xredis xguardianAudit xmetrics.
Definition set_wsConnectionsCurrent (v : Z) (b : Registry) : Registry := let 'mk xstartedAt xruntimes xsymbols
  xguardianEvents xhttpRequests xstorageOps xwsDrops xwsHandshakes xwsWrites xguardianTotals xhttpTotal
  xhttp5xxTotal xwsDropsTotal xwsWritesTotal xwsWriteFailuresTotal xhttpConnections _ xintegrity xresources
  xmysql xredis xguardianAudit xmetrics := b in mk xstartedAt xruntimes xsymbols xguardianEvents xhttpRequests
  xstorageOps xwsDrops xwsHandshakes xwsWrites xguardianTotals xhttpTotal xhttp5xxTotal xwsDropsTotal
  xwsWritesTotal xwsWriteFailuresTotal xhttpConnections v xintegrity xresources xmysql xredis xguardianAudit
  xmetrics.
Definition set_integrity (v : IntegritySummary) (b : Registry) : Registry := let 'mk xstartedAt xruntimes
  xsymbols xguardianEvents xhttpRequests xstorageOps xwsDrops xwsHandshakes xwsWrites xguardianTotals
  xhttpTotal xhttp5xxTotal xwsDropsTotal xwsWritesTotal xwsWriteFailuresTotal xhttpConnections
  xwsConnectionsCurrent _ xresources xmysql xredis xguardianAudit xmetrics := b in mk xstartedAt xruntimes
  xsymbols xguardianEvents xhttpRequests xstorageOps xwsDrops xwsHandshakes xwsWrites xguardianTotals
  xhttpTotal xhttp5xxTotal xwsDropsTotal xwsWritesTotal xwsWriteFailuresTotal xhttpConnections
  xwsConnectionsCurrent v xresources xmysql xredis xguardianAudit xmetrics.
Definition set_resources (v : ResourceSnapshot) (b : Registry) : Registry := let 'mk xstartedAt xruntimes
  xsymbols xguardianEvents xhttpRequests xstorageOps xwsDrops xwsHandshakes xwsWrites xguardianTotals
  xhttpTotal xhttp5xxTotal xwsDropsTotal xwsWritesTotal xwsWriteFailuresTotal xhttpConnections
  xwsConnectionsCurrent xintegrity _ xmysql xredis xguardianAudit xmetrics := b in mk xstartedAt xruntimes
  xsymbols xguardianEvents xhttpRequests xstorageOps xwsDrops xwsHandshakes xwsWrites xguardianTotals
  xhttpTotal xhttp5xxTotal xwsDropsTotal xwsWritesTotal xwsWriteFailuresTotal xhttpConnections
  xwsConnectionsCurrent xintegrity v xmysql xredis xguardianAudit xmetrics.
Definition set_mysql (v : MySQLSnapshot) (b : Registry) : Registry := let 'mk xstartedAt xruntimes xsymbols
  xguardianEvents xhttpRequests xstorageOps xwsDrops xwsHandshakes xwsWrites xguardianTotals xhttpTotal
  xhttp5xxTotal xwsDropsTotal xwsWritesTotal xwsWriteFailuresTotal xhttpConnections xwsConnectionsCurrent
  xintegrity xresources _ xredis xguardianAudit xmetrics := b in mk xstartedAt xruntimes xsymbols
  xguardianEvents xhttpRequests xstorageOps xwsDrops xwsHandshakes xwsWrites xguardianTotals xhttpTotal
  xhttp5xxTotal xwsDropsTotal xwsWritesTotal xwsWriteFailuresTotal xhttpConnections xwsConnectionsCurrent
  xintegrity xresources v xredis xguardianAudit xmetrics.
Definition set_redis (v : RedisSnapshot) (b : Registry) : Registry := let 'mk xstartedAt xruntimes xsymbols
  xguardianEvents xhttpRequests xstorageOps xwsDrops xwsHandshakes xwsWrites xguardianTotals xhttpTotal
  xhttp5xxTotal xwsDropsTotal xwsWritesTotal xwsWriteFailuresTotal xhttpConnections xwsConnectionsCurrent
  xintegrity xresources xmysql _ xguardianAudit xmetrics := b in mk xstartedAt xruntimes xsymbols
  xguardianEvents xhttpRequests xstorageOps xwsDrops xwsHandshakes xwsWrites xguardianTotals xhttpTotal
  xhttp5xxTotal xwsDropsTotal xwsWritesTotal xwsWriteFailuresTotal xhttpConnections xwsConnectionsCurrent
  xintegrity xresources xmysql v xguardianAudit xmetrics.
Definition set_guardianAudit (v : GuardianAuditSnapshot) (b : Registry) : Registry := let 'mk xstartedAt
  xruntimes xsymbols xguardianEvents xhttpRequests xstorageOps xwsDrops xwsHandshakes xwsWrites
  xguardianTotals xhttpTotal xhttp5xxTotal xwsDropsTotal xwsWritesTotal xwsWriteFailuresTotal xhttpConnections
  xwsConnectionsCurrent xintegrity xresources xmysql xredis _ xmetrics := b in mk xstartedAt xruntimes
  xsymbols xguardianEvents xhttpRequests xstorageOps xwsDrops xwsHandshakes xwsWrites xguardianTotals
  xhttpTotal xhttp5xxTotal xwsDropsTotal xwsWritesTotal xwsWriteFailuresTotal xhttpConnections
  xwsConnectionsCurrent xintegrity xresources xmysql xredis v xmetrics.
Definition set_metrics (v : list metric) (b : Registry) : Registry := let 'mk xstartedAt xruntimes xsymbols
  xguardianEvents xhttpRequests xstorageOps xwsDrops xwsHandshakes xwsWrites xguardianTotals xhttpTotal
  xhttp5xxTotal xwsDropsTotal xwsWritesTotal xwsWriteFailuresTotal xhttpConnections xwsConnectionsCurrent
  xintegrity xresources xmysql xredis xguardianAudit _ := b in mk xstartedAt xruntimes xsymbols
  xguardianEvents xhttpRequests xstorageOps xwsDrops xwsHandshakes xwsWrites xguardianTotals xhttpTotal
  xhttp5xxTotal xwsDropsTotal xwsWritesTotal xwsWriteFailuresTotal xhttpConnections xwsConnectionsCurrent
  xintegrity xresources xmysql xredis xguardianAudit v.
End Registry.
Notation Registry := Registry.Registry.

Definition newRegistry (now : Z) : Registry :=
  Registry.mk now ∅ ∅ [] [] [] [] [] [] ∅ 0 0 0 0 0 0 0 IntegritySummary.zero ResourceSnapshot.zero MySQLSnapshot.zero
    RedisSnapshot.zero GuardianAuditSnapshot.zero [].

(** ** Keys *)

Definition normalizeRuntimeKey (exchangeName marketType : string) : runtimeKey :=
  runtimeKey.mk (ToLower (TrimSpace exchangeName)) (ToLower (TrimSpace marketType)).
Definition symbolKey (exchangeName symbol : string) : string :=
  (ToLower (TrimSpace exchangeName) ++ String Ascii.zero (ToUpper (TrimSpace symbol)))%string.

(** [strings.SplitN(key, "\x00", 2)]. *)
Fixpoint split_nul (s : string) : option (string * string) :=
  match s with
  | "" => None
  | String c rest =>
      if bool_decide (c = Ascii.zero) then Some ("", rest)
      else match split_nul rest with Some (l, r) => Some (String c l, r) | None => None end
  end.
Definition splitSymbolKey (key : string) : string * string := default ("", key) (split_nul key).

Definition boolLabel (value : bool) : string := if value then "true" else "false".
Definition statusClass (status : Z) : string :=
  if status <=? 0 then "0xx" else (string_of_runes [48 + Z.quot status 100] ++ "xx")%string.

(** [d.Seconds()]. *)
Definition Seconds (d : Z) : float64 :=
  f64_add (f64_of_Z (Z.quot d Second)) (f64_div (f64_of_Z (Z.rem d Second)) (f64_of_Z Second)).

(** ** Steps *)

Definition emit (m : metric) (r : Registry) : Registry := Registry.set_metrics (r.(Registry.metrics) ++ [m]) r.
Definition emit_all (ms : list metric) (r : Registry) : Registry := Registry.set_metrics (r.(Registry.metrics) ++ ms) r.

(** The entry of a market, made when it is not there, changed by [f]. *)
Definition runtimeLocked (exchangeName marketType : string) (r : Registry) : runtimeState :=
  default runtimeState.zero (r.(Registry.runtimes) !! normalizeRuntimeKey exchangeName marketType).
Definition update_runtime (exchangeName marketType : string) (f : runtimeState → runtimeState) (r : Registry) : Registry :=
  Registry.set_runtimes
    (<[normalizeRuntimeKey exchangeName marketType := f (runtimeLocked exchangeName marketType r)]> r.(Registry.runtimes)) r.
Definition update_key (key : runtimeKey) : (runtimeState → runtimeState) → Registry → Registry :=
  update_runtime key.(runtimeKey.Exchange) key.(runtimeKey.MarketType).
Definition key_labels (key : runtimeKey) : list string := [key.(runtimeKey.Exchange); key.(runtimeKey.MarketType)].

Definition RegisterCollectorRuntime (exchangeName marketType : string) (r : Registry) : Registry :=
  update_runtime exchangeName marketType id r.

Definition unsubscribe (key : runtimeKey) (s : symbolState) : symbolState :=
  if bool_decide (s.(symbolState.Runtime) = key) then symbolState.set_Subscribed false s else s.
Definition subscribe_symbol (key : runtimeKey) (symbols : gmap string symbolState) (symbol : string)
    : gmap string symbolState :=
  let symbol := ToUpper (TrimSpace symbol) in
  if bool_decide (symbol = "") then symbols
  else
    let entryKey := symbolKey key.(runtimeKey.Exchange) symbol in
    let entry := default symbolState.zero (symbols !! entryKey) in
    <[entryKey := symbolState.set_Subscribed true (symbolState.set_Runtime key entry)]> symbols.
Definition CollectorSubscriptions (exchangeName marketType : string) (symbols : list string) (r : Registry) : Registry :=
  let key := normalizeRuntimeKey exchangeName marketType in
  let r := Registry.set_symbols (foldl (subscribe_symbol key) (unsubscribe key <$> r.(Registry.symbols)) symbols) r in
  update_key key (runtimeState.set_SubscribedSymbols (Z.of_nat (length symbols))) r.

Definition CollectorConnection (exchangeName marketType : string) (delta : Z) (r : Registry) : Registry :=
  let key := normalizeRuntimeKey exchangeName marketType in
  let state := runtimeLocked key.(runtimeKey.Exchange) key.(runtimeKey.MarketType) r in
  let moved := i64 (state.(runtimeState.Connected) + delta) in
  let connected := if moved <? 0 then 0 else moved in
  emit (Set_ "collectorConnected" (key_labels key) (f64_of_Z connected))
    (update_key key (runtimeState.set_Connected connected) r).

Definition CollectorConnectAttempt (exchangeName marketType : string) (success : bool) (now : Z) (r : Registry) : Registry :=
  let key := normalizeRuntimeKey exchangeName marketType in
  let r := update_key key (λ state,
    let state := runtimeState.set_ConnectAttempts (state.(runtimeState.ConnectAttempts) ++ [now]) state in
    if success then runtimeState.set_ConnectSuccesses (state.(runtimeState.ConnectSuccesses) ++ [now]) state else state) r in
  emit (Inc "collectorConnectAttempts" (key_labels key ++ [if success then "success" else "failure"])) r.

Definition CollectorMessage (exchangeName marketType : string) (now : Z) (r : Registry) : Registry :=
  let key := normalizeRuntimeKey exchangeName marketType in
  emit (Set_ "collectorLastMessage" (key_labels key) (f64_of_Z (unix_seconds now)))
    (update_key key (runtimeState.set_LastMessageAt (Some now)) r).

(** A final minute also moves the marks of its market and symbol. *)
Definition final_minute (bar : Bar) : bool := bar.(Bar.IsFinal) && bool_decide (bar.(Bar.Timeframe) = "1m").
Definition CollectorBarReceived (exchangeName marketType : string) (bar : Bar) (now : Z) (r : Registry) : Registry :=
  let key := normalizeRuntimeKey exchangeName marketType in
  let r := update_key key (λ state,
    let state := runtimeState.set_ReceivedTotal (u64 (state.(runtimeState.ReceivedTotal) + 1))
                   (runtimeState.set_LastBarAt (Some now) state) in
    if final_minute bar
    then runtimeState.set_LastFinalStartMS bar.(Bar.StartMS) (runtimeState.set_LastFinalAt (Some now) state)
    else state) r in
  let entryKey := symbolKey bar.(Bar.Exchange) bar.(Bar.Symbol) in
  let entry := symbolState.set_Runtime key (default symbolState.zero (r.(Registry.symbols) !! entryKey)) in
  let entry := if final_minute bar
               then symbolState.set_LastFinalStartMS bar.(Bar.StartMS) (symbolState.set_LastFinalAt (Some now) entry)
               else entry in
  emit_all [Set_ "collectorLastBar" (key_labels key) (f64_of_Z (unix_seconds now));
            Inc "klineReceived" (key_labels key ++ [boolLabel bar.(Bar.IsFinal)])]
    (Registry.set_symbols (<[entryKey := entry]> r.(Registry.symbols)) r).

Definition CollectorIngested (exchangeName marketType : string) (bar : Bar) (now : Z) (r : Registry) : Registry :=
  if negb (final_minute bar) then r
  else
    let key := normalizeRuntimeKey exchangeName marketType in
    let r := update_key key (λ state,
      runtimeState.set_FinalIngestedTotal (u64 (state.(runtimeState.FinalIngestedTotal) + 1))
        (runtimeState.set_LastPersistedAt (Some now) state)) r in
    emit (Set_ "klineLastPersisted" (key_labels key ++ ["1m"]) (f64_of_Z (unix_seconds now))) r.

Definition CollectorReconnect (exchangeName marketType : string) (now : Z) (r : Registry) : Registry :=
  let key := normalizeRuntimeKey exchangeName marketType in
  emit (Inc "collectorReconnects" (key_labels key))
    (update_key key (λ state, runtimeState.set_Reconnects (state.(runtimeState.Reconnects) ++ [now]) state) r).

Definition collectorError (exchangeName marketType : string) (parse : bool) (now : Z) (r : Registry) : Registry :=
  let key := normalizeRuntimeKey exchangeName marketType in
  let r := update_key key (λ state,
    if parse then runtimeState.set_ParseErrors (state.(runtimeState.ParseErrors) ++ [now]) state
    else runtimeState.set_IngestErrors (state.(runtimeState.IngestErrors) ++ [now]) state) r in
  emit (Inc (if parse then "collectorParseErrors" else "collectorIngestErrors") (key_labels key)) r.
Definition CollectorParseError (exchangeName marketType : string) : Z → Registry → Registry :=
  collectorError exchangeName marketType true.
Definition CollectorIngestError (exchangeName marketType : string) : Z → Registry → Registry :=
  collectorError exchangeName marketType false.

Definition runtimeForBar (bar : Bar) (r : Registry) : runtimeKey :=
  match r.(Registry.symbols) !! symbolKey bar.(Bar.Exchange) bar.(Bar.Symbol) with
  | Some state =>
      if negb (bool_decide (state.(symbolState.Runtime).(runtimeKey.Exchange) = "")) then state.(symbolState.Runtime)
      else normalizeRuntimeKey bar.(Bar.Exchange) "unknown"
  | None => normalizeRuntimeKey bar.(Bar.Exchange) "unknown"
  end.
Definition BarPersisted (bar : Bar) (now : Z) (r : Registry) : Registry :=
  let key := runtimeForBar bar r in
  let r := if final_minute bar then update_key key (runtimeState.set_LastPersistedAt (Some now)) r else r in
  emit (Set_ "klineLastPersisted" (key_labels key ++ [bar.(Bar.Timeframe)]) (f64_of_Z (unix_seconds now))) r.
Definition BarPublished (bar : Bar) (now : Z) (r : Registry) : Registry :=
  let key := runtimeForBar bar r in
  let r := if final_minute bar then update_key key (runtimeState.set_LastPublishedAt (Some now)) r else r in
  emit (Set_ "klineLastPublished" (key_labels key ++ [bar.(Bar.Timeframe)]) (f64_of_Z (unix_seconds now))) r.

(** *** The Guardian's events *)

Definition count_up (key : string) (m : gmap string Z) : gmap string Z := <[key := u64 (default 0 (m !! key) + 1)]> m.
Definition record_event (now : Z) (event : KlineGuardianEvent) (r : Registry) : Registry :=
  Registry.set_guardianTotals (count_up event.(KlineGuardianEvent.EventType) r.(Registry.guardianTotals))
    (Registry.set_guardianEvents (r.(Registry.guardianEvents) ++ [timedGuardianEvent.mk now event]) r).
Definition GuardianQueueDropped (exchangeName : string) (now : Z) (r : Registry) : Registry :=
  emit (Inc "guardianQueueDrops" [ToLower exchangeName])
    (record_event now (KlineGuardianEvent.mk 0 exchangeName "" "" 0 0 "queue_dropped" "" "" (unix_milli now)) r).
Definition GuardianEvent (event : KlineGuardianEvent) (now : Z) (r : Registry) : Registry :=
  emit (Inc "guardianEventTotal" [ToLower event.(KlineGuardianEvent.Exchange); event.(KlineGuardianEvent.EventType)])
    (record_event now event r).
Definition GuardianAudit (success : bool) (checkedSymbols checkedBars failedSymbols duration now : Z) (r : Registry) : Registry :=
  emit (Inc "guardianAuditTotal" [if success then "success" else "failed"])
    (Registry.set_guardianAudit
       (GuardianAuditSnapshot.mk success checkedSymbols checkedBars failedSymbols duration (unix_milli now)) r).

(** *** HTTP, WebSocket and storage *)

Definition HTTPRequest (route method : string) (statusCode duration now : Z) (r : Registry) : Registry :=
  let r := Registry.set_httpRequests (r.(Registry.httpRequests) ++ [httpObservation.mk now statusCode duration]) r in
  let r := Registry.set_httpTotal (u64 (r.(Registry.httpTotal) + 1)) r in
  let r := if 500 <=? statusCode then Registry.set_http5xxTotal (u64 (r.(Registry.http5xxTotal) + 1)) r else r in
  emit_all [Inc "httpRequestTotal" [route; method; statusClass statusCode];
            Observe "httpRequestDuration" [route; method] (Seconds duration)] r.

(** The states of a connection of net/http. *)
Inductive ConnState : Set := StateNew | StateActive | StateIdle | StateHijacked | StateClosed.
Definition HTTPConnectionState (state : ConnState) (r : Registry) : Registry :=
  let open := r.(Registry.httpConnections) in
  let connections :=
    match state with
    | StateNew => i64 (open + 1)
    | StateClosed | StateHijacked => if 0 <? open then open - 1 else open
    | _ => open
    end in
  emit (Set_ "httpConnectionsGauge" [] (f64_of_Z connections)) (Registry.set_httpConnections connections r).

Definition WSConnection (delta : Z) (r : Registry) : Registry :=
  let moved := i64 (r.(Registry.wsConnectionsCurrent) + delta) in
  let r := Registry.set_wsConnectionsCurrent (if moved <? 0 then 0 else moved) r in
  if 0 <? delta then emit (Add "wsConnections" [] (f64_of_Z delta)) r
  else if delta <? 0 then emit (Subtract "wsConnections" [] (f64_of_Z (i64 (- delta)))) r
  else r.
Definition WSHandshake (success : bool) (now : Z) (r : Registry) : Registry :=
  Registry.set_wsHandshakes (r.(Registry.wsHandshakes) ++ [wsHandshakeObservation.mk now success]) r.
Definition WSWrite (success : bool) (now : Z) (r : Registry) : Registry :=
  let r := Registry.set_wsWrites (r.(Registry.wsWrites) ++ [wsWriteObservation.mk now success]) r in
  let r := Registry.set_wsWritesTotal (u64 (r.(Registry.wsWritesTotal) + 1)) r in
  let r := if success then r else Registry.set_wsWriteFailuresTotal (u64 (r.(Registry.wsWriteFailuresTotal) + 1)) r in
  emit_all ([Inc "wsWriteTotal" []] ++ if success then [] else [Inc "wsWriteFailures" []]) r.
Definition WSEventSent (r : Registry) : Registry := emit (Inc "wsEventsSent" []) r.
Definition WSEventDropped (now : Z) (r : Registry) : Registry :=
  let r := Registry.set_wsDrops (r.(Registry.wsDrops) ++ [now]) r in
  emit (Inc "wsEventsDropped" []) (Registry.set_wsDropsTotal (u64 (r.(Registry.wsDropsTotal) + 1)) r).
Definition StorageOperation (operation : string) (duration : Z) (failed : bool) (now : Z) (r : Registry) : Registry :=
  let r := Registry.set_storageOps (r.(Registry.storageOps) ++ [storageObservation.mk now operation duration failed]) r in
  emit_all [Inc "storageOperationTotal" [operation; if failed then "failed" else "success"];
            Observe "storageOperationDuration" [operation] (Seconds duration)] r.

(** *** Values that replace the previous one *)

Definition SetMySQLPoolStats (maxOpen open inUse idle : Z) (r : Registry) : Registry :=
  emit_all [Set_ "mysqlPoolConnections" ["max_open"] (f64_of_Z maxOpen); Set_ "mysqlPoolConnections" ["open"] (f64_of_Z open);
            Set_ "mysqlPoolConnections" ["in_use"] (f64_of_Z inUse); Set_ "mysqlPoolConnections" ["idle"] (f64_of_Z idle)] r.
Definition SetMySQL (s : MySQLSnapshot) (r : Registry) : Registry :=
  SetMySQLPoolStats s.(MySQLSnapshot.MaxOpenConnections) s.(MySQLSnapshot.OpenConnections) s.(MySQLSnapshot.InUse)
    s.(MySQLSnapshot.Idle) (Registry.set_mysql s r).
Definition SetRedis (s : RedisSnapshot) (r : Registry) : Registry := Registry.set_redis s r.

(** The gauges of different timeframes do not depend on each other: the order of the map's keys does not matter. *)
Definition SetIntegrity_ (summary : IntegritySummary) (r : Registry) : Registry :=
  emit_all (concat ((λ '(tf, (missing, mismatch, invalid)),
               [Set_ "integrityIssues" [tf; "missing"] (f64_of_Z missing); Set_ "integrityIssues" [tf; "mismatch"] (f64_of_Z mismatch);
                Set_ "integrityIssues" [tf; "invalid_ohlc"] (f64_of_Z invalid)]) <$> map_to_list summary.(IntegritySummary.ByTimeframe))
            ++ ((λ '(tf, count), Set_ "integrityIssues" [tf; "source_incomplete"] (f64_of_Z count))
                  <$> map_to_list summary.(IntegritySummary.SourceIncompleteByTimeframe)))
    (Registry.set_integrity summary r).

Definition SetContinuousSeries (series : list MarketSeries) (r : Registry) : Registry :=
  let continuous : gset string :=
    list_to_set ((λ item, symbolKey item.(MarketSeries.Exchange) item.(MarketSeries.Symbol)) <$> series) in
  let known := map_imap (λ key state, Some (symbolState.set_Continuous (bool_decide (key ∈ continuous)) state)) r.(Registry.symbols) in
  Registry.set_symbols (known ∪ gset_to_gmap (symbolState.set_Continuous true symbolState.zero) continuous) r.

Definition SetActiveAlerts (warning critical : Z) (r : Registry) : Registry :=
  emit_all [Set_ "activeAlerts" ["warning"] (f64_of_Z warning); Set_ "activeAlerts" ["critical"] (f64_of_Z critical)] r.
Definition SetResources (s : ResourceSnapshot) (r : Registry) : Registry :=
  let gauge name value := Set_ "resourceUsage" [name] value in
  emit_all [gauge "cpu_ratio" s.(ResourceSnapshot.CPURatio); gauge "host_cpu_ratio" s.(ResourceSnapshot.HostCPURatio);
            gauge "rss_bytes" (f64_of_Z s.(ResourceSnapshot.RSSBytes)); gauge "memory_ratio" s.(ResourceSnapshot.MemoryRatio);
            gauge "host_memory_ratio" s.(ResourceSnapshot.HostMemoryRatio); gauge "open_fds" (f64_of_Z s.(ResourceSnapshot.OpenFDs));
            gauge "fd_ratio" s.(ResourceSnapshot.FDRatio); gauge "goroutines" (f64_of_Z s.(ResourceSnapshot.Goroutines));
            gauge "disk_ratio" s.(ResourceSnapshot.DiskRatio)]
    (Registry.set_resources s r).

(** ** The snapshot *)

Definition timeMS (value : option Z) : Z := match value with Some t => unix_milli t | None => 0 end.

(** The seven prune functions, by the time of an element. *)
Fixpoint prune {A} (at_ : A → Z) (values : list A) (cutoff : Z) : list A :=
  match values with
  | x :: rest => if at_ x <? cutoff then prune at_ rest cutoff else values
  | [] => []
  end.
Definition pruneTimes : list Z → Z → list Z := prune id.
Definition pruneGuardianEvents : list timedGuardianEvent → Z → list timedGuardianEvent := prune timedGuardianEvent.At.
Definition pruneHTTP : list httpObservation → Z → list httpObservation := prune httpObservation.At.
Definition pruneStorage : list storageObservation → Z → list storageObservation := prune storageObservation.At.
Definition pruneWSHandshakes : list wsHandshakeObservation → Z → list wsHandshakeObservation := prune wsHandshakeObservation.At.
Definition pruneWSWrites : list wsWriteObservation → Z → list wsWriteObservation := prune wsWriteObservation.At.

Definition recent {A} (at_ : A → Z) (cutoff : Z) (values : list A) : list A := filter (λ x, ¬ at_ x < cutoff) values.
Definition countTimesSince (values : list Z) (cutoff : Z) : Z := Z.of_nat (length (recent id cutoff values)).

Definition percentile95 (values : list Z) : Z :=
  match values with
  | [] => 0
  | _ =>
      let ordered := sort_by id values in
      let index := Z.quot (Z.of_nat (length ordered) * 95 + 99) 100 in
      let index := if index <=? 0 then 1 else index in
      default 0 (ordered !! Z.to_nat (index - 1))
  end.

Definition prune_runtime (cutoff : Z) (s : runtimeState) : runtimeState :=
  runtimeState.mk s.(runtimeState.Connected) s.(runtimeState.SubscribedSymbols) s.(runtimeState.LastMessageAt)
    s.(runtimeState.LastBarAt) s.(runtimeState.LastFinalAt) s.(runtimeState.LastFinalStartMS) s.(runtimeState.LastPersistedAt)
    s.(runtimeState.LastPublishedAt) (pruneTimes s.(runtimeState.Reconnects) cutoff)
    (pruneTimes s.(runtimeState.ConnectAttempts) cutoff) (pruneTimes s.(runtimeState.ConnectSuccesses) cutoff)
    (pruneTimes s.(runtimeState.ParseErrors) cutoff) (pruneTimes s.(runtimeState.IngestErrors) cutoff)
    s.(runtimeState.ReceivedTotal) s.(runtimeState.FinalIngestedTotal).

(** The pruning that opens [Snapshot]. *)
Definition pruned (now : Z) (r : Registry) : Registry :=
  let cutoff := now - observationRetention in
  let r := Registry.set_runtimes (prune_runtime cutoff <$> r.(Registry.runtimes)) r in
  let r := Registry.set_guardianEvents (pruneGuardianEvents r.(Registry.guardianEvents) (now - guardianEventRetention)) r in
  let r := Registry.set_httpRequests (pruneHTTP r.(Registry.httpRequests) cutoff) r in
  let r := Registry.set_storageOps (pruneStorage r.(Registry.storageOps) cutoff) r in
  let r := Registry.set_wsDrops (pruneTimes r.(Registry.wsDrops) cutoff) r in
  let r := Registry.set_wsHandshakes (pruneWSHandshakes r.(Registry.wsHandshakes) cutoff) r in
  Registry.set_wsWrites (pruneWSWrites r.(Registry.wsWrites) cutoff) r.

Definition runtime_snapshot (now : Z) (entry : runtimeKey * runtimeState) : RuntimeSnapshot :=
  let '(key, s) := entry in
  let fiveMinutes := now - 5 * Minute in
  let tenMinutes := now - 10 * Minute in
  RuntimeSnapshot.mk key.(runtimeKey.Exchange) key.(runtimeKey.MarketType) s.(runtimeState.Connected)
    s.(runtimeState.SubscribedSymbols) (timeMS s.(runtimeState.LastMessageAt)) (timeMS s.(runtimeState.LastBarAt))
    (timeMS s.(runtimeState.LastFinalAt)) s.(runtimeState.LastFinalStartMS) (timeMS s.(runtimeState.LastPersistedAt))
    (timeMS s.(runtimeState.LastPublishedAt)) (countTimesSince s.(runtimeState.Reconnects) fiveMinutes)
    (countTimesSince s.(runtimeState.Reconnects) tenMinutes) (countTimesSince s.(runtimeState.ConnectAttempts) fiveMinutes)
    (countTimesSince s.(runtimeState.ConnectSuccesses) fiveMinutes)
    (countTimesSince s.(runtimeState.ConnectAttempts) fiveMinutes - countTimesSince s.(runtimeState.ConnectSuccesses) fiveMinutes)
    (countTimesSince s.(runtimeState.ParseErrors) fiveMinutes) (countTimesSince s.(runtimeState.IngestErrors) fiveMinutes)
    s.(runtimeState.ReceivedTotal) s.(runtimeState.FinalIngestedTotal).
Definition symbol_snapshot (entry : string * symbolState) : SymbolQuality :=
  let '(key, s) := entry in
  let '(exchangeName, symbol) := splitSymbolKey key in
  SymbolQuality.mk exchangeName s.(symbolState.Runtime).(runtimeKey.MarketType) symbol (timeMS s.(symbolState.LastFinalAt))
    s.(symbolState.LastFinalStartMS) s.(symbolState.Continuous) s.(symbolState.Subscribed).

Definition runtime_less (l r : RuntimeSnapshot) : bool :=
  if negb (bool_decide (l.(RuntimeSnapshot.Exchange) = r.(RuntimeSnapshot.Exchange)))
  then string_less l.(RuntimeSnapshot.Exchange) r.(RuntimeSnapshot.Exchange)
  else string_less l.(RuntimeSnapshot.MarketType) r.(RuntimeSnapshot.MarketType).
Definition symbol_less (l r : SymbolQuality) : bool :=
  if negb (bool_decide (l.(SymbolQuality.Exchange) = r.(SymbolQuality.Exchange)))
  then string_less l.(SymbolQuality.Exchange) r.(SymbolQuality.Exchange)
  else string_less l.(SymbolQuality.Symbol) r.(SymbolQuality.Symbol).

Definition tally {A} (select : A → bool) (values : list A) : Z := Z.of_nat (length (List.filter select values)).
Definition bump (m : gmap string Z) (key : string) : gmap string Z := <[key := default 0 (m !! key) + 1]> m.

Definition window (now : Z) (r : Registry) : WindowSnapshot :=
  let fiveMinutes := now - 5 * Minute in
  let http := recent httpObservation.At fiveMinutes r.(Registry.httpRequests) in
  let handshakes := recent wsHandshakeObservation.At fiveMinutes r.(Registry.wsHandshakes) in
  let writes := recent wsWriteObservation.At fiveMinutes r.(Registry.wsWrites) in
  let storage := recent storageObservation.At fiveMinutes r.(Registry.storageOps) in
  let events30m := timedGuardianEvent.Event <$>
    recent timedGuardianEvent.At (now - guardianEventRetention) r.(Registry.guardianEvents) in
  let events5m := timedGuardianEvent.Event <$> recent timedGuardianEvent.At fiveMinutes r.(Registry.guardianEvents) in
  WindowSnapshot.mk (Z.of_nat (length http)) (tally (λ item, 500 <=? item.(httpObservation.StatusCode)) http)
    (percentile95 (httpObservation.Duration <$> http)) r.(Registry.httpConnections)
    (countTimesSince r.(Registry.wsDrops) fiveMinutes) r.(Registry.wsConnectionsCurrent)
    (Z.of_nat (length handshakes)) (tally wsHandshakeObservation.Success handshakes)
    (tally (λ item, negb item.(wsHandshakeObservation.Success)) handshakes)
    (Z.of_nat (length writes)) (tally wsWriteObservation.Success writes)
    (tally (λ item, negb item.(wsWriteObservation.Success)) writes)
    (foldl bump ∅ (KlineGuardianEvent.EventType <$> events5m))
    (foldl bump ∅ (filter (λ symbol, symbol ≠ "") (KlineGuardianEvent.Symbol <$> events5m)))
    (percentile95 (storageObservation.Duration <$> storage)) (tally storageObservation.Failed storage)
    r.(Registry.guardianTotals) events30m r.(Registry.guardianAudit) r.(Registry.httpTotal) r.(Registry.http5xxTotal)
    r.(Registry.wsDropsTotal) r.(Registry.wsWritesTotal) r.(Registry.wsWriteFailuresTotal) r.(Registry.integrity).

(** The snapshot, and the registry it leaves behind. *)
Definition TakeSnapshot (now : Z) (r : Registry) : Snapshot * Registry :=
  let r := pruned now r in
  (Snapshot.mk r.(Registry.startedAt) (sort_slice runtime_less (runtime_snapshot now <$> map_to_list r.(Registry.runtimes)))
     (sort_slice symbol_less (symbol_snapshot <$> map_to_list r.(Registry.symbols))) (window now r)
     r.(Registry.resources) r.(Registry.mysql) r.(Registry.redis), r).

(** ** Calls of the methods *)

(** The methods of the registry with their arguments and the clock. *)
Inductive op : Type :=
| MRegisterCollectorRuntime (ex mt : string)
| MCollectorSubscriptions (ex mt : string) (symbols : list string)
| MCollectorConnection (ex mt : string) (delta : Z)
| MCollectorConnectAttempt (ex mt : string) (success : bool) (now : Z)
| MCollectorMessage (ex mt : string) (now : Z)
| MCollectorBarReceived (ex mt : string) (bar : Bar) (now : Z)
| MCollectorIngested (ex mt : string) (bar : Bar) (now : Z)
| MCollectorReconnect (ex mt : string) (now : Z)
| MCollectorParseError (ex mt : string) (now : Z)
| MCollectorIngestError (ex mt : string) (now : Z)
| MBarPersisted (bar : Bar) (now : Z)
| MBarPublished (bar : Bar) (now : Z)
| MGuardianQueueDropped (ex : string) (now : Z)
| MGuardianEvent (event : KlineGuardianEvent) (now : Z)
| MGuardianAudit (success : bool) (symbols bars failed duration now : Z)
| MHTTPRequest (route method : string) (status duration now : Z)
| MHTTPConnectionState (state : ConnState)
| MWSConnection (delta : Z)
| MWSHandshake (success : bool) (now : Z)
| MWSWrite (success : bool) (now : Z)
| MWSEventSent
| MWSEventDropped (now : Z)
| MStorageOperation (operation : string) (duration : Z) (failed : bool) (now : Z)
| MSetMySQL (s : MySQLSnapshot)
| MSetRedis (s : RedisSnapshot)
| MSetIntegrity (s : IntegritySummary)
| MSetContinuousSeries (series : list MarketSeries)
| MSetActiveAlerts (warning critical : Z)
| MSetResources (s : ResourceSnapshot)
| MSnapshot (now : Z).

Definition apply_op (r : Registry) (o : op) : Registry :=
  match o with
  | MRegisterCollectorRuntime ex mt => RegisterCollectorRuntime ex mt r
  | MCollectorSubscriptions ex mt symbols => CollectorSubscriptions ex mt symbols r
  | MCollectorConnection ex mt delta => CollectorConnection ex mt delta r
  | MCollectorConnectAttempt ex mt success now => CollectorConnectAttempt ex mt success now r
  | MCollectorMessage ex mt now => CollectorMessage ex mt now r
  | MCollectorBarReceived ex mt bar now => CollectorBarReceived ex mt bar now r
  | MCollectorIngested ex mt bar now => CollectorIngested ex mt bar now r
  | MCollectorReconnect ex mt now => CollectorReconnect ex mt now r
  | MCollectorParseError ex mt now => CollectorParseError ex mt now r
  | MCollectorIngestError ex mt now => CollectorIngestError ex mt now r
  | MBarPersisted bar now => BarPersisted bar now r
  | MBarPublished bar now => BarPublished bar now r
  | MGuardianQueueDropped ex now => GuardianQueueDropped ex now r
  | MGuardianEvent event now => GuardianEvent event now r
  | MGuardianAudit success symbols bars failed duration now => GuardianAudit success symbols bars failed duration now r
  | MHTTPRequest route method status duration now => HTTPRequest route method status duration now r
  | MHTTPConnectionState state => HTTPConnectionState state r
  | MWSConnection delta => WSConnection delta r
  | MWSHandshake success now => WSHandshake success now r
  | MWSWrite success now => WSWrite success now r
  | MWSEventSent => WSEventSent r
  | MWSEventDropped now => WSEventDropped now r
  | MStorageOperation operation duration failed now => StorageOperation operation duration failed now r
  | MSetMySQL s => SetMySQL s r
  | MSetRedis s => SetRedis s r
  | MSetIntegrity s => SetIntegrity_ s r
  | MSetContinuousSeries series => SetContinuousSeries series r
  | MSetActiveAlerts warning critical => SetActiveAlerts warning critical r
  | MSetResources s => SetResources s r
  | MSnapshot now => (TakeSnapshot now r).2
  end.
