(* ===== verification/RegistrySpec.v ===== *)
(** * The windows of the registry are exact

    The abstract registry keeps every report it was ever given.  The concrete one
    throws observations away whenever a snapshot is taken; nothing a later
    snapshot counts is ever thrown away. *)

From S2P Require Export Registry.

Local Open Scope string_scope.
Local Open Scope Z_scope.
Local Open Scope list_scope.

(** ** Histories *)

Definition run_ops (start : Z) (ops : list op) : Registry := foldl apply_op (newRegistry start) ops.

(** When an observation was made. *)
Definition op_time (o : op) : option Z :=
  match o with
  | MCollectorConnectAttempt _ _ _ now | MCollectorMessage _ _ now | MCollectorBarReceived _ _ _ now
  | MCollectorIngested _ _ _ now | MCollectorReconnect _ _ now | MCollectorParseError _ _ now
  | MCollectorIngestError _ _ now | MBarPersisted _ now | MBarPublished _ now | MGuardianQueueDropped _ now
  | MGuardianEvent _ now | MGuardianAudit _ _ _ _ _ now | MHTTPRequest _ _ _ _ now | MWSHandshake _ now
  | MWSWrite _ now | MWSEventDropped now | MStorageOperation _ _ _ now | MSnapshot now => Some now
  | _ => None
  end.

(** What a report adds to the abstract registry. *)
Definition http_of (o : op) : list httpObservation :=
  match o with MHTTPRequest _ _ status duration now => [httpObservation.mk now status duration] | _ => [] end.
Definition storage_of (o : op) : list storageObservation :=
  match o with MStorageOperation op d failed now => [storageObservation.mk now op d failed] | _ => [] end.
Definition drops_of (o : op) : list Z := match o with MWSEventDropped now => [now] | _ => [] end.
Definition handshakes_of (o : op) : list wsHandshakeObservation :=
  match o with MWSHandshake success now => [wsHandshakeObservation.mk now success] | _ => [] end.
Definition writes_of (o : op) : list wsWriteObservation :=
  match o with MWSWrite success now => [wsWriteObservation.mk now success] | _ => [] end.
Definition events_of (o : op) : list timedGuardianEvent :=
  match o with
  | MGuardianEvent event now => [timedGuardianEvent.mk now event]
  | MGuardianQueueDropped ex now =>
      [timedGuardianEvent.mk now (KlineGuardianEvent.mk 0 ex "" "" 0 0 "queue_dropped" "" "" (unix_milli now))]
  | _ => []
  end.

(** The reports on one market. *)
Definition at_market (k : runtimeKey) (ex mt : string) (l : list Z) : list Z :=
  if decide (normalizeRuntimeKey ex mt = k) then l else [].
Definition reconnects_of (k : runtimeKey) (o : op) : list Z :=
  match o with MCollectorReconnect ex mt now => at_market k ex mt [now] | _ => [] end.
Definition attempts_of (k : runtimeKey) (o : op) : list Z :=
  match o with MCollectorConnectAttempt ex mt _ now => at_market k ex mt [now] | _ => [] end.
Definition successes_of (k : runtimeKey) (o : op) : list Z :=
  match o with MCollectorConnectAttempt ex mt success now => if success then at_market k ex mt [now] else [] | _ => [] end.
Definition parse_errors_of (k : runtimeKey) (o : op) : list Z :=
  match o with MCollectorParseError ex mt now => at_market k ex mt [now] | _ => [] end.
Definition ingest_errors_of (k : runtimeKey) (o : op) : list Z :=
  match o with MCollectorIngestError ex mt now => at_market k ex mt [now] | _ => [] end.

Definition history {A} (f : op → list A) (ops : list op) : list A := concat (f <$> ops).
Lemma history_app {A} (f : op → list A) ops o : history f (ops ++ [o]) = history f ops ++ f o.
Proof. unfold history. rewrite fmap_app, concat_app. simpl. by rewrite app_nil_r. Qed.

(** ** What pruning keeps *)

(** [kept] lost only elements before [limit]. *)
Definition kept_since {A} (at_ : A → Z) (limit : Z) (full kept : list A) : Prop :=
  ∃ dropped, full = dropped ++ kept ∧ Forall (λ x, at_ x < limit) dropped.

Section kept.
Context {A : Type} (at_ : A → Z).

Lemma kept_refl limit l : kept_since at_ limit l l.
Proof. by exists []. Qed.
Lemma kept_app limit full kept new : kept_since at_ limit full kept → kept_since at_ limit (full ++ new) (kept ++ new).
Proof. intros (d & -> & H). exists d. by rewrite <- app_assoc. Qed.
Lemma kept_mono limit limit' full kept : limit <= limit' → kept_since at_ limit full kept → kept_since at_ limit' full kept.
Proof. intros Hl (d & -> & H). exists d. split; [done|]. eapply Forall_impl; [exact H|]. simpl. intros. lia. Qed.
Lemma prune_spec l cutoff : ∃ d, l = d ++ prune at_ l cutoff ∧ Forall (λ x, at_ x < cutoff) d.
Proof.
  induction l as [|x l (d & E & H)]; simpl; [by exists []|].
  destruct (Z.ltb_spec (at_ x) cutoff); [|by exists []]. exists (x :: d). rewrite E at 1. split; [done|by constructor].
Qed.
Lemma kept_prune limit full kept cutoff :
  cutoff <= limit → kept_since at_ limit full kept → kept_since at_ limit full (prune at_ kept cutoff).
Proof.
  intros Hl (d & -> & H). destruct (prune_spec kept cutoff) as (d' & E & H'). exists (d ++ d').
  split; [rewrite E at 1; by rewrite app_assoc|]. apply Forall_app. split; [done|].
  eapply Forall_impl; [exact H'|]. simpl. intros. lia.
Qed.
Lemma kept_recent limit cutoff full kept :
  limit <= cutoff → kept_since at_ limit full kept → recent at_ cutoff kept = recent at_ cutoff full.
Proof.
  intros Hl (d & -> & H). unfold recent. rewrite filter_app.
  assert (filter (λ x, ¬ at_ x < cutoff) d = []) as ->; [|done].
  induction H as [|x d Hx H IH]; [done|]. rewrite filter_cons, decide_False; [done|]. simpl in Hx. lia.
Qed.
Lemma kept_elem limit full kept x : kept_since at_ limit full kept → x ∈ kept → x ∈ full.
Proof. intros (d & -> & _) Hx. set_solver. Qed.
End kept.

(** ** The invariant *)

Definition runtime_at (r : Registry) (k : runtimeKey) : runtimeState := default runtimeState.zero (r.(Registry.runtimes) !! k).

(** [last]: no snapshot was taken later. *)
Record tracks (last : Z) (ops : list op) (r : Registry) : Prop := {
  tracks_http : kept_since httpObservation.At (last - 5 * Minute) (history http_of ops) r.(Registry.httpRequests);
  tracks_storage : kept_since storageObservation.At (last - 5 * Minute) (history storage_of ops) r.(Registry.storageOps);
  tracks_drops : kept_since id (last - 5 * Minute) (history drops_of ops) r.(Registry.wsDrops);
  tracks_handshakes : kept_since wsHandshakeObservation.At (last - 5 * Minute) (history handshakes_of ops) r.(Registry.wsHandshakes);
  tracks_writes : kept_since wsWriteObservation.At (last - 5 * Minute) (history writes_of ops) r.(Registry.wsWrites);
  tracks_events : kept_since timedGuardianEvent.At (last - 30 * Minute) (history events_of ops) r.(Registry.guardianEvents);
  tracks_reconnects k : kept_since id (last - 5 * Minute) (history (reconnects_of k) ops) (runtime_at r k).(runtimeState.Reconnects);
  tracks_attempts k : kept_since id (last - 5 * Minute) (history (attempts_of k) ops) (runtime_at r k).(runtimeState.ConnectAttempts);
  tracks_successes k : kept_since id (last - 5 * Minute) (history (successes_of k) ops) (runtime_at r k).(runtimeState.ConnectSuccesses);
  tracks_parse k : kept_since id (last - 5 * Minute) (history (parse_errors_of k) ops) (runtime_at r k).(runtimeState.ParseErrors);
  tracks_ingest k : kept_since id (last - 5 * Minute) (history (ingest_errors_of k) ops) (runtime_at r k).(runtimeState.IngestErrors);
}.

Lemma normalizeRuntimeKey_idem ex mt :
  normalizeRuntimeKey (normalizeRuntimeKey ex mt).(runtimeKey.Exchange) (normalizeRuntimeKey ex mt).(runtimeKey.MarketType) =
  normalizeRuntimeKey ex mt.
Proof. unfold normalizeRuntimeKey. simpl. by autorewrite with go_strings. Qed.

Lemma runtime_at_update ex mt f r k :
  runtime_at (update_runtime ex mt f r) k = if decide (normalizeRuntimeKey ex mt = k) then f (runtime_at r k) else runtime_at r k.
Proof.
  unfold runtime_at, update_runtime, runtimeLocked. destruct r; cbn. rewrite lookup_insert.
  case_decide as E; [by rewrite <- E|done].
Qed.
Lemma runtime_at_update_key ex mt f r k :
  runtime_at (update_key (normalizeRuntimeKey ex mt) f r) k =
  if decide (normalizeRuntimeKey ex mt = k) then f (runtime_at r k) else runtime_at r k.
Proof. unfold update_key. by rewrite runtime_at_update, normalizeRuntimeKey_idem. Qed.

(** *** The reports append *)

Lemma runtime_at_same r r' k : r.(Registry.runtimes) = r'.(Registry.runtimes) → runtime_at r k = runtime_at r' k.
Proof. unfold runtime_at. by intros ->. Qed.

(** An observation list after a report. *)
Definition lists_after (r : Registry) (o : op) (r' : Registry) : Prop :=
  r'.(Registry.httpRequests) = r.(Registry.httpRequests) ++ http_of o ∧
  r'.(Registry.storageOps) = r.(Registry.storageOps) ++ storage_of o ∧
  r'.(Registry.wsDrops) = r.(Registry.wsDrops) ++ drops_of o ∧
  r'.(Registry.wsHandshakes) = r.(Registry.wsHandshakes) ++ handshakes_of o ∧
  r'.(Registry.wsWrites) = r.(Registry.wsWrites) ++ writes_of o ∧
  r'.(Registry.guardianEvents) = r.(Registry.guardianEvents) ++ events_of o.

Definition is_snapshot (o : op) : bool := match o with MSnapshot _ => true | _ => false end.

Lemma apply_op_lists r o : is_snapshot o = false → lists_after r o (apply_op r o).
Proof.
  intros Ho. unfold lists_after. destruct o; try discriminate Ho; clear Ho;
    cbn [http_of storage_of drops_of handshakes_of writes_of events_of]; rewrite ?app_nil_r;
    unfold apply_op, CollectorIngested, BarPersisted, BarPublished, HTTPRequest, WSConnection, WSWrite, update_key, update_runtime;
    repeat match goal with |- context [if ?b then _ else _] => destruct b end;
    destruct r; repeat split; reflexivity.
Qed.

(** The five lists of a market. *)
Definition market_after (k : runtimeKey) (s : runtimeState) (o : op) (s' : runtimeState) : Prop :=
  s'.(runtimeState.Reconnects) = s.(runtimeState.Reconnects) ++ reconnects_of k o ∧
  s'.(runtimeState.ConnectAttempts) = s.(runtimeState.ConnectAttempts) ++ attempts_of k o ∧
  s'.(runtimeState.ConnectSuccesses) = s.(runtimeState.ConnectSuccesses) ++ successes_of k o ∧
  s'.(runtimeState.ParseErrors) = s.(runtimeState.ParseErrors) ++ parse_errors_of k o ∧
  s'.(runtimeState.IngestErrors) = s.(runtimeState.IngestErrors) ++ ingest_errors_of k o.

Definition silent (k : runtimeKey) (o : op) : Prop :=
  reconnects_of k o = [] ∧ attempts_of k o = [] ∧ successes_of k o = [] ∧ parse_errors_of k o = [] ∧ ingest_errors_of k o = [].

(** A change that leaves the five lists of a state alone. *)
Definition keeps_lists (f : runtimeState → runtimeState) : Prop :=
  ∀ s, (f s).(runtimeState.Reconnects) = s.(runtimeState.Reconnects) ∧
    (f s).(runtimeState.ConnectAttempts) = s.(runtimeState.ConnectAttempts) ∧
    (f s).(runtimeState.ConnectSuccesses) = s.(runtimeState.ConnectSuccesses) ∧
    (f s).(runtimeState.ParseErrors) = s.(runtimeState.ParseErrors) ∧
    (f s).(runtimeState.IngestErrors) = s.(runtimeState.IngestErrors).

Lemma market_after_silent k s o : silent k o → market_after k s o s.
Proof. intros (H1 & H2 & H3 & H4 & H5). unfold market_after. by rewrite H1, H2, H3, H4, H5, !app_nil_r. Qed.
Lemma market_after_keeps k s o f : silent k o → keeps_lists f → market_after k s o (f s).
Proof.
  intros (H1 & H2 & H3 & H4 & H5) Hf. unfold market_after. rewrite H1, H2, H3, H4, H5, !app_nil_r. apply Hf.
Qed.

(** The runtimes of [r'] are those of an update of [r]. *)
Lemma market_keeps r r' k o key f :
  r'.(Registry.runtimes) = (update_key key f r).(Registry.runtimes) → silent k o → keeps_lists f →
  market_after k (runtime_at r k) o (runtime_at r' k).
Proof.
  intros E Hs Hf. rewrite (runtime_at_same _ _ k E). unfold update_key. rewrite runtime_at_update.
  case_decide; [by apply market_after_keeps|by apply market_after_silent].
Qed.
Lemma market_step r r' k o ex mt f :
  r'.(Registry.runtimes) = (update_key (normalizeRuntimeKey ex mt) f r).(Registry.runtimes) →
  (normalizeRuntimeKey ex mt = k → ∀ s, market_after k s o (f s)) → (normalizeRuntimeKey ex mt ≠ k → silent k o) →
  market_after k (runtime_at r k) o (runtime_at r' k).
Proof.
  intros E Hf Hs. rewrite (runtime_at_same _ _ k E), runtime_at_update_key.
  case_decide; [by apply Hf|by apply market_after_silent, Hs].
Qed.
Lemma market_untouched r r' k o :
  r'.(Registry.runtimes) = r.(Registry.runtimes) → silent k o → market_after k (runtime_at r k) o (runtime_at r' k).
Proof. intros E Hs. rewrite (runtime_at_same _ _ k E). by apply market_after_silent. Qed.

Ltac market_lists :=
  intros <- []; repeat split; cbn; unfold at_market; rewrite ?decide_True by done; rewrite ?app_nil_r; reflexivity.
Ltac market_silent := intros ?; repeat split; cbn; unfold at_market; rewrite ?decide_False by done; reflexivity.

Lemma apply_op_markets r o k : is_snapshot o = false → market_after k (runtime_at r k) o (runtime_at (apply_op r o) k).
Proof.
  intros Ho. destruct o; try discriminate Ho; clear Ho; cbn [apply_op].
  all: try (apply market_untouched; [|by repeat split]; unfold HTTPRequest, WSConnection, WSWrite;
            repeat match goal with |- context [if ?b then _ else _] => destruct b end; destruct r; reflexivity).
  - apply (market_keeps r _ _ _ (runtimeKey.mk ex mt) id); [by destruct r|by repeat split|by repeat split].
  - eapply (market_keeps r); [by destruct r|by repeat split|]. intros []; by repeat split.
  - eapply (market_keeps r); [by destruct r|by repeat split|]. intros []; by repeat split.
  - eapply (market_step r); [by destruct r| |]; [destruct success; market_lists|destruct success; market_silent].
  - eapply (market_keeps r); [by destruct r|by repeat split|]. intros []; by repeat split.
  - eapply (market_keeps r); [by destruct r|by repeat split|]. intros []; cbn; destruct (final_minute bar); by repeat split.
  - unfold CollectorIngested. destruct (final_minute bar); cbn [negb]; [|by apply market_untouched].
    eapply (market_keeps r); [by destruct r|by repeat split|]. intros []; by repeat split.
  - eapply (market_step r); [by destruct r|market_lists|market_silent].
  - eapply (market_step r); [by destruct r|market_lists|market_silent].
  - eapply (market_step r); [by destruct r|market_lists|market_silent].
  - unfold BarPersisted. destruct (final_minute bar); [|apply market_untouched; [by destruct r|by repeat split]].
    eapply (market_keeps r); [by destruct r|by repeat split|]. intros []; by repeat split.
  - unfold BarPublished. destruct (final_minute bar); [|apply market_untouched; [by destruct r|by repeat split]].
    eapply (market_keeps r); [by destruct r|by repeat split|]. intros []; by repeat split.
Qed.

(** *** Every run *)

Definition by_now (now : Z) (ops : list op) : Prop := ∀ o t, o ∈ ops → op_time o = Some t → t <= now.

Lemma by_now_snoc now ops o : by_now now (ops ++ [o]) → by_now now ops.
Proof. intros H o' t Ho. apply H. set_solver. Qed.

Lemma runtime_at_pruned now r k : runtime_at (pruned now r) k = prune_runtime (now - observationRetention) (runtime_at r k).
Proof. unfold runtime_at. destruct r. cbn. rewrite lookup_fmap. by destruct (_ !! k). Qed.

Lemma tracks_snapshot now last ops r : now <= last → tracks last ops r → tracks last (ops ++ [MSnapshot now]) (pruned now r).
Proof.
  intros Hn [H1 H2 H3 H4 H5 H6 H7 H8 H9 H10 H11].
  assert (now - observationRetention <= last - 5 * Minute) by (unfold observationRetention; lia).
  assert (now - guardianEventRetention <= last - 30 * Minute) by (unfold guardianEventRetention; lia).
  split; intros; rewrite history_app, app_nil_r; rewrite ?runtime_at_pruned.
  all: try (cbn; by apply kept_prune).
  all: destruct r; cbn in *; by apply kept_prune.
Qed.

Lemma tracks_report last ops r o : is_snapshot o = false → tracks last ops r → tracks last (ops ++ [o]) (apply_op r o).
Proof.
  intros Ho [H1 H2 H3 H4 H5 H6 H7 H8 H9 H10 H11].
  destruct (apply_op_lists r o Ho) as (E1 & E2 & E3 & E4 & E5 & E6). pose proof (apply_op_markets r o) as Em.
  split; intros; rewrite history_app.
  - rewrite E1. by apply kept_app.
  - rewrite E2. by apply kept_app.
  - rewrite E3. by apply kept_app.
  - rewrite E4. by apply kept_app.
  - rewrite E5. by apply kept_app.
  - rewrite E6. by apply kept_app.
  - destruct (Em k Ho) as (-> & _). by apply kept_app.
  - destruct (Em k Ho) as (_ & -> & _). by apply kept_app.
  - destruct (Em k Ho) as (_ & _ & -> & _). by apply kept_app.
  - destruct (Em k Ho) as (_ & _ & _ & -> & _). by apply kept_app.
  - destruct (Em k Ho) as (_ & _ & _ & _ & ->). by apply kept_app.
Qed.

Lemma run_ops_snoc start ops o : run_ops start (ops ++ [o]) = apply_op (run_ops start ops) o.
Proof. unfold run_ops. by rewrite foldl_app. Qed.

Lemma run_tracks start last ops : by_now last ops → tracks last ops (run_ops start ops).
Proof.
  induction ops as [|o ops IH] using rev_ind; intros Hb; [split; intros; apply kept_refl|].
  rewrite run_ops_snoc. specialize (IH (by_now_snoc _ _ _ Hb)). destruct (is_snapshot o) eqn:Eo.
  - destruct o as [| | | | | | | | | | | | | | | | | | | | | | | | | | | | |now]; try discriminate Eo. apply tracks_snapshot; [|done].
    apply (Hb (MSnapshot now)); [set_solver|done].
  - by apply tracks_report.
Qed.

(** The markets with an entry. *)
Definition market_of (o : op) : option runtimeKey :=
  match o with
  | MRegisterCollectorRuntime ex mt | MCollectorSubscriptions ex mt _ | MCollectorConnection ex mt _
  | MCollectorConnectAttempt ex mt _ _ | MCollectorMessage ex mt _ | MCollectorBarReceived ex mt _ _
  | MCollectorReconnect ex mt _ | MCollectorParseError ex mt _ | MCollectorIngestError ex mt _ =>
      Some (normalizeRuntimeKey ex mt)
  | _ => None
  end.

Lemma update_runtime_dom ex mt f r :
  dom (update_runtime ex mt f r).(Registry.runtimes) = {[normalizeRuntimeKey ex mt]} ∪ dom r.(Registry.runtimes).
Proof. destruct r. cbn. apply dom_insert_L. Qed.
Lemma update_key_dom ex mt f r :
  dom (update_key (normalizeRuntimeKey ex mt) f r).(Registry.runtimes) = {[normalizeRuntimeKey ex mt]} ∪ dom r.(Registry.runtimes).
Proof. unfold update_key. by rewrite update_runtime_dom, normalizeRuntimeKey_idem. Qed.

Lemma apply_op_dom r o :
  dom r.(Registry.runtimes) ⊆ dom (apply_op r o).(Registry.runtimes) ∧
  ∀ k, market_of o = Some k → k ∈ dom (apply_op r o).(Registry.runtimes).
Proof.
  assert (∀ r' key f, r'.(Registry.runtimes) = (update_key key f r).(Registry.runtimes) →
            dom r.(Registry.runtimes) ⊆ dom r'.(Registry.runtimes)) as Hsub.
  { intros r' key f ->. unfold update_key. rewrite update_runtime_dom. set_solver. }
  assert (∀ r' ex mt f, r'.(Registry.runtimes) = (update_key (normalizeRuntimeKey ex mt) f r).(Registry.runtimes) →
            normalizeRuntimeKey ex mt ∈ dom r'.(Registry.runtimes)) as Hin.
  { intros r' ex mt f ->. rewrite update_key_dom. set_solver. }
  destruct o; cbn [market_of apply_op].
  all: try (split; [|intros ? [=]];
            unfold HTTPRequest, WSConnection, WSWrite; repeat match goal with |- context [if ?b then _ else _] => destruct b end;
            destruct r; reflexivity).
  - split; [by eapply (Hsub _ (runtimeKey.mk ex mt) id)|]. intros k [= <-]. unfold RegisterCollectorRuntime.
    rewrite update_runtime_dom. set_solver.
  - split; [|intros k [= <-]]; [eapply Hsub|eapply Hin]; by destruct r.
  - split; [|intros k [= <-]]; [eapply Hsub|eapply Hin]; by destruct r.
  - split; [|intros k [= <-]]; [eapply Hsub|eapply Hin]; by destruct r.
  - split; [|intros k [= <-]]; [eapply Hsub|eapply Hin]; by destruct r.
  - split; [|intros k [= <-]]; [eapply Hsub|eapply Hin]; by destruct r.
  - split; [|intros ? [=]]. unfold CollectorIngested. destruct (negb _); [done|]. eapply Hsub; by destruct r.
  - split; [|intros k [= <-]]; [eapply Hsub|eapply Hin]; by destruct r.
  - split; [|intros k [= <-]]; [eapply Hsub|eapply Hin]; by destruct r.
  - split; [|intros k [= <-]]; [eapply Hsub|eapply Hin]; by destruct r.
  - split; [|intros ? [=]]. unfold BarPersisted. destruct (final_minute bar); [eapply Hsub; by destruct r|by destruct r].
  - split; [|intros ? [=]]. unfold BarPublished. destruct (final_minute bar); [eapply Hsub; by destruct r|by destruct r].
  - split; [|intros ? [=]]. destruct r. cbn. by rewrite dom_fmap_L.
Qed.

Lemma run_markets start ops o k : o ∈ ops → market_of o = Some k → k ∈ dom (run_ops start ops).(Registry.runtimes).
Proof.
  intros Ho Hk. induction ops as [|o' ops IH] using rev_ind; [by apply elem_of_nil in Ho|]. rewrite run_ops_snoc.
  destruct (apply_op_dom (run_ops start ops) o') as [Hs Hn]. apply elem_of_app in Ho as [Ho|Ho].
  - by apply Hs, IH.
  - apply list_elem_of_singleton in Ho as ->. by apply Hn.
Qed.

(** ** Snapshots *)

Definition failures_of (k : runtimeKey) (o : op) : list Z :=
  match o with MCollectorConnectAttempt ex mt success now => if success then [] else at_market k ex mt [now] | _ => [] end.

(** How many observations of a history are not older than [cutoff]. *)
Definition number_since (cutoff : Z) (l : list Z) : Z := Z.of_nat (length (recent id cutoff l)).

Lemma number_since_app cutoff l1 l2 : number_since cutoff (l1 ++ l2) = number_since cutoff l1 + number_since cutoff l2.
Proof. unfold number_since, recent. rewrite filter_app, length_app. lia. Qed.

Lemma failures_count k cutoff ops :
  number_since cutoff (history (attempts_of k) ops) - number_since cutoff (history (successes_of k) ops) =
  number_since cutoff (history (failures_of k) ops).
Proof.
  induction ops as [|o ops IH] using rev_ind; [done|]. rewrite !history_app, !number_since_app.
  assert (number_since cutoff (attempts_of k o) - number_since cutoff (successes_of k o) = number_since cutoff (failures_of k o)); [|lia].
  destruct o; try done. cbn [attempts_of successes_of failures_of]. change (number_since cutoff []) with 0.
  unfold at_market. destruct success; case_decide; change (number_since cutoff []) with 0; lia.
Qed.

Lemma runtimes_of_snapshot now r e :
  e ∈ (TakeSnapshot now r).1.(Snapshot.Runtimes) ↔
  ∃ k, k ∈ dom r.(Registry.runtimes) ∧ e = runtime_snapshot now (k, runtime_at (pruned now r) k).
Proof.
  unfold TakeSnapshot. cbn. rewrite elem_of_sort_slice, list_elem_of_fmap.
  assert (dom (pruned now r).(Registry.runtimes) = dom r.(Registry.runtimes)) as <- by (destruct r; cbn; by rewrite dom_fmap_L).
  split.
  - intros ([k s] & -> & Hin%elem_of_map_to_list). exists k. split; [by eapply elem_of_dom_2|].
    unfold runtime_at. by rewrite Hin.
  - intros (k & [s Hk]%elem_of_dom & ->). exists (k, s). unfold runtime_at. rewrite Hk. split; [done|].
    by apply elem_of_map_to_list.
Qed.

Definition snapshot_key (e : RuntimeSnapshot) : runtimeKey := runtimeKey.mk e.(RuntimeSnapshot.Exchange) e.(RuntimeSnapshot.MarketType).

(** A map of counts holds, for every key, how often it was counted. *)
Lemma bump_count (keys : list string) m k :
  default 0 (foldl bump m keys !! k) = default 0 (m !! k) + tally (λ key, bool_decide (key = k)) keys.
Proof.
  revert m. induction keys as [|key keys IH]; intros m; [unfold tally; simpl; lia|]. cbn [foldl]. rewrite IH.
  unfold bump, tally. cbn [List.filter]. destruct (decide (key = k)) as [->|Hne].
  - rewrite lookup_insert, decide_True, bool_decide_eq_true_2 by done. cbn [default from_option length]. unfold id. lia.
  - rewrite lookup_insert_ne, bool_decide_eq_false_2 by done. lia.
Qed.

Lemma tally_fmap {A B} (f : A → B) select (l : list A) : tally select (f <$> l) = tally (λ x, select (f x)) l.
Proof.
  unfold tally. f_equal. induction l as [|x l IH]; [done|]. cbn [fmap list_fmap List.filter].
  destruct (select (f x)); simpl; by rewrite <- IH.
Qed.

Lemma tally_filter {A} (P : A → Prop) `{!∀ x, Decision (P x)} select (l : list A) :
  (∀ x, select x = true → P x) → tally select (filter P l) = tally select l.
Proof.
  intros HP. unfold tally. f_equal. induction l as [|x l IH]; [done|]. rewrite filter_cons. cbn [List.filter].
  case_decide as Hx; cbn [List.filter]; destruct (select x) eqn:E; simpl; rewrite ?IH; try done. by apply HP in E.
Qed.

Lemma tally_split {A} select (l : list A) : tally select l + tally (λ x, negb (select x)) l = Z.of_nat (length l).
Proof. unfold tally. induction l as [|x l IH]; [done|]. cbn [List.filter]. destruct (select x); simpl in *; lia. Qed.

(** C14: the counts of a snapshot are exact, whatever snapshots were taken before
    it.  Take any sequence of reports and snapshots made by [now].  The counts and
    percentiles below are the ones computed from the full history of reports, as if
    nothing had ever been thrown away.  Of the last five minutes: the HTTP requests,
    their server errors and 95th percentile; the dropped events; the handshakes and the
    writes of the WebSocket, how many succeeded and how many failed, which adds up to
    the attempts; the 95th percentile and the failures of the storage operations; and
    the Guardian's events of every type and of every symbol.  Of the last 30 minutes:
    the Guardian's events.  And for every market of the last five minutes: the
    reconnects, the connection attempts, successes and failures, and the parse and
    ingest errors.  Every market that was reported is in the snapshot. *)
Theorem snapshot_windows_exact start ops now :
  by_now now ops →
  let s := (TakeSnapshot now (run_ops start ops)).1 in
  let w := s.(Snapshot.Window) in
  let since := now - 5 * Minute in
  let http := recent httpObservation.At since (history http_of ops) in
  let handshakes := recent wsHandshakeObservation.At since (history handshakes_of ops) in
  let writes := recent wsWriteObservation.At since (history writes_of ops) in
  let storage := recent storageObservation.At since (history storage_of ops) in
  let events := timedGuardianEvent.Event <$> recent timedGuardianEvent.At since (history events_of ops) in
  (w.(WindowSnapshot.HTTPRequests5m) = Z.of_nat (length http) ∧
   w.(WindowSnapshot.HTTP5xx5m) = tally (λ item, 500 <=? item.(httpObservation.StatusCode)) http ∧
   w.(WindowSnapshot.HTTPP95) = percentile95 (httpObservation.Duration <$> http)) ∧
  (w.(WindowSnapshot.WSDrops5m) = number_since since (history drops_of ops) ∧
   w.(WindowSnapshot.WSHandshakeAttempts5m) = Z.of_nat (length handshakes) ∧
   w.(WindowSnapshot.WSHandshakeSuccesses5m) = tally wsHandshakeObservation.Success handshakes ∧
   w.(WindowSnapshot.WSHandshakeFailures5m) = tally (λ item, negb item.(wsHandshakeObservation.Success)) handshakes ∧
   w.(WindowSnapshot.WSHandshakeAttempts5m)
     = w.(WindowSnapshot.WSHandshakeSuccesses5m) + w.(WindowSnapshot.WSHandshakeFailures5m) ∧
   w.(WindowSnapshot.WSWriteAttempts5m) = Z.of_nat (length writes) ∧
   w.(WindowSnapshot.WSWriteSuccesses5m) = tally wsWriteObservation.Success writes ∧
   w.(WindowSnapshot.WSWriteFailures5m) = tally (λ item, negb item.(wsWriteObservation.Success)) writes ∧
   w.(WindowSnapshot.WSWriteAttempts5m)
     = w.(WindowSnapshot.WSWriteSuccesses5m) + w.(WindowSnapshot.WSWriteFailures5m)) ∧
  (w.(WindowSnapshot.StorageP95) = percentile95 (storageObservation.Duration <$> storage) ∧
   w.(WindowSnapshot.StorageFailures5m) = tally storageObservation.Failed storage) ∧
  (∀ type, default 0 (w.(WindowSnapshot.GuardianEvents5m) !! type)
     = tally (λ event, bool_decide (event.(KlineGuardianEvent.EventType) = type)) events) ∧
  (∀ symbol, symbol ≠ "" → default 0 (w.(WindowSnapshot.GuardianSymbols5m) !! symbol)
     = tally (λ event, bool_decide (event.(KlineGuardianEvent.Symbol) = symbol)) events) ∧
  w.(WindowSnapshot.GuardianEvents30m) =
    timedGuardianEvent.Event <$> recent timedGuardianEvent.At (now - 30 * Minute) (history events_of ops) ∧
  (∀ e, e ∈ s.(Snapshot.Runtimes) → let k := snapshot_key e in
     e.(RuntimeSnapshot.Reconnects5m) = number_since since (history (reconnects_of k) ops) ∧
     e.(RuntimeSnapshot.ConnectAttempts5m) = number_since since (history (attempts_of k) ops) ∧
     e.(RuntimeSnapshot.ConnectSuccesses5m) = number_since since (history (successes_of k) ops) ∧
     e.(RuntimeSnapshot.ConnectFailures5m) = number_since since (history (failures_of k) ops) ∧
     e.(RuntimeSnapshot.ParseErrors5m) = number_since since (history (parse_errors_of k) ops) ∧
     e.(RuntimeSnapshot.IngestErrors5m) = number_since since (history (ingest_errors_of k) ops)) ∧
  (∀ o k, o ∈ ops → market_of o = Some k → ∃ e, e ∈ s.(Snapshot.Runtimes) ∧ snapshot_key e = k).
Proof.
  intros Hb. cbv zeta. pose proof (tracks_snapshot now now ops _ ltac:(lia) (run_tracks start now ops Hb)) as [H1 H2 H3 H4 H5 H6 H7 H8 H9 H10 H11].
  assert (∀ A (f : op → list A), history f (ops ++ [MSnapshot now]) = history f ops ++ f (MSnapshot now)) as Ea
    by (intros; apply history_app).
  rewrite !Ea in *. setoid_rewrite Ea in H7. setoid_rewrite Ea in H8. setoid_rewrite Ea in H9. setoid_rewrite Ea in H10.
  setoid_rewrite Ea in H11. cbn [http_of storage_of drops_of handshakes_of writes_of events_of reconnects_of attempts_of
    successes_of parse_errors_of ingest_errors_of] in *. rewrite !app_nil_r in H1, H2, H3, H4, H5, H6.
  set (r := run_ops start ops) in *.
  assert (∀ A (at_ : A → Z) full kept, kept_since at_ (now - 5 * Minute) full kept →
            recent at_ (now - 5 * Minute) kept = recent at_ (now - 5 * Minute) full) as Hr
    by (intros; by eapply kept_recent).
  split_and!.
  all: try (unfold TakeSnapshot, window; cbn [fst Snapshot.Window WindowSnapshot.HTTPRequests5m WindowSnapshot.HTTP5xx5m
    WindowSnapshot.HTTPP95 WindowSnapshot.WSDrops5m WindowSnapshot.WSHandshakeAttempts5m WindowSnapshot.WSHandshakeSuccesses5m
    WindowSnapshot.WSHandshakeFailures5m WindowSnapshot.WSWriteFailures5m
    WindowSnapshot.WSWriteAttempts5m WindowSnapshot.WSWriteSuccesses5m WindowSnapshot.StorageP95 WindowSnapshot.StorageFailures5m];
    unfold countTimesSince, number_since;
    rewrite ?(Hr _ _ _ _ H1), ?(Hr _ _ _ _ H2), ?(Hr _ _ _ _ H3), ?(Hr _ _ _ _ H4), ?(Hr _ _ _ _ H5), ?tally_split; done).
  - intros type. unfold TakeSnapshot, window. cbn [fst Snapshot.Window WindowSnapshot.GuardianEvents5m].
    rewrite (kept_recent timedGuardianEvent.At (now - 30 * Minute) (now - 5 * Minute) _ _ ltac:(unfold Minute; lia) H6).
    by rewrite bump_count, lookup_empty, tally_fmap.
  - intros symbol Hsym. unfold TakeSnapshot, window. cbn [fst Snapshot.Window WindowSnapshot.GuardianSymbols5m].
    rewrite (kept_recent timedGuardianEvent.At (now - 30 * Minute) (now - 5 * Minute) _ _ ltac:(unfold Minute; lia) H6).
    rewrite bump_count, lookup_empty, tally_filter, tally_fmap; [done|]. intros x Hx. bprop. by subst.
  - unfold TakeSnapshot, window. cbn [fst Snapshot.Window WindowSnapshot.GuardianEvents30m]. unfold guardianEventRetention.
    by rewrite (kept_recent timedGuardianEvent.At (now - 30 * Minute) (now - 30 * Minute) _ _ ltac:(lia) H6).
  - intros e (k & _ & ->)%runtimes_of_snapshot. unfold snapshot_key, runtime_snapshot.
    cbn [RuntimeSnapshot.Exchange RuntimeSnapshot.MarketType RuntimeSnapshot.Reconnects5m RuntimeSnapshot.ConnectAttempts5m
      RuntimeSnapshot.ConnectSuccesses5m RuntimeSnapshot.ConnectFailures5m RuntimeSnapshot.ParseErrors5m RuntimeSnapshot.IngestErrors5m].
    replace (runtimeKey.mk k.(runtimeKey.Exchange) k.(runtimeKey.MarketType)) with k by (by destruct k).
    rewrite <- failures_count. unfold countTimesSince, number_since.
    specialize (H7 k). specialize (H8 k). specialize (H9 k). specialize (H10 k). specialize (H11 k).
    rewrite app_nil_r in H7, H8, H9, H10, H11.
    rewrite (Hr _ _ _ _ H7), (Hr _ _ _ _ H8), (Hr _ _ _ _ H9), (Hr _ _ _ _ H10), (Hr _ _ _ _ H11). done.
  - intros o k Ho Hk. exists (runtime_snapshot now (k, runtime_at (pruned now r) k)). split; [|by destruct k].
    apply runtimes_of_snapshot. exists k. split; [|done]. by eapply run_markets.
Qed.

(** *** The window of ten minutes *)

(** The clock never goes back. *)
Definition clock_runs (ops : list op) : Prop := StronglySorted Z.le (omap op_time ops).

Lemma history_times {A} (f : op → list A) (at_ : A → Z) ops :
  (∀ o, f o = [] ∨ ∃ x, f o = [x] ∧ op_time o = Some (at_ x)) →
  clock_runs ops → StronglySorted (λ a b, at_ a <= at_ b) (history f ops) ∧
  ∀ x, x ∈ history f ops → at_ x ∈ omap op_time ops.
Proof.
  intros Hf. unfold clock_runs. induction ops as [|o ops IH]; intros Hs; [split; [constructor|by intros x ?%elem_of_nil]|].
  assert (StronglySorted Z.le (omap op_time ops) ∧ ∀ t, op_time o = Some t → Forall (Z.le t) (omap op_time ops)) as [Hs' Ht].
  { simpl in Hs. destruct (op_time o); [apply StronglySorted_inv in Hs as [? ?]; split; [done|by intros ? [= <-]]|by split]. }
  destruct (IH Hs') as [IH1 IH2]. unfold history in *. cbn [fmap list_fmap concat].
  assert (∀ x, x ∈ concat (f <$> ops) → at_ x ∈ omap op_time (o :: ops)) as Hin.
  { intros x Hx. simpl. specialize (IH2 x Hx). destruct (op_time o); [by right|done]. }
  destruct (Hf o) as [->|(x & -> & Ex)]; simpl; [by split|]. split.
  - constructor; [done|]. apply Forall_forall. intros y Hy. specialize (Ht _ Ex). rewrite Forall_forall in Ht. by apply Ht, IH2.
  - rewrite Ex. intros y [->|Hy]%elem_of_cons; [by left|right; by apply IH2].
Qed.

Lemma recent_prune_sorted {A} (at_ : A → Z) l c1 c2 :
  StronglySorted (λ a b, at_ a <= at_ b) l → c2 <= c1 → recent at_ c2 (prune at_ l c1) = recent at_ c1 l.
Proof.
  intros Hs Hc. induction Hs as [|x l Hs IH Hx]; [done|]. unfold recent in *. cbn [prune].
  destruct (Z.ltb_spec (at_ x) c1) as [Hlt|Hge].
  - rewrite IH, (filter_cons _ x), decide_False by lia. done.
  - assert (∀ c, c <= c1 → filter (λ y, ¬ at_ y < c) (x :: l) = x :: l) as E; [|by rewrite !E by lia].
    intros c Hle. assert (Forall (λ y, ¬ at_ y < c) (x :: l)) as Hall.
    { constructor; [lia|]. eapply Forall_impl; [exact Hx|]. simpl. intros. lia. }
    induction Hall as [|y l' Hy _ IH']; [done|]. rewrite filter_cons, decide_True by done. by f_equal.
Qed.

(** the ten-minute count is the five-minute count.  While the clock does not
    go back, the reconnects a snapshot gives for the last ten minutes are the
    number of reconnects of the last five: what lies before was thrown away on
    entry.  So ten reconnects between five and ten minutes ago count as none. *)
Theorem ten_minutes_are_five start ops now e :
  clock_runs ops → by_now now ops →
  e ∈ (TakeSnapshot now (run_ops start ops)).1.(Snapshot.Runtimes) →
  e.(RuntimeSnapshot.Reconnects10m) = number_since (now - 5 * Minute) (history (reconnects_of (snapshot_key e)) ops) ∧
  e.(RuntimeSnapshot.Reconnects10m) = e.(RuntimeSnapshot.Reconnects5m).
Proof.
  intros Hc Hb (k & _ & ->)%runtimes_of_snapshot.
  destruct (history_times (reconnects_of k) id ops) as [Hs _]; [|done|].
  { intros o. destruct o; simpl; try by left. unfold at_market. case_decide; [right; by exists now0|by left]. }
  destruct (tracks_reconnects _ _ _ (run_tracks start now ops Hb) k) as (d & E & _).
  assert (StronglySorted (λ a b, id a <= id b) (runtime_at (run_ops start ops) k).(runtimeState.Reconnects)) as Hs'.
  { rewrite E in Hs. clear E. induction d as [|x d IH]; [done|]. apply IH. by apply StronglySorted_inv in Hs as [? _]. }
  pose proof (tracks_reconnects _ _ _ (run_tracks start now ops Hb) k) as Hk.
  unfold snapshot_key, runtime_snapshot. rewrite runtime_at_pruned.
  cbn [RuntimeSnapshot.Reconnects10m RuntimeSnapshot.Reconnects5m RuntimeSnapshot.Exchange RuntimeSnapshot.MarketType prune_runtime
       runtimeState.Reconnects].
  replace (runtimeKey.mk k.(runtimeKey.Exchange) k.(runtimeKey.MarketType)) with k by (by destruct k).
  unfold countTimesSince, number_since, pruneTimes, observationRetention.
  rewrite !recent_prune_sorted by (done || unfold Minute; lia).
  by rewrite (kept_recent id (now - 5 * Minute) (now - 5 * Minute) _ _ ltac:(lia) Hk).
Qed.

(** ** The theorems at work *)

Definition sample_seconds (s : Z) : Z := 1779262200 * Second + s * Second.
Definition sample_reports : list op :=
  [MRegisterCollectorRuntime "OKX" "swap"; MCollectorReconnect "okx" "SWAP" (sample_seconds 0);
   MCollectorReconnect "okx" "SWAP" (sample_seconds 10); MHTTPRequest "/bars" "GET" 500 Second (sample_seconds 20);
   MSnapshot (sample_seconds 200); MCollectorConnectAttempt "okx" "swap" false (sample_seconds 290);
   MCollectorReconnect "okx" "SWAP" (sample_seconds 300); MHTTPRequest "/bars" "GET" 200 Millisecond (sample_seconds 310);
   MSnapshot (sample_seconds 315)].

Lemma sample_reports_by_now : by_now (sample_seconds 400) sample_reports.
Proof.
  intros o t Ho Ht. assert (Forall (λ o, from_option (λ t, t <= sample_seconds 400) True (op_time o)) sample_reports) as H.
  { repeat constructor; vm_compute; congruence. }
  rewrite Forall_forall in H. specialize (H o Ho). by rewrite Ht in H.
Qed.

Example snapshot_windows_exact_witness :
  by_now (sample_seconds 400) sample_reports ∧
  ∃ s, s = (TakeSnapshot (sample_seconds 400) (run_ops 0 sample_reports)).1 ∧
    s.(Snapshot.Window).(WindowSnapshot.HTTPRequests5m) = 1 ∧
    ∃ e, e ∈ s.(Snapshot.Runtimes) ∧ e.(RuntimeSnapshot.Reconnects5m) = 1 ∧ e.(RuntimeSnapshot.ConnectFailures5m) = 1.
Proof.
  split; [exact sample_reports_by_now|].
  destruct (snapshot_windows_exact 0 sample_reports (sample_seconds 400) sample_reports_by_now)
    as ((Hh & _) & _ & _ & _ & _ & _ & Hm & Hall).
  eexists. split; [reflexivity|]. split; [rewrite Hh; vm_compute; reflexivity|].
  destruct (Hall (MRegisterCollectorRuntime "OKX" "swap") (normalizeRuntimeKey "OKX" "swap")) as (e & He & Ek);
    [by left|reflexivity|].
  exists e. split; [exact He|]. destruct (Hm e He) as (H1 & _ & _ & H2 & _). rewrite H1, H2, Ek.
  split; vm_compute; reflexivity.
Defined.

Example ten_minutes_are_five_witness :
  ∃ e, e ∈ (TakeSnapshot (sample_seconds 400) (run_ops 0 sample_reports)).1.(Snapshot.Runtimes) ∧
    e.(RuntimeSnapshot.Reconnects10m) = 1 ∧
    number_since (sample_seconds 400 - 10 * Minute) (history (reconnects_of (normalizeRuntimeKey "okx" "swap")) sample_reports) = 3.
Proof.
  destruct ((TakeSnapshot (sample_seconds 400) (run_ops 0 sample_reports)).1.(Snapshot.Runtimes)) as [|e l] eqn:E;
    [vm_compute in E; discriminate|].
  assert (e ∈ (TakeSnapshot (sample_seconds 400) (run_ops 0 sample_reports)).1.(Snapshot.Runtimes)) as He by (rewrite E; by left).
  exists e. split; [by left|]. split; [|vm_compute; reflexivity].
  assert (snapshot_key e = normalizeRuntimeKey "okx" "swap") as Ek by (vm_compute in E; by injection E as <- <-).
  assert (clock_runs sample_reports) as Hc by (unfold clock_runs; repeat constructor; vm_compute; congruence).
  destruct (ten_minutes_are_five 0 sample_reports (sample_seconds 400) e Hc sample_reports_by_now He) as [-> _].
  rewrite Ek. vm_compute. reflexivity.
Defined.
