(* ===== verification/Monitor.v ===== *)
(** * The monitoring service (internal/monitoring/service.go)

    Every few seconds the service pings the database, samples its surroundings,
    takes a snapshot of the registry, derives from it the conditions that call for
    an alert, and hands them to the alert engine.  [Readiness] judges the same
    snapshot for the probe.  The registry is shared with all workers: it is called,
    and answers what they have made of it. *)

From S2P Require Export Registry Alerts.

Local Open Scope string_scope.
Local Open Scope Z_scope.
Local Open Scope list_scope.
Local Open Scope prog_scope.

(** ** Data *)

(** [monitoring.Config]; the location of the daily report is part of the report. *)
Module Config.
Record Config : Type := mk {
  Enabled : bool; CollectorEnabled : bool; P1AlertsEnabled : bool;
  EvaluationInterval : Z; DatabaseTimeout : Z; StartupGrace : Z; WSWarningAge : Z; WSCriticalAge : Z; FinalCriticalAge : Z; DailyReportHour : Z; MarketReportInterval : Z;
  DiskPath : string
}.
End Config.

Notation MonitorConfig := Config.Config.

Module Check.
Record Check : Type := mk {
  Name : string;
  OK : bool;
  Status : string; Message : string;
  LastOKMS : Z; AgeSeconds : Z
}.
End Check.
Notation Check := Check.Check.

Module ReadyReport.
Record ReadyReport : Type := mk {
  OK : bool;
  TSMS : Z; StartedAtMS : Z;
  UptimeSeconds : Z;
  Checks : list Check;
  Runtimes : list RuntimeSnapshot
}.
End ReadyReport.
Notation ReadyReport := ReadyReport.ReadyReport.

(** The flags say which collaborators there are. *)
Module Service.
Record Service : Type := mk {
  cfg : Config.Config;
  pinger : bool; activityStore : bool; dbStats : bool; mysqlStatus : bool; redisStatus : bool;
  alerts : AlertEngine;
  dbFailures : Z;
  dbLastOK : option Z;
  dbLastError : string;
  dbLastLatency : Z; mysqlQuestions : Z;
  mysqlSampledAt : option Z; lastActivityAt : option Z;
  aboveSince : gmap string Z
}.
Definition set_alerts (v : AlertEngine) (b : Service) : Service := let 'mk xcfg xpinger xactivityStore
  xdbStats xmysqlStatus xredisStatus _ xdbFailures xdbLastOK xdbLastError xdbLastLatency xmysqlQuestions
  xmysqlSampledAt xlastActivityAt xaboveSince := b in mk xcfg xpinger xactivityStore xdbStats xmysqlStatus
  xredisStatus v xdbFailures xdbLastOK xdbLastError xdbLastLatency xmysqlQuestions xmysqlSampledAt
  xlastActivityAt xaboveSince.
Definition set_dbFailures (v : Z) (b : Service) : Service := let 'mk xcfg xpinger xactivityStore xdbStats
  xmysqlStatus xredisStatus xalerts _ xdbLastOK xdbLastError xdbLastLatency xmysqlQuestions xmysqlSampledAt
  xlastActivityAt xaboveSince := b in mk xcfg xpinger xactivityStore xdbStats xmysqlStatus xredisStatus
  xalerts v xdbLastOK xdbLastError xdbLastLatency xmysqlQuestions xmysqlSampledAt xlastActivityAt xaboveSince.
Definition set_dbLastOK (v : option Z) (b : Service) : Service := let 'mk xcfg xpinger xactivityStore xdbStats
  xmysqlStatus xredisStatus xalerts xdbFailures _ xdbLastError xdbLastLatency xmysqlQuestions xmysqlSampledAt
  xlastActivityAt xaboveSince := b in mk xcfg xpinger xactivityStore xdbStats xmysqlStatus xredisStatus
  xalerts xdbFailures v xdbLastError xdbLastLatency xmysqlQuestions xmysqlSampledAt xlastActivityAt
  xaboveSince.
Definition set_dbLastError (v : string) (b : Service) : Service := let 'mk xcfg xpinger xactivityStore
  xdbStats xmysqlStatus xredisStatus xalerts xdbFailures xdbLastOK _ xdbLastLatency xmysqlQuestions
  xmysqlSampledAt xlastActivityAt xaboveSince := b in mk xcfg xpinger xactivityStore xdbStats xmysqlStatus
  xredisStatus xalerts xdbFailures xdbLastOK v xdbLastLatency xmysqlQuestions xmysqlSampledAt xlastActivityAt
  xaboveSince.
Definition set_dbLastLatency (v : Z) (b : Service) : Service := let 'mk xcfg xpinger xactivityStore xdbStats
  xmysqlStatus xredisStatus xalerts xdbFailures xdbLastOK xdbLastError _ xmysqlQuestions xmysqlSampledAt
  xlastActivityAt xaboveSince := b in mk xcfg xpinger xactivityStore xdbStats xmysqlStatus xredisStatus
  xalerts xdbFailures xdbLastOK xdbLastError v xmysqlQuestions xmysqlSampledAt xlastActivityAt xaboveSince.
Definition set_mysqlQuestions (v : Z) (b : Service) : Service := let 'mk xcfg xpinger xactivityStore xdbStats
  xmysqlStatus xredisStatus xalerts xdbFailures xdbLastOK xdbLastError xdbLastLatency _ xmysqlSampledAt
  xlastActivityAt xaboveSince := b in mk xcfg xpinger xactivityStore xdbStats xmysqlStatus xredisStatus
  xalerts xdbFailures xdbLastOK xdbLastError xdbLastLatency v xmysqlSampledAt xlastActivityAt xaboveSince.
Definition set_mysqlSampledAt (v : option Z) (b : Service) : Service := let 'mk xcfg xpinger xactivityStore
  xdbStats xmysqlStatus xredisStatus xalerts xdbFailures xdbLastOK xdbLastError xdbLastLatency xmysqlQuestions
  _ xlastActivityAt xaboveSince := b in mk xcfg xpinger xactivityStore xdbStats xmysqlStatus xredisStatus
  xalerts xdbFailures xdbLastOK xdbLastError xdbLastLatency xmysqlQuestions v xlastActivityAt xaboveSince.
Definition set_lastActivityAt (v : option Z) (b : Service) : Service := let 'mk xcfg xpinger xactivityStore
  xdbStats xmysqlStatus xredisStatus xalerts xdbFailures xdbLastOK xdbLastError xdbLastLatency xmysqlQuestions
  xmysqlSampledAt _ xaboveSince := b in mk xcfg xpinger xactivityStore xdbStats xmysqlStatus xredisStatus
  xalerts xdbFailures xdbLastOK xdbLastError xdbLastLatency xmysqlQuestions xmysqlSampledAt v xaboveSince.
Definition set_aboveSince (v : gmap string Z) (b : Service) : Service := let 'mk xcfg xpinger xactivityStore
  xdbStats xmysqlStatus xredisStatus xalerts xdbFailures xdbLastOK xdbLastError xdbLastLatency xmysqlQuestions
  xmysqlSampledAt xlastActivityAt _ := b in mk xcfg xpinger xactivityStore xdbStats xmysqlStatus xredisStatus
  xalerts xdbFailures xdbLastOK xdbLastError xdbLastLatency xmysqlQuestions xmysqlSampledAt xlastActivityAt v.
End Service.
Notation Service := Service.Service.

Module MySQLServerStatus.
Record MySQLServerStatus : Type := mk {
  ThreadsConnected : Z; ThreadsRunning : Z; MaxUsedConnections : Z; Questions : Z; SlowQueries : Z; UptimeSeconds : Z
}.
End MySQLServerStatus.
Notation MySQLServerStatus := MySQLServerStatus.MySQLServerStatus.

(** The fields of [sql.DBStats] the service reads. *)
Module DBStats.
Record DBStats : Type := mk {
  MaxOpenConnections : Z; OpenConnections : Z; InUse : Z; Idle : Z; WaitCount : Z; WaitDuration : Z
}.
End DBStats.
Notation DBStats := DBStats.DBStats.

(** [Sample] reads the process and the machine. *)
Inductive serviceE : Type → Type :=
| Now : serviceE Z
| Ping : serviceE (option go_error)
| Report (o : op) : serviceE unit
| Snapshot_ (now : Z) : serviceE Snapshot
| StartedAt : serviceE Z
| ReadDBStats : serviceE DBStats
| ReadMySQLStatus : serviceE (result go_error MySQLServerStatus)
| ReadRedisStatus : serviceE (RedisServerStatus * RedisPoolStatus * Z * option go_error)
| Sample (now : Z) (diskPath : string) : serviceE ResourceSnapshot
| ContinuousOneMinuteSeries (startMS endMS minimumHours : Z) : serviceE (result go_error (list MarketSeries))
| Alert {X} (e : alertE X) : serviceE X.

Notation sprog := (prog serviceE).

Definition positive_or_default (value fallback : Z) : Z := if value <=? 0 then fallback else value.

Definition NewService (cfg : MonitorConfig) (pinger activityStore dbStats mysqlStatus redisStatus : bool) : Service :=
  let hour := cfg.(Config.DailyReportHour) in
  let cfg := Config.mk cfg.(Config.Enabled) cfg.(Config.CollectorEnabled) cfg.(Config.P1AlertsEnabled)
    (positive_or_default cfg.(Config.EvaluationInterval) (15 * Second)) (positive_or_default cfg.(Config.DatabaseTimeout) (2 * Second))
    (positive_or_default cfg.(Config.StartupGrace) (3 * Minute)) (positive_or_default cfg.(Config.WSWarningAge) (90 * Second))
    (positive_or_default cfg.(Config.WSCriticalAge) (3 * Minute)) (positive_or_default cfg.(Config.FinalCriticalAge) (2 * Minute))
    (if (hour <? 0) || (23 <? hour) then 9 else hour) (positive_or_default cfg.(Config.MarketReportInterval) (30 * Minute))
    (if bool_decide (TrimSpace cfg.(Config.DiskPath) = "") then "." else cfg.(Config.DiskPath)) in
  Service.mk cfg pinger activityStore dbStats mysqlStatus redisStatus (NewAlertEngine cfg.(Config.P1AlertsEnabled))
    0 None "" 0 0 None None ∅.

(** ** Ages *)

Definition ageFromMS (now value : Z) : Z :=
  if value <=? 0 then maxDuration
  else let age := Sub now (value * Millisecond) in if age <? 0 then 0 else age.

Section zone.
(** The zone of the machine. *)
Context (Local_ : time_zone).

Definition formatMS (value : Z) : string := if value <=? 0 then "never" else RFC3339 Local_ (value * Millisecond).

(** ** Conditions *)

Definition bold (name value : string) : string := ("**" ++ name ++ "**: `" ++ value ++ "`")%string.
Definition lines (l : list string) : string := String.concat newline l.
Definition age_text (age : Z) : string := Duration_String (Round age Second).
Definition percent (ratio : float64) : string := (fixed2 (f64_mul ratio (f64_of_Z 100)) ++ "%")%string.

Definition reconnectStormCondition (runtime : RuntimeSnapshot) : bool * string * Z * Z :=
  let connectionScale := Z.max 1 runtime.(RuntimeSnapshot.Connected) in
  let warningThreshold := Z.max 6 (Z.quot (i64 (connectionScale + 1)) 2) in
  let criticalThreshold := Z.max 12 connectionScale in
  let active := (3 <=? runtime.(RuntimeSnapshot.ConnectFailures5m)) || (warningThreshold <=? runtime.(RuntimeSnapshot.Reconnects5m)) in
  if (10 <=? runtime.(RuntimeSnapshot.ConnectFailures5m)) || (criticalThreshold <=? runtime.(RuntimeSnapshot.Reconnects10m))
  then (true, SeverityCritical, warningThreshold, criticalThreshold)
  else (active, SeverityWarning, warningThreshold, criticalThreshold).

Definition stale_active (cfg : MonitorConfig) (now startedAt : Z) (r : RuntimeSnapshot) : bool :=
  let barAge := ageFromMS now r.(RuntimeSnapshot.LastBarMS) in
  (cfg.(Config.StartupGrace) <=? Sub now startedAt)
  && ((r.(RuntimeSnapshot.LastBarMS) =? 0) || (cfg.(Config.WSWarningAge) <=? barAge)).
Definition persist_active (cfg : MonitorConfig) (now startedAt : Z) (r : RuntimeSnapshot) : bool :=
  let barAge := ageFromMS now r.(RuntimeSnapshot.LastBarMS) in
  let persistAge := ageFromMS now r.(RuntimeSnapshot.LastPersistedMS) in
  (cfg.(Config.FinalCriticalAge) <=? Sub now startedAt) && (0 <? r.(RuntimeSnapshot.LastBarMS))
  && (barAge <? cfg.(Config.WSWarningAge))
  && ((r.(RuntimeSnapshot.LastPersistedMS) =? 0) || (cfg.(Config.FinalCriticalAge) <=? persistAge)).
Definition publish_active (cfg : MonitorConfig) (now : Z) (r : RuntimeSnapshot) : bool :=
  let persistAge := ageFromMS now r.(RuntimeSnapshot.LastPersistedMS) in
  let publishAge := ageFromMS now r.(RuntimeSnapshot.LastPublishedMS) in
  (0 <? r.(RuntimeSnapshot.LastPersistedMS)) && (persistAge <? cfg.(Config.FinalCriticalAge))
  && ((r.(RuntimeSnapshot.LastPublishedMS) =? 0) || (cfg.(Config.FinalCriticalAge) <=? publishAge)).

(** The conditions of one market. *)
Definition runtime_conditions (cfg : MonitorConfig) (now startedAt : Z) (r : RuntimeSnapshot) : list Condition :=
  let prefix := (r.(RuntimeSnapshot.Exchange) ++ ":" ++ r.(RuntimeSnapshot.MarketType))%string in
  let barAge := ageFromMS now r.(RuntimeSnapshot.LastBarMS) in
  let persistAge := ageFromMS now r.(RuntimeSnapshot.LastPersistedMS) in
  let publishAge := ageFromMS now r.(RuntimeSnapshot.LastPublishedMS) in
  let staleSeverity :=
    if (r.(RuntimeSnapshot.LastBarMS) =? 0) || (cfg.(Config.WSCriticalAge) <=? barAge) then SeverityCritical else SeverityWarning in
  let '(stormActive, stormSeverity, warningThreshold, criticalThreshold) := reconnectStormCondition r in
  [Condition.mk ("collector_stale:" ++ prefix) "交易所行情停滞" staleSeverity
     (lines [bold "市场" prefix; bold "最后有效 K 线" (formatMS r.(RuntimeSnapshot.LastBarMS)); bold "延迟" (age_text barAge)])
     (stale_active cfg now startedAt r) false;
   Condition.mk ("persist_stale:" ++ prefix) "final 1m 入库停滞" SeverityCritical
     (lines [bold "市场" prefix; bold "最后入库" (formatMS r.(RuntimeSnapshot.LastPersistedMS)); bold "延迟" (age_text persistAge)])
     (persist_active cfg now startedAt r) false;
   Condition.mk ("publish_stale:" ++ prefix) "实时行情发布停滞" SeverityCritical
     (lines [bold "市场" prefix; bold "最后发布" (formatMS r.(RuntimeSnapshot.LastPublishedMS)); bold "延迟" (age_text publishAge)])
     (publish_active cfg now r) false;
   Condition.mk ("reconnect_storm:" ++ prefix) "Collector 频繁重连" stormSeverity
     (lines [bold "市场" prefix; bold "当前连接" (pretty r.(RuntimeSnapshot.Connected));
             (bold "5 分钟重连" (pretty r.(RuntimeSnapshot.Reconnects5m)) ++ " (阈值 `" ++ pretty warningThreshold ++ "`)")%string;
             (bold "10 分钟重连" (pretty r.(RuntimeSnapshot.Reconnects10m)) ++ " (critical 阈值 `" ++ pretty criticalThreshold ++ "`)")%string;
             bold "5 分钟连接失败" (pretty r.(RuntimeSnapshot.ConnectFailures5m))])
     stormActive false].

(** [sustained]: whether [above] has held for [required], and the marks it leaves. *)
Definition sustained (key : string) (above : bool) (required now : Z) (aboveSince : gmap string Z) : bool * gmap string Z :=
  if negb above then (false, delete key aboveSince)
  else
    match aboveSince !! key with
    | None => (false, <[key := now]> aboveSince)
    | Some started => (required <=? Sub now started, aboveSince)
    end.

Definition event_count (w : WindowSnapshot) (event : string) : Z := default 0 (w.(WindowSnapshot.GuardianEvents5m) !! event).

Definition guardian_conditions (w : WindowSnapshot) : list Condition :=
  let repairErrors := event_count w "repair_error" in
  let repairs := event_count w "missing_repair" + event_count w "mismatch_repair" in
  let symbols := Z.of_nat (size w.(WindowSnapshot.GuardianSymbols5m)) in
  let queueDrops := event_count w "queue_dropped" in
  [Condition.mk "guardian_repair_error" "Guardian 修复失败" SeverityCritical (bold "5 分钟 repair_error" (pretty repairErrors))
     (3 <=? repairErrors) false;
   Condition.mk "guardian_repair_spike" "Guardian 修复数量异常" SeverityWarning
     (lines [bold "5 分钟修复" (pretty repairs); bold "涉及品种" (pretty symbols)]) ((10 <=? repairs) || (5 <=? symbols)) true;
   Condition.mk "guardian_queue_drop" "Guardian 队列丢弃" (if 10 <=? queueDrops then SeverityCritical else SeverityWarning)
     (bold "5 分钟丢弃" (pretty queueDrops)) (0 <? queueDrops) false].

(** Only with twenty requests or more. *)
Definition http_conditions (w : WindowSnapshot) (now : Z) (aboveSince : gmap string Z) : list Condition * gmap string Z :=
  if 20 <=? w.(WindowSnapshot.HTTPRequests5m) then
    let ratio := f64_div (f64_of_Z w.(WindowSnapshot.HTTP5xx5m)) (f64_of_Z w.(WindowSnapshot.HTTPRequests5m)) in
    let p95 := w.(WindowSnapshot.HTTPP95) in
    let '(slow, aboveSince) := sustained "http_latency" (Second <=? p95) (5 * Minute) now aboveSince in
    ([Condition.mk "http_5xx" "HTTP 5xx 比例异常" (if f64_geb ratio (f64_of_decimal 20 (-2)) then SeverityCritical else SeverityWarning)
        (lines [bold "5 分钟请求" (pretty w.(WindowSnapshot.HTTPRequests5m));
                (bold "5xx" (pretty w.(WindowSnapshot.HTTP5xx5m)) ++ " (`" ++ percent ratio ++ "`)")%string])
        (f64_geb ratio (f64_of_decimal 5 (-2))) true;
      Condition.mk "http_latency" "HTTP 延迟异常" (if 3 * Second <=? p95 then SeverityCritical else SeverityWarning)
        (bold "5 分钟 P95" (Duration_String (Round p95 Millisecond))) slow true], aboveSince)
  else ([], aboveSince).

Definition resourceConditions (now : Z) (r : ResourceSnapshot) (aboveSince : gmap string Z) : list Condition * gmap string Z :=
  let cpu := r.(ResourceSnapshot.CPURatio) in
  let fd := r.(ResourceSnapshot.FDRatio) in
  let '(cpuActive, aboveSince) := sustained "cpu" (f64_geb cpu (f64_of_decimal 85 (-2))) (10 * Minute) now aboveSince in
  let '(fdActive, aboveSince) := sustained "fd" (f64_geb fd (f64_of_decimal 80 (-2))) (5 * Minute) now aboveSince in
  let '(goroutineActive, aboveSince) := sustained "goroutines" (5000 <=? r.(ResourceSnapshot.Goroutines)) (10 * Minute) now aboveSince in
  ([Condition.mk "process_cpu" "进程 CPU 使用率异常" SeverityWarning (bold "CPU 占整机比例" (percent cpu)) cpuActive true;
    Condition.mk "process_fd" "进程文件描述符使用率异常" (if f64_geb fd (f64_of_decimal 95 (-2)) then SeverityCritical else SeverityWarning)
      (bold "FD" (pretty r.(ResourceSnapshot.OpenFDs) ++ "/" ++ pretty r.(ResourceSnapshot.FDLimit)) ++ " (`" ++ percent fd ++ "`)")%string
      fdActive true;
    Condition.mk "process_goroutines" "goroutine 数量异常" SeverityWarning (bold "goroutines" (pretty r.(ResourceSnapshot.Goroutines)))
      goroutineActive true], aboveSince).

Definition conditions (now : Z) (snapshot : Snapshot) (s : Service) : list Condition * Service :=
  let w := snapshot.(Snapshot.Window) in
  let database :=
    Condition.mk "mysql_unavailable" "MySQL 不可用" SeverityCritical
      (lines [bold "连续失败" (pretty s.(Service.dbFailures)); ("**错误**: " ++ s.(Service.dbLastError))%string])
      (3 <=? s.(Service.dbFailures)) false in
  let markets := concat (runtime_conditions s.(Service.cfg) now snapshot.(Snapshot.StartedAt) <$> snapshot.(Snapshot.Runtimes)) in
  let '(http, aboveSince) := http_conditions w now s.(Service.aboveSince) in
  let drops := w.(WindowSnapshot.WSDrops5m) in
  let consumers :=
    Condition.mk "ws_slow_consumers" "WebSocket 慢消费者丢数据" (if 100 <=? drops then SeverityCritical else SeverityWarning)
      (bold "5 分钟丢弃事件" (pretty drops)) (10 <=? drops) true in
  let '(slow, aboveSince) :=
    sustained "mysql_latency" (500 * Millisecond <=? w.(WindowSnapshot.StorageP95)) (5 * Minute) now aboveSince in
  let latency :=
    Condition.mk "mysql_latency" "MySQL 延迟异常" SeverityWarning
      (bold "5 分钟 P95" (Duration_String (Round w.(WindowSnapshot.StorageP95) Millisecond))) slow true in
  let '(resources, aboveSince) := resourceConditions now snapshot.(Snapshot.Resources) aboveSince in
  ([database] ++ markets ++ guardian_conditions w ++ http ++ [consumers; latency] ++ resources,
   Service.set_aboveSince aboveSince s).

(** ** Samples *)

Definition checkDatabase (s : Service) : sprog Service :=
  if negb s.(Service.pinger) then Ret s
  else
    started <- trigger Now ;;
    err <- trigger Ping ;;
    ended <- trigger Now ;;
    let latency := Sub ended started in
    let failed := match err with Some _ => true | None => false end in
    reported <- trigger Now ;;
    _ <- trigger (Report (MStorageOperation "ping" latency failed reported)) ;;
    let s := Service.set_dbLastLatency latency s in
    match err with
    | Some e => Ret (Service.set_dbLastError (error_text e) (Service.set_dbFailures (i64 (s.(Service.dbFailures) + 1)) s))
    | None =>
        now <- trigger Now ;;
        Ret (Service.set_dbLastOK (Some now) (Service.set_dbLastError "" (Service.set_dbFailures 0 s)))
    end.

Definition sampleMySQL (now : Z) (s : Service) : sprog Service :=
  let available := s.(Service.pinger) && (s.(Service.dbFailures) =? 0) in
  stats <- (if s.(Service.dbStats) then trigger ReadDBStats else Ret (DBStats.mk 0 0 0 0 0 0)) ;;
  let snapshot lastError connected running maxUsed qps slow :=
    MySQLSnapshot.mk available lastError s.(Service.dbLastLatency) stats.(DBStats.MaxOpenConnections) stats.(DBStats.OpenConnections)
      stats.(DBStats.InUse) stats.(DBStats.Idle) stats.(DBStats.WaitCount) stats.(DBStats.WaitDuration)
      connected running maxUsed qps slow in
  if s.(Service.mysqlStatus) && available then
    status <- trigger ReadMySQLStatus ;;
    match status with
    | Err e =>
        _ <- trigger (Report (MSetMySQL (snapshot ("status: " ++ error_text e)%string 0 0 0 f64_zero 0))) ;; Ret s
    | Ok status =>
        let questions := status.(MySQLServerStatus.Questions) in
        let qps :=
          match s.(Service.mysqlSampledAt) with
          | Some previousAt =>
              if (previousAt <? now) && (s.(Service.mysqlQuestions) <=? questions)
              then f64_div (f64_of_Z (questions - s.(Service.mysqlQuestions))) (Seconds (Sub now previousAt)) else f64_zero
          | None => f64_zero
          end in
        let snapshot := snapshot s.(Service.dbLastError) status.(MySQLServerStatus.ThreadsConnected)
          status.(MySQLServerStatus.ThreadsRunning) status.(MySQLServerStatus.MaxUsedConnections) qps
          status.(MySQLServerStatus.SlowQueries) in
        _ <- trigger (Report (MSetMySQL snapshot)) ;;
        Ret (Service.set_mysqlSampledAt (Some now) (Service.set_mysqlQuestions questions s))
    end
  else
    _ <- trigger (Report (MSetMySQL (snapshot s.(Service.dbLastError) 0 0 0 f64_zero 0))) ;; Ret s.

Definition sampleRedis (s : Service) : sprog unit :=
  if negb s.(Service.redisStatus) then trigger (Report (MSetRedis RedisSnapshot.zero))
  else
    status <- trigger ReadRedisStatus ;;
    let '(server, pool, latency, err) := status in
    let '(available, lastError) := match err with Some e => (false, error_text e) | None => (true, "") end in
    trigger (Report (MSetRedis (RedisSnapshot.mk true available lastError latency server pool))).

Definition EvaluateOnce (s : Service) : sprog Service :=
  s <- checkDatabase s ;;
  now <- trigger Now ;;
  s <- sampleMySQL now s ;;
  _ <- sampleRedis s ;;
  resources <- trigger (Sample now s.(Service.cfg).(Config.DiskPath)) ;;
  _ <- trigger (Report (MSetResources resources)) ;;
  snapshot <- trigger (Snapshot_ now) ;;
  let '(found, s) := conditions now snapshot s in
  alerts <- embed (@Alert) (Evaluate Local_ found s.(Service.alerts)) ;;
  Ret (Service.set_alerts alerts s).

Definition refreshContinuousSeries (s : Service) : sprog Service :=
  if negb s.(Service.activityStore) then Ret s
  else
    now <- trigger Now ;;
    series <- trigger (ContinuousOneMinuteSeries (unix_milli (now - 72 * Hour)) (unix_milli now) 70) ;;
    match series with
    | Err _ => Ret s
    | Ok series =>
        _ <- trigger (Report (MSetContinuousSeries series)) ;; Ret (Service.set_lastActivityAt (Some now) s)
    end.

(** ** Readiness *)

(** [int64(f)] for a finite value in range. *)
Definition int64_of_float (f : float64) : Z :=
  match f with
  | S754_finite neg m e =>
      let v := if 0 <=? e then Zpos m * 2 ^ e else Zpos m / 2 ^ (- e) in if neg then - v else v
  | _ => 0
  end.
(** [int64(d.Seconds())]. *)
Definition whole_seconds (d : Z) : Z := int64_of_float (Seconds d).

Definition runtime_check (cfg : MonitorConfig) (now startedAt : Z) (r : RuntimeSnapshot) : Check :=
  let name := ("collector:" ++ r.(RuntimeSnapshot.Exchange) ++ ":" ++ r.(RuntimeSnapshot.MarketType))%string in
  let age := ageFromMS now r.(RuntimeSnapshot.LastBarMS) in
  let check ok status message := Check.mk name ok status message r.(RuntimeSnapshot.LastBarMS) (whole_seconds age) in
  let first :=
    if (Sub now startedAt <? cfg.(Config.StartupGrace)) && (r.(RuntimeSnapshot.LastBarMS) =? 0) then check true "initializing" ""
    else if (r.(RuntimeSnapshot.LastBarMS) =? 0) || (cfg.(Config.WSCriticalAge) <=? age)
         then check false "stale" ("no valid WS kline for " ++ age_text age)%string
         else check true "ok" "" in
  if (0 <? r.(RuntimeSnapshot.LastBarMS)) && (age <? cfg.(Config.WSWarningAge)) && (cfg.(Config.FinalCriticalAge) <=? Sub now startedAt) then
    let persistAge := ageFromMS now r.(RuntimeSnapshot.LastPersistedMS) in
    if (r.(RuntimeSnapshot.LastPersistedMS) =? 0) || (cfg.(Config.FinalCriticalAge) <=? persistAge)
    then check false "persist_stale" ("final 1m persist watermark stale for " ++ age_text persistAge)%string
    else
      let publishAge := ageFromMS now r.(RuntimeSnapshot.LastPublishedMS) in
      if (r.(RuntimeSnapshot.LastPublishedMS) =? 0) || (cfg.(Config.FinalCriticalAge) <=? publishAge)
      then check false "publish_stale" ("final 1m publish watermark stale for " ++ age_text publishAge)%string
      else first
  else first.

Definition Readiness (s : Service) : sprog ReadyReport :=
  let cfg := s.(Service.cfg) in
  now <- trigger Now ;;
  startedAt <- trigger StartedAt ;;
  let report ok checks runtimes :=
    ReadyReport.mk ok (unix_milli now) (unix_milli startedAt) (whole_seconds (Sub now startedAt)) checks runtimes in
  dbCheck <-
    (if negb s.(Service.pinger) then Ret (Check.mk "mysql" true "ok" "" 0 0)
     else
       started <- trigger Now ;;
       err <- trigger Ping ;;
       ended <- trigger Now ;;
       reported <- trigger Now ;;
       let failed := match err with Some _ => true | None => false end in
       _ <- trigger (Report (MStorageOperation "ping" (Sub ended started) failed reported)) ;;
       Ret (match err with
            | Some e => Check.mk "mysql" false "unavailable" (error_text e) 0 0
            | None => Check.mk "mysql" true "ok" "" 0 0
            end)) ;;
  if negb cfg.(Config.CollectorEnabled)
  then Ret (report dbCheck.(Check.OK) [dbCheck; Check.mk "collector" true "disabled" "" 0 0] [])
  else
    snapshot <- trigger (Snapshot_ now) ;;
    let checks := runtime_check cfg now snapshot.(Snapshot.StartedAt) <$> snapshot.(Snapshot.Runtimes) in
    let ok := dbCheck.(Check.OK) && forallb Check.OK checks in
    if (length snapshot.(Snapshot.Runtimes) =? 0)%nat && (cfg.(Config.StartupGrace) <=? Sub now snapshot.(Snapshot.StartedAt))
    then Ret (report false (dbCheck :: checks ++ [Check.mk "collector" false "missing" "no collector runtimes registered" 0 0])
                snapshot.(Snapshot.Runtimes))
    else Ret (report ok (dbCheck :: checks) snapshot.(Snapshot.Runtimes)).
End zone.

(** ** Reports *)

(** [now.Truncate(d)] counts from the first instant of year 1. *)
Definition untilNextMarketReport (cfg : MonitorConfig) (now : Z) : Z :=
  let interval := cfg.(Config.MarketReportInterval) in
  let next := now - (now - zero_time) mod interval + interval in
  Sub next now.

Definition formatUintMap (values : gmap string Z) : string :=
  if bool_decide (values = ∅) then "none"
  else String.concat ", " ((λ key, (key ++ "=" ++ decimal_text (default 0 (values !! key)))%string)
         <$> sort_strings (elements (dom values))).

Definition maxDetails : nat := 20.
Definition issue_line (issue : IntegrityIssue) : string :=
  let detail := ("- `" ++ issue.(IntegrityIssue.Exchange) ++ ":" ++ issue.(IntegrityIssue.Symbol) ++ "`, `" ++
                 issue.(IntegrityIssue.Timeframe) ++ "`, `" ++ RFC3339 (λ _, 0) (issue.(IntegrityIssue.StartMS) * Millisecond) ++
                 "`, `" ++ issue.(IntegrityIssue.Type_) ++ "`")%string in
  if bool_decide (issue.(IntegrityIssue.Type_) = "source_incomplete")
  then (detail ++ "，源 `" ++ issue.(IntegrityIssue.SourceTimeframe) ++ "`=" ++ pretty issue.(IntegrityIssue.ActualSourceBars) ++ "/" ++
        pretty issue.(IntegrityIssue.ExpectedSourceBars) ++ "，无法校验")%string
  else detail.
Definition formatIntegrity (summary : IntegritySummary) : string :=
  let head :=
    ("checked=" ++ pretty summary.(IntegritySummary.CheckedSymbols) ++ ", missing=" ++ pretty summary.(IntegritySummary.Missing) ++
     ", mismatch=" ++ pretty summary.(IntegritySummary.Mismatch) ++ ", invalid_ohlc=" ++ pretty summary.(IntegritySummary.InvalidOHLC) ++
     ", source_incomplete=" ++ pretty summary.(IntegritySummary.SourceIncomplete) ++ ", affected=" ++
     pretty (Z.of_nat (length summary.(IntegritySummary.Affected))))%string in
  let issues := summary.(IntegritySummary.Issues) in
  match issues with
  | [] => head
  | _ =>
      let omitted := (length issues - maxDetails)%nat in
      lines ([head; ""; "**异常明细**:"] ++ (issue_line <$> take maxDetails issues) ++
             if (0 <? omitted)%nat then [("- 其余 `" ++ pretty (Z.of_nat omitted) ++ "` 条异常已省略")%string] else [])
  end.

(** ** The quality report (quality_report.go) *)

Definition qualityWarningAge : Z := 2 * Minute.
Definition qualityCriticalAge : Z := 5 * Minute.

Module delayedSymbol.
Record delayedSymbol : Type := mk { Symbol : SymbolQuality; Age : Z }.
End delayedSymbol.
Notation delayedSymbol := delayedSymbol.delayedSymbol.

Definition delayed_less (l r : delayedSymbol) : bool :=
  let ls := l.(delayedSymbol.Symbol) in
  let rs := r.(delayedSymbol.Symbol) in
  if negb (l.(delayedSymbol.Age) =? r.(delayedSymbol.Age)) then r.(delayedSymbol.Age) <? l.(delayedSymbol.Age)
  else if negb (bool_decide (ls.(SymbolQuality.Exchange) = rs.(SymbolQuality.Exchange)))
       then string_less ls.(SymbolQuality.Exchange) rs.(SymbolQuality.Exchange)
       else string_less ls.(SymbolQuality.Symbol) rs.(SymbolQuality.Symbol).

(** The symbols that trade all the time, are subscribed and have had no final candle
    for two minutes, the longest silent first; and the number of symbols looked at. *)
Definition delayedSubscribedSymbols (now : Z) (symbols : list SymbolQuality) : list delayedSymbol * Z :=
  let tracked := List.filter (fun s => s.(SymbolQuality.Subscribed) && s.(SymbolQuality.Continuous)) symbols in
  let aged := (λ s, delayedSymbol.mk s (ageFromMS now s.(SymbolQuality.LastFinalMS))) <$> tracked in
  (sort_slice delayed_less (List.filter (fun d => qualityWarningAge <=? d.(delayedSymbol.Age)) aged),
   Z.of_nat (length tracked)).
