(* ===== verification/MonitorSpec.v ===== *)
(** * What the monitoring service promises

    A market that no longer reaches its subscribers is noticed: the evaluation
    opens the incident of the first stage that stopped, and the probe is told that
    the process is not ready. *)

From S2P Require Export Monitor AlertsSpec.

Local Open Scope string_scope.
Local Open Scope Z_scope.
Local Open Scope list_scope.
Local Open Scope prog_scope.

(** ** Stages *)

(** A mark was set, less than [limit] ago. *)
Definition fresh (now limit mark : Z) : Prop := 0 < mark ∧ ageFromMS now mark < limit.

Definition marks_ok (r : RuntimeSnapshot) : Prop :=
  0 <= r.(RuntimeSnapshot.LastBarMS) ∧ 0 <= r.(RuntimeSnapshot.LastPersistedMS) ∧ 0 <= r.(RuntimeSnapshot.LastPublishedMS).

(** The start-up periods are over. *)
Definition warmed_up (cfg : MonitorConfig) (now startedAt : Z) : Prop :=
  cfg.(Config.StartupGrace) <= Sub now startedAt ∧ cfg.(Config.FinalCriticalAge) <= Sub now startedAt.

Lemma fresh_bool now limit mark :
  0 <= mark → (mark =? 0) || (limit <=? ageFromMS now mark) = true ↔ ¬ fresh now limit mark.
Proof. intros Hm. unfold fresh. rewrite orb_true_iff, Z.eqb_eq, Z.leb_le. lia. Qed.

Lemma stale_active_spec cfg now started r :
  marks_ok r → warmed_up cfg now started →
  stale_active cfg now started r = true ↔ ¬ fresh now cfg.(Config.WSWarningAge) r.(RuntimeSnapshot.LastBarMS).
Proof.
  intros (H1 & _) [Hg _]. unfold stale_active. rewrite andb_true_iff, fresh_bool, Z.leb_le by done. tauto.
Qed.
Lemma persist_active_spec cfg now started r :
  marks_ok r → warmed_up cfg now started →
  persist_active cfg now started r = true ↔
  fresh now cfg.(Config.WSWarningAge) r.(RuntimeSnapshot.LastBarMS) ∧
  ¬ fresh now cfg.(Config.FinalCriticalAge) r.(RuntimeSnapshot.LastPersistedMS).
Proof.
  intros (H1 & H2 & _) [_ Hg]. unfold persist_active. rewrite !andb_true_iff, fresh_bool, Z.leb_le, !Z.ltb_lt by done.
  unfold fresh at 2. tauto.
Qed.
Lemma publish_active_spec cfg now r :
  marks_ok r →
  publish_active cfg now r = true ↔
  fresh now cfg.(Config.FinalCriticalAge) r.(RuntimeSnapshot.LastPersistedMS) ∧
  ¬ fresh now cfg.(Config.FinalCriticalAge) r.(RuntimeSnapshot.LastPublishedMS).
Proof.
  intros (_ & H2 & H3). unfold publish_active. rewrite !andb_true_iff, fresh_bool, !Z.ltb_lt by done. unfold fresh at 2. tauto.
Qed.

(** The first stage that stopped. *)
Definition market_name (r : RuntimeSnapshot) : string := (r.(RuntimeSnapshot.Exchange) ++ ":" ++ r.(RuntimeSnapshot.MarketType))%string.
Definition fresh_b (now limit mark : Z) : bool := (0 <? mark) && (ageFromMS now mark <? limit).
Definition stopped_key (cfg : MonitorConfig) (now : Z) (r : RuntimeSnapshot) : string :=
  ((if negb (fresh_b now cfg.(Config.WSWarningAge) r.(RuntimeSnapshot.LastBarMS)) then "collector_stale:"
    else if negb (fresh_b now cfg.(Config.FinalCriticalAge) r.(RuntimeSnapshot.LastPersistedMS)) then "persist_stale:"
    else "publish_stale:") ++ market_name r)%string.
Lemma fresh_b_spec now limit mark : fresh_b now limit mark = true ↔ fresh now limit mark.
Proof. unfold fresh_b, fresh. by rewrite andb_true_iff, !Z.ltb_lt. Qed.

(** ** The keys of the conditions *)

Definition fixed_keys : list string :=
  ["mysql_unavailable"; "guardian_repair_error"; "guardian_repair_spike"; "guardian_queue_drop"; "http_5xx"; "http_latency";
   "ws_slow_consumers"; "mysql_latency"; "process_cpu"; "process_fd"; "process_goroutines"].

Section zone.
Context (zone : time_zone).

Lemma condition_keys now snapshot s :
  Forall (λ c, c.(Condition.Key) ∈ fixed_keys ∨
    ∃ r, r ∈ snapshot.(Snapshot.Runtimes) ∧ c ∈ runtime_conditions zone s.(Service.cfg) now snapshot.(Snapshot.StartedAt) r)
    (conditions zone now snapshot s).1.
Proof.
  assert (∀ k, bool_decide (k ∈ fixed_keys) = true → k ∈ fixed_keys) as Hk by (intros k; apply bool_decide_eq_true_1).
  unfold conditions, http_conditions, resourceConditions, guardian_conditions.
  destruct (20 <=? _); [destruct (sustained "http_latency" _ _ _ _) as [? m1]|set (m1 := Service.aboveSince s)];
    destruct (sustained "mysql_latency" _ _ _ _) as [? m2]; destruct (sustained "cpu" _ _ _ _) as [? m3];
    destruct (sustained "fd" _ _ _ _) as [? m4]; destruct (sustained "goroutines" _ _ _ _) as [? m5]; cbn [fst].
  all: repeat (apply Forall_app; split); repeat constructor; try (left; apply Hk; reflexivity).
  all: apply Forall_concat, Forall_fmap, Forall_forall; intros r Hr; apply Forall_forall; intros c Hc; right; by exists r.
Qed.

Lemma runtime_condition_in now snapshot s r c :
  r ∈ snapshot.(Snapshot.Runtimes) → c ∈ runtime_conditions zone s.(Service.cfg) now snapshot.(Snapshot.StartedAt) r →
  c ∈ (conditions zone now snapshot s).1.
Proof.
  intros Hr Hc. unfold conditions. destruct (http_conditions _ _ _) as [http m1].
  destruct (sustained "mysql_latency" _ _ _ _) as [? m2]. destruct (resourceConditions _ _ _) as [? m3]. cbn [fst].
  apply elem_of_app. right. apply elem_of_app. left. apply list_elem_of_In, in_concat.
  exists (runtime_conditions zone s.(Service.cfg) now snapshot.(Snapshot.StartedAt) r). rewrite <- !list_elem_of_In.
  split; [|done]. apply list_elem_of_fmap. by exists r.
Qed.

(** The stages of a market. *)
Lemma runtime_condition_cases now cfg started r c :
  c ∈ runtime_conditions zone cfg now started r →
  (c.(Condition.Key) = ("collector_stale:" ++ market_name r)%string ∧ c.(Condition.Active) = stale_active cfg now started r ∧ c.(Condition.P1) = false) ∨
  (c.(Condition.Key) = ("persist_stale:" ++ market_name r)%string ∧ c.(Condition.Active) = persist_active cfg now started r ∧ c.(Condition.P1) = false) ∨
  (c.(Condition.Key) = ("publish_stale:" ++ market_name r)%string ∧ c.(Condition.Active) = publish_active cfg now r ∧ c.(Condition.P1) = false) ∨
  c.(Condition.Key) = ("reconnect_storm:" ++ market_name r)%string.
Proof.
  unfold runtime_conditions. destruct (reconnectStormCondition r) as [[[? ?] ?] ?].
  rewrite !elem_of_cons, elem_of_nil. intros [-> | [-> | [-> | [-> | []]]]]; auto 10.
Qed.

(** The key of the first stage that stopped is that of a condition that holds, and of
    no other. *)
Lemma stopped_condition now snapshot s r :
  let cfg := s.(Service.cfg) in
  NoDup (market_name <$> snapshot.(Snapshot.Runtimes)) → r ∈ snapshot.(Snapshot.Runtimes) → marks_ok r →
  warmed_up cfg now snapshot.(Snapshot.StartedAt) →
  ¬ fresh now cfg.(Config.FinalCriticalAge) r.(RuntimeSnapshot.LastPublishedMS) →
  (∃ c, c ∈ (conditions zone now snapshot s).1 ∧ c.(Condition.Key) = stopped_key cfg now r) ∧
  Forall (λ c, c.(Condition.Key) = stopped_key cfg now r → c.(Condition.Active) = true ∧ c.(Condition.P1) = false)
    (conditions zone now snapshot s).1.
Proof.
  intros cfg Hnd Hr Hm Hw Hp.
  pose proof (stale_active_spec cfg now _ r Hm Hw) as H1. pose proof (persist_active_spec cfg now _ r Hm Hw) as H2.
  pose proof (publish_active_spec cfg now r Hm) as H3. split.
  - assert (∀ i c, runtime_conditions zone cfg now snapshot.(Snapshot.StartedAt) r !! i = Some c →
              c ∈ (conditions zone now snapshot s).1) as Hin.
    { intros i c Hc. eapply runtime_condition_in; [done|]. by eapply list_elem_of_lookup_2. }
    unfold runtime_conditions in Hin. destruct (reconnectStormCondition r) as [[[? ?] ?] ?]. unfold stopped_key.
    destruct (negb (fresh_b _ _ (RuntimeSnapshot.LastBarMS r))); [eexists; split; [apply (Hin 0%nat _ eq_refl)|done]|].
    destruct (negb (fresh_b _ _ (RuntimeSnapshot.LastPersistedMS r))); eexists;
      [split; [apply (Hin 1%nat _ eq_refl)|done]|split; [apply (Hin 2%nat _ eq_refl)|done]].
  - eapply Forall_impl; [apply condition_keys|]. cbn beta. intros c Hc Hk. destruct Hc as [Hc|(r' & Hr' & Hc)].
    { exfalso. rewrite Hk in Hc. unfold stopped_key, fixed_keys in Hc.
      repeat (apply elem_of_cons in Hc as [Hc|Hc]); [..|by apply elem_of_nil in Hc]; revert Hc; by repeat destruct (negb _). }
    apply runtime_condition_cases in Hc.
    assert (market_name r' = market_name r → r' = r) as Hinj by (by apply (NoDup_key_inj market_name _ _ _ Hnd)).
    assert (∀ c, fresh_b now cfg.(Config.WSWarningAge) r.(RuntimeSnapshot.LastBarMS) = c → c = true ↔ fresh now cfg.(Config.WSWarningAge) r.(RuntimeSnapshot.LastBarMS)) as F1
      by (intros ? <-; apply fresh_b_spec).
    assert (∀ c, fresh_b now cfg.(Config.FinalCriticalAge) r.(RuntimeSnapshot.LastPersistedMS) = c → c = true ↔ fresh now cfg.(Config.FinalCriticalAge) r.(RuntimeSnapshot.LastPersistedMS)) as F2
      by (intros ? <-; apply fresh_b_spec).
    unfold stopped_key in Hk. destruct (fresh_b _ _ (RuntimeSnapshot.LastBarMS r)); cbn [negb] in Hk;
      [destruct (fresh_b _ _ (RuntimeSnapshot.LastPersistedMS r)); cbn [negb] in Hk|].
    all: specialize (F1 _ eq_refl); specialize (F2 _ eq_refl).
    all: destruct Hc as [(E & Ha & HP)|[(E & Ha & HP)|[(E & Ha & HP)|E]]]; rewrite E in Hk; try discriminate Hk.
    all: injection Hk as Hk; rewrite (Hinj Hk) in *; split; [|done]; rewrite Ha; fold cfg; clear - H1 H2 H3 F1 F2 Hp; intuition congruence.
Qed.
End zone.

(** ** One evaluation *)

Definition embed_call {E F : Type → Type} (h : ∀ X, E X → F X) (c : call E) : call F := match c with Call e x => Call (h _ e) x end.
Lemma runs_embed_calls {E F : Type → Type} {A} (h : ∀ X, E X → F X) (p : prog E A) tr x :
  runs (embed h p) tr x → ∃ tr', tr = embed_call h <$> tr' ∧ runs p tr' x.
Proof.
  revert tr. induction p as [y|X e k IH]; intros tr Hr; cbn [embed] in Hr; [exists []; by apply runs_Ret in Hr as [-> ->]|].
  destruct tr as [|c tr]; [done|]. destruct Hr as (a & -> & Hr). destruct (IH _ _ Hr) as (tr' & -> & Hr').
  exists (Call e a :: tr'). split; [done|]. by exists a.
Qed.

(** A loop over the map of alerts visits its keys, each once. *)
Definition service_visits (c : call serviceE) : Prop :=
  match c with
  | Call e x => match e in serviceE X return X → Prop with Alert e => λ x, visits (Call e x) | _ => λ _, True end x
  end.

Lemma service_visits_embed tr : Forall service_visits (embed_call (@Alert) <$> tr) → Forall visits tr.
Proof. induction tr as [|[X e x] tr IH]; intros H; [constructor|]. apply Forall_cons in H as [H1 H2]. constructor; [exact H1|by apply IH]. Qed.

(** The samples leave the configuration and the alerts alone. *)
Definition same_alerts (s s' : Service) : Prop := s'.(Service.cfg) = s.(Service.cfg) ∧ s'.(Service.alerts) = s.(Service.alerts).

Lemma checkDatabase_same s tr s' : runs (checkDatabase s) tr s' → same_alerts s s'.
Proof.
  unfold checkDatabase. destruct (negb _); [by intros [_ ->]%runs_Ret|]. intros Hr.
  apply runs_bind in Hr as (? & started & ? & -> & _ & Hr). apply runs_bind in Hr as (? & err & ? & -> & _ & Hr).
  apply runs_bind in Hr as (? & ended & ? & -> & _ & Hr). apply runs_bind in Hr as (? & reported & ? & -> & _ & Hr).
  apply runs_bind in Hr as (? & [] & ? & -> & _ & Hr). destruct err as [e|].
  - apply runs_Ret in Hr as [_ ->]. by destruct s.
  - apply runs_bind in Hr as (? & now & ? & -> & _ & [_ ->]%runs_Ret). by destruct s.
Qed.
Lemma sampleMySQL_same now s tr s' : runs (sampleMySQL now s) tr s' → same_alerts s s'.
Proof.
  unfold sampleMySQL. intros Hr. apply runs_bind in Hr as (? & stats & ? & -> & _ & Hr). destruct (_ && _) in Hr.
  - apply runs_bind in Hr as (? & [status|e] & ? & -> & _ & Hr); apply runs_bind in Hr as (? & [] & ? & -> & _ & [_ ->]%runs_Ret);
      by destruct s.
  - by apply runs_bind in Hr as (? & [] & ? & -> & _ & [_ ->]%runs_Ret).
Qed.
Lemma conditions_same zone now snapshot s : same_alerts s (conditions zone now snapshot s).2.
Proof.
  unfold conditions. destruct (http_conditions _ _ _) as [http m1]. destruct (sustained "mysql_latency" _ _ _ _) as [? m2].
  destruct (resourceConditions _ _ _) as [? m3]. by destruct s.
Qed.

(** Signals that all fire leave an incident open. *)
Definition fires (s : signal) : Prop := match s with Firing _ _ _ => True | _ => False end.
Lemma phase_steps_firing reminder now p l : l ≠ [] → Forall fires l → is_Some (phase_steps reminder now p l).1.(phase.open).
Proof.
  intros Hne Hl. destruct l as [|x l' _] using rev_ind; [done|]. rewrite phase_steps_snoc.
  apply Forall_app in Hl as [_ [Hx _]%Forall_cons]. destruct (phase_steps reminder now p l') as [p1 n1].
  destruct x as [| |severity title message]; try done. cbn. destruct (phase.open p1); [destruct (_ || _)|]; by eexists.
Qed.

Lemma named_signals e conditions key :
  (∃ c, c ∈ conditions ∧ c.(Condition.Key) = key) → key ≠ "" →
  Forall (λ c, c.(Condition.Key) = key → c.(Condition.Active) = true ∧ c.(Condition.P1) = false) conditions →
  signals e conditions key ≠ [] ∧ Forall fires (signals e conditions key).
Proof.
  intros (c & Hc & Hk) Hne Hall. assert (c ∈ named key conditions) as Hin by (by apply list_elem_of_filter).
  unfold signals. destruct (named key conditions) as [|c' l] eqn:E; [by apply elem_of_nil in Hin|]. split; [done|].
  apply Forall_fmap, Forall_forall. intros x Hx. rewrite <- E in Hx. apply list_elem_of_filter in Hx as [[Hx _] Hin'].
  rewrite Forall_forall in Hall. destruct (Hall x Hin' Hx) as [Ha Hp]. cbn. unfold signal_of, in_shadow. by rewrite Ha, Hp.
Qed.

(** C12: a market that stopped reaching its subscribers has an open incident.  Let the
    alert engine implement a phase for every key before the evaluation.  The
    evaluation takes a snapshot of the registry, and afterwards the engine has an
    open incident for every market of the snapshot whose last published candle is
    older than the limit, once the start-up periods are over: the incident is that
    of the first stage that stopped, the exchange's stream, the database or the
    publication, whatever the other conditions of the round and whether or not
    the alerts of priority one are enabled. *)
Theorem silent_market_alerts zone s p tr s' :
  (∀ key, implements s.(Service.alerts) key (p key)) → Forall service_visits tr → runs (EvaluateOnce zone s) tr s' →
  ∃ now snapshot, Call (Snapshot_ now) snapshot ∈ tr ∧
    let cfg := s.(Service.cfg) in
    NoDup (market_name <$> snapshot.(Snapshot.Runtimes)) → warmed_up cfg now snapshot.(Snapshot.StartedAt) →
    ∀ r, r ∈ snapshot.(Snapshot.Runtimes) → marks_ok r →
      ¬ fresh now cfg.(Config.FinalCriticalAge) r.(RuntimeSnapshot.LastPublishedMS) →
      ∃ q, implements s'.(Service.alerts) (stopped_key cfg now r) q ∧ is_Some q.(phase.open).
Proof.
  intros Hi Hv Hr. unfold EvaluateOnce in Hr.
  apply runs_bind in Hr as (t1 & s1 & t2 & -> & [Hc1 Ha1]%checkDatabase_same & Hr).
  apply runs_bind in Hr as (t3 & now & t4 & -> & _ & Hr).
  apply runs_bind in Hr as (t5 & s2 & t6 & -> & [Hc2 Ha2]%sampleMySQL_same & Hr).
  apply runs_bind in Hr as (t7 & [] & t8 & -> & _ & Hr). apply runs_bind in Hr as (t9 & resources & t10 & -> & _ & Hr).
  apply runs_bind in Hr as (t11 & [] & t12 & -> & _ & Hr).
  apply runs_bind in Hr as (t13 & snapshot & t14 & -> & ->%runs_trigger & Hr).
  exists now, snapshot. split; [in_trace|]. intros cfg Hnd Hw r Hr' Hm Hp.
  pose proof (conditions_same zone now snapshot s2) as [Hc3 Ha3].
  pose proof (stopped_condition zone now snapshot s2 r) as Hst. rewrite Hc2, Hc1 in Hst.
  specialize (Hst Hnd Hr' Hm Hw Hp) as [Hex Hall].
  destruct (conditions zone now snapshot s2) as [found s3]. cbn [fst snd] in *.
  apply runs_bind in Hr as (t15 & alerts & t16 & -> & Ht & [-> ->]%runs_Ret).
  apply runs_embed_calls in Ht as (tr' & -> & Ht).
  assert (Forall visits tr') as Hv'.
  { apply service_visits_embed. do 7 apply Forall_app in Hv as [_ Hv]. by apply Forall_app in Hv as [Hv _]. }
  rewrite Ha3, Ha2, Ha1 in Ht.
  destruct (Evaluate_steps _ _ _ _ _ _ Hi Hv' Ht) as (now' & u1 & range & u2 & _ & (_ & Himp & _) & _).
  destruct (named_signals s.(Service.alerts) found (stopped_key cfg now r) Hex) as [Hs1 Hs2]; [|exact Hall|].
  { unfold stopped_key. by repeat destruct (negb _). }
  eexists. split; [|by apply phase_steps_firing]. replace (Service.alerts (Service.set_alerts alerts s3)) with alerts by (by destruct s3).
  apply Himp.
Qed.

(** ** Readiness *)

Lemma runtime_check_ok cfg now started r :
  marks_ok r → warmed_up cfg now started → cfg.(Config.WSWarningAge) <= cfg.(Config.WSCriticalAge) →
  (runtime_check cfg now started r).(Check.OK) = true →
  fresh now cfg.(Config.WSCriticalAge) r.(RuntimeSnapshot.LastBarMS) ∧
  (fresh now cfg.(Config.WSWarningAge) r.(RuntimeSnapshot.LastBarMS) →
   fresh now cfg.(Config.FinalCriticalAge) r.(RuntimeSnapshot.LastPersistedMS) ∧
   fresh now cfg.(Config.FinalCriticalAge) r.(RuntimeSnapshot.LastPublishedMS)).
Proof.
  intros (H1 & H2 & H3) [Hw1 Hw2] Hle. unfold runtime_check.
  rewrite (proj2 (Z.ltb_ge (Sub now started) _)) by done. rewrite (proj2 (Z.leb_le _ (Sub now started))) by done. rewrite andb_true_r.
  cbn [andb].
  pose proof (fresh_bool now cfg.(Config.WSCriticalAge) _ H1) as F1. pose proof (fresh_bool now cfg.(Config.FinalCriticalAge) _ H2) as F2.
  pose proof (fresh_bool now cfg.(Config.FinalCriticalAge) _ H3) as F3.
  pose proof (fresh_b_spec now cfg.(Config.WSWarningAge) r.(RuntimeSnapshot.LastBarMS)) as F0. unfold fresh_b in F0.
  assert (∀ now limit mark, fresh now limit mark ∨ ¬ fresh now limit mark) as Hdec by (intros; unfold fresh; lia).
  destruct (Hdec now cfg.(Config.WSCriticalAge) r.(RuntimeSnapshot.LastBarMS)), (Hdec now cfg.(Config.FinalCriticalAge) r.(RuntimeSnapshot.LastPersistedMS)),
    (Hdec now cfg.(Config.FinalCriticalAge) r.(RuntimeSnapshot.LastPublishedMS)).
  all: destruct ((0 <? _) && (ageFromMS now (RuntimeSnapshot.LastBarMS r) <? _)) eqn:E0; cbn [andb];
    destruct ((RuntimeSnapshot.LastPersistedMS r =? 0) || _) eqn:E2; destruct ((RuntimeSnapshot.LastPublishedMS r =? 0) || _) eqn:E3;
    destruct ((RuntimeSnapshot.LastBarMS r =? 0) || _) eqn:E1; cbn [Check.OK]; intuition congruence.
Qed.

(** a process that calls itself ready is.  When the collector is enabled and the
    start-up periods are over, a positive answer means that the database answered the
    ping, that there is a market, and that every market of the registry has had a
    candle within the critical age; and where the candles are recent, that the last
    final minute was stored and published within the limit.  The answer is positive
    exactly when all the checks it lists are. *)
Theorem readiness_sound s tr report :
  s.(Service.cfg).(Config.CollectorEnabled) = true →
  s.(Service.cfg).(Config.WSWarningAge) <= s.(Service.cfg).(Config.WSCriticalAge) →
  runs (Readiness s) tr report →
  report.(ReadyReport.OK) = forallb Check.OK report.(ReadyReport.Checks) ∧
  (report.(ReadyReport.OK) = true →
   (s.(Service.pinger) = true → Call Ping None ∈ tr) ∧
   ∃ now snapshot, Call (Snapshot_ now) snapshot ∈ tr ∧
     let cfg := s.(Service.cfg) in
     (warmed_up cfg now snapshot.(Snapshot.StartedAt) → snapshot.(Snapshot.Runtimes) ≠ [] ∧
      ∀ r, r ∈ snapshot.(Snapshot.Runtimes) → marks_ok r →
        fresh now cfg.(Config.WSCriticalAge) r.(RuntimeSnapshot.LastBarMS) ∧
        (fresh now cfg.(Config.WSWarningAge) r.(RuntimeSnapshot.LastBarMS) →
         fresh now cfg.(Config.FinalCriticalAge) r.(RuntimeSnapshot.LastPersistedMS) ∧
         fresh now cfg.(Config.FinalCriticalAge) r.(RuntimeSnapshot.LastPublishedMS)))).
Proof.
  intros He Hle Hr. unfold Readiness in Hr. rewrite He in Hr. cbn [negb] in Hr.
  apply runs_bind in Hr as (t1 & now & t2 & -> & _ & Hr). apply runs_bind in Hr as (t3 & started & t4 & -> & _ & Hr).
  apply runs_bind in Hr as (t5 & db & t6 & -> & Hdb & Hr).
  assert (db.(Check.OK) = true → s.(Service.pinger) = true → Call Ping None ∈ t5) as Hping.
  { intros Hok Hp. rewrite Hp in Hdb. cbn [negb] in Hdb.
    apply runs_bind in Hdb as (u1 & ? & u2 & -> & _ & Hdb). apply runs_bind in Hdb as (u3 & err & u4 & -> & ->%runs_trigger & Hdb).
    apply runs_bind in Hdb as (u5 & ? & u6 & -> & _ & Hdb). apply runs_bind in Hdb as (u7 & ? & u8 & -> & _ & Hdb).
    apply runs_bind in Hdb as (u9 & ? & u10 & -> & _ & [_ ->]%runs_Ret). destruct err; [done|]. in_trace. }
  apply runs_bind in Hr as (t7 & snapshot & t8 & -> & ->%runs_trigger & Hr).
  set (cfg := s.(Service.cfg)) in *. set (runtimes := snapshot.(Snapshot.Runtimes)) in *.
  set (checks := runtime_check cfg now snapshot.(Snapshot.StartedAt) <$> runtimes) in *.
  destruct ((length runtimes =? 0)%nat && (cfg.(Config.StartupGrace) <=? Sub now snapshot.(Snapshot.StartedAt))) eqn:Eg.
  - apply runs_Ret in Hr as [-> ->]. cbn [ReadyReport.OK ReadyReport.Checks]. split; [|done].
    rewrite (app_comm_cons checks), forallb_app. cbn. by rewrite andb_false_r.
  - apply runs_Ret in Hr as [-> ->]. cbn [ReadyReport.OK ReadyReport.Checks]. split; [done|].
    intros [Hok Hall]%andb_true_iff. split; [intros Hp; specialize (Hping Hok Hp); in_trace|].
    exists now, snapshot. split; [in_trace|]. intros Hw. split.
    + intros E. fold runtimes in E. rewrite E in Eg. cbn in Eg. destruct Hw as [Hw _]. apply Z.leb_gt in Eg. lia.
    + intros r Hin Hm. apply (runtime_check_ok cfg now snapshot.(Snapshot.StartedAt)); [done|done|done|].
      rewrite forallb_forall in Hall. apply Hall, list_elem_of_In. unfold checks. apply list_elem_of_fmap. by exists r.
Qed.

(** ** A sustained condition *)

(** The mark of the slow HTTP answers survives a quiet time: with fewer than twenty
    requests the service does not look at the latency and keeps the mark, so two slow
    windows five minutes apart raise the alert with nothing slow between them. *)
Lemma quiet_traffic_keeps_the_mark w quiet w' t0 t t1 m :
  20 <= w.(WindowSnapshot.HTTPRequests5m) → Second <= w.(WindowSnapshot.HTTPP95) → m !! "http_latency" = None →
  quiet.(WindowSnapshot.HTTPRequests5m) < 20 →
  20 <= w'.(WindowSnapshot.HTTPRequests5m) → Second <= w'.(WindowSnapshot.HTTPP95) → 5 * Minute <= Sub t1 t0 →
  let m1 := (http_conditions w t0 m).2 in
  (http_conditions quiet t m1).2 = m1 ∧
  ∃ c, c ∈ (http_conditions w' t1 m1).1 ∧ c.(Condition.Key) = "http_latency" ∧ c.(Condition.Active) = true.
Proof.
  intros H1 H2 Hm H3 H4 H5 H6 m1. unfold http_conditions at 1. rewrite (proj2 (Z.leb_gt _ _)) by done. split; [done|].
  assert (m1 = <["http_latency" := t0]> m) as ->.
  { unfold m1, http_conditions. rewrite (proj2 (Z.leb_le _ _)) by done. unfold sustained. rewrite (proj2 (Z.leb_le _ _)) by done.
    cbn [negb]. by rewrite Hm. }
  unfold http_conditions. rewrite (proj2 (Z.leb_le 20 _)) by done. unfold sustained. rewrite (proj2 (Z.leb_le Second _)) by done.
  cbn [negb]. rewrite lookup_insert_eq. eexists. split; [by right; left|]. split; [done|]. cbn. by apply Z.leb_le.
Qed.

(** ** The theorems at work *)

Definition sample_start : Z := 1779262200000.
(** Candles arrive and are stored; the last publication is ten minutes old, or not. *)
Definition sample_market (published : Z) : RuntimeSnapshot :=
  RuntimeSnapshot.mk "okx" "swap" 1 1 sample_start sample_start sample_start sample_start sample_start published 0 0 0 0 0 0 0 9 9.
Definition sample_window : WindowSnapshot :=
  WindowSnapshot.mk 0 0 0 0 0 0 0 0 0 0 0 0 ∅ ∅ 0 0 ∅ [] GuardianAuditSnapshot.zero 0 0 0 0 0 IntegritySummary.zero.
Definition sample_snapshot (published : Z) : Snapshot :=
  Snapshot.mk 0 [sample_market published] [] sample_window ResourceSnapshot.zero MySQLSnapshot.zero RedisSnapshot.zero.
Definition sample_monitor : Service :=
  NewService (Config.mk true true false 0 0 0 0 0 0 9 0 "") true true false false false.

Definition sample_surroundings (published : Z) : handler serviceE unit := fun X e w =>
  match e in serviceE X return option (X * unit) with
  | Monitor.Now => Some (sample_start * Millisecond + 30 * Second, w)
  | Ping => Some (None, w)
  | Report _ => Some (tt, w)
  | Snapshot_ _ => Some (sample_snapshot published, w)
  | StartedAt => Some (0, w)
  | Sample _ _ => Some (ResourceSnapshot.zero, w)
  | Alert e => sample_clock _ e w
  | _ => None
  end.

Lemma sample_monitor_implements key : implements sample_monitor.(Service.alerts) key (phase.mk None false 0).
Proof. unfold implements, sample_monitor. cbn. by rewrite !lookup_empty. Qed.

Definition service_order (c : call serviceE) : bool :=
  match c with
  | Call e x => match e in serviceE X return X → bool with Alert e => λ x, in_order (Call e x) | _ => λ _, true end x
  end.
Lemma service_order_visits tr : forallb service_order tr = true → Forall service_visits tr.
Proof.
  induction tr as [|[X e x] tr IH]; intros H; [constructor|]. cbn in H. apply andb_true_iff in H as [H1 H2]. constructor; [|by apply IH].
  destruct e; try exact I. cbn in *. pose proof (in_order_visits [Call e x]) as Hv. cbn in Hv. rewrite H1 in Hv.
  specialize (Hv eq_refl). by apply Forall_cons in Hv as [Hv _].
Qed.

Example silent_market_alerts_witness :
  let published := sample_start - 600000 in
  ∃ tr s', runs (EvaluateOnce (λ _, 0) sample_monitor) tr s' ∧
    Call (Snapshot_ (sample_start * Millisecond + 30 * Second)) (sample_snapshot published) ∈ tr ∧
    ∃ q, implements s'.(Service.alerts) "publish_stale:okx:swap" q ∧ is_Some q.(phase.open).
Proof.
  intros published.
  assert (match exec (sample_surroundings published) (EvaluateOnce (λ _, 0) sample_monitor) tt with
          | Some (tr, _, _) => forallb service_order tr = true ∧
              omap (λ c, match c with Call e x => match e in serviceE X return X → option (Z * Snapshot) with
                                                  | Snapshot_ now => λ r, Some (now, r) | _ => λ _, None end x end) tr
              = [(sample_start * Millisecond + 30 * Second, sample_snapshot published)]
          | None => False end) as H by (vm_compute; split; reflexivity).
  destruct (exec (sample_surroundings published) (EvaluateOnce (λ _, 0) sample_monitor) tt) as [[[tr s'] w]|] eqn:E; [|destruct H].
  assert (Hr := exec_runs _ _ _ _ _ _ E). destruct H as [Hv%service_order_visits Hs].
  destruct (silent_market_alerts (λ _, 0) sample_monitor (λ _, phase.mk None false 0) tr s' sample_monitor_implements Hv Hr)
    as (now & snapshot & Hin & Hall).
  assert ((now, snapshot) = (sample_start * Millisecond + 30 * Second, sample_snapshot published)) as Ens.
  { apply list_elem_of_singleton. rewrite <- Hs. apply list_elem_of_omap. eexists. split; [exact Hin|reflexivity]. }
  injection Ens as -> ->. exists tr, s'. split; [exact Hr|]. split; [exact Hin|].
  assert (warmed_up sample_monitor.(Service.cfg) (sample_start * Millisecond + 30 * Second) (sample_snapshot published).(Snapshot.StartedAt)) as Hw
    by (split; vm_compute; discriminate).
  assert (marks_ok (sample_market published)) as Hm by (repeat split; vm_compute; discriminate).
  assert (¬ fresh (sample_start * Millisecond + 30 * Second) sample_monitor.(Service.cfg).(Config.FinalCriticalAge)
            (sample_market published).(RuntimeSnapshot.LastPublishedMS)) as Hf
    by (unfold fresh; vm_compute; intros [_ Hlt]; discriminate Hlt).
  destruct (Hall (NoDup_singleton _) Hw (sample_market published) (list_elem_of_here _ _) Hm Hf) as (q & Hq & Ho).
  exists q. split; [|exact Ho].
  assert (stopped_key sample_monitor.(Service.cfg) (sample_start * Millisecond + 30 * Second) (sample_market published)
          = "publish_stale:okx:swap") as Ek by (vm_compute; reflexivity).
  rewrite Ek in Hq. exact Hq.
Defined.

Example readiness_sound_witness :
  ∃ tr report, runs (Readiness sample_monitor) tr report ∧ report.(ReadyReport.OK) = true ∧ Call Ping None ∈ tr.
Proof.
  destruct (exec (sample_surroundings sample_start) (Readiness sample_monitor) tt) as [[[tr report] w]|] eqn:E; [|vm_compute in E; discriminate].
  assert (Hr := exec_runs _ _ _ _ _ _ E). exists tr, report. split; [exact Hr|].
  assert (report.(ReadyReport.OK) = true) as Hok by (vm_compute in E; injection E as <- <- _; reflexivity). split; [exact Hok|].
  destruct (readiness_sound sample_monitor tr report eq_refl ltac:(vm_compute; congruence) Hr) as [_ Hs].
  exact (proj1 (Hs Hok) eq_refl).
Defined.
