(* ===== verification/ServiceConfig.v ===== *)
(** * The configuration of the market service and its symbol locks

    Which timeframes [NewMarketService] serves, and the order of the locks that
    make the methods on one symbol exclude each other. *)

From S2P Require Export RollupRepair.

Local Open Scope string_scope.
Local Open Scope Z_scope.
Local Open Scope list_scope.

(** ** The symbol locks *)

(** The locks of a method are distinct shards of the 1024, taken in
    increasing order, and every candle's shard is among them, so two methods
    that wait for each other's locks cannot wait in a circle: the order in which
    any of them takes its locks is the same, whatever the order of the candles. *)
Theorem lock_shards_order bars bars' :
  StronglySorted Z.lt (lock_shards bars) ∧
  (∀ shard, shard ∈ lock_shards bars → 0 <= shard < 1024) ∧
  (∀ shard, shard ∈ lock_shards bars ↔ ∃ bar, bar ∈ bars ∧ shard = symbol_shard bar) ∧
  (∀ b1 b2, ToLower b1.(Bar.Exchange) = ToLower b2.(Bar.Exchange) →
     ToUpper b1.(Bar.Symbol) = ToUpper b2.(Bar.Symbol) → symbol_shard b1 = symbol_shard b2) ∧
  ((∀ bar, bar ∈ bars ↔ bar ∈ bars') → lock_shards bars = lock_shards bars').
Proof.
  assert (Hel : ∀ bars shard, shard ∈ lock_shards bars ↔ ∃ bar, bar ∈ bars ∧ shard = symbol_shard bar).
  { intros l shard. unfold lock_shards. rewrite elem_of_sort_by, elem_of_remove_dups, list_elem_of_fmap.
    split; intros (b & ? & ?); eauto. }
  assert (Hso : ∀ bars, key_sorted id (lock_shards bars)).
  { intros l. apply sort_by_sorted. rewrite list_fmap_id. apply NoDup_remove_dups. }
  split_and!; [apply Hso| |apply Hel| |].
  - intros shard (bar & _ & ->)%Hel. apply Z.mod_pos_bound. lia.
  - intros b1 b2 He Hs. unfold symbol_shard. by rewrite He, Hs.
  - intros Heq. apply key_sorted_unique; [apply Hso..|]. intros x. rewrite !Hel.
    split; intros (b & Hb & ->); exists b; (split; [by apply Heq|done]).
Qed.

(** ** The configured timeframes *)

(** [f] is [g] or one of the timeframes [g] is built from. *)
Definition built_from : relation Frame := rtc (λ f g, RollupSourceTimeframe f = Some g).

Lemma built_from_source f g x : RollupSourceTimeframe f = Some g → built_from f x ↔ x = f ∨ built_from g x.
Proof.
  intros Hs. split.
  - intros [->|(y & Hy & Hr)]%rtc_inv; [by left|right]. by simplify_eq.
  - intros [->|H]; [done|]. by eapply rtc_l.
Qed.

Definition deps_closed (skip : option Frame) (out : list Frame) : Prop :=
  ∀ f g, f ∈ out → Some f ≠ skip → RollupSourceTimeframe f = Some g → g ≠ OneMinute → g ∈ out.

Lemma deps_closed_built out f x : deps_closed None out → f ∈ out → built_from f x → x = f ∨ x = OneMinute ∨ x ∈ out.
Proof.
  intros Hc Hf Hb. revert Hf. induction Hb as [f|f g x Hs Hb IH]; intros Hf; [by left|].
  destruct (decide (g = OneMinute)) as [->|Hg].
  - right. left. by apply rtc_inv in Hb as [<-|(? & ? & _)].
  - assert (g ∈ out) as Hg' by (by eapply Hc). right. destruct (IH Hg') as [->|?]; [by right|done].
Qed.

Lemma addRollupDependencies_spec fuel tf out :
  (frame_depth tf <= fuel)%nat → tf ∈ out → deps_closed (Some tf) out →
  deps_closed None (addRollupDependencies fuel tf out) ∧
  ∀ x, x ∈ addRollupDependencies fuel tf out ↔ x ∈ out ∨ (x ≠ OneMinute ∧ built_from tf x).
Proof.
  assert (Hstop : ∀ tf out, tf ∈ out → deps_closed None out →
    deps_closed None out ∧ ∀ x, x ∈ out ↔ x ∈ out ∨ (x ≠ OneMinute ∧ built_from tf x)).
  { intros f o Hf Hc. split; [done|]. intros x. split; [by left|]. intros [?|[Hx Hb]]; [done|].
    destruct (deps_closed_built o f x Hc Hf Hb) as [->|[->|?]]; done. }
  revert tf out. induction fuel as [|fuel IH]; intros tf out Hd Htf Hc; cbn [addRollupDependencies].
  { apply Hstop; [done|]. intros f g Hf _ Hs Hg. eapply Hc; [done| |done..].
    intros [= ->]. rewrite (frame_depth_0 tf) in Hs by lia. done. }
  destruct (RollupSourceTimeframe tf) as [g|] eqn:Es.
  2: { apply Hstop; [done|]. intros f g Hf _ Hs Hg. eapply Hc; [done| |done..]. intros [= ->]. congruence. }
  case_bool; bprop.
  { subst g. apply Hstop; [done|]. intros f g Hf _ Hs Hg. eapply Hc; [done| |done..]. intros [= ->]. congruence. }
  case_bool; bprop.
  { apply Hstop; [done|]. intros f g' Hf _ Hs Hg. destruct (decide (f = tf)) as [->|]; [congruence|].
    eapply Hc; [done|congruence|done..]. }
  destruct (IH g (g :: out)) as [IH1 IH2].
  - rewrite (frame_depth_source tf g Es) in Hd. lia.
  - by left.
  - intros f g' [->|Hf]%elem_of_cons Hne Hs Hg; [done|]. destruct (decide (f = tf)) as [->|].
    + assert (g' = g) as -> by congruence. by left.
    + right. eapply Hc; [done|congruence|done..].
  - split; [done|]. intros x. rewrite IH2, elem_of_cons, (built_from_source tf g x Es).
    split; [intros [[->|?]|[? ?]]|intros [?|[? [->|?]]]]; auto.
    right. split; [done|by right].
Qed.

(** The timeframes a configuration asks for that may be served. *)
Definition requested_frame (frames : list string) (g : Frame) : Prop :=
  frame_name g ∈ frames ∧ is_ok (ValidateForExchange "" (frame_name g)) = true.

Lemma request_frames_spec frames out out' :
  request_frames frames out = Some out' → deps_closed None out →
  deps_closed None out' ∧
  ∀ x, x ∈ out' ↔ x ∈ out ∨ ∃ g, requested_frame frames g ∧ built_from g x ∧ (x = g ∨ x ≠ OneMinute).
Proof.
  revert out. induction frames as [|tf rest IH]; intros out; cbn [request_frames].
  { intros [= ->] Hc. split; [done|]. intros x. split; [by left|].
    intros [?|(g & [Hin _] & _)]; [done|]. by apply elem_of_nil in Hin. }
  destruct (Normalize tf) as [f|] eqn:E; [|done]. apply Normalize_Ok in E as ->.
  destruct (is_ok _) eqn:Eok; intros Hr Hc.
  - destruct (addRollupDependencies_spec 6 f (f :: out)) as [Ha1 Ha2].
    { pose proof (frame_depth_max f). lia. }
    { by left. }
    { intros a b [->|Ha]%elem_of_cons Hne Hs Hb; [done|]. right. by eapply Hc. }
    destruct (IH _ Hr Ha1) as [IH1 IH2]. split; [done|]. intros x. rewrite IH2, Ha2, elem_of_cons.
    split.
    + intros [[[->|?]|[? ?]]|(g & [? ?] & ? & ?)]; [|by left| |].
      * right. exists f. split; [split; [by left|done]|]. split; [done|by left].
      * right. exists f. split; [split; [by left|done]|]. split; [done|by right].
      * right. exists g. split; [split; [by right|done]|done].
    + intros [?|(g & [Hg ?] & Hb & Hx)]; [by left; left; right|].
      apply elem_of_cons in Hg as [Hg|Hg].
      * apply frame_name_inj in Hg as ->. left. destruct Hx as [->|Hx]; [by left; left|right; done].
      * right. exists g. split; [split|]; done.
  - destruct (IH _ Hr Hc) as [IH1 IH2]. split; [done|]. intros x. rewrite IH2. split.
    + intros [?|(g & [? ?] & ?)]; [by left|]. right. exists g. split; [split; [by right|done]|done].
    + intros [?|(g & [Hg ?] & ?)]; [by left|]. right. exists g. split; [|done].
      split; [|done]. apply elem_of_cons in Hg as [Hg|?]; [|done]. congruence.
Qed.

Lemma request_frames_None frames out :
  request_frames frames out = None ↔ ∃ tf, tf ∈ frames ∧ ∀ f, tf ≠ frame_name f.
Proof.
  revert out. induction frames as [|tf rest IH]; intros out; cbn [request_frames].
  { split; [done|]. by intros (? & ?%elem_of_nil & _). }
  destruct (Normalize tf) as [f|] eqn:E.
  - apply Normalize_Ok in E as ->. assert (Hn : ∀ out, request_frames rest out = None ↔
      ∃ tf, tf ∈ frame_name f :: rest ∧ ∀ g, tf ≠ frame_name g).
    { intros o. rewrite IH. split; intros (tf & Hin & Hne); exists tf; (split; [|done]); [by right|].
      apply elem_of_cons in Hin as [->|?]; [by destruct (Hne f)|done]. }
    destruct (is_ok _); apply Hn.
  - split; [|done]. intros _. exists tf. split; [by left|]. intros f ->. by rewrite Normalize_name in E.
Qed.

(** What [NewMarketService] serves: in the order of the code's table, the
    configured timeframes and every timeframe on the way from one of them down
    to "1m", which itself is served only when configured, and nothing else; the
    disabled 3D is never served.  With nothing configured it is everything but
    3D.  Construction panics exactly on an unknown name, and the window of a
    query is positive. *)
Theorem NewMarketService_frames frames recentLimit telemetry :
  let asked := match frames with [] => map frame_name Order | _ => frames end in
  match NewMarketService frames recentLimit telemetry with
  | None => ∃ tf, tf ∈ asked ∧ ∀ f, tf ≠ frame_name f
  | Some cfg =>
      (∀ tf, tf ∈ asked → ∃ f, tf = frame_name f) ∧
      (∃ keep, cfg.(Config.frames) = List.filter keep Order) ∧
      (∀ f, f ∈ cfg.(Config.frames) ↔
         ∃ g, frame_name g ∈ asked ∧ g ≠ F3D ∧ built_from g f ∧ (f = g ∨ f ≠ OneMinute)) ∧
      0 < cfg.(Config.recentMax)
  end.
Proof.
  unfold NewMarketService, normalizeFrames. cbv zeta.
  generalize (match frames with [] => map frame_name Order | _ => frames end) as asked. intros asked.
  destruct (request_frames asked []) as [out|] eqn:Er; cbn [mbind option_bind Config.frames Config.recentMax].
  - destruct (request_frames_spec asked [] out Er) as [_ Hel]; [by intros ? ? ?%elem_of_nil|]. split_and!.
    + intros tf Htf. destruct (Normalize tf) as [f|] eqn:E; [exists f; by apply Normalize_Ok|].
      assert (request_frames asked [] = None) as Hn; [|by rewrite Hn in Er].
      apply request_frames_None. exists tf. split; [done|]. intros f ->. by rewrite Normalize_name in E.
    + by eexists.
    + intros f. rewrite list_elem_of_In, filter_In, <- list_elem_of_In, bool_decide_eq_true, Hel.
      split.
      * intros [_ [Hn|(g & [Hin Hok] & ?)]]; [by apply elem_of_nil in Hn|]. exists g. split; [done|].
        split; [|done]. by intros ->.
      * intros (g & Hin & Hg & ?). split; [apply elem_of_Order|]. right. exists g. split; [|done].
        split; [done|]. by destruct g.
    + case_bool; zbool; unfold defaultRecentLimit; lia.
  - by apply request_frames_None in Er.
Qed.
