(* ===== verification/ServiceSpec.v ===== *)
(** * What the market service does

    The functional properties of the methods of [MarketService], on any store
    that keeps the laws of [HistoricalStoreLaws], with witnesses on the store in
    memory. *)

From S2P Require Export ServiceConfig.

Local Open Scope string_scope.
Local Open Scope Z_scope.
Local Open Scope list_scope.

(** ** What a method leaves alone *)

Section keeps.
Context {St : Type} (R : relation (Svc St)) `{!PreOrder R}.

Definition keeps {A} (m : svcM St A) : Prop := ∀ s, R s (snd (m s)).

Lemma keeps_ret {A} (a : A) : keeps (mret a).
Proof. intros s. reflexivity. Qed.
Lemma keeps_skip : keeps skip.
Proof. apply keeps_ret. Qed.
Lemma keeps_fail {A} e : keeps (fail (A:=A) e).
Proof. intros s. reflexivity. Qed.
Lemma keeps_panic {A} : keeps (panic (A:=A)).
Proof. intros s. reflexivity. Qed.
Lemma keeps_fuel {A} : keeps (fun s => (@OutOfFuel A, s)).
Proof. intros s. reflexivity. Qed.
Lemma keeps_lift {A} (r : result go_error A) : keeps (lift r).
Proof. destruct r; [apply keeps_ret|apply keeps_fail]. Qed.
Lemma keeps_get {A} (f : Svc St → A) : keeps (get f).
Proof. intros s. reflexivity. Qed.

Lemma keeps_bind {A B} (m : svcM St A) (f : A → svcM St B) :
  keeps m → (∀ a, keeps (f a)) → keeps (m ≫= f).
Proof.
  intros Hm Hf s. specialize (Hm s). unfold mbind, svc_bind.
  destruct (m s) as [[a|e| |] s']; try done. simpl in Hm. etransitivity; [exact Hm|apply Hf].
Qed.

Lemma keeps_forM_ {A} (l : list A) (f : A → svcM St unit) : (∀ a, keeps (f a)) → keeps (forM_ l f).
Proof. intros Hf. induction l; simpl; [apply keeps_skip|by apply keeps_bind]. Qed.

Lemma keeps_MustNormalize tf : keeps (MustNormalize tf).
Proof. unfold MustNormalize. destruct (Normalize tf); [apply keeps_ret|apply keeps_panic]. Qed.
Lemma keeps_check_tf ex tf : keeps (check_tf ex tf).
Proof. unfold check_tf. destruct (ValidateForExchange ex tf); [apply keeps_ret|apply keeps_fail]. Qed.
End keeps.

Create HintDb keeps.
#[export] Hint Resolve keeps_ret keeps_skip keeps_fail keeps_panic keeps_fuel keeps_lift keeps_get
  keeps_MustNormalize keeps_check_tf : keeps.
Ltac keep_step :=
  lazymatch goal with
  | |- keeps _ (mbind _ _) => eapply keeps_bind; [apply _| |intros ?]
  | |- keeps _ (forM_ _ _) => apply keeps_forM_; [apply _|intros ?]
  | |- keeps _ (match ?x with _ => _ end) => destruct x
  | |- _ => solve [eauto with keeps typeclass_instances]
  end.
Ltac keep := repeat keep_step.

(** What a computation can return may matter for what follows it. *)
Lemma keeps_bind_Ret {St A B} (R : relation (Svc St)) `{!PreOrder R} (m : svcM St A) (f : A → svcM St B) :
  keeps R m → (∀ a s s', m s = (Ret a, s') → keeps R (f a)) → keeps R (m ≫= f).
Proof.
  intros Hm Hf s. specialize (Hm s). unfold mbind, svc_bind.
  destruct (m s) as [[a|e| |] s'] eqn:E; try done. simpl in Hm. etransitivity; [exact Hm|by eapply Hf].
Qed.

(** The part of the state that the queries and the publications keep: all but
    the hub's queues, the clock and the telemetry. *)
Definition quiet {St} (s s' : Svc St) : Prop :=
  s'.(Svc.store) = s.(Svc.store) ∧ s'.(Svc.liveBars) = s.(Svc.liveBars) ∧
  s'.(Svc.latestVerification) = s.(Svc.latestVerification) ∧
  s'.(Svc.finalObservers) = s.(Svc.finalObservers).

#[export] Instance quiet_preorder {St} : PreOrder (@quiet St).
Proof. split; unfold quiet; [done|]. intros ? ? ? (?&?&?&?) (?&?&?&?). split_and!; congruence. Qed.

(** [quiet], and no publication. *)
Definition unheard {St} (s s' : Svc St) : Prop := quiet s s' ∧ s'.(Svc.hub) = s.(Svc.hub).

#[export] Instance unheard_preorder {St} : PreOrder (@unheard St).
Proof.
  split; unfold unheard; [by split|]. intros ? ? ? [H1 ?] [H2 ?]. split; [by etransitivity|congruence].
Qed.

(** [quiet], with any number of publications. *)
Definition publishes (h h' : Hub) : Prop := ∃ event, Publish event h = Some h'.
Definition told {St} (s s' : Svc St) : Prop := quiet s s' ∧ rtc publishes s.(Svc.hub) s'.(Svc.hub).

#[export] Instance told_preorder {St} : PreOrder (@told St).
Proof. split; unfold told; [by split|]. intros ? ? ? [H1 ?] [H2 ?]. split; by etransitivity. Qed.

Lemma keeps_told {St A} (m : svcM St A) : keeps unheard m → keeps told m.
Proof. intros H s. destruct (H s) as [Hq Hh]. split; [done|]. by rewrite Hh. Qed.

Section service.
Context {St : Type} `{!HistoricalStore St} (cfg : Config).

Lemma unheard_NowMS : keeps (@unheard St) NowMS.
Proof. by intros s. Qed.
Lemma unheard_read {A} (f : St → result go_error A) : keeps unheard (store_read f).
Proof. by intros s. Qed.
Lemma unheard_telemetry n : keeps (@unheard St) (telemetry cfg n).
Proof. unfold telemetry. case_bool; [by intros s|apply keeps_skip, _]. Qed.
#[local] Hint Resolve unheard_NowMS unheard_read unheard_telemetry : keeps.
Lemma unheard_observe {A} op (r : result go_error A) : keeps (@unheard St) (observeStorage cfg op r).
Proof. apply unheard_telemetry. Qed.
#[local] Hint Resolve unheard_observe : keeps.
Lemma unheard_read_bars op ex sy tf a b : keeps unheard (read_bars cfg op ex sy tf a b).
Proof. unfold read_bars. keep. Qed.
Lemma unheard_barKey ex sy tf : keeps (@unheard St) (barKey ex sy tf).
Proof. unfold barKey. keep. Qed.
#[local] Hint Resolve unheard_read_bars unheard_barKey : keeps.
Lemma unheard_normalizeBar bar : keeps (@unheard St) (normalizeBar bar).
Proof. unfold normalizeBar. keep. Qed.
Lemma unheard_previousClose bar : keeps unheard (previousClose cfg bar).
Proof. unfold previousClose. keep. Qed.
#[local] Hint Resolve unheard_normalizeBar unheard_previousClose : keeps.
Lemma unheard_enrichBar bar : keeps unheard (enrichBar cfg bar).
Proof. unfold enrichBar. keep. Qed.
#[local] Hint Resolve unheard_enrichBar : keeps.
Lemma unheard_buildLiveRollup fuel target live now :
  keeps unheard (buildLiveRollup cfg fuel target live now).
Proof. revert target. induction fuel; intros target; cbn [buildLiveRollup]; keep. Qed.
#[local] Hint Resolve unheard_buildLiveRollup : keeps.
Lemma unheard_LatestTick exchange symbol : keeps unheard (LatestTick cfg exchange symbol).
Proof. unfold LatestTick. keep. Qed.
Lemma unheard_liveOneMinute exchange symbol : keeps (@unheard St) (liveOneMinute exchange symbol).
Proof. unfold liveOneMinute. keep. Qed.
#[local] Hint Resolve unheard_liveOneMinute : keeps.
Lemma unheard_Klines query : keeps unheard (Klines cfg query).
Proof. unfold Klines. keep. Qed.

#[local] Hint Resolve keeps_told : keeps.
Lemma told_hub_publish event : keeps (@told St) (hub_publish event).
Proof.
  intros s. unfold hub_publish. destruct (Publish event _) as [h|] eqn:E; [|done]. split; [done|].
  apply rtc_once. by exists event.
Qed.
#[local] Hint Resolve told_hub_publish : keeps.
Lemma told_publishBar bar : keeps (@told St) (publishBar cfg bar).
Proof. unfold publishBar. keep. Qed.
#[local] Hint Resolve told_publishBar : keeps.
Lemma told_publishLiveRollups bar : keeps told (publishLiveRollups cfg bar).
Proof. unfold publishLiveRollups. keep. Qed.
End service.

(** ** Runs that end in a value *)

Lemma bind_Ret {St A B} (m : svcM St A) (f : A → svcM St B) s b s' :
  (m ≫= f) s = (Ret b, s') → ∃ a s1, m s = (Ret a, s1) ∧ f a s1 = (Ret b, s').
Proof. unfold mbind, svc_bind. destruct (m s) as [[a|e| |] s1]; naive_solver. Qed.

Lemma ret_Ret {St A} (a b : A) (s s' : Svc St) : (mret a : svcM St A) s = (Ret b, s') → a = b ∧ s = s'.
Proof. intros H. by injection H. Qed.

Lemma pair_Ret {St A} (a b : A) (s s' : Svc St) : (Ret a, s) = (Ret b, s') → a = b ∧ s = s'.
Proof. intros H. by injection H. Qed.

Lemma lift_Ret {St A} (r : result go_error A) a (s s' : Svc St) : lift r s = (Ret a, s') → r = Ok a ∧ s = s'.
Proof. destruct r; simpl; [intros [-> ->]%ret_Ret|]; done. Qed.

Lemma check_tf_Ret {St} ex tf f (s s' : Svc St) :
  check_tf ex tf s = (Ret f, s') → tf = frame_name f ∧ s = s'.
Proof.
  unfold check_tf, ValidateForExchange. destruct (Normalize tf) as [g|] eqn:E; [|done].
  case_bool; [done|]. intros [-> ->]%ret_Ret. split; [by apply Normalize_Ok|done].
Qed.

(** The [Ret] runs of a chain of binds, front to back. *)
Ltac run_bind H :=
  let a := fresh "a" in let s := fresh "s" in let Hr := fresh "Hrun" in
  apply bind_Ret in H as (a & s & Hr & H).

(** The tests of the code, without unfolding what they guard. *)
Lemma negb_true : negb true = false. Proof. done. Qed.
Lemma negb_false : negb false = true. Proof. done. Qed.
Ltac run_negb H := cbv beta in H; rewrite ?negb_true, ?negb_false in H; cbv iota in H.

Ltac run_if H :=
  match type of H with
  | context [if ?b then _ else _] => lazymatch type of b with bool => destruct b eqn:? end
  end.

(** ** The recent candles of a series *)

Lemma replace_start_keys bars live bars' :
  replace_start bars live = Some bars' → Bar.StartMS <$> bars' = Bar.StartMS <$> bars.
Proof.
  revert bars'. induction bars as [|b rest IH]; intros bars'; simpl; [done|].
  destruct (Z.eqb_spec b.(Bar.StartMS) live.(Bar.StartMS)); [by intros [= <-]; simpl; f_equal|].
  destruct (replace_start rest live) as [l|]; intros [= <-]. simpl. f_equal. by apply IH.
Qed.

Lemma last_max bars b :
  key_sorted Bar.StartMS bars → last bars = Some b → ∀ x, x ∈ bars → x.(Bar.StartMS) <= b.(Bar.StartMS).
Proof.
  induction 1 as [|y l Hs IH Hall]; [done|]. intros Hl x Hx.
  destruct l as [|z l].
  { injection Hl as ->. apply list_elem_of_singleton in Hx as ->. lia. }
  change (last (y :: z :: l)) with (last (z :: l)) in Hl. apply elem_of_cons in Hx as [->|Hx]; [|by apply IH].
  rewrite Forall_forall in Hall. specialize (Hall b (last_elem _ _ Hl)). simpl in Hall. lia.
Qed.

Lemma mergeLiveBar_spec bars live :
  key_sorted Bar.StartMS bars →
  key_sorted Bar.StartMS (mergeLiveBar bars live) ∧
  (length (mergeLiveBar bars live) <= length bars + 1)%nat ∧
  (live = None → mergeLiveBar bars live = bars).
Proof.
  intros Hs. unfold mergeLiveBar. destruct live as [live|]; [|split_and!; [done|lia|done]].
  split; [|split; [|done]].
  - destruct (replace_start bars live) as [bars'|] eqn:Er.
    { apply key_sorted_keys. rewrite (replace_start_keys _ _ _ Er). by apply (proj1 (key_sorted_keys _ _)). }
    destruct (last bars) as [b|] eqn:El.
    + case_bool; [|done]. zbool. pose proof (last_max bars b Hs El) as Hmax.
      apply StronglySorted_app_2; [|done|by repeat constructor].
      intros x y Hx ->%list_elem_of_singleton. specialize (Hmax x Hx). lia.
    + assert (bars = []) as -> by (by apply last_None). repeat constructor.
  - destruct (replace_start bars live) as [bars'|] eqn:Er.
    { apply replace_start_keys, (f_equal length) in Er. rewrite !length_fmap in Er. lia. }
    destruct (last bars) as [b|]; [case_bool|]; rewrite ?length_app; simpl; lia.
Qed.

Lemma trimBars_short bars limit : Z.of_nat (length bars) <= limit → trimBars bars limit = bars.
Proof. intros H. unfold trimBars. by rewrite (proj2 (Z.leb_le _ _) H), orb_true_r. Qed.

Definition kline_limit (query : KlineQuery) : Z :=
  if query.(KlineQuery.Limit) <=? 0 then defaultRecentLimit
  else if 1000 <? query.(KlineQuery.Limit) then 1000 else query.(KlineQuery.Limit).

(** The query as it reaches the store. *)
Definition stored_query (query : KlineQuery) : KlineQuery :=
  KlineQuery.mk (ToLower query.(KlineQuery.Exchange)) (ToUpper query.(KlineQuery.Symbol))
    query.(KlineQuery.Timeframe) (kline_limit query) query.(KlineQuery.IncludeLive).

(** the answer to a kline query is the window the store answers with, at
    most the limit (300 by default, 1000 at most), with the live candle of the
    requested timeframe merged in only when it was asked for: it replaces the
    stored candle of the same start or is appended when it is newer, so the
    answer stays strictly ordered by start and has at most one candle more.
    Trimming never drops a stored candle, and the query changes nothing. *)
Theorem Klines_window {St} `{!HistoricalStore St, !HistoricalStoreLaws St} cfg query (s : Svc St) bars s' :
  hs_ok s.(Svc.store) → Klines cfg query s = (Ret bars, s') →
  unheard s s' ∧
  ∃ stored live, hs_RecentBars (stored_query query) s.(Svc.store) = Ok stored ∧
    Z.of_nat (length stored) <= kline_limit query <= 1000 ∧
    bars = mergeLiveBar (DecorateBar <$> stored) live ∧
    (query.(KlineQuery.IncludeLive) = false → live = None) ∧
    key_sorted Bar.StartMS bars ∧ Z.of_nat (length bars) <= kline_limit query + 1.
Proof.
  intros Hok Hrun. split; [pose proof (unheard_Klines cfg query s) as H; by rewrite Hrun in H|].
  unfold Klines in Hrun. run_bind Hrun. apply check_tf_Ret in Hrun0 as [Htf <-].
  match type of Hrun with context [store_read (hs_RecentBars ?q)] =>
    assert (q = stored_query query) as Eq; [|rewrite !Eq in Hrun] end.
  { assert (query.(KlineQuery.Timeframe) = frame_name a) as Htf' by (rewrite <- Htf; by destruct query).
    unfold stored_query, kline_limit. rewrite Htf'. destruct query; simpl. repeat (case_inner; simpl); done. }
  run_bind Hrun. run_bind Hrun. run_bind Hrun.
  injection Hrun0 as <- <-. apply lift_Ret in Hrun2 as [Est ->].
  clear Eq Htf.
  assert (0 < kline_limit query <= 1000) as Hlim.
  { unfold kline_limit, defaultRecentLimit. repeat case_bool; zbool; lia. }
  destruct (hs_RecentBars_law _ _ _ Hok Est) as [Hso Hlen]; [simpl; lia|]. simpl in Hlen.
  set (dec := DecorateBar <$> a2) in *.
  assert (key_sorted Bar.StartMS dec) as Hdec.
  { apply (key_sorted_fmap _ Bar.StartMS); [|done]. intros b _. apply DecorateBar_StartMS. }
  assert (Hdl : length dec = length a2) by (apply length_fmap).
  assert (Hfin : ∀ live, (query.(KlineQuery.IncludeLive) = false → live = None) →
    bars = trimBars (mergeLiveBar dec live) (kline_limit query + 1) ∨
    (live = None ∧ bars = trimBars dec (kline_limit query)) →
    ∃ stored live, hs_RecentBars (stored_query query) s.(Svc.store) = Ok stored ∧
      Z.of_nat (length stored) <= kline_limit query <= 1000 ∧
      bars = mergeLiveBar (DecorateBar <$> stored) live ∧
      (query.(KlineQuery.IncludeLive) = false → live = None) ∧
      key_sorted Bar.StartMS bars ∧ Z.of_nat (length bars) <= kline_limit query + 1).
  { intros live Hl Hb. exists a2, live. fold dec. destruct (mergeLiveBar_spec dec live Hdec) as (Hs & Hn & Hnone).
    assert (bars = mergeLiveBar dec live) as ->.
    { destruct Hb as [->|[-> ->]]; [apply trimBars_short; lia|]. rewrite Hnone by done. apply trimBars_short. lia. }
    split_and!; try done; lia. }
  simpl in Hrun. destruct query.(KlineQuery.IncludeLive); simpl in Hrun.
  2: { apply ret_Ret in Hrun as [<- _]. apply (Hfin None); auto. }
  run_bind Hrun. destruct a0 as [l|]; [|apply ret_Ret in Hrun as [<- _]; apply (Hfin None); auto].
  destruct (bool_decide (a = OneMinute)); [apply ret_Ret in Hrun as [<- _]; by apply (Hfin (Some l)); auto|].
  run_bind Hrun. run_bind Hrun.
  destruct a3 as [p|]; apply ret_Ret in Hrun as [<- _]; [by apply (Hfin (Some p)); auto|by apply (Hfin None); auto].
Qed.

(** ** Ingestion *)

Lemma normalize_bar_IsFinal f now bar : (normalize_bar f now bar).(Bar.IsFinal) = bar.(Bar.IsFinal).
Proof.
  unfold normalize_bar. rewrite DecorateBar_IsFinal. destruct bar; simpl. by repeat (case_inner; simpl).
Qed.

Lemma ApplyDerived_IsFinal bar close : (ApplyDerived bar close).(Bar.IsFinal) = bar.(Bar.IsFinal).
Proof.
  unfold ApplyDerived. rewrite DecorateBar_IsFinal. destruct bar; simpl. by repeat (case_inner; simpl).
Qed.

Lemma NowMS_Ret {St} now (s s' : Svc St) : NowMS s = (Ret now, s') → now = s.(Svc.clock) 0%nat.
Proof. intros H. by injection H. Qed.

Lemma normalizeBar_Ret {St} bar b (s s' : Svc St) :
  normalizeBar bar s = (Ret b, s') → ∃ f now, bar.(Bar.Timeframe) = frame_name f ∧ b = normalize_bar f now bar.
Proof.
  unfold normalizeBar, MustNormalize. intros H. run_bind H.
  destruct (Normalize bar.(Bar.Timeframe)) as [f|] eqn:E; [|done]. apply ret_Ret in Hrun as [<- <-].
  apply Normalize_Ok in E. exists f. run_if H.
  - run_bind H. apply ret_Ret in H as [<- _]. eauto.
  - apply ret_Ret in H as [<- _]. eauto.
Qed.

Lemma enrichBar_Ret {St} `{!HistoricalStore St} cfg bar b (s s' : Svc St) :
  enrichBar cfg bar s = (Ret b, s') → ∃ close, b = ApplyDerived bar close.
Proof. unfold enrichBar. intros H. run_bind H. apply ret_Ret in H as [<- _]. eauto. Qed.

(** What no ingestion of a live candle touches. *)
Definition unstored {St} (s s' : Svc St) : Prop :=
  s'.(Svc.store) = s.(Svc.store) ∧ s'.(Svc.latestVerification) = s.(Svc.latestVerification) ∧
  s'.(Svc.finalObservers) = s.(Svc.finalObservers).

#[export] Instance unstored_preorder {St} : PreOrder (@unstored St).
Proof. split; unfold unstored; [done|]. intros ? ? ? (?&?&?) (?&?&?). split_and!; congruence. Qed.

Lemma keeps_unstored {St A} (m : svcM St A) : keeps told m → keeps unstored m.
Proof. intros H s. destruct (H s) as [(?&?&?&?) _]. by split_and!. Qed.

Definition kline_event (bar : Bar) : Event :=
  let bar := DecorateBar bar in
  Event.mk "kline" 0 bar.(Bar.Exchange) bar.(Bar.Symbol) bar.(Bar.Timeframe) None (Some bar).

Section ingest.
Context {St : Type} `{!HistoricalStore St} (cfg : Config).

Lemma accept_live ctx bar :
  bar.(Bar.IsFinal) = false → acceptUnverifiedFinal ctx bar = (mret true : svcM St bool).
Proof. intros H. unfold acceptUnverifiedFinal. by rewrite H, orb_true_r. Qed.

Lemma publishBar_Ret bar u (s s' : Svc St) :
  publishBar cfg bar s = (Ret u, s') →
  ∃ h, Publish (kline_event bar) s.(Svc.hub) = Some h ∧ rtc publishes h s'.(Svc.hub).
Proof.
  unfold publishBar. intros H. run_bind H. unfold hub_publish in Hrun. fold (kline_event bar) in Hrun.
  destruct (Publish (kline_event bar) _) as [h|]; [|done]. injection Hrun as _ <-. exists h. split; [done|].
  assert (keeps (@told St) (telemetry cfg (BarPublished (DecorateBar bar)))) as Ht
    by apply keeps_told, unheard_telemetry.
  run_bind H. specialize (Ht (Svc.set_hub h s)). rewrite Hrun in Ht. destruct Ht as [_ Ht].
  etransitivity; [exact Ht|]. run_if H; [by injection H as _ <-|].
  match type of H with hub_publish ?e _ = _ => pose proof (told_hub_publish e s0) as Hp end.
  rewrite H in Hp. apply Hp.
Qed.

Lemma update_live_run bar f (s : Svc St) :
  bar.(Bar.Timeframe) = frame_name f → bar.(Bar.IsFinal) = false →
  update_live bar s = (Ret tt, Svc.set_liveBars
    (<[series_key bar.(Bar.Exchange) bar.(Bar.Symbol) (frame_name f) := bar]> s.(Svc.liveBars)) s).
Proof. intros Ht Hl. unfold update_live, barKey, MustNormalize. by rewrite Hl, Ht, Normalize_name. Qed.

Lemma live_unstored ctx bar : bar.(Bar.IsFinal) = false → keeps unstored (IngestKline cfg ctx bar).
Proof.
  intros Hl. unfold IngestKline. apply keeps_bind; [apply _|apply keeps_check_tf, _|intros _].
  apply keeps_bind_Ret; [apply _|apply keeps_unstored, keeps_told, unheard_normalizeBar|].
  intros b s s' (f & now & _ & ->)%normalizeBar_Ret. case_bool; [apply keeps_skip, _|].
  rewrite accept_live by (by rewrite normalize_bar_IsFinal).
  apply keeps_bind; [apply _|apply keeps_ret, _|intros acc]. case_bool; [apply keeps_skip, _|].
  apply keeps_bind_Ret; [apply _|apply keeps_unstored, keeps_told, unheard_enrichBar|].
  intros b s1 s2 (close & ->)%enrichBar_Ret.
  apply keeps_bind; [apply _| |intros _].
  { unfold update_live. apply keeps_bind; [apply _|apply keeps_unstored, keeps_told, unheard_barKey|].
    intros key s3. done. }
  rewrite ApplyDerived_IsFinal, normalize_bar_IsFinal, Hl.
  apply keeps_bind; [apply _|apply keeps_unstored, told_publishBar|intros _].
  case_bool; [apply keeps_unstored, told_publishLiveRollups|apply keeps_skip, _].
Qed.
End ingest.

(** a candle that is not final never reaches the store: whatever the
    outcome, the store, the verifications and the observers are as before.  When
    it is accepted, the live candle of its series becomes the normalised candle
    with its derived fields, no other series changes, and the candle is
    published to the hub first; a malformed one changes and publishes nothing. *)
Theorem IngestKline_live {St} `{!HistoricalStore St} cfg ctx bar (s : Svc St) r s' :
  bar.(Bar.IsFinal) = false → IngestKline cfg ctx bar s = (r, s') →
  unstored s s' ∧
  (r = Ret tt →
   ∃ f now, bar.(Bar.Timeframe) = frame_name f ∧
     let norm := normalize_bar f now bar in
     if validBar norm then
       ∃ close h, let live := ApplyDerived norm close in
         s'.(Svc.liveBars) =
           <[series_key live.(Bar.Exchange) live.(Bar.Symbol) (frame_name f) := live]> s.(Svc.liveBars) ∧
         Publish (kline_event live) s.(Svc.hub) = Some h ∧ rtc publishes h s'.(Svc.hub)
     else unheard s s').
Proof.
  intros Hl Hrun. split; [pose proof (live_unstored cfg ctx bar Hl s) as H; by rewrite Hrun in H|].
  intros ->. unfold IngestKline in Hrun. run_bind Hrun. apply check_tf_Ret in Hrun0 as [Htf <-].
  run_bind Hrun. pose proof (unheard_normalizeBar bar s) as H1. rewrite Hrun0 in H1. simpl in H1.
  apply normalizeBar_Ret in Hrun0 as (f & now & Ef & ->). exists f, now. split; [done|].
  cbv zeta. destruct (validBar _); run_negb Hrun; [|by injection Hrun as <-].
  rewrite accept_live in Hrun by (by rewrite normalize_bar_IsFinal).
  run_bind Hrun. apply ret_Ret in Hrun0 as [<- <-]. run_negb Hrun.
  run_bind Hrun. pose proof (unheard_enrichBar cfg (normalize_bar f now bar) s0) as H2.
  rewrite Hrun0 in H2. simpl in H2. apply enrichBar_Ret in Hrun0 as (close & ->).
  remember (ApplyDerived (normalize_bar f now bar) close) as live eqn:Elive.
  assert (live.(Bar.IsFinal) = false) as Hlf
    by (by rewrite Elive, ApplyDerived_IsFinal, normalize_bar_IsFinal).
  assert (live.(Bar.Timeframe) = frame_name f) as Hlt
    by (by rewrite Elive, ApplyDerived_Timeframe, normalize_bar_Timeframe).
  rewrite Hlf in Hrun. run_bind Hrun. rewrite (update_live_run live f) in Hrun0 by done.
  apply pair_Ret in Hrun0 as [_ <-]. run_bind Hrun.
  destruct H1 as [(_ & L1 & _) B1], H2 as [(_ & L2 & _) B2].
  pose proof (told_publishBar cfg live (Svc.set_liveBars
    (<[series_key live.(Bar.Exchange) live.(Bar.Symbol) (frame_name f) := live]> s1.(Svc.liveBars)) s1)) as T3.
  rewrite Hrun0 in T3. destruct T3 as [(_ & L3 & _) _]. cbn [Svc.liveBars Svc.set_liveBars snd] in L3.
  apply publishBar_Ret in Hrun0 as (h & Hp & Hh). cbn [Svc.hub Svc.set_liveBars] in Hp. rewrite B2, B1 in Hp.
  assert (told s2 s') as [(_ & L4 & _) Hh'].
  { run_if Hrun; [|by injection Hrun as <-].
    pose proof (told_publishLiveRollups cfg live s2) as T. by rewrite Hrun in T. }
  cbn [snd] in L4.
  exists close, h. rewrite <- Elive. split_and!; [by rewrite L4, L3, L2, L1|done|by etransitivity].
Qed.

(** ** Verified minutes *)

Lemma bind_run {St A B} (m : svcM St A) (f : A → svcM St B) s a s1 :
  m s = (Ret a, s1) → (m ≫= f) s = f a s1.
Proof. intros H. unfold mbind, svc_bind. by rewrite H. Qed.

Lemma check_tf_run {St} ex f (s : Svc St) :
  frame_name f ≠ "3D" → check_tf ex (frame_name f) s = (Ret f, s).
Proof.
  intros H. unfold check_tf, ValidateForExchange. rewrite Normalize_name.
  by rewrite (proj2 (String.eqb_neq _ _) H).
Qed.

(** The state after a reading of the clock. *)
Definition tick {St} (s : Svc St) : Svc St := Svc.set_clock (λ n, s.(Svc.clock) (S n)) s.

Lemma normalizeBar_state {St} bar b (s s1 : Svc St) :
  normalizeBar bar s = (Ret b, s1) → s1 = s ∨ s1 = tick s.
Proof.
  unfold normalizeBar, MustNormalize. intros H. run_bind H.
  destruct (Normalize bar.(Bar.Timeframe)); [|done]. apply ret_Ret in Hrun as [_ <-]. run_if H.
  - right. run_bind H. apply ret_Ret in H as [_ <-]. by injection Hrun as _ <-.
  - left. by apply ret_Ret in H as [_ <-].
Qed.

(** The task a conflict leaves. *)
Definition conflict_task (bar : Bar) (nowMS : Z) : MinuteAuditTask :=
  MinuteAuditTask.mk 0 bar.(Bar.Exchange) bar.(Bar.Symbol) "" "conflict"
    bar.(Bar.StartMS) bar.(Bar.StartMS) bar.(Bar.StartMS) true "" 0 nowMS 0 "" true "" nowMS nowMS.

(** The first row that carries a verification. *)
Definition first_verified (rows : list VerifiedMinuteBar) : option VerifiedMinuteBar :=
  List.find (λ row, 0 <? row.(VerifiedMinuteBar.VerifiedAtMS)) rows.

Section verified.
Context {St : Type} `{!HistoricalStore St} (cfg : Config).

(** What becomes of a candle for a verified minute. *)
Definition verified_outcome (ctx : context) (bar : Bar) (row : VerifiedMinuteBar) (s : Svc St)
    : outcome bool * Svc St :=
  if SameOfficialMinuteValues bar row.(VerifiedMinuteBar.bar) then (Ret false, s)
  else
    match hs_tasks with
    | None => (Fail (Errorf "verified minute conflict requires durable audit task storage"), s)
    | Some tasks =>
        let '(r, st) := MinuteAuditTaskStore.EnqueueMinuteAuditTask tasks ctx (s.(Svc.clock) 1%nat)
                          (conflict_task bar (s.(Svc.clock) 0%nat)) s.(Svc.store) in
        (match r with Ok _ => Ret false | Err e => Fail e end, Svc.set_store st (tick s))
    end.

Lemma check_verified_run ctx bar rows row s :
  first_verified rows = Some row →
  check_verified ctx bar rows s = verified_outcome ctx bar row s.
Proof.
  induction rows as [|r rest IH]; [done|]. unfold first_verified in *. cbn [List.find check_verified].
  destruct (Z.ltb_spec 0 r.(VerifiedMinuteBar.VerifiedAtMS)).
  - intros [= ->]. rewrite (proj2 (Z.leb_gt _ _)) by done. unfold verified_outcome.
    case_bool; [done|]. destruct hs_tasks as [tasks|]; [|done].
    rewrite (bind_run _ _ s (s.(Svc.clock) 0%nat) (tick s)) by done.
    rewrite (bind_run _ _ _ (s.(Svc.clock) 1%nat) (tick s)) by done.
    fold (conflict_task bar (s.(Svc.clock) 0%nat)).
    unfold mbind at 1, svc_bind at 1, store_call. change (Svc.store (tick s)) with s.(Svc.store).
    destruct (MinuteAuditTaskStore.EnqueueMinuteAuditTask _ _ _ _ _) as [[a|e] st]; done.
  - intros Hf. rewrite (proj2 (Z.leb_le _ _)) by done. by apply IH.
Qed.
End verified.

(** C22: a final candle of a minute whose stored row is verified is never
    written: the candles, the live candles and the hub stay as they are and
    nothing is rolled up.  When its official values agree with the verified ones
    it is dropped; when they differ, a forced audit task of kind "conflict" for
    that minute is put in the store's task queue, and without such a queue, or
    when queueing fails, the caller is told. *)
Theorem IngestKline_verified {St} `{!HistoricalStore St} cfg ctx bar (s s1 : Svc St) norm verifications rows row :
  bar.(Bar.Timeframe) = frame_name OneMinute → bar.(Bar.IsFinal) = true →
  normalizeBar bar s = (Ret norm, s1) → validBar norm = true →
  hs_verifications = Some verifications →
  MinuteVerificationStore.LoadMinuteVerifications verifications norm.(Bar.Exchange) norm.(Bar.Symbol)
    norm.(Bar.StartMS) norm.(Bar.StartMS) s1.(Svc.store) = Ok rows →
  first_verified rows = Some row →
  let '(r, s') := IngestKline cfg ctx bar s in
  s'.(Svc.hub) = s.(Svc.hub) ∧ s'.(Svc.liveBars) = s.(Svc.liveBars) ∧ s'.(Svc.log) = s.(Svc.log) ∧
  if SameOfficialMinuteValues norm row.(VerifiedMinuteBar.bar)
  then r = Ret tt ∧ s'.(Svc.store) = s.(Svc.store)
  else match hs_tasks with
       | None => (∃ e, r = Fail e) ∧ s'.(Svc.store) = s.(Svc.store)
       | Some tasks =>
           ∃ queued, MinuteAuditTaskStore.EnqueueMinuteAuditTask tasks ctx (s1.(Svc.clock) 1%nat)
             (conflict_task norm (s1.(Svc.clock) 0%nat)) s.(Svc.store) = (queued, s'.(Svc.store)) ∧
             match queued with Ok _ => r = Ret tt | Err e => r = Fail e end
       end.
Proof.
  intros Htf Hfin Hnorm Hvalid Hv Hload Hrow.
  assert (s1.(Svc.store) = s.(Svc.store) ∧ s1.(Svc.hub) = s.(Svc.hub) ∧
          s1.(Svc.liveBars) = s.(Svc.liveBars) ∧ s1.(Svc.log) = s.(Svc.log)) as (Est & Eh & El & Eg)
    by (by destruct (normalizeBar_state _ _ _ _ Hnorm) as [->| ->]).
  pose proof Hnorm as Hn. apply normalizeBar_Ret in Hn as (f & now & Ef & En).
  assert (norm.(Bar.Timeframe) = "1m") as Hnt.
  { rewrite En, normalize_bar_Timeframe. rewrite Htf in Ef. by apply frame_name_inj in Ef as <-. }
  assert (norm.(Bar.IsFinal) = true) as Hnf by (by rewrite En, normalize_bar_IsFinal).
  unfold IngestKline. rewrite Htf. rewrite (bind_run _ _ s OneMinute s) by (by apply check_tf_run).
  rewrite (bind_run _ _ s norm s1) by done. rewrite Hvalid, negb_true. cbv iota.
  assert (Hacc : acceptUnverifiedFinal ctx norm s1 = verified_outcome ctx norm row s1).
  { unfold acceptUnverifiedFinal. rewrite Hnt, Hnf, Hv. rewrite bool_decide_true by done. cbn [negb orb].
    rewrite (bind_run _ _ s1 (Ok rows) s1) by (unfold store_read; by rewrite Hload).
    rewrite (bind_run _ _ s1 rows s1) by done. by apply check_verified_run. }
  unfold mbind at 1, svc_bind at 1. rewrite Hacc. unfold verified_outcome. rewrite <- Est.
  destruct (SameOfficialMinuteValues norm _); [by split_and!|].
  destruct hs_tasks as [tasks|]; [|split_and!; try done; by eexists].
  destruct (MinuteAuditTaskStore.EnqueueMinuteAuditTask _ _ _ _ _) as [[a|e] st] eqn:Eq;
    (split_and!; [done..|]); eexists; (split; [reflexivity|done]).
Qed.

(** ** Every method returns *)

(** The outcome is a value or an error, and the hub is left open. *)
Definition returns {St A} (m : svcM St A) (s : Svc St) : Prop :=
  hub_open (snd (m s)).(Svc.hub) ∧ ((∃ a, fst (m s) = Ret a) ∨ (∃ e, fst (m s) = Fail e)).

Lemma safe_returns {St A} (m : svcM St A) Q s : safe m Q → hub_open s.(Svc.hub) → returns m s.
Proof.
  intros Hm Hs. specialize (Hm s Hs). unfold returns. destruct (m s) as [[a|e| |] s'], Hm; try done.
  - split; [done|]. left. by eexists.
  - split; [done|]. right. by eexists.
Qed.

(** C2: on any store and from any state whose hub is open, the methods of a
    service that [NewMarketService] built end in a value or an error: none
    panics and none runs on for ever, the rollup queue, the recursion over live
    rollups and the recursion over repaired rollups included.  Verification
    needs candles of known timeframes, and rollup repair candles from the first
    Monday of 1970 until 2262. *)
Theorem service_returns {St} `{!HistoricalStore St} frames recentLimit telemetry cfg (s : Svc St) ctx :
  NewMarketService frames recentLimit telemetry = Some cfg → hub_open s.(Svc.hub) →
  (∀ bar, returns (IngestKline cfg ctx bar) s) ∧
  (∀ bars, returns (RepairFinalBars cfg ctx bars) s) ∧
  (∀ bars, Forall (λ b, 4 * DayMS <= b.(Bar.StartMS) <= MaxTS) bars → returns (RepairRollups cfg bars) s) ∧
  (∀ bars generationMS, Forall named bars → returns (VerifyFinalBars cfg bars generationMS) s) ∧
  (∀ query, returns (Klines cfg query) s) ∧
  (∀ exchange symbol, returns (LatestTick cfg exchange symbol) s) ∧
  (∀ exchange activeOnly, returns (ListSymbols_ exchange activeOnly) s).
Proof.
  intros Hcfg Hs. assert (config_ok cfg) as Hc.
  { unfold NewMarketService, normalizeFrames in Hcfg. cbv zeta in Hcfg.
    destruct (request_frames _ _) as [out|]; [|done]. apply (inj Some) in Hcfg as <-. by eexists. }
  split_and!; intros; (eapply safe_returns; [|done]).
  - by apply safe_IngestKline.
  - by apply safe_RepairFinalBars.
  - by apply safe_RepairRollups.
  - by apply safe_VerifyFinalBars.
  - apply safe_Klines.
  - apply safe_LatestTick.
  - apply safe_ListSymbols.
Qed.

(** ** The previous close *)

Lemma read_bars_run {St} `{!HistoricalStore St} cfg op ex sy tf a b (s : Svc St) out :
  hs_BarsInRange ex sy tf a b s.(Svc.store) = Ok out →
  ∃ s', read_bars cfg op ex sy tf a b s = (Ret out, s') ∧ unheard s s'.
Proof.
  intros H. unfold read_bars. rewrite (bind_run _ _ s (Ok out) s) by (unfold store_read; by rewrite H).
  pose proof (unheard_observe cfg op (Ok out) s) as Hu.
  unfold mbind at 1, svc_bind at 1. unfold observeStorage, telemetry in *.
  destruct (cfg.(Config.telemetry)); eexists; (split; [reflexivity|exact Hu]).
Qed.

(** The length of the current bucket is that of the bucket before, months apart. *)
Lemma previous_by_duration f start now :
  monthFrames f = None → aligned f start → grid f 0 < start <= MaxTS → in_domain f now →
  i64 (start - DurationMS now f) = PreviousStartMS start f.
Proof.
  intros Hm Ha Hr Hnow. pose proof (aligned_steppable f start Ha ltac:(lia)) as Hst.
  destruct Ha as (k & Hk & ->). rewrite prev_grid by done.
  pose proof (grid_step f (k - 1)) as Hstep. replace (k - 1 + 1) with k in Hstep by lia.
  assert (DurationMS now f = grid f k - grid f (k - 1)) as ->.
  2: { replace (grid f k - (grid f k - grid f (k - 1))) with (grid f (k - 1)) by lia.
       apply i64_id. unfold int64_range, two63, MaxTS, DayMS, MinuteMS in *.
       pose proof (grid_nonneg f 0). lia. }
  destruct (floor_spec f now Hnow) as (j & Hj & Ej & Hb).
  assert (steppable (grid f j)) as Hsj.
  { apply (aligned_steppable f); [by exists j|]. unfold in_domain in Hnow. lia. }
  clear Hst Hr Hstep Hnow.
  unfold DurationMS. rewrite Ej, next_grid by done. clear Ej Hsj Hb.
  destruct f; try done; cbn [fixedMinuteFrames grid dayFrames weekFrames];
    rewrite i64_id; unfold int64_range, two63, MinuteMS, DayMS; lia.
Qed.

(** For every timeframe but the months, the previous close of an aligned
    candle is the close of the stored candle of the bucket before it, whatever
    the clock says, and 0 when the store has none and no live candle stands in. *)
Theorem previousClose_previous {St} `{!HistoricalStore St} cfg bar f (s : Svc St) stored :
  bar.(Bar.Timeframe) = frame_name f → monthFrames f = None →
  aligned f bar.(Bar.StartMS) → grid f 0 < bar.(Bar.StartMS) <= MaxTS →
  in_domain f (s.(Svc.clock) 0%nat) →
  hs_BarsInRange bar.(Bar.Exchange) bar.(Bar.Symbol) bar.(Bar.Timeframe)
    (PreviousStartMS bar.(Bar.StartMS) f) (PreviousStartMS bar.(Bar.StartMS) f) s.(Svc.store) = Ok stored →
  s.(Svc.liveBars) !! series_key bar.(Bar.Exchange) bar.(Bar.Symbol) (frame_name f) = None →
  ∃ s', previousClose cfg bar s =
    (Ret (match last stored with Some previous => previous.(Bar.ClosePrice) | None => f64_zero end), s').
Proof.
  intros Htf Hm Ha Hr Hnow Hread Hlive. unfold previousClose.
  rewrite (bind_run _ _ s f s) by (unfold MustNormalize; by rewrite Htf, Normalize_name).
  assert (∃ d s1, (match fixedMinuteFrames f with
            | Some _ => mret (DurationMS 0 f)
            | None => now ← NowMS; mret (DurationMS now f) end : svcM St Z) s = (Ret d, s1) ∧
          i64 (bar.(Bar.StartMS) - d) = PreviousStartMS bar.(Bar.StartMS) f ∧
          s1.(Svc.store) = s.(Svc.store) ∧ s1.(Svc.liveBars) = s.(Svc.liveBars))
    as (d & s1 & Ed & Hd & Est & El).
  { rewrite <- (previous_by_duration f _ (s.(Svc.clock) 0%nat)) by done.
    destruct (fixedMinuteFrames f) as [m|] eqn:Em.
    - exists (DurationMS 0 f), s. split_and!; [done| |done..]. unfold DurationMS. by rewrite Em.
    - exists (DurationMS (s.(Svc.clock) 0%nat) f), (tick s). split_and!; reflexivity. }
  rewrite (bind_run _ _ s d s1) by done. cbv zeta. rewrite Hd.
  assert (PreviousStartMS bar.(Bar.StartMS) f <? 0 = false) as ->.
  { apply Z.ltb_ge. pose proof (aligned_steppable f _ Ha ltac:(lia)) as Hst.
    destruct Ha as (k & Hk & Ek). rewrite Ek in *. rewrite prev_grid by done. apply grid_nonneg.
    pose proof (grid_lt f 0 k). lia. }
  rewrite <- Est in Hread.
  destruct (read_bars_run cfg "previous_close" _ _ _ _ _ s1 stored Hread) as (s2 & Er & (_ & El2 & _) & _).
  rewrite (bind_run _ _ s1 stored s2) by done.
  destruct (last stored) as [prev|]; [by eexists|]. case_bool; [by eexists|].
  unfold barKey, MustNormalize. rewrite Htf, Normalize_name.
  eexists. unfold mbind, svc_bind. simpl. rewrite El2, El, Hlive. reflexivity.
Qed.

(** For the monthly timeframes the previous close is looked up one length of
    the *current* month back, which is no month's start when the lengths differ:
    with February's final candle stored, the March candle's previous close comes
    out as 0, though [PreviousStartMS], by which rollups are repaired, finds it. *)
Theorem previousClose_month_gap :
  let month start close := Bar.set_Timeframe "1M" (Bar.set_EndMS (EndMS start F1M)
    (normalize_bar F1M 1 {| Bar.Exchange := "okx"; Bar.Symbol := "BTC-USDT"; Bar.MarginType := "umargin";
       Bar.Timeframe := "1M"; Bar.StartMS := start; Bar.EndMS := 0; Bar.StartTS := 0; Bar.EndTS := 0;
       Bar.OpenPrice := f64_of_Z 100; Bar.HighPrice := f64_of_Z 100; Bar.LowPrice := f64_of_Z 100;
       Bar.ClosePrice := f64_of_Z close; Bar.Open := f64_zero; Bar.High := f64_zero; Bar.Low := f64_zero;
       Bar.Close := f64_zero; Bar.PrevClose := f64_zero; Bar.Chg := f64_zero; Bar.Amp := f64_zero;
       Bar.Volume := f64_zero; Bar.VolumeUnit := ""; Bar.QuoteVolume := f64_zero; Bar.Quote := f64_zero;
       Bar.QuoteUnit := ""; Bar.ContractVolume := f64_zero; Bar.TradeCount := 0; Bar.LastTickMS := 0;
       Bar.IsFinal := true; Bar.Source := "rest"; Bar.Reason := "final"; Bar.UpdatedAtMS := 1 |})) in
  let february := month 1769904000000 90 in
  let march := month 1772323200000 100 in
  let candles := snd (UpsertBars [february] BarStore.empty) in
  let s := Svc.mk (MemoryHistoricalStore.set_candles candles NewMemoryHistoricalStore) NewHub ∅ ∅ 0
             (λ _, 1773000000000) [] in
  february.(Bar.StartMS) = PreviousStartMS march.(Bar.StartMS) F1M ∧
  (∃ out, BarsInRange "okx" "BTC-USDT" "1M" february.(Bar.StartMS) february.(Bar.StartMS) candles = Ok out ∧
          Bar.ClosePrice <$> out = [f64_of_Z 90]) ∧
  fst (previousClose (Config.mk Order 300 false) march s) = Ret f64_zero.
Proof.
  cbv zeta. split; [|split]; [vm_compute; reflexivity| |vm_compute; reflexivity].
  eexists. split; [vm_compute; reflexivity|vm_compute; reflexivity].
Qed.

(** ** One rollup bucket *)

Lemma ApplyDerived_EndMS bar close : (ApplyDerived bar close).(Bar.EndMS) = bar.(Bar.EndMS).
Proof.
  unfold ApplyDerived. rewrite DecorateBar_EndMS. destruct bar; simpl. by repeat (case_inner; simpl).
Qed.

(** C21: a bucket is rolled up exactly when its source candles cover it: every
    source bucket of its range has a final candle in the store's answer, in
    order, and the last of them reaches the end.  Then the rollup of those
    candles, with the derived fields, is stored as the final candle of the
    bucket; otherwise nothing is stored or published. *)
Theorem rebuildRollupBucket_exact {St} `{!HistoricalStore St, !HistoricalStoreLaws St} cfg f g exchange symbol
    ts reason now (s : Svc St) bars :
  hs_ok s.(Svc.store) → RollupSourceTimeframe f = Some g → f ≠ F3D → aligned f ts → ts <= MaxTS →
  hs_BarsInRange exchange symbol (frame_name g) ts (EndMS ts f) s.(Svc.store) = Ok bars →
  let '(r, s') := rebuildRollupBucket cfg (Bucket.mk exchange symbol g f ts (EndMS ts f)) reason now s in
  (covers g ts (EndMS ts f) bars → r ≠ Ret None) ∧
  (¬ covers g ts (EndMS ts f) bars → r = Ret None ∧ unheard s s') ∧
  (∀ b, r = Ret (Some b) → ∃ rollup close,
     covers g ts (EndMS ts f) bars ∧ RollupBars f bars true reason now = Some rollup ∧
     b = ApplyDerived rollup close ∧ s'.(Svc.store) = snd (hs_UpsertBars [b] s.(Svc.store)) ∧
     b.(Bar.StartMS) = ts ∧ b.(Bar.EndMS) = EndMS ts f ∧ b.(Bar.Timeframe) = frame_name f ∧
     b.(Bar.IsFinal) = true).
Proof.
  intros Hok Hs Hd Ha Hts Hread. unfold rebuildRollupBucket. cbn [Bucket.exchange Bucket.timeframe Bucket.symbol
    Bucket.sourceTimeframe Bucket.startMS Bucket.endMS].
  rewrite (bind_run _ _ s f s) by (apply check_tf_run; by destruct f).
  destruct (read_bars_run cfg "rollup_source" _ _ _ _ _ s bars Hread) as (s1 & Er & Hu).
  rewrite (bind_run _ _ s bars s1) by done.
  destruct (hs_BarsInRange_law _ _ _ _ _ _ _ Hok Hread) as [_ Hall].
  assert (∀ b, b ∈ bars → b.(Bar.StartMS) <= EndMS ts f) as Hle.
  { intros b Hb. rewrite Forall_forall in Hall. specialize (Hall b Hb). lia. }
  pose proof (sourceBarsComplete_covers f g ts bars Hs Ha Hts Hle) as Hc.
  destruct (sourceBarsComplete bars g ts (EndMS ts f)); cbv iota beta; rewrite ?negb_true, ?negb_false; cbv iota.
  2: { assert (¬ covers g ts (EndMS ts f) bars) as Hn by (intros Hcov; by apply Hc in Hcov).
       change ((mret None : svcM St (option Bar)) s1) with (Ret (A:=option Bar) None, s1).
       split_and!; [done|done|]. intros b Hb. discriminate Hb. }
  assert (covers g ts (EndMS ts f) bars) as Hcov by (by apply Hc).
  destruct (RollupBars f bars true reason now) as [rollup|] eqn:Eroll.
  2: { apply RollupBars_None in Eroll as ->. by destruct Hcov as (_ & _ & _ & l & ? & _). }
  destruct (RollupBars_window f g ts bars true reason now rollup) as (Rst & Ren & Rtf & Rfi); [done..|].
  match goal with |- let '(r, s') := ?m in _ => destruct m as [r s'] eqn:Erun end.
  split_and!; [|by intros Hn|].
  - intros _ ->. run_bind Erun. run_bind Erun. run_bind Erun. run_bind Erun. run_bind Erun. run_bind Erun.
    by apply ret_Ret in Erun as [? _].
  - intros b ->. run_bind Erun. pose proof (unheard_enrichBar cfg rollup s1) as Hu1. rewrite Hrun in Hu1.
    apply enrichBar_Ret in Hrun as (close & ->). run_bind Erun.
    remember (ApplyDerived rollup close) as enriched eqn:Ee.
    unfold store_call in Hrun. destruct (hs_UpsertBars [enriched] s0.(Svc.store)) as [res st] eqn:Eup.
    apply pair_Ret in Hrun as [<- <-].
    run_bind Erun. pose proof (unheard_observe cfg "rollup_upsert" res (Svc.set_store st s0)) as Hu2.
    rewrite Hrun in Hu2.
    run_bind Erun. apply lift_Ret in Hrun0 as [_ <-].
    run_bind Erun. pose proof (unheard_telemetry cfg (BarPersisted enriched) s2) as Hu3. rewrite Hrun0 in Hu3.
    run_bind Erun. pose proof (told_publishBar cfg enriched s3) as Hu4. rewrite Hrun1 in Hu4.
    apply ret_Ret in Erun as [Eb <-]. injection Eb as <-.
    exists rollup, close. rewrite <- Ee.
    destruct Hu as [(Q0 & _) _], Hu1 as [(Q1 & _) _], Hu2 as [(Q2 & _) _], Hu3 as [(Q3 & _) _], Hu4 as [(Q4 & _) _].
    cbn [snd Svc.store Svc.set_store] in *.
    rewrite Q4, Q3, Q2. rewrite Q1, Q0 in Eup. rewrite Eup.
    split_and!; try done; subst enriched;
      rewrite ?ApplyDerived_StartMS, ?ApplyDerived_EndMS, ?ApplyDerived_Timeframe, ?ApplyDerived_IsFinal; done.
Qed.

(** ** Witnesses

    A service on the store in memory, with the first minute of an hour verified
    and the following four stored. *)

Definition sample_config : Config := default (Config.mk [] 0 false) (NewMarketService [] 300 true).
Definition sample_candles : BarStore :=
  snd (UpsertBars [sample_bar 1 10 12 9 11 5; sample_bar 2 11 12 9 11 5; sample_bar 3 11 12 9 11 5;
                   sample_bar 4 11 12 9 11 5] sample_verified).
Definition sample_service : Svc MemoryHistoricalStore :=
  Svc.mk (MemoryHistoricalStore.set_candles sample_candles NewMemoryHistoricalStore) NewHub ∅ ∅ 1
    (λ n, sample_base + 300000 + Z.of_nat n) [].

Lemma sample_service_ok : hs_ok sample_service.(Svc.store).
Proof.
  change (bars_wf sample_candles). apply UpsertBars_wf; [|apply sample_verified_wf].
  repeat constructor; by exists F1m.
Qed.

Definition is_ret {A} (r : outcome A) : bool := match r with Ret _ => true | _ => false end.

Example service_returns_witness :
  NewMarketService [] 300 true = Some sample_config ∧
  returns (IngestKline sample_config None (sample_bar 5 11 13 9 12 4)) sample_service.
Proof.
  assert (NewMarketService [] 300 true = Some sample_config) as Hc by reflexivity.
  split; [exact Hc|].
  exact (proj1 (service_returns [] 300 true sample_config sample_service None Hc NewHub_open) _).
Defined.

Example Klines_window_witness :
  let query := KlineQuery.mk "OKX" "btc-usdt" "1m" 3 true in
  ∃ bars s', Klines sample_config query sample_service = (Ret bars, s') ∧ unheard sample_service s' ∧
             length bars = 3%nat ∧ key_sorted Bar.StartMS bars.
Proof.
  intros query. destruct (Klines sample_config query sample_service) as [r s'] eqn:E.
  assert (match r with Ret l => length l = 3%nat | _ => False end) as Hr.
  { change r with (fst (r, s')). rewrite <- E. vm_compute. reflexivity. }
  destruct r as [bars|e| |]; [|destruct Hr..].
  destruct (Klines_window sample_config query sample_service bars s' sample_service_ok E)
    as (Hu & _ & _ & _ & _ & _ & _ & Hs & _).
  exists bars, s'. auto.
Defined.

Example IngestKline_live_witness :
  let bar := Bar.set_IsFinal false (sample_bar 5 11 13 9 12 4) in
  let '(r, s') := IngestKline sample_config None bar sample_service in
  r = Ret tt ∧ unstored sample_service s' ∧
  is_Some (s'.(Svc.liveBars) !! series_key "okx" "BTC-USDT" "1m").
Proof.
  intros bar. destruct (IngestKline sample_config None bar sample_service) as [r s'] eqn:E.
  destruct (IngestKline_live sample_config None bar sample_service r s' eq_refl E) as [Hu Hlive].
  assert (r = Ret tt) as Hr by (change r with (fst (r, s')); rewrite <- E; vm_compute; reflexivity).
  split_and!; [exact Hr|exact Hu|].
  assert (match s'.(Svc.liveBars) !! series_key "okx" "BTC-USDT" "1m" with Some _ => true | None => false end = true)
    as Hs by (change s' with (snd (r, s')); rewrite <- E; vm_compute; reflexivity).
  destruct (s'.(Svc.liveBars) !! _); [by eexists|discriminate Hs].
Defined.

Lemma on_audit_inv {A} (f : AuditQueue → A * AuditQueue) m a m' :
  on_audit f m = (a, m') → f m.(MemoryHistoricalStore.audit) = (a, m'.(MemoryHistoricalStore.audit)).
Proof. unfold on_audit. destruct (f _) as [b q]. by intros [= -> <-]. Qed.

(** Another close for the verified minute: nothing but a task comes of it. *)
Example IngestKline_verified_witness :
  let bar := sample_bar 0 8 10 7 9 3 in
  let norm := normalize_bar F1m 0 bar in
  let row := VerifiedMinuteBar.mk (DecorateBar (sample_bar 0 8 10 7 10 3)) 100 in
  SameOfficialMinuteValues norm row.(VerifiedMinuteBar.bar) = false ∧
  let '(r, s') := IngestKline sample_config None bar sample_service in
  s'.(Svc.hub) = NewHub ∧
  ∃ queued, EnqueueMinuteAuditTask None (sample_base + 300000 + 1) (conflict_task norm (sample_base + 300000))
    AuditQueue.empty = (queued, s'.(Svc.store).(MemoryHistoricalStore.audit)) ∧
    match queued with Ok _ => r = Ret tt | Err e => r = Fail e end.
Proof.
  intros bar norm row.
  assert (normalizeBar bar sample_service = (Ret norm, sample_service)) as En by reflexivity.
  pose proof (IngestKline_verified sample_config None bar sample_service sample_service norm _ [row] row
    eq_refl eq_refl En ltac:(vm_compute; reflexivity) eq_refl ltac:(vm_compute; reflexivity) eq_refl) as H.
  assert (SameOfficialMinuteValues norm row.(VerifiedMinuteBar.bar) = false) as Hd by (vm_compute; reflexivity).
  split; [exact Hd|]. rewrite Hd in H. destruct (IngestKline _ _ bar _) as [r s'].
  destruct H as (Hh & _ & _ & queued & Hq & Hr). split; [exact Hh|]. exists queued. split; [|exact Hr].
  exact (on_audit_inv _ sample_service.(Svc.store) _ _ Hq).
Defined.

Example previousClose_previous_witness :
  ∃ s', previousClose sample_config (sample_bar 1 10 12 9 11 5) sample_service = (Ret (f64_of_Z 10), s').
Proof.
  apply (previousClose_previous sample_config (sample_bar 1 10 12 9 11 5) F1m sample_service
           [DecorateBar (sample_bar 0 8 10 7 10 3)]); try reflexivity.
  - exists (sample_base / 60000 + 1). split; [vm_compute; discriminate|reflexivity].
  - vm_compute. split; [reflexivity|discriminate].
  - vm_compute. split; discriminate.
Defined.

Example rebuildRollupBucket_exact_witness :
  let bucket := Bucket.mk "okx" "BTC-USDT" F1m F5m sample_base (EndMS sample_base F5m) in
  ∃ b s', rebuildRollupBucket sample_config bucket "rollup" 0 sample_service = (Ret (Some b), s') ∧
    b.(Bar.StartMS) = sample_base ∧
    s'.(Svc.store) = snd (hs_UpsertBars [b] sample_service.(Svc.store)).
Proof.
  intros bucket.
  assert (aligned F5m sample_base) as Ha
    by (exists (sample_base / 300000); split; [vm_compute; discriminate|reflexivity]).
  destruct (hs_BarsInRange "okx" "BTC-USDT" "1m" sample_base (EndMS sample_base F5m) sample_service.(Svc.store))
    as [bars|e] eqn:Eb; [|vm_compute in Eb; discriminate Eb].
  pose proof (rebuildRollupBucket_exact sample_config F5m F1m "okx" "BTC-USDT" sample_base "rollup" 0
    sample_service bars sample_service_ok eq_refl ltac:(discriminate) Ha ltac:(vm_compute; discriminate) Eb) as H.
  fold bucket in H. destruct (rebuildRollupBucket sample_config bucket "rollup" 0 sample_service) as [r s'] eqn:E.
  assert (match r with Ret (Some _) => true | _ => false end = true) as Hr
    by (change r with (fst (r, s')); rewrite <- E; vm_compute; reflexivity).
  destruct r as [[b|]|e| |]; try discriminate Hr.
  destruct H as (_ & _ & H). destruct (H b eq_refl) as (_ & _ & _ & _ & _ & Hst & Hs & _).
  exists b, s'. split; [reflexivity|split; [exact Hs|exact Hst]].
Defined.
