(* ===== verification/TimeAudit.v ===== *)
(** * The timestamp audit (internal/timeaudit/audit.go)

    An [Accumulator] reads the rows of one exchange and timeframe in the order of
    the database (one symbol after the other, each by start) and keeps a [Series]
    per symbol: how many rows there are, which are off the grid, duplicated or
    wrongly closed, and which buckets between its first and its last candle are
    missing.  Only rows that start a bucket ("canonical" rows) anchor gaps.

    A pointer in the accumulator's map is the entry of the map here: [Add] puts
    the changed [Series] back.  Instants are Unix milliseconds; [asOf] is given by
    its [UnixMilli], from which the two minutes of [FinalityGrace] are taken off
    exactly. *)

From S2P Require Export Timeframe.

Local Open Scope string_scope.
Local Open Scope Z_scope.
Local Open Scope list_scope.

Definition FinalityGrace_ms : Z := 120000.
Definition DefaultTimeframes : list Frame :=
  [F15m; F30m; F1H; F2H; F4H; F6H; F12H; F1D; F2D; F5D; F1W; F2W; F1M; F3M].

(** ** Data *)

Module Metadata.
Record Metadata : Type := mk {
  Exchange : string;
  Symbol : string;
  MarketType : string;
  SourceMarket : string;
  InstrumentType : string;
  AssetClass : string;
  RuleType : string;
  LifecyclePhase : string;
  Active : bool;
  InRegistry : bool;
  FirstSeenMS : Z;
  LastSeenMS : Z;
  LastStatus : string;
}.
Definition set_InRegistry (v : bool) (s : Metadata) : Metadata :=
  match s with
  | mk
      x0 x1 x2 x3 x4 x5 x6 x7 x8 _ x10 x11 x12 =>
    mk
      x0 x1 x2 x3 x4 x5 x6 x7 x8 v x10 x11 x12
  end.
End Metadata.
Notation Metadata := Metadata.Metadata.

Module Row.
Record Row : Type := mk {
  Symbol : string;
  StartMS : Z;
  EndMS : Z;
}.
End Row.
Notation Row := Row.Row.

Module Gap.
Record Gap : Type := mk {
  Exchange : string;
  Symbol : string;
  Timeframe : string;
  PreviousStartMS : Z;
  NextStartMS : Z;
  FirstMS : Z;
  LastMS : Z;
  First : string;
  Last : string;
  Previous : string;
  Next : string;
  Count : Z;
}.
End Gap.
Notation Gap := Gap.Gap.

Module TimeExample.
Record TimeExample : Type := mk {
  StartMS : Z;
  EndMS : Z;
}.
End TimeExample.
Notation TimeExample := TimeExample.TimeExample.

Module Series.
Record Series : Type := mk {
  metadata : Metadata;
  Timeframe : string;
  Status : string;
  Bars : Z;
  ActualBars : Z;
  CanonicalBars : Z;
  ExpectedInteriorCount : Z;
  FirstMS : Z;
  LastMS : Z;
  First : string;
  Last : string;
  FirstCanonicalMS : Z;
  LastCanonicalMS : Z;
  LatestCompletedMS : Z;
  LatestCompleted : string;
  InternalMissing : Z;
  GapRanges : list Gap;
  Misaligned : Z;
  InvalidStart : Z;
  InvalidEnd : Z;
  Duplicates : Z;
  MisalignedExamples : list TimeExample;
  InvalidEndExamples : list TimeExample;
  TailLagCandidate : bool;
  TailLagBuckets : Z;
}.
Definition set_Status (v : string) (s : Series) : Series :=
  match s with
  | mk
      x0 x1 _ x3 x4 x5 x6 x7 x8 x9 x10 x11 x12 x13 x14 x15 x16 x17 x18 x19 x20 x21 x22 x23 x24 =>
    mk
      x0 x1 v x3 x4 x5 x6 x7 x8 x9 x10 x11 x12 x13 x14 x15 x16 x17 x18 x19 x20 x21 x22 x23 x24
  end.
Definition set_Bars (v : Z) (s : Series) : Series :=
  match s with
  | mk
      x0 x1 x2 _ x4 x5 x6 x7 x8 x9 x10 x11 x12 x13 x14 x15 x16 x17 x18 x19 x20 x21 x22 x23 x24 =>
    mk
      x0 x1 x2 v x4 x5 x6 x7 x8 x9 x10 x11 x12 x13 x14 x15 x16 x17 x18 x19 x20 x21 x22 x23 x24
  end.
Definition set_ActualBars (v : Z) (s : Series) : Series :=
  match s with
  | mk
      x0 x1 x2 x3 _ x5 x6 x7 x8 x9 x10 x11 x12 x13 x14 x15 x16 x17 x18 x19 x20 x21 x22 x23 x24 =>
    mk
      x0 x1 x2 x3 v x5 x6 x7 x8 x9 x10 x11 x12 x13 x14 x15 x16 x17 x18 x19 x20 x21 x22 x23 x24
  end.
Definition set_CanonicalBars (v : Z) (s : Series) : Series :=
  match s with
  | mk
      x0 x1 x2 x3 x4 _ x6 x7 x8 x9 x10 x11 x12 x13 x14 x15 x16 x17 x18 x19 x20 x21 x22 x23 x24 =>
    mk
      x0 x1 x2 x3 x4 v x6 x7 x8 x9 x10 x11 x12 x13 x14 x15 x16 x17 x18 x19 x20 x21 x22 x23 x24
  end.
Definition set_ExpectedInteriorCount (v : Z) (s : Series) : Series :=
  match s with
  | mk
      x0 x1 x2 x3 x4 x5 _ x7 x8 x9 x10 x11 x12 x13 x14 x15 x16 x17 x18 x19 x20 x21 x22 x23 x24 =>
    mk
      x0 x1 x2 x3 x4 x5 v x7 x8 x9 x10 x11 x12 x13 x14 x15 x16 x17 x18 x19 x20 x21 x22 x23 x24
  end.
Definition set_FirstMS (v : Z) (s : Series) : Series :=
  match s with
  | mk
      x0 x1 x2 x3 x4 x5 x6 _ x8 x9 x10 x11 x12 x13 x14 x15 x16 x17 x18 x19 x20 x21 x22 x23 x24 =>
    mk
      x0 x1 x2 x3 x4 x5 x6 v x8 x9 x10 x11 x12 x13 x14 x15 x16 x17 x18 x19 x20 x21 x22 x23 x24
  end.
Definition set_LastMS (v : Z) (s : Series) : Series :=
  match s with
  | mk
      x0 x1 x2 x3 x4 x5 x6 x7 _ x9 x10 x11 x12 x13 x14 x15 x16 x17 x18 x19 x20 x21 x22 x23 x24 =>
    mk
      x0 x1 x2 x3 x4 x5 x6 x7 v x9 x10 x11 x12 x13 x14 x15 x16 x17 x18 x19 x20 x21 x22 x23 x24
  end.
Definition set_First (v : string) (s : Series) : Series :=
  match s with
  | mk
      x0 x1 x2 x3 x4 x5 x6 x7 x8 _ x10 x11 x12 x13 x14 x15 x16 x17 x18 x19 x20 x21 x22 x23 x24 =>
    mk
      x0 x1 x2 x3 x4 x5 x6 x7 x8 v x10 x11 x12 x13 x14 x15 x16 x17 x18 x19 x20 x21 x22 x23 x24
  end.
Definition set_Last (v : string) (s : Series) : Series :=
  match s with
  | mk
      x0 x1 x2 x3 x4 x5 x6 x7 x8 x9 _ x11 x12 x13 x14 x15 x16 x17 x18 x19 x20 x21 x22 x23 x24 =>
    mk
      x0 x1 x2 x3 x4 x5 x6 x7 x8 x9 v x11 x12 x13 x14 x15 x16 x17 x18 x19 x20 x21 x22 x23 x24
  end.
Definition set_FirstCanonicalMS (v : Z) (s : Series) : Series :=
  match s with
  | mk
      x0 x1 x2 x3 x4 x5 x6 x7 x8 x9 x10 _ x12 x13 x14 x15 x16 x17 x18 x19 x20 x21 x22 x23 x24 =>
    mk
      x0 x1 x2 x3 x4 x5 x6 x7 x8 x9 x10 v x12 x13 x14 x15 x16 x17 x18 x19 x20 x21 x22 x23 x24
  end.
Definition set_LastCanonicalMS (v : Z) (s : Series) : Series :=
  match s with
  | mk
      x0 x1 x2 x3 x4 x5 x6 x7 x8 x9 x10 x11 _ x13 x14 x15 x16 x17 x18 x19 x20 x21 x22 x23 x24 =>
    mk
      x0 x1 x2 x3 x4 x5 x6 x7 x8 x9 x10 x11 v x13 x14 x15 x16 x17 x18 x19 x20 x21 x22 x23 x24
  end.
Definition set_InternalMissing (v : Z) (s : Series) : Series :=
  match s with
  | mk
      x0 x1 x2 x3 x4 x5 x6 x7 x8 x9 x10 x11 x12 x13 x14 _ x16 x17 x18 x19 x20 x21 x22 x23 x24 =>
    mk
      x0 x1 x2 x3 x4 x5 x6 x7 x8 x9 x10 x11 x12 x13 x14 v x16 x17 x18 x19 x20 x21 x22 x23 x24
  end.
Definition set_GapRanges (v : list Gap) (s : Series) : Series :=
  match s with
  | mk
      x0 x1 x2 x3 x4 x5 x6 x7 x8 x9 x10 x11 x12 x13 x14 x15 _ x17 x18 x19 x20 x21 x22 x23 x24 =>
    mk
      x0 x1 x2 x3 x4 x5 x6 x7 x8 x9 x10 x11 x12 x13 x14 x15 v x17 x18 x19 x20 x21 x22 x23 x24
  end.
Definition set_Misaligned (v : Z) (s : Series) : Series :=
  match s with
  | mk
      x0 x1 x2 x3 x4 x5 x6 x7 x8 x9 x10 x11 x12 x13 x14 x15 x16 _ x18 x19 x20 x21 x22 x23 x24 =>
    mk
      x0 x1 x2 x3 x4 x5 x6 x7 x8 x9 x10 x11 x12 x13 x14 x15 x16 v x18 x19 x20 x21 x22 x23 x24
  end.
Definition set_InvalidStart (v : Z) (s : Series) : Series :=
  match s with
  | mk
      x0 x1 x2 x3 x4 x5 x6 x7 x8 x9 x10 x11 x12 x13 x14 x15 x16 x17 _ x19 x20 x21 x22 x23 x24 =>
    mk
      x0 x1 x2 x3 x4 x5 x6 x7 x8 x9 x10 x11 x12 x13 x14 x15 x16 x17 v x19 x20 x21 x22 x23 x24
  end.
Definition set_InvalidEnd (v : Z) (s : Series) : Series :=
  match s with
  | mk
      x0 x1 x2 x3 x4 x5 x6 x7 x8 x9 x10 x11 x12 x13 x14 x15 x16 x17 x18 _ x20 x21 x22 x23 x24 =>
    mk
      x0 x1 x2 x3 x4 x5 x6 x7 x8 x9 x10 x11 x12 x13 x14 x15 x16 x17 x18 v x20 x21 x22 x23 x24
  end.
Definition set_Duplicates (v : Z) (s : Series) : Series :=
  match s with
  | mk
      x0 x1 x2 x3 x4 x5 x6 x7 x8 x9 x10 x11 x12 x13 x14 x15 x16 x17 x18 x19 _ x21 x22 x23 x24 =>
    mk
      x0 x1 x2 x3 x4 x5 x6 x7 x8 x9 x10 x11 x12 x13 x14 x15 x16 x17 x18 x19 v x21 x22 x23 x24
  end.
Definition set_MisalignedExamples (v : list TimeExample) (s : Series) : Series :=
  match s with
  | mk
      x0 x1 x2 x3 x4 x5 x6 x7 x8 x9 x10 x11 x12 x13 x14 x15 x16 x17 x18 x19 x20 _ x22 x23 x24 =>
    mk
      x0 x1 x2 x3 x4 x5 x6 x7 x8 x9 x10 x11 x12 x13 x14 x15 x16 x17 x18 x19 x20 v x22 x23 x24
  end.
Definition set_InvalidEndExamples (v : list TimeExample) (s : Series) : Series :=
  match s with
  | mk
      x0 x1 x2 x3 x4 x5 x6 x7 x8 x9 x10 x11 x12 x13 x14 x15 x16 x17 x18 x19 x20 x21 _ x23 x24 =>
    mk
      x0 x1 x2 x3 x4 x5 x6 x7 x8 x9 x10 x11 x12 x13 x14 x15 x16 x17 x18 x19 x20 x21 v x23 x24
  end.
Definition set_TailLagCandidate (v : bool) (s : Series) : Series :=
  match s with
  | mk
      x0 x1 x2 x3 x4 x5 x6 x7 x8 x9 x10 x11 x12 x13 x14 x15 x16 x17 x18 x19 x20 x21 x22 _ x24 =>
    mk
      x0 x1 x2 x3 x4 x5 x6 x7 x8 x9 x10 x11 x12 x13 x14 x15 x16 x17 x18 x19 x20 x21 x22 v x24
  end.
Definition set_TailLagBuckets (v : Z) (s : Series) : Series :=
  match s with
  | mk
      x0 x1 x2 x3 x4 x5 x6 x7 x8 x9 x10 x11 x12 x13 x14 x15 x16 x17 x18 x19 x20 x21 x22 x23 _ =>
    mk
      x0 x1 x2 x3 x4 x5 x6 x7 x8 x9 x10 x11 x12 x13 x14 x15 x16 x17 x18 x19 x20 x21 x22 x23 v
  end.
End Series.
Notation Series := Series.Series.

Module Result.
Record Result : Type := mk {
  Exchange : string;
  Timeframe : string;
  SeriesCount : Z;
  SeriesWithData : Z;
  NoDataSeries : Z;
  BarCount : Z;
  CanonicalBars : Z;
  SeriesWithGaps : Z;
  GapRanges : Z;
  Missing : Z;
  SeriesWithMisalignment : Z;
  Misaligned : Z;
  InvalidStart : Z;
  InvalidEnd : Z;
  Duplicates : Z;
  TailLagSeries : Z;
  LatestCompletedMS : Z;
  LatestCompleted : string;
  FirstMS : Z;
  LastMS : Z;
  First : string;
  Last : string;
  series : list Series;
  IssueSeries : list Series;
}.
Definition set_SeriesCount (v : Z) (s : Result) : Result :=
  match s with
  | mk
      x0 x1 _ x3 x4 x5 x6 x7 x8 x9 x10 x11 x12 x13 x14 x15 x16 x17 x18 x19 x20 x21 x22 x23 =>
    mk
      x0 x1 v x3 x4 x5 x6 x7 x8 x9 x10 x11 x12 x13 x14 x15 x16 x17 x18 x19 x20 x21 x22 x23
  end.
Definition set_SeriesWithData (v : Z) (s : Result) : Result :=
  match s with
  | mk
      x0 x1 x2 _ x4 x5 x6 x7 x8 x9 x10 x11 x12 x13 x14 x15 x16 x17 x18 x19 x20 x21 x22 x23 =>
    mk
      x0 x1 x2 v x4 x5 x6 x7 x8 x9 x10 x11 x12 x13 x14 x15 x16 x17 x18 x19 x20 x21 x22 x23
  end.
Definition set_NoDataSeries (v : Z) (s : Result) : Result :=
  match s with
  | mk
      x0 x1 x2 x3 _ x5 x6 x7 x8 x9 x10 x11 x12 x13 x14 x15 x16 x17 x18 x19 x20 x21 x22 x23 =>
    mk
      x0 x1 x2 x3 v x5 x6 x7 x8 x9 x10 x11 x12 x13 x14 x15 x16 x17 x18 x19 x20 x21 x22 x23
  end.
Definition set_BarCount (v : Z) (s : Result) : Result :=
  match s with
  | mk
      x0 x1 x2 x3 x4 _ x6 x7 x8 x9 x10 x11 x12 x13 x14 x15 x16 x17 x18 x19 x20 x21 x22 x23 =>
    mk
      x0 x1 x2 x3 x4 v x6 x7 x8 x9 x10 x11 x12 x13 x14 x15 x16 x17 x18 x19 x20 x21 x22 x23
  end.
Definition set_CanonicalBars (v : Z) (s : Result) : Result :=
  match s with
  | mk
      x0 x1 x2 x3 x4 x5 _ x7 x8 x9 x10 x11 x12 x13 x14 x15 x16 x17 x18 x19 x20 x21 x22 x23 =>
    mk
      x0 x1 x2 x3 x4 x5 v x7 x8 x9 x10 x11 x12 x13 x14 x15 x16 x17 x18 x19 x20 x21 x22 x23
  end.
Definition set_SeriesWithGaps (v : Z) (s : Result) : Result :=
  match s with
  | mk
      x0 x1 x2 x3 x4 x5 x6 _ x8 x9 x10 x11 x12 x13 x14 x15 x16 x17 x18 x19 x20 x21 x22 x23 =>
    mk
      x0 x1 x2 x3 x4 x5 x6 v x8 x9 x10 x11 x12 x13 x14 x15 x16 x17 x18 x19 x20 x21 x22 x23
  end.
Definition set_GapRanges (v : Z) (s : Result) : Result :=
  match s with
  | mk
      x0 x1 x2 x3 x4 x5 x6 x7 _ x9 x10 x11 x12 x13 x14 x15 x16 x17 x18 x19 x20 x21 x22 x23 =>
    mk
      x0 x1 x2 x3 x4 x5 x6 x7 v x9 x10 x11 x12 x13 x14 x15 x16 x17 x18 x19 x20 x21 x22 x23
  end.
Definition set_Missing (v : Z) (s : Result) : Result :=
  match s with
  | mk
      x0 x1 x2 x3 x4 x5 x6 x7 x8 _ x10 x11 x12 x13 x14 x15 x16 x17 x18 x19 x20 x21 x22 x23 =>
    mk
      x0 x1 x2 x3 x4 x5 x6 x7 x8 v x10 x11 x12 x13 x14 x15 x16 x17 x18 x19 x20 x21 x22 x23
  end.
Definition set_SeriesWithMisalignment (v : Z) (s : Result) : Result :=
  match s with
  | mk
      x0 x1 x2 x3 x4 x5 x6 x7 x8 x9 _ x11 x12 x13 x14 x15 x16 x17 x18 x19 x20 x21 x22 x23 =>
    mk
      x0 x1 x2 x3 x4 x5 x6 x7 x8 x9 v x11 x12 x13 x14 x15 x16 x17 x18 x19 x20 x21 x22 x23
  end.
Definition set_Misaligned (v : Z) (s : Result) : Result :=
  match s with
  | mk
      x0 x1 x2 x3 x4 x5 x6 x7 x8 x9 x10 _ x12 x13 x14 x15 x16 x17 x18 x19 x20 x21 x22 x23 =>
    mk
      x0 x1 x2 x3 x4 x5 x6 x7 x8 x9 x10 v x12 x13 x14 x15 x16 x17 x18 x19 x20 x21 x22 x23
  end.
Definition set_InvalidStart (v : Z) (s : Result) : Result :=
  match s with
  | mk
      x0 x1 x2 x3 x4 x5 x6 x7 x8 x9 x10 x11 _ x13 x14 x15 x16 x17 x18 x19 x20 x21 x22 x23 =>
    mk
      x0 x1 x2 x3 x4 x5 x6 x7 x8 x9 x10 x11 v x13 x14 x15 x16 x17 x18 x19 x20 x21 x22 x23
  end.
Definition set_InvalidEnd (v : Z) (s : Result) : Result :=
  match s with
  | mk
      x0 x1 x2 x3 x4 x5 x6 x7 x8 x9 x10 x11 x12 _ x14 x15 x16 x17 x18 x19 x20 x21 x22 x23 =>
    mk
      x0 x1 x2 x3 x4 x5 x6 x7 x8 x9 x10 x11 x12 v x14 x15 x16 x17 x18 x19 x20 x21 x22 x23
  end.
Definition set_Duplicates (v : Z) (s : Result) : Result :=
  match s with
  | mk
      x0 x1 x2 x3 x4 x5 x6 x7 x8 x9 x10 x11 x12 x13 _ x15 x16 x17 x18 x19 x20 x21 x22 x23 =>
    mk
      x0 x1 x2 x3 x4 x5 x6 x7 x8 x9 x10 x11 x12 x13 v x15 x16 x17 x18 x19 x20 x21 x22 x23
  end.
Definition set_TailLagSeries (v : Z) (s : Result) : Result :=
  match s with
  | mk
      x0 x1 x2 x3 x4 x5 x6 x7 x8 x9 x10 x11 x12 x13 x14 _ x16 x17 x18 x19 x20 x21 x22 x23 =>
    mk
      x0 x1 x2 x3 x4 x5 x6 x7 x8 x9 x10 x11 x12 x13 x14 v x16 x17 x18 x19 x20 x21 x22 x23
  end.
Definition set_FirstMS (v : Z) (s : Result) : Result :=
  match s with
  | mk
      x0 x1 x2 x3 x4 x5 x6 x7 x8 x9 x10 x11 x12 x13 x14 x15 x16 x17 _ x19 x20 x21 x22 x23 =>
    mk
      x0 x1 x2 x3 x4 x5 x6 x7 x8 x9 x10 x11 x12 x13 x14 x15 x16 x17 v x19 x20 x21 x22 x23
  end.
Definition set_LastMS (v : Z) (s : Result) : Result :=
  match s with
  | mk
      x0 x1 x2 x3 x4 x5 x6 x7 x8 x9 x10 x11 x12 x13 x14 x15 x16 x17 x18 _ x20 x21 x22 x23 =>
    mk
      x0 x1 x2 x3 x4 x5 x6 x7 x8 x9 x10 x11 x12 x13 x14 x15 x16 x17 x18 v x20 x21 x22 x23
  end.
Definition set_First (v : string) (s : Result) : Result :=
  match s with
  | mk
      x0 x1 x2 x3 x4 x5 x6 x7 x8 x9 x10 x11 x12 x13 x14 x15 x16 x17 x18 x19 _ x21 x22 x23 =>
    mk
      x0 x1 x2 x3 x4 x5 x6 x7 x8 x9 x10 x11 x12 x13 x14 x15 x16 x17 x18 x19 v x21 x22 x23
  end.
Definition set_Last (v : string) (s : Result) : Result :=
  match s with
  | mk
      x0 x1 x2 x3 x4 x5 x6 x7 x8 x9 x10 x11 x12 x13 x14 x15 x16 x17 x18 x19 x20 _ x22 x23 =>
    mk
      x0 x1 x2 x3 x4 x5 x6 x7 x8 x9 x10 x11 x12 x13 x14 x15 x16 x17 x18 x19 x20 v x22 x23
  end.
Definition set_series (v : list Series) (s : Result) : Result :=
  match s with
  | mk
      x0 x1 x2 x3 x4 x5 x6 x7 x8 x9 x10 x11 x12 x13 x14 x15 x16 x17 x18 x19 x20 x21 _ x23 =>
    mk
      x0 x1 x2 x3 x4 x5 x6 x7 x8 x9 x10 x11 x12 x13 x14 x15 x16 x17 x18 x19 x20 x21 v x23
  end.
Definition set_IssueSeries (v : list Series) (s : Result) : Result :=
  match s with
  | mk
      x0 x1 x2 x3 x4 x5 x6 x7 x8 x9 x10 x11 x12 x13 x14 x15 x16 x17 x18 x19 x20 x21 x22 _ =>
    mk
      x0 x1 x2 x3 x4 x5 x6 x7 x8 x9 x10 x11 x12 x13 x14 x15 x16 x17 x18 x19 x20 x21 x22 v
  end.
End Result.
Notation Result := Result.Result.

Module Accumulator.
Record Accumulator : Type := mk {
  exchange : string;
  tf : Frame;
  latest : Z;
  series : gmap string Series;
  lastSymbol : string;
  lastStart : Z;
  hasRow : bool;
  closedSymbols : gset string;
}.
End Accumulator.
Notation Accumulator := Accumulator.Accumulator.

(** ** Formatting: [time.UnixMilli(ms).UTC().Format(time.RFC3339)] *)

Fixpoint zeros (n : nat) : string := match n with O => "" | S n' => ("0" ++ zeros n')%string end.
Definition append_int (width : nat) (n : Z) : string :=
  let digits := pretty (Z.to_N (Z.abs n)) in
  ((if (n <? 0)%Z then "-" else "") ++ zeros (width - String.length digits) ++ digits)%string.

Definition FormatMS (ms : Z) : string :=
  if ms =? 0 then ""
  else
    let clock := clock_of ms / 1000 in
    (append_int 4 (Year ms) ++ "-" ++ append_int 2 (Month ms) ++ "-" ++ append_int 2 (Day ms) ++ "T"
     ++ append_int 2 (clock / 3600) ++ ":" ++ append_int 2 (clock / 60 mod 60) ++ ":"
     ++ append_int 2 (clock mod 60) ++ "Z")%string.

(** ** Operations *)

Definition LatestCompletedStart (tf : Frame) (asOf : Z) : Z :=
  let watermark := i64 (asOf - FinalityGrace_ms) in
  let start := FloorStartMS watermark tf in
  if watermark <? EndMS start tf then PreviousStartMS start tf else start.

(** [&Series{Metadata: m, ...}] of [addSeries]. *)
Definition new_series (tf : Frame) (latest : Z) (m : Metadata) : Series :=
  Series.mk m (frame_name tf) "" 0 0 0 0 0 0 "" "" 0 0 latest (FormatMS latest) 0 [] 0 0 0 0 [] [] false 0.

Definition addSeries (m : Metadata) (a : Accumulator) : Accumulator :=
  Accumulator.mk a.(Accumulator.exchange) a.(Accumulator.tf) a.(Accumulator.latest)
    (<[m.(Metadata.Symbol) := new_series a.(Accumulator.tf) a.(Accumulator.latest) m]> a.(Accumulator.series))
    a.(Accumulator.lastSymbol) a.(Accumulator.lastStart) a.(Accumulator.hasRow) a.(Accumulator.closedSymbols).

Definition New (exchange tf : string) (asOf : Z) (registry : list Metadata) : result tf_error Accumulator :=
  match Normalize tf with
  | Err e => Err e
  | Ok f =>
      Ok (foldl (fun a m =>
            if bool_decide (m.(Metadata.Exchange) = exchange)
            then addSeries (Metadata.set_InRegistry true m) a else a)
          (Accumulator.mk exchange f (LatestCompletedStart f asOf) ∅ "" 0 false ∅) registry)
  end.

(** [BucketCount]: the starts from [first] to [last], both included. *)
Definition BucketCount (first last : Z) (tf : Frame) : Z :=
  if last <? first then 0
  else
    match monthFrames tf with
    | Some step => i64 (Z.quot ((Year last - Year first) * 12 + Month last - Month first) step + 1)
    | None => i64 (Z.quot (i64 (last - first)) (i64 (NextStartMS first tf - first)) + 1)
    end.

(** The counters every row of the audited range moves. *)
Definition count_row (row : Row) (s : Series) : Series :=
  let s := Series.set_Bars (i64 (s.(Series.Bars) + 1)) s in
  let s := Series.set_ActualBars (i64 (s.(Series.ActualBars) + 1)) s in
  let s := if s.(Series.Bars) =? 1
           then Series.set_First (FormatMS row.(Row.StartMS)) (Series.set_FirstMS row.(Row.StartMS) s)
           else s in
  Series.set_Last (FormatMS row.(Row.StartMS)) (Series.set_LastMS row.(Row.StartMS) s).

(** At most eight examples of a kind are kept. *)
Definition add_example (row : Row) (examples : list TimeExample) : list TimeExample :=
  if Z.of_nat (length examples) <? 8
  then examples ++ [TimeExample.mk row.(Row.StartMS) row.(Row.EndMS)] else examples.

Definition check_end (tf : Frame) (row : Row) (s : Series) : Series :=
  if row.(Row.EndMS) =? EndMS row.(Row.StartMS) tf then s
  else
    let s := Series.set_InvalidEnd (i64 (s.(Series.InvalidEnd) + 1)) s in
    Series.set_InvalidEndExamples (add_example row s.(Series.InvalidEndExamples)) s.

(** A canonical row after a canonical row: what lies between is missing. *)
Definition add_gap (exchange : string) (tf : Frame) (row : Row) (s : Series) : Series :=
  let first := NextStartMS s.(Series.LastCanonicalMS) tf in
  if first <? row.(Row.StartMS) then
    let last := PreviousStartMS row.(Row.StartMS) tf in
    let count := BucketCount first last tf in
    let s := Series.set_InternalMissing (i64 (s.(Series.InternalMissing) + count)) s in
    Series.set_GapRanges
      (s.(Series.GapRanges) ++
        [Gap.mk exchange row.(Row.Symbol) (frame_name tf) s.(Series.LastCanonicalMS) row.(Row.StartMS) first last
           (FormatMS first) (FormatMS last) (FormatMS s.(Series.LastCanonicalMS)) (FormatMS row.(Row.StartMS))
           count]) s
  else s.

Definition add_canonical (exchange : string) (tf : Frame) (row : Row) (s : Series) : Series :=
  let s := if s.(Series.CanonicalBars) =? 0 then Series.set_FirstCanonicalMS row.(Row.StartMS) s
           else add_gap exchange tf row s in
  let s := Series.set_LastCanonicalMS row.(Row.StartMS) s in
  Series.set_CanonicalBars (i64 (s.(Series.CanonicalBars) + 1)) s.

(** The part of [Add] that changes the series of the row. *)
Definition observe (exchange : string) (tf : Frame) (duplicate : bool) (row : Row) (s : Series) : Series :=
  let s := count_row row s in
  if duplicate then Series.set_Duplicates (i64 (s.(Series.Duplicates) + 1)) s
  else if row.(Row.StartMS) <=? 0 then Series.set_InvalidStart (i64 (s.(Series.InvalidStart) + 1)) s
  else
    let s := check_end tf row s in
    if negb (FloorStartMS row.(Row.StartMS) tf =? row.(Row.StartMS)) then
      let s := Series.set_Misaligned (i64 (s.(Series.Misaligned) + 1)) s in
      Series.set_MisalignedExamples (add_example row s.(Series.MisalignedExamples)) s
    else add_canonical exchange tf row s.

(** [Metadata{Exchange: a.exchange, Symbol: row.Symbol}]. *)
Definition unregistered (exchange symbol : string) : Metadata :=
  Metadata.mk exchange symbol "" "" "" "" "" "" false false 0 0 "".

Definition Add (row : Row) (a : Accumulator) : option go_error * Accumulator :=
  if bool_decide (row.(Row.Symbol) = "") then (Some (Errorf "empty symbol"), a)
  else
    let same := a.(Accumulator.hasRow) && bool_decide (row.(Row.Symbol) = a.(Accumulator.lastSymbol)) in
    let closed := if a.(Accumulator.hasRow) && negb (bool_decide (row.(Row.Symbol) = a.(Accumulator.lastSymbol)))
                  then {[a.(Accumulator.lastSymbol)]} ∪ a.(Accumulator.closedSymbols)
                  else a.(Accumulator.closedSymbols) in
    if bool_decide (row.(Row.Symbol) ∈ closed) || (same && (row.(Row.StartMS) <? a.(Accumulator.lastStart)))
    then (Some (Errorf "timestamp stream is not ordered"),
          Accumulator.mk a.(Accumulator.exchange) a.(Accumulator.tf) a.(Accumulator.latest) a.(Accumulator.series)
            a.(Accumulator.lastSymbol) a.(Accumulator.lastStart) a.(Accumulator.hasRow) closed)
    else
      let duplicate := same && (row.(Row.StartMS) =? a.(Accumulator.lastStart)) in
      let series :=
        if NextStartMS a.(Accumulator.latest) a.(Accumulator.tf) <=? row.(Row.StartMS) then a.(Accumulator.series)
        else
          let s := default (new_series a.(Accumulator.tf) a.(Accumulator.latest)
                              (unregistered a.(Accumulator.exchange) row.(Row.Symbol)))
                     (a.(Accumulator.series) !! row.(Row.Symbol)) in
          <[row.(Row.Symbol) := observe a.(Accumulator.exchange) a.(Accumulator.tf) duplicate row s]>
            a.(Accumulator.series) in
      (None, Accumulator.mk a.(Accumulator.exchange) a.(Accumulator.tf) a.(Accumulator.latest) series
               row.(Row.Symbol) row.(Row.StartMS) true closed).

(** *** [Finish] *)

(** [s.Status]: the last assignment whose condition holds. *)
Definition series_status (s : Series) : string :=
  if (0 <? s.(Series.Misaligned)) || (0 <? s.(Series.InvalidStart)) || (0 <? s.(Series.InvalidEnd))
     || (0 <? s.(Series.Duplicates)) then "time_anomaly"
  else if 0 <? s.(Series.InternalMissing) then "internal_gaps"
  else if s.(Series.Bars) =? 0 then "no_data"
  else "continuous".

(** The last fields of a series. *)
Definition finish_series (tf : Frame) (latest : Z) (s : Series) : Series :=
  let status := series_status s in
  let s := Series.set_ExpectedInteriorCount (i64 (s.(Series.CanonicalBars) + s.(Series.InternalMissing))) s in
  let s := Series.set_Status status s in
  if s.(Series.metadata).(Metadata.Active) && (0 <? s.(Series.CanonicalBars))
     && (s.(Series.LastCanonicalMS) <? latest)
  then Series.set_TailLagBuckets (BucketCount (NextStartMS s.(Series.LastCanonicalMS) tf) latest tf)
         (Series.set_TailLagCandidate true s)
  else s.

Definition bump (b : bool) (n : Z) : Z := if b then n + 1 else n.

(** What the series adds to the totals; [s] is finished. *)
Definition count_data (s : Series) (r : Result) : Result :=
  if s.(Series.Bars) =? 0 then Result.set_NoDataSeries (r.(Result.NoDataSeries) + 1) r
  else
    let r := Result.set_SeriesWithData (r.(Result.SeriesWithData) + 1) r in
    let r := if (r.(Result.FirstMS) =? 0) || (s.(Series.FirstMS) <? r.(Result.FirstMS))
             then Result.set_FirstMS s.(Series.FirstMS) r else r in
    if r.(Result.LastMS) <? s.(Series.LastMS) then Result.set_LastMS s.(Series.LastMS) r else r.

Definition count_issues (s : Series) (r : Result) : Result :=
  Result.set_SeriesWithGaps (bump (0 <? s.(Series.InternalMissing)) r.(Result.SeriesWithGaps))
    (Result.set_SeriesWithMisalignment (bump (0 <? s.(Series.Misaligned)) r.(Result.SeriesWithMisalignment))
       (Result.set_TailLagSeries (bump s.(Series.TailLagCandidate) r.(Result.TailLagSeries)) r)).

Definition add_totals (s : Series) (r : Result) : Result :=
  Result.set_BarCount (i64 (r.(Result.BarCount) + s.(Series.Bars)))
    (Result.set_CanonicalBars (i64 (r.(Result.CanonicalBars) + s.(Series.CanonicalBars)))
      (Result.set_GapRanges (r.(Result.GapRanges) + Z.of_nat (length s.(Series.GapRanges)))
        (Result.set_Missing (i64 (r.(Result.Missing) + s.(Series.InternalMissing)))
          (Result.set_Misaligned (i64 (r.(Result.Misaligned) + s.(Series.Misaligned)))
            (Result.set_InvalidStart (i64 (r.(Result.InvalidStart) + s.(Series.InvalidStart)))
              (Result.set_InvalidEnd (i64 (r.(Result.InvalidEnd) + s.(Series.InvalidEnd)))
                (Result.set_Duplicates (i64 (r.(Result.Duplicates) + s.(Series.Duplicates))) r))))))).

Definition keep_series (s : Series) (r : Result) : Result :=
  let r := Result.set_series (r.(Result.series) ++ [s]) r in
  if bool_decide (s.(Series.Status) = "continuous") then r
  else Result.set_IssueSeries (r.(Result.IssueSeries) ++ [s]) r.

Definition add_result (s : Series) (r : Result) : Result :=
  keep_series s (add_totals s (count_issues s (count_data s r))).

(** The series in the order of the loop. *)
Definition finished (a : Accumulator) : list Series :=
  omap (fun key => finish_series a.(Accumulator.tf) a.(Accumulator.latest) <$> a.(Accumulator.series) !! key)
    (sort_strings (fst <$> map_to_list a.(Accumulator.series))).

Definition empty_result (a : Accumulator) : Result :=
  Result.mk a.(Accumulator.exchange) (frame_name a.(Accumulator.tf)) 0 0 0 0 0 0 0 0 0 0 0 0 0 0
    a.(Accumulator.latest) (FormatMS a.(Accumulator.latest)) 0 0 "" "" [] [].

Definition Finish (a : Accumulator) : Result :=
  let r := foldl (fun r s => add_result s r) (empty_result a) (finished a) in
  let r := Result.set_SeriesCount (Z.of_nat (length r.(Result.series))) r in
  let r := Result.set_First (FormatMS r.(Result.FirstMS)) r in
  Result.set_Last (FormatMS r.(Result.LastMS)) r.

(** *** [CompleteUniverse] *)

Definition series_symbol (s : Series) : string := s.(Series.metadata).(Metadata.Symbol).

(** The loop over the universe; [present] is the set of symbols seen. *)
Fixpoint absent_series (exchange tf : string) (latest : Z) (latestText : string) (present : gset string)
    (universe : list Metadata) : list Series :=
  match universe with
  | [] => []
  | m :: rest =>
      if negb (bool_decide (m.(Metadata.Exchange) = exchange)) || bool_decide (m.(Metadata.Symbol) ∈ present)
      then absent_series exchange tf latest latestText present rest
      else Series.mk m tf "no_data" 0 0 0 0 0 0 "" "" 0 0 latest latestText 0 [] 0 0 0 0 [] [] false 0
             :: absent_series exchange tf latest latestText ({[m.(Metadata.Symbol)]} ∪ present) rest
  end.

Definition CompleteUniverse (result : Result) (universe : list Metadata) : Result :=
  let added := absent_series result.(Result.Exchange) result.(Result.Timeframe) result.(Result.LatestCompletedMS)
                 result.(Result.LatestCompleted) (list_to_set (series_symbol <$> result.(Result.series))) universe in
  let n := Z.of_nat (length added) in
  let result := Result.set_SeriesCount (result.(Result.SeriesCount) + n) result in
  let result := Result.set_NoDataSeries (result.(Result.NoDataSeries) + n) result in
  let result := Result.set_series
                  (sort_slice (less_str series_symbol) (result.(Result.series) ++ added)) result in
  Result.set_IssueSeries (sort_slice (less_str series_symbol) (result.(Result.IssueSeries) ++ added)) result.

(** The rows of a stream; the first error stops the caller. *)
Fixpoint add_rows (rows : list Row) (a : Accumulator) : option go_error * Accumulator :=
  match rows with
  | [] => (None, a)
  | row :: rest => match Add row a with (None, a') => add_rows rest a' | failed => failed end
  end.

(** ** Counting buckets *)

Lemma month_index_grid f n k :
  fixedMinuteFrames f = None → dayFrames f = None → weekFrames f = None → monthFrames f = Some n →
  Year (grid f k) * 12 + (Month (grid f k) - 1) = 23640 + k * n.
Proof.
  intros Hm Hd Hw Hn. change (month_index (grid f k) = 23640 + k * n).
  destruct (month_index_spec (grid f k)) as [_ H].
  assert (day_of (grid f k) = month_start (23640 + k * n)) as Hday.
  { unfold grid. rewrite Hm, Hd, Hw, Hn. unfold day_of. change DayMS with DayMs. simpl.
    apply Z.div_mul. done. }
  apply (month_start_unique _ _ (day_of (grid f k))); [done|]. rewrite Hday.
  pose proof (month_length (23640 + k * n)). lia.
Qed.

Lemma BucketCount_grid f i j :
  0 <= i <= j + 1 → grid f j <= MaxTS + 100 * DayMS → BucketCount (grid f i) (grid f j) f = j - i + 1.
Proof.
  intros Hij Hmax. unfold BucketCount. destruct (Z.ltb_spec (grid f j) (grid f i)) as [Hl|Hl].
  { apply grid_lt in Hl. lia. }
  apply grid_le in Hl.
  pose proof (grid_nonneg f i ltac:(lia)) as Hi0. pose proof (grid_mono f 0 j ltac:(lia)) as Hj.
  pose proof (grid_nonneg f 0 ltac:(lia)) as H00.
  assert (0 <= j <= 200000000000) as Hjr by (unfold MaxTS, DayMS, MinuteMS in *; lia).
  destruct (monthFrames f) as [n|] eqn:En.
  - assert (fixedMinuteFrames f = None ∧ dayFrames f = None ∧ weekFrames f = None) as (Em & Ed & Ew)
      by (by destruct f).
    pose proof (month_index_grid f n i Em Ed Ew En). pose proof (month_index_grid f n j Em Ed Ew En).
    replace ((Year (grid f j) - Year (grid f i)) * 12 + Month (grid f j) - Month (grid f i)) with ((j - i) * n) by lia.
    assert (n ≠ 0) by (intros ->; by destruct f). rewrite Z.quot_mul by done.
    apply i64_id. unfold int64_range, two63. lia.
  - rewrite next_grid by (apply steppable_dom; pose proof (grid_le f i j); unfold DayMS in *; lia).
    assert (∃ c, MinuteMS <= c <= 93 * DayMS ∧ grid f (i + 1) - grid f i = c ∧ grid f j - grid f i = (j - i) * c)
      as (c & Hc & E1 & E2).
    { pose proof (grid_step f i) as Hs. exists (grid f (i + 1) - grid f i). split; [lia|]. split; [done|].
      clear Hmax Hi0 Hj H00 Hs Hl.
      destruct f; try done; cbn [grid fixedMinuteFrames dayFrames weekFrames]; unfold MinuteMS, DayMS; lia. }
    assert (0 <= (j - i) * c <= MaxTS + 100 * DayMS) 
      by (split; [apply Z.mul_nonneg_nonneg; unfold MinuteMS in *; lia|lia]).
    rewrite E1, E2.
    unfold MinuteMS, MaxTS, DayMS in *.
    rewrite (i64_id ((j - i) * c)), (i64_id c) by (unfold int64_range, two63; lia).
    rewrite Z.quot_mul by lia. apply i64_id. unfold int64_range, two63. lia.
Qed.

(** ** One series *)

(** What a gap of the series says, in bucket numbers: [cs] are the numbers of the
    canonical rows so far. *)
Definition gap_ok (f : Frame) (cs : list Z) (g : Gap) : Prop :=
  ∃ a b, a ∈ cs ∧ b ∈ cs ∧ a + 1 < b ∧ g.(Gap.PreviousStartMS) = grid f a ∧ g.(Gap.NextStartMS) = grid f b ∧
    g.(Gap.FirstMS) = grid f (a + 1) ∧ g.(Gap.LastMS) = grid f (b - 1) ∧ g.(Gap.Count) = b - a - 1 ∧
    (∀ k, a < k < b → k ∉ cs).

Definition in_gap (gaps : list Gap) (x : Z) : Prop := ∃ g, g ∈ gaps ∧ g.(Gap.FirstMS) <= x <= g.(Gap.LastMS).

(** The part of a series that only canonical rows change. *)
Definition anchors (s : Series) : Z * Z * Z * Z * list Gap :=
  (s.(Series.CanonicalBars), s.(Series.FirstCanonicalMS), s.(Series.LastCanonicalMS),
   s.(Series.InternalMissing), s.(Series.GapRanges)).

(** The part of a series that every row moves. *)
Record counted (n c : Z) (s : Series) : Prop := {
  c_bars : s.(Series.Bars) = n;
  c_actual : s.(Series.ActualBars) = n;
  c_parts : n = c + s.(Series.Misaligned) + s.(Series.InvalidStart) + s.(Series.Duplicates);
  c_nonneg : 0 <= c ∧ 0 <= s.(Series.Misaligned) ∧ 0 <= s.(Series.InvalidStart) ∧ 0 <= s.(Series.Duplicates);
  c_ends : 0 <= s.(Series.InvalidEnd) <= n;
}.

Record anchored (f : Frame) (cs : list Z) (a : Z * Z * Z * Z * list Gap) : Prop := {
  a_canonical : a.1.1.1.1 = Z.of_nat (length cs);
  a_sorted : key_sorted id cs;
  a_range : ∀ k, k ∈ cs → 0 <= k ∧ grid f k <= MaxTS;
  a_none : cs = [] → a.1.2 = 0 ∧ a.2 = [];
  a_some : ∀ x y, head cs = Some x → last cs = Some y →
    a.1.1.1.2 = grid f x ∧ a.1.1.2 = grid f y ∧ a.1.2 = y - x + 1 - Z.of_nat (length cs) ∧
    (∀ k, x <= k <= y → k ∉ cs → in_gap a.2 (grid f k));
  a_gaps : Forall (gap_ok f cs) a.2;
  a_sum : a.1.2 = foldr Z.add 0 (Gap.Count <$> a.2);
}.

Lemma head_last_sorted (cs : list Z) x y :
  key_sorted id cs → head cs = Some x → last cs = Some y → ∀ k, k ∈ cs → x <= k <= y.
Proof.
  intros Hs. revert x. induction Hs as [|c cs Hs IH Hall]; intros x Hh Hl k Hk; [done|].
  injection Hh as ->. rewrite Forall_forall in Hall.
  destruct cs as [|c cs]; [injection Hl as ->; apply list_elem_of_singleton in Hk as ->; lia|].
  change (last (x :: c :: cs)) with (last (c :: cs)) in Hl. specialize (IH c eq_refl Hl).
  pose proof (Hall c ltac:(by left)) as Hc. simpl in Hc.
  apply elem_of_cons in Hk as [->|Hk]; [specialize (IH c ltac:(by left)); lia|].
  specialize (IH k Hk). lia.
Qed.

Lemma grid_range f k : 0 <= k → grid f k <= MaxTS → k <= 200000000000.
Proof.
  intros Hk Hm. pose proof (grid_mono f 0 k Hk). pose proof (grid_nonneg f 0 ltac:(lia)).
  unfold MinuteMS, MaxTS in *. lia.
Qed.

Lemma gap_counts_nonneg f cs gaps : Forall (gap_ok f cs) gaps → 0 <= foldr Z.add 0 (Gap.Count <$> gaps).
Proof.
  induction 1 as [|g gs (a & b & _ & _ & Hab & _ & _ & _ & _ & Hc & _) Hgs IH]; [done|].
  rewrite fmap_cons. simpl. lia.
Qed.

Lemma foldr_add_app l1 l2 : foldr Z.add 0 (l1 ++ l2) = foldr Z.add 0 l1 + foldr Z.add 0 l2.
Proof. induction l1 as [|x l1 IH]; simpl; lia. Qed.

(** A gap stays one when a later row comes. *)
Lemma gap_ok_later f cs k g : (∀ j, j ∈ cs → j < k) → gap_ok f cs g → gap_ok f (cs ++ [k]) g.
Proof.
  intros Hlt (a & b & Ha & Hb & Hab & Hp & Hn & Hf & Hl & Hc & Hno). exists a, b.
  split_and!; try done; try (apply elem_of_app; by left).
  intros j Hj [Hin|Hin]%elem_of_app; [by apply (Hno j)|]. apply list_elem_of_singleton in Hin as ->.
  specialize (Hlt b Hb). lia.
Qed.

Lemma in_gap_app gaps1 gaps2 x : in_gap (gaps1 ++ gaps2) x ↔ in_gap gaps1 x ∨ in_gap gaps2 x.
Proof.
  unfold in_gap. split.
  - intros (g & [?|?]%elem_of_app & ?); [left|right]; eauto.
  - intros [(g & ? & ?)|(g & ? & ?)]; exists g; (split; [apply elem_of_app; auto|done]).
Qed.

(** [add_canonical] on that part. *)
Definition gap_of (exchange symbol : string) (f : Frame) (last start : Z) : Gap :=
  let first := NextStartMS last f in
  let last_missing := PreviousStartMS start f in
  Gap.mk exchange symbol (frame_name f) last start first last_missing (FormatMS first) (FormatMS last_missing)
    (FormatMS last) (FormatMS start) (BucketCount first last_missing f).

Definition add_anchor (exchange symbol : string) (f : Frame) (start : Z) (a : Z * Z * Z * Z * list Gap)
    : Z * Z * Z * Z * list Gap :=
  let '(c, first, last, missing, gaps) := a in
  if c =? 0 then (i64 (c + 1), start, start, missing, gaps)
  else if NextStartMS last f <? start
  then (i64 (c + 1), first, start, i64 (missing + (gap_of exchange symbol f last start).(Gap.Count)),
        gaps ++ [gap_of exchange symbol f last start])
  else (i64 (c + 1), first, start, missing, gaps).

Lemma anchors_add exchange f row s :
  anchors (add_canonical exchange f row s) =
  add_anchor exchange row.(Row.Symbol) f row.(Row.StartMS) (anchors s).
Proof.
  unfold add_canonical, add_gap, anchors, add_anchor. destruct s; simpl.
  case_bool; simpl; [done|]. case_bool; done.
Qed.

(** The canonical row of bucket [k], later than all before. *)
Lemma anchored_add f cs exchange symbol k a :
  anchored f cs a → (∀ j, j ∈ cs → j < k) → 0 <= k → grid f k <= MaxTS → Z.of_nat (length cs) + 1 < two63 →
  anchored f (cs ++ [k]) (add_anchor exchange symbol f (grid f k) a).
Proof.
  intros [H1 H2 H3 H4 H5 H6 H7] Hlt Hk Hmax Hlen. destruct a as [[[[c first] las] missing] gaps].
  cbn [fst snd] in *. subst c. pose proof (grid_range f k Hk Hmax) as Hkr.
  assert (key_sorted id (cs ++ [k])) as Hsorted.
  { apply StronglySorted_app_2; [|done|by repeat constructor].
    intros x y Hx ->%list_elem_of_singleton. by apply Hlt. }
  assert (∀ j, j ∈ cs ++ [k] → 0 <= j ∧ grid f j <= MaxTS) as Hrange.
  { intros j [Hj|Hj]%elem_of_app; [by apply H3|]. by apply list_elem_of_singleton in Hj as ->. }
  assert (i64 (Z.of_nat (length cs) + 1) = Z.of_nat (length (cs ++ [k]))) as Hc'.
  { rewrite length_app. simpl. rewrite i64_id; unfold int64_range, two63 in *; lia. }
  unfold add_anchor. rewrite Hc'. destruct (Z.eqb_spec (Z.of_nat (length cs)) 0) as [E|E].
  { assert (cs = []) as -> by (destruct cs; simpl in E; [done|lia]). destruct (H4 eq_refl) as [-> ->].
    split; simpl; try done. intros x y [= <-] [= <-]. split_and!; try done; [lia|].
    intros j Hj Hn. destruct Hn. apply list_elem_of_singleton. lia. }
  destruct (head cs) as [x|] eqn:Eh; [|by destruct cs].
  destruct (last cs) as [y|] eqn:El; [|by apply last_None in El; subst].
  destruct (H5 x y eq_refl eq_refl) as (-> & -> & Hi & Hcov).
  pose proof (head_last_sorted cs x y H2 Eh El) as Hxy.
  assert (y ∈ cs) as Hyin by (by apply last_elem in El). assert (x ∈ cs) as Hxin by (by apply head_elem in Eh).
  pose proof (Hlt y Hyin) as Hyk. pose proof (H3 y Hyin) as [Hy0 Hym]. pose proof (Hxy x Hxin) as [_ Hxy'].
  pose proof (H3 x Hxin) as [Hx0 _].
  assert (last (cs ++ [k]) = Some k) as Hlast by apply last_snoc.
  assert (head (cs ++ [k]) = Some x) as Hhead by (destruct cs; [done|exact Eh]).
  assert (∀ j, 0 <= j → grid f j <= MaxTS → steppable (grid f j)) as Hstep.
  { intros j Hj Hm. apply steppable_dom. pose proof (grid_nonneg f j Hj). unfold DayMS. lia. }
  rewrite next_grid by auto.
  pose proof (gap_counts_nonneg f cs gaps H6) as Hnn.
  destruct (Z.ltb_spec (grid f (y + 1)) (grid f k)) as [Hgap|Hadj].
  - apply grid_lt in Hgap. set (g := gap_of exchange symbol f (grid f y) (grid f k)).
    assert (Hg : g.(Gap.FirstMS) = grid f (y + 1) ∧ g.(Gap.LastMS) = grid f (k - 1) ∧ g.(Gap.Count) = k - y - 1).
    { unfold g, gap_of. simpl. rewrite next_grid, prev_grid by auto. split_and!; [done..|].
      rewrite BucketCount_grid; [lia|lia|]. pose proof (grid_le f (k - 1) k). unfold DayMS. lia. }
    destruct Hg as (Hg1 & Hg2 & Hg3). rewrite Hg3.
    rewrite i64_id by (unfold int64_range, two63 in *; lia).
    assert (gap_ok f (cs ++ [k]) g) as Hgok.
    { exists y, k. split_and!; try done; [apply elem_of_app; by left|apply elem_of_app; right; by left|].
      intros j Hj [Hin|Hin]%elem_of_app; [specialize (Hxy j Hin); lia|].
      apply list_elem_of_singleton in Hin. lia. }
    split; cbn [fst snd]; [done|done|done| | | |].
    + intros Hn. by destruct cs.
    + intros x' y' Hx' Hy'. rewrite Hhead in Hx'. rewrite Hlast in Hy'. injection Hx' as <-. injection Hy' as <-.
      split_and!; [done|done|rewrite length_app; simpl; lia|].
      intros j Hj Hn. rewrite not_elem_of_app in Hn. destruct Hn as [Hn Hnk]. rewrite in_gap_app.
      destruct (Z.le_gt_cases j y) as [Hjy|Hjy]; [left; apply Hcov; [lia|done]|right].
      assert (j ≠ k) by (intros ->; apply Hnk; by left).
      exists g. split; [by left|]. rewrite Hg1, Hg2.
      pose proof (grid_le f (y + 1) j). pose proof (grid_le f j (k - 1)). lia.
    + apply Forall_app. split; [|by constructor].
      eapply Forall_impl; [exact H6|]. intros g'. by apply gap_ok_later.
    + rewrite fmap_app, foldr_add_app, <- H7. cbn [fmap list_fmap foldr]. rewrite Hg3. lia.
  - apply grid_le in Hadj. assert (k = y + 1) as -> by lia.
    split; cbn [fst snd]; [done|done|done| | | |done].
    + intros Hn. by destruct cs.
    + intros x' y' Hx' Hy'. rewrite Hhead in Hx'. rewrite Hlast in Hy'. injection Hx' as <-. injection Hy' as <-.
      split_and!; [done|done|rewrite length_app; simpl; lia|].
      intros j Hj Hn. rewrite not_elem_of_app in Hn. destruct Hn as [Hn Hnk].
      assert (j ≠ y + 1) by (intros ->; apply Hnk; by left). apply Hcov; [lia|done].
    + eapply Forall_impl; [exact H6|]. intros g'. by apply gap_ok_later.
Qed.

(** ** One row of a series *)

Definition series_ok (f : Frame) (n : Z) (cs : list Z) (s : Series) : Prop :=
  counted n (Z.of_nat (length cs)) s ∧ anchored f cs (anchors s).

Lemma new_series_ok f latest m : series_ok f 0 [] (new_series f latest m).
Proof.
  split; [by split; simpl; lia|].
  split; simpl; try done; [constructor|by intros k ?%elem_of_nil].
Qed.

(** Whether the row anchors: it starts a bucket. *)
Definition is_canonical (f : Frame) (start : Z) : bool := (0 <? start) && (FloorStartMS start f =? start).

Definition counts (s : Series) : Z * Z * Z * Z * Z * Z :=
  (s.(Series.Bars), s.(Series.ActualBars), s.(Series.Misaligned), s.(Series.InvalidStart),
   s.(Series.Duplicates), s.(Series.InvalidEnd)).

Lemma observe_symbol f exchange duplicate row s :
  (observe exchange f duplicate row s).(Series.metadata) = s.(Series.metadata).
Proof.
  unfold observe, count_row, check_end, add_canonical, add_gap. destruct s; simpl.
  repeat (case_inner; simpl); done.
Qed.

Lemma observe_ok f n cs exchange duplicate row s :
  series_ok f n cs s → 0 <= n < two63 - 1 →
  (duplicate = false → is_canonical f row.(Row.StartMS) = true →
     ∃ k, 0 <= k ∧ row.(Row.StartMS) = grid f k ∧ grid f k <= MaxTS ∧ ∀ j, j ∈ cs → j < k) →
  ∃ cs', series_ok f (n + 1) cs' (observe exchange f duplicate row s) ∧
    if negb duplicate && is_canonical f row.(Row.StartMS)
    then ∃ k, row.(Row.StartMS) = grid f k ∧ cs' = cs ++ [k] else cs' = cs.
Proof.
  intros [Hc Ha] Hn Hk. destruct Hc as [Hb Hact Hp Hnn He].
  assert (Hcr : anchors (count_row row s) = anchors s ∧
    (count_row row s).(Series.Bars) = n + 1 ∧ (count_row row s).(Series.ActualBars) = n + 1 ∧
    (count_row row s).(Series.Misaligned) = s.(Series.Misaligned) ∧
    (count_row row s).(Series.InvalidStart) = s.(Series.InvalidStart) ∧
    (count_row row s).(Series.Duplicates) = s.(Series.Duplicates) ∧
    (count_row row s).(Series.InvalidEnd) = s.(Series.InvalidEnd)).
  { assert (i64 (n + 1) = n + 1) as Hi by (apply i64_id; unfold int64_range, two63 in *; lia).
    unfold count_row, anchors. destruct s; simpl in *. rewrite Hb, Hact, Hi.
    case_bool; simpl; done. }
  destruct Hcr as (R1 & R2 & R3 & R4 & R5 & R6 & R7). unfold observe.
  set (s1 := count_row row s) in *. clearbody s1.
  assert (∀ x, 0 <= x <= n → i64 (x + 1) = x + 1) as Hi
    by (intros x Hx; apply i64_id; unfold int64_range, two63 in *; lia).
  destruct duplicate; cbn [negb andb].
  { exists cs. split; [|done]. split.
    - destruct s1; simpl in *. subst. split; simpl; rewrite ?Hi; try lia.
    - rewrite <- R1 in Ha. by destruct s1. }
  unfold is_canonical in *. destruct (Z.leb_spec row.(Row.StartMS) 0) as [Hle|Hgt].
  { rewrite (proj2 (Z.ltb_ge _ _) Hle). exists cs. split; [|done]. split.
    - destruct s1; simpl in *. subst. split; simpl; rewrite ?Hi; try lia.
    - rewrite <- R1 in Ha. by destruct s1. }
  rewrite (proj2 (Z.ltb_lt _ _) Hgt) in *. cbn [andb] in *.
  assert (Hce : anchors (check_end f row s1) = anchors s1 ∧
    (check_end f row s1).(Series.Bars) = n + 1 ∧ (check_end f row s1).(Series.ActualBars) = n + 1 ∧
    (check_end f row s1).(Series.Misaligned) = s.(Series.Misaligned) ∧
    (check_end f row s1).(Series.InvalidStart) = s.(Series.InvalidStart) ∧
    (check_end f row s1).(Series.Duplicates) = s.(Series.Duplicates) ∧
    0 <= (check_end f row s1).(Series.InvalidEnd) <= n + 1).
  { unfold check_end. case_bool; [split_and!; congruence || lia|].
    destruct s1; simpl in *. subst. rewrite Hi by lia. split_and!; done || lia. }
  destruct Hce as (S1 & S2 & S3 & S4 & S5 & S6 & S7). rewrite R1 in S1.
  set (s2 := check_end f row s1) in *. clearbody s2. clear R1 R2 R3 R4 R5 R6 R7 s1.
  destruct (FloorStartMS row.(Row.StartMS) f =? row.(Row.StartMS)); cbn [negb].
  - destruct (Hk eq_refl eq_refl) as (k & Hk0 & Hkr & Hkm & Hkl). exists (cs ++ [k]).
    split; [|by exists k]. split.
    + assert (∀ s', counts (add_canonical exchange f row s') = counts s') as Hcount.
      { intros s'. unfold add_canonical, add_gap, counts. destruct s'; simpl. case_bool; [done|]. by case_bool. }
      specialize (Hcount s2). unfold counts in Hcount. injection Hcount as C1 C2 C3 C4 C5 C6.
      rewrite length_app. simpl. split; rewrite ?C1, ?C2, ?C3, ?C4, ?C5, ?C6; lia.
    + rewrite anchors_add, S1, Hkr. apply anchored_add; try done. unfold two63 in *. lia.
  - exists cs. split; [|done]. split.
    + destruct s2; simpl in *. subst. split; simpl; rewrite ?Hi; try lia.
    + rewrite <- S1 in Ha. by destruct s2.
Qed.

(** ** The stream *)

(** The rows of a symbol that are audited, and those among them that anchor. *)
Definition audited (f : Frame) (latest : Z) (symbol : string) (row : Row) : bool :=
  bool_decide (row.(Row.Symbol) = symbol) && (row.(Row.StartMS) <? NextStartMS latest f).
Definition anchor (f : Frame) (latest : Z) (symbol : string) (rows : list Row) (x : Z) : Prop :=
  ∃ row, row ∈ rows ∧ row.(Row.StartMS) = x ∧ audited f latest symbol row = true ∧ is_canonical f x = true.

(** A row the audit can place: before 1970 it is invalid, else its bucket is on
    the grid. *)
Definition placeable (f : Frame) (row : Row) : Prop := row.(Row.StartMS) <= 0 ∨ in_domain f row.(Row.StartMS).

Record stream_ok (rows : list Row) (a : Accumulator) : Prop := {
  so_last : match last rows with
            | Some r => a.(Accumulator.hasRow) = true ∧ a.(Accumulator.lastSymbol) = r.(Row.Symbol) ∧
                        a.(Accumulator.lastStart) = r.(Row.StartMS)
            | None => a.(Accumulator.hasRow) = false
            end;
  so_closed : ∀ r, r ∈ rows → r.(Row.Symbol) = a.(Accumulator.lastSymbol) ∨
                               r.(Row.Symbol) ∈ a.(Accumulator.closedSymbols);
  so_open : a.(Accumulator.lastSymbol) ∉ a.(Accumulator.closedSymbols);
  so_order : ∀ r, r ∈ rows → r.(Row.Symbol) = a.(Accumulator.lastSymbol) →
                  r.(Row.StartMS) <= a.(Accumulator.lastStart);
  so_series : ∀ symbol,
    let audited_rows := List.filter (audited a.(Accumulator.tf) a.(Accumulator.latest) symbol) rows in
    match a.(Accumulator.series) !! symbol with
    | Some s => s.(Series.metadata).(Metadata.Symbol) = symbol ∧
                ∃ cs, series_ok a.(Accumulator.tf) (Z.of_nat (length audited_rows)) cs s ∧
                  ∀ k, k ∈ cs ↔ 0 <= k ∧
                    anchor a.(Accumulator.tf) a.(Accumulator.latest) symbol rows (grid a.(Accumulator.tf) k)
    | None => audited_rows = []
    end;
}.

Lemma New_ok exchange tf asOf registry a :
  New exchange tf asOf registry = Ok a →
  stream_ok [] a ∧ tf = frame_name a.(Accumulator.tf) ∧
  a.(Accumulator.latest) = LatestCompletedStart a.(Accumulator.tf) asOf ∧ a.(Accumulator.exchange) = exchange.
Proof.
  unfold New. destruct (Normalize tf) as [f|] eqn:E; [|done]. apply Normalize_Ok in E. intros [= <-].
  assert (∀ a, stream_ok [] a ∧ tf = frame_name a.(Accumulator.tf) ∧
    a.(Accumulator.latest) = LatestCompletedStart a.(Accumulator.tf) asOf ∧ a.(Accumulator.exchange) = exchange →
    let a' := foldl (fun a m => if bool_decide (m.(Metadata.Exchange) = exchange)
                then addSeries (Metadata.set_InRegistry true m) a else a) a registry in
    stream_ok [] a' ∧ tf = frame_name a'.(Accumulator.tf) ∧
    a'.(Accumulator.latest) = LatestCompletedStart a'.(Accumulator.tf) asOf ∧
    a'.(Accumulator.exchange) = exchange) as Hfold.
  { induction registry as [|m registry IH]; intros a Ha; simpl; [done|]. apply IH. case_bool; [|done].
    destruct Ha as ([H1 H2 H3 H4 H5] & Ht & Hl & He). split; [|done]. split; simpl in *; try done.
    intros symbol. rewrite lookup_insert.
    destruct (decide ((Metadata.set_InRegistry true m).(Metadata.Symbol) = symbol)) as [Hs|_]; [|apply H5].
    split; [exact Hs|]. exists []. split; [apply new_series_ok|]. intros k. split; [by intros ?%elem_of_nil|].
    intros (_ & r & Hr & _). by apply elem_of_nil in Hr. }
  apply Hfold. split; [|done]. split; simpl; try done.
  - by intros r ?%elem_of_nil.
  - by intros r ?%elem_of_nil.
Qed.

Lemma audited_snoc f latest symbol rows row :
  List.filter (audited f latest symbol) (rows ++ [row]) =
  List.filter (audited f latest symbol) rows ++ (if audited f latest symbol row then [row] else []).
Proof. by rewrite List.filter_app. Qed.

Lemma anchor_snoc f latest symbol rows row x :
  anchor f latest symbol (rows ++ [row]) x ↔
  anchor f latest symbol rows x ∨
  (row.(Row.StartMS) = x ∧ audited f latest symbol row = true ∧ is_canonical f x = true).
Proof.
  unfold anchor. split.
  - intros (r & [Hr| ->%list_elem_of_singleton]%elem_of_app & ?); [left; eauto|by right].
  - intros [(r & Hr & ?)|H]; [exists r|exists row]; (split; [apply elem_of_app; auto|done]).
    right. by left.
Qed.

Lemma is_canonical_grid f row :
  placeable f row → is_canonical f row.(Row.StartMS) = true →
  ∃ k, 0 <= k ∧ row.(Row.StartMS) = grid f k ∧ grid f k <= MaxTS.
Proof.
  unfold is_canonical. intros [Hp|Hp] H; apply andb_true_iff in H as [H1 H2]; zbool; [lia|].
  destruct (floor_aligned f _ Hp) as (k & Hk & Ek). rewrite H2 in Ek. exists k. split_and!; [done..|].
  rewrite <- Ek. apply Hp.
Qed.

Lemma Add_ok rows row a a' :
  stream_ok rows a → Add row a = (None, a') → placeable a.(Accumulator.tf) row →
  Z.of_nat (length rows) < two63 - 1 →
  stream_ok (rows ++ [row]) a' ∧ a'.(Accumulator.tf) = a.(Accumulator.tf) ∧
  a'.(Accumulator.latest) = a.(Accumulator.latest) ∧ a'.(Accumulator.exchange) = a.(Accumulator.exchange).
Proof.
  intros [H1 H2 H3 H4 H5] Hadd Hpl Hlen. unfold Add in Hadd.
  destruct (bool_decide (row.(Row.Symbol) = "")); [done|].
  set (same := a.(Accumulator.hasRow) && bool_decide (row.(Row.Symbol) = a.(Accumulator.lastSymbol))) in *.
  set (closed := if _ && negb _ then _ else a.(Accumulator.closedSymbols)) in *.
  destruct (bool_decide (row.(Row.Symbol) ∈ closed)) eqn:Ecl; [done|]. apply bool_decide_eq_false in Ecl.
  destruct (same && (row.(Row.StartMS) <? a.(Accumulator.lastStart))) eqn:Eord; [done|]. cbn [orb] in Hadd.
  injection Hadd as <-.
  (* where the earlier rows of the symbol are *)
  assert (Hprev : (same = true ∧ closed = a.(Accumulator.closedSymbols) ∧
                   a.(Accumulator.lastStart) <= row.(Row.StartMS) ∧ row.(Row.Symbol) = a.(Accumulator.lastSymbol)) ∨
                  (same = false ∧ ∀ r, r ∈ rows → r.(Row.Symbol) ≠ row.(Row.Symbol) ∧ r.(Row.Symbol) ∈ closed)).
  { unfold closed, same in *. destruct (a.(Accumulator.hasRow)) eqn:Eh.
    - destruct (bool_decide (row.(Row.Symbol) = a.(Accumulator.lastSymbol))) eqn:Es; cbn [andb negb] in *.
      + left. apply bool_decide_eq_true in Es. zbool. by split_and!.
      + right. split; [done|]. apply bool_decide_eq_false in Es. intros r Hr.
        assert (r.(Row.Symbol) ∈ {[a.(Accumulator.lastSymbol)]} ∪ a.(Accumulator.closedSymbols)) as Hc
          by (destruct (H2 r Hr) as [->|?]; set_solver).
        split; [|done]. intros Hs. by rewrite Hs in Hc.
    - right. split; [done|]. destruct (last rows) as [r0|] eqn:El; [by destruct H1|].
      apply last_None in El as ->. by intros r ?%elem_of_nil. }
  assert (Horder : ∀ r, r ∈ rows → r.(Row.Symbol) = row.(Row.Symbol) → r.(Row.StartMS) <= row.(Row.StartMS)).
  { intros r Hr Hs. destruct Hprev as [(_ & _ & Hle & Hl)|(_ & Hno)].
    - specialize (H4 r Hr). rewrite Hs, Hl in H4. specialize (H4 eq_refl). lia.
    - by destruct (Hno r Hr). }
  split; [|done]. split; simpl.
  - by rewrite last_snoc.
  - intros r [Hr| ->%list_elem_of_singleton]%elem_of_app; [|by left].
    destruct Hprev as [(_ & -> & _ & ->)|(_ & Hno)]; [by apply H2|right; by apply Hno].
  - done.
  - intros r [Hr| ->%list_elem_of_singleton]%elem_of_app Hs; [by apply Horder|lia].
  - intros symbol. specialize (H5 symbol). cbv zeta in H5.
    set (f := a.(Accumulator.tf)) in *. set (latest := a.(Accumulator.latest)) in *.
    set (ex := a.(Accumulator.exchange)) in *.
    rewrite audited_snoc.
    destruct (Z.leb_spec (NextStartMS latest f) row.(Row.StartMS)) as [Hlate|Hin].
    + assert (audited f latest symbol row = false) as Haud
        by (unfold audited; by rewrite (proj2 (Z.ltb_ge _ _) Hlate), andb_false_r).
      rewrite Haud, app_nil_r. destruct (a.(Accumulator.series) !! symbol) as [s|]; [|done].
      destruct H5 as (Hsym & cs & Hok & Hcs). split; [done|]. exists cs. split; [done|]. intros k.
      rewrite anchor_snoc, Hcs, Haud.
      naive_solver.
    + rewrite lookup_insert.
      destruct (decide (row.(Row.Symbol) = symbol)) as [Hs|Hs].
      2: { assert (audited f latest symbol row = false) as Haud
             by (unfold audited; by rewrite bool_decide_false by done).
           rewrite Haud, app_nil_r. destruct (a.(Accumulator.series) !! symbol) as [s|]; [|done].
           destruct H5 as (Hsym & cs & Hok & Hcs). split; [done|]. exists cs. split; [done|]. intros k.
      rewrite anchor_snoc, Hcs, Haud.
           naive_solver. }
      assert (audited f latest symbol row = true) as Haud
        by (unfold audited; rewrite bool_decide_true by done; by apply Z.ltb_lt).
      rewrite Haud, length_app. simpl. subst symbol.
      set (s0 := default _ _).
      assert (∃ cs, series_ok f (Z.of_nat (length (List.filter (audited f latest row.(Row.Symbol)) rows))) cs s0 ∧
        (∀ k, k ∈ cs ↔ 0 <= k ∧ anchor f latest row.(Row.Symbol) rows (grid f k)) ∧
        s0.(Series.metadata).(Metadata.Symbol) = row.(Row.Symbol)) as (cs & Hok & Hcs & Hsym).
      { unfold s0. destruct (a.(Accumulator.series) !! row.(Row.Symbol)) as [s|] eqn:Es; simpl.
        - destruct H5 as (Hsym & cs & Hok & Hcs). exists cs. by split_and!.
        - rewrite H5. exists []. split_and!; [apply new_series_ok| |done]. intros k.
          split; [by intros ?%elem_of_nil|]. intros (_ & r & Hr & _ & Hau & _).
          assert (r ∈ List.filter (audited f latest row.(Row.Symbol)) rows) as Hin'
            by (apply list_elem_of_In, filter_In; split; [by apply list_elem_of_In|done]).
          rewrite H5 in Hin'. by apply elem_of_nil in Hin'. }
      split; [by rewrite observe_symbol|].
      set (duplicate := same && (row.(Row.StartMS) =? a.(Accumulator.lastStart))).
      assert (Hdup : duplicate = true → anchor f latest row.(Row.Symbol) rows row.(Row.StartMS) ∨
                     is_canonical f row.(Row.StartMS) = false).
      { intros Hd. unfold duplicate in Hd. apply andb_true_iff in Hd as [Hsame Hst]. apply Z.eqb_eq in Hst.
        destruct (is_canonical f row.(Row.StartMS)) eqn:Ecan; [left|by right].
        destruct Hprev as [(_ & _ & _ & Hl)|(Hf & _)]; [|congruence].
        destruct (last rows) as [r0|] eqn:El.
        - destruct H1 as (_ & Hl1 & Hl2). exists r0. split_and!; [by apply last_elem|congruence| |done].
          unfold audited in *. rewrite <- Hl1, <- Hl, <- Hl2, <- Hst. done.
        - unfold same in Hsame. rewrite H1 in Hsame. done. }
      destruct (observe_ok f _ cs ex duplicate row s0 Hok) as (cs' & Hok' & Hcs').
      { pose proof (List.filter_length_le (audited f latest row.(Row.Symbol)) rows). lia. }
      { intros Hnd Hcan. destruct (is_canonical_grid f row Hpl Hcan) as (k & Hk & Ek & Hkm). exists k.
        split_and!; [done..|]. intros j Hj. apply Hcs in Hj as (_ & r & Hr & Ej & Hau & _).
        apply (grid_lt f). rewrite <- Ej, <- Ek.
        unfold audited in Hau. apply andb_true_iff in Hau as [Hau _]. apply bool_decide_eq_true in Hau.
        pose proof (Horder r Hr Hau). enough (r.(Row.StartMS) ≠ row.(Row.StartMS)) by lia. intros Heq.
        unfold duplicate in Hnd. destruct Hprev as [(Hsame & _ & Hle & Hl)|(_ & Hno)]; [|by destruct (Hno r Hr)].
        rewrite Hsame in Hnd. cbn [andb] in Hnd. apply Z.eqb_neq in Hnd.
        pose proof (H4 r Hr ltac:(congruence)). lia. }
      rewrite Nat2Z.inj_add. exists cs'. split; [exact Hok'|]. intros k. rewrite anchor_snoc.
      destruct duplicate eqn:Ed; cbn [negb andb] in Hcs'.
      * subst cs'. rewrite Hcs. split; [naive_solver|]. intros (Hk & [?|(Ek & _ & Hcan)]); [done|]. split; [done|].
        destruct (Hdup eq_refl) as [Hd|Hd]; [by rewrite Ek in Hd|congruence].
      * destruct (is_canonical f row.(Row.StartMS)) eqn:Ecan.
        -- destruct Hcs' as (k' & Ek' & ->). rewrite elem_of_app, list_elem_of_singleton, Hcs. split.
           ++ intros [[? ?]| ->]; [split; [done|by left]|].
              destruct (is_canonical_grid f row Hpl Ecan) as (k'' & Hk'' & Ek'' & _).
              rewrite Ek' in Ek''. apply grid_inj in Ek'' as ->. split; [done|]. right.
              split_and!; [done|done|]. by rewrite <- Ek'.
           ++ intros (Hk & [?|(Ek & _ & _)]); [by left|right]. rewrite Ek in Ek'. by apply grid_inj in Ek'.
        -- subst cs'. rewrite Hcs. split; [naive_solver|]. intros (Hk & [?|(Ek & _ & Hcan)]); [done|].
           rewrite Ek in Ecan. congruence.
Qed.

Lemma add_rows_ok rows1 rows2 a a' :
  stream_ok rows1 a → add_rows rows2 a = (None, a') →
  Forall (placeable a.(Accumulator.tf)) rows2 → Z.of_nat (length rows1 + length rows2) < two63 →
  stream_ok (rows1 ++ rows2) a' ∧ a'.(Accumulator.tf) = a.(Accumulator.tf) ∧
  a'.(Accumulator.latest) = a.(Accumulator.latest) ∧ a'.(Accumulator.exchange) = a.(Accumulator.exchange).
Proof.
  revert rows1 a. induction rows2 as [|row rows2 IH]; intros rows1 a Hs Hadd Hp Hlen; simpl in Hadd.
  { injection Hadd as <-. rewrite app_nil_r. done. }
  destruct (Add row a) as [[e|] a1] eqn:E; [done|]. apply Forall_cons in Hp as [Hp1 Hp2].
  destruct (Add_ok rows1 row a a1 Hs E Hp1) as (Hs1 & Ht & Hl & He); [simpl in Hlen; lia|].
  destruct (IH (rows1 ++ [row]) a1 Hs1 Hadd) as (Hs2 & Ht2 & Hl2 & He2).
  - by rewrite Ht.
  - rewrite length_app. simpl in *. lia.
  - rewrite <- app_assoc in Hs2. split_and!; [done|congruence..].
Qed.

(** ** The result *)

Lemma add_result_series s r : (add_result s r).(Result.series) = r.(Result.series) ++ [s].
Proof.
  assert (∀ r, (keep_series s r).(Result.series) = r.(Result.series) ++ [s]) as Hk
    by (intros []; unfold keep_series; by destruct (bool_decide _)).
  assert (∀ r, (add_totals s r).(Result.series) = r.(Result.series)) as Ht by (by intros []).
  assert (∀ r, (count_issues s r).(Result.series) = r.(Result.series)) as Hi by (by intros []).
  unfold add_result. rewrite Hk, Ht, Hi. f_equal. unfold count_data. destruct r.
  repeat (simpl; case_inner); simpl; done.
Qed.

Lemma Finish_series a : (Finish a).(Result.series) = finished a.
Proof.
  unfold Finish. assert (∀ l r, (foldl (fun r s => add_result s r) r l).(Result.series) = r.(Result.series) ++ l) as H.
  { induction l as [|s l IH]; intros r; simpl; [by rewrite app_nil_r|].
    by rewrite IH, add_result_series, <- app_assoc. }
  specialize (H (finished a) (empty_result a)). revert H.
  generalize (foldl (fun r s => add_result s r) (empty_result a) (finished a)). by intros [].
Qed.

Lemma elem_of_finished a s :
  s ∈ finished a ↔ ∃ key s0, a.(Accumulator.series) !! key = Some s0 ∧
                    s = finish_series a.(Accumulator.tf) a.(Accumulator.latest) s0.
Proof.
  unfold finished. rewrite list_elem_of_omap. split.
  - intros (key & _ & H). apply fmap_Some in H as (s0 & ? & ->). eauto.
  - intros (key & s0 & H & ->). exists key. split; [|by rewrite H].
    unfold sort_strings. rewrite elem_of_sort_slice. apply list_elem_of_fmap. exists (key, s0).
    split; [done|]. by apply elem_of_map_to_list.
Qed.

Lemma finish_series_fields f latest s :
  let s' := finish_series f latest s in
  anchors s' = anchors s ∧ counts s' = counts s ∧ s'.(Series.metadata) = s.(Series.metadata) ∧
  s'.(Series.ExpectedInteriorCount) = i64 (s.(Series.CanonicalBars) + s.(Series.InternalMissing)).
Proof.
  unfold finish_series. cbv zeta. generalize (series_status s). intros status.
  destruct s. simpl. case_bool; done.
Qed.

(** ** Properties *)

(** The buckets the grid has between two anchors, in the series' own numbers. *)
Lemma anchored_result f cs s n :
  series_ok f n cs s → cs ≠ [] →
  ∃ x y, s.(Series.FirstCanonicalMS) = grid f x ∧ s.(Series.LastCanonicalMS) = grid f y ∧ x ∈ cs ∧ y ∈ cs ∧
    0 <= x <= y ∧ grid f y <= MaxTS ∧ (∀ k, k ∈ cs → x <= k <= y) ∧
    s.(Series.CanonicalBars) + s.(Series.InternalMissing) = y - x + 1 ∧
    ∀ k, x <= k <= y → k ∈ cs ↔ ¬ in_gap s.(Series.GapRanges) (grid f k).
Proof.
  intros [_ [H1 H2 H3 H4 H5 H6 H7]] Hne.
  destruct (head cs) as [x|] eqn:Eh; [|by destruct cs].
  destruct (last cs) as [y|] eqn:El; [|by apply last_None in El].
  destruct (H5 x y eq_refl eq_refl) as (Hx & Hy & Hi & Hcov).
  pose proof (head_last_sorted cs x y H2 Eh El) as Hxy.
  assert (x ∈ cs) as Hxin by (by apply head_elem). assert (y ∈ cs) as Hyin by (by apply last_elem).
  pose proof (H3 x Hxin). pose proof (H3 y Hyin). pose proof (Hxy x Hxin).
  cbn [fst snd anchors] in *. exists x, y. split_and!; try done; try lia.
  intros k Hk. split.
  - intros Hin (g & Hg & Hr). rewrite Forall_forall in H6.
    destruct (H6 g Hg) as (a & b & _ & _ & Hab & _ & _ & Hf & Hl & _ & Hno). rewrite Hf, Hl in Hr.
    destruct Hr as [Hr1 Hr2]. apply grid_le in Hr1, Hr2. apply (Hno k); [lia|done].
  - intros Hn. destruct (decide (k ∈ cs)) as [|Hnin]; [done|]. destruct Hn. by apply Hcov.
Qed.

(** C23: what the audit says of a symbol is exact, for rows on or after the first
    bucket of the grid.  Every audited row is counted once: canonical,
    misaligned, invalid or duplicate.  Between the first and the last canonical
    start every bucket is either a canonical row or inside a reported gap, never
    both; the gaps run from one canonical row to the next, and the counts of the
    gaps, of the missing and of the expected bars are the numbers of buckets. *)
Theorem audit_exact exchange tf asOf registry rows a0 a s :
  New exchange tf asOf registry = Ok a0 → add_rows rows a0 = (None, a) →
  Forall (placeable a0.(Accumulator.tf)) rows → Z.of_nat (length rows) < two63 →
  s ∈ (Finish a).(Result.series) →
  let f := a0.(Accumulator.tf) in
  let canonical := anchor f a0.(Accumulator.latest) (series_symbol s) rows in
  s.(Series.Bars) = Z.of_nat (length (List.filter (audited f a0.(Accumulator.latest) (series_symbol s)) rows)) ∧
  s.(Series.Bars) = s.(Series.CanonicalBars) + s.(Series.Misaligned) + s.(Series.InvalidStart)
                    + s.(Series.Duplicates) ∧
  s.(Series.InternalMissing) = foldr Z.add 0 (Gap.Count <$> s.(Series.GapRanges)) ∧
  (s.(Series.CanonicalBars) = 0 → s.(Series.GapRanges) = [] ∧ ∀ x, ¬ canonical x) ∧
  (0 < s.(Series.CanonicalBars) →
     canonical s.(Series.FirstCanonicalMS) ∧ canonical s.(Series.LastCanonicalMS) ∧
     (∀ x, canonical x → aligned f x ∧ s.(Series.FirstCanonicalMS) <= x <= s.(Series.LastCanonicalMS)) ∧
     s.(Series.ExpectedInteriorCount) = s.(Series.CanonicalBars) + s.(Series.InternalMissing) ∧
     s.(Series.ExpectedInteriorCount) = BucketCount s.(Series.FirstCanonicalMS) s.(Series.LastCanonicalMS) f ∧
     (∀ x, aligned f x → s.(Series.FirstCanonicalMS) <= x <= s.(Series.LastCanonicalMS) →
        canonical x ↔ ¬ in_gap s.(Series.GapRanges) x)) ∧
  (∀ g, g ∈ s.(Series.GapRanges) →
     canonical g.(Gap.PreviousStartMS) ∧ canonical g.(Gap.NextStartMS) ∧
     g.(Gap.PreviousStartMS) < g.(Gap.FirstMS) <= g.(Gap.LastMS) ∧ g.(Gap.LastMS) < g.(Gap.NextStartMS) ∧
     aligned f g.(Gap.FirstMS) ∧ aligned f g.(Gap.LastMS) ∧
     g.(Gap.Count) = BucketCount g.(Gap.FirstMS) g.(Gap.LastMS) f).
Proof.
  intros Hnew Hadd Hpl Hlen Hs f canonical.
  destruct (New_ok _ _ _ _ _ Hnew) as (Hok0 & _ & _ & _).
  destruct (add_rows_ok [] rows a0 a Hok0 Hadd Hpl Hlen) as (Hok & Ht & Hl & _). simpl in Hok.
  rewrite Finish_series, elem_of_finished in Hs. destruct Hs as (key & s0 & Hk & Es).
  pose proof (so_series rows a Hok key) as Hser. cbv zeta in Hser. rewrite Hk, Ht, Hl in Hser.
  destruct Hser as (Hsym & cs & Hsok & Hcs). fold f in Hsok, Hcs.
  destruct (finish_series_fields a.(Accumulator.tf) a.(Accumulator.latest) s0) as (Fa & Fc & Fm & Fe).
  rewrite <- Es in Fa, Fc, Fm, Fe. clear Es.
  assert (series_symbol s = key) as Hkey by (unfold series_symbol; by rewrite Fm).
  unfold canonical. rewrite Hkey. clear canonical.
  unfold anchors in Fa. injection Fa as A1 A2 A3 A4 A5. unfold counts in Fc. injection Fc as C1 C2 C3 C4 C5 C6.
  rewrite A1, A2, A3, A4, A5, C1, C3, C4, C5, Fe. clear A1 A2 A3 A4 A5 C1 C2 C3 C4 C5 C6 Fe Fm Hkey s Hk Hsym.
  pose proof Hsok as [[Hb _ Hp Hnn _] [H1 H2 H3 H4 H5 H6 H7]]. cbn [fst snd anchors] in *.
  assert (∀ x, anchor f a0.(Accumulator.latest) key rows x → ∃ k, k ∈ cs ∧ x = grid f k) as Hcan.
  { intros x Hx. pose proof Hx as (r & Hr & Ex & _ & Hc).
    rewrite Forall_forall in Hpl. rewrite <- Ex in Hc. destruct (is_canonical_grid f r (Hpl r Hr) Hc) as (k & ? & Ek & _).
    rewrite Ex in Ek. exists k. split; [|done]. rewrite Hcs, <- Ek. done. }
  assert (∀ k, k ∈ cs → anchor f a0.(Accumulator.latest) key rows (grid f k)) as Hanc by (intros k Hk; by apply Hcs).
  split_and!; [done|lia|done| | |].
  - intros Hz. assert (cs = []) as -> by (destruct cs; simpl in H1; [done|lia]). split; [by apply H4|].
    intros x (k & Hk & _)%Hcan. by apply elem_of_nil in Hk.
  - intros Hpos. assert (cs ≠ []) as Hne by (intros ->; simpl in H1; lia).
    destruct (anchored_result f cs s0 _ Hsok Hne)
      as (x & y & -> & -> & Hxin & Hyin & Hxy & Hym & Hrange & Hsum & Hcov).
    pose proof (grid_range f y ltac:(lia) Hym).
    assert (i64 (s0.(Series.CanonicalBars) + s0.(Series.InternalMissing)) = y - x + 1) as ->
      by (rewrite Hsum; apply i64_id; unfold int64_range, two63; lia).
    split_and!; [by apply Hanc|by apply Hanc| |done| |].
    + intros z (k & Hk & ->)%Hcan. specialize (Hrange k Hk).
      split; [exists k; split; [lia|done]|]. split; apply grid_le; lia.
    + rewrite BucketCount_grid; [lia|lia|unfold DayMS; lia].
    + intros z (k & Hk & ->) [Hz1 Hz2]. apply grid_le in Hz1, Hz2. rewrite <- Hcov by done. split.
      * intros (k' & Hk' & E)%Hcan. by apply grid_inj in E as ->.
      * apply Hanc.
  - intros g Hg. rewrite Forall_forall in H6.
    destruct (H6 g Hg) as (p & q & Hpin & Hqin & Hpq & Ep & Eq & Ef & El & Ec & _).
    destruct (H3 p Hpin) as [Hp0 _]. destruct (H3 q Hqin) as [Hq0 Hqm].
    rewrite Ep, Eq, Ef, El, Ec. pose proof (grid_le f (q - 1) q).
    split_and!; [by apply Hanc|by apply Hanc|apply grid_lt; lia|apply grid_le; lia|apply grid_lt; lia
      |exists (p + 1); split; [lia|done]|exists (q - 1); split; [lia|done]|].
    rewrite BucketCount_grid; [lia|lia|unfold DayMS; lia].
Qed.

(** Three hours of one symbol: one bucket missing, one row off the grid, one row
    twice. *)
Definition sample_rows : list Row :=
  [Row.mk "BTC" 1779264000000 1779267599999; Row.mk "BTC" 1779264000000 1779267599999;
   Row.mk "BTC" 1779265800000 1779269399999; Row.mk "BTC" 1779271200000 1779274799999].

Example audit_exact_witness :
  ∃ a0 a s, New "okx" "1H" 1779300000000 [] = Ok a0 ∧ add_rows sample_rows a0 = (None, a) ∧
    s ∈ (Finish a).(Result.series) ∧
    s.(Series.ExpectedInteriorCount) = BucketCount s.(Series.FirstCanonicalMS) s.(Series.LastCanonicalMS) F1H ∧
    s.(Series.ExpectedInteriorCount) = 3.
Proof.
  destruct (New "okx" "1H" 1779300000000 []) as [a0|e] eqn:En; [|vm_compute in En; discriminate En].
  assert (a0.(Accumulator.tf) = F1H) as Hf by (vm_compute in En; injection En as <-; reflexivity).
  assert (Hp : Forall (placeable a0.(Accumulator.tf)) sample_rows).
  { rewrite Hf. unfold sample_rows.
    repeat (apply Forall_cons; split; [right; split; vm_compute; discriminate|]). apply Forall_nil. exact I. }
  assert (Ha : fst (add_rows sample_rows a0) = None) by (vm_compute in En; injection En as <-; vm_compute; reflexivity).
  assert (Hs : length (Finish (snd (add_rows sample_rows a0))).(Result.series) = 1%nat ∧
    Series.ExpectedInteriorCount <$> (Finish (snd (add_rows sample_rows a0))).(Result.series) = [3] ∧
    Series.CanonicalBars <$> (Finish (snd (add_rows sample_rows a0))).(Result.series) = [2])
    by (vm_compute in En; injection En as <-; vm_compute; auto).
  destruct (add_rows sample_rows a0) as [e a] eqn:Ea. simpl in Ha, Hs. subst e.
  destruct (Finish a).(Result.series) as [|s l] eqn:Es; [destruct Hs as [Hs _]; discriminate Hs|].
  destruct Hs as (_ & He & Hc). injection He as He _. injection Hc as Hc _.
  assert (Hin : s ∈ (Finish a).(Result.series)) by (rewrite Es; left).
  destruct (audit_exact "okx" "1H" 1779300000000 [] sample_rows a0 a s En Ea Hp ltac:(reflexivity) Hin)
    as (_ & _ & _ & _ & H & _).
  destruct H as (_ & _ & _ & _ & Hb & _); [rewrite Hc; reflexivity|]. rewrite Hf in Hb.
  exists a0, a, s. rewrite Es. split_and!; [reflexivity|exact Ea|left|exact Hb|exact He].
Defined.

(** [LatestCompletedStart] is the newest bucket that had been closed for two
    minutes: its end is not after the watermark, the end of the bucket after it
    is. *)
Theorem LatestCompletedStart_closed f asOf :
  grid f 1 <= asOf - FinalityGrace_ms <= MaxTS →
  let s := LatestCompletedStart f asOf in
  aligned f s ∧ EndMS s f <= asOf - FinalityGrace_ms < EndMS (NextStartMS s f) f.
Proof.
  intros Hw. set (w := asOf - FinalityGrace_ms) in *. unfold LatestCompletedStart. fold w.
  pose proof (grid_nonneg f 1 ltac:(lia)) as H1. pose proof (grid_lt f 0 1).
  rewrite (i64_id w) by (unfold int64_range, two63, MaxTS in *; lia).
  destruct (floor_spec f w) as (k & Hk & -> & Hb); [split; lia|].
  assert (∀ j, 0 <= j <= k + 1 → steppable (grid f j)) as Hst.
  { intros j Hj. apply steppable_dom. pose proof (grid_nonneg f j ltac:(lia)). pose proof (grid_step f k).
    pose proof (grid_le f j (k + 1)). unfold DayMS in *. lia. }
  rewrite (end_grid f k) by (apply Hst; lia).
  destruct (Z.ltb_spec w (grid f (k + 1) - 1)) as [Hlt|Hge]; cbv zeta.
  - assert (1 <= k) by (pose proof (grid_lt f 1 (k + 1)); lia).
    rewrite prev_grid by (apply Hst; lia).
    rewrite (end_grid f (k - 1)), next_grid by (apply Hst; lia). replace (k - 1 + 1) with k by lia.
    rewrite end_grid by (apply Hst; lia). split; [exists (k - 1); split; [lia|done]|lia].
  - rewrite next_grid, !end_grid by (apply Hst; lia).
    split; [by exists k|]. pose proof (grid_step f (k + 1)). unfold MinuteMS in *. lia.
Qed.

Example LatestCompletedStart_closed_witness :
  EndMS (LatestCompletedStart F1H 1779300000000) F1H <= 1779300000000 - FinalityGrace_ms.
Proof. apply (LatestCompletedStart_closed F1H 1779300000000). vm_compute. split; discriminate. Defined.
