(* ===== verification/GapPlan.v ===== *)
(** * Planning the repair of audited gaps (internal/gapfill/plan.go)

    [BuildPlanWithOptions] turns the report of a timestamp audit into tasks: for
    every series the missing starts the report names (and, on request, the starts
    before the first and after the last candle), grouped into fetch windows the
    exchange can serve.

    The model starts from the decoded report: [decoded] is what the JSON decoder
    made of the reader, [parse_time] is [time.Parse] with the layout RFC3339Nano
    as Unix milliseconds, [now_text] is the formatted clock. *)

From S2P Require Export Retention.

Local Open Scope string_scope.
Local Open Scope Z_scope.
Local Open Scope list_scope.

(** ** Data *)

Module Task.
Record Task : Type := mk {
  ID : string; Exchange : string; Symbol : string; Timeframe : string; SourceTimeframe : string;
  StartMS : Z; EndMS : Z; TargetStarts : list Z; Kind : string }.
End Task.
Notation Task := Task.Task.

Module Skipped.
Record Skipped : Type := mk {
  Exchange : string; Symbol : string; Timeframe : string; Reason : string; MissingBars : Z }.
End Skipped.
Notation Skipped := Skipped.Skipped.

Module Plan.
Record Plan : Type := mk { GeneratedAt : string; Tasks : list Task; skipped : list Skipped }.
End Plan.
Notation Plan := Plan.Plan.

Module SymbolPolicy.
Record SymbolPolicy : Type := mk {
  Allowed : bool; Reason : string; MarketType : string; ListedAtMS : Z; CapturedAtMS : Z }.
Definition zero : SymbolPolicy := mk false "" "" 0 0.
End SymbolPolicy.
Notation SymbolPolicy := SymbolPolicy.SymbolPolicy.

(** A nil map of policies is [None]. *)
Module PlanOptions.
Record PlanOptions : Type := mk {
  Policies : option (gmap string SymbolPolicy);
  IncludeTail : bool; IncludeNoData : bool; IncludeLeading : bool; EnforceRetention : bool }.
Definition zero : PlanOptions := mk None false false false false.
End PlanOptions.
Notation PlanOptions := PlanOptions.PlanOptions.

Module AuditGap.
Record auditGap : Type := mk { FirstMS : Z; LastMS : Z; Count : Z }.
End AuditGap.
Notation auditGap := AuditGap.auditGap.

Module AuditSeries.
Record auditSeries : Type := mk {
  Symbol : string; MisalignedBars : Z; InternalMissingBars : option Z; CanonicalBars : Z;
  FirstCanonicalMS : Z; LastCanonicalMS : Z; LatestCompletedMS : Z; GapRanges : list auditGap }.
End AuditSeries.
Notation auditSeries := AuditSeries.auditSeries.

(** One element of [Results]; a nil [Series] is told from an empty one. *)
Module AuditResult.
Record auditResult : Type := mk {
  Exchange : string; Timeframe : string; LatestCompletedMS : Z;
  series : option (list auditSeries); IssueSeries : list auditSeries }.
End AuditResult.
Notation auditResult := AuditResult.auditResult.

Module AuditReport.
Record auditReport : Type := mk {
  GeneratedAt : string; AsOf : string; Complete : option bool; Results : list auditResult }.
End AuditReport.
Notation auditReport := AuditReport.auditReport.

(** [seriesKey]: exchange, symbol, timeframe and kind. *)
Definition seriesKey : Set := (string * string * Frame * string).

Definition maxPlanTargets : Z := 2000000.

(** How a run stops without a plan: an error, the panic of [timeframe.Index] on
    an unknown name, or a loop of the model that ran out of fuel. *)
Inductive stop : Set :=
| Failed (e : go_error)
| Panicked
| OutOfFuel.

Notation run A := (result stop A).
Notation failed text := (Err (Failed (Errorf text))).

(** What planning has gathered so far. *)
Module Found.
Record Found : Type := mk {
  targets : gmap seriesKey (gset Z); totalTargets : Z; skipped : list Skipped }.
Definition empty : Found := mk ∅ 0 [].
Definition skip (s : Skipped) (acc : Found) : Found :=
  mk acc.(targets) acc.(totalTargets) (acc.(skipped) ++ [s]).
Definition at_key (acc : Found) (key : seriesKey) : gset Z := default ∅ (acc.(targets) !! key).
End Found.
Notation Found := Found.Found.

(** ** Sources and boundaries *)

Definition sourceTimeframe (exchange : string) (target : Frame) : Frame :=
  let derived :=
    if bool_decide (exchange = "binance") then
      match target with
      | F2D | F3D | F5D | F2W => Some F1D
      | F3M => Some F1M
      | _ => None
      end
    else None in
  match derived with
  | Some source => source
  | None =>
      if bool_decide (exchange = "okx") && (bool_decide (target = F5D) || bool_decide (target = F2W))
      then F1D else target
  end.

Definition maxSourceBars (exchangeName : string) (source : Frame) : Z :=
  if bool_decide (exchangeName = "okx") then 80
  else match source with F1D => 198 | F1W => 26 | F1M => 6 | _ => 400 end.

Definition ceilStartMS (start : Z) (tf : Frame) : Z :=
  let floor := FloorStartMS start tf in
  if floor <? start then NextStartMS floor tf else floor.

Definition historyBoundaryStartMS (start : Z) (exchange : string) (tf : Frame) : Z :=
  if bool_decide (sourceTimeframe exchange tf = tf) then FloorStartMS start tf
  else ceilStartMS start tf.

(** The loop of [sourceSpan] stops by itself after [maximum + 1] rounds. *)
Fixpoint span_loop (fuel : nat) (cursor endMS : Z) (source : Frame) (count maximum : Z) {struct fuel} : Z :=
  if endMS <? cursor then count
  else
    match fuel with
    | O => count
    | S fuel' =>
        let count := count + 1 in
        if maximum <? count then count
        else span_loop fuel' (NextStartMS cursor source) endMS source count maximum
    end.
Definition sourceSpan (start endMS : Z) (source : Frame) (maximum : Z) : Z :=
  span_loop (S (Z.to_nat maximum)) (FloorStartMS start source) endMS source 0 maximum.

Definition sortedStarts (starts : gset Z) : list Z := sort_by id (elements starts).

(** ** Targets of a series *)

(** The closure [addTarget]; [key] is the series with the kind. *)
Definition addTarget (minimum : Z) (key : seriesKey) (start : Z) (acc : Found) : run Found :=
  if (0 <? minimum) && (start <? minimum) then Ok acc
  else
    let starts := Found.at_key acc key in
    if bool_decide (start ∈ starts) then Ok acc
    else
      let total := acc.(Found.totalTargets) + 1 in
      if maxPlanTargets <? total then failed "gap report exceeds %d unique targets"
      else Ok (Found.mk (<[key := {[start]} ∪ starts]> acc.(Found.targets)) total acc.(Found.skipped)).

(** [for cursor := first; cursor <= last; cursor = NextStartMS(cursor)]: a step
    is at least a minute. *)
Fixpoint add_range (fuel : nat) (minimum : Z) (key : seriesKey) (tf : Frame) (cursor last : Z) (acc : Found)
    {struct fuel} : run Found :=
  if last <? cursor then Ok acc
  else
    match fuel with
    | O => Err OutOfFuel
    | S fuel' =>
        match addTarget minimum key cursor acc with
        | Ok acc => add_range fuel' minimum key tf (NextStartMS cursor tf) last acc
        | Err e => Err e
        end
    end.

(** The loop over one gap; [n] rounds are left.  [seen] is [seriesTargets] and
    [outside] is [outsideBoundary]. *)
Fixpoint gap_loop (n : nat) (minimum : Z) (key : seriesKey) (tf : Frame) (cursor last : Z)
    (seen : gset Z) (outside : Z) (acc : Found) : run (gset Z * Z * Found) :=
  match n with
  | O => Ok (seen, outside, acc)
  | S n' =>
      if last <? cursor then failed "gap count exceeds range %s/%s/%s"
      else
        let outside := if negb (bool_decide (cursor ∈ seen)) && (cursor <? minimum) then outside + 1 else outside in
        match addTarget minimum key cursor acc with
        | Err e => Err e
        | Ok acc =>
            let seen := {[cursor]} ∪ seen in
            if bool_decide (n' = O) && negb (cursor =? last) then failed "gap count does not cover range %s/%s/%s"
            else
              let next := NextStartMS cursor tf in
              if next <=? cursor then failed "non-increasing gap %s/%s/%s"
              else gap_loop n' minimum key tf next last seen outside acc
        end
  end.

Fixpoint gap_ranges (minimum : Z) (key : seriesKey) (tf : Frame) (gaps : list auditGap)
    (seen : gset Z) (outside : Z) (acc : Found) : run (gset Z * Z * Found) :=
  match gaps with
  | [] => Ok (seen, outside, acc)
  | gap :: rest =>
      let '(AuditGap.mk first last count) := gap in
      if (count <=? 0) || (maxPlanTargets <? count) || (first <=? 0) || (last <? first)
      then failed "invalid gap %s/%s/%s: first=%d last=%d count=%d"
      else if negb (FloorStartMS first tf =? first) || negb (FloorStartMS last tf =? last)
      then failed "unaligned gap %s/%s/%s"
      else
        match gap_loop (Z.to_nat count) minimum key tf first last seen outside acc with
        | Err e => Err e
        | Ok (seen, outside, acc) => gap_ranges minimum key tf rest seen outside acc
        end
  end.

(** The missing bars reported for a series of a disabled timeframe; [None] is the
    overflow of [int]. *)
Fixpoint disabled_missing (gaps : list auditGap) (missing : Z) : option Z :=
  match gaps with
  | [] => Some missing
  | gap :: rest =>
      let count := gap.(AuditGap.Count) in
      if 0 <? count then
        if two63 - 1 - missing <? count then None else disabled_missing rest (missing + count)
      else disabled_missing rest missing
  end.

Definition reported_missing (series : auditSeries) : Z := default 0 series.(AuditSeries.InternalMissingBars).

(** [Found.mk ... Skipped{...}], with the fields in the order of the struct. *)
Definition skipped_series (ex symbol : string) (tf : Frame) (reason : string) (missing : Z) : Skipped :=
  Skipped.mk ex symbol (frame_name tf) reason missing.

(** The start no target may lie before: the retention of the timeframe and the
    official listing. *)
Definition minimum_start (options : PlanOptions) (asOf : Z) (policy : SymbolPolicy) (ex : string) (tf : Frame)
    (latest : Z) : Z :=
  let minimum :=
    if options.(PlanOptions.EnforceRetention) then
      let rule := RuleFor tf in
      match CutoffMS rule asOf with
      | Some cutoff => ceilStartMS cutoff tf
      | None =>
          if (0 <? rule.(Rule.KeepBars)) && (0 <? latest)
          then BarWindowStartMS tf (EndMS latest tf) rule.(Rule.KeepBars) else 0
      end
    else 0 in
  let listed := policy.(SymbolPolicy.ListedAtMS) in
  if (0 <? listed) && (minimum <? historyBoundaryStartMS listed ex tf)
  then historyBoundaryStartMS listed ex tf else minimum.

Definition bad_latest (latest : Z) (tf : Frame) (asOf : Z) : bool :=
  (latest <=? 0) || negb (FloorStartMS latest tf =? latest) || (asOf <=? EndMS latest tf).

(** The targets before the first candle, from the official listing on. *)
Definition leading_targets (options : PlanOptions) (asOf : Z) (policy : SymbolPolicy) (ex symbol : string)
    (tf : Frame) (latest minimum : Z) (series : auditSeries) (acc : Found) : run Found :=
  if options.(PlanOptions.IncludeLeading) && (0 <? policy.(SymbolPolicy.ListedAtMS))
     && (0 <? series.(AuditSeries.CanonicalBars)) && (0 <? series.(AuditSeries.FirstCanonicalMS))
  then
    if bad_latest latest tf asOf then failed "invalid latest closed bucket %s/%s/%s"
    else
      let first := historyBoundaryStartMS policy.(SymbolPolicy.ListedAtMS) ex tf in
      let first := if first <? minimum then minimum else first in
      let last := PreviousStartMS series.(AuditSeries.FirstCanonicalMS) tf in
      let last := if latest <? last then latest else last in
      add_range (range_fuel first last) minimum (ex, symbol, tf, "leading") tf first last acc
  else Ok acc.

(** [lowerStarts[key]]: timeframe name and first canonical start. *)
Notation lower_starts := (gmap string (gmap string Z)).

(** The loop over the lower periods of an empty series: [Index] panics on a name
    that is no timeframe. *)
Fixpoint lower_first (tf : Frame) (starts : list (string * Z)) (first : Z) : run Z :=
  match starts with
  | [] => Ok first
  | (lowerTF, start) :: rest =>
      match Normalize lowerTF with
      | Err _ => Err Panicked
      | Ok lower =>
          lower_first tf rest
            (if (Index lower <? Index tf) && ((first =? 0) || (start <? first)) then start else first)
      end
  end.

(** [first, kind] after the two conditions; [Ok None] is the [continue] of an
    empty series without a boundary. *)
Definition tail_start (options : PlanOptions) (policy : SymbolPolicy) (lower : lower_starts)
    (ex symbol : string) (tf : Frame) (latest : Z) (series : auditSeries) : run (option (Z * string)) :=
  if options.(PlanOptions.IncludeNoData) && (series.(AuditSeries.CanonicalBars) =? 0) then
    match (if policy.(SymbolPolicy.ListedAtMS) =? 0
           then lower_first tf (map_to_list (default ∅ (lower !! (ex ++ ":" ++ symbol)%string))) 0
           else Ok policy.(SymbolPolicy.ListedAtMS)) with
    | Err e => Err e
    | Ok first => if first =? 0 then Ok None else Ok (Some (historyBoundaryStartMS first ex tf, "no_data"))
    end
  else if options.(PlanOptions.IncludeTail) && (0 <? series.(AuditSeries.CanonicalBars))
          && (0 <? series.(AuditSeries.LastCanonicalMS)) && (series.(AuditSeries.LastCanonicalMS) <? latest)
  then Ok (Some (NextStartMS series.(AuditSeries.LastCanonicalMS) tf, "tail"))
  else Ok (Some (0, "")).

Definition tail_targets (options : PlanOptions) (asOf : Z) (policy : SymbolPolicy) (lower : lower_starts)
    (ex symbol : string) (tf : Frame) (latest minimum : Z) (series : auditSeries) (acc : Found) : run Found :=
  match tail_start options policy lower ex symbol tf latest series with
  | Err e => Err e
  | Ok None =>
      Ok (Found.skip (skipped_series ex symbol tf "no_data_without_authoritative_or_lower_period_boundary" 0) acc)
  | Ok (Some (first, kind)) =>
      if bool_decide (kind = "") then Ok acc
      else if bad_latest latest tf asOf then failed "invalid latest closed bucket %s/%s/%s"
      else
        let first := if first <? minimum then minimum else first in
        add_range (range_fuel first latest) minimum (ex, symbol, tf, kind) tf first latest acc
  end.

(** One series of a timeframe that is enabled and a symbol that is allowed. *)
Definition plan_gaps (options : PlanOptions) (asOf : Z) (lower : lower_starts) (policy : SymbolPolicy)
    (ex symbol : string) (tf : Frame) (resultLatest : Z) (series : auditSeries) (acc : Found) : run Found :=
  let latest := if series.(AuditSeries.LatestCompletedMS) <=? 0 then resultLatest
                else series.(AuditSeries.LatestCompletedMS) in
  let minimum := minimum_start options asOf policy ex tf latest in
  match gap_ranges minimum (ex, symbol, tf, "internal") tf series.(AuditSeries.GapRanges) ∅ 0 acc with
  | Err e => Err e
  | Ok (seen, outside, acc) =>
      if match series.(AuditSeries.InternalMissingBars) with
         | Some n => negb (Z.of_nat (size seen) =? n)
         | None => false
         end
      then failed "gap detail count mismatch %s/%s/%s: expected=%d actual=%d"
      else
        let acc := if 0 <? outside
                   then Found.skip (skipped_series ex symbol tf "outside_retention_or_listing_boundary" outside) acc
                   else acc in
        match leading_targets options asOf policy ex symbol tf latest minimum series acc with
        | Err e => Err e
        | Ok acc => tail_targets options asOf policy lower ex symbol tf latest minimum series acc
        end
  end.

(** The body of the loop over the series of a result. *)
Definition plan_series (options : PlanOptions) (asOf : Z) (lower : lower_starts) (ex : string) (tf : Frame)
    (resultLatest : Z) (series : auditSeries) (acc : Found) : run Found :=
  let symbol := ToUpper (TrimSpace series.(AuditSeries.Symbol)) in
  if bool_decide (symbol = "") then failed "empty gap symbol for %s/%s"
  else if negb (is_ok (ValidateForExchange ex (frame_name tf))) then
    match (if match series.(AuditSeries.InternalMissingBars) with Some n => 0 <=? n | None => false end
           then Some (reported_missing series)
           else disabled_missing series.(AuditSeries.GapRanges) 0) with
    | None => failed "disabled gap count overflows %s/%s/%s"
    | Some missing => Ok (Found.skip (skipped_series ex symbol tf "disabled_timeframe" missing) acc)
    end
  else
    let found := policies ← options.(PlanOptions.Policies); policies !! (ex ++ ":" ++ symbol)%string in
    let policy := default SymbolPolicy.zero found in
    if bool_decide (is_Some options.(PlanOptions.Policies)) && negb policy.(SymbolPolicy.Allowed) then
      let reason := if bool_decide (policy.(SymbolPolicy.Reason) = "")
                    then "missing_official_subscription_snapshot" else policy.(SymbolPolicy.Reason) in
      Ok (Found.skip (skipped_series ex symbol tf reason (reported_missing series)) acc)
    else plan_gaps options asOf lower policy ex symbol tf resultLatest series acc.

Fixpoint plan_series_list (options : PlanOptions) (asOf : Z) (lower : lower_starts) (ex : string) (tf : Frame)
    (resultLatest : Z) (list : list auditSeries) (acc : Found) : run Found :=
  match list with
  | [] => Ok acc
  | series :: rest =>
      match plan_series options asOf lower ex tf resultLatest series acc with
      | Err e => Err e
      | Ok acc => plan_series_list options asOf lower ex tf resultLatest rest acc
      end
  end.

(** ** The report *)

(** The evidence of available history: the first canonical start of a series by
    exchange and symbol, then timeframe. *)
Definition lower_series (exchange tf : string) (lower : lower_starts) (series : auditSeries) : lower_starts :=
  if (0 <? series.(AuditSeries.CanonicalBars)) && (0 <? series.(AuditSeries.FirstCanonicalMS))
     && (series.(AuditSeries.MisalignedBars) =? 0)
  then
    let key := (ToLower exchange ++ ":" ++ ToUpper series.(AuditSeries.Symbol))%string in
    <[key := <[tf := series.(AuditSeries.FirstCanonicalMS)]> (default ∅ (lower !! key))]> lower
  else lower.
Definition lowerStarts (results : list auditResult) : lower_starts :=
  foldl (fun lower result =>
    foldl (lower_series result.(AuditResult.Exchange) result.(AuditResult.Timeframe)) lower
      (default [] result.(AuditResult.series))) ∅ results.

Definition full_series (options : PlanOptions) : bool :=
  options.(PlanOptions.IncludeTail) || options.(PlanOptions.IncludeNoData) || options.(PlanOptions.IncludeLeading).

Definition plan_result (options : PlanOptions) (asOf : Z) (lower : lower_starts) (result : auditResult)
    (acc : Found) : run Found :=
  let ex := ToLower (TrimSpace result.(AuditResult.Exchange)) in
  if negb (bool_decide (ex = "binance")) && negb (bool_decide (ex = "okx")) then failed "unsupported gap exchange %q"
  else
    match Normalize result.(AuditResult.Timeframe) with
    | Err _ => failed "unsupported gap timeframe %q"
    | Ok tf =>
        if Index tf <? Index F15m then failed "unsupported gap timeframe %q"
        else
          match (if full_series options then result.(AuditResult.series)
                 else Some result.(AuditResult.IssueSeries)) with
          | None => failed "full series are required for tail/no-data planning: %s/%s"
          | Some list =>
              plan_series_list options asOf lower ex tf result.(AuditResult.LatestCompletedMS) list acc
          end
    end.

Fixpoint plan_results (options : PlanOptions) (asOf : Z) (lower : lower_starts) (results : list auditResult)
    (acc : Found) : run Found :=
  match results with
  | [] => Ok acc
  | result :: rest =>
      match plan_result options asOf lower result acc with
      | Err e => Err e
      | Ok acc => plan_results options asOf lower rest acc
      end
  end.

(** ** Grouping targets into tasks *)

Definition key_less : seriesKey → seriesKey → bool :=
  less_lex (less_str (fun '(ex, _, _, _) => ex))
    (less_lex (less_str (fun '(_, sy, _, _) => sy))
       (less_lex (less_by (fun '(_, _, tf, _) => Index tf)) (less_str (fun '(_, _, _, kind) => kind)))).

(** How many of [rest] share the window that starts at [start]. *)
Fixpoint window_more (start : Z) (rest : list Z) (tf source : Frame) (maximum : Z) : nat :=
  match rest with
  | [] => 0
  | next :: rest' =>
      if sourceSpan start (EndMS next tf) source maximum <=? maximum
      then S (window_more start rest' tf source maximum) else 0
  end.

Definition task_id (exchange symbol : string) (tf : Frame) (startMS endMS : Z) : string :=
  (exchange ++ ":" ++ symbol ++ ":" ++ frame_name tf ++ ":" ++ pretty startMS ++ ":" ++ pretty endMS)%string.

Definition new_task (key : seriesKey) (source : Frame) (start : Z) (selected : list Z) : Task :=
  let '(ex, symbol, tf, kind) := key in
  let endMS := EndMS (List.last selected start) tf in
  Task.mk (task_id ex symbol tf start endMS) ex symbol (frame_name tf) (frame_name source)
    start endMS selected kind.

(** The windows of one series; every round takes at least one start. *)
Fixpoint windows (fuel : nat) (key : seriesKey) (starts : list Z) {struct fuel} : run (list Task) :=
  match starts with
  | [] => Ok []
  | start :: rest =>
      match fuel with
      | O => Err OutOfFuel
      | S fuel' =>
          let '(ex, _, tf, _) := key in
          let source := sourceTimeframe ex tf in
          let maximum := maxSourceBars ex source in
          let last := window_more start rest tf source maximum in
          let selected := start :: take last rest in
          if maximum <? sourceSpan start (EndMS (List.last selected start) tf) source maximum
          then failed "target exceeds source span limit %s/%s/%s"
          else
            match windows fuel' key (drop last rest) with
            | Err e => Err e
            | Ok tasks => Ok (new_task key source start selected :: tasks)
            end
      end
  end.
Definition series_tasks (key : seriesKey) (starts : gset Z) : run (list Task) :=
  windows (size starts) key (sortedStarts starts).

Fixpoint all_tasks (keys : list seriesKey) (targets : gmap seriesKey (gset Z)) : run (list Task) :=
  match keys with
  | [] => Ok []
  | key :: rest =>
      match series_tasks key (default ∅ (targets !! key)) with
      | Err e => Err e
      | Ok tasks => match all_tasks rest targets with
                    | Err e => Err e
                    | Ok more => Ok (tasks ++ more)
                    end
      end
  end.

(** The zero [time.Time], in Unix milliseconds. *)
Definition zero_time : Z := -62135596800000.

Definition BuildPlanWithOptions (parse_time : string → result go_error Z) (now_text : string)
    (decoded : result go_error auditReport) (options : PlanOptions) : run Plan :=
  match decoded with
  | Err e => Err (Failed e)
  | Ok report =>
      if bool_decide (report.(AuditReport.Complete) = Some false) then failed "cannot repair an incomplete audit"
      else
        let asOfText := if bool_decide (report.(AuditReport.AsOf) = "") then report.(AuditReport.GeneratedAt)
                        else report.(AuditReport.AsOf) in
        match parse_time asOfText,
              (full_series options || options.(PlanOptions.EnforceRetention)) with
        | Err e, true => Err (Failed (Wrapf "invalid audit watermark: %w" e))
        | parsed, _ =>
            let asOf := match parsed with Ok t => t | Err _ => zero_time end in
            let generatedAt := if bool_decide (report.(AuditReport.GeneratedAt) = "") then now_text
                               else report.(AuditReport.GeneratedAt) in
            let results := report.(AuditReport.Results) in
            match plan_results options asOf (lowerStarts results) results Found.empty with
            | Err e => Err e
            | Ok found =>
                let keys := sort_slice key_less (fst <$> map_to_list found.(Found.targets)) in
                match all_tasks keys found.(Found.targets) with
                | Err e => Err e
                | Ok tasks => Ok (Plan.mk generatedAt tasks found.(Found.skipped))
                end
            end
        end
  end.

Definition BuildPlan (parse_time : string → result go_error Z) (now_text : string)
    (decoded : result go_error auditReport) : run Plan :=
  BuildPlanWithOptions parse_time now_text decoded PlanOptions.zero.

(** ** How the targets grow *)

(** [kept minimum x]: [addTarget] does not drop [x]. *)
Definition kept (minimum x : Z) : Prop := ¬ (0 < minimum ∧ x < minimum).

(** [acc'] has the targets of [acc] and those of [P], and no empty entry. *)
Definition no_empty (acc : Found) : Prop := ∀ key s, acc.(Found.targets) !! key = Some s → s ≠ ∅.
Definition grown (P : seriesKey → Z → Prop) (acc acc' : Found) : Prop :=
  (no_empty acc → no_empty acc') ∧
  ∀ key x, x ∈ Found.at_key acc' key ↔ x ∈ Found.at_key acc key ∨ P key x.

Lemma grown_refl acc : grown (λ _ _, False) acc acc.
Proof. split; [done|]. intros key x. tauto. Qed.

Lemma grown_trans P Q acc1 acc2 acc3 :
  grown P acc1 acc2 → grown Q acc2 acc3 → grown (λ key x, P key x ∨ Q key x) acc1 acc3.
Proof. intros [H1 H2] [H3 H4]. split; [auto|]. intros key x. rewrite H4, H2. tauto. Qed.

Lemma grown_iff P Q acc acc' : (∀ key x, P key x ↔ Q key x) → grown P acc acc' → grown Q acc acc'.
Proof. intros HPQ [H1 H2]. split; [done|]. intros key x. by rewrite H2, HPQ. Qed.

Lemma grown_skip P s acc acc' : grown P acc acc' → grown P acc (Found.skip s acc').
Proof. done. Qed.

Lemma addTarget_grown minimum key start acc acc' :
  addTarget minimum key start acc = Ok acc' → grown (λ k x, k = key ∧ x = start ∧ kept minimum x) acc acc'.
Proof.
  unfold addTarget, kept. destruct ((0 <? minimum) && (start <? minimum)) eqn:E.
  - intros [= <-]. split; [done|]. intros k x. zbool. split; [auto|]. intros [Hin|(_ & -> & Hk)]; [done|tauto].
  - apply andb_false_iff in E. destruct (bool_decide _) eqn:Eb; bprop.
    + intros [= <-]. split; [done|]. intros k x. split; [auto|]. intros [Hin|(-> & -> & _)]; [exact Hin|]. exact Eb.
    + cbv zeta. destruct (maxPlanTargets <? _); [intros Hf; discriminate Hf|]. intros [= <-]. split.
      * intros Hn k s. simpl. destruct (decide (k = key)) as [->|Hk]; simplify_map_eq; [set_solver|by apply Hn].
      * intros k x. unfold Found.at_key at 1. simpl.
        destruct (decide (k = key)) as [->|Hk]; simplify_map_eq.
        -- rewrite elem_of_union, elem_of_singleton. split; [intros [->|]|intros [|(_ & -> & _)]]; auto.
           right. split_and!; try done. destruct E; zbool; lia.
        -- change (default ∅ (acc.(Found.targets) !! k)) with (Found.at_key acc k). split; [auto|].
           intros [|(? & _)]; [done|]. congruence.
Qed.

(** What a run over several starts adds. *)
Definition run_of (minimum : Z) (key : seriesKey) (tf : Frame) (first last : Z) (k : seriesKey) (x : Z) : Prop :=
  k = key ∧ steps tf last first x ∧ kept minimum x.

Lemma run_of_next minimum key tf cursor last k x :
  cursor <= last →
  (k = key ∧ x = cursor ∧ kept minimum x) ∨ run_of minimum key tf (NextStartMS cursor tf) last k x
  ↔ run_of minimum key tf cursor last k x.
Proof. intros Hc. unfold run_of. rewrite (steps_inv tf last cursor x). tauto. Qed.

Lemma add_range_grown fuel minimum key tf cursor last acc acc' :
  add_range fuel minimum key tf cursor last acc = Ok acc' →
  grown (run_of minimum key tf cursor last) acc acc'.
Proof.
  revert cursor acc. induction fuel as [|fuel IH]; intros cursor acc; simpl.
  - destruct (last <? cursor) eqn:E; [|done]. intros [= <-]. zbool.
    eapply grown_iff; [|apply grown_refl]. intros k x. unfold run_of. rewrite steps_inv. lia.
  - destruct (last <? cursor) eqn:E; zbool.
    + intros [= <-]. eapply grown_iff; [|apply grown_refl]. intros k x. unfold run_of. rewrite steps_inv. lia.
    + destruct (addTarget _ _ _ _) as [acc1|] eqn:Ea; [|done]. intros H.
      eapply grown_iff; [|eapply grown_trans; [by eapply addTarget_grown|by eapply IH]].
      intros k x. by apply run_of_next.
Qed.

Lemma gap_loop_grown n minimum key tf cursor last seen outside acc seen' outside' acc' :
  gap_loop (S n) minimum key tf cursor last seen outside acc = Ok (seen', outside', acc') →
  grown (run_of minimum key tf cursor last) acc acc' ∧ cursor <= last ∧ steps tf last cursor last.
Proof.
  revert cursor seen outside acc. induction n as [|n IH]; intros cursor seen outside acc; simpl;
    destruct (last <? cursor) eqn:E; zbool; try done;
    destruct (addTarget _ _ _ _) as [acc1|] eqn:Ea; try done; apply addTarget_grown in Ea.
  - destruct (negb (cursor =? last)) eqn:El; [done|]. zbool. subst.
    destruct (NextStartMS last tf <=? last) eqn:En; zbool; [done|]. intros [= <- <- <-].
    split_and!; [|lia|by constructor]. eapply grown_iff; [|exact Ea].
    intros k x. rewrite <- run_of_next by lia. split; [auto|]. intros [|(_ & Hs & _)]; [done|].
    apply steps_inv in Hs. lia.
  - destruct (NextStartMS cursor tf <=? cursor) eqn:En; zbool; [done|]. intros Hloop.
    change (gap_loop (S n) minimum key tf (NextStartMS cursor tf) last ({[cursor]} ∪ seen)
      (if negb (bool_decide (cursor ∈ seen)) && (cursor <? minimum) then outside + 1 else outside) acc1
      = Ok (seen', outside', acc')) in Hloop.
    destruct (IH _ _ _ _ Hloop) as (Hg & _ & Hs). split_and!; [|done|by constructor].
    eapply grown_iff; [|by eapply grown_trans]. intros k x. by apply run_of_next.
Qed.

Definition gaps_of (minimum : Z) (key : seriesKey) (tf : Frame) (gaps : list auditGap) (k : seriesKey) (x : Z) : Prop :=
  ∃ gap, gap ∈ gaps ∧ run_of minimum key tf gap.(AuditGap.FirstMS) gap.(AuditGap.LastMS) k x.

(** A gap the planner goes through: positive, on the grid. *)
Definition gap_accepted (tf : Frame) (gap : auditGap) : Prop :=
  0 < gap.(AuditGap.FirstMS) <= gap.(AuditGap.LastMS) ∧
  FloorStartMS gap.(AuditGap.FirstMS) tf = gap.(AuditGap.FirstMS) ∧
  FloorStartMS gap.(AuditGap.LastMS) tf = gap.(AuditGap.LastMS).

Lemma gap_ranges_grown minimum key tf gaps seen outside acc seen' outside' acc' :
  gap_ranges minimum key tf gaps seen outside acc = Ok (seen', outside', acc') →
  grown (gaps_of minimum key tf gaps) acc acc' ∧ Forall (gap_accepted tf) gaps.
Proof.
  revert seen outside acc. induction gaps as [|[first last count] gaps IH]; intros seen outside acc; simpl.
  - intros [= <- <- <-]. split; [|constructor]. eapply grown_iff; [|apply grown_refl].
    intros k x. split; [done|]. intros (g & Hg & _). by apply elem_of_nil in Hg.
  - destruct (_ || _) eqn:E; [done|]. zbool. destruct (negb _ || negb _) eqn:Ef; [done|]. zbool.
    destruct (gap_loop _ _ _ _ _ _ _ _ _) as [[[seen1 outside1] acc1]|] eqn:El; [|done].
    destruct (Z.to_nat count) as [|n] eqn:En; [lia|]. apply gap_loop_grown in El as (Hg & _ & _).
    intros Hrest. destruct (IH _ _ _ Hrest) as [Hg2 Hall]. split; [|constructor; [|done]; done].
    eapply grown_iff; [|by eapply grown_trans]. intros k x. unfold gaps_of. split.
    + intros [Hr|(g & Hin & Hr)]; [exists (AuditGap.mk first last count); split; [left|done]|].
      exists g. split; [by right|done].
    + intros (g & Hin & Hr). apply elem_of_cons in Hin as [->|Hin]; [by left|right; by exists g].
Qed.

(** ** The targets of a report *)

Definition kind_enabled (options : PlanOptions) (kind : string) : Prop :=
  kind = "internal" ∨ (kind = "leading" ∧ options.(PlanOptions.IncludeLeading) = true) ∨
  (kind = "tail" ∧ options.(PlanOptions.IncludeTail) = true) ∨
  (kind = "no_data" ∧ options.(PlanOptions.IncludeNoData) = true).

(** Every target of a series: of an enabled kind, and not before the minimum. *)
Definition series_target (options : PlanOptions) (asOf : Z) (policy : SymbolPolicy) (ex symbol : string)
    (tf : Frame) (k : seriesKey) (x : Z) : Prop :=
  ∃ kind latest, k = (ex, symbol, tf, kind) ∧ kind_enabled options kind ∧
    kept (minimum_start options asOf policy ex tf latest) x.

Lemma leading_targets_grown options asOf policy ex symbol tf latest minimum series acc acc' :
  leading_targets options asOf policy ex symbol tf latest minimum series acc = Ok acc' →
  ∃ P, grown P acc acc' ∧ ∀ k x, P k x →
    k = (ex, symbol, tf, "leading") ∧ options.(PlanOptions.IncludeLeading) = true ∧ kept minimum x.
Proof.
  unfold leading_targets. destruct (_ && _) eqn:E.
  - zbool. destruct (bad_latest _ _ _); [done|]. intros Hr%add_range_grown. eexists. split; [exact Hr|].
    intros k x (-> & _ & Hk). done.
  - intros [= <-]. exists (λ _ _, False). split; [apply grown_refl|done].
Qed.

Lemma tail_targets_grown options asOf policy lower ex symbol tf latest minimum series acc acc' :
  tail_targets options asOf policy lower ex symbol tf latest minimum series acc = Ok acc' →
  ∃ P, grown P acc acc' ∧ ∀ k x, P k x → ∃ kind, k = (ex, symbol, tf, kind) ∧ kept minimum x ∧
    ((kind = "tail" ∧ options.(PlanOptions.IncludeTail) = true) ∨
     (kind = "no_data" ∧ options.(PlanOptions.IncludeNoData) = true)).
Proof.
  unfold tail_targets. destruct (tail_start _ _ _ _ _ _ _ _) as [[[first kind]|]|] eqn:Es; [| |done].
  - destruct (bool_decide (kind = "")) eqn:Ek; bprop.
    { intros [= <-]. exists (λ _ _, False). split; [apply grown_refl|done]. }
    destruct (bad_latest _ _ _); [done|]. intros Hr%add_range_grown. eexists. split; [exact Hr|].
    intros k x (-> & _ & Hk). exists kind. split_and!; [done..|]. revert Es. unfold tail_start.
    repeat dm; intros [= <- <-]; zbool; try done; auto.
  - intros [= <-]. exists (λ _ _, False). split; [by apply grown_skip, grown_refl|done].
Qed.

Definition latest_of (resultLatest : Z) (series : auditSeries) : Z :=
  if series.(AuditSeries.LatestCompletedMS) <=? 0 then resultLatest else series.(AuditSeries.LatestCompletedMS).

Lemma plan_gaps_grown options asOf lower policy ex symbol tf rl series acc acc' :
  plan_gaps options asOf lower policy ex symbol tf rl series acc = Ok acc' →
  ∃ P, grown P acc acc' ∧ Forall (gap_accepted tf) series.(AuditSeries.GapRanges) ∧
    (∀ k x, P k x → series_target options asOf policy ex symbol tf k x) ∧
    (∀ x, P (ex, symbol, tf, "internal") x ↔
       gaps_of (minimum_start options asOf policy ex tf (latest_of rl series)) (ex, symbol, tf, "internal") tf
         series.(AuditSeries.GapRanges) (ex, symbol, tf, "internal") x).
Proof.
  unfold plan_gaps. fold (latest_of rl series). set (latest := latest_of rl series). set (minimum := minimum_start _ _ _ _ _ _).
  destruct (gap_ranges _ _ _ _ _ _ _) as [[[seen outside] acc1]|] eqn:Eg; [|done].
  destruct (match AuditSeries.InternalMissingBars series with Some _ => _ | None => _ end); [done|].
  apply gap_ranges_grown in Eg as [Hg Hall].
  set (acc2 := if 0 <? outside then _ else acc1).
  destruct (leading_targets _ _ _ _ _ _ _ _ _ _) as [acc3|] eqn:El; [|done]. intros Ht.
  apply leading_targets_grown in El as (P2 & Hg2 & HP2). apply tail_targets_grown in Ht as (P3 & Hg3 & HP3).
  assert (Hg1 : grown (gaps_of minimum (ex, symbol, tf, "internal") tf series.(AuditSeries.GapRanges)) acc acc2)
    by (subst acc2; destruct (0 <? outside); [by apply grown_skip|done]).
  eexists. split; [exact (grown_trans _ _ _ _ _ (grown_trans _ _ _ _ _ Hg1 Hg2) Hg3)|].
  split; [done|]. split.
  - intros k x [[(g & _ & -> & _ & Hk)|(-> & Ho & Hk)%HP2]|(kind & -> & Hk & Ho)%HP3];
      eexists _, latest; (split; [done|]); (split; [unfold kind_enabled; tauto|done]).
  - intros x. fold minimum. split; [|auto]. intros [[H|(H & _)%HP2]|(kind & H & _ & Hk)%HP3]; [done|done|].
    injection H as <-. destruct Hk as [[Hk _]|[Hk _]]; done.
Qed.

(** The policy a symbol is planned under. *)
Definition policy_of (options : PlanOptions) (ex symbol : string) : SymbolPolicy :=
  default SymbolPolicy.zero (policies ← options.(PlanOptions.Policies); policies !! (ex ++ ":" ++ symbol)%string).
Definition policy_allows (options : PlanOptions) (ex symbol : string) : Prop :=
  options.(PlanOptions.Policies) = None ∨ (policy_of options ex symbol).(SymbolPolicy.Allowed) = true.

(** A series the planner looks for gaps in. *)
Definition planned_series (options : PlanOptions) (ex : string) (tf : Frame) (series : auditSeries) : Prop :=
  tf ≠ F3D ∧ policy_allows options ex (ToUpper (TrimSpace series.(AuditSeries.Symbol))).

(** What a part of the planner adds: [Q] bounds the targets, [I] is exactly what
    the gaps ask for, [R] is what a success says of the report. *)
Definition adds (I Q : seriesKey → Z → Prop) (R : Prop) (acc acc' : Found) : Prop :=
  ∃ P, grown P acc acc' ∧ (∀ k x, P k x → Q k x) ∧ (∀ k x, k.2 = "internal" → P k x ↔ I k x) ∧ R.

Lemma adds_none acc acc' :
  grown (λ _ _, False) acc acc' → adds (λ _ _, False) (λ _ _, False) True acc acc'.
Proof. intros H. by exists (λ _ _, False). Qed.

Lemma adds_trans I1 Q1 R1 I2 Q2 R2 I Q (R : Prop) acc1 acc2 acc3 :
  adds I1 Q1 R1 acc1 acc2 → adds I2 Q2 R2 acc2 acc3 →
  (∀ k x, I1 k x ∨ I2 k x ↔ I k x) → (∀ k x, Q1 k x ∨ Q2 k x → Q k x) → (R1 → R2 → R) →
  adds I Q R acc1 acc3.
Proof.
  intros (P1 & G1 & HQ1 & HI1 & HR1) (P2 & G2 & HQ2 & HI2 & HR2) HI HQ HR. eexists.
  split; [by eapply grown_trans|]. split_and!; [|intros k x Hk; rewrite HI1, HI2 by done; apply HI|by apply HR].
  intros k x [H|H]; apply HQ; auto.
Qed.

Lemma adds_iff I Q R I' Q' (R' : Prop) acc acc' :
  adds I Q R acc acc' → (∀ k x, I k x ↔ I' k x) → (∀ k x, Q k x → Q' k x) → (R → R') → adds I' Q' R' acc acc'.
Proof.
  intros (P & G & HQ & HI & HR) HI' HQ' HR'. exists P. split_and!; auto. intros k x Hk. by rewrite HI, HI'.
Qed.

(** *** One series *)

Definition series_symbol (series : auditSeries) : string := ToUpper (TrimSpace series.(AuditSeries.Symbol)).

Definition series_internal (options : PlanOptions) (asOf : Z) (ex : string) (tf : Frame) (rl : Z)
    (series : auditSeries) (k : seriesKey) (x : Z) : Prop :=
  planned_series options ex tf series ∧
  gaps_of (minimum_start options asOf (policy_of options ex (series_symbol series)) ex tf (latest_of rl series))
    (ex, series_symbol series, tf, "internal") tf series.(AuditSeries.GapRanges) k x.
Definition series_bound (options : PlanOptions) (asOf : Z) (ex : string) (tf : Frame)
    (series : auditSeries) (k : seriesKey) (x : Z) : Prop :=
  series_symbol series ≠ "" ∧ planned_series options ex tf series ∧
  series_target options asOf (policy_of options ex (series_symbol series)) ex (series_symbol series) tf k x.
Definition series_checked (options : PlanOptions) (ex : string) (tf : Frame) (series : auditSeries) : Prop :=
  series_symbol series ≠ "" ∧
  (planned_series options ex tf series → Forall (gap_accepted tf) series.(AuditSeries.GapRanges)).

Lemma disabled_3D ex tf : is_ok (ValidateForExchange ex (frame_name tf)) = false ↔ tf = F3D.
Proof. by destruct tf. Qed.

(** A series that is only reported as skipped. *)
Lemma unplanned_adds options asOf ex tf rl series s acc :
  series_symbol series ≠ "" → ¬ planned_series options ex tf series →
  adds (series_internal options asOf ex tf rl series) (series_bound options asOf ex tf series)
    (series_checked options ex tf series) acc (Found.skip s acc).
Proof.
  intros Hs Hn. eapply adds_iff; [apply adds_none, grown_skip, grown_refl|..].
  - intros k x. split; [done|]. intros [H _]. by apply Hn.
  - done.
  - intros _. split; [done|]. intros H. by destruct Hn.
Qed.

Lemma plan_series_adds options asOf lower ex tf rl series acc acc' :
  plan_series options asOf lower ex tf rl series acc = Ok acc' →
  adds (series_internal options asOf ex tf rl series) (series_bound options asOf ex tf series)
    (series_checked options ex tf series) acc acc'.
Proof.
  unfold plan_series. fold (series_symbol series). set (symbol := series_symbol series).
  destruct (bool_decide (symbol = "")) eqn:Es; [done|]. bprop.
  destruct (negb _) eqn:Ed; zbool.
  - apply disabled_3D in Ed. match goal with |- match ?e with Some _ => _ | None => _ end = _ → _ => destruct e end; [|done].
    intros [= <-]. apply unplanned_adds; [done|]. intros [H _]. done.
  - assert (tf ≠ F3D) as Htf by (intros ->; done).
    change (default SymbolPolicy.zero _) with (policy_of options ex symbol).
    destruct (_ && _) eqn:Ep.
    + apply andb_true_iff in Ep as [Ep Ea]. bprop. intros [= <-]. apply unplanned_adds; [done|].
      intros [_ [H|H]].
      * rewrite H in Ep. by destruct Ep.
      * fold (series_symbol series) in H. fold symbol in H. congruence.
    + intros (P & Hg & Hall & HP & Hi)%plan_gaps_grown.
      assert (planned_series options ex tf series) as Hpl.
      { split; [done|]. fold (series_symbol series). fold symbol. unfold policy_allows.
        apply andb_false_iff in Ep as [Ep|Ep]; bprop; [left|by right].
        destruct (PlanOptions.Policies options); [|done]. destruct Ep. eauto. }
      exists P. split_and!; [done|..].
      * intros k x Hk. split_and!; [done|done|]. by apply HP.
      * intros k x Hk. split.
        -- intros HPk. destruct (HP k x HPk) as (kind & l & -> & _). simpl in Hk. subst kind.
           split; [done|]. by apply Hi.
        -- intros [_ H]. pose proof H as (g & _ & -> & _). by apply Hi.
      * split; [done|]. by intros _.
Qed.

(** *** The series of a result, and the results of a report *)

Lemma plan_series_list_adds options asOf lower ex tf rl list acc acc' :
  plan_series_list options asOf lower ex tf rl list acc = Ok acc' →
  adds (λ k x, ∃ s, s ∈ list ∧ series_internal options asOf ex tf rl s k x)
    (λ k x, ∃ s, s ∈ list ∧ series_bound options asOf ex tf s k x)
    (Forall (series_checked options ex tf) list) acc acc'.
Proof.
  revert acc. induction list as [|s list IH]; intros acc; simpl.
  - intros [= <-]. eapply adds_iff; [apply adds_none, grown_refl|..]; [|done|by constructor].
    intros k x. split; [done|]. intros (s & H & _). by apply elem_of_nil in H.
  - destruct (plan_series _ _ _ _ _ _ _ _) as [acc1|] eqn:Es; [|done]. intros Hl.
    eapply adds_trans; [by eapply plan_series_adds|by eapply IH|..].
    + intros k x. split.
      * intros [H|(s' & Hs & H)]; [exists s; split; [left|done]|exists s'; split; [by right|done]].
      * intros (s' & [->|Hs]%elem_of_cons & H); [by left|right; eauto].
    + intros k x [H|(s' & Hs & H)]; [exists s; split; [left|done]|exists s'; split; [by right|done]].
    + intros H1 H2. by constructor.
Qed.

Definition result_exchange (result : auditResult) : string := ToLower (TrimSpace result.(AuditResult.Exchange)).
Definition result_series (options : PlanOptions) (result : auditResult) : list auditSeries :=
  if full_series options then default [] result.(AuditResult.series) else result.(AuditResult.IssueSeries).

(** [s] is a series of [result], whose timeframe is [tf]. *)
Definition result_has (options : PlanOptions) (result : auditResult) (tf : Frame) (s : auditSeries) : Prop :=
  result.(AuditResult.Timeframe) = frame_name tf ∧ s ∈ result_series options result.

Definition result_checked (options : PlanOptions) (result : auditResult) : Prop :=
  (result_exchange result = "binance" ∨ result_exchange result = "okx") ∧
  ∃ tf, result.(AuditResult.Timeframe) = frame_name tf ∧ Index F15m <= Index tf ∧
    Forall (series_checked options (result_exchange result) tf) (result_series options result).

Lemma plan_result_adds options asOf lower result acc acc' :
  plan_result options asOf lower result acc = Ok acc' →
  adds (λ k x, ∃ tf s, result_has options result tf s ∧
          series_internal options asOf (result_exchange result) tf result.(AuditResult.LatestCompletedMS) s k x)
    (λ k x, ∃ tf s, result_has options result tf s ∧ series_bound options asOf (result_exchange result) tf s k x)
    (result_checked options result) acc acc'.
Proof.
  unfold plan_result. fold (result_exchange result). destruct (_ && _) eqn:Ee; [done|].
  destruct (Normalize _) as [tf|] eqn:En; [|done]. apply Normalize_Ok in En.
  destruct (_ <? _) eqn:Ei; zbool; [done|].
  destruct (if full_series options then _ else _) as [list|] eqn:El; [|done].
  assert (list = result_series options result) as -> by
    (unfold result_series; destruct (full_series options); [by rewrite El|congruence]).
  intros H%plan_series_list_adds.
  assert (∀ s tf', result_has options result tf' s ↔ s ∈ result_series options result ∧ tf' = tf) as Hhas.
  { intros s tf'. unfold result_has. rewrite En. split.
    - intros [H1 H2]. split; [done|]. by apply frame_name_inj in H1.
    - by intros [? ->]. }
  eapply adds_iff; [exact H|..].
  - intros k x. split.
    + intros (s & Hs & Hi). exists tf, s. by rewrite Hhas.
    + intros (tf' & s & [Hs ->]%Hhas & Hi). by exists s.
  - intros k x (s & Hs & Hi). exists tf, s. by rewrite Hhas.
  - intros Hall. split; [|by exists tf].
    apply andb_false_iff in Ee as [Ee|Ee]; bprop; auto.
Qed.

Lemma plan_results_adds options asOf lower results acc acc' :
  plan_results options asOf lower results acc = Ok acc' →
  adds (λ k x, ∃ result tf s, result ∈ results ∧ result_has options result tf s ∧
          series_internal options asOf (result_exchange result) tf result.(AuditResult.LatestCompletedMS) s k x)
    (λ k x, ∃ result tf s, result ∈ results ∧ result_has options result tf s ∧
          series_bound options asOf (result_exchange result) tf s k x)
    (Forall (result_checked options) results) acc acc'.
Proof.
  revert acc. induction results as [|r results IH]; intros acc; simpl.
  - intros [= <-]. eapply adds_iff; [apply adds_none, grown_refl|..]; [|done|by constructor].
    intros k x. split; [done|]. intros (r & _ & _ & H & _). by apply elem_of_nil in H.
  - destruct (plan_result _ _ _ _ _) as [acc1|] eqn:Es; [|done]. intros Hl.
    eapply adds_trans; [by eapply plan_result_adds|by eapply IH|..].
    + intros k x. split.
      * intros [(tf & s & H)|(r' & tf & s & Hr & H)].
        -- exists r, tf, s. split; [left|done].
        -- exists r', tf, s. split; [by right|done].
      * intros (r' & tf & s & [->|Hr]%elem_of_cons & H); [left|right]; eauto 10.
    + intros k x [(tf & s & H)|(r' & tf & s & Hr & H)].
      * exists r, tf, s. split; [left|done].
      * exists r', tf, s. split; [by right|done].
    + intros H1 H2. by constructor.
Qed.

(** ** Windows *)

(** A task for the series [key] that one request of its exchange can serve. *)
Record task_ok (key : seriesKey) (t : Task) : Prop := {
  task_key : (t.(Task.Exchange), t.(Task.Symbol), t.(Task.Timeframe), t.(Task.Kind))
    = let '(ex, symbol, tf, kind) := key in (ex, symbol, frame_name tf, kind);
  task_source : let '(ex, _, tf, _) := key in t.(Task.SourceTimeframe) = frame_name (sourceTimeframe ex tf);
  task_start : head t.(Task.TargetStarts) = Some t.(Task.StartMS);
  task_sorted : key_sorted id t.(Task.TargetStarts);
  task_end : let '(_, _, tf, _) := key in
    t.(Task.EndMS) = EndMS (List.last t.(Task.TargetStarts) t.(Task.StartMS)) tf;
  task_span : let '(ex, _, tf, _) := key in
    let source := sourceTimeframe ex tf in let maximum := maxSourceBars ex source in
    sourceSpan t.(Task.StartMS) t.(Task.EndMS) source maximum <= maximum;
}.

Lemma new_task_ok key start selected :
  key_sorted id (start :: selected) →
  (let '(ex, _, tf, _) := key in
   let source := sourceTimeframe ex tf in let maximum := maxSourceBars ex source in
   sourceSpan start (EndMS (List.last (start :: selected) start) tf) source maximum <= maximum) →
  task_ok key (new_task key (let '(ex, _, tf, _) := key in sourceTimeframe ex tf) start (start :: selected)).
Proof. destruct key as [[[ex symbol] tf] kind]. intros Hs H. by constructor. Qed.

Lemma windows_spec fuel key starts :
  (length starts <= fuel)%nat → key_sorted id starts →
  match windows fuel key starts with
  | Ok tasks => concat (Task.TargetStarts <$> tasks) = starts ∧ Forall (task_ok key) tasks
  | Err e => ∃ text, e = Failed (Errorf text)
  end.
Proof.
  revert starts. induction fuel as [|fuel IH]; intros [|start rest] Hl Hsort; simpl in Hl; try lia; try done.
  cbn [windows]. pose proof (new_task_ok key start) as Hok. destruct key as [[[ex symbol] tf] kind].
  set (n := window_more _ _ _ _ _).
  assert (Hsplit : start :: rest = (start :: take n rest) ++ drop n rest) by (simpl; by rewrite take_drop).
  unfold key_sorted in Hsort. rewrite Hsplit in Hsort. apply StronglySorted_app in Hsort as (_ & Hsort1 & Hsort2).
  specialize (Hok (take n rest) Hsort1). cbv zeta.
  destruct (maxSourceBars ex (sourceTimeframe ex tf) <? _) eqn:Es; [by eexists|]. zbool. specialize (Hok Es).
  specialize (IH (drop n rest)). rewrite length_drop in IH. specialize (IH ltac:(lia) Hsort2).
  destruct (windows fuel _ _) as [tasks|]; [|done]. destruct IH as [IH1 IH2].
  split; [|by constructor]. rewrite fmap_cons. cbn [concat new_task Task.TargetStarts].
  rewrite IH1. simpl. by rewrite take_drop.
Qed.

Lemma elem_of_sortedStarts x s : x ∈ sortedStarts s ↔ x ∈ s.
Proof. unfold sortedStarts. by rewrite elem_of_sort_by, elem_of_elements. Qed.

Lemma sortedStarts_sorted s : key_sorted id (sortedStarts s).
Proof. apply sort_by_sorted. rewrite list_fmap_id. apply NoDup_elements. Qed.

Lemma length_sortedStarts s : length (sortedStarts s) = size s.
Proof. unfold sortedStarts. by rewrite length_sort_by. Qed.

(** The starts of all tasks, with their series. *)
Definition task_name (t : Task) : string * string * string * string :=
  (t.(Task.Exchange), t.(Task.Symbol), t.(Task.Timeframe), t.(Task.Kind)).
Definition key_name (key : seriesKey) : string * string * string * string :=
  let '(ex, symbol, tf, kind) := key in (ex, symbol, frame_name tf, kind).

Lemma key_name_inj key key' : key_name key = key_name key' → key = key'.
Proof.
  destruct key as [[[??]?]?], key' as [[[??]?]?]. simpl. intros [= -> -> H%frame_name_inj ->]. by rewrite H.
Qed.

Lemma task_ok_name key t : task_ok key t → task_name t = key_name key.
Proof. intros [H _ _ _ _ _]. by destruct key as [[[??]?]?]. Qed.

Definition task_targets (tasks : list Task) : list (string * string * string * string * Z) :=
  t ← tasks; (λ x, (task_name t, x)) <$> t.(Task.TargetStarts).

Lemma task_targets_key key tasks :
  Forall (task_ok key) tasks →
  task_targets tasks = (λ x, (key_name key, x)) <$> concat (Task.TargetStarts <$> tasks).
Proof.
  induction 1 as [|t tasks Ht _ IH]; [done|]. rewrite fmap_cons. cbn [concat]. rewrite fmap_app, <- IH.
  unfold task_targets. rewrite bind_cons. by rewrite (task_ok_name key t Ht).
Qed.

Lemma series_tasks_spec key s :
  match series_tasks key s with
  | Ok tasks => task_targets tasks = (λ x, (key_name key, x)) <$> sortedStarts s ∧ Forall (task_ok key) tasks
  | Err e => ∃ text, e = Failed (Errorf text)
  end.
Proof.
  unfold series_tasks. pose proof (windows_spec (size s) key (sortedStarts s)) as H.
  rewrite length_sortedStarts in H. specialize (H ltac:(lia) (sortedStarts_sorted s)). destruct (windows _ _ _) as [tasks|]; [|done].
  destruct H as [H1 H2]. split; [|done]. by rewrite (task_targets_key key), H1.
Qed.

Lemma all_tasks_spec keys targets :
  NoDup keys →
  match all_tasks keys targets with
  | Ok tasks =>
      NoDup (task_targets tasks) ∧ Forall (λ t, ∃ key, key ∈ keys ∧ task_ok key t) tasks ∧
      ∀ name x, (name, x) ∈ task_targets tasks ↔
        ∃ key, key ∈ keys ∧ name = key_name key ∧ x ∈ default ∅ (targets !! key)
  | Err e => ∃ text, e = Failed (Errorf text)
  end.
Proof.
  induction 1 as [|key keys Hk Hnd IH]; simpl.
  - split_and!; [constructor|constructor|]. intros name x. split; [by intros ?%elem_of_nil|].
    intros (key & H & _). by apply elem_of_nil in H.
  - pose proof (series_tasks_spec key (default ∅ (targets !! key))) as Hs.
    destruct (series_tasks _ _) as [tasks|]; [|done]. destruct (all_tasks _ _) as [more|]; [|done].
    destruct Hs as [Hs Hok]. destruct IH as (IHn & IHo & IHt).
    assert (task_targets (tasks ++ more) = task_targets tasks ++ task_targets more) as ->
      by apply bind_app.
    split_and!.
    + apply NoDup_app. split_and!; [|intros [name x]|done].
      * rewrite Hs. apply NoDup_fmap_2; [by intros ?? [= ->]|].
        rewrite <- (list_fmap_id (sortedStarts _)). apply key_sorted_NoDup, sortedStarts_sorted.
      * rewrite Hs, IHt. intros (y & [= -> ->] & _)%list_elem_of_fmap (key' & Hk' & En & _).
        apply key_name_inj in En as <-. done.
    + apply Forall_app. split; [|eapply Forall_impl; [exact IHo|]; intros t (k & ? & ?); exists k; split; [by right|done]].
      eapply Forall_impl; [exact Hok|]. intros t Ht. exists key. split; [left|done].
    + intros name x. rewrite elem_of_app, Hs, IHt, list_elem_of_fmap. split.
      * intros [(y & [= -> ->] & Hy)|(k & Hkin & H)]; [exists key|exists k; split; [by right|done]].
        split_and!; [left|done|by apply elem_of_sortedStarts].
      * intros (k & [->|Hkin]%elem_of_cons & -> & Hx); [left|right; by exists k].
        exists x. split; [done|by apply elem_of_sortedStarts].
Qed.

(** ** Starts on the grid *)

(** A positive instant that is its own floor is on the grid: the weeks before the
    first Monday of 1970 floor to a Monday before 1970 or after the instant. *)
Lemma floor_positive f t : 0 < t <= MaxTS → FloorStartMS t f = t → aligned f t.
Proof.
  intros Ht Hf. destruct (decide (grid f 0 <= t)) as [Hg|Hg].
  { rewrite <- Hf. apply floor_aligned. split; lia. }
  assert (Hw : f = F1W ∨ f = F2W) by (destruct f; auto; exfalso; apply Hg; destruct Ht as [Ht _]; apply Z.lt_le_incl; exact Ht).
  assert (Ht4 : 0 < t < 4 * DayMS) by (destruct (grid_0 f); unfold DayMS in *; lia).
  assert (Hd : day_of t = 0 ∨ day_of t = 1 ∨ day_of t = 2 ∨ day_of t = 3)
    by (unfold day_of, DayMs, DayMS in *; zdiv).
  exfalso. revert Hf. unfold FloorStartMS. rewrite Date_of_day, weekdayOffset_mod.
  destruct Hw as [-> | ->]; destruct Hd as [-> | [-> | [-> | ->]]]; vm_compute; intros Hf; unfold DayMS in Ht4; lia.
Qed.

Lemma gap_accepted_aligned tf gap :
  gap_accepted tf gap → gap.(AuditGap.LastMS) <= MaxTS →
  aligned tf gap.(AuditGap.FirstMS) ∧ aligned tf gap.(AuditGap.LastMS).
Proof. intros (? & ? & ?) ?. split; apply floor_positive; lia. Qed.

(** ** What a plan holds *)

Lemma key_less_order : LessOrder key_less.
Proof. apply _. Qed.

(** A returned plan: the targets of the report, cut into tasks. *)
Lemma BuildPlan_inv parse_time now_text report options plan :
  BuildPlanWithOptions parse_time now_text (Ok report) options = Ok plan →
  ∃ asOf found,
    (asOf = zero_time ∨ ∃ text, parse_time text = Ok asOf) ∧
    (options.(PlanOptions.EnforceRetention) = true → parse_time
      (if bool_decide (report.(AuditReport.AsOf) = "") then report.(AuditReport.GeneratedAt)
       else report.(AuditReport.AsOf)) = Ok asOf) ∧
    plan_results options asOf (lowerStarts report.(AuditReport.Results)) report.(AuditReport.Results) Found.empty
      = Ok found ∧
    NoDup (task_targets plan.(Plan.Tasks)) ∧
    Forall (λ t, ∃ key x, x ∈ Found.at_key found key ∧ task_ok key t) plan.(Plan.Tasks) ∧
    (∀ name x, (name, x) ∈ task_targets plan.(Plan.Tasks) ↔
       ∃ key, name = key_name key ∧ x ∈ Found.at_key found key).
Proof.
  unfold BuildPlanWithOptions. destruct (bool_decide (_ = Some false)); [done|]. cbv zeta.
  set (text := if bool_decide (AuditReport.AsOf report = "") then _ else _).
  set (needed := full_series options || _).
  set (asOf := match parse_time text with Ok t => t | Err _ => zero_time end).
  intros H.
  assert (Hplan : (needed = true → parse_time text = Ok asOf) ∧
    match plan_results options asOf (lowerStarts report.(AuditReport.Results)) report.(AuditReport.Results) Found.empty with
    | Err e => Err e
    | Ok found =>
        match all_tasks (sort_slice key_less (fst <$> map_to_list found.(Found.targets))) found.(Found.targets) with
        | Err e => Err e
        | Ok tasks => Ok (Plan.mk (if bool_decide (report.(AuditReport.GeneratedAt) = "") then now_text
                                   else report.(AuditReport.GeneratedAt)) tasks found.(Found.skipped))
        end
    end = Ok plan).
  { unfold asOf. destruct (parse_time text) eqn:Ep, needed eqn:En; try done. }
  clear H. destruct Hplan as [Hp H]. exists asOf.
  destruct (plan_results _ _ _ _ _) as [found|] eqn:Er; [|done]. exists found.
  set (keys := sort_slice _ _) in H.
  assert (Hnd : NoDup keys).
  { unfold keys. rewrite sort_slice_perm. apply NoDup_fst_map_to_list. }
  assert (Hkeys : ∀ key, key ∈ keys ↔ is_Some (found.(Found.targets) !! key)).
  { intros key. unfold keys. rewrite elem_of_sort_slice, list_elem_of_fmap. split.
    - intros ([k s] & -> & Hk%elem_of_map_to_list). eauto.
    - intros [s Hs]. exists (key, s). split; [done|]. by apply elem_of_map_to_list. }
  pose proof (all_tasks_spec keys found.(Found.targets) Hnd) as Hall.
  destruct (all_tasks _ _) as [tasks|]; [|done]. injection H as <-. simpl.
  destruct Hall as (H1 & H2 & H3).
  pose proof (plan_results_adds _ _ _ _ _ _ Er) as (P & [Hne _] & _).
  specialize (Hne ltac:(by intros ???)).
  split_and!; [| |done|done| |].
  - unfold asOf. destruct (parse_time text) eqn:Ep; [right; eauto|by left].
  - intros He. apply Hp. unfold needed. rewrite He. apply orb_true_r.
  - eapply Forall_impl; [exact H2|]. intros t (key & [s Hs]%Hkeys & Ht). exists key.
    destruct (set_choose_L s (Hne key s Hs)) as [x Hx]. exists x. split; [|done].
    unfold Found.at_key. by rewrite Hs.
  - intros name x. rewrite H3. unfold Found.at_key. split; intros (key & H).
    + destruct H as (_ & -> & H). by exists key.
    + destruct H as [-> H]. exists key. rewrite Hkeys. split_and!; [|done|done].
      destruct (found.(Found.targets) !! key); [eauto|]. by apply elem_of_empty in H.
Qed.

Lemma plan_bound parse_time now_text report options plan :
  BuildPlanWithOptions parse_time now_text (Ok report) options = Ok plan →
  ∃ asOf,
    (options.(PlanOptions.EnforceRetention) = true → parse_time
      (if bool_decide (report.(AuditReport.AsOf) = "") then report.(AuditReport.GeneratedAt)
       else report.(AuditReport.AsOf)) = Ok asOf) ∧
    Forall (result_checked options) report.(AuditReport.Results) ∧
    ∀ name x, (name, x) ∈ task_targets plan.(Plan.Tasks) → ∃ result tf s kind,
      result ∈ report.(AuditReport.Results) ∧ result_has options result tf s ∧
      name = (result_exchange result, series_symbol s, frame_name tf, kind) ∧
      series_bound options asOf (result_exchange result) tf s
        (result_exchange result, series_symbol s, tf, kind) x.
Proof.
  intros (asOf & found & _ & Hr & Hf & _ & _ & Ht)%BuildPlan_inv. exists asOf.
  apply plan_results_adds in Hf as (P & [_ HP] & HQ & _ & Hc). split_and!; [done|done|].
  intros name x (key & -> & Hx)%Ht. rewrite HP in Hx. destruct Hx as [Hx|Hx]; [by apply elem_of_empty in Hx|].
  destruct (HQ key x Hx) as (result & tf & s & Hres & Hhas & Hb).
  pose proof Hb as (_ & _ & kind & latest & -> & _). exists result, tf, s, kind. done.
Qed.

(** *** The plain plan *)

(** The starts a report says are missing. *)
Definition missing (report : auditReport) (ex symbol : string) (tf : Frame) (x : Z) : Prop :=
  ∃ result s gap, result ∈ report.(AuditReport.Results) ∧ result_exchange result = ex ∧
    result.(AuditResult.Timeframe) = frame_name tf ∧ s ∈ result.(AuditResult.IssueSeries) ∧
    series_symbol s = symbol ∧ gap ∈ s.(AuditSeries.GapRanges) ∧
    aligned tf x ∧ gap.(AuditGap.FirstMS) <= x <= gap.(AuditGap.LastMS).

(** No gap ends after 2262. *)
Definition dated (report : auditReport) : Prop :=
  ∀ result s gap, result ∈ report.(AuditReport.Results) → s ∈ result.(AuditResult.IssueSeries) →
    gap ∈ s.(AuditSeries.GapRanges) → gap.(AuditGap.LastMS) <= MaxTS.

Lemma planned_zero ex tf s : planned_series PlanOptions.zero ex tf s ↔ tf ≠ F3D.
Proof. split; [by intros [H _]|]. intros H. split; [done|]. by left. Qed.

Lemma minimum_zero asOf ex symbol tf latest :
  minimum_start PlanOptions.zero asOf (policy_of PlanOptions.zero ex symbol) ex tf latest = 0.
Proof. done. Qed.

(** What the gaps of a series add to the plain plan. *)
Lemma internal_zero asOf ex tf rl s k x :
  Forall (gap_accepted tf) s.(AuditSeries.GapRanges) →
  Forall (λ gap, gap.(AuditGap.LastMS) <= MaxTS) s.(AuditSeries.GapRanges) → tf ≠ F3D →
  series_internal PlanOptions.zero asOf ex tf rl s k x ↔
  k = (ex, series_symbol s, tf, "internal") ∧
  ∃ gap, gap ∈ s.(AuditSeries.GapRanges) ∧ aligned tf x ∧ gap.(AuditGap.FirstMS) <= x <= gap.(AuditGap.LastMS).
Proof.
  intros Ha Hm Htf. unfold series_internal, gaps_of, run_of. rewrite planned_zero, minimum_zero.
  rewrite Forall_forall in Ha. rewrite Forall_forall in Hm.
  assert (∀ gap, gap ∈ s.(AuditSeries.GapRanges) →
    steps tf gap.(AuditGap.LastMS) gap.(AuditGap.FirstMS) x ↔
    aligned tf x ∧ gap.(AuditGap.FirstMS) <= x <= gap.(AuditGap.LastMS)) as Hs.
  { intros gap Hg. destruct (gap_accepted_aligned tf gap (Ha gap Hg) (Hm gap Hg)). by apply steps_aligned, Hm. }
  split.
  - intros (_ & gap & Hg & -> & Hx & _). apply Hs in Hx; [|done]. split; [done|]. by exists gap.
  - intros (-> & gap & Hg & Hx). split; [done|]. exists gap. split_and!; [done|done|by apply Hs|].
    unfold kept. lia.
Qed.

(** The name a task of the plan may carry. *)
Definition good_name (ex symbol : string) (tf : Frame) : Prop :=
  (ex = "binance" ∨ ex = "okx") ∧ symbol ≠ "" ∧ symbol = ToUpper (TrimSpace symbol) ∧ tf ≠ F3D ∧
  Index F15m <= Index tf.

Lemma plan_targets_spec parse_time now_text report plan :
  BuildPlan parse_time now_text (Ok report) = Ok plan → dated report →
  NoDup (task_targets plan.(Plan.Tasks)) ∧
  (∀ t, t ∈ plan.(Plan.Tasks) → ∃ ex symbol tf, tf ≠ F3D ∧ task_ok (ex, symbol, tf, "internal") t) ∧
  (∀ name x, (name, x) ∈ task_targets plan.(Plan.Tasks) ↔
     ∃ ex symbol tf, name = (ex, symbol, frame_name tf, "internal") ∧ tf ≠ F3D ∧ missing report ex symbol tf x) ∧
  (∀ ex symbol tf x, missing report ex symbol tf x → tf ≠ F3D →
     good_name ex symbol tf ∧ aligned tf x ∧ 0 < x <= MaxTS).
Proof.
  intros (asOf & found & _ & _ & Hf & Hnd & Hok & Ht)%BuildPlan_inv Hd.
  apply plan_results_adds in Hf as (P & [_ HP] & HQ & HI & Hc). rewrite Forall_forall in Hc.
  assert (Hacc : ∀ r s tf, r ∈ report.(AuditReport.Results) → r.(AuditResult.Timeframe) = frame_name tf →
    s ∈ r.(AuditResult.IssueSeries) → tf ≠ F3D →
    good_name (result_exchange r) (series_symbol s) tf ∧ Forall (gap_accepted tf) s.(AuditSeries.GapRanges) ∧
    Forall (λ gap, gap.(AuditGap.LastMS) <= MaxTS) s.(AuditSeries.GapRanges)).
  { intros r s tf Hr Htf Hs H3. destruct (Hc r Hr) as (Hex & tf' & Htf' & Hi & Hall).
    rewrite Htf in Htf'. apply frame_name_inj in Htf' as <-. rewrite Forall_forall in Hall.
    destruct (Hall s Hs) as [Hsym Ha]. split_and!.
    - split_and!; try done. unfold series_symbol. by rewrite norm_upper_idem.
    - by apply Ha, planned_zero.
    - apply Forall_forall. intros g Hg. by apply (Hd r s g). }
  assert (Hin : ∀ key x, x ∈ Found.at_key found key ↔ ∃ ex symbol tf,
    key = (ex, symbol, tf, "internal") ∧ tf ≠ F3D ∧ missing report ex symbol tf x).
  { intros key x. rewrite HP. split.
    - intros [Hx|Hx]; [by apply elem_of_empty in Hx|].
      assert (key.2 = "internal") as Hk.
      { destruct (HQ key x Hx) as (r & tf & s & _ & _ & _ & _ & kind & l & -> & [Hk|[[_ Hk]|[[_ Hk]|[_ Hk]]]] & _);
          [done|discriminate Hk..]. }
      apply HI in Hx as (r & tf & s & Hr & [Htf Hs] & Hi); [|done].
      pose proof Hi as [Hpl%planned_zero _]. destruct (Hacc r s tf Hr Htf Hs Hpl) as (_ & Ha & Hm).
      apply internal_zero in Hi as (-> & gap & Hg & Hx); [|done..].
      exists (result_exchange r), (series_symbol s), tf. split_and!; [done..|]. by exists r, s, gap.
    - intros (ex & symbol & tf & -> & H3 & r & s & gap & Hr & <- & Htf & Hs & <- & Hg & Hx). right.
      apply HI; [done|]. exists r, tf, s. split_and!; [done|by split|].
      destruct (Hacc r s tf Hr Htf Hs H3) as (_ & Ha & Hm).
      apply internal_zero; [done..|split; [done|by exists gap]]. }
  split_and!; [done| | |].
  - intros t Hin'. rewrite Forall_forall in Hok. destruct (Hok t Hin') as (key & x & Hx & Hok').
    apply Hin in Hx as (ex & symbol & tf & -> & H3 & _). by exists ex, symbol, tf.
  - intros name x. rewrite Ht. split.
    + intros (key & -> & (ex & symbol & tf & -> & H)%Hin). by exists ex, symbol, tf.
    + intros (ex & symbol & tf & -> & H). exists (ex, symbol, tf, "internal"). split; [done|].
      apply Hin. by exists ex, symbol, tf.
  - intros ex symbol tf x (r & s & gap & Hr & <- & Htf & Hs & <- & Hg & Hal & Hx) H3.
    destruct (Hacc r s tf Hr Htf Hs H3) as (Hn & Ha & Hm). rewrite Forall_forall in Ha. rewrite Forall_forall in Hm.
    destruct (Ha gap Hg) as (Hpos & _). specialize (Hm gap Hg). split_and!; [done..|lia|lia].
Qed.

(** C24: a plan made from an audit repairs what the audit reported and nothing
    else.  When [BuildPlan] returns, the targets of its tasks are exactly the
    buckets inside the gaps of the report's issue series, for every timeframe
    that is enabled; no target appears twice; and each task starts at its first
    target, ends with the bucket of its last one and needs no more source candles
    than one request may ask for. *)
Theorem plan_exact parse_time now_text report plan :
  BuildPlan parse_time now_text (Ok report) = Ok plan → dated report →
  (∀ name x, (name, x) ∈ task_targets plan.(Plan.Tasks) ↔
     ∃ ex symbol tf, name = (ex, symbol, frame_name tf, "internal") ∧ tf ≠ F3D ∧ missing report ex symbol tf x) ∧
  NoDup (task_targets plan.(Plan.Tasks)) ∧
  (∀ t, t ∈ plan.(Plan.Tasks) → ∃ ex symbol tf, tf ≠ F3D ∧ task_ok (ex, symbol, tf, "internal") t).
Proof.
  intros H Hd. destruct (plan_targets_spec _ _ _ _ H Hd) as (Hnd & Hok & Ht & _). by split_and!.
Qed.

(** Two hours of one series are missing, with one present between them. *)
Definition sample_report : auditReport :=
  AuditReport.mk "2026-05-20T12:00:00Z" "" (Some true)
    [AuditResult.mk "okx" "1H" 1779267600000 None
       [AuditSeries.mk "btc-usdt" 0 (Some 2) 10 1779235200000 1779267600000 0
          [AuditGap.mk 1779246000000 1779246000000 1; AuditGap.mk 1779253200000 1779253200000 1]]].
Definition no_time (text : string) : result go_error Z := Err (Errorf "parsing time").

Example plan_exact_witness :
  ∃ plan, BuildPlan no_time "" (Ok sample_report) = Ok plan ∧
    Task.TargetStarts <$> plan.(Plan.Tasks) = [[1779246000000; 1779253200000]] ∧
    missing sample_report "okx" "BTC-USDT" F1H 1779253200000.
Proof.
  destruct (BuildPlan no_time "" (Ok sample_report)) as [plan|] eqn:E; [|vm_compute in E; discriminate E].
  assert (Hd : dated sample_report).
  { intros r s g Hr Hs Hg. apply list_elem_of_singleton in Hr. subst r. apply list_elem_of_singleton in Hs. subst s.
    apply list_elem_of_In in Hg. cbn in Hg. destruct Hg as [<-|[<-|[]]]; vm_compute; discriminate. }
  destruct (plan_exact no_time "" sample_report plan E Hd) as (Ht & _ & _).
  exists plan. split; [reflexivity|].
  assert (Task.TargetStarts <$> plan.(Plan.Tasks) = [[1779246000000; 1779253200000]]) as Hts
    by (vm_compute in E; injection E as <-; reflexivity).
  split; [exact Hts|].
  destruct (proj1 (Ht ("okx", "BTC-USDT", "1H", "internal") 1779253200000)) as (ex & sy & tf & En & _ & Hm).
  - vm_compute in E. injection E as <-. right. left.
  - destruct tf; try discriminate En. injection En as <- <-. exact Hm.
Defined.

(** *** Policies and boundaries *)

Lemma minimum_start_bounds options asOf policy ex tf latest :
  let minimum := minimum_start options asOf policy ex tf latest in
  (0 < policy.(SymbolPolicy.ListedAtMS) →
     historyBoundaryStartMS policy.(SymbolPolicy.ListedAtMS) ex tf <= minimum) ∧
  (options.(PlanOptions.EnforceRetention) = true → ∀ cutoff, CutoffMS (RuleFor tf) asOf = Some cutoff →
     ceilStartMS cutoff tf <= minimum).
Proof.
  unfold minimum_start. cbv zeta. set (base := if PlanOptions.EnforceRetention options then _ else 0).
  split.
  - intros Hl. apply Z.ltb_lt in Hl as ->. rewrite andb_true_l. destruct (base <? _) eqn:E; zbool; [apply Z.le_refl|done].
  - intros He cutoff Hc. assert (base = ceilStartMS cutoff tf) as Hb by (unfold base; by rewrite He, Hc).
    clearbody base. subst base. destruct (_ && _) eqn:E; zbool; cbv iota; [lia|apply Z.le_refl].
Qed.

(** planning fails closed, whatever the options.  Every target of a returned
    plan belongs to a series of the report, of binance or okx, of an enabled
    timeframe from 15m up, and to a kind that was asked for; when policies are
    given its symbol has one and it allows repairs; and no target lies before the
    bucket of the official listing or, when retention is enforced, before the age
    limit of its timeframe. *)
Theorem plan_policy parse_time now_text report options plan ex symbol tf kind x :
  BuildPlanWithOptions parse_time now_text (Ok report) options = Ok plan →
  ((ex, symbol, frame_name tf, kind), x) ∈ task_targets plan.(Plan.Tasks) →
  (ex = "binance" ∨ ex = "okx") ∧ symbol ≠ "" ∧ tf ≠ F3D ∧ Index F15m <= Index tf ∧
  kind_enabled options kind ∧
  (∀ policies, options.(PlanOptions.Policies) = Some policies →
     ∃ policy, policies !! (ex ++ ":" ++ symbol)%string = Some policy ∧ policy.(SymbolPolicy.Allowed) = true ∧
       (0 < policy.(SymbolPolicy.ListedAtMS) →
          historyBoundaryStartMS policy.(SymbolPolicy.ListedAtMS) ex tf <= Z.max 0 x)) ∧
  (options.(PlanOptions.EnforceRetention) = true →
     ∃ asOf, parse_time (if bool_decide (report.(AuditReport.AsOf) = "") then report.(AuditReport.GeneratedAt)
                         else report.(AuditReport.AsOf)) = Ok asOf ∧
       ∀ cutoff, CutoffMS (RuleFor tf) asOf = Some cutoff → ceilStartMS cutoff tf <= Z.max 0 x).
Proof.
  intros (asOf & Hret & Hc & Ht)%plan_bound Hx.
  destruct (Ht _ _ Hx) as (r & tf' & s & kind' & Hr & [Htf Hs] & En & Hsym & [H3 Hpol] & Htar).
  injection En as -> -> Htf' ->. apply frame_name_inj in Htf' as <-.
  rewrite Forall_forall in Hc. destruct (Hc r Hr) as (Hex & tf' & Htf' & Hi & _).
  rewrite Htf in Htf'. apply frame_name_inj in Htf' as <-.
  destruct Htar as (kind & latest & [= <-] & Hkind & Hkept).
  destruct (minimum_start_bounds options asOf (policy_of options (result_exchange r) (series_symbol s))
    (result_exchange r) tf latest) as [Hlist Hage]. unfold kept in Hkept.
  set (m := minimum_start _ _ _ _ _ _) in *. clearbody m.
  split_and!; [done..| |].
  - intros policies Hp. destruct Hpol as [Hpol|Hpol]; [congruence|]. revert Hpol Hlist.
    fold (series_symbol s). unfold policy_of. rewrite Hp. simpl.
    destruct (policies !! _) as [policy|]; simpl; [|done]. intros Ha Hlist. exists policy.
    split_and!; [done..|]. intros Hl. specialize (Hlist Hl). lia.
  - intros He. exists asOf. split; [by apply Hret|]. intros cutoff Hcut. specialize (Hage He cutoff Hcut). lia.
Qed.

(** A listed symbol of okx with one gap before its listing, one after it, and two
    hours missing at the end. *)
Definition sample_time (text : string) : result go_error Z := Ok 1779282000000.
Definition sample_options : PlanOptions :=
  PlanOptions.mk (Some {["okx:BTC-USDT" := SymbolPolicy.mk true "" "spot" 1779249600000 1]}) true true true true.
Definition sample_full : auditReport :=
  AuditReport.mk "2026-05-20T13:00:00Z" "" (Some true)
    [AuditResult.mk "okx" "1H" 1779274800000
       (Some [AuditSeries.mk "btc-usdt" 0 (Some 2) 10 1779235200000 1779267600000 0
          [AuditGap.mk 1779246000000 1779246000000 1; AuditGap.mk 1779253200000 1779253200000 1]]) []].

Example plan_policy_witness :
  ∃ plan, BuildPlanWithOptions sample_time "" (Ok sample_full) sample_options = Ok plan ∧
    Task.TargetStarts <$> plan.(Plan.Tasks) = [[1779253200000]; [1779271200000; 1779274800000]] ∧
    ∀ x, (("okx", "BTC-USDT", "1H", "internal"), x) ∈ task_targets plan.(Plan.Tasks) → 1779249600000 <= Z.max 0 x.
Proof.
  destruct (BuildPlanWithOptions sample_time "" (Ok sample_full) sample_options) as [plan|] eqn:E;
    [|vm_compute in E; discriminate E].
  exists plan. split; [reflexivity|]. split; [vm_compute in E; injection E as <-; reflexivity|]. intros x Hx.
  destruct (plan_policy _ _ _ _ _ "okx" "BTC-USDT" F1H "internal" x E Hx) as (_ & _ & _ & _ & _ & Hp & _).
  destruct (Hp _ eq_refl) as (policy & Hpol & _ & Hl). vm_compute in Hpol. injection Hpol as <-.
  exact (Hl eq_refl).
Defined.

(** ** Planning returns *)

(** How a run stopped, if it did: never for lack of fuel, and by a panic only if
    [unknown]. *)
Definition stops {A} (unknown : Prop) (r : run A) : Prop :=
  match r with Err OutOfFuel => False | Err Panicked => unknown | _ => True end.

Lemma addTarget_stops unknown minimum key start acc : stops unknown (addTarget minimum key start acc).
Proof. unfold addTarget. cbv zeta. repeat dm; done. Qed.

Lemma add_range_stops unknown fuel minimum key tf cursor last acc :
  - 2 ^ 60 <= cursor → last <= MaxTS → last - cursor < MinuteMS * Z.of_nat fuel →
  stops unknown (add_range fuel minimum key tf cursor last acc).
Proof.
  revert cursor acc. induction fuel as [|fuel IH]; intros cursor acc Hc Hl Hf; simpl.
  - destruct (last <? cursor) eqn:E; zbool; [done|]. lia.
  - destruct (last <? cursor) eqn:E; zbool; [done|].
    pose proof (addTarget_stops unknown minimum key cursor acc).
    destruct (addTarget _ _ _ _) as [acc1|e]; [|by destruct e].
    pose proof (next_step_any cursor tf ltac:(unfold steppable, MaxTS in *; lia)). unfold MinuteMS in *.
    apply IH; lia.
Qed.

Lemma gap_loop_stops unknown n minimum key tf cursor last seen outside acc :
  stops unknown (gap_loop n minimum key tf cursor last seen outside acc).
Proof.
  revert cursor seen outside acc. induction n as [|n IH]; intros cursor seen outside acc; simpl; [done|].
  destruct (last <? cursor); [done|].
  pose proof (addTarget_stops unknown minimum key cursor acc).
  destruct (addTarget _ _ _ _) as [acc1|e]; [|by destruct e].
  destruct (_ && negb (cursor =? last)); [done|]. destruct (_ <=? cursor); [done|]. apply IH.
Qed.

Lemma gap_ranges_stops unknown minimum key tf gaps seen outside acc :
  stops unknown (gap_ranges minimum key tf gaps seen outside acc).
Proof.
  revert seen outside acc. induction gaps as [|[first last count] gaps IH]; intros seen outside acc; simpl; [done|].
  destruct (_ || _); [done|]. destruct (negb _ || negb _); [done|].
  pose proof (gap_loop_stops unknown (Z.to_nat count) minimum key tf first last seen outside acc).
  destruct (gap_loop _ _ _ _ _ _ _ _ _) as [[[??]?]|e]; [apply IH|by destruct e].
Qed.

(** The minimum is no earlier than the age limits of a report that closed a
    bucket after 1970. *)
Lemma ceil_minutes_low c f m : fixedMinuteFrames f = Some m → - 2 ^ 58 <= c <= 2 ^ 60 → - 2 ^ 60 <= ceilStartMS c f.
Proof.
  intros Hm Hc. assert (1 <= m <= 720) by (destruct f; simplify_eq/=; lia).
  assert (Hfl : - 2 ^ 59 <= FloorStartMS c f <= 2 ^ 60).
  { unfold FloorStartMS. rewrite Hm. rewrite (i64_id (m * MinuteMS)) by (unfold int64_range, two63, MinuteMS; lia).
    assert (Z.quot c (m * MinuteMS) * (m * MinuteMS) = c - Z.rem c (m * MinuteMS)) as ->
      by (pose proof (Z.quot_rem' c (m * MinuteMS)); lia).
    pose proof (Z.rem_bound_abs c (m * MinuteMS) ltac:(unfold MinuteMS; lia)).
    pose proof (Z.rem_sign_mul c (m * MinuteMS) ltac:(unfold MinuteMS; lia)).
    assert (Z.abs (Z.rem c (m * MinuteMS)) < 2 ^ 30) by (unfold MinuteMS in *; lia).
    rewrite i64_id by (unfold int64_range, two63; lia). split; [lia|].
    destruct (Z.le_gt_cases 0 c); [|lia].
    pose proof (Z.rem_nonneg c (m * MinuteMS) ltac:(unfold MinuteMS; lia) ltac:(done)). lia. }
  unfold ceilStartMS. cbv zeta. destruct (_ <? c); [|lia].
  pose proof (next_step_any (FloorStartMS c f) f ltac:(unfold steppable; lia)). unfold MinuteMS in *. lia.
Qed.

Lemma bar_window_low f latest :
  aligned f latest → latest <= MaxTS - 100 * DayMS → - 2 ^ 60 <= BarWindowStartMS f (EndMS latest f) 300.
Proof.
  intros (k & Hk & ->) Hl. pose proof (grid_nonneg f k Hk). pose proof (grid_step f k).
  rewrite end_grid by (apply steppable_dom; unfold DayMS in *; lia).
  unfold BarWindowStartMS. change (300 <=? 0) with false. cbv iota.
  rewrite (floor_grid f k) by (unfold MinuteMS, DayMS in *; lia).
  rewrite end_grid by (apply steppable_dom; unfold DayMS in *; lia). rewrite Z.ltb_irrefl. cbv zeta.
  change (Z.to_nat (300 - 1)) with 299%nat. pose proof (grid_shift f k 299).
  assert (- 2 ^ 60 <= grid f (k - Z.of_nat 299)) by (unfold DayMS in *; lia).
  rewrite iter_prev; [done|done|]. unfold MaxTS, DayMS in *. lia.
Qed.

Lemma CutoffMS_frame tf asOf cutoff :
  CutoffMS (RuleFor tf) asOf = Some cutoff →
  ∃ m days, fixedMinuteFrames tf = Some m ∧ 7 <= days <= 180 ∧ cutoff = i64 (asOf - days * DayMs).
Proof.
  destruct tf; try discriminate; unfold CutoffMS; cbn [RuleFor Rule.KeepForever Rule.KeepBars Rule.KeepDays orb Z.ltb Z.leb];
    intros H; cbv -[AddDate UnixMilli] in H; injection H as <-; unfold UnixMilli; rewrite AddDate_days.
  1: exists 1, 7. 2: exists 5, 30. 3: exists 15, 30. 4: exists 30, 30. 5: exists 60, 180. 6: exists 120, 180.
  7: exists 240, 180. 8: exists 360, 180. 9: exists 720, 180.
  all: split_and!; [done|lia|lia|f_equal; unfold DayMs; lia].
Qed.

Lemma minimum_low options asOf policy ex tf latest :
  bad_latest latest tf asOf = false → latest <= MaxTS - 100 * DayMS → asOf <= 2 ^ 58 →
  - 2 ^ 60 <= minimum_start options asOf policy ex tf latest.
Proof.
  unfold bad_latest. intros [[Hb1 Hb2]%orb_false_iff Hb3]%orb_false_iff Hl Ha. zbool.
  assert (Hal : aligned tf latest) by (apply floor_positive; unfold MaxTS, DayMS in *; lia).
  assert (0 < asOf) as Hpos.
  { destruct Hal as (k & Hk & ->). pose proof (grid_nonneg tf k Hk). pose proof (grid_step tf k).
    rewrite end_grid in Hb3 by (apply steppable_dom; unfold MaxTS, DayMS in *; lia).
    unfold MinuteMS in *. lia. }
  unfold minimum_start. cbv zeta.
  set (base := if PlanOptions.EnforceRetention options then _ else 0).
  assert (- 2 ^ 60 <= base) as Hbase.
  { unfold base. destruct (PlanOptions.EnforceRetention options); [|lia].
    destruct (CutoffMS (RuleFor tf) asOf) as [cutoff|] eqn:Ec.
    - apply CutoffMS_frame in Ec as (m & days & Hm & Hd & ->). apply (ceil_minutes_low _ _ m); [done|].
      rewrite i64_id; unfold int64_range, two63, DayMs; lia.
    - destruct (_ && _) eqn:E; [|lia].
      assert ((RuleFor tf).(Rule.KeepBars) = 300) as -> by (destruct tf; try done; vm_compute in Ec; discriminate).
      by apply bar_window_low. }
  clearbody base. destruct (_ && _) eqn:E; zbool; cbv iota; lia.
Qed.

(** A latest bucket the planner may be told: before 2262. *)
Definition latest_ok (latest : Z) : Prop := latest <= MaxTS - 100 * DayMS.

Lemma from_minimum options asOf policy ex tf latest first last unknown key acc :
  bad_latest latest tf asOf = false → latest_ok latest → asOf <= 2 ^ 58 → last <= latest →
  let minimum := minimum_start options asOf policy ex tf latest in
  let first := if first <? minimum then minimum else first in
  stops unknown (add_range (range_fuel first last) minimum key tf first last acc).
Proof.
  intros Hb Hl Ha Hlast minimum start. pose proof (minimum_low options asOf policy ex tf latest Hb Hl Ha) as Hm.
  fold minimum in Hm. unfold latest_ok, DayMS in Hl. apply add_range_stops; [|lia|apply range_fuel_enough].
  subst start. destruct (first <? minimum) eqn:E; zbool; lia.
Qed.

Lemma leading_targets_stops unknown options asOf policy ex symbol tf latest series acc :
  latest_ok latest → asOf <= 2 ^ 58 →
  stops unknown (leading_targets options asOf policy ex symbol tf latest
    (minimum_start options asOf policy ex tf latest) series acc).
Proof.
  intros Hl Ha. unfold leading_targets. destruct (_ && _); [|done].
  destruct (bad_latest latest tf asOf) eqn:Eb; [done|]. cbv zeta.
  apply from_minimum; [done..|]. destruct (latest <? _) eqn:E; zbool; lia.
Qed.

Lemma lower_first_stops tf starts first :
  stops (∃ name start, (name, start) ∈ starts ∧ ∀ f, name ≠ frame_name f) (lower_first tf starts first).
Proof.
  revert first. induction starts as [|[name start] starts IH]; intros first; simpl; [done|].
  destruct (Normalize name) as [lower|e] eqn:En.
  - specialize (IH (if (Index lower <? Index tf) && ((first =? 0) || (start <? first)) then start else first)).
    destruct (lower_first _ _ _) as [|[]]; simpl in *; try done.
    destruct IH as (n & t & Hin & Hn). exists n, t. split; [by right|done].
  - exists name, start. split; [left|]. intros f ->. by rewrite Normalize_name in En.
Qed.

(** Some lower period of the series has a name that is no timeframe. *)
Definition unknown_lower (lower : lower_starts) : Prop :=
  ∃ key starts name, lower !! key = Some starts ∧ is_Some (starts !! name) ∧ ∀ f, name ≠ frame_name f.

Lemma tail_start_stops options policy lower ex symbol tf latest series :
  stops (unknown_lower lower) (tail_start options policy lower ex symbol tf latest series).
Proof.
  unfold tail_start. destruct (_ && (_ =? 0)); [|by destruct (_ && _)].
  destruct (_ =? 0); [|by destruct (_ =? 0)].
  pose proof (lower_first_stops tf (map_to_list (default ∅ (lower !! (ex ++ ":" ++ symbol)%string))) 0) as H.
  destruct (lower_first _ _ _) as [first|[]]; simpl in *; try done; [by destruct (first =? 0)|].
  destruct H as (name & start & Hin & Hn). apply elem_of_map_to_list in Hin.
  destruct (lower !! _) as [starts|] eqn:El; simpl in Hin; [|by rewrite lookup_empty in Hin].
  exists (ex ++ ":" ++ symbol)%string, starts, name. simpl in Hin. eauto.
Qed.

Lemma tail_targets_stops options asOf policy lower ex symbol tf latest series acc :
  latest_ok latest → asOf <= 2 ^ 58 →
  stops (unknown_lower lower) (tail_targets options asOf policy lower ex symbol tf latest
    (minimum_start options asOf policy ex tf latest) series acc).
Proof.
  intros Hl Ha. unfold tail_targets. pose proof (tail_start_stops options policy lower ex symbol tf latest series) as H.
  destruct (tail_start _ _ _ _ _ _ _ _) as [[[first kind]|]|[]]; simpl in H; try done.
  destruct (bool_decide _); [done|]. destruct (bad_latest latest tf asOf) eqn:Eb; [done|]. cbv zeta.
  by apply from_minimum.
Qed.

Definition series_ok (rl : Z) (series : auditSeries) : Prop := latest_ok (latest_of rl series).

Lemma plan_gaps_stops options asOf lower policy ex symbol tf rl series acc :
  series_ok rl series → asOf <= 2 ^ 58 →
  stops (unknown_lower lower) (plan_gaps options asOf lower policy ex symbol tf rl series acc).
Proof.
  intros Hl Ha. unfold plan_gaps. fold (latest_of rl series). set (latest := latest_of rl series). cbv zeta.
  pose proof (gap_ranges_stops (unknown_lower lower) (minimum_start options asOf policy ex tf latest)
    (ex, symbol, tf, "internal") tf series.(AuditSeries.GapRanges) ∅ 0 acc) as H.
  destruct (gap_ranges _ _ _ _ _ _ _) as [[[seen outside] acc1]|[]]; simpl in H; try done.
  destruct (match AuditSeries.InternalMissingBars series with Some _ => _ | None => _ end); [done|].
  set (acc2 := if 0 <? outside then _ else acc1).
  pose proof (leading_targets_stops (unknown_lower lower) options asOf policy ex symbol tf latest series acc2 Hl Ha) as H2.
  destruct (leading_targets _ _ _ _ _ _ _ _ _ _) as [acc3|[]]; simpl in H2; try done.
  by apply tail_targets_stops.
Qed.

Lemma plan_series_stops options asOf lower ex tf rl series acc :
  series_ok rl series → asOf <= 2 ^ 58 →
  stops (unknown_lower lower) (plan_series options asOf lower ex tf rl series acc).
Proof.
  intros Hl Ha. unfold plan_series. cbv zeta. destruct (bool_decide _); [done|]. destruct (negb _).
  - match goal with |- stops _ (match ?e with Some _ => _ | None => _ end) => by destruct e end.
  - destruct (_ && _); [done|]. by apply plan_gaps_stops.
Qed.

Lemma plan_series_list_stops options asOf lower ex tf rl list acc :
  Forall (series_ok rl) list → asOf <= 2 ^ 58 →
  stops (unknown_lower lower) (plan_series_list options asOf lower ex tf rl list acc).
Proof.
  intros Hl Ha. revert acc. induction Hl as [|s list Hs _ IH]; intros acc; simpl; [done|].
  pose proof (plan_series_stops options asOf lower ex tf rl s acc Hs Ha) as H.
  destruct (plan_series _ _ _ _ _ _ _ _) as [acc1|[]]; done.
Qed.

(** The buckets a report calls complete lie before 2262. *)
Definition result_ok (result : auditResult) : Prop :=
  Forall (series_ok result.(AuditResult.LatestCompletedMS)) (default [] result.(AuditResult.series)) ∧
  Forall (series_ok result.(AuditResult.LatestCompletedMS)) result.(AuditResult.IssueSeries).

Lemma plan_result_stops options asOf lower result acc :
  result_ok result → asOf <= 2 ^ 58 →
  stops (unknown_lower lower) (plan_result options asOf lower result acc).
Proof.
  intros [H1 H2] Ha. unfold plan_result. cbv zeta. destruct (_ && _); [done|]. destruct (Normalize _); [|done].
  destruct (_ <? _); [done|]. destruct (full_series options).
  - destruct (AuditResult.series result) as [list|]; [|done]. by apply plan_series_list_stops.
  - by apply plan_series_list_stops.
Qed.

Lemma plan_results_stops options asOf lower results acc :
  Forall result_ok results → asOf <= 2 ^ 58 →
  stops (unknown_lower lower) (plan_results options asOf lower results acc).
Proof.
  intros Hr Ha. revert acc. induction Hr as [|r results Hr _ IH]; intros acc; simpl; [done|].
  pose proof (plan_result_stops options asOf lower r acc Hr Ha) as H.
  destruct (plan_result _ _ _ _ _) as [acc1|[]]; done.
Qed.

(** The names in [lowerStarts] are the timeframes of the report. *)
Lemma lowerStarts_names results key starts name :
  lowerStarts results !! key = Some starts → is_Some (starts !! name) →
  ∃ result, result ∈ results ∧ result.(AuditResult.Timeframe) = name.
Proof.
  unfold lowerStarts.
  assert (Hgen : ∀ l lower, (∀ key starts name, lower !! key = Some starts → is_Some (starts !! name) →
      ∃ result, result ∈ results ∧ result.(AuditResult.Timeframe) = name) → (∀ r, r ∈ l → r ∈ results) →
    ∀ key starts name, foldl (λ lower result,
      foldl (lower_series result.(AuditResult.Exchange) result.(AuditResult.Timeframe)) lower
        (default [] result.(AuditResult.series))) lower l !! key = Some starts → is_Some (starts !! name) →
    ∃ result, result ∈ results ∧ result.(AuditResult.Timeframe) = name).
  { induction l as [|r l IH]; intros lower Hlow Hl; simpl; [done|]. apply IH; [|intros; apply Hl; by right].
    assert (Hr : r ∈ results) by (apply Hl; left). generalize (default [] (AuditResult.series r)) as ss.
    intros ss. revert lower Hlow. induction ss as [|s ss IHs]; intros lower Hlow; simpl; [done|].
    apply IHs. unfold lower_series. destruct (_ && _); [|done]. cbv zeta. intros k st n.
    set (k0 := (ToLower _ ++ _)%string). destruct (decide (k = k0)) as [->|Hk]; simplify_map_eq; [|by apply Hlow].
    intros [= <-] [t Ht]. destruct (decide (n = r.(AuditResult.Timeframe))) as [->|Hn]; simplify_map_eq; [by exists r|].
    destruct (lower !! k0) as [st|] eqn:E; simpl in Ht; [eapply Hlow; eauto|by rewrite lookup_empty in Ht]. }
  apply (Hgen results ∅); [|done]. intros k st n H. by rewrite lookup_empty in H.
Qed.

(** planning returns.  On every report whose latest buckets lie before 2262,
    with clock readings below 2^58 ms, every loop of the planner ends: the outcome
    is a plan or an error, except that a timeframe unknown to the service can make
    it panic. *)
Theorem plan_returns parse_time now_text decoded options :
  (∀ text t, parse_time text = Ok t → t <= 2 ^ 58) →
  (∀ report, decoded = Ok report → Forall result_ok report.(AuditReport.Results)) →
  match BuildPlanWithOptions parse_time now_text decoded options with
  | Err OutOfFuel => False
  | Err Panicked => ∃ report result, decoded = Ok report ∧ result ∈ report.(AuditReport.Results) ∧
                      ∀ f, result.(AuditResult.Timeframe) ≠ frame_name f
  | Err (Failed _) | Ok _ => True
  end.
Proof.
  intros Hp Hd. destruct decoded as [report|e]; [|done]. specialize (Hd report eq_refl). simpl.
  destruct (bool_decide _); [done|].
  set (text := if bool_decide (AuditReport.AsOf report = "") then _ else _).
  set (asOf := match parse_time text with Ok t => t | Err _ => zero_time end).
  assert (Ha : asOf <= 2 ^ 58) by
    (unfold asOf; destruct (parse_time text) eqn:E; [by eapply Hp|vm_compute; discriminate]).
  pose proof (plan_results_stops options asOf (lowerStarts report.(AuditReport.Results)) _ Found.empty Hd Ha) as H.
  unfold asOf in H. clear Ha asOf. revert H. set (lower := lowerStarts _).
  destruct (parse_time text) as [t|e], (full_series options || options.(PlanOptions.EnforceRetention)); try done.
  all: match goal with |- stops _ ?r → _ => destruct r as [found|[]]; intros H; try done end.
  all: try (destruct H as (key & starts & name & H1 & H2 & H3);
            destruct (lowerStarts_names _ _ _ _ H1 H2) as (r & Hr & <-); by exists report, r).
  all: set (keys := sort_slice _ _);
       assert (Hnd : NoDup keys) by (unfold keys; rewrite sort_slice_perm; apply NoDup_fst_map_to_list);
       pose proof (all_tasks_spec keys found.(Found.targets) Hnd) as Hall;
       destruct (all_tasks _ _) as [|e']; [done|destruct Hall as [text' ->]; done].
Qed.

Example plan_returns_witness :
  match BuildPlanWithOptions sample_time "" (Ok sample_full) sample_options with Ok _ => True | Err _ => False end ∧
  match BuildPlanWithOptions sample_time "" (Ok sample_full) sample_options with
  | Err OutOfFuel => False
  | Err Panicked => ∃ report result, Ok sample_full = Ok (E:=go_error) report ∧
      result ∈ report.(AuditReport.Results) ∧ ∀ f, result.(AuditResult.Timeframe) ≠ frame_name f
  | Err (Failed _) | Ok _ => True
  end.
Proof.
  split; [vm_compute; exact I|]. apply (plan_returns sample_time "" (Ok sample_full) sample_options).
  - intros text t H. injection H as <-. vm_compute. discriminate.
  - intros report H. injection H as <-. apply Forall_cons. split; [|apply Forall_nil; exact I].
    split; [|apply Forall_nil; exact I]. apply Forall_cons. split; [vm_compute; discriminate|apply Forall_nil; exact I].
Defined.

(** An empty daily series, and after it a result whose timeframe has no such name. *)
Definition unknown_report : auditReport :=
  AuditReport.mk "2026-05-20T13:00:00Z" "" (Some true)
    [AuditResult.mk "okx" "1D" 1779148800000 (Some [AuditSeries.mk "BTC-USDT" 0 None 0 0 0 0 []]) [];
     AuditResult.mk "okx" "1d" 1779148800000 (Some [AuditSeries.mk "BTC-USDT" 0 None 5 1778803200000 1779148800000 0 []]) []].

(** The loop over the lower periods asks [timeframe.Index] about a name that the
    loop over the results has not validated yet. *)
Example unknown_timeframe_panics :
  BuildPlanWithOptions sample_time "" (Ok unknown_report) (PlanOptions.mk None false true false false) = Err Panicked.
Proof. vm_compute. reflexivity. Qed.
