(* ===== verification/GapRepair.v ===== *)
(** * Repairing one planned task (internal/gapfill/repair.go)

    [Repair] reads the stored candles of a task, fetches the official ones, builds
    the missing targets from them and inserts what it built.  The store is any
    instance of [GapStore], whose laws ([GapStoreLaws]) are the contract the
    comment of [Store] states; the fetcher is a function from requests to candles,
    and the two clock readings are arguments.  The text of an error is kept as the
    error itself. *)

From S2P Require Export GapPlan Aggregator Exchange.

Local Open Scope string_scope.
Local Open Scope Z_scope.
Local Open Scope list_scope.

(** ** The store, the fetcher and the result *)

(** The interface [Store] of the package. *)
Class GapStore (St : Type) := {
  gs_BarsInRange : string → string → string → Z → Z → St → result go_error (list Bar);
  gs_InsertMissingBars : list Bar → St → (Z * option go_error) * St;
}.

Module Result.
Record Result : Type := mk {
  TaskID : string; Exchange : string; Symbol : string; Timeframe : string; Kind : string;
  Status : string; Error : option go_error;
  Requested : Z; AlreadyPresent : Z; Fetched : Z; Inserted : Z; Available : Z; Expired : Z; Skipped : Z;
  Unverified : bool; MissingStarts : list Z }.
End Result.
Notation Result := Result.Result.

(** ** The task *)

(** [validateTask]: besides the sorted starts, the timeframe the code goes on to
    use under its name. *)
Definition bad_target (task : Task) (tf : Frame) (nowMS start : Z) : bool :=
  (start <? task.(Task.StartMS)) || (task.(Task.EndMS) <? EndMS start tf)
  || negb (start =? FloorStartMS start tf) || (nowMS <=? EndMS start tf).

Definition validateTask (task : Task) (nowMS : Z) : result go_error (Frame * list Z) :=
  let ex := task.(Task.Exchange) in
  if negb (bool_decide (ex = "binance")) && negb (bool_decide (ex = "okx"))
  then Err (Errorf "unsupported task exchange %q")
  else
    match ValidateForExchange ex task.(Task.Timeframe) with
    | Err (UnsupportedTimeframe _) => Err (Errorf "unsupported timeframe: %s")
    | Err (DisabledTimeframe _ _) => Err (Wrapf "%w: %s %s" (Sentinel "ErrDisabledTimeframe"))
    | Ok tf =>
        if bool_decide (task.(Task.Symbol) = "")
           || negb (bool_decide (task.(Task.Symbol) = ToUpper (TrimSpace task.(Task.Symbol))))
        then Err (Errorf "invalid task symbol %q")
        else if Index tf <? Index F15m then Err (Errorf "unsupported task timeframe %q")
        else
          let source := sourceTimeframe ex tf in
          if negb (bool_decide (task.(Task.SourceTimeframe) = frame_name source))
          then Err (Errorf "invalid source %q for %s/%s")
          else if (task.(Task.StartMS) <=? 0) || (task.(Task.EndMS) <? task.(Task.StartMS))
                  || (Z.of_nat (length task.(Task.TargetStarts)) =? 0)
          then Err (Errorf "empty or invalid task range")
          else if existsb (bad_target task tf nowMS) task.(Task.TargetStarts)
          then Err (Errorf "invalid or unfinished target start_ms=%d")
          else
            let starts := sortedStarts (list_to_set task.(Task.TargetStarts)) in
            let first := List.hd 0 starts in
            let last := List.last starts 0 in
            if negb (task.(Task.StartMS) =? first) || negb (task.(Task.EndMS) =? EndMS last tf)
            then Err (Errorf "task range does not match complete target bounds")
            else
              let maximum := maxSourceBars ex source in
              if negb (task.(Task.StartMS) =? FloorStartMS task.(Task.StartMS) source)
                 || (maximum <? sourceSpan task.(Task.StartMS) task.(Task.EndMS) source maximum)
              then Err (Errorf "task source range exceeds limit or is unaligned")
              else Ok (tf, starts)
    end.

(** ** Stored and official candles *)

Definition is_of_task (task : Task) (bar : Bar) : bool :=
  bool_decide (bar.(Bar.Exchange) = task.(Task.Exchange)) && bool_decide (bar.(Bar.Symbol) = task.(Task.Symbol))
  && bool_decide (bar.(Bar.Timeframe) = task.(Task.Timeframe)).

(** The targets that have a row, and those that have a final one. *)
Definition storedTargetKeys (task : Task) (bars : list Bar) (starts : list Z) : gset Z * gset Z :=
  foldl (fun '(occupied, final) bar =>
    if is_of_task task bar && bool_decide (bar.(Bar.StartMS) ∈ starts)
    then ({[bar.(Bar.StartMS)]} ∪ occupied,
          if bar.(Bar.IsFinal) then {[bar.(Bar.StartMS)]} ∪ final else final)
    else (occupied, final)) (∅, ∅) bars.

Definition bad_price (v : float64) : bool := f64_leb v f64_zero || f64_is_nan v || f64_is_inf v.
Definition bad_amount (v : float64) : bool := f64_ltb v f64_zero || f64_is_nan v || f64_is_inf v.

Definition validBar (bar : Bar) (ex symbol : string) (tf : Frame) (nowMS : Z) : bool :=
  if negb (bool_decide (bar.(Bar.Exchange) = ex)) || negb (bool_decide (bar.(Bar.Symbol) = symbol))
     || negb (bool_decide (bar.(Bar.Timeframe) = frame_name tf)) || negb bar.(Bar.IsFinal)
     || (bar.(Bar.StartMS) <=? 0) || negb (bar.(Bar.StartMS) =? FloorStartMS bar.(Bar.StartMS) tf)
     || negb (bar.(Bar.EndMS) =? EndMS bar.(Bar.StartMS) tf) || (nowMS <=? bar.(Bar.EndMS))
  then false
  else if existsb bad_price [bar.(Bar.OpenPrice); bar.(Bar.HighPrice); bar.(Bar.LowPrice); bar.(Bar.ClosePrice)]
  then false
  else if existsb bad_amount [bar.(Bar.Volume); bar.(Bar.QuoteVolume); bar.(Bar.ContractVolume)] then false
  else (0 <=? bar.(Bar.TradeCount))
       && f64_geb bar.(Bar.HighPrice) (f64_max bar.(Bar.OpenPrice) bar.(Bar.ClosePrice))
       && f64_leb bar.(Bar.LowPrice) (f64_min bar.(Bar.OpenPrice) bar.(Bar.ClosePrice))
       && f64_geb bar.(Bar.HighPrice) bar.(Bar.LowPrice).

(** One official candle: the valid candles by start, and the starts with an
    invalid or a second candle. *)
Definition add_source (task : Task) (source : Frame) (nowMS : Z) (st : gmap Z Bar * gset Z) (bar : Bar)
    : gmap Z Bar * gset Z :=
  let '(sources, invalid) := st in
  if (bar.(Bar.StartMS) <? task.(Task.StartMS)) || (task.(Task.EndMS) <? bar.(Bar.StartMS)) then st
  else if negb (validBar bar task.(Task.Exchange) task.(Task.Symbol) source nowMS)
  then (sources, {[bar.(Bar.StartMS)]} ∪ invalid)
  else match sources !! bar.(Bar.StartMS) with
       | Some _ => (sources, {[bar.(Bar.StartMS)]} ∪ invalid)
       | None => (<[bar.(Bar.StartMS) := bar]> sources, invalid)
       end.
Definition official_sources (task : Task) (source : Frame) (nowMS : Z) (official : list Bar) : gmap Z Bar :=
  let '(sources, invalid) := foldl (add_source task source nowMS) (∅, ∅) official in
  filter (fun '(start, _) => start ∉ invalid) sources.

(** ** Building the missing candles *)

(** [for cursor <= end]: the inputs and where the cursor stopped; [None] means
    the fuel ran out. *)
Fixpoint inputs_loop (fuel : nat) (source : Frame) (sources : gmap Z Bar) (cursor endMS : Z)
    (inputs : list Bar) {struct fuel} : option (list Bar * Z) :=
  if endMS <? cursor then Some (inputs, cursor)
  else
    match fuel with
    | O => None
    | S fuel' =>
        match sources !! cursor with
        | None => Some (inputs, cursor)
        | Some bar =>
            if endMS <? bar.(Bar.EndMS) then Some (inputs, cursor)
            else inputs_loop fuel' source sources (NextStartMS cursor source) endMS (inputs ++ [bar])
        end
    end.

(** The candle a target can be given, before the last check. *)
Definition candidate (task : Task) (tf : Frame) (sources : gmap Z Bar) (nowMS start : Z) : option Bar :=
  let source := sourceTimeframe task.(Task.Exchange) tf in
  if bool_decide (source = tf) then sources !! start
  else
    let endMS := EndMS start tf in
    match inputs_loop (range_fuel start endMS) source sources start endMS [] with
    | None => None
    | Some (inputs, cursor) =>
        if (Z.of_nat (length inputs) =? 0) || negb (cursor =? i64 (endMS + 1)) then None
        else RollupBars tf inputs true "gapfill_official_source" nowMS
    end.

Definition as_gapfill (nowMS : Z) (bar : Bar) : Bar :=
  Bar.set_UpdatedAtMS nowMS (Bar.set_Reason "audit_missing_insert" (Bar.set_Source "rest_gapfill" bar)).

Definition available_bar (task : Task) (tf : Frame) (sources : gmap Z Bar) (nowMS start : Z) : option Bar :=
  match candidate task tf sources nowMS start with
  | None => None
  | Some bar =>
      if negb (validBar bar task.(Task.Exchange) task.(Task.Symbol) tf nowMS)
         || negb (bar.(Bar.StartMS) =? start) then None
      else Some (as_gapfill nowMS bar)
  end.

Definition good_close (bar : Bar) : bool :=
  f64_gtb bar.(Bar.ClosePrice) f64_zero && negb (f64_is_nan bar.(Bar.ClosePrice))
  && negb (f64_is_inf bar.(Bar.ClosePrice)).

(** ** The repair *)

Section repair.
Context {St : Type} `{!GapStore St}.

(** The stored final candle of one start: the second source of [previous]. *)
Definition read_previous (task : Task) (previousStart : Z) (st : St) : result go_error (option Bar) :=
  match gs_BarsInRange task.(Task.Exchange) task.(Task.Symbol) task.(Task.Timeframe) previousStart previousStart st with
  | Err e => Err e
  | Ok prior => Ok (List.find (fun bar => is_of_task task bar && (bar.(Bar.StartMS) =? previousStart)
                                          && bar.(Bar.IsFinal)) prior)
  end.

(** The loop of [decorateMissingBars]. *)
Fixpoint decorate (task : Task) (tf : Frame) (st : St) (byStart : gmap Z Bar) (bars : list Bar)
    : result go_error (list Bar) :=
  match bars with
  | [] => Ok []
  | bar :: rest =>
      let previousStart := PreviousStartMS bar.(Bar.StartMS) tf in
      match (match byStart !! previousStart with
             | Some previous => Ok (Some previous)
             | None => if 0 <? previousStart then read_previous task previousStart st else Ok None
             end) with
      | Err e => Err e
      | Ok previous =>
          let close := match previous with
                       | Some p => if good_close p then p.(Bar.ClosePrice) else f64_zero
                       | None => f64_zero
                       end in
          let bar := ApplyDerived bar close in
          match decorate task tf st (<[bar.(Bar.StartMS) := bar]> byStart) rest with
          | Err e => Err e
          | Ok rest => Ok (bar :: rest)
          end
      end
  end.
Definition decorateMissingBars (task : Task) (tf : Frame) (st : St) (bars loc : list Bar)
    : result go_error (list Bar) :=
  decorate task tf st
    (foldl (fun m bar => if bar.(Bar.IsFinal) then <[bar.(Bar.StartMS) := bar]> m else m) ∅ loc)
    (sort_by Bar.StartMS bars).

(** The [Result] of the task with the counters given. *)
Definition report (task : Task) (status : string) (err : option go_error)
    (requested already fetched inserted available : Z) (unverified : bool) (missing : list Z) : Result :=
  Result.mk task.(Task.ID) task.(Task.Exchange) task.(Task.Symbol) task.(Task.Timeframe) task.(Task.Kind)
    status err requested already fetched inserted available 0 0 unverified missing.

Definition not_in (s : gset Z) (starts : list Z) : list Z :=
  List.filter (fun start => negb (bool_decide (start ∈ s))) starts.

(** The end of [Repair]: inserting and reading back. *)
Definition insert_and_verify (task : Task) (starts : list Z) (already fetched : Z) (missing : list Z)
    (available : list Bar) (st : St) : (Result * option go_error) * St :=
  let requested := Z.of_nat (length starts) in
  let n := Z.of_nat (length available) in
  let '((inserted, err), st) :=
    match available with [] => ((0, None), st) | _ => gs_InsertMissingBars available st end in
  let unverified := match available with [] => false | _ => true end in
  match err with
  | Some e =>
      let e := Wrapf "insert missing bars: %w" e in
      ((report task "error" (Some e) requested already fetched inserted n true missing, Some e), st)
  | None =>
      match gs_BarsInRange task.(Task.Exchange) task.(Task.Symbol) task.(Task.Timeframe)
              (List.hd 0 starts) (List.last starts 0) st with
      | Err e =>
          let e := Wrapf "verify target keys: %w" e in
          ((report task "error" (Some e) requested already fetched inserted n unverified missing, Some e), st)
      | Ok verified =>
          let present := snd (storedTargetKeys task verified starts) in
          let missing := not_in present starts in
          let status :=
            if Z.of_nat (length missing) =? 0 then "repaired"
            else if (n =? 0) && (Z.of_nat (size present) =? 0) then "no_data" else "partial" in
          ((report task status None requested already fetched inserted n false missing, None), st)
      end
  end.

Definition Repair (fetch : KlineRequest → result go_error (list Bar)) (now1 now2 : Z) (task : Task) (apply : bool)
    (st : St) : (Result * option go_error) * St :=
  match validateTask task now1 with
  | Err e => ((report task "error" (Some e) 0 0 0 0 0 true [], Some e), st)
  | Ok (tf, starts) =>
      let requested := Z.of_nat (length starts) in
      match gs_BarsInRange task.(Task.Exchange) task.(Task.Symbol) task.(Task.Timeframe)
              (List.hd 0 starts) (List.last starts 0) st with
      | Err e =>
          let e := Wrapf "read target keys: %w" e in
          ((report task "error" (Some e) requested 0 0 0 0 true [], Some e), st)
      | Ok loc =>
          let '(occupied, present) := storedTargetKeys task loc starts in
          let already := Z.of_nat (length (List.filter (fun start => bool_decide (start ∈ occupied)) starts)) in
          let missing := not_in present starts in
          let need := not_in occupied missing in
          match missing, need with
          | [], _ => ((report task "already_present" None requested already 0 0 0 false [], None), st)
          | _, [] => ((report task "conflict" None requested already 0 0 0 false missing, None), st)
          | _, _ =>
              match fetch (KlineRequest.mk task.(Task.Symbol) task.(Task.SourceTimeframe) task.(Task.StartMS)
                             task.(Task.EndMS) 0 "raw" 0) with
              | Err e =>
                  let e := Wrapf "fetch official source: %w" e in
                  ((report task "error" (Some e) requested already 0 0 0 false missing, Some e), st)
              | Ok official =>
                  let fetched := Z.of_nat (length official) in
                  let sources := official_sources task (sourceTimeframe task.(Task.Exchange) tf) now2 official in
                  let available := omap (available_bar task tf sources now2) need in
                  match decorateMissingBars task tf st available loc with
                  | Err e =>
                      let e := Wrapf "read previous close: %w" e in
                      ((report task "error" (Some e) requested already fetched 0 0 false missing, Some e), st)
                  | Ok available =>
                      if negb apply then
                        let status := match available with [] => "no_data" | _ => "dry_run" end in
                        ((report task status None requested already fetched 0 (Z.of_nat (length available)) false
                            missing, None), st)
                      else insert_and_verify task starts already fetched missing available st
                  end
              end
          end
      end
  end.
End repair.

(** ** Planned tasks are accepted *)

Lemma source_grid ex tf s : aligned tf s → aligned (sourceTimeframe ex tf) s.
Proof.
  intros H. unfold sourceTimeframe. destruct (bool_decide (ex = "binance")), (bool_decide (ex = "okx"));
    destruct tf; simpl; try done; try (by apply (source_aligned _ F1D) in H).
  all: destruct H as (k & Hk & ->); exists (3 * k); split; [lia|];
    cbn [grid fixedMinuteFrames dayFrames weekFrames monthFrames from_option id]; do 2 f_equal; lia.
Qed.

Lemma EndMS_mono f s t : aligned f s → aligned f t → t <= MaxTS → s <= t → EndMS s f <= EndMS t f.
Proof.
  intros (i & Hi & ->) (j & Hj & ->) Hm Hle. pose proof (grid_nonneg f i Hi). apply grid_le in Hle.
  pose proof (grid_le f i j). rewrite !end_grid by (apply steppable_dom; unfold DayMS; lia).
  pose proof (grid_le f (i + 1) (j + 1)). lia.
Qed.

Lemma last_In (l : list Z) d first : head l = Some first → List.last l d ∈ l.
Proof.
  revert first. induction l as [|x l IH]; intros first; [done|]. intros _. simpl. destruct l as [|y l]; [left|].
  right. by eapply IH.
Qed.

Lemma last_default (l : list Z) d d' first : head l = Some first → List.last l d = List.last l d'.
Proof.
  revert first. induction l as [|x l IH]; intros first; [done|]. intros _. simpl. destruct l as [|y l]; [done|].
  by eapply IH.
Qed.

Lemma key_sorted_bounds (l : list Z) first x :
  key_sorted id l → head l = Some first → x ∈ l → first <= x <= List.last l first.
Proof.
  intros Hs. revert first x. induction Hs as [|y l Hs IH Hy]; intros first x; simpl; [done|]. intros [= ->] Hx.
  rewrite Forall_forall in Hy. destruct l as [|z l].
  - apply list_elem_of_singleton in Hx. simpl. lia.
  - assert (first < z) as Hz by (apply (Hy z); left).
    rewrite (last_default (z :: l) first z z) by done.
    assert (z ∈ z :: l) as Hin by left. pose proof (IH z z eq_refl Hin).
    apply elem_of_cons in Hx as [->|Hx]; [lia|]. pose proof (IH z x eq_refl Hx). lia.
Qed.

Lemma sortedStarts_id l : key_sorted id l → sortedStarts (list_to_set l) = l.
Proof.
  intros Hs. apply key_sorted_unique; [apply sortedStarts_sorted|done|]. intros x.
  by rewrite elem_of_sortedStarts, elem_of_list_to_set.
Qed.

(** A task whose targets are buckets of an enabled timeframe, in one window. *)
Lemma validateTask_ok ex symbol tf kind t nowMS :
  good_name ex symbol tf → task_ok (ex, symbol, tf, kind) t →
  (∀ x, x ∈ t.(Task.TargetStarts) → aligned tf x ∧ 0 < x <= MaxTS) → t.(Task.EndMS) < nowMS →
  validateTask t nowMS = Ok (tf, t.(Task.TargetStarts)).
Proof.
  intros (Hex & Hne & Hsym & H3 & Hidx) [Hkey Hsrc Hstart Hsort Hend Hspan] Hx Hnow.
  injection Hkey as Eex Esym Etf Ekind. cbv zeta in Hspan.
  set (first := t.(Task.StartMS)) in *. set (last := List.last t.(Task.TargetStarts) first) in *.
  assert (Hlast : last ∈ t.(Task.TargetStarts)) by (by eapply last_In).
  assert (Hfirst : first ∈ t.(Task.TargetStarts)) by (by apply head_elem).
  destruct (Hx _ Hfirst) as [Hfal Hf0]. destruct (Hx _ Hlast) as [Hlal Hl0].
  unfold validateTask. cbv zeta. rewrite Eex, Etf, Esym, Hsrc, Hend. fold first.
  assert (negb (bool_decide (ex = "binance")) && negb (bool_decide (ex = "okx")) = false) as ->
    by (destruct Hex as [-> | ->]; done).
  assert (ValidateForExchange ex (frame_name tf) = Ok tf) as -> by (destruct tf; done).
  rewrite (bool_decide_eq_false_2 (symbol = "")) by done. rewrite (bool_decide_eq_true_2 (symbol = _)) by done.
  rewrite (proj2 (Z.ltb_ge _ _) Hidx), bool_decide_eq_true_2 by done. cbn [negb orb].
  rewrite (proj2 (Z.leb_gt _ _)) by lia.
  assert (first <= last) as Hfl by (by destruct (key_sorted_bounds _ first last Hsort Hstart Hlast)).
  assert (Hle : last <= EndMS last tf).
  { destruct Hlal as (k & Hk & ->). pose proof (grid_nonneg tf k Hk). pose proof (grid_step tf k).
    rewrite end_grid by (apply steppable_dom; unfold DayMS; lia). unfold MinuteMS in *. lia. }
  rewrite (proj2 (Z.ltb_ge _ _)) by lia. rewrite (proj2 (Z.eqb_neq _ 0)).
  2: { destruct t.(Task.TargetStarts); [done|simpl; lia]. }
  cbn [orb].
  assert (existsb (bad_target t tf nowMS) t.(Task.TargetStarts) = false) as ->.
  { apply not_true_is_false. intros (x & Hin & Hbad)%existsb_exists. apply list_elem_of_In in Hin.
    destruct (Hx x Hin) as [Hal Hx0]. destruct (key_sorted_bounds _ first x Hsort Hstart Hin) as [Hb1 Hb2].
    fold last in Hb2. pose proof (EndMS_mono tf x last Hal Hlal ltac:(lia) Hb2).
    unfold bad_target in Hbad. rewrite Hend, (aligned_floor tf x Hal ltac:(lia)), Z.eqb_refl in Hbad.
    fold first in Hbad. apply orb_true_iff in Hbad as [Hbad|Hbad]; zbool; [|lia].
    apply orb_true_iff in Hbad as [Hbad|Hbad]; zbool; [|done].
    apply orb_true_iff in Hbad as [Hbad|Hbad]; zbool; lia. }
  rewrite sortedStarts_id by done.
  assert (List.hd 0 t.(Task.TargetStarts) = first) as -> by (destruct t.(Task.TargetStarts); [done|by injection Hstart]).
  rewrite (last_default _ 0 first first) by done. fold last. rewrite !Z.eqb_refl. cbn [negb orb].
  rewrite (aligned_floor _ first (source_grid ex tf first Hfal)) by lia. rewrite Z.eqb_refl. cbn [negb orb].
  rewrite Hend in Hspan. by rewrite (proj2 (Z.ltb_ge _ _) Hspan).
Qed.

(** the plan and the repair agree: every task of a plan made from an audit
    passes the checks of [Repair] at any time after the task's end, with its own
    targets in their order. *)
Theorem plan_tasks_accepted parse_time now_text report plan t nowMS :
  BuildPlan parse_time now_text (Ok report) = Ok plan → dated report →
  t ∈ plan.(Plan.Tasks) → t.(Task.EndMS) < nowMS →
  ∃ tf, t.(Task.Timeframe) = frame_name tf ∧ validateTask t nowMS = Ok (tf, t.(Task.TargetStarts)).
Proof.
  intros H Hd Ht Hnow. destruct (plan_targets_spec _ _ _ _ H Hd) as (_ & Hok & Htar & Hgood).
  destruct (Hok t Ht) as (ex & symbol & tf & H3 & Hok'). exists tf.
  assert (Hname : task_name t = (ex, symbol, frame_name tf, "internal")) by by apply (task_ok_name _ _ Hok').
  assert (Hall : ∀ x, x ∈ t.(Task.TargetStarts) → good_name ex symbol tf ∧ aligned tf x ∧ 0 < x <= MaxTS).
  { intros x Hx. assert (((ex, symbol, frame_name tf, "internal"), x) ∈ task_targets plan.(Plan.Tasks)) as Hin.
    { unfold task_targets. apply list_elem_of_bind. exists t. split; [|done]. rewrite Hname.
      apply list_elem_of_fmap. by exists x. }
    apply Htar in Hin as (ex' & symbol' & tf' & En & H3' & Hm).
    injection En as <- <- Etf%frame_name_inj. subst tf'. by apply (Hgood _ _ _ _ Hm). }
  split; [by destruct t; injection Hname|].
  pose proof (task_start _ _ Hok') as Hstart.
  assert (Hfirst : t.(Task.StartMS) ∈ t.(Task.TargetStarts)) by (by apply head_elem).
  destruct (Hall _ Hfirst) as [Hg _]. eapply validateTask_ok; [done|done| |done].
  intros x Hx. by apply Hall.
Qed.

Example plan_tasks_accepted_witness :
  ∃ plan t, BuildPlan no_time "" (Ok sample_report) = Ok plan ∧ plan.(Plan.Tasks) = [t] ∧
    ∃ tf, t.(Task.Timeframe) = frame_name tf ∧ validateTask t 1779300000000 = Ok (tf, [1779246000000; 1779253200000]).
Proof.
  destruct (BuildPlan no_time "" (Ok sample_report)) as [plan|] eqn:E; [|vm_compute in E; discriminate E].
  assert (Hd : dated sample_report).
  { intros r s g Hr Hs Hg. apply list_elem_of_singleton in Hr. subst r. apply list_elem_of_singleton in Hs. subst s.
    apply list_elem_of_In in Hg. cbn in Hg. destruct Hg as [<-|[<-|[]]]; vm_compute; discriminate. }
  assert (Ht : ∃ t, plan.(Plan.Tasks) = [t] ∧ t.(Task.EndMS) < 1779300000000 ∧
    t.(Task.TargetStarts) = [1779246000000; 1779253200000]).
  { vm_compute in E. injection E as <-. eexists. split_and!; reflexivity. }
  destruct Ht as (t & Et & He & Ets). exists plan, t. split; [reflexivity|]. split; [exact Et|].
  rewrite <- Ets. apply (plan_tasks_accepted no_time "" sample_report plan t 1779300000000 E Hd); [|exact He].
  rewrite Et. left.
Defined.

(** ** What is built, and from what *)

Lemma validateTask_Ok task nowMS tf starts :
  validateTask task nowMS = Ok (tf, starts) →
  task.(Task.Timeframe) = frame_name tf ∧ starts = sortedStarts (list_to_set task.(Task.TargetStarts)) ∧
  task.(Task.TargetStarts) ≠ [].
Proof.
  unfold validateTask. cbv zeta. destruct (negb _ && negb _); [done|].
  destruct (ValidateForExchange _ _) as [f|[]] eqn:Ev; [|done..].
  assert (task.(Task.Timeframe) = frame_name f) as Htf.
  { revert Ev. unfold ValidateForExchange. destruct (Normalize _) eqn:En; [|done].
    destruct (_ =? "3D")%string; [done|]. intros [= <-]. by apply Normalize_Ok. }
  destruct (_ || _); [done|]. destruct (_ <? _); [done|]. destruct (negb _); [done|].
  destruct ((_ <=? 0) || _ || _) eqn:Er; [done|]. destruct (existsb _ _); [done|].
  destruct (negb _ || negb _); [done|]. destruct (negb _ || _); [done|]. intros [= <- <-].
  split_and!; [done..|]. intros E. rewrite E in Er. simpl in Er. by rewrite orb_true_r in Er.
Qed.

Lemma valid_ApplyDerived bar close ex symbol tf nowMS :
  validBar (ApplyDerived bar close) ex symbol tf nowMS = validBar bar ex symbol tf nowMS.
Proof. destruct bar. unfold ApplyDerived. cbv zeta. by repeat case_bool. Qed.

Lemma valid_as_gapfill bar now ex symbol tf nowMS :
  validBar (as_gapfill now bar) ex symbol tf nowMS = validBar bar ex symbol tf nowMS.
Proof. by destruct bar. Qed.

Lemma StartMS_ApplyDerived bar close : (ApplyDerived bar close).(Bar.StartMS) = bar.(Bar.StartMS).
Proof. destruct bar. unfold ApplyDerived. cbv zeta. by repeat case_bool. Qed.

Lemma Source_ApplyDerived bar close : (ApplyDerived bar close).(Bar.Source) = bar.(Bar.Source).
Proof. destruct bar. unfold ApplyDerived. cbv zeta. by repeat case_bool. Qed.

(** An official candle the repair may use. *)
Definition usable (task : Task) (source : Frame) (nowMS : Z) (official : list Bar) (bar : Bar) : Prop :=
  bar ∈ official ∧ validBar bar task.(Task.Exchange) task.(Task.Symbol) source nowMS = true.

Lemma official_sources_spec task source nowMS official start bar :
  official_sources task source nowMS official !! start = Some bar →
  bar.(Bar.StartMS) = start ∧ usable task source nowMS official bar.
Proof.
  unfold official_sources.
  assert (Hgen : ∀ l st, (∀ s b, st.1 !! s = Some b → b.(Bar.StartMS) = s ∧ usable task source nowMS official b) →
    (∀ b, b ∈ l → b ∈ official) →
    ∀ s b, (foldl (add_source task source nowMS) st l).1 !! s = Some b →
           b.(Bar.StartMS) = s ∧ usable task source nowMS official b).
  { induction l as [|b l IH]; intros [sources invalid] Hst Hl; simpl; [done|].
    apply IH; [|intros; apply Hl; by right].
    destruct (_ || _); [done|]. destruct (negb (validBar _ _ _ _ _)) eqn:Ev; [done|]. zbool.
    destruct (sources !! _) eqn:Es; [done|]. intros s b'. simpl.
    destruct (decide (s = b.(Bar.StartMS))) as [->|]; simplify_map_eq; [|apply Hst].
    intros [= <-]. split; [done|]. split; [apply Hl; left|done]. }
  specialize (Hgen official (∅, ∅) ltac:(intros ?? E; simpl in E; by rewrite lookup_empty in E) ltac:(done)).
  destruct (foldl _ _ _) as [sources invalid]. intros H%map_lookup_filter_Some_1_1. by apply Hgen.
Qed.

(** The candles follow one another from [c] to [c']. *)
Inductive tiles (source : Frame) : Z → list Bar → Z → Prop :=
| tiles_nil c : tiles source c [] c
| tiles_cons b bars c c' : b.(Bar.StartMS) = c → tiles source (NextStartMS c source) bars c' →
    tiles source c (b :: bars) c'.

Lemma inputs_loop_spec fuel source sources cursor endMS inputs inputs' cursor' :
  (∀ s b, sources !! s = Some b → b.(Bar.StartMS) = s) →
  inputs_loop fuel source sources cursor endMS inputs = Some (inputs', cursor') →
  ∃ new, inputs' = inputs ++ new ∧ tiles source cursor new cursor' ∧
    ∀ b, b ∈ new → sources !! b.(Bar.StartMS) = Some b.
Proof.
  intros Hs. revert cursor inputs. induction fuel as [|fuel IH]; intros cursor inputs; simpl;
    destruct (endMS <? cursor); try done.
  1,2: intros [= <- <-]; exists []; split_and!; [by rewrite app_nil_r|constructor|by intros ? ?%elem_of_nil].
  destruct (sources !! cursor) as [bar|] eqn:Eb; [destruct (_ <? _)|].
  1,3: intros [= <- <-]; exists []; split_and!; [by rewrite app_nil_r|constructor|by intros ? ?%elem_of_nil].
  intros (new & -> & Ht & Hn)%IH. exists (bar :: new). split_and!.
  - by rewrite <- app_assoc.
  - constructor; [by apply Hs|done].
  - intros b [->|Hb]%elem_of_cons; [by rewrite (Hs _ _ Eb)|by apply Hn].
Qed.

(** How a candle for [start] may come about: as the official one, or rolled up
    from official source candles that tile its bucket. *)
Definition built (task : Task) (tf : Frame) (nowMS : Z) (official : list Bar) (start : Z) (bar : Bar) : Prop :=
  let source := sourceTimeframe task.(Task.Exchange) tf in
  if decide (source = tf) then usable task tf nowMS official bar ∧ bar.(Bar.StartMS) = start
  else ∃ inputs, inputs ≠ [] ∧ (∀ b, b ∈ inputs → usable task source nowMS official b) ∧
         tiles source start inputs (i64 (EndMS start tf + 1)) ∧
         RollupBars tf inputs true "gapfill_official_source" nowMS = Some bar.

Lemma candidate_built task tf nowMS official start bar :
  candidate task tf (official_sources task (sourceTimeframe task.(Task.Exchange) tf) nowMS official) nowMS start
    = Some bar →
  built task tf nowMS official start bar.
Proof.
  unfold candidate, built. cbv zeta. set (source := sourceTimeframe _ _).
  destruct (decide (source = tf)) as [E|E].
  - rewrite bool_decide_eq_true_2 by done. intros [Hs Hu]%official_sources_spec. rewrite E in Hu. done.
  - rewrite bool_decide_eq_false_2 by done.
    destruct (inputs_loop _ _ _ _ _ _) as [[inputs cursor]|] eqn:Ei; [|done].
    destruct (_ || _) eqn:En; [done|]. zbool. intros Hr.
    apply inputs_loop_spec in Ei as (new & -> & Ht & Hn); [|by intros ?? []%official_sources_spec].
    simpl in *. exists new. split_and!; [by intros ->| |by subst cursor|done].
    intros b Hb%Hn. by apply official_sources_spec in Hb as [_ ?].
Qed.

(** What is inserted for [start]. *)
Definition repaired_bar (task : Task) (tf : Frame) (nowMS : Z) (official : list Bar) (start : Z) (bar : Bar) : Prop :=
  ∃ b0 close, built task tf nowMS official start b0 ∧ bar = ApplyDerived (as_gapfill nowMS b0) close ∧
    validBar bar task.(Task.Exchange) task.(Task.Symbol) tf nowMS = true ∧ bar.(Bar.StartMS) = start ∧
    bar.(Bar.Source) = "rest_gapfill".

Lemma decorate_spec {St} `{!GapStore St} task tf (st : St) m bars out :
  decorate task tf st m bars = Ok out → ∀ bar, bar ∈ out → ∃ b close, b ∈ bars ∧ bar = ApplyDerived b close.
Proof.
  revert m out. induction bars as [|b bars IH]; intros m out; cbn [decorate].
  { intros [= <-] bar H. by apply elem_of_nil in H. }
  cbv zeta. match goal with |- match ?e with Ok _ => _ | Err _ => _ end = _ → _ => destruct e as [prev|] end; [|done].
  set (close := match prev with Some p => _ | None => _ end).
  destruct (decorate task tf st _ bars) as [rest|] eqn:Er; [|done]. intros [= <-] bar [->|H]%elem_of_cons.
  - exists b, close. split; [left|done].
  - destruct (IH _ _ Er bar H) as (b' & c & Hin & ->). exists b', c. split; [by right|done].
Qed.

Lemma available_repaired {St} `{!GapStore St} task tf nowMS official need (st : St) loc out :
  decorateMissingBars task tf st
    (omap (available_bar task tf (official_sources task (sourceTimeframe task.(Task.Exchange) tf) nowMS official) nowMS)
       need) loc = Ok out →
  ∀ bar, bar ∈ out → ∃ start, start ∈ need ∧ repaired_bar task tf nowMS official start bar.
Proof.
  intros H bar Hin. destruct (decorate_spec _ _ _ _ _ _ H bar Hin) as (b & close & Hb & ->).
  rewrite elem_of_sort_by, list_elem_of_omap in Hb. destruct Hb as (start & Hs & Hb). exists start. split; [done|].
  unfold available_bar in Hb. destruct (candidate _ _ _ _ _) as [b0|] eqn:Ec; [|done].
  destruct (_ || _) eqn:Ev; [done|]. zbool. injection Hb as <-. exists b0, close.
  rewrite valid_ApplyDerived, valid_as_gapfill, StartMS_ApplyDerived, Source_ApplyDerived.
  split_and!; [by apply candidate_built|done|done|by destruct b0|by destruct b0].
Qed.

Lemma elem_of_not_in s starts x : x ∈ not_in s starts ↔ x ∈ starts ∧ x ∉ s.
Proof.
  unfold not_in. rewrite !list_elem_of_In, List.filter_In, <- !list_elem_of_In, negb_true_iff.
  by rewrite bool_decide_eq_false.
Qed.

(** Which targets have a row, and a final one, among the rows read. *)
Definition has_row (task : Task) (rows : list Bar) (start : Z) : Prop :=
  ∃ b, b ∈ rows ∧ is_of_task task b = true ∧ b.(Bar.StartMS) = start.
Definition has_final (task : Task) (rows : list Bar) (start : Z) : Prop :=
  ∃ b, b ∈ rows ∧ is_of_task task b = true ∧ b.(Bar.StartMS) = start ∧ b.(Bar.IsFinal) = true.

Lemma elem_of_snoc {A} (x b : A) l : x ∈ l ++ [b] ↔ x ∈ l ∨ x = b.
Proof. by rewrite elem_of_app, list_elem_of_singleton. Qed.

Lemma storedTargetKeys_spec task rows starts :
  let '(occupied, final) := storedTargetKeys task rows starts in
  (∀ x, x ∈ occupied ↔ x ∈ starts ∧ has_row task rows x) ∧
  (∀ x, x ∈ final ↔ x ∈ starts ∧ has_final task rows x).
Proof.
  unfold storedTargetKeys, has_row, has_final.
  induction rows as [|b rows IH] using rev_ind; simpl.
  { split; intros x; (split; [by intros ?%elem_of_empty|]); intros (_ & b & H & _); by apply elem_of_nil in H. }
  rewrite foldl_app. simpl. destruct (foldl _ _ rows) as [occupied final]. destruct IH as [IH1 IH2].
  destruct (is_of_task task b && bool_decide (b.(Bar.StartMS) ∈ starts)) eqn:E.
  - apply andb_true_iff in E as [Et Es]. bprop. split; intros x.
    + rewrite elem_of_union, elem_of_singleton, IH1. split.
      * intros [->|(Hx & b' & Hb' & H)]; [split; [done|]; exists b; set_solver|]. split; [done|].
        exists b'. set_solver.
      * intros (Hx & b' & [Hb'| ->]%elem_of_snoc & H); [right|left; by destruct H].
        split; [done|]. by exists b'.
    + assert (x ∈ (if b.(Bar.IsFinal) then {[b.(Bar.StartMS)]} ∪ final else final) ↔
        x ∈ final ∨ (b.(Bar.IsFinal) = true ∧ x = b.(Bar.StartMS))) as -> by
        (destruct (b.(Bar.IsFinal)); [rewrite elem_of_union, elem_of_singleton|]; naive_solver).
      rewrite IH2. split.
      * intros [(Hx & b' & Hb' & H)|[Hf ->]]; (split; [done|]); [exists b'; set_solver|exists b; set_solver].
      * intros (Hx & b' & [Hb'| ->]%elem_of_snoc & H & <- & Hf); [left|by right].
        split; [done|]. by exists b'.
  - assert (Hno : ∀ x, x ∈ starts → is_of_task task b = true → b.(Bar.StartMS) ≠ x).
    { intros x Hx Ht <-. rewrite Ht in E. simpl in E. by apply bool_decide_eq_false in E. }
    split; intros x; [rewrite IH1|rewrite IH2]; (split; intros (Hx & b' & Hb' & H); (split; [done|]); exists b').
    + set_solver.
    + apply elem_of_snoc in Hb' as [Hb'| ->]; [done|]. destruct H as [H1 H2].
      by destruct (Hno x Hx H1).
    + set_solver.
    + apply elem_of_snoc in Hb' as [Hb'| ->]; [done|]. destruct H as (H1 & H2 & _).
      by destruct (Hno x Hx H1).
Qed.

(** ** The contract of the store *)

(** [InsertMissingBars] leaves every existing primary key alone, final or not, and
    gives a new one the row of the candle that carries it. *)
Class GapStoreLaws (St : Type) `{!GapStore St} := {
  gs_row : string → string → string → Z → St → option Bar;
  gs_insert_missing bars st r st' : gs_InsertMissingBars bars st = (r, st') →
    ∀ ex symbol tf start,
      gs_row ex symbol tf start st' = gs_row ex symbol tf start st ∨
      (gs_row ex symbol tf start st = None ∧
       ∃ bar, bar ∈ bars ∧ bar.(Bar.Exchange) = ex ∧ bar.(Bar.Symbol) = symbol ∧
         bar.(Bar.Timeframe) = tf ∧ bar.(Bar.StartMS) = start ∧ gs_row ex symbol tf start st' = Some bar);
}.

(** Rows by primary key: a store that keeps the contract. *)
Definition row_key : Type := string * string * string * Z.
Definition bar_key (bar : Bar) : row_key :=
  (bar.(Bar.Exchange), bar.(Bar.Symbol), bar.(Bar.Timeframe), bar.(Bar.StartMS)).
Definition insert_row (st : Z * gmap row_key Bar) (bar : Bar) : Z * gmap row_key Bar :=
  match st.2 !! bar_key bar with Some _ => st | None => (st.1 + 1, <[bar_key bar := bar]> st.2) end.
Definition rows_in_range (ex symbol tf : string) (startMS endMS : Z) (st : gmap row_key Bar) : list Bar :=
  List.filter (fun b => bool_decide (b.(Bar.Exchange) = ex) && bool_decide (b.(Bar.Symbol) = symbol)
    && bool_decide (b.(Bar.Timeframe) = tf) && (startMS <=? b.(Bar.StartMS)) && (b.(Bar.StartMS) <=? endMS))
    (snd <$> map_to_list st).

#[export] Instance row_store : GapStore (gmap row_key Bar) := {
  gs_BarsInRange ex symbol tf startMS endMS st := Ok (rows_in_range ex symbol tf startMS endMS st);
  gs_InsertMissingBars bars st := let '(n, st) := foldl insert_row (0, st) bars in ((n, None), st);
}.

Lemma insert_rows_spec bars n st key :
  (foldl insert_row (n, st) bars).2 !! key = st !! key ∨
  (st !! key = None ∧ ∃ bar, bar ∈ bars ∧ bar_key bar = key ∧ (foldl insert_row (n, st) bars).2 !! key = Some bar).
Proof.
  revert n st. induction bars as [|b bars IH]; intros n st; simpl; [by left|]. unfold insert_row at 2 4. simpl.
  destruct (st !! bar_key b) as [old|] eqn:Eb.
  - destruct (IH n st) as [H|(H1 & bar & Hin & H2)]; [by left|right]. split; [done|]. exists bar. set_solver.
  - destruct (IH (n + 1) (<[bar_key b := b]> st)) as [H|(H1 & bar & Hin & H2 & H3)]; simpl in *.
    + destruct (decide (key = bar_key b)) as [->|]; simplify_map_eq; [right|by left].
      split; [done|]. exists b. split_and!; [left|done|done].
    + destruct (decide (key = bar_key b)) as [->|]; simplify_map_eq. right. split; [done|]. exists bar. set_solver.
Qed.

#[export] Instance row_store_laws : GapStoreLaws (gmap row_key Bar).
Proof.
  refine {| gs_row ex symbol tf start st := st !! (ex, symbol, tf, start) |}.
  intros bars st r st' H ex symbol tf start. simpl in H.
  pose proof (insert_rows_spec bars 0 st (ex, symbol, tf, start)) as Hs.
  destruct (foldl _ _ _) as [n st2]. injection H as <- <-. simpl in Hs.
  destruct Hs as [Hs|(Hn & bar & Hb & Hk & Hs)]; [by left|right]. split; [done|]. exists bar.
  unfold bar_key in Hk. injection Hk as <- <- <- <-. done.
Defined.

(** ** Properties *)

(** The results of a repair that wrote nothing. *)
Lemma insert_and_verify_writes {St} `{!GapStore St} task starts already fetched missing available (st : St) :
  (insert_and_verify task starts already fetched missing available st).2 = st ∨
  ∃ r, available ≠ [] ∧ gs_InsertMissingBars available st
    = (r, (insert_and_verify task starts already fetched missing available st).2).
Proof.
  unfold insert_and_verify. destruct available as [|b available].
  - left. destruct (gs_BarsInRange _ _ _ _ _ _); done.
  - right. destruct (gs_InsertMissingBars (b :: available) st) as [[inserted err] st1] eqn:E.
    exists (inserted, err). destruct err; [done|]. by destruct (gs_BarsInRange _ _ _ _ _ st1).
Qed.

Lemma Repair_writes_bars {St} `{!GapStore St} fetch now1 now2 task apply (st : St) :
  (Repair fetch now1 now2 task apply st).2 = st ∨
  ∃ tf starts official available r,
    apply = true ∧ validateTask task now1 = Ok (tf, starts) ∧
    fetch (KlineRequest.mk task.(Task.Symbol) task.(Task.SourceTimeframe) task.(Task.StartMS) task.(Task.EndMS) 0 "raw" 0)
      = Ok official ∧
    gs_InsertMissingBars available st = (r, (Repair fetch now1 now2 task apply st).2) ∧
    ∀ bar, bar ∈ available → ∃ start, start ∈ starts ∧ repaired_bar task tf now2 official start bar.
Proof.
  unfold Repair. destruct (validateTask task now1) as [[tf starts]|e]; [|by left].
  destruct (gs_BarsInRange _ _ _ _ _ st) as [loc|e]; [|by left].
  pose proof (storedTargetKeys_spec task loc starts) as Hk.
  destruct (storedTargetKeys task loc starts) as [occupied present]. cbv zeta.
  remember (not_in present starts) as missing eqn:Hm. remember (not_in occupied missing) as need eqn:Hn.
  destruct missing as [|m0 missing]; [by left|]. destruct need as [|n0 need]; [by left|].
  destruct (fetch _) as [official|e] eqn:Ef; [|by left].
  destruct (decorateMissingBars _ _ _ _ _) as [available|e] eqn:Ed; [|by left].
  destruct apply; [|by left]. simpl negb. cbv iota.
  destruct (insert_and_verify_writes task starts
    (Z.of_nat (length (List.filter (λ start, bool_decide (start ∈ occupied)) starts)))
    (Z.of_nat (length official)) (m0 :: missing) available st) as [H|(r & _ & H)]; [by left|right].
  exists tf, starts, official, available, r. split_and!; [done..|].
  intros bar Hbar. destruct (available_repaired _ _ _ _ _ _ _ _ Ed bar Hbar) as (start & Hs & Hr).
  exists start. split; [|done]. rewrite Hn, elem_of_not_in, Hm, elem_of_not_in in Hs. tauto.
Qed.

(** C25: a repair writes only where it may.  On any store that keeps the contract
    of [InsertMissingBars], a row that differs after [Repair] is one of the task's
    own series at one of its targets, where no row was; it holds a valid final
    candle of that bucket, closed at the time of the repair, marked
    "rest_gapfill", and taken from the official candles, as they are or rolled up
    from source candles that tile the bucket.  A dry run writes nothing. *)
Theorem Repair_writes {St} `{!GapStore St, !GapStoreLaws St} fetch now1 now2 task apply (st : St)
    ex symbol tf start :
  let st' := snd (Repair fetch now1 now2 task apply st) in
  gs_row ex symbol tf start st' ≠ gs_row ex symbol tf start st →
  apply = true ∧ ex = task.(Task.Exchange) ∧ symbol = task.(Task.Symbol) ∧ tf = task.(Task.Timeframe) ∧
  start ∈ task.(Task.TargetStarts) ∧ gs_row ex symbol tf start st = None ∧
  ∃ f official bar, tf = frame_name f ∧
    fetch (KlineRequest.mk symbol task.(Task.SourceTimeframe) task.(Task.StartMS) task.(Task.EndMS) 0 "raw" 0) = Ok official ∧
    gs_row ex symbol tf start st' = Some bar ∧ repaired_bar task f now2 official start bar.
Proof.
  intros st' Hne. subst st'.
  destruct (Repair_writes_bars fetch now1 now2 task apply st) as [H|(f & starts & official & available & r & Ha & Hv & Hf & Hi & Hb)].
  { rewrite H in Hne. done. }
  apply validateTask_Ok in Hv as (Htf & -> & _).
  destruct (gs_insert_missing _ _ _ _ Hi ex symbol tf start) as [H|(Hnone & bar & Hin & <- & <- & <- & <- & Hrow)]; [done|].
  destruct (Hb bar Hin) as (s & Hs & Hrep). rewrite elem_of_sortedStarts, elem_of_list_to_set in Hs.
  pose proof Hrep as (b0 & close & _ & _ & Hval & Hst & _). rewrite Hst in *.
  assert (bar.(Bar.Exchange) = task.(Task.Exchange) ∧ bar.(Bar.Symbol) = task.(Task.Symbol) ∧
    bar.(Bar.Timeframe) = frame_name f) as (H1 & H2 & H3).
  { revert Hval. unfold validBar. repeat match goal with |- (if ?b then _ else _) = _ → _ => destruct b eqn:?; try done end.
    intros _. zbool. bprop. done. }
  rewrite H1, H2, H3, Htf in *. split_and!; try done. exists f, official, bar. by split_and!.
Qed.

Definition sample_task : Task :=
  Task.mk "t" "okx" "BTC-USDT" "1H" "1H" 1779246000000 1779256799999 [1779246000000; 1779253200000] "internal".
Definition sample_bar (start : Z) : Bar :=
  {| Bar.Exchange := "okx"; Bar.Symbol := "BTC-USDT"; Bar.MarginType := "umargin";
     Bar.Timeframe := "1H"; Bar.StartMS := start; Bar.EndMS := start + 3599999; Bar.StartTS := 0; Bar.EndTS := 0;
     Bar.OpenPrice := f64_of_Z 100; Bar.HighPrice := f64_of_Z 110; Bar.LowPrice := f64_of_Z 90;
     Bar.ClosePrice := f64_of_Z 105; Bar.Open := f64_zero; Bar.High := f64_zero; Bar.Low := f64_zero;
     Bar.Close := f64_zero; Bar.PrevClose := f64_zero; Bar.Chg := f64_zero; Bar.Amp := f64_zero;
     Bar.Volume := f64_of_Z 1; Bar.VolumeUnit := ""; Bar.QuoteVolume := f64_of_Z 1; Bar.Quote := f64_zero;
     Bar.QuoteUnit := ""; Bar.ContractVolume := f64_zero; Bar.TradeCount := 1; Bar.LastTickMS := 0;
     Bar.IsFinal := true; Bar.Source := "okx"; Bar.Reason := ""; Bar.UpdatedAtMS := 1 |}.
(** The exchange has the first missing hour, and the one between the targets. *)
Definition sample_fetch (request : KlineRequest) : result go_error (list Bar) :=
  Ok [sample_bar 1779246000000; sample_bar 1779249600000].

Example Repair_writes_witness :
  let st' := snd (Repair sample_fetch 1779300000000 1779300000001 sample_task true (∅ : gmap row_key Bar)) in
  gs_row "okx" "BTC-USDT" "1H" 1779246000000 st' ≠ gs_row "okx" "BTC-USDT" "1H" 1779246000000 (∅ : gmap row_key Bar) ∧
  ∃ f official bar, frame_name F1H = frame_name f ∧
    gs_row "okx" "BTC-USDT" "1H" 1779246000000 st' = Some bar ∧
    repaired_bar sample_task f 1779300000001 official 1779246000000 bar.
Proof.
  intros st'.
  assert (Hne : gs_row "okx" "BTC-USDT" "1H" 1779246000000 st'
    ≠ gs_row "okx" "BTC-USDT" "1H" 1779246000000 (∅ : gmap row_key Bar)) by (vm_compute; discriminate).
  split; [exact Hne|].
  destruct (Repair_writes sample_fetch 1779300000000 1779300000001 sample_task true (∅ : gmap row_key Bar)
    "okx" "BTC-USDT" "1H" 1779246000000 Hne) as (_ & _ & _ & _ & _ & _ & f & official & bar & Hf & _ & Hrow & Hr).
  exists f, official, bar. split; [exact Hf|]. split; [exact Hrow|exact Hr].
Defined.

(** The result is true of the rows read last. *)
Definition result_true (task : Task) (res : Result) (rows : list Bar) : Prop :=
  (∀ x, x ∈ res.(Result.MissingStarts) ↔ x ∈ task.(Task.TargetStarts) ∧ ¬ has_final task rows x) ∧
  (res.(Result.Status) ∈ ["already_present"; "repaired"] ↔ res.(Result.MissingStarts) = []) ∧
  (res.(Result.Status) = "conflict" →
     ∀ x, x ∈ res.(Result.MissingStarts) → has_row task rows x) ∧
  res.(Result.Unverified) = false ∧ res.(Result.Error) = None ∧ NoDup res.(Result.MissingStarts).

Lemma missing_true task tf starts now rows :
  validateTask task now = Ok (tf, starts) →
  let '(occupied, present) := storedTargetKeys task rows starts in
  NoDup (not_in present starts) ∧
  (∀ x, x ∈ not_in present starts ↔ x ∈ task.(Task.TargetStarts) ∧ ¬ has_final task rows x) ∧
  (not_in occupied (not_in present starts) = [] → ∀ x, x ∈ not_in present starts → has_row task rows x).
Proof.
  intros (_ & Hst & _)%validateTask_Ok. pose proof (storedTargetKeys_spec task rows starts) as Hk.
  destruct (storedTargetKeys task rows starts) as [occupied present]. destruct Hk as [Ho Hp].
  assert (Hin : ∀ x, x ∈ starts ↔ x ∈ task.(Task.TargetStarts))
    by (intros x; by rewrite Hst, elem_of_sortedStarts, elem_of_list_to_set).
  split_and!.
  - unfold not_in. apply NoDup_ListNoDup, List.NoDup_filter, NoDup_ListNoDup.
    rewrite Hst, <- (list_fmap_id (sortedStarts _)). apply key_sorted_NoDup, sortedStarts_sorted.
  - intros x. rewrite elem_of_not_in, Hp, Hin. split; [|naive_solver]. intros [Hx Hn]. split; [done|]. intros Hf.
    by apply Hn.
  - intros E x Hx. destruct (decide (x ∈ occupied)) as [Hocc|Hno]; [by apply Ho in Hocc as [_ ?]|].
    assert (x ∈ not_in occupied (not_in present starts)) as H by (by apply elem_of_not_in). rewrite E in H.
    by apply elem_of_nil in H.
Qed.

Lemma insert_and_verify_result {St} `{!GapStore St} task tf now starts already fetched missing available (st : St) :
  validateTask task now = Ok (tf, starts) →
  let '((res, err), st') := insert_and_verify task starts already fetched missing available st in
  match err with
  | Some e => res.(Result.Status) = "error" ∧ res.(Result.Error) = Some e
  | None => ∃ rows, gs_BarsInRange task.(Task.Exchange) task.(Task.Symbol) task.(Task.Timeframe)
              (List.hd 0 starts) (List.last starts 0) st' = Ok rows ∧ result_true task res rows
  end.
Proof.
  intros Hv. unfold insert_and_verify. cbv zeta.
  destruct (match available with [] => _ | _ => _ end) as [[inserted err] st1].
  destruct err as [e|]; [done|]. destruct (gs_BarsInRange _ _ _ _ _ st1) as [rows|e] eqn:Eb; [|done].
  exists rows. split; [done|]. pose proof (missing_true task tf starts now rows Hv) as Hm.
  destruct (storedTargetKeys task rows starts) as [occupied present]. simpl. destruct Hm as (Hnd & Hin & _).
  set (m := not_in present starts) in *. unfold result_true. simpl. split_and!; try done.
  - destruct m as [|x m'] eqn:E; [split; [done|intros _; set_solver]|].
    assert (Z.of_nat (length (x :: m')) =? 0 = false) as -> by (apply Z.eqb_neq; simpl; lia).
    split; [|done]. intros Hs. exfalso. destruct (_ && _); set_solver.
  - destruct (_ =? 0); [done|]. destruct (_ && _); done.
Qed.

(** what [Repair] reports is so.  When it returns no error, the missing starts
    of the result are, without repetition, the targets that have no final row in
    the store it leaves behind, as read from there; the status is
    "already_present" or "repaired" exactly when none is missing, and "conflict"
    only if every missing target has a row that is not final.  An error leaves the
    status "error" and is recorded. *)
Theorem Repair_result {St} `{!GapStore St} fetch now1 now2 task apply (st : St) :
  let '((res, err), st') := Repair fetch now1 now2 task apply st in
  match err with
  | Some e => res.(Result.Status) = "error" ∧ res.(Result.Error) = Some e
  | None => ∃ tf starts rows, validateTask task now1 = Ok (tf, starts) ∧
      gs_BarsInRange task.(Task.Exchange) task.(Task.Symbol) task.(Task.Timeframe)
        (List.hd 0 starts) (List.last starts 0) st' = Ok rows ∧ result_true task res rows
  end.
Proof.
  unfold Repair. destruct (validateTask task now1) as [[tf starts]|e] eqn:Ev; [|done].
  destruct (gs_BarsInRange _ _ _ _ _ st) as [loc|e] eqn:Eb; [|done].
  pose proof (missing_true task tf starts now1 loc Ev) as Hm.
  destruct (storedTargetKeys task loc starts) as [occupied present]. cbv zeta. destruct Hm as (Hnd & Hin & Hc).
  remember (not_in present starts) as missing eqn:Em. remember (not_in occupied missing) as need eqn:En.
  destruct missing as [|m0 missing].
  { exists tf, starts, loc. split_and!; [done..|]. unfold result_true. simpl. split_and!; try done; set_solver. }
  destruct need as [|n0 need].
  { exists tf, starts, loc. split_and!; [done..|]. unfold result_true. simpl. split_and!; try done; [set_solver|].
    intros _. by apply Hc. }
  destruct (fetch _) as [official|e]; [|done].
  destruct (decorateMissingBars _ _ _ _ _) as [available|e]; [|done]. destruct apply; simpl negb; cbv iota.
  - pose proof (insert_and_verify_result task tf now1 starts
      (Z.of_nat (length (List.filter (λ start, bool_decide (start ∈ occupied)) starts)))
      (Z.of_nat (length official)) (m0 :: missing) available st Ev) as H.
    destruct (insert_and_verify _ _ _ _ _ _ _) as [[res [e|]] st']; [done|].
    destruct H as (rows & H1 & H2). by exists tf, starts, rows.
  - exists tf, starts, loc. split_and!; [done..|]. unfold result_true. simpl.
    split_and!; try done; destruct available; try done; set_solver.
Qed.
