(* ===== verification/GapTransport.v ===== *)
(** * The paced transport of gapfill_klines (cmd/gapfill_klines/transport.go)

    One transport per exchange spaces the starts of its requests and holds them
    back while the exchange wants a pause.  Its state changes only under its lock:
    when a request tries to start ([try_start]) and when a response has come
    ([finish]); a history is the list of these in the order of the lock.  Instants
    and durations are nanoseconds.  The dates a server may send in Retry-After are
    read by net/http's ParseTime, an argument here. *)

From S2P Require Export GoTime.

Local Open Scope string_scope.
Local Open Scope Z_scope.
Local Open Scope list_scope.

Definition defaultRateLimitCooldown : Z := 60 * Second.
Definition defaultBanCooldown : Z := 120 * Second.
Definition defaultServerCooldown : Z := Second.

Module pacedTransportStats.
Record pacedTransportStats : Type := mk { Requests : Z; Limited : Z; Failures : Z }.
End pacedTransportStats.
Notation pacedTransportStats := pacedTransportStats.pacedTransportStats.

Module pacedTransport.
Record pacedTransport : Type := mk { interval : Z; nextStart : Z; cooldownUntil : Z; stats : pacedTransportStats }.
End pacedTransport.
Notation pacedTransport := pacedTransport.pacedTransport.

(** The zero [time.Time]. *)
Definition zero_instant : Z := -62135596800 * Second.

Definition newPacedTransport (interval : Z) : pacedTransport :=
  pacedTransport.mk (if interval <? 0 then 0 else interval) zero_instant zero_instant (pacedTransportStats.mk 0 0 0).

(** The status and the header Retry-After. *)
Module Response.
Record Response : Type := mk { StatusCode : Z; RetryAfter : string }.
End Response.
Notation Response := Response.Response.

Section transport.
Context (ParseTime : string → option Z).

Definition retryAfterDelay (value : string) (now : Z) : option Z :=
  let value := TrimSpace value in
  if bool_decide (value = "") then None
  else
    let '(seconds, ok) := ParseInt value in
    if ok && (0 <=? seconds)
    then Some (if Z.quot maxDuration Second <? seconds then maxDuration else i64 (seconds * Second))
    else
      match ParseTime value with
      | Some until => Some (if until <=? now then 0 else Sub until now)
      | None => None
      end.

Definition responseCooldown (response : Response) (now : Z) : Z :=
  match retryAfterDelay response.(Response.RetryAfter) now with
  | Some delay => delay
  | None =>
      let status := response.(Response.StatusCode) in
      if status =? 429 then defaultRateLimitCooldown
      else if status =? 418 then defaultBanCooldown
      else if (500 <=? status) && (status <=? 599) then defaultServerCooldown
      else 0
  end.

(** One round of [waitForStart] with the lock held: the request starts, or learns how
    long to wait before it tries again. *)
Definition try_start (now : Z) (t : pacedTransport) : pacedTransport + Z :=
  let readyAt := if t.(pacedTransport.nextStart) <? t.(pacedTransport.cooldownUntil)
                 then t.(pacedTransport.cooldownUntil) else t.(pacedTransport.nextStart) in
  if readyAt <=? now then
    let s := t.(pacedTransport.stats) in
    inl (pacedTransport.mk t.(pacedTransport.interval) (now + t.(pacedTransport.interval)) t.(pacedTransport.cooldownUntil)
           (pacedTransportStats.mk (s.(pacedTransportStats.Requests) + 1) s.(pacedTransportStats.Limited)
              s.(pacedTransportStats.Failures)))
  else inr (Sub readyAt now).

(** [waitForStart]: what the context says comes first, at every round. *)
Definition wait_round (ctxErr : option go_error) (now : Z) (t : pacedTransport) : result go_error (pacedTransport + Z) :=
  match ctxErr with Some e => Err e | None => Ok (try_start now t) end.

(** What [RoundTrip] does with the answer of the base transport. *)
Definition finish (now : Z) (response : option Response) (failed : bool) (t : pacedTransport) : pacedTransport :=
  let s := t.(pacedTransport.stats) in
  let status := from_option Response.StatusCode 0 response in
  let failures := if failed || (400 <=? status) then s.(pacedTransportStats.Failures) + 1 else s.(pacedTransportStats.Failures) in
  let limited := if (status =? 429) || (status =? 418) then s.(pacedTransportStats.Limited) + 1
                 else s.(pacedTransportStats.Limited) in
  let cooldownUntil :=
    match response with
    | Some response =>
        let delay := responseCooldown response now in
        let until := now + delay in
        if (0 <? delay) && (t.(pacedTransport.cooldownUntil) <? until) then until else t.(pacedTransport.cooldownUntil)
    | None => t.(pacedTransport.cooldownUntil)
    end in
  pacedTransport.mk t.(pacedTransport.interval) t.(pacedTransport.nextStart) cooldownUntil
    (pacedTransportStats.mk s.(pacedTransportStats.Requests) limited failures).

(** ** Histories *)

Inductive transport_op : Type :=
| TryStart (now : Z)
| Answered (now : Z) (response : option Response) (failed : bool).

(** The state after a history, and the instants at which requests started. *)
Fixpoint transport_run (ops : list transport_op) (t : pacedTransport) : pacedTransport * list Z :=
  match ops with
  | [] => (t, [])
  | TryStart now :: rest =>
      match try_start now t with
      | inl t => let '(t, starts) := transport_run rest t in (t, now :: starts)
      | inr _ => transport_run rest t
      end
  | Answered now response failed :: rest => transport_run rest (finish now response failed t)
  end.

(** ** What the transport guarantees *)

Lemma finish_fields now response failed t :
  (finish now response failed t).(pacedTransport.interval) = t.(pacedTransport.interval) ∧
  (finish now response failed t).(pacedTransport.nextStart) = t.(pacedTransport.nextStart) ∧
  t.(pacedTransport.cooldownUntil) <= (finish now response failed t).(pacedTransport.cooldownUntil).
Proof.
  split; [done|]. split; [done|]. cbn. destruct response; [|done]. case_bool; [|done]. zbool. lia.
Qed.

Lemma finish_cooldown now response failed t :
  let delay := responseCooldown response now in
  0 < delay → now + delay <= (finish now (Some response) failed t).(pacedTransport.cooldownUntil).
Proof.
  intros delay Hd. cbn. fold delay. rewrite (proj2 (Z.ltb_lt _ _) Hd). cbn [andb]. case_bool; zbool; lia.
Qed.

Lemma try_start_inl now t t' : try_start now t = inl t' →
  t.(pacedTransport.nextStart) <= now ∧ t.(pacedTransport.cooldownUntil) <= now ∧
  t'.(pacedTransport.interval) = t.(pacedTransport.interval) ∧ t'.(pacedTransport.nextStart) = now + t.(pacedTransport.interval) ∧
  t'.(pacedTransport.cooldownUntil) = t.(pacedTransport.cooldownUntil).
Proof.
  unfold try_start. set (ready := if _ <? _ then _ else _). destruct (ready <=? now) eqn:E; [|done].
  intros [= <-]. cbn. subst ready. destruct (_ <? _) eqn:E2 in E; zbool; split_and!; lia || done.
Qed.

(** No start comes before what the state holds back. *)
Lemma starts_held ops t start :
  0 <= t.(pacedTransport.interval) → start ∈ snd (transport_run ops t) →
  t.(pacedTransport.nextStart) <= start ∧ t.(pacedTransport.cooldownUntil) <= start.
Proof.
  revert t. induction ops as [|[now|now response failed] ops IH]; intros t Hi Hs; cbn [transport_run] in Hs;
    [by apply not_elem_of_nil in Hs| |].
  - destruct (try_start now t) as [t'|wait] eqn:E; [|by apply IH].
    destruct (try_start_inl _ _ _ E) as (H1 & H2 & H3 & H4 & H5).
    destruct (transport_run ops t') as [t'' starts] eqn:Er. cbn [snd] in Hs.
    apply elem_of_cons in Hs as [->|Hs]; [done|]. destruct (IH t') as [? ?]; [lia|by rewrite Er|]. lia.
  - destruct (finish_fields now response failed t) as (H1 & H2 & H3).
    destruct (IH (finish now response failed t)) as [? ?]; [by rewrite H1|done|]. lia.
Qed.

Fixpoint apart (interval : Z) (starts : list Z) : Prop :=
  match starts with
  | a :: ((b :: _) as rest) => a + interval <= b ∧ apart interval rest
  | _ => True
  end.

Lemma starts_apart ops t : 0 <= t.(pacedTransport.interval) → apart t.(pacedTransport.interval) (snd (transport_run ops t)).
Proof.
  revert t. induction ops as [|[now|now response failed] ops IH]; intros t Hi; cbn [transport_run]; [done| |].
  - destruct (try_start now t) as [t'|wait] eqn:E; [|by apply IH].
    destruct (try_start_inl _ _ _ E) as (_ & _ & H3 & H4 & _).
    pose proof (starts_held ops t') as Hh. specialize (IH t'). rewrite H3 in *.
    destruct (transport_run ops t') as [t'' starts] eqn:Er. cbn [snd] in *. destruct starts as [|b starts]; [done|].
    split; [|by apply IH]. destruct (Hh b Hi ltac:(by left)). lia.
  - destruct (finish_fields now response failed t) as (H1 & _). rewrite <- H1. apply IH. by rewrite H1.
Qed.

Lemma transport_run_app ops1 ops2 t :
  transport_run (ops1 ++ ops2) t =
  let '(t1, starts1) := transport_run ops1 t in
  let '(t2, starts2) := transport_run ops2 t1 in (t2, starts1 ++ starts2).
Proof.
  revert t. induction ops1 as [|[now|now response failed] ops IH]; intros t; cbn [transport_run app].
  - by destruct (transport_run ops2 t).
  - destruct (try_start now t) as [t'|wait]; [|by apply IH]. rewrite IH. destruct (transport_run ops t') as [t1 s1].
    by destruct (transport_run ops2 t1).
  - by rewrite IH.
Qed.

Lemma run_interval ops t : (fst (transport_run ops t)).(pacedTransport.interval) = t.(pacedTransport.interval).
Proof.
  revert t. induction ops as [|[now|now response failed] ops IH]; intros t; cbn [transport_run]; [done| |by rewrite IH, (proj1 (finish_fields _ _ _ _))].
  destruct (try_start now t) as [t'|wait] eqn:E; [|by apply IH]. destruct (try_start_inl _ _ _ E) as (_ & _ & H & _).
  specialize (IH t'). destruct (transport_run ops t'). cbn in *. congruence.
Qed.

Lemma run_requests ops t :
  (fst (transport_run ops t)).(pacedTransport.stats).(pacedTransportStats.Requests)
  = t.(pacedTransport.stats).(pacedTransportStats.Requests) + Z.of_nat (length (snd (transport_run ops t))).
Proof.
  revert t. induction ops as [|[now|now response failed] ops IH]; intros t; cbn [transport_run]; [simpl; lia| |by rewrite IH].
  destruct (try_start now t) as [t'|wait] eqn:E; [|by apply IH]. specialize (IH t').
  assert (t'.(pacedTransport.stats).(pacedTransportStats.Requests) = t.(pacedTransport.stats).(pacedTransportStats.Requests) + 1) as H
    by (unfold try_start in E; destruct (_ <=? now); [by injection E as <-|done]).
  destruct (transport_run ops t'). cbn [fst snd length] in *. lia.
Qed.

(** C29: whatever the goroutines, the instants at which they try and the answers that
    come, consecutive requests of an exchange start at least the interval apart; no
    request starts before the pause is over that any earlier answer asked for, by its
    status or by Retry-After; and a request that waits as long as it was told starts
    then, unless another one started or a longer pause came meanwhile. *)
Theorem transport_paced interval ops :
  apart (Z.max 0 interval) (snd (transport_run ops (newPacedTransport interval))) ∧
  (∀ ops1 now response failed ops2 start,
     ops = ops1 ++ Answered now (Some response) failed :: ops2 → 0 < responseCooldown response now →
     let t := finish now (Some response) failed (fst (transport_run ops1 (newPacedTransport interval))) in
     start ∈ snd (transport_run ops2 t) → now + responseCooldown response now <= start) ∧
  (∀ ops1 now wait, let t := fst (transport_run ops1 (newPacedTransport interval)) in
     try_start now t = inr wait → 0 < wait ∧
     (wait < maxDuration → is_Some (match try_start (now + wait) t with inl t => Some t | inr _ => None end))) ∧
  (fst (transport_run ops (newPacedTransport interval))).(pacedTransport.stats).(pacedTransportStats.Requests)
    = Z.of_nat (length (snd (transport_run ops (newPacedTransport interval)))).
Proof.
  assert (Hi : (newPacedTransport interval).(pacedTransport.interval) = Z.max 0 interval)
    by (unfold newPacedTransport; cbn; case_bool; zbool; lia).
  split_and!.
  - rewrite <- Hi. apply starts_apart. rewrite Hi. lia.
  - intros ops1 now response failed ops2 start _ Hd t Hs. subst t. apply starts_held in Hs.
    + pose proof (finish_cooldown now response failed (fst (transport_run ops1 (newPacedTransport interval))) Hd). lia.
    + rewrite (proj1 (finish_fields _ _ _ _)), run_interval, Hi. lia.
  - intros ops1 now wait t. unfold try_start. set (ready := if _ <? _ then _ else _).
    destruct (ready <=? now) eqn:E; [done|]. intros [= <-]. zbool.
    unfold Sub, minDuration, maxDuration, two63 in *. split; [lia|]. intros Hm.
    replace (now + Z.max _ _) with ready by lia. rewrite Z.leb_refl. by eexists.
  - by rewrite run_requests.
Qed.
End transport.

(** Two requests a second: the second waits for its turn, the third for the pause of a
    429 with Retry-After. *)
Example transport_paced_witness :
  let ops := [TryStart 0; TryStart (Second / 4); TryStart (Second / 2);
              Answered Second (Some (Response.mk 429 "3")) false; TryStart (3 * Second); TryStart (4 * Second)] in
  snd (transport_run (λ _, None) ops (newPacedTransport (Second / 2))) = [0; Second / 2; 4 * Second] ∧
  Second + responseCooldown (λ _, None) (Response.mk 429 "3") Second <= 4 * Second.
Proof.
  split; [vm_compute; reflexivity|].
  apply (proj1 (proj2 (transport_paced (λ _, None) (Second / 2)
           [TryStart 0; TryStart (Second / 4); TryStart (Second / 2);
            Answered Second (Some (Response.mk 429 "3")) false; TryStart (3 * Second); TryStart (4 * Second)]))
           [TryStart 0; TryStart (Second / 4); TryStart (Second / 2)] Second (Response.mk 429 "3") false
           [TryStart (3 * Second); TryStart (4 * Second)]); [reflexivity|vm_compute; reflexivity|vm_compute; by left].
Defined.
