(* ===== verification/GapRun.v ===== *)
(** * Repairing the gaps of a report (cmd/gapfill_klines/main.go, snapshot.go, safety.go)

    The command plans tasks from a frozen report and the official inventory, and
    repairs them with a few workers per exchange that share the results, the journal
    and the cancellation.  What a worker does with one task is a program over the
    calls it makes ([attempt_task]); what it does under the lock afterwards is a
    function on the shared state ([record_task]); a run of all workers is a sequence
    of such steps ([run_step]).  Instants and durations are nanoseconds.  The text of
    an error, with the operands of its formats, and the dynamic types behind
    errors.As are arguments; a line of the journal is the entry it decodes to. *)

From S2P Require Export GapRepair SymbolSnapshot Effects GoTime Settings.

Local Open Scope string_scope.
Local Open Scope Z_scope.
Local Open Scope list_scope.

Module options.
Record options : Type := mk {
  report : string; journal : string; summary : string; exchanges : string; symbols : string; frames : string;
  apply : bool; planOnly : bool; retryUnresolved : bool; maxTasks : Z; binanceRPS : float64; okxRPS : float64;
  maxRuntime : Z; minFreeGB : Z; healthURL : string; snapshot : string; refreshSnapshot : bool; snapshotMaxAge : Z;
  maxInFlight : Z }.
End options.
Notation options := options.options.

(** The checks at the start of [run]; those of the paths are between the two groups. *)
Definition bad_rate (rps maximum : float64) : bool := f64_leb rps f64_zero || f64_gtb rps maximum.
Definition max_binance_rps : float64 := Eval vm_compute in f64_of_Z 8.
Definition max_okx_rps : float64 := Eval vm_compute in f64_of_Z 5.
Definition bad_options (o : options) (pathErr : option go_error) : option go_error :=
  if bool_decide (o.(options.report) = "") || bool_decide (o.(options.summary) = "")
     || bool_decide (o.(options.snapshot) = "") || (negb o.(options.planOnly) && bool_decide (o.(options.journal) = ""))
  then Some (Errorf "report, snapshot, summary and journal paths are required")
  else if bad_rate o.(options.binanceRPS) max_binance_rps || bad_rate o.(options.okxRPS) max_okx_rps
          || (o.(options.maxRuntime) <=? 0)
  then Some (Errorf "invalid request rate or runtime")
  else
    match pathErr with
    | Some e => Some e
    | None =>
        if (o.(options.snapshotMaxAge) <=? 0) || (o.(options.maxInFlight) <? 1) || (8 <? o.(options.maxInFlight))
        then Some (Errorf "invalid snapshot age or in-flight limit") else None
    end.

Definition artifactPaths (o : options) : list string :=
  let paths := [o.(options.report); o.(options.journal); o.(options.summary); (o.(options.summary) ++ ".tmp")%string] in
  if bool_decide (o.(options.snapshot) = "") then paths
  else paths ++ [o.(options.snapshot); (o.(options.snapshot) ++ ".tmp")%string].

Definition csvSet (raw : string) : gset string :=
  list_to_set (List.filter (fun v => negb (bool_decide (v = ""))) (TrimSpace <$> split_on (Ascii.ascii_of_nat 44) raw)).

(** ** The tasks of a run *)

(** An empty set selects everything. *)
Definition selects (s : gset string) (v : string) : bool := bool_decide (s = ∅) || bool_decide (v ∈ s).

Definition selected_tasks (exchanges symbols frames : gset string) (tasks : list Task) : list Task :=
  List.filter (fun t => bool_decide (t.(Task.Exchange) ∈ exchanges) && selects symbols t.(Task.Symbol)
                        && selects frames t.(Task.Timeframe)) tasks.
Definition selected_skipped (exchanges symbols frames : gset string) (skipped : list Skipped) : list Skipped :=
  List.filter (fun s => bool_decide (s.(Skipped.Exchange) ∈ exchanges) && selects symbols s.(Skipped.Symbol)
                        && selects frames s.(Skipped.Timeframe)) skipped.

(** The plan of a run: all that the options of the plan can add, for the symbols of the
    inventory only. *)
Definition run_plan (parse_time : string → result go_error Z) (now_text : string) (decoded : result go_error auditReport)
    (policies : gmap string SymbolPolicy) (o : options) : result stop (list Task * list Skipped) :=
  match BuildPlanWithOptions parse_time now_text decoded (PlanOptions.mk (Some policies) true true true true) with
  | Err e => Err e
  | Ok plan =>
      let exchanges := csvSet o.(options.exchanges) in
      let symbols := csvSet o.(options.symbols) in
      let frames := csvSet o.(options.frames) in
      Ok (selected_tasks exchanges symbols frames plan.(Plan.Tasks),
          selected_skipped exchanges symbols frames plan.(Plan.skipped))
  end.

(** Done before, and not to be tried again. *)
Definition previously_done (o : options) (results : gmap string Result) (t : Task) : bool :=
  match results !! t.(Task.ID) with
  | Some r => negb o.(options.retryUnresolved) || bool_decide (r.(Result.MissingStarts) = [])
  | None => false
  end.

(** The loop that fills the queue of an exchange, with the budget used so far. *)
Definition enqueue_task (o : options) (results : gmap string Result) (name : string) (st : Z * list Task) (t : Task)
    : Z * list Task :=
  let '(taskBudget, queue) := st in
  if negb (bool_decide (t.(Task.Exchange) = name)) || previously_done o results t
     || ((0 <? o.(options.maxTasks)) && (o.(options.maxTasks) <=? taskBudget)) then st
  else (taskBudget + 1, queue ++ [t]).
Definition exchange_queue (o : options) (results : gmap string Result) (tasks : list Task) (name : string)
    (taskBudget : Z) : Z * list Task := foldl (enqueue_task o results name) (taskBudget, []) tasks.

(** The queues of Binance and OKX, which share the budget. *)
Definition task_queues (o : options) (results : gmap string Result) (exchanges : gset string) (tasks : list Task)
    : list (string * list Task) :=
  snd (foldl (fun '(taskBudget, queues) name =>
    if bool_decide (name ∈ exchanges) then
      let '(taskBudget, queue) := exchange_queue o results tasks name taskBudget in (taskBudget, queues ++ [(name, queue)])
    else (taskBudget, queues)) (0, []) ["binance"; "okx"]).

(** The targets that the retention rules still keep at [now], and the number of others. *)
Definition retainedTask (t : Task) (tf : Frame) (now : Z) : Task * Z :=
  match CutoffMS (RuleFor tf) (now / Millisecond) with
  | None => (t, 0)
  | Some cutoff =>
      let kept := List.filter (fun s => cutoff <=? s) t.(Task.TargetStarts) in
      let expired := Z.of_nat (length t.(Task.TargetStarts)) - Z.of_nat (length kept) in
      let '(startMS, endMS) :=
        match kept with
        | [] => (t.(Task.StartMS), t.(Task.EndMS))
        | s :: _ => (s, EndMS (List.last kept 0) tf)
        end in
      (Task.mk t.(Task.ID) t.(Task.Exchange) t.(Task.Symbol) t.(Task.Timeframe) t.(Task.SourceTimeframe) startMS endMS
         kept t.(Task.Kind), expired)
  end.

Definition retainedRetryStarts (previous retained : list Z) : list Z :=
  List.filter (fun start => bool_decide (start ∈ retained)) previous.

(** ** The official inventory *)

Module repairSnapshot.
Record repairSnapshot : Type := mk { CapturedAtMS : Z; Records : list SymbolSnapshot; Syncs : list SymbolSnapshotSync }.
End repairSnapshot.
Notation repairSnapshot := repairSnapshot.repairSnapshot.

Definition sync_states (syncs : list SymbolSnapshotSync) : gmap string SymbolSnapshotSync :=
  foldl (fun m state =>
    <[(state.(SymbolSnapshotSync.Exchange) ++ ":" ++ state.(SymbolSnapshotSync.MarketType))%string := state]> m) ∅ syncs.

Definition policy_entry (syncs : gmap string SymbolSnapshotSync) (nowMS maxAgeMS : Z)
    (acc : result go_error (gmap string SymbolPolicy)) (item : SymbolSnapshot) : result go_error (gmap string SymbolPolicy) :=
  match acc with
  | Err e => Err e
  | Ok policies =>
      let key := (item.(SymbolSnapshot.Exchange) ++ ":" ++ item.(SymbolSnapshot.Symbol))%string in
      if bool_decide (is_Some (policies !! key)) then Err (Errorf "ambiguous official inventory route %s")
      else
        let sync := default SymbolSnapshotSync.zero
          (syncs !! (item.(SymbolSnapshot.Exchange) ++ ":" ++ item.(SymbolSnapshot.MarketType))%string) in
        let reason := SymbolSnapshotRepairSkipReason item sync nowMS maxAgeMS in
        Ok (<[key := SymbolPolicy.mk (bool_decide (reason = "")) reason item.(SymbolSnapshot.MarketType)
                       item.(SymbolSnapshot.ListedAtMS) item.(SymbolSnapshot.CapturedAtMS)]> policies)
  end.

Definition snapshot_policies (s : repairSnapshot) (now maxAge : Z) : result go_error (gmap string SymbolPolicy) :=
  if bool_decide (s.(repairSnapshot.Records) = []) || bool_decide (s.(repairSnapshot.Syncs) = [])
  then Err (Errorf "official inventory snapshot is empty; wait for a successful metadata sync")
  else
    foldl (policy_entry (sync_states s.(repairSnapshot.Syncs)) (now / Millisecond) (Z.quot maxAge Millisecond)) (Ok ∅)
      s.(repairSnapshot.Records).

(** ** Calls *)

Inductive gapE : Type → Type :=
| Now : gapE Z
| CtxErr : gapE (option go_error)
| Wait (delay : Z) : gapE (option go_error)
| ListSymbolSnapshotSyncs : gapE (result go_error (list SymbolSnapshotSync))
| ListSymbolSnapshots (exchange : string) : gapE (result go_error (list SymbolSnapshot))
| Policy (exchange symbol : string) : gapE (result go_error SymbolPolicy)
| Factors (exchange symbol : string) : gapE (result go_error (list CorporateActionJob))
| RepairTask (marketType : string) (task : Task) (apply : bool) : gapE (Result * option go_error)
| Statfs (path : string) : gapE (result go_error (Z * Z))
| NewRequest (url : string) : gapE (option go_error)
| GetHealth (url : string) : gapE (result go_error Z).

Notation gprog := (prog gapE).
Local Open Scope prog_scope.

(** [eligibilityGate]: the policies and when they were loaded. *)
Module eligibilityGate.
Record eligibilityGate : Type := mk { maxAge : Z; loaded : option (Z * gmap string SymbolPolicy) }.
End eligibilityGate.
Notation eligibilityGate := eligibilityGate.eligibilityGate.

Definition list_records (acc : list SymbolSnapshot) (name : string) : gprog (result go_error (list SymbolSnapshot)) :=
  items <- trigger (ListSymbolSnapshots name) ;;
  Ret (match items with Ok items => Ok (acc ++ items) | Err e => Err (Wrapf "read official inventory: %w" e) end).

(** The syncs are read twice, around the inventories. *)
Definition captureSnapshot : gprog (result go_error repairSnapshot) :=
  now <- trigger Now ;;
  first <- trigger ListSymbolSnapshotSyncs ;;
  match first with
  | Err e => Ret (Err (Wrapf "read official inventory syncs: %w" e))
  | Ok _ =>
      records <- pfold_ok list_records [] ["binance"; "okx"] ;;
      match records with
      | Err e => Ret (Err e)
      | Ok records =>
          syncs <- trigger ListSymbolSnapshotSyncs ;;
          Ret (match syncs with
               | Err e => Err e
               | Ok syncs => Ok (repairSnapshot.mk (now / Millisecond) records syncs)
               end)
      end
  end.

(** The policy of a symbol when the gate has the policies [policies]. *)
Definition gate_answer (maxAge now : Z) (policies : gmap string SymbolPolicy) (exchange symbol : string) : SymbolPolicy :=
  let p :=
    match policies !! (exchange ++ ":" ++ symbol)%string with
    | Some p => p
    | None => SymbolPolicy.mk false "missing_official_subscription_snapshot" "" 0 0
    end in
  let nowMS := now / Millisecond in
  if p.(SymbolPolicy.Allowed)
     && ((nowMS <? p.(SymbolPolicy.CapturedAtMS))
         || (Z.quot maxAge Millisecond <? i64 (nowMS - p.(SymbolPolicy.CapturedAtMS))))
  then SymbolPolicy.mk false "snapshot_stale" p.(SymbolPolicy.MarketType) p.(SymbolPolicy.ListedAtMS) p.(SymbolPolicy.CapturedAtMS)
  else p.

Definition gate_policy (g : eligibilityGate) (exchange symbol : string)
    : gprog (result go_error SymbolPolicy * eligibilityGate) :=
  let maxAge := g.(eligibilityGate.maxAge) in
  now <- trigger Now ;;
  let due := match g.(eligibilityGate.loaded) with Some (loadedAt, _) => Minute <=? Sub now loadedAt | None => true end in
  if due : bool then
    s <- captureSnapshot ;;
    match s with
    | Err e => Ret (Err e, g)
    | Ok s =>
        match snapshot_policies s now maxAge with
        | Err e => Ret (Err e, g)
        | Ok policies =>
            Ret (Ok (gate_answer maxAge now policies exchange symbol), eligibilityGate.mk maxAge (Some (now, policies)))
        end
    end
  else
    match g.(eligibilityGate.loaded) with
    | Some (_, policies) => Ret (Ok (gate_answer maxAge now policies exchange symbol), g)
    | None => Ret (Ok (gate_answer maxAge now ∅ exchange symbol), g)
    end.

(** ** Before each task *)

Definition wrap_u64 (n : Z) : Z := n mod 2 ^ 64.

Definition in_maintenance (now : Z) : bool :=
  let minute_of_day := (now / Minute + 480) mod 1440 in
  let hour := minute_of_day / 60 in
  let minute := minute_of_day mod 60 in
  (hour =? 5) && (10 <=? minute) && (minute <? 30).

(** [dir] is the directory of the journal. *)
Definition checkRunSafety (o : options) (dir : string) : gprog (option go_error) :=
  disk <-
    (if 0 <? o.(options.minFreeGB) then
       stat <- trigger (Statfs dir) ;;
       Ret (match stat with
            | Err e => Some e
            | Ok (bavail, bsize) =>
                if wrap_u64 (wrap_u64 bavail * wrap_u64 bsize) <? wrap_u64 (o.(options.minFreeGB) * 2 ^ 30)
                then Some (Errorf "low disk space: available=%d bytes") else None
            end)
     else Ret None) ;;
  match disk with
  | Some e => Ret (Some e)
  | None =>
      now <- trigger Now ;;
      if in_maintenance now
      then Ret (Some (Errorf "stopped for daily 05:20 CST maintenance window; resume after 05:30"))
      else if bool_decide (o.(options.healthURL) = "") then Ret None
      else
        invalid <- trigger (NewRequest o.(options.healthURL)) ;;
        match invalid with
        | Some e => Ret (Some e)
        | None =>
            status <- trigger (GetHealth o.(options.healthURL)) ;;
            Ret (match status with
                 | Err _ => Some (Errorf "live readiness check failed")
                 | Ok status => if status =? 200 then None else Some (Errorf "live readiness HTTP status %d")
                 end)
        end
  end.

(** ** The state of a run *)

Module journalEntry.
Record journalEntry : Type := mk { Kind : string; ReportSHA256 : string; Apply : bool; result : option Result }.
End journalEntry.
Notation journalEntry := journalEntry.journalEntry.

(** The journal is what was written to the file; [failures] counts per exchange;
    [pending] holds the queues of the exchanges one after the other. *)
Module runState.
Record runState : Type := mk {
  results : gmap string Result; journal : list journalEntry; failures : gmap string Z;
  runErr : option go_error; cancelled : bool; pending : list (string * Task); running : list (string * Task) }.
End runState.
Notation runState := runState.runState.

Section errors.
(** [err.Error()] of an error, what a [url.Error] in it wraps, whether there is a
    [net.Error] in it. *)
Context (ErrorText : go_error → string) (url_cause : go_error → option go_error) (is_net_error : go_error → bool).

Definition DeadlineExceeded : go_error := Sentinel "context deadline exceeded".
Definition EOF : go_error := Sentinel "EOF".
Definition ErrUnexpectedEOF : go_error := Sentinel "unexpected EOF".

Definition Unwrap (e : go_error) : option go_error := match e with Wrapf _ cause => Some cause | _ => None end.

(** The cause inside the URL errors. *)
Fixpoint safe_cause (fuel : nat) (e : go_error) : go_error :=
  match fuel, url_cause e with S fuel, Some cause => safe_cause fuel cause | _, _ => e end.
Fixpoint error_size (e : go_error) : nat :=
  match e with Wrapf _ c => S (error_size c) | Joined a b => S (error_size a + error_size b) | _ => 1%nat end.
Definition safeError (e : go_error) : go_error := safe_cause (error_size e) e.

Definition transient_words : list string :=
  ["timeout"; "deadline"; "429"; "418"; "50011"; "50040"; "50061"; "502"; "503"; "504"; "connection"; "eof"; "temporar"].

(** The loop goes down 16 errors. *)
Fixpoint transient_text (depth : nat) (e : option go_error) : bool :=
  match depth, e with
  | S depth, Some e =>
      existsb (fun v => Contains (ToLower (ErrorText (safeError e))) v) transient_words || transient_text depth (Unwrap e)
  | _, _ => false
  end.

Definition transientError (e : go_error) : bool :=
  errors_Is e DeadlineExceeded || errors_Is e EOF || errors_Is e ErrUnexpectedEOF || is_net_error e
  || transient_text 16 (Some e).

(** ** One task *)

(** What was set before anything was tried. *)
Definition initial_result (name : string) (original task : Task) : Result :=
  Result.mk original.(Task.ID) name original.(Task.Symbol) original.(Task.Timeframe) "" "" None
    (Z.of_nat (length original.(Task.TargetStarts))) 0 0 0 0 0 0 true task.(Task.TargetStarts).

Definition expired_result (r : Result) : Result :=
  let 'Result.mk id ex sy tf kind _ err requested already fetched inserted available expired skipped _ _ := r in
  Result.mk id ex sy tf kind "retention_expired" err requested already fetched inserted available expired skipped false [].

Definition policy_result (reason : string) (skipped : Z) (r : Result) : Result :=
  let 'Result.mk id ex sy tf kind _ _ requested already fetched inserted available expired _ _ _ := r in
  Result.mk id ex sy tf kind "skipped_policy_changed" (Some (Errorf reason)) requested already fetched inserted available
    expired skipped false [].

Definition set_inserted (inserted : Z) (r : Result) : Result :=
  let 'Result.mk id ex sy tf kind status err requested already fetched _ available expired skipped unverified missing := r in
  Result.mk id ex sy tf kind status err requested already fetched inserted available expired skipped unverified missing.

(** Three attempts, with pauses of 5, 10 and 20 seconds after a failure that may pass,
    the last one as well. *)
Fixpoint repair_attempts (fuel : nat) (attempt : Z) (marketType : string) (task : Task) (apply : bool) (committed : Z)
    (last : Result * option go_error) : gprog (Result * option go_error) :=
  match fuel with
  | O => Ret last
  | S fuel =>
      '(r, err) <- trigger (RepairTask marketType task apply) ;;
      let committed := committed + r.(Result.Inserted) in
      let r := set_inserted committed r in
      match err with
      | None => Ret (r, None)
      | Some e =>
          ctx <- trigger CtxErr ;;
          if bool_decide (is_Some (ctx : option go_error)) || negb (transientError e) then Ret (r, Some e)
          else
            _ <- trigger (Wait (Z.shiftl 1 attempt * 5 * Second)) ;;
            repair_attempts fuel (attempt + 1) marketType task apply committed (r, Some e)
      end
  end.

Definition f64_unit : float64 := Eval vm_compute in f64_of_Z 1.

(** The factors that would have to be reviewed. *)
Definition needs_review (task : Task) (factor : CorporateActionJob) : bool :=
  negb (f64_eqb factor.(CorporateActionJob.Factor) f64_unit) && (task.(Task.StartMS) <? factor.(CorporateActionJob.EffectiveMS)).

(** The result, the error, and whether the official metadata could not be had. *)
Definition Outcome : Type := Result * option go_error * bool.

Definition repair_routed (name : string) (marketType : string) (routed : bool) (task : Task) (apply : bool) (r : Result)
    : gprog Outcome :=
  if negb routed then Ret (r, Some (Errorf "no verified registry market route"), false)
  else
    factors <- trigger (Factors name task.(Task.Symbol)) ;;
    match factors with
    | Err e => Ret (r, Some (Wrapf "read adjustment history: %w" e), false)
    | Ok factors =>
        if existsb (needs_review task) factors
        then Ret (r, Some (Errorf "adjustment_history_requires_review"), false)
        else '(r, err) <- repair_attempts 3 0 marketType task apply 0 (r, None) ;; Ret (r, err, false)
    end.

Definition metadata_missing (reason : string) : bool :=
  HasPrefix reason "snapshot_" || bool_decide (reason = "missing_official_subscription_snapshot").

(** [routes]: the markets that have an adapter, as "exchange:market type". *)
Definition attempt_retained (routes : gset string) (name : string) (task : Task) (apply : bool) (r : Result) : gprog Outcome :=
  match task.(Task.TargetStarts) with
  | [] => Ret (expired_result r, None, false)
  | _ =>
      policy <- trigger (Policy name task.(Task.Symbol)) ;;
      match policy with
      | Err e => Ret (r, Some (Wrapf "refresh repair eligibility: %w" e), true)
      | Ok policy =>
          if negb policy.(SymbolPolicy.Allowed) then
            if metadata_missing policy.(SymbolPolicy.Reason)
            then Ret (r, Some (Errorf "current official metadata unavailable: %s"), true)
            else Ret (policy_result policy.(SymbolPolicy.Reason) (Z.of_nat (length task.(Task.TargetStarts))) r, None, false)
          else
            repair_routed name policy.(SymbolPolicy.MarketType)
              (bool_decide ((name ++ ":" ++ policy.(SymbolPolicy.MarketType))%string ∈ routes)) task apply r
      end
  end.

(** The body of the loop of a worker up to the lock: the retained task, the number of
    expired targets, and the outcome.  [tf] is the timeframe of the task. *)
Definition attempt_task (o : options) (routes : gset string) (name : string) (tf : Frame) (original : Task)
    : gprog (Task * Z * Outcome) :=
  now <- trigger Now ;;
  let '(task, expired) := retainedTask original tf now in
  outcome <- attempt_retained routes name task o.(options.apply) (initial_result name original task) ;;
  Ret (task, expired, outcome).

(** ** Under the lock *)

(** The fields that do not come from the repair. *)
Definition finished_result (original task : Task) (expired : Z) (r : Result) (taskErr : option go_error) : Result :=
  let 'Result.mk id ex sy tf _ status err _ already fetched inserted available _ skipped unverified missing := r in
  let '(status, err, missing) :=
    match taskErr with
    | Some e => ("error", Some (safeError e), match missing with [] => task.(Task.TargetStarts) | _ => missing end)
    | None => (status, err, missing)
    end in
  Result.mk id ex sy tf original.(Task.Kind) status err (Z.of_nat (length original.(Task.TargetStarts))) already fetched
    inserted available expired skipped unverified missing.

(** With the result of an earlier run of the task. *)
Definition merged_result (old : option Result) (task : Task) (r : Result) : Result :=
  match old with
  | None => r
  | Some old =>
      let 'Result.mk id ex sy tf kind status err requested already fetched inserted available expired skipped unverified missing := r in
      let missing := if unverified && (inserted =? 0) && negb old.(Result.Unverified)
                     then retainedRetryStarts old.(Result.MissingStarts) task.(Task.TargetStarts) else missing in
      Result.mk id ex sy tf kind status err requested already fetched (inserted + old.(Result.Inserted)) available expired
        skipped unverified missing
  end.

Definition present_count (apply : bool) (r : Result) : Result :=
  if negb apply then r
  else
    let 'Result.mk id ex sy tf kind status err requested _ fetched inserted available expired skipped unverified missing := r in
    let already := requested - expired - skipped - Z.of_nat (length missing) - inserted in
    Result.mk id ex sy tf kind status err requested (if (already <? 0) || unverified then 0 else already) fetched inserted
      available expired skipped unverified missing.

Definition first_err (old err : option go_error) : option go_error := match old with Some _ => old | None => err end.

(** The critical section after an attempt.  [journalErr] and [summaryErr] are what
    writing the journal and the summary answer. *)
Definition record_task (o : options) (name : string) (original task : Task) (expired : Z) (outcome : Outcome)
    (journalErr summaryErr : option go_error) (st : runState) : runState :=
  let '(r, taskErr, metadataUnavailable) := outcome in
  let '(runErr, cancelled) :=
    if match taskErr with Some _ => metadataUnavailable | None => false end
    then (first_err st.(runState.runErr) taskErr, true) else (st.(runState.runErr), st.(runState.cancelled)) in
  let r := finished_result original task expired r taskErr in
  let failures := default 0 (st.(runState.failures) !! name) in
  let failures := if from_option transientError false taskErr then failures + 1 else 0 in
  let r := merged_result (st.(runState.results) !! original.(Task.ID)) task r in
  let r := present_count o.(options.apply) r in
  let journal := match journalErr with
                 | None => st.(runState.journal) ++ [journalEntry.mk "result" "" false (Some r)]
                 | Some _ => st.(runState.journal)
                 end in
  let stop runErr cancelled (err : option go_error) :=
    match err, runErr with Some e, None => (Some e, true) | _, _ => (runErr, cancelled) end in
  let '(runErr, cancelled) := stop runErr cancelled journalErr in
  let '(runErr, cancelled) := stop runErr cancelled summaryErr in
  let '(runErr, cancelled) :=
    if 8 <=? failures then (first_err runErr (Some (Errorf "%s circuit stopped after 8 failed tasks")), true)
    else (runErr, cancelled) in
  runState.mk (<[original.(Task.ID) := r]> st.(runState.results)) journal (<[name := failures]> st.(runState.failures))
    runErr cancelled st.(runState.pending) st.(runState.running).

(** ** The workers *)

(** What [Repair] answers is a result of the function of GapRepair.v, over some store
    and some exchange. *)
Definition repaired (c : call gapE) : Prop :=
  match c with
  | Call e x =>
      match e in gapE X return X → Prop with
      | RepairTask _ task apply => fun x =>
          ∃ (St : Type) (store : GapStore St) fetch now1 now2 (st : St), x = fst (Repair fetch now1 now2 task apply st)
      | _ => fun _ => True
      end x
  end.

Definition with_work (pending running : list (string * Task)) (st : runState) : runState :=
  runState.mk st.(runState.results) st.(runState.journal) st.(runState.failures) st.(runState.runErr) st.(runState.cancelled)
    pending running.
Definition stop_run (err : option go_error) (st : runState) : runState :=
  runState.mk st.(runState.results) st.(runState.journal) st.(runState.failures) (first_err st.(runState.runErr) err) true
    st.(runState.pending) st.(runState.running).

(** A worker, one of [maxInFlight] per exchange, takes the next task of its exchange
    while nothing is cancelled, gives up when the check before it fails, or finishes the task it has; a signal or the end of
    the time cancels. *)
Inductive run_step (o : options) (dir : string) (routes : gset string) (frame_of : Task → Frame) : runState → runState → Prop :=
| StepTake name t before after st :
    st.(runState.cancelled) = false → st.(runState.pending) = before ++ (name, t) :: after →
    Forall (fun p => p.1 ≠ name) before →
    Z.of_nat (length (List.filter (fun p => bool_decide (p.1 = name)) st.(runState.running))) < o.(options.maxInFlight) →
    run_step o dir routes frame_of st (with_work (before ++ after) (st.(runState.running) ++ [(name, t)]) st)
| StepUnsafe name t before after tr e st :
    st.(runState.running) = before ++ (name, t) :: after → runs (checkRunSafety o dir) tr (Some e) →
    run_step o dir routes frame_of st (stop_run (Some e) (with_work st.(runState.pending) (before ++ after) st))
| StepFinish name t before after tr0 tr task expired outcome journalErr summaryErr st :
    st.(runState.running) = before ++ (name, t) :: after → runs (checkRunSafety o dir) tr0 None →
    runs (attempt_task o routes name (frame_of t) t) tr (task, expired, outcome) → all_calls repaired tr →
    run_step o dir routes frame_of st
      (record_task o name t task expired outcome journalErr summaryErr (with_work st.(runState.pending) (before ++ after) st))
| StepCancel st : run_step o dir routes frame_of st (stop_run None st).

End errors.

(** ** The journal *)

Definition is_manifest (digest : string) (apply : bool) (e : journalEntry) : bool :=
  bool_decide (e.(journalEntry.Kind) = "manifest") && bool_decide (e.(journalEntry.ReportSHA256) = digest)
  && eqb e.(journalEntry.Apply) apply.

Definition take_entry (results : gmap string Result) (e : journalEntry) : gmap string Result :=
  match e.(journalEntry.result) with Some r => <[r.(Result.TaskID) := r]> results | None => results end.

(** The lines; [None] is one that does not decode. *)
Fixpoint read_journal (lines : list (option journalEntry)) (results : gmap string Result)
    : result go_error (gmap string Result) :=
  match lines with
  | [] => Ok results
  | None :: _ => Err (Errorf "invalid journal line %d")
  | Some e :: rest => read_journal rest (take_entry results e)
  end.

(** What the file holds afterwards, and the results. *)
Definition openJournal (digest : string) (apply : bool) (lines : list (option journalEntry))
    : result go_error (list (option journalEntry) * gmap string Result) :=
  match lines with
  | [] => Ok ([Some (journalEntry.mk "manifest" digest apply None)], ∅)
  | None :: _ => Err (Errorf "invalid journal line %d")
  | Some first :: _ =>
      if negb (is_manifest digest apply first) then Err (Errorf "journal report hash/apply mode mismatch")
      else match read_journal lines ∅ with Err e => Err e | Ok results => Ok (lines, results) end
  end.

Definition option_list {A} (x : option A) : list A := match x with Some a => [a] | None => [] end.

(** The queues one after the other, and the state in which the workers start. *)
Definition queued (o : options) (previous : gmap string Result) (exchanges : gset string) (tasks : list Task)
    : list (string * Task) :=
  flat_map (fun '(name, queue) => map (pair name) queue) (task_queues o previous exchanges tasks).
Definition start_state (o : options) (exchanges : gset string) (tasks : list Task) (lines : list (option journalEntry))
    (previous : gmap string Result) : runState :=
  runState.mk previous (flat_map option_list lines) ∅ None false (queued o previous exchanges tasks) [].

(** ** The summary *)

Module planCounts.
Record planCounts : Type := mk { Tasks : Z; Targets : Z }.
Definition zero : planCounts := mk 0 0.
End planCounts.
Notation planCounts := planCounts.planCounts.

Module exchangeSummary.
Record exchangeSummary : Type := mk {
  Tasks : Z; Requested : Z; Inserted : Z; AlreadyPresent : Z; Unresolved : Z; Unverified : Z }.
Definition zero : exchangeSummary := mk 0 0 0 0 0 0.
End exchangeSummary.
Notation exchangeSummary := exchangeSummary.exchangeSummary.

Module runSummary.
Record runSummary : Type := mk {
  Apply : bool; Status : string; Tasks : Z; Requested : Z; CompletedTasks : Z; RemainingTasks : Z; Inserted : Z;
  AlreadyPresent : Z; Unresolved : Z; Unverified : Z; Expired : Z; SkippedBars : Z; ByStatus : gmap string Z;
  ByExchange : gmap string exchangeSummary; skipped : list Skipped; Results : list Result; PlannedTasks : list Task;
  ByKind : gmap string Z; PlanByExchange : gmap string planCounts }.
End runSummary.
Notation runSummary := runSummary.runSummary.

Definition bump_count (key : string) (n : Z) (m : gmap string Z) : gmap string Z := <[key := default 0 (m !! key) + n]> m.

(** The part of the loop for a task that has a result. *)
Definition exchange_result (r : Result) (e : exchangeSummary) : exchangeSummary :=
  let missing := Z.of_nat (length r.(Result.MissingStarts)) in
  exchangeSummary.mk (e.(exchangeSummary.Tasks) + 1) (e.(exchangeSummary.Requested) + r.(Result.Requested))
    (e.(exchangeSummary.Inserted) + r.(Result.Inserted)) (e.(exchangeSummary.AlreadyPresent) + r.(Result.AlreadyPresent))
    (if r.(Result.Unverified) then e.(exchangeSummary.Unresolved) else e.(exchangeSummary.Unresolved) + missing)
    (if r.(Result.Unverified) then e.(exchangeSummary.Unverified) + missing else e.(exchangeSummary.Unverified)).

Definition count_result (running : bool) (t : Task) (r : Result) (s : runSummary) : runSummary :=
  let 'runSummary.mk apply status tasks requested completed remaining inserted already unresolved unverified expired skippedBars
         byStatus byExchange skipped results planned byKind plan := s in
  let missing := Z.of_nat (length r.(Result.MissingStarts)) in
  runSummary.mk apply status tasks requested (completed + 1) remaining (inserted + r.(Result.Inserted))
    (already + r.(Result.AlreadyPresent)) (if r.(Result.Unverified) then unresolved else unresolved + missing)
    (if r.(Result.Unverified) then unverified + missing else unverified) (expired + r.(Result.Expired))
    (skippedBars + r.(Result.Skipped)) (bump_count r.(Result.Status) 1 byStatus)
    (<[t.(Task.Exchange) := exchange_result r (default exchangeSummary.zero (byExchange !! t.(Task.Exchange)))]> byExchange)
    skipped (if running then results else results ++ [r]) planned byKind plan.

Definition count_planned (t : Task) (s : runSummary) : runSummary :=
  let 'runSummary.mk apply status tasks requested completed remaining inserted already unresolved unverified expired skippedBars
         byStatus byExchange skipped results planned byKind plan := s in
  let targets := Z.of_nat (length t.(Task.TargetStarts)) in
  let p := default planCounts.zero (plan !! t.(Task.Exchange)) in
  runSummary.mk apply status tasks (requested + targets) completed remaining inserted already unresolved unverified expired
    skippedBars byStatus byExchange skipped results planned (bump_count t.(Task.Kind) targets byKind)
    (<[t.(Task.Exchange) := planCounts.mk (p.(planCounts.Tasks) + 1) (p.(planCounts.Targets) + targets)]> plan).

Definition count_task (running : bool) (results : gmap string Result) (s : runSummary) (t : Task) : runSummary :=
  let s := count_planned t s in
  match results !! t.(Task.ID) with Some r => count_result running t r s | None => s end.

(** Where the loop starts. *)
Definition summary_start (status : string) (apply : bool) (tasks : list Task) (skipped : list Skipped) : runSummary :=
  runSummary.mk apply status (Z.of_nat (length tasks)) 0 0 0 0 0 0 0 0
    (foldl (fun n s => n + s.(Skipped.MissingBars)) 0 skipped) ∅ ∅
    (if bool_decide (status = "running") then [] else skipped) []
    (if bool_decide (status = "planned") then tasks else []) ∅ ∅.

Definition saveSummary (status : string) (apply : bool) (tasks : list Task) (skipped : list Skipped)
    (results : gmap string Result) : runSummary :=
  let 'runSummary.mk apply status n requested completed _ inserted already unresolved unverified expired skippedBars
         byStatus byExchange skipped rs planned byKind plan :=
    foldl (count_task (bool_decide (status = "running")) results) (summary_start status apply tasks skipped) tasks in
  runSummary.mk apply status n requested completed (n - completed) inserted already unresolved unverified expired skippedBars
    byStatus byExchange skipped (sort_slice (less_str Result.TaskID) rs) planned byKind plan.

(** [last = None]: no summary was saved yet. *)
Definition shouldSaveSummary (status : string) (last : option Z) (now : Z) : bool :=
  negb (bool_decide (status = "running")) || match last with None => true | Some last => 5 * Second <=? Sub now last end.

(** The status of the last summary. *)
Definition final_status (ctxErr : option go_error) (st : runState) : string :=
  if bool_decide (is_Some ctxErr) || bool_decide (is_Some st.(runState.runErr)) then "stopped" else "finished".
