(* ===== verification/GapRunSpec.v ===== *)
(** * What a run of the gap repair keeps (cmd/gapfill_klines)

    The gate of the workers lets through only what the inventories it has read say
    may be repaired ([gate_fails_closed]); one task is tried at most three times, on
    what the gate and the history of the symbol allow ([attempt_guarded]). *)

From S2P Require Export GapRun.

Local Open Scope string_scope.
Local Open Scope Z_scope.
Local Open Scope list_scope.

(** ** The policies of an inventory *)

Definition policy_key (item : SymbolSnapshot) : string :=
  (item.(SymbolSnapshot.Exchange) ++ ":" ++ item.(SymbolSnapshot.Symbol))%string.
Definition sync_of (s : repairSnapshot) (item : SymbolSnapshot) : SymbolSnapshotSync :=
  default SymbolSnapshotSync.zero
    (sync_states s.(repairSnapshot.Syncs)
       !! (item.(SymbolSnapshot.Exchange) ++ ":" ++ item.(SymbolSnapshot.MarketType))%string).
Definition policy_of (s : repairSnapshot) (nowMS maxAgeMS : Z) (item : SymbolSnapshot) : SymbolPolicy :=
  let reason := SymbolSnapshotRepairSkipReason item (sync_of s item) nowMS maxAgeMS in
  SymbolPolicy.mk (bool_decide (reason = "")) reason item.(SymbolSnapshot.MarketType)
    item.(SymbolSnapshot.ListedAtMS) item.(SymbolSnapshot.CapturedAtMS).

Lemma policy_entries_Err syncs nowMS maxAgeMS e l : foldl (policy_entry syncs nowMS maxAgeMS) (Err e) l = Err e.
Proof. by induction l. Qed.

Lemma policy_entries s nowMS maxAgeMS l m m' :
  foldl (policy_entry (sync_states s.(repairSnapshot.Syncs)) nowMS maxAgeMS) (Ok m) l = Ok m' →
  NoDup (policy_key <$> l) ∧ (∀ item, item ∈ l → m !! policy_key item = None) ∧
  ∀ k p, m' !! k = Some p →
    m !! k = Some p ∨ ∃ item, item ∈ l ∧ policy_key item = k ∧ p = policy_of s nowMS maxAgeMS item.
Proof.
  revert m. induction l as [|item l IH]; intros m H; simpl in H.
  { injection H as <-. split; [constructor|]. split; [by intros ? ?%not_elem_of_nil|by left]. }
  case_bool_decide as Hnew; [by rewrite policy_entries_Err in H|].
  fold (policy_key item) in H, Hnew. fold (sync_of s item) in H. fold (policy_of s nowMS maxAgeMS item) in H.
  destruct (IH _ H) as (Hnd & Hfresh & Hin). apply eq_None_not_Some in Hnew.
  assert (Hk : ∀ item', item' ∈ l → policy_key item' ≠ policy_key item).
  { intros item' Hi E. specialize (Hfresh _ Hi). rewrite E, lookup_insert_eq in Hfresh. done. }
  split; [constructor; [|done]|split].
  - intros (item' & E & Hi)%list_elem_of_fmap. by apply (Hk item').
  - intros item' [->|Hi]%elem_of_cons; [done|]. specialize (Hfresh _ Hi).
    by rewrite lookup_insert_ne in Hfresh by (intros E; by apply (Hk item')).
  - intros k p Hp. destruct (Hin k p Hp) as [Hp'|(item' & Hi & E & ->)].
    + destruct (decide (k = policy_key item)) as [->|Hne].
      * rewrite lookup_insert_eq in Hp'. injection Hp' as <-. right. exists item. split_and!; [left|done|done].
      * rewrite lookup_insert_ne in Hp' by done. by left.
    + right. exists item'. split_and!; [by right|done|done].
Qed.

(** [item] is the only record of the symbol and may be repaired at [at_]. *)
Definition eligible (s : repairSnapshot) (at_ maxAge : Z) (exchange symbol : string) (item : SymbolSnapshot) : Prop :=
  item ∈ s.(repairSnapshot.Records) ∧ policy_key item = (exchange ++ ":" ++ symbol)%string ∧
  NoDup (policy_key <$> s.(repairSnapshot.Records)) ∧
  repair_permitted item (sync_of s item) (at_ / Millisecond) (Z.quot maxAge Millisecond).

Definition instant (now : Z) : Prop := 0 <= now < two63.

Lemma instant_ms now : instant now → 0 <= now / Millisecond < two63.
Proof.
  intros [H1 H2]. unfold Millisecond. split; [by apply Z.div_pos|]. apply Z.div_lt_upper_bound; [done|].
  unfold two63 in *. lia.
Qed.

Lemma snapshot_policies_allowed s at_ maxAge policies exchange symbol p :
  Z.abs (Z.quot maxAge Millisecond) <= MaxTS → instant at_ →
  snapshot_policies s at_ maxAge = Ok policies →
  policies !! (exchange ++ ":" ++ symbol)%string = Some p → p.(SymbolPolicy.Allowed) = true →
  ∃ item, eligible s at_ maxAge exchange symbol item ∧
    p = SymbolPolicy.mk true "" item.(SymbolSnapshot.MarketType) item.(SymbolSnapshot.ListedAtMS)
          item.(SymbolSnapshot.CapturedAtMS).
Proof.
  intros Hage Hat H Hp Hallow. unfold snapshot_policies in H. destruct (bool_decide _ || bool_decide _); [done|].
  destruct (policy_entries _ _ _ _ _ _ H) as (Hnd & _ & Hin).
  destruct (Hin _ _ Hp) as [Hp'|(item & Hi & Hk & ->)]; [by rewrite lookup_empty in Hp'|].
  simpl in Hallow. apply bool_decide_eq_true in Hallow. exists item. unfold policy_of. rewrite Hallow. split; [|done].
  split_and!; [done|done|done|]. apply repair_fails_closed; [done|by apply instant_ms|done].
Qed.

(** ** The gate *)

(** What the calls of [hist] have read as an inventory. *)
Definition was_captured (hist : list (call gapE)) (s : repairSnapshot) : Prop :=
  ∃ tr1 tr tr2, hist = tr1 ++ tr ++ tr2 ∧ runs captureSnapshot tr (Ok s).
(** The policies of a gate come from an inventory that was read, at the time it has. *)
Definition gate_ok (hist : list (call gapE)) (g : eligibilityGate) : Prop :=
  ∀ at_ policies, g.(eligibilityGate.loaded) = Some (at_, policies) →
    instant at_ ∧ ∃ s, was_captured hist s ∧ snapshot_policies s at_ g.(eligibilityGate.maxAge) = Ok policies.

Definition sane_clock (c : call gapE) : Prop :=
  match c with Call e x => match e in gapE X return X → Prop with Now => instant | _ => fun _ => True end x end.

Lemma was_captured_app hist tr s : was_captured hist s → was_captured (hist ++ tr) s.
Proof. intros (tr1 & tr0 & tr2 & -> & H). exists tr1, tr0, (tr2 ++ tr). by rewrite <- !app_assoc. Qed.

Lemma gate_ok_app hist tr g : gate_ok hist g → gate_ok (hist ++ tr) g.
Proof. intros H at_ policies E. destruct (H _ _ E) as (? & s & ? & ?). eauto using was_captured_app. Qed.

(** What the answer of a gate with the policies of [at_] promises. *)
Lemma gate_answer_allowed s at_ maxAge policies exchange symbol now :
  Z.abs (Z.quot maxAge Millisecond) <= MaxTS → instant at_ → instant now →
  snapshot_policies s at_ maxAge = Ok policies →
  let p := gate_answer maxAge now policies exchange symbol in
  p.(SymbolPolicy.Allowed) = true →
  ∃ item, eligible s at_ maxAge exchange symbol item ∧
    p = SymbolPolicy.mk true "" item.(SymbolSnapshot.MarketType) item.(SymbolSnapshot.ListedAtMS)
          item.(SymbolSnapshot.CapturedAtMS) ∧
    item.(SymbolSnapshot.CapturedAtMS) <= now / Millisecond <= item.(SymbolSnapshot.CapturedAtMS) + Z.quot maxAge Millisecond.
Proof.
  intros Hage Hat Hnow Hs p. subst p. unfold gate_answer.
  destruct (policies !! _) as [p|] eqn:Ep; [|done].
  destruct (p.(SymbolPolicy.Allowed)) eqn:Ea; simpl; [|by rewrite Ea].
  destruct (snapshot_policies_allowed _ _ _ _ _ _ _ Hage Hat Hs Ep Ea) as (item & Hi & ->). simpl.
  destruct (_ || _) eqn:Eb; [done|]. intros _. apply orb_false_iff in Eb as [H1 H2].
  apply Z.ltb_ge in H1, H2. exists item. split; [done|]. split; [done|].
  destruct Hi as (_ & _ & _ & Hp). unfold repair_permitted in Hp. pose proof (instant_ms now Hnow).
  rewrite i64_id in H2 by (unfold int64_range, two63 in *; lia). lia.
Qed.

Lemma sane_now tr now : all_calls sane_clock (Call Now now :: tr) → instant now.
Proof. intros H. by apply (Forall_cons_1 sane_clock) in H as [H _]. Qed.

(** C28: the gate of the workers fails closed.  What it has loaded always comes from an
    inventory read before, less than a minute ago when it is used again; an answer
    that allows a symbol names the one record of the symbol in that inventory, which
    was then present, active, subscribed, listed, fresh and of a market whose last
    refresh succeeded, and whose age is still within the maximum.  When the inventory
    cannot be read again the gate answers the error and keeps what it had. *)
Theorem gate_fails_closed hist g exchange symbol tr answer g' :
  Z.abs (Z.quot g.(eligibilityGate.maxAge) Millisecond) <= MaxTS →
  gate_ok hist g → all_calls sane_clock tr → runs (gate_policy g exchange symbol) tr (answer, g') →
  gate_ok (hist ++ tr) g' ∧ g'.(eligibilityGate.maxAge) = g.(eligibilityGate.maxAge) ∧
  match answer with
  | Err _ => g' = g
  | Ok p =>
      p.(SymbolPolicy.Allowed) = true →
      ∃ now at_ policies s item,
        head tr = Some (Call Now now) ∧ g'.(eligibilityGate.loaded) = Some (at_, policies) ∧ Sub now at_ < Minute ∧
        was_captured (hist ++ tr) s ∧ eligible s at_ g.(eligibilityGate.maxAge) exchange symbol item ∧
        p = SymbolPolicy.mk true "" item.(SymbolSnapshot.MarketType) item.(SymbolSnapshot.ListedAtMS)
              item.(SymbolSnapshot.CapturedAtMS) ∧
        item.(SymbolSnapshot.CapturedAtMS) <= now / Millisecond
          <= item.(SymbolSnapshot.CapturedAtMS) + Z.quot g.(eligibilityGate.maxAge) Millisecond
  end.
Proof.
  intros Hage Hg Hsane Hr. unfold gate_policy in Hr.
  apply runs_bind in Hr as (tr1 & now & tr2 & -> & Hnow%runs_trigger & Hr). subst tr1. cbn [app] in *.
  pose proof (sane_now _ _ Hsane) as Hn. cbv zeta in Hr.
  set (due := match g.(eligibilityGate.loaded) with Some (loadedAt, _) => Minute <=? Sub now loadedAt | None => true end) in Hr.
  destruct due eqn:Edue.
  - apply runs_bind in Hr as (tr3 & s & tr4 & -> & Hc & Hr). destruct s as [s|e].
    2: { apply runs_Ret in Hr as [-> [= -> ->]]. split_and!; [by apply gate_ok_app|done|done]. }
    destruct (snapshot_policies s now _) as [policies|e] eqn:Es.
    2: { apply runs_Ret in Hr as [-> [= -> ->]]. split_and!; [by apply gate_ok_app|done|done]. }
    apply runs_Ret in Hr as [-> [= -> ->]]. rewrite app_nil_r in *.
    assert (Hcap : was_captured (hist ++ Call Now now :: tr3) s).
    { exists (hist ++ [Call Now now]), tr3, []. by rewrite app_nil_r, <- app_assoc. }
    split; [|split; [done|]].
    + intros at_ p' [= <- <-]. by split; [|exists s].
    + intros Ha. destruct (gate_answer_allowed s now _ _ _ _ now Hage Hn Hn Es Ha) as (item & Hi & -> & Hle).
      exists now, now, policies, s, item. split_and!; try done; try lia. unfold Sub. rewrite Z.sub_diag. done.
  - subst due. destruct g.(eligibilityGate.loaded) as [[at_ policies]|] eqn:Eg; [|done].
    apply runs_Ret in Hr as [-> [= -> ->]]. split; [by apply gate_ok_app|]. split; [done|]. intros Ha.
    destruct (Hg _ _ Eg) as (Hat & s & Hc & Es). apply Z.leb_gt in Edue.
    destruct (gate_answer_allowed s at_ _ _ _ _ now Hage Hat Hn Es Ha) as (item & Hi & -> & Hle).
    exists now, at_, policies, s, item. split_and!; try done; try lia. by apply was_captured_app.
Qed.

Lemma gate_ok_new maxAge : gate_ok [] (eligibilityGate.mk maxAge None).
Proof. by intros at_ policies H. Qed.

(** A clock and a store with one symbol. *)
Definition sample_gate_handler : handler gapE unit := λ X e w,
  match e in gapE X return option (X * unit) with
  | Now => Some (1779262300000000000, w)
  | ListSymbolSnapshotSyncs => Some (Ok [sample_sync], w)
  | ListSymbolSnapshots exchange => Some (Ok (if bool_decide (exchange = "okx") then [sample_item] else []), w)
  | _ => None
  end.

Definition new_gate : eligibilityGate := eligibilityGate.mk (15 * Minute) None.

Example gate_fails_closed_witness :
  match exec sample_gate_handler (gate_policy new_gate "okx" "BTC-USDT-SWAP") tt with
  | Some (tr, (Ok p, g'), _) =>
      p.(SymbolPolicy.Allowed) = true ∧ gate_ok tr g' ∧
      ∃ s item, was_captured tr s ∧ eligible s 1779262300000000000 (15 * Minute) "okx" "BTC-USDT-SWAP" item
  | _ => False
  end.
Proof.
  destruct (exec sample_gate_handler (gate_policy new_gate "okx" "BTC-USDT-SWAP") tt) as [[[tr [[p|] g']] []]|] eqn:E;
    [|vm_compute in E; discriminate E..].
  pose proof (exec_runs _ _ _ _ _ _ E) as Hr.
  assert (Hc : all_calls sane_clock tr) by (vm_compute in E; injection E as <- _ _; repeat constructor; vm_compute; done).
  assert (Ha : p.(SymbolPolicy.Allowed) = true ∧ head tr = Some (Call Now 1779262300000000000)
    ∧ fst <$> g'.(eligibilityGate.loaded) = Some 1779262300000000000)
    by (vm_compute in E; injection E as <- <- <-; split_and!; reflexivity).
  destruct Ha as (Ha & Hh & Hl). split; [exact Ha|].
  destruct (gate_fails_closed [] new_gate "okx" "BTC-USDT-SWAP" tr (Ok p) g') as (Hg & _ & Hp);
    [vm_compute; discriminate|apply gate_ok_new|exact Hc|exact Hr|].
  split; [exact Hg|]. destruct (Hp Ha) as (now & at_ & policies & s & item & _ & El & _ & Hs & Hi & _).
  rewrite El in Hl. cbn in Hl. injection Hl as ->. exists s, item. split; [exact Hs|exact Hi].
Defined.

(** ** One task *)

(** The repairs among the calls, with what they were asked and what they answered. *)
Definition repair_of (c : call gapE) : option (string * Task * bool * (Result * option go_error)) :=
  match c with
  | Call e x => match e in gapE X return X → option _ with
                | RepairTask marketType task apply => fun x => Some (marketType, task, apply, x)
                | _ => fun _ => None
                end x
  end.
Definition repairs (tr : list (call gapE)) : list (string * Task * bool * (Result * option go_error)) := omap repair_of tr.

Lemma repairs_app tr1 tr2 : repairs (tr1 ++ tr2) = repairs tr1 ++ repairs tr2.
Proof. apply omap_app. Qed.

Definition total_inserted (answers : list (Result * option go_error)) : Z :=
  foldr (fun x n => x.1.(Result.Inserted) + n) 0 answers.

Section errors.
Context (ErrorText : go_error → string) (url_cause : go_error → option go_error) (is_net_error : go_error → bool).
Notation transientError := (transientError ErrorText url_cause is_net_error).
Notation repair_attempts := (repair_attempts ErrorText url_cause is_net_error).
Notation attempt_task := (attempt_task ErrorText url_cause is_net_error).
Notation attempt_retained := (attempt_retained ErrorText url_cause is_net_error).
Notation repair_routed := (repair_routed ErrorText url_cause is_net_error).

(** Every answer but the last is an error that may pass. *)
Definition retried (answers : list (Result * option go_error)) : Prop :=
  ∀ before x after, answers = before ++ x :: after → after ≠ [] → ∃ e, x.2 = Some e ∧ transientError e = true.

(** What [repair_attempts] makes of the answers. *)
Definition after_attempts (committed : Z) (first : Result * option go_error) (answers : list (Result * option go_error))
    : Result * option go_error :=
  match last answers with
  | None => first
  | Some (r, err) => (set_inserted (committed + total_inserted answers) r, err)
  end.

Lemma retried_cons x answers e :
  x.2 = Some e → transientError e = true → retried answers → retried (x :: answers).
Proof.
  intros Hx He Hr [|y before] z after E Hne; simplify_eq/=; [by exists e|]. by eapply Hr.
Qed.
Lemma retried_one x : retried [x].
Proof. intros [|y [|]] z after E Hne; simplify_eq/=. Qed.

Lemma after_attempts_cons committed first r e answers :
  let committed' := committed + r.(Result.Inserted) in
  after_attempts committed' (set_inserted committed' r, Some e) answers =
  after_attempts committed first ((r, Some e) :: answers).
Proof.
  intros committed'. unfold after_attempts, total_inserted. destruct answers as [|y answers]; simpl.
  - do 2 f_equal. subst committed'. lia.
  - change (match answers with [] => Some y | _ => last answers end) with (last (y :: answers)).
    destruct (last (y :: answers)) as [[r' err]|] eqn:El; [|by apply last_None in El].
    do 2 f_equal. subst committed'. lia.
Qed.

Lemma attempts_runs fuel attempt marketType task apply committed first tr out :
  runs (repair_attempts fuel attempt marketType task apply committed first) tr out →
  ∃ answers, repairs tr = (fun x => (marketType, task, apply, x)) <$> answers ∧
    (length answers ≤ fuel)%nat ∧ (fuel ≠ O → answers ≠ []) ∧ retried answers ∧ out = after_attempts committed first answers.
Proof.
  revert attempt committed first tr. induction fuel as [|fuel IH]; intros attempt committed first tr Hr; simpl in Hr.
  { apply runs_Ret in Hr as [-> ->]. exists []. split_and!; [done|done|done| |done]. by intros []. }
  destruct tr as [|c tr]; [done|]. destruct Hr as ([r err] & -> & Hr). simpl in Hr.
  assert (Hone : ∀ tr', repairs tr' = [] → out = (set_inserted (committed + r.(Result.Inserted)) r, err) →
    ∃ answers, repairs (Call (RepairTask marketType task apply) (r, err) :: tr') =
        (fun x => (marketType, task, apply, x)) <$> answers ∧ (length answers ≤ S fuel)%nat ∧
      (S fuel ≠ O → answers ≠ []) ∧ retried answers ∧ out = after_attempts committed first answers).
  { intros tr' Htr ->. exists [(r, err)]. split_and!; [by cbn; fold (repairs tr'); rewrite Htr|simpl; lia|done|apply retried_one|].
    unfold after_attempts, total_inserted. simpl. by rewrite Z.add_0_r. }
  destruct err as [e|]; [|apply runs_Ret in Hr as [-> ->]; by apply Hone].
  destruct tr as [|c tr]; [done|]. destruct Hr as (ctx & -> & Hr).
  destruct (bool_decide _ || _) eqn:Eb; [apply runs_Ret in Hr as [-> ->]; by apply Hone|].
  apply orb_false_iff in Eb as [_ Etr%negb_false_iff].
  destruct tr as [|c tr]; [done|]. destruct Hr as (w & -> & Hr).
  destruct (IH _ _ _ _ Hr) as (answers & Ha & Hl & _ & Hret & Hout).
  exists ((r, Some e) :: answers). split_and!.
  - cbn. fold (repairs tr). by rewrite Ha.
  - simpl. lia.
  - done.
  - by eapply retried_cons.
  - by rewrite Hout, after_attempts_cons with (first := first).
Qed.
(** The targets that are left are targets the retention rules keep. *)
Definition retained_ok (original : Task) (tf : Frame) (now : Z) (task : Task) (expired : Z) : Prop :=
  task.(Task.ID) = original.(Task.ID) ∧ task.(Task.Symbol) = original.(Task.Symbol) ∧
  Z.of_nat (length task.(Task.TargetStarts)) + expired = Z.of_nat (length original.(Task.TargetStarts)) ∧
  ∀ start, start ∈ task.(Task.TargetStarts) →
    start ∈ original.(Task.TargetStarts) ∧
    ∀ cutoff, CutoffMS (RuleFor tf) (now / Millisecond) = Some cutoff → cutoff <= start.

Lemma retainedTask_ok original tf now task expired :
  retainedTask original tf now = (task, expired) → retained_ok original tf now task expired.
Proof.
  unfold retainedTask. destruct (CutoffMS _ _) as [cutoff|] eqn:Ec.
  - set (kept := List.filter _ _). intros H.
    assert (task.(Task.ID) = original.(Task.ID) ∧ task.(Task.Symbol) = original.(Task.Symbol) ∧
      task.(Task.TargetStarts) = kept ∧
      expired = Z.of_nat (length original.(Task.TargetStarts)) - Z.of_nat (length kept)) as (E1 & E2 & E3 & ->)
      by (destruct kept; by simplify_eq/=).
    unfold retained_ok. rewrite E1, E2, E3, Ec. split_and!; [done|done|lia|].
    intros start H'%list_elem_of_In. subst kept. apply filter_In in H' as [Hin Hle%Z.leb_le].
    split; [by apply list_elem_of_In|]. by intros ? [= <-].
  - intros [= <- <-]. unfold retained_ok. rewrite Ec. by split_and!; [..|lia|].
Qed.

(** The calls of an attempt up to its repairs, when it comes to them. *)
Definition cleared_for_repair (routes : gset string) (name : string) (task : Task) (now : Z) (marketType : string)
    (tr : list (call gapE)) : Prop :=
  ∃ policy factors rest,
    tr = Call Now now :: Call (Policy name task.(Task.Symbol)) (Ok policy)
         :: Call (Factors name task.(Task.Symbol)) (Ok factors) :: rest ∧
    policy.(SymbolPolicy.Allowed) = true ∧ policy.(SymbolPolicy.MarketType) = marketType ∧
    (name ++ ":" ++ marketType)%string ∈ routes ∧
    ∀ factor, factor ∈ factors → needs_review task factor = false.

(** An outcome without a repair. *)
Definition unrepaired (name : string) (original task : Task) (outcome : Outcome) : Prop :=
  let '(r, err, unavailable) := outcome in
  r.(Result.TaskID) = original.(Task.ID) ∧ r.(Result.Inserted) = 0 ∧
  match err with
  | Some _ => r = initial_result name original task
  | None =>
      unavailable = false ∧ r.(Result.MissingStarts) = [] ∧ r.(Result.Unverified) = false ∧
      ((task.(Task.TargetStarts) = [] ∧ r.(Result.Status) = "retention_expired") ∨
       (task.(Task.TargetStarts) ≠ [] ∧ r.(Result.Status) = "skipped_policy_changed" ∧
        r.(Result.Skipped) = Z.of_nat (length task.(Task.TargetStarts))))
  end.

Definition attempt_ok (o : options) (routes : gset string) (name : string) (original task : Task) (now : Z)
    (tr : list (call gapE)) (outcome : Outcome) : Prop :=
  (repairs tr = [] ∧ unrepaired name original task outcome) ∨
  ∃ marketType answers r err,
    task.(Task.TargetStarts) ≠ [] ∧ cleared_for_repair routes name task now marketType tr ∧
    repairs tr = (fun x => (marketType, task, o.(options.apply), x)) <$> answers ∧
    (1 ≤ length answers ≤ 3)%nat ∧ retried answers ∧ last answers = Some (r, err) ∧
    outcome = (set_inserted (total_inserted answers) r, err, false).

Lemma repair_routed_ok o routes name original task now policy tr outcome :
  task.(Task.ID) = original.(Task.ID) → task.(Task.TargetStarts) ≠ [] → policy.(SymbolPolicy.Allowed) = true →
  let marketType := policy.(SymbolPolicy.MarketType) in
  runs (repair_routed name marketType (bool_decide ((name ++ ":" ++ marketType)%string ∈ routes)) task
          o.(options.apply) (initial_result name original task)) tr outcome →
  attempt_ok o routes name original task now
    (Call Now now :: Call (Policy name task.(Task.Symbol)) (Ok policy) :: tr) outcome.
Proof.
  intros Hid Hne Ha marketType Hr. unfold GapRun.repair_routed in Hr.
  case_bool_decide as Hroute; simpl negb in Hr; cbv iota in Hr.
  2: { apply runs_Ret in Hr as [-> ->]. left. by split_and!. }
  apply runs_bind in Hr as (tr1 & [factors|e] & tr2 & -> & ->%runs_trigger & Hr).
  2: { apply runs_Ret in Hr as [-> ->]. left. by split_and!. }
  destruct (existsb (needs_review task) factors) eqn:Ef.
  { apply runs_Ret in Hr as [-> ->]. left. by split_and!. }
  apply runs_bind in Hr as (tr3 & [r err] & tr4 & -> & Hat & [-> ->]%runs_Ret). rewrite app_nil_r.
  destruct (attempts_runs _ _ _ _ _ _ _ _ _ Hat) as (answers & Hrep & Hlen & Hsome & Hret & Hout).
  unfold after_attempts in Hout. specialize (Hsome ltac:(done)).
  destruct (last answers) as [[r' err']|] eqn:El; [|by apply last_None in El]. injection Hout as -> ->.
  right. exists marketType, answers, r', err'. rewrite Z.add_0_l. split_and!; try done.
  - exists policy, factors, tr3. split_and!; try done. intros factor Hin%list_elem_of_In.
    destruct (needs_review task factor) eqn:E; [|done].
    rewrite <- Ef. symmetry. apply existsb_exists. by exists factor.
  - destruct answers; [done|simpl; lia].
Qed.

Lemma attempt_retained_ok o routes name original task now tr outcome :
  task.(Task.ID) = original.(Task.ID) →
  runs (attempt_retained routes name task o.(options.apply) (initial_result name original task)) tr outcome →
  attempt_ok o routes name original task now (Call Now now :: tr) outcome.
Proof.
  intros Hid Hr. unfold GapRun.attempt_retained in Hr.
  destruct (decide (task.(Task.TargetStarts) = [])) as [Et|Et].
  { rewrite Et in Hr. apply runs_Ret in Hr as [-> ->]. left. split; [done|]. simpl. split_and!; try done. by left. }
  destruct task.(Task.TargetStarts) as [|t0 ts] eqn:Ets; [done|]. rewrite <- Ets in *.
  apply runs_bind in Hr as (tr1 & [policy|e] & tr2 & -> & ->%runs_trigger & Hr).
  2: { apply runs_Ret in Hr as [-> ->]. left. by split_and!. }
  destruct (policy.(SymbolPolicy.Allowed)) eqn:Ea; simpl negb in Hr; cbv iota in Hr.
  - by apply repair_routed_ok.
  - destruct (metadata_missing _); apply runs_Ret in Hr as [-> ->]; left; split; try done.
    simpl. split_and!; try done. right. by rewrite Ets.
Qed.

Lemma attempt_shape o routes name tf original tr task expired outcome :
  runs (attempt_task o routes name tf original) tr (task, expired, outcome) →
  ∃ now, head tr = Some (Call Now now) ∧ retained_ok original tf now task expired ∧
    attempt_ok o routes name original task now tr outcome.
Proof.
  intros Hr. unfold GapRun.attempt_task in Hr.
  apply runs_bind in Hr as (tr1 & now & tr2 & -> & ->%runs_trigger & Hr). cbn [app].
  destruct (retainedTask original tf now) as [task' expired'] eqn:Et.
  apply runs_bind in Hr as (tr3 & outcome' & tr4 & -> & Hat & [-> [= -> -> ->]]%runs_Ret). rewrite app_nil_r.
  pose proof (retainedTask_ok _ _ _ _ _ Et) as Hok. exists now. split; [done|]. split; [done|].
  apply attempt_retained_ok; [apply Hok|done].
Qed.
End errors.

(** C27: a worker attempts only what is left of a task after the retention rules, and
    repairs it only after the gate allowed its symbol, when its market has an adapter
    and no adjustment of the symbol lies after its start; the repair is asked at most
    three times, each time for the whole task, and again only after an error that may
    pass; what all attempts inserted is counted.  Without a repair nothing is counted
    as inserted, and unless the targets have expired or the symbol is not eligible any
    more all of them stay missing and unverified, with an error. *)
Theorem attempt_guarded ErrorText url_cause is_net_error o routes name tf original tr task expired outcome :
  runs (attempt_task ErrorText url_cause is_net_error o routes name tf original) tr (task, expired, outcome) →
  ∃ now, head tr = Some (Call Now now) ∧ retained_ok original tf now task expired ∧
    ((repairs tr = [] ∧ unrepaired name original task outcome) ∨
     ∃ marketType answers r err,
       task.(Task.TargetStarts) ≠ [] ∧ cleared_for_repair routes name task now marketType tr ∧
       repairs tr = (fun x => (marketType, task, o.(options.apply), x)) <$> answers ∧
       (1 ≤ length answers ≤ 3)%nat ∧ retried ErrorText url_cause is_net_error answers ∧
       last answers = Some (r, err) ∧ outcome = (set_inserted (total_inserted answers) r, err, false)).
Proof. apply attempt_shape. Qed.

(** A repair that times out after one candle and is done at the second attempt. *)
Definition sample_attempt_handler : handler gapE bool := λ X e again,
  match e in gapE X return option (X * bool) with
  | Now => Some (1779300000000000000, again)
  | CtxErr => Some (None, again)
  | Wait _ => Some (None, true)
  | Policy _ _ => Some (Ok (SymbolPolicy.mk true "" "swap" 0 1779262261234), again)
  | Factors _ _ => Some (Ok [], again)
  | RepairTask _ task _ =>
      Some (if again then (report task "repaired" None 2 1 2 1 1 false [], None)
            else (report task "error" (Some DeadlineExceeded) 2 0 2 1 2 true [], Some DeadlineExceeded), again)
  | _ => None
  end.

Definition sample_options : options :=
  options.mk "r" "j" "s" "okx" "" "" true false false 0 f64_zero f64_zero Hour 0 "" "o" false Hour 8.
Definition no_text : go_error → string := λ _, "".
Definition sample_attempt : gprog (Task * Z * Outcome) :=
  attempt_task no_text (λ _, None) (λ _, false) sample_options {["okx:swap"]} "okx" F1H sample_task.

Example attempt_guarded_witness :
  match exec sample_attempt_handler sample_attempt false with
  | Some (tr, (task, expired, (r, err, _)), _) =>
      task.(Task.TargetStarts) = sample_task.(Task.TargetStarts) ∧ r.(Result.Inserted) = 2 ∧ err = None ∧
      length (repairs tr) = 2%nat ∧
      ∃ now, head tr = Some (Call Now now) ∧ cleared_for_repair {["okx:swap"]} "okx" task now "swap" tr
  | None => False
  end.
Proof.
  destruct (exec sample_attempt_handler sample_attempt false) as [[[tr [[task expired] [[r err] un]]] w]|] eqn:E;
    [|vm_compute in E; discriminate E].
  pose proof (exec_runs _ _ _ _ _ _ E) as Hr.
  assert (Hw : task.(Task.TargetStarts) = sample_task.(Task.TargetStarts) ∧ r.(Result.Inserted) = 2 ∧ err = None ∧
    (fst ∘ fst ∘ fst) <$> repairs tr = ["swap"; "swap"])
    by (vm_compute in E; injection E as <- <- <- <- <- <- <-; split_and!; reflexivity).
  destruct Hw as (H1 & H2 & H3 & H4).
  assert (Hl : length (repairs tr) = 2%nat) by (rewrite <- (length_fmap (fst ∘ fst ∘ fst)), H4; reflexivity).
  split_and!; [exact H1|exact H2|exact H3|exact Hl|].
  destruct (attempt_guarded _ _ _ _ _ _ _ _ _ _ _ _ Hr) as (now & Hh & _ & [[Hn _]|(mt & answers & r' & e' & _ & Hc & Hrep & _)]);
    [rewrite Hn in Hl; discriminate Hl|].
  exists now. split; [exact Hh|]. rewrite Hrep in H4. destruct answers as [|a answers]; [discriminate H4|].
  injection H4 as -> _. exact Hc.
Defined.
