(* ===== verification/GapJournalSpec.v ===== *)
(** * The journal of a gap repair (cmd/gapfill_klines)

    The queues of a run hold each task once and within the budget ([queued_spec]), every
    step of the workers keeps the journal and the results together ([run_step_ok]), so
    that the journal read again gives the results ([journal_resumes]); the counters of
    the summary add up ([summary_adds_up]). *)

From S2P Require Import GapRunSpec.

Local Open Scope string_scope.
Local Open Scope Z_scope.
Local Open Scope list_scope.

(** ** The journal *)

Definition entry (r : Result) : journalEntry := journalEntry.mk "result" "" false (Some r).
Definition replay (journal : list journalEntry) : gmap string Result := foldl take_entry ∅ journal.

Lemma read_journal_all (l : list journalEntry) m : read_journal (Some <$> l) m = Ok (foldl take_entry m l).
Proof. revert m. induction l as [|e l IH]; intros m; [done|apply IH]. Qed.

Lemma read_journal_Ok lines m results :
  read_journal lines m = Ok results → ∃ l : list journalEntry, lines = Some <$> l ∧ results = foldl take_entry m l.
Proof.
  revert m. induction lines as [|[e|] lines IH]; intros m H; simpl in H; [|destruct (IH _ H) as (l & -> & ->)|done].
  - exists []. by injection H as ->.
  - by exists (e :: l).
Qed.

Lemma replay_app j news : replay (j ++ (entry <$> news)) = foldl (fun m r => <[r.(Result.TaskID) := r]> m) (replay j) news.
Proof. unfold replay. rewrite foldl_app. generalize (foldl take_entry ∅ j). by induction news; simpl. Qed.

Lemma replay_has (m : gmap string Result) news id :
  id ∈ Result.TaskID <$> news ∨ is_Some (m !! id) →
  is_Some (foldl (fun m r => <[r.(Result.TaskID) := r]> m) m news !! id).
Proof.
  revert m. induction news as [|r news IH]; intros m H; simpl; [by destruct H as [?%not_elem_of_nil|]|].
  apply IH. destruct (decide (id = r.(Result.TaskID))) as [->|Hne].
  - right. rewrite lookup_insert_eq. by eexists.
  - destruct H as [H|H]; [|right; by rewrite lookup_insert_ne].
    simpl in H. apply elem_of_cons in H as [?|H]; [done|by left].
Qed.

(** What a manifest starts is accepted again and gives what was recorded. *)
Lemma openJournal_again digest apply first rest :
  is_manifest digest apply first = true →
  openJournal digest apply (Some <$> first :: rest) = Ok (Some <$> first :: rest, replay (first :: rest)).
Proof. intros Hm. unfold openJournal. cbn [fmap list_fmap]. rewrite Hm. simpl negb. cbv iota.
  by rewrite (read_journal_all (first :: rest) ∅). Qed.

Lemma openJournal_Ok digest apply lines file previous :
  openJournal digest apply lines = Ok (file, previous) →
  ∃ first rest, file = Some <$> first :: rest ∧ is_manifest digest apply first = true ∧ previous = replay (first :: rest).
Proof.
  destruct lines as [|[first|] lines]; simpl.
  - intros [= <- <-]. exists (journalEntry.mk "manifest" digest apply None), []. split_and!; [done| |done].
    unfold is_manifest. simpl. by rewrite !bool_decide_true, eqb_reflx.
  - destruct (is_manifest digest apply first) eqn:Em; simpl negb; cbv iota; [|done].
    destruct (read_journal lines _) as [results|] eqn:Er; [|done]. intros [= <- <-].
    destruct (read_journal_Ok _ _ _ Er) as (l & -> & ->). exists first, l. by split_and!.
  - done.
Qed.

Lemma option_list_Some (l : list journalEntry) : flat_map option_list (Some <$> l) = l.
Proof. induction l as [|e l IH]; [done|]. change (e :: flat_map option_list (Some <$> l) = e :: l). by rewrite IH. Qed.

(** ** The queues *)

Definition id_of (p : string * Task) : string := p.2.(Task.ID).

Lemma exchange_queue_spec o results tasks name budget :
  let '(budget', queue) := exchange_queue o results tasks name budget in
  queue `sublist_of` tasks ∧ budget' = budget + Z.of_nat (length queue) ∧
  (0 < o.(options.maxTasks) → budget <= o.(options.maxTasks) → budget' <= o.(options.maxTasks)) ∧
  ∀ t, t ∈ queue → t.(Task.Exchange) = name ∧ previously_done o results t = false.
Proof.
  unfold exchange_queue. induction tasks as [|t tasks IH] using rev_ind.
  { simpl. split_and!; [done|lia|done|by intros t ?%not_elem_of_nil]. }
  rewrite foldl_app. simpl. destruct (foldl _ _ tasks) as [budget' queue]. destruct IH as (Hsub & Hb & Hmax & Hall).
  unfold enqueue_task. destruct (negb _ || _ || _) eqn:Eb.
  { split_and!; [by apply sublist_inserts_r|done..]. }
  apply orb_false_iff in Eb as [[Hn Hd]%orb_false_iff Hm]. apply negb_false_iff, bool_decide_eq_true in Hn.
  split_and!.
  - by apply sublist_app.
  - rewrite length_app. simpl. lia.
  - intros H0 Hle. specialize (Hmax H0 Hle). apply andb_false_iff in Hm as [Hm%Z.ltb_ge|Hm%Z.leb_gt]; lia.
  - intros t' [Ht|Ht%list_elem_of_singleton]%elem_of_app; [by apply Hall|by subst].
Qed.

Lemma ids_of_queue name (queue : list Task) : id_of <$> map (pair name) queue = Task.ID <$> queue.
Proof. induction queue as [|t q IH]; [done|]. cbn. f_equal. exact IH. Qed.

Lemma in_queue name (queue : list Task) (p : string * Task) : p ∈ map (pair name) queue ↔ p.1 = name ∧ p.2 ∈ queue.
Proof.
  rewrite list_elem_of_In, in_map_iff. setoid_rewrite <- list_elem_of_In. split.
  - by intros (t & <- & Ht).
  - intros [<- Ht]. exists p.2. by destruct p.
Qed.

Lemma sublist_ids (q tasks : list Task) :
  q `sublist_of` tasks → NoDup (Task.ID <$> tasks) → NoDup (Task.ID <$> q).
Proof. intros Hs Hnd. eapply sublist_NoDup; [exact Hnd|by apply fmap_sublist]. Qed.

(** The queues collected so far, those of the exchanges [names]. *)
Definition queues_ok (o : options) (previous : gmap string Result) (tasks : list Task) (names : list string)
    (st : Z * list (string * list Task)) : Prop :=
  let queue := flat_map (fun '(name, queue) => map (pair name) queue) st.2 in
  st.1 = Z.of_nat (length queue) ∧ NoDup (id_of <$> queue) ∧
  (0 < o.(options.maxTasks) → st.1 <= o.(options.maxTasks)) ∧
  ∀ name t, (name, t) ∈ queue → name ∈ names ∧ t ∈ tasks ∧ t.(Task.Exchange) = name ∧ previously_done o previous t = false.

Lemma queues_ok_app o previous tasks names name budget queues :
  NoDup (Task.ID <$> tasks) → name ∉ names → queues_ok o previous tasks names (budget, queues) →
  let '(budget', queue) := exchange_queue o previous tasks name budget in
  queues_ok o previous tasks (names ++ [name]) (budget', queues ++ [(name, queue)]).
Proof.
  intros Hnd Hname (Hb & Hids & Hmax & Hin).
  pose proof (exchange_queue_spec o previous tasks name budget) as Hq.
  destruct (exchange_queue _ _ _ _ _) as [budget' queue]. destruct Hq as (Hsub & -> & Hm & Hall). unfold queues_ok.
  cbv zeta in *. cbn [fst snd] in *. rewrite flat_map_app. cbn [flat_map]. rewrite app_nil_r. split_and!.
  - rewrite length_app, length_map. lia.
  - rewrite fmap_app, ids_of_queue. apply NoDup_app. split_and!; [done| |by eapply sublist_ids].
    intros id ([n1 t1] & -> & H1)%list_elem_of_fmap (t2 & E & H2)%list_elem_of_fmap.
    destruct (Hin _ _ H1) as (I1 & T1 & X1 & _), (Hall _ H2) as (X2 & _). apply Hname.
    assert (t1 = t2) as -> by (eapply (NoDup_key_inj Task.ID); [done|done|by eapply elem_of_sublist|done]).
    congruence.
  - intros H0. apply (Hm H0 (Hmax H0)).
  - intros name' t [Ht|[E Ht]%in_queue]%elem_of_app; [|cbn [fst snd] in E, Ht; subst name'].
    + destruct (Hin _ _ Ht) as (? & ? & ? & ?). split_and!; try done. apply elem_of_app. by left.
    + destruct (Hall _ Ht) as [E ?]. split_and!; try done; [|by eapply elem_of_sublist].
      apply elem_of_app. right. by left.
Qed.

(** The queues of a run: selected tasks without a result to keep, each once, within the
    budget. *)
Lemma queued_spec o previous exchanges tasks :
  NoDup (Task.ID <$> tasks) →
  let queue := queued o previous exchanges tasks in
  NoDup (id_of <$> queue) ∧ (0 < o.(options.maxTasks) → Z.of_nat (length queue) <= o.(options.maxTasks)) ∧
  ∀ name t, (name, t) ∈ queue → t ∈ tasks ∧ t.(Task.Exchange) = name ∧ previously_done o previous t = false.
Proof.
  intros Hnd queue.
  assert (Hgen : ∀ names done st, NoDup (done ++ names) → queues_ok o previous tasks done st →
    ∃ all, queues_ok o previous tasks all (foldl (fun '(taskBudget, queues) name =>
      if bool_decide (name ∈ exchanges) then
        let '(taskBudget, queue) := exchange_queue o previous tasks name taskBudget in (taskBudget, queues ++ [(name, queue)])
      else (taskBudget, queues)) st names)).
  { induction names as [|name names IH]; intros before st Hn Hst; [by exists before|]. destruct st as [budget queues]. simpl.
    assert (Hname : name ∉ before) by (apply NoDup_app in Hn as (_ & Hn & _); intros H; apply (Hn name H); left).
    change (name :: names) with ([name] ++ names) in Hn. rewrite app_assoc in Hn.
    pose proof (queues_ok_app _ _ _ _ _ _ _ Hnd Hname Hst) as Hnext.
    case_bool_decide; [destruct (exchange_queue _ _ _ _ _) as [b q]|]; apply (IH (before ++ [name])); try done.
    destruct Hst as (? & ? & ? & Hin). split_and!; try done. intros n t Ht. destruct (Hin n t Ht) as (? & ?).
    split; [apply elem_of_app; by left|done]. }
  destruct (Hgen ["binance"; "okx"] [] (0, [])) as (names & Hb & Hids & Hmax & Hin).
  - by apply (bool_decide_unpack _).
  - split_and!; [done|constructor|simpl; lia|by intros ? ? ?%not_elem_of_nil].
  - change (flat_map _ _) with queue in Hb, Hids, Hin. split_and!; [done| |].
    + intros H0. specialize (Hmax H0). rewrite <- Hb. exact Hmax.
    + intros name t Ht. by apply Hin in Ht as [_ ?].
Qed.

(** ** The results that are recorded *)

(** A repair reports on its task. *)
Lemma Repair_TaskID {St} `{GapStore St} fetch now1 now2 task apply (st : St) :
  (fst (Repair fetch now1 now2 task apply st)).1.(Result.TaskID) = task.(Task.ID).
Proof. unfold Repair, insert_and_verify. repeat case_match; simplify_eq/=; done. Qed.

Lemma finished_TaskID url_cause original task expired r taskErr :
  (finished_result url_cause original task expired r taskErr).(Result.TaskID) = r.(Result.TaskID).
Proof. destruct r, taskErr; done. Qed.
Lemma merged_TaskID old task r : (merged_result old task r).(Result.TaskID) = r.(Result.TaskID).
Proof. destruct old, r; done. Qed.
Lemma present_TaskID apply r : (present_count apply r).(Result.TaskID) = r.(Result.TaskID).
Proof. destruct apply, r; done. Qed.

Lemma repairs_repaired tr mt task apply x :
  all_calls repaired tr → (mt, task, apply, x) ∈ repairs tr → x.1.(Result.TaskID) = task.(Task.ID).
Proof.
  intros Hall (c & Hc & Hx)%list_elem_of_omap. apply (Forall_forall repaired) with (x := c) in Hall; [|done].
  destruct c as [X e y]. destruct e; try done. simpl in *. injection Hx as -> -> -> <-.
  destruct Hall as (St & store & fetch & now1 & now2 & st & ->). apply Repair_TaskID.
Qed.

Section runs.
Context (ErrorText : go_error → string) (url_cause : go_error → option go_error) (is_net_error : go_error → bool).
Notation run_step := (run_step ErrorText url_cause is_net_error).
Notation record_task := (record_task ErrorText url_cause is_net_error).

Lemma attempt_TaskID o routes name tf original tr task expired r err unavailable :
  runs (attempt_task ErrorText url_cause is_net_error o routes name tf original) tr (task, expired, (r, err, unavailable)) →
  all_calls repaired tr → r.(Result.TaskID) = original.(Task.ID).
Proof.
  intros Hr Hall. apply attempt_shape in Hr as (now & _ & (Hid & _) & [[_ [Hu _]]|Hrep]); [done|].
  destruct Hrep as (mt & answers & r' & err' & _ & _ & Hrep & _ & _ & Hl & E). injection E as -> -> ->.
  apply last_Some in Hl as [l ->].
  assert (r'.(Result.TaskID) = task.(Task.ID)) as Hr.
  { apply (repairs_repaired tr mt task o.(options.apply) (r', err') Hall). rewrite Hrep.
    apply list_elem_of_fmap. exists (r', err'). split; [done|]. apply elem_of_app. right. by left. }
  rewrite <- Hid, <- Hr. by destruct r'.
Qed.

(** What the critical section does to the state. *)
Lemma record_task_facts o name original task expired r err unavailable journalErr summaryErr st :
  r.(Result.TaskID) = original.(Task.ID) →
  let st' := record_task o name original task expired (r, err, unavailable) journalErr summaryErr st in
  ∃ r', r'.(Result.TaskID) = original.(Task.ID) ∧
    st'.(runState.results) = <[r'.(Result.TaskID) := r']> st.(runState.results) ∧
    (journalErr = None ∧ st'.(runState.journal) = st.(runState.journal) ++ [entry r'] ∨
     is_Some journalErr ∧ st'.(runState.journal) = st.(runState.journal)) ∧
    st'.(runState.pending) = st.(runState.pending) ∧ st'.(runState.running) = st.(runState.running) ∧
    (st'.(runState.runErr) = None → st.(runState.runErr) = None ∧ journalErr = None) ∧
    (st'.(runState.cancelled) = false → st.(runState.cancelled) = false ∧
       (st.(runState.runErr) = None → st'.(runState.runErr) = None)).
Proof.
  intros Hid st'. subst st'. unfold GapRun.record_task.
  set (r' := present_count o.(options.apply) _). exists r'.
  assert (Hr' : r'.(Result.TaskID) = original.(Task.ID))
    by (subst r'; by rewrite present_TaskID, merged_TaskID, finished_TaskID).
  rewrite Hr'. generalize r'. clear r' Hr'. intros r'.
  set (failures := if from_option (transientError ErrorText url_cause is_net_error) false err then _ else 0).
  generalize failures. clear failures. intros failures.
  destruct err as [e|], unavailable, journalErr as [je|], summaryErr as [se|], st as [res jo fa [re|] ca pe ru],
    (8 <=? failures); simpl; split_and!; try done; eauto; intros; simplify_eq; eauto.
Qed.
(** What holds of every state of a run that started with the journal [j0] and the tasks
    [queue]: the journal has grown by [news], no task is in two places, the results are
    those of the journal unless there was an error, and no task is lost unless the run
    was cancelled. *)
Definition places (news : list Result) (st : runState) : list string :=
  (Result.TaskID <$> news) ++ (id_of <$> st.(runState.pending)) ++ (id_of <$> st.(runState.running)).
Definition run_ok (j0 : list journalEntry) (queue : list (string * Task)) (st : runState) : Prop :=
  ∃ news, st.(runState.journal) = j0 ++ (entry <$> news) ∧ places news st ⊆+ (id_of <$> queue) ∧
    (st.(runState.runErr) = None → st.(runState.results) = replay st.(runState.journal)) ∧
    (st.(runState.cancelled) = false → st.(runState.runErr) = None ∧ places news st ≡ₚ (id_of <$> queue)).

Lemma drop_place (a b c d : list string) x : a ++ b ++ c ++ d ⊆+ a ++ b ++ c ++ x :: d.
Proof. do 3 (apply submseteq_app; [done|]). by apply submseteq_cons. Qed.

Lemma run_step_ok o dir routes frame_of j0 queue st st' :
  run_ok j0 queue st → run_step o dir routes frame_of st st' → run_ok j0 queue st'.
Proof.
  intros (news & Hj & Hsub & Hres & Hall) Hstep.
  destruct Hstep as [name t before after st Hc Hp Hfirst Hn|name t before after tr e st Hp Hs
    |name t before after tr0 tr task expired [[r err] un] journalErr summaryErr st Hp Hs Hat Hrep|st].
  - assert (places news (with_work (before ++ after) (st.(runState.running) ++ [(name, t)]) st) ≡ₚ places news st) as E.
    { unfold places. simpl. rewrite Hp, !fmap_app. simpl. solve_Permutation. }
    exists news. rewrite E. by split_and!.
  - exists news. split_and!; [done| |intros H; simpl in H; by destruct (st.(runState.runErr))|done].
    etrans; [|exact Hsub]. unfold places. simpl. rewrite Hp, !fmap_app. simpl.
    apply drop_place.
  - pose proof (attempt_TaskID _ _ _ _ _ _ _ _ _ _ _ Hat Hrep) as Hid.
    set (st1 := with_work _ _ st).
    destruct (record_task_facts o name t task expired r err un journalErr summaryErr st1 Hid)
      as (r' & Hr' & Er & Ej & Ep & Eu & Hnone & Hc).
    set (st' := record_task _ _ _ _ _ _ _ _ _) in *.
    destruct Ej as [[-> Ej]|[Hje Ej]].
    + assert (places (news ++ [r']) st' ≡ₚ places news st) as E.
      { unfold places. rewrite Ep, Eu, Hp. unfold st1, with_work.
        cbn [runState.pending runState.running]. rewrite !fmap_app. cbn [fmap list_fmap]. rewrite Hr'.
        change (id_of (name, t)) with t.(Task.ID). rewrite <- !app_assoc. solve_Permutation. }
      exists (news ++ [r']). rewrite E. split_and!.
      * rewrite Ej. simpl. by rewrite Hj, fmap_app, app_assoc.
      * done.
      * intros Hn. destruct (Hnone Hn) as [Hn' _]. rewrite Er, Ej. change [entry r'] with (entry <$> [r']).
        rewrite replay_app. simpl. by rewrite <- (Hres Hn').
      * intros Hf. destruct (Hc Hf) as [Hf' Hn]. destruct (Hall Hf') as [Hn' ?]. split; [by apply Hn|done].
    + exists news. split_and!.
      * by rewrite Ej.
      * etrans; [|exact Hsub]. unfold places. rewrite Ep, Eu, Hp. simpl. rewrite !fmap_app. simpl.
        apply drop_place.
      * intros Hn. destruct (Hnone Hn) as [_ ->]. by destruct Hje.
      * intros Hf. destruct (Hc Hf) as [Hf' Hn]. destruct (Hall Hf') as [Hn' _]. specialize (Hn Hn').
        destruct (Hnone Hn) as [_ ->]. by destruct Hje.
  - exists news. split_and!; [done|done|intros H; apply Hres; simpl in H; by destruct (st.(runState.runErr))|done].
Qed.

Lemma run_steps_ok o dir routes frame_of j0 queue st st' :
  run_ok j0 queue st → rtc (run_step o dir routes frame_of) st st' → run_ok j0 queue st'.
Proof. intros Hok Hsteps. induction Hsteps; [done|]. eauto using run_step_ok. Qed.
End runs.

(** C26: however the workers take turns, fail or are cancelled, a run of an opened
    journal, over tasks with distinct ids, only adds results to the journal: of tasks it
    had queued, each at most once, and so not more than the budget when there is one;
    the results of earlier runs stay.  The queue holds selected tasks of their exchange
    that were not done, not more than the budget.  As long as no error stopped the run,
    the journal opened again gives exactly the results the run has; and a run that ends
    uncancelled has recorded, in this run, a result for every task it queued. *)
Theorem journal_resumes ErrorText url_cause is_net_error o dir routes frame_of digest lines file previous exchanges tasks st :
  openJournal digest o.(options.apply) lines = Ok (file, previous) → NoDup (Task.ID <$> tasks) →
  rtc (run_step ErrorText url_cause is_net_error o dir routes frame_of) (start_state o exchanges tasks file previous) st →
  let queue := queued o previous exchanges tasks in
  (0 < o.(options.maxTasks) → Z.of_nat (length queue) <= o.(options.maxTasks)) ∧
  (∀ name t, (name, t) ∈ queue → t ∈ tasks ∧ t.(Task.Exchange) = name ∧ previously_done o previous t = false) ∧
  (∃ news, st.(runState.journal) = flat_map option_list file ++ (entry <$> news) ∧ NoDup (Result.TaskID <$> news) ∧
     (∀ r, r ∈ news → ∃ name t, (name, t) ∈ queue ∧ t.(Task.ID) = r.(Result.TaskID)) ∧
     Z.of_nat (length news) <= Z.of_nat (length queue) ∧
     (0 < o.(options.maxTasks) → Z.of_nat (length news) <= o.(options.maxTasks)) ∧
     (st.(runState.cancelled) = false → st.(runState.pending) = [] → st.(runState.running) = [] →
        ∀ name t, (name, t) ∈ queue → ∃ r, r ∈ news ∧ r.(Result.TaskID) = t.(Task.ID))) ∧
  (st.(runState.runErr) = None →
     openJournal digest o.(options.apply) (Some <$> st.(runState.journal))
       = Ok (Some <$> st.(runState.journal), st.(runState.results))) ∧
  (st.(runState.cancelled) = false → st.(runState.pending) = [] → st.(runState.running) = [] →
     st.(runState.runErr) = None ∧
     ∀ name t, (name, t) ∈ queue → is_Some (st.(runState.results) !! t.(Task.ID))).
Proof.
  intros Hopen Hnd Hrun queue. destruct (queued_spec o previous exchanges tasks Hnd) as (Hids & Hmax & Hin).
  fold queue in Hids, Hmax, Hin. destruct (openJournal_Ok _ _ _ _ _ Hopen) as (first & rest & -> & Hm & ->).
  unfold start_state in Hrun. rewrite option_list_Some in *. fold queue in Hrun.
  eapply (run_steps_ok _ _ _ _ _ _ _ (first :: rest) queue) in Hrun as (news & Hj & Hsub & Hres & Hall).
  2: { exists []. simpl. rewrite app_nil_r. unfold places. simpl. rewrite app_nil_r. by split_and!. }
  assert (Hnews : NoDup (Result.TaskID <$> news) ∧ ∀ id, id ∈ Result.TaskID <$> news → id ∈ id_of <$> queue).
  { split.
    - assert (Hp : NoDup (places news st)).
      { apply submseteq_Permutation in Hsub as [k Hk]. rewrite Hk in Hids. by apply NoDup_app in Hids as [? _]. }
      unfold places in Hp. by apply NoDup_app in Hp as [? _].
    - intros id Hid. eapply elem_of_submseteq; [|exact Hsub]. apply elem_of_app. by left. }
  destruct Hnews as [Hnn Hnq].
  assert (Hlen : Z.of_nat (length news) <= Z.of_nat (length queue)).
  { apply submseteq_length in Hsub. unfold places in Hsub. rewrite length_app, !length_fmap in Hsub. lia. }
  split_and!; [done|done| | |].
  - exists news. split_and!; [done|done| |done|intros H0; specialize (Hmax H0); lia|].
    + intros r Hr.
      destruct (proj1 (list_elem_of_fmap _ _ _) (Hnq r.(Result.TaskID) (list_elem_of_fmap_2 _ _ _ Hr))) as ([name t] & E & Ht).
      by exists name, t.
    + intros Hc Hp Hr name t Ht. destruct (Hall Hc) as [_ Hperm]. unfold places in Hperm. rewrite Hp, Hr in Hperm.
      simpl in Hperm. rewrite app_nil_r in Hperm.
      assert (t.(Task.ID) ∈ Result.TaskID <$> news) as (r & Er & Hin')%list_elem_of_fmap
        by (rewrite Hperm; apply list_elem_of_fmap; by exists (name, t)).
      by exists r.
  - intros Hn. rewrite (Hres Hn), Hj. by apply (openJournal_again _ _ first (rest ++ (entry <$> news))).
  - intros Hc Hp Hr. destruct (Hall Hc) as [Hn Hperm]. split; [done|]. intros name t Ht. rewrite (Hres Hn), Hj, replay_app.
    apply replay_has. left. unfold places in Hperm. rewrite Hp, Hr in Hperm. simpl in Hperm. rewrite app_nil_r in Hperm.
    rewrite Hperm. apply list_elem_of_fmap. by exists (name, t).
Qed.

(** One task, and an exchange that has one of its two candles. *)
Definition sample_run_handler : handler gapE unit := λ X e w,
  match e in gapE X return option (X * unit) with
  | Now => Some (1779300000000000000, w)
  | Policy _ _ => Some (Ok (SymbolPolicy.mk true "" "swap" 0 1779262261234), w)
  | Factors _ _ => Some (Ok [], w)
  | RepairTask _ task apply =>
      Some (fst (Repair sample_fetch 1779300000000 1779300000001 task apply (∅ : gmap row_key Bar)), w)
  | _ => None
  end.

Lemma sample_run_repaired X (e : gapE X) w x w' : sample_run_handler X e w = Some (x, w') → repaired (Call e x).
Proof.
  destruct e; simpl; try done. intros [= <- _].
  by exists (gmap row_key Bar), _, sample_fetch, 1779300000000, 1779300000001, ∅.
Qed.

Definition sample_run_start : runState :=
  start_state sample_options {["okx"]} [sample_task] [Some (journalEntry.mk "manifest" "d" true None)] ∅.
Definition sample_taken : runState := with_work [] [("okx", sample_task)] sample_run_start.

Example journal_resumes_witness :
  ∃ st r, rtc (run_step no_text (λ _, None) (λ _, false) sample_options "." {["okx:swap"]} (λ _, F1H)) sample_run_start st ∧
    st.(runState.results) !! "t" = Some r ∧ r.(Result.Status) = "partial" ∧
    openJournal "d" true (Some <$> st.(runState.journal)) = Ok (Some <$> st.(runState.journal), st.(runState.results)).
Proof.
  destruct (exec sample_run_handler sample_attempt tt) as [[[tr [[task expired] [[r err] un]]] []]|] eqn:E;
    [|vm_compute in E; discriminate E].
  pose proof (exec_runs _ _ _ _ _ _ E) as Hr.
  pose proof (exec_all_calls _ repaired _ _ _ _ _ sample_run_repaired E) as Hall.
  set (st := record_task no_text (λ _, None) (λ _, false) sample_options "okx" sample_task task expired (r, err, un) None None
    (with_work [] [] sample_taken)).
  assert (Hst : rtc (run_step no_text (λ _, None) (λ _, false) sample_options "." {["okx:swap"]} (λ _, F1H)) sample_run_start st).
  { eapply rtc_l; [|eapply rtc_l; [|apply rtc_refl]].
    - apply (StepTake _ _ _ _ _ _ _ "okx" sample_task [] []); [reflexivity|reflexivity|constructor|vm_compute; reflexivity].
    - apply (StepFinish _ _ _ _ _ _ _ "okx" sample_task [] [] [Call Now 1779300000000000000] tr); [reflexivity| |exact Hr|exact Hall].
      exists 1779300000000000000. split; [reflexivity|]. vm_compute. reflexivity. }
  assert (Hv : (∃ r', st.(runState.results) !! "t" = Some r' ∧ r'.(Result.Status) = "partial") ∧ st.(runState.runErr) = None).
  { vm_compute in E. injection E as <- <- <- <- <- <-. split; [eexists; split; vm_compute; reflexivity|vm_compute; reflexivity]. }
  destruct Hv as ((r' & H1 & H2) & H3). exists st, r'. split; [exact Hst|]. split; [exact H1|]. split; [exact H2|].
  apply (journal_resumes no_text (λ _, None) (λ _, false) sample_options "." {["okx:swap"]} (λ _, F1H) "d" []
    [Some (journalEntry.mk "manifest" "d" true None)] ∅ {["okx"]} [sample_task] st); [reflexivity| |exact Hst|exact H3].
  apply NoDup_singleton.
Defined.

(** ** The summary *)

(** The results of the tasks that have one, in the order of the tasks. *)
Definition results_of (results : gmap string Result) (tasks : list Task) : list Result :=
  omap (fun t => results !! t.(Task.ID)) tasks.
Definition total (f : Result → Z) (rs : list Result) : Z := foldr (fun r n => f r + n) 0 rs.
Definition missing_count (r : Result) : Z := Z.of_nat (length r.(Result.MissingStarts)).

Lemma total_app f rs r : total f (rs ++ [r]) = total f rs + f r.
Proof. unfold total. induction rs as [|r' rs IH]; simpl in *; lia. Qed.

(** The counters after the tasks [tasks]; [skipped0] is the count of the plan. *)
Definition summary_counts (running : bool) (skipped0 : Z) (results : gmap string Result) (tasks : list Task)
    (s : runSummary) : Prop :=
  let rs := results_of results tasks in
  s.(runSummary.CompletedTasks) = Z.of_nat (length rs) ∧
  s.(runSummary.Inserted) = total Result.Inserted rs ∧ s.(runSummary.AlreadyPresent) = total Result.AlreadyPresent rs ∧
  s.(runSummary.Unresolved) + s.(runSummary.Unverified) = total missing_count rs ∧
  s.(runSummary.Expired) = total Result.Expired rs ∧ s.(runSummary.SkippedBars) = skipped0 + total Result.Skipped rs ∧
  (∀ status, default 0 (s.(runSummary.ByStatus) !! status)
     = total (fun r => if bool_decide (r.(Result.Status) = status) then 1 else 0) rs) ∧
  s.(runSummary.Results) ≡ₚ (if running then [] else rs) ∧
  s.(runSummary.Requested) = foldr (fun t n => Z.of_nat (length t.(Task.TargetStarts)) + n) 0 tasks ∧
  ∀ exchange, let e := default exchangeSummary.zero (s.(runSummary.ByExchange) !! exchange) in
    let own := results_of results (List.filter (fun t => bool_decide (t.(Task.Exchange) = exchange)) tasks) in
    e.(exchangeSummary.Tasks) = Z.of_nat (length own) ∧ e.(exchangeSummary.Requested) = total Result.Requested own ∧
    e.(exchangeSummary.Inserted) = total Result.Inserted own ∧
    e.(exchangeSummary.AlreadyPresent) = total Result.AlreadyPresent own ∧
    e.(exchangeSummary.Unresolved) + e.(exchangeSummary.Unverified) = total missing_count own.

Lemma count_task_counts running skipped0 results tasks t s :
  summary_counts running skipped0 results tasks s →
  summary_counts running skipped0 results (tasks ++ [t]) (count_task running results s t).
Proof.
  unfold summary_counts, count_task. intros (H1 & H2 & H3 & H4 & H5 & H6 & H7 & H8 & H10 & H9).
  assert (Hreq : foldr (fun t n => Z.of_nat (length t.(Task.TargetStarts)) + n) 0 (tasks ++ [t])
    = s.(runSummary.Requested) + Z.of_nat (length t.(Task.TargetStarts)))
    by (rewrite H10; clear; induction tasks as [|t' tasks IH]; simpl in *; lia).
  rewrite Hreq. clear Hreq H10.
  assert (Hone : results_of results (tasks ++ [t]) = results_of results tasks ++ results_of results [t]) by apply omap_app.
  rewrite Hone. setoid_rewrite List.filter_app. cbn [List.filter]. unfold results_of in H9 |- *. setoid_rewrite omap_app.
  fold (results_of results tasks) in *. cbn [omap list_omap].
  destruct s as [apply status n requested completed remaining inserted already unresolved unverified expired skippedBars
    byStatus byExchange skipped rs planned byKind plan].
  simpl in *. destruct (results !! t.(Task.ID)) as [r|] eqn:Er.
  - simpl. rewrite length_app, !total_app. simpl. fold (missing_count r).
    split_and!; try lia.
    + destruct (r.(Result.Unverified)); lia.
    + intros st. unfold bump_count. rewrite total_app, <- H7. destruct (decide (r.(Result.Status) = st)) as [<-|Hne].
      * by rewrite lookup_insert_eq, bool_decide_true.
      * rewrite lookup_insert_ne, bool_decide_false by done. lia.
    + destruct running; [done|by rewrite H8].
    + intros ex. specialize (H9 ex). destruct (decide (t.(Task.Exchange) = ex)) as [<-|Hne].
      * rewrite lookup_insert_eq, bool_decide_true by done. simpl. rewrite Er. simpl.
        rewrite length_app, !total_app. simpl. fold (missing_count r). destruct (r.(Result.Unverified)); lia.
      * rewrite lookup_insert_ne, bool_decide_false by done. simpl. by rewrite app_nil_r.
  - simpl. rewrite app_nil_r. split_and!; try done. intros ex. specialize (H9 ex).
    destruct (bool_decide _); simpl; [rewrite Er; simpl|]; by rewrite app_nil_r.
Qed.

Lemma count_tasks_counts running skipped0 results tasks s :
  summary_counts running skipped0 results [] s →
  summary_counts running skipped0 results tasks (foldl (count_task running results) s tasks) ∧
  (foldl (count_task running results) s tasks).(runSummary.Tasks) = s.(runSummary.Tasks).
Proof.
  intros H0. induction tasks as [|t tasks [IH ET]] using rev_ind; [done|]. rewrite foldl_app. cbn [foldl]. split.
  - by apply count_task_counts.
  - rewrite <- ET. unfold count_task. destruct (foldl _ s tasks). by destruct (results !! t.(Task.ID)).
Qed.

(** the summary adds up: every counter is the sum over the results of the tasks,
    each status and each exchange has its share of them, and what is not completed
    remains; while the run goes on it does not list the results, and at the end it lists
    them all, ordered by their tasks. *)
Theorem summary_adds_up status apply tasks skipped results :
  let s := saveSummary status apply tasks skipped results in
  summary_counts (bool_decide (status = "running"))
    (foldl (fun n s => n + s.(Skipped.MissingBars)) 0 skipped) results tasks s ∧
  s.(runSummary.Tasks) = Z.of_nat (length tasks) ∧
  s.(runSummary.CompletedTasks) + s.(runSummary.RemainingTasks) = s.(runSummary.Tasks) ∧
  StronglySorted (not_after (less_str Result.TaskID)) s.(runSummary.Results).
Proof.
  intros s. subst s. unfold saveSummary.
  destruct (count_tasks_counts (bool_decide (status = "running")) (foldl (fun n s => n + s.(Skipped.MissingBars)) 0 skipped)
    results tasks (summary_start status apply tasks skipped)) as [Hc Ht].
  { unfold summary_counts, summary_start. simpl. split_and!; try done; try lia; try by destruct (bool_decide _). }
  destruct (foldl _ (summary_start _ _ _ _) tasks). unfold summary_counts in *. simpl in Ht, Hc.
  destruct Hc as (H1 & H2 & H3 & H4 & H5 & H6 & H7 & H8 & H9).
  split; [split_and!; [exact H1|exact H2|exact H3|exact H4|exact H5|exact H6|exact H7| |exact (proj1 H9)|exact (proj2 H9)]|].
  - etrans; [apply sort_slice_perm|exact H8].
  - split_and!; [exact Ht|simpl; lia|apply (sort_slice_sorted (less_str Result.TaskID))].
Qed.
