(* ===== verification/Guardian.v ===== *)
(** * The Guardian: comparing stored candles with the exchange (internal/guardian)

    The worker of guardian.go, repair.go and daily_coverage.go: it fetches the
    official candles of a range, keeps the well-formed ones, compares them with
    the stored ones, sends what differs to the repairer, and records what it
    found in the state of the series.  GuardianSpec.v says what a run that ends
    without an error has checked; GuardianMinute.v and GuardianAudit.v hold the
    minute tasks and the rounds that call it.

    A method is a program over the calls [guardianE].  An optional interface of
    the store or of the repairer (a type assertion in the code) is a boolean of
    [Guardian]; the text of an error and the JSON of an event are kept as the
    values they are made from.  [ctx.Err()] is a call too, since another
    goroutine may cancel the context at any time. *)

From S2P Require Export Effects Exchange Market Timeframe SymbolSnapshot.

Local Open Scope string_scope.
Local Open Scope Z_scope.
Local Open Scope list_scope.

(** ** Names *)

Definition normalizeExchange (value : string) : string := ToLower (TrimSpace value).
Definition normalizeSymbol (value : string) : string := ToUpper (TrimSpace value).
Definition normalizeMarketType (value : string) : string := ToLower (TrimSpace value).
Definition fetcherKey (exchangeName marketType : string) : string :=
  (normalizeExchange exchangeName ++ ":" ++ normalizeMarketType marketType)%string.
Definition minuteSymbolKey (exchange symbol : string) : string :=
  (normalizeExchange exchange ++ ":" ++ normalizeSymbol symbol)%string.

(** ** Configuration *)

(** Durations in nanoseconds.  [RequestIntervals] lists the entries of the map in
    the order [range] visits them; [Observer] tells whether there is one. *)
Module Config.
Record Config : Type := mk {
  Enabled : bool; RequireSymbolSnapshots : bool; RequireMinuteTaskStore : bool; MinuteDayAuditEnabled : bool;
  MinuteDayAuditOffset : Z; MinuteRetention : Z; MinuteRetryInterval : Z; MinuteDayRequestInterval : Z;
  ObserveFinalBars : bool; DailyAuditEnabled : bool; DailyAuditInterval : Z; DailyAuditDays : Z;
  DailyAuditLookbackDays : Z; AuditInterval : Z; AuditWindow : Z; AuditDelay : Z; RequestDelay : Z;
  HTTPTimeout : Z; QueueSize : Z; SymbolsPerRun : Z; MaxInflightPerExchange : Z; SymbolMaxAge : Z;
  FloatTolerance : float64; RequestIntervals : list (string * Z); Observer : bool }.
End Config.
Notation Config := Config.Config.

Definition Second : Z := 1000000000.
Definition Minute : Z := 60000000000.
Definition Hour : Z := 3600000000000.
Definition Millisecond : Z := 1000000.

Definition defaultAuditInterval : Z := 2 * Minute.
Definition defaultAuditWindow : Z := 30 * Minute.
Definition defaultAuditDelay : Z := 2 * Minute.
Definition defaultHTTPTimeout : Z := 20 * Second.
Definition defaultQueueSize : Z := 4096.
Definition defaultSymbolMaxAge : Z := 10 * Minute.
Definition defaultFloatTolerance : float64 := Eval vm_compute in f64_of_Q 1 100000000.
Definition defaultDailyAuditInterval : Z := Hour.
Definition defaultDailyAuditDays : Z := 7.
Definition defaultDailyAuditLookbackDays : Z := 300.
Definition defaultMaxInflightPerExchange : Z := 8.

(** [if v <= 0 { v = fallback }]. *)
Definition or_default (v fallback : Z) : Z := if v <=? 0 then fallback else v.

Definition normalize_intervals (l : list (string * Z)) : list (string * Z) :=
  map (fun '(name, interval) => (normalizeExchange name, interval))
      (List.filter (fun '(_, interval) => 0 <? interval) l).

Definition normalizeConfig (cfg : Config) : Config :=
  let lookback := or_default cfg.(Config.DailyAuditLookbackDays) defaultDailyAuditLookbackDays in
  let days := or_default cfg.(Config.DailyAuditDays) defaultDailyAuditDays in
  let inflight := or_default cfg.(Config.MaxInflightPerExchange) defaultMaxInflightPerExchange in
  {| Config.Enabled := cfg.(Config.Enabled);
     Config.RequireSymbolSnapshots := cfg.(Config.RequireSymbolSnapshots);
     Config.RequireMinuteTaskStore := cfg.(Config.RequireMinuteTaskStore);
     Config.MinuteDayAuditEnabled := cfg.(Config.MinuteDayAuditEnabled);
     Config.MinuteDayAuditOffset := or_default cfg.(Config.MinuteDayAuditOffset) (30 * Minute);
     Config.MinuteRetention := or_default cfg.(Config.MinuteRetention) (7 * 24 * Hour);
     Config.MinuteRetryInterval := or_default cfg.(Config.MinuteRetryInterval) (15 * Second);
     Config.MinuteDayRequestInterval :=
       (if cfg.(Config.MinuteDayRequestInterval) <? Second then Second else cfg.(Config.MinuteDayRequestInterval));
     Config.ObserveFinalBars := cfg.(Config.ObserveFinalBars);
     Config.DailyAuditEnabled := cfg.(Config.DailyAuditEnabled);
     Config.DailyAuditInterval := or_default cfg.(Config.DailyAuditInterval) defaultDailyAuditInterval;
     Config.DailyAuditDays := (if lookback <? days then lookback else days);
     Config.DailyAuditLookbackDays := lookback;
     Config.AuditInterval := or_default cfg.(Config.AuditInterval) defaultAuditInterval;
     Config.AuditWindow := or_default cfg.(Config.AuditWindow) defaultAuditWindow;
     Config.AuditDelay := or_default cfg.(Config.AuditDelay) defaultAuditDelay;
     Config.RequestDelay := cfg.(Config.RequestDelay);
     Config.HTTPTimeout := or_default cfg.(Config.HTTPTimeout) defaultHTTPTimeout;
     Config.QueueSize := or_default cfg.(Config.QueueSize) defaultQueueSize;
     Config.SymbolsPerRun := (if cfg.(Config.SymbolsPerRun) <? 0 then 0 else cfg.(Config.SymbolsPerRun));
     Config.MaxInflightPerExchange := (if 64 <? inflight then 64 else inflight);
     Config.SymbolMaxAge := or_default cfg.(Config.SymbolMaxAge) defaultSymbolMaxAge;
     Config.FloatTolerance := (if f64_leb cfg.(Config.FloatTolerance) f64_zero then defaultFloatTolerance
                               else cfg.(Config.FloatTolerance));
     Config.RequestIntervals := normalize_intervals cfg.(Config.RequestIntervals);
     Config.Observer := cfg.(Config.Observer) |}.

(** ** Data *)

(** What a [Fetcher] says of itself; [id] tells one from another. *)
Module Fetcher.
Record Fetcher : Type := mk { id : nat; Name : string; MarketType : string }.
End Fetcher.
Notation Fetcher := Fetcher.Fetcher.
#[export] Instance Fetcher_eq_dec : EqDecision Fetcher.
Proof. solve_decision. Defined.

(** The JSON text of an event's value: nothing, a candle ([barJSON]), an error
    ([quoteError]) or the fixed text on a day without trades. *)
Inductive json : Type :=
| JNone
| JBar (bar : Bar)
| JError (err : go_error)
| JNoTradeEvidence.

(** [market.KlineGuardianEvent] as the Guardian makes it. *)
Module RepairEvent.
Record RepairEvent : Type := mk {
  Exchange : string; Symbol : string; Timeframe : string; StartMS : Z; EndMS : Z;
  EventType : string; OldValueJSON : json; NewValueJSON : json; CreatedAtMS : Z }.
End RepairEvent.
Notation RepairEvent := RepairEvent.RepairEvent.

Module RepairRequest.
Record RepairRequest : Type := mk {
  Exchange : string; Symbol : string; Timeframe : string; StartMS : Z; EndMS : Z; Reason : string;
  ExpectData : bool; ExpectedStartMS : Z; ForceReplay : bool }.
Definition set_range (startMS endMS : Z) (r : RepairRequest) : RepairRequest :=
  let 'mk ex symbol tf _ _ reason expect expected force := r in
  mk ex symbol tf startMS endMS reason expect expected force.
Definition set_force (force : bool) (r : RepairRequest) : RepairRequest :=
  let 'mk ex symbol tf startMS endMS reason expect expected _ := r in
  mk ex symbol tf startMS endMS reason expect expected force.
End RepairRequest.
Notation RepairRequest := RepairRequest.RepairRequest.

Module RepairResult.
Record RepairResult : Type := mk { Checked : Z; Repaired : Z; Events : list RepairEvent }.
Definition zero : RepairResult := mk 0 0 [].
Definition add_events (events : list RepairEvent) (r : RepairResult) : RepairResult :=
  mk r.(Checked) r.(Repaired) (r.(Events) ++ events).
End RepairResult.
Notation RepairResult := RepairResult.RepairResult.

(** The values a context carries: the symbol whose minute lock is held, the
    exchange a request is for, and whether it belongs to a minute-day audit. *)
Module Ctx.
Record Ctx : Type := mk { heldKey : option string; exchangeName : option string; minuteDay : bool }.
Definition background : Ctx := mk None None false.
Definition hold (key : string) (c : Ctx) : Ctx := mk (Some key) c.(exchangeName) c.(minuteDay).
Definition for_exchange (name : string) (c : Ctx) : Ctx := mk c.(heldKey) (Some name) c.(minuteDay).
Definition for_day (c : Ctx) : Ctx := mk c.(heldKey) c.(exchangeName) true.
End Ctx.
Notation Ctx := Ctx.Ctx.

Module Guardian.
Record Guardian : Type := mk {
  cfg : Config;
  taskStore : bool;
  snapshotReader : bool;
  factorStore : bool;
  verifier : bool;
  rollupRepairer : bool;
  fetchersByMarket : gmap string Fetcher;
  fetchersByExchange : gmap string (list Fetcher);
  requestSlots : gset string }.
End Guardian.
Notation Guardian := Guardian.Guardian.

(** ** Calls *)

Inductive guardianE : Type → Type :=
| Now : guardianE Z
| CtxErr : guardianE (option go_error)
| RandRead : guardianE (result go_error string)
| Lock (shard : Z) : guardianE unit
| Unlock (shard : Z) : guardianE unit
| AcquireSlot (exchange : string) : guardianE (option go_error)
| ReleaseSlot (exchange : string) : guardianE unit
| BarsInRange (exchange symbol tf : string) (startMS endMS : Z) : guardianE (result go_error (list Bar))
| ListSymbols (exchange : string) : guardianE (result go_error (list SymbolInfo))
| LoadKlineGuardianState (exchange symbol tf : string) : guardianE (result go_error (option KlineGuardianState))
| UpsertKlineGuardianState (state : KlineGuardianState) : guardianE (option go_error)
| InsertKlineGuardianEvents (events : list RepairEvent) : guardianE (option go_error)
| ListCorporateActionFactors (exchange symbol : string) : guardianE (result go_error (list CorporateActionJob))
| ListSymbolSnapshots (exchange : string) : guardianE (result go_error (list SymbolSnapshot))
| ListSymbolSnapshotSyncs : guardianE (result go_error (list SymbolSnapshotSync))
| FetchKlines (ctx : Ctx) (fetcher : Fetcher) (request : KlineRequest) : guardianE (result go_error (list Bar))
| RepairFinalBars (bars : list Bar) : guardianE (option go_error)
| VerifyFinalBars (bars : list Bar) (verifiedAtMS : Z) : guardianE (option go_error)
| RepairRollups (sourceBars : list Bar) : guardianE (option go_error)
| GuardianEvent (event : RepairEvent) : guardianE unit
| GuardianQueueDropped (exchange : string) : guardianE unit
| EnqueueMinuteAuditTask (task : MinuteAuditTask) : guardianE (result go_error Z)
| LoadMinuteAuditTask (id : Z) : guardianE (result go_error (option MinuteAuditTask))
| LeaseMinuteAuditTask (id : Z) (token : string) (nowMS leaseUntilMS : Z) : guardianE (result go_error bool)
| FinishMinuteAuditTask (id : Z) (token outcome : string) (nextAttemptMS : Z) (forceReplay : bool)
    (lastError : string) (nowMS : Z) : guardianE (option go_error)
| ListDueMinuteAuditTasksByKind (exchange kind : string) (nowMS limit : Z)
    : guardianE (result go_error (list MinuteAuditTask))
| LoadMinuteAuditCursor (exchange symbol kind : string) : guardianE (result go_error (option MinuteAuditCursor))
| SaveMinuteAuditCursor (cursor : MinuteAuditCursor) : guardianE (option go_error)
| Diverge : guardianE Empty_set.

Notation gprog := (prog guardianE).

Local Open Scope prog_scope.

(** ** Construction and fetchers *)

(** [New]: the fetchers by market and by exchange, and the exchanges that have
    request slots.  A nil fetcher is skipped. *)
Definition add_fetcher (maps : gmap string Fetcher * gmap string (list Fetcher) * gset string)
    (fetcher : option Fetcher) : gmap string Fetcher * gmap string (list Fetcher) * gset string :=
  match fetcher with
  | None => maps
  | Some f =>
      let '(byMarket, byExchange, slots) := maps in
      let exchangeName := normalizeExchange f.(Fetcher.Name) in
      let marketType := normalizeMarketType f.(Fetcher.MarketType) in
      (<[fetcherKey exchangeName marketType := f]> byMarket,
       <[exchangeName := default [] (byExchange !! exchangeName) ++ [f]]> byExchange,
       {[exchangeName]} ∪ slots)
  end.

Definition New (taskStore snapshotReader factorStore verifier rollupRepairer : bool)
    (fetchers : list (option Fetcher)) (cfg : Config) : Guardian :=
  let '(byMarket, byExchange, slots) := foldl add_fetcher (∅, ∅, ∅) fetchers in
  Guardian.mk (normalizeConfig cfg) taskStore snapshotReader factorStore verifier rollupRepairer
              byMarket byExchange slots.

(** Comparison of candles. *)
Definition floatDiffers (left right tolerance : float64) : bool :=
  let limit := f64_max tolerance (f64_mul (f64_abs right) tolerance) in
  f64_gtb (f64_abs (f64_sub left right)) limit.

Definition barsDiffer (loc official : Bar) (tolerance : float64) : bool :=
  if negb (loc.(Bar.EndMS) =? official.(Bar.EndMS)) || negb loc.(Bar.IsFinal) then true
  else if existsb (fun '(a, b) => floatDiffers a b tolerance)
            [(loc.(Bar.OpenPrice), official.(Bar.OpenPrice));
             (loc.(Bar.HighPrice), official.(Bar.HighPrice));
             (loc.(Bar.LowPrice), official.(Bar.LowPrice));
             (loc.(Bar.ClosePrice), official.(Bar.ClosePrice));
             (loc.(Bar.Volume), official.(Bar.Volume));
             (loc.(Bar.QuoteVolume), official.(Bar.QuoteVolume));
             (loc.(Bar.ContractVolume), official.(Bar.ContractVolume))] then true
  else if OfficialTradeCountAvailable official && negb (loc.(Bar.TradeCount) =? official.(Bar.TradeCount)) then true
  else false.

Definition not_positive (value : float64) : bool := f64_leb value f64_zero || f64_is_nan value || f64_is_inf value.

Definition validOfficialOHLC (bar : Bar) : bool :=
  if existsb not_positive [bar.(Bar.OpenPrice); bar.(Bar.HighPrice); bar.(Bar.LowPrice); bar.(Bar.ClosePrice)]
  then false
  else f64_geb bar.(Bar.HighPrice) (f64_max bar.(Bar.OpenPrice) bar.(Bar.ClosePrice))
       && f64_leb bar.(Bar.LowPrice) (f64_min bar.(Bar.OpenPrice) bar.(Bar.ClosePrice))
       && f64_geb bar.(Bar.HighPrice) bar.(Bar.LowPrice).

Definition some_activity (value : float64) : bool :=
  negb (f64_eqb value f64_zero) || f64_is_nan value || f64_is_inf value.

Definition zeroTradeActivity (bar : Bar) : bool :=
  if negb (bar.(Bar.TradeCount) =? 0) then false
  else negb (existsb some_activity [bar.(Bar.Volume); bar.(Bar.QuoteVolume); bar.(Bar.ContractVolume)]).

(** The test of [filterOfficialBars] on one candle; [tf] is the timeframe the
    request names. *)
Definition official_rejected (request : RepairRequest) (tf : Frame) (nowMS : Z) (bar : Bar) : bool :=
  negb (bool_decide (normalizeExchange bar.(Bar.Exchange) = request.(RepairRequest.Exchange)))
  || negb (bool_decide (normalizeSymbol bar.(Bar.Symbol) = request.(RepairRequest.Symbol)))
  || negb (bool_decide (bar.(Bar.Timeframe) = frame_name tf)) || negb bar.(Bar.IsFinal)
  || (bar.(Bar.StartMS) <=? 0) || negb (bar.(Bar.StartMS) =? FloorStartMS bar.(Bar.StartMS) tf)
  || negb (bar.(Bar.EndMS) =? EndMS bar.(Bar.StartMS) tf) || (nowMS <=? bar.(Bar.EndMS))
  || negb (validOfficialOHLC bar).

Definition outside (request : RepairRequest) (bar : Bar) : bool :=
  (bar.(Bar.StartMS) <? request.(RepairRequest.StartMS)) || (request.(RepairRequest.EndMS) <? bar.(Bar.StartMS)).

Definition filter_official (request : RepairRequest) (tf : Frame) (nowMS : Z) (st : gmap Z Bar * Z) (bar : Bar)
    : gmap Z Bar * Z :=
  let '(byStart, rejected) := st in
  if outside request bar then st
  else if official_rejected request tf nowMS bar then (byStart, rejected + 1)
  else
    let bar := Bar.set_Symbol request.(RepairRequest.Symbol)
                 (Bar.set_Exchange request.(RepairRequest.Exchange) bar) in
    (<[bar.(Bar.StartMS) := bar]> byStart, rejected).

Definition filterOfficialBars (bars : list Bar) (request : RepairRequest) (tf : Frame) (nowMS : Z) : list Bar * Z :=
  let '(byStart, rejected) := foldl (filter_official request tf nowMS) (∅, 0) bars in
  (sort_by Bar.StartMS (map snd (map_to_list byStart)), rejected).

Definition starts_of (bars : list Bar) : gset Z := list_to_set (Bar.StartMS <$> bars).
Definition by_start (bars : list Bar) : gmap Z Bar := foldl (fun m bar => <[bar.(Bar.StartMS) := bar]> m) ∅ bars.

Definition guardianAdjustment (exchangeName : string) : string :=
  if bool_decide (normalizeExchange exchangeName = "okx") then KlineAdjustmentAuto else KlineAdjustmentRaw.

Definition isRetryableDailyStatus (status : string) : bool :=
  bool_decide (status ∈ ["repair_error"; "rest_error"; "empty_response"; "incomplete_response"; "unchecked"]).

(** The product of the factors of later actions, and the candle it adjusts. *)
Definition corporate_multiplier (factors : list CorporateActionJob) (bar : Bar) : float64 :=
  foldl (fun multiplier action =>
    if f64_gtb action.(CorporateActionJob.Factor) f64_zero
       && (bar.(Bar.StartMS) <? action.(CorporateActionJob.EffectiveMS))
    then f64_mul multiplier action.(CorporateActionJob.Factor) else multiplier) (f64_of_Z 1) factors.

Definition apply_factors (factors : list CorporateActionJob) (bar : Bar) : Bar :=
  let m := corporate_multiplier factors bar in
  if f64_eqb m (f64_of_Z 1) then bar
  else DecorateBar (set_prices (f64_mul bar.(Bar.OpenPrice) m) (f64_mul bar.(Bar.HighPrice) m)
                      (f64_mul bar.(Bar.LowPrice) m) (f64_mul bar.(Bar.ClosePrice) m)
                      (f64_div bar.(Bar.Volume) m) (f64_div bar.(Bar.ContractVolume) m)
                      "rest_forward_adjusted" "guardian_corporate_action_forward_adjustment" bar).

Section guardian.
Context (g : Guardian).

Definition singleExchangeFetcher (exchangeName : string) : option Fetcher :=
  match default [] (g.(Guardian.fetchersByExchange) !! normalizeExchange exchangeName) with
  | [f] => Some f
  | _ => None
  end.

Definition fetcherFor (exchangeName marketType : string) : option Fetcher :=
  let exchangeName := normalizeExchange exchangeName in
  let marketType := normalizeMarketType marketType in
  match g.(Guardian.fetchersByMarket) !! fetcherKey exchangeName marketType with
  | Some f => Some f
  | None => singleExchangeFetcher exchangeName
  end.

Definition fetcherForSymbol (exchangeName symbol : string) : gprog (result go_error (option Fetcher)) :=
  let exchangeName := normalizeExchange exchangeName in
  let symbol := normalizeSymbol symbol in
  symbols <- trigger (ListSymbols exchangeName) ;;
  Ret (match symbols with
       | Err e => Err e
       | Ok symbols =>
           match List.find (fun info => bool_decide (normalizeSymbol info.(SymbolInfo.Symbol) = symbol)) symbols with
           | Some info => Ok (fetcherFor info.(SymbolInfo.Exchange) info.(SymbolInfo.MarketType))
           | None => Ok (singleExchangeFetcher exchangeName)
           end
       end).

(** [fetchKlines]: the request waits for a slot of its exchange, and gives it
    back whatever the fetcher answers. *)
Definition fetchKlines (ctx : Ctx) (fetcher : Fetcher) (request : KlineRequest)
    : gprog (result go_error (list Bar)) :=
  let exchangeName := normalizeExchange fetcher.(Fetcher.Name) in
  if bool_decide (exchangeName ∈ g.(Guardian.requestSlots)) then
    err <- trigger (AcquireSlot exchangeName) ;;
    match err with
    | Some e => Ret (Err e)
    | None =>
        bars <- trigger (FetchKlines (Ctx.for_exchange exchangeName ctx) fetcher request) ;;
        _ <- trigger (ReleaseSlot exchangeName) ;;
        Ret bars
    end
  else trigger (FetchKlines (Ctx.for_exchange exchangeName ctx) fetcher request).

Definition applyCorporateActionFactors (exchangeName symbol : string) (bars : list Bar)
    : gprog (result go_error (list Bar)) :=
  if negb (bool_decide (normalizeExchange exchangeName = "binance")) || negb g.(Guardian.factorStore)
  then Ret (Ok bars)
  else
    factors <- trigger (ListCorporateActionFactors exchangeName symbol) ;;
    Ret (match factors with
         | Err e => Err e
         | Ok factors => Ok (map (apply_factors factors) bars)
         end).

Definition insertEvents (events : list RepairEvent) : gprog (option go_error) :=
  match events with
  | [] => Ret None
  | _ =>
      err <- trigger (InsertKlineGuardianEvents events) ;;
      match err with
      | Some e => Ret (Some e)
      | None =>
          if g.(Guardian.cfg).(Config.Observer)
          then _ <- pmap (fun event => trigger (GuardianEvent event)) events ;; Ret None
          else Ret None
      end
  end.

Definition new_state (ex symbol tf : string) : KlineGuardianState :=
  KlineGuardianState.mk ex symbol tf 0 0 0 0 0 0 0 "" 0.

(** The range of [request] does not cover the range recorded in [state]. *)
Definition not_covering (request : RepairRequest) (state : KlineGuardianState) : bool :=
  (state.(KlineGuardianState.LastCheckedStartMS) <? request.(RepairRequest.StartMS))
  || (request.(RepairRequest.EndMS) <? state.(KlineGuardianState.LastCheckedEndMS)).

Definition checked_state (request : RepairRequest) (status : string) (nowMS : Z) (s : KlineGuardianState)
    : KlineGuardianState :=
  {| KlineGuardianState.Exchange := s.(KlineGuardianState.Exchange);
     KlineGuardianState.Symbol := s.(KlineGuardianState.Symbol);
     KlineGuardianState.Timeframe := s.(KlineGuardianState.Timeframe);
     KlineGuardianState.LastFinalStartMS := s.(KlineGuardianState.LastFinalStartMS);
     KlineGuardianState.LastFinalRecvMS := s.(KlineGuardianState.LastFinalRecvMS);
     KlineGuardianState.LastCheckedStartMS := request.(RepairRequest.StartMS);
     KlineGuardianState.LastCheckedEndMS := request.(RepairRequest.EndMS);
     KlineGuardianState.LastCheckedAtMS := nowMS;
     KlineGuardianState.LastGapStartMS := s.(KlineGuardianState.LastGapStartMS);
     KlineGuardianState.LastGapEndMS := s.(KlineGuardianState.LastGapEndMS);
     KlineGuardianState.Status := status;
     KlineGuardianState.UpdatedAtMS := nowMS |}.

(** [upsertTimeframeAuditState].  The two tests of the code, for a new status
    that is not retryable and for one that is, keep the old state alike. *)
Definition upsertTimeframeAuditState (request : RepairRequest) (status : string) : gprog (option go_error) :=
  loaded <- trigger (LoadKlineGuardianState request.(RepairRequest.Exchange) request.(RepairRequest.Symbol)
                       request.(RepairRequest.Timeframe)) ;;
  match loaded with
  | Err e => Ret (Some e)
  | Ok loaded =>
      let state := default (new_state request.(RepairRequest.Exchange) request.(RepairRequest.Symbol)
                              request.(RepairRequest.Timeframe)) loaded in
      if isRetryableDailyStatus state.(KlineGuardianState.Status) && negb (isRetryableDailyStatus status)
         && not_covering request state then Ret None
      else if isRetryableDailyStatus state.(KlineGuardianState.Status) && isRetryableDailyStatus status
              && not_covering request state then Ret None
      else
        now <- trigger Now ;;
        trigger (UpsertKlineGuardianState (checked_state request status now state))
  end.

Definition failure_event (request : RepairRequest) (status : string) (err : go_error) (nowMS : Z) : RepairEvent :=
  RepairEvent.mk request.(RepairRequest.Exchange) request.(RepairRequest.Symbol) request.(RepairRequest.Timeframe)
    request.(RepairRequest.StartMS) request.(RepairRequest.EndMS) status JNone (JError err) nowMS.

Definition recordRepairFailure (request : RepairRequest) (status : string) (err : go_error) : gprog unit :=
  now <- trigger Now ;;
  _ <- insertEvents [failure_event request status err now] ;;
  let status := if request.(RepairRequest.ForceReplay) then "repair_error" else status in
  _ <- upsertTimeframeAuditState request status ;;
  Ret tt.

(** [diffTimeframeBars]: an event for each official candle that is missing or
    differs; the clock is read for each. *)
Definition diff_event (request : RepairRequest) (loc : option Bar) (official : Bar) (nowMS : Z) : RepairEvent :=
  RepairEvent.mk request.(RepairRequest.Exchange) request.(RepairRequest.Symbol) request.(RepairRequest.Timeframe)
    official.(Bar.StartMS) official.(Bar.EndMS)
    (if loc then "mismatch_repair" else "missing_repair")
    (match loc with Some bar => JBar (DecorateBar bar) | None => JNone end)
    (JBar (DecorateBar official)) nowMS.

(** The official candle has a stored one that agrees with it. *)
Definition agrees (tolerance : float64) (loc : option Bar) (official : Bar) : bool :=
  match loc with Some bar => negb (barsDiffer bar official tolerance) | None => false end.

Definition diffTimeframeBars (request : RepairRequest) (official loc : list Bar) : gprog RepairResult :=
  let localByStart := by_start loc in
  pfold (fun result officialBar =>
    let localBar := localByStart !! officialBar.(Bar.StartMS) in
    if agrees g.(Guardian.cfg).(Config.FloatTolerance) localBar officialBar then Ret result
    else
      now <- trigger Now ;;
      Ret (RepairResult.mk result.(RepairResult.Checked) (result.(RepairResult.Repaired) + 1)
             (result.(RepairResult.Events) ++ [diff_event request localBar officialBar now])))
    (RepairResult.mk (Z.of_nat (length official)) 0 []) official.

(** [noTradeDayEvents]: the days in order. *)
Definition noTradeDayEvents (request : RepairRequest) (days : gset Z) : gprog (list RepairEvent) :=
  pmap (fun start =>
    now <- trigger Now ;;
    Ret (RepairEvent.mk request.(RepairRequest.Exchange) request.(RepairRequest.Symbol) "1D" start
           (EndMS start F1D) "confirmed_no_trades" JNone JNoTradeEvidence now))
    (sort_by id (elements days)).

(** The program goes no further: a loop that does not end, or a panic. *)
Definition diverge {A} : gprog A := Vis Diverge (λ never : Empty_set, match never with end).

(** ** Days without trades (daily_coverage.go) *)

Definition maxNoTradeDayChecksPerRange : Z := 7.

Definition has_activity (bar : Bar) : bool := negb (zeroTradeActivity bar) || negb (validOfficialOHLC bar).

(** The hours of [day], whatever their values. *)
Definition hour_request (request : RepairRequest) (day : Z) : RepairRequest :=
  RepairRequest.mk request.(RepairRequest.Exchange) request.(RepairRequest.Symbol) "1H" day
    (i64 (EndMS day F1D - HourMS + 1)) "" false 0 false.

Definition hour_kline_request (request : RepairRequest) (day : Z) : KlineRequest :=
  KlineRequest.mk request.(RepairRequest.Symbol) "1H" day (i64 (EndMS day F1D - HourMS + 1)) 24
    (guardianAdjustment request.(RepairRequest.Exchange)) 0.

(** 24 accepted hours without activity, one after the other from [day]. *)
Definition complete_zero_day (request : RepairRequest) (day nowMS : Z) (hours : list Bar) : bool :=
  let '(valid, rejected) := filterOfficialBars hours (hour_request request day) F1H nowMS in
  if negb (rejected =? 0) || negb (Z.of_nat (length valid) =? 24) then false
  else forallb (fun '(i, bar) => (bar.(Bar.StartMS) =? i64 (day + Z.of_nat i * HourMS)) && zeroTradeActivity bar)
               (imap pair valid).

(** One round of the loop of [confirmNoTradeDays]: the days checked so far and
    the days confirmed. *)
Definition no_trade_day (ctx : Ctx) (fetcher : Fetcher) (request : RepairRequest) (officialDays : gset Z)
    (localDays : gmap Z Bar) (st : Z * gset Z) (day : Z) : gprog (result go_error (Z * gset Z)) :=
  let '(checked, confirmed) := st in
  if maxNoTradeDayChecksPerRange <=? checked then Ret (Ok st)
  else if bool_decide (day ∈ officialDays) then Ret (Ok st)
  else if from_option has_activity false (localDays !! day) then Ret (Ok st)
  else
    localHours <- trigger (BarsInRange request.(RepairRequest.Exchange) request.(RepairRequest.Symbol) "1H" day
                             (EndMS day F1D)) ;;
    match localHours with
    | Err e => Ret (Err (Wrapf "read local hourly no-trade evidence: %w" e))
    | Ok localHours =>
        if existsb has_activity localHours then Ret (Ok st)
        else
          hours <- fetchKlines ctx fetcher (hour_kline_request request day) ;;
          match hours with
          | Err e => Ret (Err (Wrapf "fetch official hourly no-trade evidence for %s:%s day=%d: %w" e))
          | Ok hours =>
              if negb (Z.of_nat (length hours) =? 24) then Ret (Ok (checked + 1, confirmed))
              else
                now <- trigger Now ;;
                Ret (Ok (checked + 1,
                         if complete_zero_day request day now hours then {[day]} ∪ confirmed else confirmed))
          end
    end.

(** [confirmNoTradeDays]; [days] are the days of the range. *)
Definition confirmNoTradeDays (ctx : Ctx) (fetcher : Fetcher) (request : RepairRequest) (days : list Z)
    (official loc : list Bar) : gprog (result go_error (gset Z)) :=
  st <- pfold_ok (no_trade_day ctx fetcher request (starts_of official) (by_start loc)) (0, ∅) days ;;
  Ret (match st with Err e => Err e | Ok (_, confirmed) => Ok confirmed end).

(** ** Repairing a range (repair.go) *)

(** [for i := range key]: the bytes at which the runes of [key] start. *)
Fixpoint rune_heads (fuel : nat) (bs : list Z) : list Z :=
  match fuel, bs with
  | S fuel', b0 :: rest => b0 :: rune_heads fuel' (snd (decode_rune b0 rest))
  | _, _ => []
  end.

(** [minuteLock]: the shard of a symbol, an FNV-1a hash of 32 bits. *)
Definition minuteLock (exchange symbol : string) : Z :=
  let bytes := string_bytes (minuteSymbolKey exchange symbol) in
  foldl (fun hash b => (Z.lxor hash b * 16777619) mod 4294967296) 2166136261 (rune_heads (length bytes) bytes)
  mod 128.

(** The first start that has neither an official candle nor a confirmed day. *)
Definition first_missing (starts : list Z) (official : list Bar) (noTradeDays : gset Z) : option Z :=
  List.find (fun cursor => negb (bool_decide (cursor ∈ noTradeDays))
                           && negb (existsb (fun bar => bar.(Bar.StartMS) =? cursor) official)) starts.

(** A stored candle that is neither among the official ones nor on such a day. *)
Definition unmatched (official loc : list Bar) (noTradeDays : gset Z) : bool :=
  existsb (fun bar => negb (bool_decide (bar.(Bar.StartMS) ∈ starts_of official))
                      && negb (bool_decide (bar.(Bar.StartMS) ∈ noTradeDays))) loc.

(** The loop that marks the official candles and picks those to repair. *)
Definition mark_official (request : RepairRequest) (nowMS : Z) (bar : Bar) : Bar :=
  DecorateBar (Bar.set_UpdatedAtMS nowMS
    (Bar.set_Reason ("guardian_" ++ request.(RepairRequest.Reason))%string (Bar.set_Source "rest" bar))).

Definition mark_bars (request : RepairRequest) (changed : gset Z) (official : list Bar)
    : gprog (list Bar * list Bar) :=
  marked <- pmap (fun bar => now <- trigger Now ;; Ret (mark_official request now bar)) official ;;
  Ret (marked, List.filter (fun bar => bool_decide (bar.(Bar.StartMS) ∈ changed)
                                       || request.(RepairRequest.ForceReplay)) marked).

(** The writes: a failure is recorded before it is returned. *)
Definition or_record (stateRequest : RepairRequest) (p : gprog (option go_error)) (next : gprog (option go_error))
    : gprog (option go_error) :=
  err <- p ;;
  match err with
  | Some e => _ <- recordRepairFailure stateRequest "repair_error" e ;; Ret (Some e)
  | None => next
  end.

Definition write_repairs (stateRequest request : RepairRequest) (tf : Frame) (verifiedAtMS : Z)
    (official toRepair : list Bar) : gprog (option go_error) :=
  if bool_decide (tf = F1m) && g.(Guardian.verifier) then
    or_record stateRequest (trigger (VerifyFinalBars official verifiedAtMS))
      (if request.(RepairRequest.ForceReplay) && g.(Guardian.rollupRepairer)
       then or_record stateRequest (trigger (RepairRollups official)) (Ret None)
       else Ret None)
  else
    match toRepair with
    | [] => Ret None
    | _ => or_record stateRequest (trigger (RepairFinalBars toRepair)) (Ret None)
    end.

(** [if err != nil { return result, err }]. *)
Definition or_return {A} (result : A) (p : gprog (option go_error)) (next : gprog (A * option go_error))
    : gprog (A * option go_error) :=
  err <- p ;;
  match err with Some e => Ret (result, Some e) | None => next end.

Definition audit_status (request : RepairRequest) (result : RepairResult) (official : list Bar)
    (noTradeDays : gset Z) (unchecked : bool) : string :=
  let replayed := (0 <? result.(RepairResult.Repaired)) || request.(RepairRequest.ForceReplay) in
  if unchecked then "unchecked"
  else if negb (bool_decide (noTradeDays = ∅))
          && ((Z.of_nat (length official) =? 0)
              || ((result.(RepairResult.Repaired) =? 0) && negb request.(RepairRequest.ForceReplay)))
  then "confirmed_no_trades"
  else if replayed then "repaired" else "ok".

(** The end of [repairTimeframeRange], from the comparison on. *)
Definition repair_compared (stateRequest request : RepairRequest) (tf : Frame) (verifiedAtMS : Z)
    (official loc : list Bar) (noTradeDays : gset Z) (responseErr : option go_error) (unchecked : bool)
    : gprog (RepairResult * option go_error) :=
  diff <- diffTimeframeBars request official loc ;;
  dayEvents <- noTradeDayEvents request noTradeDays ;;
  let result := RepairResult.add_events dayEvents diff in
  let changed := list_to_set (RepairEvent.StartMS <$> result.(RepairResult.Events)) : gset Z in
  '(official, toRepair) <- mark_bars request changed official ;;
  or_return result (write_repairs stateRequest request tf verifiedAtMS official toRepair)
  (or_return result (insertEvents result.(RepairResult.Events))
  match responseErr with
  | Some e => _ <- recordRepairFailure stateRequest "incomplete_response" e ;; Ret (result, Some e)
  | None =>
      or_return result
        (if bool_decide (tf = F1D) && negb (Z.of_nat (length official) =? 0) && g.(Guardian.rollupRepairer)
         then or_record stateRequest (trigger (RepairRollups official)) (Ret None) else Ret None)
      (or_return result
        (upsertTimeframeAuditState stateRequest (audit_status request result official noTradeDays unchecked))
      (Ret (result,
            if unchecked
            then Some (Errorf "unchecked official %s range for %s:%s: missing candle keys without a confirmed listing or non-trading boundary")
            else None)))
  end).

Definition invalid_response : go_error :=
  Errorf "invalid official %s response for %s:%s: accepted=%d rejected=%d".
Definition empty_1D_response : go_error :=
  Errorf "empty official 1D response for %s:%s without confirmed non-trading evidence".
Definition empty_response : go_error := Errorf "empty official %s response for %s:%s with existing or expected data".
Definition incomplete_response : go_error := Errorf "incomplete official %s response for %s:%s: missing start_ms=%d".
Definition missing_existing : go_error :=
  Errorf "incomplete official %s response for %s:%s: missing existing start_ms=%d".

(** Nothing official and no confirmed day. *)
Definition repair_empty (stateRequest request : RepairRequest) (tf : Frame) (loc : list Bar)
    (responseErr : option go_error) : gprog (RepairResult * option go_error) :=
  if bool_decide (tf = F1D) then
    let e := default empty_1D_response responseErr in
    _ <- recordRepairFailure stateRequest "empty_response" e ;;
    Ret (RepairResult.zero, Some e)
  else if (0 <? Z.of_nat (length loc)) || request.(RepairRequest.ExpectData) || request.(RepairRequest.ForceReplay)
          || bool_decide (is_Some responseErr) then
    let e := default empty_response responseErr in
    _ <- recordRepairFailure stateRequest "empty_response" e ;;
    Ret (RepairResult.zero, Some e)
  else
    or_return RepairResult.zero (upsertTimeframeAuditState stateRequest "no_data")
      (Ret (RepairResult.zero,
            if bool_decide (tf = F1m)
            then Some (Errorf "unchecked official 1m range for %s:%s: empty response without a confirmed non-trading interval")
            else None)).

(** The starts an official answer must cover. *)
Definition expects_all (request : RepairRequest) (tf : Frame) : bool :=
  request.(RepairRequest.ExpectData) || (bool_decide (tf = F1D) && (0 <? request.(RepairRequest.ExpectedStartMS))).
Definition expected_from (request : RepairRequest) (tf : Frame) : Z :=
  if request.(RepairRequest.StartMS) <? request.(RepairRequest.ExpectedStartMS)
  then FloorStartMS request.(RepairRequest.ExpectedStartMS) tf else request.(RepairRequest.StartMS).

(** The two tests on what the answer covers: the error they leave, and whether
    the range stays unchecked.  [starts] are the starts of the range. *)
Definition coverage_error (request : RepairRequest) (tf : Frame) (official loc : list Bar) (noTradeDays : gset Z)
    (responseErr : option go_error) : option (option go_error) :=
  match (if expects_all request tf
         then match starts_between tf (expected_from request tf) request.(RepairRequest.EndMS) with
              | Some expected => Some (if first_missing expected official noTradeDays
                                       then Some incomplete_response else responseErr)
              | None => None
              end
         else Some responseErr) with
  | Some responseErr => Some (if unmatched official loc noTradeDays then Some missing_existing else responseErr)
  | None => None
  end.

Definition range_unchecked (request : RepairRequest) (starts : list Z) (official : list Bar) (noTradeDays : gset Z)
    : bool :=
  if negb request.(RepairRequest.ExpectData) && (request.(RepairRequest.ExpectedStartMS) =? 0)
  then bool_decide (is_Some (first_missing starts official noTradeDays)) else false.

(** [repairTimeframeRange] from the official answer on: [official] is what the
    exchange sent, with the corporate actions applied. *)
Definition repair_official (ctx : Ctx) (fetcher : Fetcher) (stateRequest request : RepairRequest) (tf : Frame)
    (starts : list Z) (verifiedAtMS : Z) (official : list Bar) : gprog (RepairResult * option go_error) :=
  loc <- trigger (BarsInRange request.(RepairRequest.Exchange) request.(RepairRequest.Symbol) (frame_name tf)
                    request.(RepairRequest.StartMS) request.(RepairRequest.EndMS)) ;;
  match loc with
  | Err e => Ret (RepairResult.zero, Some e)
  | Ok loc =>
      now <- trigger Now ;;
      let '(valid, rejected) := filterOfficialBars official request tf now in
      let responseErr :=
        if (0 <? rejected) || ((0 <? Z.of_nat (length official)) && (Z.of_nat (length valid) =? 0))
        then Some invalid_response else None in
      noTradeDays <- (if bool_decide (tf = F1D) && negb (bool_decide (is_Some responseErr))
                      then confirmNoTradeDays ctx fetcher request starts valid loc
                      else Ret (Ok ∅)) ;;
      match noTradeDays with
      | Err e => _ <- recordRepairFailure stateRequest "rest_error" e ;; Ret (RepairResult.zero, Some e)
      | Ok noTradeDays =>
          if (Z.of_nat (length valid) =? 0) && bool_decide (noTradeDays = ∅)
          then repair_empty stateRequest request tf loc responseErr
          else
            match coverage_error request tf valid loc noTradeDays responseErr with
            | None => diverge
            | Some responseErr =>
                repair_compared stateRequest request tf verifiedAtMS valid loc noTradeDays responseErr
                  (range_unchecked request starts valid noTradeDays)
            end
      end
  end.

(** From the clipped request on: the official candles are fetched. *)
Definition repair_fetch (ctx : Ctx) (fetcher : Fetcher) (stateRequest request : RepairRequest) (tf : Frame)
    : gprog (RepairResult * option go_error) :=
  match starts_between tf request.(RepairRequest.StartMS) request.(RepairRequest.EndMS) with
  | None => diverge
  | Some starts =>
      verifiedAtMS <- trigger Now ;;
      official <- fetchKlines ctx fetcher
        (KlineRequest.mk request.(RepairRequest.Symbol) (frame_name tf) request.(RepairRequest.StartMS)
           request.(RepairRequest.EndMS) (Z.of_nat (length starts))
           (guardianAdjustment request.(RepairRequest.Exchange)) 0) ;;
      official <- (match official with
                   | Err e => Ret (Err e)
                   | Ok bars => applyCorporateActionFactors request.(RepairRequest.Exchange)
                                  request.(RepairRequest.Symbol) bars
                   end) ;;
      match official with
      | Err e => _ <- recordRepairFailure stateRequest "rest_error" e ;; Ret (RepairResult.zero, Some e)
      | Ok official => repair_official ctx fetcher stateRequest request tf starts verifiedAtMS official
      end
  end.

(** The retry of a failed write covers the recorded range. *)
Definition replays (request : RepairRequest) (state : option KlineGuardianState) : bool :=
  match state with
  | Some s => bool_decide (s.(KlineGuardianState.Status) = "repair_error")
              && (request.(RepairRequest.StartMS) <=? s.(KlineGuardianState.LastCheckedEndMS))
              && (s.(KlineGuardianState.LastCheckedStartMS) <=? request.(RepairRequest.EndMS))
  | None => false
  end.

(** The body under the lock; [request] has its names normalised. *)
Definition repair_locked (ctx : Ctx) (fetcher : Fetcher) (request : RepairRequest) (tf : Frame)
    : gprog (RepairResult * option go_error) :=
  let request := RepairRequest.set_range (FloorStartMS request.(RepairRequest.StartMS) tf)
                   (FloorStartMS request.(RepairRequest.EndMS) tf) request in
  if request.(RepairRequest.EndMS) <? request.(RepairRequest.StartMS) then Ret (RepairResult.zero, None)
  else
    state <- trigger (LoadKlineGuardianState request.(RepairRequest.Exchange) request.(RepairRequest.Symbol)
                        (frame_name tf)) ;;
    match state with
    | Err e => Ret (RepairResult.zero, Some e)
    | Ok state =>
        let request := if replays request state then RepairRequest.set_force true request else request in
        let stateRequest := request in
        let listingDay := FloorStartMS request.(RepairRequest.ExpectedStartMS) tf in
        if bool_decide (tf = F1D) && (0 <? request.(RepairRequest.ExpectedStartMS))
           && (request.(RepairRequest.EndMS) <? listingDay)
        then or_return RepairResult.zero (upsertTimeframeAuditState stateRequest "not_listed")
               (Ret (RepairResult.zero, None))
        else
          let request :=
            if bool_decide (tf = F1D) && (0 <? request.(RepairRequest.ExpectedStartMS))
               && (request.(RepairRequest.StartMS) <? listingDay)
            then RepairRequest.set_range listingDay request.(RepairRequest.EndMS) request else request in
          repair_fetch ctx fetcher stateRequest request tf
    end.

(** [if err := ctx.Err(); err != nil { return err }]. *)
Definition unless_cancelled (next : gprog (RepairResult * option go_error)) : gprog (RepairResult * option go_error) :=
  or_return RepairResult.zero (trigger CtxErr) next.

(** [lock.Lock()], [defer lock.Unlock()]. *)
Definition with_lock {A} (shard : Z) (body : gprog A) : gprog A :=
  _ <- trigger (Lock shard) ;;
  r <- body ;;
  _ <- trigger (Unlock shard) ;;
  Ret r.

Definition normalize_request (request : RepairRequest) (tf : Frame) : RepairRequest :=
  let 'RepairRequest.mk ex symbol _ startMS endMS reason expect expected force := request in
  RepairRequest.mk (normalizeExchange ex) (normalizeSymbol symbol) (frame_name tf) startMS endMS reason expect
    expected force.

Definition repairTimeframeRange (ctx : Ctx) (fetcher : Fetcher) (request : RepairRequest)
    : gprog (RepairResult * option go_error) :=
  match Normalize request.(RepairRequest.Timeframe) with
  | Err _ => Ret (RepairResult.zero, Some (Errorf "unsupported timeframe: %s"))
  | Ok tf =>
      let request := normalize_request request tf in
      let ex := request.(RepairRequest.Exchange) in let symbol := request.(RepairRequest.Symbol) in
      if bool_decide (tf = F1m) then
        if bool_decide (ctx.(Ctx.heldKey) = Some (minuteSymbolKey ex symbol))
        then unless_cancelled (repair_locked ctx fetcher request tf)
        else with_lock (minuteLock ex symbol) (unless_cancelled (repair_locked ctx fetcher request tf))
      else repair_locked ctx fetcher request tf
  end.

(** [retryFailedRepair]. *)
Definition retryFailedRepair (ctx : Ctx) (fetcher : Fetcher) (exchangeName symbol tf : string)
    : gprog (RepairResult * option go_error) :=
  if bool_decide (tf = "1m") && g.(Guardian.taskStore) then Ret (RepairResult.zero, None)
  else
    state <- trigger (LoadKlineGuardianState exchangeName symbol tf) ;;
    match state with
    | Err e => Ret (RepairResult.zero, Some e)
    | Ok None => Ret (RepairResult.zero, None)
    | Ok (Some s) =>
        if negb (bool_decide (s.(KlineGuardianState.Status) = "repair_error")) then Ret (RepairResult.zero, None)
        else repairTimeframeRange ctx fetcher
               (RepairRequest.mk exchangeName symbol tf s.(KlineGuardianState.LastCheckedStartMS)
                  s.(KlineGuardianState.LastCheckedEndMS) "rollup_retry" true 0 true)
    end.
End guardian.
