(* ===== verification/GuardianSpec.v ===== *)
(** * What a repair certifies (internal/guardian/repair.go, daily_coverage.go)

    The theorems on [repairTimeframeRange]: what a run that returns no error has
    checked and written (repair_certifies), that a recorded failure is only
    replaced by a check of its whole range (retryable_kept), that a failed
    repair leaves a record, and that locks and request slots are given back. *)

From S2P Require Export Guardian.

Local Open Scope string_scope.
Local Open Scope Z_scope.
Local Open Scope list_scope.

(** ** The accepted official candles *)

Definition named_as (request : RepairRequest) (bar : Bar) : Bar :=
  Bar.set_Symbol request.(RepairRequest.Symbol) (Bar.set_Exchange request.(RepairRequest.Exchange) bar).

Lemma named_as_StartMS request bar : (named_as request bar).(Bar.StartMS) = bar.(Bar.StartMS).
Proof. by destruct bar. Qed.

(** What the loop over the official candles has built. *)
Definition accepted_of (request : RepairRequest) (tf : Frame) (now : Z) (bars : list Bar)
    (st : gmap Z Bar * Z) : Prop :=
  0 <= st.2 ∧
  (∀ start bar, st.1 !! start = Some bar → ∃ b, b ∈ bars ∧ bar = named_as request b ∧ start = b.(Bar.StartMS) ∧
     outside request b = false ∧ official_rejected request tf now b = false) ∧
  (∀ b, b ∈ bars → outside request b = false → official_rejected request tf now b = false →
     is_Some (st.1 !! b.(Bar.StartMS))) ∧
  (st.2 = 0 → ∀ b, b ∈ bars → outside request b = false → official_rejected request tf now b = false).

Lemma filter_official_spec request tf now bars :
  accepted_of request tf now bars (foldl (filter_official request tf now) (∅, 0) bars).
Proof.
  assert (∀ l1 l2 st, accepted_of request tf now l1 st →
            accepted_of request tf now (l1 ++ l2) (foldl (filter_official request tf now) st l2)) as Hgen.
  { intros l1 l2. revert l1. induction l2 as [|b l2 IH]; intros l1 st H; simpl; [by rewrite app_nil_r|].
    replace (l1 ++ b :: l2) with ((l1 ++ [b]) ++ l2) by (by rewrite <- app_assoc). apply IH.
    destruct st as [m n]. destruct H as (H0 & H1 & H2 & H3). simpl in H0, H1, H2, H3.
    unfold filter_official. destruct (outside request b) eqn:Eo; [|destruct (official_rejected _ _ _ b) eqn:Er].
    - repeat split; simpl; [done| | |]; intros *; rewrite ?elem_of_app, ?list_elem_of_singleton.
      + intros Hm. destruct (H1 _ _ Hm) as (b' & Hin & ?). exists b'. set_solver.
      + intros [Hb| ->]; [by apply H2|congruence].
      + intros Hn b'. rewrite elem_of_app, list_elem_of_singleton. intros [Hb| ->]; [by apply H3|congruence].
    - repeat split; simpl; [lia| | |]; intros *; rewrite ?elem_of_app, ?list_elem_of_singleton.
      + intros Hm. destruct (H1 _ _ Hm) as (b' & Hin & ?). exists b'. set_solver.
      + intros [Hb| ->]; [by apply H2|congruence].
      + lia.
    - fold (named_as request b). rewrite named_as_StartMS.
      repeat split; simpl; [done| | |]; intros *; rewrite ?elem_of_app, ?list_elem_of_singleton.
      + rewrite lookup_insert_Some. intros [[<- <-]|[Hne Hm]].
        * exists b. set_solver.
        * destruct (H1 _ _ Hm) as (b' & Hin & ?). exists b'. set_solver.
      + intros Hb Ho Hr. rewrite lookup_insert_is_Some. destruct (decide (b.(Bar.StartMS) = b0.(Bar.StartMS))); [by left|].
        right. split; [done|]. destruct Hb as [Hb| ->]; [by apply H2|done].
      + intros Hn b'. rewrite elem_of_app, list_elem_of_singleton. intros [Hb| ->]; [by apply H3|done]. }
  apply (Hgen [] bars (∅, 0)). repeat split; simpl; [done| | |]; intros *.
  - by rewrite lookup_empty.
  - by intros ?%elem_of_nil.
  - by intros _ b ?%elem_of_nil.
Qed.

(** The accepted candles: one per start, in order, each from the answer; when
    none was rejected, every candle of the range is among them. *)
Lemma filterOfficialBars_spec bars request tf now valid rejected :
  filterOfficialBars bars request tf now = (valid, rejected) →
  0 <= rejected ∧ key_sorted Bar.StartMS valid ∧
  (∀ bar, bar ∈ valid → ∃ b, b ∈ bars ∧ bar = named_as request b ∧
     outside request b = false ∧ official_rejected request tf now b = false) ∧
  (rejected = 0 → ∀ b, b ∈ bars → outside request b = false →
     official_rejected request tf now b = false ∧ b.(Bar.StartMS) ∈ Bar.StartMS <$> valid).
Proof.
  unfold filterOfficialBars. pose proof (filter_official_spec request tf now bars) as (H0 & H1 & H2 & H3).
  destruct (foldl _ _ _) as [m n]. simpl in H0, H1, H2, H3. intros [= <- <-].
  assert (Hk : ∀ start bar, m !! start = Some bar → bar.(Bar.StartMS) = start).
  { intros start bar Hm. destruct (H1 _ _ Hm) as (b & _ & -> & -> & _). apply named_as_StartMS. }
  split_and!; [done| | |].
  - apply sort_by_sorted. rewrite <- list_fmap_compose.
    replace ((Bar.StartMS ∘ snd) <$> map_to_list m) with (fst <$> map_to_list m); [apply NoDup_fst_map_to_list|].
    apply list_fmap_ext. intros i [start bar] Hi%list_elem_of_lookup_2%elem_of_map_to_list. simpl.
    symmetry. by apply Hk.
  - intros bar. rewrite elem_of_sort_by. intros ([start bar'] & -> & Hm%elem_of_map_to_list)%list_elem_of_fmap.
    destruct (H1 _ _ Hm) as (b & ? & ? & _ & ? & ?). by exists b.
  - intros Hn b Hb Ho. split; [by apply H3|].
    destruct (H2 b Hb Ho (H3 Hn b Hb Ho)) as [bar Hm]. apply list_elem_of_fmap. exists bar.
    split; [symmetry; by apply Hk|]. rewrite elem_of_sort_by. apply list_elem_of_fmap.
    exists (b.(Bar.StartMS), bar). split; [done|by apply elem_of_map_to_list].
Qed.

(** ** Pieces of a repair *)

Lemma by_start_Some bars start bar :
  by_start bars !! start = Some bar → bar ∈ bars ∧ bar.(Bar.StartMS) = start.
Proof.
  unfold by_start.
  assert (∀ l (m : gmap Z Bar), (∀ s b, m !! s = Some b → b ∈ bars ∧ b.(Bar.StartMS) = s) → (∀ b, b ∈ l → b ∈ bars) →
    ∀ s b, foldl (fun m bar => <[bar.(Bar.StartMS) := bar]> m) m l !! s = Some b → b ∈ bars ∧ b.(Bar.StartMS) = s)
    as Hgen; [|apply Hgen; [|done]; intros s b; by rewrite lookup_empty].
  induction l as [|b0 l IH]; simpl; intros m Hm Hl; [done|]. apply IH; [|set_solver].
  intros s b. rewrite lookup_insert_Some. intros [[<- <-]|[_ H]]; [set_solver|by apply Hm].
Qed.

Lemma elem_of_starts_of start bars : start ∈ starts_of bars ↔ ∃ bar, bar ∈ bars ∧ bar.(Bar.StartMS) = start.
Proof. unfold starts_of. rewrite elem_of_list_to_set, list_elem_of_fmap. naive_solver. Qed.

Lemma runs_diverge {A} tr (a : A) : ¬ runs diverge tr a.
Proof. destruct tr as [|c tr]; [by intros H|]. intros ([] & _). Qed.

Section certify.
Context (g : Guardian).
Notation tolerance := g.(Guardian.cfg).(Config.FloatTolerance).

(** The stored candle does not already agree with the official one. *)
Definition differs (loc : list Bar) (official : Bar) : Prop :=
  agrees tolerance (by_start loc !! official.(Bar.StartMS)) official = false.

Lemma diffTimeframeBars_runs request official loc tr result :
  runs (diffTimeframeBars g request official loc) tr result →
  (∀ bar, bar ∈ official → differs loc bar →
     bar.(Bar.StartMS) ∈ RepairEvent.StartMS <$> result.(RepairResult.Events)) ∧
  (∀ event, event ∈ result.(RepairResult.Events) →
     ∃ bar, bar ∈ official ∧ differs loc bar ∧ event.(RepairEvent.StartMS) = bar.(Bar.StartMS)) ∧
  result.(RepairResult.Repaired) = Z.of_nat (length result.(RepairResult.Events)) ∧
  result.(RepairResult.Checked) = Z.of_nat (length official).
Proof.
  unfold diffTimeframeBars.
  set (I := λ (l : list Bar) (_ : list (call guardianE)) (r : RepairResult),
    (∀ bar, bar ∈ l → differs loc bar → bar.(Bar.StartMS) ∈ RepairEvent.StartMS <$> r.(RepairResult.Events)) ∧
    (∀ event, event ∈ r.(RepairResult.Events) →
       ∃ bar, bar ∈ l ∧ differs loc bar ∧ event.(RepairEvent.StartMS) = bar.(Bar.StartMS)) ∧
    r.(RepairResult.Repaired) = Z.of_nat (length r.(RepairResult.Events)) ∧
    r.(RepairResult.Checked) = Z.of_nat (length official)).
  intros H. apply (runs_pfold _ _ _ _ _ I) in H; [done| |]; subst I; cbv beta.
  - split_and!; [| |done|done]; intros ?; simpl; intros ?%elem_of_nil; done.
  - intros l1 bar l2 tr1 r tr2 r' _ (H1 & H2 & H3 & H4) Hr. cbv beta zeta in Hr.
    destruct (agrees _ _ bar) eqn:Ea; repeat run_step.
    + split_and!; [| |done|done].
      * intros b. rewrite elem_of_app, list_elem_of_singleton. intros [Hb| ->] Hd; [by apply H1|].
        unfold differs in Hd. congruence.
      * intros event He. destruct (H2 _ He) as (b & ? & ? & ?). exists b. set_solver.
    + simpl. split_and!; [| |rewrite length_app; simpl; lia|done].
      * intros b. rewrite fmap_app, !elem_of_app, !list_elem_of_singleton. intros [Hb| ->] Hd; [left; by apply H1|right; by apply list_elem_of_singleton].
      * intros event. rewrite elem_of_app, list_elem_of_singleton. intros [He| ->].
        -- destruct (H2 _ He) as (b & ? & ? & ?). exists b. set_solver.
        -- exists bar. split; [set_solver|]. done.
Qed.

(** A marked candle keeps its values. *)
Definition marks (request : RepairRequest) (bar marked : Bar) : Prop :=
  ∃ now, marked = mark_official request now bar.

Lemma marks_StartMS request bar marked : marks request bar marked → marked.(Bar.StartMS) = bar.(Bar.StartMS).
Proof. intros [now ->]. by destruct bar. Qed.

Lemma mark_bars_runs request changed official tr marked toRepair :
  runs (mark_bars request changed official) tr (marked, toRepair) →
  Forall2 (marks request) official marked ∧
  (∀ bar, bar ∈ toRepair ↔ bar ∈ marked ∧ (bar.(Bar.StartMS) ∈ changed ∨ request.(RepairRequest.ForceReplay) = true)).
Proof.
  unfold mark_bars. intros H. repeat run_step. split.
  - eapply runs_pmap; [|eassumption]. intros bar tr b H. cbv beta in H. repeat run_step. by eexists.
  - intros bar. rewrite list_elem_of_In, filter_In, <- list_elem_of_In, orb_true_iff, bool_decide_eq_true. done.
Qed.

Lemma Forall2_marks_elem request official marked bar :
  Forall2 (marks request) official marked → bar ∈ official → ∃ m, m ∈ marked ∧ marks request bar m.
Proof.
  intros HF (i & Hi)%list_elem_of_lookup. destruct (Forall2_lookup_l _ _ _ _ _ HF Hi) as (m & Hm & ?).
  exists m. split; [by eapply list_elem_of_lookup_2|done].
Qed.

(** [bar] was written: a call that took it returned without an error. *)
Definition written (tr : list (call guardianE)) (bar : Bar) : Prop :=
  ∃ bars, bar ∈ bars ∧
    (Call (RepairFinalBars bars) None ∈ tr ∨ ∃ verifiedAtMS, Call (VerifyFinalBars bars verifiedAtMS) None ∈ tr).

Lemma or_record_None stateRequest p next tr :
  runs (or_record g stateRequest p next) tr None →
  ∃ tr1 tr2, tr = tr1 ++ tr2 ∧ runs p tr1 None ∧ runs next tr2 None.
Proof.
  unfold or_record. intros H. apply runs_bind in H as (tr1 & err & tr2 & -> & H1 & H2).
  destruct err as [e|]; [repeat run_step|]. by exists tr1, tr2.
Qed.

Lemma or_return_None {A} (r r' : A) p next tr :
  runs (or_return r p next) tr (r', None) →
  ∃ tr1 tr2, tr = tr1 ++ tr2 ∧ runs p tr1 None ∧ runs next tr2 (r', None).
Proof.
  unfold or_return. intros H. apply runs_bind in H as (tr1 & err & tr2 & -> & H1 & H2).
  destruct err as [e|]; [repeat run_step|]. by exists tr1, tr2.
Qed.

Lemma write_repairs_None stateRequest request tf at_ marked toRepair tr :
  (∀ bar, bar ∈ toRepair → bar ∈ marked) →
  runs (write_repairs g stateRequest request tf at_ marked toRepair) tr None →
  ∀ bar, bar ∈ toRepair → written tr bar.
Proof.
  intros Hsub H bar Hbar. unfold write_repairs in H. destruct (bool_decide (tf = F1m) && _) eqn:E.
  - apply or_record_None in H as (tr1 & tr2 & -> & H1 & H2). repeat run_step.
    exists marked. split; [by apply Hsub|]. right. exists at_. in_trace.
  - destruct toRepair as [|b l]; [by apply elem_of_nil in Hbar|].
    apply or_record_None in H as (tr1 & tr2 & -> & H1 & H2). repeat run_step.
    exists (b :: l). split; [done|]. left. in_trace.
Qed.

(** ** The evidence for a day without trades *)

(** The exchange answered with a final candle without activity for each hour of
    [day]; what is stored of the day and of its hours shows no activity. *)
Record no_trade_evidence (request : RepairRequest) (loc : list Bar) (tr : list (call guardianE)) (day : Z) : Prop := {
  nt_day : ∀ bar, by_start loc !! day = Some bar → has_activity bar = false;
  nt_stored : ∃ stored,
    Call (BarsInRange request.(RepairRequest.Exchange) request.(RepairRequest.Symbol) "1H" day (EndMS day F1D))
         (Ok stored) ∈ tr ∧
    ∀ bar, bar ∈ stored → has_activity bar = false;
  nt_official : ∃ ctx fetcher hours,
    Call (FetchKlines ctx fetcher (hour_kline_request request day)) (Ok hours) ∈ tr ∧ length hours = 24%nat ∧
    ∀ i, 0 <= i < 24 → ∃ bar, bar ∈ hours ∧ bar.(Bar.StartMS) = i64 (day + i * HourMS) ∧
      bar.(Bar.IsFinal) = true ∧ zeroTradeActivity bar = true }.

Lemma no_trade_evidence_mono request loc tr tr' day :
  (∀ c, c ∈ tr → c ∈ tr') → no_trade_evidence request loc tr day → no_trade_evidence request loc tr' day.
Proof.
  intros Hsub [H1 (stored & H2 & H3) (c & f & hours & H4 & H5)].
  constructor; [done|exists stored; auto|exists c, f, hours; auto].
Qed.

Lemma zeroTradeActivity_named request bar : zeroTradeActivity (named_as request bar) = zeroTradeActivity bar.
Proof. by destruct bar. Qed.

Lemma complete_zero_day_spec request day now hours :
  complete_zero_day request day now hours = true →
  ∀ i, 0 <= i < 24 → ∃ bar, bar ∈ hours ∧ bar.(Bar.StartMS) = i64 (day + i * HourMS) ∧
    bar.(Bar.IsFinal) = true ∧ zeroTradeActivity bar = true.
Proof.
  unfold complete_zero_day. destruct (filterOfficialBars _ _ _ _) as [valid rejected] eqn:Ef.
  destruct (filterOfficialBars_spec _ _ _ _ _ _ Ef) as (_ & _ & Hin & _).
  destruct (negb (rejected =? 0) || _) eqn:E; [done|]. zbool. intros Hall i Hi.
  assert (Hlen : (Z.to_nat i < length valid)%nat) by lia.
  apply lookup_lt_is_Some in Hlen as [bar Hbar].
  rewrite forallb_forall in Hall. specialize (Hall (Z.to_nat i, bar)). cbv beta iota in Hall.
  rewrite andb_true_iff in Hall. destruct Hall as [Hs Hz].
  { apply list_elem_of_In, (list_elem_of_lookup_2 _ (Z.to_nat i)). rewrite list_lookup_imap, Hbar. done. }
  apply list_elem_of_lookup_2 in Hbar. destruct (Hin bar Hbar) as (b & Hb & -> & _ & Hr).
  rewrite named_as_StartMS in Hs. rewrite zeroTradeActivity_named in Hz. zbool.
  rewrite Z2Nat.id in Hs by lia. exists b. split_and!; [done|done| |done].
  unfold official_rejected in Hr. zbool. done.
Qed.

Lemma fetchKlines_Ok ctx fetcher request tr bars :
  runs (fetchKlines g ctx fetcher request) tr (Ok bars) →
  ∃ ctx', Call (FetchKlines ctx' fetcher request) (Ok bars) ∈ tr.
Proof.
  unfold fetchKlines. cbv zeta. case_bool; intros H; [|repeat run_step; eexists; in_trace].
  apply runs_bind in H as (tr1 & err & tr2 & -> & H1 & H2). destruct err; [by repeat run_step|].
  repeat run_step. eexists. in_trace.
Qed.

Lemma no_trade_day_runs ctx fetcher request officialDays loc st day tr st' :
  runs (no_trade_day g ctx fetcher request officialDays (by_start loc) st day) tr (Ok st') →
  st'.2 = st.2 ∨ (st'.2 = {[day]} ∪ st.2 ∧ no_trade_evidence request loc tr day).
Proof.
  unfold no_trade_day. destruct st as [checked confirmed].
  destruct (_ <=? checked); [intros H; repeat run_step; by left|].
  destruct (bool_decide _); [intros H; repeat run_step; by left|].
  destruct (from_option has_activity false _) eqn:Eday; [intros H; repeat run_step; by left|].
  intros H. apply runs_bind in H as (tr1 & stored & tr2 & -> & H1 & H).
  destruct stored as [stored|e]; [|by repeat run_step].
  destruct (existsb _ _) eqn:Est; [repeat run_step; by left|].
  apply runs_bind in H as (tr3 & hours & tr4 & -> & H2 & H).
  destruct hours as [hours|e]; [|by repeat run_step].
  destruct (negb _) eqn:El; [repeat run_step; by left|].
  apply runs_bind in H as (tr5 & now & tr6 & -> & H3 & H). apply runs_Ret in H as [-> [= ->]]. simpl.
  destruct (complete_zero_day _ _ _ _) eqn:Ec; [right|by left]. split; [done|].
  repeat run_step. apply fetchKlines_Ok in H2 as (c' & H2). constructor.
  - intros bar Hb. by rewrite Hb in Eday.
  - exists stored. split; [in_trace|]. intros bar Hb. apply not_true_iff_false. intros Ha.
    apply not_true_iff_false in Est. apply Est, existsb_exists. exists bar. by rewrite <- list_elem_of_In.
  - exists c', fetcher, hours. split; [in_trace|]. zbool. split; [lia|]. by eapply complete_zero_day_spec.
Qed.

Lemma confirmNoTradeDays_runs ctx fetcher request days official loc tr confirmed :
  runs (confirmNoTradeDays g ctx fetcher request days official loc) tr (Ok confirmed) →
  ∀ day, day ∈ confirmed → day ∈ days ∧ no_trade_evidence request loc tr day.
Proof.
  unfold confirmNoTradeDays. intros H. apply runs_bind in H as (tr1 & st & tr2 & -> & H & Hr).
  destruct st as [[checked conf]|e]; repeat run_step. rewrite app_nil_r.
  refine (runs_pfold_ok _ _ _ _ _ (λ l tr st, ∀ day, day ∈ st.2 → day ∈ l ∧ no_trade_evidence request loc tr day)
            _ _ H).
  - intros d. simpl. set_solver.
  - intros l1 d l2 tr1' st1 tr2' st2 _ HI Hd. apply no_trade_day_runs in Hd as [->|[-> Hev]].
    + intros d' Hd'. destruct (HI d' Hd') as [? Hev]. split; [set_solver|].
      eapply no_trade_evidence_mono; [|exact Hev]. set_solver.
    + intros d'. rewrite elem_of_union, elem_of_singleton. intros [->|Hd'].
      * split; [set_solver|]. eapply no_trade_evidence_mono; [|exact Hev]. set_solver.
      * destruct (HI d' Hd') as [? Hev']. split; [set_solver|].
        eapply no_trade_evidence_mono; [|exact Hev']. set_solver.
Qed.

(** ** What a repair certifies *)

(** The start from which every candle of the range is accounted for, when the
    request says so or has no listing date. *)
Definition coverage_from (request : RepairRequest) (tf : Frame) : option Z :=
  if expects_all request tf then Some (expected_from request tf)
  else if request.(RepairRequest.ExpectedStartMS) =? 0 then Some request.(RepairRequest.StartMS) else None.

(** [official] is what the exchange answered to the request for the range, after
    the corporate actions. *)
Definition official_answer (request : RepairRequest) (tf : Frame) (tr : list (call guardianE)) (official : list Bar)
    : Prop :=
  ∃ ctx fetcher limit bars,
    Call (FetchKlines ctx fetcher
            (KlineRequest.mk request.(RepairRequest.Symbol) (frame_name tf) request.(RepairRequest.StartMS)
               request.(RepairRequest.EndMS) limit (guardianAdjustment request.(RepairRequest.Exchange)) 0))
         (Ok bars) ∈ tr ∧
    (official = bars ∨
     ∃ factors, Call (ListCorporateActionFactors request.(RepairRequest.Exchange) request.(RepairRequest.Symbol))
                     (Ok factors) ∈ tr ∧ official = map (apply_factors factors) bars).

Record certified (request : RepairRequest) (tf : Frame) (tr : list (call guardianE)) (official valid loc : list Bar)
    (days : gset Z) : Prop := {
  cert_fetched : official_answer request tf tr official;
  cert_stored : Call (BarsInRange request.(RepairRequest.Exchange) request.(RepairRequest.Symbol) (frame_name tf)
                        request.(RepairRequest.StartMS) request.(RepairRequest.EndMS)) (Ok loc) ∈ tr;
  cert_valid : ∃ now, ∀ bar, bar ∈ valid → ∃ b, b ∈ official ∧ bar = named_as request b ∧
    outside request b = false ∧ official_rejected request tf now b = false;
  cert_whole : ∀ b, b ∈ official → outside request b = false → b.(Bar.StartMS) ∈ starts_of valid;
  cert_days : ∀ day, day ∈ days → tf = F1D ∧ no_trade_evidence request loc tr day;
  cert_matched : ∀ bar, bar ∈ loc → bar.(Bar.StartMS) ∈ starts_of valid ∨ bar.(Bar.StartMS) ∈ days;
  cert_covered : ∀ from start, coverage_from request tf = Some from →
    steps tf request.(RepairRequest.EndMS) from start → start ∈ starts_of valid ∨ start ∈ days;
  cert_written : ∀ bar, bar ∈ valid → differs loc bar ∨ request.(RepairRequest.ForceReplay) = true →
    ∃ marked, marks request bar marked ∧ written tr marked }.

Lemma first_missing_None starts official days start :
  first_missing starts official days = None → start ∈ starts → start ∈ starts_of official ∨ start ∈ days.
Proof.
  intros H Hin. pose proof (List.find_none _ _ H start) as Hs. rewrite <- list_elem_of_In in Hs.
  specialize (Hs Hin). simpl in Hs. rewrite andb_false_iff, !negb_false_iff, bool_decide_eq_true in Hs.
  destruct Hs as [Hs|(bar & Hb & He)%existsb_exists]; [by right|left]. apply elem_of_starts_of.
  exists bar. split; [by apply list_elem_of_In|by zbool].
Qed.

Lemma unmatched_false official loc days bar :
  unmatched official loc days = false → bar ∈ loc → bar.(Bar.StartMS) ∈ starts_of official ∨ bar.(Bar.StartMS) ∈ days.
Proof.
  intros H Hb. destruct (decide (bar.(Bar.StartMS) ∈ starts_of official)); [by left|].
  destruct (decide (bar.(Bar.StartMS) ∈ days)); [by right|]. exfalso. apply not_true_iff_false in H.
  apply H, existsb_exists. exists bar. split; [by apply list_elem_of_In|].
  rewrite !bool_decide_eq_false_2 by done. done.
Qed.

Lemma written_app_l tr tr' bar : written tr bar → written (tr' ++ tr) bar.
Proof. intros (bars & ? & H). exists bars. split; [done|]. destruct H as [?|[? ?]]; [left|right; eexists]; in_trace. Qed.

Lemma repair_compared_None stateRequest request tf at_ valid loc days responseErr unchecked tr result :
  runs (repair_compared g stateRequest request tf at_ valid loc days responseErr unchecked) tr (result, None) →
  responseErr = None ∧ unchecked = false ∧
  result.(RepairResult.Checked) = Z.of_nat (length valid) ∧
  (∀ bar, bar ∈ valid → differs loc bar ∨ request.(RepairRequest.ForceReplay) = true →
     ∃ marked, marks request bar marked ∧ written tr marked).
Proof.
  unfold repair_compared. intros H.
  apply runs_bind in H as (tr1 & diff & tr2 & -> & Hdiff & H).
  apply runs_bind in H as (tr3 & dayEvents & tr4 & -> & _ & H). cbv zeta in H.
  apply runs_bind in H as (tr5 & [marked toRepair] & tr6 & -> & Hmark & H).
  apply mark_bars_runs in Hmark as [Hmarks Hto].
  apply diffTimeframeBars_runs in Hdiff as (Hd1 & _ & _ & Hc).
  apply or_return_None in H as (tr7 & tr8 & -> & Hw & H).
  apply or_return_None in H as (tr9 & tr10 & -> & _ & H).
  destruct responseErr as [e|]; [by repeat run_step|].
  apply or_return_None in H as (tr11 & tr12 & -> & _ & H).
  apply or_return_None in H as (tr13 & tr14 & -> & _ & H).
  destruct unchecked; repeat run_step. split_and!; [done|done|done|].
  intros bar Hbar Hneed. destruct (Forall2_marks_elem _ _ _ _ Hmarks Hbar) as (m & Hm & Hmk).
  exists m. split; [done|].
  assert (m ∈ toRepair) as Hin.
  { apply Hto. split; [done|]. destruct Hneed as [Hd| ->]; [left|by right].
    rewrite (marks_StartMS _ _ _ Hmk), elem_of_list_to_set. simpl. rewrite fmap_app. apply elem_of_app. left. auto. }
  assert (Hw' : written tr7 m) by (eapply write_repairs_None; [|exact Hw|done]; intros b Hb; by apply Hto).
  do 3 apply written_app_l. destruct Hw' as (bars & ? & Hb). exists bars. split; [done|].
  destruct Hb as [?|[? ?]]; [left|right; eexists]; in_trace.
Qed.

(** The answers that end without an error although nothing was compared. *)
Lemma repair_empty_None stateRequest request tf loc responseErr tr result :
  runs (repair_empty g stateRequest request tf loc responseErr) tr (result, None) →
  tf ≠ F1D ∧ tf ≠ F1m ∧ request.(RepairRequest.ExpectData) = false ∧ request.(RepairRequest.ForceReplay) = false ∧
  loc = [] ∧ responseErr = None ∧ result = RepairResult.zero.
Proof.
  unfold repair_empty. case_bool; [intros H; by repeat run_step|].
  case_bool; [intros H; by repeat run_step|]. intros H.
  apply or_return_None in H as (tr1 & tr2 & -> & _ & H).
  destruct (bool_decide (tf = F1m)) eqn:Em; [by repeat run_step|]. bprop. repeat run_step. split_and!; try done.
  - destruct loc; [done|]. simpl in *. lia.
  - destruct responseErr; [|done]. exfalso. eauto.
Qed.

(** Nothing was there to compare: the exchange sent no candle of the range, none
    is stored, and none was expected. *)
Record nothing_found (request : RepairRequest) (tf : Frame) (tr : list (call guardianE)) (official : list Bar) : Prop := {
  nf_frame : tf ≠ F1D ∧ tf ≠ F1m;
  nf_expect : request.(RepairRequest.ExpectData) = false;
  nf_fetched : official_answer request tf tr official;
  nf_empty : ∀ b, b ∈ official → outside request b = true;
  nf_stored : Call (BarsInRange request.(RepairRequest.Exchange) request.(RepairRequest.Symbol) (frame_name tf)
                      request.(RepairRequest.StartMS) request.(RepairRequest.EndMS)) (Ok []) ∈ tr }.

Definition repaired (request : RepairRequest) (tf : Frame) (tr : list (call guardianE)) (result : RepairResult) : Prop :=
  (∃ official, nothing_found request tf tr official ∧ result = RepairResult.zero) ∨
  ∃ official valid loc days, certified request tf tr official valid loc days ∧
    result.(RepairResult.Checked) = Z.of_nat (length valid) ∧ (valid ≠ [] ∨ days ≠ ∅).

Lemma coverage_error_None request tf valid loc days responseErr :
  coverage_error request tf valid loc days responseErr = Some None →
  responseErr = None ∧ unmatched valid loc days = false ∧
  (expects_all request tf = true → ∃ expected,
     starts_between tf (expected_from request tf) request.(RepairRequest.EndMS) = Some expected ∧
     first_missing expected valid days = None).
Proof.
  unfold coverage_error. destruct (expects_all _ _).
  - destruct (starts_between _ _ _) as [expected|] eqn:Es; [|done]. destruct (unmatched _ _ _); [done|].
    destruct (first_missing _ _ _) eqn:Ef; [done|]. intros [= ->]. split_and!; try done. intros _. by exists expected.
  - destruct (unmatched _ _ _); [done|]. by intros [= ->].
Qed.

Lemma no_days_runs (b : bool) ctx fetcher request tf starts valid loc tr days :
  runs (if bool_decide (tf = F1D) && b then confirmNoTradeDays g ctx fetcher request starts valid loc
        else Ret (Ok ∅)) tr (Ok days) →
  ∀ day, day ∈ days → tf = F1D ∧ no_trade_evidence request loc tr day.
Proof.
  destruct (bool_decide (tf = F1D) && b) eqn:E; intros H day Hd; [|repeat run_step; set_solver].
  zbool. bprop. split; [done|]. by apply (confirmNoTradeDays_runs _ _ _ _ _ _ _ _ H).
Qed.

Lemma repair_official_None ctx fetcher stateRequest request tf starts at_ official tr0 tr result :
  official_answer request tf tr0 official →
  starts_between tf request.(RepairRequest.StartMS) request.(RepairRequest.EndMS) = Some starts →
  runs (repair_official g ctx fetcher stateRequest request tf starts at_ official) tr (result, None) →
  repaired request tf (tr0 ++ tr) result.
Proof.
  intros Hans Hst H. unfold repair_official in H.
  assert (Hans' : ∀ tr', official_answer request tf (tr0 ++ tr') official).
  { intros tr'. destruct Hans as (c & f & limit & bars & H1 & H2). exists c, f, limit, bars.
    split; [in_trace|]. destruct H2 as [->|(factors & ? & ->)]; [by left|right]. exists factors. split; [in_trace|done]. }
  apply runs_bind in H as (tr1 & loc & tr2 & -> & H1 & H). apply runs_trigger in H1 as ->.
  destruct loc as [loc|e]; [|by repeat run_step].
  apply runs_bind in H as (tr3 & now & tr4 & -> & _ & H).
  destruct (filterOfficialBars _ _ _ _) as [valid rejected] eqn:Ef.
  destruct (filterOfficialBars_spec _ _ _ _ _ _ Ef) as (Hr0 & Hsorted & Hvalid & Hwhole).
  cbv zeta in H. set (responseErr := if (0 <? rejected) || _ then _ else _) in H.
  apply runs_bind in H as (tr5 & days & tr6 & -> & Hdays & H).
  destruct days as [days|e]; [|by repeat run_step].
  pose proof (no_days_runs _ _ _ _ _ _ _ _ _ _ Hdays) as Hd. clear Hdays.
  assert (Hwh : responseErr = None → ∀ b, b ∈ official → outside request b = false → b.(Bar.StartMS) ∈ starts_of valid).
  { intros Hn b Hb Ho. subst responseErr. destruct (0 <? rejected) eqn:Er; [done|]. zbool.
    destruct (Hwhole ltac:(lia) b Hb Ho) as [_ Hin]. unfold starts_of. by apply elem_of_list_to_set. }
  destruct ((Z.of_nat (length valid) =? 0) && bool_decide (days = ∅)) eqn:Ee.
  - left. apply repair_empty_None in H as (H1 & H2 & H3 & _ & -> & Hn & ->). exists official. split; [|done].
    zbool. constructor; [done|done|apply Hans'| |in_trace].
    intros b Hb. apply not_false_iff_true. intros Ho. specialize (Hwh Hn b Hb Ho).
    destruct valid; [|simpl in *; lia]. by apply elem_of_starts_of in Hwh as (? & ?%elem_of_nil & _).
  - right. destruct (coverage_error _ _ _ _ _ _) as [err|] eqn:Ec; [|by apply runs_diverge in H].
    apply repair_compared_None in H as (-> & Hu & Hc & Hw).
    apply coverage_error_None in Ec as (Hn & Hm & Hcov). exists official, valid, loc, days. split_and!; [|done|].
    + constructor; [apply Hans'|in_trace| |by apply Hwh| | | |].
      * exists now. done.
      * intros day Hday. destruct (Hd day Hday) as [-> Hev]. split; [done|].
        eapply no_trade_evidence_mono; [|exact Hev]. intros c ?. in_trace.
      * intros bar Hbar. by eapply unmatched_false.
      * intros from start Hfrom Hsteps. unfold coverage_from in Hfrom.
        destruct (expects_all request tf) eqn:Eall.
        -- simplify_eq. destruct (Hcov eq_refl) as (expected & He & Hf).
           eapply first_missing_None; [exact Hf|]. by apply (walk_spec _ _ _ _ _ _ He).
        -- destruct (request.(RepairRequest.ExpectedStartMS) =? 0) eqn:E0; simplify_eq.
           unfold expects_all in Eall. zbool. unfold range_unchecked in Hu. rewrite E0, Z.eqb_refl in Hu.
           match goal with HH : request.(RepairRequest.ExpectData) = false |- _ => rewrite HH in Hu end.
           simpl in Hu. destruct (first_missing starts valid days) eqn:Ef'; [by apply bool_decide_eq_false in Hu; destruct Hu|].
           eapply first_missing_None; [exact Ef'|]. by apply (walk_spec _ _ _ _ _ _ Hst).
      * intros bar Hbar Hneed. destruct (Hw bar Hbar Hneed) as (m & ? & Hwr). exists m. split; [done|].
        by do 4 apply written_app_l.
    + destruct valid; [|by left]. right. intros ->. simpl in Ee. by rewrite bool_decide_eq_true_2 in Ee.
Qed.

Lemma official_answer_mono request tf tr tr' official :
  (∀ c, c ∈ tr → c ∈ tr') → official_answer request tf tr official → official_answer request tf tr' official.
Proof.
  intros Hsub (c & f & limit & bars & H1 & H2). exists c, f, limit, bars. split; [auto|].
  destruct H2 as [->|(factors & ? & ->)]; [by left|right; eauto].
Qed.

Lemma certified_mono request tf tr tr' official valid loc days :
  (∀ c, c ∈ tr → c ∈ tr') → certified request tf tr official valid loc days →
  certified request tf tr' official valid loc days.
Proof.
  intros Hsub [H1 H2 H3 H4 H5 H6 H7 H8]. constructor; auto.
  - by eapply official_answer_mono.
  - intros day Hd. destruct (H5 day Hd). split; [done|]. by eapply no_trade_evidence_mono.
  - intros bar Hb Hn. destruct (H8 bar Hb Hn) as (m & Hm & bars & Hin & Hw). exists m. split; [done|].
    exists bars. split; [done|]. destruct Hw as [?|[? ?]]; eauto.
Qed.

Lemma repaired_mono request tf tr tr' result :
  (∀ c, c ∈ tr → c ∈ tr') → repaired request tf tr result → repaired request tf tr' result.
Proof.
  intros Hsub [(official & [H1 H2 H3 H4 H5] & ->)|(official & valid & loc & days & Hc & ?)]; [left|right].
  - exists official. split; [|done]. constructor; auto. by eapply official_answer_mono.
  - exists official, valid, loc, days. split; [by eapply certified_mono|done].
Qed.

Lemma repair_fetch_None ctx fetcher stateRequest request tf tr result :
  runs (repair_fetch g ctx fetcher stateRequest request tf) tr (result, None) → repaired request tf tr result.
Proof.
  unfold repair_fetch. destruct (starts_between _ _ _) as [starts|] eqn:Es; [|by intros ?%runs_diverge].
  intros H. apply runs_bind in H as (tr1 & at_ & tr2 & -> & _ & H).
  apply runs_bind in H as (tr3 & bars & tr4 & -> & Hf & H).
  apply runs_bind in H as (tr5 & official & tr6 & -> & Ho & H).
  destruct official as [official|e]; [|by repeat run_step].
  destruct bars as [bars|e]; [|by repeat run_step].
  apply fetchKlines_Ok in Hf as (c & Hf).
  eapply repaired_mono; [|eapply (repair_official_None _ _ _ _ _ _ _ _ (tr3 ++ tr5)); [|done|exact H]].
  { intros call. rewrite !elem_of_app. tauto. }
  exists c, fetcher, (Z.of_nat (length starts)), bars. split; [in_trace|].
  unfold applyCorporateActionFactors in Ho. destruct (negb _ || _); [repeat run_step; by left|].
  apply runs_bind in Ho as (tr7 & factors & tr8 & -> & Hl & Ho). destruct factors as [factors|e]; repeat run_step.
  right. exists factors. split; [in_trace|done].
Qed.

(** The range in whole candles, and without the days before the listing. *)
Definition floored (tf : Frame) (request : RepairRequest) : RepairRequest :=
  RepairRequest.set_range (FloorStartMS request.(RepairRequest.StartMS) tf)
    (FloorStartMS request.(RepairRequest.EndMS) tf) request.
Definition clipped (tf : Frame) (request : RepairRequest) : RepairRequest :=
  let listingDay := FloorStartMS request.(RepairRequest.ExpectedStartMS) tf in
  if bool_decide (tf = F1D) && (0 <? request.(RepairRequest.ExpectedStartMS))
     && (request.(RepairRequest.StartMS) <? listingDay)
  then RepairRequest.set_range listingDay request.(RepairRequest.EndMS) request else request.

Definition before_listing (tf : Frame) (request : RepairRequest) : Prop :=
  tf = F1D ∧ 0 < request.(RepairRequest.ExpectedStartMS) ∧
  request.(RepairRequest.EndMS) < FloorStartMS request.(RepairRequest.ExpectedStartMS) F1D.

(** What a run without an error means; [r] is the request in whole candles. *)
Definition answered (tf : Frame) (r : RepairRequest) (tr : list (call guardianE)) (result : RepairResult) : Prop :=
  r.(RepairRequest.EndMS) < r.(RepairRequest.StartMS) ∨ before_listing tf r ∨
  ∃ state,
    Call (LoadKlineGuardianState r.(RepairRequest.Exchange) r.(RepairRequest.Symbol) (frame_name tf)) (Ok state) ∈ tr ∧
    repaired (clipped tf (RepairRequest.set_force (replays r state || r.(RepairRequest.ForceReplay)) r)) tf tr result.

Lemma set_range_fields s e r :
  (RepairRequest.set_range s e r).(RepairRequest.StartMS) = s ∧ (RepairRequest.set_range s e r).(RepairRequest.EndMS) = e ∧
  (RepairRequest.set_range s e r).(RepairRequest.ExpectedStartMS) = r.(RepairRequest.ExpectedStartMS) ∧
  (RepairRequest.set_range s e r).(RepairRequest.ForceReplay) = r.(RepairRequest.ForceReplay).
Proof. by destruct r. Qed.

Lemma set_force_same r : RepairRequest.set_force r.(RepairRequest.ForceReplay) r = r.
Proof. by destruct r. Qed.

Lemma set_force_fields f r :
  (RepairRequest.set_force f r).(RepairRequest.StartMS) = r.(RepairRequest.StartMS) ∧
  (RepairRequest.set_force f r).(RepairRequest.EndMS) = r.(RepairRequest.EndMS) ∧
  (RepairRequest.set_force f r).(RepairRequest.ExpectedStartMS) = r.(RepairRequest.ExpectedStartMS).
Proof. by destruct r. Qed.

Lemma repair_locked_None ctx fetcher request tf tr result :
  runs (repair_locked g ctx fetcher request tf) tr (result, None) → answered tf (floored tf request) tr result.
Proof.
  unfold repair_locked. fold (floored tf request). set (r := floored tf request). clearbody r. cbv zeta.
  destruct (_ <? _) eqn:Eempty; [zbool; by left|]. intros H. right.
  apply runs_bind in H as (tr1 & state & tr2 & -> & H1 & H). apply runs_trigger in H1 as ->.
  destruct state as [state|e]; [|by repeat run_step].
  replace (if replays r state then RepairRequest.set_force true r else r)
    with (RepairRequest.set_force (replays r state || r.(RepairRequest.ForceReplay)) r) in H
    by (destruct (replays r state); [done|apply set_force_same]).
  set (r' := RepairRequest.set_force _ r) in H. pose proof (set_force_fields (replays r state || r.(RepairRequest.ForceReplay)) r) as (Hs & He & Hx).
  fold r' in Hs, He, Hx.
  destruct (_ && (r'.(RepairRequest.EndMS) <? _)) eqn:El.
  - left. zbool. bprop. subst tf. rewrite Hx, He in *. done.
  - right. exists state. split; [in_trace|]. fold r'. fold (clipped tf r') in H. apply repair_fetch_None in H.
    eapply repaired_mono; [|exact H]. intros c ?. in_trace.
Qed.

Lemma answered_mono tf r tr tr' result :
  (∀ c, c ∈ tr → c ∈ tr') → answered tf r tr result → answered tf r tr' result.
Proof.
  intros Hsub [?|[?|(state & ? & ?)]]; [by left|by right; left|right; right].
  exists state. split; [auto|by eapply repaired_mono].
Qed.

Lemma with_lock_runs {A} shard (body : gprog A) tr a :
  runs (with_lock shard body) tr a → ∃ tr', tr = Call (Lock shard) tt :: tr' ++ [Call (Unlock shard) tt] ∧ runs body tr' a.
Proof.
  unfold with_lock. intros H. apply runs_bind in H as (tr1 & [] & tr2 & -> & H1 & H).
  apply runs_bind in H as (tr3 & r & tr4 & -> & H2 & H). apply runs_bind in H as (tr5 & [] & tr6 & -> & H3 & H).
  repeat run_step. exists tr3. split; [|done]. simpl. by rewrite ?app_nil_r.
Qed.

Lemma unless_cancelled_None p tr result :
  runs (unless_cancelled p) tr (result, None) → ∃ tr', tr = Call CtxErr None :: tr' ∧ runs p tr' (result, None).
Proof.
  intros H. apply or_return_None in H as (tr1 & tr2 & -> & H1 & H2). apply runs_trigger in H1 as ->. by exists tr2.
Qed.
End certify.

(** ** Properties *)

Lemma repair_certifies_spec g ctx fetcher request tf tr result :
  Normalize request.(RepairRequest.Timeframe) = Ok tf →
  runs (repairTimeframeRange g ctx fetcher request) tr (result, None) →
  answered g tf (floored tf (normalize_request request tf)) tr result.
Proof.
  intros Htf. unfold repairTimeframeRange. rewrite Htf. cbv zeta.
  set (r := normalize_request request tf). clearbody r.
  assert (Hc : ∀ tr', runs (unless_cancelled (repair_locked g ctx fetcher r tf)) tr' (result, None) →
            answered g tf (floored tf r) tr' result).
  { intros tr' (tr'' & -> & H)%unless_cancelled_None. apply repair_locked_None in H.
    eapply answered_mono; [|exact H]. intros c ?. in_trace. }
  destruct (bool_decide (tf = F1m)); [|apply repair_locked_None].
  destruct (bool_decide _); [apply Hc|]. intros (tr' & -> & H)%with_lock_runs.
  eapply answered_mono; [|by apply Hc]. intros c ?. in_trace.
Qed.

(** C1: what a repair without an error has established.  When
    [repairTimeframeRange] returns no error, then the range holds no whole
    candle, or lies before the listing day, or the exchange was asked for the
    range and answered, and: nothing at all was found where nothing was
    expected; or every candle the exchange sent for the range is well formed and
    final, every stored candle of the range and every expected start has an
    official candle or is a day for which the exchange confirmed hour by hour
    that nothing was traded, and every official candle that the store lacked or
    that differed (all of them when a failed write is replayed) was handed to
    the repairer, which accepted it.  A repair that was interrupted while
    writing is replayed. *)
Theorem repair_certifies g ctx fetcher request tf tr result :
  Normalize request.(RepairRequest.Timeframe) = Ok tf →
  runs (repairTimeframeRange g ctx fetcher request) tr (result, None) →
  answered g tf (floored tf (normalize_request request tf)) tr result.
Proof. apply repair_certifies_spec. Qed.

(** *** An example: the second of two hours is missing *)

Definition sample_config : Config :=
  Config.mk true false false false 0 0 0 0 true true 0 0 0 0 0 0 0 0 0 0 0 0 f64_zero [] false.
Definition sample_fetcher : Fetcher := Fetcher.mk 0 "okx" "swap".
Definition sample_guardian : Guardian := New true true false true true [Some sample_fetcher] sample_config.

Definition sample_hour (start : Z) (price : Z) : Bar :=
  DecorateBar
    {| Bar.Exchange := "okx"; Bar.Symbol := "BTC"; Bar.MarginType := ""; Bar.Timeframe := "1H"; Bar.StartMS := start;
       Bar.EndMS := start + 3599999; Bar.StartTS := 0; Bar.EndTS := 0; Bar.OpenPrice := f64_of_Z price;
       Bar.HighPrice := f64_of_Z (price + 1); Bar.LowPrice := f64_of_Z price; Bar.ClosePrice := f64_of_Z price;
       Bar.Open := f64_zero; Bar.High := f64_zero; Bar.Low := f64_zero; Bar.Close := f64_zero;
       Bar.PrevClose := f64_zero; Bar.Chg := f64_zero; Bar.Amp := f64_zero; Bar.Volume := f64_of_Z 3;
       Bar.VolumeUnit := ""; Bar.QuoteVolume := f64_zero; Bar.Quote := f64_zero; Bar.QuoteUnit := "";
       Bar.ContractVolume := f64_zero; Bar.TradeCount := 0; Bar.LastTickMS := 0; Bar.IsFinal := true;
       Bar.Source := ""; Bar.Reason := ""; Bar.UpdatedAtMS := 0 |}.

(** The exchange has both hours, the store the first one. *)
Definition sample_answers : handler guardianE unit := fun X e _ =>
  match e in guardianE X return option (X * unit) with
  | Now => Some (10810000, tt)
  | AcquireSlot _ => Some (None, tt)
  | ReleaseSlot _ => Some (tt, tt)
  | BarsInRange _ _ _ _ _ => Some (Ok [sample_hour 3600000 100], tt)
  | LoadKlineGuardianState _ _ _ => Some (Ok None, tt)
  | FetchKlines _ _ _ => Some (Ok [sample_hour 7200000 101; sample_hour 3600000 100], tt)
  | RepairFinalBars _ => Some (None, tt)
  | InsertKlineGuardianEvents _ => Some (None, tt)
  | UpsertKlineGuardianState _ => Some (None, tt)
  | _ => None
  end.
Definition sample_request : RepairRequest := RepairRequest.mk "OKX" "btc" "1H" 3600000 7300000 "check" true 0 false.

Lemma repair_certifies_witness :
  ∃ tr result, runs (repairTimeframeRange sample_guardian Ctx.background sample_fetcher sample_request) tr (result, None) ∧
    result.(RepairResult.Repaired) = 1 ∧
    answered sample_guardian F1H (floored F1H (normalize_request sample_request F1H)) tr result.
Proof.
  destruct (exec sample_answers (repairTimeframeRange sample_guardian Ctx.background sample_fetcher sample_request) tt)
    as [[[tr [result err]] w]|] eqn:E; [|vm_compute in E; discriminate].
  assert (err = None ∧ result.(RepairResult.Repaired) = 1) as [-> Hr].
  { vm_compute in E. injection E as _ <- <- _. split; reflexivity. }
  exists tr, result. pose proof (exec_runs _ _ _ _ _ _ E) as Hruns. split; [exact Hruns|]. split; [exact Hr|].
  exact (repair_certifies sample_guardian Ctx.background sample_fetcher sample_request F1H tr result eq_refl Hruns).
Defined.

(** ** A recorded failure stays until its range is checked again *)

Definition upserted (c : call guardianE) : option KlineGuardianState :=
  match c with Call e _ => match e with UpsertKlineGuardianState s => Some s | _ => None end end.

(** Every state written comes right after the state it replaces was read, and a
    retryable status is only replaced by a check of a range that covers the one
    recorded with it. *)
Definition keeps_failures (tr : list (call guardianE)) : Prop :=
  ∀ pre c post state, tr = pre ++ c :: post → upserted c = Some state →
  ∃ before ex symbol tf loaded now old,
    pre = before ++ [Call (LoadKlineGuardianState ex symbol tf) (Ok loaded); Call Now now] ∧
    old = default (new_state ex symbol tf) loaded ∧
    (isRetryableDailyStatus old.(KlineGuardianState.Status) = true →
       state.(KlineGuardianState.LastCheckedStartMS) <= old.(KlineGuardianState.LastCheckedStartMS) ∧
       old.(KlineGuardianState.LastCheckedEndMS) <= state.(KlineGuardianState.LastCheckedEndMS)) ∧
    state.(KlineGuardianState.LastFinalStartMS) = old.(KlineGuardianState.LastFinalStartMS) ∧
    state.(KlineGuardianState.LastGapStartMS) = old.(KlineGuardianState.LastGapStartMS).

#[export] Instance keeps_failures_trace : TraceProp keeps_failures.
Proof.
  split.
  - intros pre c post state H. by destruct pre.
  - intros tr1 tr2 H1 H2 pre c post state Heq Hc.
    apply app_eq_app in Heq as (l & [[-> E]|[-> E]]).
    + destruct l as [|c' l]; simpl in E.
      * destruct (H2 [] c post state ltac:(done) Hc) as (before & ? & ? & ? & ? & ? & ? & Hn & _).
        by destruct before.
      * injection E as <- ->. by apply (H1 pre c l state).
    + destruct (H2 l c post state E Hc) as (before & ex & symbol & tf & loaded & now & old & -> & ?).
      exists (tr1 ++ before), ex, symbol, tf, loaded, now, old. split; [by rewrite <- app_assoc|done].
Qed.

Lemma each_no_upsert {X} (e : guardianE X) :
  (∀ x, upserted (Call e x) = None) → each keeps_failures (trigger e).
Proof.
  intros He. apply each_trigger. intros x pre c post state Heq Hc.
  destruct pre as [|c' pre]; [|by destruct pre]. injection Heq as <- _. by rewrite He in Hc.
Qed.
#[export] Hint Extern 2 (each keeps_failures (trigger _)) => apply each_no_upsert; intros; reflexivity : each.

Lemma upsert_keeps_failures request status : each keeps_failures (upsertTimeframeAuditState request status).
Proof.
  intros tr err H pre c post state Heq Hc. unfold upsertTimeframeAuditState in H.
  apply runs_bind in H as (tr1 & loaded & tr2 & -> & H1 & H). apply runs_trigger in H1 as ->.
  destruct loaded as [loaded|e]; [|run_step; destruct pre as [|? [|]]; simplify_eq/=; done].
  cbv zeta in H. set (old := default _ loaded) in H.
  destruct (isRetryableDailyStatus old.(KlineGuardianState.Status) && _ && _) eqn:E1;
    [run_step; destruct pre as [|? [|]]; simplify_eq/=; done|].
  destruct (isRetryableDailyStatus old.(KlineGuardianState.Status) && isRetryableDailyStatus status && _) eqn:E2;
    [run_step; destruct pre as [|? [|]]; simplify_eq/=; done|].
  apply runs_bind in H as (tr3 & now & tr4 & -> & H2 & H3). apply runs_trigger in H2 as ->. apply runs_trigger in H3 as ->.
  destruct pre as [|c1 [|c2 [|c3 pre]]]; simplify_eq/=; [|by destruct pre].
  eexists [], _, _, _, loaded, now, old. split_and!; [done|done| |done|done].
  intros Hr. rewrite Hr in E1, E2. simpl in E1, E2.
  assert (not_covering request old = false) as Hn by (destruct (isRetryableDailyStatus status); done).
  unfold not_covering in Hn. zbool. simpl. lia.
Qed.
#[export] Hint Resolve upsert_keeps_failures : each.

(** The programs of the repair write states through [upsertTimeframeAuditState]
    only, so a property of traces that this program and the other calls of a
    repair have holds of every repair. *)
Definition plain {X} (e : guardianE X) : bool :=
  match e with
  | Now | CtxErr | Lock _ | Unlock _ | AcquireSlot _ | ReleaseSlot _ | BarsInRange _ _ _ _ _
  | LoadKlineGuardianState _ _ _ | InsertKlineGuardianEvents _ | ListCorporateActionFactors _ _ | FetchKlines _ _ _
  | RepairFinalBars _ | VerifyFinalBars _ _ | RepairRollups _ | GuardianEvent _ => true
  | _ => false
  end.

Section every.
Context (g : Guardian) (Q : list (call guardianE) → Prop) `{!TraceProp Q}.
Hypothesis Hcall : ∀ X (e : guardianE X), plain e = true → each Q (trigger e).
Hypothesis Hupsert : ∀ request status, each Q (upsertTimeframeAuditState request status).

#[local] Hint Extern 2 (each Q (trigger _)) => apply Hcall; reflexivity : each.
#[local] Hint Resolve Hupsert : each.

Lemma insertEvents_each events : each Q (insertEvents g events).
Proof using All. unfold insertEvents. each_auto. Qed.
#[local] Hint Resolve insertEvents_each : each.

Lemma recordRepairFailure_each request status err : each Q (recordRepairFailure g request status err).
Proof using All. unfold recordRepairFailure. each_auto. Qed.
#[local] Hint Resolve recordRepairFailure_each : each.

Lemma fetchKlines_each ctx fetcher request : each Q (fetchKlines g ctx fetcher request).
Proof using All. unfold fetchKlines. each_auto. Qed.
#[local] Hint Resolve fetchKlines_each : each.

Lemma or_record_each request p next : each Q p → each Q next → each Q (or_record g request p next).
Proof using All. intros. unfold or_record. each_auto. Qed.

Lemma or_return_each {A} (r : A) p next : each Q p → each Q next → each Q (or_return r p next).
Proof using TraceProp0. intros. unfold or_return. each_auto. Qed.

Lemma write_repairs_each stateRequest request tf at_ official toRepair :
  each Q (write_repairs g stateRequest request tf at_ official toRepair).
Proof using All.
  unfold write_repairs. repeat (each_step || (apply or_record_each; [|each_auto])); each_auto.
Qed.
#[local] Hint Resolve write_repairs_each : each.

Lemma confirmNoTradeDays_each ctx fetcher request days official loc :
  each Q (confirmNoTradeDays g ctx fetcher request days official loc).
Proof using All.
  unfold confirmNoTradeDays. each_step; [|each_auto]. each_step. unfold no_trade_day. each_auto.
Qed.
#[local] Hint Resolve confirmNoTradeDays_each : each.

Lemma repair_compared_each stateRequest request tf at_ official loc days err unchecked :
  each Q (repair_compared g stateRequest request tf at_ official loc days err unchecked).
Proof using All.
  unfold repair_compared, diffTimeframeBars, noTradeDayEvents, mark_bars.
  repeat (each_step || (apply or_return_each; [each_auto|]) || (apply or_record_each; [each_auto|each_auto])); each_auto.
Qed.
#[local] Hint Resolve repair_compared_each : each.

Lemma diverge_each {A} : each Q (diverge (A:=A)).
Proof using. by intros tr a ?%runs_diverge. Qed.
#[local] Hint Resolve diverge_each : each.

Lemma repair_locked_each ctx fetcher request tf : each Q (repair_locked g ctx fetcher request tf).
Proof using All.
  unfold repair_locked, repair_fetch, repair_official, repair_empty, applyCorporateActionFactors.
  repeat (each_step || (apply or_return_each; [each_auto|]) || (progress cbv zeta)); each_auto.
Qed.
#[local] Hint Resolve repair_locked_each : each.

Lemma repairTimeframeRange_each ctx fetcher request : each Q (repairTimeframeRange g ctx fetcher request).
Proof using All.
  unfold repairTimeframeRange, with_lock, unless_cancelled.
  repeat (each_step || (apply or_return_each; [each_auto|]) || (progress cbv zeta)); each_auto.
Qed.
#[local] Hint Resolve repairTimeframeRange_each : each.

Lemma retryFailedRepair_each ctx fetcher ex symbol tf : each Q (retryFailedRepair g ctx fetcher ex symbol tf).
Proof using All. unfold retryFailedRepair. each_auto. Qed.
End every.

(** a recorded failure is not lost.  In every run of a repair, each state
    written comes right after a reading of the state it replaces, keeps the
    final and gap marks of it, and, when that state records a failure to be
    retried, covers the range recorded with it. *)
Theorem repair_keeps_failures g ctx fetcher request :
  each keeps_failures (repairTimeframeRange g ctx fetcher request).
Proof.
  apply repairTimeframeRange_each; [typeclasses eauto| |apply upsert_keeps_failures].
  intros X e He. apply each_no_upsert. intros x. by destruct e.
Qed.

(** ** A failure is recorded *)

(** A call to the store, or the context, failed. *)
Definition broken (c : call guardianE) : bool :=
  match c with
  | Call e x =>
      match e in guardianE X return X → bool with
      | CtxErr => fun x => bool_decide (is_Some x)
      | BarsInRange _ _ _ _ _ => fun x => match x with Err _ => true | Ok _ => false end
      | LoadKlineGuardianState _ _ _ => fun x => match x with Err _ => true | Ok _ => false end
      | UpsertKlineGuardianState _ => fun x => bool_decide (is_Some x)
      | InsertKlineGuardianEvents _ => fun x => bool_decide (is_Some x)
      | _ => fun _ => false
      end x
  end.

(** The state of the series says that something is to be looked at again: one
    was written with a retryable status (or, for minutes, with [no_data]), or the
    one found has such a status and was left. *)
Definition flagged (c : call guardianE) : bool :=
  match c with
  | Call e x =>
      match e in guardianE X return X → bool with
      | UpsertKlineGuardianState s => fun _ =>
          isRetryableDailyStatus s.(KlineGuardianState.Status) || bool_decide (s.(KlineGuardianState.Status) = "no_data")
      | LoadKlineGuardianState _ _ _ => fun x =>
          match x with Ok (Some s) => isRetryableDailyStatus s.(KlineGuardianState.Status) | _ => false end
      | _ => fun _ => false
      end x
  end.

Definition noticed (tr : list (call guardianE)) : Prop := ∃ c, c ∈ tr ∧ (broken c || flagged c) = true.

(** The repair of the range of [r] ends with the error [e]: the call [c] is what
    explains it.  A reading of candles, the writing of the events or the context
    failed with [e] itself; or the state of the series was not readable; or it
    records a failure whose range the repair did not cover; or a state was
    written with the range of the repair that calls for another look (a
    retryable status, or [no_data] for minutes), or its writing failed with [e]. *)
Definition explains (r : RepairRequest) (tf : Frame) (e : go_error) (c : call guardianE) : Prop :=
  match c with
  | Call ev x =>
      match ev in guardianE X return X → Prop with
      | CtxErr => fun x => x = Some e
      | BarsInRange _ _ _ _ _ => fun x => x = Err e
      | InsertKlineGuardianEvents _ => fun x => x = Some e
      | LoadKlineGuardianState ex symbol name => fun x =>
          ex = r.(RepairRequest.Exchange) ∧ symbol = r.(RepairRequest.Symbol) ∧ name = r.(RepairRequest.Timeframe) ∧
          match x with
          | Err _ => True
          | Ok (Some s) => isRetryableDailyStatus s.(KlineGuardianState.Status) = true ∧ not_covering r s = true
          | Ok None => False
          end
      | UpsertKlineGuardianState s => fun x =>
          s.(KlineGuardianState.LastCheckedStartMS) = r.(RepairRequest.StartMS) ∧
          s.(KlineGuardianState.LastCheckedEndMS) = r.(RepairRequest.EndMS) ∧
          (isRetryableDailyStatus s.(KlineGuardianState.Status) = true ∨
           s.(KlineGuardianState.Status) = "no_data" ∧ tf = F1m ∨ x = Some e)
      | _ => fun _ => False
      end x
  end.

(** The error is explained by a call after which no state is written any more. *)
Definition left_noticed (r : RepairRequest) (tf : Frame) (e : go_error) (tr : list (call guardianE)) : Prop :=
  ∃ pre c post, tr = pre ++ c :: post ∧ explains r tf e c ∧ Forall (λ c, upserted c = None) post.

Section marks.
Context (g : Guardian) (r : RepairRequest) (tf : Frame).

Notation left_noticed := (left_noticed r tf).

Lemma left_noticed_l e tr1 tr2 : Forall (λ c, upserted c = None) tr2 → left_noticed e tr1 → left_noticed e (tr1 ++ tr2).
Proof.
  intros H (pre & c & post & -> & ? & ?). exists pre, c, (post ++ tr2). split; [by rewrite <- app_assoc|].
  split; [done|]. by apply Forall_app.
Qed.
Lemma left_noticed_r e tr1 tr2 : left_noticed e tr2 → left_noticed e (tr1 ++ tr2).
Proof. intros (pre & c & post & -> & ? & ?). exists (tr1 ++ pre), c, post. split; [by rewrite <- app_assoc|done]. Qed.
Lemma left_noticed_one {X} (ev : guardianE X) x e : explains r tf e (Call ev x) → left_noticed e [Call ev x].
Proof. intros H. exists [], (Call ev x), []. split; [done|]. split; [done|constructor]. Qed.

(** A program that returns an error has left it explained. *)
Definition marks_err (p : gprog (option go_error)) : Prop := ∀ tr e, runs p tr (Some e) → left_noticed e tr.
Definition marks_error {A} (p : gprog (A * option go_error)) : Prop :=
  ∀ tr a e, runs p tr (a, Some e) → left_noticed e tr.

Lemma upsert_noticed status tr err e :
  isRetryableDailyStatus status = true ∨ status = "no_data" ∧ tf = F1m ∨ err = Some e →
  runs (upsertTimeframeAuditState r status) tr err → left_noticed e tr.
Proof.
  intros Hst H. unfold upsertTimeframeAuditState in H.
  apply runs_bind in H as (tr1 & loaded & tr2 & -> & H1 & H). apply runs_trigger in H1 as ->.
  destruct loaded as [loaded|e']; [|run_step; rewrite app_nil_r; by apply left_noticed_one].
  cbv zeta in H. set (old := default _ loaded) in H.
  assert (Hkept : isRetryableDailyStatus old.(KlineGuardianState.Status) = true → not_covering r old = true →
    left_noticed e [Call (LoadKlineGuardianState r.(RepairRequest.Exchange) r.(RepairRequest.Symbol)
                            r.(RepairRequest.Timeframe)) (Ok loaded)]).
  { intros Ho Hn. apply left_noticed_one. simpl. split_and!; [done..|]. by destruct loaded. }
  destruct (isRetryableDailyStatus old.(KlineGuardianState.Status)) eqn:Eo, (not_covering r old) eqn:En,
    (isRetryableDailyStatus status) eqn:Es; cbn [andb negb] in H;
    try (run_step; rewrite app_nil_r; by apply Hkept);
    (apply runs_bind in H as (tr3 & now & tr4 & -> & H2 & H3); apply runs_trigger in H3 as ->;
     do 2 apply left_noticed_r; apply left_noticed_one; simpl; rewrite ?Es; naive_solver).
Qed.

Lemma recordRepairFailure_noticed status err e tr x :
  isRetryableDailyStatus status = true → runs (recordRepairFailure g r status err) tr x → left_noticed e tr.
Proof.
  intros Hst H. unfold recordRepairFailure in H.
  apply runs_bind in H as (tr1 & now & tr2 & -> & _ & H). apply runs_bind in H as (tr3 & ? & tr4 & -> & _ & H).
  cbv zeta in H. apply runs_bind in H as (tr5 & err' & tr6 & -> & H & [-> _]%runs_Ret).
  rewrite app_nil_r. do 2 apply left_noticed_r. eapply upsert_noticed; [|exact H]. left.
  by destruct r.(RepairRequest.ForceReplay).
Qed.

Lemma or_record_marks p next : marks_err next → marks_err (or_record g r p next).
Proof.
  intros Hn tr e H. unfold or_record in H. apply runs_bind in H as (tr1 & err & tr2 & -> & _ & H).
  apply left_noticed_r. destruct err as [e'|]; [|by eapply Hn].
  apply runs_bind in H as (tr3 & ? & tr4 & -> & H & [-> _]%runs_Ret). rewrite app_nil_r.
  eapply recordRepairFailure_noticed; [|exact H]. done.
Qed.

Lemma or_return_marks {A} (a : A) p next : marks_err p → marks_error next → marks_error (or_return a p next).
Proof.
  intros Hp Hn tr a' e H. unfold or_return in H. apply runs_bind in H as (tr1 & err & tr2 & -> & H1 & H).
  destruct err as [e'|]; [|apply left_noticed_r; by eapply Hn].
  apply runs_Ret in H as [-> [= -> ->]]. rewrite app_nil_r. by eapply Hp.
Qed.

Lemma Ret_marks {A} (a : A) : marks_error (Ret (a, None)).
Proof. intros tr a' e H. by run_step. Qed.
Lemma Ret_marks_err : marks_err (Ret None).
Proof. intros tr e H. by run_step. Qed.

Lemma upsert_marks status : marks_err (upsertTimeframeAuditState r status).
Proof. intros tr e H. eapply upsert_noticed; [|exact H]. eauto. Qed.

Lemma insertEvents_marks events : marks_err (insertEvents g events).
Proof.
  intros tr e H. unfold insertEvents in H. destruct events as [|event events]; [by run_step|].
  apply runs_bind in H as (tr1 & err & tr2 & -> & H1 & H). apply runs_trigger in H1 as ->.
  destruct err as [e'|]; [|destruct (Config.Observer _); repeat run_step].
  apply runs_Ret in H as [-> [= ->]]. by apply left_noticed_one.
Qed.

(** Recording a failure, then returning it. *)
Lemma record_marks {A} status err (a : A * option go_error) :
  isRetryableDailyStatus status = true → marks_error (pbind (recordRepairFailure g r status err) (λ _, Ret a)).
Proof.
  intros Hs tr a' e H. apply runs_bind in H as (tr1 & ? & tr2 & -> & H & [-> _]%runs_Ret). rewrite app_nil_r.
  eapply recordRepairFailure_noticed; [|exact H]. done.
Qed.

(** Writing a state that calls for another look, then returning an error. *)
Lemma upsert_return_marks {A} status (a b : A) err :
  isRetryableDailyStatus status = true ∨ status = "no_data" ∧ tf = F1m →
  marks_error (or_return a (upsertTimeframeAuditState r status) (Ret (b, err))).
Proof.
  intros Hs tr a' e H. unfold or_return in H. apply runs_bind in H as (tr1 & x & tr2 & -> & H & H2).
  assert (tr2 = []) as -> by (by destruct x; apply runs_Ret in H2 as [-> _]). rewrite app_nil_r.
  eapply upsert_noticed; [|exact H]. tauto.
Qed.

Lemma bind_marks_any {X A} (p : gprog X) (f : X → gprog (A * option go_error)) :
  (∀ x, marks_error (f x)) → marks_error (pbind p f).
Proof.
  intros Hf tr a e H. apply runs_bind in H as (tr1 & x & tr2 & -> & H1 & H). apply left_noticed_r. by eapply Hf.
Qed.

(** A call whose error is returned, followed by a program that explains its own. *)
Lemma call_marks {X A} (ev : guardianE (result go_error X)) (a : A) (f : X → gprog (A * option go_error)) :
  (∀ e, explains r tf e (Call ev (Err e))) → (∀ x, marks_error (f x)) →
  marks_error (pbind (trigger ev) (λ x, match x with Err e => Ret (a, Some e) | Ok x => f x end)).
Proof.
  intros Hev Hf tr a' e H. apply runs_bind in H as (tr1 & x & tr2 & -> & H1 & H). apply runs_trigger in H1 as ->.
  destruct x as [x|e']; [apply left_noticed_r; by eapply Hf|]. apply runs_Ret in H as [-> [= -> ->]].
  by apply left_noticed_one.
Qed.

Lemma diverge_marks {A} : marks_error (diverge (A:=A * option go_error)).
Proof. by intros tr a e H%runs_diverge. Qed.

#[local] Hint Resolve or_record_marks or_return_marks Ret_marks Ret_marks_err upsert_marks insertEvents_marks
  record_marks bind_marks_any diverge_marks upsert_return_marks : marks.

Lemma repair_compared_marks request at_ valid loc days responseErr unchecked :
  marks_error (repair_compared g r request tf at_ valid loc days responseErr unchecked).
Proof.
  unfold repair_compared. apply bind_marks_any. intros diff. apply bind_marks_any. intros dayEvents. cbv zeta.
  apply bind_marks_any. intros [marked toRepair]. apply or_return_marks.
  { unfold write_repairs. repeat case_bool; auto with marks. destruct toRepair; auto with marks. }
  apply or_return_marks; [auto with marks|]. destruct responseErr as [e|]; [by apply record_marks|].
  apply or_return_marks; [case_bool; auto with marks|].
  destruct unchecked; [apply upsert_return_marks; by left|auto with marks].
Qed.

Lemma repair_empty_marks request loc responseErr : marks_error (repair_empty g r request tf loc responseErr).
Proof.
  unfold repair_empty. case_bool; [by apply record_marks|]. case_bool; [by apply record_marks|].
  destruct (bool_decide_reflect (tf = F1m)); [|auto with marks]. apply upsert_return_marks. by right.
Qed.

Lemma repair_official_marks ctx fetcher request starts at_ official :
  marks_error (repair_official g ctx fetcher r request tf starts at_ official).
Proof.
  unfold repair_official. apply call_marks; [done|]. intros loc. apply bind_marks_any. intros now.
  destruct (filterOfficialBars _ _ _ _) as [valid rejected].
  cbv zeta. apply bind_marks_any. intros [days|e]; [|by apply record_marks].
  destruct (_ && _); [apply repair_empty_marks|].
  destruct (coverage_error _ _ _ _ _ _); auto using repair_compared_marks with marks.
Qed.

Lemma repair_fetch_marks ctx fetcher request : marks_error (repair_fetch g ctx fetcher r request tf).
Proof.
  unfold repair_fetch. destruct (starts_between _ _ _); [|auto with marks].
  do 2 (apply bind_marks_any; intros ?). apply bind_marks_any. intros [official|e]; [|by apply record_marks].
  apply repair_official_marks.
Qed.
End marks.

Lemma left_noticed_force force r tf e tr : left_noticed (RepairRequest.set_force force r) tf e tr → left_noticed r tf e tr.
Proof. by destruct r. Qed.

Lemma repair_locked_marks g ctx fetcher request tf :
  request.(RepairRequest.Timeframe) = frame_name tf →
  marks_error (floored tf request) tf (repair_locked g ctx fetcher request tf).
Proof.
  intros Hname. unfold repair_locked. cbv zeta. change (RepairRequest.set_range _ _ request) with (floored tf request).
  case_bool; [apply Ret_marks|].
  apply call_marks; [intros e; simpl; split_and!; by destruct request|]. intros state.
  assert (H : ∀ force, let r := if force : bool then RepairRequest.set_force true (floored tf request) else floored tf request in
    ∀ p : gprog (RepairResult * option go_error), marks_error r tf p → marks_error (floored tf request) tf p).
  { intros [|] r p Hp tr a e Hr; [|by eapply Hp]. eapply left_noticed_force, Hp, Hr. }
  eapply (H (replays (floored tf request) state)). destruct (_ && _).
  - apply or_return_marks; [apply upsert_marks|apply Ret_marks].
  - apply repair_fetch_marks.
Qed.

Lemma unless_cancelled_marks r tf p : marks_error r tf p → marks_error r tf (unless_cancelled p).
Proof.
  intros Hp. unfold unless_cancelled. apply or_return_marks; [|done].
  intros tr e ->%runs_trigger. by apply left_noticed_one.
Qed.

Lemma repair_failure_noticed_spec g ctx fetcher request tf tr result e :
  Normalize request.(RepairRequest.Timeframe) = Ok tf →
  runs (repairTimeframeRange g ctx fetcher request) tr (result, Some e) →
  left_noticed (floored tf (normalize_request request tf)) tf e tr.
Proof.
  intros Htf. unfold repairTimeframeRange. rewrite Htf. cbv zeta.
  pose proof (repair_locked_marks g ctx fetcher (normalize_request request tf) tf ltac:(by destruct request)) as Hm.
  destruct (bool_decide (tf = F1m)); [|apply Hm]. destruct (bool_decide _); [by apply unless_cancelled_marks|].
  intros (tr' & -> & H)%with_lock_runs. apply (left_noticed_r _ _ _ [_]), left_noticed_l; [by repeat constructor|].
  by eapply unless_cancelled_marks.
Qed.

(** An explained failure shows in the trace. *)
Lemma left_noticed_noticed r tf e tr : left_noticed r tf e tr → noticed tr.
Proof.
  intros (pre & c & post & -> & H & _). exists c. split; [in_trace|]. destruct c as [X ev x].
  destruct ev; simpl in *; try done; try (by subst).
  - destruct x as [[s|]|]; naive_solver.
  - destruct H as (_ & _ & [-> |[[-> _]| ->]]); [by rewrite orb_true_r|by rewrite !orb_true_r|done].
Qed.

(** C6: a repair that fails says so in the record of the series.  When
    [repairTimeframeRange] returns an error, then some call explains it and no
    state of the series is written after that call: the cancelled context, the
    reading of the stored candles or the writing of the events failed with this
    very error; or the state of the series could not be read; or it already
    records a failure to be retried whose range this repair does not cover, and
    is left as it is; or the state that is written, if the store takes it, has the range of the
    repair and calls for another look (a retryable status, or [no_data] for
    minutes); or the writing of the state failed with this very error. *)
Theorem repair_failure_noticed g ctx fetcher request tf tr result e :
  Normalize request.(RepairRequest.Timeframe) = Ok tf →
  runs (repairTimeframeRange g ctx fetcher request) tr (result, Some e) →
  left_noticed (floored tf (normalize_request request tf)) tf e tr.
Proof. apply repair_failure_noticed_spec. Qed.

(** The exchange fails. *)
Definition offline_answers : handler guardianE unit := fun X e _ =>
  match e in guardianE X return option (X * unit) with
  | FetchKlines _ _ _ => Some (Err (Errorf "connection refused"), tt)
  | e => sample_answers _ e tt
  end.

Lemma repair_failure_noticed_witness :
  ∃ tr result e, runs (repairTimeframeRange sample_guardian Ctx.background sample_fetcher sample_request) tr (result, Some e)
    ∧ left_noticed (floored F1H (normalize_request sample_request F1H)) F1H e tr.
Proof.
  destruct (exec offline_answers (repairTimeframeRange sample_guardian Ctx.background sample_fetcher sample_request) tt)
    as [[[tr [result [e|]]] w]|] eqn:E; [|vm_compute in E; discriminate|vm_compute in E; discriminate].
  exists tr, result, e. pose proof (exec_runs _ _ _ _ _ _ E) as Hruns. split; [exact Hruns|].
  exact (repair_failure_noticed sample_guardian Ctx.background sample_fetcher sample_request F1H tr result e eq_refl Hruns).
Defined.
