(* ===== verification/GuardianTargets.v ===== *)
(** * Which symbols the Guardian audits (internal/guardian/guardian.go, symbol_eligibility.go)

    [loadRepairEligibility] reads the official inventory of an exchange once per
    round; [auditTargets] and [dailyAuditTargets] list the symbols of a round.
    The exchanges are visited in the order of [map_to_list]: the code ranges over
    a map, in any order, and sorts the result. *)

From S2P Require Export GuardianSpec.

Local Open Scope string_scope.
Local Open Scope Z_scope.
Local Open Scope list_scope.
Local Open Scope prog_scope.

Module AuditTarget.
Record AuditTarget : Type := mk {
  Exchange : string; Symbol : string; MarketType : string; fetcher : Fetcher;
  FirstSeenAtMS : Z; ListedAtMS : Z }.
End AuditTarget.
Notation AuditTarget := AuditTarget.AuditTarget.

Module RepairEligibility.
Record RepairEligibility : Type := mk { required : bool; allowed : gset string; listings : gmap string Z }.
End RepairEligibility.
Notation RepairEligibility := RepairEligibility.RepairEligibility.

Definition scope_symbol (exchange marketType symbol : string) : string :=
  (fetcherKey exchange marketType ++ ":" ++ normalizeSymbol symbol)%string.

Definition symbol_key (symbol : SymbolInfo) : string :=
  scope_symbol symbol.(SymbolInfo.Exchange) symbol.(SymbolInfo.MarketType) symbol.(SymbolInfo.Symbol).

Definition listedAt (e : RepairEligibility) (symbol : SymbolInfo) : Z :=
  default symbol.(SymbolInfo.ListedAtMS) (e.(RepairEligibility.listings) !! symbol_key symbol).

Definition permits (e : RepairEligibility) (symbol : SymbolInfo) : bool :=
  negb e.(RepairEligibility.required) || bool_decide (symbol_key symbol ∈ e.(RepairEligibility.allowed)).

(** [byScope[key]], the zero value when absent; a later entry wins. *)
Definition syncs_by_scope (syncs : list SymbolSnapshotSync) : gmap string SymbolSnapshotSync :=
  foldl (fun m sync =>
    <[fetcherKey sync.(SymbolSnapshotSync.Exchange) sync.(SymbolSnapshotSync.MarketType) := sync]> m) ∅ syncs.

Definition eligible_item (exchangeName : string) (byScope : gmap string SymbolSnapshotSync) (nowMS maxAgeMS : Z)
    (item : SymbolSnapshot) : bool :=
  bool_decide (normalizeExchange item.(SymbolSnapshot.Exchange) = normalizeExchange exchangeName)
  && bool_decide (SymbolSnapshotRepairSkipReason item
       (default SymbolSnapshotSync.zero
          (byScope !! fetcherKey item.(SymbolSnapshot.Exchange) item.(SymbolSnapshot.MarketType)))
       nowMS maxAgeMS = "").

Definition item_key (item : SymbolSnapshot) : string :=
  scope_symbol item.(SymbolSnapshot.Exchange) item.(SymbolSnapshot.MarketType) item.(SymbolSnapshot.Symbol).

Definition add_item (e : RepairEligibility) (item : SymbolSnapshot) : RepairEligibility :=
  RepairEligibility.mk e.(RepairEligibility.required) ({[item_key item]} ∪ e.(RepairEligibility.allowed))
    (<[item_key item := item.(SymbolSnapshot.ListedAtMS)]> e.(RepairEligibility.listings)).

Section targets.
Context (g : Guardian).
Notation cfg := g.(Guardian.cfg).

Definition loadRepairEligibility (exchangeName : string) : gprog (result go_error RepairEligibility) :=
  let e := RepairEligibility.mk cfg.(Config.RequireSymbolSnapshots) ∅ ∅ in
  if negb cfg.(Config.RequireSymbolSnapshots) then Ret (Ok e)
  else if negb g.(Guardian.snapshotReader) then Ret (Err (Errorf "guardian requires a symbol snapshot reader"))
  else
    items <- trigger (ListSymbolSnapshots exchangeName) ;;
    match items with
    | Err err => Ret (Err (Wrapf "read guardian symbol snapshots: %w" err))
    | Ok items =>
        syncs <- trigger ListSymbolSnapshotSyncs ;;
        match syncs with
        | Err err => Ret (Err (Wrapf "read guardian snapshot sync state: %w" err))
        | Ok syncs =>
            nowMS <- trigger Now ;;
            let maxAge := if cfg.(Config.SymbolMaxAge) <=? 0 then 10 * Minute else cfg.(Config.SymbolMaxAge) in
            Ret (Ok (foldl add_item e
                       (List.filter (eligible_item exchangeName (syncs_by_scope syncs) nowMS
                                       (Z.quot maxAge Millisecond)) items)))
        end
    end.

Definition target_of (eligibility : RepairEligibility) (firstSeen : Z) (symbol : SymbolInfo) (fetcher : Fetcher)
    : AuditTarget :=
  AuditTarget.mk (normalizeExchange symbol.(SymbolInfo.Exchange)) (normalizeSymbol symbol.(SymbolInfo.Symbol))
    (normalizeMarketType symbol.(SymbolInfo.MarketType)) fetcher firstSeen (listedAt eligibility symbol).

(** The target of a symbol of a minute round, if any. *)
Definition audit_target (eligibility : RepairEligibility) (now : Z) (symbol : SymbolInfo) : option AuditTarget :=
  if negb symbol.(SymbolInfo.IsActive) then None
  else if negb (permits eligibility symbol) then None
  else if (symbol.(SymbolInfo.LastSeenAtMS) <=? 0)
          || (Z.quot cfg.(Config.SymbolMaxAge) Millisecond <? i64 (now - symbol.(SymbolInfo.LastSeenAtMS))) then None
  else
    match fetcherFor g symbol.(SymbolInfo.Exchange) symbol.(SymbolInfo.MarketType) with
    | None => None
    | Some fetcher => Some (target_of eligibility symbol.(SymbolInfo.FirstSeenAtMS) symbol fetcher)
    end.

(** The target of a symbol of a daily round: one that was never seen counts. *)
Definition daily_target (eligibility : RepairEligibility) (now : Z) (symbol : SymbolInfo) : option AuditTarget :=
  if negb symbol.(SymbolInfo.IsActive) then None
  else if negb (permits eligibility symbol) then None
  else
    match fetcherFor g symbol.(SymbolInfo.Exchange) symbol.(SymbolInfo.MarketType) with
    | None => None
    | Some fetcher =>
        if (0 <? symbol.(SymbolInfo.LastSeenAtMS))
           && (2592000000 <? i64 (now - symbol.(SymbolInfo.LastSeenAtMS))) then None
        else Some (target_of eligibility 0 symbol fetcher)
    end.

Definition target_less : AuditTarget → AuditTarget → bool :=
  less_lex (less_str AuditTarget.Exchange)
    (less_lex (less_str AuditTarget.MarketType) (less_str AuditTarget.Symbol)).
Definition daily_less : AuditTarget → AuditTarget → bool :=
  less_lex (less_str AuditTarget.Exchange) (less_str AuditTarget.Symbol).

(** The loop over the exchanges that both lists share. *)
Definition gather (choose : RepairEligibility → SymbolInfo → option AuditTarget) (exchangeName : string)
    (targets : list AuditTarget) : gprog (result go_error (list AuditTarget)) :=
  symbols <- trigger (ListSymbols exchangeName) ;;
  match symbols with
  | Err e => Ret (Err e)
  | Ok symbols =>
      eligibility <- loadRepairEligibility exchangeName ;;
      match eligibility with
      | Err e => Ret (Err e)
      | Ok eligibility => Ret (Ok (targets ++ omap (choose eligibility) (symbols : list SymbolInfo)))
      end
  end.

Definition exchanges : list string := fst <$> map_to_list g.(Guardian.fetchersByExchange).

Definition auditTargets : gprog (result go_error (list AuditTarget)) :=
  now <- trigger Now ;;
  targets <- pfold_ok (fun targets exchangeName => gather (fun e => audit_target e now) exchangeName targets)
               [] exchanges ;;
  Ret (match targets with Ok l => Ok (sort_slice target_less l) | Err e => Err e end).

Definition dailyAuditTargets : gprog (result go_error (list AuditTarget)) :=
  now <- trigger Now ;;
  targets <- pfold_ok (fun targets exchangeName => gather (fun e => daily_target e now) exchangeName targets)
               [] exchanges ;;
  Ret (match targets with Ok l => Ok (sort_slice daily_less l) | Err e => Err e end).
End targets.
