(* ===== verification/GuardianMinute.v ===== *)
(** * Durable minute repairs (internal/guardian/durable_minute_audit.go, minute_day_audit.go)

    Every minute range is registered as a task of the store before it is
    fetched, and finished with an outcome afterwards; the queue itself is
    modelled in MinuteAudit.v.  A clock reading is a whole number of
    milliseconds, so [now.Add(-d).UnixMilli()] is a division by a million. *)

From S2P Require Export GuardianTargets.

Local Open Scope string_scope.
Local Open Scope Z_scope.
Local Open Scope list_scope.
Local Open Scope prog_scope.

Definition minuteTaskLease_ms : Z := 600000.

(** [g.now().Add(-d).UnixMilli()]. *)
Definition before_ms (nowMS d : Z) : Z := (nowMS * 1000000 - d) / 1000000.


(** [errors.Join] of two errors that may be nil. *)
Definition errors_Join (e1 e2 : option go_error) : option go_error :=
  match e1, e2 with
  | Some e1, Some e2 => Some (Joined e1 e2)
  | Some e, None | None, Some e => Some e
  | None, None => None
  end.

(** In nanoseconds. *)
Definition minuteRetryDelay (attempts : Z) : Z :=
  let attempts := if attempts <? 0 then 0 else attempts in
  let attempts := if 5 <? attempts then 5 else attempts in
  let delay := i64 (30 * Second * Z.shiftl 1 attempts) in
  if 15 * Minute <? delay then 15 * Minute else delay.

Section minute.
Context (g : Guardian).
Notation cfg := g.(Guardian.cfg).

Definition new_task (target : AuditTarget) (startMS endMS : Z) (kind : string) (nowMS : Z) : MinuteAuditTask :=
  {| MinuteAuditTask.ID := 0;
     MinuteAuditTask.Exchange := normalizeExchange target.(AuditTarget.Exchange);
     MinuteAuditTask.Symbol := normalizeSymbol target.(AuditTarget.Symbol);
     MinuteAuditTask.MarketType := normalizeMarketType target.(AuditTarget.MarketType);
     MinuteAuditTask.Kind := kind;
     MinuteAuditTask.StartMS := FloorStartMS startMS F1m; MinuteAuditTask.EndMS := FloorStartMS endMS F1m;
     MinuteAuditTask.ExpectedStartMS := target.(AuditTarget.ListedAtMS);
     MinuteAuditTask.ExpectData := 0 <? target.(AuditTarget.ListedAtMS);
     MinuteAuditTask.Status := ""; MinuteAuditTask.Attempts := 0; MinuteAuditTask.NextAttemptMS := nowMS;
     MinuteAuditTask.LeaseUntilMS := 0; MinuteAuditTask.LeaseToken := ""; MinuteAuditTask.ForceReplay := false;
     MinuteAuditTask.LastError := ""; MinuteAuditTask.CreatedAtMS := nowMS; MinuteAuditTask.UpdatedAtMS := nowMS |}.

Definition newMinuteTask (target : AuditTarget) (startMS endMS : Z) (kind : string) : gprog MinuteAuditTask :=
  nowMS <- trigger Now ;; Ret (new_task target startMS endMS kind nowMS).

Definition task_request (task : MinuteAuditTask) : RepairRequest :=
  let startMS :=
    if (task.(MinuteAuditTask.StartMS) <? task.(MinuteAuditTask.ExpectedStartMS))
       && (task.(MinuteAuditTask.ExpectedStartMS) <=? i64 (task.(MinuteAuditTask.EndMS) + MinuteMS - 1))
    then FloorStartMS task.(MinuteAuditTask.ExpectedStartMS) F1m else task.(MinuteAuditTask.StartMS) in
  RepairRequest.mk task.(MinuteAuditTask.Exchange) task.(MinuteAuditTask.Symbol) "1m" startMS
    task.(MinuteAuditTask.EndMS) ("minute_" ++ task.(MinuteAuditTask.Kind))%string
    task.(MinuteAuditTask.ExpectData) task.(MinuteAuditTask.ExpectedStartMS)
    (task.(MinuteAuditTask.ForceReplay) || (0 <? task.(MinuteAuditTask.Attempts))
     || bool_decide (task.(MinuteAuditTask.Kind) = "daily")).

(** The outcome of a failed attempt. *)
Definition failed_outcome (e : go_error) : string :=
  if Contains (error_text e) "unchecked official" then "blocked" else "retry".

Definition executeLeasedMinuteTask (ctx : Ctx) (task : MinuteAuditTask) (token : string) (fetcher : Fetcher)
    : gprog (RepairResult * option go_error) :=
  let requestCtx := if bool_decide (task.(MinuteAuditTask.Kind) = "daily") then Ctx.for_day ctx else ctx in
  '(result, repairErr) <- repairTimeframeRange g requestCtx fetcher (task_request task) ;;
  '(outcome, nextMS, lastError) <-
    (match repairErr with
     | Some e =>
         now <- trigger Now ;;
         Ret (failed_outcome e,
              i64 (now + Z.quot (minuteRetryDelay task.(MinuteAuditTask.Attempts)) Millisecond), error_text e)
     | None => Ret ("completed", 0, "")
     end) ;;
  now <- trigger Now ;;
  finishErr <- trigger (FinishMinuteAuditTask task.(MinuteAuditTask.ID) token outcome nextMS
                          (bool_decide (is_Some repairErr)) lastError now) ;;
  Ret (result, errors_Join repairErr finishErr).

Definition set_expected (expectedMS : Z) (expect : bool) (t : MinuteAuditTask) : MinuteAuditTask :=
  {| MinuteAuditTask.ID := t.(MinuteAuditTask.ID); MinuteAuditTask.Exchange := t.(MinuteAuditTask.Exchange);
     MinuteAuditTask.Symbol := t.(MinuteAuditTask.Symbol); MinuteAuditTask.MarketType := t.(MinuteAuditTask.MarketType);
     MinuteAuditTask.Kind := t.(MinuteAuditTask.Kind); MinuteAuditTask.StartMS := t.(MinuteAuditTask.StartMS);
     MinuteAuditTask.EndMS := t.(MinuteAuditTask.EndMS); MinuteAuditTask.ExpectedStartMS := expectedMS;
     MinuteAuditTask.ExpectData := expect; MinuteAuditTask.Status := t.(MinuteAuditTask.Status);
     MinuteAuditTask.Attempts := t.(MinuteAuditTask.Attempts);
     MinuteAuditTask.NextAttemptMS := t.(MinuteAuditTask.NextAttemptMS);
     MinuteAuditTask.LeaseUntilMS := t.(MinuteAuditTask.LeaseUntilMS);
     MinuteAuditTask.LeaseToken := t.(MinuteAuditTask.LeaseToken);
     MinuteAuditTask.ForceReplay := t.(MinuteAuditTask.ForceReplay);
     MinuteAuditTask.LastError := t.(MinuteAuditTask.LastError);
     MinuteAuditTask.CreatedAtMS := t.(MinuteAuditTask.CreatedAtMS);
     MinuteAuditTask.UpdatedAtMS := t.(MinuteAuditTask.UpdatedAtMS) |}.

(** The stored task, with the listing date of [task] when it has none. *)
Definition restored (task stored : MinuteAuditTask) : MinuteAuditTask :=
  if (0 <? task.(MinuteAuditTask.ExpectedStartMS)) && (stored.(MinuteAuditTask.ExpectedStartMS) =? 0)
  then set_expected task.(MinuteAuditTask.ExpectedStartMS) task.(MinuteAuditTask.ExpectData) stored else stored.

Definition execute_locked (ctx : Ctx) (task : MinuteAuditTask) (fetcher : Fetcher)
    : gprog (RepairResult * option go_error) :=
  let ctx := Ctx.hold (minuteSymbolKey task.(MinuteAuditTask.Exchange) task.(MinuteAuditTask.Symbol)) ctx in
  stored <- trigger (LoadMinuteAuditTask task.(MinuteAuditTask.ID)) ;;
  match stored with
  | Err e => Ret (RepairResult.zero, Some e)
  | Ok None => Ret (RepairResult.zero, None)
  | Ok (Some stored) =>
      let task := restored task stored in
      token <- trigger RandRead ;;
      match token with
      | Err e => Ret (RepairResult.zero, Some e)
      | Ok token =>
          nowMS <- trigger Now ;;
          leased <- trigger (LeaseMinuteAuditTask task.(MinuteAuditTask.ID) token nowMS
                               (i64 (nowMS + minuteTaskLease_ms))) ;;
          match leased with
          | Err e => Ret (RepairResult.zero, Some e)
          | Ok false => Ret (RepairResult.zero, None)
          | Ok true => executeLeasedMinuteTask ctx task token fetcher
          end
      end
  end.

Definition executeMinuteTask (ctx : Ctx) (task : MinuteAuditTask) (fetcher : Fetcher)
    : gprog (RepairResult * option go_error) :=
  with_lock (minuteLock task.(MinuteAuditTask.Exchange) task.(MinuteAuditTask.Symbol))
    (unless_cancelled (execute_locked ctx task fetcher)).

Definition repairDurableMinuteRange (ctx : Ctx) (fetcher : Fetcher) (exchangeName symbol : string)
    (startMS endMS : Z) (reason : string) : gprog (RepairResult * option go_error) :=
  let kind := if bool_decide (reason = "watermark_gap") then "catchup" else "window" in
  task <- newMinuteTask (AuditTarget.mk exchangeName symbol fetcher.(Fetcher.MarketType) fetcher 0 0) startMS endMS kind ;;
  id <- trigger (EnqueueMinuteAuditTask task) ;;
  match id with
  | Err e => Ret (RepairResult.zero, Some (Wrapf "register minute audit: %w" e))
  | Ok id => executeMinuteTask ctx (MinuteAuditTask.set_ID id task) fetcher
  end.

Definition repairRangeWithFetcher (ctx : Ctx) (fetcher : Fetcher) (exchangeName symbol : string)
    (startMS endMS : Z) (reason : string) : gprog (RepairResult * option go_error) :=
  if g.(Guardian.taskStore) then repairDurableMinuteRange ctx fetcher exchangeName symbol startMS endMS reason
  else if cfg.(Config.RequireMinuteTaskStore)
  then Ret (RepairResult.zero, Some (Errorf "guardian requires a durable minute audit task store"))
  else repairTimeframeRange g ctx fetcher
         (RepairRequest.mk exchangeName symbol "1m" startMS endMS reason false 0 false).

Definition repairRange (ctx : Ctx) (exchangeName symbol : string) (startMS endMS : Z) (reason : string)
    : gprog (RepairResult * option go_error) :=
  fetcher <- fetcherForSymbol g exchangeName symbol ;;
  match fetcher with
  | Err e => Ret (RepairResult.zero, Some e)
  | Ok None => Ret (RepairResult.zero, Some (Errorf "missing REST kline fetcher for %s %s"))
  | Ok (Some fetcher) => repairRangeWithFetcher ctx fetcher exchangeName symbol startMS endMS reason
  end.

Definition saveMinuteCursor (target : AuditTarget) (kind : string) (throughMS : Z) : gprog (option go_error) :=
  now <- trigger Now ;;
  trigger (SaveMinuteAuditCursor (MinuteAuditCursor.mk target.(AuditTarget.Exchange) target.(AuditTarget.Symbol)
                                    kind throughMS now)).

(** Registering one range: the task is stored, then the cursor is moved to its
    end. *)
Definition register (target : AuditTarget) (startMS endMS : Z) (kind cursorKind : string) : gprog (result go_error Z) :=
  task <- newMinuteTask target startMS endMS kind ;;
  id <- trigger (EnqueueMinuteAuditTask task) ;;
  match id with
  | Err e => Ret (Err e)
  | Ok id =>
      err <- saveMinuteCursor target cursorKind endMS ;;
      Ret (match err with Some e => Err e | None => Ok id end)
  end.

(** [end] of a piece that starts at [from] and must stop before [startMS]. *)
Definition catchup_end (from startMS : Z) : Z :=
  let end_ := i64 (from + 24 * HourMS - MinuteMS) in
  if startMS <=? end_ then i64 (startMS - MinuteMS) else end_.

(** [for from < startMS]: a day at a time. *)
Fixpoint catchup_loop (fuel : nat) (target : AuditTarget) (from startMS : Z) : gprog (result go_error Z) :=
  if from <? startMS then
    match fuel with
    | O => diverge
    | S fuel' =>
        let end_ := catchup_end from startMS in
        r <- register target from end_ "catchup" "window" ;;
        match r with
        | Err e => Ret (Err e)
        | Ok _ => catchup_loop fuel' target (i64 (end_ + MinuteMS)) startMS
        end
    end
  else Ret (Ok from).
Definition catchup_fuel (from startMS : Z) : nat := Z.to_nat ((startMS - from) / DayMS + 1).

Definition retained_start (nowMS : Z) : Z :=
  i64 (FloorStartMS (before_ms nowMS cfg.(Config.MinuteRetention)) F1m + MinuteMS).

(** The part of the gap that is older than the retention: one piece. *)
Definition register_expired (target : AuditTarget) (from startMS retainedStart : Z) : gprog (result go_error Z) :=
  if (from <? retainedStart) && (from <? startMS) then
    let end_ := i64 (retainedStart - MinuteMS) in
    let end_ := if startMS <=? end_ then i64 (startMS - MinuteMS) else end_ in
    r <- register target from end_ "catchup" "window" ;;
    Ret (match r with Err e => Err e | Ok _ => Ok (i64 (end_ + MinuteMS)) end)
  else Ret (Ok from).

Definition auditMinuteWindow (ctx : Ctx) (target : AuditTarget) (startMS endMS : Z)
    : gprog (RepairResult * option go_error) :=
  let failed e := Ret (RepairResult.zero, Some e) in
  if negb g.(Guardian.taskStore) then
    repairRangeWithFetcher ctx target.(AuditTarget.fetcher) target.(AuditTarget.Exchange) target.(AuditTarget.Symbol)
      startMS endMS "window_audit"
  else
    cursor <- trigger (LoadMinuteAuditCursor target.(AuditTarget.Exchange) target.(AuditTarget.Symbol) "window") ;;
    match cursor with
    | Err e => failed e
    | Ok cursor =>
        let from := match cursor with
                    | Some c => i64 (c.(MinuteAuditCursor.ThroughMS) + MinuteMS)
                    | None => startMS
                    end in
        now <- trigger Now ;;
        from <- register_expired target from startMS (retained_start now) ;;
        match from with
        | Err e => failed e
        | Ok from =>
            from <- catchup_loop (catchup_fuel from startMS) target from startMS ;;
            match from with
            | Err e => failed e
            | Ok _ =>
                task <- newMinuteTask target startMS endMS "window" ;;
                id <- trigger (EnqueueMinuteAuditTask task) ;;
                match id with
                | Err e => failed e
                | Ok id =>
                    err <- saveMinuteCursor target "window" endMS ;;
                    match err with
                    | Some e => failed e
                    | None => executeMinuteTask ctx (MinuteAuditTask.set_ID id task) target.(AuditTarget.fetcher)
                    end
                end
            end
        end
    end.

(** ** The retry pass *)

Definition deferMinuteTask (task : MinuteAuditTask) (outcome reason : string) : gprog (option go_error) :=
  token <- trigger RandRead ;;
  match token with
  | Err e => Ret (Some e)
  | Ok token =>
      nowMS <- trigger Now ;;
      leased <- trigger (LeaseMinuteAuditTask task.(MinuteAuditTask.ID) token nowMS
                           (i64 (nowMS + minuteTaskLease_ms))) ;;
      match leased with
      | Err e => Ret (Some e)
      | Ok false => Ret None
      | Ok true => trigger (FinishMinuteAuditTask task.(MinuteAuditTask.ID) token outcome (i64 (nowMS + 300000))
                              task.(MinuteAuditTask.ForceReplay) reason nowMS)
      end
  end.

(** A snapshot of the inventory that takes the symbol out of service; whether it
    is fresh is tested next. *)
Definition officially_excluded (item : SymbolSnapshot) (sync : SymbolSnapshotSync) : bool :=
  bool_decide (sync.(SymbolSnapshotSync.Status) = "ok")
  && (sync.(SymbolSnapshotSync.LastSuccessMS) =? item.(SymbolSnapshot.CapturedAtMS))
  && bool_decide (item.(SymbolSnapshot.Presence) = "present")
  && (item.(SymbolSnapshot.Delisted) || negb item.(SymbolSnapshot.Subscribed))
  && (0 <? item.(SymbolSnapshot.CapturedAtMS)).

(** The retained rest of an expired task. *)
Definition remainder_task (task : MinuteAuditTask) (retainedStart nowMS : Z) : MinuteAuditTask :=
  {| MinuteAuditTask.ID := 0; MinuteAuditTask.Exchange := task.(MinuteAuditTask.Exchange);
     MinuteAuditTask.Symbol := task.(MinuteAuditTask.Symbol);
     MinuteAuditTask.MarketType := task.(MinuteAuditTask.MarketType);
     MinuteAuditTask.Kind := task.(MinuteAuditTask.Kind); MinuteAuditTask.StartMS := retainedStart;
     MinuteAuditTask.EndMS := task.(MinuteAuditTask.EndMS);
     MinuteAuditTask.ExpectedStartMS := task.(MinuteAuditTask.ExpectedStartMS);
     MinuteAuditTask.ExpectData := task.(MinuteAuditTask.ExpectData);
     MinuteAuditTask.Status := task.(MinuteAuditTask.Status);
     MinuteAuditTask.Attempts := task.(MinuteAuditTask.Attempts); MinuteAuditTask.NextAttemptMS := nowMS;
     MinuteAuditTask.LeaseUntilMS := task.(MinuteAuditTask.LeaseUntilMS);
     MinuteAuditTask.LeaseToken := task.(MinuteAuditTask.LeaseToken); MinuteAuditTask.ForceReplay := true;
     MinuteAuditTask.LastError := task.(MinuteAuditTask.LastError); MinuteAuditTask.CreatedAtMS := nowMS;
     MinuteAuditTask.UpdatedAtMS := task.(MinuteAuditTask.UpdatedAtMS) |}.

(** What to do with a due task: carry it out, or put it aside with an outcome
    and a reason. *)
Inductive decision : Type :=
| Execute
| PutAside (outcome reason : string).

Definition unavailable : decision := PutAside "blocked" "subscription or fresh official snapshot is unavailable".
Definition delisted (item : SymbolSnapshot) : decision :=
  PutAside "excluded"
    ("officially delisted or explicitly not subscribed: " ++ item.(SymbolSnapshot.SubscriptionReason))%string.

(** A task whose symbol is not among the targets. *)
Definition decide_ineligible (item : SymbolSnapshot) (sync : SymbolSnapshotSync) : gprog decision :=
  if officially_excluded item sync then
    now <- trigger Now ;;
    if item.(SymbolSnapshot.CapturedAtMS) <=? now then
      now <- trigger Now ;;
      Ret (if i64 (now - item.(SymbolSnapshot.CapturedAtMS)) <=? Z.quot cfg.(Config.SymbolMaxAge) Millisecond
           then delisted item else unavailable)
    else Ret unavailable
  else Ret unavailable.

Definition decide_task (eligible : bool) (snapshots : gmap string SymbolSnapshot)
    (snapshotSyncs : gmap string SymbolSnapshotSync) (task : MinuteAuditTask)
    : gprog (result go_error decision) :=
  now <- trigger Now ;;
  let retainedStart := retained_start now in
  if task.(MinuteAuditTask.StartMS) <? retainedStart then
    err <- (if retainedStart <=? task.(MinuteAuditTask.EndMS)
            then
              now <- trigger Now ;;
              id <- trigger (EnqueueMinuteAuditTask (remainder_task task retainedStart now)) ;;
              Ret (match id with Err e => Some e | Ok _ => None end)
            else Ret None) ;;
    Ret (match err with
         | Some e => Err e
         | None => Ok (PutAside "expired" "minute source range exceeded configured retention; retained remainder stays queued")
         end)
  else if i64 (task.(MinuteAuditTask.EndMS) + MinuteMS - 1) <? task.(MinuteAuditTask.ExpectedStartMS)
  then Ret (Ok (PutAside "excluded" "range precedes the official listing timestamp"))
  else if eligible then Ret (Ok Execute)
  else
    match snapshots !! task.(MinuteAuditTask.Symbol) with
    | None => Ret (Ok unavailable)
    | Some item =>
        d <- decide_ineligible item
               (default SymbolSnapshotSync.zero
                  (snapshotSyncs !! fetcherKey item.(SymbolSnapshot.Exchange) item.(SymbolSnapshot.MarketType))) ;;
        Ret (Ok d)
    end.

(** The official inventory as the pass reads it. *)
Definition read_snapshots (exchangeName : string)
    : gprog (result go_error (gmap string SymbolSnapshot * gmap string SymbolSnapshotSync)) :=
  if negb g.(Guardian.snapshotReader) then Ret (Ok (∅, ∅))
  else
    items <- trigger (ListSymbolSnapshots exchangeName) ;;
    match items with
    | Err e => Ret (Err e)
    | Ok items =>
        syncs <- trigger ListSymbolSnapshotSyncs ;;
        Ret (match syncs with
             | Err e => Err e
             | Ok syncs =>
                 Ok (foldl (fun m item => <[normalizeSymbol item.(SymbolSnapshot.Symbol) := item]> m) ∅ items,
                     syncs_by_scope syncs)
             end)
    end.

(** The task with the listing date of its target. *)
Definition with_listing (target : option AuditTarget) (task : MinuteAuditTask) : MinuteAuditTask :=
  match target with
  | Some t => if 0 <? t.(AuditTarget.ListedAtMS) then set_expected t.(AuditTarget.ListedAtMS) true task else task
  | None => task
  end.

(** One due task; the number of tasks processed so far goes in and out.  [Err]
    ends the loop: with the error the pass returns, or with none ([break]). *)
Definition retry_task (ctx : Ctx) (daily : bool) (bySymbol : gmap string AuditTarget)
    (snapshots : gmap string SymbolSnapshot) (snapshotSyncs : gmap string SymbolSnapshotSync)
    (processed : Z) (task : MinuteAuditTask) : gprog (result (Z * option go_error) Z) :=
  if negb (Bool.eqb (bool_decide (task.(MinuteAuditTask.Kind) = "daily")) daily) then Ret (Ok processed)
  else
    cancelled <- trigger CtxErr ;;
    match cancelled with
    | Some _ => Ret (Ok processed)
    | None =>
        if 32 <=? processed then Ret (Err (processed, None))
        else
          let processed := processed + 1 in
          let target := bySymbol !! task.(MinuteAuditTask.Symbol) in
          let task := with_listing target task in
          d <- decide_task (bool_decide (is_Some target)) snapshots snapshotSyncs task ;;
          match d, target with
          | Err e, _ => Ret (Err (processed, Some e))
          | Ok (PutAside outcome reason), _ =>
              err <- deferMinuteTask task outcome reason ;;
              Ret (match err with Some e => Err (processed, Some e) | None => Ok processed end)
          | Ok Execute, Some target =>
              _ <- executeMinuteTask ctx task target.(AuditTarget.fetcher) ;;
              Ret (Ok processed)
          | Ok Execute, None => Ret (Ok processed)
          end
    end.

Definition minuteRetryPass (ctx : Ctx) (exchangeName : string) (daily : bool) : gprog (Z * option go_error) :=
  now <- trigger Now ;;
  due <- trigger (ListDueMinuteAuditTasksByKind exchangeName (if daily then "daily" else "non_daily") now 32) ;;
  match due with
  | Err e => Ret (0, Some e)
  | Ok [] => Ret (0, None)
  | Ok due =>
      targets <- auditTargets g ;;
      match targets with
      | Err e => Ret (0, Some e)
      | Ok targets =>
          let bySymbol :=
            foldl (fun m t => if bool_decide (t.(AuditTarget.Exchange) = exchangeName)
                              then <[t.(AuditTarget.Symbol) := t]> m else m) ∅ targets in
          inventory <- read_snapshots exchangeName ;;
          match inventory with
          | Err e => Ret (0, Some e)
          | Ok (snapshots, snapshotSyncs) =>
              processed <- pfold_ok (retry_task ctx daily bySymbol snapshots snapshotSyncs) 0 due ;;
              match processed with
              | Err (processed, Some e) => Ret (processed, Some e)
              | Err (processed, None) | Ok processed => err <- trigger CtxErr ;; Ret (processed, err)
              end
          end
      end
  end.

(** ** Scheduling settled days (minute_day_audit.go) *)

(** [for day := firstDay; day <= latestDay; day += dayMS]; [None] ends with an
    error. *)
Fixpoint day_loop (fuel : nat) (target : AuditTarget) (day latestDay registered : Z) : gprog (result go_error Z) :=
  if day <=? latestDay then
    match fuel with
    | O => diverge
    | S fuel' =>
        r <- register target day (i64 (day + DayMS - MinuteMS)) "daily" "daily" ;;
        match r with
        | Err e => Ret (Err e)
        | Ok _ => day_loop fuel' target (i64 (day + DayMS)) latestDay (registered + 1)
        end
    end
  else Ret (Ok registered).
Definition day_fuel (day latestDay : Z) : nat := Z.to_nat ((latestDay - day) / DayMS + 1).

Definition schedule_target (latestDay registered : Z) (target : AuditTarget) : gprog (result go_error Z) :=
  cursor <- trigger (LoadMinuteAuditCursor target.(AuditTarget.Exchange) target.(AuditTarget.Symbol) "daily") ;;
  match cursor with
  | Err e => Ret (Err e)
  | Ok cursor =>
      let firstDay := match cursor with
                      | Some c => FloorStartMS (i64 (c.(MinuteAuditCursor.ThroughMS) + MinuteMS)) F1D
                      | None => latestDay
                      end in
      now <- trigger Now ;;
      let oldestDay := i64 (FloorStartMS (before_ms now cfg.(Config.MinuteRetention)) F1D + DayMS) in
      firstDay <- (if (firstDay <? oldestDay) && (firstDay <=? latestDay) then
                     r <- register target firstDay (i64 (oldestDay - MinuteMS)) "daily" "daily" ;;
                     Ret (match r with Err e => Err e | Ok _ => Ok oldestDay end)
                   else Ret (Ok firstDay)) ;;
      match firstDay with
      | Err e => Ret (Err e)
      | Ok firstDay => day_loop (day_fuel firstDay latestDay) target firstDay latestDay registered
      end
  end.

Definition MinuteDayAuditOnce : gprog (option go_error) :=
  if negb g.(Guardian.taskStore)
  then Ret (Some (Errorf "minute day audit requires a durable minute audit task store"))
  else
    targets <- auditTargets g ;;
    match targets with
    | Err e => Ret (Some e)
    | Ok targets =>
        now <- trigger Now ;;
        let latestDay := i64 (FloorStartMS (before_ms now cfg.(Config.MinuteDayAuditOffset)) F1D - DayMS) in
        if latestDay <=? 0 then Ret None
        else
          r <- pfold_ok (schedule_target latestDay) 0 targets ;;
          Ret (match r with Err e => Some e | Ok _ => None end)
    end.
End minute.
