(* ===== verification/GuardianMinuteSpec.v ===== *)
(** * What the minute tasks guarantee (internal/guardian/durable_minute_audit.go)

    A task is acknowledged only by a repair that returned no error
    (minute_task_outcome); the cursor of a symbol never passes a minute that no
    task was registered for (window_cursor_covered). *)

From S2P Require Export GuardianMinute.

Local Open Scope string_scope.
Local Open Scope Z_scope.
Local Open Scope list_scope.

(** ** The outcome of a task *)

(** The calls on tasks that a repair does not make. *)
Definition task_call (c : call guardianE) : bool :=
  match c with
  | Call e _ =>
      match e with
      | EnqueueMinuteAuditTask _ | LoadMinuteAuditTask _ | LeaseMinuteAuditTask _ _ _ _
      | FinishMinuteAuditTask _ _ _ _ _ _ _ | LoadMinuteAuditCursor _ _ _ | SaveMinuteAuditCursor _ => true
      | _ => false
      end
  end.
Definition no_task_calls : list (call guardianE) → Prop := all_calls (λ c, task_call c = false).

Lemma repair_no_task_calls g ctx fetcher request : each no_task_calls (repairTimeframeRange g ctx fetcher request).
Proof.
  apply repairTimeframeRange_each; [typeclasses eauto| |].
  - intros X e He. apply each_trigger. intros x. apply Forall_singleton. by destruct e.
  - intros r status. unfold upsertTimeframeAuditState.
    repeat (each_step || (cbv zeta) || (apply each_trigger; intros ?; by apply Forall_singleton)).
Qed.

(** How a finished task was finished. *)
Record FinishCall : Type := {
  fin_id : Z; fin_token : string; fin_outcome : string; fin_next : Z; fin_force : bool; fin_error : string }.
Definition finish_call (c : call guardianE) : option FinishCall :=
  match c with
  | Call e _ =>
      match e with
      | FinishMinuteAuditTask id token outcome next force lastError _ =>
          Some (Build_FinishCall id token outcome next force lastError)
      | _ => None
      end
  end.

Lemma no_task_calls_finish tr c : no_task_calls tr → c ∈ tr → finish_call c = None.
Proof.
  intros H Hc. unfold no_task_calls, all_calls in H. rewrite Forall_forall in H. specialize (H c Hc).
  destruct c as [X e x]. by destruct e.
Qed.

Lemma executeLeased_finish g ctx task token fetcher tr r c fin :
  runs (executeLeasedMinuteTask g ctx task token fetcher) tr r → c ∈ tr → finish_call c = Some fin →
  fin.(fin_id) = task.(MinuteAuditTask.ID) ∧ fin.(fin_token) = token ∧
  ∃ tr' ctx' result err, (∀ c, c ∈ tr' → c ∈ tr) ∧
    runs (repairTimeframeRange g ctx' fetcher (task_request task)) tr' (result, err) ∧
    fin.(fin_force) = bool_decide (is_Some err) ∧
    match err with
    | None => fin.(fin_outcome) = "completed"
    | Some e => fin.(fin_outcome) = failed_outcome e ∧ ∃ now, Call Now now ∈ tr ∧
        fin.(fin_next) = i64 (now + Z.quot (minuteRetryDelay task.(MinuteAuditTask.Attempts)) Millisecond)
    end.
Proof.
  unfold executeLeasedMinuteTask. cbv zeta. intros H Hc Hfin.
  apply runs_bind in H as (tr1 & [result err] & tr2 & -> & Hrep & H).
  apply runs_bind in H as (tr3 & [[outcome next] lastError] & tr4 & -> & Hout & H).
  apply runs_bind in H as (tr5 & now & tr6 & -> & Hnow & H). apply runs_trigger in Hnow as ->.
  apply runs_bind in H as (tr7 & finishErr & tr8 & -> & Hf & H). apply runs_trigger in Hf as ->.
  apply runs_Ret in H as [-> ->].
  assert (Hcase : match err with
    | None => outcome = "completed" ∧ tr3 = []
    | Some e => outcome = failed_outcome e ∧ ∃ now, tr3 = [Call Now now] ∧
        next = i64 (now + Z.quot (minuteRetryDelay task.(MinuteAuditTask.Attempts)) Millisecond)
    end).
  { destruct err as [e|]; [|by repeat run_step]. apply runs_bind in Hout as (tr7 & n & tr8 & -> & Hn & Ho).
    apply runs_trigger in Hn as ->. apply runs_Ret in Ho as [-> [= -> -> _]]. split; [done|]. by exists n. }
  assert (fin = Build_FinishCall task.(MinuteAuditTask.ID) token outcome next (bool_decide (is_Some err)) lastError) as ->.
  { rewrite !elem_of_app in Hc. destruct Hc as [Hc|[Hc|[Hc|[Hc|Hc]]]].
    - by rewrite (no_task_calls_finish _ _ (repair_no_task_calls _ _ _ _ _ _ Hrep) Hc) in Hfin.
    - destruct err as [e|]; [|destruct Hcase as [_ ->]; by apply elem_of_nil in Hc].
      destruct Hcase as (_ & n & -> & _). apply list_elem_of_singleton in Hc as ->. done.
    - apply list_elem_of_singleton in Hc as ->. done.
    - apply list_elem_of_singleton in Hc as ->. by injection Hfin as <-.
    - by apply elem_of_nil in Hc. }
  split; [done|]. split; [done|]. eexists tr1, _, result, err. split; [intros; in_trace|]. split; [exact Hrep|].
  split; [done|]. destruct err as [e|]; [|by destruct Hcase]. destruct Hcase as (Ho & n & -> & Hn).
  split; [done|]. exists n. split; [in_trace|done].
Qed.

Lemma restored_ID task stored : (restored task stored).(MinuteAuditTask.ID) = stored.(MinuteAuditTask.ID).
Proof. unfold restored. by case_bool. Qed.

Lemma noticed_mono tr tr' : (∀ c, c ∈ tr → c ∈ tr') → noticed tr → noticed tr'.
Proof. intros Hsub (c & ? & ?). exists c. auto. Qed.

(** What the outcome given to a task says of the repair of its range. *)
Definition outcome_of (g : Guardian) (task : MinuteAuditTask) (tr : list (call guardianE)) (fin : FinishCall) : Prop :=
  fin.(fin_outcome) = "completed" ∧ fin.(fin_force) = false ∧
    (∃ result, answered g F1m (floored F1m (normalize_request (task_request task) F1m)) tr result) ∨
  (fin.(fin_outcome) = "retry" ∨ fin.(fin_outcome) = "blocked") ∧ fin.(fin_force) = true ∧ noticed tr ∧
    ∃ now, Call Now now ∈ tr ∧
      fin.(fin_next) = i64 (now + Z.quot (minuteRetryDelay task.(MinuteAuditTask.Attempts)) Millisecond).

(** C4: a minute task is acknowledged only by a repair that returned no error.
    Whenever [executeMinuteTask] finishes a task, it finishes the stored one,
    under a lease that was granted for ten minutes to the same token; the
    outcome is [completed] only when the repair of the task's range has
    established what [repair_certifies] says, and otherwise the task goes back
    to [retry] or [blocked], to be replayed after the delay for its number of
    attempts, and the failure shows in the trace. *)
Theorem minute_task_outcome g ctx task fetcher tr r c fin :
  runs (executeMinuteTask g ctx task fetcher) tr r → c ∈ tr → finish_call c = Some fin →
  ∃ stored now,
    Call (LoadMinuteAuditTask task.(MinuteAuditTask.ID)) (Ok (Some stored)) ∈ tr ∧
    Call (LeaseMinuteAuditTask fin.(fin_id) fin.(fin_token) now (i64 (now + 600000))) (Ok true) ∈ tr ∧
    fin.(fin_id) = stored.(MinuteAuditTask.ID) ∧ outcome_of g (restored task stored) tr fin.
Proof.
  intros (tr' & -> & H)%with_lock_runs Hc Hfin.
  assert (Hc' : c ∈ tr').
  { rewrite elem_of_cons, elem_of_app, list_elem_of_singleton in Hc. destruct Hc as [->|[Hc| ->]]; done. }
  clear Hc. unfold unless_cancelled, or_return in H.
  apply runs_bind in H as (tr1 & err & tr2 & -> & H1 & H). apply runs_trigger in H1 as ->.
  apply elem_of_app in Hc' as [->%list_elem_of_singleton|Hc]; [done|].
  destruct err as [e|]; [repeat run_step; by apply elem_of_nil in Hc|]. unfold execute_locked in H. cbv zeta in H.
  apply runs_bind in H as (tr3 & stored & tr4 & -> & H1 & H). apply runs_trigger in H1 as ->.
  apply elem_of_app in Hc as [->%list_elem_of_singleton|Hc]; [done|].
  destruct stored as [[stored|]|e]; [|repeat run_step; by apply elem_of_nil in Hc..].
  apply runs_bind in H as (tr5 & token & tr6 & -> & H1 & H). apply runs_trigger in H1 as ->.
  apply elem_of_app in Hc as [->%list_elem_of_singleton|Hc]; [done|].
  destruct token as [token|e]; [|repeat run_step; by apply elem_of_nil in Hc].
  apply runs_bind in H as (tr7 & now & tr8 & -> & H1 & H). apply runs_trigger in H1 as ->.
  apply elem_of_app in Hc as [->%list_elem_of_singleton|Hc]; [done|].
  apply runs_bind in H as (tr9 & leased & tr10 & -> & H1 & H). apply runs_trigger in H1 as ->.
  apply elem_of_app in Hc as [->%list_elem_of_singleton|Hc]; [done|].
  destruct leased as [[|]|e]; [|repeat run_step; by apply elem_of_nil in Hc..].
  destruct (executeLeased_finish _ _ _ _ _ _ _ _ _ H Hc Hfin) as (Hid & Htok & trr & ctx' & result & err & Hsub & Hrep & Hforce & Hout).
  exists stored, now. rewrite restored_ID in Hid. split; [in_trace|]. split; [|split; [done|]].
  { rewrite Hid, Htok. rewrite restored_ID. in_trace. }
  destruct err as [e|].
  - right. destruct Hout as (Ho & n & Hn & Hnext). split_and!.
    + rewrite Ho. unfold failed_outcome. case_bool; [by right|by left].
    + done.
    + eapply noticed_mono; [|exact (left_noticed_noticed _ _ _ _ (repair_failure_noticed_spec _ _ _ (task_request (restored task stored)) F1m _ _ _ eq_refl Hrep))]. intros x Hx. specialize (Hsub x Hx). in_trace.
    + exists n. split; [in_trace|done].
  - left. split; [done|]. split; [done|]. exists result.
    eapply answered_mono; [|exact (repair_certifies_spec _ _ _ (task_request (restored task stored)) F1m _ _ eq_refl Hrep)].
    intros x Hx. specialize (Hsub x Hx). in_trace.
Qed.

(** *** An example: the second of two minutes is missing *)

Definition sample_minute (start price : Z) : Bar :=
  Bar.set_Timeframe "1m" (Bar.set_EndMS (start + 59999) (sample_hour start price)).

Definition sample_task : MinuteAuditTask :=
  {| MinuteAuditTask.ID := 7; MinuteAuditTask.Exchange := "okx"; MinuteAuditTask.Symbol := "BTC";
     MinuteAuditTask.MarketType := "swap"; MinuteAuditTask.Kind := "window"; MinuteAuditTask.StartMS := 3600000;
     MinuteAuditTask.EndMS := 3660000; MinuteAuditTask.ExpectedStartMS := 60000; MinuteAuditTask.ExpectData := true;
     MinuteAuditTask.Status := "pending"; MinuteAuditTask.Attempts := 0; MinuteAuditTask.NextAttemptMS := 0;
     MinuteAuditTask.LeaseUntilMS := 0; MinuteAuditTask.LeaseToken := ""; MinuteAuditTask.ForceReplay := false;
     MinuteAuditTask.LastError := ""; MinuteAuditTask.CreatedAtMS := 0; MinuteAuditTask.UpdatedAtMS := 0 |}.

Definition minute_answers : handler guardianE unit := fun X e _ =>
  match e in guardianE X return option (X * unit) with
  | CtxErr => Some (None, tt)
  | RandRead => Some (Ok "0a", tt)
  | Lock _ => Some (tt, tt)
  | Unlock _ => Some (tt, tt)
  | BarsInRange _ _ _ _ _ => Some (Ok [sample_minute 3600000 100], tt)
  | FetchKlines _ _ _ => Some (Ok [sample_minute 3660000 101; sample_minute 3600000 100], tt)
  | VerifyFinalBars _ _ => Some (None, tt)
  | LoadMinuteAuditTask _ => Some (Ok (Some sample_task), tt)
  | LeaseMinuteAuditTask _ _ _ _ => Some (Ok true, tt)
  | FinishMinuteAuditTask _ _ _ _ _ _ _ => Some (None, tt)
  | EnqueueMinuteAuditTask _ => Some (Ok 7, tt)
  | LoadMinuteAuditCursor _ _ _ => Some (Ok (Some (MinuteAuditCursor.mk "okx" "BTC" "window" 3540000 0)), tt)
  | SaveMinuteAuditCursor _ => Some (None, tt)
  | e => sample_answers _ e tt
  end.

Lemma minute_task_outcome_witness :
  ∃ tr r c fin, runs (executeMinuteTask sample_guardian Ctx.background sample_task sample_fetcher) tr r ∧
    c ∈ tr ∧ finish_call c = Some fin ∧ fin.(fin_outcome) = "completed" ∧
    ∃ stored now,
      Call (LoadMinuteAuditTask 7) (Ok (Some stored)) ∈ tr ∧
      Call (LeaseMinuteAuditTask fin.(fin_id) fin.(fin_token) now (i64 (now + 600000))) (Ok true) ∈ tr ∧
      fin.(fin_id) = stored.(MinuteAuditTask.ID) ∧ outcome_of sample_guardian (restored sample_task stored) tr fin.
Proof.
  destruct (exec minute_answers (executeMinuteTask sample_guardian Ctx.background sample_task sample_fetcher) tt)
    as [[[tr r] w]|] eqn:E; [|vm_compute in E; discriminate].
  pose proof (exec_runs _ _ _ _ _ _ E) as Hruns.
  assert (Hc : ∃ c fin, c ∈ tr ∧ finish_call c = Some fin ∧ fin.(fin_outcome) = "completed").
  { destruct (List.find (fun c => bool_decide (is_Some (finish_call c))) tr) as [c|] eqn:Ef;
      [|exfalso; vm_compute in E; injection E as <- _ _; vm_compute in Ef; discriminate].
    destruct (find_some _ _ Ef) as [Hin Hs]. destruct (finish_call c) as [fin|] eqn:Efin;
      [|vm_compute in Hs; discriminate].
    exists c, fin. split; [by apply list_elem_of_In|]. split; [done|].
    vm_compute in E. injection E as <- _ _. vm_compute in Ef. injection Ef as <-. vm_compute in Efin.
    injection Efin as <-. reflexivity. }
  destruct Hc as (c & fin & Hin & Hfin & Ho). exists tr, r, c, fin.
  split; [exact Hruns|]. split; [exact Hin|]. split; [exact Hfin|]. split; [exact Ho|].
  exact (minute_task_outcome sample_guardian Ctx.background sample_task sample_fetcher tr r c fin Hruns Hin Hfin).
Defined.

(** ** The cursor never passes a minute without a task *)

Definition on_minute (ms : Z) : Prop := ms mod MinuteMS = 0.
Definition small (z : Z) : Prop := - 2 ^ 60 <= z <= 2 ^ 60.

(** The task an accepted registration stores, and the cursor a call saves. *)
Definition enqueued (c : call guardianE) : option MinuteAuditTask :=
  match c with
  | Call e x =>
      match e in guardianE X return X → option MinuteAuditTask with
      | EnqueueMinuteAuditTask task => fun x => match x with Ok _ => Some task | Err _ => None end
      | _ => fun _ => None
      end x
  end.
Definition saved_cursor (c : call guardianE) : option MinuteAuditCursor :=
  match c with Call e _ => match e with SaveMinuteAuditCursor cursor => Some cursor | _ => None end end.

(** The task holds the minute [m] of the symbol of [target]. *)
Definition holds_minute (target : AuditTarget) (m : Z) (task : MinuteAuditTask) : Prop :=
  task.(MinuteAuditTask.Exchange) = normalizeExchange target.(AuditTarget.Exchange) ∧
  task.(MinuteAuditTask.Symbol) = normalizeSymbol target.(AuditTarget.Symbol) ∧
  task.(MinuteAuditTask.StartMS) <= m <= task.(MinuteAuditTask.EndMS).

(** Every minute from [lo] to [hi] was registered. *)
Definition covered (target : AuditTarget) (tr : list (call guardianE)) (lo hi : Z) : Prop :=
  ∀ m, on_minute m → lo <= m <= hi → ∃ c task, c ∈ tr ∧ enqueued c = Some task ∧ holds_minute target m task.

(** After the calls [pre], the calls [tr] save only cursors up to which every
    minute from [lo] on was registered before. *)
Definition cursors_covered (target : AuditTarget) (lo : Z) (pre tr : list (call guardianE)) : Prop :=
  ∀ tr1 c tr2 cursor, tr = tr1 ++ c :: tr2 → saved_cursor c = Some cursor →
    covered target (pre ++ tr1) lo cursor.(MinuteAuditCursor.ThroughMS).

Lemma covered_app_l target tr tr' lo hi : covered target tr lo hi → covered target (tr ++ tr') lo hi.
Proof. intros H m Hm Hr. destruct (H m Hm Hr) as (c & task & ? & ?). exists c, task. split; [in_trace|done]. Qed.

Lemma cursors_covered_app target lo pre tr1 tr2 :
  cursors_covered target lo pre tr1 → cursors_covered target lo (pre ++ tr1) tr2 →
  cursors_covered target lo pre (tr1 ++ tr2).
Proof.
  intros H1 H2 a c b cursor Heq Hc. apply app_eq_app in Heq as (l & [[-> E]|[-> E]]).
  - destruct l as [|c' l]; simpl in E.
    + specialize (H2 [] c b cursor ltac:(done) Hc). by rewrite !app_nil_r in *.
    + injection E as <- ->. by apply (H1 a c l cursor).
  - specialize (H2 l c b cursor E Hc). by rewrite <- app_assoc in H2.
Qed.

Lemma cursors_covered_none target lo pre tr :
  Forall (λ c, saved_cursor c = None) tr → cursors_covered target lo pre tr.
Proof.
  intros H a c b cursor -> Hc. apply Forall_app in H as [_ H]. apply Forall_cons in H as [H _]. congruence.
Qed.

Lemma floor_on_minute s : on_minute s → small s → FloorStartMS s F1m = s.
Proof.
  unfold on_minute, small, MinuteMS. intros H1 H2. cbv [FloorStartMS fixedMinuteFrames].
  rewrite (i64_id (1 * MinuteMS)) by (unfold int64_range, two63, MinuteMS; lia).
  replace (Z.quot s (1 * MinuteMS) * (1 * MinuteMS)) with s by (unfold MinuteMS; zdiv).
  apply i64_id. unfold int64_range, two63. lia.
Qed.

Lemma floor_minute_on s :
  - 2 ^ 62 <= s <= 2 ^ 62 → on_minute (FloorStartMS s F1m) ∧ s - 60000 <= FloorStartMS s F1m <= s + 60000.
Proof.
  unfold on_minute, MinuteMS. intros H. cbv [FloorStartMS fixedMinuteFrames].
  rewrite (i64_id (1 * MinuteMS)) by (unfold int64_range, two63, MinuteMS; lia).
  rewrite i64_id by (unfold int64_range, two63, MinuteMS; zdiv). unfold MinuteMS. zdiv.
Qed.

(** Registering the range that comes next. *)
Lemma register_covered target a b kind ck lo pre tr r :
  on_minute a → small a → on_minute b → small b →
  covered target pre lo (a - 1) →
  runs (register target a b kind ck) tr r →
  cursors_covered target lo pre tr ∧ (∀ id, r = Ok id → covered target (pre ++ tr) lo b).
Proof.
  intros Ha Hsa Hb Hsb Hpre H. unfold register, newMinuteTask, saveMinuteCursor in H.
  apply runs_bind in H as (tr1 & task & tr2 & -> & H1 & H).
  apply runs_bind in H1 as (tr3 & now & tr4 & -> & H1 & H2). apply runs_trigger in H1 as ->.
  apply runs_Ret in H2 as [-> ->].
  apply runs_bind in H as (tr3 & id & tr4 & -> & H1 & H). apply runs_trigger in H1 as ->.
  destruct id as [id|e].
  - apply runs_bind in H as (tr5 & err & tr6 & -> & H1 & H).
    apply runs_bind in H1 as (tr7 & now2 & tr8 & -> & H1 & H2). apply runs_trigger in H1 as ->.
    apply runs_trigger in H2 as ->. apply runs_Ret in H as [-> ->].
    set (task := new_task target a b kind now).
    assert (Hcov : ∀ l, Call (EnqueueMinuteAuditTask task) (Ok id) ∈ l → (∀ c, c ∈ pre → c ∈ l) → covered target l lo b).
    { intros l Hin Hsub m Hm Hr. destruct (decide (m < a)).
      - destruct (Hpre m Hm ltac:(lia)) as (c & t & Hc & ?). exists c, t. auto.
      - exists (Call (EnqueueMinuteAuditTask task) (Ok id)), task. split; [done|]. split; [done|].
        unfold holds_minute, task. simpl. rewrite !floor_on_minute by done. split_and!; [done|done|lia|lia]. }
    split.
    + intros l1 c l2 cursor Heq Hc. destruct l1 as [|c1 [|c2 [|c3 [|c4 [|]]]]]; simplify_eq/=.
      apply Hcov; [in_trace|intros c Hc'; in_trace].
    + intros id' _. apply Hcov; [in_trace|intros c Hc'; in_trace].
  - apply runs_Ret in H as [-> ->]. split; [|done]. apply cursors_covered_none. by repeat constructor.
Qed.

(** The clock reading and the cursor a call returned. *)
Definition reading (c : call guardianE) : option Z :=
  match c with
  | Call e x => match e in guardianE X return X → option Z with Now => fun x => Some x | _ => fun _ => None end x
  end.
Definition loaded_cursor (c : call guardianE) : option (option MinuteAuditCursor) :=
  match c with
  | Call e x =>
      match e in guardianE X return X → option (option MinuteAuditCursor) with
      | LoadMinuteAuditCursor _ _ _ => fun x => match x with Ok cursor => Some cursor | Err _ => None end
      | _ => fun _ => None
      end x
  end.

(** Clock readings and stored cursors are in range, and the cursors are minutes. *)
Record sane (tr : list (call guardianE)) : Prop := {
  sane_now : ∀ c now, c ∈ tr → reading c = Some now → small now;
  sane_cursor : ∀ c cursor, c ∈ tr → loaded_cursor c = Some (Some cursor) →
    on_minute cursor.(MinuteAuditCursor.ThroughMS) ∧ small cursor.(MinuteAuditCursor.ThroughMS) }.

Lemma retained_start_on g now :
  int64_range g.(Guardian.cfg).(Config.MinuteRetention) → small now → on_minute (retained_start g now).
Proof.
  intros Hr Hn. unfold retained_start.
  assert (Hb : - 2 ^ 61 <= before_ms now g.(Guardian.cfg).(Config.MinuteRetention) <= 2 ^ 61).
  { unfold before_ms, small, int64_range, two63 in *. zdiv. }
  destruct (floor_minute_on (before_ms now g.(Guardian.cfg).(Config.MinuteRetention)) ltac:(lia)) as [H1 H2].
  unfold on_minute, MinuteMS in *. rewrite i64_id by (unfold int64_range, two63; lia). zdiv.
Qed.

Lemma register_expired_covered target from startMS retained lo pre tr r :
  on_minute from → - 2 ^ 60 <= from → on_minute startMS → small startMS → on_minute retained → int64_range retained →
  covered target pre lo (from - 1) →
  runs (register_expired target from startMS retained) tr r →
  cursors_covered target lo pre tr ∧
  (∀ from', r = Ok from' → on_minute from' ∧ from <= from' ∧ covered target (pre ++ tr) lo (from' - 1)).
Proof.
  intros Hf Hf0 Hs Hss Hr Hr0 Hpre H. unfold register_expired in H.
  destruct ((from <? retained) && (from <? startMS)) eqn:E.
  - apply andb_true_iff in E as [E1 E2]. zbool. cbv zeta in H. set (e := if startMS <=? _ then _ else _) in H.
    assert (He : on_minute e ∧ from <= e < startMS ∧ e + MinuteMS = i64 (e + MinuteMS)).
    { unfold small, on_minute, MinuteMS, int64_range, two63 in *.
      assert (i64 (retained - 60000) = retained - 60000) as Hi by (apply i64_id; unfold int64_range, two63; lia).
      assert (i64 (startMS - 60000) = startMS - 60000) as Hi' by (apply i64_id; unfold int64_range, two63; lia).
      subst e. rewrite Hi, Hi'. destruct (startMS <=? retained - 60000) eqn:E'; zbool;
        (split; [zdiv|split; [zdiv|rewrite i64_id; [done|unfold int64_range, two63; lia]]]). }
    destruct He as (He1 & He2 & He3). apply runs_bind in H as (tr1 & id & tr2 & -> & Hreg & H).
    unfold small in *. destruct (register_covered _ _ _ _ _ lo pre _ _ Hf ltac:(unfold small; lia) He1 ltac:(unfold small; lia) Hpre Hreg) as [Hc Hok].
    apply runs_Ret in H as [-> ->]. rewrite app_nil_r. split; [done|].
    destruct id as [id|err]; [|done]. intros from' [= <-]. rewrite <- He3. split.
    + unfold on_minute, MinuteMS in *. zdiv.
    + split; [unfold MinuteMS; lia|]. intros m Hm Hr'. apply (Hok id eq_refl m Hm). unfold on_minute, MinuteMS in *. zdiv.
  - apply runs_Ret in H as [-> ->]. rewrite app_nil_r. split; [apply cursors_covered_none; constructor|].
    by intros from' [= <-].
Qed.

Lemma catchup_end_on from startMS :
  on_minute from → - 2 ^ 60 <= from → on_minute startMS → small startMS → from < startMS →
  let e := catchup_end from startMS in
  on_minute e ∧ from <= e < startMS ∧ i64 (e + MinuteMS) = e + MinuteMS ∧ on_minute (e + MinuteMS) ∧
  (e + MinuteMS = startMS ∨ e + MinuteMS = from + DayMS).
Proof.
  unfold catchup_end, on_minute, small, MinuteMS, HourMS, DayMS. intros H1 H2 H3 H4 H5.
  rewrite (i64_id (from + 24 * 3600000 - 60000)), (i64_id (startMS - 60000)) by (unfold int64_range, two63; lia).
  cbv zeta. destruct (startMS <=? from + 24 * 3600000 - 60000) eqn:E; zbool;
    (rewrite i64_id by (unfold int64_range, two63; lia)); split_and!; zdiv.
Qed.

Lemma catchup_loop_covered fuel target from startMS lo pre tr r :
  on_minute from → - 2 ^ 60 <= from → on_minute startMS → small startMS →
  covered target pre lo (from - 1) →
  runs (catchup_loop fuel target from startMS) tr r →
  cursors_covered target lo pre tr ∧
  (∀ from', r = Ok from' → startMS <= from' ∧ covered target (pre ++ tr) lo (from' - 1)).
Proof.
  intros Hf Hf0 Hs Hss. revert from Hf Hf0 pre tr. induction fuel as [|fuel IH]; intros from Hf Hf0 pre tr Hpre H; cbn [catchup_loop] in H.
  - destruct (from <? startMS) eqn:E; [by apply runs_diverge in H|]. apply runs_Ret in H as [-> ->]. zbool.
    rewrite app_nil_r. split; [apply cursors_covered_none; constructor|]. by intros from' [= <-].
  - destruct (from <? startMS) eqn:E; zbool; cbv zeta in H.
    + destruct (catchup_end_on from startMS Hf Hf0 Hs Hss E) as (He1 & He2 & He3 & He4 & _).
      apply runs_bind in H as (tr1 & id & tr2 & -> & Hreg & H).
      pose proof Hss as Hss'. unfold small in Hss'.
      destruct (register_covered _ _ _ _ _ lo pre _ _ Hf ltac:(unfold small; lia) He1 ltac:(unfold small; lia) Hpre Hreg)
        as [Hc Hok].
      destruct id as [id|err].
      * rewrite He3 in H. destruct (IH _ He4 ltac:(unfold MinuteMS; lia) (pre ++ tr1) tr2) as [Hc2 Hok2]; [|done|].
        { intros m Hm Hr. apply (Hok id eq_refl m Hm). unfold on_minute, MinuteMS in *. zdiv. }
        split; [by apply cursors_covered_app|]. intros from' Hr. rewrite app_assoc. by apply Hok2.
      * apply runs_Ret in H as [-> ->]. rewrite app_nil_r. split; [done|]. done.
    + apply runs_Ret in H as [-> ->]. rewrite app_nil_r. split; [apply cursors_covered_none; constructor|].
      by intros from' [= <-].
Qed.

(** Neither a repair nor carrying out a task saves a cursor. *)
Definition no_saves : list (call guardianE) → Prop := all_calls (λ c, saved_cursor c = None).

Lemma no_task_calls_no_saves tr : no_task_calls tr → no_saves tr.
Proof. intros H. eapply Forall_impl; [exact H|]. intros [X e x]. by destruct e. Qed.

Lemma repair_no_saves g ctx fetcher request : each no_saves (repairTimeframeRange g ctx fetcher request).
Proof. intros tr a H. eapply no_task_calls_no_saves, repair_no_task_calls, H. Qed.
#[local] Hint Resolve repair_no_saves : each.
#[local] Hint Extern 2 (each no_saves (trigger _)) => apply each_trigger; intros; apply Forall_singleton; reflexivity : each.

Lemma executeMinuteTask_no_saves g ctx task fetcher : each no_saves (executeMinuteTask g ctx task fetcher).
Proof.
  unfold no_saves, executeMinuteTask, with_lock, unless_cancelled, or_return, execute_locked, executeLeasedMinuteTask.
  fold no_saves. each_auto.
Qed.

(** The first minute a window must cover: the one after the cursor, or the start
    of the window when there is none. *)
Definition first_minute (startMS : Z) (loaded : option MinuteAuditCursor) : Z :=
  match loaded with Some c => i64 (c.(MinuteAuditCursor.ThroughMS) + MinuteMS) | None => startMS end.

(** Before each saved cursor, a cursor was loaded and every minute from the one
    after it up to the one saved was registered. *)
Definition cursor_follows (target : AuditTarget) (first : option MinuteAuditCursor → Z) (tr : list (call guardianE))
    : Prop :=
  ∀ tr1 c tr2 cursor, tr = tr1 ++ c :: tr2 → saved_cursor c = Some cursor →
  ∃ c' loaded, c' ∈ tr1 ∧ loaded_cursor c' = Some loaded ∧
    covered target tr1 (first loaded) cursor.(MinuteAuditCursor.ThroughMS).

Lemma cursor_follows_none target first tr : no_saves tr → cursor_follows target first tr.
Proof.
  intros H tr1 c tr2 cursor -> Hc. apply Forall_app in H as [_ H]. apply Forall_cons in H as [H _]. congruence.
Qed.

Lemma cursor_follows_cons target (first : option MinuteAuditCursor → Z) c loaded tr :
  saved_cursor c = None → loaded_cursor c = Some loaded → cursors_covered target (first loaded) [c] tr →
  cursor_follows target first (c :: tr).
Proof.
  intros Hc Hl H tr1 c' tr2 cursor Heq Hc'. destruct tr1 as [|c1 tr1];
    [injection Heq as <- _; congruence|]. injection Heq as <- ->.
  exists c, loaded. split; [by left|]. split; [done|]. by apply (H tr1 c' tr2).
Qed.

(** C3: the window cursor never passes a minute without a task.  In a round on
    one symbol, whenever [auditMinuteWindow] saves the cursor, every minute from
    the one after the cursor it loaded (or from the start of the window, on the
    first round) up to the saved one lies in a task of the symbol that was
    accepted before: after a downtime of any length the gap is queued, in pieces,
    before the watermark moves. *)
Theorem window_cursor_covered g ctx target startMS endMS tr r :
  int64_range g.(Guardian.cfg).(Config.MinuteRetention) →
  on_minute startMS → small startMS → on_minute endMS → small endMS → sane tr →
  runs (auditMinuteWindow g ctx target startMS endMS) tr r →
  g.(Guardian.taskStore) = true → cursor_follows target (first_minute startMS) tr.
Proof.
  intros Hret Hs Hss He Hes Hsane H Htask. unfold auditMinuteWindow in H. rewrite Htask in H. cbv zeta in H.
  cbn [negb] in H.
  apply runs_bind in H as (tr1 & loaded & tr2 & -> & H1 & H). apply runs_trigger in H1 as ->.
  destruct loaded as [loaded|e]; [|apply runs_Ret in H as [-> ->]; apply cursor_follows_none; by repeat constructor].
  apply (cursor_follows_cons _ _ _ loaded); [done|done|].
  fold (first_minute startMS loaded) in H. set (from := first_minute startMS loaded) in *.
  assert (Hfrom : on_minute from ∧ - 2 ^ 60 <= from).
  { destruct loaded as [cur|]; [|split; [done|subst from; unfold first_minute, small in *; lia]].
    destruct (sane_cursor _ Hsane (Call (LoadMinuteAuditCursor target.(AuditTarget.Exchange) target.(AuditTarget.Symbol)
                "window") (Ok (Some cur))) cur) as [Hm Hsm]; [by left|done|].
    subst from. unfold first_minute, small, on_minute, MinuteMS in *. rewrite i64_id by (unfold int64_range, two63; lia).
    split; [zdiv|lia]. }
  destruct Hfrom as [Hf Hf0]. set (pre := [Call _ _]) in *.
  assert (Hpre : covered target pre from (from - 1)) by (intros m _ ?; lia).
  apply runs_bind in H as (tr3 & now & tr4 & -> & H1 & H). apply runs_trigger in H1 as ->.
  assert (Hnow : small now) by (eapply (sane_now _ Hsane (Call Now now)); [in_trace|done]).
  apply cursors_covered_app; [apply cursors_covered_none; by repeat constructor|].
  assert (Hpre' : covered target (pre ++ [Call Now now]) from (from - 1)) by (by apply covered_app_l).
  clear Hpre. revert Hpre'. generalize (pre ++ [Call Now now]) as pre1. intros pre1 Hpre.
  apply runs_bind in H as (tr5 & from1 & tr6 & -> & Hexp & H).
  destruct (register_expired_covered _ _ _ _ from pre1 _ _ Hf Hf0 Hs Hss (retained_start_on g now Hret Hnow)
              (i64_range _) Hpre Hexp) as [Hc1 Hok1].
  apply cursors_covered_app; [done|].
  destruct from1 as [from1|e]; [|apply runs_Ret in H as [-> ->]; apply cursors_covered_none; constructor].
  destruct (Hok1 from1 eq_refl) as (Hf1 & Hle1 & Hcov1).
  apply runs_bind in H as (tr7 & from2 & tr8 & -> & Hloop & H).
  destruct (catchup_loop_covered _ _ _ _ from _ _ _ Hf1 ltac:(lia) Hs Hss Hcov1 Hloop) as [Hc2 Hok2].
  apply cursors_covered_app; [done|].
  destruct from2 as [from2|e]; [|apply runs_Ret in H as [-> ->]; apply cursors_covered_none; constructor].
  destruct (Hok2 from2 eq_refl) as (Hle2 & Hcov2). revert Hcov2. generalize ((pre1 ++ tr5) ++ tr7) as pre2. intros pre2 Hcov2.
  (* the window itself, as one more registration *)
  assert (Hreg : ∃ tra trb rr, tr8 = tra ++ trb ∧ runs (register target startMS endMS "window" "window") tra rr ∧ no_saves trb).
  { clear -H. apply runs_bind in H as (t1 & task & t2 & -> & H1 & H).
    apply runs_bind in H as (t3 & id & t4 & -> & H2 & H).
    destruct id as [id|e].
    - apply runs_bind in H as (t5 & err & t6 & -> & H3 & H).
      exists (t1 ++ t3 ++ t5), t6, (match err with Some e => Err e | None => Ok id end).
      split; [by rewrite <- !app_assoc|]. split.
      + unfold register. apply runs_bind. eexists t1, task, _. split; [done|]. split; [done|].
        apply runs_bind. eexists t3, (Ok id), _. split; [done|]. split; [done|].
        apply runs_bind. eexists t5, err, []. split; [by rewrite app_nil_r|]. split; [done|]. apply runs_Ret. done.
      + destruct err; [apply runs_Ret in H as [-> ->]; constructor|]. by eapply executeMinuteTask_no_saves.
    - apply runs_Ret in H as [-> ->]. exists (t1 ++ t3), [], (Err e).
      split; [by rewrite !app_nil_r|]. split; [|constructor].
      unfold register. apply runs_bind. eexists t1, task, _. split; [done|]. split; [done|].
      apply runs_bind. eexists t3, (Err e), []. split; [by rewrite app_nil_r|]. split; [done|]. apply runs_Ret. done. }
  destruct Hreg as (tra & trb & rr & -> & Hreg & Hno).
  apply cursors_covered_app; [|by apply cursors_covered_none].
  eapply register_covered; [exact Hs|exact Hss|exact He|exact Hes| |exact Hreg].
  intros m Hm Hr. apply Hcov2; [done|]. lia.
Qed.

(** The clock and cursor readings of [tr], tested. *)
Definition small_b (z : Z) : bool := (- 2 ^ 60 <=? z) && (z <=? 2 ^ 60).
Definition sane_call (c : call guardianE) : bool :=
  match reading c with Some now => small_b now | None => true end
  && match loaded_cursor c with
     | Some (Some cursor) => (cursor.(MinuteAuditCursor.ThroughMS) mod MinuteMS =? 0)
                             && small_b cursor.(MinuteAuditCursor.ThroughMS)
     | _ => true
     end.

Lemma sane_forallb tr : forallb sane_call tr = true → sane tr.
Proof.
  rewrite forallb_forall. intros H. assert (Hs : ∀ z, small_b z = true → small z).
  { intros z. unfold small_b, small. rewrite andb_true_iff, !Z.leb_le. done. }
  constructor.
  - intros c now Hin%list_elem_of_In Hr. specialize (H c Hin). unfold sane_call in H. rewrite Hr in H.
    apply andb_true_iff in H as [H _]. auto.
  - intros c cursor Hin%list_elem_of_In Hr. specialize (H c Hin). unfold sane_call in H. rewrite Hr in H.
    apply andb_true_iff in H as [_ H]. apply andb_true_iff in H as [H1 H2]. apply Z.eqb_eq in H1. auto.
Qed.

Definition sample_target : AuditTarget := AuditTarget.mk "okx" "BTC" "swap" sample_fetcher 0 60000.

(** The cursor is two hours behind. *)
Lemma window_cursor_covered_witness :
  ∃ tr r, runs (auditMinuteWindow sample_guardian Ctx.background sample_target 10800000 10860000) tr r ∧
    Forall (λ m, Exists (λ c, ∃ cursor, saved_cursor c = Some cursor ∧ cursor.(MinuteAuditCursor.ThroughMS) = m) tr)
      [10740000; 10860000] ∧
    cursor_follows sample_target (first_minute 10800000) tr.
Proof.
  destruct (exec minute_answers (auditMinuteWindow sample_guardian Ctx.background sample_target 10800000 10860000) tt)
    as [[[tr r] w]|] eqn:E; [|vm_compute in E; discriminate].
  pose proof (exec_runs _ _ _ _ _ _ E) as Hruns.
  assert (Hb : forallb sane_call tr = true) by (vm_compute in E; injection E as <- _ _; reflexivity).
  assert (He : Forall (λ m, List.existsb (fun c => match saved_cursor c with
      | Some cursor => cursor.(MinuteAuditCursor.ThroughMS) =? m | None => false end) tr = true) [10740000; 10860000]).
  { vm_compute in E. injection E as <- _ _. repeat constructor. }
  exists tr, r. split; [exact Hruns|]. split.
  - eapply Forall_impl; [exact He|]. intros m (c & Hin & Hm)%existsb_exists. apply Exists_exists. exists c.
    split; [by apply list_elem_of_In|]. destruct (saved_cursor c) as [cursor|]; [|discriminate].
    exists cursor. split; [reflexivity|]. by apply Z.eqb_eq.
  - apply (window_cursor_covered sample_guardian Ctx.background sample_target 10800000 10860000 tr r).
    + vm_compute. split; [intros H; discriminate H|reflexivity].
    + reflexivity.
    + vm_compute. split; intros H; discriminate H.
    + reflexivity.
    + vm_compute. split; intros H; discriminate H.
    + by apply sane_forallb.
    + exact Hruns.
    + reflexivity.
Defined.
