(* ===== verification/GuardianAudit.v ===== *)
(** * The Guardian's rounds (internal/guardian/guardian.go, daily_audit.go)

    [auditOnce] picks the symbols of a minute round and gives each to a worker of
    its exchange; [dailyAuditOnce] gives each symbol the recent days, one block
    of the history and what failed before; [handleFinalBar] looks at each final
    minute as it arrives.  A job is a program of its own, since the jobs of a
    round run side by side (WorkerPool.v): the round is the plan, the jobs, and
    the sum of their results.  Logging and durations are left out. *)

From S2P Require Export GuardianMinute.

Local Open Scope string_scope.
Local Open Scope Z_scope.
Local Open Scope list_scope.
Local Open Scope prog_scope.

Definition minInt (left right : Z) : Z := if left <? right then left else right.

(** ** Minute rounds *)

Module AuditResult.
Record AuditResult : Type := mk { CheckedSymbols : Z; CheckedBars : Z; FailedSymbols : Z }.
Definition zero : AuditResult := mk 0 0 0.
Definition add (a b : AuditResult) : AuditResult :=
  mk (a.(CheckedSymbols) + b.(CheckedSymbols)) (a.(CheckedBars) + b.(CheckedBars))
     (a.(FailedSymbols) + b.(FailedSymbols)).
End AuditResult.
Notation AuditResult := AuditResult.AuditResult.

(** The targets of a round from the cursor on, and the cursor after it. *)
Definition select_targets {A} (symbolsPerRun cursor : Z) (targets : list A) : list A * Z :=
  let n := Z.of_nat (length targets) in
  let count := if 0 <? symbolsPerRun then minInt symbolsPerRun n else n in
  (omap (fun i => targets !! Z.to_nat ((cursor + Z.of_nat i) mod n)) (seq 0 (Z.to_nat count)),
   (cursor + count) mod n).

(** [grouped[target.Exchange] = append(...)]. *)
Definition group_by_exchange (targets : list AuditTarget) : gmap string (list AuditTarget) :=
  foldl (fun m t => <[t.(AuditTarget.Exchange) := default [] (m !! t.(AuditTarget.Exchange)) ++ [t]]> m) ∅ targets.

Section audit.
Context (g : Guardian).
Notation cfg := g.(Guardian.cfg).

Definition auditEndStart : gprog Z :=
  now <- trigger Now ;;
  Ret (i64 (FloorStartMS (i64 (now - Z.quot cfg.(Config.AuditDelay) Millisecond)) F1m - MinuteMS)).

(** The window of a round: its first and last minutes. *)
Definition audit_window (endStart : Z) : Z :=
  let windowMinutes := Z.quot cfg.(Config.AuditWindow) Minute in
  let windowMinutes := if windowMinutes <=? 0 then Z.quot defaultAuditWindow Minute else windowMinutes in
  let start := i64 (endStart - i64 (i64 (windowMinutes - 1) * MinuteMS)) in
  if start <? 0 then 0 else start.

(** What a round has to do: the window and the groups; [None] when there is
    nothing to do.  The cursor comes back with it. *)
Definition audit_plan (cursor : Z)
    : gprog (result go_error (option (Z * Z * gmap string (list AuditTarget))) * Z) :=
  endStart <- auditEndStart ;;
  if endStart <=? 0 then Ret (Ok None, cursor)
  else
    targets <- auditTargets g ;;
    match targets with
    | Err e => Ret (Err e, cursor)
    | Ok [] => Ret (Ok None, cursor)
    | Ok targets =>
        let '(selected, cursor) := select_targets cfg.(Config.SymbolsPerRun) cursor targets in
        Ret (Ok (Some (audit_window endStart, endStart, group_by_exchange selected)), cursor)
    end.

(** The job of one target. *)
Definition audit_job (ctx : Ctx) (startMS endMS : Z) (target : AuditTarget) : gprog AuditResult :=
  '(retry, retryErr) <- retryFailedRepair g ctx target.(AuditTarget.fetcher) target.(AuditTarget.Exchange)
                          target.(AuditTarget.Symbol) "1m" ;;
  '(result, err) <- auditMinuteWindow g ctx target startMS endMS ;;
  Ret (AuditResult.mk 1 (result.(RepairResult.Checked) + retry.(RepairResult.Checked))
         (if bool_decide (is_Some err) || bool_decide (is_Some retryErr) then 1 else 0)).

(** The summary of a group, or of a round, from the results of the jobs that ran. *)
Definition combine_results (results : list AuditResult) : AuditResult := foldl AuditResult.add AuditResult.zero results.

(** ** Final minutes as they arrive *)

(** [ObserveFinalBar]: the candle goes to the channel when there is room. *)
Definition ObserveFinalBar (queue : list Bar) (bar : Bar) : gprog (list Bar) :=
  if negb cfg.(Config.Enabled) || negb cfg.(Config.ObserveFinalBars) || negb bar.(Bar.IsFinal)
     || negb (bool_decide (bar.(Bar.Timeframe) = "1m")) then Ret queue
  else if Z.of_nat (length queue) <? cfg.(Config.QueueSize) then Ret (queue ++ [DecorateBar bar])
  else if cfg.(Config.Observer) then _ <- trigger (GuardianQueueDropped bar.(Bar.Exchange)) ;; Ret queue
  else Ret queue.

Definition localBaselineStart (bar : Bar) : gprog (result go_error Z) :=
  let start := i64 (bar.(Bar.StartMS) - Z.quot cfg.(Config.AuditWindow) Millisecond) in
  let start := if start <? 0 then 0 else start in
  bars <- trigger (BarsInRange bar.(Bar.Exchange) bar.(Bar.Symbol) "1m" start (i64 (bar.(Bar.StartMS) - 1))) ;;
  Ret (match bars with
       | Err e => Err e
       | Ok bars => Ok (match last bars with Some b => b.(Bar.StartMS) | None => 0 end)
       end).

(** The state after a final candle; [gap] is the range of the gap before it. *)
Definition final_state (bar : Bar) (gap : option (Z * Z)) (status : string) (now : Z) (s : KlineGuardianState)
    : KlineGuardianState :=
  {| KlineGuardianState.Exchange := s.(KlineGuardianState.Exchange);
     KlineGuardianState.Symbol := s.(KlineGuardianState.Symbol);
     KlineGuardianState.Timeframe := s.(KlineGuardianState.Timeframe);
     KlineGuardianState.LastFinalStartMS :=
       (if s.(KlineGuardianState.LastFinalStartMS) <? bar.(Bar.StartMS) then bar.(Bar.StartMS)
        else s.(KlineGuardianState.LastFinalStartMS));
     KlineGuardianState.LastFinalRecvMS := (if 0 <? bar.(Bar.UpdatedAtMS) then bar.(Bar.UpdatedAtMS) else now);
     KlineGuardianState.LastCheckedStartMS := s.(KlineGuardianState.LastCheckedStartMS);
     KlineGuardianState.LastCheckedEndMS := s.(KlineGuardianState.LastCheckedEndMS);
     KlineGuardianState.LastCheckedAtMS := s.(KlineGuardianState.LastCheckedAtMS);
     KlineGuardianState.LastGapStartMS := from_option fst s.(KlineGuardianState.LastGapStartMS) gap;
     KlineGuardianState.LastGapEndMS := from_option snd s.(KlineGuardianState.LastGapEndMS) gap;
     KlineGuardianState.Status := status;
     KlineGuardianState.UpdatedAtMS := now |}.

Definition gap_event (bar : Bar) (gapStart gapEnd : Z) (eventType : string) (value : json) (now : Z) : RepairEvent :=
  RepairEvent.mk bar.(Bar.Exchange) bar.(Bar.Symbol) bar.(Bar.Timeframe) gapStart gapEnd eventType JNone value now.

(** Repairing the gap before a candle: the status and the events. *)
Definition repair_gap (ctx : Ctx) (bar : Bar) (gapStart gapEnd now : Z) : gprog (string * list RepairEvent) :=
  '(result, err) <- repairRange g ctx bar.(Bar.Exchange) bar.(Bar.Symbol) gapStart gapEnd "watermark_gap" ;;
  let detected := gap_event bar gapStart gapEnd "gap_detected" JNone now in
  Ret (match err with
       | Some e => ("repair_error", [detected; gap_event bar gapStart gapEnd "repair_error" (JError e) now])
       | None => ((if 0 <? result.(RepairResult.Repaired) then "gap_repaired" else "gap_checked"), [detected])
       end).

(** [handleFinalBar]; [bar] has its names normalised and [tf] is its timeframe. *)
Definition handle_normalized (ctx : Ctx) (bar : Bar) : gprog (option go_error) :=
  let load := trigger (LoadKlineGuardianState bar.(Bar.Exchange) bar.(Bar.Symbol) bar.(Bar.Timeframe)) in
  state <- load ;;
  match state with
  | Err e => Ret (Some e)
  | Ok state =>
      let previousStart := from_option KlineGuardianState.LastFinalStartMS 0 state in
      previous <- (if previousStart =? 0 then localBaselineStart bar else Ret (Ok previousStart)) ;;
      match previous with
      | Err e => Ret (Some e)
      | Ok previousStart =>
          now <- trigger Now ;;
          let nextExpected := if 0 <? previousStart then NextStartMS previousStart F1m else 0 in
          let gap := if (0 <? nextExpected) && (nextExpected <? bar.(Bar.StartMS))
                     then Some (nextExpected, i64 (bar.(Bar.StartMS) - MinuteMS)) else None in
          '(status, events) <- (match gap with
                                | Some (gapStart, gapEnd) => repair_gap ctx bar gapStart gapEnd now
                                | None => Ret ("ok", [])
                                end) ;;
          err <- insertEvents g events ;;
          match err with
          | Some e => Ret (Some e)
          | None =>
              refreshed <- (match gap with Some _ => load | None => Ret (Ok state) end) ;;
              match refreshed with
              | Err e => Ret (Some e)
              | Ok refreshed =>
                  let state := match refreshed with Some s => Some s | None => state end in
                  let state := default (new_state bar.(Bar.Exchange) bar.(Bar.Symbol) bar.(Bar.Timeframe)) state in
                  trigger (UpsertKlineGuardianState (final_state bar gap status now state))
              end
          end
      end
  end.

(** An unknown timeframe panics ([MustNormalize]). *)
Definition handleFinalBar (ctx : Ctx) (bar : Bar) : gprog (option go_error) :=
  match Normalize bar.(Bar.Timeframe) with
  | Err _ => diverge
  | Ok tf =>
      handle_normalized ctx
        (Bar.set_Timeframe (frame_name tf)
          (Bar.set_Symbol (normalizeSymbol bar.(Bar.Symbol)) (Bar.set_Exchange (normalizeExchange bar.(Bar.Exchange)) bar)))
  end.

(** [runObservedFinals], one candle of the channel. *)
Definition observe_next (ctx : Ctx) (queue : list Bar) : gprog (list Bar * option go_error) :=
  match queue with
  | [] => Ret ([], None)
  | bar :: rest => err <- handleFinalBar ctx bar ;; Ret (rest, err)
  end.

(** ** Daily rounds (daily_audit.go) *)

(** [dailyAuditRange]: the first and last day. *)
Definition dailyRange : Type := Z * Z.

(** [lastDay]: yesterday in UTC. *)
Definition last_day (nowMS : Z) : Z := UnixMilli (Date (Year nowMS) (Month nowMS) (Day nowMS - 1) 0).

(** The recent range, the block of the history, and the next cursor. *)
Definition daily_ranges (auditDays lookback nowMS cursor : Z) : dailyRange * dailyRange * Z :=
  let lastDay := last_day nowMS in
  let recentDays := if auditDays <? 1 then 1 else auditDays in
  let recent := (i64 (lastDay - (recentDays - 1) * DayMS), lastDay) in
  let lookbackDays := if lookback <? recentDays then recentDays else lookback in
  let historicalEnd := i64 (lastDay - recentDays * DayMS) in
  let historicalStart := i64 (lastDay - lookbackDays * DayMS) in
  let blockCount := Z.quot (i64 (lookbackDays + recentDays - 1)) recentDays in
  let block := Z.rem cursor blockCount in
  let start := i64 (historicalStart + block * recentDays * DayMS) in
  let end_ := i64 (historicalStart + (block + 1) * recentDays * DayMS - DayMS) in
  (recent, (start, if historicalEnd <? end_ then historicalEnd else end_), Z.rem (block + 1) blockCount).

Definition daily_plan (cursor : Z)
    : gprog (result go_error (option (dailyRange * dailyRange * gmap string (list AuditTarget))) * Z) :=
  targets <- dailyAuditTargets g ;;
  match targets with
  | Err e => Ret (Err e, cursor)
  | Ok [] => Ret (Ok None, cursor)
  | Ok targets =>
      now <- trigger Now ;;
      let '(recent, historical, cursor) :=
        daily_ranges cfg.(Config.DailyAuditDays) cfg.(Config.DailyAuditLookbackDays) now cursor in
      Ret (Ok (Some (recent, historical, group_by_exchange targets)), cursor)
  end.

Definition daily_request (target : AuditTarget) (r : dailyRange) (forceReplay : bool) : RepairRequest :=
  RepairRequest.mk target.(AuditTarget.Exchange) target.(AuditTarget.Symbol) "1D" r.1 r.2 "daily_audit"
    ((0 <? target.(AuditTarget.ListedAtMS)) && (FloorStartMS target.(AuditTarget.ListedAtMS) F1D <=? r.2))
    target.(AuditTarget.ListedAtMS) forceReplay.

Definition block_ms : Z := maxNoTradeDayChecksPerRange * DayMS.

(** What the pieces of a range add up to: checked, repaired, excluded, and the
    first error. *)
Definition piece_acc : Type := Z * Z * Z * option go_error.

Definition first_error (first err : option go_error) : option go_error :=
  match first with Some e => Some e | None => err end.

Definition add_piece (acc : piece_acc) (result : RepairResult) (err : option go_error) : piece_acc :=
  let '(checked, repaired, excluded, firstErr) := acc in
  (checked + result.(RepairResult.Checked), repaired + result.(RepairResult.Repaired),
   excluded + Z.of_nat (length (List.filter (fun e => bool_decide (e.(RepairEvent.EventType) = "confirmed_no_trades"))
                                  result.(RepairResult.Events))),
   first_error firstErr err).

(** [for start := r.StartMS; start <= r.EndMS; start += blockMS]. *)
Fixpoint pieces_loop (fuel : nat) (ctx : Ctx) (target : AuditTarget) (request : RepairRequest) (start : Z)
    (acc : piece_acc) : gprog piece_acc :=
  if start <=? request.(RepairRequest.EndMS) then
    match fuel with
    | O => diverge
    | S fuel' =>
        let end_ := i64 (start + block_ms - DayMS) in
        let end_ := if request.(RepairRequest.EndMS) <? end_ then request.(RepairRequest.EndMS) else end_ in
        '(result, err) <- repairTimeframeRange g ctx target.(AuditTarget.fetcher)
                            (RepairRequest.set_range start end_ request) ;;
        let acc := add_piece acc result err in
        cancelled <- trigger CtxErr ;;
        match cancelled with
        | Some e => Ret (let '(c, r, x, first) := acc in (c, r, x, first_error first (Some e)))
        | None => pieces_loop fuel' ctx target request (i64 (start + block_ms)) acc
        end
    end
  else Ret acc.
Definition pieces_fuel (start end_ : Z) : nat := Z.to_nat ((end_ - start) / block_ms + 1).

Definition pieces_status (acc : piece_acc) (forceReplay : bool) : string :=
  let '(checked, repaired, excluded, firstErr) := acc in
  match firstErr with
  | Some _ => "incomplete_response"
  | None =>
      if (checked =? 0) && (0 <? excluded) then "confirmed_no_trades"
      else if (0 <? repaired) || forceReplay then "repaired" else "ok"
  end.

(** [ctx.Err()] is read again when the loop stops without an error of a piece,
    with the same answer: a cancelled context stays cancelled. *)
Definition repairDailyAuditRange (ctx : Ctx) (target : AuditTarget) (r : dailyRange) (forceReplay : bool)
    : gprog (option go_error) :=
  let request := daily_request target r forceReplay in
  if (i64 (r.2 - r.1) <? block_ms)
     || ((0 <? target.(AuditTarget.ListedAtMS)) && (r.2 <? FloorStartMS target.(AuditTarget.ListedAtMS) F1D))
  then '(_, err) <- repairTimeframeRange g ctx target.(AuditTarget.fetcher) request ;; Ret err
  else
    acc <- pieces_loop (pieces_fuel r.1 r.2) ctx target request r.1 (0, 0, 0, None) ;;
    let '(_, _, _, firstErr) := acc in
    err <- upsertTimeframeAuditState request (pieces_status acc forceReplay) ;;
    Ret (match err with
         | Some e => Some (Wrapf "persist daily audit range: %w (audit error: %v)" e)
         | None => firstErr
         end).

(** One range of a target: the retries of the target in memory go in and out,
    with the errors so far. *)
Definition daily_step (ctx : Ctx) (target : AuditTarget) (force : gset dailyRange)
    (acc : gset dailyRange * list go_error) (r : dailyRange) : gprog (gset dailyRange * list go_error) :=
  let '(retries, errs) := acc in
  if r.2 <? r.1 then Ret acc
  else
    cancelled <- trigger CtxErr ;;
    match cancelled with
    | Some _ => Ret acc
    | None =>
        err <- repairDailyAuditRange ctx target r (bool_decide (r ∈ force)) ;;
        Ret (match err with
             | Some e => ({[r]} ∪ retries, errs ++ [e])
             | None => (retries ∖ {[r]}, errs)
             end)
    end.

(** The ranges of a target: recent, historical, what failed before, and the range
    recorded in its state; each once. *)
Definition recorded_range (state : option KlineGuardianState) : list dailyRange :=
  match state with
  | Some s =>
      if isRetryableDailyStatus s.(KlineGuardianState.Status)
         && (s.(KlineGuardianState.LastCheckedStartMS) <=? s.(KlineGuardianState.LastCheckedEndMS))
      then [(s.(KlineGuardianState.LastCheckedStartMS), s.(KlineGuardianState.LastCheckedEndMS))] else []
  | None => []
  end.

(** Keeping the first occurrence of each. *)
Fixpoint unseen (seen : gset dailyRange) (ranges : list dailyRange) : list dailyRange :=
  match ranges with
  | [] => []
  | r :: rest => if bool_decide (r ∈ seen) then unseen seen rest else r :: unseen ({[r]} ∪ seen) rest
  end.

Definition daily_job (ctx : Ctx) (recent historical : dailyRange) (retries : gset dailyRange) (target : AuditTarget)
    : gprog (gset dailyRange * list go_error) :=
  state <- trigger (LoadKlineGuardianState target.(AuditTarget.Exchange) target.(AuditTarget.Symbol) "1D") ;;
  match state with
  | Err e => Ret (retries, [e])
  | Ok state =>
      let recorded := recorded_range state in
      let ranges := unseen ∅ ([recent; historical] ++ elements retries ++ recorded) in
      pfold (daily_step ctx target (retries ∪ list_to_set recorded)) (retries, []) ranges
  end.
End audit.
