(* ===== verification/GuardianAuditSpec.v ===== *)
(** * What the Guardian's rounds cover (internal/guardian/guardian.go, daily_audit.go)

    rotation_fair: the minute rounds reach every symbol; daily_history_covered:
    the daily rounds visit every day of the look-back; daily_range_answered and
    daily_failures_kept: what a daily range that succeeds has established, and
    that one that fails is tried again. *)

From S2P Require Export GuardianAudit GuardianMinuteSpec.

Local Open Scope string_scope.
Local Open Scope Z_scope.
Local Open Scope list_scope.

(** ** The rotation of the minute rounds *)

(** [count] targets from [start] on, around the list. *)
Definition cycle {A} (targets : list A) (start : Z) (count : nat) : list A :=
  omap (fun i => targets !! Z.to_nat ((start + Z.of_nat i) mod Z.of_nat (length targets))) (seq 0 count).

(** The number of targets of a round. *)
Definition round_size (symbolsPerRun n : Z) : Z := if 0 <? symbolsPerRun then minInt symbolsPerRun n else n.

Lemma select_targets_cycle {A} perRun cursor (targets : list A) :
  select_targets perRun cursor targets =
    (cycle targets cursor (Z.to_nat (round_size perRun (Z.of_nat (length targets)))),
     (cursor + round_size perRun (Z.of_nat (length targets))) mod Z.of_nat (length targets)).
Proof. reflexivity. Qed.

Lemma cycle_app {A} (targets : list A) start a b :
  targets ≠ [] →
  cycle targets start (a + b) =
    cycle targets start a ++ cycle targets ((start + Z.of_nat a) mod Z.of_nat (length targets)) b.
Proof.
  intros Hne. unfold cycle. rewrite seq_app, omap_app. f_equal. simpl.
  apply list_omap_ext, Forall2_same_length_lookup. split; [by rewrite !length_seq|].
  intros k i j Hi Hj. apply lookup_seq in Hi as [-> _], Hj as [-> _]. simpl.
  f_equal. f_equal. rewrite Nat2Z.inj_add, Z.add_assoc, Z.add_mod_idemp_l; [done|].
  destruct targets; [done|]. simpl. lia.
Qed.

(** The targets of [k] rounds in a row. *)
Fixpoint rounds {A} (k : nat) (perRun cursor : Z) (targets : list A) : list A :=
  match k with
  | O => []
  | S k => let '(selected, cursor) := select_targets perRun cursor targets in
           selected ++ rounds k perRun cursor targets
  end.

Lemma rounds_cycle {A} k perRun cursor (targets : list A) :
  targets ≠ [] →
  rounds k perRun cursor targets =
    cycle targets cursor (k * Z.to_nat (round_size perRun (Z.of_nat (length targets)))).
Proof.
  intros Hne. revert cursor. induction k as [|k IH]; intros cursor; [done|].
  cbn [rounds]. rewrite select_targets_cycle. cbn [Nat.mul]. rewrite cycle_app by done. rewrite IH. f_equal. f_equal.
  rewrite Z2Nat.id; [done|]. unfold round_size, minInt. repeat case_bool; zbool; lia.
Qed.

Lemma elem_of_cycle {A} (targets : list A) start count t :
  targets ≠ [] → 0 <= start → (length targets <= count)%nat → t ∈ targets → t ∈ cycle targets start count.
Proof.
  intros Hne Hs Hc (j & Hj)%list_elem_of_lookup. unfold cycle. apply list_elem_of_omap.
  pose proof (lookup_lt_Some _ _ _ Hj) as Hlt. set (n := Z.of_nat (length targets)).
  exists (Z.to_nat ((Z.of_nat j - start) mod n)).
  assert (0 < n) as Hn by (subst n; lia). pose proof (Z.mod_pos_bound (Z.of_nat j - start) n Hn) as Hb.
  split; [apply elem_of_seq; lia|]. rewrite Z2Nat.id by lia.
  rewrite Z.add_mod_idemp_r by lia. replace (start + (Z.of_nat j - start)) with (Z.of_nat j) by lia.
  rewrite Z.mod_small by lia. by rewrite Nat2Z.id.
Qed.

(** the minute rounds reach every symbol.  While the list of targets stays
    the same, [k] rounds in a row take [k] times the size of a round, around the
    list from the cursor, so that rounds which add up to the number of targets
    have taken every one; a round never takes a target twice. *)
Theorem rotation_fair {A} perRun cursor (targets : list A) k :
  targets ≠ [] → 0 <= cursor → NoDup targets →
  (∀ t, Z.of_nat (length targets) <= Z.of_nat k * round_size perRun (Z.of_nat (length targets)) →
     t ∈ targets → t ∈ rounds k perRun cursor targets) ∧
  NoDup (select_targets perRun cursor targets).1 ∧
  Z.of_nat (length (select_targets perRun cursor targets).1) = round_size perRun (Z.of_nat (length targets)).
Proof.
  intros Hne Hc Hnd. set (n := Z.of_nat (length targets)). set (size := round_size perRun n).
  assert (Hn : 0 < n) by (subst n; destruct targets; [done|simpl; lia]).
  assert (Hsize : 0 < size <= n) by (subst size; unfold round_size, minInt; repeat case_bool; zbool; lia).
  split_and!.
  - intros t Hk Ht. rewrite rounds_cycle by done. fold n size. apply elem_of_cycle; [done|done|nia|done].
  - rewrite select_targets_cycle. fold n size. simpl. unfold cycle. fold n.
    assert (Hgen : ∀ l, NoDup l → (∀ i, i ∈ l → Z.of_nat i < n) →
              NoDup (omap (λ i, targets !! Z.to_nat ((cursor + Z.of_nat i) mod n)) l)).
    { induction l as [|i l IH]; intros Hl Hlt; [constructor|]. apply NoDup_cons in Hl as [Hi Hl]. simpl.
      destruct (targets !! _) as [t|] eqn:Et; [|apply IH; [done|set_solver]].
      apply NoDup_cons. split; [|apply IH; [done|set_solver]].
      intros (j & Hj & Hjt)%list_elem_of_omap. apply Hi.
      pose proof (NoDup_lookup _ _ _ _ Hnd Et Hjt) as He.
      pose proof (Hlt i ltac:(by left)). pose proof (Hlt j ltac:(by right)).
      pose proof (Z.mod_pos_bound (cursor + Z.of_nat i) n Hn). pose proof (Z.mod_pos_bound (cursor + Z.of_nat j) n Hn).
      assert ((cursor + Z.of_nat i) mod n = (cursor + Z.of_nat j) mod n) as Hm by lia.
      assert (i = j) as ->; [|done]. clear -Hm Hn H H0.
      pose proof (Z.div_mod (cursor + Z.of_nat i) n ltac:(lia)). pose proof (Z.div_mod (cursor + Z.of_nat j) n ltac:(lia)).
      rewrite Hm in *. assert ((cursor + Z.of_nat i) / n = (cursor + Z.of_nat j) / n) by nia. nia. }
    apply Hgen; [apply NoDup_seq|]. intros i Hi%elem_of_seq. lia.
  - rewrite select_targets_cycle. fold n size. simpl. unfold cycle. fold n.
    assert (Hlen : ∀ l, length (omap (λ i : nat, targets !! Z.to_nat ((cursor + Z.of_nat i) mod n)) l) = length l).
    { induction l as [|i l IH]; [done|]. csimpl. pose proof (Z.mod_pos_bound (cursor + Z.of_nat i) n Hn).
      destruct (lookup_lt_is_Some_2 targets (Z.to_nat ((cursor + Z.of_nat i) mod n))) as [t ->]; [subst n; lia|].
      csimpl. f_equal. exact IH. }
    rewrite Hlen, length_seq. lia.
Qed.

Lemma rotation_fair_witness :
  (∀ t, t ∈ [11; 12; 13; 14; 15] → t ∈ rounds 3 2 4 [11; 12; 13; 14; 15]) ∧
  rounds 3 2 4 [11; 12; 13; 14; 15] = [15; 11; 12; 13; 14; 15].
Proof.
  split; [|reflexivity]. intros t Ht.
  refine (proj1 (rotation_fair 2 4 [11; 12; 13; 14; 15] 3 _ _ _) t _ Ht); [discriminate| | |].
  - intros H. discriminate H.
  - repeat (apply NoDup_cons; split; [rewrite ?elem_of_cons; intros H; repeat (destruct H as [H|H]; [discriminate H|]);
      by apply elem_of_nil in H|]). constructor.
  - vm_compute. intros H. discriminate H.
Defined.

(** ** The history of the daily rounds *)

Lemma Date_day_before y m d c : Date y m (d - 1) c = Date y m d c - DayMs.
Proof. unfold Date, DayMs. lia. Qed.

Lemma last_day_eq now : small now → last_day now = (now / DayMS - 1) * DayMS.
Proof.
  intros Hn. unfold last_day, UnixMilli. rewrite Date_day_before, Date_of_day. unfold day_of.
  assert (Hq : - 2 ^ 61 <= now / DayMS * DayMS <= 2 ^ 61).
  { unfold small, DayMS in *. zdiv. }
  change DayMs with DayMS. rewrite i64_id; [lia|]. unfold int64_range, two63, DayMS in *. lia.
Qed.

Definition block_count (a l : Z) : Z := (l + a - 1) / a.

(** The ranges, without the wrap-around. *)
Lemma daily_ranges_eq a l now c :
  1 <= a <= l → l <= 1000000 → 0 <= now <= MaxTS → 0 <= c →
  let last := last_day now in let block := c mod block_count a l in
  daily_ranges a l now c =
    ((last - (a - 1) * DayMS, last),
     (last - l * DayMS + block * a * DayMS, Z.min (last - a * DayMS) (last - l * DayMS + (block + 1) * a * DayMS - DayMS)),
     (block + 1) mod block_count a l) ∧ 0 <= block < block_count a l.
Proof.
  intros Ha Hl Hnow Hc last block. unfold block, daily_ranges. fold last.
  assert (Hlast : - DayMS <= last <= MaxTS).
  { subst last. rewrite last_day_eq by (unfold small, MaxTS in *; lia). unfold DayMS. zdiv. }
  assert (H1 : a <? 1 = false) by (apply Z.ltb_ge; lia). rewrite H1.
  assert (H2 : l <? a = false) by (apply Z.ltb_ge; lia). rewrite H2.
  rewrite (i64_id (l + a - 1)) by (unfold int64_range, two63; lia).
  assert (Z.quot (l + a - 1) a = block_count a l) as -> by (unfold block_count; apply Z.quot_div_nonneg; lia).
  assert (Hbc : 1 <= block_count a l <= 2000000) by (unfold block_count; split; [apply Z.div_le_lower_bound; lia|apply Z.div_le_upper_bound; nia]).
  assert (Hr : ∀ x, 0 <= x → Z.rem x (block_count a l) = x mod block_count a l) by (intros; apply Z.rem_mod_nonneg; lia).
  rewrite Hr by done. pose proof (Z.mod_pos_bound c (block_count a l) ltac:(lia)) as Hb. rewrite Hr by lia.
  set (b := c mod block_count a l) in *.
  assert (Hba : 0 <= b * a <= 2000000) by (unfold block_count in *; zdiv || (split; [nia|]; pose proof (Z.mul_div_le (l + a - 1) a ltac:(lia)); nia)).
  assert (Hba1 : (b + 1) * a = b * a + a) by lia. unfold MaxTS, DayMS in *.
  split; [|done]. rewrite !Hba1.
  rewrite (i64_id (last - l * 86400000)), (i64_id (last - a * 86400000)) by (unfold int64_range, two63; lia).
  rewrite !i64_id by (unfold int64_range, two63; lia).
  match goal with |- context [if ?t then _ else _] => destruct t eqn:Et end; zbool.
  - rewrite Z.min_l by lia. repeat apply (f_equal2 pair); lia.
  - rewrite Z.min_r by lia. repeat apply (f_equal2 pair); lia.
Qed.

Definition in_days (day : Z) (r : dailyRange) : Prop := r.1 <= day <= r.2.

Lemma block_count_pos a l : 1 <= a <= l → 0 < block_count a l.
Proof. intros. unfold block_count. assert (1 <= (l + a - 1) / a) by (apply Z.div_le_lower_bound; lia). lia. Qed.

(** The day [i] days before yesterday is in the recent range or in the block of one
    round, the [k]-th after the cursor [c], whatever time of the day it is. *)
Lemma block_holds a l c i :
  1 <= a <= l → l <= 1000000 → 0 <= c → 0 <= i <= l →
  ∃ k, (k < Z.to_nat (block_count a l))%nat ∧ ∀ now ck, 0 <= now <= MaxTS → 0 <= ck →
    ck mod block_count a l = (c + Z.of_nat k) mod block_count a l →
    let '(recent, historical, _) := daily_ranges a l now ck in
    ∃ r j, (r = recent ∨ r = historical) ∧ 0 <= j ∧ last_day now - i * DayMS = r.1 + j * DayMS ∧
      r.1 + j * DayMS <= r.2 ∧ - 2 ^ 60 <= r.1 ∧ r.2 <= 2 ^ 60.
Proof.
  intros Ha Hl Hc Hi. pose proof (block_count_pos a l Ha) as Hbc. set (b := (l - i) / a).
  assert (Hbb : a <= i → b * a <= l - i < b * a + a ∧ 0 <= b < block_count a l).
  { intros. unfold b, block_count. pose proof (Z.div_mod (l - i) a ltac:(lia)). pose proof (Z.mod_pos_bound (l - i) a ltac:(lia)).
    pose proof (Z.div_mod (l + a - 1) a ltac:(lia)). pose proof (Z.mod_pos_bound (l + a - 1) a ltac:(lia)).
    split; [nia|]. split; [nia|]. nia. }
  exists (Z.to_nat ((b - c) mod block_count a l)). pose proof (Z.mod_pos_bound (b - c) _ Hbc) as Hk. split; [lia|].
  intros now ck Hnow Hck Hmod. destruct (daily_ranges_eq a l now ck Ha Hl Hnow Hck) as [-> Hblock].
  assert (Hlast : - DayMS <= last_day now <= MaxTS).
  { rewrite last_day_eq by (unfold small, MaxTS in *; lia). unfold DayMS. zdiv. }
  unfold MaxTS, DayMS in *. destruct (decide (i < a)) as [Hlt|Hge].
  - eexists _, (a - 1 - i). split; [by left|]. simpl. lia.
  - destruct (Hbb ltac:(lia)) as [H1 H2]. eexists _, (l - i - b * a). split; [by right|]. simpl.
    rewrite Hmod, Z2Nat.id, Z.add_mod_idemp_r by lia. replace (c + (b - c)) with b by lia. rewrite Z.mod_small by lia. lia.
Qed.

(** ** A daily range *)

Definition acc_error (acc : piece_acc) : option go_error := acc.2.

(** Some run of the repair of [s .. e], within the trace [tr], had no error. *)
Definition piece_repaired (g : Guardian) (ctx : Ctx) (fetcher : Fetcher) (request : RepairRequest)
    (tr : list (call guardianE)) (s e : Z) : Prop :=
  ∃ tr' result, (∀ c, c ∈ tr' → c ∈ tr) ∧
    runs (repairTimeframeRange g ctx fetcher (RepairRequest.set_range s e request)) tr' (result, None).

Lemma piece_repaired_mono g ctx fetcher request tr tr' s e :
  (∀ c, c ∈ tr → c ∈ tr') → piece_repaired g ctx fetcher request tr s e → piece_repaired g ctx fetcher request tr' s e.
Proof. intros Hsub (t & result & ? & ?). exists t, result. auto. Qed.

Lemma add_piece_error acc result err : acc_error (add_piece acc result err) = first_error (acc_error acc) err.
Proof. by destruct acc as [[[c r] x] f]. Qed.

Lemma first_error_None first err : first_error first err = None ↔ first = None ∧ err = None.
Proof. destruct first; simpl; naive_solver. Qed.

Lemma pieces_loop_None g ctx target request fuel start acc tr acc' :
  - 2 ^ 60 <= start → request.(RepairRequest.EndMS) <= 2 ^ 60 →
  runs (pieces_loop g fuel ctx target request start acc) tr acc' → acc_error acc' = None →
  acc_error acc = None ∧
  ∀ j, 0 <= j → start + j * DayMS <= request.(RepairRequest.EndMS) →
  ∃ s e, start <= s <= start + j * DayMS ∧ start + j * DayMS <= e <= request.(RepairRequest.EndMS) ∧
    piece_repaired g ctx target.(AuditTarget.fetcher) request tr s e.
Proof.
  intros Hs He. set (last := request.(RepairRequest.EndMS)) in *.
  revert start Hs acc tr. induction fuel as [|fuel IH]; intros start Hs acc tr H Herr; cbn [pieces_loop] in H;
    fold last in H; destruct (start <=? last) eqn:E; zbool.
  - by apply runs_diverge in H.
  - apply runs_Ret in H as [-> ->]. split; [done|]. intros j Hj. unfold DayMS. lia.
  - cbv zeta in H. set (e := if last <? _ then last else _) in H.
    assert (Hbl : i64 (start + block_ms - DayMS) = start + 6 * DayMS ∧ i64 (start + block_ms) = start + 7 * DayMS).
    { unfold block_ms, maxNoTradeDayChecksPerRange, DayMS. rewrite !i64_id by (unfold int64_range, two63; lia). lia. }
    destruct Hbl as [Hb1 Hb2]. rewrite Hb2 in H. subst e. rewrite Hb1 in H.
    set (e := if last <? start + 6 * DayMS then last else start + 6 * DayMS) in H.
    assert (Hee : e = Z.min last (start + 6 * DayMS)) by (subst e; case_bool; zbool; lia). clearbody e. subst e.
    apply runs_bind in H as (tr1 & [result err] & tr2 & -> & Hr & H).
    apply runs_bind in H as (tr3 & cancelled & tr4 & -> & Hc & H). apply runs_trigger in Hc as ->.
    destruct cancelled as [ce|].
    + destruct (add_piece acc result err) as [[[c r] x] f] eqn:Ea. apply runs_Ret in H as [-> ->].
      unfold acc_error in Herr. cbn in Herr. apply first_error_None in Herr as [_ [=]].
    + destruct (IH (start + 7 * DayMS) ltac:(unfold DayMS; lia) _ _ H Herr) as [Ha Hcov].
      rewrite add_piece_error in Ha. apply first_error_None in Ha as [Ha ->]. split; [done|].
      intros j Hj Hle. destruct (decide (j <= 6)).
      * exists start, (Z.min last (start + 6 * DayMS)). unfold DayMS in *. split; [lia|]. split; [lia|].
        exists tr1, result. split; [intros; in_trace|]. done.
      * destruct (Hcov (j - 7) ltac:(lia)) as (s & e & H1 & H2 & H3); [unfold DayMS in *; lia|].
        exists s, e. unfold DayMS in *. split; [lia|]. split; [lia|].
        eapply piece_repaired_mono; [|exact H3]. intros; in_trace.
  - apply runs_Ret in H as [-> ->]. split; [done|]. intros j Hj. unfold DayMS. lia.
Qed.

(** a daily range that succeeds was checked to the last day.  When
    [repairDailyAuditRange] returns no error, every day of the range lies in a
    piece of at most seven days, within the range, whose repair returned no
    error and has established what [repair_certifies] says. *)
Theorem daily_range_answered g ctx target r force tr :
  - 2 ^ 60 <= r.1 → r.2 <= 2 ^ 60 →
  runs (repairDailyAuditRange g ctx target r force) tr None →
  ∀ j, 0 <= j → r.1 + j * DayMS <= r.2 →
  ∃ s e result, r.1 <= s <= r.1 + j * DayMS ∧ r.1 + j * DayMS <= e <= r.2 ∧
    answered g F1D (floored F1D (normalize_request
      (RepairRequest.set_range s e (daily_request target r force)) F1D)) tr result.
Proof.
  intros H1 H2 H j Hj Hle.
  assert (Hp : ∃ s e, r.1 <= s <= r.1 + j * DayMS ∧ r.1 + j * DayMS <= e <= r.2 ∧
            piece_repaired g ctx target.(AuditTarget.fetcher) (daily_request target r force) tr s e).
  { unfold repairDailyAuditRange in H. cbv zeta in H. destruct (_ || _).
    - apply runs_bind in H as (tr1 & [result err] & tr2 & -> & Hr & H). apply runs_Ret in H as [-> <-].
      exists r.1, r.2. split; [unfold DayMS in *; lia|]. split; [lia|]. exists tr1, result.
      split; [intros; in_trace|]. done.
    - apply runs_bind in H as (tr1 & [[[checked repaired] excluded] firstErr] & tr2 & -> & Hr & H).
      apply runs_bind in H as (tr3 & err & tr4 & -> & _ & H). apply runs_Ret in H as [-> Herr].
      destruct err; [done|]. subst firstErr.
      destruct (pieces_loop_None g ctx target (daily_request target r force) _ _ _ _ _ H1 H2 Hr eq_refl) as [_ Hcov].
      destruct (Hcov j Hj Hle) as (s & e & ? & ? & Hp). exists s, e. split; [done|]. split; [done|].
      eapply piece_repaired_mono; [|exact Hp]. intros; in_trace. }
  destruct Hp as (s & e & Hs & He & tr' & result & Hsub & Hr). exists s, e, result. split; [done|]. split; [done|].
  eapply answered_mono; [exact Hsub|].
  exact (repair_certifies_spec g ctx _ (RepairRequest.set_range s e (daily_request target r force)) F1D tr' result eq_refl Hr).
Qed.

(** *** An example: the seven days of the recent range *)

Definition sample_day (start : Z) : Bar :=
  Bar.set_Timeframe "1D" (Bar.set_EndMS (start + 86399999) (sample_hour start 100)).

(** The store has the seven days, and the exchange sends the same. *)
Definition daily_answers : handler guardianE unit := fun X e _ =>
  match e in guardianE X return option (X * unit) with
  | Now => Some (1000000000000, tt)
  | CtxErr => Some (None, tt)
  | BarsInRange _ _ _ s _ => Some (Ok (sample_day <$> ((λ i, s + Z.of_nat i * DayMS) <$> seq 0 7)), tt)
  | FetchKlines _ _ request =>
      Some (Ok (sample_day <$> ((λ i, request.(KlineRequest.StartMS) + Z.of_nat i * DayMS) <$> seq 0 7)), tt)
  | RepairRollups _ => Some (None, tt)
  | e => sample_answers _ e tt
  end.

Lemma daily_range_answered_witness :
  ∃ tr, runs (repairDailyAuditRange sample_guardian Ctx.background sample_target (DayMS * 100, DayMS * 106) false) tr None ∧
  ∃ s e result, DayMS * 100 <= s <= DayMS * 100 + 6 * DayMS ∧ DayMS * 100 + 6 * DayMS <= e <= DayMS * 106 ∧
    answered sample_guardian F1D (floored F1D (normalize_request
      (RepairRequest.set_range s e (daily_request sample_target (DayMS * 100, DayMS * 106) false)) F1D)) tr result.
Proof.
  destruct (exec daily_answers (repairDailyAuditRange sample_guardian Ctx.background sample_target
              (DayMS * 100, DayMS * 106) false) tt) as [[[tr [e|]] w]|] eqn:E;
    [vm_compute in E; discriminate| |vm_compute in E; discriminate].
  pose proof (exec_runs _ _ _ _ _ _ E) as Hruns. clear E. exists tr. split; [exact Hruns|].
  refine (daily_range_answered sample_guardian Ctx.background sample_target (DayMS * 100, DayMS * 106) false tr
            _ _ Hruns 6 _ _); vm_compute; intros H; discriminate H.
Defined.

(** ** The ranges of a symbol *)

Definition cancelled (c : call guardianE) : bool :=
  match c with
  | Call e x => match e in guardianE X return X → bool with CtxErr => fun x => bool_decide (is_Some x) | _ => fun _ => false end x
  end.

Lemma unseen_spec seen ranges :
  NoDup (unseen seen ranges) ∧ ∀ r, r ∈ unseen seen ranges ↔ r ∈ ranges ∧ r ∉ seen.
Proof.
  revert seen. induction ranges as [|r ranges IH]; intros seen; simpl.
  - split; [constructor|]. intros r. rewrite elem_of_nil. naive_solver.
  - case_bool; bprop.
    + destruct (IH seen) as [H1 H2]. split; [done|]. intros r'. rewrite H2, elem_of_cons. naive_solver.
    + destruct (IH ({[r]} ∪ seen)) as [H1 H2]. split.
      * apply NoDup_cons. split; [|done]. rewrite H2. set_solver.
      * intros r'. rewrite elem_of_cons, H2, elem_of_cons, elem_of_union, elem_of_singleton.
        destruct (decide (r' = r)) as [->|]; naive_solver.
Qed.

Section daily.
Context (g : Guardian) (ctx : Ctx) (target : AuditTarget) (force retries : gset dailyRange).

(** [r] was repaired in the trace, and the repair returned [err]. *)
Definition attempted (tr : list (call guardianE)) (r : dailyRange) (err : option go_error) : Prop :=
  ∃ tr', (∀ c, c ∈ tr' → c ∈ tr) ∧ runs (repairDailyAuditRange g ctx target r (bool_decide (r ∈ force))) tr' err.

Record daily_inv (ranges : list dailyRange) (tr : list (call guardianE)) (acc : gset dailyRange * list go_error) : Prop := {
  di_dropped : ∀ r, r ∈ retries → r ∉ acc.1 → attempted tr r None;
  di_added : ∀ r, r ∈ acc.1 → r ∈ retries ∨ ∃ e, attempted tr r (Some e);
  di_done : Forall (λ c, cancelled c = false) tr → ∀ r, r ∈ ranges → r.1 <= r.2 →
    (∃ e, attempted tr r (Some e) ∧ r ∈ acc.1 ∧ e ∈ acc.2) ∨ (attempted tr r None ∧ r ∉ acc.1) }.

Lemma attempted_mono tr tr' r err : (∀ c, c ∈ tr → c ∈ tr') → attempted tr r err → attempted tr' r err.
Proof using. intros Hsub (t & ? & ?). exists t. auto. Qed.

Lemma daily_step_inv ranges r tr acc tr' acc' :
  r ∉ ranges → daily_inv ranges tr acc → runs (daily_step g ctx target force acc r) tr' acc' →
  daily_inv (ranges ++ [r]) (tr ++ tr') acc'.
Proof using.
  intros Hnew [H1 H2 H3] H. destruct acc as [set errs]. simpl in H1, H2, H3. unfold daily_step in H.
  assert (Hl : ∀ r err, attempted tr r err → attempted (tr ++ tr') r err) by (intros; eapply attempted_mono; [|done]; intros; in_trace).
  assert (Hsame : (Forall (λ c, cancelled c = false) tr' → r.2 < r.1) → daily_inv (ranges ++ [r]) (tr ++ tr') (set, errs)).
  { intros Hskip. constructor; simpl; [auto|intros r' Hr'; destruct (H2 r' Hr') as [?|[e ?]]; eauto|].
    intros [Hc Hc']%Forall_app r' [Hr'| ->%list_elem_of_singleton]%elem_of_app Hle; [|specialize (Hskip Hc'); lia].
    destruct (H3 Hc r' Hr' Hle) as [(e & ? & ?)|[? ?]]; [left; eauto|right; auto]. }
  destruct (r.2 <? r.1) eqn:Er; [apply runs_Ret in H as [-> ->]; zbool; by apply Hsame|].
  apply runs_bind in H as (tr1 & c & tr2 & -> & Hc & H). apply runs_trigger in Hc as ->.
  destruct c as [ce|].
  { apply runs_Ret in H as [-> ->]. apply Hsame. intros [Hcc _]%Forall_cons. done. }
  apply runs_bind in H as (tr3 & err & tr4 & -> & Hr & H). apply runs_Ret in H as [-> ->].
  assert (Ha : attempted (tr ++ [Call CtxErr None] ++ tr3 ++ []) r err).
  { exists tr3. split; [intros; in_trace|done]. }
  clear Hsame Er. destruct err as [e|]; constructor; simpl.
  - intros r' Hr' Hn. apply Hl, H1; [done|set_solver].
  - intros r' [->%elem_of_singleton|Hr']%elem_of_union; [right; eauto|].
    destruct (H2 r' Hr') as [?|[e' ?]]; [by left|right; eauto].
  - intros [Hc _]%Forall_app r' [Hr'| ->%list_elem_of_singleton]%elem_of_app Hle.
    + assert (r' ≠ r) as Hne by (by intros ->).
      destruct (H3 Hc r' Hr' Hle) as [(e' & ? & ? & ?)|[? ?]]; [left|right].
      * exists e'. split; [auto|]. split; [set_solver|in_trace].
      * split; [auto|set_solver].
    + left. exists e. split; [done|]. split; [set_solver|in_trace].
  - intros r' Hr' Hn. destruct (decide (r' = r)) as [->|Hne]; [done|]. apply Hl, H1; [done|set_solver].
  - intros r' [Hr' _]%elem_of_difference. destruct (H2 r' Hr') as [?|[e' ?]]; [by left|right; eauto].
  - intros [Hc _]%Forall_app r' [Hr'| ->%list_elem_of_singleton]%elem_of_app Hle.
    + assert (r' ≠ r) as Hne by (by intros ->).
      destruct (H3 Hc r' Hr' Hle) as [(e' & ? & ? & ?)|[? ?]]; [left|right].
      * exists e'. split; [auto|]. split; [set_solver|done].
      * split; [auto|set_solver].
    + right. split; [done|set_solver].
Qed.

Lemma daily_steps_inv ranges tr acc' :
  NoDup ranges → runs (pfold (daily_step g ctx target force) (retries, []) ranges) tr acc' → daily_inv ranges tr acc'.
Proof using.
  intros Hnd H. refine (runs_pfold _ _ _ _ _ daily_inv _ _ H).
  - constructor; simpl; [done|auto|intros _ r ?%elem_of_nil; done].
  - intros l1 r l2 tr1 acc1 tr2 acc2 -> HI Hr. eapply daily_step_inv; [|exact HI|exact Hr].
    apply NoDup_app in Hnd as (_ & Hnd & _). intros Hin. by apply (Hnd r Hin); left.
Qed.
End daily.

(** The job first reads the state of the series. *)
Lemma daily_job_inv g ctx recent historical retries target tr retries' errs :
  runs (daily_job g ctx recent historical retries target) tr (retries', errs) →
  ∃ loaded,
    head tr = Some (Call (LoadKlineGuardianState target.(AuditTarget.Exchange) target.(AuditTarget.Symbol) "1D") loaded) ∧
    match loaded with
    | Err e => retries' = retries ∧ errs = [e]
    | Ok state =>
        let force := retries ∪ list_to_set (recorded_range state) in
        daily_inv g ctx target force retries ([recent; historical] ++ elements retries ++ recorded_range state) tr
          (retries', errs)
    end.
Proof.
  intros H. unfold daily_job in H. apply runs_bind in H as (tr1 & loaded & tr2 & -> & Hl & H).
  apply runs_trigger in Hl as ->. exists loaded. split; [done|].
  destruct loaded as [state|e]; [|by apply runs_Ret in H as [-> [= -> ->]]].
  cbv zeta in H |- *. destruct (unseen_spec ∅ ([recent; historical] ++ elements retries ++ recorded_range state)) as [Hnd Hin].
  destruct (daily_steps_inv _ _ _ _ _ _ _ _ Hnd H) as [H1 H2 H3].
  assert (Hsub : ∀ r err, attempted g ctx target (retries ∪ list_to_set (recorded_range state)) tr2 r err →
    attempted g ctx target (retries ∪ list_to_set (recorded_range state))
      ([Call (LoadKlineGuardianState target.(AuditTarget.Exchange) target.(AuditTarget.Symbol) "1D") (Ok state)] ++ tr2) r err).
  { intros r err Ha. eapply attempted_mono; [|exact Ha]. intros; in_trace. }
  constructor.
  - intros r Hr Hn. by apply Hsub, H1.
  - intros r Hr. destruct (H2 r Hr) as [?|[e ?]]; [by left|right; eauto].
  - intros [_ Hc]%Forall_app r Hr Hle. destruct (H3 Hc r) as [(e & ? & ?)|[? ?]]; [|done|left|right].
    + apply Hin. split; [done|set_solver].
    + exists e. auto.
    + auto.
Qed.

(** a daily range that fails is not forgotten.  After the job of a symbol,
    a range has left the retries only because a repair of it, as a replay,
    returned no error, and has entered them only because one failed; and unless
    the context was cancelled every range of the round, recent, historical,
    retried or recorded in the state, was repaired, and is among the retries
    exactly when that failed. *)
Theorem daily_failures_kept g ctx recent historical retries target tr retries' errs :
  runs (daily_job g ctx recent historical retries target) tr (retries', errs) →
  ∃ loaded,
    Call (LoadKlineGuardianState target.(AuditTarget.Exchange) target.(AuditTarget.Symbol) "1D") loaded ∈ tr ∧
    match loaded with
    | Err e => retries' = retries ∧ errs = [e]
    | Ok state =>
        let force := retries ∪ list_to_set (recorded_range state) in
        daily_inv g ctx target force retries ([recent; historical] ++ elements retries ++ recorded_range state) tr
          (retries', errs)
    end.
Proof.
  intros (loaded & Hl & H)%daily_job_inv. exists loaded. split; [|done].
  destruct tr as [|c tr]; [done|]. injection Hl as ->. by left.
Qed.


(** Both ranges agree with the exchange. *)
Lemma daily_failures_kept_witness :
  ∃ tr retries' errs,
    runs (daily_job sample_guardian Ctx.background (DayMS * 100, DayMS * 106) (DayMS * 93, DayMS * 99) ∅ sample_target)
      tr (retries', errs) ∧ errs = [] ∧
    ∃ loaded, Call (LoadKlineGuardianState "okx" "BTC" "1D") loaded ∈ tr ∧
      match loaded with
      | Err e => retries' = ∅ ∧ errs = [e]
      | Ok state =>
          daily_inv sample_guardian Ctx.background sample_target (∅ ∪ list_to_set (recorded_range state)) ∅
            ([(DayMS * 100, DayMS * 106); (DayMS * 93, DayMS * 99)] ++ elements (∅ : gset dailyRange)
             ++ recorded_range state) tr (retries', errs)
      end.
Proof.
  destruct (exec daily_answers (daily_job sample_guardian Ctx.background (DayMS * 100, DayMS * 106)
              (DayMS * 93, DayMS * 99) ∅ sample_target) tt) as [[[tr [retries' errs]] w]|] eqn:E;
    [|vm_compute in E; discriminate].
  pose proof (exec_runs _ _ _ _ _ _ E) as Hruns.
  assert (errs = []) as He by (vm_compute in E; injection E as _ _ <- _; reflexivity).
  exists tr, retries', errs. split; [exact Hruns|]. split; [exact He|].
  exact (daily_failures_kept sample_guardian Ctx.background (DayMS * 100, DayMS * 106) (DayMS * 93, DayMS * 99) ∅
           sample_target tr retries' errs Hruns).
Defined.

(** ** The rounds of a target *)

(** A round as one target sees it: the calls of the plan, those of the target's job,
    and the retries of the target afterwards. *)
Module DailyRound.
Record DailyRound : Type := mk { plan : list (call guardianE); job : list (call guardianE); after : gset dailyRange }.
End DailyRound.
Notation DailyRound := DailyRound.DailyRound.

(** Rounds in a row, each planned from the cursor the one before left, in each of which
    [target] is among the targets and its job runs on the retries of the job before. *)
Inductive daily_rounds (g : Guardian) (ctx : Ctx) (target : AuditTarget)
    : Z → gset dailyRange → list DailyRound → Prop :=
| daily_rounds_nil cursor retries : daily_rounds g ctx target cursor retries []
| daily_rounds_cons cursor retries plan job recent historical groups cursor' after errs rest :
    runs (daily_plan g cursor) plan (Ok (Some (recent, historical, groups)), cursor') →
    target ∈ default [] (groups !! target.(AuditTarget.Exchange)) →
    runs (daily_job g ctx recent historical retries target) job (after, errs) →
    daily_rounds g ctx target cursor' after rest →
    daily_rounds g ctx target cursor retries (DailyRound.mk plan job after :: rest).

(** The round was planned on the day after [last]. *)
Definition planned_after (last : Z) (round : DailyRound) : Prop :=
  ∀ now, Call Now now ∈ round.(DailyRound.plan) → 0 <= now <= MaxTS ∧ last_day now = last.

(** The context was not cancelled in the job of the target, and the state of its daily
    series could be read. *)
Definition undisturbed (target : AuditTarget) (round : DailyRound) : Prop :=
  Forall (λ c, cancelled c = false) round.(DailyRound.job) ∧
  ∀ e, head round.(DailyRound.job)
    ≠ Some (Call (LoadKlineGuardianState target.(AuditTarget.Exchange) target.(AuditTarget.Symbol) "1D") (Err e)).

Lemma daily_plan_run g cursor tr recent historical groups cursor' :
  runs (daily_plan g cursor) tr (Ok (Some (recent, historical, groups)), cursor') →
  ∃ now, Call Now now ∈ tr ∧
    daily_ranges g.(Guardian.cfg).(Config.DailyAuditDays) g.(Guardian.cfg).(Config.DailyAuditLookbackDays) now cursor
      = (recent, historical, cursor').
Proof.
  unfold daily_plan. intros H. apply runs_bind in H as (tr1 & targets & tr2 & -> & _ & H).
  destruct targets as [[|t targets]|e]; [by apply runs_Ret in H as [_ ?]| |by apply runs_Ret in H as [_ ?]].
  apply runs_bind in H as (tr3 & now & tr4 & -> & Hn & H). apply runs_trigger in Hn as ->. exists now.
  split; [in_trace|]. destruct (daily_ranges _ _ _ _) as [[recent' historical'] c]. by apply runs_Ret in H as [_ [= -> -> _ ->]].
Qed.

(** The [k]-th round is planned from a cursor at the [k]-th block after the first. *)
Lemma daily_rounds_lookup g ctx target last cursor retries rounds k round :
  let a := g.(Guardian.cfg).(Config.DailyAuditDays) in let l := g.(Guardian.cfg).(Config.DailyAuditLookbackDays) in
  1 <= a <= l → l <= 1000000 → 0 <= cursor →
  daily_rounds g ctx target cursor retries rounds → Forall (planned_after last) rounds → rounds !! k = Some round →
  ∃ now ck before recent historical next errs,
    0 <= now <= MaxTS ∧ last_day now = last ∧ 0 <= ck ∧
    ck mod block_count a l = (cursor + Z.of_nat k) mod block_count a l ∧
    daily_ranges a l now ck = (recent, historical, next) ∧
    runs (daily_job g ctx recent historical before target) round.(DailyRound.job) (round.(DailyRound.after), errs).
Proof.
  intros a l Ha Hl Hc H. pose proof (block_count_pos a l Ha) as Hbc. revert k Hc.
  induction H as [|cursor retries plan job recent historical groups cursor' after errs rest Hp _ Hj _ IH]; intros k Hc Hday Hk;
    [done|]. apply Forall_cons in Hday as [Hd Hday]. destruct (daily_plan_run _ _ _ _ _ _ _ Hp) as (now & Hn & Hr).
  fold a l in Hr. destruct (Hd now Hn) as [Hnow Hlast]. destruct k as [|k].
  - injection Hk as <-. exists now, cursor, retries, recent, historical, cursor', errs. by rewrite Z.add_0_r.
  - destruct (daily_ranges_eq a l now cursor Ha Hl Hnow Hc) as [Heq _]. rewrite Hr in Heq. injection Heq as _ _ Hcur.
    assert (0 <= cursor') by (subst cursor'; by apply Z.mod_pos_bound).
    destruct (IH k) as (now' & ck & before & recent' & historical' & next & errs' & H1 & H2 & H3 & H4 & H5 & H6); [done..|].
    exists now', ck, before, recent', historical', next, errs'. do 3 (split; [done|]). split; [|by split]. etransitivity; [exact H4|]. fold a l. rewrite Hcur.
    rewrite Z.add_mod_idemp_l by lia. replace (cursor `mod` block_count a l + 1 + Z.of_nat k)
      with (cursor mod block_count a l + (1 + Z.of_nat k)) by lia. rewrite Z.add_mod_idemp_l by lia. f_equal. lia.
Qed.

(** C20: the daily rounds of a target visit the whole look-back.  Take as many rounds
    on one day as there are blocks, each planned from the cursor the one before left,
    whatever block the first cursor is at, none of them cancelled or without the state
    of the series.  Then for every day from yesterday back to the first day of the
    look-back, the job of the target in some round ran the repair of a range with that
    day.  When the repair returned no error, the official answer for the day was
    established as [repair_certifies] says; when it returned one, the range is among
    the retries of the target after that round. *)
Theorem daily_history_covered g ctx target last cursor retries rounds :
  let a := g.(Guardian.cfg).(Config.DailyAuditDays) in let l := g.(Guardian.cfg).(Config.DailyAuditLookbackDays) in
  1 <= a <= l → l <= 1000000 → 0 <= cursor →
  daily_rounds g ctx target cursor retries rounds → length rounds = Z.to_nat (block_count a l) →
  Forall (planned_after last) rounds → Forall (undisturbed target) rounds →
  ∀ i, 0 <= i <= l → let day := last - i * DayMS in
  ∃ round r force err, round ∈ rounds ∧ in_days day r ∧
    attempted g ctx target force round.(DailyRound.job) r err ∧
    match err with
    | Some _ => r ∈ round.(DailyRound.after)
    | None => ∃ s e result, r.1 <= s <= day ∧ day <= e <= r.2 ∧
        answered g F1D (floored F1D (normalize_request
          (RepairRequest.set_range s e (daily_request target r (bool_decide (r ∈ force)))) F1D))
          round.(DailyRound.job) result
    end.
Proof.
  intros a l Ha Hl Hc Hr Hlen Hday Hcalm i Hi day.
  destruct (block_holds a l cursor i Ha Hl Hc Hi) as (k & Hk & Hblock). rewrite <- Hlen in Hk.
  destruct (lookup_lt_is_Some_2 rounds k Hk) as [round Hround].
  destruct (daily_rounds_lookup g ctx target last cursor retries rounds k round Ha Hl Hc Hr Hday Hround)
    as (now & ck & before & recent & historical & next & errs & Hnow & Hlast & Hck & Hmod & Hranges & Hjob).
  specialize (Hblock now ck Hnow Hck Hmod). fold a l in Hranges. rewrite Hranges in Hblock.
  destruct Hblock as (r & j & Hr' & Hj & Hd & Hle & H1 & H2). rewrite Hlast in Hd. fold day in Hd.
  apply list_elem_of_lookup_2 in Hround. rewrite Forall_forall in Hcalm. destruct (Hcalm _ Hround) as [Hcan Hread].
  destruct (daily_job_inv g ctx recent historical before target _ _ _ Hjob) as ([state|e] & Hhead & Hinv);
    [|by destruct (Hread e)].
  cbv zeta in Hinv. set (force := before ∪ list_to_set (recorded_range state)) in *.
  assert (in_days day r) as Hin by (unfold in_days, DayMS in *; lia).
  destruct (di_done _ _ _ _ _ _ _ _ Hinv Hcan r) as [(e & Hatt & Hin' & _)|[Hatt _]];
    [destruct Hr' as [->| ->]; set_solver|unfold in_days in Hin; lia| |].
  - exists round, r, force, (Some e). by split_and!.
  - exists round, r, force, None. split; [done|]. split; [done|]. split; [done|]. destruct Hatt as (tr' & Hsub & Hatt).
    rewrite Hd. destruct (daily_range_answered g ctx target r _ tr' H1 H2 Hatt j Hj Hle) as (s & e & result & Hs & He & Ha').
    exists s, e, result. split; [done|]. split; [done|]. by eapply answered_mono.
Qed.

(** Two days at a time over a look-back of three: two rounds. *)
Definition round_guardian : Guardian :=
  New true true false true true [Some sample_fetcher]
    (Config.mk true false false false 0 0 0 0 true true 0 2 3 0 0 0 0 0 0 0 0 0 f64_zero [] false).
Definition round_symbol : SymbolInfo :=
  SymbolInfo.mk "okx" "BTC" "swap" "live" true 0 0 0 true "" "" "" "" 60000 0 0 "".

(** The store has the days asked for, and the exchange sends the same. *)
Definition round_days (s e : Z) : list Bar := sample_day <$> ((λ i, s + Z.of_nat i * DayMS) <$> seq 0 (Z.to_nat ((e - s) / DayMS + 1))).
Definition round_answers : handler guardianE unit := fun X e _ =>
  match e in guardianE X return option (X * unit) with
  | BarsInRange _ _ _ s e => Some (Ok (round_days s e), tt)
  | FetchKlines _ _ request => Some (Ok (round_days request.(KlineRequest.StartMS) request.(KlineRequest.EndMS)), tt)
  | ListSymbols _ => Some (Ok [round_symbol], tt)
  | e => daily_answers _ e tt
  end.

#[local] Instance AuditTarget_eq_dec : EqDecision AuditTarget.
Proof. solve_decision. Defined.

Definition plan_run (cursor : Z) := exec round_answers (daily_plan round_guardian cursor) tt.
Definition job_run (recent historical : dailyRange) (retries : gset dailyRange) :=
  exec round_answers (daily_job round_guardian Ctx.background recent historical retries sample_target) tt.

(** Rounds of [sample_target] against these answers. *)
Fixpoint run_rounds (k : nat) (cursor : Z) (retries : gset dailyRange) : option (list DailyRound) :=
  match k with
  | O => Some []
  | S k =>
      match plan_run cursor with
      | Some (plan, (Ok (Some (recent, historical, groups)), cursor), _) =>
          if bool_decide (sample_target ∈ default [] (groups !! "okx")) then
            match job_run recent historical retries with
            | Some (job, (after, _), _) => (DailyRound.mk plan job after ::.) <$> run_rounds k cursor after
            | None => None
            end
          else None
      | _ => None
      end
  end.

Lemma run_rounds_runs k cursor retries rounds :
  run_rounds k cursor retries = Some rounds → daily_rounds round_guardian Ctx.background sample_target cursor retries rounds.
Proof.
  revert cursor retries rounds. induction k as [|k IH]; intros cursor retries rounds H; cbn [run_rounds] in H;
    [injection H as <-; constructor|].
  destruct (plan_run cursor) as [[[plan [[[[[recent historical] groups]|]|] cursor']] w]|] eqn:Ep; try discriminate H.
  destruct (bool_decide _) eqn:Et; [apply bool_decide_eq_true in Et|discriminate H].
  destruct (job_run recent historical retries) as [[[job [after errs]] w']|] eqn:Ej; [|discriminate H].
  apply fmap_Some in H as (rest & Hrest & ->).
  econstructor; [exact (exec_runs _ _ _ _ _ _ Ep)|exact Et|exact (exec_runs _ _ _ _ _ _ Ej)|by apply IH].
Qed.

Definition calm_round (last : Z) (round : DailyRound) : bool :=
  forallb (λ c, match reading c with Some now => (0 <=? now) && (now <=? MaxTS) && (last_day now =? last) | None => true end)
    round.(DailyRound.plan)
  && forallb (λ c, negb (cancelled c)) round.(DailyRound.job)
  && match head round.(DailyRound.job) with
     | Some (Call e x) =>
         match e in guardianE X return X → bool with
         | LoadKlineGuardianState _ _ _ => fun x => match x with Ok _ => true | Err _ => false end
         | _ => fun _ => false
         end x
     | None => false
     end.

Lemma calm_rounds last rounds :
  forallb (calm_round last) rounds = true → Forall (planned_after last) rounds ∧ Forall (undisturbed sample_target) rounds.
Proof.
  intros H. rewrite forallb_forall in H. split; apply Forall_forall; intros round Hr; apply list_elem_of_In, H in Hr;
    unfold calm_round in Hr; apply andb_true_iff in Hr as [Hr H3]; apply andb_true_iff in Hr as [H1 H2].
  - intros now Hn. rewrite forallb_forall in H1. apply list_elem_of_In, H1 in Hn. cbn [reading] in Hn. zbool. lia.
  - split.
    + apply Forall_forall. intros c Hc. rewrite forallb_forall in H2. apply list_elem_of_In, H2 in Hc. by apply negb_true_iff in Hc.
    + intros e He. rewrite He in H3. done.
Qed.

Lemma daily_history_covered_witness :
  ∃ rounds, run_rounds 2 0 ∅ = Some rounds ∧
    ∃ round r force err, round ∈ rounds ∧ in_days (999907200000 - 3 * DayMS) r ∧
      attempted round_guardian Ctx.background sample_target force round.(DailyRound.job) r err.
Proof.
  assert (match run_rounds 2 0 ∅ with
          | Some rounds => (length rounds =? 2)%nat && forallb (calm_round 999907200000) rounds
          | None => false
          end = true) as Hcheck by (vm_compute; reflexivity).
  destruct (run_rounds 2 0 ∅) as [rounds|] eqn:E; [|discriminate]. exists rounds. split; [reflexivity|].
  apply andb_true_iff in Hcheck as [Hlen Hcalm]. apply Nat.eqb_eq in Hlen. apply calm_rounds in Hcalm as [Hday Hcalm].
  destruct (daily_history_covered round_guardian Ctx.background sample_target 999907200000 0 ∅ rounds
              ltac:(vm_compute; split; discriminate) ltac:(vm_compute; discriminate) ltac:(vm_compute; discriminate)
              (run_rounds_runs _ _ _ _ E) Hlen Hday Hcalm 3 ltac:(vm_compute; split; discriminate))
    as (round & r & force & err & H1 & H2 & H3 & _).
  exists round, r, force, err. split; [exact H1|]. split; [exact H2|exact H3].
Defined.

(** ** Final minutes *)

(** The range between the last final minute and [bar], if there is one. *)
Definition gap_before (previousStart : Z) (bar : Bar) : option (Z * Z) :=
  let nextExpected := if 0 <? previousStart then NextStartMS previousStart F1m else 0 in
  if (0 <? nextExpected) && (nextExpected <? bar.(Bar.StartMS))
  then Some (nextExpected, i64 (bar.(Bar.StartMS) - MinuteMS)) else None.

(** The gap was detected, handed to a repair, and both were recorded. *)
Definition gap_handled (g : Guardian) (ctx : Ctx) (bar : Bar) (tr : list (call guardianE)) (status : string)
    (range : Z * Z) : Prop :=
  ∃ tr' result err events,
    (∀ c, c ∈ tr' → c ∈ tr) ∧
    runs (repairRange g ctx bar.(Bar.Exchange) bar.(Bar.Symbol) range.1 range.2 "watermark_gap") tr' (result, err) ∧
    status = (match err with
              | Some _ => "repair_error"
              | None => if 0 <? result.(RepairResult.Repaired) then "gap_repaired" else "gap_checked"
              end) ∧
    Call (InsertKlineGuardianEvents events) None ∈ tr ∧
    ∃ now, gap_event bar range.1 range.2 "gap_detected" JNone now ∈ events.

(** What [handleFinalBar] has done when it returns no error: the last call wrote
    the state [s], made from the state [old] it read last. *)
Record final_handled (g : Guardian) (ctx : Ctx) (bar : Bar) (tr : list (call guardianE)) (s : KlineGuardianState) : Prop := {
  fh_last : last tr = Some (Call (UpsertKlineGuardianState s) None);
  fh_state : ∃ loaded previousStart now old,
    Call (LoadKlineGuardianState bar.(Bar.Exchange) bar.(Bar.Symbol) bar.(Bar.Timeframe)) (Ok loaded) ∈ tr ∧
    (from_option KlineGuardianState.LastFinalStartMS 0 loaded ≠ 0 →
       previousStart = from_option KlineGuardianState.LastFinalStartMS 0 loaded) ∧
    s = final_state bar (gap_before previousStart bar) s.(KlineGuardianState.Status) now old ∧
    (gap_before previousStart bar = None → old = default (new_state bar.(Bar.Exchange) bar.(Bar.Symbol) bar.(Bar.Timeframe)) loaded) ∧
    match gap_before previousStart bar with
    | Some range => gap_handled g ctx bar tr s.(KlineGuardianState.Status) range
    | None => s.(KlineGuardianState.Status) = "ok"
    end }.

Lemma insertEvents_None g events tr :
  events ≠ [] → runs (insertEvents g events) tr None → Call (InsertKlineGuardianEvents events) None ∈ tr.
Proof.
  intros Hne H. destruct events as [|event events]; [done|]. unfold insertEvents in H.
  apply runs_bind in H as (tr1 & err & tr2 & -> & H1 & H). apply runs_trigger in H1 as ->.
  destruct err; [by apply runs_Ret in H as [_ ?]|]. in_trace.
Qed.

Lemma repair_gap_handled g ctx bar gapStart gapEnd now tr status events tr' :
  runs (repair_gap g ctx bar gapStart gapEnd now) tr (status, events) →
  (∀ c, c ∈ tr → c ∈ tr') → Call (InsertKlineGuardianEvents events) None ∈ tr' →
  events ≠ [] ∧ gap_handled g ctx bar tr' status (gapStart, gapEnd).
Proof.
  intros H Hsub Hins. unfold repair_gap in H. apply runs_bind in H as (tr1 & [result err] & tr2 & -> & Hr & H).
  cbv zeta in H. apply runs_Ret in H as [-> H]. split; [destruct err; by simplify_eq|].
  exists tr1, result, err, events. split; [intros; apply Hsub; in_trace|]. split; [done|].
  split; [destruct err; by simplify_eq|]. split; [done|]. exists now. simpl. destruct err; simplify_eq; by left.
Qed.

Lemma repair_gap_events g ctx bar gapStart gapEnd now tr status events :
  runs (repair_gap g ctx bar gapStart gapEnd now) tr (status, events) → events ≠ [].
Proof.
  intros H. unfold repair_gap in H. apply runs_bind in H as (tr1 & [result err] & tr2 & -> & Hr & H).
  cbv zeta in H. apply runs_Ret in H as [-> H]. destruct err; by simplify_eq.
Qed.

Definition normalized_bar (tf : Frame) (bar : Bar) : Bar :=
  Bar.set_Timeframe (frame_name tf)
    (Bar.set_Symbol (normalizeSymbol bar.(Bar.Symbol)) (Bar.set_Exchange (normalizeExchange bar.(Bar.Exchange)) bar)).

(** the watermark of the final minutes skips nothing silently.  When
    [handleFinalBar] returns no error its last call writes the state, whose
    watermark is the later of the one it read and the candle; and when the
    candle does not follow the last final minute, the range between them was
    handed to a repair first and the gap recorded as an event, with a status that
    says how the repair ended. *)
Theorem final_bar_watermark g ctx bar tf tr :
  Normalize bar.(Bar.Timeframe) = Ok tf →
  runs (handleFinalBar g ctx bar) tr None →
  ∃ s, final_handled g ctx (normalized_bar tf bar) tr s ∧
    bar.(Bar.StartMS) <= s.(KlineGuardianState.LastFinalStartMS).
Proof.
  intros Htf H. unfold handleFinalBar in H. rewrite Htf in H. fold (normalized_bar tf bar) in H.
  assert (Hst : bar.(Bar.StartMS) = (normalized_bar tf bar).(Bar.StartMS)) by (by destruct bar).
  rewrite Hst. clear Hst Htf. revert H. generalize (normalized_bar tf bar) as b. clear bar. intros bar H.
  unfold handle_normalized in H. cbv zeta in H.
  apply runs_bind in H as (tr1 & loaded & tr2 & -> & Hl & H). apply runs_trigger in Hl as ->.
  destruct loaded as [loaded|e]; [|by run_step].
  apply runs_bind in H as (tr3 & previous & tr4 & -> & Hp & H).
  destruct previous as [previousStart|e]; [|by run_step].
  assert (Hprev : from_option KlineGuardianState.LastFinalStartMS 0 loaded ≠ 0 →
            previousStart = from_option KlineGuardianState.LastFinalStartMS 0 loaded).
  { intros Hne. destruct (_ =? 0) eqn:E0; zbool; [done|]. by apply runs_Ret in Hp as [_ [= ->]]. }
  apply runs_bind in H as (tr5 & now & tr6 & -> & _ & H). fold (gap_before previousStart bar) in H.
  apply runs_bind in H as (tr7 & [status events] & tr8 & -> & Hg & H).
  apply runs_bind in H as (tr9 & err & tr10 & -> & Hi & H). destruct err as [e|]; [by run_step|].
  apply runs_bind in H as (tr11 & refreshed & tr12 & -> & Hf & H). destruct refreshed as [refreshed|e]; [|by run_step].
  apply runs_trigger in H as ->. set (old := default _ _). set (s := final_state bar _ status now old).
  exists s. split.
  - constructor; [by rewrite !last_app|].
    exists loaded, previousStart, now, old. split; [in_trace|]. split; [done|]. split; [done|]. split.
    + intros Hn. rewrite Hn in Hf. apply runs_Ret in Hf as [_ [= ->]]. subst old. by destruct loaded.
    + destruct (gap_before previousStart bar) as [[gapStart gapEnd]|]; [|by apply runs_Ret in Hg as [_ [= -> _]]].
      simpl. eapply (repair_gap_handled _ _ _ _ _ _ _ _ _ _ Hg); [intros; in_trace|].
      pose proof (insertEvents_None _ _ _ (repair_gap_events _ _ _ _ _ _ _ _ _ Hg) Hi). in_trace.
  - simpl. case_bool; zbool; lia.
Qed.

Definition sample_state (lastFinal : Z) (status : string) : KlineGuardianState :=
  KlineGuardianState.mk "okx" "BTC" "1m" lastFinal 0 600000 1200000 0 0 0 status 0.
Definition final_answers (state : KlineGuardianState) : handler guardianE unit := fun X e _ =>
  match e in guardianE X return option (X * unit) with
  | LoadKlineGuardianState _ _ _ => Some (Ok (Some state), tt)
  | ListSymbols _ => Some (Ok [], tt)
  | RepairRollups _ => Some (None, tt)
  | e => minute_answers _ e tt
  end.

(** The minute 3600000 has not come. *)
Lemma final_bar_watermark_witness :
  ∃ tr s, runs (handleFinalBar sample_guardian Ctx.background (sample_minute 3660000 101)) tr None ∧
    final_handled sample_guardian Ctx.background (normalized_bar F1m (sample_minute 3660000 101)) tr s ∧
    (sample_minute 3660000 101).(Bar.StartMS) <= s.(KlineGuardianState.LastFinalStartMS).
Proof.
  destruct (exec (final_answers (sample_state 3540000 "ok"))
              (handleFinalBar sample_guardian Ctx.background (sample_minute 3660000 101)) tt)
    as [[[tr [e|]] w]|] eqn:E; [vm_compute in E; discriminate| |vm_compute in E; discriminate].
  pose proof (exec_runs _ _ _ _ _ _ E) as Hruns. clear E. exists tr.
  destruct (final_bar_watermark sample_guardian Ctx.background (sample_minute 3660000 101) F1m tr eq_refl Hruns)
    as (s & Hs & Hle).
  exists s. split; [exact Hruns|]. split; [exact Hs|exact Hle].
Defined.

(** A final candle that follows the last one replaces a recorded failure of
    another range by [ok], which [upsertTimeframeAuditState] takes care not to
    do; without the task ledger nothing else remembers the range. *)
Example final_bar_replaces_failure :
  match exec (final_answers (sample_state 3600000 "repair_error"))
          (handleFinalBar sample_guardian Ctx.background (sample_minute 3660000 101)) tt with
  | Some (tr, err, _) => err = None ∧ omap upserted tr =
      [final_state (sample_minute 3660000 101) None "ok" 10810000 (sample_state 3600000 "repair_error")]
  | None => False
  end.
Proof. vm_compute. split; reflexivity. Qed.
