(* ===== verification/GuardianPool.v ===== *)
(** * Workers and request budgets (internal/guardian/worker_pool.go, request_pacing.go)

    [runTargetPool] is a step relation on the state of its goroutines: one that
    hands the targets out over an unbuffered channel, and the workers.  A pacer
    is the earliest instant of the next request; [Wait] and [waitRequestPacers]
    try under the lock of the pacer until they get through, so a run is the list
    of the tries, of all goroutines, in the order in which they took the lock. *)

From S2P Require Export Prelude.

Local Open Scope Z_scope.
Local Open Scope list_scope.

(** ** The worker pool *)

Module Pool.
(** [pending]: what the sender has not handed out; [sending]: it is in its loop;
    [taken]: received by a worker that has not looked at the context yet;
    [skipped]: dropped by a worker because the context was cancelled. *)
Record Pool (J : Type) : Type := mk {
  pending : list J; sending : bool; idle : nat; taken : list J; running : list J;
  finished : list J; skipped : list J; exited : nat; cancelled : bool }.
Arguments mk {J} _ _ _ _ _ _ _ _ _.
Arguments pending {J} _.
Arguments sending {J} _.
Arguments idle {J} _.
Arguments taken {J} _.
Arguments running {J} _.
Arguments finished {J} _.
Arguments skipped {J} _.
Arguments exited {J} _.
Arguments cancelled {J} _.
End Pool.
Notation Pool := Pool.Pool.

(** [workers := minInt(max, len(targets))], at least one. *)
Definition pool_workers (maxInflight targets : Z) : nat :=
  let workers := if maxInflight <? targets then maxInflight else targets in
  Z.to_nat (if workers <? 1 then 1 else workers).

Definition pool_start {J} (maxInflight : Z) (targets : list J) : Pool J :=
  Pool.mk targets true (pool_workers maxInflight (Z.of_nat (length targets))) [] [] [] [] 0 false.

Inductive pool_step {J} : Pool J → Pool J → Prop :=
(** The sender and an idle worker meet on the channel. *)
| step_hand t pending idle taken running finished skipped exited cancelled :
    pool_step (Pool.mk (t :: pending) true (S idle) taken running finished skipped exited cancelled)
              (Pool.mk pending true idle (t :: taken) running finished skipped exited cancelled)
(** The worker looks at the context, and starts or drops the job. *)
| step_begin t pending sending idle taken1 taken2 running finished skipped exited :
    pool_step (Pool.mk pending sending idle (taken1 ++ t :: taken2) running finished skipped exited false)
              (Pool.mk pending sending idle (taken1 ++ taken2) (t :: running) finished skipped exited false)
| step_skip t pending sending idle taken1 taken2 running finished skipped exited :
    pool_step (Pool.mk pending sending idle (taken1 ++ t :: taken2) running finished skipped exited true)
              (Pool.mk pending sending (S idle) (taken1 ++ taken2) running finished (t :: skipped) exited true)
| step_finish t pending sending idle taken running1 running2 finished skipped exited cancelled :
    pool_step (Pool.mk pending sending idle taken (running1 ++ t :: running2) finished skipped exited cancelled)
              (Pool.mk pending sending (S idle) taken (running1 ++ running2) (t :: finished) skipped exited cancelled)
(** The context is cancelled from outside; the sender may notice it. *)
| step_cancel pending sending idle taken running finished skipped exited :
    pool_step (Pool.mk pending sending idle taken running finished skipped exited false)
              (Pool.mk pending sending idle taken running finished skipped exited true)
| step_break pending idle taken running finished skipped exited :
    pool_step (Pool.mk pending true idle taken running finished skipped exited true)
              (Pool.mk pending false idle taken running finished skipped exited true)
(** The loop ends and the channel is closed; an idle worker sees it and exits. *)
| step_close idle taken running finished skipped exited cancelled :
    pool_step (Pool.mk [] true idle taken running finished skipped exited cancelled)
              (Pool.mk [] false idle taken running finished skipped exited cancelled)
| step_exit pending idle taken running finished skipped exited cancelled :
    pool_step (Pool.mk pending false (S idle) taken running finished skipped exited cancelled)
              (Pool.mk pending false idle taken running finished skipped (S exited) cancelled).

(** [wg.Wait()] returns. *)
Definition pool_done {J} (workers : nat) (p : Pool J) : Prop := p.(Pool.sending) = false ∧ p.(Pool.exited) = workers.

(** ** Request budgets *)

(** [requestPacer]: instants and intervals in nanoseconds. *)
Module Pacer.
Record Pacer : Type := mk { interval : Z; next : Z }.
Definition grant (now : Z) (p : Pacer) : Pacer := mk p.(interval) (now + p.(interval)).
End Pacer.
Notation Pacer := Pacer.Pacer.

(** One try of [Wait] at the instant [now]: it gets through, or it learns how
    long to wait. *)
Definition try_wait (p : Pacer) (now : Z) : Pacer + Z :=
  if p.(Pacer.interval) <=? 0 then inl p
  else if p.(Pacer.next) <=? now then inl (Pacer.grant now p) else inr (p.(Pacer.next) - now).

(** One try of [waitRequestPacers]. *)
Definition try_both (global background : Pacer) (now : Z) : (Pacer * Pacer) + Z :=
  if background.(Pacer.interval) <=? 0 then
    match try_wait global now with inl global => inl (global, background) | inr wait => inr wait end
  else
    let ready := if global.(Pacer.next) <? background.(Pacer.next) then background.(Pacer.next)
                 else global.(Pacer.next) in
    if ready <=? now then inl (Pacer.grant now global, Pacer.grant now background) else inr (ready - now).

(** The tries on the two pacers of an exchange: each at an instant, by a request
    that does ([true]) or does not belong to a minute-day audit.  The result
    lists the requests that got through. *)
Fixpoint pace (global background : Pacer) (tries : list (Z * bool)) : list (Z * bool) :=
  match tries with
  | [] => []
  | (now, day) :: rest =>
      match (if day : bool then try_both global background now
             else match try_wait global now with inl g => inl (g, background) | inr w => inr w end) with
      | inl (global, background) => (now, day) :: pace global background rest
      | inr _ => pace global background rest
      end
  end.

(** ** Properties *)

Section pool.
Context {J : Type}.
Implicit Types (p : Pool J) (targets : list J).

Record pool_inv (workers : nat) targets p : Prop := {
  pi_workers : (p.(Pool.idle) + length p.(Pool.taken) + length p.(Pool.running) + p.(Pool.exited) = workers)%nat;
  pi_targets : p.(Pool.pending) ++ p.(Pool.taken) ++ p.(Pool.running) ++ p.(Pool.finished) ++ p.(Pool.skipped) ≡ₚ targets;
  pi_sent : p.(Pool.sending) = false → p.(Pool.cancelled) = false → p.(Pool.pending) = [];
  pi_skipped : p.(Pool.cancelled) = false → p.(Pool.skipped) = [];
  pi_exited : p.(Pool.sending) = true → p.(Pool.exited) = 0%nat }.

Lemma pool_step_inv workers targets p p' :
  pool_inv workers targets p → pool_step p p' → pool_inv workers targets p'.
Proof.
  intros [H1 H2 H3 H4 H5] Hs. destruct Hs; constructor; simpl in *;
    rewrite ?length_app in *; simpl in *; try done; try lia; auto;
    try (rewrite <- H2; solve_Permutation || (rewrite <- !app_assoc; simpl; solve_Permutation)).
Qed.

Lemma pool_start_inv maxInflight targets :
  pool_inv (pool_workers maxInflight (Z.of_nat (length targets))) targets (pool_start maxInflight targets).
Proof. constructor; simpl; [lia|by rewrite !app_nil_r|done|done|done]. Qed.
End pool.

Section pool_facts.
Context {J : Type}.

(** Every step brings the pool closer to its end. *)
Definition pool_measure (p : Pool J) : nat :=
  (5 * length p.(Pool.pending) + 4 * length p.(Pool.taken) + 3 * length p.(Pool.running) + p.(Pool.idle)
   + (if p.(Pool.sending) then 1 else 0) + (if p.(Pool.cancelled) then 0 else 1))%nat.

Lemma pool_step_measure p p' : pool_step p p' → (pool_measure p' < pool_measure p)%nat.
Proof. intros Hs. destruct Hs; unfold pool_measure; simpl; rewrite ?length_app; simpl; lia. Qed.

Lemma pool_nsteps_measure n p p' : nsteps pool_step n p p' → (n + pool_measure p' <= pool_measure p)%nat.
Proof. induction 1 as [p|n p1 p2 p3 Hs _ IH]; [lia|]. apply pool_step_measure in Hs. lia. Qed.

Lemma pool_reach_inv maxInflight (targets : list J) p :
  rtc pool_step (pool_start maxInflight targets) p →
  pool_inv (pool_workers maxInflight (Z.of_nat (length targets))) targets p.
Proof.
  intros H. remember (pool_start maxInflight targets) as p0 eqn:E.
  assert (pool_inv (pool_workers maxInflight (Z.of_nat (length targets))) targets p0) as Hi
    by (subst; apply pool_start_inv).
  clear E. induction H as [|p1 p2 p3 Hs _ IH]; [done|]. apply IH. by eapply pool_step_inv.
Qed.

Lemma pool_progress workers (targets : list J) p :
  (0 < workers)%nat → pool_inv workers targets p → ¬ pool_done workers p → ∃ p', pool_step p p'.
Proof.
  intros Hw [H1 H2 H3 H4 H5] Hd.
  destruct p as [pending sending idle taken running finished skipped exited cancelled]. simpl in *.
  destruct taken as [|t taken].
  - destruct running as [|t running]; [|eexists; apply (step_finish t _ _ _ _ [])].
    destruct sending.
    + destruct pending as [|t pending]; [eexists; constructor|].
      destruct idle as [|idle]; [|eexists; constructor].
      specialize (H5 eq_refl). simpl in *. lia.
    + destruct idle as [|idle]; [|eexists; constructor].
      exfalso. apply Hd. simpl in H1. split; simpl; [done|lia].
  - destruct cancelled; [eexists; apply (step_skip t _ _ _ [])|eexists; apply (step_begin t _ _ _ [])].
Qed.
End pool_facts.

(** the worker pool runs every target and stops.  From the start of
    [runTargetPool], however its goroutines interleave, at most the configured
    number of jobs is in progress, no target is lost or run twice, some goroutine
    can always go on until the call returns, it returns within a bounded number
    of steps, and when it returns without a cancellation every target has been
    run. *)
Theorem pool_runs_all {J} maxInflight (targets : list J) n p :
  nsteps pool_step n (pool_start maxInflight targets) p →
  let workers := pool_workers maxInflight (Z.of_nat (length targets)) in
  Z.of_nat (length p.(Pool.running)) <= Z.max 1 maxInflight ∧
  p.(Pool.pending) ++ p.(Pool.taken) ++ p.(Pool.running) ++ p.(Pool.finished) ++ p.(Pool.skipped) ≡ₚ targets ∧
  (pool_done workers p ∨ ∃ p', pool_step p p') ∧
  (n <= 5 * length targets + workers + 2)%nat ∧
  (pool_done workers p → p.(Pool.cancelled) = false → p.(Pool.finished) ≡ₚ targets).
Proof.
  intros Hn workers. pose proof (pool_reach_inv _ _ _ (rtc_nsteps_2 _ _ _ Hn)) as Hi. fold workers in Hi.
  assert (Hw : (0 < workers)%nat ∧ Z.of_nat workers <= Z.max 1 maxInflight).
  { subst workers. unfold pool_workers. repeat case_bool; zbool; lia. }
  pose proof Hi as [H1 H2 H3 H4 H5]. split_and!; [lia|done| | |].
  - destruct (decide (p.(Pool.sending) = false ∧ p.(Pool.exited) = workers)) as [Hd|Hd]; [by left|right].
    eapply pool_progress; [|done|done]. lia.
  - apply pool_nsteps_measure in Hn. unfold pool_measure, pool_start in Hn. simpl in Hn. fold workers in Hn. lia.
  - intros [Hs He] Hc. rewrite (H3 Hs Hc), (H4 Hc) in H2.
    assert (p.(Pool.taken) = []) as Ht by (apply length_zero_iff_nil; lia).
    assert (p.(Pool.running) = []) as Hr by (apply length_zero_iff_nil; lia).
    by rewrite Ht, Hr, app_nil_r in H2.
Qed.

(** Two targets, one worker. *)
Lemma pool_runs_all_witness :
  ∃ p, nsteps pool_step 8 (pool_start 1 [10; 20]) p ∧ pool_done 1 p ∧ p.(Pool.finished) ≡ₚ [10; 20].
Proof.
  assert (Hn : nsteps pool_step 8 (pool_start 1 [10; 20]) (Pool.mk [] false 0 [] [] [20; 10] [] 1 false)).
  { eapply nsteps_l; [apply step_hand|]. eapply nsteps_l; [apply (step_begin 10 _ _ _ [] [])|].
    eapply nsteps_l; [apply (step_finish 10 _ _ _ _ [] [])|]. eapply nsteps_l; [apply step_hand|].
    eapply nsteps_l; [apply (step_begin 20 _ _ _ [] [])|]. eapply nsteps_l; [apply (step_finish 20 _ _ _ _ [] [])|].
    eapply nsteps_l; [apply step_close|]. eapply nsteps_l; [apply step_exit|]. apply nsteps_O. }
  exists (Pool.mk [] false 0 [] [] [20; 10] [] 1 false). split; [exact Hn|].
  assert (Hd : pool_done 1 (Pool.mk [] false 0 [] [] [20; 10] [] 1 false)) by (split; reflexivity).
  split; [exact Hd|]. exact (proj2 (proj2 (proj2 (proj2 (pool_runs_all 1 [10; 20] 8 _ Hn)))) Hd eq_refl).
Defined.

(** ** The spacing of requests *)

(** Consecutive elements of [l] that satisfy [sel] are [interval] apart. *)
Fixpoint spaced (interval : Z) (sel : Z * bool → bool) (since : option Z) (l : list (Z * bool)) : Prop :=
  match l with
  | [] => True
  | r :: rest =>
      if sel r then
        match since with Some t => t + interval <= r.1 | None => True end ∧ spaced interval sel (Some r.1) rest
      else spaced interval sel since rest
  end.

Lemma pace_spaced global background tries (tg tb : option Z) :
  0 < global.(Pacer.interval) → 0 < background.(Pacer.interval) →
  match tg with Some t => t + global.(Pacer.interval) <= global.(Pacer.next) | None => True end →
  match tb with Some t => t + background.(Pacer.interval) <= background.(Pacer.next) | None => True end →
  spaced global.(Pacer.interval) (λ _, true) tg (pace global background tries) ∧
  spaced background.(Pacer.interval) snd tb (pace global background tries).
Proof.
  revert global background tg tb. induction tries as [|[now day] rest IH]; intros global background tg tb Hg Hb Htg Htb; [done|].
  assert (Hg' : global.(Pacer.interval) <=? 0 = false) by (apply Z.leb_gt; lia).
  assert (Hb' : background.(Pacer.interval) <=? 0 = false) by (apply Z.leb_gt; lia).
  cbn [pace]. unfold try_both, try_wait. rewrite Hg', Hb'. cbv zeta. destruct day.
  - set (ready := if _ <? _ then _ else _). destruct (ready <=? now) eqn:E; [|by apply IH].
    assert (global.(Pacer.next) <= now ∧ background.(Pacer.next) <= now) as [H1 H2]
      by (subst ready; destruct (_ <? _) eqn:E' in E; zbool; lia).
    destruct (IH (Pacer.grant now global) (Pacer.grant now background) (Some now) (Some now)) as [HA HB];
      [done|done|simpl; lia|simpl; lia|].
    split; cbn [spaced snd fst]; (split; [destruct tg, tb; simpl in *; lia|done]).
  - destruct (global.(Pacer.next) <=? now) eqn:E; [|by apply IH]. zbool.
    destruct (IH (Pacer.grant now global) background (Some now) tb) as [HA HB]; [done|done|simpl; lia|done|].
    split; cbn [spaced snd fst]; [split; [destruct tg; simpl in *; lia|done]|done].
Qed.

(** the request budgets are kept.  Whatever the goroutines and the instants
    of their tries, consecutive requests that get through to an exchange are at
    least the exchange's interval apart, and those of minute-day audits also at
    least theirs; and a try that is told to wait gets through after that wait,
    unless another request got through in between. *)
Theorem pacers_spaced global background tries :
  0 < global.(Pacer.interval) → 0 < background.(Pacer.interval) →
  spaced global.(Pacer.interval) (λ _, true) None (pace global background tries) ∧
  spaced background.(Pacer.interval) snd None (pace global background tries) ∧
  (∀ now wait, try_both global background now = inr wait →
     0 < wait ∧ is_Some (match try_both global background (now + wait) with inl p => Some p | inr _ => None end)) ∧
  (∀ now wait, try_wait global now = inr wait →
     0 < wait ∧ is_Some (match try_wait global (now + wait) with inl p => Some p | inr _ => None end)).
Proof.
  intros Hg Hb. destruct (pace_spaced global background tries None None Hg Hb I I) as [H1 H2].
  assert (Hg' : global.(Pacer.interval) <=? 0 = false) by (apply Z.leb_gt; lia).
  assert (Hb' : background.(Pacer.interval) <=? 0 = false) by (apply Z.leb_gt; lia).
  split_and!; [done|done| |]; intros now wait; unfold try_both, try_wait; rewrite ?Hg', ?Hb'; cbv zeta.
  - set (ready := if _ <? _ then _ else _). destruct (ready <=? now) eqn:E; [done|]. intros [= <-]. zbool.
    replace (now + (ready - now)) with ready by lia. rewrite Z.leb_refl. split; [lia|by eexists].
  - destruct (global.(Pacer.next) <=? now) eqn:E; [done|]. intros [= <-]. zbool.
    replace (now + (global.(Pacer.next) - now)) with global.(Pacer.next) by lia. rewrite Z.leb_refl.
    split; [lia|by eexists].
Qed.

Lemma pacers_spaced_witness :
  pace (Pacer.mk 100 0) (Pacer.mk 1000 0) [(0, true); (50, false); (100, true); (100, false); (1000, true)]
    = [(0, true); (100, false); (1000, true)] ∧
  spaced 1000 snd None
    (pace (Pacer.mk 100 0) (Pacer.mk 1000 0) [(0, true); (50, false); (100, true); (100, false); (1000, true)]).
Proof.
  split; [reflexivity|].
  exact (proj1 (proj2 (pacers_spaced (Pacer.mk 100 0) (Pacer.mk 1000 0)
    [(0, true); (50, false); (100, true); (100, false); (1000, true)] eq_refl eq_refl))).
Defined.
