(* ===== verification/GuardianLocks.v ===== *)
(** * The Guardian cannot block itself (internal/guardian)

    The workers share 128 minute locks and the request slots of each exchange.
    guardian_locks_balanced: along every run of every job a worker holds at most
    one lock and one slot, never asks for a lock while it holds one nor for a
    slot while it holds one, and gives back what it took.  Since a slot is only
    held during a request, no two workers can wait for each other. *)

From S2P Require Export GuardianAuditSpec.

Local Open Scope string_scope.
Local Open Scope Z_scope.
Local Open Scope list_scope.

(** ** What a worker holds *)

Module Held.
Record Held : Type := mk { lock : option Z; slot : option string }.
Definition none : Held := mk None None.
End Held.
Notation Held := Held.Held.

(** The effect of a call; [None] when it asks for what it must not. *)
Definition hold_step (h : Held) (c : call guardianE) : option Held :=
  match c with
  | Call e x =>
      match e in guardianE X return X → option Held with
      | Lock i => fun _ => match h.(Held.lock), h.(Held.slot) with
                           | None, None => Some (Held.mk (Some i) None)
                           | _, _ => None
                           end
      | Unlock i => fun _ => if bool_decide (h.(Held.lock) = Some i) then Some (Held.mk None h.(Held.slot)) else None
      | AcquireSlot ex => fun r =>
          match h.(Held.slot), r with
          | None, None => Some (Held.mk h.(Held.lock) (Some ex))
          | None, Some _ => Some h
          | Some _, _ => None
          end
      | ReleaseSlot ex => fun _ =>
          if bool_decide (h.(Held.slot) = Some ex) then Some (Held.mk h.(Held.lock) None) else None
      | _ => fun _ => Some h
      end x
  end.

Fixpoint hold (h : Held) (tr : list (call guardianE)) : option Held :=
  match tr with
  | [] => Some h
  | c :: tr => match hold_step h c with Some h => hold h tr | None => None end
  end.

Lemma hold_app h tr1 tr2 : hold h (tr1 ++ tr2) = match hold h tr1 with Some h => hold h tr2 | None => None end.
Proof. revert h. induction tr1 as [|c tr1 IH]; intros h; simpl; [done|]. destruct (hold_step h c); [apply IH|done]. Qed.

(** From nothing to nothing; and, inside a lock, from the lock to the lock. *)
Definition balanced (tr : list (call guardianE)) : Prop := hold Held.none tr = Some Held.none.
Definition slots_balanced (tr : list (call guardianE)) : Prop :=
  ∀ lock, hold (Held.mk lock None) tr = Some (Held.mk lock None).

Lemma slots_balanced_balanced tr : slots_balanced tr → balanced tr.
Proof. intros H. apply H. Qed.

#[export] Instance slots_balanced_trace : TraceProp slots_balanced.
Proof. split; [done|]. intros tr1 tr2 H1 H2 lock. by rewrite hold_app, H1, H2. Qed.

(** The calls that neither take nor give back. *)
Definition neutral {X} (e : guardianE X) : bool :=
  match e with Lock _ | Unlock _ | AcquireSlot _ | ReleaseSlot _ => false | _ => true end.

Lemma each_neutral {X} (e : guardianE X) : neutral e = true → each slots_balanced (trigger e).
Proof. intros He. apply each_trigger. intros x lock. by destruct e. Qed.
#[export] Hint Extern 2 (each slots_balanced (trigger _)) => apply each_neutral; reflexivity : each.

Section locks.
Context (g : Guardian).

Lemma fetchKlines_slots ctx fetcher request : each slots_balanced (fetchKlines g ctx fetcher request).
Proof.
  unfold fetchKlines. cbv zeta. case_bool; [|each_auto].
  intros tr r H. apply runs_bind in H as (tr1 & err & tr2 & -> & H1 & H). apply runs_trigger in H1 as ->.
  destruct err as [e|]; [by apply runs_Ret in H as [-> ->]|].
  apply runs_bind in H as (tr3 & bars & tr4 & -> & H1 & H). apply runs_trigger in H1 as ->.
  apply runs_bind in H as (tr5 & u & tr6 & -> & H1 & H). apply runs_trigger in H1 as ->.
  apply runs_Ret in H as [-> ->]. intros lock. simpl. by rewrite bool_decide_eq_true_2.
Qed.
#[local] Hint Resolve fetchKlines_slots : each.

Lemma upsert_slots request status : each slots_balanced (upsertTimeframeAuditState request status).
Proof. unfold upsertTimeframeAuditState. each_auto. Qed.
#[local] Hint Resolve upsert_slots : each.

Lemma insertEvents_slots events : each slots_balanced (insertEvents g events).
Proof. unfold insertEvents. each_auto. Qed.
#[local] Hint Resolve insertEvents_slots : each.

Lemma recordRepairFailure_slots request status err : each slots_balanced (recordRepairFailure g request status err).
Proof. unfold recordRepairFailure. each_auto. Qed.
#[local] Hint Resolve recordRepairFailure_slots : each.

Lemma diverge_slots {A} : each slots_balanced (diverge (A:=A)).
Proof. by intros tr a ?%runs_diverge. Qed.
#[local] Hint Resolve diverge_slots : each.

Lemma repair_locked_slots ctx fetcher request tf : each slots_balanced (repair_locked g ctx fetcher request tf).
Proof.
  unfold repair_locked, repair_fetch, repair_official, repair_empty, applyCorporateActionFactors, confirmNoTradeDays,
    no_trade_day, repair_compared, diffTimeframeBars, noTradeDayEvents, mark_bars, write_repairs, or_return, or_record.
  each_auto.
Qed.
#[local] Hint Resolve repair_locked_slots : each.

Lemma unless_cancelled_slots p : each slots_balanced p → each slots_balanced (unless_cancelled p).
Proof. intros Hp. unfold unless_cancelled, or_return. each_auto. Qed.

Lemma with_lock_balanced {A} shard (body : gprog A) : each slots_balanced body → each balanced (with_lock shard body).
Proof.
  intros Hb tr a (tr' & -> & H)%with_lock_runs. unfold balanced. cbn [hold hold_step Held.none Held.lock Held.slot].
  rewrite hold_app, (Hb _ _ H). cbn. by rewrite bool_decide_eq_true_2.
Qed.

Lemma minuteSymbolKey_normalize ex symbol :
  minuteSymbolKey (normalizeExchange ex) (normalizeSymbol symbol) = minuteSymbolKey ex symbol.
Proof.
  unfold minuteSymbolKey, normalizeExchange, normalizeSymbol. by rewrite norm_lower_idem, norm_upper_idem.
Qed.

(** A repair takes the lock of its symbol, unless the caller holds it. *)
Lemma repair_balanced ctx fetcher request :
  ctx.(Ctx.heldKey) = None → each balanced (repairTimeframeRange g ctx fetcher request).
Proof.
  intros Hc tr a H. unfold repairTimeframeRange in H. destruct (Normalize _) as [tf|e]; [|by apply runs_Ret in H as [-> _]].
  cbv zeta in H. rewrite Hc in H. destruct (bool_decide (tf = F1m)).
  - rewrite bool_decide_eq_false_2 in H by done.
    by apply (with_lock_balanced _ _ (unless_cancelled_slots _ (repair_locked_slots _ _ _ _)) _ _ H).
  - by apply slots_balanced_balanced, (repair_locked_slots _ _ _ _ _ _ H).
Qed.

Lemma repair_held_slots ctx fetcher request :
  ctx.(Ctx.heldKey) = Some (minuteSymbolKey request.(RepairRequest.Exchange) request.(RepairRequest.Symbol)) →
  request.(RepairRequest.Timeframe) = "1m" → each slots_balanced (repairTimeframeRange g ctx fetcher request).
Proof.
  intros Hc Htf. unfold repairTimeframeRange. rewrite Htf. change (Normalize "1m") with (@Ok tf_error Frame F1m). cbv zeta.
  rewrite Hc. rewrite (bool_decide_eq_true_2 (F1m = F1m)) by done. rewrite bool_decide_eq_true_2.
  - apply unless_cancelled_slots, repair_locked_slots.
  - unfold normalize_request. destruct request. simpl. by rewrite minuteSymbolKey_normalize.
Qed.

(** ** Tasks belong to one symbol *)

(** [name] gives the symbol of each task; the store answers accordingly. *)
Context (name : Z → string).

Definition task_key (task : MinuteAuditTask) : string :=
  minuteSymbolKey task.(MinuteAuditTask.Exchange) task.(MinuteAuditTask.Symbol).

Definition named_call (c : call guardianE) : Prop :=
  match c with
  | Call e x =>
      match e in guardianE X return X → Prop with
      | EnqueueMinuteAuditTask task => fun x => match x with Ok id => task_key task = name id | Err _ => True end
      | LoadMinuteAuditTask id => fun x => match x with Ok (Some task) => task_key task = name id | _ => True end
      | ListDueMinuteAuditTasksByKind _ _ _ _ => fun x =>
          match x with
          | Ok tasks => Forall (λ task, task_key task = name task.(MinuteAuditTask.ID)) tasks
          | Err _ => True
          end
      | _ => fun _ => True
      end x
  end.

(** When the store's tasks keep their symbols, what is taken is given back. *)
Definition guarded (tr : list (call guardianE)) : Prop := Forall named_call tr → balanced tr.

#[export] Instance guarded_trace : TraceProp guarded.
Proof.
  split; [done|]. intros tr1 tr2 H1 H2 [Ha Hb]%Forall_app. unfold balanced. rewrite hold_app.
  rewrite (H1 Ha). by apply H2.
Qed.

Lemma balanced_guarded {A} (p : gprog A) : each balanced p → each guarded p.
Proof. intros H tr a Hr _. by eapply H. Qed.

Lemma slots_guarded {A} (p : gprog A) : each slots_balanced p → each guarded p.
Proof. intros H tr a Hr _. by apply slots_balanced_balanced, (H _ _ Hr). Qed.

Lemma restored_key task stored : task_key (restored task stored) = task_key stored.
Proof. unfold restored. by case_bool. Qed.

(** Carrying a task out, inside the lock. *)
Lemma execute_locked_slots ctx task fetcher tr r :
  task_key task = name task.(MinuteAuditTask.ID) → Forall named_call tr →
  runs (execute_locked g ctx task fetcher) tr r → slots_balanced tr.
Proof.
  intros Hname Hall H. unfold execute_locked in H. cbv zeta in H.
  apply runs_bind in H as (tr1 & stored & tr2 & -> & H1 & H). apply runs_trigger in H1 as ->.
  destruct stored as [[stored|]|e]; [|by apply runs_Ret in H as [-> _]..].
  apply Forall_cons in Hall as [Hst Hall]. simpl in Hst.
  assert (Hkey : task_key (restored task stored) = task_key task) by (rewrite restored_key; congruence).
  apply (trace_app [_]); [done|]. clear Hall Hst. revert tr2 r H. change (each slots_balanced
    (pbind (trigger RandRead) (λ token : result go_error string,
       match token with
       | Err e => Ret (RepairResult.zero, Some e)
       | Ok token =>
           pbind (trigger Now) (λ nowMS,
           pbind (trigger (LeaseMinuteAuditTask (restored task stored).(MinuteAuditTask.ID) token nowMS
                        (i64 (nowMS + minuteTaskLease_ms)))) (λ leased,
           match leased with
           | Err e => Ret (RepairResult.zero, Some e)
           | Ok false => Ret (RepairResult.zero, None)
           | Ok true => executeLeasedMinuteTask g
               (Ctx.hold (minuteSymbolKey task.(MinuteAuditTask.Exchange) task.(MinuteAuditTask.Symbol)) ctx)
               (restored task stored) token fetcher
           end))
       end))).
  assert (Hrep : ∀ c, c.(Ctx.heldKey) = Some (task_key task) →
            each slots_balanced (repairTimeframeRange g c fetcher (task_request (restored task stored)))).
  { intros c Hc. apply repair_held_slots; [|done]. rewrite Hc. f_equal. symmetry. exact Hkey. }
  unfold executeLeasedMinuteTask.
  repeat (each_step || (progress cbv zeta) || (apply Hrep; by case_bool)).
Qed.

Lemma executeMinuteTask_guarded ctx task fetcher :
  task_key task = name task.(MinuteAuditTask.ID) → each guarded (executeMinuteTask g ctx task fetcher).
Proof.
  intros Hname tr r H Hall. apply with_lock_runs in H as (tr' & -> & H).
  apply Forall_cons in Hall as [_ Hall]. apply Forall_app in Hall as [Hall _].
  assert (Hs : slots_balanced tr').
  { unfold unless_cancelled, or_return in H. apply runs_bind in H as (tr1 & err & tr2 & -> & H1 & H).
    apply runs_trigger in H1 as ->. apply Forall_app in Hall as [_ Hall]. apply trace_app; [done|].
    destruct err as [e|]; [by apply runs_Ret in H as [-> _]|]. by eapply execute_locked_slots. }
  unfold balanced. cbn [hold hold_step Held.none Held.lock Held.slot]. rewrite hold_app, Hs. cbn.
  by rewrite bool_decide_eq_true_2.
Qed.

(** ** Every job *)

#[local] Hint Resolve executeMinuteTask_guarded : each.
#[local] Hint Extern 3 (each guarded _) => apply slots_guarded; solve [eauto with each] : each.

Lemma each_enqueue {A} task (f : result go_error Z → gprog A) :
  (∀ e, each guarded (f (Err e))) → (∀ id, task_key task = name id → each guarded (f (Ok id))) →
  each guarded (pbind (trigger (EnqueueMinuteAuditTask task)) f).
Proof.
  intros He Hok tr a H Hall. apply runs_bind in H as (tr1 & id & tr2 & -> & H1 & H). apply runs_trigger in H1 as ->.
  apply Forall_cons in Hall as [Hn Hall]. unfold balanced. cbn [hold hold_step app].
  destruct id as [id|e]; [by eapply (Hok id Hn)|by eapply He].
Qed.

Lemma set_ID_key id task :
  task_key (MinuteAuditTask.set_ID id task) = task_key task ∧ (MinuteAuditTask.set_ID id task).(MinuteAuditTask.ID) = id.
Proof. by destruct task. Qed.

Lemma execute_enqueued ctx id task fetcher :
  task_key task = name id → each guarded (executeMinuteTask g ctx (MinuteAuditTask.set_ID id task) fetcher).
Proof. intros H. destruct (set_ID_key id task) as [H1 H2]. apply executeMinuteTask_guarded. congruence. Qed.

Ltac locks_auto :=
  repeat (first
    [ apply each_enqueue; [intros ?|intros ? ?]
    | apply execute_enqueued; assumption
    | each_step
    | progress cbv zeta ]).

Lemma register_guarded target startMS endMS kind ck : each guarded (register target startMS endMS kind ck).
Proof. unfold register, newMinuteTask, saveMinuteCursor. locks_auto. Qed.
#[local] Hint Resolve register_guarded : each.

Lemma auditTargets_slots : each slots_balanced (auditTargets g).
Proof. unfold auditTargets, gather, loadRepairEligibility. locks_auto. Qed.
#[local] Hint Resolve auditTargets_slots : each.

Section unlocked.
Context (ctx : Ctx) (Hctx : ctx.(Ctx.heldKey) = None).

Lemma repair_guarded fetcher request : each guarded (repairTimeframeRange g ctx fetcher request).
Proof using Hctx. by apply balanced_guarded, repair_balanced. Qed.
#[local] Hint Resolve repair_guarded : each.

Lemma repairRangeWithFetcher_guarded fetcher ex symbol startMS endMS reason :
  each guarded (repairRangeWithFetcher g ctx fetcher ex symbol startMS endMS reason).
Proof using Hctx. unfold repairRangeWithFetcher, repairDurableMinuteRange, newMinuteTask. locks_auto. Qed.
#[local] Hint Resolve repairRangeWithFetcher_guarded : each.

Lemma catchup_loop_guarded fuel target from startMS : each guarded (catchup_loop fuel target from startMS).
Proof using.
  revert from. induction fuel as [|fuel IH]; intros from; cbn [catchup_loop]; case_bool; locks_auto.
Qed.
#[local] Hint Resolve catchup_loop_guarded : each.

Lemma audit_job_guarded startMS endMS target : each guarded (audit_job g ctx startMS endMS target).
Proof using Hctx. unfold audit_job, retryFailedRepair, auditMinuteWindow, register_expired, newMinuteTask, saveMinuteCursor. locks_auto. Qed.

Lemma pieces_loop_guarded fuel target request start acc : each guarded (pieces_loop g fuel ctx target request start acc).
Proof using Hctx.
  revert start acc. induction fuel as [|fuel IH]; intros start acc; cbn [pieces_loop]; case_bool; locks_auto.
Qed.
#[local] Hint Resolve pieces_loop_guarded : each.

Lemma daily_job_guarded recent historical retries target :
  each guarded (daily_job g ctx recent historical retries target).
Proof using Hctx. unfold daily_job, daily_step, repairDailyAuditRange. locks_auto. Qed.

Lemma handleFinalBar_guarded bar : each guarded (handleFinalBar g ctx bar).
Proof using Hctx.
  unfold handleFinalBar, handle_normalized, localBaselineStart, repair_gap, repairRange, fetcherForSymbol. locks_auto.
Qed.

Lemma with_listing_key target task :
  task_key (with_listing target task) = task_key task ∧
  (with_listing target task).(MinuteAuditTask.ID) = task.(MinuteAuditTask.ID).
Proof using. destruct target as [t|]; [|done]. simpl. by case_bool. Qed.

Lemma retry_task_guarded daily bySymbol snapshots syncs processed task :
  task_key task = name task.(MinuteAuditTask.ID) →
  each guarded (retry_task g ctx daily bySymbol snapshots syncs processed task).
Proof using Hctx.
  intros Hn. unfold retry_task. destruct (with_listing_key (bySymbol !! task.(MinuteAuditTask.Symbol)) task) as [H1 H2].
  set (task' := with_listing _ task) in *.
  assert (Hex : ∀ f, each guarded (executeMinuteTask g ctx task' f)) by (intros; apply executeMinuteTask_guarded; congruence).
  clearbody task'. unfold decide_task, decide_ineligible, deferMinuteTask. locks_auto.
Qed.

Lemma minuteRetryPass_guarded exchangeName daily : each guarded (minuteRetryPass g ctx exchangeName daily).
Proof using Hctx.
  intros tr r H Hall. unfold minuteRetryPass in H.
  apply runs_bind in H as (tr1 & now & tr2 & -> & H1 & H). apply runs_trigger in H1 as ->.
  apply Forall_app in Hall as [_ Hall]. apply runs_bind in H as (tr3 & due & tr4 & -> & H1 & H). apply runs_trigger in H1 as ->.
  apply Forall_cons in Hall as [Hdue Hall]. unfold balanced. cbn [app hold hold_step].
  destruct due as [due|e]; [|by apply runs_Ret in H as [-> _]]. simpl in Hdue. rewrite Forall_forall in Hdue.
  revert Hall. revert H. generalize tr4, r. clear tr4 r. fold balanced.
  destruct due as [|d due]; [intros tr r [-> _]%runs_Ret; done|]. revert Hdue. generalize (d :: due) as tasks. clear d due.
  intros tasks Hdue.
  match goal with |- ∀ tr r, runs ?p tr r → _ => change (each guarded p) end.
  assert (Hfold : ∀ bySymbol snapshots syncs,
            each guarded (pfold_ok (retry_task g ctx daily bySymbol snapshots syncs) 0 tasks)).
  { intros *. apply each_pfold_ok_in; [typeclasses eauto|]. intros processed task Hin.
    apply retry_task_guarded. by apply Hdue. }
  unfold read_snapshots. repeat (apply Hfold || each_step || (progress cbv zeta)).
Qed.
End unlocked.

Lemma day_loop_guarded fuel target day latestDay registered : each guarded (day_loop fuel target day latestDay registered).
Proof. revert day registered. induction fuel as [|fuel IH]; intros day registered; cbn [day_loop]; case_bool; locks_auto. Qed.
#[local] Hint Resolve day_loop_guarded : each.

Lemma MinuteDayAuditOnce_guarded : each guarded (MinuteDayAuditOnce g).
Proof. unfold MinuteDayAuditOnce, schedule_target. locks_auto. Qed.
End locks.

(** C5: locks and request slots are taken one at a time and given back, which keeps a
    worker from blocking itself, and from waiting for a slot or lock while it holds one
    of the same kind.  As long as the store
    keeps a task with its symbol, along every run of every job (a symbol of a
    minute round, of a daily round, a final candle, a retry pass, and the
    scheduling of settled days) a worker asks for a minute lock only when it
    holds neither a lock nor a slot, and for a request slot only when it holds
    none; and at the end it has given back all it took. *)
Theorem guardian_locks_balanced g name ctx :
  ctx.(Ctx.heldKey) = None →
  (∀ startMS endMS target, each (guarded name) (audit_job g ctx startMS endMS target)) ∧
  (∀ recent historical retries target, each (guarded name) (daily_job g ctx recent historical retries target)) ∧
  (∀ bar, each (guarded name) (handleFinalBar g ctx bar)) ∧
  (∀ exchangeName daily, each (guarded name) (minuteRetryPass g ctx exchangeName daily)) ∧
  each (guarded name) (MinuteDayAuditOnce g).
Proof.
  intros Hc. split_and!; intros.
  - by apply audit_job_guarded.
  - by apply daily_job_guarded.
  - by apply handleFinalBar_guarded.
  - by apply minuteRetryPass_guarded.
  - apply MinuteDayAuditOnce_guarded.
Qed.

(** A minute round of one symbol: it registers the window, locks and repairs. *)
Lemma guardian_locks_balanced_witness :
  ∃ tr r, runs (audit_job sample_guardian Ctx.background 10800000 10860000 sample_target) tr r ∧
    existsb (fun c => match c with Call (Lock _) _ => true | _ => false end) tr = true ∧
    existsb (fun c => match c with Call (AcquireSlot _) _ => true | _ => false end) tr = true ∧
    guarded (λ _, task_key sample_task) tr.
Proof.
  destruct (exec minute_answers (audit_job sample_guardian Ctx.background 10800000 10860000 sample_target) tt)
    as [[[tr r] w]|] eqn:E; [|vm_compute in E; discriminate].
  pose proof (exec_runs _ _ _ _ _ _ E) as Hruns. exists tr, r. split; [exact Hruns|].
  split; [vm_compute in E; injection E as <- _ _; reflexivity|].
  split; [vm_compute in E; injection E as <- _ _; reflexivity|].
  destruct (guardian_locks_balanced sample_guardian (λ _, task_key sample_task) Ctx.background eq_refl) as (H & _).
  exact (H 10800000 10860000 sample_target tr r Hruns).
Defined.
