(* ===== verification/Corporate.v ===== *)
(** * Corporate actions (internal/corporateaction/worker.go)

    The worker watches final one-minute candles for a jump that looks like a
    split, confirms it with the exchange, queues a job, and rebuilds the adjusted
    history of the symbol.  As in Guardian.v, a method is a program over the calls
    it makes; the state of the detector (the last candle of each symbol and the
    cached list of forward-adjusted symbols) and the cursor of the anchor audit
    are passed explicitly, since each belongs to one goroutine.  A clock reading
    is a number of milliseconds, a duration a number of nanoseconds. *)

From S2P Require Export Effects Exchange Store Retention.

Local Open Scope string_scope.
Local Open Scope Z_scope.
Local Open Scope list_scope.

Definition normalizeExchange (value : string) : string := ToLower (TrimSpace value).
Definition normalizeSymbol (value : string) : string := ToUpper (TrimSpace value).
Definition normalizeMarketType (value : string) : string := ToLower (TrimSpace value).
Definition fetcherKey (exchangeName marketType : string) : string :=
  (normalizeExchange exchangeName ++ ":" ++ normalizeMarketType marketType)%string.
Definition absDurationMS (value : Z) : Z := if value <? 0 then i64 (- value) else value.

Definition statusPending : string := "pending".
Definition statusRunning : string := "running".
Definition statusRetry : string := "retry".
Definition statusCompleted : string := "completed".
Definition statusFailed : string := "failed".

(** ** Configuration *)

Module Config.
Record Config : Type := mk {
  Enabled : bool; Timeframes : list string; QueueSize : Z; PollInterval : Z; HTTPTimeout : Z; RequestDelay : Z;
  MaxAttempts : Z; RetryBaseDelay : Z; JobsPerRun : Z; BatchSize : Z; ConfirmationWindow : Z; AnchorInterval : Z;
  AnchorSymbolsPerRun : Z; FloatTolerance : float64 }.
End Config.
Notation Config := Config.Config.

(** [if v <= 0 { v = fallback }]. *)
Definition or_default (v fallback : Z) : Z := if v <=? 0 then fallback else v.

Definition default_tolerance : float64 := Eval vm_compute in f64_of_Q 1 10000000.

Definition normalizeConfig (cfg : Config) : Config :=
  {| Config.Enabled := cfg.(Config.Enabled);
     Config.Timeframes :=
       match cfg.(Config.Timeframes) with
       | [] => frame_name <$> SupportedForExchange ""
       | frames => List.filter (fun tf => is_ok (ValidateForExchange "" tf)) frames
       end;
     Config.QueueSize := or_default cfg.(Config.QueueSize) 1024;
     Config.PollInterval := or_default cfg.(Config.PollInterval) 15000000000;
     Config.HTTPTimeout := or_default cfg.(Config.HTTPTimeout) 20000000000;
     Config.RequestDelay := cfg.(Config.RequestDelay);
     Config.MaxAttempts := or_default cfg.(Config.MaxAttempts) 5;
     Config.RetryBaseDelay := or_default cfg.(Config.RetryBaseDelay) 60000000000;
     Config.JobsPerRun := or_default cfg.(Config.JobsPerRun) 1;
     Config.BatchSize := or_default cfg.(Config.BatchSize) 500;
     Config.ConfirmationWindow := or_default cfg.(Config.ConfirmationWindow) 300000000000;
     Config.AnchorInterval := or_default cfg.(Config.AnchorInterval) 60000000000;
     Config.AnchorSymbolsPerRun := or_default cfg.(Config.AnchorSymbolsPerRun) 1;
     Config.FloatTolerance := (if f64_leb cfg.(Config.FloatTolerance) f64_zero then default_tolerance
                               else cfg.(Config.FloatTolerance)) |}.

(** ** Data *)

(** What a [Fetcher] says of itself; [forwardProvider]: it also lists the symbols
    it can adjust forward. *)
Module Fetcher.
Record Fetcher : Type := mk { id : nat; Name : string; MarketType : string; forwardProvider : bool }.
End Fetcher.
Notation Fetcher := Fetcher.Fetcher.

Module FrameReport.
Record FrameReport : Type := mk {
  Timeframe : string; Adjustment : string; RowsFetched : Z; RowsDeleted : Z; RowsWritten : Z; RowsVerified : Z;
  MismatchCount : Z; FirstStartMS : Z; LastStartMS : Z; VerificationErr : string }.
Definition fetched (tf adjustment : string) (rows first last : Z) : FrameReport :=
  mk tf adjustment rows 0 0 0 0 first last "".
End FrameReport.
Notation FrameReport := FrameReport.FrameReport.

(** A notification to the operators. *)
Module Notification.
Record Notification : Type := mk {
  Stage : string; Title : string; Job : CorporateActionJob; Timeframes : list FrameReport; Message : string;
  RetryAtMS : Z; RowsWritten : Z }.
Definition plain (stage title : string) (job : CorporateActionJob) : Notification := mk stage title job [] "" 0 0.
Definition saying (stage title : string) (job : CorporateActionJob) (message : string) : Notification :=
  mk stage title job [] message 0 0.
End Notification.
Notation Notification := Notification.Notification.

Module Worker.
Record Worker : Type := mk {
  cfg : Config; notifier : bool; cache : bool;
  fetchersByMarket : gmap string Fetcher; fetchersByName : gmap string (list Fetcher) }.
End Worker.
Notation Worker := Worker.Worker.

(** The state of the detector: [w.previous] and [w.forwardCache] (the symbols
    that map to true, and the expiry in milliseconds). *)
Module Detector.
Record Detector : Type := mk {
  previous : gmap string Bar;
  forwardCache : gmap string (gset string * Z) }.
Definition empty : Detector := mk ∅ ∅.
End Detector.
Notation Detector := Detector.Detector.

(** [New]: the fetchers by market and by name.  A nil fetcher is skipped. *)
Definition add_fetcher (maps : gmap string Fetcher * gmap string (list Fetcher)) (fetcher : option Fetcher)
    : gmap string Fetcher * gmap string (list Fetcher) :=
  match fetcher with
  | None => maps
  | Some f =>
      let '(byMarket, byName) := maps in
      let name := normalizeExchange f.(Fetcher.Name) in
      (<[fetcherKey name (normalizeMarketType f.(Fetcher.MarketType)) := f]> byMarket,
       <[name := default [] (byName !! name) ++ [f]]> byName)
  end.

Definition New (fetchers : list (option Fetcher)) (notifier cache : bool) (cfg : Config) : Worker :=
  let '(byMarket, byName) := foldl add_fetcher (∅, ∅) fetchers in
  Worker.mk (normalizeConfig cfg) notifier cache byMarket byName.

(** ** Calls *)

Inductive corporateE : Type → Type :=
| Now : corporateE Z
| Wait (delay : Z) : corporateE (option go_error)
| FetchKlines (fetcher : Fetcher) (request : KlineRequest) : corporateE (result go_error (list Bar))
| ForwardAdjustmentSymbols (fetcher : Fetcher) : corporateE (result go_error (gset string))
| BarsInRange (exchange symbol tf : string) (startMS endMS : Z) : corporateE (result go_error (list Bar))
| ListSymbols (exchange : string) : corporateE (result go_error (list SymbolInfo))
| UpsertBars (bars : list Bar) : corporateE (option go_error)
| DeleteBarsInRange (exchange symbol tf : string) (startMS endMS : Z) : corporateE (result go_error Z)
| LoadCorporateActionJob (exchange symbol : string) (effectiveMS : Z)
    : corporateE (result go_error (option CorporateActionJob))
| InsertCorporateActionJob (job : CorporateActionJob) : corporateE (option go_error)
| ListDueCorporateActionJobs (nowMS limit : Z) : corporateE (result go_error (list CorporateActionJob))
| UpdateCorporateActionJob (job : CorporateActionJob) : corporateE (option go_error)
| ListCorporateActionFactors (exchange symbol : string) : corporateE (result go_error (list CorporateActionJob))
| ClearSymbolKlines (exchange symbol : string) (timeframes : list string) : corporateE (option go_error)
| Notify (notification : Notification) : corporateE unit.

Notation cprog := (prog corporateE).

Local Open Scope prog_scope.

(** ** Pure helpers *)

Definition relativeDifference (left right : float64) : float64 :=
  let scale := f64_max (f64_abs left) (f64_abs right) in
  if f64_eqb scale f64_zero then f64_zero else f64_div (f64_abs (f64_sub left right)) scale.

Definition barsDiffer (left right : Bar) (tolerance : float64) : bool :=
  f64_gtb (relativeDifference left.(Bar.OpenPrice) right.(Bar.OpenPrice)) tolerance
  || f64_gtb (relativeDifference left.(Bar.HighPrice) right.(Bar.HighPrice)) tolerance
  || f64_gtb (relativeDifference left.(Bar.LowPrice) right.(Bar.LowPrice)) tolerance
  || f64_gtb (relativeDifference left.(Bar.ClosePrice) right.(Bar.ClosePrice)) tolerance
  || f64_gtb (relativeDifference left.(Bar.Volume) right.(Bar.Volume)) tolerance
  || f64_gtb (relativeDifference left.(Bar.QuoteVolume) right.(Bar.QuoteVolume)) tolerance.

Definition f64_one : float64 := Eval vm_compute in f64_of_Z 1.
Definition snap_minimum : float64 := Eval vm_compute in f64_of_Q 175 100.
Definition snap_tolerance : float64 := Eval vm_compute in f64_of_Q 8 100.

(** 2, 2.5, 3, 4, 5, 10, 12.5, 20, 25, 50, 100. *)
Definition common : list float64 := Eval vm_compute in
  (fun x => f64_of_Q x 10) <$> [20; 25; 30; 40; 50; 100; 125; 200; 250; 500; 1000].

(** The body of the loop over the candidates. *)
Definition closer (magnitude : float64) (best : float64 * float64) (candidate : float64) : float64 * float64 :=
  let diff := relativeDifference magnitude candidate in
  if f64_ltb diff (snd best) then (candidate, diff) else best.

Definition nearest_factor (magnitude : float64) : float64 * float64 :=
  let first := hd f64_zero common in
  foldl (closer magnitude) (first, relativeDifference magnitude first) (tl common).

Definition SnapFactor (observedRatio : float64) : option float64 :=
  if f64_leb observedRatio f64_zero then None
  else
    let magnitude := if f64_ltb observedRatio f64_one then f64_div f64_one observedRatio else observedRatio in
    if f64_ltb magnitude snap_minimum then None
    else
      let '(nearest, errorRate) := nearest_factor magnitude in
      if f64_gtb errorRate snap_tolerance then None
      else if f64_ltb observedRatio f64_one then Some (f64_div f64_one nearest) else Some nearest.

(** The loop over neighbours [bars[i-1]], [bars[i]]. *)
Fixpoint findConfirmedFactor (bars : list Bar) (effectiveMS : Z) (candidateFactor : float64)
    : option (float64 * float64) :=
  match bars with
  | before :: ((after :: _) as rest) =>
      let next := findConfirmedFactor rest effectiveMS candidateFactor in
      if negb (i64 (after.(Bar.StartMS) - before.(Bar.StartMS)) =? MinuteMS)
         || f64_leb before.(Bar.ClosePrice) f64_zero || f64_leb after.(Bar.OpenPrice) f64_zero then next
      else if 2 * MinuteMS <? absDurationMS (i64 (after.(Bar.StartMS) - effectiveMS)) then next
      else
        let ratio := f64_div after.(Bar.OpenPrice) before.(Bar.ClosePrice) in
        match SnapFactor ratio with
        | Some factor =>
            if f64_leb (relativeDifference factor candidateFactor) snap_tolerance then Some (ratio, factor) else next
        | None => next
        end
  | _ => None
  end.

(** [retainedWindow]: the first start to fetch and the limit. *)
Definition retainedWindow (tf : Frame) (now : Z) : Z * Z :=
  let rule := RuleFor tf in
  if 0 <? rule.(Rule.KeepBars) then (0, rule.(Rule.KeepBars))
  else
    match CutoffMS rule now with
    | None => (1, 0)
    | Some cutoff =>
        let start := FloorStartMS cutoff tf in
        if start <=? 0 then (1, 0) else (start, 0)
    end.
Definition retainedStartMS (tf : Frame) (now : Z) : Z := fst (retainedWindow tf now).

(** ** [json.Marshal] of the reports

    Quotes, backslashes, control characters and the characters of HTML are
    escaped; the texts of a report are ASCII. *)

Definition dquote : Ascii.ascii := Ascii.ascii_of_nat 34.

Definition hex_digit (n : Z) : Ascii.ascii := of_byte (if n <? 10 then 48 + n else 87 + n).
Definition unicode_escape (b : Z) : string :=
  ("\u00" ++ String (hex_digit (b / 16)) (String (hex_digit (b mod 16)) ""))%string.

Definition json_char (c : Ascii.ascii) : string :=
  let b := byte_of c in
  if (b =? 34) || (b =? 92) then String (of_byte 92) (String c "")
  else if b =? 8 then "\b" else if b =? 9 then "\t" else if b =? 10 then "\n" else if b =? 12 then "\f"
  else if b =? 13 then "\r"
  else if (b <? 32) || (b =? 38) || (b =? 60) || (b =? 62) then unicode_escape b
  else String c "".

Fixpoint json_escape (s : string) : string :=
  match s with
  | EmptyString => ""
  | String c s => (json_char c ++ json_escape s)%string
  end.
Definition json_string (s : string) : string := (String dquote (json_escape s) ++ String dquote "")%string.

Definition json_field (name value : string) : string := (json_string name ++ ":" ++ value)%string.
Definition omit_zero (name : string) (value : Z) : list string :=
  if value =? 0 then [] else [json_field name (pretty value)].

Definition report_json (r : FrameReport) : string :=
  ("{" ++ String.concat ","
     ([json_field "timeframe" (json_string r.(FrameReport.Timeframe));
       json_field "adjustment" (json_string r.(FrameReport.Adjustment));
       json_field "rows_fetched" (pretty r.(FrameReport.RowsFetched));
       json_field "rows_deleted" (pretty r.(FrameReport.RowsDeleted));
       json_field "rows_written" (pretty r.(FrameReport.RowsWritten));
       json_field "rows_verified" (pretty r.(FrameReport.RowsVerified));
       json_field "mismatch_count" (pretty r.(FrameReport.MismatchCount))]
      ++ omit_zero "first_start_ms" r.(FrameReport.FirstStartMS)
      ++ omit_zero "last_start_ms" r.(FrameReport.LastStartMS)
      ++ match r.(FrameReport.VerificationErr) with
         | EmptyString => []
         | error => [json_field "verification_error" (json_string error)]
         end) ++ "}")%string.

Definition reports_json (reports : list FrameReport) : string :=
  ("[" ++ String.concat "," (report_json <$> reports) ++ "]")%string.

(** [CorporateActionJob] with some of its fields assigned. *)
Definition started (job : CorporateActionJob) : CorporateActionJob :=
  {| CorporateActionJob.ID := job.(CorporateActionJob.ID);
     CorporateActionJob.Exchange := job.(CorporateActionJob.Exchange);
     CorporateActionJob.Symbol := job.(CorporateActionJob.Symbol);
     CorporateActionJob.MarketType := job.(CorporateActionJob.MarketType);
     CorporateActionJob.EffectiveMS := job.(CorporateActionJob.EffectiveMS);
     CorporateActionJob.ObservedRatio := job.(CorporateActionJob.ObservedRatio);
     CorporateActionJob.Factor := job.(CorporateActionJob.Factor);
     CorporateActionJob.Detector := job.(CorporateActionJob.Detector);
     CorporateActionJob.Status := statusRunning;
     CorporateActionJob.Attempts := i64 (job.(CorporateActionJob.Attempts) + 1);
     CorporateActionJob.NextRetryMS := 0;
     CorporateActionJob.LastError := "";
     CorporateActionJob.RowsWritten := job.(CorporateActionJob.RowsWritten);
     CorporateActionJob.VerificationStatus := job.(CorporateActionJob.VerificationStatus);
     CorporateActionJob.VerificationJSON := job.(CorporateActionJob.VerificationJSON);
     CorporateActionJob.CreatedAtMS := job.(CorporateActionJob.CreatedAtMS);
     CorporateActionJob.UpdatedAtMS := job.(CorporateActionJob.UpdatedAtMS);
     CorporateActionJob.CompletedAtMS := job.(CorporateActionJob.CompletedAtMS) |}.

Definition failed_attempt (status : string) (nextRetryMS : Z) (error : string) (job : CorporateActionJob)
    : CorporateActionJob :=
  {| CorporateActionJob.ID := job.(CorporateActionJob.ID);
     CorporateActionJob.Exchange := job.(CorporateActionJob.Exchange);
     CorporateActionJob.Symbol := job.(CorporateActionJob.Symbol);
     CorporateActionJob.MarketType := job.(CorporateActionJob.MarketType);
     CorporateActionJob.EffectiveMS := job.(CorporateActionJob.EffectiveMS);
     CorporateActionJob.ObservedRatio := job.(CorporateActionJob.ObservedRatio);
     CorporateActionJob.Factor := job.(CorporateActionJob.Factor);
     CorporateActionJob.Detector := job.(CorporateActionJob.Detector);
     CorporateActionJob.Status := status;
     CorporateActionJob.Attempts := job.(CorporateActionJob.Attempts);
     CorporateActionJob.NextRetryMS := nextRetryMS;
     CorporateActionJob.LastError := error;
     CorporateActionJob.RowsWritten := job.(CorporateActionJob.RowsWritten);
     CorporateActionJob.VerificationStatus := job.(CorporateActionJob.VerificationStatus);
     CorporateActionJob.VerificationJSON := job.(CorporateActionJob.VerificationJSON);
     CorporateActionJob.CreatedAtMS := job.(CorporateActionJob.CreatedAtMS);
     CorporateActionJob.UpdatedAtMS := job.(CorporateActionJob.UpdatedAtMS);
     CorporateActionJob.CompletedAtMS := job.(CorporateActionJob.CompletedAtMS) |}.

Definition completed_attempt (rowsWritten : Z) (verification json : string) (nowMS : Z) (job : CorporateActionJob)
    : CorporateActionJob :=
  {| CorporateActionJob.ID := job.(CorporateActionJob.ID);
     CorporateActionJob.Exchange := job.(CorporateActionJob.Exchange);
     CorporateActionJob.Symbol := job.(CorporateActionJob.Symbol);
     CorporateActionJob.MarketType := job.(CorporateActionJob.MarketType);
     CorporateActionJob.EffectiveMS := job.(CorporateActionJob.EffectiveMS);
     CorporateActionJob.ObservedRatio := job.(CorporateActionJob.ObservedRatio);
     CorporateActionJob.Factor := job.(CorporateActionJob.Factor);
     CorporateActionJob.Detector := job.(CorporateActionJob.Detector);
     CorporateActionJob.Status := statusCompleted;
     CorporateActionJob.Attempts := job.(CorporateActionJob.Attempts);
     CorporateActionJob.NextRetryMS := job.(CorporateActionJob.NextRetryMS);
     CorporateActionJob.LastError := job.(CorporateActionJob.LastError);
     CorporateActionJob.RowsWritten := rowsWritten;
     CorporateActionJob.VerificationStatus := verification;
     CorporateActionJob.VerificationJSON := json;
     CorporateActionJob.CreatedAtMS := job.(CorporateActionJob.CreatedAtMS);
     CorporateActionJob.UpdatedAtMS := job.(CorporateActionJob.UpdatedAtMS);
     CorporateActionJob.CompletedAtMS := nowMS |}.

(** A newly detected job: the fields the detectors set. *)
Definition new_job (ex symbol marketType : string) (effectiveMS : Z) (ratio factor : float64)
    (detector status : string) (createdMS updatedMS : Z) : CorporateActionJob :=
  CorporateActionJob.mk 0 ex symbol marketType effectiveMS ratio factor detector status 0 0 "" 0 "" ""
    createdMS updatedMS 0.

Section worker.
Context (w : Worker).

Definition notify (notification : Notification) : cprog unit :=
  if w.(Worker.notifier) then trigger (Notify notification) else Ret tt.

(** The only fetcher of an exchange, if there is just one. *)
Definition only_fetcher (exchangeName : string) : option Fetcher :=
  match w.(Worker.fetchersByName) !! normalizeExchange exchangeName with
  | Some [fetcher] => Some fetcher
  | _ => None
  end.

Definition fetcherFor (exchangeName marketType : string) : option Fetcher :=
  match w.(Worker.fetchersByMarket) !! fetcherKey exchangeName marketType with
  | Some fetcher => Some fetcher
  | None => only_fetcher exchangeName
  end.

(** The market type of a symbol and the fetcher for it. *)
Definition symbolFetcher (exchangeName symbol : string) : cprog (result go_error (string * option Fetcher)) :=
  symbols <- trigger (ListSymbols exchangeName) ;;
  Ret (match symbols with
       | Err e => Err e
       | Ok symbols =>
           match List.find (fun info => bool_decide (normalizeSymbol info.(SymbolInfo.Symbol) = normalizeSymbol symbol))
                   symbols with
           | Some info => Ok (info.(SymbolInfo.MarketType), fetcherFor exchangeName info.(SymbolInfo.MarketType))
           | None =>
               match only_fetcher exchangeName with
               | Some fetcher => Ok (fetcher.(Fetcher.MarketType), Some fetcher)
               | None => Ok ("", None)
               end
           end
       end).

(** The cached list is used until it expires, six hours after it was read. *)
Definition binanceForwardSupported (fetcher : Fetcher) (symbol : string) (st : Detector)
    : cprog (result go_error bool * Detector) :=
  if negb fetcher.(Fetcher.forwardProvider) then Ret (Ok false, st)
  else
    let key := fetcherKey fetcher.(Fetcher.Name) fetcher.(Fetcher.MarketType) in
    let fresh :=
      symbols <- trigger (ForwardAdjustmentSymbols fetcher) ;;
      match symbols with
      | Err e => Ret (Err e, st)
      | Ok symbols =>
          now <- trigger Now ;;
          Ret (Ok (bool_decide (normalizeSymbol symbol ∈ symbols)),
               Detector.mk st.(Detector.previous)
                 (<[key := (symbols, now + 21600000)]> st.(Detector.forwardCache)))
      end in
    match st.(Detector.forwardCache) !! key with
    | None => fresh
    | Some (symbols, expiresAt) =>
        now <- trigger Now ;;
        if expiresAt <? now then fresh else Ret (Ok (bool_decide (normalizeSymbol symbol ∈ symbols)), st)
    end.

(** [confirm]: the ratio and factor the exchange confirms, and whether it can
    adjust the symbol forward. *)
Definition confirm (fetcher : Fetcher) (previous current : Bar) (candidateFactor : float64) (st : Detector)
    : cprog (result go_error (float64 * float64 * bool) * Detector) :=
  let windowMS := Z.quot w.(Worker.cfg).(Config.ConfirmationWindow) 1000000 in
  raw <- trigger (FetchKlines fetcher
           (KlineRequest.mk current.(Bar.Symbol) "1m" (i64 (previous.(Bar.StartMS) - windowMS))
              (i64 (current.(Bar.StartMS) + windowMS)) 20 KlineAdjustmentRaw 0)) ;;
  match raw with
  | Err e => Ret (Err e, st)
  | Ok raw =>
      match findConfirmedFactor (sort_by Bar.StartMS raw) current.(Bar.StartMS) candidateFactor with
      | None => Ret (Err (Errorf "official raw 1m did not confirm ratio near %.8f"), st)
      | Some (ratio, factor) =>
          if bool_decide (normalizeExchange fetcher.(Fetcher.Name) = "binance") then
            '(supported, st) <- binanceForwardSupported fetcher current.(Bar.Symbol) st ;;
            Ret (match supported with Ok b => Ok (ratio, factor, b) | Err e => Err e end, st)
          else
            forward <- trigger (FetchKlines fetcher
                         (KlineRequest.mk current.(Bar.Symbol) "1m" (i64 (previous.(Bar.StartMS) - MinuteMS))
                            current.(Bar.StartMS) 4 KlineAdjustmentForward 0)) ;;
            Ret (match forward with
                 | Ok _ => Ok (ratio, factor, true)
                 | Err e => if errors_Is e ErrUnsupportedKlineAdjustment then Ok (ratio, factor, false) else Err e
                 end, st)
      end
  end.

(** [handleFinalBar] without the first lines: a candle one minute after the last
    one of its symbol whose open jumps against the last close. *)
Definition suspicious (before : option Bar) (bar : Bar) : option (Bar * float64 * float64) :=
  match before with
  | None => None
  | Some previous =>
      if negb (i64 (previous.(Bar.StartMS) + MinuteMS) =? bar.(Bar.StartMS))
         || f64_leb previous.(Bar.ClosePrice) f64_zero || f64_leb bar.(Bar.OpenPrice) f64_zero then None
      else
        let observedRatio := f64_div bar.(Bar.OpenPrice) previous.(Bar.ClosePrice) in
        match SnapFactor observedRatio with
        | Some factor => Some (previous, observedRatio, factor)
        | None => None
        end
  end.

(** [job] once confirmed: the confirmed ratio and factor, pending. *)
Definition confirmed_job (ratio factor : float64) (job : CorporateActionJob) : CorporateActionJob :=
  new_job job.(CorporateActionJob.Exchange) job.(CorporateActionJob.Symbol) job.(CorporateActionJob.MarketType)
    job.(CorporateActionJob.EffectiveMS) ratio factor "ws_1m_ratio+rest_confirm" statusPending
    job.(CorporateActionJob.CreatedAtMS) job.(CorporateActionJob.UpdatedAtMS).

(** Insert a job unless one is known for the same effective time; then announce it. *)
Definition insert_new (title : string) (job : CorporateActionJob) : cprog (option go_error) :=
  existing <- trigger (LoadCorporateActionJob job.(CorporateActionJob.Exchange) job.(CorporateActionJob.Symbol)
                         job.(CorporateActionJob.EffectiveMS)) ;;
  match existing with
  | Err e => Ret (Some e)
  | Ok (Some _) => Ret None
  | Ok None =>
      err <- trigger (InsertCorporateActionJob job) ;;
      match err with
      | Some e => Ret (Some e)
      | None => _ <- notify (Notification.plain "confirmed" title job) ;; Ret None
      end
  end.

(** A suspected action: confirm it with the exchange and queue it. *)
Definition handle_suspected (bar previous : Bar) (observedRatio factor : float64) (st : Detector)
    : cprog (option go_error * Detector) :=
  found <- symbolFetcher bar.(Bar.Exchange) bar.(Bar.Symbol) ;;
  match found with
  | Err e => Ret (Some e, st)
  | Ok (_, None) => Ret (None, st)
  | Ok (marketType, Some fetcher) =>
      created <- trigger Now ;;
      updated <- trigger Now ;;
      let job := new_job bar.(Bar.Exchange) bar.(Bar.Symbol) marketType bar.(Bar.StartMS) observedRatio factor
                   "ws_1m_ratio" "suspected" created updated in
      _ <- notify (Notification.plain "suspected" "复权事件疑似触发" job) ;;
      '(confirmed, st) <- confirm fetcher previous bar factor st ;;
      match confirmed with
      | Err e =>
          _ <- notify (Notification.saying "confirmation_failed" "复权事件确认失败" job (error_text e)) ;;
          Ret (Some e, st)
      | Ok (_, _, false) =>
          _ <- notify (Notification.saying "unsupported" "品种不支持自动前复权" job
                         "官方数据无法确认前复权能力，未修改历史数据") ;;
          Ret (None, st)
      | Ok (ratio, factor, true) =>
          err <- insert_new "复权事件已确认并入队" (confirmed_job ratio factor job) ;;
          Ret (err, st)
      end
  end.

Definition normalized (bar : Bar) : Bar :=
  Bar.set_Symbol (normalizeSymbol bar.(Bar.Symbol)) (Bar.set_Exchange (normalizeExchange bar.(Bar.Exchange)) bar).

Definition handleFinalBar (bar : Bar) (st : Detector) : cprog (option go_error * Detector) :=
  let bar := normalized bar in
  let key := (bar.(Bar.Exchange) ++ ":" ++ bar.(Bar.Symbol))%string in
  let before := st.(Detector.previous) !! key in
  let st := Detector.mk (<[key := bar]> st.(Detector.previous)) st.(Detector.forwardCache) in
  match suspicious before bar with
  | None => Ret (None, st)
  | Some (previous, observedRatio, factor) => handle_suspected bar previous observedRatio factor st
  end.

(** [ObserveFinalBar]: the candle that enters the queue, if there is room;
    [queued] is what the queue holds. *)
Definition ObserveFinalBar (bar : Bar) (queued : list Bar) : list Bar :=
  if negb w.(Worker.cfg).(Config.Enabled) || negb bar.(Bar.IsFinal) || negb (bool_decide (bar.(Bar.Timeframe) = "1m"))
  then queued
  else if Z.of_nat (length queued) <? w.(Worker.cfg).(Config.QueueSize) then queued ++ [DecorateBar bar] else queued.

(** ** Adjusted candles *)

(** The product of the factors of the actions that [applies]. *)
Definition multiplier_of (applies : CorporateActionJob → bool) (factors : list CorporateActionJob) : float64 :=
  fold_left (fun m action => if applies action then f64_mul m action.(CorporateActionJob.Factor) else m)
            factors f64_one.

Definition positive_factor (action : CorporateActionJob) : bool := f64_gtb action.(CorporateActionJob.Factor) f64_zero.

(** The prices times [multiplier], the volumes divided by it. *)
Definition scale_bar (multiplier : float64) (reason : string) (nowMS : Z) (bar : Bar) : Bar :=
  let divided v := if f64_eqb multiplier f64_zero then v else f64_div v multiplier in
  Bar.set_UpdatedAtMS nowMS
    (set_prices (f64_mul bar.(Bar.OpenPrice) multiplier) (f64_mul bar.(Bar.HighPrice) multiplier)
       (f64_mul bar.(Bar.LowPrice) multiplier) (f64_mul bar.(Bar.ClosePrice) multiplier)
       (divided bar.(Bar.Volume)) (divided bar.(Bar.ContractVolume)) "rest_forward_adjusted" reason bar).

(** The loop of [decorateBackfillBars], with the close of the candle before. *)
Definition decorate_step (reason : string) (acc : list Bar * float64) (bar : Bar) : cprog (list Bar * float64) :=
  let '(out, previousClose) := acc in
  now <- trigger Now ;;
  let bar := Bar.set_UpdatedAtMS now (Bar.set_Reason reason (Bar.set_Source "rest_forward_adjusted" bar)) in
  let bar := ApplyDerived bar previousClose in
  Ret (out ++ [bar], bar.(Bar.ClosePrice)).

Definition decorateBackfillBars (bars : list Bar) (reason : string) : cprog (list Bar) :=
  '(out, _) <- pfold (decorate_step reason) ([], f64_zero) (sort_by Bar.StartMS bars) ;;
  Ret out.

Definition adjustment_reason : string := "binance_corporate_action_forward_adjustment".

Definition before_action (bar : Bar) (action : CorporateActionJob) : bool :=
  (bar.(Bar.StartMS) <? action.(CorporateActionJob.EffectiveMS)) && positive_factor action.

Definition factor_step (factors : list CorporateActionJob) (acc : list Bar * float64) (bar : Bar)
    : cprog (list Bar * float64) :=
  let '(out, previousClose) := acc in
  now <- trigger Now ;;
  let bar := scale_bar (multiplier_of (before_action bar) factors) adjustment_reason now bar in
  let bar := ApplyDerived bar previousClose in
  Ret (out ++ [bar], bar.(Bar.ClosePrice)).

Definition applyFactors (bars : list Bar) (factors : list CorporateActionJob) : cprog (list Bar) :=
  '(out, _) <- pfold (factor_step factors) ([], f64_zero) (sort_by Bar.StartMS bars) ;;
  Ret out.

(** An action inside the candle, and one after it; [action.Factor <= 0] skips. *)
Definition skipped (action : CorporateActionJob) : bool := f64_leb action.(CorporateActionJob.Factor) f64_zero.
Definition crosses (bar : Bar) (action : CorporateActionJob) : bool :=
  negb (skipped action) && (bar.(Bar.StartMS) <? action.(CorporateActionJob.EffectiveMS))
  && (action.(CorporateActionJob.EffectiveMS) <=? bar.(Bar.EndMS)).
Definition closed_before (bar : Bar) (action : CorporateActionJob) : bool :=
  negb (skipped action) && (bar.(Bar.EndMS) <? action.(CorporateActionJob.EffectiveMS)).

(** A candle that an action falls into is rebuilt from its adjusted minutes. *)
Definition crossing_bucket (fetcher : Fetcher) (symbol : string) (tf : Frame) (factors : list CorporateActionJob)
    (bar : Bar) : cprog (result go_error Bar) :=
  raw <- trigger (FetchKlines fetcher
           (KlineRequest.mk symbol "1m" bar.(Bar.StartMS) bar.(Bar.EndMS) 0 KlineAdjustmentRaw
              w.(Worker.cfg).(Config.RequestDelay))) ;;
  match raw with
  | Err e => Ret (Err (Wrapf "fetch crossing %s bucket at %d: %w" e))
  | Ok raw =>
      adjusted <- applyFactors raw factors ;;
      now <- trigger Now ;;
      Ret (match RollupBars tf adjusted true "binance_corporate_action_crossing_rollup" now with
           | Some rollup => Ok rollup
           | None => Err (Errorf "empty crossing %s bucket at %d")
           end)
  end.

Definition adjust_bar (fetcher : Fetcher) (symbol : string) (tf : Frame) (factors : list CorporateActionJob)
    (out : list Bar) (bar : Bar) : cprog (result go_error (list Bar)) :=
  if existsb (crosses bar) factors && negb (bool_decide (tf = OneMinute)) then
    rollup <- crossing_bucket fetcher symbol tf factors bar ;;
    Ret (match rollup with Err e => Err e | Ok bar => Ok (out ++ [bar]) end)
  else
    now <- trigger Now ;;
    Ret (Ok (out ++ [scale_bar (multiplier_of (closed_before bar) factors) adjustment_reason now bar])).

Definition adjustBinanceBars (fetcher : Fetcher) (symbol : string) (tf : Frame) (bars : list Bar)
    (factors : list CorporateActionJob) : cprog (result go_error (list Bar)) :=
  out <- pfold_ok (adjust_bar fetcher symbol tf factors) [] (sort_by Bar.StartMS bars) ;;
  match out with
  | Err e => Ret (Err e)
  | Ok out => out <- decorateBackfillBars out adjustment_reason ;; Ret (Ok out)
  end.

(** [deriveBars]: one candle per closed bucket of the final source candles; the
    clock is read for each bucket and each candle. *)
Definition derive_step (tf : Frame) (source : list Bar) (out : list Bar) (start : Z) : cprog (list Bar) :=
  now <- trigger Now ;;
  if now <=? EndMS start tf then Ret out
  else
    at_ms <- trigger Now ;;
    Ret (out ++ option_list (RollupBars tf
           (List.filter (fun bar => bar.(Bar.IsFinal) && (FloorStartMS bar.(Bar.StartMS) tf =? start)) source)
           true "corporate_action_rollup" at_ms)).

Definition bucket_starts (tf : Frame) (source : list Bar) : list Z :=
  sort_by id (remove_dups ((fun bar => FloorStartMS bar.(Bar.StartMS) tf) <$> List.filter Bar.IsFinal source)).

(** [out[len(out)-limit:]] when a limit is set. *)
Definition newest (limit : Z) (out : list Bar) : list Bar :=
  if (0 <? limit) && (limit <? Z.of_nat (length out)) then drop (Z.to_nat (Z.of_nat (length out) - limit)) out
  else out.

Definition deriveBars (tf : Frame) (limit : Z) (source : list Bar) : cprog (list Bar) :=
  if negb (is_ok (ValidateForExchange "" (frame_name tf))) then Ret []
  else
    out <- pfold (derive_step tf source) [] (bucket_starts tf source) ;;
    decorateBackfillBars (newest limit out) "corporate_action_rollup".

(** The request for the candles a timeframe is made of. *)
Definition at_least_one (start : Z) : Z := if start <=? 0 then 1 else start.
Definition source_request (request : KlineRequest) (tf source : Frame) : cprog KlineRequest :=
  let with_start start limit :=
    KlineRequest.mk request.(KlineRequest.Symbol) (frame_name source) start request.(KlineRequest.EndMS) limit
      request.(KlineRequest.Adjustment) request.(KlineRequest.PageDelay) in
  if 0 <? request.(KlineRequest.StartMS) then
    Ret (with_start (at_least_one (FloorStartMS request.(KlineRequest.StartMS) tf)) 0)
  else if 0 <? request.(KlineRequest.Limit) then
    reference <- (if request.(KlineRequest.EndMS) <=? 0 then trigger Now else Ret request.(KlineRequest.EndMS)) ;;
    let windowStart := BarWindowStartMS tf reference (i64 (request.(KlineRequest.Limit) + 1)) in
    Ret (with_start (at_least_one (FloorStartMS windowStart source)) 0)
  else Ret (with_start request.(KlineRequest.StartMS) request.(KlineRequest.Limit)).

(** [fetchWithRollup]; every caller passes no transformation. *)
Definition fetchWithRollup (fetcher : Fetcher) (request : KlineRequest) (tf : Frame)
    : cprog (result go_error (list Bar) * string) :=
  match ValidateForExchange fetcher.(Fetcher.Name) (frame_name tf) with
  | Err e => Ret (Err (tf_go_error e), "disabled")
  | Ok _ =>
      bars <- trigger (FetchKlines fetcher request) ;;
      match bars with
      | Ok bars => Ret (Ok bars, "official")
      | Err e =>
          if negb (errors_Is e ErrUnsupportedKlineInterval) then Ret (Err e, "official")
          else
            match RollupSourceTimeframe tf with
            | None => Ret (Err e, "official")
            | Some sourceTF =>
                sourceRequest <- source_request request tf sourceTF ;;
                let strategy := ("rollup:" ++ frame_name sourceTF)%string in
                source <- trigger (FetchKlines fetcher sourceRequest) ;;
                match source with
                | Err e => Ret (Err e, strategy)
                | Ok source =>
                    out <- deriveBars tf request.(KlineRequest.Limit) source ;;
                    Ret (Ok out, strategy)
                end
            end
      end
  end.

(** [decorateBackfillBars] of the candles of an answer; nil stays empty. *)
Definition decorated (answer : result go_error (list Bar)) (reason : string) : cprog (result go_error (list Bar)) :=
  match answer with
  | Err e => Ret (Err e)
  | Ok bars => bars <- decorateBackfillBars bars reason ;; Ret (Ok bars)
  end.

Definition fetchAdjustedBars (fetcher : Fetcher) (job : CorporateActionJob) (factors : list CorporateActionJob)
    (tf : Frame) (startMS endMS limit : Z) : cprog (result go_error (list Bar) * string) :=
  let request adjustment :=
    KlineRequest.mk job.(CorporateActionJob.Symbol) (frame_name tf) startMS endMS limit adjustment
      w.(Worker.cfg).(Config.RequestDelay) in
  if bool_decide (normalizeExchange job.(CorporateActionJob.Exchange) = "okx") then
    '(bars, strategy) <- fetchWithRollup fetcher (request KlineAdjustmentForward) tf ;;
    let unsupported := match bars with Err e => errors_Is e ErrUnsupportedKlineAdjustment | Ok _ => false end in
    if unsupported then
      '(bars, strategy) <- fetchWithRollup fetcher (request KlineAdjustmentRaw) tf ;;
      bars <- decorated bars "corporate_action_raw_fallback" ;;
      Ret (bars, ("raw-fallback/" ++ strategy)%string)
    else
      bars <- decorated bars "corporate_action_forward" ;;
      Ret (bars, ("forward/" ++ strategy)%string)
  else
    '(bars, strategy) <- fetchWithRollup fetcher (request KlineAdjustmentRaw) tf ;;
    let strategy := ("binance-forward/" ++ strategy)%string in
    match bars with
    | Err e => Ret (Err e, strategy)
    | Ok bars =>
        bars <- adjustBinanceBars fetcher job.(CorporateActionJob.Symbol) tf bars factors ;;
        Ret (bars, strategy)
    end.

(** ** Backfill *)

(** What was read back, by start: the last candle of a start. *)
Definition stored_at (local : list Bar) (start : Z) : option Bar :=
  last (List.filter (fun bar => bar.(Bar.StartMS) =? start) local).

Definition mismatched (local : list Bar) (bar : Bar) : bool :=
  match stored_at local bar.(Bar.StartMS) with
  | Some stored => barsDiffer stored bar w.(Worker.cfg).(Config.FloatTolerance)
  | None => true
  end.

(** Start of the first and of the last candle of a list that is not empty. *)
Definition first_start (bars : list Bar) : Z := from_option Bar.StartMS 0 (head bars).
Definition last_start (bars : list Bar) : Z := from_option Bar.StartMS 0 (last bars).

(** The number checked and the number of mismatches. *)
Definition verifyStored (job : CorporateActionJob) (tf : Frame) (expected : list Bar)
    : cprog (result go_error (Z * Z)) :=
  local <- trigger (BarsInRange job.(CorporateActionJob.Exchange) job.(CorporateActionJob.Symbol) (frame_name tf)
                      (first_start expected) (last_start expected)) ;;
  Ret (match local with
       | Err e => Err e
       | Ok local => Ok (Z.of_nat (length expected), Z.of_nat (length (List.filter (mismatched local) expected)))
       end).

(** The slices of the loop [for start := 0; start < len(bars); start += size]. *)
Fixpoint batches (fuel : nat) (size : Z) (bars : list Bar) : list (list Bar) :=
  match fuel, bars with
  | S fuel, _ :: _ => take (Z.to_nat size) bars :: batches fuel size (drop (Z.to_nat size) bars)
  | _, _ => []
  end.

Definition write_batches (bars : list Bar) : cprog (result go_error unit) :=
  pfold_ok (fun _ batch =>
    err <- trigger (UpsertBars batch) ;;
    Ret (match err with Some e => Err e | None => Ok tt end)) tt
    (batches (length bars) w.(Worker.cfg).(Config.BatchSize) bars).

(** What the loop over the timeframes carries, and what it ends with. *)
Definition progress : Type := list FrameReport * Z.
Definition stopped (acc : progress) (e : go_error) : result (progress * go_error) progress := Err (acc, e).

(** Replace the stored candles of a timeframe by [bars], and read them back. *)
Definition replace_frame (job : CorporateActionJob) (tf : Frame) (adjustment : string) (bars : list Bar)
    (acc : progress) : cprog (result (progress * go_error) progress) :=
  let '(reports, total) := acc in
  deleted <- trigger (DeleteBarsInRange job.(CorporateActionJob.Exchange) job.(CorporateActionJob.Symbol)
                        (frame_name tf) (first_start bars) (last_start bars)) ;;
  match deleted with
  | Err e => Ret (stopped acc (Wrapf "delete timeframe %s: %w" e))
  | Ok deleted =>
      written <- write_batches bars ;;
      match written with
      | Err e => Ret (stopped acc (Wrapf "write timeframe %s: %w" e))
      | Ok _ =>
          let n := Z.of_nat (length bars) in
          checked <- verifyStored job tf bars ;;
          let report verified mismatches error :=
            FrameReport.mk (frame_name tf) adjustment n deleted n verified mismatches (first_start bars)
              (last_start bars) error in
          Ret (match checked with
               | Err e => stopped (reports ++ [report 0 0 (error_text e)], total + n)
                            (Errorf "verification failed timeframe=%s checked=%d mismatches=%d err=%v")
               | Ok (verified, mismatches) =>
                   let acc := (reports ++ [report verified mismatches ""], total + n) in
                   if 0 <? mismatches
                   then stopped acc (Errorf "verification failed timeframe=%s checked=%d mismatches=%d err=%v")
                   else Ok acc
               end)
      end
  end.

(** One timeframe; [final]: no other follows. *)
Definition backfill_frame (fetcher : Fetcher) (job : CorporateActionJob) (factors : list CorporateActionJob)
    (now endMS : Z) (tf : Frame) (final : bool) (acc : progress) : cprog (result (progress * go_error) progress) :=
  let '(reports, total) := acc in
  let '(startMS, limit) := retainedWindow tf now in
  '(bars, adjustment) <- fetchAdjustedBars fetcher job factors tf startMS endMS limit ;;
  match bars with
  | Err e =>
      let report := FrameReport.mk (frame_name tf) adjustment 0 0 0 0 0 0 0 (error_text e) in
      Ret (stopped (reports ++ [report], total) (Wrapf "backfill timeframe %s: %w" e))
  | Ok [] => Ret (Ok (reports ++ [FrameReport.fetched (frame_name tf) adjustment 0 0 0], total))
  | Ok bars =>
      acc <- replace_frame job tf adjustment bars acc ;;
      match acc with
      | Err stop => Ret (Err stop)
      | Ok acc =>
          if (0 <? w.(Worker.cfg).(Config.RequestDelay)) && negb final then
            err <- trigger (Wait w.(Worker.cfg).(Config.RequestDelay)) ;;
            Ret (match err with Some e => stopped acc e | None => Ok acc end)
          else Ret (Ok acc)
      end
  end.

Fixpoint backfill_frames (fetcher : Fetcher) (job : CorporateActionJob) (factors : list CorporateActionJob)
    (now endMS : Z) (frames : list Frame) (acc : progress) : cprog (result (progress * go_error) progress) :=
  match frames with
  | [] => Ret (Ok acc)
  | tf :: rest =>
      next <- backfill_frame fetcher job factors now endMS tf (bool_decide (rest = [])) acc ;;
      match next with
      | Err stop => Ret (Err stop)
      | Ok acc => backfill_frames fetcher job factors now endMS rest acc
      end
  end.

(** [ValidateForExchange] of every configured timeframe. *)
Fixpoint valid_frames (exchangeName : string) (frames : list string) : result go_error (list Frame) :=
  match frames with
  | [] => Ok []
  | tf :: rest =>
      match ValidateForExchange exchangeName tf, valid_frames exchangeName rest with
      | Err e, _ => Err (tf_go_error e)
      | Ok f, Ok fs => Ok (f :: fs)
      | Ok _, Err e => Err e
      end
  end.

(** The last millisecond of the last closed minute, two minutes ago. *)
Definition backfill_end (now : Z) : Z := i64 (FloorStartMS (i64 (now - 120000)) OneMinute - 1).

Definition backfill (job : CorporateActionJob) : cprog (progress * option go_error) :=
  match valid_frames job.(CorporateActionJob.Exchange) w.(Worker.cfg).(Config.Timeframes) with
  | Err e => Ret ([], 0, Some e)
  | Ok frames =>
      match fetcherFor job.(CorporateActionJob.Exchange) job.(CorporateActionJob.MarketType) with
      | None => Ret ([], 0, Some (Errorf "missing fetcher for %s %s"))
      | Some fetcher =>
          factors <- trigger (ListCorporateActionFactors job.(CorporateActionJob.Exchange)
                                job.(CorporateActionJob.Symbol)) ;;
          match factors with
          | Err e => Ret ([], 0, Some e)
          | Ok factors =>
              now <- trigger Now ;;
              acc <- backfill_frames fetcher job factors now (backfill_end now) frames ([], 0) ;;
              match acc with
              | Err (acc, e) => Ret (acc, Some e)
              | Ok acc =>
                  if w.(Worker.cache) then
                    err <- trigger (ClearSymbolKlines job.(CorporateActionJob.Exchange)
                                      job.(CorporateActionJob.Symbol) w.(Worker.cfg).(Config.Timeframes)) ;;
                    Ret (acc, match err with Some e => Some (Wrapf "clear redis cache: %w" e) | None => None end)
                  else Ret (acc, None)
              end
          end
      end
  end.

(** ** Jobs *)

(** In nanoseconds. *)
Definition retryDelay (attempt : Z) : Z :=
  let shift := attempt - 1 in
  let shift := if shift <? 0 then 0 else shift in
  let shift := if 6 <? shift then 6 else shift in
  i64 (w.(Worker.cfg).(Config.RetryBaseDelay) * Z.shiftl 1 shift).

(** The job and the notification after a failed attempt. *)
Definition after_failure (job : CorporateActionJob) (reports : list FrameReport) (e : go_error)
    : cprog CorporateActionJob :=
  let text := error_text e in
  if w.(Worker.cfg).(Config.MaxAttempts) <=? job.(CorporateActionJob.Attempts) then
    let job := failed_attempt statusFailed 0 text job in
    _ <- notify (Notification.mk "failed" "前复权历史回填最终失败" job reports text 0 0) ;;
    Ret job
  else
    now <- trigger Now ;;
    let retryMS := i64 (now + Z.quot (retryDelay job.(CorporateActionJob.Attempts)) 1000000) in
    let job := failed_attempt statusRetry retryMS text job in
    _ <- notify (Notification.mk "retry" "前复权历史回填等待重试" job reports text retryMS 0) ;;
    Ret job.

Definition verification_status (reports : list FrameReport) : string :=
  if existsb (fun report => (0 <? report.(FrameReport.MismatchCount))
                            || negb (bool_decide (report.(FrameReport.VerificationErr) = ""))) reports
  then "failed" else "passed".

Definition processJob (job : CorporateActionJob) : cprog (option go_error) :=
  let job := started job in
  err <- trigger (UpdateCorporateActionJob job) ;;
  match err with
  | Some e => Ret (Some e)
  | None =>
      _ <- notify (Notification.plain "backfill_started" "前复权历史回填开始" job) ;;
      '(reports, rowsWritten, err) <- backfill job ;;
      match err with
      | Some e =>
          job <- after_failure job reports e ;;
          _ <- trigger (UpdateCorporateActionJob job) ;;
          Ret (Some e)
      | None =>
          now <- trigger Now ;;
          let job := completed_attempt rowsWritten (verification_status reports) (reports_json reports) now job in
          err <- trigger (UpdateCorporateActionJob job) ;;
          match err with
          | Some e => Ret (Some e)
          | None =>
              _ <- notify (Notification.mk "completed" "前复权历史回填验证报告" job reports "" 0 rowsWritten) ;;
              Ret None
          end
      end
  end.

Definition first_error (first err : option go_error) : option go_error :=
  match first with Some e => Some e | None => err end.

Definition ProcessDueJobs : cprog (option go_error) :=
  now <- trigger Now ;;
  jobs <- trigger (ListDueCorporateActionJobs now w.(Worker.cfg).(Config.JobsPerRun)) ;;
  match jobs with
  | Err e => Ret (Some e)
  | Ok jobs => pfold (fun first job => err <- processJob job ;; Ret (first_error first err)) None jobs
  end.

(** ** The anchor audit *)

Definition anchor_tolerance : float64 := Eval vm_compute in f64_of_Q 5 1000.

(** The ratio of an official close to the stored one, where there is one. *)
Definition anchor_ratio (local : list Bar) (bar : Bar) : option float64 :=
  match stored_at local bar.(Bar.StartMS) with
  | Some stored => if f64_leb stored.(Bar.ClosePrice) f64_zero then None
                   else Some (f64_div bar.(Bar.ClosePrice) stored.(Bar.ClosePrice))
  | None => None
  end.
Definition off_anchor (ratio : float64) : bool := f64_gtb (relativeDifference ratio f64_one) anchor_tolerance.
Definition on_anchor (ratio : float64) : bool := f64_leb (relativeDifference ratio f64_one) anchor_tolerance.

(** The loop: the first ratio off the anchor, and whether a later one is on it. *)
Definition anchor_step (local : list Bar) (acc : option float64 * bool) (bar : Bar) : option float64 * bool :=
  let '(mismatch, later) := acc in
  match anchor_ratio local bar with
  | None => acc
  | Some ratio =>
      if off_anchor ratio then (match mismatch with Some _ => mismatch | None => Some ratio end, later)
      else match mismatch with Some _ => (mismatch, true) | None => acc end
  end.

Definition anchor_effective (local official : list Bar) : Z :=
  match List.find (fun bar => match anchor_ratio local bar with Some ratio => on_anchor ratio | None => false end)
          official with
  | Some bar => bar.(Bar.StartMS)
  | None => last_start official
  end.

Definition anchorCandidate (info : SymbolInfo) (official : list Bar)
    : cprog (result go_error (option CorporateActionJob)) :=
  if Z.of_nat (length official) <? 2 then Ret (Ok None)
  else
    local <- trigger (BarsInRange info.(SymbolInfo.Exchange) info.(SymbolInfo.Symbol) "1D" (first_start official)
                        (last_start official)) ;;
    match local with
    | Err e => Ret (Err e)
    | Ok local =>
        match foldl (anchor_step local) (None, false) official with
        | (Some ratio, true) =>
            now <- trigger Now ;;
            Ret (Ok (Some (new_job (normalizeExchange info.(SymbolInfo.Exchange))
                             (normalizeSymbol info.(SymbolInfo.Symbol)) info.(SymbolInfo.MarketType)
                             (anchor_effective local official) ratio f64_one "okx_forward_1d_anchor" statusPending
                             now now)))
        | _ => Ret (Ok None)
        end
    end.

(** One symbol of the round; the delay follows unless it is the last. *)
Definition anchor_target (info : SymbolInfo) (final : bool) : cprog (option go_error) :=
  match fetcherFor info.(SymbolInfo.Exchange) info.(SymbolInfo.MarketType) with
  | None => Ret None
  | Some fetcher =>
      official <- trigger (FetchKlines fetcher
                    (KlineRequest.mk info.(SymbolInfo.Symbol) "1D" 0 0 3 KlineAdjustmentForward 0)) ;;
      match official with
      | Err _ => Ret None
      | Ok official =>
          candidate <- anchorCandidate info official ;;
          err <- (match candidate with
                  | Err e => Ret (Some e)
                  | Ok None => Ret None
                  | Ok (Some job) => insert_new "日线锚点发现前复权差异并入队" job
                  end) ;;
          match err with
          | Some e => Ret (Some e)
          | None =>
              if (0 <? w.(Worker.cfg).(Config.RequestDelay)) && negb final
              then trigger (Wait w.(Worker.cfg).(Config.RequestDelay)) else Ret None
          end
      end
  end.

Fixpoint anchor_targets (targets : list SymbolInfo) : cprog (option go_error) :=
  match targets with
  | [] => Ret None
  | info :: rest =>
      err <- anchor_target info (bool_decide (rest = [])) ;;
      match err with
      | Some e => Ret (Some e)
      | None => anchor_targets rest
      end
  end.

(** [AnchorAuditOnce]: the error and the new cursor. *)
Definition AnchorAuditOnce (cursor : Z) : cprog (option go_error * Z) :=
  if bool_decide (is_Some (w.(Worker.fetchersByName) !! "okx")) then
    symbols <- trigger (ListSymbols "okx") ;;
    match symbols with
    | Err e => Ret (Some e, cursor)
    | Ok [] => Ret (None, cursor)
    | Ok symbols =>
        let targets := sort_slice (less_str SymbolInfo.Symbol) symbols in
        let n := Z.of_nat (length targets) in
        let count := if n <? w.(Worker.cfg).(Config.AnchorSymbolsPerRun) then n
                     else w.(Worker.cfg).(Config.AnchorSymbolsPerRun) in
        let selected := omap (fun i => targets !! Z.to_nat ((cursor + Z.of_nat i) mod n)) (seq 0 (Z.to_nat count)) in
        err <- anchor_targets selected ;;
        Ret (match err with Some e => (Some e, cursor) | None => (None, (cursor + count) mod n) end)
    end
  else Ret (None, cursor).
End worker.
