(* ===== verification/CorporateSpec.v ===== *)
(** * What the corporate action worker guarantees (internal/corporateaction/worker.go)

    A job ends completed only when every timeframe was rebuilt and read back, and
    is retried a bounded number of times otherwise (processJob_outcome); against
    the in-memory store a rebuild leaves exactly the fetched candles
    (replace_frame_restores); a job is only queued on official confirmation
    (detection_confirmed). *)

From S2P Require Export StoreReplace Corporate.

Local Open Scope string_scope.
Local Open Scope Z_scope.
Local Open Scope list_scope.

(** ** Traces *)

(** The jobs written back, in order. *)
Definition updated (c : call corporateE) : option CorporateActionJob :=
  match c with
  | Call e x => match e with UpdateCorporateActionJob job => Some job | _ => None end
  end.
Definition updates (tr : list (call corporateE)) : list CorporateActionJob := omap updated tr.

Lemma updates_app tr1 tr2 : updates (tr1 ++ tr2) = updates tr1 ++ updates tr2.
Proof. apply omap_app. Qed.

Definition no_updates (tr : list (call corporateE)) : Prop := updates tr = [].
#[export] Instance no_updates_trace : TraceProp no_updates.
Proof. split; [done|]. unfold no_updates. intros * H1 H2. by rewrite updates_app, H1, H2. Qed.

Definition is_update {X} (e : corporateE X) : bool := match e with UpdateCorporateActionJob _ => true | _ => false end.
Lemma each_no_update {X} (e : corporateE X) : is_update e = false → each no_updates (trigger e).
Proof. intros He. apply each_trigger. intros x. by destruct e. Qed.
#[export] Hint Extern 2 (each no_updates (trigger _)) => apply each_no_update; reflexivity : each.

(** [part] is a piece of [tr]. *)
Definition within {A} (part tr : list A) : Prop := ∃ pre post, tr = pre ++ part ++ post.
Lemma within_refl {A} (tr : list A) : within tr tr.
Proof. exists [], []. by rewrite app_nil_r. Qed.
Lemma within_app_l {A} (part tr tr' : list A) : within part tr → within part (tr' ++ tr).
Proof. intros (pre & post & ->). exists (tr' ++ pre), post. by rewrite <- !app_assoc. Qed.
Lemma within_app_r {A} (part tr tr' : list A) : within part tr → within part (tr ++ tr').
Proof. intros (pre & post & ->). exists pre, (post ++ tr'). by rewrite <- !app_assoc. Qed.
Lemma within_cons {A} (part tr : list A) c : within part tr → within part (c :: tr).
Proof. apply (within_app_l _ _ [c]). Qed.
#[export] Hint Resolve within_refl within_app_l within_app_r within_cons : core.

(** ** Batches *)

Lemma batches_concat fuel size bars :
  0 < size → (length bars <= fuel)%nat → concat (batches fuel size bars) = bars.
Proof.
  intros Hs. revert bars. induction fuel as [|fuel IH]; intros [|b bars] Hl; simpl in *; [done|lia|done|].
  destruct (Z.to_nat size) as [|n] eqn:En; [lia|]. simpl. f_equal. rewrite IH; [apply take_drop|].
  rewrite length_drop. lia.
Qed.

Section worker.
Context (w : Worker).
Notation cfg := w.(Worker.cfg).

Lemma runs_notify n tr u : runs (notify w n) tr u → no_updates tr.
Proof. unfold notify. case_bool; [by intros ->%runs_trigger|by intros [-> _]%runs_Ret]. Qed.

Lemma notify_quiet n : each no_updates (notify w n).
Proof. intros tr u H. by eapply runs_notify. Qed.
#[local] Hint Resolve notify_quiet : each.

(** The trace of a rebuild that succeeded. *)
Definition rebuild_trace (job : CorporateActionJob) (tf : Frame) (bars : list Bar) (deleted : Z) (bs : list (list Bar))
    (local : list Bar) : list (call corporateE) :=
  Call (DeleteBarsInRange job.(CorporateActionJob.Exchange) job.(CorporateActionJob.Symbol) (frame_name tf)
          (first_start bars) (last_start bars)) (Ok deleted)
  :: ((λ batch, Call (UpsertBars batch) None) <$> bs)
  ++ [Call (BarsInRange job.(CorporateActionJob.Exchange) job.(CorporateActionJob.Symbol) (frame_name tf)
              (first_start bars) (last_start bars)) (Ok local)].

(** Every candle is among those read back, within the tolerance. *)
Definition read_back (local bars : list Bar) : Prop :=
  ∀ bar, bar ∈ bars → ∃ stored, stored ∈ local ∧ stored.(Bar.StartMS) = bar.(Bar.StartMS) ∧
    barsDiffer stored bar cfg.(Config.FloatTolerance) = false.

Lemma mismatched_none local bars :
  List.filter (mismatched w local) bars = [] → read_back local bars.
Proof.
  intros H bar Hin. assert (mismatched w local bar = false) as Hm.
  { destruct (mismatched w local bar) eqn:E; [|done]. exfalso.
    assert (bar ∈ List.filter (mismatched w local) bars) as Hf
      by (apply list_elem_of_In, List.filter_In; split; [by apply list_elem_of_In|done]).
    rewrite H in Hf. by apply not_elem_of_nil in Hf. }
  unfold mismatched, stored_at in Hm. destruct (last _) as [stored|] eqn:El; [|done]. exists stored.
  apply last_elem in El. apply list_elem_of_In, List.filter_In in El as [Hl Hs]. zbool.
  split_and!; [by apply list_elem_of_In|done|done].
Qed.

Lemma write_batches_run bars tr u :
  runs (write_batches w bars) tr (Ok u) →
  tr = (λ batch, Call (UpsertBars batch) None) <$> batches (length bars) cfg.(Config.BatchSize) bars.
Proof.
  unfold write_batches. intros H.
  refine (runs_pfold_ok _ _ _ _ _ (λ l tr _, tr = (λ batch, Call (UpsertBars batch) None) <$> l) _ _ H); [done|].
  intros done batch rest tr1 b1 tr2 b2 _ -> Hr. repeat run_step. rewrite fmap_app. simpl. repeat f_equal.
  by destruct x0.
Qed.

Lemma replace_frame_run job tf adjustment bars acc tr acc' :
  0 < cfg.(Config.BatchSize) →
  runs (replace_frame w job tf adjustment bars acc) tr (Ok acc') →
  ∃ deleted bs local report,
    tr = rebuild_trace job tf bars deleted bs local ∧ concat bs = bars ∧ read_back local bars ∧
    acc' = (acc.1 ++ [report], acc.2 + Z.of_nat (length bars)) ∧
    report.(FrameReport.MismatchCount) = 0 ∧ report.(FrameReport.VerificationErr) = "".
Proof.
  intros Hsize. unfold replace_frame. destruct acc as [reports total]. intros H.
  apply runs_bind in H as (tr1 & deleted & tr2 & -> & H1 & H). apply runs_trigger in H1 as ->.
  destruct deleted as [deleted|e]; [|by apply runs_Ret in H as [_ ?]].
  apply runs_bind in H as (tr3 & written & tr4 & -> & H1 & H).
  destruct written as [u|e]; [|by apply runs_Ret in H as [_ ?]]. apply write_batches_run in H1 as ->. cbv zeta in H.
  apply runs_bind in H as (tr5 & checked & tr6 & -> & H1 & H). apply runs_Ret in H as [-> H].
  unfold verifyStored in H1. apply runs_bind in H1 as (tr7 & local & tr8 & -> & H2 & H1).
  apply runs_trigger in H2 as ->. apply runs_Ret in H1 as [-> ->]. destruct local as [local|e]; [|done].
  destruct (0 <? _) eqn:Em; [done|]. injection H as ->. zbool.
  assert (Hnone : List.filter (mismatched w local) bars = []) by (apply length_zero_iff_nil; lia).
  eexists deleted, _, local, _. split; [unfold rebuild_trace; by rewrite !app_nil_r|].
  split; [by apply batches_concat|]. split; [by apply mismatched_none|]. split; [reflexivity|].
  simpl. by rewrite Hnone.
Qed.

(** The timeframe was fetched, and what was fetched replaced what was stored. *)
Definition rebuilt (fetcher : Fetcher) (job : CorporateActionJob) (factors : list CorporateActionJob) (now : Z)
    (tr : list (call corporateE)) (tf : Frame) : Prop :=
  ∃ fetch bars adjustment,
    within fetch tr ∧
    runs (fetchAdjustedBars w fetcher job factors tf (retainedWindow tf now).1 (backfill_end now)
            (retainedWindow tf now).2) fetch (Ok bars, adjustment) ∧
    (bars = [] ∨
     ∃ deleted bs local,
       within (rebuild_trace job tf bars deleted bs local) tr ∧ concat bs = bars ∧ read_back local bars).

Lemma rebuilt_app_l fetcher job factors now tr tr' tf :
  rebuilt fetcher job factors now tr tf → rebuilt fetcher job factors now (tr' ++ tr) tf.
Proof. intros (fetch & bars & adj & ? & ? & [?|(? & ? & ? & ? & ?)]); exists fetch, bars, adj; eauto 12. Qed.
Lemma rebuilt_app_r fetcher job factors now tr tr' tf :
  rebuilt fetcher job factors now tr tf → rebuilt fetcher job factors now (tr ++ tr') tf.
Proof. intros (fetch & bars & adj & ? & ? & [?|(? & ? & ? & ? & ?)]); exists fetch, bars, adj; eauto 12. Qed.

(** A report of a timeframe without mismatch. *)
Definition clean (report : FrameReport) : Prop :=
  report.(FrameReport.MismatchCount) = 0 ∧ report.(FrameReport.VerificationErr) = "".

Lemma backfill_frame_run fetcher job factors now tf final acc tr acc' :
  0 < cfg.(Config.BatchSize) →
  runs (backfill_frame w fetcher job factors now (backfill_end now) tf final acc) tr (Ok acc') →
  rebuilt fetcher job factors now tr tf ∧ ∃ report, clean report ∧ acc'.1 = acc.1 ++ [report].
Proof.
  intros Hsize. unfold backfill_frame. destruct acc as [reports total].
  destruct (retainedWindow tf now) as [startMS limit] eqn:Ew. intros H.
  apply runs_bind in H as (tr1 & [bars adjustment] & tr2 & -> & Hf & H).
  destruct bars as [bars|e]; [|by apply runs_Ret in H as [_ ?]].
  assert (Hfetch : ∀ tail, (bars = [] ∨ ∃ deleted bs local,
            within (rebuild_trace job tf bars deleted bs local) tail ∧ concat bs = bars ∧ read_back local bars) →
            rebuilt fetcher job factors now (tr1 ++ tail) tf).
  { intros tail Ht. exists tr1, bars, adjustment. rewrite Ew. split; [eauto|]. split; [done|].
    destruct Ht as [?|(? & ? & ? & ? & ?)]; [by left|right; eauto 10]. }
  destruct bars as [|b bars].
  - apply runs_Ret in H as [-> [= ->]]. split; [by apply Hfetch; left|].
    eexists. split; [|reflexivity]. done.
  - apply runs_bind in H as (tr3 & next & tr4 & -> & H1 & H). destruct next as [acc1|stop]; [|by apply runs_Ret in H as [_ ?]].
    apply replace_frame_run in H1 as (deleted & bs & local & report & -> & Hb & Hr & -> & Hm & He); [|done].
    split; [apply Hfetch; right; exists deleted, bs, local; eauto|]. exists report. split; [done|].
    match type of H with context [if ?b then _ else _] => destruct b end.
    + apply runs_bind in H as (tr5 & err & tr6 & -> & H1 & H). apply runs_Ret in H as [-> H].
      destruct err; [done|]. by injection H as ->.
    + by apply runs_Ret in H as [-> [= ->]].
Qed.

Lemma backfill_frames_run fetcher job factors now frames acc tr acc' :
  0 < cfg.(Config.BatchSize) →
  runs (backfill_frames w fetcher job factors now (backfill_end now) frames acc) tr (Ok acc') →
  Forall (rebuilt fetcher job factors now tr) frames ∧
  ∃ reports, Forall clean reports ∧ length reports = length frames ∧ acc'.1 = acc.1 ++ reports.
Proof.
  intros Hsize. revert acc tr. induction frames as [|tf frames IH]; intros acc tr H; simpl in H.
  - apply runs_Ret in H as [-> [= ->]]. split; [constructor|]. exists []. by rewrite app_nil_r.
  - apply runs_bind in H as (tr1 & next & tr2 & -> & H1 & H). destruct next as [acc1|stop]; [|by apply runs_Ret in H as [_ ?]].
    apply backfill_frame_run in H1 as [Hr (report & Hc & Ha)]; [|done].
    apply IH in H as [Hrs (reports & Hcs & Hl & Has)]. split.
    + constructor; [by apply rebuilt_app_r|]. eapply Forall_impl; [exact Hrs|]. intros f. apply rebuilt_app_l.
    + exists (report :: reports). split; [by constructor|]. split; [simpl; by rewrite Hl|].
      rewrite Has, Ha. by rewrite <- app_assoc.
Qed.

(** Every configured timeframe was rebuilt, from the factors the store listed. *)
Definition backfilled (job : CorporateActionJob) (tr : list (call corporateE)) : Prop :=
  ∃ frames fetcher factors now,
    valid_frames job.(CorporateActionJob.Exchange) cfg.(Config.Timeframes) = Ok frames ∧
    fetcherFor w job.(CorporateActionJob.Exchange) job.(CorporateActionJob.MarketType) = Some fetcher ∧
    Call (ListCorporateActionFactors job.(CorporateActionJob.Exchange) job.(CorporateActionJob.Symbol)) (Ok factors) ∈ tr ∧
    Call Now now ∈ tr ∧ Forall (rebuilt fetcher job factors now tr) frames ∧
    (w.(Worker.cache) = true →
     Call (ClearSymbolKlines job.(CorporateActionJob.Exchange) job.(CorporateActionJob.Symbol) cfg.(Config.Timeframes))
       None ∈ tr).

Lemma backfill_run job tr reports total :
  0 < cfg.(Config.BatchSize) → runs (backfill w job) tr (reports, total, None) →
  backfilled job tr ∧ Forall clean reports.
Proof.
  intros Hsize. unfold backfill. intros H.
  destruct (valid_frames _ _) as [frames|e] eqn:Ev; [|by apply runs_Ret in H as [_ ?]].
  destruct (fetcherFor _ _ _) as [fetcher|] eqn:Ef; [|by apply runs_Ret in H as [_ ?]].
  apply runs_bind in H as (tr1 & factors & tr2 & -> & H1 & H). apply runs_trigger in H1 as ->.
  destruct factors as [factors|e]; [|by apply runs_Ret in H as [_ ?]].
  apply runs_bind in H as (tr3 & now & tr4 & -> & H1 & H). apply runs_trigger in H1 as ->.
  apply runs_bind in H as (tr5 & acc & tr6 & -> & H1 & H).
  destruct acc as [acc|[acc e]]; [|by apply runs_Ret in H as [_ ?]].
  apply backfill_frames_run in H1 as [Hr (rs & Hc & _ & Ha)]; [|done].
  assert (Hback : (w.(Worker.cache) = true →
             Call (ClearSymbolKlines job.(CorporateActionJob.Exchange) job.(CorporateActionJob.Symbol)
                     cfg.(Config.Timeframes)) None ∈ tr6) →
           backfilled job ([Call (ListCorporateActionFactors job.(CorporateActionJob.Exchange)
             job.(CorporateActionJob.Symbol)) (Ok factors)] ++ [Call Now now] ++ tr5 ++ tr6)).
  { intros Hcache. exists frames, fetcher, factors, now. split_and!; [done|done|in_trace|in_trace| |].
    - eapply Forall_impl; [exact Hr|]. intros f Hf. do 2 apply rebuilt_app_l. by apply rebuilt_app_r.
    - intros Hw. specialize (Hcache Hw). set_solver. }
  destruct (Worker.cache w) eqn:Ecache.
  - apply runs_bind in H as (tr7 & err & tr8 & -> & H1 & H). apply runs_trigger in H1 as ->.
    apply runs_Ret in H as [-> H]. destruct err as [e|]; [done|]. injection H as <-. simpl in Ha.
    split; [apply Hback; intros _; set_solver|by rewrite Ha].
  - apply runs_Ret in H as [-> [= <-]]. simpl in Ha. split; [by apply Hback|by rewrite Ha].
Qed.

Lemma backfill_quiet job : each no_updates (backfill w job).
Proof.
  unfold backfill. destruct (valid_frames _ _) as [frames|e]; [|each_auto].
  destruct (fetcherFor _ _ _) as [fetcher|]; [|each_auto].
  assert (Hframes : ∀ factors now acc, each no_updates (backfill_frames w fetcher job factors now (backfill_end now) frames acc)).
  { intros factors now. induction frames as [|tf frames IH]; intros acc; cbn [backfill_frames]; [each_auto|].
    apply each_bind; [typeclasses eauto| |intros [acc1|]; [apply IH|each_auto]].
    unfold backfill_frame, replace_frame, write_batches, verifyStored, fetchAdjustedBars, fetchWithRollup, source_request,
      deriveBars, derive_step, decorated, adjustBinanceBars, adjust_bar, crossing_bucket, applyFactors, factor_step,
      decorateBackfillBars, decorate_step. each_auto. }
  each_auto.
Qed.
#[local] Hint Resolve backfill_quiet : each.

(** ** The outcome of a job *)

(** [job] and its next version are the same action, one attempt further. *)
Definition next_attempt (job job' : CorporateActionJob) : Prop :=
  job_key job' = job_key job ∧ job'.(CorporateActionJob.Attempts) = i64 (job.(CorporateActionJob.Attempts) + 1).

(** The rebuild of this attempt returned the error [e]. *)
Definition rebuild_failed (job : CorporateActionJob) (tr : list (call corporateE)) (e : go_error) : Prop :=
  ∃ part reports total, within part tr ∧ runs (backfill w (started job)) part (reports, total, Some e).

Inductive job_outcome (job : CorporateActionJob) (tr : list (call corporateE)) (job' : CorporateActionJob)
    : option go_error → Prop :=
| outcome_completed r :
    job'.(CorporateActionJob.Status) = "completed" → job'.(CorporateActionJob.VerificationStatus) = "passed" →
    backfilled job tr → Call (UpdateCorporateActionJob job') r ∈ tr → job_outcome job tr job' r
| outcome_failed e :
    job'.(CorporateActionJob.Status) = "failed" → cfg.(Config.MaxAttempts) <= job'.(CorporateActionJob.Attempts) →
    job'.(CorporateActionJob.LastError) = error_text e → rebuild_failed job tr e → job_outcome job tr job' (Some e)
| outcome_retry e now :
    job'.(CorporateActionJob.Status) = "retry" → job'.(CorporateActionJob.Attempts) < cfg.(Config.MaxAttempts) →
    job'.(CorporateActionJob.LastError) = error_text e → rebuild_failed job tr e → Call Now now ∈ tr →
    job'.(CorporateActionJob.NextRetryMS) = i64 (now + Z.quot (retryDelay w job'.(CorporateActionJob.Attempts)) 1000000) →
    job_outcome job tr job' (Some e).

Lemma clean_passed reports : Forall clean reports → verification_status reports = "passed".
Proof.
  intros H. unfold verification_status.
  match goal with |- (if ?b then _ else _) = _ => assert (b = false) as ->; [|done] end.
  apply not_true_iff_false. intros (r & Hin & Hr)%existsb_exists. rewrite Forall_forall in H. apply list_elem_of_In in Hin.
  destruct (H r Hin) as [Hm He]. rewrite Hm, He in Hr. done.
Qed.

Lemma after_failure_run job reports e tr job' :
  runs (after_failure w job reports e) tr job' →
  updates tr = [] ∧ job_key job' = job_key job ∧
  job'.(CorporateActionJob.Attempts) = job.(CorporateActionJob.Attempts) ∧
  job'.(CorporateActionJob.LastError) = error_text e ∧
  ((job'.(CorporateActionJob.Status) = "failed" ∧ cfg.(Config.MaxAttempts) <= job.(CorporateActionJob.Attempts)) ∨
   (job'.(CorporateActionJob.Status) = "retry" ∧ job.(CorporateActionJob.Attempts) < cfg.(Config.MaxAttempts) ∧
    ∃ now, Call Now now ∈ tr ∧
      job'.(CorporateActionJob.NextRetryMS)
        = i64 (now + Z.quot (retryDelay w job.(CorporateActionJob.Attempts)) 1000000))).
Proof.
  unfold after_failure. cbv zeta.
  match goal with |- context [if ?b then _ else _] => destruct b eqn:E end; intros H; zbool.
  - apply runs_bind in H as (tr1 & u & tr2 & -> & Hn & H). apply runs_notify in Hn. apply runs_Ret in H as [-> ->].
    rewrite updates_app, Hn. auto 10.
  - apply runs_bind in H as (tr1 & now & tr2 & -> & H1 & H). apply runs_trigger in H1 as ->.
    apply runs_bind in H as (tr3 & u & tr4 & -> & Hn & H). apply runs_notify in Hn. apply runs_Ret in H as [-> ->].
    rewrite !updates_app, Hn. split_and!; try done. right. split_and!; [done|done|]. exists now. split; [in_trace|done].
Qed.

Lemma backfilled_within job tr pre post : backfilled job tr → backfilled job (pre ++ tr ++ post).
Proof.
  intros (frames & fetcher & factors & now & Hv & Hf & Hl & Hn & Hr & Hc). exists frames, fetcher, factors, now.
  split_and!; [done|done|set_solver|set_solver| |intros Hw; specialize (Hc Hw); set_solver].
  eapply Forall_impl; [exact Hr|]. intros f Hff. by apply rebuilt_app_l, rebuilt_app_r.
Qed.

(** What the loop over the timeframes uses of a job does not change when it
    starts. *)
Lemma backfilled_started job tr : backfilled (started job) tr → backfilled job tr.
Proof. by destruct job. Qed.

Lemma job_key_started job : job_key (started job) = job_key job.
Proof. by destruct job. Qed.

Lemma processJob_spec job tr r :
  0 < cfg.(Config.BatchSize) → runs (processJob w job) tr r →
  (∃ e, tr = [Call (UpdateCorporateActionJob (started job)) (Some e)] ∧ r = Some e) ∨
  ∃ rest job', tr = Call (UpdateCorporateActionJob (started job)) None :: rest ∧ updates rest = [job'] ∧
    next_attempt job job' ∧ job_outcome job rest job' r.
Proof.
  intros Hsize H. unfold processJob in H. cbv zeta in H.
  apply runs_bind in H as (tr1 & err & tr2 & -> & H1 & H). apply runs_trigger in H1 as ->.
  destruct err as [e|]; [left; apply runs_Ret in H as [-> ->]; eauto|]. right.
  apply runs_bind in H as (tr3 & u & tr4 & -> & Hn & H). apply runs_notify in Hn.
  apply runs_bind in H as (tr5 & [[reports total] err] & tr6 & -> & Hb & H).
  pose proof (backfill_quiet _ _ _ Hb) as Hq. exists (tr3 ++ tr5 ++ tr6). destruct err as [e|].
  - apply runs_bind in H as (tr7 & job' & tr8 & -> & Ha & H).
    apply after_failure_run in Ha as (Hu & Hk & Hat & He & Hcase).
    apply runs_bind in H as (tr9 & u' & tr10 & -> & H1 & H). apply runs_trigger in H1 as ->.
    apply runs_Ret in H as [-> ->]. exists job'.
    assert (Hnext : next_attempt job job') by (split; [by rewrite Hk, job_key_started|by rewrite Hat; destruct job]).
    split; [done|]. split; [by rewrite !updates_app, Hn, Hq, Hu|]. split; [done|]. rewrite <- Hat in Hcase.
    assert (Hf : rebuild_failed job (tr3 ++ tr5 ++ tr7 ++ [Call (UpdateCorporateActionJob job') u'] ++ []) e)
      by (exists tr5, reports, total; auto).
    destruct Hcase as [[Hs Hm]|(Hs & Hm & now & Hin & Hr)]; [by apply outcome_failed|].
    eapply (outcome_retry _ _ _ _ now); try done. set_solver.
  - apply backfill_run in Hb as [Hback Hc]; [|done].
    apply runs_bind in H as (tr7 & now & tr8 & -> & H1 & H). apply runs_trigger in H1 as ->. cbv zeta in H.
    apply runs_bind in H as (tr9 & err & tr10 & -> & H1 & H). apply runs_trigger in H1 as ->.
    set (job' := completed_attempt _ _ _ _ _) in *. exists job'.
    assert (updates tr10 = [] ∧ r = err) as [Hrest ->].
    { destruct err; [by apply runs_Ret in H as [-> ->]|]. apply runs_bind in H as (tr11 & u' & tr12 & -> & Hn' & H).
      apply runs_notify in Hn'. apply runs_Ret in H as [-> ->]. by rewrite updates_app, Hn'. }
    split; [done|]. split; [by rewrite !updates_app, Hn, Hq, Hrest|]. split; [by destruct job|].
    apply outcome_completed; [done| | |].
    + unfold job'. simpl. by apply clean_passed.
    + apply backfilled_started. by apply backfilled_within.
    + set_solver.
Qed.
End worker.

(** What the store lists: a job that is over is never due again, one that waits
    is due from its time on. *)
Lemma due_after job :
  job.(CorporateActionJob.Status) = "completed" ∨ job.(CorporateActionJob.Status) = "failed" →
  ∀ now, due_job now job = None.
Proof.
  intros Hs now. unfold due_job, stale_running. destruct Hs as [-> | ->]; reflexivity.
Qed.

Lemma due_retry job :
  job.(CorporateActionJob.Status) = "retry" → ∀ now,
  due_job now job = if (0 <? job.(CorporateActionJob.NextRetryMS)) && (now <? job.(CorporateActionJob.NextRetryMS))
                    then None else Some job.
Proof. intros Hs now. unfold due_job, stale_running. rewrite Hs. simpl. by case_bool. Qed.

Lemma outcome_due w job tr job' r :
  job_outcome w job tr job' r → ∀ now,
  due_job now job' =
    if bool_decide (job'.(CorporateActionJob.Status) = "retry")
       && negb ((0 <? job'.(CorporateActionJob.NextRetryMS)) && (now <? job'.(CorporateActionJob.NextRetryMS)))
    then Some job' else None.
Proof.
  intros H now. destruct H as [r Hs _ _ _|e Hs _ _ _|e now' Hs _ _ _ _ _].
  - rewrite Hs. by apply due_after; left.
  - rewrite Hs. by apply due_after; right.
  - rewrite Hs, due_retry by done. simpl. by case_bool.
Qed.

(** C7: an attempt of a corporate action job first writes the job as running.
    When the store refuses that, the attempt ends there with that error and does
    nothing else.  Otherwise it writes the job exactly once more, with the attempt
    counted, and ends in one of three ways: completed, verified as passed, and
    only if every configured timeframe was fetched, its stored candles deleted,
    all fetched candles written and read back within the tolerance, and the
    result is that of this last write; or, when the rebuild of the timeframes
    returned an error, which is then recorded and returned, failed, only when the
    attempts are used up, or to be retried after the backoff.  A job that is over
    is never listed as due again, and one to be retried is listed exactly from
    its retry time on. *)
Theorem processJob_outcome w job tr r :
  0 < w.(Worker.cfg).(Config.BatchSize) → runs (processJob w job) tr r →
  (∃ e, tr = [Call (UpdateCorporateActionJob (started job)) (Some e)] ∧ r = Some e) ∨
  ∃ rest job', tr = Call (UpdateCorporateActionJob (started job)) None :: rest ∧ updates rest = [job'] ∧
    next_attempt job job' ∧ job_outcome w job rest job' r ∧
    ∀ now, due_job now job' =
      if bool_decide (job'.(CorporateActionJob.Status) = "retry")
         && negb ((0 <? job'.(CorporateActionJob.NextRetryMS)) && (now <? job'.(CorporateActionJob.NextRetryMS)))
      then Some job' else None.
Proof.
  intros Hsize H. destruct (processJob_spec w job tr r Hsize H) as [?|(rest & job' & Ht & Hu & Hn & Ho)]; [by left|right].
  exists rest, job'. split; [done|]. split; [done|]. split; [done|]. split; [done|]. by eapply outcome_due.
Qed.

(** ** Against the in-memory store *)

(** The in-memory store behind the worker, a clock that stands still and an
    exchange that answers [fetch]. *)
Definition memory (now : Z) (fetch : KlineRequest → result go_error (list Bar)) : handler corporateE BarStore :=
  fun X e st =>
  match e in corporateE X return option (X * BarStore) with
  | Now => Some (now, st)
  | Wait _ => Some (None, st)
  | FetchKlines _ request => Some (fetch request, st)
  | BarsInRange ex symbol tf startMS endMS => Some (Store.BarsInRange ex symbol tf startMS endMS st, st)
  | UpsertBars bars =>
      let '(r, st) := Store.UpsertBars bars st in
      Some (match r with Ok _ => None | Err e => Some e end, st)
  | DeleteBarsInRange ex symbol tf startMS endMS => Some (Store.DeleteBarsInRange ex symbol tf startMS endMS st)
  | UpdateCorporateActionJob _ => Some (None, st)
  | ListCorporateActionFactors _ _ => Some (Ok [], st)
  | ClearSymbolKlines _ _ _ => Some (None, st)
  | Notify _ => Some (tt, st)
  | _ => None
  end.

(** A candle compared with itself. *)
Lemma relativeDifference_self x tolerance :
  f64_ltb tolerance f64_zero = false → f64_gtb (relativeDifference x x) tolerance = false.
Proof.
  intros Ht. unfold relativeDifference, f64_gtb.
  assert (Hz : ∀ s, SFltb tolerance (S754_zero s) = false) by (intros s; rewrite <- Ht; by destruct tolerance as [[]|[]| |[]]).
  destruct x as [s|s| |s m e].
  - simpl. apply Hz.
  - simpl. by destruct s, tolerance.
  - simpl. by destruct tolerance.
  - assert (f64_sub (S754_finite s m e) (S754_finite s m e) = S754_zero false) as ->.
    { unfold f64_sub, SFsub. rewrite Z.min_id. destruct s; simpl; by rewrite Z.sub_diag. }
    assert (f64_max (f64_abs (S754_finite s m e)) (f64_abs (S754_finite s m e)) = S754_finite false m e) as ->
      by (unfold f64_max; simpl; by case_bool).
    simpl. apply Hz.
Qed.

Lemma barsDiffer_decorated bar tolerance :
  f64_ltb tolerance f64_zero = false → barsDiffer (DecorateBar bar) bar tolerance = false.
Proof. intros Ht. unfold barsDiffer, DecorateBar. simpl. by rewrite !relativeDifference_self. Qed.

Lemma write_batches_exec now fetch w bars st :
  0 < w.(Worker.cfg).(Config.BatchSize) →
  ∃ tr, exec (memory now fetch) (write_batches w bars) st = Some (tr, Ok tt, snd (Store.UpsertBars bars st)).
Proof.
  intros Hsize. unfold write_batches.
  pose proof (batches_concat (length bars) _ bars Hsize ltac:(done)) as Hb. revert Hb.
  generalize (batches (length bars) w.(Worker.cfg).(Config.BatchSize) bars) as bs. intros bs <-. revert st.
  induction bs as [|b bs IH]; intros st; [by eexists|]. destruct (IH (snd (Store.UpsertBars b st))) as (tr & H).
  simpl in *. rewrite H. eexists. by rewrite foldl_app.
Qed.

Lemma restored_matches ex symbol tf bars w :
  series_of ex symbol tf bars →
  f64_ltb w.(Worker.cfg).(Config.FloatTolerance) f64_zero = false →
  List.filter (mismatched w (DecorateBar <$> bars)) bars = [].
Proof.
  intros Hseries Ht. pose proof (so_sorted _ _ _ _ Hseries) as Hs.
  assert (Hs' : key_sorted Bar.StartMS (DecorateBar <$> bars))
    by (apply (key_sorted_fmap _ Bar.StartMS); [intros b _; apply DecorateBar_StartMS|done]).
  destruct (List.filter _ bars) as [|b l] eqn:E; [done|]. exfalso.
  assert (Hf : In b (List.filter (mismatched w (DecorateBar <$> bars)) bars)) by (rewrite E; by left).
  apply List.filter_In in Hf as [Hin Hm]. apply list_elem_of_In in Hin. unfold mismatched, stored_at in Hm.
  rewrite bar_of_filter in Hm by done. rewrite <- (DecorateBar_StartMS b), bar_of_in in Hm
    by (done || by apply list_elem_of_fmap_2).
  by rewrite barsDiffer_decorated in Hm.
Qed.

(** C8: replacing the candles of a timeframe against the in-memory store: whatever
    the store held, verified minutes included, afterwards the range of the fetched
    candles holds exactly those candles, every other row of every series is as
    before, the read-back finds no mismatch, and the loop goes on. *)
Theorem replace_frame_restores now fetch w job tf adjustment bars acc st :
  0 < w.(Worker.cfg).(Config.BatchSize) → f64_ltb w.(Worker.cfg).(Config.FloatTolerance) f64_zero = false →
  bars_wf st → series_of job.(CorporateActionJob.Exchange) job.(CorporateActionJob.Symbol) tf bars →
  ∃ tr st' report,
    exec (memory now fetch) (replace_frame w job tf adjustment bars acc) st
      = Some (tr, Ok (acc.1 ++ [report], acc.2 + Z.of_nat (length bars)), st') ∧
    clean report ∧ bars_wf st' ∧
    (∀ k start, rows st'.(BarStore.bars) k !! start =
       if bool_decide (k = series_key job.(CorporateActionJob.Exchange) job.(CorporateActionJob.Symbol) (frame_name tf))
          && in_range (first_start bars) (last_start bars) start
       then bar_of bars start else rows st.(BarStore.bars) k !! start).
Proof.
  intros Hsize Ht Hst Hseries. destruct acc as [reports total]. unfold replace_frame.
  set (ex := CorporateActionJob.Exchange job) in *. set (symbol := CorporateActionJob.Symbol job) in *.
  set (lo := first_start bars). set (hi := last_start bars).
  assert (Hrange : ∀ b, b ∈ bars → in_range lo hi b.(Bar.StartMS) = true)
    by (intros b; apply sorted_bounds, (so_sorted _ _ _ _ Hseries)).
  pose proof (restored_read ex symbol tf lo hi bars st Hseries Hst Hrange) as Hread.
  pose proof (restored_matches ex symbol tf bars w Hseries Ht) as Hmatch.
  rewrite exec_bind. cbn [exec trigger memory]. destruct (Store.DeleteBarsInRange ex symbol _ _ _ st) as [d st1] eqn:Ed.
  assert (Hd : ∃ n, d = Ok n ∧ st1 = cleared ex symbol tf lo hi st).
  { unfold cleared. subst lo hi. rewrite Ed. unfold Store.DeleteBarsInRange in Ed. injection Ed as <- <-. eauto. }
  destruct Hd as (n & -> & ->). clear Ed. rewrite exec_bind.
  destruct (write_batches_exec now fetch w bars (cleared ex symbol tf lo hi st) Hsize) as (trw & ->).
  fold (restored ex symbol tf lo hi bars st). rewrite exec_bind. unfold verifyStored. rewrite exec_bind. cbn [exec trigger memory].
  fold ex symbol lo hi. rewrite Hread. cbn [exec]. rewrite Hmatch. cbn.
  eexists _, _, _. split; [reflexivity|]. split; [done|]. split; [by apply restored_wf|].
  intros k start. destruct (decide (k = series_key ex symbol (frame_name tf))) as [->|Hk].
  - rewrite bool_decide_eq_true_2 by done. by apply restored_row.
  - rewrite bool_decide_eq_false_2 by done.
    exact (f_equal (lookup start) (restored_other ex symbol tf lo hi bars st Hseries k Hk)).
Qed.

(** ** A concrete job *)

Definition sample_cfg : Config :=
  Config.mk true ["1D"] 0 0 0 0 2 0 0 1 0 0 0 f64_zero.
Definition sample_fetcher : Fetcher := Fetcher.mk 0 "OKX" "swap" false.
Definition sample_worker : Worker := New [None; Some sample_fetcher] true true sample_cfg.
Definition sample_job : CorporateActionJob :=
  new_job "okx" "BTC" "swap" (3 * DayMS) (f64_of_Q 1 2) (f64_of_Q 1 2) "ws_1m_ratio+rest_confirm" "pending" 1 1.

Definition sample_day (day price : Z) : Bar :=
  DecorateBar
    {| Bar.Exchange := "okx"; Bar.Symbol := "BTC"; Bar.MarginType := ""; Bar.Timeframe := "1D"; Bar.StartMS := day * DayMS;
       Bar.EndMS := day * DayMS + 86399999; Bar.StartTS := 0; Bar.EndTS := 0; Bar.OpenPrice := f64_of_Z price;
       Bar.HighPrice := f64_of_Z (price + 1); Bar.LowPrice := f64_of_Z price; Bar.ClosePrice := f64_of_Z price;
       Bar.Open := f64_zero; Bar.High := f64_zero; Bar.Low := f64_zero; Bar.Close := f64_zero;
       Bar.PrevClose := f64_zero; Bar.Chg := f64_zero; Bar.Amp := f64_zero; Bar.Volume := f64_of_Z 3;
       Bar.VolumeUnit := ""; Bar.QuoteVolume := f64_zero; Bar.Quote := f64_zero; Bar.QuoteUnit := "";
       Bar.ContractVolume := f64_zero; Bar.TradeCount := 0; Bar.LastTickMS := 0; Bar.IsFinal := true;
       Bar.Source := ""; Bar.Reason := ""; Bar.UpdatedAtMS := 0 |}.

(** The store holds an old candle of the second day; the exchange has two. *)
Definition sample_memory : BarStore := snd (Store.UpsertBars [sample_day 2 200] BarStore.empty).
Definition sample_days (_ : KlineRequest) : result go_error (list Bar) := Ok [sample_day 1 100; sample_day 2 101].

Lemma processJob_outcome_witness :
  ∃ rest job', runs (processJob sample_worker sample_job)
      (Call (UpdateCorporateActionJob (started sample_job)) None :: rest) None ∧
    updates rest = [job'] ∧ job'.(CorporateActionJob.Status) = "completed" ∧
    job_outcome sample_worker sample_job rest job' None ∧ due_job (100 * DayMS) job' = None.
Proof.
  destruct (exec (memory (5 * DayMS) sample_days) (processJob sample_worker sample_job) sample_memory)
    as [[[tr r] st]|] eqn:E; [|vm_compute in E; discriminate].
  pose proof (exec_runs _ _ _ _ _ _ E) as Hruns.
  assert (r = None) as -> by (vm_compute in E; injection E as _ <- _; reflexivity).
  assert (option_map CorporateActionJob.Status (updates tr !! 1%nat) = Some "completed") as Hs
    by (vm_compute in E; injection E as <- _; vm_compute; reflexivity).
  clear E. destruct (processJob_outcome sample_worker sample_job tr None eq_refl Hruns)
    as [(e & _ & He)|(rest & job' & -> & Hu & Hn & Ho & Hd)]; [discriminate|].
  exists rest, job'. assert (job'.(CorporateActionJob.Status) = "completed") as Hj.
  { change (updates (_ :: rest)) with (started sample_job :: updates rest) in Hs. rewrite Hu in Hs.
    simpl in Hs. by injection Hs. }
  split; [exact Hruns|]. split; [exact Hu|]. split; [exact Hj|]. split; [exact Ho|]. rewrite Hd, Hj. reflexivity.
Defined.

Lemma sample_series : series_of "okx" "BTC" F1D [sample_day 1 100; sample_day 2 101].
Proof.
  split.
  - repeat constructor.
  - intros b Hb. apply list_elem_of_In in Hb as [<-|[<-|[]]]; vm_compute; auto.
Qed.

Lemma sample_memory_wf : bars_wf sample_memory.
Proof.
  apply UpsertBars_wf; [by repeat constructor|]. split; [intros * H|intros * H|intros * H]; exfalso.
  - unfold rows in H. simpl in H. rewrite lookup_empty in H. done.
  - unfold rows in H. simpl in H. rewrite lookup_empty in H. done.
  - unfold verified_at, rows in H. simpl in H. rewrite lookup_empty in H. simpl in H. rewrite lookup_empty in H. done.
Qed.

Lemma replace_frame_restores_witness :
  ∃ tr st' report,
    exec (memory 0 sample_days) (replace_frame sample_worker sample_job F1D "forward/official"
            [sample_day 1 100; sample_day 2 101] ([], 0)) sample_memory = Some (tr, Ok ([report], 2), st') ∧
    clean report ∧ rows st'.(BarStore.bars) "okx:BTC:1D" !! (2 * DayMS) = Some (sample_day 2 101).
Proof.
  destruct (replace_frame_restores 0 sample_days sample_worker sample_job F1D "forward/official"
              [sample_day 1 100; sample_day 2 101] ([], 0) sample_memory eq_refl eq_refl sample_memory_wf sample_series)
    as (tr & st' & report & He & Hc & _ & Hrows).
  exists tr, st', report. split; [exact He|]. split; [exact Hc|]. rewrite Hrows. reflexivity.
Defined.

(** ** Detection *)

Definition inserted_job (c : call corporateE) : option CorporateActionJob :=
  match c with
  | Call e x => match e with InsertCorporateActionJob job => Some job | _ => None end
  end.
Definition inserted (tr : list (call corporateE)) : list CorporateActionJob := omap inserted_job tr.
Lemma inserted_app tr1 tr2 : inserted (tr1 ++ tr2) = inserted tr1 ++ inserted tr2.
Proof. apply omap_app. Qed.

(** Two official neighbours within two minutes of [effectiveMS] whose ratio gives
    [factor], close to the suspected one. *)
Definition confirmed_by (raw : list Bar) (effectiveMS : Z) (candidate ratio factor : float64) : Prop :=
  ∃ l1 before after l2,
    sort_by Bar.StartMS raw = l1 ++ before :: after :: l2 ∧
    i64 (after.(Bar.StartMS) - before.(Bar.StartMS)) = MinuteMS ∧
    f64_leb before.(Bar.ClosePrice) f64_zero = false ∧ f64_leb after.(Bar.OpenPrice) f64_zero = false ∧
    absDurationMS (i64 (after.(Bar.StartMS) - effectiveMS)) <= 2 * MinuteMS ∧
    ratio = f64_div after.(Bar.OpenPrice) before.(Bar.ClosePrice) ∧ SnapFactor ratio = Some factor ∧
    f64_leb (relativeDifference factor candidate) snap_tolerance = true.

Lemma findConfirmedFactor_spec bars effectiveMS candidate ratio factor :
  findConfirmedFactor bars effectiveMS candidate = Some (ratio, factor) →
  ∃ l1 before after l2,
    bars = l1 ++ before :: after :: l2 ∧
    i64 (after.(Bar.StartMS) - before.(Bar.StartMS)) = MinuteMS ∧
    f64_leb before.(Bar.ClosePrice) f64_zero = false ∧ f64_leb after.(Bar.OpenPrice) f64_zero = false ∧
    absDurationMS (i64 (after.(Bar.StartMS) - effectiveMS)) <= 2 * MinuteMS ∧
    ratio = f64_div after.(Bar.OpenPrice) before.(Bar.ClosePrice) ∧ SnapFactor ratio = Some factor ∧
    f64_leb (relativeDifference factor candidate) snap_tolerance = true.
Proof.
  induction bars as [|before [|after rest] IH]; [done|done|]. intros H.
  assert (Hnext : findConfirmedFactor (after :: rest) effectiveMS candidate = Some (ratio, factor) →
    ∃ l1 b a l2, before :: after :: rest = l1 ++ b :: a :: l2 ∧
      i64 (a.(Bar.StartMS) - b.(Bar.StartMS)) = MinuteMS ∧
      f64_leb b.(Bar.ClosePrice) f64_zero = false ∧ f64_leb a.(Bar.OpenPrice) f64_zero = false ∧
      absDurationMS (i64 (a.(Bar.StartMS) - effectiveMS)) <= 2 * MinuteMS ∧
      ratio = f64_div a.(Bar.OpenPrice) b.(Bar.ClosePrice) ∧ SnapFactor ratio = Some factor ∧
      f64_leb (relativeDifference factor candidate) snap_tolerance = true).
  { intros Hn. destruct (IH Hn) as (l1 & b & a & l2 & -> & Hrest). by exists (before :: l1), b, a, l2. }
  change (findConfirmedFactor (before :: after :: rest) effectiveMS candidate) with
    (let next := findConfirmedFactor (after :: rest) effectiveMS candidate in
     if negb (i64 (after.(Bar.StartMS) - before.(Bar.StartMS)) =? MinuteMS)
        || f64_leb before.(Bar.ClosePrice) f64_zero || f64_leb after.(Bar.OpenPrice) f64_zero then next
     else if 2 * MinuteMS <? absDurationMS (i64 (after.(Bar.StartMS) - effectiveMS)) then next
     else match SnapFactor (f64_div after.(Bar.OpenPrice) before.(Bar.ClosePrice)) with
          | Some factor => if f64_leb (relativeDifference factor candidate) snap_tolerance
                           then Some (f64_div after.(Bar.OpenPrice) before.(Bar.ClosePrice), factor) else next
          | None => next
          end) in H. cbv zeta in H.
  destruct (negb _ || _ || _) eqn:E1; [by apply Hnext|]. apply orb_false_iff in E1 as [[E1 E2]%orb_false_iff E3].
  apply negb_false_iff in E1. destruct (2 * MinuteMS <? _) eqn:E4; [by apply Hnext|]. zbool.
  destruct (SnapFactor (f64_div _ _)) as [f|] eqn:E5; [|by apply Hnext].
  destruct (f64_leb (relativeDifference f candidate) _) eqn:E6; [|by apply Hnext].
  injection H as <- <-. by exists [], before, after, rest.
Qed.

(** The exchange can adjust the symbol forward: Binance lists it (now or within
    the last six hours), the others answer a forward-adjusted request. *)
Definition forward_supported (st : Detector) (fetcher : Fetcher) (symbol : string) (tr : list (call corporateE)) : Prop :=
  if bool_decide (normalizeExchange fetcher.(Fetcher.Name) = "binance") then
    ∃ symbols, normalizeSymbol symbol ∈ symbols ∧
      (Call (ForwardAdjustmentSymbols fetcher) (Ok symbols) ∈ tr ∨
       ∃ expires now,
         st.(Detector.forwardCache) !! fetcherKey fetcher.(Fetcher.Name) fetcher.(Fetcher.MarketType)
           = Some (symbols, expires) ∧ Call Now now ∈ tr ∧ now <= expires)
  else
    ∃ request bars, request.(KlineRequest.Adjustment) = KlineAdjustmentForward ∧
      request.(KlineRequest.Symbol) = symbol ∧ Call (FetchKlines fetcher request) (Ok bars) ∈ tr.

Section detection.
Context (w : Worker).

Lemma notify_inserts n tr u : runs (notify w n) tr u → inserted tr = [].
Proof. unfold notify. case_bool; [by intros ->%runs_trigger|by intros [-> _]%runs_Ret]. Qed.

Lemma binanceForwardSupported_run fetcher symbol st tr r st' :
  runs (binanceForwardSupported fetcher symbol st) tr (r, st') →
  st'.(Detector.previous) = st.(Detector.previous) ∧ inserted tr = [] ∧
  (r = Ok true →
   ∃ symbols, normalizeSymbol symbol ∈ symbols ∧
     (Call (ForwardAdjustmentSymbols fetcher) (Ok symbols) ∈ tr ∨
      ∃ expires now,
        st.(Detector.forwardCache) !! fetcherKey fetcher.(Fetcher.Name) fetcher.(Fetcher.MarketType)
          = Some (symbols, expires) ∧ Call Now now ∈ tr ∧ now <= expires)).
Proof.
  unfold binanceForwardSupported. destruct (Fetcher.forwardProvider fetcher); simpl negb; cbv iota zeta;
    [|by intros [-> [= -> ->]]%runs_Ret].
  set (fresh := pbind (trigger (ForwardAdjustmentSymbols fetcher)) _).
  assert (Hfresh : ∀ tr, runs fresh tr (r, st') →
    st'.(Detector.previous) = st.(Detector.previous) ∧ inserted tr = [] ∧
    (r = Ok true → ∃ symbols, normalizeSymbol symbol ∈ symbols ∧
       Call (ForwardAdjustmentSymbols fetcher) (Ok symbols) ∈ tr)).
  { clear tr. intros tr H. apply runs_bind in H as (tr1 & symbols & tr2 & -> & H1 & H). apply runs_trigger in H1 as ->.
    destruct symbols as [symbols|e]; [|by apply runs_Ret in H as [-> [= -> ->]]].
    apply runs_bind in H as (tr3 & now & tr4 & -> & H1 & H). apply runs_trigger in H1 as ->.
    apply runs_Ret in H as [-> [= -> ->]]. split_and!; [done|done|]. intros [= Hin]. bprop.
    exists symbols. split; [done|in_trace]. }
  destruct (Detector.forwardCache st !! _) as [[symbols expires]|] eqn:Ec; intros H.
  - apply runs_bind in H as (tr1 & now & tr2 & -> & H1 & H). apply runs_trigger in H1 as ->.
    destruct (expires <? now) eqn:E; zbool.
    + apply Hfresh in H as (? & Hi & Hs). split_and!; [done|by rewrite inserted_app, Hi|]. intros Hr.
      destruct (Hs Hr) as (s & ? & ?). exists s. split; [done|left; set_solver].
    + apply runs_Ret in H as [-> [= -> ->]]. split_and!; [done|done|]. intros [= Hin]. bprop. exists symbols.
      split; [done|right]. exists expires, now. split_and!; [done|in_trace|lia].
  - apply Hfresh in H as (? & ? & Hs). split_and!; [done|done|]. intros Hr. destruct (Hs Hr) as (s & ? & ?). eauto.
Qed.

Lemma confirm_run fetcher previous current candidate st tr r st' :
  runs (confirm w fetcher previous current candidate st) tr (r, st') →
  st'.(Detector.previous) = st.(Detector.previous) ∧ inserted tr = [] ∧
  ∀ ratio factor, r = Ok (ratio, factor, true) →
    forward_supported st fetcher current.(Bar.Symbol) tr ∧
    ∃ request raw, request.(KlineRequest.Adjustment) = KlineAdjustmentRaw ∧
      request.(KlineRequest.Symbol) = current.(Bar.Symbol) ∧ request.(KlineRequest.Timeframe) = "1m" ∧
      Call (FetchKlines fetcher request) (Ok raw) ∈ tr ∧
      confirmed_by raw current.(Bar.StartMS) candidate ratio factor.
Proof.
  unfold confirm. cbv zeta. intros H. apply runs_bind in H as (tr1 & raw & tr2 & -> & H1 & H). apply runs_trigger in H1 as ->.
  destruct raw as [raw|e]; [|by apply runs_Ret in H as [-> [= -> ->]]].
  destruct (findConfirmedFactor _ _ _) as [[ratio0 factor0]|] eqn:Ef; [|by apply runs_Ret in H as [-> [= -> ->]]].
  apply findConfirmedFactor_spec in Ef.
  assert (Hraw : ∀ tail, ∃ request raw', request.(KlineRequest.Adjustment) = KlineAdjustmentRaw ∧
      request.(KlineRequest.Symbol) = current.(Bar.Symbol) ∧ request.(KlineRequest.Timeframe) = "1m" ∧
      Call (FetchKlines fetcher request) (Ok raw') ∈ [Call (FetchKlines fetcher
           (KlineRequest.mk current.(Bar.Symbol) "1m"
              (i64 (previous.(Bar.StartMS) - Z.quot w.(Worker.cfg).(Config.ConfirmationWindow) 1000000))
              (i64 (current.(Bar.StartMS) + Z.quot w.(Worker.cfg).(Config.ConfirmationWindow) 1000000)) 20
              KlineAdjustmentRaw 0)) (Ok raw)] ++ tail ∧
      confirmed_by raw' current.(Bar.StartMS) candidate ratio0 factor0).
  { intros tail. eexists _, raw. split_and!; [| | |in_trace|exact Ef]; reflexivity. }
  unfold forward_supported. destruct (bool_decide (normalizeExchange (Fetcher.Name fetcher) = "binance")).
  - apply runs_bind in H as (tr3 & [supported st1] & tr4 & -> & H1 & H). apply runs_Ret in H as [-> [= -> ->]].
    apply binanceForwardSupported_run in H1 as (Hp & Hi & Hs). split_and!; [done|by rewrite !inserted_app, Hi|].
    intros ratio factor Hr. destruct supported as [b|e]; [|done]. injection Hr as <- <- ->. split; [|apply Hraw].
    destruct (Hs eq_refl) as (symbols & Hin & [?|(ex' & now & ? & ? & ?)]); exists symbols; (split; [done|]);
      [left; set_solver|right; exists ex', now; split_and!; [done|set_solver|done]].
  - apply runs_bind in H as (tr3 & forward & tr4 & -> & H1 & H). apply runs_trigger in H1 as ->.
    apply runs_Ret in H as [-> [= -> ->]]. split_and!; [done|done|].
    intros ratio factor Hr. destruct forward as [bars|e]; [|by destruct (errors_Is _ _)]. injection Hr as <- <-.
    split; [|apply Hraw]. eexists _, bars. split; [|split; [|in_trace]]; reflexivity.
Qed.
End detection.

Lemma symbolFetcher_inserts w ex symbol : each (λ tr, inserted tr = []) (symbolFetcher w ex symbol).
Proof.
  intros tr r H. unfold symbolFetcher in H. apply runs_bind in H as (tr1 & s & tr2 & -> & H1 & H).
  apply runs_trigger in H1 as ->. by apply runs_Ret in H as [-> _].
Qed.

Lemma insert_new_run w title job tr r :
  runs (insert_new w title job) tr r →
  inserted tr = [] ∨
  (inserted tr = [job] ∧
   Call (LoadCorporateActionJob job.(CorporateActionJob.Exchange) job.(CorporateActionJob.Symbol)
           job.(CorporateActionJob.EffectiveMS)) (Ok None) ∈ tr).
Proof.
  unfold insert_new. intros H. apply runs_bind in H as (tr1 & existing & tr2 & -> & H1 & H). apply runs_trigger in H1 as ->.
  destruct existing as [[j|]|e]; [left; by apply runs_Ret in H as [-> _]| |left; by apply runs_Ret in H as [-> _]].
  apply runs_bind in H as (tr3 & err & tr4 & -> & H1 & H). apply runs_trigger in H1 as ->. right.
  split; [|in_trace]. destruct err as [e|]; [by apply runs_Ret in H as [-> _]|].
  apply runs_bind in H as (tr5 & u & tr6 & -> & Hn & H). apply notify_inserts in Hn. apply runs_Ret in H as [-> _].
  by rewrite !inserted_app, Hn.
Qed.

(** What a queued job rests on. *)
Record detected (st : Detector) (bar previous : Bar) (f0 : float64) (tr : list (call corporateE))
    (job : CorporateActionJob) : Prop := {
  de_fetcher : ∃ fetcher request raw,
    request.(KlineRequest.Adjustment) = KlineAdjustmentRaw ∧ request.(KlineRequest.Symbol) = bar.(Bar.Symbol) ∧
    request.(KlineRequest.Timeframe) = "1m" ∧ Call (FetchKlines fetcher request) (Ok raw) ∈ tr ∧
    confirmed_by raw bar.(Bar.StartMS) f0 job.(CorporateActionJob.ObservedRatio) job.(CorporateActionJob.Factor) ∧
    forward_supported st fetcher bar.(Bar.Symbol) tr;
  de_new : Call (LoadCorporateActionJob bar.(Bar.Exchange) bar.(Bar.Symbol) bar.(Bar.StartMS)) (Ok None) ∈ tr;
  de_symbol : job.(CorporateActionJob.Exchange) = bar.(Bar.Exchange) ∧ job.(CorporateActionJob.Symbol) = bar.(Bar.Symbol);
  de_effective : job.(CorporateActionJob.EffectiveMS) = bar.(Bar.StartMS);
  de_pending : job.(CorporateActionJob.Status) = "pending" ∧ job.(CorporateActionJob.Attempts) = 0;
}.

Lemma forward_supported_within st fetcher symbol part tr :
  within part tr → forward_supported st fetcher symbol part → forward_supported st fetcher symbol tr.
Proof.
  intros (pre & post & ->). unfold forward_supported. case_bool.
  - intros (symbols & ? & [?|(ex & now & ? & ? & ?)]); exists symbols; (split; [done|]);
      [left; set_solver|right; exists ex, now; split_and!; [done|set_solver|done]].
  - intros (request & bars & ? & ? & ?). exists request, bars. split_and!; [done|done|set_solver].
Qed.

Lemma handle_suspected_run w bar previous ratio0 f0 st tr r st' :
  runs (handle_suspected w bar previous ratio0 f0 st) tr (r, st') →
  st'.(Detector.previous) = st.(Detector.previous) ∧
  (inserted tr = [] ∨ ∃ job, inserted tr = [job] ∧ detected st bar previous f0 tr job).
Proof.
  unfold handle_suspected. intros H. apply runs_bind in H as (tr1 & found & tr2 & -> & H1 & H).
  apply symbolFetcher_inserts in H1. destruct found as [[marketType [fetcher|]]|e];
    [|apply runs_Ret in H as [-> [= -> ->]]; by rewrite app_nil_r; auto..].
  apply runs_bind in H as (tr3 & created & tr4 & -> & H2 & H). apply runs_trigger in H2 as ->.
  apply runs_bind in H as (tr5 & upd & tr6 & -> & H2 & H). apply runs_trigger in H2 as ->. cbv zeta in H.
  apply runs_bind in H as (tr7 & u & tr8 & -> & Hn & H). apply notify_inserts in Hn.
  apply runs_bind in H as (tr9 & [confirmed st1] & tr10 & -> & Hc & H). apply confirm_run in Hc as (Hp & Hi & Hc).
  assert (Hins : ∀ tail, inserted (tr1 ++ [Call Now created] ++ [Call Now upd] ++ tr7 ++ tr9 ++ tail) = inserted tail)
    by (intros tail; by rewrite !inserted_app, H1, Hn, Hi).
  destruct confirmed as [[[ratio factor] [|]]|e].
  - apply runs_bind in H as (tr11 & err & tr12 & -> & H2 & H). apply runs_Ret in H as [-> [= -> ->]].
    split; [done|]. rewrite app_nil_r, Hins. apply insert_new_run in H2 as [Hno|[Hyes Hload]]; [by left|right].
    eexists. split; [exact Hyes|]. destruct (Hc _ _ eq_refl) as (Hf & request & raw & Ha & Hs & Ht & Hr & Hby).
    split; simpl; [|set_solver|done|done|done].
    exists fetcher, request, raw. split_and!; [done|done|done|set_solver|done|].
    eapply forward_supported_within; [|exact Hf]. auto 10.
  - apply runs_bind in H as (tr11 & u' & tr12 & -> & Hn' & H). apply notify_inserts in Hn'.
    apply runs_Ret in H as [-> [= -> ->]]. split; [done|left]. by rewrite app_nil_r, Hins.
  - apply runs_bind in H as (tr11 & u' & tr12 & -> & Hn' & H). apply notify_inserts in Hn'.
    apply runs_Ret in H as [-> [= -> ->]]. split; [done|left]. by rewrite app_nil_r, Hins.
Qed.

(** a corporate action is only queued on official evidence.  A final minute
    always becomes the last candle of its symbol; it queues at most one job, and
    only if the candle before it was exactly a minute older, their ratio snaps to
    a factor, the exchange's raw minutes show two neighbours within two minutes
    whose ratio snaps to a factor within 8% of it (the factor of the job), the
    exchange can adjust the symbol forward, and no job was known for that time. *)
Theorem detection_confirmed w bar st tr r st' :
  runs (handleFinalBar w bar st) tr (r, st') →
  let bar := normalized bar in
  let key := (bar.(Bar.Exchange) ++ ":" ++ bar.(Bar.Symbol))%string in
  st'.(Detector.previous) = <[key := bar]> st.(Detector.previous) ∧
  (inserted tr = [] ∨
   ∃ previous f0 job,
     inserted tr = [job] ∧ st.(Detector.previous) !! key = Some previous ∧
     i64 (previous.(Bar.StartMS) + MinuteMS) = bar.(Bar.StartMS) ∧
     SnapFactor (f64_div bar.(Bar.OpenPrice) previous.(Bar.ClosePrice)) = Some f0 ∧
     detected st bar previous f0 tr job).
Proof.
  unfold handleFinalBar. cbv zeta. set (bar' := normalized bar). intros H.
  set (key := (bar'.(Bar.Exchange) ++ ":" ++ bar'.(Bar.Symbol))%string) in *.
  set (st0 := Detector.mk _ _) in H.
  destruct (suspicious (st.(Detector.previous) !! key) bar') as [[[previous ratio0] f0]|] eqn:Es.
  - apply handle_suspected_run in H as [-> [Hno|(job & Hyes & Hd)]]; (split; [done|]); [by left|right].
    unfold suspicious in Es. destruct (Detector.previous st !! key) as [p|] eqn:Ep; [|done].
    destruct (negb _ || _ || _) eqn:E1; [done|]. apply orb_false_iff in E1 as [[E1 _]%orb_false_iff _].
    apply negb_false_iff in E1. zbool. destruct (SnapFactor _) as [f|] eqn:Ef; [|done]. injection Es as -> <- ->.
    exists previous, f0, job. split_and!; [done|done|done|done|]. by destruct Hd.
  - apply runs_Ret in H as [-> [= -> ->]]. split; [done|by left].
Qed.

Definition sample_minute (k open close : Z) : Bar :=
  Bar.mk "okx" "BTC" "" "1m" (k * 60000) (k * 60000 + 59999) 0 0 (f64_of_Z open) (f64_of_Z open) (f64_of_Z close)
    (f64_of_Z close) f64_zero f64_zero f64_zero f64_zero f64_zero f64_zero f64_zero f64_zero "" f64_zero f64_zero ""
    f64_zero 1 0 true "" "" 0.

Definition detection_answers : handler corporateE unit := fun X e _ =>
  match e in corporateE X return option (X * unit) with
  | Now => Some (7, tt)
  | ListSymbols _ => Some (Ok [], tt)
  | FetchKlines _ request =>
      Some (Ok [sample_minute 1000 51 50; sample_minute 999 101 100], tt)
  | LoadCorporateActionJob _ _ _ => Some (Ok None, tt)
  | InsertCorporateActionJob _ => Some (None, tt)
  | Notify _ => Some (tt, tt)
  | _ => None
  end.

(** A two-for-one split at minute 1000. *)
Lemma detection_confirmed_witness :
  ∃ tr r st' job, runs (handleFinalBar sample_worker (sample_minute 1000 50 50)
         (Detector.mk {["okx:BTC" := sample_minute 999 100 100]} ∅)) tr (r, st') ∧
    inserted tr = [job] ∧
    detected (Detector.mk {["okx:BTC" := sample_minute 999 100 100]} ∅) (normalized (sample_minute 1000 50 50))
      (sample_minute 999 100 100) (f64_of_Q 1 2) tr job.
Proof.
  set (st := Detector.mk {["okx:BTC" := sample_minute 999 100 100]} ∅).
  destruct (exec detection_answers (handleFinalBar sample_worker (sample_minute 1000 50 50) st) tt)
    as [[[tr [r st']] u]|] eqn:E; [|vm_compute in E; discriminate].
  pose proof (exec_runs _ _ _ _ _ _ E) as Hruns.
  assert (length (inserted tr) = 1%nat) as Hl by (vm_compute in E; injection E as <- _ _ _; reflexivity).
  destruct (detection_confirmed sample_worker (sample_minute 1000 50 50) st tr r st' Hruns)
    as [_ [Hno|(previous & f0 & job & Hi & Hp & _ & Hf & Hd)]]; [rewrite Hno in Hl; discriminate|].
  exists tr, r, st', job. split; [exact Hruns|]. split; [exact Hi|].
  assert (previous = sample_minute 999 100 100) as -> by (vm_compute in Hp; injection Hp as <-; reflexivity).
  assert (f0 = f64_of_Q 1 2) as -> by (vm_compute in Hf; injection Hf as <-; reflexivity).
  exact Hd.
Defined.

(** ** Snapping *)

Lemma closer_fold magnitude l c done_ :
  (∀ x, x ∈ done_ → f64_ltb (relativeDifference magnitude x) (relativeDifference magnitude c) = false) →
  ∃ c', foldl (closer magnitude) (c, relativeDifference magnitude c) l = (c', relativeDifference magnitude c') ∧
    c' ∈ c :: l ∧
    ∀ x, x ∈ done_ ++ l → f64_ltb (relativeDifference magnitude x) (relativeDifference magnitude c') = false.
Proof.
  revert c done_. induction l as [|y l IH]; intros c done_ Hd; simpl.
  { exists c. rewrite app_nil_r. split; [done|]. split; [by left|done]. }
  unfold closer at 2. simpl. destruct (f64_ltb (relativeDifference magnitude y) (relativeDifference magnitude c)) eqn:E.
  - destruct (IH y (done_ ++ [y])) as (c' & -> & Hin & Hall).
    { intros x [Hx| ->%list_elem_of_singleton]%elem_of_app; [|apply f64_ltb_irrefl].
      destruct (f64_ltb (relativeDifference magnitude x) (relativeDifference magnitude y)) eqn:Ex; [|done].
      rewrite <- (Hd x Hx). symmetry. by eapply f64_ltb_trans. }
    exists c'. split; [done|]. split; [set_solver|]. by rewrite <- app_assoc in Hall.
  - destruct (IH c (done_ ++ [y])) as (c' & -> & Hin & Hall).
    { intros x [Hx| ->%list_elem_of_singleton]%elem_of_app; [by apply Hd|done]. }
    exists c'. split; [done|]. split; [set_solver|]. by rewrite <- app_assoc in Hall.
Qed.

(** a ratio snaps to the nearest common split factor or not at all: the factor
    is one of the eleven (or its reciprocal for a ratio below one), no other is
    relatively closer, it is within 8%, and a ratio (or its reciprocal) below
    1.75 never snaps. *)
Theorem SnapFactor_nearest r f :
  SnapFactor r = Some f →
  let magnitude := if f64_ltb r f64_one then f64_div f64_one r else r in
  f64_leb r f64_zero = false ∧ f64_ltb magnitude snap_minimum = false ∧
  ∃ c, c ∈ common ∧ f = (if f64_ltb r f64_one then f64_div f64_one c else c) ∧
    f64_gtb (relativeDifference magnitude c) snap_tolerance = false ∧
    ∀ c', c' ∈ common → f64_ltb (relativeDifference magnitude c') (relativeDifference magnitude c) = false.
Proof.
  unfold SnapFactor. cbv zeta. destruct (f64_leb r f64_zero) eqn:E0; [done|].
  set (magnitude := if f64_ltb r f64_one then _ else _). destruct (f64_ltb magnitude snap_minimum) eqn:Em; [done|].
  unfold nearest_factor. destruct (closer_fold magnitude (tl common) (hd f64_zero common) [hd f64_zero common])
    as (c & -> & Hin & Hall).
  { intros x ->%list_elem_of_singleton. apply f64_ltb_irrefl. }
  destruct (f64_gtb (relativeDifference magnitude c) snap_tolerance) eqn:Et; [done|]. intros H.
  split; [done|]. split; [done|]. exists c. split; [exact Hin|]. split; [by destruct (f64_ltb r f64_one); injection H as <-|].
  split; [done|exact Hall].
Qed.

Example SnapFactor_nearest_witness :
  SnapFactor (f64_of_Q 51 100) = Some (f64_of_Q 1 2) ∧
  f64_ltb (f64_div f64_one (f64_of_Q 51 100)) snap_minimum = false.
Proof.
  assert (SnapFactor (f64_of_Q 51 100) = Some (f64_of_Q 1 2)) as H by (vm_compute; reflexivity).
  split; [exact H|]. exact (proj1 (proj2 (SnapFactor_nearest (f64_of_Q 51 100) (f64_of_Q 1 2) H))).
Defined.
