(* ===== verification/BackfillOptions.v ===== *)
(** * The options of backfill_klines (cmd/backfill_klines/main.go)

    What the command line says once the flag package has read it ([Flags]), the
    checks of [parseOptions], the times it accepts, and the adapters it makes. *)

From S2P Require Export RestKline Settings.
From Stdlib Require Import Ascii.

Local Open Scope string_scope.
Local Open Scope Z_scope.
Local Open Scope list_scope.

(** ** Lists *)

(** A list without the items whose key was seen before. *)
Fixpoint first_of_key (key : string → string) (seen : gset string) (items : list string) : list string :=
  match items with
  | [] => []
  | item :: rest =>
      if bool_decide (key item ∈ seen) then first_of_key key seen rest
      else item :: first_of_key key ({[key item]} ∪ seen) rest
  end.

(** The items between commas, trimmed, without the empty ones. *)
Definition csv_items (raw : string) : list string :=
  List.filter (fun item => negb (bool_decide (item = ""))) (TrimSpace <$> split_on ","%char raw).

Definition normalizeCSV (raw : string) : list string := first_of_key ToLower ∅ (csv_items raw).
Definition normalizeTimeframeCSV (raw : string) : list string := first_of_key id ∅ (csv_items raw).
Definition normalizeSymbolSet (raw : string) : gset string := list_to_set (ToUpper <$> normalizeCSV raw).
Definition normalizeLowerSet (raw : string) : gset string :=
  list_to_set ((fun item => ToLower (TrimSpace item)) <$> normalizeCSV raw).

Definition enabledExchangeCSV (configs : list ExchangeConfig) : string :=
  String.concat "," (ExchangeConfig.Name <$> List.filter ExchangeConfig.Enabled configs).

(** ** [time.ParseInLocation] of the three layouts, in UTC

    A parser takes bytes and gives a value and what follows it. *)

Definition digit (b : Z) : option Z := if is_digit b then Some (b - 48) else None.

Definition expect (c : Z) (s : list Z) : option (list Z) :=
  match s with b :: s => if b =? c then Some s else None | [] => None end.

(** [getnum]: two digits, or one when the field is not [fixed]. *)
Definition getnum (fixed : bool) (s : list Z) : option (Z * list Z) :=
  match s with
  | a :: s' =>
      x ← digit a;
      match s' with
      | b :: s'' =>
          match digit b with
          | Some y => Some (10 * x + y, s'')
          | None => if fixed then None else Some (x, s')
          end
      | [] => if fixed then None else Some (x, s')
      end
  | [] => None
  end.

Definition pthen {A B} (r : option (A * list Z)) (k : A → list Z → option B) : option B :=
  match r with Some (x, s) => k x s | None => None end.
Definition pkeep {B} (r : option (list Z)) (k : list Z → option B) : option B :=
  match r with Some s => k s | None => None end.
(** [pthen] goes on with the value and the rest, [pkeep] with the rest. *)
Local Infix ">>>" := pthen (at level 60, right associativity).
Local Infix ">>" := pkeep (at level 60, right associativity).

Definition within_num (lo hi : Z) (r : option (Z * list Z)) : option (Z * list Z) :=
  r >>> λ n s, if (lo <=? n) && (n <=? hi) then Some (n, s) else None.

Definition four_year (s : list Z) : option (Z * list Z) :=
  match s with
  | a :: b :: c :: d :: s =>
      if forallb is_digit [a; b; c; d] then Some (digits_value [a - 48; b - 48; c - 48; d - 48], s) else None
  | _ => None
  end.

(** Year, month and day; the day is checked at the end. *)
Definition parse_date (s : list Z) : option (Z * Z * Z * list Z) :=
  four_year s >>> λ y s, expect 45 s >> λ s,
  within_num 1 12 (getnum true s) >>> λ m s, expect 45 s >> λ s,
  getnum true s >>> λ d s, Some ((y, m, d), s).

(** A fraction after the seconds, in whole milliseconds of up to nine digits. *)
Definition take_fraction (s : list Z) : Z * list Z :=
  match s with
  | sep :: ((d :: _) as rest) =>
      if ((sep =? 46) || (sep =? 44)) && is_digit d then
        let '(ds, tail) := span_digits rest in
        let ds := take 9 ds in
        (digits_value ds * 10 ^ (9 - Z.of_nat (length ds)) / 1000000, tail)
      else (0, s)
  | _ => (0, s)
  end.

(** The time of day in milliseconds. *)
Definition parse_clock (s : list Z) : option (Z * list Z) :=
  within_num 0 23 (getnum false s) >>> λ h s, expect 58 s >> λ s,
  within_num 0 59 (getnum true s) >>> λ mi s, expect 58 s >> λ s,
  within_num 0 59 (getnum true s) >>> λ sec s,
  let '(ms, s) := take_fraction s in Some (((h * 60 + mi) * 60 + sec) * 1000 + ms, s).

(** [Z07:00]: the offset in milliseconds. *)
Definition parse_zone (s : list Z) : option (Z * list Z) :=
  match s with
  | [] => None
  | b :: s' =>
      if b =? 90 then Some (0, s')
      else
        within_num 0 24 (getnum true s') >>> λ hr s, expect 58 s >> λ s,
        within_num 0 60 (getnum true s) >>> λ mm s,
        let offset := (hr * 60 + mm) * 60000 in
        if b =? 43 then Some (offset, s) else if b =? 45 then Some (- offset, s) else None
  end.

(** A blank of a layout stands for any number of blanks. *)
Fixpoint cut_spaces (s : list Z) : list Z :=
  match s with b :: s' => if b =? 32 then cut_spaces s' else s | [] => [] end.

(** The instant, when nothing is left over and the month has the day. *)
Definition finish_time (date : Z * Z * Z) (clock : Z) (rest : list Z) : option Z :=
  let '(y, m, d) := date in
  if bool_decide (rest = []) && (1 <=? d) && (Date y m d 0 <? AddDate (Date y m 1 0) 0 1 0)
  then Some (UnixMilli (Date y m d clock)) else None.

Definition parse_RFC3339 (s : list Z) : option Z :=
  parse_date s >>> λ date s, expect 84 s >> λ s, parse_clock s >>> λ clock s, parse_zone s >>> λ offset s,
  finish_time date (clock - offset) s.
Definition parse_datetime (s : list Z) : option Z :=
  parse_date s >>> λ date s,
  if bool_decide (s = cut_spaces s) then None
  else parse_clock (cut_spaces s) >>> λ clock s, finish_time date clock s.
Definition parse_day (s : list Z) : option Z := parse_date s >>> λ date s, finish_time date 0 s.

Definition parseTimeMS (raw : string) : result go_error Z :=
  let value := TrimSpace raw in
  if bool_decide (value = "") then Ok 0
  else
    match Atoi value with
    | Some parsed => Ok parsed
    | None =>
        let s := string_bytes value in
        match parse_RFC3339 s, parse_datetime s, parse_day s with
        | Some ms, _, _ => Ok ms
        | None, Some ms, _ => Ok ms
        | None, None, Some ms => Ok ms
        | None, None, None => Err (Errorf "unsupported time format %q")
        end
    end.

(** ** Options *)

Module Flags.
Record Flags : Type := mk {
  exchanges : string; marketTypes : string; symbols : string; timeframes : string; explicitTimeframes : bool;
  limit : Z; start : string; end_ : string; adjustment : string; batchSize : Z; requestDelayMS : Z; backfill : bool;
  replaceExisting : bool; respectRetention : bool; clearRedis : bool; clearLive : bool; clearAllBars : bool;
  clearAllRedis : bool; refreshSymbols : bool; continueOnErr : bool; dryRun : bool; redisScanCount : Z }.
End Flags.
Notation Flags := Flags.Flags.

(** Nothing given on the command line. *)
Definition default_flags (cfg : Settings.Config) : Flags :=
  {| Flags.exchanges := enabledExchangeCSV cfg.(Config.Exchanges); Flags.marketTypes := ""; Flags.symbols := "";
     Flags.timeframes := String.concat "," (frame_name <$> cfg.(Config.Timeframes)); Flags.explicitTimeframes := false;
     Flags.limit := cfg.(Config.RecentCacheLimit); Flags.start := ""; Flags.end_ := "";
     Flags.adjustment := KlineAdjustmentAuto; Flags.batchSize := 500; Flags.requestDelayMS := 100; Flags.backfill := true;
     Flags.replaceExisting := true; Flags.respectRetention := true; Flags.clearRedis := true; Flags.clearLive := true;
     Flags.clearAllBars := false; Flags.clearAllRedis := false; Flags.refreshSymbols := false;
     Flags.continueOnErr := false; Flags.dryRun := false; Flags.redisScanCount := 500 |}.

(** Timeframes are normalised names, durations nanoseconds. *)
Module runOptions.
Record runOptions : Type := mk {
  exchanges : list string; marketTypes : gset string; symbols : gset string; timeframes : list Frame; limit : Z;
  startMS : Z; endMS : Z; batchSize : Z; requestDelay : Z; backfill : bool; clearRedis : bool; clearLive : bool;
  clearAllBars : bool; clearAllRedis : bool; refreshSymbols : bool; continueOnErr : bool; dryRun : bool;
  redisScanCount : Z; adjustment : string; replaceExisting : bool; respectRetention : bool }.
End runOptions.
Notation runOptions := runOptions.runOptions.

(** The loop over the timeframes: a disabled one is an error only when it was asked
    for. *)
Fixpoint option_frames (exchanges : string) (explicit : bool) (frames : list string) : result go_error (list Frame) :=
  match frames with
  | [] => Ok []
  | tf :: rest =>
      match Normalize tf with
      | Err e => Err (tf_go_error e)
      | Ok f =>
          match ValidateForExchange exchanges (frame_name f) with
          | Err e =>
              if negb explicit && errors_Is (tf_go_error e) ErrDisabledTimeframe
              then option_frames exchanges explicit rest else Err (tf_go_error e)
          | Ok f =>
              match option_frames exchanges explicit rest with Err e => Err e | Ok fs => Ok (f :: fs) end
          end
      end
  end.

(** [if strings.TrimSpace(raw) != "" { ms, err = parseTimeMS(raw) }]. *)
Definition option_time (what raw : string) : result go_error Z :=
  if bool_decide (TrimSpace raw = "") then Ok 0
  else match parseTimeMS raw with Ok ms => Ok ms | Err e => Err (Wrapf what e) end.

Definition parseOptions (flags : Flags) : result go_error runOptions :=
  let exchanges := normalizeCSV flags.(Flags.exchanges) in
  if bool_decide (exchanges = []) then Err (Errorf "at least one exchange is required")
  else
    let frames := normalizeTimeframeCSV flags.(Flags.timeframes) in
    if bool_decide (frames = []) then Err (Errorf "at least one timeframe is required")
    else
      match option_frames (String.concat "," exchanges) flags.(Flags.explicitTimeframes) frames with
      | Err e => Err e
      | Ok [] => Err (Errorf "at least one enabled timeframe is required")
      | Ok frames =>
          match ParseKlineAdjustment flags.(Flags.adjustment), option_time "parse -start: %w" flags.(Flags.start),
                option_time "parse -end: %w" flags.(Flags.end_) with
          | Err e, _, _ => Err e
          | Ok _, Err e, _ => Err e
          | Ok _, Ok _, Err e => Err e
          | Ok adjustment, Ok startMS, Ok endMS =>
              if (0 <? startMS) && (0 <? endMS) && (endMS <? startMS) then Err (Errorf "-start must be <= -end")
              else if (flags.(Flags.limit) <=? 0) && (startMS =? 0)
              then Err (Errorf "-limit=0 requires -start to avoid unbounded latest backfill")
              else
                let requestDelayMS := if flags.(Flags.requestDelayMS) <? 0 then 0 else flags.(Flags.requestDelayMS) in
                Ok (runOptions.mk exchanges (normalizeLowerSet flags.(Flags.marketTypes))
                      (normalizeSymbolSet flags.(Flags.symbols)) frames flags.(Flags.limit) startMS endMS
                      (if flags.(Flags.batchSize) <=? 0 then 500 else flags.(Flags.batchSize))
                      (i64 (requestDelayMS * 1000000)) flags.(Flags.backfill) flags.(Flags.clearRedis)
                      flags.(Flags.clearLive) flags.(Flags.clearAllBars) flags.(Flags.clearAllRedis)
                      flags.(Flags.refreshSymbols) flags.(Flags.continueOnErr) flags.(Flags.dryRun)
                      flags.(Flags.redisScanCount) adjustment flags.(Flags.replaceExisting) flags.(Flags.respectRetention))
          end
      end.

(** ** Adapters *)

Inductive restAdapter : Type :=
| Binance (a : BinanceFuturesAdapter)
| OKX (a : OKXAdapter).

Definition adapter_name (a : restAdapter) : string := match a with Binance _ => binance_name | OKX _ => okx_name end.

Module exchangeRuntime.
Record exchangeRuntime : Type := mk { config : ExchangeConfig; adapter : restAdapter }.
End exchangeRuntime.
Notation exchangeRuntime := exchangeRuntime.exchangeRuntime.

Definition make_runtime (selectedSet selectedMarketTypes : gset string) (cfg : ExchangeConfig) : option exchangeRuntime :=
  let name := ToLower (TrimSpace cfg.(ExchangeConfig.Name)) in
  let marketType := ToLower (TrimSpace cfg.(ExchangeConfig.MarketType)) in
  let restURL := cfg.(ExchangeConfig.RestURL) in
  let wsURL := cfg.(ExchangeConfig.WSURL) in
  if negb cfg.(ExchangeConfig.Enabled) || negb (bool_decide (name ∈ selectedSet)) then None
  else if negb (bool_decide (selectedMarketTypes = ∅)) && negb (bool_decide (marketType ∈ selectedMarketTypes)) then None
  else if bool_decide (name = "binance")
  then Some (exchangeRuntime.mk cfg (Binance (NewBinanceFuturesAdapter cfg.(ExchangeConfig.MarketType) restURL wsURL)))
  else if bool_decide (name = "okx") then Some (exchangeRuntime.mk cfg (OKX (NewOKXAdapter cfg.(ExchangeConfig.MarketType) restURL wsURL)))
  else None.

Definition makeExchangeRuntimes (configs : list ExchangeConfig) (selected : list string)
    (selectedMarketTypes : gset string) : list exchangeRuntime :=
  omap (make_runtime (list_to_set (ToLower <$> selected)) selectedMarketTypes) configs.

(** ** What the options guarantee *)

(** A backfill never asks for everything: a limit or a start is set; and its batches
    hold at least one candle. *)
Lemma options_bounded flags o : parseOptions flags = Ok o →
  (0 < o.(runOptions.limit) ∨ o.(runOptions.startMS) ≠ 0) ∧ 0 < o.(runOptions.batchSize) ∧
  o.(runOptions.timeframes) ≠ [] ∧ o.(runOptions.exchanges) ≠ [] ∧
  (0 < o.(runOptions.startMS) → 0 < o.(runOptions.endMS) → o.(runOptions.startMS) <= o.(runOptions.endMS)).
Proof.
  unfold parseOptions. intros H. repeat (case_match; simplify_eq); bprop;
    cbn [runOptions.limit runOptions.startMS runOptions.batchSize runOptions.timeframes runOptions.exchanges runOptions.endMS];
    repeat match goal with H : (_ && _) = false |- _ => apply andb_false_iff in H end;
    (split_and!; [intuition (zbool; lia)|zbool; lia|done|done|intuition (zbool; lia)]).
Qed.

Example times_read :
  (parseTimeMS " 1700000000000 ", parseTimeMS "2026-01-01", parseTimeMS "2026-01-01T08:00:00.5+08:00",
   parseTimeMS "2026-02-29", parseTimeMS "2026-01-01 1:02:03")
  = (Ok 1700000000000, Ok 1767225600000, Ok 1767225600500, Err (Errorf "unsupported time format %q"), Ok 1767229323000).
Proof. vm_compute. reflexivity. Qed.
