(* ===== verification/Backfill.v ===== *)
(** * The history backfill (cmd/backfill_klines/main.go)

    For every symbol and timeframe the command fetches candles from the exchange,
    makes their prices comparable across splits, and replaces the stored candles of
    the fetched range.  A function is a program over the calls it makes; the log is
    left out.  A clock reading is a number of milliseconds. *)

From S2P Require Export Corporate BackfillOptions.

Local Open Scope string_scope.
Local Open Scope Z_scope.
Local Open Scope list_scope.

Module corporateAction.
Record corporateAction : Type := mk { EffectiveMS : Z; ObservedRatio : float64; AppliedMultiplier : float64 }.
End corporateAction.
Notation corporateAction := corporateAction.corporateAction.

(** ** Calls *)

Inductive backfillE : Type → Type :=
| Now : backfillE Z
| Wait (delay : Z) : backfillE (option go_error)
| FetchKlines (a : restAdapter) (request : KlineRequest) : backfillE (result go_error (list Bar))
| FetchContinuousKlines (a : restAdapter) (request : KlineRequest) : backfillE (result go_error (list Bar))
| ForwardAdjustmentSymbols (a : restAdapter) : backfillE (result go_error (gset string))
| FetchSymbols (a : restAdapter) : backfillE (result go_error (list SymbolInfo))
| UpsertSymbols (infos : list SymbolInfo) : backfillE (option go_error)
| ListActiveSymbols (exchange : string) : backfillE (result go_error (list SymbolInfo))
| BarsInRange (exchange symbol tf : string) (startMS endMS : Z) : backfillE (result go_error (list Bar))
| UpsertBars (bars : list Bar) : backfillE (option go_error)
| DeleteBarsInRange (exchange symbol tf : string) (startMS endMS : Z) : backfillE (result go_error Z)
| ClearBars : backfillE (result go_error Z)
| ClearKlineCache (series : option (string * string * string)) (includeLive : bool) (scanCount : Z)
    : backfillE (result go_error Z).

Notation bprog := (prog backfillE).

Local Open Scope prog_scope.

(** Binance has both; the interfaces are optional. *)
Definition is_binance (a : restAdapter) : bool := match a with Binance _ => true | OKX _ => false end.

(** The fetcher of a symbol: the adapter, or its continuous candles. *)
Inductive klineSource : Type :=
| Direct (a : restAdapter)
| Continuous (a : restAdapter).

Definition source_name (s : klineSource) : string :=
  match s with Direct a => adapter_name a | Continuous a => (adapter_name a ++ "-continuous")%string end.

(** [continuousBackfillFetcher.FetchKlines] marks the candles it passes on. *)
Definition mark_continuous (bar : Bar) : Bar :=
  Bar.set_Reason "binance_tradifi_continuous_kline" (Bar.set_Source "rest_forward_adjusted" bar).

Definition source_FetchKlines (s : klineSource) (request : KlineRequest) : bprog (result go_error (list Bar)) :=
  match s with
  | Direct a => trigger (FetchKlines a request)
  | Continuous a =>
      bars <- trigger (FetchContinuousKlines a request) ;;
      Ret (match bars with Ok bars => Ok (mark_continuous <$> (bars : list Bar)) | Err e => Err e end)
  end.

(** ** Symbols *)

Definition selected_symbol (marketType : string) (filter : gset string) (info : SymbolInfo) : option string :=
  let symbol := ToUpper (TrimSpace info.(SymbolInfo.Symbol)) in
  if negb info.(SymbolInfo.IsActive)
     || (negb (bool_decide (marketType = ""))
         && negb (EqualFold (TrimSpace info.(SymbolInfo.MarketType)) (TrimSpace marketType)))
     || (negb (bool_decide (filter = ∅)) && negb (bool_decide (symbol ∈ filter)))
     || bool_decide (symbol = "")
  then None else Some symbol.

Definition refreshed_symbols (a : restAdapter) : bprog (result go_error (list SymbolInfo)) :=
  infos <- trigger (FetchSymbols a) ;;
  match infos with
  | Err e => Ret (Err e)
  | Ok infos =>
      err <- trigger (UpsertSymbols infos) ;;
      Ret (match err with Some e => Err e | None => Ok infos end)
  end.

Definition loadSymbols (a : restAdapter) (exchangeName marketType : string) (filter : gset string) (refresh : bool)
    : bprog (result go_error (list string)) :=
  infos <-
    (if refresh then refreshed_symbols a
     else
       infos <- trigger (ListActiveSymbols exchangeName) ;;
       match infos with
       | Ok [] => refreshed_symbols a
       | _ => Ret infos
       end) ;;
  Ret (match infos with
       | Err e => Err e
       | Ok infos =>
           let symbols := omap (selected_symbol marketType filter) infos in
           let symbols :=
             if negb (bool_decide (filter = ∅)) && bool_decide (symbols = []) && bool_decide (infos = [])
             then elements filter else symbols in
           Ok (sort_strings symbols)
       end).

(** ** Ranges *)

Definition retainedRequest (tf : Frame) (requestedStartMS requestedEndMS requestedLimit now : Z) : Z * Z :=
  let rule := RuleFor tf in
  if 0 <? rule.(Rule.KeepBars) then
    let limit := if (requestedLimit <=? 0) || (rule.(Rule.KeepBars) <? requestedLimit) then rule.(Rule.KeepBars)
                 else requestedLimit in
    let reference := if requestedEndMS <=? 0 then now else requestedEndMS in
    let windowStart := BarWindowStartMS tf reference rule.(Rule.KeepBars) in
    if (requestedStartMS <=? 0) || (requestedStartMS <? windowStart) then (0, limit) else (requestedStartMS, limit)
  else
    match CutoffMS rule now with
    | None => (requestedStartMS, requestedLimit)
    | Some cutoffMS =>
        if cutoffMS <=? requestedStartMS then (requestedStartMS, requestedLimit) else (cutoffMS, requestedLimit)
    end.
Definition retainedStartMS (tf : Frame) (requestedStartMS now : Z) : Z := fst (retainedRequest tf requestedStartMS 0 0 now).

(** The loop keeps the earliest start, 0 when there is none. *)
Definition earlier (earliest start : Z) : Z := if (earliest =? 0) || (start <? earliest) then start else earliest.

Definition lookback_step (options : runOptions) (endMS : Z) (earliest : Z) (tf : Frame) : bprog Z :=
  let '(startMS, limit) :=
    retainedRequest tf options.(runOptions.startMS) options.(runOptions.endMS) options.(runOptions.limit) endMS in
  if 0 <? startMS then Ret (earlier earliest startMS)
  else if limit <=? 0 then Ret earliest
  else
    let windowStart := BarWindowStartMS tf endMS (i64 (limit + 2)) in
    if 0 <? windowStart then Ret (earlier earliest windowStart)
    else
      now <- trigger Now ;;
      Ret (earlier earliest (i64 (endMS - i64 (DurationMS now tf * i64 (limit + 2))))).

Definition forwardAdjustmentLookbackStart (options : runOptions) : bprog Z :=
  endMS <- (if options.(runOptions.endMS) <=? 0 then trigger Now else Ret options.(runOptions.endMS)) ;;
  earliest <- pfold (lookback_step options endMS) 0 options.(runOptions.timeframes) ;;
  Ret (if (earliest <=? 1) || (endMS <=? earliest) then 1 else FloorStartMS earliest F1D).

(** ** Splits *)

Definition by_start (bars : list Bar) : gmap Z Bar :=
  foldl (fun m bar => <[bar.(Bar.StartMS) := bar]> m) ∅ bars.

(** One candidate: the ratio of the two closes jumped, or the candle spans a split. *)
Definition candidate_step (continuousByStart : gmap Z Bar) (st : gset Z * list Bar * float64) (bar : Bar)
    : gset Z * list Bar * float64 :=
  let '(seen, candidates, previousRatio) := st in
  let add (snapped : option float64) '(seen, candidates) :=
    if bool_decide (is_Some snapped) && negb (bool_decide (bar.(Bar.StartMS) ∈ seen))
    then ({[bar.(Bar.StartMS)]} ∪ seen, candidates ++ [bar]) else (seen, candidates) in
  match continuousByStart !! bar.(Bar.StartMS) with
  | None => st
  | Some matched =>
      if f64_leb bar.(Bar.ClosePrice) f64_zero || f64_leb matched.(Bar.ClosePrice) f64_zero then st
      else
        let ratio := f64_div matched.(Bar.ClosePrice) bar.(Bar.ClosePrice) in
        let acc := (seen, candidates) in
        let acc := if f64_gtb previousRatio f64_zero then add (SnapFactor (f64_div ratio previousRatio)) acc else acc in
        let acc := if f64_gtb bar.(Bar.LowPrice) f64_zero
                   then add (SnapFactor (f64_div bar.(Bar.HighPrice) bar.(Bar.LowPrice))) acc else acc in
        (acc, ratio)
  end.

Definition candidateCorporateActionBuckets (raw continuous : list Bar) : list Bar :=
  snd (fst (foldl (candidate_step (by_start continuous)) (∅, [], f64_zero) (sort_by Bar.StartMS raw))).

(** The latest start before [bound], 0 when there is none after 0. *)
Definition latest_before (bound : Z) (starts : list Z) : Z :=
  foldl (fun previousStart start => if (start <? bound) && (previousStart <? start) then start else previousStart) 0 starts.

Definition candidateBucketFactor (candidate : Bar) (raw continuous : list Bar) : option float64 :=
  let rawByStart := by_start raw in
  let continuousByStart := by_start continuous in
  let previousStart := latest_before candidate.(Bar.StartMS) (fst <$> map_to_list rawByStart) in
  match rawByStart !! previousStart, continuousByStart !! previousStart with
  | Some previousRaw, Some previousContinuous =>
      if f64_leb previousRaw.(Bar.ClosePrice) f64_zero || f64_leb previousContinuous.(Bar.ClosePrice) f64_zero
         || f64_leb candidate.(Bar.ClosePrice) f64_zero then None
      else
        match continuousByStart !! candidate.(Bar.StartMS) with
        | Some candidateContinuous =>
            if f64_leb candidateContinuous.(Bar.ClosePrice) f64_zero then None
            else
              let beforeRatio := f64_div previousContinuous.(Bar.ClosePrice) previousRaw.(Bar.ClosePrice) in
              let afterRatio := f64_div candidateContinuous.(Bar.ClosePrice) candidate.(Bar.ClosePrice) in
              SnapFactor (f64_div beforeRatio afterRatio)
        | None => None
        end
  | _, _ => None
  end.

Definition absInt64 (value : Z) : Z := if value <? 0 then i64 (- value) else value.

Definition f64_hundredth : float64 := Eval vm_compute in f64_of_Q 1 100.
Definition f64_validation : float64 := Eval vm_compute in f64_of_Q 12 100.

(** At the same time, or within a day with nearly the same factor. *)
Definition same_action (existing action : corporateAction) : bool :=
  (existing.(corporateAction.EffectiveMS) =? action.(corporateAction.EffectiveMS))
  || ((absInt64 (i64 (existing.(corporateAction.EffectiveMS) - action.(corporateAction.EffectiveMS))) <? DayMS)
      && f64_ltb (relativeDifference existing.(corporateAction.AppliedMultiplier) action.(corporateAction.AppliedMultiplier))
           f64_hundredth).

Definition uniqueCorporateActions (actions : list corporateAction) : list corporateAction :=
  foldl (fun out action => if existsb (fun existing => same_action existing action) out then out else out ++ [action])
    [] (sort_by corporateAction.EffectiveMS actions).

(** The loop over neighbours [ordered[i-1]], [ordered[i]]. *)
Fixpoint actions_between (ordered : list Bar) : list corporateAction :=
  match ordered with
  | before :: ((after :: _) as rest) =>
      let ratio := f64_div after.(Bar.OpenPrice) before.(Bar.ClosePrice) in
      (if f64_leb before.(Bar.ClosePrice) f64_zero || f64_leb after.(Bar.OpenPrice) f64_zero then []
       else option_list ((fun factor => corporateAction.mk after.(Bar.StartMS) ratio factor) <$> SnapFactor ratio))
      ++ actions_between rest
  | _ => []
  end.
Definition detectCorporateActions (bars : list Bar) : list corporateAction :=
  actions_between (sort_by Bar.StartMS bars).

(** The last raw candle that closed before the action, and the first that starts after. *)
Definition last_before (effectiveMS : Z) (raw : list Bar) : option Bar :=
  foldl (fun previous bar =>
    if (bar.(Bar.EndMS) <? effectiveMS)
       && match previous with None => true | Some p => p.(Bar.StartMS) <? bar.(Bar.StartMS) end
    then Some bar else previous) None raw.
Definition first_after (effectiveMS : Z) (raw : list Bar) : option Bar :=
  foldl (fun next bar =>
    if (effectiveMS <? bar.(Bar.StartMS))
       && match next with None => true | Some n => bar.(Bar.StartMS) <? n.(Bar.StartMS) end
    then Some bar else next) None raw.

(** The continuous candles have absorbed the action. *)
Definition action_absorbed (raw : list Bar) (continuousByStart : gmap Z Bar) (action : corporateAction) : bool :=
  match last_before action.(corporateAction.EffectiveMS) raw, first_after action.(corporateAction.EffectiveMS) raw with
  | Some previous, Some next =>
      match continuousByStart !! previous.(Bar.StartMS), continuousByStart !! next.(Bar.StartMS) with
      | Some continuousPrevious, Some continuousNext =>
          if f64_leb previous.(Bar.ClosePrice) f64_zero || f64_leb next.(Bar.OpenPrice) f64_zero
             || f64_leb continuousPrevious.(Bar.ClosePrice) f64_zero || f64_leb continuousNext.(Bar.OpenPrice) f64_zero
          then false
          else
            let beforeRatio := f64_div continuousPrevious.(Bar.ClosePrice) previous.(Bar.ClosePrice) in
            let afterRatio := f64_div continuousNext.(Bar.OpenPrice) next.(Bar.OpenPrice) in
            negb (f64_leb afterRatio f64_zero
                  || f64_gtb (relativeDifference (f64_div beforeRatio afterRatio) action.(corporateAction.AppliedMultiplier))
                       f64_validation)
      | _, _ => false
      end
  | _, _ => false
  end.

Definition validateContinuousKlines (raw continuous : list Bar) (actions : list corporateAction) : bool :=
  if negb (bool_decide (raw = [])) && bool_decide (continuous = []) then false
  else if bool_decide (actions = []) then true
  else forallb (action_absorbed raw (by_start continuous)) actions.

(** ** Adjusted candles *)

Definition factor_product (applies : corporateAction → bool) (actions : list corporateAction) : float64 :=
  foldl (fun m action => if applies action then f64_mul m action.(corporateAction.AppliedMultiplier) else m)
        f64_one actions.

(** One candle of [applyBinanceFactors]. *)
Definition binance_factor_step (actions : list corporateAction) (out : list Bar) (bar : Bar) : bprog (list Bar) :=
  let multiplier := factor_product (fun action => bar.(Bar.StartMS) <? action.(corporateAction.EffectiveMS)) actions in
  now <- trigger Now ;;
  Ret (out ++ [scale_bar multiplier adjustment_reason now bar]).

Definition applyBinanceFactors (bars : list Bar) (actions : list corporateAction) : bprog (list Bar) :=
  pfold (binance_factor_step actions) [] (sort_by Bar.StartMS bars).

(** [ApplyDerived] of each candle with the close of the one before. *)
Definition derived_step (st : list Bar * float64) (bar : Bar) : list Bar * float64 :=
  let '(out, previousClose) := st in
  let bar := ApplyDerived bar previousClose in (out ++ [bar], bar.(Bar.ClosePrice)).
Definition derive_all (previousClose : float64) (bars : list Bar) : list Bar :=
  fst (foldl derived_step ([], previousClose) bars).

Definition crosses_action (bar : Bar) (action : corporateAction) : bool :=
  (bar.(Bar.StartMS) <? action.(corporateAction.EffectiveMS)) && (action.(corporateAction.EffectiveMS) <=? bar.(Bar.EndMS)).

Definition raw_minutes (symbol : string) (startMS endMS pageDelay : Z) : KlineRequest :=
  KlineRequest.mk symbol "1m" startMS endMS 0 KlineAdjustmentRaw pageDelay.

Definition rebuilt_bucket (a : restAdapter) (symbol : string) (tf : Frame) (actions : list corporateAction)
    (pageDelay : Z) (bar : Bar) : bprog (result go_error Bar) :=
  raw <- trigger (FetchKlines a (raw_minutes symbol bar.(Bar.StartMS) bar.(Bar.EndMS) pageDelay)) ;;
  match raw with
  | Err e => Ret (Err (Wrapf "fetch crossing %s bucket at %d: %w" e))
  | Ok raw =>
      adjusted <- applyBinanceFactors raw actions ;;
      now <- trigger Now ;;
      Ret (match RollupBars tf adjusted true "binance_corporate_action_crossing_rollup" now with
           | Some rollup => Ok rollup
           | None => Err (Errorf "empty crossing %s bucket at %d")
           end)
  end.

Definition adjust_backfill_bar (a : restAdapter) (symbol : string) (tf : Frame) (actions : list corporateAction)
    (pageDelay : Z) (out : list Bar) (bar : Bar) : bprog (result go_error (list Bar)) :=
  if existsb (crosses_action bar) actions && negb (bool_decide (tf = F1m)) then
    rollup <- rebuilt_bucket a symbol tf actions pageDelay bar ;;
    Ret (match rollup with Err e => Err e | Ok bar => Ok (out ++ [bar]) end)
  else
    let multiplier := factor_product (fun action => bar.(Bar.EndMS) <? action.(corporateAction.EffectiveMS)) actions in
    now <- trigger Now ;;
    Ret (Ok (out ++ [scale_bar multiplier adjustment_reason now bar])).

Definition adjustBinanceBackfillBars (a : restAdapter) (symbol : string) (tf : Frame) (bars : list Bar)
    (actions : list corporateAction) (pageDelay : Z) : bprog (result go_error (list Bar)) :=
  if bool_decide (actions = []) || bool_decide (bars = []) then Ret (Ok bars)
  else
    out <- pfold_ok (adjust_backfill_bar a symbol tf actions pageDelay) [] (sort_by Bar.StartMS bars) ;;
    Ret (match out with Err e => Err e | Ok out => Ok (derive_all f64_zero out) end).

(** From the newest candle back: the factor of a jump applies to all before it. *)
Definition scale_minute (m : float64) (bar : Bar) : Bar :=
  set_prices (f64_mul bar.(Bar.OpenPrice) m) (f64_mul bar.(Bar.HighPrice) m) (f64_mul bar.(Bar.LowPrice) m)
    (f64_mul bar.(Bar.ClosePrice) m) (f64_div bar.(Bar.Volume) m) (f64_div bar.(Bar.ContractVolume) m)
    "rest_forward_adjusted" adjustment_reason bar.

Definition minute_action (previous bar : Bar) : option corporateAction :=
  if negb (i64 (bar.(Bar.StartMS) - previous.(Bar.StartMS)) =? MinuteMS)
     || f64_leb previous.(Bar.ClosePrice) f64_zero || f64_leb bar.(Bar.OpenPrice) f64_zero then None
  else
    let observedRatio := f64_div bar.(Bar.OpenPrice) previous.(Bar.ClosePrice) in
    (fun multiplier => corporateAction.mk bar.(Bar.StartMS) observedRatio multiplier) <$> SnapFactor observedRatio.

(** The candles newest first; the result is in order. *)
Fixpoint adjust_back (cumulative : float64) (newest_first : list Bar) (adjusted : list Bar)
    (actions : list corporateAction) : list Bar * list corporateAction :=
  match newest_first with
  | [] => (adjusted, actions)
  | bar :: rest =>
      let adjusted := scale_minute cumulative bar :: adjusted in
      match rest with
      | [] => (adjusted, actions)
      | previous :: _ =>
          match minute_action previous bar with
          | Some action =>
              adjust_back (f64_mul cumulative action.(corporateAction.AppliedMultiplier)) rest adjusted (actions ++ [action])
          | None => adjust_back cumulative rest adjusted actions
          end
      end
  end.

Definition forwardAdjustOneMinuteBars (raw : list Bar) : list Bar * list corporateAction :=
  if bool_decide (raw = []) then ([], [])
  else
    let '(adjusted, actions) := adjust_back f64_one (reverse (sort_by Bar.StartMS raw)) [] [] in
    (derive_all f64_zero adjusted, sort_by corporateAction.EffectiveMS actions).

(** ** The continuous candles of a symbol *)

Definition inspect_candidate (a : restAdapter) (symbol : string) (pageDelay : Z) (rawDaily continuousDaily : list Bar)
    (actions : list corporateAction) (candidate : Bar)
    : bprog (result (list corporateAction * go_error) (list corporateAction)) :=
  minuteBars <- trigger (FetchKlines a (raw_minutes symbol candidate.(Bar.StartMS) candidate.(Bar.EndMS) pageDelay)) ;;
  Ret (match minuteBars with
       | Err e => Err (actions, Wrapf "inspect candidate corporate-action bucket %d: %w" e)
       | Ok minuteBars =>
           let '(_, minuteActions) := forwardAdjustOneMinuteBars minuteBars in
           Ok (if negb (bool_decide (minuteActions = [])) then actions ++ minuteActions
               else match candidateBucketFactor candidate rawDaily continuousDaily with
                    | Some factor => actions ++ [corporateAction.mk candidate.(Bar.StartMS) f64_zero factor]
                    | None => actions
                    end)
       end).

(** The fetcher ([None] is nil), the actions, validated, the error. *)
Definition prepareBinanceContinuous (a : restAdapter) (symbol : string) (options : runOptions)
    : bprog (option klineSource * list corporateAction * bool * option go_error) :=
  if negb (is_binance a) then Ret (None, [], false, Some (Errorf "continuousKlines is not supported"))
  else
    startMS <- forwardAdjustmentLookbackStart options ;;
    let request := KlineRequest.mk symbol "1D" startMS options.(runOptions.endMS) 0 KlineAdjustmentRaw
                     options.(runOptions.requestDelay) in
    rawDaily <- trigger (FetchKlines a request) ;;
    match rawDaily with
    | Err e => Ret (None, [], false, Some e)
    | Ok rawDaily =>
        continuousDaily <- trigger (FetchContinuousKlines a request) ;;
        match continuousDaily with
        | Err e => Ret (None, [], false, Some e)
        | Ok continuousDaily =>
            actions <- pfold_ok (inspect_candidate a symbol options.(runOptions.requestDelay) rawDaily continuousDaily)
                         (detectCorporateActions rawDaily) (candidateCorporateActionBuckets rawDaily continuousDaily) ;;
            match actions with
            | Err (actions, e) => Ret (None, actions, false, Some e)
            | Ok actions =>
                let actions := uniqueCorporateActions actions in
                Ret (if validateContinuousKlines rawDaily continuousDaily actions
                     then (Some (Continuous a), actions, true, None)
                     else (None, actions, false,
                           Some (Errorf "continuous daily data did not pass corporate-action validation")))
            end
        end
    end.

(** ** The candles of one request *)

Definition in_backfill_request (request : KlineRequest) (bar : Bar) : bool :=
  negb ((0 <? request.(KlineRequest.StartMS)) && (bar.(Bar.StartMS) <? request.(KlineRequest.StartMS)))
  && negb ((0 <? request.(KlineRequest.EndMS)) && (request.(KlineRequest.EndMS) <? bar.(Bar.StartMS))).

Definition selectBackfillBars (request : KlineRequest) (bars : list Bar) : list Bar :=
  newest request.(KlineRequest.Limit) (List.filter (in_backfill_request request) bars).

Definition derive_bucket (request : KlineRequest) (tf : Frame) (nowMS : Z) (group : list Bar)
    (st : list Bar * float64) (startMS : Z) : list Bar * float64 :=
  let '(out, previousClose) := st in
  if nowMS <=? EndMS startMS tf then st
  else
    match RollupBars tf (List.filter (fun bar => FloorStartMS bar.(Bar.StartMS) tf =? startMS) group) true
            "exchange_kline_backfill_rollup" nowMS with
    | None => st
    | Some bar =>
        let bar := ApplyDerived (Bar.set_Source "rest_rollup" bar) previousClose in
        (if in_backfill_request request bar then out ++ [bar] else out, bar.(Bar.ClosePrice))
    end.

Definition deriveBackfillBars (request : KlineRequest) (tf : Frame) (sourceBars : list Bar) : bprog (list Bar) :=
  let group := List.filter (fun bar => is_ok (ValidateForExchange bar.(Bar.Exchange) (frame_name tf)) && bar.(Bar.IsFinal))
                 sourceBars in
  let starts := sort_by id (remove_dups ((fun bar => FloorStartMS bar.(Bar.StartMS) tf) <$> group)) in
  nowMS <- trigger Now ;;
  Ret (newest request.(KlineRequest.Limit) (fst (foldl (derive_bucket request tf nowMS group) ([], f64_zero) starts))).

(** The request for the candles a timeframe is rolled up from. *)
Definition rollup_request (request : KlineRequest) (tf sourceTF : Frame) : bprog KlineRequest :=
  let endMS :=
    if 0 <? request.(KlineRequest.EndMS) then EndMS (FloorStartMS request.(KlineRequest.EndMS) tf) tf
    else request.(KlineRequest.EndMS) in
  let made startMS limit :=
    KlineRequest.mk request.(KlineRequest.Symbol) (frame_name sourceTF) startMS endMS limit
      request.(KlineRequest.Adjustment) request.(KlineRequest.PageDelay) in
  if 0 <? request.(KlineRequest.StartMS) then Ret (made (FloorStartMS request.(KlineRequest.StartMS) tf) 0)
  else if 0 <? request.(KlineRequest.Limit) then
    reference <- (if request.(KlineRequest.EndMS) <=? 0 then trigger Now else Ret request.(KlineRequest.EndMS)) ;;
    let windowStart := BarWindowStartMS tf reference (i64 (request.(KlineRequest.Limit) + 1)) in
    Ret (made (at_least_one (FloorStartMS windowStart sourceTF)) 0)
  else Ret (made request.(KlineRequest.StartMS) request.(KlineRequest.Limit)).

Definition fetchBackfillBars (source : klineSource) (request : KlineRequest) (tf : Frame)
    : bprog (result go_error (list Bar)) :=
  match ValidateForExchange (source_name source) (frame_name tf) with
  | Err e => Ret (Err (tf_go_error e))
  | Ok _ =>
      bars <- source_FetchKlines source request ;;
      match bars with
      | Ok bars => Ret (Ok bars)
      | Err e =>
          if negb (errors_Is e ErrUnsupportedKlineInterval) then Ret (Err e)
          else
            match RollupSourceTimeframe tf with
            | None => Ret (Err e)
            | Some sourceTF =>
                sourceRequest <- rollup_request request tf sourceTF ;;
                sourceBars <- source_FetchKlines source sourceRequest ;;
                match sourceBars with
                | Err e => Ret (Err (Wrapf "derive %s from %s after target interval error: %w" e))
                | Ok sourceBars => bars <- deriveBackfillBars request tf sourceBars ;; Ret (Ok bars)
                end
            end
      end
  end.

(** ** Derived fields *)

(** The derived fields of the stored candle of the same start, when there is one. *)
Definition keep_derived (existing : gmap Z Bar) (bar : Bar) : Bar :=
  match existing !! bar.(Bar.StartMS) with
  | Some old =>
      Bar.set_Amp old.(Bar.Amp) (Bar.set_Chg old.(Bar.Chg) (Bar.set_PrevClose old.(Bar.PrevClose) bar))
  | None => bar
  end.

(** [ApplyDerived] where a positive close came before. *)
Definition positive_step (st : list Bar * float64) (bar : Bar) : list Bar * float64 :=
  let '(out, previousClose) := st in
  let bar := if f64_gtb previousClose f64_zero then ApplyDerived bar previousClose else bar in
  (out ++ [bar], bar.(Bar.ClosePrice)).
Definition derive_positive (previousClose : float64) (bars : list Bar) : list Bar :=
  fst (foldl positive_step ([], previousClose) bars).

(** The close of the stored candle before [first], 0 when there is none. *)
Definition previous_close (first : Bar) (tf : Frame) : bprog (result go_error float64) :=
  let previousStart := PreviousStartMS first.(Bar.StartMS) tf in
  if 0 <? previousStart then
    previous <- trigger (BarsInRange first.(Bar.Exchange) first.(Bar.Symbol) first.(Bar.Timeframe) previousStart previousStart) ;;
    Ret (match previous with Err e => Err e | Ok previous => Ok (from_option Bar.ClosePrice f64_zero (last previous)) end)
  else Ret (Ok f64_zero).

(** The candles are of the timeframe [tf]. *)
Definition applyBackfillDerived (tf : Frame) (bars : list Bar) : bprog (result go_error (list Bar)) :=
  let bars := sort_by Bar.StartMS bars in
  match bars with
  | [] => Ret (Ok [])
  | first :: _ =>
      previousClose <- previous_close first tf ;;
      match previousClose with
      | Err e => Ret (Err e)
      | Ok previousClose =>
          if f64_leb previousClose f64_zero then
            existing <- trigger (BarsInRange first.(Bar.Exchange) first.(Bar.Symbol) first.(Bar.Timeframe)
                                   first.(Bar.StartMS) (last_start bars)) ;;
            Ret (match existing with
                 | Err e => Err e
                 | Ok existing => Ok (derive_positive previousClose (keep_derived (by_start existing) <$> bars))
                 end)
          else Ret (Ok (derive_positive previousClose bars))
      end
  end.

(** ** One symbol and timeframe *)

(** The smallest and the largest start. *)
Definition widen (range : Z * Z) (bar : Bar) : Z * Z :=
  let '(startMS, endMS) := range in
  (if bar.(Bar.StartMS) <? startMS then bar.(Bar.StartMS) else startMS,
   if endMS <? bar.(Bar.StartMS) then bar.(Bar.StartMS) else endMS).
Definition barRange (bars : list Bar) : Z * Z :=
  foldl widen (first_start bars, first_start bars) (tl bars).

(** What is deleted before the fetched candles are written. *)
Definition replaced_range (options : runOptions) (request : KlineRequest) (tf : Frame) (bars : list Bar) : Z * Z :=
  let '(startMS, endMS) := barRange bars in
  (if 0 <? request.(KlineRequest.StartMS) then request.(KlineRequest.StartMS) else startMS,
   if 0 <? options.(runOptions.endMS) then options.(runOptions.endMS) else EndMS endMS tf).

(** The closure [flush]. *)
Definition flush (options : runOptions) (batch : list Bar) : bprog (result go_error (list Bar)) :=
  if bool_decide (batch = []) || options.(runOptions.dryRun) then Ret (Ok [])
  else
    err <- trigger (UpsertBars batch) ;;
    Ret (match err with Some e => Err e | None => Ok [] end).

Definition push_bar (options : runOptions) (batch : list Bar) (bar : Bar) : bprog (result go_error (list Bar)) :=
  let batch := batch ++ [bar] in
  if options.(runOptions.batchSize) <=? Z.of_nat (length batch) then flush options batch else Ret (Ok batch).

(** The total so far and the batch; an error keeps the total. *)
Definition backfill_state : Type := Z * list Bar.
Definition backfill_result : Type := result (Z * go_error) backfill_state.

Definition frame_request (options : runOptions) (symbol : string) (tf : Frame) : bprog KlineRequest :=
  '(startMS, limit) <-
    (if options.(runOptions.respectRetention) then
       now <- trigger Now ;;
       Ret (retainedRequest tf options.(runOptions.startMS) options.(runOptions.endMS) options.(runOptions.limit) now)
     else Ret (options.(runOptions.startMS), options.(runOptions.limit))) ;;
  Ret (KlineRequest.mk symbol (frame_name tf) startMS options.(runOptions.endMS) limit options.(runOptions.adjustment)
         options.(runOptions.requestDelay)).

(** The adapter, the fetcher of the symbol, and the actions of the factor fallback. *)
Definition fetch_frame (a : restAdapter) (source : klineSource) (fallback : option (list corporateAction))
    (options : runOptions) (request : KlineRequest) (symbol : string) (tf : Frame) : bprog (result go_error (list Bar)) :=
  bars <- fetchBackfillBars source request tf ;;
  match bars, fallback with
  | Ok bars, Some actions => adjustBinanceBackfillBars a symbol tf bars actions options.(runOptions.requestDelay)
  | _, _ => Ret bars
  end.

(** The rows that the new candles replace, when they do. *)
Definition delete_replaced (options : runOptions) (request : KlineRequest) (tf : Frame) (bars : list Bar) (st : backfill_state)
    : bprog backfill_result :=
  let '(total, batch) := st in
  match bars with
  | first :: _ =>
      if options.(runOptions.replaceExisting) && negb options.(runOptions.dryRun) then
        batch <- flush options batch ;;
        match batch with
        | Err e => Ret (Err (total, e))
        | Ok batch =>
            let '(startMS, endMS) := replaced_range options request tf bars in
            deleted <- trigger (DeleteBarsInRange first.(Bar.Exchange) first.(Bar.Symbol) first.(Bar.Timeframe) startMS endMS) ;;
            Ret (match deleted with Err e => Err (total, e) | Ok _ => Ok (total, batch) end)
        end
      else Ret (Ok st)
  | [] => Ret (Ok st)
  end.

Definition write_bars (options : runOptions) (bars : list Bar) (st : backfill_state) : bprog backfill_result :=
  let '(total, batch) := st in
  let total := total + Z.of_nat (length bars) in
  batch <- pfold_ok (push_bar options) batch bars ;;
  match batch with
  | Err e => Ret (Err (total, e))
  | Ok batch =>
      batch <- flush options batch ;;
      match batch with
      | Err e => Ret (Err (total, e))
      | Ok batch =>
          if 0 <? options.(runOptions.requestDelay) then
            err <- trigger (Wait options.(runOptions.requestDelay)) ;;
            Ret (match err with Some e => Err (total, e) | None => Ok (total, batch) end)
          else Ret (Ok (total, batch))
      end
  end.

Definition backfill_frame (a : restAdapter) (source : klineSource) (fallback : option (list corporateAction))
    (options : runOptions) (symbol : string) (st : backfill_state) (tf : Frame) : bprog backfill_result :=
  request <- frame_request options symbol tf ;;
  bars <- fetch_frame a source fallback options request symbol tf ;;
  match bars with
  | Err e => Ret (if options.(runOptions.continueOnErr) then Ok st else Err (fst st, e))
  | Ok bars =>
      bars <- applyBackfillDerived tf bars ;;
      match bars with
      | Err e => Ret (Err (fst st, Wrapf "derive fields exchange=%s symbol=%s timeframe=%s: %w" e))
      | Ok bars =>
          st <- delete_replaced options request tf bars st ;;
          match st with
          | Err stop => Ret (Err stop)
          | Ok st => write_bars options bars st
          end
      end
  end.

(** ** A symbol, an exchange, a run *)

(** Where the candles of a symbol come from. *)
Definition symbol_source (a : restAdapter) (options : runOptions) (forwardSymbols : gset string) (symbol : string)
    : bprog (result go_error (klineSource * option (list corporateAction))) :=
  let fallback actions := if bool_decide (actions = []) then None else Some actions in
  if bool_decide (ToUpper symbol ∈ forwardSymbols) then
    '(continuous, actions, validated, err) <- prepareBinanceContinuous a symbol options ;;
    Ret (match err with
         | Some e =>
             if bool_decide (options.(runOptions.adjustment) = KlineAdjustmentForward) && bool_decide (actions = [])
             then Err (Wrapf "validate Binance continuous forward-adjustment source symbol=%s: %w" e)
             else Ok (Direct a, fallback actions)
         | None =>
             if (validated : bool) then Ok (default (Direct a) continuous, None) else Ok (Direct a, fallback actions)
         end)
  else Ret (Ok (Direct a, None)).

Definition backfill_symbol (a : restAdapter) (options : runOptions) (forwardSymbols : gset string)
    (st : backfill_state) (symbol : string) : bprog backfill_result :=
  source <- symbol_source a options forwardSymbols symbol ;;
  match source with
  | Err e => Ret (Err (fst st, e))
  | Ok (source, fallback) =>
      pfold_ok (backfill_frame a source fallback options symbol) st options.(runOptions.timeframes)
  end.

(** [ForwardAdjustmentSymbols], where the adapter has it and it is wanted. *)
Definition forward_symbols (a : restAdapter) (options : runOptions) : bprog (result go_error (gset string)) :=
  if negb (bool_decide (options.(runOptions.adjustment) = KlineAdjustmentRaw)) && is_binance a then
    symbols <- trigger (ForwardAdjustmentSymbols a) ;;
    Ret (match symbols with
         | Err e =>
             if bool_decide (options.(runOptions.adjustment) = KlineAdjustmentForward)
             then Err (Wrapf "load forward-adjustment symbols: %w" e) else Ok ∅
         | Ok symbols => Ok symbols
         end)
  else Ret (Ok ∅).

(** The total, also when there is an error. *)
Definition backfillExchange (a : restAdapter) (symbols : list string) (options : runOptions) : bprog (Z * option go_error) :=
  match List.find (fun tf => negb (is_ok (ValidateForExchange (adapter_name a) (frame_name tf)))) options.(runOptions.timeframes) with
  | Some tf =>
      Ret (0, match ValidateForExchange (adapter_name a) (frame_name tf) with Err e => Some (tf_go_error e) | Ok _ => None end)
  | None =>
      forwardSymbols <- forward_symbols a options ;;
      match forwardSymbols with
      | Err e => Ret (0, Some e)
      | Ok forwardSymbols =>
          st <- pfold_ok (backfill_symbol a options forwardSymbols) (0, []) symbols ;;
          match st with
          | Err (total, e) => Ret (total, Some e)
          | Ok (total, batch) =>
              batch <- flush options batch ;;
              Ret (total, match batch with Err e => Some e | Ok _ => None end)
          end
      end
  end.

Definition clear_series (exchangeName : string) (options : runOptions) (total : Z) (series : string * Frame)
    : bprog (result go_error Z) :=
  let '(symbol, tf) := series in
  count <- trigger (ClearKlineCache (Some (exchangeName, symbol, frame_name tf)) options.(runOptions.clearLive)
                      options.(runOptions.redisScanCount)) ;;
  Ret (match count with Err e => Err e | Ok count => Ok (total + count) end).

Definition clearRedisKlineCache (exchangeName : string) (symbols : list string) (options : runOptions)
    : bprog (result go_error Z) :=
  if options.(runOptions.dryRun) then Ret (Ok 0)
  else pfold_ok (clear_series exchangeName options) 0
         (symbol ← symbols; tf ← options.(runOptions.timeframes); [(symbol, tf)]).

(** An exchange of the loop of [main]; an error is fatal. *)
Definition run_runtime (options : runOptions) (totals : Z * Z) (runtime : exchangeRuntime) : bprog (result go_error (Z * Z)) :=
  let '(totalBars, totalCacheKeys) := totals in
  let cfg := runtime.(exchangeRuntime.config) in
  let a := runtime.(exchangeRuntime.adapter) in
  symbols <- loadSymbols a cfg.(ExchangeConfig.Name) cfg.(ExchangeConfig.MarketType) options.(runOptions.symbols)
               options.(runOptions.refreshSymbols) ;;
  match symbols with
  | Err e => Ret (Err e)
  | Ok [] => Ret (Ok totals)
  | Ok symbols =>
      '(count, err) <- (if options.(runOptions.backfill) then backfillExchange a symbols options else Ret (0, None)) ;;
      match err with
      | Some e => Ret (Err e)
      | None =>
          if options.(runOptions.clearRedis) && negb options.(runOptions.clearAllRedis) then
            keys <- clearRedisKlineCache cfg.(ExchangeConfig.Name) symbols options ;;
            Ret (match keys with Err e => Err e | Ok keys => Ok (totalBars + count, totalCacheKeys + keys) end)
          else Ret (Ok (totalBars + count, totalCacheKeys))
      end
  end.

(** The body of [main] once the store and the cache are connected: the candles
    written and the cache keys deleted. *)
Definition run_backfill (options : runOptions) (runtimes : list exchangeRuntime) : bprog (result go_error (Z * Z)) :=
  if bool_decide (length runtimes = 0%nat) then Ret (Err (Errorf "no enabled exchanges selected"))
  else
    cleared <- (if options.(runOptions.clearAllBars) && negb options.(runOptions.dryRun) then trigger ClearBars else Ret (Ok 0)) ;;
    match cleared with
    | Err e => Ret (Err e)
    | Ok _ =>
        keys <- (if options.(runOptions.clearAllRedis) && negb options.(runOptions.dryRun)
                 then trigger (ClearKlineCache None options.(runOptions.clearLive) options.(runOptions.redisScanCount))
                 else Ret (Ok 0)) ;;
        match keys with
        | Err e => Ret (Err e)
        | Ok keys => pfold_ok (run_runtime options) (0, keys) runtimes
        end
    end.

(** [sourceLimitForTarget]: how many source buckets a limit of targets needs; the
    loop stops at 10000. *)
Fixpoint buckets_until (fuel : nat) (sourceStart targetEnd : Z) (sourceTF : Frame) : Z :=
  match fuel with
  | O => 0
  | S fuel =>
      if targetEnd <? sourceStart then 0
      else
        let next := NextStartMS sourceStart sourceTF in
        if next <=? sourceStart then 1 else 1 + buckets_until fuel next targetEnd sourceTF
  end.

Definition sourceLimitForTarget (nowMS : Z) (targetTF sourceTF : Frame) (targetLimit : Z) : Z :=
  if targetLimit <=? 0 then 0
  else
    let targetStart := FloorStartMS nowMS targetTF in
    let targetEnd := EndMS targetStart targetTF in
    let perTarget := buckets_until (Z.to_nat 10000) (FloorStartMS targetStart sourceTF) targetEnd sourceTF in
    let limit := i64 (i64 (targetLimit + 1) * perTarget) in
    if 100000 <? limit then 100000 else limit.
