(* ===== verification/BackfillSpec.v ===== *)
(** * What a backfill does to the store (cmd/backfill_klines/main.go)

    A dry run writes no candle and deletes nothing (backfill_reads_first).  Against
    the in-memory store a timeframe of a symbol ends with exactly the candles the
    exchange lists in the replaced range, when no limit cuts the requested range
    (backfill_frame_replaces).  The replaced range is the requested one also when a
    limit made the exchange answer with only a part of it: then the stored candles
    of the rest are lost (limited_backfill_loses_history). *)

From S2P Require Export StoreReplace Backfill.

Local Open Scope string_scope.
Local Open Scope Z_scope.
Local Open Scope list_scope.

(** ** Derived fields *)

(** All of a candle but the derived fields and the display copies. *)
Definition core (b : Bar) :=
  (b.(Bar.Exchange), b.(Bar.Symbol), b.(Bar.MarginType), b.(Bar.Timeframe), (b.(Bar.StartMS), b.(Bar.EndMS)),
   (b.(Bar.OpenPrice), b.(Bar.HighPrice), b.(Bar.LowPrice), b.(Bar.ClosePrice)),
   (b.(Bar.Volume), b.(Bar.QuoteVolume), b.(Bar.ContractVolume), b.(Bar.TradeCount)),
   (b.(Bar.IsFinal), b.(Bar.Source), b.(Bar.Reason))).

Lemma core_ApplyDerived bar p : core (ApplyDerived bar p) = core bar.
Proof. destruct bar. unfold ApplyDerived. simpl. by destruct (f64_gtb p f64_zero), (f64_gtb _ f64_zero). Qed.

(** Lists with the same cores. *)
Section cores.
Context (bars bars' : list Bar) (Hcore : core <$> bars' = core <$> bars).

Lemma core_starts : Bar.StartMS <$> bars' = Bar.StartMS <$> bars.
Proof using Hcore.
  assert (H : ∀ l, Bar.StartMS <$> l = (λ c, fst (snd (fst (fst (fst c))))) <$> (core <$> l))
    by (intros l; by rewrite <- list_fmap_compose).
  by rewrite !H, Hcore.
Qed.

Lemma core_in b' : b' ∈ bars' → ∃ b, b ∈ bars ∧ core b' = core b.
Proof using Hcore.
  intros Hb. assert (core b' ∈ core <$> bars) as (b & -> & ?)%list_elem_of_fmap by (rewrite <- Hcore; by apply list_elem_of_fmap_2).
  eauto.
Qed.

Lemma core_series ex symbol tf : series_of ex symbol tf bars → series_of ex symbol tf bars'.
Proof using Hcore.
  intros [Hs He]. split.
  - assert (key_sorted id (Bar.StartMS <$> bars')) as H.
    { rewrite core_starts. apply (key_sorted_fmap _ Bar.StartMS); [done|done]. }
    clear -H. induction bars' as [|b l IH]; [constructor|]. cbn [fmap list_fmap] in H. apply StronglySorted_inv in H as [H1 H2].
    constructor; [by apply IH|]. rewrite Forall_forall in H2. apply Forall_forall. intros x Hx. apply (H2 x.(Bar.StartMS)). by apply (list_elem_of_fmap_2 Bar.StartMS).
  - intros b' (b & Hb & Hc)%core_in. destruct (He b Hb) as (Hk & Ht & Hf). unfold core in Hc.
    injection Hc. intros. unfold bar_series in *. repeat match goal with H : _ b' = _ b |- _ => rewrite H end. auto.
Qed.
End cores.

Lemma core_cons b b' (bars bars' : list Bar) :
  core <$> b' :: bars' = core <$> b :: bars → core b' = core b ∧ core <$> bars' = core <$> bars.
Proof. intros H. split; [apply (inj Some), (f_equal head H)|exact (f_equal tail H)]. Qed.

Lemma core_length (bars bars' : list Bar) : core <$> bars' = core <$> bars → length bars' = length bars.
Proof. intros H%(f_equal length). by rewrite !length_fmap in H. Qed.

(** ** Against the in-memory store *)

(** The in-memory store behind the command, a clock that stands still and an
    exchange that answers [fetch]. *)
Definition backfill_memory (now : Z) (fetch : KlineRequest → result go_error (list Bar)) : handler backfillE BarStore :=
  fun X e st =>
  match e in backfillE X return option (X * BarStore) with
  | Now => Some (now, st)
  | Wait _ => Some (None, st)
  | FetchKlines _ request => Some (fetch request, st)
  | BarsInRange ex symbol tf startMS endMS => Some (Store.BarsInRange ex symbol tf startMS endMS st, st)
  | UpsertBars bars =>
      let '(r, st) := Store.UpsertBars bars st in
      Some (match r with Ok _ => None | Err e => Some e end, st)
  | DeleteBarsInRange ex symbol tf startMS endMS => Some (Store.DeleteBarsInRange ex symbol tf startMS endMS st)
  | _ => None
  end.

(** The request of a timeframe when the clock says [now]. *)
Definition request_at (now : Z) (options : runOptions) (symbol : string) (tf : Frame) : KlineRequest :=
  let '(startMS, limit) :=
    if options.(runOptions.respectRetention)
    then retainedRequest tf options.(runOptions.startMS) options.(runOptions.endMS) options.(runOptions.limit) now
    else (options.(runOptions.startMS), options.(runOptions.limit)) in
  KlineRequest.mk symbol (frame_name tf) startMS options.(runOptions.endMS) limit options.(runOptions.adjustment)
    options.(runOptions.requestDelay).

Lemma request_end now options symbol tf : (request_at now options symbol tf).(KlineRequest.EndMS) = options.(runOptions.endMS).
Proof. unfold request_at. destruct (runOptions.respectRetention options); [|done]. by destruct (retainedRequest _ _ _ _ _). Qed.

(** *** The derived fields, from what the store holds *)

Definition head_bar (bars : list Bar) : Bar := default Bar.zero (head bars).

(** The final candle of a series that starts at [start]. *)
Definition stored_final (st : BarStore) (key : string) (start : Z) : option Bar :=
  match rows st.(BarStore.bars) key !! start with
  | Some bar => if bar.(Bar.IsFinal) then Some bar else None
  | None => None
  end.

(** The close of the stored candle before the one that starts at [start]. *)
Definition close_before (st : BarStore) (key : string) (tf : Frame) (start : Z) : float64 :=
  let previousStart := PreviousStartMS start tf in
  if 0 <? previousStart then from_option Bar.ClosePrice f64_zero (stored_final st key previousStart) else f64_zero.

(** The candle with the derived fields of the stored candle it replaces. *)
Definition keep_stored (st : BarStore) (key : string) (bar : Bar) : Bar :=
  match stored_final st key bar.(Bar.StartMS) with
  | Some old => Bar.set_Amp old.(Bar.Amp) (Bar.set_Chg old.(Bar.Chg) (Bar.set_PrevClose old.(Bar.PrevClose) bar))
  | None => bar
  end.

(** The close before the [i]-th candle of [bars], when [p] is the close before the first. *)
Definition close_at (p : float64) (bars : list Bar) (i : nat) : float64 :=
  match i with O => p | S j => from_option Bar.ClosePrice f64_zero (bars !! j) end.

(** What is written for the [i]-th of the fetched [bars]: its derived fields are
    those of the close before it, when that is positive; without a stored candle
    before the first they start from the ones of the stored candle it replaces. *)
Definition expected_at (st : BarStore) (key : string) (tf : Frame) (bars : list Bar) (i : nat) (bar : Bar) : Bar :=
  let first := close_before st key tf (head_bar bars).(Bar.StartMS) in
  let bar := if f64_leb first f64_zero then keep_stored st key bar else bar in
  let before := close_at first bars i in
  if f64_gtb before f64_zero then ApplyDerived bar before else bar.

Definition derived_bars (st : BarStore) (tf : Frame) (bars : list Bar) : list Bar :=
  let first := head_bar bars in
  imap (expected_at st (series_key first.(Bar.Exchange) first.(Bar.Symbol) (frame_name tf)) tf bars) bars.

Lemma expected_core st key tf bars i bar : core (expected_at st key tf bars i bar) = core bar.
Proof.
  unfold expected_at. assert (H : ∀ b, core (if f64_leb (close_before st key tf (head_bar bars).(Bar.StartMS)) f64_zero
    then keep_stored st key b else b) = core b).
  { intros b. case_bool; [|done]. unfold keep_stored. destruct (stored_final _ _ _); [|done]. by destruct b. }
  destruct (f64_gtb _ _); [rewrite core_ApplyDerived|]; apply H.
Qed.

Lemma derived_core st tf bars : core <$> derived_bars st tf bars = core <$> bars.
Proof.
  apply list_eq. intros i. unfold derived_bars. rewrite !list_lookup_fmap, list_lookup_imap.
  destruct (bars !! i); [simpl; by rewrite expected_core|done].
Qed.

Lemma positive_steps bars out p :
  foldl positive_step (out, p) bars
  = (out ++ imap (λ i b, if f64_gtb (close_at p bars i) f64_zero then ApplyDerived b (close_at p bars i) else b) bars,
     from_option Bar.ClosePrice p (last bars)).
Proof.
  revert out p. induction bars as [|bar bars IH]; intros out p; cbn [foldl]; [by rewrite app_nil_r|].
  unfold positive_step at 2. rewrite IH, <- app_assoc.
  assert ((if f64_gtb p f64_zero then ApplyDerived bar p else bar).(Bar.ClosePrice) = bar.(Bar.ClosePrice)) as ->.
  { destruct (f64_gtb p f64_zero); [|done]. pose proof (core_ApplyDerived bar p) as H. unfold core in H. congruence. }
  f_equal; [|rewrite last_cons; by destruct (last bars)].
  f_equal. rewrite imap_cons. simpl. f_equal. apply imap_ext. intros [|i] b Hi; [done|]. simpl. by destruct (bars !! i).
Qed.

Lemma derive_positive_lookup p bars i b :
  bars !! i = Some b →
  derive_positive p bars !! i
  = Some (if f64_gtb (close_at p bars i) f64_zero then ApplyDerived b (close_at p bars i) else b).
Proof. intros Hi. unfold derive_positive. rewrite positive_steps. simpl. by rewrite list_lookup_imap, Hi. Qed.

Lemma derive_positive_length p bars : length (derive_positive p bars) = length bars.
Proof. unfold derive_positive. rewrite positive_steps. simpl. apply length_imap. Qed.

Lemma by_start_bar_of bars start : key_sorted Bar.StartMS bars → by_start bars !! start = bar_of bars start.
Proof.
  assert (H : ∀ m : gmap Z Bar, key_sorted Bar.StartMS bars →
    foldl (fun m bar => <[bar.(Bar.StartMS) := bar]> m) m bars !! start
    = match bar_of bars start with Some b => Some b | None => m !! start end); [|intros Hs; unfold by_start; rewrite H by done; by destruct (bar_of _ _)].
  induction bars as [|b bars IH]; intros m Hs; [done|]. apply StronglySorted_inv in Hs as [Hs Hf]. cbn [foldl].
  rewrite IH by done. unfold bar_of. cbn [List.find]. fold (bar_of bars start).
  destruct (Z.eqb_spec b.(Bar.StartMS) start) as [<-|Hne].
  - rewrite lookup_insert. destruct (bar_of bars _) as [x|] eqn:E; [|by rewrite decide_True].
    apply find_some in E as [Hin Heq]. rewrite Forall_forall in Hf. apply list_elem_of_In in Hin. specialize (Hf x Hin). zbool. lia.
  - rewrite lookup_insert_ne by done. done.
Qed.

Section stored.
Context (st : BarStore) (key : string) (lo hi : Z) (out : list Bar) (Hst : bars_wf st).
Context (Hout : ∀ b, b ∈ out ↔ ∃ b0, rows st.(BarStore.bars) key !! b0.(Bar.StartMS) = Some b0 ∧
      b0.(Bar.IsFinal) = true ∧ lo <= b0.(Bar.StartMS) <= hi ∧ b = DecorateBar b0).

Lemma stored_in start b :
  lo <= start <= hi → stored_final st key start = Some b → b.(Bar.StartMS) = start ∧ DecorateBar b ∈ out.
Proof using Hst Hout.
  intros Hr Hb. unfold stored_final in Hb. destruct (rows _ _ !! _) as [b0|] eqn:E; [|done].
  destruct (Bar.IsFinal b0) eqn:Ef; [|done]. injection Hb as ->. pose proof (bw_starts _ Hst _ _ _ E) as Hb. split; [done|].
  apply Hout. exists b. rewrite Hb. auto.
Qed.

Lemma in_stored b : b ∈ out → ∃ b0, b = DecorateBar b0 ∧ stored_final st key b.(Bar.StartMS) = Some b0.
Proof using Hout.
  intros (b0 & Hr & Hf & _ & ->)%Hout. exists b0. split; [done|]. unfold stored_final.
  change (Bar.StartMS (DecorateBar b0)) with b0.(Bar.StartMS). by rewrite Hr, Hf.
Qed.
End stored.

Lemma last_stored st key s out :
  bars_wf st →
  (∀ b, b ∈ out ↔ ∃ b0, rows st.(BarStore.bars) key !! b0.(Bar.StartMS) = Some b0 ∧
      b0.(Bar.IsFinal) = true ∧ s <= b0.(Bar.StartMS) <= s ∧ b = DecorateBar b0) →
  from_option Bar.ClosePrice f64_zero (last out) = from_option Bar.ClosePrice f64_zero (stored_final st key s).
Proof.
  intros Hst Hout. destruct (last out) as [b|] eqn:El.
  - apply last_elem in El. assert (b.(Bar.StartMS) = s) as <- by (apply Hout in El as (b0 & _ & _ & ? & ->); simpl; lia).
    destruct (in_stored st key _ _ out Hout b El) as (b0 & -> & ->). done.
  - apply last_None in El as ->. destruct (stored_final st key s) as [b|] eqn:E; [|done].
    destruct (stored_in st key s s [] Hst Hout s b ltac:(lia) E) as [_ H]. by apply not_elem_of_nil in H.
Qed.

Lemma kept_stored st key lo hi out b :
  bars_wf st → key_sorted Bar.StartMS out →
  (∀ b, b ∈ out ↔ ∃ b0, rows st.(BarStore.bars) key !! b0.(Bar.StartMS) = Some b0 ∧
      b0.(Bar.IsFinal) = true ∧ lo <= b0.(Bar.StartMS) <= hi ∧ b = DecorateBar b0) →
  in_range lo hi b.(Bar.StartMS) = true → keep_derived (by_start out) b = keep_stored st key b.
Proof.
  intros Hst Hs Hout Hr. unfold in_range in Hr. zbool. unfold keep_derived, keep_stored. rewrite by_start_bar_of by done.
  destruct (stored_final st key b.(Bar.StartMS)) as [old|] eqn:E.
  - destruct (stored_in st key lo hi out Hst Hout b.(Bar.StartMS) old ltac:(lia) E) as [Hold Hin]. rewrite <- Hold.
    change old.(Bar.StartMS) with (DecorateBar old).(Bar.StartMS). by rewrite bar_of_in.
  - destruct (bar_of out b.(Bar.StartMS)) as [x|] eqn:Ex; [|done]. apply find_some in Ex as [Hin Heq]. zbool.
    apply list_elem_of_In in Hin. destruct (in_stored st key _ _ out Hout x Hin) as (b0 & _ & Hb0). rewrite Heq in Hb0. congruence.
Qed.

Section memory.
Context (now : Z) (fetch : KlineRequest → result go_error (list Bar)) (options : runOptions).
Notation run p st := (exec (backfill_memory now fetch) p st).

Lemma frame_request_exec symbol tf st :
  ∃ tr, run (frame_request options symbol tf) st = Some (tr, request_at now options symbol tf, st).
Proof.
  unfold frame_request, request_at. rewrite exec_bind. destruct (runOptions.respectRetention options); cbn.
  - destruct (retainedRequest _ _ _ _ _) as [start limit]. by eexists.
  - by eexists.
Qed.

Lemma fetch_frame_exec a request symbol tf bars st :
  is_ok (ValidateForExchange (adapter_name a) (frame_name tf)) = true → fetch request = Ok bars →
  ∃ tr, run (fetch_frame a (Direct a) None options request symbol tf) st = Some (tr, Ok bars, st).
Proof.
  intros Hv Hf. unfold fetch_frame. rewrite exec_bind. unfold fetchBackfillBars. cbn [source_name].
  destruct (ValidateForExchange _ _); [|done]. cbn. rewrite Hf. by eexists.
Qed.

Lemma derived_exec tf bars st :
  bars ≠ [] → series_of (head_bar bars).(Bar.Exchange) (head_bar bars).(Bar.Symbol) tf bars → bars_wf st →
  ∃ tr, run (applyBackfillDerived tf bars) st = Some (tr, Ok (derived_bars st tf bars), st).
Proof.
  destruct bars as [|first rest]; [done|]. intros _ Hseries Hst. set (bars := first :: rest) in *.
  change (head_bar bars) with first in Hseries. pose proof (so_sorted _ _ _ _ Hseries) as Hs.
  destruct (so_each _ _ _ _ Hseries first ltac:(by left)) as (_ & Ht & _).
  unfold applyBackfillDerived. rewrite sort_by_id by done. cbn [bars]. fold bars. rewrite exec_bind.
  set (key := series_key first.(Bar.Exchange) first.(Bar.Symbol) (frame_name tf)).
  assert (∃ tr, run (previous_close first tf) st = Some (tr, Ok (close_before st key tf first.(Bar.StartMS)), st)) as (tr1 & ->).
  { unfold previous_close, close_before. case_bool; [|by eexists]. rewrite Ht. rewrite exec_bind.
    destruct (BarsInRange_spec st first.(Bar.Exchange) first.(Bar.Symbol) (frame_name tf)
                (PreviousStartMS first.(Bar.StartMS) tf) (PreviousStartMS first.(Bar.StartMS) tf) Hst) as (out & E & _ & Hout).
    cbn [exec trigger backfill_memory]. rewrite E. cbn. rewrite (last_stored st key _ out Hst Hout). by eexists. }
  unfold derived_bars. change (head_bar bars) with first. fold key. set (p := close_before _ _ _ _).
  assert (∀ l, length l = length bars → (∀ i b, bars !! i = Some b → l !! i = Some (if f64_leb p f64_zero then keep_stored st key b else b)) →
    derive_positive p l = imap (expected_at st key tf bars) bars) as Himap.
  { intros l Hlen Hl. apply list_eq. intros i. rewrite list_lookup_imap. destruct (bars !! i) as [b|] eqn:Ei; simpl.
    - rewrite (derive_positive_lookup p l i _ (Hl i b Ei)). unfold expected_at. change (head_bar bars) with first. fold p.
      destruct i as [|j]; [done|]. cbn [close_at].
      assert (from_option Bar.ClosePrice f64_zero (l !! j) = from_option Bar.ClosePrice f64_zero (bars !! j)) as ->; [|done].
      destruct (bars !! j) as [b'|] eqn:Ej; [|apply lookup_ge_None in Ej; apply lookup_lt_Some in Ei; lia].
      rewrite (Hl j b' Ej). simpl. case_bool; [|done]. unfold keep_stored. destruct (stored_final _ _ _); [|done]. by destruct b'.
    - apply lookup_ge_None. rewrite derive_positive_length, Hlen. by apply lookup_ge_None. }
  remember (imap (expected_at st key tf bars) bars) as target eqn:Htarget.
  destruct (f64_leb p f64_zero) eqn:Ep.
  - rewrite exec_bind. cbn [exec trigger backfill_memory]. rewrite Ht.
    destruct (BarsInRange_spec st first.(Bar.Exchange) first.(Bar.Symbol) (frame_name tf)
                first.(Bar.StartMS) (last_start bars) Hst) as (out & -> & Hso & Hout).
    cbn. change (keep_derived _ first :: _) with (keep_derived (by_start out) <$> bars).
    rewrite (Himap (keep_derived (by_start out) <$> bars)); [by eexists|by rewrite length_fmap|].
    intros i b Hi. rewrite list_lookup_fmap, Hi. simpl. f_equal. apply list_elem_of_lookup_2 in Hi.
    apply (kept_stored st key first.(Bar.StartMS) (last_start bars) out b Hst Hso Hout). by apply (sorted_bounds bars).
  - cbn. rewrite (Himap bars); [by eexists|done|done].
Qed.

Context (Hdry : options.(runOptions.dryRun) = false).

Lemma flush_exec batch st : ∃ tr, run (flush options batch) st = Some (tr, Ok [], snd (Store.UpsertBars batch st)).
Proof using Hdry.
  unfold flush. rewrite Hdry, orb_false_r. destruct (bool_decide (batch = [])) eqn:E; bprop; [subst; by eexists|]. cbn. by eexists.
Qed.

(** The batches come to the same as all candles at once. *)
Lemma push_exec bars batch st :
  ∃ tr batch' st', run (pfold_ok (push_bar options) batch bars) st = Some (tr, Ok batch', st') ∧
    snd (Store.UpsertBars batch' st') = snd (Store.UpsertBars (batch ++ bars) st).
Proof using Hdry.
  revert batch st. induction bars as [|bar bars IH]; intros batch st; cbn [pfold_ok].
  { eexists _, _, _. split; [reflexivity|]. by rewrite app_nil_r. }
  rewrite exec_bind. unfold push_bar at 1. case_bool.
  - destruct (flush_exec (batch ++ [bar]) st) as (tr1 & ->). destruct (IH [] (snd (Store.UpsertBars (batch ++ [bar]) st))) as (tr2 & batch' & st' & E & H).
    rewrite E. eexists _, _, _. split; [reflexivity|]. rewrite H. simpl. by rewrite <- foldl_app, <- app_assoc.
  - cbn [exec]. destruct (IH (batch ++ [bar]) st) as (tr2 & batch' & st' & E & H). rewrite E.
    eexists _, _, _. split; [reflexivity|]. rewrite H. by rewrite <- app_assoc.
Qed.

Lemma write_exec total bars st :
  ∃ tr, run (write_bars options bars (total, [])) st
        = Some (tr, Ok (total + Z.of_nat (length bars), []), snd (Store.UpsertBars bars st)).
Proof using Hdry.
  unfold write_bars. rewrite exec_bind. destruct (push_exec bars [] st) as (tr1 & batch & st1 & -> & H). rewrite exec_bind.
  destruct (flush_exec batch st1) as (tr2 & ->). rewrite H. case_bool; cbn; by eexists.
Qed.

Lemma delete_exec request tf first rest total st :
  options.(runOptions.replaceExisting) = true → first.(Bar.Timeframe) = frame_name tf →
  ∃ tr, run (delete_replaced options request tf (first :: rest) (total, [])) st
        = Some (tr, Ok (total, []),
                let '(lo, hi) := replaced_range options request tf (first :: rest) in
                cleared first.(Bar.Exchange) first.(Bar.Symbol) tf lo hi st).
Proof using Hdry.
  intros Hr Ht. unfold delete_replaced. rewrite Hr, Hdry. cbn [andb negb]. rewrite exec_bind.
  destruct (flush_exec [] st) as (tr1 & ->). destruct (replaced_range _ _ _ _) as [lo hi]. rewrite exec_bind, Ht. cbn. by eexists.
Qed.
End memory.

(** ** The range that is replaced *)

Lemma widen_sorted lo first rest :
  key_sorted Bar.StartMS (first :: rest) → lo <= first.(Bar.StartMS) →
  foldl widen (lo, first.(Bar.StartMS)) rest = (lo, last_start (first :: rest)).
Proof.
  revert first. induction rest as [|b rest IH]; intros first Hs Hlo; [done|]. apply StronglySorted_inv in Hs as [Hs Hf].
  apply Forall_cons in Hf as [Hf _]. cbn [foldl]. unfold widen at 2. rewrite (proj2 (Z.ltb_ge _ _)), (proj2 (Z.ltb_lt _ _)) by lia.
  rewrite IH by (done || lia). done.
Qed.

Lemma barRange_sorted bars : key_sorted Bar.StartMS bars → barRange bars = (first_start bars, last_start bars).
Proof. destruct bars as [|first rest]; [done|]. intros Hs. by apply widen_sorted. Qed.

Lemma replaced_range_sorted options request tf bars :
  key_sorted Bar.StartMS bars →
  replaced_range options request tf bars =
  (if 0 <? request.(KlineRequest.StartMS) then request.(KlineRequest.StartMS) else first_start bars,
   if 0 <? options.(runOptions.endMS) then options.(runOptions.endMS) else EndMS (last_start bars) tf).
Proof. intros Hs. unfold replaced_range. by rewrite barRange_sorted. Qed.

Lemma core_range options request tf bars bars' :
  core <$> bars' = core <$> bars → key_sorted Bar.StartMS bars → key_sorted Bar.StartMS bars' →
  replaced_range options request tf bars' = replaced_range options request tf bars.
Proof.
  intros Hc Hs Hs'. rewrite !replaced_range_sorted by done. apply core_starts in Hc.
  assert (first_start bars' = first_start bars) as ->.
  { destruct bars, bars'; [done..|]. unfold first_start. simpl in *. congruence. }
  assert (last_start bars' = last_start bars) as ->; [|done].
  assert (H : ∀ l, last_start l = default 0 (last (Bar.StartMS <$> l))) by (intros l; unfold last_start; rewrite fmap_last; by destruct (last l)).
  by rewrite !H, Hc.
Qed.

(** The candles of an answer to the request lie in it. *)
Lemma replaced_in_range options request tf bars b :
  key_sorted Bar.StartMS bars → (∀ b, b ∈ bars → in_backfill_request request b = true) →
  request.(KlineRequest.EndMS) = options.(runOptions.endMS) → last_start bars <= EndMS (last_start bars) tf →
  b ∈ bars → let '(lo, hi) := replaced_range options request tf bars in in_range lo hi b.(Bar.StartMS) = true.
Proof.
  intros Hs Hin He Hl Hb. rewrite replaced_range_sorted by done. pose proof (sorted_bounds _ _ Hs Hb) as H.
  specialize (Hin b Hb). unfold in_backfill_request in Hin. unfold in_range in *. rewrite <- He.
  apply andb_true_iff in H as [H1 H2]. apply andb_true_iff in Hin as [H3 H4]. unfold first_start, last_start in *.
  apply andb_true_iff. rewrite !Z.leb_le. apply Z.leb_le in H1, H2. split.
  - destruct (0 <? KlineRequest.StartMS request); [|lia]. simpl in H3. zbool. lia.
  - destruct (0 <? KlineRequest.EndMS request); [|lia]. simpl in H4. zbool. lia.
Qed.

(** ** One timeframe *)

(** The candles an exchange lists for a request, when its limit leaves none of the
    replaced range out: those of the whole range of the request, or the newest of them. *)
Lemma selected_covers request bars b :
  (request.(KlineRequest.Limit) <= 0 ∨ request.(KlineRequest.StartMS) <= 0) → key_sorted Bar.StartMS bars →
  let chosen := selectBackfillBars request bars in
  b ∈ bars → in_backfill_request request b = true →
  (0 < request.(KlineRequest.StartMS) ∨ first_start chosen <= b.(Bar.StartMS)) → b ∈ chosen.
Proof.
  intros Hlim Hs chosen Hb Hin Hlo. subst chosen. unfold selectBackfillBars, newest in *.
  set (inside := List.filter (in_backfill_request request) bars) in *.
  assert (b ∈ inside) as Hi by (apply list_elem_of_In, List.filter_In; split; [by apply list_elem_of_In|done]).
  assert (key_sorted Bar.StartMS inside) as Hsi by (by apply key_sorted_filter).
  destruct ((0 <? _) && _) eqn:E; [|done]. zbool. destruct Hlim as [|Hstart]; [lia|]. destruct Hlo as [|Hlo]; [lia|].
  set (n := Z.to_nat _) in *. rewrite <- (take_drop n inside) in Hi, Hsi. apply elem_of_app in Hi as [Hi|]; [|done].
  exfalso. apply StronglySorted_app in Hsi as (Hx & _ & _). unfold first_start in Hlo.
  destruct (drop n inside) as [|x l] eqn:Ed.
  { apply (f_equal length) in Ed. rewrite length_drop in Ed. simpl in Ed. lia. }
  specialize (Hx b x Hi ltac:(by left)). simpl in Hlo. lia.
Qed.

(** Every candle fetched is in the store as it was written, the rest of the replaced
    range is empty, and all other rows are as before. *)
Lemma backfill_frame_exec now fetch a options symbol tf total first rest st :
  let request := request_at now options symbol tf in
  let bars := first :: rest in
  options.(runOptions.dryRun) = false → options.(runOptions.replaceExisting) = true →
  is_ok (ValidateForExchange (adapter_name a) (frame_name tf)) = true →
  fetch request = Ok bars → series_of first.(Bar.Exchange) first.(Bar.Symbol) tf bars →
  (∀ b, b ∈ bars → in_backfill_request request b = true) → last_start bars <= EndMS (last_start bars) tf → bars_wf st →
  ∃ tr st',
    exec (backfill_memory now fetch) (backfill_frame a (Direct a) None options symbol (total, []) tf) st
      = Some (tr, Ok (total + Z.of_nat (length bars), []), st') ∧ bars_wf st' ∧
    let '(lo, hi) := replaced_range options request tf bars in
    (∀ k start, rows st'.(BarStore.bars) k !! start =
      if bool_decide (k = series_key first.(Bar.Exchange) first.(Bar.Symbol) (frame_name tf)) && in_range lo hi start
      then bar_of (derived_bars st tf bars) start else rows st.(BarStore.bars) k !! start).
Proof.
  intros request bars Hdry Hrep Hv Hf Hseries Hin Hl Hst. unfold backfill_frame.
  pose proof (so_sorted _ _ _ _ Hseries) as Hs. rewrite exec_bind.
  destruct (frame_request_exec now fetch options symbol tf st) as (tr1 & ->). fold request. rewrite exec_bind.
  destruct (fetch_frame_exec now fetch options a request symbol tf bars st Hv Hf) as (tr2 & ->). rewrite exec_bind.
  destruct (derived_exec now fetch tf bars st ltac:(done) Hseries Hst) as (tr3 & ->). rewrite exec_bind.
  pose proof (derived_core st tf bars) as Hc.
  destruct (derived_bars st tf bars) as [|first' rest']; [done|]. set (bars' := first' :: rest') in *.
  pose proof (core_series _ _ Hc _ _ _ Hseries) as Hseries'. pose proof (so_sorted _ _ _ _ Hseries') as Hs'.
  assert (core first' = core first) as Hc1 by (by apply core_cons in Hc as [? _]).
  assert (first'.(Bar.Exchange) = first.(Bar.Exchange) ∧ first'.(Bar.Symbol) = first.(Bar.Symbol)) as [He Hy]
    by (unfold core in Hc1; split; congruence).
  destruct (so_each _ _ _ _ Hseries' first' ltac:(by left)) as (_ & Ht & _).
  destruct (delete_exec now fetch options Hdry request tf first' rest' total st Hrep Ht) as (tr4 & Hd). fold bars' in Hd. rewrite Hd.
  rewrite (core_range options request tf bars bars' Hc Hs Hs'), He, Hy.
  assert (Hr : ∀ b, b ∈ bars' → let '(lo, hi) := replaced_range options request tf bars in in_range lo hi b.(Bar.StartMS) = true).
  { intros b' Hb. destruct (core_in _ _ Hc b' Hb) as (b & Hb0 & Hcb).
    assert (b'.(Bar.StartMS) = b.(Bar.StartMS)) as -> by (unfold core in Hcb; congruence).
    apply (replaced_in_range options request tf bars b); try done. apply request_end. }
  destruct (replaced_range options request tf bars) as [lo hi].
  destruct (write_exec now fetch options Hdry total bars' (cleared first.(Bar.Exchange) first.(Bar.Symbol) tf lo hi st)) as (tr5 & ->).
  rewrite (core_length bars bars' Hc). eexists _, _. split; [reflexivity|].
  split; [exact (restored_wf _ _ tf lo hi bars' st Hseries' Hst)|]. intros k start.
  destruct (decide (k = series_key first.(Bar.Exchange) first.(Bar.Symbol) (frame_name tf))) as [->|Hk].
  - rewrite bool_decide_eq_true_2 by done. cbn [andb]. exact (restored_row _ _ tf lo hi bars' st Hseries' Hst Hr start).
  - rewrite bool_decide_eq_false_2 by done. cbn [andb].
    exact (f_equal (lookup start) (restored_other _ _ tf lo hi bars' st Hseries' k Hk)).
Qed.

Lemma derived_bar_of st tf bars start :
  key_sorted Bar.StartMS bars →
  bar_of (derived_bars st tf bars) start = None ∧ bar_of bars start = None ∨
  ∃ i b, bars !! i = Some b ∧ b.(Bar.StartMS) = start ∧
    let first := head_bar bars in
    bar_of (derived_bars st tf bars) start
    = Some (expected_at st (series_key first.(Bar.Exchange) first.(Bar.Symbol) (frame_name tf)) tf bars i b).
Proof.
  intros Hs. cbv zeta. set (key := series_key _ _ _).
  assert (Hs' : key_sorted Bar.StartMS (derived_bars st tf bars)).
  { assert (key_sorted id (Bar.StartMS <$> derived_bars st tf bars)) as H
      by (rewrite (core_starts _ _ (derived_core st tf bars)); by apply (key_sorted_fmap _ Bar.StartMS)).
    revert H. generalize (derived_bars st tf bars). intros l. induction l as [|x l IH]; intros H; [constructor|].
    cbn [fmap list_fmap] in H. apply StronglySorted_inv in H as [H1 H2]. constructor; [by apply IH|].
    rewrite Forall_forall in H2. apply Forall_forall. intros y Hy. apply (H2 y.(Bar.StartMS)). by apply (list_elem_of_fmap_2 Bar.StartMS). }
  destruct (bar_of bars start) as [b|] eqn:E.
  - right. apply find_some in E as [Hin Heq]. zbool. subst start. apply list_elem_of_In, list_elem_of_lookup in Hin as [i Hi].
    exists i, b. split; [done|]. split; [done|].
    assert (derived_bars st tf bars !! i = Some (expected_at st key tf bars i b)) as Hd
      by (unfold derived_bars; rewrite list_lookup_imap, Hi; done).
    apply list_elem_of_lookup_2 in Hd. apply (bar_of_in _ _ Hs') in Hd.
    assert ((expected_at st key tf bars i b).(Bar.StartMS) = b.(Bar.StartMS)) as Hst
      by (pose proof (expected_core st key tf bars i b) as H; unfold core in H; congruence).
    by rewrite Hst in Hd.
  - left. split; [|done]. destruct (bar_of (derived_bars st tf bars) start) as [x|] eqn:Ex; [|done].
    apply find_some in Ex as [Hin Heq]. zbool. subst start. apply list_elem_of_In in Hin.
    destruct (core_in _ _ (derived_core st tf bars) x Hin) as (b & Hb & Hcb).
    assert (x.(Bar.StartMS) = b.(Bar.StartMS)) as Hx by (unfold core in Hcb; congruence). rewrite Hx in E.
    by rewrite (bar_of_in _ _ Hs Hb) in E.
Qed.

(** C9: replacing the candles of a timeframe against the in-memory store, when no
    limit cuts the requested range: the request has no limit, or it has no start and
    asks for the newest candles.  The exchange lists the candles [hist] of the series
    and answers with those of the request.  Then the range that is replaced, from the
    start of the request (the first fetched candle when it has none) to the end of the
    options (the end of the last fetched candle when they have none), is one the
    answer covers: every candle of [hist] in it was fetched.  Afterwards the range
    holds exactly these candles, each with the derived fields of the close before it
    (of the stored candle before the first one, or else those the store had), and every
    other row of every series is as before.  So a stored candle is lost only where the
    exchange lists none. *)
Theorem backfill_frame_replaces now fetch a options symbol tf total hist first rest st :
  let request := request_at now options symbol tf in
  let bars := first :: rest in
  let key := series_key first.(Bar.Exchange) first.(Bar.Symbol) (frame_name tf) in
  let lo := if 0 <? request.(KlineRequest.StartMS) then request.(KlineRequest.StartMS) else first.(Bar.StartMS) in
  let hi := if 0 <? options.(runOptions.endMS) then options.(runOptions.endMS) else EndMS (last_start bars) tf in
  options.(runOptions.dryRun) = false → options.(runOptions.replaceExisting) = true →
  is_ok (ValidateForExchange (adapter_name a) (frame_name tf)) = true →
  (request.(KlineRequest.Limit) <= 0 ∨ request.(KlineRequest.StartMS) <= 0) →
  series_of first.(Bar.Exchange) first.(Bar.Symbol) tf hist →
  fetch request = Ok bars → bars = selectBackfillBars request hist →
  last_start bars <= EndMS (last_start bars) tf → bars_wf st →
  ∃ tr st',
    exec (backfill_memory now fetch) (backfill_frame a (Direct a) None options symbol (total, []) tf) st
      = Some (tr, Ok (total + Z.of_nat (length bars), []), st') ∧ bars_wf st' ∧
    (∀ b, b ∈ hist → in_range lo hi b.(Bar.StartMS) = true → b ∈ bars) ∧
    (∀ i b, bars !! i = Some b → in_range lo hi b.(Bar.StartMS) = true ∧
       rows st'.(BarStore.bars) key !! b.(Bar.StartMS) = Some (expected_at st key tf bars i b)) ∧
    (∀ start, in_range lo hi start = true → is_Some (rows st'.(BarStore.bars) key !! start) →
       ∃ b, b ∈ bars ∧ b.(Bar.StartMS) = start) ∧
    (∀ k start, k ≠ key ∨ in_range lo hi start = false →
       rows st'.(BarStore.bars) k !! start = rows st.(BarStore.bars) k !! start).
Proof.
  intros request bars key lo hi Hdry Hrep Hv Hlim Hhist Hf Hsel Hl Hst.
  assert (Hsub : ∀ b, b ∈ bars → b ∈ hist ∧ in_backfill_request request b = true).
  { intros b Hb. rewrite Hsel in Hb. unfold selectBackfillBars, newest in Hb.
    assert (b ∈ List.filter (in_backfill_request request) hist) as H
      by (destruct (_ && _); [by apply (subseteq_drop _ _) in Hb|done]).
    apply list_elem_of_In, List.filter_In in H as [H ?]. split; [by apply list_elem_of_In|done]. }
  assert (Hseries : series_of first.(Bar.Exchange) first.(Bar.Symbol) tf bars).
  { split; [|intros b Hb; apply Hhist, Hsub, Hb]. rewrite Hsel. unfold selectBackfillBars, newest.
    pose proof (key_sorted_filter Bar.StartMS (in_backfill_request request) hist (so_sorted _ _ _ _ Hhist)) as H.
    destruct (_ && _); [|done]. rewrite <- (take_drop (Z.to_nat (Z.of_nat (length (List.filter (in_backfill_request request) hist)) - KlineRequest.Limit request))) in H.
    by apply StronglySorted_app in H as (_ & _ & ?). }
  pose proof (so_sorted _ _ _ _ Hseries) as Hs.
  destruct (backfill_frame_exec now fetch a options symbol tf total first rest st Hdry Hrep Hv Hf Hseries
              (λ b Hb, proj2 (Hsub b Hb)) Hl Hst) as (tr & st' & E & Hwf & H).
  fold request bars in E, H. rewrite (replaced_range_sorted options request tf bars Hs) in H.
  change (first_start bars) with first.(Bar.StartMS) in H. fold lo hi key in H.
  assert (Hin : ∀ b, b ∈ bars → in_range lo hi b.(Bar.StartMS) = true).
  { intros b Hb. pose proof (replaced_in_range options request tf bars b Hs (λ b Hb, proj2 (Hsub b Hb))
                               (request_end now options symbol tf) Hl Hb) as Hr.
    by rewrite (replaced_range_sorted options request tf bars Hs) in Hr. }
  exists tr, st'. split; [exact E|]. split; [done|]. split; [|split; [|split]].
  - intros b Hb Hr. rewrite Hsel. apply selected_covers; [done|apply Hhist|done| |].
    + unfold in_range in Hr. apply andb_true_iff in Hr as [Hr1%Z.leb_le Hr2%Z.leb_le].
      unfold in_backfill_request. rewrite (request_end now options symbol tf : request.(KlineRequest.EndMS) = _).
      subst lo hi. apply andb_true_iff. rewrite !negb_true_iff. split; apply andb_false_iff.
      * destruct (0 <? request.(KlineRequest.StartMS)) in *; [right; apply Z.ltb_ge; lia|by left].
      * destruct (0 <? options.(runOptions.endMS)) in *; [right; apply Z.ltb_ge; lia|by left].
    + rewrite <- Hsel. change (first_start bars) with first.(Bar.StartMS). unfold in_range in Hr. subst lo. zbool.
      destruct (0 <? request.(KlineRequest.StartMS)) eqn:Es; zbool; [by left|right; lia].
  - intros i b Hi. pose proof (list_elem_of_lookup_2 _ _ _ Hi) as Hb. split; [by apply Hin|].
    rewrite H, bool_decide_eq_true_2, Hin by done. cbn [andb].
    destruct (derived_bar_of st tf bars b.(Bar.StartMS) Hs) as [[_ Hn]|(j & b' & Hj & Hbb & ->)].
    { by rewrite (bar_of_in _ _ Hs Hb) in Hn. }
    assert (i = j) as <-; [|rewrite Hi in Hj; by injection Hj as <-].
    apply (NoDup_lookup (Bar.StartMS <$> bars) i j b.(Bar.StartMS)); [by apply key_sorted_NoDup| |];
      rewrite list_lookup_fmap; [by rewrite Hi|by rewrite Hj, <- Hbb].
  - intros start Hr [x Hx]. rewrite H, bool_decide_eq_true_2, Hr in Hx by done. cbn [andb] in Hx.
    destruct (derived_bar_of st tf bars start Hs) as [[Hn _]|(j & b' & Hj & Hbb & _)]; [congruence|].
    exists b'. split; [by eapply list_elem_of_lookup_2|done].
  - intros k start Hk. rewrite H. destruct Hk as [Hk|Hk].
    + by rewrite bool_decide_eq_false_2.
    + by rewrite Hk, andb_false_r.
Qed.

(** ** What is written, in any surroundings *)

Definition writes_store {X} (e : backfillE X) : bool :=
  match e with UpsertBars _ | DeleteBarsInRange _ _ _ _ _ | ClearBars | ClearKlineCache _ _ _ => true | _ => false end.
Definition quiet_call (c : call backfillE) : Prop := match c with Call e _ => writes_store e = false end.
Notation quiet := (all_calls quiet_call).

Lemma each_quiet {X} (e : backfillE X) : writes_store e = false → each quiet (trigger e).
Proof. intros He. apply each_trigger. intros x. by apply Forall_singleton. Qed.
#[export] Hint Extern 2 (each quiet (trigger _)) => apply each_quiet; reflexivity : each.

Lemma quiet_source source request : each quiet (source_FetchKlines source request).
Proof. unfold source_FetchKlines. each_auto. Qed.
#[export] Hint Resolve quiet_source : each.

Lemma quiet_request options symbol tf : each quiet (frame_request options symbol tf).
Proof. unfold frame_request. each_auto. Qed.

Lemma quiet_adjust a symbol tf bars actions delay : each quiet (adjustBinanceBackfillBars a symbol tf bars actions delay).
Proof. unfold adjustBinanceBackfillBars, adjust_backfill_bar, rebuilt_bucket, applyBinanceFactors, binance_factor_step. each_auto. Qed.
#[export] Hint Resolve quiet_request quiet_adjust : each.

Lemma quiet_fetch a source fallback options request symbol tf : each quiet (fetch_frame a source fallback options request symbol tf).
Proof. unfold fetch_frame, fetchBackfillBars, rollup_request, deriveBackfillBars. each_auto. Qed.

Lemma quiet_derived tf bars : each quiet (applyBackfillDerived tf bars).
Proof. unfold applyBackfillDerived, previous_close. each_auto. Qed.
#[export] Hint Resolve quiet_fetch quiet_derived : each.

Lemma quiet_prepare a symbol options : each quiet (prepareBinanceContinuous a symbol options).
Proof. unfold prepareBinanceContinuous, forwardAdjustmentLookbackStart, lookback_step, inspect_candidate. each_auto. Qed.
#[export] Hint Resolve quiet_prepare : each.

(** The candles written, and the ranges deleted, in order. *)
Definition upserted (c : call backfillE) : list Bar := match c with Call e _ => match e with UpsertBars bars => bars | _ => [] end end.
Definition written (tr : list (call backfillE)) : list Bar := concat (upserted <$> tr).
Definition is_delete (c : call backfillE) : bool := match c with Call e _ => match e with DeleteBarsInRange _ _ _ _ _ => true | _ => false end end.

Lemma written_app tr1 tr2 : written (tr1 ++ tr2) = written tr1 ++ written tr2.
Proof. unfold written. by rewrite fmap_app, concat_app. Qed.

Lemma flush_run options batch tr r :
  options.(runOptions.dryRun) = false → runs (flush options batch) tr r →
  Forall (λ c, is_delete c = false) tr ∧ written tr = batch ∧ ∀ batch', r = Ok batch' → batch' = [].
Proof.
  intros Hdry. unfold flush. rewrite Hdry, orb_false_r. case_bool_decide; intros Hr; repeat run_step.
  - split; [constructor|]. split; [done|]. intros b [= ->]. done.
  - split; [by repeat constructor|]. split; [unfold written; simpl; by rewrite app_nil_r|].
    intros b Hb. destruct x0; by simplify_eq.
Qed.

Lemma push_run options bars batch tr batch' :
  options.(runOptions.dryRun) = false → runs (pfold_ok (push_bar options) batch bars) tr (Ok batch') →
  written tr ++ batch' = batch ++ bars.
Proof.
  intros Hdry Hr.
  refine (runs_pfold_ok (push_bar options) bars batch tr batch' (λ done tr b, written tr ++ b = batch ++ done) _ _ Hr).
  - by rewrite app_nil_r.
  - intros done bar rest tr1 b1 tr2 b2 _ H1 H. unfold push_bar in H. rewrite written_app, (app_assoc _ done), <- H1.
    destruct (_ <=? _) in H; [|repeat run_step; cbn [written]; by rewrite app_nil_r, <- app_assoc].
    apply flush_run in H as (_ & -> & Hb); [|done]. rewrite (Hb b2 eq_refl), app_nil_r. by rewrite <- !app_assoc.
Qed.

Definition no_delete : list (call backfillE) → Prop := all_calls (λ c, is_delete c = false).
Lemma each_no_delete {X} (e : backfillE X) : (∀ x, is_delete (Call e x) = false) → each no_delete (trigger e).
Proof. intros He. apply each_trigger. intros x. by apply Forall_singleton. Qed.
#[export] Hint Extern 2 (each no_delete (trigger _)) => apply each_no_delete; reflexivity : each.
#[export] Instance no_delete_trace : TraceProp no_delete := all_calls_trace _.

Lemma each_flush options batch : each no_delete (flush options batch).
Proof. unfold flush. each_auto. Qed.
#[export] Hint Resolve each_flush : each.

Lemma write_run options bars total tr r :
  options.(runOptions.dryRun) = false → runs (write_bars options bars (total, [])) tr r →
  Forall (λ c, is_delete c = false) tr ∧
  ∀ st, r = Ok st → st = (total + Z.of_nat (length bars), []) ∧ written tr = bars.
Proof.
  intros Hdry Hr. split.
  - revert tr r Hr. change (each no_delete (write_bars options bars (total, []))). unfold write_bars, push_bar. each_auto.
  - intros st ->. unfold write_bars in Hr. apply runs_bind in Hr as (tr1 & batch & tr2 & -> & H1 & H).
    destruct batch as [batch|e]; [|by repeat run_step]. apply push_run in H1; [|done].
    apply runs_bind in H as (tr3 & batch' & tr4 & -> & H2 & H). apply flush_run in H2 as (_ & H2 & Hb); [|done].
    destruct batch' as [batch'|e]; [|by repeat run_step]. rewrite (Hb batch' eq_refl) in H.
    rewrite !written_app, H2, app_assoc, H1. cbn [app].
    case_match; repeat run_step; [|by rewrite app_nil_r].
    match goal with x : option go_error |- _ => destruct x end; simplify_eq. by rewrite app_nil_r.
Qed.

Section dry.
Context (options : runOptions) (Hdry : options.(runOptions.dryRun) = true).

Lemma dry_flush batch : each quiet (flush options batch).
Proof using Hdry. unfold flush. rewrite Hdry, orb_true_r. each_auto. Qed.
#[local] Hint Resolve dry_flush : each.

Lemma dry_write bars st : each quiet (write_bars options bars st).
Proof using Hdry. unfold write_bars, push_bar. each_auto. Qed.

Lemma dry_delete request tf bars st : each quiet (delete_replaced options request tf bars st).
Proof using Hdry. unfold delete_replaced. rewrite Hdry, andb_false_r. each_auto. Qed.
#[local] Hint Resolve dry_write dry_delete : each.

(** A dry run writes no candle, deletes nothing and leaves the cache alone. *)
Lemma dry_run_quiet runtimes : each quiet (run_backfill options runtimes).
Proof using Hdry.
  unfold run_backfill, run_runtime, backfillExchange, backfill_symbol, backfill_frame, symbol_source, forward_symbols,
    clearRedisKlineCache, loadSymbols, refreshed_symbols. rewrite Hdry, !andb_false_r. each_auto.
Qed.
End dry.

(** How the writes of a timeframe with the candles [bars] go, and end. *)
Definition replacement (options : runOptions) (request : KlineRequest) (tf : Frame) (bars : list Bar) (total : Z)
    (writes : list (call backfillE)) (r : backfill_result) : Prop :=
  ∃ deletes ups, writes = deletes ++ ups ∧ no_delete ups ∧
    match bars with
    | first :: _ =>
        if options.(runOptions.replaceExisting) then
          let '(lo, hi) := replaced_range options request tf bars in
          ∃ answer, deletes = [Call (DeleteBarsInRange first.(Bar.Exchange) first.(Bar.Symbol) first.(Bar.Timeframe) lo hi) answer] ∧
            ∀ e, answer = Err e → ups = [] ∧ r = Err (total, e)
        else deletes = []
    | [] => deletes = []
    end ∧
    ∀ st, r = Ok st → st = (total + Z.of_nat (length bars), []) ∧ written ups = bars.

Lemma replacement_run options request tf bars total tr r :
  options.(runOptions.dryRun) = false →
  runs (pbind (delete_replaced options request tf bars (total, []))
          (λ st, match st with Err stop => Ret (Err stop) | Ok st => write_bars options bars st end)) tr r →
  replacement options request tf bars total tr r.
Proof.
  intros Hdry Hr. apply runs_bind in Hr as (tr1 & st & tr2 & -> & H1 & H2).
  assert (Hw : st = Ok (total, []) → no_delete tr2 ∧ ∀ st', r = Ok st' → st' = (total + Z.of_nat (length bars), []) ∧ written tr2 = bars)
    by (intros ->; by apply write_run in H2).
  unfold delete_replaced in H1. unfold replacement. destruct bars as [|first rest].
  { apply runs_Ret in H1 as [-> ->]. destruct (Hw eq_refl). by exists [], tr2. }
  rewrite Hdry, andb_true_r in H1. destruct (runOptions.replaceExisting options).
  - unfold flush in H1. rewrite bool_decide_eq_true_2 in H1 by done. cbn [orb] in H1.
    apply runs_bind in H1 as (tr3 & batch & tr4 & -> & H3 & H1). apply runs_Ret in H3 as [-> ->].
    destruct (replaced_range _ _ _ _) as [lo hi]. apply runs_bind in H1 as (tr5 & answer & tr6 & -> & H3 & H1).
    apply runs_trigger in H3 as ->. apply runs_Ret in H1 as [-> ->]. eexists [_], tr2. split; [done|].
    destruct answer as [n|e].
    + destruct (Hw eq_refl). split; [done|]. split; [|done]. exists (Ok n). by split.
    + apply runs_Ret in H2 as [-> ->]. split; [constructor|]. split; [|done]. exists (Err e). split; [done|]. by intros e' [= ->].
  - apply runs_Ret in H1 as [-> ->]. destruct (Hw eq_refl). by exists [], tr2.
Qed.

(** C17: whatever the exchange and the store answer, a timeframe is first read and then
    written.  In a dry run no candle is written or deleted.  Otherwise all reads come
    first: when the fetch of the request fails, nothing is written or deleted, and the
    run goes on without the timeframe ([-continue-on-error]) or ends with the error of
    the fetch; when the lookup of the candle before fails, nothing is written or
    deleted and the run ends with that error, so a failed lookup cannot leave a range
    empty; and when both succeed, at most one range is deleted, before the first write;
    when that fails nothing is written; and a timeframe that ends well has written
    exactly its candles, in order, and left no batch behind. *)
Theorem backfill_reads_first a source fallback options symbol tf total tr r :
  runs (backfill_frame a source fallback options symbol (total, []) tf) tr r →
  if options.(runOptions.dryRun) then quiet tr
  else ∃ request trq trf fetched rest,
    tr = trq ++ trf ++ rest ∧ quiet (trq ++ trf) ∧
    runs (frame_request options symbol tf) trq request ∧
    runs (fetch_frame a source fallback options request symbol tf) trf fetched ∧
    match fetched with
    | Err e => rest = [] ∧ r = if options.(runOptions.continueOnErr) then Ok (total, []) else Err (total, e)
    | Ok fetched => ∃ trd derived writes,
        rest = trd ++ writes ∧ quiet trd ∧ runs (applyBackfillDerived tf fetched) trd derived ∧
        match derived with
        | Err e => writes = [] ∧ r = Err (total, Wrapf "derive fields exchange=%s symbol=%s timeframe=%s: %w" e)
        | Ok bars => replacement options request tf bars total writes r
        end
    end.
Proof.
  intros Hr. destruct (runOptions.dryRun options) eqn:Hdry.
  { revert tr r Hr. change (each quiet (backfill_frame a source fallback options symbol (total, []) tf)).
    unfold backfill_frame. pose proof (dry_delete options Hdry). pose proof (dry_write options Hdry). each_auto. }
  unfold backfill_frame in Hr. apply runs_bind in Hr as (trq & request & tr1 & -> & Hq & Hr).
  apply runs_bind in Hr as (trf & fetched & tr2 & -> & Hf & Hr).
  pose proof (quiet_request _ _ _ _ _ Hq) as Qq. pose proof (quiet_fetch _ _ _ _ _ _ _ _ _ Hf) as Qf.
  exists request, trq, trf, fetched, tr2. split; [done|]. split; [by apply trace_app|]. split; [done|]. split; [done|].
  destruct fetched as [fetched|e]; [|by apply runs_Ret in Hr as [-> ->]].
  apply runs_bind in Hr as (trd & bars & writes & -> & Hd & Hr). pose proof (quiet_derived _ _ _ _ Hd) as Qd.
  exists trd, bars, writes. split; [done|]. split; [done|]. split; [done|].
  destruct bars as [bars|e]; [by apply replacement_run|by apply runs_Ret in Hr as [-> ->]].
Qed.

(** ** The command of the README *)

Definition sample_okx : restAdapter := OKX (NewOKXAdapter "SWAP" "https://www.okx.com" "").
Definition sample_now : Z := 1779262261234.

(** [-exchanges=binance,okx -timeframes=1m,5m,15m,30m,1H -limit=... -start=...
    -respect-retention=... -adjustment=auto], and an environment with nothing set. *)
Definition sample_flags (limit : Z) (start : string) (respectRetention : bool) : Flags :=
  match Load (λ _, "") with
  | Some cfg =>
      let flags := default_flags cfg in
      {| Flags.exchanges := "binance,okx"; Flags.marketTypes := ""; Flags.symbols := "";
         Flags.timeframes := "1m,5m,15m,30m,1H"; Flags.explicitTimeframes := true; Flags.limit := limit; Flags.start := start;
         Flags.end_ := ""; Flags.adjustment := "auto"; Flags.batchSize := flags.(Flags.batchSize);
         Flags.requestDelayMS := flags.(Flags.requestDelayMS); Flags.backfill := flags.(Flags.backfill);
         Flags.replaceExisting := flags.(Flags.replaceExisting); Flags.respectRetention := respectRetention;
         Flags.clearRedis := flags.(Flags.clearRedis); Flags.clearLive := flags.(Flags.clearLive);
         Flags.clearAllBars := flags.(Flags.clearAllBars); Flags.clearAllRedis := flags.(Flags.clearAllRedis);
         Flags.refreshSymbols := flags.(Flags.refreshSymbols); Flags.continueOnErr := flags.(Flags.continueOnErr);
         Flags.dryRun := flags.(Flags.dryRun); Flags.redisScanCount := flags.(Flags.redisScanCount) |}
  | None => Flags.mk "" "" "" "" false 0 "" "" "" 0 0 false false false false false false false false false false 0
  end.
Definition options_of (flags : Flags) : runOptions :=
  match parseOptions flags with
  | Ok o => o
  | Err _ => runOptions.mk [] ∅ ∅ [] 0 0 0 0 0 false false false false false false false false 0 "" false false
  end.

Definition sample_options : runOptions := options_of (sample_flags 300 "" true).
(** The command that goes past the retention: from a date on, without a limit. *)
Definition whole_options : runOptions := options_of (sample_flags 0 "2026-01-01" false).

Definition sample_minute (start : Z) : Bar :=
  {| Bar.Exchange := "okx"; Bar.Symbol := "BTC-USDT-SWAP"; Bar.MarginType := "SWAP"; Bar.Timeframe := "1m"; Bar.StartMS := start;
     Bar.EndMS := start + 59999; Bar.StartTS := start; Bar.EndTS := start + 59999; Bar.OpenPrice := f64_one;
     Bar.HighPrice := f64_one; Bar.LowPrice := f64_one; Bar.ClosePrice := f64_one; Bar.Open := f64_one; Bar.High := f64_one;
     Bar.Low := f64_one; Bar.Close := f64_one; Bar.PrevClose := f64_zero; Bar.Chg := f64_zero; Bar.Amp := f64_zero;
     Bar.Volume := f64_one; Bar.VolumeUnit := ""; Bar.QuoteVolume := f64_one; Bar.Quote := f64_one; Bar.QuoteUnit := "";
     Bar.ContractVolume := f64_one; Bar.TradeCount := 0; Bar.LastTickMS := 0; Bar.IsFinal := true; Bar.Source := "rest_kline";
     Bar.Reason := ""; Bar.UpdatedAtMS := 0 |}.

(** The closed minutes of the last [n] minutes, and the newest of a request. *)
Definition sample_history (n : nat) : list Bar :=
  (λ i, sample_minute (1779262260000 - 60000 * Z.of_nat (n - i))) <$> seq 0 n.
Definition sample_listing (n : nat) (request : KlineRequest) : result go_error (list Bar) :=
  Ok (selectBackfillBars request (sample_history n)).
Definition sample_key : string := series_key "okx" "BTC-USDT-SWAP" "1m".

(** The store held the minutes of the last eight hours, the exchange lists all of them,
    and after the run of the README's command three hours are gone. *)
Example limited_backfill_loses_history :
  let store := snd (Store.UpsertBars (sample_history 480) BarStore.empty) in
  size (rows store.(BarStore.bars) sample_key) = 480%nat ∧
  match exec (backfill_memory sample_now (sample_listing 480))
          (backfill_frame sample_okx (Direct sample_okx) None sample_options "BTC-USDT-SWAP" (0, []) F1m) store with
  | Some (_, r, st) => r = Ok (300, []) ∧ size (rows st.(BarStore.bars) sample_key) = 300%nat
  | None => False
  end.
Proof. vm_compute. auto. Qed.

Lemma sample_history_series n : series_of "okx" "BTC-USDT-SWAP" F1m (sample_history n).
Proof.
  split.
  - unfold sample_history. apply (key_sorted_fmap _ (λ i, 1779262260000 - 60000 * Z.of_nat (n - i))); [done|].
    assert (H : ∀ m k, (m + k <= n)%nat → key_sorted (λ i, 1779262260000 - 60000 * Z.of_nat (n - i)) (seq m k)); [|by apply H].
    intros m k. revert m. induction k as [|k IH]; intros m Hm; [constructor|]. constructor; [apply IH; lia|].
    apply Forall_forall. intros i Hi%elem_of_seq. lia.
  - intros b (i & -> & _)%list_elem_of_fmap. done.
Qed.

Lemma empty_bars_wf : bars_wf BarStore.empty.
Proof. split; intros *; unfold verified_at, rows; simpl; rewrite ?lookup_empty; simpl; rewrite ?lookup_empty; done. Qed.

Example backfill_frame_replaces_witness :
  ∃ tr st', exec (backfill_memory sample_now (sample_listing 3))
      (backfill_frame sample_okx (Direct sample_okx) None whole_options "BTC-USDT-SWAP" (0, []) F1m) BarStore.empty
    = Some (tr, Ok (3, []), st') ∧
    ∃ b, rows st'.(BarStore.bars) sample_key !! 1779262200000 = Some b ∧ b.(Bar.PrevClose) = f64_one ∧
      core b = core (sample_minute 1779262200000).
Proof.
  destruct (backfill_frame_replaces sample_now (sample_listing 3) sample_okx whole_options "BTC-USDT-SWAP" F1m 0
              (sample_history 3) (sample_minute 1779262080000)
              [sample_minute 1779262140000; sample_minute 1779262200000] BarStore.empty
              ltac:(vm_compute; reflexivity) ltac:(vm_compute; reflexivity) ltac:(vm_compute; reflexivity)
              ltac:(left; vm_compute; discriminate) (sample_history_series 3) ltac:(vm_compute; reflexivity)
              ltac:(vm_compute; reflexivity) ltac:(vm_compute; discriminate) empty_bars_wf)
    as (tr & st' & E & _ & _ & H & _).
  exists tr, st'. split; [exact E|]. destruct (H 2%nat (sample_minute 1779262200000) eq_refl) as [_ Hrow].
  eexists. split; [exact Hrow|]. vm_compute. split; reflexivity.
Defined.

Example backfill_reads_first_witness :
  ∃ tr request bars writes,
    runs (backfill_frame sample_okx (Direct sample_okx) None sample_options "BTC-USDT-SWAP" (0, []) F1m) tr (Ok (3, [])) ∧
    length bars = 3%nat ∧ replacement sample_options request F1m bars 0 writes (Ok (3, [])).
Proof.
  destruct (exec (backfill_memory sample_now (sample_listing 3))
              (backfill_frame sample_okx (Direct sample_okx) None sample_options "BTC-USDT-SWAP" (0, []) F1m) BarStore.empty)
    as [[[tr r] st]|] eqn:E; [|vm_compute in E; discriminate].
  pose proof (exec_runs _ _ _ _ _ _ E) as Hr.
  assert (r = Ok (3, [])) as -> by (vm_compute in E; injection E as _ <- _; reflexivity). clear E.
  pose proof (backfill_reads_first sample_okx (Direct sample_okx) None sample_options "BTC-USDT-SWAP" F1m 0 tr (Ok (3, [])) Hr) as H.
  assert (sample_options.(runOptions.dryRun) = false) as Hdry by (vm_compute; reflexivity).
  assert (sample_options.(runOptions.continueOnErr) = false) as Hcont by (vm_compute; reflexivity). rewrite Hdry, Hcont in H.
  destruct H as (request & trq & trf & [fetched|e] & rest & _ & _ & _ & _ & H); [|destruct H as [_ H]; discriminate].
  destruct H as (trd & [bars|e] & writes & _ & _ & _ & H); [|destruct H as [_ H]; discriminate].
  exists tr, request, bars, writes. split; [exact Hr|]. split; [|exact H].
  destruct H as (deletes & ups & _ & _ & _ & H). destruct (H (3, []) eq_refl) as [Hn _]. injection Hn as Hn. lia.
Defined.

(** ** The actions of a symbol *)

(** Every detected action is kept or stands for one already kept, none is made up, and
    no two of the kept ones are the same action. *)
Lemma unique_steps actions out :
  let step := λ out action, if existsb (λ existing, same_action existing action) out then out else out ++ [action] in
  StronglySorted (λ a b, same_action a b = false) out →
  StronglySorted (λ a b, same_action a b = false) (foldl step out actions) ∧
  (∀ a, a ∈ foldl step out actions → a ∈ out ∨ a ∈ actions) ∧
  (∀ a, a ∈ out → a ∈ foldl step out actions) ∧
  (∀ a, a ∈ actions → a ∈ foldl step out actions ∨ ∃ kept, kept ∈ foldl step out actions ∧ same_action kept a = true).
Proof.
  intros step. revert out. induction actions as [|a actions IH]; intros out Hs; cbn [foldl].
  { split_and!; [done|by left|done|by intros a ?%not_elem_of_nil]. }
  assert (StronglySorted (λ a b, same_action a b = false) (step out a)) as Hs'.
  { unfold step. destruct (existsb _ out) eqn:E; [done|]. clear IH.
    induction out as [|b out IH]; [by repeat constructor|]. simpl in E. apply orb_false_iff in E as [E1 E2].
    apply StronglySorted_inv in Hs as [Hs Hf]. constructor; [by apply IH|]. by apply Forall_app_2; [|constructor]. }
  destruct (IH _ Hs') as (H1 & H2 & H3 & H4). split_and!; [done| | |].
  - intros b Hb. apply H2 in Hb as [Hb|Hb]; [|right; by right]. unfold step in Hb. destruct (existsb _ out); [by left|].
    apply elem_of_app in Hb as [Hb|Hb%list_elem_of_singleton]; [by left|right; subst; by left].
  - intros b Hb. apply H3. unfold step. destruct (existsb _ out); [done|]. apply elem_of_app. by left.
  - intros b [->|Hb]%elem_of_cons; [|by apply H4]. unfold step at 1 in H3. destruct (existsb _ out) eqn:E.
    + right. apply existsb_exists in E as (kept & Hk & Hsame). exists kept. split; [|done]. apply H3. by apply list_elem_of_In.
    + left. apply H3, elem_of_app. right. by left.
Qed.

Lemma uniqueCorporateActions_spec actions :
  let out := uniqueCorporateActions actions in
  StronglySorted (λ a b, same_action a b = false) out ∧ (∀ a, a ∈ out → a ∈ actions) ∧
  (∀ a, a ∈ actions → a ∈ out ∨ ∃ kept, kept ∈ out ∧ same_action kept a = true).
Proof.
  destruct (unique_steps (sort_by corporateAction.EffectiveMS actions) [] ltac:(constructor)) as (H1 & H2 & _ & H4).
  split; [exact H1|]. split.
  - intros a Ha. apply H2 in Ha as [Ha|Ha]; [by apply not_elem_of_nil in Ha|]. by apply elem_of_sort_by in Ha.
  - intros a Ha. apply H4. by apply elem_of_sort_by.
Qed.
