(* ===== verification/Maintain.v ===== *)
(** * Retention of candles and partitions (cmd/maintain_klines/main.go)

    The command deletes what the retention rules no longer keep, in batches, and drops
    the partitions that hold nothing else.  The table is any [RetentionStore]; a
    statement that fails changes nothing.  [None] is the end of the fuel of a loop of
    batches.  The values of the flags are given; instants are Unix milliseconds. *)

From S2P Require Export Retention Partitions BackfillOptions.

Local Open Scope string_scope.
Local Open Scope Z_scope.
Local Open Scope list_scope.

Module options.
Record options : Type := mk {
  mode : string; timeframes : list Frame; dryRun : bool; batchSize : Z; maxBatches : Z; now : Z; tableName : string;
  partitionStart : Z; partitionMonths : Z; guardianKeepDays : Z }.
End options.
Notation options := options.options.

(** ** The table *)

Module BarSeries.
Record BarSeries : Type := mk { Exchange : string; Symbol : string }.
End BarSeries.
Notation BarSeries := BarSeries.BarSeries.
#[export] Instance BarSeries_eq_dec : EqDecision BarSeries.
Proof. solve_decision. Defined.

(** [rt_starts] are the starts of the rows of a series, [rt_partitions] and [rt_events]
    the names of the partitions and the times of the events of the Guardian. *)
Class RetentionStore (St : Type) := {
  rt_starts : St → BarSeries → Frame → gset Z;
  rt_partitions : St → list string;
  rt_events : St → list Z;
  rt_BarSeriesForTimeframe : Frame → St → result go_error (list BarSeries);
  rt_CountSeriesBars : BarSeries → Frame → St → result go_error Z;
  rt_SeriesBarCutoff : BarSeries → Frame → Z → St → result go_error (option Z);
  rt_DeleteSeriesBarsBefore : BarSeries → Frame → Z → Z → St → result go_error Z * St;
  rt_CountBarsBefore : Frame → Z → St → result go_error Z;
  rt_ListBarHistoryPartitions : St → result go_error (list string);
  rt_DropBarHistoryPartitions : list string → St → option go_error * St;
  rt_CountGuardianEventsBefore : Z → St → result go_error Z;
  rt_DeleteGuardianEventsBefore : Z → Z → St → result go_error Z * St }.

(** A computation on the table that may run out of fuel. *)
Definition tableM (St A : Type) : Type := St → option (result go_error A) * St.

Section table.
Context {St : Type}.
Notation M := (tableM St).

Definition done {A} (a : A) : M A := fun st => (Some (Ok a), st).
Definition out_of_fuel {A} : M A := fun st => (None, st).
Definition and_then {A B} (m : M A) (f : A → M B) : M B := fun st =>
  match m st with
  | (Some (Ok a), st) => f a st
  | (Some (Err e), st) => (Some (Err e), st)
  | (None, st) => (None, st)
  end.
Definition ask {A} (f : St → result go_error A) : M A := fun st => (Some (f st), st).
Definition order {A} (f : St → result go_error A * St) : M A := fun st => let '(r, st) := f st in (Some r, st).
End table.
Notation "'let!' x := m 'in' f" := (and_then m (fun x => f)) (at level 200, x pattern, m at level 100, f at level 200).

(** ** Retention *)

Section retention.
Context {St : Type} `{!RetentionStore St}.
Notation M := (tableM St).

(** The batches of one series: how many were made, and whether the limit was reached. *)
Fixpoint delete_batches (fuel : nat) (o : options) (item : BarSeries) (tf : Frame) (cutoffMS batches : Z) : M (Z * bool) :=
  match fuel with
  | O => out_of_fuel
  | S fuel =>
      let! deleted := order (rt_DeleteSeriesBarsBefore item tf cutoffMS o.(options.batchSize)) in
      let batches := batches + 1 in
      if (0 <? o.(options.maxBatches)) && (o.(options.maxBatches) <=? batches) then done (batches, true)
      else if deleted <? o.(options.batchSize) then done (batches, false)
      else delete_batches fuel o item tf cutoffMS batches
  end.

(** A series that is kept by number. *)
Definition retain_bars (fuel : nat) (o : options) (tf : Frame) (keepBars : Z) (item : BarSeries) (batches : Z) : M (Z * bool) :=
  let! count := ask (rt_CountSeriesBars item tf) in
  let excess := Z.max 0 (count - keepBars) in
  if o.(options.dryRun) then done (batches, false)
  else if excess =? 0 then done (batches, false)
  else
    let! cutoff := ask (rt_SeriesBarCutoff item tf keepBars) in
    match cutoff with
    | None => done (batches, false)
    | Some cutoffMS => delete_batches fuel o item tf cutoffMS batches
    end.

(** The loop over the series, which ends when the limit is reached. *)
Fixpoint each_series (retain : BarSeries → Z → M (Z * bool)) (series : list BarSeries) (batches : Z) : M unit :=
  match series with
  | [] => done tt
  | item :: rest =>
      let! (batches, limitReached) := retain item batches in
      if limitReached : bool then done tt else each_series retain rest batches
  end.

Definition retain_frame (fuel : nat) (o : options) (tf : Frame) : M unit :=
  let rule := RuleFor tf in
  if 0 <? rule.(Rule.KeepBars) then
    let! series := ask (rt_BarSeriesForTimeframe tf) in
    each_series (retain_bars fuel o tf rule.(Rule.KeepBars)) series 0
  else
    match CutoffMS rule o.(options.now) with
    | None => done tt
    | Some cutoffMS =>
        if o.(options.dryRun) then let! _ := ask (rt_CountBarsBefore tf cutoffMS) in done tt
        else
          let! series := ask (rt_BarSeriesForTimeframe tf) in
          each_series (fun item batches => delete_batches fuel o item tf cutoffMS batches) series 0
    end.

Fixpoint retain_frames (fuel : nat) (o : options) (frames : list Frame) : M unit :=
  match frames with
  | [] => done tt
  | tf :: rest => let! _ := retain_frame fuel o tf in retain_frames fuel o rest
  end.
Definition runBarRetention (fuel : nat) (o : options) : M unit := retain_frames fuel o o.(options.timeframes).

Fixpoint delete_events (fuel : nat) (o : options) (cutoffMS : Z) : M unit :=
  match fuel with
  | O => out_of_fuel
  | S fuel =>
      let! deleted := order (rt_DeleteGuardianEventsBefore cutoffMS o.(options.batchSize)) in
      if deleted <? o.(options.batchSize) then done tt else delete_events fuel o cutoffMS
  end.

Definition keep_days (o : options) : Z := if o.(options.guardianKeepDays) <=? 0 then 7 else o.(options.guardianKeepDays).

Definition runGuardianEventRetention (fuel : nat) (o : options) : M unit :=
  let cutoffMS := AddDate o.(options.now) 0 0 (- keep_days o) in
  if o.(options.dryRun) then let! _ := ask (rt_CountGuardianEventsBefore cutoffMS) in done tt
  else delete_events fuel o cutoffMS.

(** What follows the connection and the schema. *)
Definition runRetention (fuel : nat) (o : options) : M unit := runBarRetention fuel o.

Definition runMaintenance (fuel : nat) (o : options) : M unit :=
  let! partitions := ask rt_ListBarHistoryPartitions in
  let expired := ExpiredTimeframePartitionNames partitions o.(options.now) in
  let! _ := (if o.(options.dryRun) then done tt
             else order (fun st => let '(err, st) := rt_DropBarHistoryPartitions expired st in
                                   (match err with Some e => Err e | None => Ok tt end, st))) in
  let! _ := runBarRetention fuel o in
  runGuardianEventRetention fuel o.
End retention.

(** ** The options *)

Definition normalizeTimeframes (raw : string) : option (list Frame) :=
  frames ← mapM must_normalize
    (List.filter (fun item => negb (bool_decide (item = ""))) (TrimSpace <$> split_on (Ascii.ascii_of_nat 44) raw));
  Some (foldl add_once [] frames).

(** [fmt.Sscanf] with %d reads the number in front and leaves the rest. *)
Definition leading_number (s : string) : option Z :=
  let '(neg, bs) := take_sign (string_bytes s) in
  match span_digits bs with
  | ((_ :: _) as ds, _) =>
      let n := if neg then - digits_value ds else digits_value ds in
      if (- two63 <=? n) && (n <? two63) then Some n else None
  | _ => None
  end.

Definition parseTimeOption (clock : Z) (raw : string) : result go_error Z :=
  let raw := TrimSpace raw in
  if bool_decide (raw = "") then Ok clock
  else
    match parse_RFC3339 (string_bytes raw), parse_day (string_bytes raw) with
    | Some t, _ => Ok t
    | None, Some t => Ok t
    | None, None =>
        match leading_number raw with
        | Some ms => if 0 <? ms then Ok ms else Err (Errorf "unsupported time %q")
        | None => Err (Errorf "unsupported time %q")
        end
    end.

Definition parseMonthOption (raw : string) : result go_error Z :=
  match string_bytes (TrimSpace raw) with
  | [a; b; c; d; sep; e; f] =>
      let month := digits_value [e - 48; f - 48] in
      if forallb is_digit [a; b; c; d; e; f] && (sep =? 45) && (1 <=? month) && (month <=? 12)
      then Ok (Date (digits_value [a - 48; b - 48; c - 48; d - 48]) month 1 0) else Err (Errorf "parsing time")
  | _ => Err (Errorf "parsing time")
  end.

Definition partitionOptions (o : options) : TimeframePartitionOptions :=
  TimeframePartitionOptions.mk o.(options.tableName) (Some o.(options.partitionStart)) o.(options.partitionMonths).
