(* ===== verification/MaintainSpec.v ===== *)
(** * What retention deletes, and what it keeps (cmd/maintain_klines)

    Over any table that does what the statements say ([RetentionStoreLaws]), a run of
    the retention keeps every candle its rule keeps, and one that ends without a limit
    of batches leaves nothing else; with enough fuel it ends ([retention_keeps]). *)

From S2P Require Import Maintain.

Local Open Scope string_scope.
Local Open Scope Z_scope.
Local Open Scope list_scope.

Definition from (c : Z) (s : gset Z) : gset Z := filter (fun x => c <= x) s.
Definition after (c : Z) (s : gset Z) : gset Z := filter (fun x => c < x) s.

(** The statements: DELETE with a LIMIT takes some of the rows before the cutoff, all of
    them when it takes fewer than the limit; the cutoff is the n-th newest start. *)
Class RetentionStoreLaws (St : Type) `{!RetentionStore St} : Prop := {
  rl_series tf st series : rt_BarSeriesForTimeframe tf st = Ok series →
    ∀ item, rt_starts st item tf ≠ ∅ → item ∈ series;
  rl_count item tf st n : rt_CountSeriesBars item tf st = Ok n → n = Z.of_nat (size (rt_starts st item tf));
  rl_cutoff item tf n st c : 0 < n → rt_SeriesBarCutoff item tf n st = Ok (Some c) →
    Z.of_nat (size (from c (rt_starts st item tf))) = n;
  rl_no_cutoff item tf n st : 0 < n → rt_SeriesBarCutoff item tf n st = Ok None →
    Z.of_nat (size (rt_starts st item tf)) < n;
  rl_delete item tf c limit st r st' : 0 < limit → rt_DeleteSeriesBarsBefore item tf c limit st = (r, st') →
    (∀ item' tf', (item', tf') ≠ (item, tf) → rt_starts st' item' tf' = rt_starts st item' tf') ∧
    match r with
    | Err _ => rt_starts st' item tf = rt_starts st item tf
    | Ok n => ∃ gone, gone ⊆ rt_starts st item tf ∧ (∀ x, x ∈ gone → x < c) ∧
        rt_starts st' item tf = rt_starts st item tf ∖ gone ∧ n = Z.of_nat (size gone) ∧
        (n < limit → ∀ x, x ∈ rt_starts st' item tf → c <= x)
    end }.

Section rules.
Context (now : Z).

(** The rule of a timeframe keeps the start [x] of the series [s]. *)
Definition keeps (tf : Frame) (s : gset Z) (x : Z) : Prop :=
  match CutoffMS (RuleFor tf) now with
  | Some c => c <= x
  | None => 0 < (RuleFor tf).(Rule.KeepBars) → Z.of_nat (size (after x s)) < (RuleFor tf).(Rule.KeepBars)
  end.
Definition cutoff_ok (tf : Frame) (s : gset Z) (c : Z) : Prop :=
  CutoffMS (RuleFor tf) now = Some c ∨
  CutoffMS (RuleFor tf) now = None ∧ 0 < (RuleFor tf).(Rule.KeepBars) <= Z.of_nat (size (from c s)).

Lemma keeps_subset tf s s' x : s' ⊆ s → keeps tf s x → keeps tf s' x.
Proof.
  intros Hs. unfold keeps. destruct (CutoffMS _ _); [done|]. intros H H0. specialize (H H0).
  assert (size (after x s') ≤ size (after x s))%nat by (apply subseteq_size; unfold after; set_solver). lia.
Qed.

Lemma cutoff_not_kept tf s c x : cutoff_ok tf s c → keeps tf s x → c <= x.
Proof.
  unfold keeps. intros [->|(-> & H0 & Hk)]; [done|]. intros H. specialize (H H0).
  destruct (Z.le_gt_cases c x) as [|Hlt]; [done|].
  assert (size (from c s) ≤ size (after x s))%nat.
  { apply subseteq_size. intros y [Hy ?]%elem_of_filter. apply elem_of_filter. split; [lia|done]. }
  lia.
Qed.

Lemma cutoff_ok_smaller tf s gone c : cutoff_ok tf s c → (∀ x, x ∈ gone → x < c) → cutoff_ok tf (s ∖ gone) c.
Proof.
  intros [H|(H1 & H0 & H2)] Hg; [by left|]. right. split; [done|].
  assert (from c (s ∖ gone) = from c s) as ->; [|done].
  apply set_eq. intros y. unfold from. rewrite !elem_of_filter, elem_of_difference. split; [tauto|].
  intros [Hy Hin]. split_and!; [done|done|]. intros Hin'. apply Hg in Hin'. lia.
Qed.

(** Past the cutoff of the n newest there are the n newest. *)
Lemma newest_kept tf s c :
  CutoffMS (RuleFor tf) now = None → Z.of_nat (size (from c s)) = (RuleFor tf).(Rule.KeepBars) →
  ∀ s' x, s' ⊆ s → (∀ y, y ∈ s' → c <= y) → x ∈ s' → keeps tf s' x.
Proof.
  intros Hc Hn s' x Hs Hall Hx. unfold keeps. rewrite Hc. intros H0. rewrite <- Hn.
  assert (Hlt : after x s' ⊂ from c s).
  { split; [intros y [Hy Hin]%elem_of_filter; apply elem_of_filter; auto|].
    intros Hsub. assert (x ∈ after x s') as [? _]%elem_of_filter; [|lia].
    apply Hsub, elem_of_filter. auto. }
  apply subset_size in Hlt. lia.
Qed.

Lemma few_kept tf s x : CutoffMS (RuleFor tf) now = None → Z.of_nat (size s) <= (RuleFor tf).(Rule.KeepBars) →
  x ∈ s → keeps tf s x.
Proof.
  intros Hc Hn Hx. unfold keeps. rewrite Hc. intros H0.
  assert (Hlt : after x s ⊂ s).
  { split; [unfold after; set_solver|]. intros Hsub. apply Hsub, elem_of_filter in Hx as [? _]. lia. }
  apply subset_size in Hlt. lia.
Qed.
End rules.

Section retention.
Context {St : Type} `{!RetentionStore St, !RetentionStoreLaws St} (o : options).
Notation now := o.(options.now).
Notation starts := rt_starts.

(** What every step does: rows go, but none that is kept. *)
Definition trims (st st' : St) : Prop :=
  ∀ item tf, starts st' item tf ⊆ starts st item tf ∧
    ∀ x, x ∈ starts st item tf → keeps now tf (starts st item tf) x → x ∈ starts st' item tf.
(** Nothing is left to delete in a series. *)
Definition settled (tf : Frame) (item : BarSeries) (st : St) : Prop :=
  ∀ x, x ∈ starts st item tf → keeps now tf (starts st item tf) x.
(** The fuel is enough for every series. *)
Definition fuelled (fuel : nat) (st : St) : Prop := ∀ item tf, (size (starts st item tf) < fuel)%nat.

Lemma trims_refl st : trims st st.
Proof. by split. Qed.
Lemma trims_trans st1 st2 st3 : trims st1 st2 → trims st2 st3 → trims st1 st3.
Proof.
  intros H1 H2 item tf. destruct (H1 item tf) as [S1 K1], (H2 item tf) as [S2 K2]. split; [set_solver|].
  intros x Hx Hk. apply K2; [by apply K1|]. by eapply keeps_subset.
Qed.
Lemma settled_trims tf item st st' : trims st st' → settled tf item st → settled tf item st'.
Proof. intros Ht Hs x Hx. destruct (Ht item tf) as [Hsub _]. eapply keeps_subset; [exact Hsub|]. apply Hs. set_solver. Qed.
Lemma fuelled_trims fuel st st' : trims st st' → fuelled fuel st → fuelled fuel st'.
Proof.
  intros Ht Hf item tf. destruct (Ht item tf) as [Hsub _]. specialize (Hf item tf). apply subseteq_size in Hsub. lia.
Qed.

Lemma delete_trims item tf c limit st r st' :
  0 < limit → cutoff_ok now tf (starts st item tf) c → rt_DeleteSeriesBarsBefore item tf c limit st = (r, st') →
  trims st st'.
Proof.
  intros Hl Hc Hd. apply rl_delete in Hd as [Hother Hr]; [|done]. intros item' tf'.
  destruct (decide ((item', tf') = (item, tf))) as [[= -> ->]|Hne]; [|by rewrite Hother].
  destruct r as [n|e]; [|by rewrite Hr]. destruct Hr as (gone & Hsub & Hlt & -> & _). split; [set_solver|].
  intros x Hx Hk. apply elem_of_difference. split; [done|]. intros Hg. apply Hlt in Hg.
  apply (cutoff_not_kept now tf _ c) in Hk; [lia|done].
Qed.

(** The batches of one series. *)
Lemma delete_batches_spec fuel item tf c batches st r st' :
  0 < o.(options.batchSize) → cutoff_ok now tf (starts st item tf) c →
  delete_batches fuel o item tf c batches st = (r, st') →
  trims st st' ∧ ((size (starts st item tf) < fuel)%nat → r ≠ None) ∧
  ∀ batches' limited, r = Some (Ok (batches', limited)) →
    (o.(options.maxBatches) <= 0 → limited = false) ∧
    (limited = false → ∀ x, x ∈ starts st' item tf → c <= x).
Proof.
  intros Hb. revert batches st. induction fuel as [|fuel IH]; intros batches st Hc Hrun.
  { injection Hrun as <- <-. split_and!; [apply trims_refl|lia|done]. }
  simpl in Hrun. unfold and_then, order in Hrun.
  destruct (rt_DeleteSeriesBarsBefore item tf c o.(options.batchSize) st) as [[n|e] st1] eqn:Ed.
  2: { injection Hrun as <- <-. split_and!; [by eapply delete_trims|done|done]. }
  pose proof (delete_trims _ _ _ _ _ _ _ Hb Hc Ed) as Ht.
  apply rl_delete in Ed as [_ (gone & Hsub & Hlt & Est & En & Hall)]; [|done].
  destruct ((0 <? o.(options.maxBatches)) && (o.(options.maxBatches) <=? batches + 1)) eqn:Em.
  { injection Hrun as <- <-. split_and!; [done|done|]. intros b l [= <- <-]. split; [|done]. zbool. lia. }
  destruct (n <? o.(options.batchSize)) eqn:El.
  { injection Hrun as <- <-. split_and!; [done|done|]. intros b l [= <- <-]. split; [done|]. intros _. apply Hall. zbool. lia. }
  assert (Hc1 : cutoff_ok now tf (starts st1 item tf) c) by (rewrite Est; by apply cutoff_ok_smaller).
  destruct (IH _ _ Hc1 Hrun) as (Ht1 & Hf & Hr). split_and!; [by eapply trims_trans| |done].
  intros Hs. apply Hf. rewrite Est, size_difference by done. zbool.
  assert (size gone ≤ size (starts st item tf))%nat by by apply subseteq_size. lia.
Qed.

(** What a way to retain one series must do. *)
Definition retains (fuel : nat) (tf : Frame) (retain : BarSeries → Z → tableM St (Z * bool)) : Prop :=
  ∀ item batches st r st', retain item batches st = (r, st') →
    trims st st' ∧ (fuelled fuel st → r ≠ None) ∧
    ∀ batches' limited, r = Some (Ok (batches', limited)) →
      o.(options.maxBatches) <= 0 → limited = false ∧ (o.(options.dryRun) = false → settled tf item st').

Lemma each_series_spec fuel tf retain series batches st r st' :
  retains fuel tf retain → each_series retain series batches st = (r, st') →
  trims st st' ∧ (fuelled fuel st → r ≠ None) ∧
  (r = Some (Ok tt) → o.(options.maxBatches) <= 0 → o.(options.dryRun) = false →
     ∀ item, item ∈ series → settled tf item st').
Proof.
  intros Hret. revert batches st. induction series as [|item series IH]; intros batches st Hrun; simpl in Hrun.
  { injection Hrun as <- <-. split_and!; [apply trims_refl|done|by intros _ _ _ ? ?%not_elem_of_nil]. }
  unfold and_then in Hrun. destruct (retain item batches st) as [[[[b l]|e]|] st1] eqn:Er;
    destruct (Hret _ _ _ _ _ Er) as (Ht & Hf & Hr).
  - destruct l.
    + injection Hrun as <- <-. split_and!; [done|done|]. intros _ Hm _. by destruct (Hr b true eq_refl Hm).
    + destruct (IH _ _ Hrun) as (Ht1 & Hf1 & Hr1). split_and!; [by eapply trims_trans| |].
      * intros H. by eapply Hf1, fuelled_trims.
      * intros E Hm Hd item' [->|Hin]%elem_of_cons; [|by apply Hr1].
        destruct (Hr b false eq_refl Hm) as [_ Hs]. eapply settled_trims; [exact Ht1|]. by apply Hs.
  - injection Hrun as <- <-. by split_and!.
  - injection Hrun as <- <-. split_and!; [done|by intros H; apply Hf in H|done].
Qed.

Lemma rule_cutoff tf : (0 <? (RuleFor tf).(Rule.KeepBars)) = true → CutoffMS (RuleFor tf) now = None.
Proof. intros H. unfold CutoffMS. by rewrite H, orb_true_r. Qed.

Lemma retain_bars_retains fuel tf :
  0 < o.(options.batchSize) → (0 <? (RuleFor tf).(Rule.KeepBars)) = true →
  retains fuel tf (retain_bars fuel o tf (RuleFor tf).(Rule.KeepBars)).
Proof.
  intros Hb H0 item batches st r st' Hrun. pose proof (rule_cutoff tf H0) as Hc. apply Z.ltb_lt in H0.
  unfold retain_bars, and_then, ask in Hrun.
  destruct (rt_CountSeriesBars item tf st) as [n|e] eqn:En; [|injection Hrun as <- <-; by split_and!].
  apply rl_count in En as ->.
  destruct o.(options.dryRun) eqn:Edry.
  { injection Hrun as <- <-. split_and!; [apply trims_refl|done|]. by intros b l [= <- <-]. }
  destruct (Z.max 0 _ =? 0) eqn:Ee.
  { injection Hrun as <- <-. split_and!; [apply trims_refl|done|]. intros b l [= <- <-] _. split; [done|]. intros _ x Hx.
    apply few_kept; [done| |done]. zbool. lia. }
  destruct (rt_SeriesBarCutoff item tf _ st) as [[c|]|e] eqn:Ec.
  - apply rl_cutoff in Ec as Hn; [|done].
    destruct (delete_batches_spec fuel item tf c batches st r st') as (Ht & Hf & Hr); [done|right; split; [done|lia]|done|].
    split_and!; [done|intros H; apply Hf, H|]. intros b l E Hm. destruct (Hr b l E) as [Hl Hall]. split; [by apply Hl|].
    intros _ x Hx. eapply newest_kept; [done|exact Hn|by destruct (Ht item tf)|by apply Hall, Hl|done].
  - apply rl_no_cutoff in Ec; [|done]. zbool. lia.
  - injection Hrun as <- <-. by split_and!.
Qed.

Lemma delete_batches_retains fuel tf c :
  0 < o.(options.batchSize) → CutoffMS (RuleFor tf) now = Some c →
  retains fuel tf (fun item batches => delete_batches fuel o item tf c batches).
Proof.
  intros Hb Hc item batches st r st' Hrun.
  destruct (delete_batches_spec fuel item tf c batches st r st') as (Ht & Hf & Hr); [done|by left|done|].
  split_and!; [done|intros H; apply Hf, H|]. intros b l E Hm. destruct (Hr b l E) as [Hl Hall]. split; [by apply Hl|].
  intros _ x Hx. unfold keeps. rewrite Hc. by apply Hall; [apply Hl|].
Qed.

(** After the loop over the series of a timeframe nothing is left in any series. *)
Lemma all_settled tf st st' series :
  trims st st' → rt_BarSeriesForTimeframe tf st = Ok series →
  (∀ item, item ∈ series → settled tf item st') → ∀ item, settled tf item st'.
Proof.
  intros Ht Es Hall item. destruct (decide (item ∈ series)) as [Hin|Hout]; [by apply Hall|].
  intros x Hx. destruct Hout. apply (rl_series tf st series Es). destruct (Ht item tf) as [Hsub _]. set_solver.
Qed.
(** One timeframe: as for one series, for all of them. *)
Definition frame_done (fuel : nat) (tf : Frame) (st : St) (r : option (result go_error unit)) (st' : St) : Prop :=
  trims st st' ∧ (fuelled fuel st → r ≠ None) ∧
  (r = Some (Ok tt) → o.(options.maxBatches) <= 0 → o.(options.dryRun) = false → ∀ item, settled tf item st').

Lemma each_series_done fuel tf retain st r st' :
  retains fuel tf retain →
  (let! series := ask (rt_BarSeriesForTimeframe tf) in each_series retain series 0) st = (r, st') → frame_done fuel tf st r st'.
Proof.
  intros Hret Hrun. unfold and_then, ask in Hrun.
  destruct (rt_BarSeriesForTimeframe tf st) as [series|e] eqn:Es; [|injection Hrun as <- <-; by split_and!].
  destruct (each_series_spec fuel tf _ _ _ _ _ _ Hret Hrun) as (Ht & Hf & Hr). split_and!; [done|done|].
  intros E Hm Hd. eapply all_settled; [exact Ht|exact Es|]. by apply Hr.
Qed.

Lemma retain_frame_done fuel tf st r st' :
  0 < o.(options.batchSize) → retain_frame fuel o tf st = (r, st') → frame_done fuel tf st r st'.
Proof.
  intros Hb Hrun. unfold retain_frame in Hrun.
  destruct (0 <? (RuleFor tf).(Rule.KeepBars)) eqn:E0.
  { eapply each_series_done; [by apply retain_bars_retains|exact Hrun]. }
  destruct (CutoffMS (RuleFor tf) now) as [c|] eqn:Ec.
  2: { injection Hrun as <- <-. split_and!; [apply trims_refl|done|]. intros _ _ _ item x Hx. unfold keeps. rewrite Ec.
       zbool. lia. }
  destruct o.(options.dryRun) eqn:Edry.
  - unfold and_then, ask in Hrun. destruct (rt_CountBarsBefore tf c st); injection Hrun as <- <-;
      (split_and!; [apply trims_refl|done|congruence]).
  - eapply each_series_done; [by apply delete_batches_retains|exact Hrun].
Qed.

Lemma retain_frames_done fuel frames st r st' :
  0 < o.(options.batchSize) → retain_frames fuel o frames st = (r, st') →
  trims st st' ∧ (fuelled fuel st → r ≠ None) ∧
  (r = Some (Ok tt) → o.(options.maxBatches) <= 0 → o.(options.dryRun) = false →
     ∀ tf item, tf ∈ frames → settled tf item st').
Proof.
  intros Hb. revert st. induction frames as [|tf frames IH]; intros st Hrun; simpl in Hrun.
  { injection Hrun as <- <-. split_and!; [apply trims_refl|done|by intros _ _ _ ? ? ?%not_elem_of_nil]. }
  unfold and_then in Hrun. destruct (retain_frame fuel o tf st) as [[[[]|e]|] st1] eqn:Er;
    destruct (retain_frame_done _ _ _ _ _ Hb Er) as (Ht & Hf & Hr).
  - destruct (IH _ Hrun) as (Ht1 & Hf1 & Hr1). split_and!; [by eapply trims_trans|by intros H; eapply Hf1, fuelled_trims|].
    intros E Hm Hd tf' item [->|Hin]%elem_of_cons; [|by apply Hr1]. eapply settled_trims; [exact Ht1|]. by apply Hr.
  - injection Hrun as <- <-. by split_and!.
  - injection Hrun as <- <-. split_and!; [done|by intros H; apply Hf in H|done].
Qed.
End retention.

(** A dry run asks and changes nothing. *)
Lemma dry_run_same {St} `{!RetentionStore St} fuel (o : options) frames (st : St) :
  o.(options.dryRun) = true → (retain_frames fuel o frames st).2 = st.
Proof.
  intros Hd.
  assert (Hbars : ∀ tf keepBars item batches, (retain_bars fuel o tf keepBars item batches st).2 = st).
  { intros. unfold retain_bars, and_then, ask. rewrite Hd. by destruct (rt_CountSeriesBars item tf st). }
  assert (Heach : ∀ tf keepBars series batches, (each_series (retain_bars fuel o tf keepBars) series batches st).2 = st).
  { intros tf keepBars series. induction series as [|item series IH]; intros batches; [done|]. simpl. unfold and_then.
    specialize (Hbars tf keepBars item batches). destruct (retain_bars _ _ _ _ _ _ _) as [[[[b []]|e]|] st1]; by simplify_eq/=. }
  induction frames as [|tf frames IH]; [done|]. simpl. unfold and_then at 1.
  assert (Hone : (retain_frame fuel o tf st).2 = st).
  { unfold retain_frame. case_bool; [|destruct (CutoffMS _ _); [rewrite Hd|done]].
    - unfold and_then, ask. destruct (rt_BarSeriesForTimeframe tf st); [apply Heach|done].
    - unfold and_then, ask. by destruct (rt_CountBarsBefore tf _ st). }
  destruct (retain_frame fuel o tf st) as [[[u|e]|] st1]; cbn in Hone; subst st1; [exact IH|done|done].
Qed.

(** C18: retention deletes only what the rules of the timeframes no longer keep, and all
    of that.  Whatever happens, errors and limits included, no row is added and every
    candle that its rule keeps (by the cutoff of its age, or among the newest of its
    series) is still there; a dry run changes nothing; a run that ends without error and
    without a limit on the batches leaves in every series of its timeframes only candles
    that are kept; and with more fuel than a series has rows it ends. *)
Theorem retention_keeps {St} `{!RetentionStore St, !RetentionStoreLaws St} fuel (o : options) (st : St) r st' :
  0 < o.(options.batchSize) → runBarRetention fuel o st = (r, st') →
  (∀ item tf, rt_starts st' item tf ⊆ rt_starts st item tf ∧
     ∀ start, start ∈ rt_starts st item tf → keeps o.(options.now) tf (rt_starts st item tf) start →
       start ∈ rt_starts st' item tf) ∧
  (o.(options.dryRun) = true → st' = st) ∧
  (r = Some (Ok tt) → o.(options.maxBatches) <= 0 → o.(options.dryRun) = false →
     ∀ tf item start, tf ∈ o.(options.timeframes) → start ∈ rt_starts st' item tf →
       keeps o.(options.now) tf (rt_starts st' item tf) start) ∧
  ((∀ item tf, (size (rt_starts st item tf) < fuel)%nat) → r ≠ None).
Proof.
  intros Hb Hrun. destruct (retain_frames_done o fuel _ st r st' Hb Hrun) as (Ht & Hf & Hr).
  split_and!; [exact Ht| | |exact Hf].
  - intros Hd. pose proof (dry_run_same fuel o o.(options.timeframes) st Hd) as H.
    unfold runBarRetention in Hrun. by rewrite Hrun in H.
  - intros E Hm Hd tf item start Htf. by apply Hr.
Qed.

(** ** A table with one series *)

Definition minute_series : BarSeries := BarSeries.mk "okx" "BTC-USDT".
Definition is_minutes (item : BarSeries) (tf : Frame) : bool := bool_decide (item = minute_series) && bool_decide (tf = F1m).
Definition older (c limit : Z) (s : gset Z) : gset Z := list_to_set (take (Z.to_nat limit) (elements (filter (fun x => x < c) s))).

#[export] Instance minute_table : RetentionStore (gset Z) := {
  rt_starts st item tf := if is_minutes item tf then st else ∅;
  rt_partitions _ := []; rt_events _ := [];
  rt_BarSeriesForTimeframe tf _ := Ok (if bool_decide (tf = F1m) then [minute_series] else []);
  rt_CountSeriesBars item tf st := Ok (if is_minutes item tf then Z.of_nat (size st) else 0);
  rt_SeriesBarCutoff item tf n st :=
    if is_minutes item tf then
      match List.find (fun x => Z.of_nat (size (from x st)) =? n) (elements st) with
      | Some x => Ok (Some x)
      | None => if n <=? Z.of_nat (size st) then Err (Errorf "no such row") else Ok None
      end
    else Ok None;
  rt_DeleteSeriesBarsBefore item tf c limit st :=
    if is_minutes item tf then (Ok (Z.of_nat (size (older c limit st))), st ∖ older c limit st) else (Ok 0, st);
  rt_CountBarsBefore tf c st := Ok (if bool_decide (tf = F1m) then Z.of_nat (size (filter (fun x => x < c) st)) else 0);
  rt_ListBarHistoryPartitions _ := Ok []; rt_DropBarHistoryPartitions _ st := (None, st);
  rt_CountGuardianEventsBefore _ _ := Ok 0; rt_DeleteGuardianEventsBefore _ _ st := (Ok 0, st) }.

Lemma is_minutes_true item tf : is_minutes item tf = true → item = minute_series ∧ tf = F1m.
Proof. unfold is_minutes. by intros [?%bool_decide_eq_true ?%bool_decide_eq_true]%andb_true_iff. Qed.

#[export] Instance minute_table_laws : RetentionStoreLaws (gset Z).
Proof.
  split; simpl.
  - intros tf st series [= <-] item Hne. destruct (is_minutes item tf) eqn:E; [|done].
    apply is_minutes_true in E as [-> ->]. rewrite bool_decide_true by done. left.
  - intros item tf st n [= <-]. destruct (is_minutes item tf); [done|by rewrite size_empty].
  - intros item tf n st c H0. destruct (is_minutes item tf); [|done].
    destruct (List.find _ _) as [x|] eqn:Ef; [|by case_match]. intros [= <-].
    apply find_some in Ef as [_ ?]. zbool. done.
  - intros item tf n st H0. destruct (is_minutes item tf); [|intros _; rewrite size_empty; lia].
    destruct (List.find _ _); [done|]. case_match; [done|]. intros _. zbool. lia.
  - intros item tf c limit st r st' Hl. destruct (is_minutes item tf) eqn:E.
    + apply is_minutes_true in E as [-> ->]. intros [= <- <-]. split.
      * intros item' tf' Hne. destruct (is_minutes item' tf') eqn:E; [|done]. by apply is_minutes_true in E as [-> ->].
      * exists (older c limit st). unfold older.
        assert (Hin : ∀ x, x ∈ (list_to_set (take (Z.to_nat limit) (elements (filter (fun x => x < c) st))) : gset Z) → x < c ∧ x ∈ st).
        { intros x Hx. apply elem_of_list_to_set, elem_of_take in Hx as (i & Hx & _). apply list_elem_of_lookup_2 in Hx.
          by apply elem_of_elements, elem_of_filter in Hx. }
        split_and!; [intros x Hx; by apply Hin|by intros x Hx; apply Hin|done|done|].
        rewrite size_list_to_set by (eapply sublist_NoDup; [apply (NoDup_elements (C:=gset Z))|apply sublist_take]).
        rewrite length_take. intros Hlt x [Hx Hout]%elem_of_difference. destruct (Z.le_gt_cases c x) as [|Hc]; [done|].
        destruct Hout. rewrite take_ge by lia. apply elem_of_list_to_set, elem_of_elements, elem_of_filter. done.
    + intros [= <- <-]. split; [done|]. exists ∅. split_and!; set_solver.
Qed.

Definition sample_maintain : options :=
  options.mk "retention" [F1m; F1D] false 1 0 1779300000000 "bar_history" 1767225600000 12 7.
Definition sample_minutes : gset Z := {[1778000000000; 1778000060000; 1779262200000]}.

Example retention_keeps_witness :
  let '(r, st') := runBarRetention 5 sample_maintain sample_minutes in
  r = Some (Ok tt) ∧ elements st' = [1779262200000] ∧
  ∀ start, start ∈ rt_starts st' minute_series F1m → keeps 1779300000000 F1m (rt_starts st' minute_series F1m) start.
Proof.
  destruct (runBarRetention 5 sample_maintain sample_minutes) as [r st'] eqn:E.
  assert (Hv : r = Some (Ok tt) ∧ elements st' = [1779262200000])
    by (vm_compute in E; injection E as <- <-; split; vm_compute; reflexivity).
  destruct Hv as [H1 H2]. split; [exact H1|]. split; [exact H2|].
  destruct (retention_keeps 5 sample_maintain sample_minutes r st' eq_refl E) as (_ & _ & Hall & _).
  intros start. apply (Hall H1); [discriminate|reflexivity|left].
Defined.
