(* ===== verification/Watchdog.v ===== *)
(** * The watchdog (cmd/health_watchdog/main.go)

    Every [Interval] the watchdog asks the service whether it is ready, systemd how
    often it was restarted and the filesystem how full it is; its [state], written to a
    file after every check, decides which cards it sends.  A check is a program over
    [watchdogE]; a card that cannot be sent is only logged.  The text of an error and
    the zone of the machine are arguments; instants are nanoseconds. *)

From S2P Require Export GoTime Notify.

Local Open Scope string_scope.
Local Open Scope Z_scope.
Local Open Scope list_scope.
Local Open Scope prog_scope.

Module config.
Record config : Type := mk {
  ReadyURL : string; DiskPath : string; StateFile : string; Interval : Z; HTTPTimeout : Z; WebhookURL : string;
  ServiceUnit : string; DryRun : bool; Once : bool; TestNotify : bool }.
End config.
Notation config := config.config.

Module readyResponse.
Record readyResponse : Type := mk { OK : bool; StartedAtMS : Z }.
Definition zero : readyResponse := mk false 0.
End readyResponse.
Notation readyResponse := readyResponse.readyResponse.

Module state.
Record state : Type := mk {
  ConsecutiveFailures : Z; HealthyChecks : Z; ServiceAlert : bool; LastStartedAtMS : Z; RestartTimesMS : list Z;
  RestartAlert : bool; LastRestartCount : Z; RestartCountSet : bool; DiskLevel : string }.
Definition zero : state := mk 0 0 false 0 [] false 0 false "".
Definition set_service (failures healthy : Z) (alert : bool) (s : state) : state :=
  mk failures healthy alert s.(LastStartedAtMS) s.(RestartTimesMS) s.(RestartAlert) s.(LastRestartCount)
    s.(RestartCountSet) s.(DiskLevel).
Definition set_LastStartedAtMS (startedAt : Z) (s : state) : state :=
  mk s.(ConsecutiveFailures) s.(HealthyChecks) s.(ServiceAlert) startedAt s.(RestartTimesMS) s.(RestartAlert)
    s.(LastRestartCount) s.(RestartCountSet) s.(DiskLevel).
Definition set_restarts (times : list Z) (alert : bool) (s : state) : state :=
  mk s.(ConsecutiveFailures) s.(HealthyChecks) s.(ServiceAlert) s.(LastStartedAtMS) times alert
    s.(LastRestartCount) s.(RestartCountSet) s.(DiskLevel).
Definition set_count (count : Z) (s : state) : state :=
  mk s.(ConsecutiveFailures) s.(HealthyChecks) s.(ServiceAlert) s.(LastStartedAtMS) s.(RestartTimesMS) s.(RestartAlert)
    count true s.(DiskLevel).
Definition set_DiskLevel (level : string) (s : state) : state :=
  mk s.(ConsecutiveFailures) s.(HealthyChecks) s.(ServiceAlert) s.(LastStartedAtMS) s.(RestartTimesMS) s.(RestartAlert)
    s.(LastRestartCount) s.(RestartCountSet) level.
End state.
Notation state := state.state.

(** [GetReady] answers the status and what the body decodes to; [Systemctl] what
    "systemctl show" prints; [Statfs] the blocks of a filesystem and those that are
    available. *)
Inductive watchdogE : Type → Type :=
| Now : watchdogE Z
| GetReady (url : string) : watchdogE (result go_error (Z * result go_error readyResponse))
| Systemctl (unit_name : string) : watchdogE (result go_error string)
| Statfs (path : string) : watchdogE (result go_error (Z * Z))
| Send (card : Card) : watchdogE (option go_error)
| SaveState (s : state) : watchdogE (option go_error).

Notation wprog := (prog watchdogE).

(** ** What is read *)

Definition checkReady (cfg : config) : wprog (readyResponse * option go_error) :=
  reply <- trigger (GetReady cfg.(config.ReadyURL)) ;;
  Ret (match reply with
       | Err e => (readyResponse.zero, Some e)
       | Ok (_, Err e) => (readyResponse.zero, Some (Wrapf "decode readiness: %w" e))
       | Ok (status, Ok ready) =>
           if negb (status =? 200) || negb ready.(readyResponse.OK)
           then (ready, Some (Errorf "readiness status=%d body=%s")) else (ready, None)
       end).

(** [strconv.ParseUint(s, 10, 64)]. *)
Definition ParseUint (s : string) : option Z :=
  match span_digits (string_bytes s) with
  | ((_ :: _) as ds, []) => let n := digits_value ds in if n <? two64 then Some n else None
  | _ => None
  end.

Definition systemdRestartCount (cfg : config) : wprog (result go_error Z) :=
  body <- trigger (Systemctl cfg.(config.ServiceUnit)) ;;
  Ret (match body with
       | Err e => Err e
       | Ok body => match ParseUint (TrimSpace body) with Some n => Ok n | None => Err (Errorf "strconv.ParseUint") end
       end).

Definition f64_percent : float64 := Eval vm_compute in f64_of_Z 100.
Definition diskUsagePercent (cfg : config) : wprog (result go_error float64) :=
  stats <- trigger (Statfs cfg.(config.DiskPath)) ;;
  Ret (match stats with
       | Err e => Err e
       | Ok (blocks, bavail) =>
           if blocks =? 0 then Ok f64_zero
           else
             let used := (blocks - bavail) mod two64 in
             Ok (f64_mul (f64_div (f64_of_Z used) (f64_of_Z blocks)) f64_percent)
       end).

(** ** What is decided *)

Section watchdog.
Context (Local_ : time_zone) (ErrorText : go_error → string).

Definition line_break : string := String (of_byte 10) "".
Definition time_line (now : Z) : string := ("**时间**: `" ++ RFC3339 Local_ now ++ "`")%string.

Definition send (cfg : config) (title template body : string) : wprog unit :=
  if cfg.(config.DryRun) then Ret tt else _ <- trigger (Send (Card.mk title template body)) ;; Ret tt.

Definition evaluateService (cfg : config) (now : Z) (ready : readyResponse) (err : option go_error) (s : state) : wprog state :=
  match err with
  | Some e =>
      let failures := i64 (s.(state.ConsecutiveFailures) + 1) in
      if (2 <=? failures) && negb s.(state.ServiceAlert) then
        send cfg "行情服务不可用" "red"
          (time_line now ++ line_break ++ "**连续失败**: `" ++ decimal_text failures ++ "`" ++ line_break ++ "**检查地址**: `" ++
           cfg.(config.ReadyURL) ++ "`" ++ line_break ++ "**错误**: " ++ ErrorText e)%string ;;
        Ret (state.set_service failures 0 true s)
      else Ret (state.set_service failures 0 s.(state.ServiceAlert) s)
  | None =>
      if negb s.(state.ServiceAlert) then Ret (state.set_service 0 0 false s)
      else
        let healthy := i64 (s.(state.HealthyChecks) + 1) in
        if 2 <=? healthy then
          send cfg "行情服务已恢复" "green"
            (time_line now ++ line_break ++ "**进程启动时间**: `" ++
             RFC3339 Local_ (ready.(readyResponse.StartedAtMS) * Millisecond) ++ "`")%string ;;
          Ret (state.set_service 0 0 false s)
        else Ret (state.set_service 0 healthy true s)
  end.

Definition evaluateRestartWindow (cfg : config) (now : Z) (s : state) : wprog state :=
  let cutoff := (now - 10 * Minute) / Millisecond in
  let filtered := List.filter (fun item => cutoff <=? item) s.(state.RestartTimesMS) in
  let n := Z.of_nat (length filtered) in
  if (3 <=? n) && negb s.(state.RestartAlert) then
    send cfg "行情服务频繁重启" "red"
      (time_line now ++ line_break ++ "**10 分钟重启次数**: `" ++ decimal_text n ++ "`")%string ;;
    Ret (state.set_restarts filtered true s)
  else if (n =? 0) && s.(state.RestartAlert) then
    send cfg "行情服务重启风暴已恢复" "green" (time_line now ++ line_break ++ "最近 10 分钟没有再次重启")%string ;;
    Ret (state.set_restarts filtered false s)
  else Ret (state.set_restarts filtered s.(state.RestartAlert) s).

(** Whether a restart was counted, and the state. *)
Definition evaluateRestartCount (cfg : config) (now count : Z) (s : state) : wprog (bool * state) :=
  let counted := s.(state.RestartCountSet) && (s.(state.LastRestartCount) <? count) in
  let times := if counted
               then s.(state.RestartTimesMS) ++ repeat (now / Millisecond) (Z.to_nat (count - s.(state.LastRestartCount)))
               else s.(state.RestartTimesMS) in
  s <- evaluateRestartWindow cfg now (state.set_count count (state.set_restarts times s.(state.RestartAlert) s)) ;;
  Ret (counted, s).

Definition evaluateRestarts (cfg : config) (now : Z) (ready : readyResponse) (countedBySystemd : bool) (s : state) : wprog state :=
  let startedAt := ready.(readyResponse.StartedAtMS) in
  if startedAt <=? 0 then Ret s
  else
    let restarted := negb countedBySystemd && (0 <? s.(state.LastStartedAtMS)) && negb (startedAt =? s.(state.LastStartedAtMS)) in
    let times := if restarted then s.(state.RestartTimesMS) ++ [now / Millisecond] else s.(state.RestartTimesMS) in
    evaluateRestartWindow cfg now (state.set_LastStartedAtMS startedAt (state.set_restarts times s.(state.RestartAlert) s)).

Definition f64_90 : float64 := Eval vm_compute in f64_of_Z 90.
Definition f64_85 : float64 := Eval vm_compute in f64_of_Z 85.
Definition f64_80 : float64 := Eval vm_compute in f64_of_Z 80.
Definition f64_75 : float64 := Eval vm_compute in f64_of_Z 75.

(** The title, the template and the new level, when there is something to say. *)
Definition disk_change (previous : string) (usage : float64) : option (string * string * string) :=
  let level := if f64_geb usage f64_90 then "critical" else if f64_geb usage f64_80 then "warning" else "ok" in
  if bool_decide (level = "critical") && negb (bool_decide (previous = "critical"))
  then Some ("磁盘空间严重不足", "red", level)
  else if bool_decide (level = "warning") && bool_decide (previous = "ok") then Some ("磁盘空间告警", "orange", level)
  else if bool_decide (previous = "critical") && f64_ltb usage f64_85 then
    if f64_geb usage f64_80 then Some ("磁盘空间由严重降为警告", "orange", "warning")
    else if f64_ltb usage f64_75 then Some ("磁盘空间已恢复", "green", "ok")
    else None
  else if bool_decide (previous = "warning") && f64_ltb usage f64_75 then Some ("磁盘空间已恢复", "green", "ok")
  else None.

Definition known_level (level : string) : string := if bool_decide (level = "") then "ok" else level.

(** The cards on a full disk have the time as well. *)
Definition disk_body (cfg : config) (now : Z) (usage : float64) (timed : bool) : string :=
  ("**路径**: `" ++ cfg.(config.DiskPath) ++ "`" ++ line_break ++ "**使用率**: `" ++ fixed2 usage ++ "%`" ++
   if timed then line_break ++ time_line now else "")%string.

Definition evaluateDisk (cfg : config) (now : Z) (usage : float64) (s : state) : wprog state :=
  match disk_change (known_level s.(state.DiskLevel)) usage with
  | None => Ret s
  | Some (title, template, level) =>
      send cfg title template
        (disk_body cfg now usage (bool_decide (title ∈ ["磁盘空间严重不足"; "磁盘空间告警"]))) ;;
      Ret (state.set_DiskLevel level s)
  end.

Definition checkOnce (cfg : config) (s : state) : wprog (option go_error * state) :=
  now <- trigger Now ;;
  '(ready, err) <- checkReady cfg ;;
  s <- evaluateService cfg now ready err s ;;
  restarts <- systemdRestartCount cfg ;;
  '(counted, s) <- (match restarts with
                    | Ok count => evaluateRestartCount cfg now count s
                    | Err _ => Ret (false, s)
                    end) ;;
  s <- evaluateRestarts cfg now ready counted s ;;
  usage <- diskUsagePercent cfg ;;
  s <- (match usage with Ok usage => evaluateDisk cfg now usage s | Err _ => Ret s end) ;;
  saved <- trigger (SaveState s) ;;
  Ret (saved, s).

(** The loop of [main], for a number of checks. *)
Fixpoint check_loop (cfg : config) (checks : nat) (s : state) : wprog state :=
  match checks with
  | O => Ret s
  | S checks => '(_, s) <- checkOnce cfg s ;; check_loop cfg checks s
  end.

Definition sendTestNotification (cfg : config) : wprog (option go_error) :=
  if cfg.(config.DryRun) then Ret None
  else
    now <- trigger Now ;;
    trigger (Send (Card.mk "行情监控测试通知" "blue"
      ("**状态**: 部署验证" ++ line_break ++ time_line now ++ line_break ++ "**检查地址**: `" ++ cfg.(config.ReadyURL) ++ "`")%string)).
End watchdog.

(** ** The configuration *)

Section configuration.
Context (Getenv : string → string).

Definition trimmed_env (name fallback : string) : string :=
  let value := TrimSpace (Getenv name) in if bool_decide (value = "") then fallback else value.
Definition number_env (name : string) (fallback : Z) : Z :=
  let value := TrimSpace (Getenv name) in
  if bool_decide (value = "") then fallback
  else let '(n, ok) := ParseInt value in if ok : bool then n else fallback.

Definition loadConfig (once dryRun testNotify : bool) : config :=
  config.mk (trimmed_env "WATCHDOG_READY_URL" "http://127.0.0.1:8088/readyz") (trimmed_env "WATCHDOG_DISK_PATH" "/opt/crypto_ticket")
    (trimmed_env "WATCHDOG_STATE_FILE" "/var/lib/crypto-ticket-watchdog/state.json")
    (i64 (number_env "WATCHDOG_INTERVAL_SECONDS" 30 * Second)) (i64 (number_env "WATCHDOG_HTTP_TIMEOUT_SECONDS" 5 * Second))
    (Getenv "FEISHU_WEBHOOK_URL") (trimmed_env "WATCHDOG_SERVICE_UNIT" "crypto-ticket.service") dryRun once testNotify.
End configuration.

(** ** When the service is reported *)

(** What the answers about readiness were. *)
Definition answered_ready (reply : result go_error (Z * result go_error readyResponse)) : bool :=
  match reply with Ok (status, Ok ready) => (status =? 200) && ready.(readyResponse.OK) | _ => false end.
Definition readiness_of (c : call watchdogE) : option bool :=
  match c with
  | Call e x => match e in watchdogE X return X → option bool with
                | GetReady _ => fun x => Some (answered_ready x)
                | _ => fun _ => None
                end x
  end.
Definition readiness (tr : list (call watchdogE)) : list bool := omap readiness_of tr.

(** The cards on the service: [true] that it is down, [false] that it is back. *)
Definition service_card_of (c : call watchdogE) : option bool :=
  match c with
  | Call e x => match e in watchdogE X return X → option bool with
                | Send card => fun _ =>
                    if bool_decide (card.(Card.Title) = "行情服务不可用") then Some true
                    else if bool_decide (card.(Card.Title) = "行情服务已恢复") then Some false else None
                | _ => fun _ => None
                end x
  end.
Definition service_cards (tr : list (call watchdogE)) : list bool := omap service_card_of tr.

(** The latest two equal answers in a row decide; the latest answer comes first. *)
Fixpoint service_down (answers : list bool) : bool :=
  match answers with
  | x :: ((y :: _) as rest) => if eqb x y then negb x else service_down rest
  | _ => false
  end.

(** The cards take turns, the first of them [b]. *)
Fixpoint take_turns (b : bool) (cards : list bool) : Prop :=
  match cards with [] => True | c :: rest => c = b ∧ take_turns (negb b) rest end.

Definition service_of (s : state) : Z * Z * bool :=
  (s.(state.ConsecutiveFailures), s.(state.HealthyChecks), s.(state.ServiceAlert)).

(** A part of a check that has nothing to do with the service. *)
Definition aside (tr : list (call watchdogE)) (s s' : state) : Prop :=
  readiness tr = [] ∧ service_cards tr = [] ∧ service_of s' = service_of s.

(** The state goes with the answers so far, the latest first. *)
Definition follows (answers : list bool) (s : state) : Prop :=
  s.(state.ServiceAlert) = service_down answers ∧
  (s.(state.ServiceAlert) = false →
     s.(state.ConsecutiveFailures) = (if bool_decide (head answers = Some false) then 1 else 0)) ∧
  (s.(state.ServiceAlert) = true →
     s.(state.HealthyChecks) = (if bool_decide (head answers = Some true) then 1 else 0)).

Section service.
Context (Local_ : time_zone) (ErrorText : go_error → string) (cfg : config).
Notation evaluateService := (evaluateService Local_ ErrorText cfg).
Notation evaluateRestartWindow := (evaluateRestartWindow Local_ cfg).
Notation checkOnce := (checkOnce Local_ ErrorText cfg).
Notation check_loop := (check_loop Local_ ErrorText cfg).

Lemma readiness_app tr1 tr2 : readiness (tr1 ++ tr2) = readiness tr1 ++ readiness tr2.
Proof. apply omap_app. Qed.
Lemma service_cards_app tr1 tr2 : service_cards (tr1 ++ tr2) = service_cards tr1 ++ service_cards tr2.
Proof. apply omap_app. Qed.

Lemma aside_app tr1 tr2 s1 s2 s3 : aside tr1 s1 s2 → aside tr2 s2 s3 → aside (tr1 ++ tr2) s1 s3.
Proof.
  intros (H1 & H2 & H3) (H4 & H5 & H6). unfold aside. rewrite readiness_app, service_cards_app, H1, H2, H4, H5, H6. done.
Qed.

(** A card on something else. *)
Lemma send_aside title template body tr x :
  title ≠ "行情服务不可用" → title ≠ "行情服务已恢复" → runs (send cfg title template body) tr x →
  readiness tr = [] ∧ service_cards tr = [].
Proof.
  intros H1 H2 Hr. unfold send in Hr. destruct (cfg.(config.DryRun)); [by apply runs_Ret in Hr as [-> _]|].
  apply runs_bind in Hr as (tr1 & y & tr2 & -> & ->%runs_trigger & [-> _]%runs_Ret). cbn.
  by rewrite !bool_decide_false.
Qed.

Lemma window_aside now s tr s' : runs (evaluateRestartWindow now s) tr s' → aside tr s s'.
Proof.
  intros Hr. unfold Watchdog.evaluateRestartWindow in Hr. cbv zeta in Hr.
  destruct (_ && _); [|destruct (_ && _)].
  3: by apply runs_Ret in Hr as [-> ->].
  all: apply runs_bind in Hr as (tr1 & x & tr2 & -> & Hs & [-> ->]%runs_Ret); rewrite app_nil_r;
    apply send_aside in Hs as [H1 H2]; [by split_and!|by apply (bool_decide_unpack _)..].
Qed.

Lemma count_aside now count s tr counted s' :
  runs (evaluateRestartCount Local_ cfg now count s) tr (counted, s') → aside tr s s'.
Proof.
  intros Hr. unfold evaluateRestartCount in Hr.
  apply runs_bind in Hr as (tr1 & s1 & tr2 & -> & Hw%window_aside & [-> [= -> ->]]%runs_Ret). by rewrite app_nil_r.
Qed.

Lemma restarts_aside now ready counted s tr s' :
  runs (evaluateRestarts Local_ cfg now ready counted s) tr s' → aside tr s s'.
Proof.
  intros Hr. unfold evaluateRestarts in Hr. destruct (_ <=? 0); [by apply runs_Ret in Hr as [-> ->]|].
  by apply window_aside in Hr.
Qed.

Lemma disk_aside now usage s tr s' : runs (evaluateDisk Local_ cfg now usage s) tr s' → aside tr s s'.
Proof.
  intros Hr. unfold evaluateDisk in Hr. destruct (disk_change _ _) as [[[title template] level]|] eqn:Ed.
  2: by apply runs_Ret in Hr as [-> ->].
  apply runs_bind in Hr as (tr1 & x & tr2 & -> & Hs & [-> ->]%runs_Ret). rewrite app_nil_r.
  apply send_aside in Hs as [H1 H2]; [by split_and!|..].
  all: intros ->; unfold disk_change in Ed; repeat case_match; done.
Qed.
Definition news (before after : bool) : list bool := if eqb before after then [] else [after].

Lemma send_card title template body tr x :
  cfg.(config.DryRun) = false → runs (send cfg title template body) tr x →
  ∃ y, tr = [Call (Send (Card.mk title template body)) y].
Proof.
  intros Hdry Hr. unfold send in Hr. rewrite Hdry in Hr.
  apply runs_bind in Hr as (tr1 & y & tr2 & -> & ->%runs_trigger & [-> _]%runs_Ret). by exists y.
Qed.

Lemma service_down_cons x answers :
  service_down (x :: answers) =
  match head answers with Some y => if eqb x y then negb x else service_down answers | None => false end.
Proof. by destruct answers. Qed.

Lemma service_step now ready err s tr s' answers :
  cfg.(config.DryRun) = false → follows answers s → runs (evaluateService now ready err s) tr s' →
  readiness tr = [] ∧ follows (bool_decide (err = None) :: answers) s' ∧
  service_cards tr = news s.(state.ServiceAlert) s'.(state.ServiceAlert).
Proof.
  intros Hdry (Ha & Hf & Hh) Hr. unfold Watchdog.evaluateService in Hr.
  destruct s as [f h a ls rt ra lc rs dl]. cbn [state.ServiceAlert state.ConsecutiveFailures state.HealthyChecks] in *.
  unfold follows. rewrite service_down_cons. destruct err as [e|].
  - rewrite bool_decide_false by done. destruct a; simpl negb in Hr; rewrite ?andb_true_r, ?andb_false_r in Hr.
    + apply runs_Ret in Hr as [-> ->]. destruct answers as [|[] answers]; [done|..]; cbn [head eqb negb]; by split_and!.
    + rewrite (Hf eq_refl) in Hr. destruct answers as [|[] answers]; cbn [head] in Hr.
      1,2: apply runs_Ret in Hr as [-> ->]; by split_and!.
      apply runs_bind in Hr as (tr1 & y & tr2 & -> & (z & ->)%send_card & [-> ->]%runs_Ret); [|done]. by split_and!.
  - rewrite bool_decide_true by done. destruct a; simpl negb in Hr; cbv iota in Hr.
    + rewrite (Hh eq_refl) in Hr. destruct answers as [|[] answers]; [done|..]; cbn [head] in Hr.
      * apply runs_bind in Hr as (tr1 & y & tr2 & -> & (z & ->)%send_card & [-> ->]%runs_Ret); [|done]. by split_and!.
      * apply runs_Ret in Hr as [-> ->]. cbn [head eqb negb]. by split_and!.
    + apply runs_Ret in Hr as [-> ->]. destruct answers as [|[] answers]; cbn [head eqb negb]; by split_and!.
Qed.

Lemma ready_runs tr ready err :
  runs (checkReady cfg) tr (ready, err) → readiness tr = [bool_decide (err = None)] ∧ service_cards tr = [].
Proof.
  intros Hr. unfold checkReady in Hr. apply runs_bind in Hr as (tr1 & reply & tr2 & -> & ->%runs_trigger & [-> E]%runs_Ret).
  split; [|done]. cbn. f_equal. destruct reply as [[status [r|]]|]; simplify_eq/=; [|done..].
  destruct (status =? 200); simplify_eq/=; [|done]. destruct (r.(readyResponse.OK)); simplify_eq/=; done.
Qed.

Lemma count_runs tr r : runs (systemdRestartCount cfg) tr r → readiness tr = [] ∧ service_cards tr = [].
Proof.
  intros Hr. unfold systemdRestartCount in Hr. by apply runs_bind in Hr as (tr1 & y & tr2 & -> & ->%runs_trigger & [-> _]%runs_Ret).
Qed.
Lemma usage_runs tr r : runs (diskUsagePercent cfg) tr r → readiness tr = [] ∧ service_cards tr = [].
Proof.
  intros Hr. unfold diskUsagePercent in Hr. by apply runs_bind in Hr as (tr1 & y & tr2 & -> & ->%runs_trigger & [-> _]%runs_Ret).
Qed.

Lemma follows_same answers s s' : service_of s' = service_of s → follows answers s → follows answers s'.
Proof. unfold service_of, follows. by intros [= -> -> ->]. Qed.

Lemma check_step s tr e s' answers :
  cfg.(config.DryRun) = false → follows answers s → runs (checkOnce s) tr (e, s') →
  ∃ ok, readiness tr = [ok] ∧ follows (ok :: answers) s' ∧
    service_cards tr = news s.(state.ServiceAlert) s'.(state.ServiceAlert).
Proof.
  intros Hdry Hf Hr. unfold Watchdog.checkOnce in Hr.
  apply runs_bind in Hr as (tr1 & now & tr2 & -> & ->%runs_trigger & Hr).
  apply runs_bind in Hr as (tr3 & [ready err] & tr4 & -> & [R1 C1]%ready_runs & Hr).
  apply runs_bind in Hr as (tr5 & s1 & tr6 & -> & Hs & Hr).
  destruct (service_step _ _ _ _ _ _ _ Hdry Hf Hs) as (R2 & Hf1 & C2).
  apply runs_bind in Hr as (tr7 & restarts & tr8 & -> & [R3 C3]%count_runs & Hr).
  apply runs_bind in Hr as (tr9 & [counted s2] & tr10 & -> & Hc & Hr).
  assert (aside tr9 s1 s2) as (R4 & C4 & E4).
  { destruct restarts as [count|]; [by apply count_aside in Hc|by apply runs_Ret in Hc as [-> [= -> ->]]]. }
  apply runs_bind in Hr as (tr11 & s3 & tr12 & -> & (R5 & C5 & E5)%restarts_aside & Hr).
  apply runs_bind in Hr as (tr13 & usage & tr14 & -> & [R6 C6]%usage_runs & Hr).
  apply runs_bind in Hr as (tr15 & s4 & tr16 & -> & Hd & Hr).
  assert (aside tr15 s3 s4) as (R7 & C7 & E7).
  { destruct usage as [usage|]; [by apply disk_aside in Hd|by apply runs_Ret in Hd as [-> ->]]. }
  apply runs_bind in Hr as (tr17 & saved & tr18 & -> & ->%runs_trigger & [-> [= -> ->]]%runs_Ret).
  exists (bool_decide (err = None)).
  rewrite !readiness_app, !service_cards_app, R1, R2, R3, R4, R5, R6, R7, C1, C2, C3, C4, C5, C6, C7. cbn.
  assert (E : service_of s4 = service_of s1) by congruence. split_and!; [done|by eapply follows_same|].
  rewrite app_nil_r. f_equal. by injection E as _ _ ->.
Qed.

Lemma turns_step b b' cards : take_turns (negb b') cards → take_turns (negb b) (news b b' ++ cards).
Proof. unfold news. by destruct b, b'. Qed.

Lemma check_steps checks s tr s' answers :
  cfg.(config.DryRun) = false → follows answers s → runs (check_loop checks s) tr s' →
  length (readiness tr) = checks ∧ follows (rev (readiness tr) ++ answers) s' ∧
  take_turns (negb s.(state.ServiceAlert)) (service_cards tr) ∧
  s'.(state.ServiceAlert) = xorb s.(state.ServiceAlert) (Nat.odd (length (service_cards tr))).
Proof.
  intros Hdry. revert s tr answers. induction checks as [|checks IH]; intros s tr answers Hf Hr.
  { apply runs_Ret in Hr as [-> ->]. cbn. by rewrite xorb_false_r. }
  apply runs_bind in Hr as (tr1 & [e s1] & tr2 & -> & Hc & Hr).
  destruct (check_step _ _ _ _ _ Hdry Hf Hc) as (ok & R1 & Hf1 & C1).
  destruct (IH _ _ _ Hf1 Hr) as (Hl & Hf2 & Ht & Ho).
  rewrite readiness_app, service_cards_app, R1, C1. split_and!.
  - simpl. by rewrite Hl.
  - simpl. by rewrite <- app_assoc.
  - by apply turns_step.
  - rewrite Ho, length_app, Nat.odd_add. unfold news. by destruct (s.(state.ServiceAlert)), (s1.(state.ServiceAlert)), (Nat.odd _).
Qed.
End service.

(** C34: the watchdog neither misses an outage nor repeats itself.  After any number of
    checks the service is marked down exactly when, of the answers about its readiness,
    the latest two in a row that agree were failures; a card is sent exactly when the
    mark changes, so that the cards on the service take turns, the first one saying
    that it is down, and the last one always tells the state the watchdog is in. *)
Theorem watchdog_service_exact Local_ ErrorText cfg checks tr s :
  cfg.(config.DryRun) = false → runs (check_loop Local_ ErrorText cfg checks state.zero) tr s →
  length (readiness tr) = checks ∧ s.(state.ServiceAlert) = service_down (rev (readiness tr)) ∧
  take_turns true (service_cards tr) ∧ s.(state.ServiceAlert) = Nat.odd (length (service_cards tr)).
Proof.
  intros Hdry Hr. destruct (check_steps Local_ ErrorText cfg checks state.zero tr s [] Hdry) as (Hl & (Ha & _) & Ht & Ho);
    [by split_and!|done|].
  rewrite app_nil_r in Ha. split_and!; [exact Hl|exact Ha|exact Ht|]. rewrite Ho. by destruct (Nat.odd _).
Qed.

(** ** Concrete checks *)

(** One entry for each check: the start of the service that answers, if any, the count
    of systemd, and how full the disk is in percent. *)
Definition sample_watchdog : handler watchdogE (list (option Z * Z * Z)) := λ X e checks,
  match checks with
  | [] => None
  | (ready, count, used) :: rest =>
      match e in watchdogE X return option (X * list (option Z * Z * Z)) with
      | Now => Some (1779300000000000000, checks)
      | GetReady _ => Some (match ready with
                            | Some startedAt => Ok (200, Ok (readyResponse.mk true startedAt))
                            | None => Err (Errorf "connection refused")
                            end, checks)
      | Systemctl _ => Some (Ok (if count =? 1 then "1" else "2"), checks)
      | Statfs _ => Some (Ok (100, 100 - used), checks)
      | Send _ => Some (None, checks)
      | SaveState _ => Some (None, rest)
      end
  end.
Definition sample_config : config := loadConfig (λ _, "") false false false.
Definition sample_checks (checks : list (option Z * Z * Z)) : option (list (call watchdogE) * state * list (option Z * Z * Z)) :=
  exec sample_watchdog (check_loop (λ _, 0) (λ _, "") sample_config (length checks) state.zero) checks.

Example watchdog_service_exact_witness :
  match sample_checks [(Some 100, 1, 10); (None, 1, 10); (None, 1, 10); (Some 100, 1, 10); (None, 1, 10)] with
  | Some (tr, s, _) => service_cards tr = [true] ∧ s.(state.ServiceAlert) = service_down [false; true; false; false; true] ∧
                       s.(state.ServiceAlert) = true
  | None => False
  end.
Proof.
  destruct (sample_checks _) as [[[tr s] w]|] eqn:E; [|vm_compute in E; discriminate E].
  unfold sample_checks in E. pose proof (exec_runs _ _ _ _ _ _ E) as Hr.
  destruct (watchdog_service_exact (λ _, 0) (λ _, "") sample_config 5 tr s eq_refl Hr) as (_ & Ha & _ & _).
  assert (Hv : service_cards tr = [true] ∧ rev (readiness tr) = [false; true; false; false; true])
    by (vm_compute in E; injection E as <- <- _; split; reflexivity).
  destruct Hv as [H1 H2]. rewrite H2 in Ha. split; [exact H1|]. split; [exact Ha|]. rewrite Ha. reflexivity.
Defined.

(** A restart during which a check finds the service away is counted twice: by systemd
    at that check, and by the time of the start at the next. *)
Example restart_counted_twice :
  match sample_checks [(Some 100, 1, 10); (None, 2, 10); (Some 200, 2, 10)] with
  | Some (_, s, _) => s.(state.RestartTimesMS) = [1779300000000; 1779300000000] ∧ s.(state.LastRestartCount) = 2
  | None => False
  end.
Proof. vm_compute. by split. Qed.

(** From critical, 82 percent is a warning and 77 percent stays critical. *)
Example less_full_stays_critical :
  match sample_checks [(Some 100, 1, 95); (Some 100, 1, 82)], sample_checks [(Some 100, 1, 95); (Some 100, 1, 77)] with
  | Some (_, s1, _), Some (_, s2, _) => s1.(state.DiskLevel) = "warning" ∧ s2.(state.DiskLevel) = "critical"
  | _, _ => False
  end.
Proof. vm_compute. by split. Qed.
