(* ===== verification/Server.v ===== *)
(** * The HTTP and WebSocket server (internal/api/server.go and compression.go)

    A request passes the observation, the compression and the CORS headers to the
    handler of its route, which calls the service, the monitoring or the file server:
    a program over [apiE] that threads the headers of the response.  The body is the
    value that is encoded.  A WebSocket connection is a reader and a writer that share
    a subscription of the hub ([ws_step]).  Query parameters come decoded, paths come
    clean (net/http's mux redirects others); instants are nanoseconds. *)

From S2P Require Export Settings Monitor Hub.

Local Open Scope string_scope.
Local Open Scope Z_scope.
Local Open Scope list_scope.
Local Open Scope prog_scope.

(** ** Requests and responses *)

Notation headers := (gmap string (list string)).

Module Request.
Record Request : Type := mk {
  Method : string; Path : string; Query : list (string * string); AcceptEncoding : string; Upgrade : string }.
End Request.
Notation Request := Request.Request.

(** [r.URL.Query().Get(name)]. *)
Definition param (r : Request) (name : string) : string :=
  match List.find (fun p => bool_decide (p.1 = name)) r.(Request.Query) with Some (_, v) => v | None => "" end.

Inductive payload : Type :=
| NoBody
| ErrorBody (e : go_error)
| HealthBody (ts startedAt uptime : Z)
| ReadyBody (report : ReadyReport)
| MonitoringDisabled (ts : Z)
| TickBody (tick : Tick)
| KlinesBody (exchange symbol timeframe : string) (bars : list Bar)
| SymbolsBody (exchange : string) (symbols : list SymbolInfo)
| OtherBody.

(** Status 0: nothing was written, or the connection was taken over. *)
Module Response.
Record Response : Type := mk { Status : Z; Headers : headers; Body : payload; Compressed : bool }.
End Response.
Notation Response := Response.Response.

(** [ServeFile] and [MetricsPage] answer the status and the headers they leave; so does
    [Upgrade] when the connection is not upgraded.  [Session] is the connection. *)
Inductive apiE : Type → Type :=
| Now : apiE Z
| StartedAt : apiE Z
| Readiness_ : apiE ReadyReport
| LatestTick_ (exchange symbol : string) : apiE (result go_error (option Tick))
| Klines_ (query : KlineQuery) : apiE (result go_error (list Bar))
| ListSymbols_ (exchange : string) (activeOnly : option bool) : apiE (result go_error (list SymbolInfo))
| ServeFile (path : string) (h : headers) : apiE (Z * headers)
| MetricsPage (h : headers) : apiE (Z * headers)
| Upgrade (h : headers) : apiE (option (Z * headers))
| Session : apiE unit
| Report (m : op) : apiE unit.

Notation hprog := (prog apiE).

Definition writeJSON (h : headers) (status : Z) (body : payload) : Response :=
  Response.mk status (<["Content-Type" := ["application/json; charset=utf-8"]]> h) body false.
Definition writeError (h : headers) (status : Z) (e : go_error) : Response := writeJSON h status (ErrorBody e).
Definition other (p : Z * headers) : Response := Response.mk p.1 p.2 OtherBody false.

(** ** The handlers; [monitor]: there is a monitoring service *)

Definition healthz (monitor : bool) (h : headers) : hprog Response :=
  '(startedAt, uptime) <-
    (if monitor then
       started <- trigger StartedAt ;; again <- trigger StartedAt ;; now <- trigger Now ;;
       Ret (unix_milli started, whole_seconds (Sub now again))
     else Ret (0, 0)) ;;
  now <- trigger Now ;;
  Ret (writeJSON h 200 (HealthBody (unix_milli now) startedAt uptime)).

Definition readyz (monitor : bool) (h : headers) : hprog Response :=
  if negb monitor then now <- trigger Now ;; Ret (writeJSON h 200 (MonitoringDisabled (unix_milli now)))
  else
    report <- trigger Readiness_ ;;
    Ret (writeJSON h (if report.(ReadyReport.OK) then 200 else 503) (ReadyBody report)).

Definition requiredMarketParams (r : Request) : result go_error (string * string) :=
  let exchange := ToLower (TrimSpace (param r "exchange")) in
  let symbol := ToUpper (TrimSpace (param r "symbol")) in
  if bool_decide (exchange = "") then Err (Errorf "missing exchange")
  else if bool_decide (symbol = "") then Err (Errorf "missing symbol")
  else Ok (exchange, symbol).

Definition latestTicker (r : Request) (h : headers) : hprog Response :=
  match requiredMarketParams r with
  | Err e => Ret (writeError h 400 e)
  | Ok (exchange, symbol) =>
      tick <- trigger (LatestTick_ exchange symbol) ;;
      Ret (match tick with
           | Err e => writeError h 500 e
           | Ok None => writeError h 404 (Errorf "ticker not found")
           | Ok (Some tick) => writeJSON h 200 (TickBody tick)
           end)
  end.

(** The limit of the query: 300 when there is none. *)
Definition limit_param (r : Request) : option Z :=
  let raw := param r "limit" in if bool_decide (raw = "") then Some 300 else Atoi raw.
Definition include_live (r : Request) : bool :=
  let raw := param r "include_live" in
  bool_decide (raw = "") || (negb (bool_decide (raw = "false")) && negb (bool_decide (raw = "0"))).

Definition klines (r : Request) (h : headers) : hprog Response :=
  match requiredMarketParams r with
  | Err e => Ret (writeError h 400 e)
  | Ok (exchange, symbol) =>
      let tf := TrimSpace (param r "timeframe") in
      match ValidateForExchange exchange tf with
      | Err e => Ret (writeError h 400 (tf_go_error e))
      | Ok _ =>
          match limit_param r with
          | None => Ret (writeError h 400 (Errorf "invalid limit"))
          | Some limit =>
              bars <- trigger (Klines_ (KlineQuery.mk exchange symbol tf limit (include_live r))) ;;
              Ret (match bars with
                   | Err e => writeError h 500 e
                   | Ok bars => writeJSON h 200 (KlinesBody exchange symbol tf bars)
                   end)
          end
      end
  end.

Definition active_only (raw : string) : option bool :=
  if bool_decide (raw = "") || bool_decide (raw = "all") then None
  else Some (bool_decide (raw ∈ ["1"; "true"; "yes"])).

Definition symbols (r : Request) (h : headers) : hprog Response :=
  let exchange := ToLower (TrimSpace (param r "exchange")) in
  if bool_decide (exchange = "") then Ret (writeError h 400 (Errorf "missing exchange"))
  else
    symbols <- trigger (ListSymbols_ exchange (active_only (param r "active"))) ;;
    Ret (match symbols with
         | Err e => writeError h 500 e
         | Ok symbols => writeJSON h 200 (SymbolsBody exchange symbols)
         end).

Definition websocket (monitor : bool) (h : headers) : hprog Response :=
  refused <- trigger (Upgrade h) ;;
  _ <- (if monitor then
          now <- trigger Now ;;
          trigger (Report (MWSHandshake (bool_decide (refused = None)) now))
        else Ret tt) ;;
  match refused with
  | Some p => Ret (other p)
  | None => _ <- trigger Session ;; Ret (Response.mk 0 h NoBody false)
  end.

(** [filepath.Clean] of a clean path drops a slash at its end. *)
Fixpoint drop_last_slash (path : string) : string :=
  match path with
  | "" => ""
  | String c "" => if Ascii.ascii_dec c (Ascii.ascii_of_nat 47) then "" else path
  | String c rest => String c (drop_last_slash rest)
  end.
Definition Clean (path : string) : string := if bool_decide (path = "/") then path else drop_last_slash path.

Definition dashboard (r : Request) (h : headers) : hprog Response :=
  if HasPrefix (Clean r.(Request.Path)) "/api/"
  then Ret (Response.mk 404 (<["Content-Type" := ["text/plain; charset=utf-8"]]> h) OtherBody false)
  else p <- trigger (ServeFile r.(Request.Path) h) ;; Ret (other p).

(** The mux: a pattern with GET takes HEAD as well. *)
Definition mux (monitor : bool) (r : Request) (h : headers) : hprog Response :=
  let path := r.(Request.Path) in
  if negb (bool_decide (r.(Request.Method) ∈ ["GET"; "HEAD"])) then dashboard r h
  else if bool_decide (path = "/healthz") then healthz monitor h
  else if bool_decide (path = "/readyz") then readyz monitor h
  else if monitor && bool_decide (path = "/metrics") then p <- trigger (MetricsPage h) ;; Ret (other p)
  else if bool_decide (path = "/api/v1/ticker/latest") then latestTicker r h
  else if bool_decide (path = "/api/v1/klines") then klines r h
  else if bool_decide (path = "/api/v1/symbols") then symbols r h
  else if bool_decide (path = "/api/v1/ws") then websocket monitor h
  else if bool_decide (path = "/favicon.ico") then Ret (Response.mk 204 h NoBody false)
  else dashboard r h.

(** ** What is around the mux *)

Definition cors (next : headers → hprog Response) (r : Request) (h : headers) : hprog Response :=
  let h := <["Access-Control-Allow-Origin" := ["*"]]> h in
  let h := <["Access-Control-Allow-Headers" := ["Content-Type"]]> h in
  let h := <["Access-Control-Allow-Methods" := ["GET,POST,OPTIONS"]]> h in
  if bool_decide (r.(Request.Method) = "OPTIONS") then Ret (Response.mk 204 h NoBody false) else next h.

Definition comma : Ascii.ascii := Ascii.ascii_of_nat 44.
Definition acceptsGzip (value : string) : bool :=
  existsb (fun part => let token := TrimSpace (ToLower part) in bool_decide (token = "gzip") || HasPrefix token "gzip;")
    (split_on comma value).
Definition shouldSkipGzip (r : Request) : bool :=
  bool_decide (r.(Request.Method) = "OPTIONS") || EqualFold r.(Request.Upgrade) "websocket".
Definition appendVary (h : headers) (value : string) : headers :=
  let existing := default [] (h !! "Vary") in
  if existsb (fun line => existsb (fun part => EqualFold (TrimSpace part) value) (split_on comma line)) existing then h
  else <["Vary" := existing ++ [value]]> h.
Definition gzipStatusAllowsBody (status : Z) : bool := (200 <=? status) && negb (status =? 204) && negb (status =? 304).

(** The writer when the header is written. *)
Definition gzip_WriteHeader (resp : Response) : Response :=
  let 'Response.mk status h body compressed := resp in
  if status =? 0 then resp
  else if gzipStatusAllowsBody status && bool_decide (default "" (head (default [] (h !! "Content-Encoding"))) = "")
  then Response.mk status (delete "Content-Length" (<["Content-Encoding" := ["gzip"]]> h)) body true
  else resp.

Definition gzipResponses (next : headers → hprog Response) (r : Request) (h : headers) : hprog Response :=
  let h := appendVary h "Accept-Encoding" in
  if negb (acceptsGzip r.(Request.AcceptEncoding)) || shouldSkipGzip r then next h
  else resp <- next h ;; Ret (gzip_WriteHeader resp).

Definition known_routes : list string :=
  ["/healthz"; "/readyz"; "/metrics"; "/api/v1/ticker/latest"; "/api/v1/klines"; "/api/v1/symbols"; "/api/v1/ws"].
Definition routeName (path : string) : string := if bool_decide (path ∈ known_routes) then path else "dashboard".

(** Since and the registry read the clock one after the other. *)
Definition observeHTTP (next : hprog Response) (r : Request) : hprog Response :=
  started <- trigger Now ;;
  resp <- next ;;
  let status := if resp.(Response.Status) =? 0 then 200 else resp.(Response.Status) in
  ended <- trigger Now ;;
  now <- trigger Now ;;
  _ <- trigger (Report (MHTTPRequest (routeName r.(Request.Path)) r.(Request.Method) status (Sub ended started) now)) ;;
  Ret resp.

Definition Handler (monitor : bool) (r : Request) : hprog Response :=
  let handler := gzipResponses (cors (mux monitor r) r) r ∅ in
  if monitor then observeHTTP handler r else handler.

(** ** WebSocket connections *)

Module wsChannel.
Record wsChannel : Type := mk { Type_ : string; Exchange : string; Symbol : string; Timeframe : string }.
End wsChannel.
Notation wsChannel := wsChannel.wsChannel.
Module wsMessage.
Record wsMessage : Type := mk { Op : string; ReqID : string; Channels : list wsChannel }.
End wsMessage.
Notation wsMessage := wsMessage.wsMessage.

(** What is written to the connection. *)
Inductive ws_out : Type :=
| Pong
| Ping
| Refused (reqID : string) (e : go_error) (channel : wsChannel)
| Subscribed (reqID : string) (channels : list wsChannel)
| Sent (event : Event).

Definition normalized_channel (c : wsChannel) : wsChannel :=
  wsChannel.mk c.(wsChannel.Type_) (ToLower (TrimSpace c.(wsChannel.Exchange))) (ToUpper (TrimSpace c.(wsChannel.Symbol)))
    c.(wsChannel.Timeframe).

(** The channel of the hub for a request, or why there is none. *)
Definition hub_channel (c : wsChannel) : result go_error string :=
  let c := normalized_channel c in
  if bool_decide (c.(wsChannel.Type_) = "ticker") then Ok (TickerChannel c.(wsChannel.Exchange) c.(wsChannel.Symbol))
  else if bool_decide (c.(wsChannel.Type_) = "kline") then
    match ValidateForExchange c.(wsChannel.Exchange) c.(wsChannel.Timeframe) with
    | Err e => Err (tf_go_error e)
    | Ok _ => Ok (KlineChannel c.(wsChannel.Exchange) c.(wsChannel.Symbol) c.(wsChannel.Timeframe))
    end
  else Err (Errorf "unsupported channel type").

(** The reader waits for a message, or is at the channels [rest] of one. *)
Inductive ws_reader : Type :=
| Waiting
| Subscribing (reqID : string) (rest accepted : list wsChannel).

(** [out] is what was written, in order, and [alive] ends with the first failure. *)
Module WsConn.
Record WsConn : Type := mk { sys : HubSys; sub : Z; reader : ws_reader; out : list ws_out; alive : bool }.
End WsConn.
Notation WsConn := WsConn.WsConn.

(** Nobody else adds channels to the subscription, receives from it or closes it: they
    leave its channels and may append to its queue. *)
Definition leaves_alone (sub : Z) (h h' : Hub) : Prop :=
  ∀ s, h.(Hub.subs) !! sub = Some s →
    ∃ s' more, h'.(Hub.subs) !! sub = Some s' ∧ s'.(Subscriber.channels) = s.(Subscriber.channels) ∧
      s'.(Subscriber.events) = s.(Subscriber.events) ++ more.

Definition with_hub (h : Hub) (s : HubSys) : HubSys := HubSys.mk h s.(HubSys.in_flight) s.(HubSys.closing).

(** The connection after it was upgraded and subscribed. *)
Definition ws_start (s : HubSys) : WsConn :=
  let '(sub, h) := Subscribe s.(HubSys.hub) in WsConn.mk (with_hub h s) sub Waiting [] true.

(** A write succeeds, or fails and ends the connection. *)
Inductive ws_write (o : ws_out) (next : ws_reader) : WsConn → WsConn → Prop :=
| WriteOk s sub rd out : ws_write o next (WsConn.mk s sub rd out true) (WsConn.mk s sub next (out ++ [o]) true)
| WriteFailed s sub rd out : ws_write o next (WsConn.mk s sub rd out true) (WsConn.mk s sub next out false).

(** The steps of a connection, labelled with the message that is read. *)
Inductive ws_step : option wsMessage → WsConn → WsConn → Prop :=
| WsOther s s' sub rd out alive :
    hub_step s (Some s') → leaves_alone sub s.(HubSys.hub) s'.(HubSys.hub) →
    ws_step None (WsConn.mk s sub rd out alive) (WsConn.mk s' sub rd out alive)
| WsPing c c' m :
    c.(WsConn.reader) = Waiting → m.(wsMessage.Op) = "ping" → ws_write Pong Waiting c c' → ws_step (Some m) c c'
| WsSubscribe s sub out m :
    m.(wsMessage.Op) = "subscribe" →
    ws_step (Some m) (WsConn.mk s sub Waiting out true)
      (WsConn.mk s sub (Subscribing m.(wsMessage.ReqID) m.(wsMessage.Channels) []) out true)
| WsAccept s sub req c rest accepted out channel :
    hub_channel c = Ok channel →
    ws_step None (WsConn.mk s sub (Subscribing req (c :: rest) accepted) out true)
      (WsConn.mk (with_hub (Add sub channel s.(HubSys.hub)) s) sub (Subscribing req rest (accepted ++ [normalized_channel c])) out true)
| WsRefuse conn conn' req c rest accepted e :
    conn.(WsConn.reader) = Subscribing req (c :: rest) accepted → hub_channel c = Err e →
    ws_write (Refused req e (normalized_channel c)) (Subscribing req rest accepted) conn conn' → ws_step None conn conn'
| WsNothing s sub req out :
    ws_step None (WsConn.mk s sub (Subscribing req [] []) out true) (WsConn.mk s sub Waiting out true)
| WsAcknowledge conn conn' req accepted :
    conn.(WsConn.reader) = Subscribing req [] accepted → accepted ≠ [] →
    ws_write (Subscribed req accepted) Waiting conn conn' → ws_step None conn conn'
| WsEvent s sub rd out event h ok :
    Receive sub s.(HubSys.hub) = (Some event, h) →
    ws_step None (WsConn.mk s sub rd out true)
      (WsConn.mk (with_hub h s) sub rd (if ok : bool then out ++ [Sent event] else out) ok)
| WsTick c c' : ws_write Ping c.(WsConn.reader) c c' → ws_step None c c'
| WsEnd s sub rd out alive : ws_step None (WsConn.mk s sub rd out alive) (WsConn.mk s sub rd out false).
