(* ===== verification/ServerSpec.v ===== *)
(** * What the server promises (internal/api)

    A query of candles is answered with exactly what the service answered, or refused
    ([klines_endpoint]); a WebSocket connection gets the events it subscribed to, none
    of them twice ([ws_subscribed_only]). *)

From S2P Require Import ServiceSpec Server.

Local Open Scope string_scope.
Local Open Scope Z_scope.
Local Open Scope list_scope.

(** ** WebSocket connections *)

(** A connection that read the messages [msgs]. *)
Inductive ws_reachable : list wsMessage → WsConn → Prop :=
| WsReachStart s : hub_reachable s → ws_reachable [] (ws_start s)
| WsReachStep msgs c c' label : ws_reachable msgs c → ws_step label c c' →
    ws_reachable (msgs ++ option_list label) c'.

Definition sent_event (o : ws_out) : option Event := match o with Sent e => Some e | _ => None end.
Definition sent (out : list ws_out) : list Event := omap sent_event out.

(** A request the client made for the channel of the hub. *)
Definition asked (msgs : list wsMessage) (w : wsChannel) : Prop :=
  ∃ m, m ∈ msgs ∧ m.(wsMessage.Op) = "subscribe" ∧ w ∈ m.(wsMessage.Channels).
Definition granted (msgs : list wsMessage) (channel : string) : Prop :=
  ∃ w, asked msgs w ∧ hub_channel w = Ok channel.
(** An answer names a request that was granted. *)
Definition acknowledged (msgs : list wsMessage) (w' : wsChannel) : Prop :=
  ∃ w channel, asked msgs w ∧ w' = normalized_channel w ∧ hub_channel w = Ok channel.

Definition reader_ok (msgs : list wsMessage) (rd : ws_reader) : Prop :=
  match rd with
  | Waiting => True
  | Subscribing _ rest accepted => Forall (asked msgs) rest ∧ Forall (acknowledged msgs) accepted
  end.

(** The subscription and what was sent. *)
Record ws_inv (msgs : list wsMessage) (c : WsConn) : Prop := {
  wi_hub : hub_reachable c.(WsConn.sys);
  wi_reader : reader_ok msgs c.(WsConn.reader);
  wi_acks : ∀ req ws, Subscribed req ws ∈ c.(WsConn.out) → Forall (acknowledged msgs) ws;
  wi_sub : ∃ s, c.(WsConn.sys).(HubSys.hub).(Hub.subs) !! c.(WsConn.sub) = Some s ∧
    (∀ channel, channel ∈ s.(Subscriber.channels) → granted msgs channel) ∧
    (∀ e, e ∈ sent c.(WsConn.out) ++ s.(Subscriber.events) →
       ∃ channel, channel ∈ eventChannels e ∧ channel ∈ s.(Subscriber.channels)) ∧
    NoDup (seqs (sent c.(WsConn.out) ++ s.(Subscriber.events))) ∧
    (∀ n, n ∈ seqs (sent c.(WsConn.out)) →
       n <= c.(WsConn.sys).(HubSys.hub).(Hub.seq) ∧ n ∉ seqs c.(WsConn.sys).(HubSys.in_flight)) }.

Lemma asked_more msgs more w : asked msgs w → asked (msgs ++ more) w.
Proof. intros (m & Hm & ?). exists m. split; [apply elem_of_app; by left|done]. Qed.
Lemma granted_more msgs more channel : granted msgs channel → granted (msgs ++ more) channel.
Proof. intros (w & ? & ?). exists w. eauto using asked_more. Qed.
Lemma acknowledged_more msgs more w : acknowledged msgs w → acknowledged (msgs ++ more) w.
Proof. intros (w' & ch & ? & ? & ?). exists w', ch. eauto using asked_more. Qed.
Lemma reader_ok_more msgs more rd : reader_ok msgs rd → reader_ok (msgs ++ more) rd.
Proof.
  destruct rd as [|req rest acc]; [done|]. intros [H1 H2].
  split; (eapply Forall_impl; [eassumption|]); eauto using asked_more, acknowledged_more.
Qed.

Lemma matches_spec channels s : matches channels s = true → ∃ channel, channel ∈ channels ∧ channel ∈ s.(Subscriber.channels).
Proof.
  unfold matches, hasChannel. intros (channel & Hin & Hb)%existsb_exists. apply bool_decide_eq_true in Hb.
  exists channel. split; [by apply list_elem_of_In|done].
Qed.

Lemma more_nil {A} (l more : list A) : l = l ++ more → more = [].
Proof. intros H. apply (f_equal length) in H. rewrite length_app in H. destruct more; [done|simpl in H; lia]. Qed.

(** What somebody else's step appends to the queue of the subscription: nothing, or the
    event that is delivered. *)
Lemma other_step_events sys sys' sub s s' more :
  hub_inv sys → hub_step sys (Some sys') → sys.(HubSys.hub).(Hub.subs) !! sub = Some s →
  sys'.(HubSys.hub).(Hub.subs) !! sub = Some s' → s'.(Subscriber.events) = s.(Subscriber.events) ++ more →
  more = [] ∨ ∃ event fl1 fl2, more = [event] ∧ matches (eventChannels event) s = true ∧
    sys.(HubSys.in_flight) = fl1 ++ event :: fl2.
Proof.
  intros Hinv Hstep Hs Hs' Hev.
  assert (Hsame : s'.(Subscriber.events) = s.(Subscriber.events) → more = [])
    by (intros E; apply (more_nil s.(Subscriber.events)); by rewrite <- Hev, E).
  remember (Some sys') as target eqn:Hd.
  destruct Hstep as [h fl cl|h fl cl id channel|h fl cl event Hlt|h fl1 event fl2 cl|h fl cl id|h fl cl id|h fl cl1 id cl2];
    try (injection Hd as <-); cbn [HubSys.hub HubSys.in_flight] in *.
  - left. apply Hsame. simpl in Hs'. rewrite lookup_insert_ne in Hs'; [congruence|].
    intros E. pose proof (hi_fresh _ Hinv sub) as Hf. cbn in Hf. rewrite Hs in Hf. specialize (Hf ltac:(by eexists)). lia.
  - left. apply Hsame. simpl in Hs'. destruct (decide (id = sub)) as [->|].
    + rewrite lookup_alter_eq, Hs in Hs'. by injection Hs' as <-.
    + rewrite lookup_alter_ne in Hs' by done. congruence.
  - left. apply Hsame. unfold number_event in Hs'. simpl in Hs'. congruence.
  - destruct (deliver event h) as [h'|] eqn:Ed; [|done]. injection Hd as <-. cbn [HubSys.hub] in Hs'.
    apply deliver_spec in Ed as (_ & _ & _ & Hl). rewrite Hl, Hs in Hs'. simpl in Hs'. injection Hs' as <-.
    destruct (recipient event h sub s) eqn:Er; [|left; by apply Hsame].
    rewrite offer_events in Hev. destruct (full s) eqn:Ef; [left; by apply more_nil in Hev|].
    apply app_inv_head in Hev as <-. right. exists event, fl1, fl2. split_and!; [done| |done].
    unfold recipient in Er. by apply andb_true_iff in Er as [_ ?].
  - left. apply Hsame. unfold Receive in Hs'. destruct (h.(Hub.subs) !! id) as [s0|] eqn:E0; [|cbn in Hs'; congruence].
    destruct s0.(Subscriber.events) as [|e es] eqn:Ee; [cbn in Hs'; congruence|]. cbn in Hs'.
    destruct (decide (id = sub)) as [->|]; [|rewrite lookup_insert_ne in Hs' by done; congruence].
    rewrite lookup_insert_eq in Hs'. injection Hs' as <-. assert (s0 = s) as -> by congruence.
    rewrite Ee in Hev. simpl in Hev. apply (f_equal length) in Hev. simpl in Hev. rewrite length_app in Hev. lia.
  - left. apply Hsame. simpl in Hs'. congruence.
  - unfold close_channel in Hd. destruct (h.(Hub.subs) !! id) as [s0|] eqn:E0; [|done].
    destruct s0.(Subscriber.closed); [done|]. injection Hd as <-. left. apply Hsame. cbn in Hs'.
    destruct (decide (id = sub)) as [->|]; [|rewrite lookup_insert_ne in Hs' by done; congruence].
    rewrite lookup_insert_eq in Hs'. injection Hs' as <-. cbn. congruence.
Qed.

(** A number that was used stays used. *)
Lemma other_step_used sys sys' n :
  hub_inv sys → hub_step sys (Some sys') →
  n <= sys.(HubSys.hub).(Hub.seq) → n ∉ seqs sys.(HubSys.in_flight) →
  n <= sys'.(HubSys.hub).(Hub.seq) ∧ n ∉ seqs sys'.(HubSys.in_flight).
Proof.
  intros Hinv Hstep Hn Hfl.
  remember (Some sys') as target eqn:Hd.
  destruct Hstep as [h fl cl|h fl cl id channel|h fl cl event Hlt|h fl1 event fl2 cl|h fl cl id|h fl cl id|h fl cl1 id cl2];
    try (injection Hd as <-); cbn [HubSys.hub HubSys.in_flight] in *.
  - done.
  - done.
  - pose proof (hi_seq _ Hinv) as Hseq. cbn in Hseq.
    assert (E : i64 (h.(Hub.seq) + 1) = h.(Hub.seq) + 1) by (apply i64_id; unfold int64_range, two63 in *; lia).
    unfold number_event. cbn. rewrite E. split; [lia|]. intros [Hx|?]%elem_of_cons; [|done].
    assert (Event.Seq (Event.set_Seq (h.(Hub.seq) + 1) event) = h.(Hub.seq) + 1) by by destruct event. lia.
  - destruct (deliver event h) as [h'|] eqn:Ed; [|done]. injection Hd as <-. cbn.
    apply deliver_spec in Ed as (_ & -> & _). split; [done|]. unfold seqs in *. rewrite fmap_app in *. simpl in Hfl.
    rewrite elem_of_app, elem_of_cons in Hfl. rewrite elem_of_app. tauto.
  - unfold Receive. destruct (h.(Hub.subs) !! id) as [s0|]; [|done]. by destruct s0.(Subscriber.events).
  - done.
  - unfold close_channel in Hd. destruct (h.(Hub.subs) !! id) as [s0|]; [|done].
    destruct s0.(Subscriber.closed); [done|]. by injection Hd as <-.
Qed.

Lemma ws_inv_more msgs more c : ws_inv msgs c → ws_inv (msgs ++ more) c.
Proof.
  intros [Hh Hr Ha (s & Hs & Hg & Hrest)]. split; [done|by apply reader_ok_more| |].
  - intros req ws Hin. eapply Forall_impl; [by eapply Ha|]. eauto using acknowledged_more.
  - exists s. split; [done|]. split; [|done]. eauto using granted_more.
Qed.

Lemma sent_app out o : sent (out ++ [o]) = sent out ++ match sent_event o with Some e => [e] | None => [] end.
Proof. unfold sent. rewrite omap_app. cbn. by destruct (sent_event o). Qed.

(** Writing something else than an event. *)
Lemma ws_write_inv msgs o next c c' :
  ws_inv msgs c → ws_write o next c c' → reader_ok msgs next → sent_event o = None →
  (∀ req ws, o = Subscribed req ws → Forall (acknowledged msgs) ws) → ws_inv msgs c'.
Proof.
  intros [Hh Hr Ha Hs] Hw Hnext Ho Hack. destruct Hw as [s sub rd out|s sub rd out]; cbn in *.
  - split; cbn; [done|done| |].
    + intros req ws [Hin|Hin%list_elem_of_singleton]%elem_of_app; [by eapply Ha|by eapply Hack].
    + rewrite sent_app, Ho, app_nil_r. done.
  - by split.
Qed.

(** Changing only the reader or the end. *)
Lemma ws_inv_reader msgs s sub rd rd' out alive alive' :
  ws_inv msgs (WsConn.mk s sub rd out alive) → reader_ok msgs rd' → ws_inv msgs (WsConn.mk s sub rd' out alive').
Proof. intros [Hh Hr Ha Hs] Hr'. by split. Qed.

Lemma ws_inv_other msgs s s' sub rd out alive :
  ws_inv msgs (WsConn.mk s sub rd out alive) → hub_step s (Some s') → leaves_alone sub s.(HubSys.hub) s'.(HubSys.hub) →
  ws_inv msgs (WsConn.mk s' sub rd out alive).
Proof.
  intros [Hh Hr Ha (u & Hu & Hg & Hm & Hnd & Hused)] Hstep Halone. cbn in *.
  pose proof (hub_reachable_inv s Hh) as Hinv.
  destruct (Halone u Hu) as (u' & more & Hu' & Hch & Hev). split; cbn; [by eapply reach_step|done|done|].
  exists u'. split; [done|]. split; [by rewrite Hch|]. rewrite Hev.
  assert (Hused' : ∀ n, n ∈ seqs (sent out) → n <= s'.(HubSys.hub).(Hub.seq) ∧ n ∉ seqs s'.(HubSys.in_flight)).
  { intros n Hn. destruct (Hused n Hn). by eapply other_step_used. }
  destruct (other_step_events _ _ _ _ _ _ Hinv Hstep Hu Hu' Hev) as [->|(event & fl1 & fl2 & -> & Hmatch & Hfl)].
  { rewrite app_nil_r. split_and!; [by rewrite Hch|done|done]. }
  rewrite app_assoc. split_and!; [| |done].
  - intros e [He|He%list_elem_of_singleton]%elem_of_app; rewrite Hch; [by apply Hm|subst e; by apply matches_spec].
  - assert (Hin : event.(Event.Seq) ∈ seqs s.(HubSys.in_flight)).
    { rewrite Hfl. unfold seqs. rewrite fmap_app. apply elem_of_app. right. left. }
    unfold seqs. rewrite fmap_app. apply NoDup_app. split_and!; [done| |apply NoDup_singleton].
    intros n Hn ->%list_elem_of_singleton. fold (seqs (sent out ++ u.(Subscriber.events))) in Hn.
    unfold seqs in Hn. rewrite fmap_app in Hn. apply elem_of_app in Hn as [Hn|Hn].
    + by destruct (Hused _ Hn).
    + by destruct (proj2 (hi_seqs s Hinv sub u Hu) _ Hn).
Qed.

Lemma ws_inv_add msgs s sub rd rd' out channel :
  ws_inv msgs (WsConn.mk s sub rd out true) → granted msgs channel → reader_ok msgs rd' →
  ws_inv msgs (WsConn.mk (with_hub (Add sub channel s.(HubSys.hub)) s) sub rd' out true).
Proof.
  intros [Hh Hr Ha (u & Hu & Hg & Hm & Hnd & Hused)] Hgr Hr'. cbn in *. split; cbn; [|done|done|].
  - eapply reach_step; [exact Hh|]. destruct s. apply step_add.
  - exists (add_channel channel u). rewrite lookup_alter_eq, Hu. split; [done|]. cbn. split_and!; try done.
    + intros ch [->%elem_of_singleton|Hch]%elem_of_union; auto.
    + intros e He. destruct (Hm e He) as (ch & ? & ?). exists ch. set_solver.
Qed.

Lemma ws_inv_event msgs s sub rd out event h (ok : bool) :
  ws_inv msgs (WsConn.mk s sub rd out true) → Receive sub s.(HubSys.hub) = (Some event, h) →
  ws_inv msgs (WsConn.mk (with_hub h s) sub rd (if ok then out ++ [Sent event] else out) ok).
Proof.
  intros [Hh Hr Ha (u & Hu & Hg & Hm & Hnd & Hused)] Hrec. cbn in *. pose proof (hub_reachable_inv s Hh) as Hinv.
  assert (Hh' : hub_reachable (with_hub h s)).
  { eapply reach_step; [exact Hh|]. replace h with (snd (Receive sub s.(HubSys.hub))) by by rewrite Hrec.
    destruct s. apply step_receive. }
  unfold Receive in Hrec. rewrite Hu in Hrec. destruct u.(Subscriber.events) as [|e es] eqn:Ee; [done|].
  injection Hrec as -> <-. cbn in *. split; cbn; [done|done| |].
  - destruct ok; [|done]. intros req ws [Hin|Hin%list_elem_of_singleton]%elem_of_app; [by eapply Ha|done].
  - eexists. rewrite lookup_insert_eq. split; [done|]. cbn. split; [done|].
    destruct (proj2 (hi_seqs s Hinv sub u Hu) event.(Event.Seq)) as [Hle Hfl]; [rewrite Ee; left|].
    destruct ok.
    + rewrite sent_app. cbn. rewrite <- app_assoc. cbn. split_and!; [done|done|].
      intros n. unfold seqs. rewrite fmap_app. intros [Hn| ->%list_elem_of_singleton]%elem_of_app; [by apply Hused|done].
    + split_and!; [intros e He; apply Hm; set_solver| |done].
      revert Hnd. unfold seqs. rewrite !fmap_app, fmap_cons. intros Hnd.
      rewrite <- Permutation_middle in Hnd. by apply NoDup_cons in Hnd as [_ ?].
Qed.

Lemma ws_inv_step msgs label c c' :
  ws_inv msgs c → ws_step label c c' → ws_inv (msgs ++ option_list label) c'.
Proof.
  intros Hi Hstep. destruct Hstep as [s s' sub rd out alive H1 H2|c c' m Hr Ho Hw|s sub out m Ho
    |s sub req w rest acc out channel Hc|c c' req w rest acc e Hr Hc Hw|s sub req out|c c' req acc Hr Hne Hw
    |s sub rd out event h ok Hrec|c c' Hw|s sub rd out alive]; cbn [option_list]; rewrite ?app_nil_r.
  - by eapply ws_inv_other.
  - eapply ws_write_inv; [by apply ws_inv_more|done..].
  - eapply ws_inv_reader; [by apply ws_inv_more|]. split; [|done]. apply Forall_forall. intros w Hw.
    exists m. split_and!; [apply elem_of_app; right; left|done|done].
  - pose proof (wi_reader _ _ Hi) as [Hrest Hacc]. cbn in *. apply Forall_cons in Hrest as [Hw Hrest].
    apply ws_inv_add with (rd := Subscribing req (w :: rest) acc); [done|by exists w|]. split; [done|].
    apply Forall_app. split; [done|]. apply Forall_singleton. by exists w, channel.
  - pose proof (wi_reader _ _ Hi) as Hrd. rewrite Hr in Hrd. destruct Hrd as [Hrest Hacc].
    apply Forall_cons in Hrest as [_ Hrest]. by eapply ws_write_inv.
  - by eapply ws_inv_reader.
  - pose proof (wi_reader _ _ Hi) as Hrd. rewrite Hr in Hrd. destruct Hrd as [_ Hacc].
    eapply ws_write_inv; [done|done|done|done|]. by intros ? ? [= <- <-].
  - by apply ws_inv_event.
  - eapply ws_write_inv; [done|done|by apply (wi_reader _ _ Hi)|done|done].
  - eapply ws_inv_reader; [done|]. by apply (wi_reader _ _ Hi).
Qed.

Lemma ws_inv_start s : hub_reachable s → ws_inv [] (ws_start s).
Proof.
  intros Hh. unfold ws_start, Subscribe. split; cbn.
  - eapply reach_step; [exact Hh|]. destruct s. apply step_subscribe.
  - done.
  - by intros ? ? ?%not_elem_of_nil.
  - eexists. rewrite lookup_insert_eq. split; [done|]. cbn. split_and!; try by intros ? ?%not_elem_of_nil.
    + set_solver.
    + constructor.
Qed.

(** C32: under every interleaving of a connection with the publishers and the other
    connections, an event is written only when it is of a channel that the client had
    asked for and that was granted, so that no candle of a timeframe that is disabled
    for the exchange is ever sent; no event is written twice; and a subscription is
    acknowledged only for requests of the client that were granted. *)
Theorem ws_subscribed_only msgs c :
  ws_reachable msgs c →
  (∀ e, e ∈ sent c.(WsConn.out) → ∃ w channel, asked msgs w ∧ hub_channel w = Ok channel ∧ channel ∈ eventChannels e) ∧
  NoDup (seqs (sent c.(WsConn.out))) ∧
  (∀ req ws w', Subscribed req ws ∈ c.(WsConn.out) → w' ∈ ws →
     ∃ w channel, asked msgs w ∧ w' = normalized_channel w ∧ hub_channel w = Ok channel).
Proof.
  intros Hr. assert (Hi : ws_inv msgs c).
  { induction Hr as [s Hs|msgs c c' label Hr IH Hstep]; [by apply ws_inv_start|by eapply ws_inv_step]. }
  destruct Hi as [_ _ Ha (s & _ & Hg & Hm & Hnd & _)]. split_and!.
  - intros e He. destruct (Hm e) as (channel & Hc & Hin); [apply elem_of_app; by left|].
    destruct (Hg channel Hin) as (w & ? & ?). by exists w, channel.
  - unfold seqs in *. rewrite fmap_app in Hnd. by apply NoDup_app in Hnd as [? _].
  - intros req ws w' Hin Hw. specialize (Ha _ _ Hin). rewrite Forall_forall in Ha. by apply Ha.
Qed.

(** A client asks for the minutes of one market and gets the next one. *)
Definition sample_request : wsMessage := wsMessage.mk "subscribe" "1" [wsChannel.mk "kline" " OKX" "btc-usdt" "1m"].
Definition sample_kline : Event := Event.mk "kline" 0 "okx" "BTC-USDT" "1m" None None.
Definition sample_subscribed : Hub := Add 0 "kline:okx:BTC-USDT:1m" (snd (Subscribe NewHub)).
Definition sample_numbered : Event * Hub := number_event sample_kline sample_subscribed.
Definition sample_delivered : option Hub := deliver sample_numbered.1 sample_numbered.2.

Lemma leaves_alone_same sub h h' : h'.(Hub.subs) = h.(Hub.subs) → leaves_alone sub h h'.
Proof. intros E s Hs. exists s, []. by rewrite E, app_nil_r. Qed.

Lemma leaves_alone_delivered event sub h h' : deliver event h = Some h' → leaves_alone sub h h'.
Proof.
  intros Hd s Hs. apply deliver_spec in Hd as (_ & _ & _ & Hl). rewrite Hl, Hs. simpl.
  exists (if recipient event h sub s then offer event s else s),
    (if recipient event h sub s && negb (full s) then [event] else []).
  split; [done|]. unfold offer. destruct (recipient event h sub s), (full s); simpl; by rewrite ?app_nil_r.
Qed.

Lemma sample_session : ∃ c, ws_reachable [sample_request] c ∧ sent c.(WsConn.out) = [sample_numbered.1] ∧
  ∃ req ws, Subscribed req ws ∈ c.(WsConn.out) ∧ wsChannel.mk "kline" "okx" "BTC-USDT" "1m" ∈ ws.
Proof.
  destruct sample_delivered as [h|] eqn:Ed; [|vm_compute in Ed; discriminate Ed].
  assert (Hrec : fst (Receive 0 h) = Some sample_numbered.1) by (vm_compute in Ed; injection Ed as <-; reflexivity).
  destruct (Receive 0 h) as [[event|] h'] eqn:Er; [|discriminate Hrec]. cbn in Hrec. injection Hrec as ->.
  set (w := wsChannel.mk "kline" " OKX" "btc-usdt" "1m"). set (ack := Subscribed "1" [normalized_channel w]).
  assert (R1 : ws_reachable [sample_request]
    (WsConn.mk (HubSys.mk (snd (Subscribe NewHub)) [] []) 0 (Subscribing "1" [w] []) [] true)).
  { apply (WsReachStep [] _ _ (Some sample_request) (WsReachStart hub_init reach_init)). by apply WsSubscribe. }
  assert (R2 : ws_reachable [sample_request]
    (WsConn.mk (HubSys.mk sample_subscribed [] []) 0 (Subscribing "1" [] [normalized_channel w]) [] true)).
  { apply (WsReachStep [sample_request] _ _ None R1). apply WsAccept. vm_compute. reflexivity. }
  assert (R3 : ws_reachable [sample_request] (WsConn.mk (HubSys.mk sample_subscribed [] []) 0 Waiting [ack] true)).
  { apply (WsReachStep [sample_request] _ _ None R2). eapply WsAcknowledge; [reflexivity|discriminate|apply WriteOk]. }
  assert (R4 : ws_reachable [sample_request]
    (WsConn.mk (HubSys.mk sample_numbered.2 [sample_numbered.1] []) 0 Waiting [ack] true)).
  { apply (WsReachStep [sample_request] _ _ None R3). apply WsOther; [|by apply leaves_alone_same].
    apply (step_number sample_subscribed [] [] sample_kline). vm_compute. reflexivity. }
  assert (R5 : ws_reachable [sample_request] (WsConn.mk (HubSys.mk h [] []) 0 Waiting [ack] true)).
  { apply (WsReachStep [sample_request] _ _ None R4). apply WsOther; [|by eapply leaves_alone_delivered].
    pose proof (step_deliver sample_numbered.2 [] sample_numbered.1 [] []) as Hstep.
    change (deliver _ _) with sample_delivered in Hstep. by rewrite Ed in Hstep. }
  eexists. split; [apply (WsReachStep [sample_request] _ _ None R5), (WsEvent _ _ _ _ sample_numbered.1 h' true), Er|].
  split; [reflexivity|]. exists "1", [normalized_channel w]. split; [left|]. vm_compute. left.
Qed.

Example ws_subscribed_only_witness :
  ∃ c e, ws_reachable [sample_request] c ∧ e ∈ sent c.(WsConn.out) ∧
    ∃ w channel, asked [sample_request] w ∧ hub_channel w = Ok channel ∧ channel ∈ eventChannels e.
Proof.
  destruct sample_session as (c & Hc & Hs & _). exists c, sample_numbered.1.
  assert (He : sample_numbered.1 ∈ sent c.(WsConn.out)) by (rewrite Hs; left).
  split; [exact Hc|]. split; [exact He|]. exact (proj1 (ws_subscribed_only [sample_request] c Hc) _ He).
Defined.

(** ** The query of candles *)

(** A question to the service, with what it answered. *)
Definition klines_call (c : call apiE) : option (KlineQuery * result go_error (list Bar)) :=
  match c with
  | Call e x =>
      match e in apiE X return X → option (KlineQuery * result go_error (list Bar)) with
      | Klines_ query => fun answer => Some (query, answer)
      | _ => fun _ => None
      end x
  end.
Definition klines_answers (tr : list (call apiE)) : list (KlineQuery * result go_error (list Bar)) := omap klines_call tr.

(** The candles come from the service of MarketService.v, over some store that is in
    order. *)
Definition served (cfg : MarketService.Config.Config) (c : call apiE) : Prop :=
  match c with
  | Call e x =>
      match e in apiE X return X → Prop with
      | Klines_ query => fun x => ∀ bars, x = Ok bars →
          ∃ (St : Type) (H : HistoricalStore St) (_ : HistoricalStoreLaws St) (s s' : Svc St),
            hs_ok s.(Svc.store) ∧ MarketService.Klines cfg query s = (MarketService.Ret bars, s')
      | _ => fun _ => True
      end x
  end.

(** The query a request asks for, if it is one. *)
Definition klines_query (r : Request) : option KlineQuery :=
  match requiredMarketParams r with
  | Err _ => None
  | Ok (exchange, symbol) =>
      let tf := TrimSpace (param r "timeframe") in
      if is_ok (ValidateForExchange exchange tf) then
        (fun limit => KlineQuery.mk exchange symbol tf limit (include_live r)) <$> limit_param r
      else None
  end.

Definition reported (r : Request) (resp : Response) (c : call apiE) : Prop :=
  ∃ duration now, c = Call (Report (MHTTPRequest (routeName r.(Request.Path)) r.(Request.Method)
    (if resp.(Response.Status) =? 0 then 200 else resp.(Response.Status)) duration now)) tt.

Lemma gzip_keeps resp :
  (gzip_WriteHeader resp).(Response.Status) = resp.(Response.Status) ∧
  (gzip_WriteHeader resp).(Response.Body) = resp.(Response.Body).
Proof. destruct resp as [status h body c]. unfold gzip_WriteHeader. by repeat case_bool. Qed.

(** What is around the handler of a route adds the headers and the observation. *)
Lemma Handler_runs monitor r tr resp :
  r.(Request.Method) ≠ "OPTIONS" → runs (Handler monitor r) tr resp →
  ∃ h tr0 resp0 before after, runs (mux monitor r h) tr0 resp0 ∧ tr = before ++ tr0 ++ after ∧
    klines_answers before = [] ∧ klines_answers after = [] ∧
    resp.(Response.Status) = resp0.(Response.Status) ∧ resp.(Response.Body) = resp0.(Response.Body) ∧
    (monitor = true → ∃ c, last tr = Some c ∧ reported r resp c).
Proof.
  intros Hm Hr. unfold Handler in Hr.
  assert (Hinner : ∀ tr1 resp1, runs (gzipResponses (cors (mux monitor r) r) r ∅) tr1 resp1 →
    ∃ h resp0, runs (mux monitor r h) tr1 resp0 ∧ resp1.(Response.Status) = resp0.(Response.Status) ∧
      resp1.(Response.Body) = resp0.(Response.Body)).
  { intros tr1 resp1 H1. unfold gzipResponses, cors in H1. rewrite (bool_decide_false _ Hm) in H1.
    destruct (_ || _); [by eauto|].
    apply runs_bind in H1 as (tr2 & resp2 & tr3 & -> & H2 & [-> ->]%runs_Ret). rewrite app_nil_r.
    destruct (gzip_keeps resp2). eauto. }
  destruct monitor.
  - unfold observeHTTP in Hr. apply runs_bind in Hr as (tr1 & started & tr2 & -> & ->%runs_trigger & Hr).
    apply runs_bind in Hr as (tr3 & resp1 & tr4 & -> & (h & resp0 & H0 & Hs & Hb)%Hinner & Hr).
    apply runs_bind in Hr as (tr5 & ended & tr6 & -> & ->%runs_trigger & Hr).
    apply runs_bind in Hr as (tr7 & now & tr8 & -> & ->%runs_trigger & Hr).
    apply runs_bind in Hr as (tr9 & [] & tr10 & -> & ->%runs_trigger & [-> ->]%runs_Ret).
    eexists h, tr3, resp0, [Call Now started], _. split; [done|]. split; [cbn [app]; reflexivity|].
    split_and!; try done. intros _. eexists. split.
    + rewrite app_assoc, last_app. reflexivity.
    + by exists (Sub ended started), now.
  - apply Hinner in Hr as (h & resp0 & H0 & Hs & Hb). exists h, tr, resp0, [], []. by rewrite app_nil_r.
Qed.

(** C33: a query of candles is refused with 400, without asking the service, when its
    market, its timeframe or its limit is not valid; otherwise the service is asked
    exactly once, for the normalized query, and its answer decides the response: its
    error is reported with 500, and its candles, all of them and nothing else, are sent
    with 200.  Over a store in order they are strictly ordered by their start and at
    most one more than the limit (300 by default, 1000 at most).  The monitoring learns
    the status. *)
Theorem klines_endpoint cfg monitor r tr resp :
  r.(Request.Path) = "/api/v1/klines" → r.(Request.Method) ∈ ["GET"; "HEAD"] →
  runs (Handler monitor r) tr resp → all_calls (served cfg) tr →
  (monitor = true → ∃ c, last tr = Some c ∧ reported r resp c) ∧
  match klines_query r with
  | None => resp.(Response.Status) = 400 ∧ klines_answers tr = [] ∧ ∃ e, resp.(Response.Body) = ErrorBody e
  | Some query =>
      ∃ answer, klines_answers tr = [(query, answer)] ∧
      match answer with
      | Err e => resp.(Response.Status) = 500 ∧ resp.(Response.Body) = ErrorBody e
      | Ok bars =>
          resp.(Response.Status) = 200 ∧
          resp.(Response.Body) = KlinesBody query.(KlineQuery.Exchange) query.(KlineQuery.Symbol)
                                   query.(KlineQuery.Timeframe) bars ∧
          key_sorted Bar.StartMS bars ∧ Z.of_nat (length bars) <= kline_limit query + 1 <= 1001
      end
  end.
Proof.
  intros Hp Hm Hr Hall.
  assert (Hno : r.(Request.Method) ≠ "OPTIONS") by (intros E; rewrite E in Hm; set_solver).
  destruct (Handler_runs _ _ _ _ Hno Hr) as (h & tr0 & resp0 & before & after & H0 & -> & Qb & Qa & Hs & Hb & Hrep).
  split; [exact Hrep|]. clear Hrep Hr. rewrite Hs, Hb. clear Hs Hb. unfold klines_answers in *.
  rewrite !omap_app, Qb, Qa, app_nil_r, app_nil_l.
  assert (Hk : runs (klines r h) tr0 resp0).
  { unfold mux in H0. rewrite (bool_decide_true _ Hm), Hp in H0. simpl negb in H0. cbv iota in H0.
    rewrite !(bool_decide_false (_ = _)) in H0 by discriminate. by rewrite andb_false_r, bool_decide_true in H0. }
  clear H0 Hp Hm Hno. unfold klines in Hk. unfold klines_query.
  destruct (requiredMarketParams r) as [[exchange symbol]|e]; [|apply runs_Ret in Hk as [-> ->]; split_and!; eauto].
  destruct (ValidateForExchange exchange _) as [f|e]; cbn [is_ok]; [|apply runs_Ret in Hk as [-> ->]; split_and!; eauto].
  destruct (limit_param r) as [limit|]; cbn [fmap option_fmap option_map]; [|apply runs_Ret in Hk as [-> ->]; split_and!; eauto].
  apply runs_bind in Hk as (tr1 & [bars|e] & tr2 & -> & ->%runs_trigger & [-> ->]%runs_Ret); cbn; (eexists; split; [done|]); cbn.
  - split; [done|]. split; [done|].
    apply Forall_app in Hall as [_ [Hall _]%Forall_app]. apply (Forall_cons_1 (served cfg)) in Hall as [Hserved _].
    destruct (Hserved bars eq_refl) as (St & HS & HL & s & s' & Hok & Hrun).
    destruct (Klines_window cfg _ s bars s' Hok Hrun) as (_ & stored & live & _ & Hlim & _ & _ & Hso & Hle).
    split; [done|]. lia.
  - done.
Qed.

Definition sample_api : handler apiE unit := λ X e w,
  match e in apiE X return option (X * unit) with
  | Now => Some (1779300000000000000, w)
  | Klines_ query =>
      Some (match fst (MarketService.Klines sample_config query sample_service) with
            | MarketService.Ret bars => Ok bars
            | _ => Err (Errorf "failed")
            end, w)
  | Report _ => Some (tt, w)
  | _ => None
  end.
Definition sample_get : Request :=
  Request.mk "GET" "/api/v1/klines" [("exchange", "OKX"); ("symbol", "btc-usdt"); ("timeframe", "1m"); ("limit", "3")] "gzip" "".

Lemma sample_api_served X (e : apiE X) w x w' : sample_api X e w = Some (x, w') → served sample_config (Call e x).
Proof.
  destruct e; simpl; try done. intros [= <- _] bars Hb.
  destruct (MarketService.Klines sample_config query sample_service) as [out s'] eqn:E. cbn in Hb.
  destruct out as [bars'|e| |]; simplify_eq/=. exists MemoryHistoricalStore, _, _, sample_service, s'.
  split; [apply sample_service_ok|exact E].
Qed.

Example klines_endpoint_witness :
  match exec sample_api (Handler true sample_get) tt with
  | Some (tr, resp, _) =>
      resp.(Response.Status) = 200 ∧ resp.(Response.Compressed) = true ∧
      ∃ query bars, klines_answers tr = [(query, Ok bars)] ∧
        resp.(Response.Body) = KlinesBody "okx" "BTC-USDT" "1m" bars ∧ key_sorted Bar.StartMS bars
  | None => False
  end.
Proof.
  destruct (exec sample_api (Handler true sample_get) tt) as [[[tr resp] []]|] eqn:E; [|vm_compute in E; discriminate E].
  pose proof (exec_runs _ _ _ _ _ _ E) as Hr.
  pose proof (exec_all_calls _ (served sample_config) _ _ _ _ _ sample_api_served E) as Hall.
  assert (Hv : resp.(Response.Status) = 200 ∧ resp.(Response.Compressed) = true)
    by (vm_compute in E; injection E as _ <-; split; reflexivity).
  destruct Hv as [H1 H2]. split; [exact H1|]. split; [exact H2|].
  destruct (klines_endpoint sample_config true sample_get tr resp eq_refl (list_elem_of_here _ _) Hr Hall)
    as [_ (answer & Hq & Ha)]. destruct answer as [bars|e]; [|destruct Ha as [H500 _]; rewrite H1 in H500; discriminate H500].
  destruct Ha as (_ & Hb & Hs & _). eexists _, bars. split; [exact Hq|]. split; [exact Hb|exact Hs].
Defined.

(** A client that refuses gzip is answered with gzip. *)
Example refused_gzip_is_used : acceptsGzip "identity, gzip;q=0" = true.
Proof. reflexivity. Qed.

(** A connection of an hour counts as a request of an hour. *)
Definition sample_socket : handler apiE Z := λ X e now,
  match e in apiE X return option (X * Z) with
  | Now => Some (now, now)
  | Upgrade _ => Some (None, now)
  | Session => Some (tt, now + Hour)
  | Report _ => Some (tt, now)
  | _ => None
  end.
Example session_is_latency :
  match exec sample_socket (Handler true (Request.mk "GET" "/api/v1/ws" [] "" "websocket")) 0 with
  | Some (tr, _, _) => last tr = Some (Call (Report (MHTTPRequest "/api/v1/ws" "GET" 200 Hour Hour)) tt)
  | None => False
  end.
Proof. reflexivity. Qed.
